(* ===== verification/_CoqProject ===== *)
-Q . S2P
Prelude.v
CppString.v
Config.v
PortSpec.v
Fwmark.v
Netlink.v
Json.v
JsonSample.v
ConfigJson.v
ApiJson.v
Runtime.v
Md5.v
RouteTable.v
PolicyRule.v
RoutingReconciler.v
RoutingVerifier.v
RoutingState.v
AddrSpec.v
DnsServer.v
DnsProbe.v
DnsTxt.v
FirewallRules.v
ListParser.v
IpSet.v
CircuitBreaker.v
UrlTest.v
ListStreamer.v
Cache.v
ListService.v
ConfigStore.v
ConfigDisk.v
ControlProtocol.v
Firewall.v
FirewallTrace.v
Nftables.v
Packet.v
NftSemantics.v
RuleSearch.v
NftVerifier.v
NftVerified.v
Iptables.v
IptVerifier.v
FirewallReconciler.v
IptVerified.v
HealthReport.v
OutboundHealth.v
Dnsmasq.v
ResolverSync.v
TestRouting.v
TestRoutingReport.v
Cron.v
Validation.v
KeeneticDns.v
DaemonState.v
Scheduler.v
DaemonRuntime.v
DaemonIpc.v
DaemonControl.v
DaemonFrame.v
DaemonVerified.v
DaemonSample.v
DaemonIpcSample.v
