(* ===== verification/Prelude.v ===== *)
(** * A verification library for keen-pbr

    keen-pbr routes traffic by policy: a daemon reads a configuration of
    outbounds, lists and rules, gives every outbound a firewall mark and a
    routing table, installs routes and policy rules through netlink, marks
    packets with the firewall, probes the children of urltest outbounds and
    keeps the kernel in step with the configuration.  The library models the
    decisions of that program as executable functions translated from the C++
    sources (under src/src/) and proves what they promise.

    ** How the parts interact

    A document is parsed, checked and decoded into the configuration
    ([Config.Config]), which feeds the mark allocator and the planner.  The
    planner produces routes and rules, which the two managers install through
    the netlink interface; the reconciler repairs the kernel against the plan
    and the verifier reads it back.  The same configuration produces the
    firewall's rule states; the firewall runtime streams the lists and queues
    sets and rules on a backend, nftables or iptables, which applies them.
    Lists are streamed from files, parsed line by line and looked up in an
    address set by the routing test.  Probes with circuit breakers choose the
    child of a urltest, and the choice changes the plan.  For names, the DNS
    servers are registered, dnsmasq's configuration is generated with a hash
    that the resolver publishes as a TXT record, and the daemon asks for the
    record until the resolver has caught up; the router's own DNS proxy is a
    source of servers.  The configuration lives in a store with an active
    version and a staged draft, and is written to disk by an atomic replacement;
    the list service downloads the lists into a cache.  The daemon composes all
    of it: an event loop runs control tasks, the timers of the scheduler and the
    clients of a control socket, workers run lifecycle operations one at a time,
    and an apply builds the candidate, puts it in force, waits for the resolver
    and only then commits.

    ** Files

    - [Prelude]: strings, fixed-width integers, the result types [exc] and
      [stexc] with the logic of invariants [preserves], standard algorithms,
      loops bounded by a power of two, sorting, automation.
    - [CppString]: the character and string functions of the C and C++
      libraries that the sources use.
    - [Config], [Json], [ConfigJson], [ApiJson]: the configuration structs and
      the API's messages (api/generated/api_types.hpp, config/config.hpp), JSON
      values, and the conversions between them; [JsonSample]: a concrete printer
      and parser for witnesses.
    - [PortSpec], [AddrSpec]: port and address specifications
      (firewall/port_spec_util.cpp, config/addr_spec.hpp and their validation in
      config/config.cpp).
    - [Fwmark]: masks and the allocation of marks (config/config.cpp).
    - [Validation]: parse_config and validate_config (config/config.cpp).
    - [Netlink]: routes, rules and dumps, and the class [Netlink] that states
      what the managers rely on (routing/netlink.hpp).
    - [RouteTable], [PolicyRule]: the two managers (routing/route_table.cpp,
      routing/policy_rule.cpp), their calls as step relations.
    - [RoutingReconciler], [RoutingVerifier]: routing/routing_reconciler.cpp,
      routing/routing_verifier.cpp.
    - [RoutingState]: table ids, the plan and its transactional installation
      (config/routing_state.cpp).
    - [Runtime]: runtime/ (state machine, lifecycle operations, coordinators,
      conntrack marks, the generic reconciler).
    - [FirewallRules]: rule states, criteria, pruning, the recovery of a
      selection (config/routing_state.cpp, routing/target.cpp,
      routing/firewall_state.cpp).
    - [Firewall], [FirewallTrace]: the interface of the backends
      (firewall/firewall.hpp) as a class, the firewall runtime over it
      (firewall/firewall_runtime.cpp), and the calls it makes as a trace.
    - [Nftables], [Packet], [NftSemantics]: the nftables backend
      (firewall/nftables.cpp, firewall/nft_batch_pipe.cpp), packets, and what
      the generated document does to a packet.
    - [Iptables]: the iptables backend (firewall/iptables.cpp,
      firewall/ipset_restore_pipe.cpp).
    - [FirewallReconciler]: the comparison of firewall states and the generic
      reconciliation (firewall/firewall_reconciler.cpp).
    - [RuleSearch], [NftVerifier], [NftVerified], [IptVerifier], [IptVerified]:
      the verifiers that read the live firewall back
      (firewall/nftables_verifier.cpp, firewall/iptables_verifier.cpp) and why
      they accept what the backends install.
    - [HealthReport], [OutboundHealth]: the routing health report
      (health/routing_health_checker.cpp, firewall/firewall_verifier.cpp), the
      reachability checks and the live states of outbounds and interfaces
      (config/routing_state.cpp, health/runtime_outbound_state.cpp,
      health/runtime_interface_inventory.cpp).
    - [ListParser], [ListStreamer], [IpSet]: config/list_parser.cpp,
      lists/list_streamer.cpp, lists/ipset.cpp.
    - [Cache], [ListService]: http/http_client.cpp, cache/cache_manager.cpp and
      daemon/list_service.cpp.
    - [ConfigStore], [ConfigDisk]: daemon/config_store.cpp,
      daemon/config_apply_transaction.cpp, config/config_writer.cpp, the
      serializer of api/handler_config.cpp and daemon/disk_config_state.cpp.
    - [CircuitBreaker], [UrlTest]: health/circuit_breaker.cpp,
      health/url_tester.cpp, routing/urltest_manager.cpp.
    - [DnsServer], [DnsProbe], [DnsTxt], [Dnsmasq]: dns/dns_server.cpp and
      dns/dns_router.cpp, dns/dns_probe_server.cpp, dns/dns_txt_client.cpp,
      dns/dnsmasq_gen.cpp; [KeeneticDns]: dns/keenetic_dns.cpp; [Md5]:
      crypto/md5.hpp.
    - [ResolverSync]: daemon/resolver_sync_state_machine.cpp,
      daemon/resolver_health.cpp, daemon/resolver_apply_confirmation.cpp and
      the probe protocol of daemon/daemon_resolver.cpp.
    - [TestRouting], [TestRoutingReport]: cmd/test_routing.cpp, the lookups and
      the two outbounds in the first, the whole report and its threads in the
      second.
    - [Cron]: util/cron.hpp.
    - [Scheduler]: daemon/scheduler.cpp over the kernel's timers and the event
      loop's table of descriptors.
    - [ControlProtocol]: ipc/control_protocol.cpp, ipc/control_client.cpp,
      ipc/resolver_fallback.cpp and the stream buffer of daemon/daemon_core.cpp.
    - [DaemonState], [DaemonRuntime], [DaemonControl], [DaemonIpc]: the members
      of the class Daemon, its operations on the runtime, its tasks, jobs, loop
      and lifecycle operations, and its control socket (daemon/daemon.hpp,
      daemon_core.cpp, daemon_runtime.cpp, daemon_resolver.cpp,
      daemon_dns_probe.cpp, daemon_api.cpp).  The class [Host] of [DaemonState]
      holds what the daemon asks of the rest of the system; most of its members
      are modelled in a file of their own.
    - [DaemonFrame], [DaemonVerified]: which operations leave which members
      alone, and what the daemon promises; [DaemonSample], [DaemonIpcSample]: a
      concrete system for the witnesses.

    ** How code becomes definitions

    An integer of a fixed width is a [Z], with its wrap-around written out
    ([u32], [i32]); a signed overflow, a read or write out of bounds, a process
    abort or a wait that never ends is [Undefined].  A call that may throw returns [exc]; one that
    also changes state is a [stexc], and a throw keeps the state reached.  An
    object is a record, its methods are functions of the record, and the world
    an object acts on (the kernel, the firewall tools, the scheduler, the files,
    the clock) is a type class or an argument, so that every theorem holds for
    any behaviour that satisfies the stated laws; each has a concrete instance
    in the witnesses.  [std::sort] is the class [StdSort]: any permutation in
    order, not a particular one.  Mutexes become atomic steps: one critical
    section, one step.

    ** What the theorems show

    - Validation: what is accepted is well formed, what keeps to the
      documentation is accepted, and an accepted document can be run; every JSON
      form is read back as what was written.
    - Allocation: marks are distinct, complete, and exhausted exactly at the
      capacity of the mask; masks are validated exactly.
    - Managers: no call deletes what predates the process, [clear] restores the
      kernel exactly, a reconcile establishes exactly the desired state, and
      adding a rule of two families is all or nothing.
    - Reconciler and verifier: on a kernel that installs what it is asked for, up
      to the metric of a route without one, a reconcile that returns leaves
      every desired object and no stale one, deletes nothing foreign however it
      ends, and leaves a state the verifier accepts; the verifier is exact.
    - Plan: with room for the priorities, planning is total and fail-safe (every
      mark is sent to its outbound's table, with default routes unless the
      outbound is a table or a non-strict interface that is not reachable, and
      with a guard for urltests, strict outbounds and detours), priorities
      increase, table ids are found and usable, installation is a transaction on
      the kernel, and every mark of a queued rule, of route rules and of DNS
      detours, is routed by the plan.
    - Firewall: what is queued on any backend is the rule states in order; the
      nftables document, run over whatever the chains held before, treats every
      packet as the prefilter and then the first matching rule say, when no rule
      was left queued by a failed run; the iptables rules select the same
      packets, and a failed update in place leaves the live rules alone and
      writes only sets of the inactive generations; an empty difference means
      equal states, and a committed reconciliation was read back and accepted.
    - Health: both firewall verifiers find every rule that their backend
      installed (with nftables for runs with IPv6 whose states they can
      recognize), a good verdict means that distinct live rules exist, the health
      report is good exactly when firewall, routes and policy rules are as
      tracked and is good after a successful application on the same conditions;
      the live state names the child that carries the traffic.
    - Texts: the parsers of ports, addresses, domains, lists, DNS servers and
      cron fields accept exactly their languages; printing and parsing are
      inverse.
    - Lists: chunked reading is line parsing, streaming delivers the sources in
      order, the trie refines the set of networks, the routing test finds the
      first matching rule and agrees with an nftables kernel in sync; its report
      is complete, and its threads in any interleaving give the rows of a
      sequential loop.
    - Downloads: a refreshed list is the server's current one (of a server that
      tags its versions, when the cache is in step and files are written whole),
      and concurrent refreshes are executed one after the other.
    - Configuration file: whatever fails in a write, the file is the old one or
      the new one, whole, also after a power failure; a saved configuration
      reads back as itself.
    - Probing: a breaker opens exactly on a run of failures and stays shut for
      its cooldown; in every interleaving of registrations, probes, results and
      resets at most one probe of a urltest counts, the results of others are
      discarded, and no half-open child is starved; the selection is the best by weight, latency and stability.
    - DNS: the query parser reads only the packet, answers echo the question,
      TCP queries are reassembled; dnsmasq's rows are complete and short enough,
      the published hash is the expected one and is read back; the digest is the
      MD5 of RFC 1321, which is written out apart from the code; the servers of
      the router's proxy are extracted exactly (from answers whose scoped
      servers have usable addresses), and its cache serves
      the last good answer.
    - Resolver and lifecycle: the reported state is what the history of events
      justifies, the wait for a confirmation ends, at most one probe is under
      way; lifecycle operations are serialised.
    - Daemon: an apply is all or nothing (the file and the active configuration
      change only after the candidate is in force and confirmed), and a worker
      that returns leaves its operation finished; one that waits for an event
      loop that has ended never returns.
    - Control socket: every client gets one answer and is closed, or is handed to
      the streams; only root changes anything; a command that succeeds has the
      resolver's whole configuration or the fallback, provided that a failed
      send keeps failing, and a stopped daemon ends in the fallback.
    - Time: for standard cron entries that restrict at most one of the two day
      fields the next fire time is the earliest minute at which the entry fires;
      the scheduler refines a list of tasks, with delays other than zero, of
      which only due ones run.
    - Theorems named for a defect ([detour_guard_priority_wraps],
      [padded_reference_never_resolves], [negated_list_selects_everything] and
      others) state, on concrete inputs, where the code departs from its intent.

    ** Bounds and fuel

    Loops that are not structural carry fuel, and lemmas show it sufficient:
    [run_pow n] makes up to [2^n] turns ([safe_table_id] uses 64 with a
    measure below [2^64], [cron_next] 21 for 1,054,080 turns); the loops over a
    text or a packet ([parse_groups], [domain_loop], [domain_candidates_loop],
    [qname_loop], [skip_records]) get one turn per byte or record; the digit
    loops get the bit length; the wait of [ResolverSync] gets any number above
    timeout / interval.  The counters of generations and failures are bounded
    by hypotheses on the number of steps.

    ** What is not modelled

    Third-party code and I/O: the netlink messages (libnl), the text of JSON
    documents and its parser, the firewall tools, HTTP transfers, sockets and
    libresolv, the HTTP server and the wiring of its handlers, the creation of
    descriptors and epoll, the executor's threads, logging and the crash
    diagnostics.  Presentation: the command line, the text of the status command,
    the status stream, the descriptions of Keenetic interfaces.  The pid file.
    The daemon's steps are whole tasks, jobs and callbacks: what another thread
    does in the middle of one, other than where a worker waits for the event
    loop, is not represented. *)

From stdpp Require Export base tactics decidable list sorting gmap numbers strings.
From Stdlib Require Export ZArith Lia Ascii.

#[global] Set Default Goal Selector "!".

Declare Scope kpbr_scope.
Delimit Scope kpbr_scope with kpbr.
#[global] Open Scope kpbr_scope.

Local Open Scope Z_scope.

(** ** Strings

    A [std::string] is its list of bytes.  String literals are coerced. *)

Abbreviation cstring := (list ascii).
Definition str (s : string) : cstring := String.list_ascii_of_string s.
Coercion str : string >-> list.

(** ** Fixed-width integers

    A value of an unsigned C++ type of [w] bits is a [Z] in [[0, 2^w)]; the
    conversions and the wrap-around of arithmetic are written with [wrap]. *)

Definition wrap (w x : Z) : Z := x mod 2 ^ w.
Abbreviation u8 := (wrap 8).
Abbreviation u16 := (wrap 16).
Abbreviation u32 := (wrap 32).
Abbreviation u64 := (wrap 64).
(** A narrowing conversion to a signed type of [w] bits (two's complement). *)
Definition swrap (w x : Z) : Z := (x + 2 ^ (w - 1)) mod 2 ^ w - 2 ^ (w - 1).
Abbreviation i32 := (swrap 32).

Lemma wrap_small w x : 0 ≤ x < 2 ^ w → wrap w x = x.
Proof. apply Z.mod_small. Qed.

Lemma wrap_range w x : 0 ≤ w → 0 ≤ wrap w x < 2 ^ w.
Proof. intros. apply Z.mod_pos_bound, Z.pow_pos_nonneg; lia. Qed.

Definition UINT32_MAX : Z := 4294967295.
Definition INT_MAX : Z := 2147483647.
Definition INT_MIN : Z := -2147483648.
(** [~x] of a [uint32_t] *)
Definition not32 (x : Z) : Z := UINT32_MAX - x.
Definition in_int (x : Z) : bool := (INT_MIN <=? x) && (x <=? INT_MAX).

Definition AF_INET : Z := 2.
Definition AF_INET6 : Z := 10.

(** ** Results of C++ code that may throw

    [Throw] is an exception leaving the call; [Undefined] marks executions
    whose behaviour the language does not define (a signed overflow, a write
    out of bounds), which no handler catches. *)

Inductive exn :=
  | invalid_argument (what : cstring)
  | out_of_range (what : cstring)
  | logic_error (what : cstring)
  | runtime_error (what : cstring)
  | ConfigError (what : cstring)
  | NetlinkError (what : cstring)
  | FirewallError (what : cstring)
  | SchedulerError (what : cstring)
  | ControlProtocolError (what : cstring)
  | HttpTransportError (what : cstring)
  | DnsError (what : cstring)
  | KeeneticDnsError (what : cstring)
  | DaemonError (what : cstring)
  | ApiError (what : cstring)
  | json_exception (what : cstring)
  | foreign_exception. (* not derived from std::exception *)

Definition what (e : exn) : option cstring :=
  match e with
  | invalid_argument w | out_of_range w | logic_error w | runtime_error w | ConfigError w
  | NetlinkError w | FirewallError w | SchedulerError w
  | ControlProtocolError w | HttpTransportError w | DnsError w | KeeneticDnsError w | DaemonError w
  | ApiError w | json_exception w => Some w
  | foreign_exception => None
  end.

Inductive exc (A : Type) :=
  | Ok (a : A)
  | Throw (e : exn)
  | Undefined.
Arguments Ok {_} _.
Arguments Throw {_} _.
Arguments Undefined {_}.

#[export] Instance exc_ret : MRet exc := λ A a, Ok a.
#[export] Instance exc_bind : MBind exc := λ A B f m,
  match m with Ok a => f a | Throw e => Throw e | Undefined => Undefined end.
#[export] Instance exc_fmap : FMap exc := λ A B f m,
  match m with Ok a => Ok (f a) | Throw e => Throw e | Undefined => Undefined end.

Definition is_ok {A} (m : exc A) : bool := match m with Ok _ => true | _ => false end.

Definition from_exc {A} (d : A) (m : exc A) : A := match m with Ok a => a | _ => d end.

Lemma from_exc_Ok {A} (d : A) m : is_ok m = true → m = Ok (from_exc d m).
Proof. by destruct m. Qed.

Lemma exc_bind_Ok {A B} (f : A → exc B) m b :
  m ≫= f = Ok b ↔ ∃ a, m = Ok a ∧ f a = Ok b.
Proof. destruct m; cbn; naive_solver. Qed.

(** Computations over a mutable state that may throw; a throw keeps the state
    reached so far, as unwinding does not undo side effects. *)

Definition stexc (S A : Type) : Type := S → exc A * S.

#[export] Instance stexc_ret S : MRet (stexc S) := λ A a s, (Ok a, s).
#[export] Instance stexc_bind S : MBind (stexc S) := λ A B f m s,
  match m s with
  | (Ok a, s') => f a s'
  | (Throw e, s') => (Throw e, s')
  | (Undefined, s') => (Undefined, s')
  end.

Definition throw {S A} (e : exn) : stexc S A := λ s, (Throw e, s).
Definition get_st {S} : stexc S S := λ s, (Ok s, s).
Definition put_st {S} (s' : S) : stexc S unit := λ _, (Ok tt, s').

(** [try m catch (...) h] *)
Definition try_catch_all {S A} (m : stexc S A) (h : exn → stexc S A) : stexc S A :=
  λ s, match m s with
       | (Throw e, s') => h e s'
       | r => r
       end.
(** [try m catch (const std::exception& e) h] *)
Definition try_catch_std {S A} (m : stexc S A) (h : cstring → stexc S A) : stexc S A :=
  λ s, match m s with
       | (Throw e, s') => match what e with
                          | Some w => h w s'
                          | None => (Throw e, s')
                          end
       | r => r
       end.

Fixpoint for_each {S A} (f : A → stexc S unit) (l : list A) : stexc S unit :=
  match l with
  | [] => mret tt
  | x :: l => f x ≫= λ _, for_each f l
  end.

Lemma stexc_bind_Ok {S A B} (m : stexc S A) (f : A → stexc S B) s b s' :
  (m ≫= f) s = (Ok b, s') → ∃ a s1, m s = (Ok a, s1) ∧ f a s1 = (Ok b, s').
Proof. unfold mbind, stexc_bind. destruct (m s) as [[a|e|] s1]; [eauto|done..]. Qed.

(** [m] keeps the invariant [I] of the state, whether it returns or throws. *)
Definition preserves {S A} (I : S → Prop) (m : stexc S A) : Prop :=
  ∀ s, I s → I (m s).2.

Lemma preserves_ret {S A} (I : S → Prop) (a : A) : preserves I (mret a).
Proof. by intros s. Qed.
Lemma preserves_throw {S A} (I : S → Prop) e : preserves I (throw (A:=A) e).
Proof. by intros s. Qed.
Lemma preserves_bind {S A B} (I : S → Prop) (m : stexc S A) (f : A → stexc S B) :
  preserves I m → (∀ a, preserves I (f a)) → preserves I (m ≫= f).
Proof.
  intros Hm Hf s HI. specialize (Hm s HI). cbn. unfold mbind, stexc_bind.
  destruct (m s) as [[a|e|] s']; cbn in *; [by apply Hf|done|done].
Qed.
Lemma preserves_for_each {S A} (I : S → Prop) (f : A → stexc S unit) l :
  (∀ x, x ∈ l → preserves I (f x)) → preserves I (for_each f l).
Proof.
  intros Hf. induction l as [|x l IH]; cbn; [apply preserves_ret|].
  apply preserves_bind.
  - apply Hf. left.
  - intros _. apply IH. intros y Hy. apply Hf. by right.
Qed.
Lemma preserves_catch_std {S A} (I : S → Prop) (m : stexc S A) h :
  preserves I m → (∀ w, preserves I (h w)) → preserves I (try_catch_std m h).
Proof.
  intros Hm Hh s HI. specialize (Hm s HI). unfold try_catch_std.
  destruct (m s) as [[a|e|] s']; cbn in *; [done| |done].
  destruct (what e); [by apply Hh|done].
Qed.
Lemma preserves_catch_all {S A} (I : S → Prop) (m : stexc S A) h :
  preserves I m → (∀ e, preserves I (h e)) → preserves I (try_catch_all m h).
Proof.
  intros Hm Hh s HI. specialize (Hm s HI). unfold try_catch_all.
  destruct (m s) as [[a|e|] s']; cbn in *; [done|by apply Hh|done].
Qed.

(** A loop invariant over the elements already visited. *)
Lemma for_each_ind {S A} (f : A → stexc S unit) (P : list A → S → Prop) (E : S → Prop) l s :
  (∀ x l' s, x ∈ l → P l' s →
     match f x s with (Ok _, s') => P (l' ++ [x]) s' | (_, s') => E s' end) →
  P [] s → match for_each f l s with (Ok _, s') => P l s' | (_, s') => E s' end.
Proof.
  intros Hf. change l with ([] ++ l) at 2. generalize ([] : list A) as l'. revert s.
  induction l as [|x l IH]; intros s l' HP; cbn; [by rewrite app_nil_r|].
  unfold mbind, stexc_bind. specialize (Hf x l' s) as Hx.
  destruct (f x s) as [[[]|e|] s']; [|apply Hx; [left|done]..].
  assert (Hm : (l' ++ x :: l) = (l' ++ [x]) ++ l) by by rewrite <-app_assoc.
  rewrite Hm. apply IH; [|apply Hx; [left|done]].
  intros y l1 s1 Hy. apply Hf. by right.
Qed.

Lemma for_each_fmap {S A B} (f : B → stexc S unit) (g : A → B) l :
  for_each f (g <$> l) = for_each (λ x, f (g x)) l.
Proof. induction l as [|x l IH]; cbn; [done|]. by rewrite <-IH. Qed.

(** ** Standard algorithms *)

Definition any_of {A} (f : A → bool) (l : list A) : bool := existsb f l.
Definition all_of {A} (f : A → bool) (l : list A) : bool := forallb f l.
Definition find_if {A} (f : A → bool) (l : list A) : option A := List.find f l.
Definition remove_if {A} (f : A → bool) (l : list A) : list A :=
  List.filter (λ x, negb (f x)) l.

(** [v.erase(it)] for [it] the first element that satisfies [f]. *)
Fixpoint erase_first {A} (f : A → bool) (l : list A) : list A :=
  match l with
  | [] => []
  | x :: l => if f x then l else x :: erase_first f l
  end.

Lemma any_of_true {A} (f : A → bool) l :
  any_of f l = true ↔ ∃ x, x ∈ l ∧ f x = true.
Proof. unfold any_of. rewrite existsb_exists. setoid_rewrite list_elem_of_In. done. Qed.

Lemma any_of_false {A} (f : A → bool) l :
  any_of f l = false ↔ ∀ x, x ∈ l → f x = false.
Proof.
  rewrite <-not_true_iff_false, any_of_true. split.
  - intros H x Hx. apply not_true_iff_false. naive_solver.
  - intros H (x & Hx & Ht). by rewrite H in Ht.
Qed.

Lemma all_of_true {A} (f : A → bool) l :
  all_of f l = true ↔ ∀ x, x ∈ l → f x = true.
Proof. unfold all_of. rewrite forallb_forall. setoid_rewrite list_elem_of_In. done. Qed.

Lemma find_if_Some {A} (f : A → bool) l x :
  find_if f l = Some x → x ∈ l ∧ f x = true.
Proof. unfold find_if. rewrite list_elem_of_In. apply find_some. Qed.

Lemma find_if_None {A} (f : A → bool) l :
  find_if f l = None ↔ ∀ x, x ∈ l → f x = false.
Proof.
  unfold find_if. setoid_rewrite list_elem_of_In. split.
  - intros H x Hx. by eapply find_none.
  - induction l as [|y l IH]; cbn; [done|]. intros H.
    rewrite (H y) by auto. naive_solver.
Qed.

Lemma elem_of_remove_if {A} (f : A → bool) l x :
  x ∈ remove_if f l ↔ x ∈ l ∧ f x = false.
Proof.
  unfold remove_if. rewrite !list_elem_of_In, filter_In, negb_true_iff. done.
Qed.

Lemma erase_first_sublist {A} (f : A → bool) l : erase_first f l `sublist_of` l.
Proof.
  induction l as [|x l IH]; cbn; [done|].
  destruct (f x); [by constructor | by constructor].
Qed.

Lemma elem_of_erase_first {A} (f : A → bool) l x :
  x ∈ erase_first f l → x ∈ l.
Proof. apply sublist_subseteq, erase_first_sublist. Qed.

Lemma elem_of_erase_first_ne {A} (f : A → bool) l x :
  x ∈ l → f x = false → x ∈ erase_first f l.
Proof.
  intros Hx Hf. induction l as [|y l IH]; cbn; [done|].
  apply elem_of_cons in Hx as [->|Hx].
  - rewrite Hf. left.
  - destruct (f y); [done|]. right; auto.
Qed.

Lemma erase_first_split {A} (f : A → bool) l :
  any_of f l = true →
  ∃ l1 x l2, l = l1 ++ x :: l2 ∧ f x = true ∧ erase_first f l = l1 ++ l2.
Proof.
  induction l as [|y l IH]; cbn; [done|]. destruct (f y) eqn:E; cbn.
  - intros _. by exists [], y, l.
  - intros (l1 & x & l2 & -> & Hx & ->)%IH. by exists (y :: l1), x, l2.
Qed.

Lemma erase_first_none {A} (f : A → bool) l : any_of f l = false → erase_first f l = l.
Proof.
  induction l as [|y l IH]; cbn; [done|]. intros [E H]%orb_false_iff.
  rewrite E. by rewrite IH.
Qed.

Lemma erase_first_perm {A} (f : A → bool) l l' x :
  (∀ y, f y = true ↔ y = x) → l ≡ₚ x :: l' → erase_first f l ≡ₚ l'.
Proof.
  intros Hf Hp. destruct (erase_first_split f l) as (l1 & y & l2 & -> & ->%Hf & ->).
  { apply any_of_true. exists x. rewrite Hf, Hp. split; [left|done]. }
  apply (Permutation_cons_inv (a:=x)). by rewrite <-Hp, Permutation_middle.
Qed.

Lemma elem_of_erase_first_NoDup {A} (f : A → bool) l x :
  (∀ y, f y = true ↔ y = x) → NoDup l → ∀ y, y ∈ erase_first f l ↔ y ∈ l ∧ y ≠ x.
Proof.
  intros Hf Hd y. destruct (any_of f l) eqn:E.
  - destruct (erase_first_split f l E) as (l1 & z & l2 & -> & ->%Hf & ->).
    apply NoDup_app in Hd as (_ & H1 & [H2 _]%NoDup_cons). set_solver.
  - rewrite erase_first_none by done. split; [|tauto]. intros Hy. split; [done|].
    intros ->. eapply any_of_false in E; [|done]. by rewrite (proj2 (Hf x)) in E.
Qed.

Lemma find_if_any_of {A} (f : A → bool) l :
  any_of f l = match find_if f l with Some _ => true | None => false end.
Proof.
  induction l as [|y l IH]; [done|]. change (any_of f (y :: l)) with (f y || any_of f l).
  rewrite IH. cbn. by destruct (f y).
Qed.

Lemma elem_of_mapM_Some {A B} (f : A → option B) l k y :
  mapM f l = Some k → y ∈ k ↔ ∃ x, x ∈ l ∧ f x = Some y.
Proof.
  intros H%mapM_Some. setoid_rewrite list_elem_of_lookup. split.
  - intros [i Hi]. destruct (Forall2_lookup_r _ _ _ _ _ H Hi) as (x & Hx & Hf). eauto.
  - intros (x & [i Hi] & Hf). destruct (Forall2_lookup_l _ _ _ _ _ H Hi) as (y' & Hy & Hf').
    exists i. congruence.
Qed.

(** ** Loops that run until they find an answer

    [run_pow n step s] iterates [step] up to [2^n] times; the fuel is halved
    rather than counted down, so a large bound costs nothing. *)

Fixpoint run_pow {S R} (n : nat) (step : S → S + R) (s : S) : S + R :=
  match n with
  | O => step s
  | S n => match run_pow n step s with
           | inl s' => run_pow n step s'
           | inr r => inr r
           end
  end.

Section run_pow.
Context {S R : Type} (step : S → S + R) (I : S → Prop).

(** A measure that decreases while the loop runs bounds it. *)
Lemma run_pow_terminates (m : S → Z) n s :
  (∀ s s', I s → step s = inl s' → I s' ∧ 0 ≤ m s' < m s) →
  I s → 0 ≤ m s < 2 ^ Z.of_nat n → ∃ r, run_pow n step s = inr r.
Proof.
  intros Hstep HI Hm.
  assert (Hrun : ∀ n s, I s → match run_pow n step s with
    | inl s' => I s' ∧ 0 ≤ m s' ≤ m s - 2 ^ Z.of_nat n | inr _ => True end).
  { clear n s HI Hm. induction n as [|n IH]; intros s HI; cbn [run_pow].
    - destruct (step s) as [s'|r] eqn:E; [|done]. destruct (Hstep s s' HI E). split; [done|]. lia.
    - specialize (IH s HI) as H1. destruct (run_pow n step s) as [s1|r]; [|done].
      destruct H1 as [H1 Hm1]. specialize (IH s1 H1).
      destruct (run_pow n step s1) as [s2|r]; [|done]. destruct IH as [H2 Hm2].
      split; [done|]. rewrite Nat2Z.inj_succ, Z.pow_succ_r by lia. lia. }
  specialize (Hrun n s HI). destruct (run_pow n step s) as [s'|r]; [lia|eauto].
Qed.

Lemma run_pow_invariant (Q : R → Prop) n s :
  (∀ s s', I s → step s = inl s' → I s') → (∀ s r, I s → step s = inr r → Q r) →
  I s → match run_pow n step s with inl s' => I s' | inr r => Q r end.
Proof.
  intros Hl Hr. revert s. induction n as [|n IH]; intros s HI; cbn.
  - destruct (step s) eqn:E; eauto.
  - specialize (IH s HI) as H1. destruct (run_pow n step s); [by apply IH|done].
Qed.
End run_pow.

(** ** Sorting

    [std::stable_sort] has exactly one possible result, which insertion sort
    computes.  [std::sort] only promises a permutation in order: equal
    elements may come out in any order, so code that uses it is modelled
    against the interface [StdSort] and every theorem about it holds for any
    implementation of that interface. *)

Class StrictWeakOrder {A} (lt : A → A → bool) : Prop := {
  swo_asym x y : lt x y = true → lt y x = false;
  swo_neg_trans x y z : lt x y = false → lt y z = false → lt x z = false;
}.

Definition in_order {A} (lt : A → A → bool) : list A → Prop :=
  StronglySorted (λ x y, lt y x = false).

Fixpoint stable_insert {A} (lt : A → A → bool) (x : A) (l : list A) : list A :=
  match l with
  | [] => [x]
  | y :: l' => if lt y x then y :: stable_insert lt x l' else x :: l
  end.

Definition stable_sort {A} (lt : A → A → bool) (l : list A) : list A :=
  foldr (stable_insert lt) [] l.

Class StdSort := {
  std_sort {A} (lt : A → A → bool) : list A → list A;
  std_sort_perm {A} (lt : A → A → bool) l : std_sort lt l ≡ₚ l;
  std_sort_in_order {A} (lt : A → A → bool) l :
    StrictWeakOrder lt → in_order lt (std_sort lt l);
}.

Section stable_sort.
Context {A} (lt : A → A → bool).

Lemma stable_insert_perm x l : stable_insert lt x l ≡ₚ x :: l.
Proof.
  induction l as [|y l IH]; cbn; [done|].
  destruct (lt y x); [|done]. rewrite IH. constructor.
Qed.

Lemma stable_sort_perm l : stable_sort lt l ≡ₚ l.
Proof.
  induction l as [|x l IH]; cbn; [done|].
  by rewrite stable_insert_perm, IH.
Qed.

Context `{!StrictWeakOrder lt}.

Lemma stable_insert_in_order x l : in_order lt l → in_order lt (stable_insert lt x l).
Proof.
  induction 1 as [|y l Hs IH Hy]; cbn; [repeat constructor|].
  destruct (lt y x) eqn:E.
  - constructor; [done|]. rewrite stable_insert_perm.
    constructor; [by apply swo_asym|done].
  - constructor; [by constructor|]. constructor; [done|].
    eapply Forall_impl; [exact Hy|]. intros z Hz. cbn in *.
    by eapply swo_neg_trans.
Qed.

Lemma stable_sort_in_order l : in_order lt (stable_sort lt l).
Proof. induction l; cbn; [constructor|]. by apply stable_insert_in_order. Qed.

(** Where the order identifies only equal elements, [std::sort] has a unique
    result too. *)
Lemma in_order_unique l1 l2 :
  (∀ x y, lt x y = false → lt y x = false → x = y) →
  in_order lt l1 → in_order lt l2 → l1 ≡ₚ l2 → l1 = l2.
Proof.
  intros Hanti H1 H2 Hp. eapply (StronglySorted_unique_strong (λ x y, lt y x = false));
    eauto.
Qed.

Lemma std_sort_stable_sort `{!StdSort} l :
  (∀ x y, lt x y = false → lt y x = false → x = y) →
  std_sort lt l = stable_sort lt l.
Proof.
  intros Hanti. apply in_order_unique; auto using std_sort_in_order, stable_sort_in_order.
  by rewrite std_sort_perm, stable_sort_perm.
Qed.
End stable_sort.

(** Insertion sort is one implementation of [std::sort]. *)
Definition insertion_StdSort : StdSort := {|
  std_sort A lt := stable_sort lt;
  std_sort_perm A lt := stable_sort_perm lt;
  std_sort_in_order A lt l H := stable_sort_in_order lt l;
|}.

(** A [std::set] of integers, iterated in increasing order. *)
Fixpoint set_insert (x : Z) (l : list Z) : list Z :=
  match l with
  | [] => [x]
  | y :: l' => if x <? y then x :: l else if x =? y then l else y :: set_insert x l'
  end.

Lemma elem_of_set_insert x l y : y ∈ set_insert x l ↔ y = x ∨ y ∈ l.
Proof.
  induction l as [|z l IH]; cbn; [by rewrite list_elem_of_singleton, elem_of_nil; tauto|].
  destruct (x <? z); [by rewrite elem_of_cons|].
  destruct (x =? z) eqn:E.
  - apply Z.eqb_eq in E as ->. rewrite elem_of_cons. tauto.
  - rewrite !elem_of_cons, IH. tauto.
Qed.

(** ** Automation *)

Create HintDb kpbr.
#[export] Hint Resolve stable_sort_perm std_sort_perm std_sort_in_order
  stable_sort_in_order : kpbr.
#[export] Hint Resolve preserves_ret preserves_throw preserves_bind
  preserves_catch_std preserves_catch_all preserves_for_each : kpbr.

(** Turn the boolean tests of the code into propositions. *)
Create Rewrite HintDb kpbr_bool.
#[export] Hint Rewrite andb_true_iff andb_false_iff orb_true_iff orb_false_iff
  negb_true_iff negb_false_iff Z.ltb_lt Z.ltb_ge Z.leb_le Z.leb_gt Z.eqb_eq
  Z.eqb_neq bool_decide_eq_true bool_decide_eq_false Nat.eqb_eq Nat.eqb_neq
  Nat.ltb_lt Nat.ltb_ge Nat.leb_le Nat.leb_gt : kpbr_bool.

Ltac breflect := autorewrite with kpbr_bool in *.

(** Case analysis on the [match]es and [if]s of the goal or a hypothesis, with
    the impossible branches discharged. *)
Ltac split_cases := repeat (case_match; simplify_eq/=; try done).

(** [lia] for goals with division and remainder. *)
Ltac zlia := Z.to_euclidean_division_equations; lia.
