(* ===== verification/CppString.v ===== *)
(** * Characters and strings of the C++ standard library

    The character classes of <cctype> in the "C" locale, the searching and
    slicing operations of [std::string], [std::from_chars], [std::stoi],
    [std::to_string] and the splitting loops the sources write by hand, with
    the lemmas the parsers share. *)

From S2P Require Import Prelude.

Local Open Scope Z_scope.

(** ** Characters *)

Definition ord (c : ascii) : Z := Z.of_N (N_of_ascii c).
Definition chr (z : Z) : ascii := ascii_of_N (Z.to_N z).

Definition in_range (lo hi : Z) (c : ascii) : bool := (lo <=? ord c) && (ord c <=? hi).

Definition isdigit (c : ascii) : bool := in_range 48 57 c.
Definition islower (c : ascii) : bool := in_range 97 122 c.
Definition isupper (c : ascii) : bool := in_range 65 90 c.
Definition isalpha (c : ascii) : bool := islower c || isupper c.
Definition isxdigit (c : ascii) : bool :=
  isdigit c || in_range 97 102 c || in_range 65 70 c.
Definition isspace (c : ascii) : bool := in_range 9 13 c || (ord c =? 32).
Definition tolower (c : ascii) : ascii := if isupper c then chr (ord c + 32) else c.

Definition digit_val (c : ascii) : Z := ord c - 48.
Definition xdigit_val (c : ascii) : Z :=
  if isdigit c then ord c - 48
  else if in_range 97 102 c then ord c - 87 else ord c - 55.
Definition digit_char (d : Z) : ascii := chr (48 + d).

Definition ascii_eqb (a b : ascii) : bool := bool_decide (a = b).

(** ** Searching and slicing *)

Fixpoint find_char (c : ascii) (s : cstring) : option nat :=
  match s with
  | [] => None
  | x :: s => if ascii_eqb x c then Some 0%nat else S <$> find_char c s
  end.

(** [s.find(c, pos)] *)
Definition find_char_from (c : ascii) (pos : nat) (s : cstring) : option nat :=
  (λ i, (pos + i)%nat) <$> find_char c (drop pos s).

(** [s.rfind(c)] *)
Definition rfind_char (c : ascii) (s : cstring) : option nat :=
  (λ i, (length s - 1 - i)%nat) <$> find_char c (reverse s).

(** [s.substr(pos, n)] and [s.substr(pos)] for [pos <= s.size()] *)
Definition substr (pos n : nat) (s : cstring) : cstring := take n (drop pos s).

Fixpoint starts_with (p s : cstring) : bool :=
  match p, s with
  | [], _ => true
  | _, [] => false
  | a :: p, b :: s => ascii_eqb a b && starts_with p s
  end.

(** [s.find(p)] *)
Fixpoint find_str (p s : cstring) : option nat :=
  if starts_with p s then Some 0%nat
  else match s with [] => None | _ :: s => S <$> find_str p s end.

(** [s.find(p)] as a test: does [p] occur in [s]? *)
Fixpoint contains_str (p s : cstring) : bool :=
  starts_with p s || match s with [] => false | _ :: s => contains_str p s end.

Fixpoint take_while (f : ascii → bool) (s : cstring) : cstring :=
  match s with
  | [] => []
  | c :: s => if f c then c :: take_while f s else []
  end.
Fixpoint drop_while (f : ascii → bool) (s : cstring) : cstring :=
  match s with
  | [] => []
  | c :: s' => if f c then drop_while f s' else s
  end.

(** Drop the leading and the trailing characters of a class. *)
Definition trim_by (f : ascii → bool) (s : cstring) : cstring :=
  reverse (drop_while f (reverse (drop_while f s))).

(** ** Splitting *)

(** The loop [for (c : s) if (c == sep) { parts.push_back(cur); cur.clear(); }
    else cur += c;] followed by [parts.push_back(cur)]. *)
Fixpoint split_loop (sep : ascii) (cur s : cstring) : list cstring :=
  match s with
  | [] => [cur]
  | c :: s => if ascii_eqb c sep then cur :: split_loop sep [] s
              else split_loop sep (cur ++ [c]) s
  end.
Definition split_on (sep : ascii) (s : cstring) : list cstring := split_loop sep [] s.

(** [while (std::getline(ss, token, sep))]: no token is produced after the
    last delimiter, and none at all for the empty string. *)
Fixpoint getline_loop (sep : ascii) (cur s : cstring) : list cstring :=
  match s with
  | [] => if bool_decide (cur = []) then [] else [cur]
  | c :: s => if ascii_eqb c sep then cur :: getline_loop sep [] s
              else getline_loop sep (cur ++ [c]) s
  end.
Definition getline_all (sep : ascii) (s : cstring) : list cstring := getline_loop sep [] s.

Fixpoint join (sep : cstring) (l : list cstring) : cstring :=
  match l with
  | [] => []
  | [x] => x
  | x :: l => x ++ sep ++ join sep l
  end.

(** ** Numbers *)

Definition dec_value (v : Z) (s : cstring) : Z :=
  foldl (λ v c, v * 10 + digit_val c) v s.
Definition hex_value (v : Z) (s : cstring) : Z :=
  foldl (λ v c, v * 16 + xdigit_val c) v s.

(** [std::from_chars] for [int] in base 10: the value and the characters
    after the match; [None] for [errc::invalid_argument] and
    [errc::result_out_of_range]. *)
Definition from_chars_int (s : cstring) : option (Z * cstring) :=
  let '(neg, body) := match s with
                      | c :: r => if ascii_eqb c "-" then (true, r) else (false, s)
                      | [] => (false, s)
                      end in
  let ds := take_while isdigit body in
  if bool_decide (ds = []) then None
  else let v := (if neg : bool then -1 else 1) * dec_value 0 ds in
       if in_int v then Some (v, drop_while isdigit body) else None.

(** The same for [unsigned int], which takes no sign. *)
Definition from_chars_uint (s : cstring) : option (Z * cstring) :=
  let ds := take_while isdigit s in
  if bool_decide (ds = []) then None
  else let v := dec_value 0 ds in
       if v <=? UINT32_MAX then Some (v, drop_while isdigit s) else None.

(** ... and in base 16. *)
Definition from_chars_hex (s : cstring) : option (Z * cstring) :=
  let ds := take_while isxdigit s in
  if bool_decide (ds = []) then None
  else let v := hex_value 0 ds in
       if v <=? UINT32_MAX then Some (v, drop_while isxdigit s) else None.

(** The test [ec == std::errc{} && ptr == last] around a [from_chars]. *)
Definition whole (r : option (Z * cstring)) : option Z :=
  match r with Some (v, []) => Some v | _ => None end.

(** [std::stoi] (through [strtol]): leading blanks and a sign are skipped,
    trailing characters are ignored. *)
Definition stoi (s : cstring) : exc Z :=
  let s := drop_while isspace s in
  let '(neg, body) := match s with
                      | c :: r => if ascii_eqb c "-" then (true, r)
                                  else if ascii_eqb c "+" then (false, r) else (false, s)
                      | [] => (false, s)
                      end in
  let ds := take_while isdigit body in
  if bool_decide (ds = []) then Throw (invalid_argument "stoi")
  else let v := (if neg : bool then -1 else 1) * dec_value 0 ds in
       if in_int v then Ok v else Throw (out_of_range "stoi").

(** [std::to_string] *)
Fixpoint dec_digits (fuel : nat) (n : Z) (acc : cstring) : cstring :=
  match fuel with
  | O => acc
  | S fuel => let acc := digit_char (n mod 10) :: acc in
              if n <? 10 then acc else dec_digits fuel (n / 10) acc
  end.
Definition to_string (n : Z) : cstring :=
  let abs := Z.abs n in
  (if n <? 0 then "-"%char :: nil else []) ++ dec_digits (S (Z.to_nat (Z.log2 abs))) abs [].

(** [std::ostream << std::hex << n] for an unsigned [n] *)
Definition hex_digit_char (d : Z) : ascii := if d <? 10 then chr (48 + d) else chr (87 + d).
Fixpoint hex_digits (fuel : nat) (n : Z) (acc : cstring) : cstring :=
  match fuel with
  | O => acc
  | S fuel => let acc := hex_digit_char (n mod 16) :: acc in
              if n <? 16 then acc else hex_digits fuel (n / 16) acc
  end.
Definition to_hex (n : Z) : cstring := hex_digits (S (Z.to_nat (Z.log2 n))) n [].

(** ** The order of [std::string] *)

Fixpoint str_lt (a b : cstring) : bool :=
  match a, b with
  | _, [] => false
  | [], _ :: _ => true
  | x :: a, y :: b => (ord x <? ord y) || ((ord x =? ord y) && str_lt a b)
  end.

(** The entries of a [std::map], in the order of the keys. *)
Definition in_key_order {A} (m : gmap cstring A) : list (cstring * A) :=
  omap (λ k, pair k <$> m !! k) (stable_sort str_lt (map_to_list m).*1).

(** ** Lemmas on characters *)

Lemma ord_range c : 0 ≤ ord c < 256.
Proof. unfold ord. pose proof (N_ascii_bounded c). lia. Qed.

Lemma chr_ord c : chr (ord c) = c.
Proof. unfold chr, ord. rewrite N2Z.id. apply ascii_N_embedding. Qed.

Lemma ord_chr z : 0 ≤ z < 256 → ord (chr z) = z.
Proof. intros. unfold chr, ord. rewrite N_ascii_embedding; lia. Qed.

#[export] Instance ord_inj : Inj (=) (=) ord.
Proof. intros a b H. by rewrite <-(chr_ord a), H, chr_ord. Qed.

Lemma isdigit_range c : isdigit c = true ↔ 48 ≤ ord c ≤ 57.
Proof. unfold isdigit, in_range. breflect. lia. Qed.

Lemma isdigit_not c x : isdigit c = true → isdigit x = false → c ≠ x.
Proof. congruence. Qed.

Lemma digit_char_spec d : 0 ≤ d < 10 →
  isdigit (digit_char d) = true ∧ digit_val (digit_char d) = d.
Proof.
  intros. unfold digit_val, digit_char. rewrite isdigit_range, ord_chr by lia. lia.
Qed.

Lemma digit_val_range c : isdigit c = true → 0 ≤ digit_val c ≤ 9.
Proof. rewrite isdigit_range. unfold digit_val. lia. Qed.

Lemma ascii_eqb_eq a b : ascii_eqb a b = true ↔ a = b.
Proof. apply bool_decide_eq_true. Qed.
Lemma ascii_eqb_neq a b : ascii_eqb a b = false ↔ a ≠ b.
Proof. apply bool_decide_eq_false. Qed.
Lemma ascii_eqb_refl a : ascii_eqb a a = true.
Proof. by apply ascii_eqb_eq. Qed.
#[export] Hint Rewrite ascii_eqb_eq ascii_eqb_neq : kpbr_bool.

(** ** Lemmas on searching and splitting *)

Lemma starts_with_app p s : starts_with p (p ++ s) = true.
Proof. induction p as [|c p IH]; cbn; [by destruct s|]. by rewrite ascii_eqb_refl. Qed.
Lemma starts_with_true p s : starts_with p s = true → s = p ++ drop (length p) s.
Proof.
  revert s. induction p as [|c p IH]; intros [|d s]; cbn; try done. intros [H1 H2]%andb_prop. breflect. subst.
  by rewrite <-(IH s).
Qed.
Lemma find_str_Some p s i : find_str p s = Some i → s = take i s ++ p ++ drop (i + length p) s.
Proof.
  revert i. induction s as [|x s IH]; intros i; cbn [find_str]; destruct (starts_with p _) eqn:E.
  1,3: intros [= <-]; cbn [take Nat.add]; by apply starts_with_true.
  - done.
  - destruct (find_str p s) as [j|]; [|done]. intros [= <-]. cbn. f_equal. by apply IH.
Qed.
Lemma find_str_app c p a s : c ∉ a → find_str (c :: p) (a ++ (c :: p) ++ s) = Some (length a).
Proof.
  induction a as [|x a IH]; intros H.
  - cbn [app find_str length]. pose proof (starts_with_app (c :: p) s) as E. cbn [app] in E. by rewrite E.
  - change ((x :: a) ++ (c :: p) ++ s) with (x :: (a ++ (c :: p) ++ s)). cbn [find_str].
    destruct (starts_with (c :: p) _) eqn:E.
    { cbn in E. apply andb_prop in E as [E _]. breflect. subst. destruct H. left. }
    rewrite IH; [done|]. intros Hin. apply H. by right.
Qed.

Lemma find_char_Some c s i :
  find_char c s = Some i → s = take i s ++ c :: drop (S i) s ∧ c ∉ take i s.
Proof.
  revert i. induction s as [|x s IH]; intros i; cbn; [done|].
  destruct (ascii_eqb x c) eqn:E; breflect.
  - intros [= <-]. subst. split; [done|apply not_elem_of_nil].
  - destruct (find_char c s) as [j|]; [|done]. intros [= <-]. cbn.
    destruct (IH j eq_refl) as [H1 H2]. split; [by rewrite <-H1|].
    apply not_elem_of_cons. auto.
Qed.

Lemma find_char_None c s : find_char c s = None ↔ c ∉ s.
Proof.
  induction s as [|x s IH]; cbn; [split; [intros; apply not_elem_of_nil|done]|].
  rewrite not_elem_of_cons.
  destruct (ascii_eqb x c) eqn:E; breflect; [naive_solver|].
  destruct (find_char c s) as [j|]; naive_solver.
Qed.

(** The first occurrence, when the string is known as [p ++ c :: q]. *)
Lemma find_char_app c p q : c ∉ p → find_char c (p ++ c :: q) = Some (length p).
Proof.
  induction p as [|x p IH]; cbn.
  - by rewrite ascii_eqb_refl.
  - intros [H1 H2]%not_elem_of_cons.
    rewrite (proj2 (ascii_eqb_neq x c)) by done. by rewrite (IH H2).
Qed.
Lemma rfind_char_app c p q : c ∉ q → rfind_char c (p ++ c :: q) = Some (length p).
Proof.
  intros Hq. unfold rfind_char. rewrite reverse_app, reverse_cons, <- app_assoc. cbn [app].
  rewrite find_char_app by (by rewrite elem_of_reverse). cbn. f_equal.
  rewrite length_reverse, length_app. cbn. lia.
Qed.
Lemma rfind_char_None c s : c ∉ s → rfind_char c s = None.
Proof.
  intros H. unfold rfind_char. by rewrite (proj2 (find_char_None c (reverse s))) by (by rewrite elem_of_reverse).
Qed.
Lemma rfind_char_Some c s i : rfind_char c s = Some i → ∃ p q, (s = p ++ c :: q) ∧ c ∉ q ∧ i = length p.
Proof.
  unfold rfind_char. destruct (find_char c (reverse s)) as [j|] eqn:E; [|done]. apply find_char_Some in E as [E Hj].
  intros [= <-]. exists (reverse (drop (S j) (reverse s))), (reverse (take j (reverse s))).
  assert (Hs : s = reverse (drop (S j) (reverse s)) ++ c :: reverse (take j (reverse s))).
  { rewrite <- (reverse_involutive s) at 1. rewrite E at 1. by rewrite reverse_app, reverse_cons, <- app_assoc. }
  split; [done|]. split; [by rewrite elem_of_reverse|]. rewrite length_reverse, length_drop, length_reverse. lia.
Qed.

Lemma take_drop_while f s : take_while f s ++ drop_while f s = s.
Proof. induction s as [|c s IH]; cbn; [done|]. destruct (f c); cbn; congruence. Qed.

Lemma take_while_all f s : forallb f s = true → take_while f s = s.
Proof.
  induction s as [|c s IH]; cbn; [done|]. intros [-> H]%andb_true_iff. by rewrite IH.
Qed.

Lemma drop_while_all f s : forallb f s = true → drop_while f s = [].
Proof.
  induction s as [|c s IH]; cbn; [done|]. intros [-> H]%andb_true_iff. auto.
Qed.

Lemma take_while_forallb f s : forallb f (take_while f s) = true.
Proof. induction s as [|c s IH]; cbn; [done|]. destruct (f c) eqn:E; cbn; by rewrite ?E. Qed.

Lemma drop_while_nil f s : drop_while f s = [] ↔ forallb f s = true.
Proof.
  induction s as [|c s IH]; cbn; [done|]. destruct (f c); cbn; done.
Qed.

(** Trimming takes off exactly the characters of the class around a core. *)
Lemma drop_while_app f l x : forallb f l = true → (∀ c, head x = Some c → f c = false) →
  drop_while f (l ++ x) = x.
Proof.
  intros Hl Hx. induction l as [|c l IH]; cbn in *.
  - destruct x as [|c x]; [done|]. cbn. by rewrite Hx.
  - apply andb_true_iff in Hl as [-> Hl]. by apply IH.
Qed.

Lemma trim_by_core f l x r :
  forallb f l = true → forallb f r = true → x ≠ [] →
  (∀ c, head x = Some c → f c = false) → (∀ c, last x = Some c → f c = false) →
  trim_by f (l ++ x ++ r) = x.
Proof.
  intros Hl Hr Hne Hh Ht. unfold trim_by. rewrite drop_while_app; [|done|].
  2: { intros c. destruct x; [done|]. apply Hh. }
  rewrite reverse_app, drop_while_app; [by rewrite reverse_involutive| |].
  - rewrite forallb_forall in *. intros c Hc. apply Hr.
    by rewrite <-list_elem_of_In, elem_of_reverse, list_elem_of_In in Hc.
  - intros c Hc. apply Ht. by rewrite <-head_reverse.
Qed.

Lemma split_loop_last sep cur p : sep ∉ p → split_loop sep cur p = [cur ++ p].
Proof.
  revert cur. induction p as [|c p IH]; intros cur; cbn; [by rewrite app_nil_r|].
  intros [H1 H2]%not_elem_of_cons.
  rewrite (proj2 (ascii_eqb_neq c sep)) by done.
  rewrite IH by done. by rewrite <-app_assoc.
Qed.

Lemma split_loop_app sep cur p q :
  sep ∉ p → split_loop sep cur (p ++ sep :: q) = (cur ++ p) :: split_loop sep [] q.
Proof.
  revert cur. induction p as [|c p IH]; intros cur; cbn.
  - by rewrite ascii_eqb_refl, app_nil_r.
  - intros [H1 H2]%not_elem_of_cons.
    rewrite (proj2 (ascii_eqb_neq c sep)) by done.
    rewrite IH by done. by rewrite <-app_assoc.
Qed.

(** Splitting undoes joining. *)
Lemma split_on_join sep l :
  l ≠ [] → Forall (λ p, sep ∉ p) l → split_on sep (join [sep] l) = l.
Proof.
  unfold split_on. intros Hne HF.
  induction HF as [|p l Hp HF IH]; [done|]. destruct l as [|q l].
  - cbn. by rewrite split_loop_last.
  - change (join [sep] (p :: q :: l)) with (p ++ sep :: join [sep] (q :: l)).
    rewrite split_loop_app by done. cbn [app]. by rewrite IH.
Qed.

Lemma join_ne sep l : l ≠ [] → Forall (λ t, t ≠ []) l → join sep l ≠ [].
Proof. intros Hne HF. destruct HF as [|[] [] ? ?]; done. Qed.

Lemma split_loop_ne sep cur s : split_loop sep cur s ≠ [].
Proof. revert cur; induction s; intros; cbn; [done|]. by case_match. Qed.

(** Joining undoes splitting. *)
Lemma split_loop_starts sep cur s : ∃ t rest, split_loop sep cur s = (cur ++ t) :: rest.
Proof.
  revert cur. induction s as [|c s IH]; intros cur; cbn; [exists [], []; by rewrite app_nil_r|].
  destruct (ascii_eqb c sep); [exists []; rewrite app_nil_r; eauto|].
  destruct (IH (cur ++ [c])) as (t & rest & ->). exists (c :: t), rest. by rewrite <-app_assoc.
Qed.

Lemma join_split_loop sep cur s : join [sep] (split_loop sep cur s) = cur ++ s.
Proof.
  revert cur. induction s as [|c s IH]; intros cur; cbn; [by rewrite app_nil_r|].
  destruct (ascii_eqb c sep) eqn:E; breflect.
  - subst. pose proof (split_loop_ne sep [] s) as Hne.
    destruct (split_loop sep [] s) as [|p l] eqn:E'; [done|].
    cbn. rewrite <-(app_nil_l s), <-IH, E'. done.
  - rewrite IH, <-app_assoc. done.
Qed.

(** No part contains the separator. *)
Lemma split_loop_no_sep sep cur s :
  sep ∉ cur → Forall (λ p, sep ∉ p) (split_loop sep cur s).
Proof.
  revert cur. induction s as [|c s IH]; intros cur Hc; cbn; [by constructor|].
  destruct (ascii_eqb c sep) eqn:E; breflect.
  - constructor; [done|]. apply IH, not_elem_of_nil.
  - apply IH. rewrite elem_of_app, list_elem_of_singleton. naive_solver.
Qed.

(** ** Lemmas on numbers *)

Lemma dec_value_app v s t : dec_value v (s ++ t) = dec_value (dec_value v s) t.
Proof. apply foldl_app. Qed.

Lemma dec_value_mono v s :
  forallb isdigit s = true → 0 ≤ v → v ≤ dec_value v s.
Proof.
  revert v. induction s as [|c s IH]; intros v; cbn; [lia|].
  intros [Hc Hs]%andb_true_iff Hv. apply digit_val_range in Hc.
  specialize (IH (v * 10 + digit_val c) Hs). unfold dec_value in IH. lia.
Qed.

Lemma dec_digits_spec fuel n acc :
  0 ≤ n < 2 ^ Z.of_nat fuel → (0 < fuel)%nat →
  ∃ ds, dec_digits fuel n acc = ds ++ acc ∧ ds ≠ [] ∧
        forallb isdigit ds = true ∧ ∀ v, dec_value v ds = v * 10 ^ Z.of_nat (length ds) + n.
Proof.
  revert n acc. induction fuel as [|fuel IH]; intros n acc Hn Hf; [lia|]. cbn.
  destruct (digit_char_spec (n mod 10)) as [Hd Hv]; [zlia|].
  destruct (Z.ltb_spec n 10) as [Hlt|Hge].
  - exists [digit_char (n mod 10)]. repeat split; [done|cbn; by rewrite Hd|].
    intros v. cbn. rewrite Hv, Z.mod_small by lia. lia.
  - destruct (IH (n / 10) (digit_char (n mod 10) :: acc)) as (ds & E & Hne & Hds & Hval).
    { rewrite Nat2Z.inj_succ, Z.pow_succ_r in Hn by lia. split; [zlia|].
      zlia. }
    { destruct fuel; [cbn in Hn; lia|lia]. }
    exists (ds ++ [digit_char (n mod 10)]). rewrite E, <-app_assoc. repeat split; [| |].
    + destruct ds; done.
    + rewrite forallb_app, Hds. cbn. by rewrite Hd.
    + intros v. rewrite dec_value_app, Hval. cbn. rewrite Hv, length_app. cbn.
      rewrite Nat2Z.inj_add, Z.pow_add_r by lia.
      pose proof (Z.div_mod n 10). lia.
Qed.

Lemma to_string_spec n : 0 ≤ n →
  to_string n ≠ [] ∧ forallb isdigit (to_string n) = true ∧ dec_value 0 (to_string n) = n.
Proof.
  intros Hn. unfold to_string. rewrite Z.abs_eq by lia.
  rewrite (proj2 (Z.ltb_ge n 0)) by lia. cbn [app].
  destruct (dec_digits_spec (S (Z.to_nat (Z.log2 n))) n []) as (ds & -> & Hne & Hds & Hv).
  - split; [done|]. rewrite Nat2Z.inj_succ, Z2Nat.id by apply Z.log2_nonneg.
    destruct (decide (n = 0)) as [->|]; [cbn; lia|]. apply Z.log2_spec; lia.
  - lia.
  - rewrite app_nil_r. auto.
Qed.

Lemma to_string_no_char n c : 0 ≤ n → isdigit c = false → c ∉ to_string n.
Proof.
  intros Hn Hc Hin. destruct (to_string_spec n Hn) as (_ & Hd & _).
  rewrite list_elem_of_In in Hin. eapply forallb_forall in Hd; [|done]. congruence.
Qed.

(** ** The string order *)

#[export] Instance str_lt_swo : StrictWeakOrder str_lt.
Proof.
  split.
  - intros x. induction x as [|a x IH]; intros [|b y]; cbn; try done.
    intros H. breflect. destruct H as [H|[H1 H2]]; [split; [|left]; lia|].
    split; [lia|]. right; auto.
  - intros x. induction x as [|a x IH]; intros [|b y] [|c z]; cbn; try done.
    intros H1 H2. breflect. destruct H1 as [H1 H1'], H2 as [H2 H2'].
    split; [lia|]. destruct H1' as [?|H1']; [left; lia|].
    destruct H2' as [?|H2']; [left; lia|]. right; eauto.
Qed.

Lemma str_lt_antisym x y : str_lt x y = false → str_lt y x = false → x = y.
Proof.
  revert y. induction x as [|a x IH]; intros [|b y]; cbn; try done.
  intros H1 H2. breflect. destruct H1 as [H1 H1'], H2 as [H2 H2'].
  assert (a = b) as ->; [apply (inj ord); lia|].
  f_equal. apply IH; [destruct H1'|destruct H2']; lia || done.
Qed.

Lemma str_lt_irrefl x : str_lt x x = false.
Proof.
  destruct (str_lt x x) eqn:E; [|done]. by rewrite (swo_asym _ _ E) in E.
Qed.

(** ** Lemmas on maps *)

Lemma in_key_order_elem {A} (m : gmap cstring A) k x : (k, x) ∈ in_key_order m ↔ m !! k = Some x.
Proof.
  unfold in_key_order. rewrite list_elem_of_omap. split.
  - intros (k' & _ & H). destruct (m !! k') eqn:E; [|done]. by injection H as -> ->.
  - intros H. exists k. rewrite H. split; [|done]. rewrite stable_sort_perm. apply list_elem_of_fmap. exists (k, x).
    split; [done|]. by apply elem_of_map_to_list.
Qed.
Lemma in_key_order_keys {A} (m : gmap cstring A) : NoDup (in_key_order m).*1.
Proof.
  unfold in_key_order. assert (NoDup (stable_sort str_lt (map_to_list m).*1)) as H.
  { rewrite stable_sort_perm. apply NoDup_fst_map_to_list. }
  revert H. generalize (stable_sort str_lt (map_to_list m).*1) as l. induction l as [|k l IH]; intros Hl; [constructor|].
  apply NoDup_cons in Hl as [Hk Hl]. cbn. destruct (m !! k); [|by apply IH]. cbn. apply NoDup_cons. split; [|by apply IH].
  intros ([k' y] & -> & (k2 & Hin & H)%list_elem_of_omap)%list_elem_of_fmap. destruct (m !! k2); [|done].
  injection H as -> _. done.
Qed.
Lemma list_to_map_in_key_order {A} (m : gmap cstring A) : list_to_map (in_key_order m) = m.
Proof.
  apply map_eq. intros k. apply option_eq. intros x. rewrite <-(in_key_order_elem m). symmetry.
  apply elem_of_list_to_map, in_key_order_keys.
Qed.
