(* ===== verification/Config.v ===== *)
(** * The configuration object (src/src/api/generated/api_types.hpp,
      src/src/config/config.hpp)

    The configuration structs, field for field, with the small accessors of
    config.hpp.  An [int64_t] field is a [Z]; the conversions to narrower types
    are written where the code makes them. *)

From S2P Require Import Prelude CppString.

Local Open Scope Z_scope.

Record ApiConfig := {
  api_enabled : option bool;
  keep_alive_timeout_seconds : option Z;
  api_listen : option cstring;
  max_request_body_bytes : option Z;
  read_timeout_seconds : option Z;
  write_timeout_seconds : option Z;
}.

Record CircuitBreakerConfig := {
  failure_threshold : option Z;
  half_open_max_requests : option Z;
  success_threshold : option Z;
  timeout_ms : option Z;
}.

Module DaemonConfigFirewallBackend.
Inductive t := AUTO | IPTABLES | NFTABLES.
End DaemonConfigFirewallBackend.

Module StrictEnforcementAction.
Inductive t := BLACKHOLE | UNREACHABLE.
End StrictEnforcementAction.

Record DaemonConfig := {
  cache_dir : option cstring;
  clear_dynamic_sets_on_apply : option bool;
  exec_kill_grace_seconds : option Z;
  exec_timeout_seconds : option Z;
  firewall_backend : option DaemonConfigFirewallBackend.t;
  firewall_verify_max_bytes : option Z;
  ipv6_enabled : option bool;
  max_file_size_bytes_field : option Z;
  pid_file : option cstring;
  resolver_ready_timeout_seconds : option Z;
  skip_marked_packets : option bool;
  daemon_strict_enforcement : option bool;
  daemon_strict_enforcement_action : option StrictEnforcementAction.t;
}.

Record DnsTestServer := { answer_ipv4 : option cstring; test_listen : cstring }.

Record DnsRule := {
  allow_domain_rebinding : option bool;
  dns_rule_enabled_field : option bool;
  dns_rule_list : list cstring;
  dns_rule_server : cstring;
}.

Module DnsServerType.
Inductive t := KEENETIC | STATIC.
End DnsServerType.

Record DnsServer := {
  dns_address : option cstring;
  dns_detour : option cstring;
  dns_tag : cstring;
  dns_type : option DnsServerType.t;
}.

Record SystemResolver := { resolver_address : cstring }.

Record DnsConfig := {
  dns_test_server : option DnsTestServer;
  fallback : option (list cstring);
  dns_rules : option (list DnsRule);
  servers : option (list DnsServer);
  system_resolver : option SystemResolver;
}.

Record FwmarkConfig := { fwmark_mask : option cstring; fwmark_start : option cstring }.

Record IprouteConfig := { rule_priority_start : option Z; table_start : option Z }.

Record ListConfig := {
  list_detour : option cstring;
  domains : option (list cstring);
  list_file : option cstring;
  ip_cidrs : option (list cstring);
  ttl_ms : option Z;
  list_url : option cstring;
}.

Record ListsAutoupdateConfig := { cron : option cstring; autoupdate_enabled : option bool }.

Module ConntrackOnSwitch.
Inductive t := DELETE | PRESERVE.
End ConntrackOnSwitch.

Record OutboundGroup := { group_outbounds : list cstring; weight : option Z }.

Record RetryConfig := { attempts : option Z; interval_ms_retry : option Z }.

Module OutboundType.
Inductive t := BLACKHOLE | IGNORE | INTERFACE | TABLE | URLTEST.
#[global] Instance t_eq_dec : EqDecision t.
Proof. solve_decision. Defined.
End OutboundType.

Record Outbound := {
  circuit_breaker : option CircuitBreakerConfig;
  conntrack_on_switch : option ConntrackOnSwitch.t;
  gateway : option cstring;
  gateway6 : option cstring;
  interface : option cstring;
  interval_ms : option Z;
  outbound_groups : option (list OutboundGroup);
  probe_timeout_ms : option Z;
  retry : option RetryConfig;
  strict_enforcement : option bool;
  strict_enforcement_action_field : option StrictEnforcementAction.t;
  table : option Z;
  tag : cstring;
  tolerance_ms : option Z;
  type : OutboundType.t;
  url : option cstring;
}.

Record RouteRule := {
  dest_addr : option cstring;
  dest_port : option cstring;
  dscp : option Z;
  rule_enabled_field : option bool;
  rule_list : option (list cstring);
  rule_outbound : cstring;
  proto : option cstring;
  src_addr : option cstring;
  src_port : option cstring;
}.

Record RouteConfig := {
  inbound_interfaces : option (list cstring);
  rules : option (list RouteRule);
}.

Record Config := {
  api : option ApiConfig;
  daemon : option DaemonConfig;
  dns : option DnsConfig;
  fwmark : option FwmarkConfig;
  iproute : option IprouteConfig;
  lists : option (gmap cstring ListConfig);
  lists_autoupdate : option ListsAutoupdateConfig;
  outbounds : option (list Outbound);
  route : option RouteConfig;
}.

(** [std::optional<T>::value_or] *)
Definition value_or {A} (o : option A) (d : A) : A := match o with Some x => x | None => d end.

(** Value-initialised structs ([DaemonConfig{}] and the like). *)
Definition default_DaemonConfig : DaemonConfig :=
  Build_DaemonConfig None None None None None None None None None None None None None.
Definition default_CircuitBreakerConfig : CircuitBreakerConfig :=
  Build_CircuitBreakerConfig None None None None.
Definition default_RetryConfig : RetryConfig := Build_RetryConfig None None.
Definition default_FwmarkConfig : FwmarkConfig := Build_FwmarkConfig None None.
Definition default_IprouteConfig : IprouteConfig := Build_IprouteConfig None None.
Definition default_RouteConfig : RouteConfig := Build_RouteConfig None None.
Definition default_DnsConfig : DnsConfig := Build_DnsConfig None None None None None.
Definition default_Config : Config :=
  Build_Config None None None None None None None None None.

Definition route_rule_lists (rule : RouteRule) : list cstring := value_or (rule_list rule) [].
Definition route_rule_enabled (rule : RouteRule) : bool := value_or (rule_enabled_field rule) true.
Definition dns_rule_enabled (rule : DnsRule) : bool := value_or (dns_rule_enabled_field rule) true.

(** The outbounds that own a routing table and a mark. *)
Definition is_routable (t : OutboundType.t) : bool :=
  match t with
  | OutboundType.INTERFACE | OutboundType.TABLE | OutboundType.URLTEST => true
  | _ => false
  end.

(** [OutboundMarkMap] *)
Abbreviation OutboundMarkMap := (gmap cstring Z).

Fixpoint find_outbound (outbounds : list Outbound) (t : cstring) : option Outbound :=
  match outbounds with
  | [] => None
  | ob :: outbounds => if bool_decide (tag ob = t) then Some ob else find_outbound outbounds t
  end.

Lemma find_outbound_Some obs t ob : find_outbound obs t = Some ob → ob ∈ obs ∧ tag ob = t.
Proof.
  induction obs as [|o obs IH]; cbn; [done|]. case_bool_decide.
  - intros [= <-]. split; [left|done].
  - intros [? ?]%IH. split; [by right|done].
Qed.
