(* ===== verification/PortSpec.v ===== *)
(** * Port specifications (src/src/firewall/port_spec_util.{hpp,cpp})

    Port selectors of the firewall rules: a comma-separated list of ports and
    ranges, parsed from the configuration syntax ([-]) or the iptables syntax
    ([:]), kept sorted, and printed back in either syntax. *)

From S2P Require Import Prelude CppString.

Local Open Scope Z_scope.

Record PortRange := mk_PortRange { pr_from : Z; pr_to : Z }.

#[export] Instance PortRange_eq_dec : EqDecision PortRange.
Proof. solve_decision. Defined.

Module PortSpecKind.
Inductive t := Empty | Single | Range | List.
#[global] Instance t_eq_dec : EqDecision t.
Proof. solve_decision. Defined.
End PortSpecKind.

Record PortSpec := mk_PortSpec { ranges : list PortRange }.

#[export] Instance PortSpec_eq_dec : EqDecision PortSpec.
Proof. solve_decision. Defined.

Definition empty_spec : PortSpec := mk_PortSpec [].

(** The accumulating loop of [parse_port_value]: fails on a non-digit and as
    soon as the value leaves [int]. *)
Fixpoint parse_port_value_loop (value : Z) (token : cstring) : option Z :=
  match token with
  | [] => Some value
  | c :: token =>
      if negb (isdigit c) then None
      else let value := value * 10 + (ord c - 48) in
           if INT_MAX <? value then None else parse_port_value_loop value token
  end.

Definition parse_port_value (token : cstring) : option Z :=
  if bool_decide (token = []) then None
  else match parse_port_value_loop 0 token with
       | None => None
       | Some value => if (value <? 1) || (65535 <? value) then None else Some value
       end.

Definition parse_port_range_token (token : cstring) (range_sep : ascii) : option (Z * Z) :=
  match find_char range_sep token with
  | None => match parse_port_value token with
            | None => None
            | Some lo => Some (lo, lo)
            end
  | Some dash =>
      match find_char_from range_sep (dash + 1) token with
      | Some _ => None
      | None =>
          match parse_port_value (take dash token), parse_port_value (drop (dash + 1) token) with
          | Some lo, Some hi => if lo <=? hi then Some (lo, hi) else None
          | _, _ => None
          end
      end
  end.

Definition parse_port_range (token : cstring) : option (Z * Z) :=
  parse_port_range_token token "-".

Definition range_lt (lhs rhs : PortRange) : bool :=
  if negb (pr_from lhs =? pr_from rhs) then pr_from lhs <? pr_from rhs
  else pr_to lhs <? pr_to rhs.

Fixpoint ranges_to_strings (rs : list PortRange) (range_sep : ascii) : list cstring :=
  match rs with
  | [] => []
  | r :: rs =>
      (if pr_from r =? pr_to r then to_string (pr_from r)
       else to_string (pr_from r) ++ range_sep :: to_string (pr_to r))
      :: ranges_to_strings rs range_sep
  end.

(** [ranges_to_string]: the loop writes [","] before every element but the
    first. *)
Definition ranges_to_string (rs : list PortRange) (range_sep : ascii) : cstring :=
  join "," (ranges_to_strings rs range_sep).

Definition kind (spec : PortSpec) : PortSpecKind.t :=
  match ranges spec with
  | [] => PortSpecKind.Empty
  | [r] => if pr_from r =? pr_to r then PortSpecKind.Single else PortSpecKind.Range
  | _ => PortSpecKind.List
  end.

Definition to_config_string (spec : PortSpec) : cstring := ranges_to_string (ranges spec) "-".
Definition to_iptables_string (spec : PortSpec) : cstring := ranges_to_string (ranges spec) ":".

Fixpoint split_port_spec_loop (spec : cstring) (tokens : list cstring) (token s : cstring)
    : exc (list cstring) :=
  match s with
  | [] =>
      if bool_decide (spec = []) then Ok tokens
      else if bool_decide (token = []) then
        Throw (invalid_argument ("Invalid empty token in port spec '" ++ spec ++ "'"))
      else Ok (tokens ++ [token])
  | c :: s =>
      if ascii_eqb c "," then
        if bool_decide (token = []) then
          Throw (invalid_argument ("Invalid empty token in port spec '" ++ spec ++ "'"))
        else split_port_spec_loop spec (tokens ++ [token]) [] s
      else split_port_spec_loop spec tokens (token ++ [c]) s
  end.

Definition split_port_spec_tokens (spec : cstring) : exc (list cstring) :=
  split_port_spec_loop spec [] [] spec.

Section parse.
Context {SS : StdSort}.

Definition normalize_ranges (rs : list PortRange) : list PortRange := std_sort range_lt rs.

Definition parse_token (input token : cstring) : exc PortRange :=
  match parse_port_range_token token "-" with
  | Some (lo, hi) => Ok (mk_PortRange (u16 lo) (u16 hi))
  | None =>
      match parse_port_range_token token ":" with
      | Some (lo, hi) => Ok (mk_PortRange (u16 lo) (u16 hi))
      | None => Throw (invalid_argument
                  ("Invalid port token '" ++ token ++ "' in port spec '" ++ input ++ "'"))
      end
  end.

Fixpoint parse_tokens (input : cstring) (tokens : list cstring) : exc (list PortRange) :=
  match tokens with
  | [] => mret []
  | token :: tokens =>
      r ← parse_token input token;
      rs ← parse_tokens input tokens;
      mret (r :: rs)
  end.

Definition parse_port_spec (spec_view : cstring) : exc PortSpec :=
  if bool_decide (spec_view = []) then Ok empty_spec
  else
    tokens ← split_port_spec_tokens spec_view;
    rs ← parse_tokens spec_view tokens;
    mret (mk_PortSpec (normalize_ranges rs)).

Definition classify_port_spec (spec : cstring) : exc PortSpecKind.t :=
  kind <$> parse_port_spec spec.

Definition normalize_port_spec_for_iptables (spec : cstring) : exc cstring :=
  to_iptables_string <$> parse_port_spec spec.
End parse.

(** ** The language of port specifications *)

(** [t] is the decimal numeral of the port [p]. *)
Definition denotes_port (t : cstring) (p : Z) : Prop :=
  t ≠ [] ∧ forallb isdigit t = true ∧ dec_value 0 t = p ∧ 1 ≤ p ≤ 65535.

(** [t] is a port, or a range written with [sep]. *)
Definition denotes_range_with (sep : ascii) (t : cstring) (r : PortRange) : Prop :=
  (denotes_port t (pr_from r) ∧ pr_to r = pr_from r) ∨
  (∃ a b, t = a ++ sep :: b ∧ denotes_port a (pr_from r) ∧ denotes_port b (pr_to r) ∧
          pr_from r ≤ pr_to r).

Definition denotes_range (t : cstring) (r : PortRange) : Prop :=
  denotes_range_with "-" t r ∨ denotes_range_with ":" t r.

Definition valid_range (r : PortRange) : Prop := 1 ≤ pr_from r ≤ pr_to r ∧ pr_to r ≤ 65535.

(** ** Lemmas *)

Lemma parse_port_value_loop_Some v s w :
  0 ≤ v ≤ INT_MAX →
  parse_port_value_loop v s = Some w ↔
  forallb isdigit s = true ∧ dec_value v s = w ∧ w ≤ INT_MAX.
Proof.
  revert v. induction s as [|c s IH]; intros v Hv; cbn [parse_port_value_loop forallb].
  { cbn. naive_solver lia. }
  destruct (isdigit c) eqn:Hc; cbn [negb andb]; [|naive_solver].
  pose proof (digit_val_range c Hc) as Hd. fold (digit_val c).
  change (dec_value v (c :: s)) with (dec_value (v * 10 + digit_val c) s).
  destruct (Z.ltb_spec INT_MAX (v * 10 + digit_val c)).
  - split; [done|]. intros (Hs & <- & Hle).
    pose proof (dec_value_mono (v * 10 + digit_val c) s Hs). lia.
  - apply IH. lia.
Qed.

Lemma parse_port_value_Some t p : parse_port_value t = Some p ↔ denotes_port t p.
Proof.
  unfold parse_port_value, denotes_port. case_bool_decide as Ht; [naive_solver|].
  pose proof (parse_port_value_loop_Some 0 t) as H.
  destruct (parse_port_value_loop 0 t) as [v|].
  - specialize (H v ltac:(unfold INT_MAX; lia)).
    destruct (proj1 H eq_refl) as (Hd & Hv & _).
    destruct ((v <? 1) || (65535 <? v)) eqn:E; breflect; naive_solver lia.
  - split; [done|]. intros (_ & Hd & Hv & Hp).
    specialize (H p ltac:(unfold INT_MAX; lia)). naive_solver (unfold INT_MAX; lia).
Qed.

Lemma denotes_port_no_char t p c : denotes_port t p → isdigit c = false → c ∉ t.
Proof.
  intros (_ & Hd & _) Hc Hin. rewrite list_elem_of_In in Hin.
  eapply forallb_forall in Hd; [|done]. congruence.
Qed.

Lemma parse_port_range_token_Some sep t lo hi :
  isdigit sep = false →
  parse_port_range_token t sep = Some (lo, hi) ↔
  denotes_range_with sep t (mk_PortRange lo hi).
Proof.
  intros Hsep. unfold parse_port_range_token, denotes_range_with. cbn. split.
  - destruct (find_char sep t) as [i|] eqn:Hf; intros H; split_cases.
    + apply find_char_Some in Hf as [Ht _]. right. breflect.
      replace (i + 1)%nat with (S i) in * by lia.
      rewrite !parse_port_value_Some in *. eauto 10.
    + rewrite parse_port_value_Some in *. auto.
  - intros [[Hp ->]|(a & b & -> & Ha & Hb & Hle)].
    + rewrite (proj2 (find_char_None sep t)) by eauto using denotes_port_no_char.
      by apply parse_port_value_Some in Hp as ->.
    + rewrite find_char_app by eauto using denotes_port_no_char.
      unfold find_char_from. rewrite take_app_length.
      assert (drop (length a + 1) (a ++ sep :: b) = b) as ->
        by (rewrite <-drop_drop, drop_app_length; done).
      rewrite (proj2 (find_char_None sep b)) by eauto using denotes_port_no_char.
      apply parse_port_value_Some in Ha as ->. apply parse_port_value_Some in Hb as ->.
      cbn. by rewrite (proj2 (Z.leb_le lo hi)).
Qed.

Lemma denotes_range_with_valid sep t r : denotes_range_with sep t r → valid_range r.
Proof.
  unfold denotes_range_with, denotes_port, valid_range. naive_solver lia.
Qed.

Lemma denotes_range_valid t r : denotes_range t r → valid_range r.
Proof. intros [?|?]; eauto using denotes_range_with_valid. Qed.

#[export] Instance range_lt_swo : StrictWeakOrder range_lt.
Proof.
  split; unfold range_lt.
  - intros x y H. split_cases; breflect; lia.
  - intros x y z H1 H2. split_cases; breflect; lia.
Qed.

Lemma range_lt_antisym x y : range_lt x y = false → range_lt y x = false → x = y.
Proof.
  unfold range_lt. destruct x as [a b], y as [c d]; cbn.
  intros H1 H2. split_cases; breflect; f_equal; lia.
Qed.

(** Splitting: a non-empty specification yields its comma-separated parts, all
    non-empty. *)
Lemma split_port_spec_loop_Ok spec toks cur s toks' :
  spec ≠ [] →
  split_port_spec_loop spec toks cur s = Ok toks' ↔
  toks' = toks ++ split_loop "," cur s ∧ Forall (λ t, t ≠ []) (split_loop "," cur s).
Proof.
  intros Hspec. revert toks cur. induction s as [|c s IH]; intros toks cur; cbn.
  - rewrite bool_decide_eq_false_2 by done. case_bool_decide; subst.
    + split; [done|]. intros [_ H]. by inversion H.
    + split; [intros [= <-]; auto|]. intros [-> _]. done.
  - destruct (ascii_eqb c ",") eqn:E; [|apply IH].
    case_bool_decide; subst.
    + split; [done|]. intros [_ H]. by inversion H.
    + rewrite IH, <-app_assoc, Forall_cons. cbn. naive_solver.
Qed.

Lemma split_port_spec_tokens_Ok spec toks :
  spec ≠ [] →
  split_port_spec_tokens spec = Ok toks ↔
  toks = split_on "," spec ∧ Forall (λ t, t ≠ []) toks.
Proof.
  intros Hne. unfold split_port_spec_tokens, split_on.
  rewrite split_port_spec_loop_Ok by done. naive_solver.
Qed.

Lemma u16_port p : 1 ≤ p ≤ 65535 → u16 p = p.
Proof. intros. apply Z.mod_small. lia. Qed.

Lemma denotes_range_with_det sep t r1 r2 :
  isdigit sep = false →
  denotes_range_with sep t r1 → denotes_range_with sep t r2 → r1 = r2.
Proof.
  intros Hs H1 H2. destruct r1 as [a b], r2 as [c d].
  rewrite <-parse_port_range_token_Some in H1, H2 by done. congruence.
Qed.

Lemma denotes_range_with_cross sep1 sep2 t r1 r2 :
  isdigit sep1 = false → isdigit sep2 = false → sep1 ≠ sep2 →
  denotes_range_with sep1 t r1 → denotes_range_with sep2 t r2 → r1 = r2.
Proof.
  intros Hs1 Hs2 Hne [[H1 E1]|(a & b & -> & Ha & Hb & _)] H2.
  - apply (denotes_range_with_det sep2 t); auto. left; auto.
  - exfalso. destruct H2 as [[H2 _]|(a' & b' & E & Ha' & Hb' & _)].
    + apply (denotes_port_no_char _ _ sep1 H2 Hs1). set_solver.
    + assert (sep1 ∈ a' ++ sep2 :: b') as Hin by (rewrite <-E; set_solver).
      rewrite elem_of_app, elem_of_cons in Hin.
      pose proof (denotes_port_no_char _ _ sep1 Ha' Hs1).
      pose proof (denotes_port_no_char _ _ sep1 Hb' Hs1). naive_solver.
Qed.

Lemma parse_token_with input t r sep1 sep2 :
  isdigit sep1 = false → isdigit sep2 = false → sep1 ≠ sep2 →
  denotes_range_with sep1 t r →
  match parse_port_range_token t sep2 with
  | Some (lo, hi) => Ok (mk_PortRange (u16 lo) (u16 hi))
  | None => match parse_port_range_token t sep1 with
            | Some (lo, hi) => Ok (mk_PortRange (u16 lo) (u16 hi))
            | None => Throw input
            end
  end = Ok r.
Proof.
  intros Hs1 Hs2 Hne Hr.
  pose proof (denotes_range_with_valid _ _ _ Hr) as Hv. destruct r as [a b].
  unfold valid_range in Hv; cbn in Hv.
  destruct (parse_port_range_token t sep2) as [[lo hi]|] eqn:E.
  - apply parse_port_range_token_Some in E; [|done].
    assert (mk_PortRange a b = mk_PortRange lo hi) as [= <- <-]
      by eauto using denotes_range_with_cross.
    rewrite !u16_port by lia. done.
  - apply parse_port_range_token_Some in Hr as ->; [|done].
    rewrite !u16_port by lia. done.
Qed.

Lemma parse_token_Ok input t r : parse_token input t = Ok r ↔ denotes_range t r.
Proof.
  unfold parse_token, denotes_range. split.
  - intros H. split_cases.
    all: match goal with E : parse_port_range_token _ _ = Some _ |- _ =>
           apply parse_port_range_token_Some in E; [|done];
           pose proof (denotes_range_with_valid _ _ _ E) as Hv end.
    all: unfold valid_range in Hv; cbn in Hv; rewrite !u16_port by lia; auto.
  - intros [Hr|Hr].
    + destruct r as [a b]. pose proof (denotes_range_with_valid _ _ _ Hr) as Hv.
      unfold valid_range in Hv; cbn in Hv.
      apply parse_port_range_token_Some in Hr as ->; [|done].
      rewrite !u16_port by lia. done.
    + by apply (parse_token_with _ t r ":" "-").
Qed.

Lemma parse_tokens_Ok input ts rs :
  parse_tokens input ts = Ok rs ↔ Forall2 denotes_range ts rs.
Proof.
  revert rs. induction ts as [|t ts IH]; intros rs; cbn.
  - unfold mret, exc_ret. split; [intros [= <-]; constructor|]. by inversion 1.
  - rewrite exc_bind_Ok. setoid_rewrite exc_bind_Ok. unfold mret, exc_ret. split.
    + intros (r & Hr & rs' & Hrs & [= <-]). apply parse_token_Ok in Hr. apply IH in Hrs. auto.
    + inversion 1; subst. eexists. split; [by apply parse_token_Ok|].
      eexists. split; [by apply IH|]. done.
Qed.

(** A token of the printed form denotes the range it was printed from. *)
Lemma to_string_denotes p : 1 ≤ p ≤ 65535 → denotes_port (to_string p) p.
Proof.
  intros Hp. destruct (to_string_spec p) as (H1 & H2 & H3); [lia|].
  unfold denotes_port. auto.
Qed.

Lemma ranges_to_strings_denotes sep rs :
  sep = "-"%char ∨ sep = ":"%char → Forall valid_range rs →
  Forall2 denotes_range (ranges_to_strings rs sep) rs ∧
  Forall (λ t, ¬ (","%char ∈ t) ∧ t ≠ []) (ranges_to_strings rs sep).
Proof.
  intros Hsep HF. induction HF as [|r rs Hr HF IH]; cbn; [by repeat constructor|].
  destruct Hr as [Hr1 Hr2].
  pose proof (to_string_denotes (pr_from r) ltac:(lia)) as Hf.
  pose proof (to_string_denotes (pr_to r) ltac:(lia)) as Ht.
  destruct IH as [IH1 IH2]. destruct (Z.eqb_spec (pr_from r) (pr_to r)) as [E|E].
  - split; constructor; auto.
    + left; left; auto.
    + split; [by apply to_string_no_char; [lia|]|]. by destruct Hf.
  - split; constructor; auto.
    + destruct Hsep as [-> | ->]; [left|right]; right; eauto 10 with lia.
    + split; [|destruct (to_string (pr_from r)); done].
      rewrite elem_of_app, elem_of_cons.
      pose proof (to_string_no_char (pr_from r) "," ltac:(lia) eq_refl).
      pose proof (to_string_no_char (pr_to r) "," ltac:(lia) eq_refl).
      destruct Hsep as [-> | ->]; naive_solver.
Qed.

Section properties.
Context {SS : StdSort}.

Lemma parse_port_spec_Ok s ps :
  parse_port_spec s = Ok ps ↔
  (s = [] ∧ ranges ps = []) ∨
  (s ≠ [] ∧ ∃ rs, Forall2 denotes_range (split_on "," s) rs ∧
            ranges ps ≡ₚ rs ∧ in_order range_lt (ranges ps)).
Proof.
  unfold parse_port_spec. case_bool_decide as Hs.
  - destruct ps as [l]; unfold empty_spec; cbn. naive_solver.
  - rewrite exc_bind_Ok. setoid_rewrite split_port_spec_tokens_Ok; [|done].
    setoid_rewrite exc_bind_Ok. setoid_rewrite parse_tokens_Ok.
    unfold mret, exc_ret, normalize_ranges. split.
    + intros (ts & [-> _] & rs & Hrs & [= <-]). right. split; [done|].
      exists rs. cbn. auto using std_sort_perm, std_sort_in_order, range_lt_swo.
    + intros [[? _]|(_ & rs & Hrs & Hp & Ho)]; [done|]. eexists. split; [split; [done|]|].
      { eapply Forall2_Forall_l; [exact Hrs|]. apply Forall_true. intros r t [Ht|Ht];
        destruct Ht as [[(? & _) _]|(a & b & -> & _)]; done || by destruct a. }
      exists rs. split; [done|]. f_equal. destruct ps as [l]; cbn in *. f_equal.
      eapply in_order_unique; eauto using std_sort_in_order, range_lt_swo, range_lt_antisym.
      by rewrite std_sort_perm.
Qed.

Lemma ranges_to_string_parse sep ps :
  sep = "-"%char ∨ sep = ":"%char →
  Forall valid_range (ranges ps) → in_order range_lt (ranges ps) →
  parse_port_spec (ranges_to_string (ranges ps) sep) = Ok ps.
Proof.
  intros Hsep Hv Ho. apply parse_port_spec_Ok.
  destruct (ranges_to_strings_denotes sep (ranges ps) Hsep Hv) as [H2 HF].
  apply Forall_and in HF as [Hc Hne]. unfold ranges_to_string.
  destruct (decide (ranges ps = [])) as [->|Hps]; [by left|].
  assert (ranges_to_strings (ranges ps) sep ≠ []) as Hts
    by (intros E; rewrite E in H2; inversion H2; congruence).
  right. split; [by apply join_ne|]. change (str ",") with [","%char].
  rewrite split_on_join by done. eauto.
Qed.

(** ** Properties *)

(** [parse_port_spec] accepts exactly the non-empty comma-separated lists
    of ports [1..65535] and of ranges [lo-hi] or [lo:hi] with [lo <= hi] (and
    the empty string), and its result is the list of the denoted ranges,
    reordered so that it is sorted by start and then by end. *)
Theorem parse_port_spec_correct s ps :
  parse_port_spec s = Ok ps ↔
  (s = [] ∧ ranges ps = []) ∨
  (s ≠ [] ∧ ∃ rs, Forall2 denotes_range (split_on "," s) rs ∧
            ranges ps ≡ₚ rs ∧ in_order range_lt (ranges ps)).
Proof. apply parse_port_spec_Ok. Qed.

(** Printing a port specification whose ranges are valid and sorted, in
    the configuration syntax or in the iptables syntax, and parsing the text
    gives the specification back. *)
Theorem port_spec_roundtrip ps :
  Forall valid_range (ranges ps) → in_order range_lt (ranges ps) →
  parse_port_spec (to_config_string ps) = Ok ps ∧
  parse_port_spec (to_iptables_string ps) = Ok ps.
Proof. intros Hv Ho. split; apply ranges_to_string_parse; auto. Qed.
End properties.

Lemma port_spec_roundtrip_witness :
  let ps := mk_PortSpec [mk_PortRange 80 80; mk_PortRange 8000 9000] in
  @parse_port_spec insertion_StdSort (to_config_string ps) = Ok ps ∧
  @parse_port_spec insertion_StdSort (to_iptables_string ps) = Ok ps.
Proof.
  apply (@port_spec_roundtrip insertion_StdSort).
  - repeat constructor; cbn; lia.
  - repeat constructor.
Defined.
