(* ===== verification/Fwmark.v ===== *)
(** * Firewall-mark allocation (src/src/config/config.cpp)

    The mark mask is validated to be a run of full hexadecimal nibbles, and
    every routable outbound gets two consecutive marks: one for classified
    traffic, one for traffic keen-pbr itself sends through the outbound. *)

From S2P Require Import Prelude CppString Config.

Local Open Scope Z_scope.

(** [~mask] on [uint32_t] *)
Definition not32 (mask : Z) : Z := u32 (Z.lnot mask).

(** [mask & (~mask + 1)] *)
Definition lowest_bit (mask : Z) : Z := Z.land mask (u32 (not32 mask + 1)).

Definition normalized_fwmark_mask (mask : Z) : Z := mask / lowest_bit mask.

Fixpoint full_f_nibbles_loop (fuel : nat) (normalized_mask : Z) : bool :=
  match fuel with
  | O => normalized_mask =? 0
  | S fuel =>
      if normalized_mask =? 0 then true
      else if negb (Z.land normalized_mask 15 =? 15) then false
      else full_f_nibbles_loop fuel (Z.shiftr normalized_mask 4)
  end.

(** A 32-bit value is exhausted after eight shifts by four. *)
Definition has_consecutive_full_f_nibbles (normalized_mask : Z) : bool :=
  if normalized_mask =? 0 then false else full_f_nibbles_loop 8 normalized_mask.

Definition fwmark_mask_mark_capacity (mask : Z) : Z := u32 (normalized_fwmark_mask mask + 1).

(** [while (tmp > 1) { tmp >>= 1; ++bit_pos; }] *)
Fixpoint bit_pos_loop (fuel : nat) (tmp bit_pos : Z) : Z :=
  match fuel with
  | O => bit_pos
  | S fuel => if 1 <? tmp then bit_pos_loop fuel (Z.shiftr tmp 1) (bit_pos + 1) else bit_pos
  end.

Definition hex_digit (d : Z) : ascii := if d <? 10 then chr (48 + d) else chr (87 + d).
(** [std::hex << std::setfill('0') << std::setw(8)] *)
Definition hex8 (v : Z) : cstring :=
  map (λ i, hex_digit (Z.land (Z.shiftr v (4 * i)) 15)) [7; 6; 5; 4; 3; 2; 1; 0].

Definition validate_fwmark_mask (mask : Z) : exc unit :=
  if mask =? 0 then Throw (ConfigError "fwmark.mask must not be zero")
  else
    let bit_pos := bit_pos_loop 32 (lowest_bit mask) 0 in
    if negb (bit_pos mod 4 =? 0) then
      Throw (ConfigError ("fwmark.mask must be aligned to nibble boundaries "
        ++ "(e.g. 0x000F0000, 0x00FF0000), got 0x" ++ hex8 mask))
    else if negb (has_consecutive_full_f_nibbles (normalized_fwmark_mask mask)) then
      Throw (ConfigError ("fwmark.mask must have one or more consecutive hex nibbles set to F "
        ++ "(e.g. 0x000F0000, 0x00FF0000, 0x0FFF0000), got 0x" ++ hex8 mask))
    else Ok tt.

(** [trim_copy]: the characters " \t\n\r\f\v" are those of [isspace]. *)
Definition trim_copy (value : cstring) : cstring := trim_by isspace value.

Definition parse_fwmark_hex_or_throw (raw : option cstring) (default_value : Z)
    (path : cstring) : exc Z :=
  match raw with
  | None => Ok default_value
  | Some raw =>
      let value := trim_copy raw in
      if bool_decide (value = []) then Throw (ConfigError (path ++ " must not be empty"))
      else match value with
      | c0 :: c1 :: _ :: _ =>
          let digits := drop 2 value in
          if negb (ascii_eqb c0 "0") || negb (ascii_eqb c1 "x" || ascii_eqb c1 "X") then
            Throw (ConfigError (path ++ " must be a hexadecimal string with 0x prefix"))
          else if negb (forallb isxdigit digits) then
            Throw (ConfigError (path ++ " must contain only hexadecimal digits"))
          else
            let parsed := hex_value 0 digits in
            if 2 ^ 64 <=? parsed then (* std::stoul throws; unsigned long has 64 bits *)
              Throw (ConfigError (path ++ " must be a valid 32-bit hexadecimal value"))
            else if UINT32_MAX <? parsed then
              Throw (ConfigError (path ++ " must fit into 32 bits (max 0xFFFFFFFF)"))
            else Ok parsed
      | _ => Throw (ConfigError (path ++ " must be a hexadecimal string with 0x prefix"))
      end
  end.

Definition parse_fwmark_start_or_throw (fwmark_cfg : FwmarkConfig) : exc Z :=
  parse_fwmark_hex_or_throw (fwmark_start fwmark_cfg) 65536 "fwmark.start".
Definition parse_fwmark_mask_or_throw (fwmark_cfg : FwmarkConfig) : exc Z :=
  parse_fwmark_hex_or_throw (fwmark_mask fwmark_cfg) 16711680 "fwmark.mask".

Definition internal_detour_mark_key (outbound_tag : cstring) : cstring :=
  "__keen_pbr_internal_detour__:" ++ outbound_tag.

Definition tag_lt (left right : Outbound) : bool := str_lt (tag left) (tag right).

(** The allocation loop: [count] marks are in use, [current_mark] is next. *)
Fixpoint allocate_loop (max_marks step : Z) (routable : list Outbound)
    (current_mark count : Z) (mark_map : OutboundMarkMap) : exc OutboundMarkMap :=
  match routable with
  | [] => Ok mark_map
  | ob :: routable =>
      if max_marks <? u32 (count + 2) then
        Throw (ConfigError ("Too many routable outbounds: maximum " ++ to_string max_marks ++
                            " supported with current fwmark.mask"))
      else
        let mark_map := <[tag ob := current_mark]> mark_map in
        let current_mark := u32 (current_mark + step) in
        let mark_map := <[internal_detour_mark_key (tag ob) := current_mark]> mark_map in
        let current_mark := u32 (current_mark + step) in
        allocate_loop max_marks step routable current_mark (u32 (count + 2)) mark_map
  end.

Section allocate.
Context {SS : StdSort}.

Definition routable_outbounds (outbounds : list Outbound) : list Outbound :=
  std_sort tag_lt (List.filter (λ ob, is_routable (type ob)) outbounds).

Definition allocate_outbound_marks (fwmark_cfg : FwmarkConfig) (outbounds : list Outbound)
    : exc OutboundMarkMap :=
  mask ← parse_fwmark_mask_or_throw fwmark_cfg;
  start ← parse_fwmark_start_or_throw fwmark_cfg;
  _ ← validate_fwmark_mask mask;
  let step := lowest_bit mask in
  let max_marks := fwmark_mask_mark_capacity mask in
  allocate_loop max_marks step (routable_outbounds outbounds) start 0 ∅.
End allocate.

Definition fwmark_start_value (fwmark_cfg : FwmarkConfig) : exc Z :=
  parse_fwmark_start_or_throw fwmark_cfg.

Definition fwmark_mask_value (fwmark_cfg : FwmarkConfig) : exc Z :=
  mask ← parse_fwmark_mask_or_throw fwmark_cfg;
  _ ← validate_fwmark_mask mask;
  mret mask.

Lemma parse_fwmark_hex_total raw d path : parse_fwmark_hex_or_throw raw d path ≠ Undefined.
Proof. unfold parse_fwmark_hex_or_throw. by repeat case_match. Qed.

Lemma fwmark_mask_value_total cfg :
  (∃ mask, fwmark_mask_value cfg = Ok mask) ∨ (∃ e, fwmark_mask_value cfg = Throw e).
Proof.
  unfold fwmark_mask_value, parse_fwmark_mask_or_throw, validate_fwmark_mask.
  pose proof (parse_fwmark_hex_total (fwmark_mask cfg) 16711680 "fwmark.mask") as Ht.
  destruct (parse_fwmark_hex_or_throw _ _ _) as [m|e|]; cbn; [|eauto|done].
  destruct (m =? 0); cbn; [eauto|]. destruct (negb _); cbn; [eauto|].
  destruct (negb _); cbn; eauto.
Qed.

(** ** Masks *)

(** A mask made of [n] nibbles [F] that starts at nibble [k]. *)
Definition nibble_mask (k n : Z) : Z := (16 ^ n - 1) * 16 ^ k.

Lemma land_odd_opp q : Z.odd q = true → Z.land q (- q) = 1.
Proof.
  intros Hq. apply Z.odd_spec in Hq as [a ->].
  replace (- (2 * a + 1)) with (2 * Z.lnot a + 1) by (unfold Z.lnot; lia).
  apply Z.bits_inj'. intros i Hi. rewrite Z.land_spec.
  destruct (decide (i = 0)) as [->|].
  { by rewrite !Z.testbit_odd_0. }
  replace i with (Z.succ (i - 1)) by lia.
  rewrite !Z.testbit_odd_succ, Z.lnot_spec by lia.
  change 1 with (2 * 0 + 1) at 3. rewrite Z.testbit_odd_succ, Z.bits_0 by lia.
  apply andb_negb_r.
Qed.

Lemma lowest_bit_pow2 v q :
  0 ≤ v → Z.odd q = true → 0 < q → 2 ^ v * q < 2 ^ 32 → lowest_bit (2 ^ v * q) = 2 ^ v.
Proof.
  intros Hv Hq Hpos Hlt. set (m := 2 ^ v * q) in *.
  assert (0 < 2 ^ v) by (apply Z.pow_pos_nonneg; lia).
  assert (0 < m) by (unfold m; nia).
  unfold lowest_bit, not32, wrap.
  assert (((Z.lnot m mod 2 ^ 32) + 1) mod 2 ^ 32 = Z.land (- m) (Z.ones 32)) as ->.
  { rewrite Z.land_ones, Zplus_mod_idemp_l by lia. f_equal. unfold Z.lnot. lia. }
  rewrite Z.land_assoc, (Z.land_comm m), <-Z.land_assoc, Z.land_ones by lia.
  rewrite (Z.mod_small m) by lia.
  rewrite Z.land_comm. unfold m. rewrite <-Z.mul_opp_r, !(Z.mul_comm (2 ^ v)).
  rewrite <-!Z.shiftl_mul_pow2 by lia.
  rewrite <-Z.shiftl_land, land_odd_opp by done. rewrite Z.shiftl_mul_pow2; lia.
Qed.

Lemma odd_part m : 0 < m → ∃ v q, 0 ≤ v ∧ Z.odd q = true ∧ 0 < q ∧ m = 2 ^ v * q.
Proof.
  destruct m as [|p|]; try lia. intros _. induction p as [p _|p IH|].
  - exists 0, (Z.pos p~1). repeat split; lia.
  - destruct IH as (v & q & Hv & Hq & Hp & E). exists (v + 1), q.
    rewrite Z.pow_add_r, <-Z.mul_assoc, (Z.mul_comm (2 ^ 1)), Z.mul_assoc, <-E by lia.
    repeat split; auto; lia.
  - exists 0, 1. repeat split; lia.
Qed.

Lemma bit_pos_loop_pow2 fuel v b :
  0 ≤ v < Z.of_nat fuel → bit_pos_loop fuel (2 ^ v) b = b + v.
Proof.
  revert v b. induction fuel as [|fuel IH]; intros v b Hv; [lia|].
  cbn [bit_pos_loop]. destruct (decide (v = 0)) as [->|Hne].
  { change (2 ^ 0) with 1. rewrite Z.ltb_irrefl. lia. }
  assert (2 ^ v = 2 * 2 ^ (v - 1)) as E
    by (rewrite <-Z.pow_succ_r by lia; f_equal; lia).
  assert (0 < 2 ^ (v - 1)) by (apply Z.pow_pos_nonneg; lia).
  rewrite (proj2 (Z.ltb_lt _ _)) by lia.
  rewrite Z.shiftr_div_pow2, Z.pow_1_r by lia.
  rewrite E, Z.mul_comm, Z.div_mul by lia. rewrite IH; lia.
Qed.

Lemma pow16_pred n : 0 < n → 16 ^ n = 16 * 16 ^ (n - 1).
Proof. intros. rewrite <-Z.pow_succ_r by lia. f_equal. lia. Qed.

Lemma full_f_nibbles_loop_spec fuel q :
  0 ≤ q < 16 ^ Z.of_nat fuel →
  full_f_nibbles_loop fuel q = true ↔ ∃ n, 0 ≤ n ≤ Z.of_nat fuel ∧ q = 16 ^ n - 1.
Proof.
  revert q. induction fuel as [|fuel IH]; intros q Hq; cbn.
  { rewrite Z.eqb_eq. split; [intros ->; exists 0; lia|].
    intros (n & Hn & ->). replace n with 0 by lia. done. }
  destruct (Z.eqb_spec q 0) as [->|Hq0].
  { split; [intros _; exists 0; lia|done]. }
  change 15 with (Z.ones 4) at 1. rewrite Z.land_ones by lia.
  rewrite Z.shiftr_div_pow2 by lia. change (2 ^ 4) with 16.
  rewrite Nat2Z.inj_succ, Z.pow_succ_r in Hq by lia.
  destruct (Z.eqb_spec (q mod 16) 15) as [Hm|Hm]; cbn [negb].
  - rewrite IH by zlia. split.
    + intros (n & Hn & E). exists (n + 1). rewrite Z.pow_add_r by lia. split; [lia|]. zlia.
    + intros (n & Hn & ->). assert (n ≠ 0) by (intros ->; cbn in *; lia).
      exists (n - 1). rewrite (pow16_pred n) by lia. split; [lia|]. zlia.
  - split; [done|]. intros (n & Hn & ->). exfalso. apply Hm.
    assert (n ≠ 0) by (intros ->; cbn in *; lia).
    rewrite (pow16_pred n) by lia. zlia.
Qed.

Lemma pow16_pow2 k : 0 ≤ k → 16 ^ k = 2 ^ (4 * k).
Proof. intros. change 16 with (2 ^ 4). rewrite <-Z.pow_mul_r; lia. Qed.

Lemma odd_pow16 n : 0 < n → Z.odd (16 ^ n - 1) = true.
Proof.
  intros. rewrite pow16_pred, Z.odd_sub, Z.odd_mul by lia. done.
Qed.

Lemma pow2_odd_unique v q v' q' :
  0 ≤ v → 0 ≤ v' → Z.odd q = true → Z.odd q' = true →
  2 ^ v * q = 2 ^ v' * q' → v = v' ∧ q = q'.
Proof.
  assert (∀ v q v' q', 0 ≤ v < v' → Z.odd q = true → 2 ^ v * q = 2 ^ v' * q' → False) as Hlt.
  { clear. intros v q v' q' Hv Hq E.
    replace v' with (v + 1 + (v' - v - 1)) in E by lia.
    rewrite !Z.pow_add_r, Z.pow_1_r in E by lia.
    assert (0 < 2 ^ v) by (apply Z.pow_pos_nonneg; lia).
    assert (q = 2 * (2 ^ (v' - v - 1) * q')) as -> by (apply (Z.mul_reg_l _ _ (2 ^ v)); lia).
    rewrite Z.odd_mul in Hq. done. }
  intros Hv Hv' Hq Hq' E. destruct (Z.lt_trichotomy v v') as [?|[->|?]].
  - exfalso. eapply (Hlt v q v' q'); eauto; lia.
  - split; [done|]. assert (0 < 2 ^ v') by (apply Z.pow_pos_nonneg; lia).
    apply (Z.mul_reg_l _ _ (2 ^ v')); lia.
  - exfalso. eapply (Hlt v' q' v q); eauto; lia.
Qed.

(** The nibble mask of 32 bits, in the decomposition the code computes. *)
Lemma nibble_mask_odd_part k n :
  0 ≤ k → 0 < n → nibble_mask k n = 2 ^ (4 * k) * (16 ^ n - 1).
Proof. intros. unfold nibble_mask. rewrite (pow16_pow2 k) by lia. lia. Qed.

Lemma nibble_mask_range k n :
  0 ≤ k → 0 < n → k + n ≤ 8 → 0 < nibble_mask k n < 2 ^ 32.
Proof.
  intros. unfold nibble_mask.
  assert (0 < 16 ^ k) by (apply Z.pow_pos_nonneg; lia).
  assert (16 ^ 1 ≤ 16 ^ n) by (apply Z.pow_le_mono_r; lia).
  assert (16 ^ n * 16 ^ k ≤ 16 ^ 8) by (rewrite <-Z.pow_add_r by lia; apply Z.pow_le_mono_r; lia).
  change (2 ^ 32) with (16 ^ 8). change (16 ^ 1) with 16 in *. nia.
Qed.

Lemma lowest_bit_nibble_mask k n :
  0 ≤ k → 0 < n → k + n ≤ 8 → lowest_bit (nibble_mask k n) = 16 ^ k.
Proof.
  intros. pose proof (nibble_mask_range k n ltac:(lia) ltac:(lia) ltac:(lia)).
  rewrite nibble_mask_odd_part in * by lia. rewrite (pow16_pow2 k) by lia.
  assert (1 < 16 ^ n) by (apply Z.pow_gt_1; lia).
  apply lowest_bit_pow2; auto using odd_pow16; lia.
Qed.

Lemma normalized_nibble_mask k n :
  0 ≤ k → 0 < n → k + n ≤ 8 → normalized_fwmark_mask (nibble_mask k n) = 16 ^ n - 1.
Proof.
  intros. unfold normalized_fwmark_mask. rewrite lowest_bit_nibble_mask by lia.
  unfold nibble_mask. apply Z.div_mul. apply Z.pow_nonzero; lia.
Qed.

(** The two checks of [validate_fwmark_mask], on the decomposition
    [mask = 2^v * q] with [q] odd. *)
Definition validated (v q : Z) : bool := (v mod 4 =? 0) && full_f_nibbles_loop 8 q.

Lemma validated_spec v q :
  0 ≤ v → Z.odd q = true → 0 < q → 2 ^ v * q < 2 ^ 32 →
  validated v q = true ↔
  ∃ k n, 0 ≤ k ∧ 0 < n ∧ k + n ≤ 8 ∧ 2 ^ v * q = nibble_mask k n.
Proof.
  intros Hv Hq Hq0 Hlt. assert (0 < 2 ^ v) by (apply Z.pow_pos_nonneg; lia).
  pose proof (full_f_nibbles_loop_spec 8 q) as HF.
  change (16 ^ Z.of_nat 8) with (2 ^ 32) in HF. specialize (HF ltac:(nia)).
  unfold validated. rewrite andb_true_iff, HF, Z.eqb_eq. split.
  - intros (Hv4 & n & Hn & ->). exists (v / 4), n.
    assert (n ≠ 0) by (intros ->; cbn in *; lia).
    rewrite nibble_mask_odd_part by zlia. replace (4 * (v / 4)) with v by zlia.
    repeat split; try zlia.
    assert (v + 4 * (n - 1) < 32) as Hb; [|zlia].
    apply (Z.pow_lt_mono_r_iff 2); [lia..|]. rewrite Z.pow_add_r, <-pow16_pow2 by lia.
    rewrite (pow16_pred n) in Hlt by lia.
    assert (0 < 16 ^ (n - 1)) by (apply Z.pow_pos_nonneg; lia). nia.
  - intros (k & n & Hk & Hn & Hkn & E). rewrite nibble_mask_odd_part in E by lia.
    apply pow2_odd_unique in E as [-> ->]; auto using odd_pow16; [|lia].
    split; [zlia|]. exists n. lia.
Qed.

Lemma validate_fwmark_mask_Ok m :
  0 ≤ m < 2 ^ 32 →
  validate_fwmark_mask m = Ok tt ↔ ∃ k n, 0 ≤ k ∧ 0 < n ∧ k + n ≤ 8 ∧ m = nibble_mask k n.
Proof.
  intros Hm. unfold validate_fwmark_mask. destruct (Z.eqb_spec m 0) as [->|Hm0].
  { split; [done|]. intros (k & n & Hk & Hn & Hkn & E).
    pose proof (nibble_mask_range k n). lia. }
  destruct (odd_part m ltac:(lia)) as (v & q & Hv & Hq & Hq0 & ->).
  assert (v < 32) as Hv32.
  { apply (Z.pow_lt_mono_r_iff 2); [lia..|].
    assert (0 < 2 ^ v) by (apply Z.pow_pos_nonneg; lia). nia. }
  rewrite <-validated_spec by (auto; lia). unfold validated, normalized_fwmark_mask.
  assert (0 < 2 ^ v) by (apply Z.pow_pos_nonneg; lia).
  rewrite lowest_bit_pow2, bit_pos_loop_pow2, Z.mul_comm, Z.div_mul by (done || lia).
  unfold has_consecutive_full_f_nibbles. rewrite (proj2 (Z.eqb_neq q 0)) by lia.
  change (0 + v) with v. destruct (v mod 4 =? 0), (full_f_nibbles_loop 8 q); naive_solver.
Qed.

(** ** Marks *)

(** The [i]-th mark handed out. *)
Definition mark_at (start step i : Z) : Z := u32 (start + i * step).

Lemma div_mod_pow2 a s t w :
  0 ≤ s → 0 ≤ t → s + t ≤ w → ((a mod 2 ^ w) / 2 ^ s) mod 2 ^ t = (a / 2 ^ s) mod 2 ^ t.
Proof.
  intros. apply Z.bits_inj'. intros j Hj. destruct (Z.lt_ge_cases j t).
  - rewrite !Z.mod_pow2_bits_low, <-!Z.shiftr_div_pow2, !Z.shiftr_spec by lia.
    by rewrite Z.mod_pow2_bits_low by lia.
  - by rewrite !Z.mod_pow2_bits_high by lia.
Qed.

Lemma land_nibble_mask x k n :
  0 ≤ k → 0 < n → Z.land x (nibble_mask k n) = ((x / 16 ^ k) mod 16 ^ n) * 16 ^ k.
Proof.
  intros. unfold nibble_mask. rewrite !pow16_pow2 by lia.
  rewrite <-!Z.shiftl_mul_pow2, <-Z.shiftr_div_pow2 by lia.
  replace (2 ^ (4 * n) - 1) with (Z.ones (4 * n)) by (rewrite Z.ones_equiv; lia).
  apply Z.bits_inj'. intros j Hj. rewrite Z.land_spec, !Z.shiftl_spec by lia.
  destruct (Z.lt_ge_cases j (4 * k)).
  { rewrite !(Z.testbit_neg_r _ (j - 4 * k)) by lia. apply andb_false_r. }
  rewrite <-Z.land_ones, Z.land_spec, Z.shiftr_spec by lia.
  by replace (j - 4 * k + 4 * k) with j by lia.
Qed.

Lemma masked_mark start k n i :
  0 ≤ k → 0 < n → k + n ≤ 8 →
  Z.land (mark_at start (16 ^ k) i) (nibble_mask k n) =
  ((start / 16 ^ k + i) mod 16 ^ n) * 16 ^ k.
Proof.
  intros. rewrite land_nibble_mask by lia. unfold mark_at, wrap.
  rewrite !pow16_pow2, div_mod_pow2 by lia.
  by rewrite Z.div_add by (apply Z.pow_nonzero; lia).
Qed.

Lemma mod_add_inj s N i j :
  0 < N → 0 ≤ i < N → 0 ≤ j < N → (s + i) mod N = (s + j) mod N → i = j.
Proof.
  intros HN Hi Hj E. pose proof (Z.div_mod (s + i) N). pose proof (Z.div_mod (s + j) N).
  assert (N * ((s + i) / N - (s + j) / N) = i - j) by lia.
  assert ((s + i) / N - (s + j) / N = 0) by nia. lia.
Qed.

Lemma masked_mark_inj start k n i j :
  0 ≤ k → 0 < n → k + n ≤ 8 → 0 ≤ i < 16 ^ n → 0 ≤ j < 16 ^ n →
  Z.land (mark_at start (16 ^ k) i) (nibble_mask k n) =
  Z.land (mark_at start (16 ^ k) j) (nibble_mask k n) → i = j.
Proof.
  intros Hk Hn Hkn Hi Hj. rewrite !masked_mark by lia. intros E.
  assert (0 < 16 ^ k) by (apply Z.pow_pos_nonneg; lia).
  apply Z.mul_cancel_r in E; [|lia]. eapply mod_add_inj; [|done..|exact E].
  apply Z.pow_pos_nonneg; lia.
Qed.

(** The loop refines an allocation of indices: [f] maps each key to the index
    of the mark it was given last. *)
Definition index_inv (count : Z) (f : gmap cstring Z) : Prop :=
  (∀ key i, f !! key = Some i → 0 ≤ i < count) ∧
  (∀ key key' i, f !! key = Some i → f !! key' = Some i → key = key').

Lemma index_inv_empty count : index_inv count ∅.
Proof. split; intros *; by rewrite lookup_empty. Qed.

Lemma index_inv_insert count key f :
  0 ≤ count → index_inv count f → index_inv (count + 1) (<[key := count]> f).
Proof.
  intros Hc [Hr Hi]. split.
  - intros x i. rewrite lookup_insert. case_decide; [intros [= <-]; lia|].
    intros Hx%Hr. lia.
  - intros x y i. rewrite !lookup_insert. repeat case_decide; subst; [done|..].
    + intros [= <-] Hy%Hr. lia.
    + intros Hx%Hr [= <-]. lia.
    + apply Hi.
Qed.

Lemma mark_at_succ start step i :
  u32 (mark_at start step i + step) = mark_at start step (i + 1).
Proof. unfold mark_at, wrap. rewrite Zplus_mod_idemp_l. f_equal. lia. Qed.

Lemma allocate_loop_Ok max_marks start step obs count f :
  0 ≤ count ≤ max_marks → max_marks < 2 ^ 31 → index_inv count f →
  if 2 * Z.of_nat (length obs) + count <=? max_marks then
    ∃ f', allocate_loop max_marks step obs (mark_at start step count) count
            (mark_at start step <$> f) = Ok (mark_at start step <$> f') ∧
          index_inv max_marks f' ∧ dom f ⊆ dom f' ∧
          ∀ ob, ob ∈ obs → tag ob ∈ dom f' ∧ internal_detour_mark_key (tag ob) ∈ dom f'
  else is_ok (allocate_loop max_marks step obs (mark_at start step count) count
            (mark_at start step <$> f)) = false.
Proof.
  intros Hc Hmax. revert count f Hc.
  induction obs as [|ob obs IH]; intros count f Hc Hinv.
  { cbn [length]. rewrite (proj2 (Z.leb_le _ _)) by lia. exists f. split_and!; [done| |done|].
    - destruct Hinv as [Hr Hi]. split; [|done]. intros key i H%Hr. lia.
    - intros ob Hob. by apply not_elem_of_nil in Hob. }
  cbn [allocate_loop length]. rewrite (wrap_small 32 (count + 2)) by lia.
  destruct (Z.ltb_spec max_marks (count + 2)) as [Hlt|Hge].
  { rewrite (proj2 (Z.leb_gt _ _)) by lia. done. }
  rewrite !mark_at_succ, <-!fmap_insert. replace (count + 1 + 1) with (count + 2) by lia.
  specialize (IH (count + 2)
    (<[internal_detour_mark_key (tag ob) := count + 1]> (<[tag ob := count]> f)) ltac:(lia)).
  rewrite Nat2Z.inj_succ.
  replace (2 * Z.succ (Z.of_nat (length obs)) + count)
    with (2 * Z.of_nat (length obs) + (count + 2)) by lia.
  replace (count + 2) with (count + 1 + 1) in IH at 1 by lia.
  specialize (IH ltac:(repeat apply index_inv_insert; auto; lia)).
  destruct (_ <=? max_marks); [|done].
  destruct IH as (f' & HE & Hf' & Hd & Hobs). exists f'. split_and!; auto.
  - set_solver.
  - intros ob' [->|Hin]%elem_of_cons; [|by apply Hobs]. set_solver.
Qed.

Lemma hex_value_nonneg v s : forallb isxdigit s = true → 0 ≤ v → 0 ≤ hex_value v s.
Proof.
  revert v. induction s as [|c s IH]; intros v; cbn; [done|].
  intros [Hc Hs]%andb_true_iff Hv. apply IH; [done|].
  unfold isxdigit, isdigit, in_range, xdigit_val, isdigit, in_range in *.
  repeat case_match; breflect; lia.
Qed.

Lemma parse_fwmark_hex_range raw d path v :
  0 ≤ d < 2 ^ 32 → parse_fwmark_hex_or_throw raw d path = Ok v → 0 ≤ v < 2 ^ 32.
Proof.
  unfold parse_fwmark_hex_or_throw. intros Hd H. destruct raw as [raw|]; [|by simplify_eq].
  split_cases. breflect. unfold UINT32_MAX in *. split; [|lia].
  match goal with |- 0 ≤ hex_value (0 * 16 + xdigit_val ?a) ?l =>
    apply (hex_value_nonneg 0 (a :: l)); [cbn; by breflect|done] end.
Qed.

Lemma fwmark_mask_value_Ok cfg mask :
  fwmark_mask_value cfg = Ok mask ↔
  parse_fwmark_mask_or_throw cfg = Ok mask ∧ validate_fwmark_mask mask = Ok tt.
Proof.
  unfold fwmark_mask_value. rewrite exc_bind_Ok. setoid_rewrite exc_bind_Ok. split.
  - intros (m & H1 & [] & H2 & [= ->]). done.
  - intros [H1 H2]. exists mask. split; [done|]. by exists ().
Qed.

Lemma capacity_nibble_mask k n :
  0 ≤ k → 0 < n → k + n ≤ 8 →
  fwmark_mask_mark_capacity (nibble_mask k n) = if n =? 8 then 0 else 16 ^ n.
Proof.
  intros. unfold fwmark_mask_mark_capacity. rewrite normalized_nibble_mask by lia.
  replace (16 ^ n - 1 + 1) with (16 ^ n) by lia.
  destruct (Z.eqb_spec n 8) as [->|]; [done|]. apply wrap_small.
  assert (16 ^ n < 16 ^ 8) by (apply Z.pow_lt_mono_r; lia).
  assert (0 < 16 ^ n) by (apply Z.pow_pos_nonneg; lia). lia.
Qed.

Section properties.
Context {SS : StdSort}.

(** The allocation for a validated mask, in terms of indices. *)
Lemma allocate_outbound_marks_spec cfg obs start k n :
  parse_fwmark_start_or_throw cfg = Ok start →
  fwmark_mask_value cfg = Ok (nibble_mask k n) → 0 ≤ k → 0 < n → k + n ≤ 8 →
  let cap := if n =? 8 then 0 else 16 ^ n in
  if 2 * Z.of_nat (length (routable_outbounds obs)) <=? cap then
    ∃ f, allocate_outbound_marks cfg obs = Ok (mark_at start (16 ^ k) <$> f) ∧
         index_inv cap f ∧
         ∀ ob, ob ∈ routable_outbounds obs →
               tag ob ∈ dom f ∧ internal_detour_mark_key (tag ob) ∈ dom f
  else is_ok (allocate_outbound_marks cfg obs) = false.
Proof.
  intros Hs [Hm Hv]%fwmark_mask_value_Ok Hk Hn Hkn cap.
  assert (0 ≤ cap < 2 ^ 31) as Hcap.
  { unfold cap. destruct (Z.eqb_spec n 8); [lia|].
    assert (16 ^ n ≤ 16 ^ 7) by (apply Z.pow_le_mono_r; lia).
    assert (0 < 16 ^ n) by (apply Z.pow_pos_nonneg; lia). lia. }
  unfold allocate_outbound_marks. rewrite Hm. cbn [mbind exc_bind]. rewrite Hs.
  cbn [mbind exc_bind]. rewrite Hv. cbn [mbind exc_bind].
  rewrite lowest_bit_nibble_mask, capacity_nibble_mask by lia. fold cap.
  assert (0 ≤ start < 2 ^ 32) as Hst by (eapply parse_fwmark_hex_range; [|exact Hs]; lia).
  assert (start = mark_at start (16 ^ k) 0) as E
    by (unfold mark_at; rewrite wrap_small; lia).
  pose proof (allocate_loop_Ok cap start (16 ^ k) (routable_outbounds obs) 0 ∅
    ltac:(lia) ltac:(lia) (index_inv_empty 0)) as HL.
  rewrite fmap_empty, <-E, Z.add_0_r in HL. destruct (_ <=? cap); [|done].
  destruct HL as (f & H1 & H2 & _ & H3). eauto.
Qed.

Lemma elem_of_routable_outbounds obs ob :
  ob ∈ routable_outbounds obs ↔ ob ∈ obs ∧ is_routable (type ob) = true.
Proof.
  unfold routable_outbounds. rewrite std_sort_perm, !list_elem_of_In, filter_In. done.
Qed.

(** Every key that has a mark is the tag or the detour key of a routable outbound. *)
Definition key_of (obs : list Outbound) (key : cstring) : Prop :=
  ∃ ob, ob ∈ obs ∧ is_routable (type ob) = true ∧
    (key = tag ob ∨ key = internal_detour_mark_key (tag ob)).

Lemma allocate_loop_keys (obs routable : list Outbound) max_marks step current count marks marks' :
  (∀ ob, ob ∈ routable → ob ∈ obs ∧ is_routable (type ob) = true) →
  (∀ key, is_Some (marks !! key) → key_of obs key) →
  allocate_loop max_marks step routable current count marks = Ok marks' →
  ∀ key, is_Some (marks' !! key) → key_of obs key.
Proof.
  revert current count marks. induction routable as [|ob routable IH]; intros current count marks Hr Hk; cbn.
  { by intros [= <-]. }
  destruct (max_marks <? _); [done|]. apply IH.
  { intros ob' Hin. apply Hr. by right. }
  destruct (Hr ob) as [Hob Ht]; [left|]. intros key. rewrite !lookup_insert_is_Some.
  intros [<-|[_ [<-|[_ H]]]]; [exists ob; auto|exists ob; auto|by apply Hk].
Qed.

Lemma allocate_outbound_marks_keys cfg obs marks key m :
  allocate_outbound_marks cfg obs = Ok marks → marks !! key = Some m → key_of obs key.
Proof.
  unfold allocate_outbound_marks. rewrite exc_bind_Ok. intros (mask & _ & H).
  rewrite exc_bind_Ok in H. destruct H as (start & _ & H). rewrite exc_bind_Ok in H.
  destruct H as (_ & _ & H). intros Hk. eapply allocate_loop_keys; [| |exact H|by rewrite Hk].
  - intros ob Hin. by apply elem_of_routable_outbounds in Hin.
  - intros key'. rewrite lookup_empty. by intros [? ?].
Qed.

Lemma allocate_outbound_marks_Ok cfg obs marks mask :
  allocate_outbound_marks cfg obs = Ok marks → fwmark_mask_value cfg = Ok mask →
  (∀ ob, ob ∈ obs → is_routable (type ob) = true →
     is_Some (marks !! tag ob) ∧ is_Some (marks !! internal_detour_mark_key (tag ob))) ∧
  (∀ key key' m m', marks !! key = Some m → marks !! key' = Some m' → key ≠ key' →
     Z.land m mask ≠ Z.land m' mask).
Proof.
  intros Ha Hm. pose proof Hm as [Hp Hv]%fwmark_mask_value_Ok.
  apply validate_fwmark_mask_Ok in Hv as (k & n & Hk & Hn & Hkn & ->);
    [|by eapply (parse_fwmark_hex_range (fwmark_mask cfg) 16711680)].
  assert (∃ start, parse_fwmark_start_or_throw cfg = Ok start) as [start Hs].
  { unfold allocate_outbound_marks in Ha. rewrite exc_bind_Ok in Ha.
    destruct Ha as (? & _ & Ha). rewrite exc_bind_Ok in Ha. naive_solver. }
  pose proof (allocate_outbound_marks_spec cfg obs start k n Hs Hm Hk Hn Hkn) as HS.
  cbn zeta in HS. destruct (_ <=? _) in HS; [|by rewrite Ha in HS].
  destruct HS as (f & Hf & [Hr Hi] & Hcov). rewrite Ha in Hf. simplify_eq. split.
  - intros ob Hob Ht. destruct (Hcov ob) as [H1 H2]; [by apply elem_of_routable_outbounds|].
    rewrite !elem_of_dom in H1, H2. by rewrite !lookup_fmap, !fmap_is_Some.
  - intros key key' m m'. rewrite !lookup_fmap, !fmap_Some.
    intros (i & Hx & ->) (j & Hy & ->) Hne E. apply Hne.
    assert (i = j) as ->; [|by eauto].
    pose proof (Hr _ _ Hx). pose proof (Hr _ _ Hy).
    assert (0 < 16 ^ n) by (apply Z.pow_pos_nonneg; lia).
    apply masked_mark_inj in E; auto; destruct (n =? 8); lia.
Qed.

(** A 32-bit value is accepted as [fwmark.mask] exactly when it is a run
    of one to eight consecutive hexadecimal digits [F], aligned to a nibble. *)
Theorem validate_fwmark_mask_correct m :
  0 ≤ m < 2 ^ 32 →
  validate_fwmark_mask m = Ok tt ↔
  ∃ k n, 0 ≤ k ∧ 0 < n ∧ k + n ≤ 8 ∧ m = nibble_mask k n.
Proof. apply validate_fwmark_mask_Ok. Qed.

(** When the allocation succeeds, every routable outbound has a mark and
    an internal-detour mark, and marks of different keys differ in the bits of
    the mask, so that the policy rules of two outbounds never match the same
    packet. *)
Theorem allocate_outbound_marks_distinct cfg obs marks mask :
  allocate_outbound_marks cfg obs = Ok marks → fwmark_mask_value cfg = Ok mask →
  (∀ ob, ob ∈ obs → is_routable (type ob) = true →
     is_Some (marks !! tag ob) ∧ is_Some (marks !! internal_detour_mark_key (tag ob))) ∧
  (∀ key key' m m', marks !! key = Some m → marks !! key' = Some m' → key ≠ key' →
     Z.land m mask ≠ Z.land m' mask).
Proof. apply allocate_outbound_marks_Ok. Qed.

(** C31.  With a validated mask of [n] nibbles, the allocation succeeds exactly
    when the routable outbounds, two marks each, fit into [16^n] marks; for the
    full 32-bit mask the capacity overflows to zero and no routable outbound
    can be configured at all. *)
Theorem allocate_outbound_marks_capacity cfg obs start k n :
  parse_fwmark_start_or_throw cfg = Ok start →
  fwmark_mask_value cfg = Ok (nibble_mask k n) → 0 ≤ k → 0 < n → k + n ≤ 8 →
  is_ok (allocate_outbound_marks cfg obs) = true ↔
  2 * Z.of_nat (length (routable_outbounds obs)) ≤ if n =? 8 then 0 else 16 ^ n.
Proof.
  intros Hs Hm Hk Hn Hkn.
  pose proof (allocate_outbound_marks_spec cfg obs start k n Hs Hm Hk Hn Hkn) as H.
  cbn zeta in H. destruct (Z.leb_spec (2 * Z.of_nat (length (routable_outbounds obs)))
    (if n =? 8 then 0 else 16 ^ n)).
  - destruct H as (f & -> & _). done.
  - rewrite H. split; [done|lia].
Qed.
End properties.

(** ** Witnesses *)

Definition sample_outbound (t : cstring) : Outbound :=
  Build_Outbound None None None None None None None None None None None None t None
    OutboundType.INTERFACE None.

(** Tags [t], [tt], [ttt], ... *)
Definition sample_outbounds (n : nat) : list Outbound :=
  map (λ i, sample_outbound (replicate (S i) "t"%char)) (seq 0 n).

Lemma validate_fwmark_mask_witness :
  validate_fwmark_mask 16711680 = Ok tt ↔
  ∃ k n, 0 ≤ k ∧ 0 < n ∧ k + n ≤ 8 ∧ 16711680 = nibble_mask k n.
Proof. apply validate_fwmark_mask_correct. lia. Defined.

Lemma allocate_outbound_marks_distinct_witness :
  let marks := from_exc ∅ (@allocate_outbound_marks insertion_StdSort default_FwmarkConfig
                             (sample_outbounds 2)) in
  (∀ ob, ob ∈ sample_outbounds 2 → is_routable (type ob) = true →
     is_Some (marks !! tag ob) ∧ is_Some (marks !! internal_detour_mark_key (tag ob))) ∧
  (∀ key key' m m', marks !! key = Some m → marks !! key' = Some m' → key ≠ key' →
     Z.land m 16711680 ≠ Z.land m' 16711680).
Proof.
  apply (@allocate_outbound_marks_distinct insertion_StdSort default_FwmarkConfig).
  - apply from_exc_Ok. vm_compute. reflexivity.
  - vm_compute. reflexivity.
Defined.

Lemma allocate_outbound_marks_capacity_witness :
  is_ok (@allocate_outbound_marks insertion_StdSort
           (Build_FwmarkConfig (Some (str "0xFFFFFFFF")) None) (sample_outbounds 1)) = true ↔ 2 ≤ 0.
Proof.
  apply (@allocate_outbound_marks_capacity insertion_StdSort _ (sample_outbounds 1) 65536 0 8);
    try reflexivity; lia.
Defined.

(** With the default start and mask, 128 interface outbounds pass the
    capacity check, but the last mark handed out is [0x01000000], which is
    zero under the mask [0x00FF0000]: its policy rule selects unmarked
    packets. *)
Theorem default_marks_overflow_mask :
  (λ marks : OutboundMarkMap, marks !! internal_detour_mark_key (replicate 128 "t"%char)) <$>
    @allocate_outbound_marks insertion_StdSort default_FwmarkConfig (sample_outbounds 128)
  = Ok (Some 16777216) ∧
  fwmark_mask_value default_FwmarkConfig = Ok 16711680 ∧
  Z.land 16777216 16711680 = 0.
Proof. split; [vm_compute; reflexivity|done]. Qed.
