(* ===== verification/Netlink.v ===== *)
(** * The netlink interface (src/src/routing/netlink.hpp)

    The request and dump structs of netlink.hpp and the interface through which
    the routing components change the kernel: exclusive creation and deletion
    of objects.  The kernel is not part of the program; what its interface
    promises (NLM_F_CREATE | NLM_F_EXCL and deletion) is stated as the laws of
    the class [Netlink], against which the clients are verified. *)

From S2P Require Import Prelude CppString.

Local Open Scope Z_scope.

Module RuleAction.
Inductive t := lookup | unreachable | blackhole.
#[global] Instance t_eq_dec : EqDecision t.
Proof. solve_decision. Defined.
End RuleAction.

Definition KEEN_PBR_GENERATED_ROUTE_PROTOCOL : Z := 186.

Record RouteSpec := mk_RouteSpec {
  rs_destination : cstring;
  rs_table : Z;
  rs_interface : option cstring;
  rs_gateway : option cstring;
  rs_blackhole : bool;
  rs_unreachable : bool;
  rs_family : Z;
  rs_metric : Z;
  rs_protocol : Z;
}.
#[export] Instance RouteSpec_eq_dec : EqDecision RouteSpec.
Proof. solve_decision. Defined.

(** A value-initialised [RouteSpec] with a destination and a table. *)
Definition new_RouteSpec (destination : cstring) (table : Z) : RouteSpec :=
  mk_RouteSpec destination table None None false false 0 0 KEEN_PBR_GENERATED_ROUTE_PROTOCOL.

Record RuleSpec := mk_RuleSpec {
  rl_fwmark : Z;
  rl_fwmask : Z;
  rl_table : Z;
  rl_priority : Z;
  rl_family : Z;
  rl_action : RuleAction.t;
}.
#[export] Instance RuleSpec_eq_dec : EqDecision RuleSpec.
Proof. solve_decision. Defined.

Definition with_family (f : Z) (r : RuleSpec) : RuleSpec :=
  mk_RuleSpec (rl_fwmark r) (rl_fwmask r) (rl_table r) (rl_priority r) f (rl_action r).

Record DumpedRoute := mk_DumpedRoute {
  dr_destination : cstring;
  dr_table : Z;
  dr_interface : option cstring;
  dr_gateway : option cstring;
  dr_blackhole : bool;
  dr_unreachable : bool;
  dr_family : Z;
  dr_metric : Z;
  dr_protocol : Z;
}.
#[export] Instance DumpedRoute_eq_dec : EqDecision DumpedRoute.
Proof. solve_decision. Defined.

Record DumpedRule := mk_DumpedRule {
  du_priority : Z;
  du_fwmark : Z;
  du_fwmask : Z;
  du_table : Z;
  du_family : Z;
  du_action : RuleAction.t;
}.
#[export] Instance DumpedRule_eq_dec : EqDecision DumpedRule.
Proof. solve_decision. Defined.

Record DumpedInterface := {
  di_name : cstring;
  di_admin_up : bool;
  di_oper_state : option cstring;
  di_carrier : option bool;
  di_ipv4_addresses : list cstring;
  di_ipv6_addresses : list cstring;
}.

(** [RouteAddResult] and [RuleAddResult] *)
Inductive AddResult := Created | AlreadyPresent.
Definition is_created (r : AddResult) : bool :=
  match r with Created => true | AlreadyPresent => false end.

(** [K] is the state of the kernel, [Req] the requests (a [RouteSpec], or a
    [RuleSpec] with a family) and [Obj] what identifies a kernel object for an
    exclusive creation (for a route its family, table, destination and metric):
    several requests may denote one object. *)
Class Netlink (K Req Obj : Type) := {
  nl_add : Req → stexc K AddResult;
  nl_delete : Req → stexc K unit;
  realize : Req → Obj;
  installed : K → Obj → Prop;
  nl_add_law (k : K) (r : Req) :
    match nl_add r k with
    | (Ok Created, k') => ¬ installed k (realize r) ∧
        ∀ x, installed k' x ↔ x = realize r ∨ installed k x
    | (Ok AlreadyPresent, k') => installed k (realize r) ∧
        ∀ x, installed k' x ↔ installed k x
    | (Throw _, k') => ∀ x, installed k' x ↔ installed k x
    | (Undefined, _) => False
    end;
  nl_delete_law (k : K) (r : Req) :
    match nl_delete r k with
    | (Ok _, k') => ∀ x, installed k' x ↔ installed k x ∧ x ≠ realize r
    | (Throw _, k') => ∀ x, installed k' x ↔ installed k x
    | (Undefined, _) => False
    end;
}.

(** A request to delete an object that is there is granted. *)
Definition deletes_reliably K `{Netlink K Req Obj} : Prop :=
  ∀ (k : K) (r : Req), installed k (realize r) → (nl_delete r k).1 = Ok tt.

(** Run a kernel operation inside an object that owns a reference to it. *)
Definition on_kernel {K T A} (m : stexc K A) : stexc (K * T) A :=
  λ s, let '(r, k') := m s.1 in (r, (k', s.2)).
(** Read and update the members of that object. *)
Definition get_obj {K T} : stexc (K * T) T := λ s, (Ok s.2, s).
Definition modify_obj {K T} (f : T → T) : stexc (K * T) unit := λ s, (Ok tt, (s.1, f s.2)).

(** A deletion whose failure, of any kind, is logged and ignored. *)
Definition try_delete {K Req Obj T} `{!Netlink K Req Obj} (r : Req) : stexc (K * T) unit :=
  try_catch_all (on_kernel (nl_delete r)) (λ _, mret tt).

(** ** What a component may have done to the kernel

    [k0] is the kernel before the component's first request and [owned] the
    requests for which it was told [Created] and which it has not deleted. *)

Section ledger.
Context {K Req Obj : Type} `{NL : !Netlink K Req Obj}.

(** Nothing that was there before is lost or will be deleted. *)
Definition undisturbed (k0 k : K) (owned : list Req) : Prop :=
  (∀ r, r ∈ owned → ¬ installed k0 (realize r)) ∧
  (∀ x, installed k0 x → installed k x).

(** The kernel holds exactly what was there before and the owned objects. *)
Definition ledger (k0 k : K) (owned : list Req) : Prop :=
  NoDup (realize <$> owned) ∧
  (∀ r, r ∈ owned → ¬ installed k0 (realize r)) ∧
  (∀ x, installed k x ↔ installed k0 x ∨ x ∈ realize <$> owned).

Lemma undisturbed_refl k : undisturbed k k [].
Proof. split; [by intros r ?%elem_of_nil|done]. Qed.

Lemma ledger_refl k : ledger k k [].
Proof.
  split_and!; [constructor|by intros r ?%elem_of_nil|].
  intros x. rewrite elem_of_nil. tauto.
Qed.

Lemma undisturbed_add k0 k owned r :
  undisturbed k0 k owned →
  match nl_add r k with
  | (Ok Created, k') => undisturbed k0 k' (owned ++ [r])
  | (_, k') => undisturbed k0 k' owned
  end.
Proof.
  intros [Ho Hk]. pose proof (nl_add_law k r) as Hlaw.
  destruct (nl_add r k) as [[[]|e|] k']; [| | |done].
  - destruct Hlaw as [Hn Hlaw]. split.
    + intros q [Hq| ->%list_elem_of_singleton]%elem_of_app; naive_solver.
    + naive_solver.
  - split; naive_solver.
  - split; naive_solver.
Qed.

Lemma undisturbed_delete k0 k o1 r o2 :
  undisturbed k0 k (o1 ++ r :: o2) → undisturbed k0 (nl_delete r k).2 (o1 ++ r :: o2).
Proof.
  intros [Ho Hk]. pose proof (nl_delete_law k r) as Hlaw.
  assert (¬ installed k0 (realize r)) by (apply Ho; set_solver).
  destruct (nl_delete r k) as [[[]|e|] k']; [| |done]; cbn; split; try done.
  - intros x Hx. apply Hlaw. split; [auto|]. by intros ->.
  - naive_solver.
Qed.

Lemma undisturbed_sublist k0 k o o' :
  o' ⊆ o → undisturbed k0 k o → undisturbed k0 k o'.
Proof. intros Hs [Ho Hk]. split; [|done]. intros r Hr. apply Ho, Hs, Hr. Qed.

Lemma ledger_add k0 k owned r :
  ledger k0 k owned →
  match nl_add r k with
  | (Ok Created, k') => ledger k0 k' (owned ++ [r])
  | (_, k') => ledger k0 k' owned
  end.
Proof.
  intros (Hd & Ho & Hk). pose proof (nl_add_law k r) as Hlaw.
  destruct (nl_add r k) as [[[]|e|] k']; [| | |done].
  - destruct Hlaw as [Hn Hlaw]. unfold ledger. rewrite fmap_app. cbn.
    rewrite Hk in Hn. split_and!.
    + apply NoDup_app. split_and!; [done| |repeat constructor; set_solver].
      intros x Hx ->%list_elem_of_singleton. tauto.
    + intros q [Hq| ->%list_elem_of_singleton]%elem_of_app; naive_solver.
    + intros x. rewrite Hlaw, Hk, elem_of_app, list_elem_of_singleton. tauto.
  - split_and!; [done..|]. intros x. by rewrite (proj2 Hlaw).
  - split_and!; [done..|]. intros x. by rewrite Hlaw.
Qed.

(** Deleting an owned object succeeds and takes exactly it away. *)
Lemma ledger_delete k0 k o1 r o2 :
  deletes_reliably K → ledger k0 k (o1 ++ r :: o2) →
  (nl_delete r k).1 = Ok tt ∧ ledger k0 (nl_delete r k).2 (o1 ++ o2).
Proof.
  intros Hrel (Hd & Ho & Hk). pose proof (nl_delete_law k r) as Hlaw.
  assert (Hr : (nl_delete r k).1 = Ok tt).
  { apply Hrel, Hk. right. rewrite fmap_app. set_solver. }
  destruct (nl_delete r k) as [[[]|e|] k']; [|done|done]; cbn in *. split; [done|].
  rewrite fmap_app in Hd. cbn in Hd.
  assert (Hx : realize r ∉ (realize <$> (o1 ++ o2) : list Obj)).
  { rewrite fmap_app. apply NoDup_app in Hd as (Hd1 & Hd2 & Hd3).
    apply NoDup_cons in Hd3. set_solver. }
  split_and!.
  - rewrite fmap_app in *. apply NoDup_app in Hd as (Hd1 & Hd2 & Hd3).
    apply NoDup_app. apply NoDup_cons in Hd3. set_solver.
  - intros q Hq. apply Ho. set_solver.
  - intros x. rewrite Hlaw, Hk, !fmap_app, !elem_of_app. cbn. rewrite elem_of_cons.
    assert (Hn : ¬ installed k0 (realize r)) by (apply Ho; set_solver).
    rewrite fmap_app, elem_of_app in Hx. split; [naive_solver|].
    intros Hor. split; [naive_solver|]. intros ->. naive_solver.
Qed.

Lemma try_delete_run {T} k r (t : T) :
  try_delete r (k, t) = (Ok tt, ((nl_delete r k).2, t)).
Proof.
  unfold try_delete, try_catch_all, on_kernel. pose proof (nl_delete_law k r) as Hlaw.
  cbn. by destruct (nl_delete r k) as [[[]|e|] k'].
Qed.

(** Deleting the most recent of them, last created first, restores the rest. *)
Lemma ledger_delete_suffix k0 k o l {T} (t : T) (f : Req → stexc (K * T) unit) :
  deletes_reliably K →
  (∀ r k, (nl_delete r k).1 = Ok tt → f r (k, t) = (Ok tt, ((nl_delete r k).2, t))) →
  ledger k0 k (o ++ l) →
  ∃ k', for_each f (reverse l) (k, t) = (Ok tt, (k', t)) ∧ ledger k0 k' o.
Proof.
  intros Hrel Hf. revert k. induction l as [|r l IH] using rev_ind; intros k Hl.
  - rewrite app_nil_r in Hl. by exists k.
  - rewrite reverse_snoc. cbn [for_each]. unfold mbind, stexc_bind.
    rewrite app_assoc in Hl.
    destruct (ledger_delete k0 k (o ++ l) r [] Hrel Hl) as [Hr Hl'].
    rewrite Hf by done. rewrite app_nil_r in Hl'. by apply IH.
Qed.

Lemma ledger_nil k0 k : ledger k0 k [] ↔ ∀ x, installed k x ↔ installed k0 x.
Proof.
  unfold ledger. cbn. setoid_rewrite elem_of_nil. split; [naive_solver|].
  intros H. split_and!; [constructor|done|]. intros x. rewrite H. tauto.
Qed.

Lemma ledger_delete_all k0 k owned {T} (t : T) :
  deletes_reliably K → ledger k0 k owned →
  ∃ k', for_each try_delete (reverse owned) (k, t) = (Ok tt, (k', t)) ∧
        ∀ x, installed k' x ↔ installed k0 x.
Proof.
  intros Hrel Hl. setoid_rewrite <-ledger_nil.
  apply ledger_delete_suffix; [done| |done]. intros. apply try_delete_run.
Qed.

Lemma undisturbed_delete_all k0 k owned l {T} (t : T) :
  l ⊆ owned → undisturbed k0 k owned →
  ∃ k', for_each try_delete l (k, t) = (Ok tt, (k', t)) ∧ undisturbed k0 k' owned.
Proof.
  intros Hl. revert k. induction l as [|r l IH]; intros k Hs; [by exists k|].
  cbn [for_each]. unfold mbind, stexc_bind. rewrite try_delete_run. cbn.
  apply IH; [set_solver|].
  destruct (list_elem_of_split owned r) as (o1 & o2 & Ho); [set_solver|].
  rewrite Ho in *. by apply undisturbed_delete.
Qed.
End ledger.

(** ** A kernel that satisfies the interface

    The objects are kept in a list; a request is refused when the object is
    already (or no longer) there. *)

Section list_kernel.
Context {Req Obj : Type} `{!EqDecision Obj} (denote : Req → Obj).

Definition lk_add (r : Req) : stexc (list Obj) AddResult := λ k,
  if bool_decide (denote r ∈ k) then (Ok AlreadyPresent, k)
  else (Ok Created, denote r :: k).

Definition lk_delete (r : Req) : stexc (list Obj) unit := λ k,
  if bool_decide (denote r ∈ k) then
    (Ok tt, List.filter (λ x, bool_decide (x ≠ denote r)) k)
  else (Throw (NetlinkError "Failed to delete: object not found"), k).

Program Definition list_kernel : Netlink (list Obj) Req Obj := {|
  nl_add := lk_add;
  nl_delete := lk_delete;
  realize := denote;
  installed k x := x ∈ k;
|}.
Next Obligation.
  intros k r. unfold lk_add. case_bool_decide; [done|]. split; [done|].
  intros x. apply elem_of_cons.
Qed.
Next Obligation.
  intros k r. unfold lk_delete. case_bool_decide; [|done].
  intros x. rewrite !list_elem_of_In, filter_In, bool_decide_eq_true. done.
Qed.

Lemma list_kernel_reliable : @deletes_reliably _ _ _ list_kernel.
Proof. intros k r Hr. cbn in *. unfold lk_delete. by rewrite bool_decide_eq_true_2. Qed.
End list_kernel.
