(* ===== verification/Json.v ===== *)
(** * JSON values (nlohmann's json as the sources use it)

    The value of a document, the access to the members of an object, and the
    conversions between values and C++ types: [Codec] is what the overloads of
    [from_json] and [to_json] are to the library, with the laws that make them
    inverse. *)

From S2P Require Import Prelude CppString Config.

Local Open Scope Z_scope.

(** ** Values *)

(** The members of an object in the order of the source. *)
#[local] Unset Elimination Schemes.
Inductive json :=
  | JNull
  | JBool (b : bool)
  | JInt (z : Z)
  | JFloat (text : cstring)
  | JStr (s : cstring)
  | JArr (l : list json)
  | JObj (l : list (cstring * json)).
#[local] Set Elimination Schemes.

Definition obj1 (k : cstring) (v : json) : json := JObj [(k, v)].

Fixpoint assoc (k : cstring) (l : list (cstring * json)) : option json :=
  match l with
  | [] => None
  | (k', v) :: l => if bool_decide (k' = k) then Some v else assoc k l
  end.

(** [json::find], which finds nothing in a value that is not an object. *)
Definition jfind (k : cstring) (j : json) : option json :=
  match j with JObj l => assoc k l | _ => None end.

(** ** The library that reads and prints documents

    What the sources rely on of nlohmann's json besides [find] and [at]: the
    texts of its exceptions and the conversion of a fractional number. *)
Class Nlohmann := {
  type_error : cstring → json → cstring;
  key_not_found : cstring → cstring;
  float_to_int64 : cstring → Z;
}.

(** The text of a document: the parser, [None] when it throws, and the printers
    with an indentation of two and without any, which throw on text that is not
    UTF-8. *)
Class JsonText := { json_parse : cstring → option json }.
Class JsonDump := { json_dump : json → exc cstring; json_compact : json → exc cstring }.

(** ** Lemmas *)

Lemma assoc_lookup l i k v : NoDup l.*1 → l !! i = Some (k, v) → assoc k l = Some v.
Proof.
  revert i. induction l as [|[k' v'] l IH]; intros i Hl; [done|]. rewrite fmap_cons, NoDup_cons in Hl.
  destruct Hl as [Hk Hl]. destruct i as [|i]; cbn [lookup list_lookup assoc].
  - intros [= <- <-]. by rewrite bool_decide_eq_true_2.
  - intros Hi. rewrite bool_decide_eq_false_2; [by eapply IH|]. intros ->. apply Hk, list_elem_of_fmap.
    exists (k, v). split; [done|]. by eapply list_elem_of_lookup_2.
Qed.

(** ** Conversions *)

(** [j.get<T>()] and [j = x] for a type [T] of the sources *)
Class Codec (A : Type) := { from_json : json → exc A; to_json : A → json }.

(** The values a round trip keeps, which is only about the width of integers. *)
Class CodecLaw (A : Type) `{Codec A} := {
  fits : A → Prop;
  to_json_not_null a : to_json a ≠ JNull;
  from_to_json a : fits a → from_json (to_json a) = Ok a;
}.

Section codecs.
Context {NL : Nlohmann}.

Definition type_mismatch {A} (expected : cstring) (j : json) : exc A := Throw (json_exception (type_error expected j)).

#[export] Instance bool_codec : Codec bool := {|
  from_json j := match j with JBool b => Ok b | _ => type_mismatch "boolean" j end;
  to_json := JBool;
|}.
#[export] Instance string_codec : Codec cstring := {|
  from_json j := match j with JStr s => Ok s | _ => type_mismatch "string" j end;
  to_json := JStr;
|}.
(** [int64_t]; a fractional number is truncated *)
#[export] Instance int_codec : Codec Z := {|
  from_json j := match j with
                 | JInt z => Ok (swrap 64 z)
                 | JFloat t => Ok (float_to_int64 t)
                 | _ => type_mismatch "number" j
                 end;
  to_json := JInt;
|}.

Fixpoint read_all {A} (read : json → exc A) (l : list json) : exc (list A) :=
  match l with
  | [] => mret []
  | j :: l => x ← read j; xs ← read_all read l; mret (x :: xs)
  end.
(** [std::vector<T>] *)
#[export] Instance vector_codec `{Codec A} : Codec (list A) | 10 := {|
  from_json j := match j with JArr l => read_all from_json l | _ => type_mismatch "array" j end;
  to_json l := JArr (to_json <$> l);
|}.

Fixpoint read_members {A} (read : json → exc A) (l : list (cstring * json)) : exc (list (cstring * A)) :=
  match l with
  | [] => mret []
  | (k, j) :: l => x ← read j; xs ← read_members read l; mret ((k, x) :: xs)
  end.
(** [std::map<std::string, T>] *)
#[export] Instance map_codec `{Codec A} : Codec (gmap cstring A) := {|
  from_json j := match j with JObj l => list_to_map <$> read_members from_json l | _ => type_mismatch "object" j end;
  to_json m := JObj ((λ e, (e.1, to_json e.2)) <$> in_key_order m);
|}.

(** [j = optional] *)
Definition put_optional `{Codec A} (o : option A) : json := match o with Some x => to_json x | None => JNull end.

Definition get_stack_optional A `{Codec A} (j : json) (property : cstring) : exc (option A) :=
  match jfind property j with
  | None | Some JNull => mret None
  | Some v => x ← from_json v; mret (Some x)
  end.

(** [j.at(property).get<T>()] *)
Definition at_get A `{Codec A} (j : json) (property : cstring) : exc A :=
  match j with
  | JObj l => match assoc property l with
              | Some v => from_json v
              | None => Throw (json_exception (key_not_found property))
              end
  | _ => type_mismatch "object" j
  end.

(** ** Laws *)

#[export] Program Instance bool_law : CodecLaw bool := {| fits _ := True |}.
Next Obligation. done. Qed.
Next Obligation. done. Qed.
#[export] Program Instance string_law : CodecLaw cstring := {| fits _ := True |}.
Next Obligation. done. Qed.
Next Obligation. done. Qed.
#[export] Program Instance int_law : CodecLaw Z := {| fits z := - 2 ^ 63 ≤ z < 2 ^ 63 |}.
Next Obligation. done. Qed.
Next Obligation. intros z Hz. cbn in *. f_equal. unfold swrap. change (64 - 1) with 63. rewrite Z.mod_small; lia. Qed.

Lemma read_all_to_json `{CodecLaw A} (l : list A) : Forall fits l → read_all from_json (to_json <$> l) = Ok l.
Proof. induction 1 as [|x l Hx _ IH]; [done|]. cbn. rewrite (from_to_json x Hx). cbn. by rewrite IH. Qed.
#[export] Program Instance vector_law `{CodecLaw A} : CodecLaw (list A) | 10 := {| fits l := Forall fits l |}.
Next Obligation. done. Qed.
Next Obligation. intros A C L l Hl. by apply read_all_to_json. Qed.

Lemma read_members_to_json `{CodecLaw A} (l : list (cstring * A)) :
  Forall (λ e, fits e.2) l → read_members from_json ((λ e, (e.1, to_json e.2)) <$> l) = Ok l.
Proof.
  induction 1 as [|[k x] l Hx _ IH]; [done|]. cbn in *. rewrite (from_to_json x Hx). cbn. by rewrite IH.
Qed.
#[export] Program Instance map_law `{CodecLaw A} : CodecLaw (gmap cstring A) := {|
  fits m := map_Forall (λ _, fits) m |}.
Next Obligation. done. Qed.
Next Obligation.
  intros A C L m Hm. cbn. rewrite read_members_to_json.
  - cbn. by rewrite list_to_map_in_key_order.
  - apply Forall_forall. intros [k x] Hx%in_key_order_elem. by eapply Hm.
Qed.

(** A member of an object written by [to_json] is read back. *)
Definition fits_optional `{CodecLaw A} (o : option A) : Prop := match o with Some x => fits x | None => True end.

Lemma get_stack_optional_put `{CodecLaw A} l i k (o : option A) :
  NoDup l.*1 → l !! i = Some (k, put_optional o) → fits_optional o → get_stack_optional A (JObj l) k = Ok o.
Proof.
  intros Hl Hi Ho. unfold get_stack_optional. cbn [jfind]. rewrite (assoc_lookup _ _ _ _ Hl Hi).
  destruct o as [x|]; cbn [put_optional]; [|done]. pose proof (to_json_not_null x).
  destruct (to_json x) eqn:E; try done; rewrite <-E, (from_to_json x Ho); done.
Qed.
Lemma at_get_put `{CodecLaw A} l i k (x : A) :
  NoDup l.*1 → l !! i = Some (k, to_json x) → fits x → at_get A (JObj l) k = Ok x.
Proof. intros Hl Hi Hx. unfold at_get. rewrite (assoc_lookup _ _ _ _ Hl Hi). by apply from_to_json. Qed.
End codecs.

Lemma bind_Ok {A B} (m : exc A) (f : A → exc B) a r : m = Ok a → f a = r → m ≫= f = r.
Proof. by intros ->. Qed.
(** Reads back member after member of an object written by [to_json]. *)
Ltac read_members_from i :=
  match goal with
  | |- _ ≫= _ = _ =>
      eapply bind_Ok;
      [first [eapply (get_stack_optional_put _ i)|eapply (at_get_put _ i)];
       [apply (bool_decide_unpack _); vm_compute; exact I|reflexivity|done]
      |read_members_from (S i)]
  | _ => idtac
  end.
Ltac read_back x Hx := destruct_and? Hx; read_members_from 0%nat; by destruct x.
