(* ===== verification/JsonSample.v ===== *)
(** * A concrete text of documents

    A printer and a parser of values that satisfy what the sources rely on of
    the JSON library: the printer refuses text outside ASCII, and what it prints
    is read back.  Witnesses use them. *)

From S2P Require Import Prelude CppString Json.

Local Open Scope Z_scope.

Module JsonSample.

Fixpoint quote (s : cstring) : cstring := match s with [] => [";"%char] | c :: s => "."%char :: c :: quote s end.
Fixpoint unquote (s : cstring) : option (cstring * cstring) :=
  match s with
  | "."%char :: c :: s => prod_map (cons c) id <$> unquote s
  | ";"%char :: s => Some ([], s)
  | _ => None
  end.

Definition unary (n : nat) : cstring := replicate n "1"%char ++ [";"%char].
Fixpoint read_unary (s : cstring) : option (nat * cstring) :=
  match s with
  | "1"%char :: s => prod_map S id <$> read_unary s
  | ";"%char :: s => Some (O, s)
  | _ => None
  end.

Fixpoint print (j : json) : cstring :=
  match j with
  | JNull => "n"
  | JBool b => if b then "t" else "f"
  | JInt z => (if 0 <=? z then str "+" else str "-") ++ unary (Z.abs_nat z)
  | JFloat s => "d" ++ quote s
  | JStr s => "s" ++ quote s
  | JArr l => "[" ++ flat_map print l ++ "]"
  | JObj l => "{" ++ flat_map (λ '(k, v), "," ++ quote k ++ print v) l ++ "}"
  end.

Fixpoint read (fuel : nat) (s : cstring) : option (json * cstring) :=
  match fuel with
  | O => None
  | S fuel =>
      match s with
      | "n"%char :: s => Some (JNull, s)
      | "t"%char :: s => Some (JBool true, s)
      | "f"%char :: s => Some (JBool false, s)
      | "+"%char :: s => prod_map (λ n, JInt (Z.of_nat n)) id <$> read_unary s
      | "-"%char :: s => prod_map (λ n, JInt (- Z.of_nat n)) id <$> read_unary s
      | "d"%char :: s => prod_map JFloat id <$> unquote s
      | "s"%char :: s => prod_map JStr id <$> unquote s
      | "["%char :: s => prod_map JArr id <$> read_items fuel s
      | "{"%char :: s => prod_map JObj id <$> read_members fuel s
      | _ => None
      end
  end
with read_items (fuel : nat) (s : cstring) : option (list json * cstring) :=
  match fuel with
  | O => None
  | S fuel =>
      match s with
      | "]"%char :: s => Some ([], s)
      | _ => '(j, s) ← read fuel s; prod_map (cons j) id <$> read_items fuel s
      end
  end
with read_members (fuel : nat) (s : cstring) : option (list (cstring * json) * cstring) :=
  match fuel with
  | O => None
  | S fuel =>
      match s with
      | "}"%char :: s => Some ([], s)
      | ","%char :: s => '(k, s) ← unquote s; '(v, s) ← read fuel s; prod_map (cons (k, v)) id <$> read_members fuel s
      | _ => None
      end
  end.

Definition ascii_text (s : cstring) : bool := forallb (λ c, (Ascii.nat_of_ascii c <? 128)%nat) s.
Fixpoint printable (j : json) : bool :=
  match j with
  | JStr s => ascii_text s
  | JArr l => forallb printable l
  | JObj l => forallb (λ '(k, v), ascii_text k && printable v) l
  | _ => true
  end.
Definition dump (j : json) : exc cstring :=
  if printable j then Ok (print j) else Throw (json_exception "invalid UTF-8 byte").
Definition parse (s : cstring) : option json := fst <$> read (2 + length s) s.

Definition w_dump : JsonDump := {| json_dump := dump; json_compact := dump |}.
Definition w_text : JsonText := {| json_parse := parse |}.

Lemma unquote_quote s t : unquote (quote s ++ t) = Some (s, t).
Proof. induction s as [|c s IH]; [done|]. cbn. by rewrite IH. Qed.
Lemma read_unary_unary n t : read_unary (unary n ++ t) = Some (n, t).
Proof. unfold unary. induction n as [|n IH]; [done|]. cbn. by rewrite IH. Qed.

Fixpoint depth_ind (P : json → Prop)
    (Hn : P JNull) (Hb : ∀ b, P (JBool b)) (Hi : ∀ z, P (JInt z)) (Hf : ∀ s, P (JFloat s)) (Hs : ∀ s, P (JStr s))
    (Ha : ∀ l, Forall P l → P (JArr l)) (Ho : ∀ l, Forall (λ e, P e.2) l → P (JObj l)) (j : json) : P j :=
  let go := depth_ind P Hn Hb Hi Hf Hs Ha Ho in
  match j with
  | JNull => Hn | JBool b => Hb b | JInt z => Hi z | JFloat s => Hf s | JStr s => Hs s
  | JArr l => Ha l (list_rect (Forall P) (Forall_nil_2 P) (λ x l H, Forall_cons_2 P x l (go x) H) l)
  | JObj l => Ho l (list_rect (Forall (λ e, P e.2)) (Forall_nil_2 _) (λ x l H, Forall_cons_2 _ x l (go x.2) H) l)
  end.

Lemma print_head j : ∃ c s, print j = c :: s ∧ c ≠ "]"%char.
Proof. destruct j as [|[]|z| | | |]; try (by eexists _, _). cbn. by destruct (0 <=? z); eexists _, _. Qed.

Lemma read_print j : ∀ fuel t, (length (print j) < fuel)%nat → read fuel (print j ++ t) = Some (j, t).
Proof.
  induction j as [|b|z|s|s|l IH|l IH] using depth_ind; intros [|fuel] t; cbn -[read_unary unquote]; intros Hf; try lia; try done.
  - by destruct b.
  - destruct (Z.leb_spec 0 z); cbn -[unary read_unary]; rewrite read_unary_unary; cbn; do 3 f_equal; lia.
  - by rewrite unquote_quote.
  - by rewrite unquote_quote.
  - assert (H : ∀ fuel, (length (flat_map print l) + 1 < fuel)%nat → read_items fuel ((flat_map print l ++ "]") ++ t) = Some (l, t)).
    { clear Hf. induction IH as [|x l Hx Hl IHl]; intros [|f] Hf; try (cbn in *; lia); [done|].
      cbn [flat_map] in *. rewrite !length_app in Hf. rewrite <- !app_assoc. destruct (print_head x) as (c & s & E & Hc).
      assert (Hstep : ∀ s', read_items (S f) (print x ++ s') = ('(j, s) ← read f (print x ++ s'); prod_map (cons j) id <$> read_items f s)).
      { intros s'. rewrite E. cbn. destruct c as [[] [] [] [] [] [] [] []]; done. }
      rewrite Hstep, Hx by (rewrite E in *; cbn in *; lia). unfold mbind, option_bind. specialize (IHl f). rewrite <- app_assoc in IHl.
      rewrite IHl; [done|]. rewrite E in Hf. cbn in Hf. lia. }
    rewrite H; [done|]. rewrite length_app in Hf. cbn in Hf. lia.
  - set (m := λ '(k, v), "," ++ quote k ++ print v) in *.
    assert (H : ∀ fuel, (length (flat_map m l) + 1 < fuel)%nat → read_members fuel ((flat_map m l ++ "}") ++ t) = Some (l, t)).
    { clear Hf. induction IH as [|[k v] l Hx Hl IHl]; intros [|f] Hf; try (cbn in *; lia); [done|].
      cbn [flat_map m] in *. rewrite !length_app in Hf. rewrite <- !app_assoc.
      assert (Hstep : ∀ s', read_members (S f) (str "," ++ s') =
        ('(k, s) ← unquote s'; '(v, s) ← read f s; prod_map (cons (k, v)) id <$> read_members f s)) by done.
      rewrite Hstep, unquote_quote. unfold mbind, option_bind.
      cbn in Hf, Hx. rewrite ?length_app in Hf. rewrite Hx by lia. specialize (IHl f). rewrite <- app_assoc in IHl. rewrite IHl; [done|lia]. }
    rewrite H; [done|]. rewrite length_app in Hf. cbn in Hf. apply PeanoNat.Nat.succ_lt_mono. exact Hf.
Qed.

(** What was printed is read back, whatever follows it. *)
Lemma parse_dump j text t : dump j = Ok text → parse (text ++ t) = Some j.
Proof.
  unfold dump. destruct (printable j); [|done]. intros [= <-]. unfold parse. rewrite read_print; [done|]. rewrite length_app. lia.
Qed.
End JsonSample.
