(* ===== verification/ConfigJson.v ===== *)
(** * The JSON form of the configuration (src/src/api/generated/api_types.hpp)

    The overloads of [from_json] and [to_json] of the configuration's structs
    and enumerations, as instances of [Codec]; the members are listed in the
    order in which [to_json] assigns them. *)

From S2P Require Import Prelude CppString Config Json.

Local Open Scope Z_scope.

Section config_json.
Context {NL : Nlohmann}.

(** ** Enumerations *)

Definition bad_enum {A} (name : cstring) : exc A :=
  Throw (runtime_error ("Cannot deserialize to enumeration " ++ [chr 34] ++ name ++ [chr 34])).
Definition is_text (j : json) (s : cstring) : bool := match j with JStr t => bool_decide (t = s) | _ => false end.

Definition backend_from_json (j : json) : exc DaemonConfigFirewallBackend.t :=
  if is_text j "auto" then Ok DaemonConfigFirewallBackend.AUTO
  else if is_text j "iptables" then Ok DaemonConfigFirewallBackend.IPTABLES
  else if is_text j "nftables" then Ok DaemonConfigFirewallBackend.NFTABLES
  else bad_enum "DaemonConfigFirewallBackend".
Definition backend_to_json (x : DaemonConfigFirewallBackend.t) : json :=
  JStr match x with
       | DaemonConfigFirewallBackend.AUTO => str "auto"
       | DaemonConfigFirewallBackend.IPTABLES => str "iptables"
       | DaemonConfigFirewallBackend.NFTABLES => str "nftables"
       end.
#[export] Instance backend_codec : Codec DaemonConfigFirewallBackend.t :=
  {| from_json := backend_from_json; to_json := backend_to_json |}.
#[export] Program Instance backend_law : CodecLaw DaemonConfigFirewallBackend.t := {| fits _ := True |}.
Next Obligation. done. Qed.
Next Obligation. by intros []. Qed.

Definition strict_action_from_json (j : json) : exc StrictEnforcementAction.t :=
  if is_text j "blackhole" then Ok StrictEnforcementAction.BLACKHOLE
  else if is_text j "unreachable" then Ok StrictEnforcementAction.UNREACHABLE
  else bad_enum "StrictEnforcementAction".
Definition strict_action_to_json (x : StrictEnforcementAction.t) : json :=
  JStr match x with
       | StrictEnforcementAction.BLACKHOLE => str "blackhole"
       | StrictEnforcementAction.UNREACHABLE => str "unreachable"
       end.
#[export] Instance strict_action_codec : Codec StrictEnforcementAction.t :=
  {| from_json := strict_action_from_json; to_json := strict_action_to_json |}.
#[export] Program Instance strict_action_law : CodecLaw StrictEnforcementAction.t := {| fits _ := True |}.
Next Obligation. done. Qed.
Next Obligation. by intros []. Qed.

Definition dns_server_type_from_json (j : json) : exc DnsServerType.t :=
  if is_text j "keenetic" then Ok DnsServerType.KEENETIC
  else if is_text j "static" then Ok DnsServerType.STATIC
  else bad_enum "DnsServerType".
Definition dns_server_type_to_json (x : DnsServerType.t) : json :=
  JStr match x with
       | DnsServerType.KEENETIC => str "keenetic"
       | DnsServerType.STATIC => str "static"
       end.
#[export] Instance dns_server_type_codec : Codec DnsServerType.t :=
  {| from_json := dns_server_type_from_json; to_json := dns_server_type_to_json |}.
#[export] Program Instance dns_server_type_law : CodecLaw DnsServerType.t := {| fits _ := True |}.
Next Obligation. done. Qed.
Next Obligation. by intros []. Qed.

Definition conntrack_from_json (j : json) : exc ConntrackOnSwitch.t :=
  if is_text j "delete" then Ok ConntrackOnSwitch.DELETE
  else if is_text j "preserve" then Ok ConntrackOnSwitch.PRESERVE
  else bad_enum "ConntrackOnSwitch".
Definition conntrack_to_json (x : ConntrackOnSwitch.t) : json :=
  JStr match x with
       | ConntrackOnSwitch.DELETE => str "delete"
       | ConntrackOnSwitch.PRESERVE => str "preserve"
       end.
#[export] Instance conntrack_codec : Codec ConntrackOnSwitch.t :=
  {| from_json := conntrack_from_json; to_json := conntrack_to_json |}.
#[export] Program Instance conntrack_law : CodecLaw ConntrackOnSwitch.t := {| fits _ := True |}.
Next Obligation. done. Qed.
Next Obligation. by intros []. Qed.

Definition outbound_type_from_json (j : json) : exc OutboundType.t :=
  if is_text j "blackhole" then Ok OutboundType.BLACKHOLE
  else if is_text j "ignore" then Ok OutboundType.IGNORE
  else if is_text j "interface" then Ok OutboundType.INTERFACE
  else if is_text j "table" then Ok OutboundType.TABLE
  else if is_text j "urltest" then Ok OutboundType.URLTEST
  else bad_enum "OutboundType".
Definition outbound_type_to_json (x : OutboundType.t) : json :=
  JStr match x with
       | OutboundType.BLACKHOLE => str "blackhole"
       | OutboundType.IGNORE => str "ignore"
       | OutboundType.INTERFACE => str "interface"
       | OutboundType.TABLE => str "table"
       | OutboundType.URLTEST => str "urltest"
       end.
#[export] Instance outbound_type_codec : Codec OutboundType.t :=
  {| from_json := outbound_type_from_json; to_json := outbound_type_to_json |}.
#[export] Program Instance outbound_type_law : CodecLaw OutboundType.t := {| fits _ := True |}.
Next Obligation. done. Qed.
Next Obligation. by intros []. Qed.

(** ** Structs *)

Definition api_config_from_json (j : json) : exc ApiConfig :=
  v0 ← get_stack_optional bool j "enabled";
  v1 ← get_stack_optional Z j "keep_alive_timeout_seconds";
  v2 ← get_stack_optional cstring j "listen";
  v3 ← get_stack_optional Z j "max_request_body_bytes";
  v4 ← get_stack_optional Z j "read_timeout_seconds";
  v5 ← get_stack_optional Z j "write_timeout_seconds";
  mret (Build_ApiConfig v0 v1 v2 v3 v4 v5).
Definition api_config_members (x : ApiConfig) : list (cstring * json) :=
  [(str "enabled", put_optional (api_enabled x));
   (str "keep_alive_timeout_seconds", put_optional (keep_alive_timeout_seconds x));
   (str "listen", put_optional (api_listen x));
   (str "max_request_body_bytes", put_optional (max_request_body_bytes x));
   (str "read_timeout_seconds", put_optional (read_timeout_seconds x));
   (str "write_timeout_seconds", put_optional (write_timeout_seconds x))].
Definition api_config_to_json (x : ApiConfig) : json := JObj (api_config_members x).
#[export] Instance api_config_codec : Codec ApiConfig :=
  {| from_json := api_config_from_json; to_json := api_config_to_json |}.
Definition api_config_fits (x : ApiConfig) : Prop :=
  fits_optional (api_enabled x) ∧
  fits_optional (keep_alive_timeout_seconds x) ∧
  fits_optional (api_listen x) ∧
  fits_optional (max_request_body_bytes x) ∧
  fits_optional (read_timeout_seconds x) ∧
  fits_optional (write_timeout_seconds x).
#[export] Program Instance api_config_law : CodecLaw ApiConfig := {| fits := api_config_fits |}.
Next Obligation. done. Qed.
Next Obligation.
  intros x Hx. unfold api_config_fits in Hx. cbn [from_json to_json api_config_codec].
  unfold api_config_from_json, api_config_to_json. read_back x Hx.
Qed.

Definition circuit_breaker_from_json (j : json) : exc CircuitBreakerConfig :=
  v0 ← get_stack_optional Z j "failure_threshold";
  v1 ← get_stack_optional Z j "half_open_max_requests";
  v2 ← get_stack_optional Z j "success_threshold";
  v3 ← get_stack_optional Z j "timeout_ms";
  mret (Build_CircuitBreakerConfig v0 v1 v2 v3).
Definition circuit_breaker_members (x : CircuitBreakerConfig) : list (cstring * json) :=
  [(str "failure_threshold", put_optional (failure_threshold x));
   (str "half_open_max_requests", put_optional (half_open_max_requests x));
   (str "success_threshold", put_optional (success_threshold x));
   (str "timeout_ms", put_optional (timeout_ms x))].
Definition circuit_breaker_to_json (x : CircuitBreakerConfig) : json := JObj (circuit_breaker_members x).
#[export] Instance circuit_breaker_codec : Codec CircuitBreakerConfig :=
  {| from_json := circuit_breaker_from_json; to_json := circuit_breaker_to_json |}.
Definition circuit_breaker_fits (x : CircuitBreakerConfig) : Prop :=
  fits_optional (failure_threshold x) ∧
  fits_optional (half_open_max_requests x) ∧
  fits_optional (success_threshold x) ∧
  fits_optional (timeout_ms x).
#[export] Program Instance circuit_breaker_law : CodecLaw CircuitBreakerConfig := {| fits := circuit_breaker_fits |}.
Next Obligation. done. Qed.
Next Obligation.
  intros x Hx. unfold circuit_breaker_fits in Hx. cbn [from_json to_json circuit_breaker_codec].
  unfold circuit_breaker_from_json, circuit_breaker_to_json. read_back x Hx.
Qed.

Definition daemon_config_from_json (j : json) : exc DaemonConfig :=
  v0 ← get_stack_optional cstring j "cache_dir";
  v1 ← get_stack_optional bool j "clear_dynamic_sets_on_apply";
  v2 ← get_stack_optional Z j "exec_kill_grace_seconds";
  v3 ← get_stack_optional Z j "exec_timeout_seconds";
  v4 ← get_stack_optional DaemonConfigFirewallBackend.t j "firewall_backend";
  v5 ← get_stack_optional Z j "firewall_verify_max_bytes";
  v6 ← get_stack_optional bool j "ipv6_enabled";
  v7 ← get_stack_optional Z j "max_file_size_bytes";
  v8 ← get_stack_optional cstring j "pid_file";
  v9 ← get_stack_optional Z j "resolver_ready_timeout_seconds";
  v10 ← get_stack_optional bool j "skip_marked_packets";
  v11 ← get_stack_optional bool j "strict_enforcement";
  v12 ← get_stack_optional StrictEnforcementAction.t j "strict_enforcement_action";
  mret (Build_DaemonConfig v0 v1 v2 v3 v4 v5 v6 v7 v8 v9 v10 v11 v12).
Definition daemon_config_members (x : DaemonConfig) : list (cstring * json) :=
  [(str "cache_dir", put_optional (cache_dir x));
   (str "clear_dynamic_sets_on_apply", put_optional (clear_dynamic_sets_on_apply x));
   (str "exec_kill_grace_seconds", put_optional (exec_kill_grace_seconds x));
   (str "exec_timeout_seconds", put_optional (exec_timeout_seconds x));
   (str "firewall_backend", put_optional (firewall_backend x));
   (str "firewall_verify_max_bytes", put_optional (firewall_verify_max_bytes x));
   (str "ipv6_enabled", put_optional (ipv6_enabled x));
   (str "max_file_size_bytes", put_optional (max_file_size_bytes_field x));
   (str "pid_file", put_optional (pid_file x));
   (str "resolver_ready_timeout_seconds", put_optional (resolver_ready_timeout_seconds x));
   (str "skip_marked_packets", put_optional (skip_marked_packets x));
   (str "strict_enforcement", put_optional (daemon_strict_enforcement x));
   (str "strict_enforcement_action", put_optional (daemon_strict_enforcement_action x))].
Definition daemon_config_to_json (x : DaemonConfig) : json := JObj (daemon_config_members x).
#[export] Instance daemon_config_codec : Codec DaemonConfig :=
  {| from_json := daemon_config_from_json; to_json := daemon_config_to_json |}.
Definition daemon_config_fits (x : DaemonConfig) : Prop :=
  fits_optional (cache_dir x) ∧
  fits_optional (clear_dynamic_sets_on_apply x) ∧
  fits_optional (exec_kill_grace_seconds x) ∧
  fits_optional (exec_timeout_seconds x) ∧
  fits_optional (firewall_backend x) ∧
  fits_optional (firewall_verify_max_bytes x) ∧
  fits_optional (ipv6_enabled x) ∧
  fits_optional (max_file_size_bytes_field x) ∧
  fits_optional (pid_file x) ∧
  fits_optional (resolver_ready_timeout_seconds x) ∧
  fits_optional (skip_marked_packets x) ∧
  fits_optional (daemon_strict_enforcement x) ∧
  fits_optional (daemon_strict_enforcement_action x).
#[export] Program Instance daemon_config_law : CodecLaw DaemonConfig := {| fits := daemon_config_fits |}.
Next Obligation. done. Qed.
Next Obligation.
  intros x Hx. unfold daemon_config_fits in Hx. cbn [from_json to_json daemon_config_codec].
  unfold daemon_config_from_json, daemon_config_to_json. read_back x Hx.
Qed.

Definition dns_test_server_from_json (j : json) : exc DnsTestServer :=
  v0 ← get_stack_optional cstring j "answer_ipv4";
  v1 ← at_get cstring j "listen";
  mret (Build_DnsTestServer v0 v1).
Definition dns_test_server_members (x : DnsTestServer) : list (cstring * json) :=
  [(str "answer_ipv4", put_optional (answer_ipv4 x));
   (str "listen", to_json (test_listen x))].
Definition dns_test_server_to_json (x : DnsTestServer) : json := JObj (dns_test_server_members x).
#[export] Instance dns_test_server_codec : Codec DnsTestServer :=
  {| from_json := dns_test_server_from_json; to_json := dns_test_server_to_json |}.
Definition dns_test_server_fits (x : DnsTestServer) : Prop :=
  fits_optional (answer_ipv4 x) ∧
  fits (test_listen x).
#[export] Program Instance dns_test_server_law : CodecLaw DnsTestServer := {| fits := dns_test_server_fits |}.
Next Obligation. done. Qed.
Next Obligation.
  intros x Hx. unfold dns_test_server_fits in Hx. cbn [from_json to_json dns_test_server_codec].
  unfold dns_test_server_from_json, dns_test_server_to_json. read_back x Hx.
Qed.

Definition dns_rule_from_json (j : json) : exc DnsRule :=
  v0 ← get_stack_optional bool j "allow_domain_rebinding";
  v1 ← get_stack_optional bool j "enabled";
  v2 ← at_get (list cstring) j "list";
  v3 ← at_get cstring j "server";
  mret (Build_DnsRule v0 v1 v2 v3).
Definition dns_rule_members (x : DnsRule) : list (cstring * json) :=
  [(str "allow_domain_rebinding", put_optional (allow_domain_rebinding x));
   (str "enabled", put_optional (dns_rule_enabled_field x));
   (str "list", to_json (dns_rule_list x));
   (str "server", to_json (dns_rule_server x))].
Definition dns_rule_to_json (x : DnsRule) : json := JObj (dns_rule_members x).
#[export] Instance dns_rule_codec : Codec DnsRule :=
  {| from_json := dns_rule_from_json; to_json := dns_rule_to_json |}.
Definition dns_rule_fits (x : DnsRule) : Prop :=
  fits_optional (allow_domain_rebinding x) ∧
  fits_optional (dns_rule_enabled_field x) ∧
  fits (dns_rule_list x) ∧
  fits (dns_rule_server x).
#[export] Program Instance dns_rule_law : CodecLaw DnsRule := {| fits := dns_rule_fits |}.
Next Obligation. done. Qed.
Next Obligation.
  intros x Hx. unfold dns_rule_fits in Hx. cbn [from_json to_json dns_rule_codec].
  unfold dns_rule_from_json, dns_rule_to_json. read_back x Hx.
Qed.

Definition dns_server_from_json (j : json) : exc DnsServer :=
  v0 ← get_stack_optional cstring j "address";
  v1 ← get_stack_optional cstring j "detour";
  v2 ← at_get cstring j "tag";
  v3 ← get_stack_optional DnsServerType.t j "type";
  mret (Build_DnsServer v0 v1 v2 v3).
Definition dns_server_members (x : DnsServer) : list (cstring * json) :=
  [(str "address", put_optional (dns_address x));
   (str "detour", put_optional (dns_detour x));
   (str "tag", to_json (dns_tag x));
   (str "type", put_optional (dns_type x))].
Definition dns_server_to_json (x : DnsServer) : json := JObj (dns_server_members x).
#[export] Instance dns_server_codec : Codec DnsServer :=
  {| from_json := dns_server_from_json; to_json := dns_server_to_json |}.
Definition dns_server_fits (x : DnsServer) : Prop :=
  fits_optional (dns_address x) ∧
  fits_optional (dns_detour x) ∧
  fits (dns_tag x) ∧
  fits_optional (dns_type x).
#[export] Program Instance dns_server_law : CodecLaw DnsServer := {| fits := dns_server_fits |}.
Next Obligation. done. Qed.
Next Obligation.
  intros x Hx. unfold dns_server_fits in Hx. cbn [from_json to_json dns_server_codec].
  unfold dns_server_from_json, dns_server_to_json. read_back x Hx.
Qed.

Definition system_resolver_from_json (j : json) : exc SystemResolver :=
  v0 ← at_get cstring j "address";
  mret (Build_SystemResolver v0).
Definition system_resolver_members (x : SystemResolver) : list (cstring * json) :=
  [(str "address", to_json (resolver_address x))].
Definition system_resolver_to_json (x : SystemResolver) : json := JObj (system_resolver_members x).
#[export] Instance system_resolver_codec : Codec SystemResolver :=
  {| from_json := system_resolver_from_json; to_json := system_resolver_to_json |}.
Definition system_resolver_fits (x : SystemResolver) : Prop :=
  fits (resolver_address x).
#[export] Program Instance system_resolver_law : CodecLaw SystemResolver := {| fits := system_resolver_fits |}.
Next Obligation. done. Qed.
Next Obligation.
  intros x Hx. unfold system_resolver_fits in Hx. cbn [from_json to_json system_resolver_codec].
  unfold system_resolver_from_json, system_resolver_to_json. read_back x Hx.
Qed.

Definition dns_config_from_json (j : json) : exc DnsConfig :=
  v0 ← get_stack_optional DnsTestServer j "dns_test_server";
  v1 ← get_stack_optional (list cstring) j "fallback";
  v2 ← get_stack_optional (list DnsRule) j "rules";
  v3 ← get_stack_optional (list DnsServer) j "servers";
  v4 ← get_stack_optional SystemResolver j "system_resolver";
  mret (Build_DnsConfig v0 v1 v2 v3 v4).
Definition dns_config_members (x : DnsConfig) : list (cstring * json) :=
  [(str "dns_test_server", put_optional (dns_test_server x));
   (str "fallback", put_optional (fallback x));
   (str "rules", put_optional (dns_rules x));
   (str "servers", put_optional (servers x));
   (str "system_resolver", put_optional (system_resolver x))].
Definition dns_config_to_json (x : DnsConfig) : json := JObj (dns_config_members x).
#[export] Instance dns_config_codec : Codec DnsConfig :=
  {| from_json := dns_config_from_json; to_json := dns_config_to_json |}.
Definition dns_config_fits (x : DnsConfig) : Prop :=
  fits_optional (dns_test_server x) ∧
  fits_optional (fallback x) ∧
  fits_optional (dns_rules x) ∧
  fits_optional (servers x) ∧
  fits_optional (system_resolver x).
#[export] Program Instance dns_config_law : CodecLaw DnsConfig := {| fits := dns_config_fits |}.
Next Obligation. done. Qed.
Next Obligation.
  intros x Hx. unfold dns_config_fits in Hx. cbn [from_json to_json dns_config_codec].
  unfold dns_config_from_json, dns_config_to_json. read_back x Hx.
Qed.

Definition fwmark_from_json (j : json) : exc FwmarkConfig :=
  v0 ← get_stack_optional cstring j "mask";
  v1 ← get_stack_optional cstring j "start";
  mret (Build_FwmarkConfig v0 v1).
Definition fwmark_members (x : FwmarkConfig) : list (cstring * json) :=
  [(str "mask", put_optional (fwmark_mask x));
   (str "start", put_optional (fwmark_start x))].
Definition fwmark_to_json (x : FwmarkConfig) : json := JObj (fwmark_members x).
#[export] Instance fwmark_codec : Codec FwmarkConfig :=
  {| from_json := fwmark_from_json; to_json := fwmark_to_json |}.
Definition fwmark_fits (x : FwmarkConfig) : Prop :=
  fits_optional (fwmark_mask x) ∧
  fits_optional (fwmark_start x).
#[export] Program Instance fwmark_law : CodecLaw FwmarkConfig := {| fits := fwmark_fits |}.
Next Obligation. done. Qed.
Next Obligation.
  intros x Hx. unfold fwmark_fits in Hx. cbn [from_json to_json fwmark_codec].
  unfold fwmark_from_json, fwmark_to_json. read_back x Hx.
Qed.

Definition iproute_from_json (j : json) : exc IprouteConfig :=
  v0 ← get_stack_optional Z j "rule_priority_start";
  v1 ← get_stack_optional Z j "table_start";
  mret (Build_IprouteConfig v0 v1).
Definition iproute_members (x : IprouteConfig) : list (cstring * json) :=
  [(str "rule_priority_start", put_optional (rule_priority_start x));
   (str "table_start", put_optional (table_start x))].
Definition iproute_to_json (x : IprouteConfig) : json := JObj (iproute_members x).
#[export] Instance iproute_codec : Codec IprouteConfig :=
  {| from_json := iproute_from_json; to_json := iproute_to_json |}.
Definition iproute_fits (x : IprouteConfig) : Prop :=
  fits_optional (rule_priority_start x) ∧
  fits_optional (table_start x).
#[export] Program Instance iproute_law : CodecLaw IprouteConfig := {| fits := iproute_fits |}.
Next Obligation. done. Qed.
Next Obligation.
  intros x Hx. unfold iproute_fits in Hx. cbn [from_json to_json iproute_codec].
  unfold iproute_from_json, iproute_to_json. read_back x Hx.
Qed.

Definition list_config_from_json (j : json) : exc ListConfig :=
  v0 ← get_stack_optional cstring j "detour";
  v1 ← get_stack_optional (list cstring) j "domains";
  v2 ← get_stack_optional cstring j "file";
  v3 ← get_stack_optional (list cstring) j "ip_cidrs";
  v4 ← get_stack_optional Z j "ttl_ms";
  v5 ← get_stack_optional cstring j "url";
  mret (Build_ListConfig v0 v1 v2 v3 v4 v5).
Definition list_config_members (x : ListConfig) : list (cstring * json) :=
  [(str "detour", put_optional (list_detour x));
   (str "domains", put_optional (domains x));
   (str "file", put_optional (list_file x));
   (str "ip_cidrs", put_optional (ip_cidrs x));
   (str "ttl_ms", put_optional (ttl_ms x));
   (str "url", put_optional (list_url x))].
Definition list_config_to_json (x : ListConfig) : json := JObj (list_config_members x).
#[export] Instance list_config_codec : Codec ListConfig :=
  {| from_json := list_config_from_json; to_json := list_config_to_json |}.
Definition list_config_fits (x : ListConfig) : Prop :=
  fits_optional (list_detour x) ∧
  fits_optional (domains x) ∧
  fits_optional (list_file x) ∧
  fits_optional (ip_cidrs x) ∧
  fits_optional (ttl_ms x) ∧
  fits_optional (list_url x).
#[export] Program Instance list_config_law : CodecLaw ListConfig := {| fits := list_config_fits |}.
Next Obligation. done. Qed.
Next Obligation.
  intros x Hx. unfold list_config_fits in Hx. cbn [from_json to_json list_config_codec].
  unfold list_config_from_json, list_config_to_json. read_back x Hx.
Qed.

Definition lists_autoupdate_from_json (j : json) : exc ListsAutoupdateConfig :=
  v0 ← get_stack_optional cstring j "cron";
  v1 ← get_stack_optional bool j "enabled";
  mret (Build_ListsAutoupdateConfig v0 v1).
Definition lists_autoupdate_members (x : ListsAutoupdateConfig) : list (cstring * json) :=
  [(str "cron", put_optional (cron x));
   (str "enabled", put_optional (autoupdate_enabled x))].
Definition lists_autoupdate_to_json (x : ListsAutoupdateConfig) : json := JObj (lists_autoupdate_members x).
#[export] Instance lists_autoupdate_codec : Codec ListsAutoupdateConfig :=
  {| from_json := lists_autoupdate_from_json; to_json := lists_autoupdate_to_json |}.
Definition lists_autoupdate_fits (x : ListsAutoupdateConfig) : Prop :=
  fits_optional (cron x) ∧
  fits_optional (autoupdate_enabled x).
#[export] Program Instance lists_autoupdate_law : CodecLaw ListsAutoupdateConfig := {| fits := lists_autoupdate_fits |}.
Next Obligation. done. Qed.
Next Obligation.
  intros x Hx. unfold lists_autoupdate_fits in Hx. cbn [from_json to_json lists_autoupdate_codec].
  unfold lists_autoupdate_from_json, lists_autoupdate_to_json. read_back x Hx.
Qed.

Definition outbound_group_from_json (j : json) : exc OutboundGroup :=
  v0 ← at_get (list cstring) j "outbounds";
  v1 ← get_stack_optional Z j "weight";
  mret (Build_OutboundGroup v0 v1).
Definition outbound_group_members (x : OutboundGroup) : list (cstring * json) :=
  [(str "outbounds", to_json (group_outbounds x));
   (str "weight", put_optional (weight x))].
Definition outbound_group_to_json (x : OutboundGroup) : json := JObj (outbound_group_members x).
#[export] Instance outbound_group_codec : Codec OutboundGroup :=
  {| from_json := outbound_group_from_json; to_json := outbound_group_to_json |}.
Definition outbound_group_fits (x : OutboundGroup) : Prop :=
  fits (group_outbounds x) ∧
  fits_optional (weight x).
#[export] Program Instance outbound_group_law : CodecLaw OutboundGroup := {| fits := outbound_group_fits |}.
Next Obligation. done. Qed.
Next Obligation.
  intros x Hx. unfold outbound_group_fits in Hx. cbn [from_json to_json outbound_group_codec].
  unfold outbound_group_from_json, outbound_group_to_json. read_back x Hx.
Qed.

Definition retry_from_json (j : json) : exc RetryConfig :=
  v0 ← get_stack_optional Z j "attempts";
  v1 ← get_stack_optional Z j "interval_ms";
  mret (Build_RetryConfig v0 v1).
Definition retry_members (x : RetryConfig) : list (cstring * json) :=
  [(str "attempts", put_optional (attempts x));
   (str "interval_ms", put_optional (interval_ms_retry x))].
Definition retry_to_json (x : RetryConfig) : json := JObj (retry_members x).
#[export] Instance retry_codec : Codec RetryConfig :=
  {| from_json := retry_from_json; to_json := retry_to_json |}.
Definition retry_fits (x : RetryConfig) : Prop :=
  fits_optional (attempts x) ∧
  fits_optional (interval_ms_retry x).
#[export] Program Instance retry_law : CodecLaw RetryConfig := {| fits := retry_fits |}.
Next Obligation. done. Qed.
Next Obligation.
  intros x Hx. unfold retry_fits in Hx. cbn [from_json to_json retry_codec].
  unfold retry_from_json, retry_to_json. read_back x Hx.
Qed.

Definition outbound_from_json (j : json) : exc Outbound :=
  v0 ← get_stack_optional CircuitBreakerConfig j "circuit_breaker";
  v1 ← get_stack_optional ConntrackOnSwitch.t j "conntrack_on_switch";
  v2 ← get_stack_optional cstring j "gateway";
  v3 ← get_stack_optional cstring j "gateway6";
  v4 ← get_stack_optional cstring j "interface";
  v5 ← get_stack_optional Z j "interval_ms";
  v6 ← get_stack_optional (list OutboundGroup) j "outbound_groups";
  v7 ← get_stack_optional Z j "probe_timeout_ms";
  v8 ← get_stack_optional RetryConfig j "retry";
  v9 ← get_stack_optional bool j "strict_enforcement";
  v10 ← get_stack_optional StrictEnforcementAction.t j "strict_enforcement_action";
  v11 ← get_stack_optional Z j "table";
  v12 ← at_get cstring j "tag";
  v13 ← get_stack_optional Z j "tolerance_ms";
  v14 ← at_get OutboundType.t j "type";
  v15 ← get_stack_optional cstring j "url";
  mret (Build_Outbound v0 v1 v2 v3 v4 v5 v6 v7 v8 v9 v10 v11 v12 v13 v14 v15).
Definition outbound_members (x : Outbound) : list (cstring * json) :=
  [(str "circuit_breaker", put_optional (circuit_breaker x));
   (str "conntrack_on_switch", put_optional (conntrack_on_switch x));
   (str "gateway", put_optional (gateway x));
   (str "gateway6", put_optional (gateway6 x));
   (str "interface", put_optional (interface x));
   (str "interval_ms", put_optional (interval_ms x));
   (str "outbound_groups", put_optional (outbound_groups x));
   (str "probe_timeout_ms", put_optional (probe_timeout_ms x));
   (str "retry", put_optional (retry x));
   (str "strict_enforcement", put_optional (strict_enforcement x));
   (str "strict_enforcement_action", put_optional (strict_enforcement_action_field x));
   (str "table", put_optional (table x));
   (str "tag", to_json (tag x));
   (str "tolerance_ms", put_optional (tolerance_ms x));
   (str "type", to_json (type x));
   (str "url", put_optional (url x))].
Definition outbound_to_json (x : Outbound) : json := JObj (outbound_members x).
#[export] Instance outbound_codec : Codec Outbound :=
  {| from_json := outbound_from_json; to_json := outbound_to_json |}.
Definition outbound_fits (x : Outbound) : Prop :=
  fits_optional (circuit_breaker x) ∧
  fits_optional (conntrack_on_switch x) ∧
  fits_optional (gateway x) ∧
  fits_optional (gateway6 x) ∧
  fits_optional (interface x) ∧
  fits_optional (interval_ms x) ∧
  fits_optional (outbound_groups x) ∧
  fits_optional (probe_timeout_ms x) ∧
  fits_optional (retry x) ∧
  fits_optional (strict_enforcement x) ∧
  fits_optional (strict_enforcement_action_field x) ∧
  fits_optional (table x) ∧
  fits (tag x) ∧
  fits_optional (tolerance_ms x) ∧
  fits (type x) ∧
  fits_optional (url x).
#[export] Program Instance outbound_law : CodecLaw Outbound := {| fits := outbound_fits |}.
Next Obligation. done. Qed.
Next Obligation.
  intros x Hx. unfold outbound_fits in Hx. cbn [from_json to_json outbound_codec].
  unfold outbound_from_json, outbound_to_json. read_back x Hx.
Qed.

Definition route_rule_from_json (j : json) : exc RouteRule :=
  v0 ← get_stack_optional cstring j "dest_addr";
  v1 ← get_stack_optional cstring j "dest_port";
  v2 ← get_stack_optional Z j "dscp";
  v3 ← get_stack_optional bool j "enabled";
  v4 ← get_stack_optional (list cstring) j "list";
  v5 ← at_get cstring j "outbound";
  v6 ← get_stack_optional cstring j "proto";
  v7 ← get_stack_optional cstring j "src_addr";
  v8 ← get_stack_optional cstring j "src_port";
  mret (Build_RouteRule v0 v1 v2 v3 v4 v5 v6 v7 v8).
Definition route_rule_members (x : RouteRule) : list (cstring * json) :=
  [(str "dest_addr", put_optional (dest_addr x));
   (str "dest_port", put_optional (dest_port x));
   (str "dscp", put_optional (dscp x));
   (str "enabled", put_optional (rule_enabled_field x));
   (str "list", put_optional (rule_list x));
   (str "outbound", to_json (rule_outbound x));
   (str "proto", put_optional (proto x));
   (str "src_addr", put_optional (src_addr x));
   (str "src_port", put_optional (src_port x))].
Definition route_rule_to_json (x : RouteRule) : json := JObj (route_rule_members x).
#[export] Instance route_rule_codec : Codec RouteRule :=
  {| from_json := route_rule_from_json; to_json := route_rule_to_json |}.
Definition route_rule_fits (x : RouteRule) : Prop :=
  fits_optional (dest_addr x) ∧
  fits_optional (dest_port x) ∧
  fits_optional (dscp x) ∧
  fits_optional (rule_enabled_field x) ∧
  fits_optional (rule_list x) ∧
  fits (rule_outbound x) ∧
  fits_optional (proto x) ∧
  fits_optional (src_addr x) ∧
  fits_optional (src_port x).
#[export] Program Instance route_rule_law : CodecLaw RouteRule := {| fits := route_rule_fits |}.
Next Obligation. done. Qed.
Next Obligation.
  intros x Hx. unfold route_rule_fits in Hx. cbn [from_json to_json route_rule_codec].
  unfold route_rule_from_json, route_rule_to_json. read_back x Hx.
Qed.

Definition route_from_json (j : json) : exc RouteConfig :=
  v0 ← get_stack_optional (list cstring) j "inbound_interfaces";
  v1 ← get_stack_optional (list RouteRule) j "rules";
  mret (Build_RouteConfig v0 v1).
Definition route_members (x : RouteConfig) : list (cstring * json) :=
  [(str "inbound_interfaces", put_optional (inbound_interfaces x));
   (str "rules", put_optional (rules x))].
Definition route_to_json (x : RouteConfig) : json := JObj (route_members x).
#[export] Instance route_codec : Codec RouteConfig :=
  {| from_json := route_from_json; to_json := route_to_json |}.
Definition route_fits (x : RouteConfig) : Prop :=
  fits_optional (inbound_interfaces x) ∧
  fits_optional (rules x).
#[export] Program Instance route_law : CodecLaw RouteConfig := {| fits := route_fits |}.
Next Obligation. done. Qed.
Next Obligation.
  intros x Hx. unfold route_fits in Hx. cbn [from_json to_json route_codec].
  unfold route_from_json, route_to_json. read_back x Hx.
Qed.

Definition config_from_json (j : json) : exc Config :=
  v0 ← get_stack_optional ApiConfig j "api";
  v1 ← get_stack_optional DaemonConfig j "daemon";
  v2 ← get_stack_optional DnsConfig j "dns";
  v3 ← get_stack_optional FwmarkConfig j "fwmark";
  v4 ← get_stack_optional IprouteConfig j "iproute";
  v5 ← get_stack_optional (gmap cstring ListConfig) j "lists";
  v6 ← get_stack_optional ListsAutoupdateConfig j "lists_autoupdate";
  v7 ← get_stack_optional (list Outbound) j "outbounds";
  v8 ← get_stack_optional RouteConfig j "route";
  mret (Build_Config v0 v1 v2 v3 v4 v5 v6 v7 v8).
Definition config_members (x : Config) : list (cstring * json) :=
  [(str "api", put_optional (api x));
   (str "daemon", put_optional (daemon x));
   (str "dns", put_optional (dns x));
   (str "fwmark", put_optional (fwmark x));
   (str "iproute", put_optional (iproute x));
   (str "lists", put_optional (lists x));
   (str "lists_autoupdate", put_optional (lists_autoupdate x));
   (str "outbounds", put_optional (outbounds x));
   (str "route", put_optional (route x))].
Definition config_to_json (x : Config) : json := JObj (config_members x).
#[export] Instance config_codec : Codec Config :=
  {| from_json := config_from_json; to_json := config_to_json |}.
Definition config_fits (x : Config) : Prop :=
  fits_optional (api x) ∧
  fits_optional (daemon x) ∧
  fits_optional (dns x) ∧
  fits_optional (fwmark x) ∧
  fits_optional (iproute x) ∧
  fits_optional (lists x) ∧
  fits_optional (lists_autoupdate x) ∧
  fits_optional (outbounds x) ∧
  fits_optional (route x).
#[export] Program Instance config_law : CodecLaw Config := {| fits := config_fits |}.
Next Obligation. done. Qed.
Next Obligation.
  intros x Hx. unfold config_fits in Hx. cbn [from_json to_json config_codec].
  unfold config_from_json, config_to_json. read_back x Hx.
Qed.

(** ** Properties *)

(** A configuration written as JSON is read back as itself: no member is
    lost, renamed or confused with another, for every configuration whose
    integers are 64 bits wide. *)
Theorem config_json_roundtrip cfg : config_fits cfg → config_from_json (config_to_json cfg) = Ok cfg.
Proof. exact (from_to_json (CodecLaw:=config_law) cfg). Qed.

(** A section that is not an object counts as an empty one: [find] finds
    nothing in it. *)
Theorem non_object_section_is_empty j : (∀ l, j ≠ JObj l) →
  daemon_config_from_json j = Ok default_DaemonConfig ∧ config_from_json j = Ok default_Config.
Proof. by destruct j as [| | | | | |l]; [..|intros []%(λ H, H l)]. Qed.
End config_json.

(** *** Witnesses *)

Definition w_nlohmann : Nlohmann := {|
  type_error expected _ := "type must be " ++ expected; key_not_found k := "key not found: " ++ k; float_to_int64 _ := 0;
|}.

Definition w_json_config : Config := {|
  api := None; daemon := None; fwmark := None; iproute := Some (Build_IprouteConfig None (Some 150));
  dns := Some (Build_DnsConfig None (Some [str "a"]) None
           (Some [Build_DnsServer (Some (str "1.1.1.1")) None "a" (Some DnsServerType.STATIC)])
           (Some (Build_SystemResolver "127.0.0.1")));
  lists := Some {[ str "x" := Build_ListConfig None (Some [str "example.org"]) None None None None ]};
  lists_autoupdate := None; outbounds := None; route := None;
|}.

Lemma config_json_roundtrip_witness :
  config_from_json (NL:=w_nlohmann) (config_to_json (NL:=w_nlohmann) w_json_config) = Ok w_json_config.
Proof.
  apply (config_json_roundtrip (NL:=w_nlohmann)). split_and!; try exact I.
  - split_and!; try exact I; repeat constructor.
  - split_and!; [exact I|]. cbn. lia.
  - apply (proj2 (map_Forall_singleton (λ _, list_config_fits (NL:=w_nlohmann)) _ _)). split_and!; try exact I; repeat constructor.
Defined.
