(* ===== verification/ApiJson.v ===== *)
(** * The JSON form of the API's messages (src/src/api/generated/api_types.hpp)

    The structs and enumerations of requests, responses and status events, one
    module each, with their [from_json] ([of_json] here) and [to_json]
    ([as_json], over the list of [members]) as instances of [Codec].  The
    configuration's own types are in [Config] and [ConfigJson]. *)

From S2P Require Import Prelude CppString Config Json ConfigJson.

Local Open Scope Z_scope.

Module CacheMetadata.
Record t := make {
  cidrs : option Z;
  domains : option Z;
  download_time : option cstring;
  etag : option cstring;
  ips : option Z;
  last_modified : option cstring;
  url : option cstring;
}.
Section codec.
Context {NL : Nlohmann}.
Definition of_json (j : json) : exc t :=
  v0 ← get_stack_optional Z j "cidrs";
  v1 ← get_stack_optional Z j "domains";
  v2 ← get_stack_optional cstring j "download_time";
  v3 ← get_stack_optional cstring j "etag";
  v4 ← get_stack_optional Z j "ips";
  v5 ← get_stack_optional cstring j "last_modified";
  v6 ← get_stack_optional cstring j "url";
  mret (make v0 v1 v2 v3 v4 v5 v6).
Definition members (x : t) : list (cstring * json) :=
  [(str "cidrs", put_optional (cidrs x));
   (str "domains", put_optional (domains x));
   (str "download_time", put_optional (download_time x));
   (str "etag", put_optional (etag x));
   (str "ips", put_optional (ips x));
   (str "last_modified", put_optional (last_modified x));
   (str "url", put_optional (url x))].
Definition as_json (x : t) : json := JObj (members x).
#[export] Instance codec : Codec t := {| from_json := of_json; to_json := as_json |}.
Definition fitting (x : t) : Prop :=
  fits_optional (cidrs x) ∧
  fits_optional (domains x) ∧
  fits_optional (download_time x) ∧
  fits_optional (etag x) ∧
  fits_optional (ips x) ∧
  fits_optional (last_modified x) ∧
  fits_optional (url x).
#[export] Program Instance law : CodecLaw t := {| fits := fitting |}.
Next Obligation. done. Qed.
Next Obligation.
  intros x Hx. unfold fitting in Hx. cbn [from_json to_json codec]. unfold of_json, as_json. read_back x Hx.
Qed.
End codec.
End CacheMetadata.
Export (hints) CacheMetadata.

Module CheckStatus.
Inductive t := MISMATCH | MISSING | OK.
Definition of_json (j : json) : exc t :=
  if is_text j "mismatch" then Ok MISMATCH
  else if is_text j "missing" then Ok MISSING
  else if is_text j "ok" then Ok OK
  else bad_enum "CheckStatus".
Definition as_json (x : t) : json :=
  JStr match x with
       | MISMATCH => str "mismatch"
       | MISSING => str "missing"
       | OK => str "ok"
       end.
#[export] Instance codec : Codec t := {| from_json := of_json; to_json := as_json |}.
#[export] Program Instance law : CodecLaw t := {| fits _ := True |}.
Next Obligation. done. Qed.
Next Obligation. by intros []. Qed.
End CheckStatus.
Export (hints) CheckStatus.

Module ListRefreshStateValue.
Record t := make {
  last_updated : option cstring;
}.
Section codec.
Context {NL : Nlohmann}.
Definition of_json (j : json) : exc t :=
  v0 ← get_stack_optional cstring j "last_updated";
  mret (make v0).
Definition members (x : t) : list (cstring * json) :=
  [(str "last_updated", put_optional (last_updated x))].
Definition as_json (x : t) : json := JObj (members x).
#[export] Instance codec : Codec t := {| from_json := of_json; to_json := as_json |}.
Definition fitting (x : t) : Prop :=
  fits_optional (last_updated x).
#[export] Program Instance law : CodecLaw t := {| fits := fitting |}.
Next Obligation. done. Qed.
Next Obligation.
  intros x Hx. unfold fitting in Hx. cbn [from_json to_json codec]. unfold of_json, as_json. read_back x Hx.
Qed.
End codec.
End ListRefreshStateValue.
Export (hints) ListRefreshStateValue.

Module ConfigStateResponse.
Record t := make {
  config : Config;
  is_draft : bool;
  list_refresh_state : option (gmap cstring ListRefreshStateValue.t);
}.
Section codec.
Context {NL : Nlohmann}.
Definition of_json (j : json) : exc t :=
  v0 ← at_get Config j "config";
  v1 ← at_get bool j "is_draft";
  v2 ← get_stack_optional (gmap cstring ListRefreshStateValue.t) j "list_refresh_state";
  mret (make v0 v1 v2).
Definition members (x : t) : list (cstring * json) :=
  [(str "config", to_json (config x));
   (str "is_draft", to_json (is_draft x));
   (str "list_refresh_state", put_optional (list_refresh_state x))].
Definition as_json (x : t) : json := JObj (members x).
#[export] Instance codec : Codec t := {| from_json := of_json; to_json := as_json |}.
Definition fitting (x : t) : Prop :=
  fits (config x) ∧
  fits (is_draft x) ∧
  fits_optional (list_refresh_state x).
#[export] Program Instance law : CodecLaw t := {| fits := fitting |}.
Next Obligation. done. Qed.
Next Obligation.
  intros x Hx. unfold fitting in Hx. cbn [from_json to_json codec]. unfold of_json, as_json. read_back x Hx.
Qed.
End codec.
End ConfigStateResponse.
Export (hints) ConfigStateResponse.

Module ConfigUpdateResponseStatus.
Inductive t := OK.
Definition of_json (j : json) : exc t :=
  if is_text j "ok" then Ok OK
  else bad_enum "ConfigUpdateResponseStatus".
Definition as_json (x : t) : json :=
  JStr match x with
       | OK => str "ok"
       end.
#[export] Instance codec : Codec t := {| from_json := of_json; to_json := as_json |}.
#[export] Program Instance law : CodecLaw t := {| fits _ := True |}.
Next Obligation. done. Qed.
Next Obligation. by intros []. Qed.
End ConfigUpdateResponseStatus.
Export (hints) ConfigUpdateResponseStatus.

Module ConfigUpdateResponse.
Record t := make {
  apply_started_ts : option Z;
  message : cstring;
  status : ConfigUpdateResponseStatus.t;
}.
Section codec.
Context {NL : Nlohmann}.
Definition of_json (j : json) : exc t :=
  v0 ← get_stack_optional Z j "apply_started_ts";
  v1 ← at_get cstring j "message";
  v2 ← at_get ConfigUpdateResponseStatus.t j "status";
  mret (make v0 v1 v2).
Definition members (x : t) : list (cstring * json) :=
  [(str "apply_started_ts", put_optional (apply_started_ts x));
   (str "message", to_json (message x));
   (str "status", to_json (status x))].
Definition as_json (x : t) : json := JObj (members x).
#[export] Instance codec : Codec t := {| from_json := of_json; to_json := as_json |}.
Definition fitting (x : t) : Prop :=
  fits_optional (apply_started_ts x) ∧
  fits (message x) ∧
  fits (status x).
#[export] Program Instance law : CodecLaw t := {| fits := fitting |}.
Next Obligation. done. Qed.
Next Obligation.
  intros x Hx. unfold fitting in Hx. cbn [from_json to_json codec]. unfold of_json, as_json. read_back x Hx.
Qed.
End codec.
End ConfigUpdateResponse.
Export (hints) ConfigUpdateResponse.

Module ValidationErrorElement.
Record t := make {
  message : cstring;
  path : option cstring;
}.
Section codec.
Context {NL : Nlohmann}.
Definition of_json (j : json) : exc t :=
  v0 ← at_get cstring j "message";
  v1 ← get_stack_optional cstring j "path";
  mret (make v0 v1).
Definition members (x : t) : list (cstring * json) :=
  [(str "message", to_json (message x));
   (str "path", put_optional (path x))].
Definition as_json (x : t) : json := JObj (members x).
#[export] Instance codec : Codec t := {| from_json := of_json; to_json := as_json |}.
Definition fitting (x : t) : Prop :=
  fits (message x) ∧
  fits_optional (path x).
#[export] Program Instance law : CodecLaw t := {| fits := fitting |}.
Next Obligation. done. Qed.
Next Obligation.
  intros x Hx. unfold fitting in Hx. cbn [from_json to_json codec]. unfold of_json, as_json. read_back x Hx.
Qed.
End codec.
End ValidationErrorElement.
Export (hints) ValidationErrorElement.

Module ErrorResponse.
Record t := make {
  error : cstring;
  validation_errors : option (list ValidationErrorElement.t);
}.
Section codec.
Context {NL : Nlohmann}.
Definition of_json (j : json) : exc t :=
  v0 ← at_get cstring j "error";
  v1 ← get_stack_optional (list ValidationErrorElement.t) j "validation_errors";
  mret (make v0 v1).
Definition members (x : t) : list (cstring * json) :=
  [(str "error", to_json (error x));
   (str "validation_errors", put_optional (validation_errors x))].
Definition as_json (x : t) : json := JObj (members x).
#[export] Instance codec : Codec t := {| from_json := of_json; to_json := as_json |}.
Definition fitting (x : t) : Prop :=
  fits (error x) ∧
  fits_optional (validation_errors x).
#[export] Program Instance law : CodecLaw t := {| fits := fitting |}.
Next Obligation. done. Qed.
Next Obligation.
  intros x Hx. unfold fitting in Hx. cbn [from_json to_json codec]. unfold of_json, as_json. read_back x Hx.
Qed.
End codec.
End ErrorResponse.
Export (hints) ErrorResponse.

Module FirewallChain.
Record t := make {
  chain_present : bool;
  detail : option cstring;
  prerouting_hook_present : bool;
}.
Section codec.
Context {NL : Nlohmann}.
Definition of_json (j : json) : exc t :=
  v0 ← at_get bool j "chain_present";
  v1 ← get_stack_optional cstring j "detail";
  v2 ← at_get bool j "prerouting_hook_present";
  mret (make v0 v1 v2).
Definition members (x : t) : list (cstring * json) :=
  [(str "chain_present", to_json (chain_present x));
   (str "detail", put_optional (detail x));
   (str "prerouting_hook_present", to_json (prerouting_hook_present x))].
Definition as_json (x : t) : json := JObj (members x).
#[export] Instance codec : Codec t := {| from_json := of_json; to_json := as_json |}.
Definition fitting (x : t) : Prop :=
  fits (chain_present x) ∧
  fits_optional (detail x) ∧
  fits (prerouting_hook_present x).
#[export] Program Instance law : CodecLaw t := {| fits := fitting |}.
Next Obligation. done. Qed.
Next Obligation.
  intros x Hx. unfold fitting in Hx. cbn [from_json to_json codec]. unfold of_json, as_json. read_back x Hx.
Qed.
End codec.
End FirewallChain.
Export (hints) FirewallChain.

Module FirewallRuleCheck.
Record t := make {
  action : cstring;
  actual_fwmark : option cstring;
  detail : option cstring;
  expected_fwmark : option cstring;
  set_name : cstring;
  status : CheckStatus.t;
}.
Section codec.
Context {NL : Nlohmann}.
Definition of_json (j : json) : exc t :=
  v0 ← at_get cstring j "action";
  v1 ← get_stack_optional cstring j "actual_fwmark";
  v2 ← get_stack_optional cstring j "detail";
  v3 ← get_stack_optional cstring j "expected_fwmark";
  v4 ← at_get cstring j "set_name";
  v5 ← at_get CheckStatus.t j "status";
  mret (make v0 v1 v2 v3 v4 v5).
Definition members (x : t) : list (cstring * json) :=
  [(str "action", to_json (action x));
   (str "actual_fwmark", put_optional (actual_fwmark x));
   (str "detail", put_optional (detail x));
   (str "expected_fwmark", put_optional (expected_fwmark x));
   (str "set_name", to_json (set_name x));
   (str "status", to_json (status x))].
Definition as_json (x : t) : json := JObj (members x).
#[export] Instance codec : Codec t := {| from_json := of_json; to_json := as_json |}.
Definition fitting (x : t) : Prop :=
  fits (action x) ∧
  fits_optional (actual_fwmark x) ∧
  fits_optional (detail x) ∧
  fits_optional (expected_fwmark x) ∧
  fits (set_name x) ∧
  fits (status x).
#[export] Program Instance law : CodecLaw t := {| fits := fitting |}.
Next Obligation. done. Qed.
Next Obligation.
  intros x Hx. unfold fitting in Hx. cbn [from_json to_json codec]. unfold of_json, as_json. read_back x Hx.
Qed.
End codec.
End FirewallRuleCheck.
Export (hints) FirewallRuleCheck.

Module LifecycleOperationStageStatus.
Inductive t := FAILED | PENDING | RUNNING | SKIPPED | SUCCEEDED.
Definition of_json (j : json) : exc t :=
  if is_text j "failed" then Ok FAILED
  else if is_text j "pending" then Ok PENDING
  else if is_text j "running" then Ok RUNNING
  else if is_text j "skipped" then Ok SKIPPED
  else if is_text j "succeeded" then Ok SUCCEEDED
  else bad_enum "LifecycleOperationStageStatus".
Definition as_json (x : t) : json :=
  JStr match x with
       | FAILED => str "failed"
       | PENDING => str "pending"
       | RUNNING => str "running"
       | SKIPPED => str "skipped"
       | SUCCEEDED => str "succeeded"
       end.
#[export] Instance codec : Codec t := {| from_json := of_json; to_json := as_json |}.
#[export] Program Instance law : CodecLaw t := {| fits _ := True |}.
Next Obligation. done. Qed.
Next Obligation. by intros []. Qed.
End LifecycleOperationStageStatus.
Export (hints) LifecycleOperationStageStatus.

Module LifecycleOperationStageElement.
Record t := make {
  detail : option cstring;
  id : cstring;
  status : LifecycleOperationStageStatus.t;
  title : cstring;
}.
Section codec.
Context {NL : Nlohmann}.
Definition of_json (j : json) : exc t :=
  v0 ← get_stack_optional cstring j "detail";
  v1 ← at_get cstring j "id";
  v2 ← at_get LifecycleOperationStageStatus.t j "status";
  v3 ← at_get cstring j "title";
  mret (make v0 v1 v2 v3).
Definition members (x : t) : list (cstring * json) :=
  [(str "detail", put_optional (detail x));
   (str "id", to_json (id x));
   (str "status", to_json (status x));
   (str "title", to_json (title x))].
Definition as_json (x : t) : json := JObj (members x).
#[export] Instance codec : Codec t := {| from_json := of_json; to_json := as_json |}.
Definition fitting (x : t) : Prop :=
  fits_optional (detail x) ∧
  fits (id x) ∧
  fits (status x) ∧
  fits (title x).
#[export] Program Instance law : CodecLaw t := {| fits := fitting |}.
Next Obligation. done. Qed.
Next Obligation.
  intros x Hx. unfold fitting in Hx. cbn [from_json to_json codec]. unfold of_json, as_json. read_back x Hx.
Qed.
End codec.
End LifecycleOperationStageElement.
Export (hints) LifecycleOperationStageElement.

Module LifecycleOperationStatus.
Inductive t := FAILED | RUNNING | SUCCEEDED.
Definition of_json (j : json) : exc t :=
  if is_text j "failed" then Ok FAILED
  else if is_text j "running" then Ok RUNNING
  else if is_text j "succeeded" then Ok SUCCEEDED
  else bad_enum "LifecycleOperationStatus".
Definition as_json (x : t) : json :=
  JStr match x with
       | FAILED => str "failed"
       | RUNNING => str "running"
       | SUCCEEDED => str "succeeded"
       end.
#[export] Instance codec : Codec t := {| from_json := of_json; to_json := as_json |}.
#[export] Program Instance law : CodecLaw t := {| fits _ := True |}.
Next Obligation. done. Qed.
Next Obligation. by intros []. Qed.
End LifecycleOperationStatus.
Export (hints) LifecycleOperationStatus.

Module LifecycleOperationType.
Inductive t := APPLY_CONFIG | RESTART | START | STOP.
Definition of_json (j : json) : exc t :=
  if is_text j "apply_config" then Ok APPLY_CONFIG
  else if is_text j "restart" then Ok RESTART
  else if is_text j "start" then Ok START
  else if is_text j "stop" then Ok STOP
  else bad_enum "LifecycleOperationType".
Definition as_json (x : t) : json :=
  JStr match x with
       | APPLY_CONFIG => str "apply_config"
       | RESTART => str "restart"
       | START => str "start"
       | STOP => str "stop"
       end.
#[export] Instance codec : Codec t := {| from_json := of_json; to_json := as_json |}.
#[export] Program Instance law : CodecLaw t := {| fits _ := True |}.
Next Obligation. done. Qed.
Next Obligation. by intros []. Qed.
End LifecycleOperationType.
Export (hints) LifecycleOperationType.

Module LifecycleOperation.
Record t := make {
  error : option cstring;
  finished_at : option Z;
  id : cstring;
  stages : (list LifecycleOperationStageElement.t);
  started_at : Z;
  status : LifecycleOperationStatus.t;
  type : LifecycleOperationType.t;
}.
Section codec.
Context {NL : Nlohmann}.
Definition of_json (j : json) : exc t :=
  v0 ← get_stack_optional cstring j "error";
  v1 ← get_stack_optional Z j "finished_at";
  v2 ← at_get cstring j "id";
  v3 ← at_get (list LifecycleOperationStageElement.t) j "stages";
  v4 ← at_get Z j "started_at";
  v5 ← at_get LifecycleOperationStatus.t j "status";
  v6 ← at_get LifecycleOperationType.t j "type";
  mret (make v0 v1 v2 v3 v4 v5 v6).
Definition members (x : t) : list (cstring * json) :=
  [(str "error", put_optional (error x));
   (str "finished_at", put_optional (finished_at x));
   (str "id", to_json (id x));
   (str "stages", to_json (stages x));
   (str "started_at", to_json (started_at x));
   (str "status", to_json (status x));
   (str "type", to_json (type x))].
Definition as_json (x : t) : json := JObj (members x).
#[export] Instance codec : Codec t := {| from_json := of_json; to_json := as_json |}.
Definition fitting (x : t) : Prop :=
  fits_optional (error x) ∧
  fits_optional (finished_at x) ∧
  fits (id x) ∧
  fits (stages x) ∧
  fits (started_at x) ∧
  fits (status x) ∧
  fits (type x).
#[export] Program Instance law : CodecLaw t := {| fits := fitting |}.
Next Obligation. done. Qed.
Next Obligation.
  intros x Hx. unfold fitting in Hx. cbn [from_json to_json codec]. unfold of_json, as_json. read_back x Hx.
Qed.
End codec.
End LifecycleOperation.
Export (hints) LifecycleOperation.

Module ResolverConfigProbeStatus.
Inductive t := INVALID_TXT | MISSING_TXT | NOT_CONFIGURED | QUERY_FAILED | SUCCESS | UNKNOWN.
Definition of_json (j : json) : exc t :=
  if is_text j "invalid_txt" then Ok INVALID_TXT
  else if is_text j "missing_txt" then Ok MISSING_TXT
  else if is_text j "not_configured" then Ok NOT_CONFIGURED
  else if is_text j "query_failed" then Ok QUERY_FAILED
  else if is_text j "success" then Ok SUCCESS
  else if is_text j "unknown" then Ok UNKNOWN
  else bad_enum "ResolverConfigProbeStatus".
Definition as_json (x : t) : json :=
  JStr match x with
       | INVALID_TXT => str "invalid_txt"
       | MISSING_TXT => str "missing_txt"
       | NOT_CONFIGURED => str "not_configured"
       | QUERY_FAILED => str "query_failed"
       | SUCCESS => str "success"
       | UNKNOWN => str "unknown"
       end.
#[export] Instance codec : Codec t := {| from_json := of_json; to_json := as_json |}.
#[export] Program Instance law : CodecLaw t := {| fits _ := True |}.
Next Obligation. done. Qed.
Next Obligation. by intros []. Qed.
End ResolverConfigProbeStatus.
Export (hints) ResolverConfigProbeStatus.

Module ResolverConfigSyncState.
Inductive t := CONVERGED | CONVERGING | STALE.
Definition of_json (j : json) : exc t :=
  if is_text j "converged" then Ok CONVERGED
  else if is_text j "converging" then Ok CONVERGING
  else if is_text j "stale" then Ok STALE
  else bad_enum "ResolverConfigSyncState".
Definition as_json (x : t) : json :=
  JStr match x with
       | CONVERGED => str "converged"
       | CONVERGING => str "converging"
       | STALE => str "stale"
       end.
#[export] Instance codec : Codec t := {| from_json := of_json; to_json := as_json |}.
#[export] Program Instance law : CodecLaw t := {| fits _ := True |}.
Next Obligation. done. Qed.
Next Obligation. by intros []. Qed.
End ResolverConfigSyncState.
Export (hints) ResolverConfigSyncState.

Module ResolverLiveStatus.
Inductive t := DEGRADED | HEALTHY | UNAVAILABLE | UNKNOWN.
Definition of_json (j : json) : exc t :=
  if is_text j "degraded" then Ok DEGRADED
  else if is_text j "healthy" then Ok HEALTHY
  else if is_text j "unavailable" then Ok UNAVAILABLE
  else if is_text j "unknown" then Ok UNKNOWN
  else bad_enum "ResolverLiveStatus".
Definition as_json (x : t) : json :=
  JStr match x with
       | DEGRADED => str "degraded"
       | HEALTHY => str "healthy"
       | UNAVAILABLE => str "unavailable"
       | UNKNOWN => str "unknown"
       end.
#[export] Instance codec : Codec t := {| from_json := of_json; to_json := as_json |}.
#[export] Program Instance law : CodecLaw t := {| fits _ := True |}.
Next Obligation. done. Qed.
Next Obligation. by intros []. Qed.
End ResolverLiveStatus.
Export (hints) ResolverLiveStatus.

Module RuntimeState.
Inductive t := APPLYING | BROKEN | RESTART_REQUIRED | RUNNING | SHUTTING_DOWN | STARTING | STOPPED.
Definition of_json (j : json) : exc t :=
  if is_text j "applying" then Ok APPLYING
  else if is_text j "broken" then Ok BROKEN
  else if is_text j "restart_required" then Ok RESTART_REQUIRED
  else if is_text j "running" then Ok RUNNING
  else if is_text j "shutting_down" then Ok SHUTTING_DOWN
  else if is_text j "starting" then Ok STARTING
  else if is_text j "stopped" then Ok STOPPED
  else bad_enum "RuntimeState".
Definition as_json (x : t) : json :=
  JStr match x with
       | APPLYING => str "applying"
       | BROKEN => str "broken"
       | RESTART_REQUIRED => str "restart_required"
       | RUNNING => str "running"
       | SHUTTING_DOWN => str "shutting_down"
       | STARTING => str "starting"
       | STOPPED => str "stopped"
       end.
#[export] Instance codec : Codec t := {| from_json := of_json; to_json := as_json |}.
#[export] Program Instance law : CodecLaw t := {| fits _ := True |}.
Next Obligation. done. Qed.
Next Obligation. by intros []. Qed.
End RuntimeState.
Export (hints) RuntimeState.

Module HealthResponseStatus.
Inductive t := RUNNING | STOPPED.
Definition of_json (j : json) : exc t :=
  if is_text j "running" then Ok RUNNING
  else if is_text j "stopped" then Ok STOPPED
  else bad_enum "HealthResponseStatus".
Definition as_json (x : t) : json :=
  JStr match x with
       | RUNNING => str "running"
       | STOPPED => str "stopped"
       end.
#[export] Instance codec : Codec t := {| from_json := of_json; to_json := as_json |}.
#[export] Program Instance law : CodecLaw t := {| fits _ := True |}.
Next Obligation. done. Qed.
Next Obligation. by intros []. Qed.
End HealthResponseStatus.
Export (hints) HealthResponseStatus.

Module HealthResponse.
Record t := make {
  apply_started_ts : option Z;
  build : cstring;
  build_variant : cstring;
  config_is_draft : bool;
  lifecycle_operation : option LifecycleOperation.t;
  os_type : cstring;
  os_version : cstring;
  resolver_config_hash : option cstring;
  resolver_config_hash_actual : option cstring;
  resolver_config_hash_actual_ts : option Z;
  resolver_config_probe_status : option ResolverConfigProbeStatus.t;
  resolver_config_sync_state : option ResolverConfigSyncState.t;
  resolver_last_probe_ts : option Z;
  resolver_live_status : ResolverLiveStatus.t;
  runtime_state : option RuntimeState.t;
  runtime_state_reason : option cstring;
  status : HealthResponseStatus.t;
  version : cstring;
}.
Section codec.
Context {NL : Nlohmann}.
Definition of_json (j : json) : exc t :=
  v0 ← get_stack_optional Z j "apply_started_ts";
  v1 ← at_get cstring j "build";
  v2 ← at_get cstring j "build_variant";
  v3 ← at_get bool j "config_is_draft";
  v4 ← get_stack_optional LifecycleOperation.t j "lifecycle_operation";
  v5 ← at_get cstring j "os_type";
  v6 ← at_get cstring j "os_version";
  v7 ← get_stack_optional cstring j "resolver_config_hash";
  v8 ← get_stack_optional cstring j "resolver_config_hash_actual";
  v9 ← get_stack_optional Z j "resolver_config_hash_actual_ts";
  v10 ← get_stack_optional ResolverConfigProbeStatus.t j "resolver_config_probe_status";
  v11 ← get_stack_optional ResolverConfigSyncState.t j "resolver_config_sync_state";
  v12 ← get_stack_optional Z j "resolver_last_probe_ts";
  v13 ← at_get ResolverLiveStatus.t j "resolver_live_status";
  v14 ← get_stack_optional RuntimeState.t j "runtime_state";
  v15 ← get_stack_optional cstring j "runtime_state_reason";
  v16 ← at_get HealthResponseStatus.t j "status";
  v17 ← at_get cstring j "version";
  mret (make v0 v1 v2 v3 v4 v5 v6 v7 v8 v9 v10 v11 v12 v13 v14 v15 v16 v17).
Definition members (x : t) : list (cstring * json) :=
  [(str "apply_started_ts", put_optional (apply_started_ts x));
   (str "build", to_json (build x));
   (str "build_variant", to_json (build_variant x));
   (str "config_is_draft", to_json (config_is_draft x));
   (str "lifecycle_operation", put_optional (lifecycle_operation x));
   (str "os_type", to_json (os_type x));
   (str "os_version", to_json (os_version x));
   (str "resolver_config_hash", put_optional (resolver_config_hash x));
   (str "resolver_config_hash_actual", put_optional (resolver_config_hash_actual x));
   (str "resolver_config_hash_actual_ts", put_optional (resolver_config_hash_actual_ts x));
   (str "resolver_config_probe_status", put_optional (resolver_config_probe_status x));
   (str "resolver_config_sync_state", put_optional (resolver_config_sync_state x));
   (str "resolver_last_probe_ts", put_optional (resolver_last_probe_ts x));
   (str "resolver_live_status", to_json (resolver_live_status x));
   (str "runtime_state", put_optional (runtime_state x));
   (str "runtime_state_reason", put_optional (runtime_state_reason x));
   (str "status", to_json (status x));
   (str "version", to_json (version x))].
Definition as_json (x : t) : json := JObj (members x).
#[export] Instance codec : Codec t := {| from_json := of_json; to_json := as_json |}.
Definition fitting (x : t) : Prop :=
  fits_optional (apply_started_ts x) ∧
  fits (build x) ∧
  fits (build_variant x) ∧
  fits (config_is_draft x) ∧
  fits_optional (lifecycle_operation x) ∧
  fits (os_type x) ∧
  fits (os_version x) ∧
  fits_optional (resolver_config_hash x) ∧
  fits_optional (resolver_config_hash_actual x) ∧
  fits_optional (resolver_config_hash_actual_ts x) ∧
  fits_optional (resolver_config_probe_status x) ∧
  fits_optional (resolver_config_sync_state x) ∧
  fits_optional (resolver_last_probe_ts x) ∧
  fits (resolver_live_status x) ∧
  fits_optional (runtime_state x) ∧
  fits_optional (runtime_state_reason x) ∧
  fits (status x) ∧
  fits (version x).
#[export] Program Instance law : CodecLaw t := {| fits := fitting |}.
Next Obligation. done. Qed.
Next Obligation.
  intros x Hx. unfold fitting in Hx. cbn [from_json to_json codec]. unfold of_json, as_json. read_back x Hx.
Qed.
End codec.
End HealthResponse.
Export (hints) HealthResponse.

Module LifecycleOperationAcceptedResponseStatus.
Inductive t := ACCEPTED.
Definition of_json (j : json) : exc t :=
  if is_text j "accepted" then Ok ACCEPTED
  else bad_enum "LifecycleOperationAcceptedResponseStatus".
Definition as_json (x : t) : json :=
  JStr match x with
       | ACCEPTED => str "accepted"
       end.
#[export] Instance codec : Codec t := {| from_json := of_json; to_json := as_json |}.
#[export] Program Instance law : CodecLaw t := {| fits _ := True |}.
Next Obligation. done. Qed.
Next Obligation. by intros []. Qed.
End LifecycleOperationAcceptedResponseStatus.
Export (hints) LifecycleOperationAcceptedResponseStatus.

Module LifecycleOperationAcceptedResponse.
Record t := make {
  operation_id : cstring;
  status : LifecycleOperationAcceptedResponseStatus.t;
}.
Section codec.
Context {NL : Nlohmann}.
Definition of_json (j : json) : exc t :=
  v0 ← at_get cstring j "operation_id";
  v1 ← at_get LifecycleOperationAcceptedResponseStatus.t j "status";
  mret (make v0 v1).
Definition members (x : t) : list (cstring * json) :=
  [(str "operation_id", to_json (operation_id x));
   (str "status", to_json (status x))].
Definition as_json (x : t) : json := JObj (members x).
#[export] Instance codec : Codec t := {| from_json := of_json; to_json := as_json |}.
Definition fitting (x : t) : Prop :=
  fits (operation_id x) ∧
  fits (status x).
#[export] Program Instance law : CodecLaw t := {| fits := fitting |}.
Next Obligation. done. Qed.
Next Obligation.
  intros x Hx. unfold fitting in Hx. cbn [from_json to_json codec]. unfold of_json, as_json. read_back x Hx.
Qed.
End codec.
End LifecycleOperationAcceptedResponse.
Export (hints) LifecycleOperationAcceptedResponse.

Module ListRefreshRequest.
Record t := make {
  name : option cstring;
}.
Section codec.
Context {NL : Nlohmann}.
Definition of_json (j : json) : exc t :=
  v0 ← get_stack_optional cstring j "name";
  mret (make v0).
Definition members (x : t) : list (cstring * json) :=
  [(str "name", put_optional (name x))].
Definition as_json (x : t) : json := JObj (members x).
#[export] Instance codec : Codec t := {| from_json := of_json; to_json := as_json |}.
Definition fitting (x : t) : Prop :=
  fits_optional (name x).
#[export] Program Instance law : CodecLaw t := {| fits := fitting |}.
Next Obligation. done. Qed.
Next Obligation.
  intros x Hx. unfold fitting in Hx. cbn [from_json to_json codec]. unfold of_json, as_json. read_back x Hx.
Qed.
End codec.
End ListRefreshRequest.
Export (hints) ListRefreshRequest.

Module ListRefreshResponse.
Record t := make {
  changed_lists : (list cstring);
  failed_lists : (list cstring);
  message : cstring;
  refreshed_lists : (list cstring);
  reloaded : bool;
  status : ConfigUpdateResponseStatus.t;
}.
Section codec.
Context {NL : Nlohmann}.
Definition of_json (j : json) : exc t :=
  v0 ← at_get (list cstring) j "changed_lists";
  v1 ← at_get (list cstring) j "failed_lists";
  v2 ← at_get cstring j "message";
  v3 ← at_get (list cstring) j "refreshed_lists";
  v4 ← at_get bool j "reloaded";
  v5 ← at_get ConfigUpdateResponseStatus.t j "status";
  mret (make v0 v1 v2 v3 v4 v5).
Definition members (x : t) : list (cstring * json) :=
  [(str "changed_lists", to_json (changed_lists x));
   (str "failed_lists", to_json (failed_lists x));
   (str "message", to_json (message x));
   (str "refreshed_lists", to_json (refreshed_lists x));
   (str "reloaded", to_json (reloaded x));
   (str "status", to_json (status x))].
Definition as_json (x : t) : json := JObj (members x).
#[export] Instance codec : Codec t := {| from_json := of_json; to_json := as_json |}.
Definition fitting (x : t) : Prop :=
  fits (changed_lists x) ∧
  fits (failed_lists x) ∧
  fits (message x) ∧
  fits (refreshed_lists x) ∧
  fits (reloaded x) ∧
  fits (status x).
#[export] Program Instance law : CodecLaw t := {| fits := fitting |}.
Next Obligation. done. Qed.
Next Obligation.
  intros x Hx. unfold fitting in Hx. cbn [from_json to_json codec]. unfold of_json, as_json. read_back x Hx.
Qed.
End codec.
End ListRefreshResponse.
Export (hints) ListRefreshResponse.

Module ExpectedAction.
Inductive t := BLACKHOLE | LOOKUP | UNREACHABLE.
Definition of_json (j : json) : exc t :=
  if is_text j "blackhole" then Ok BLACKHOLE
  else if is_text j "lookup" then Ok LOOKUP
  else if is_text j "unreachable" then Ok UNREACHABLE
  else bad_enum "ExpectedAction".
Definition as_json (x : t) : json :=
  JStr match x with
       | BLACKHOLE => str "blackhole"
       | LOOKUP => str "lookup"
       | UNREACHABLE => str "unreachable"
       end.
#[export] Instance codec : Codec t := {| from_json := of_json; to_json := as_json |}.
#[export] Program Instance law : CodecLaw t := {| fits _ := True |}.
Next Obligation. done. Qed.
Next Obligation. by intros []. Qed.
End ExpectedAction.
Export (hints) ExpectedAction.

Module PolicyRuleCheck.
Record t := make {
  detail : option cstring;
  expected_action : option ExpectedAction.t;
  expected_table : Z;
  fwmark : cstring;
  fwmask : cstring;
  priority : Z;
  rule_present_v4 : bool;
  rule_present_v6 : bool;
  status : CheckStatus.t;
}.
Section codec.
Context {NL : Nlohmann}.
Definition of_json (j : json) : exc t :=
  v0 ← get_stack_optional cstring j "detail";
  v1 ← get_stack_optional ExpectedAction.t j "expected_action";
  v2 ← at_get Z j "expected_table";
  v3 ← at_get cstring j "fwmark";
  v4 ← at_get cstring j "fwmask";
  v5 ← at_get Z j "priority";
  v6 ← at_get bool j "rule_present_v4";
  v7 ← at_get bool j "rule_present_v6";
  v8 ← at_get CheckStatus.t j "status";
  mret (make v0 v1 v2 v3 v4 v5 v6 v7 v8).
Definition members (x : t) : list (cstring * json) :=
  [(str "detail", put_optional (detail x));
   (str "expected_action", put_optional (expected_action x));
   (str "expected_table", to_json (expected_table x));
   (str "fwmark", to_json (fwmark x));
   (str "fwmask", to_json (fwmask x));
   (str "priority", to_json (priority x));
   (str "rule_present_v4", to_json (rule_present_v4 x));
   (str "rule_present_v6", to_json (rule_present_v6 x));
   (str "status", to_json (status x))].
Definition as_json (x : t) : json := JObj (members x).
#[export] Instance codec : Codec t := {| from_json := of_json; to_json := as_json |}.
Definition fitting (x : t) : Prop :=
  fits_optional (detail x) ∧
  fits_optional (expected_action x) ∧
  fits (expected_table x) ∧
  fits (fwmark x) ∧
  fits (fwmask x) ∧
  fits (priority x) ∧
  fits (rule_present_v4 x) ∧
  fits (rule_present_v6 x) ∧
  fits (status x).
#[export] Program Instance law : CodecLaw t := {| fits := fitting |}.
Next Obligation. done. Qed.
Next Obligation.
  intros x Hx. unfold fitting in Hx. cbn [from_json to_json codec]. unfold of_json, as_json. read_back x Hx.
Qed.
End codec.
End PolicyRuleCheck.
Export (hints) PolicyRuleCheck.

Module ReloadResponse.
Record t := make {
  message : cstring;
  status : ConfigUpdateResponseStatus.t;
}.
Section codec.
Context {NL : Nlohmann}.
Definition of_json (j : json) : exc t :=
  v0 ← at_get cstring j "message";
  v1 ← at_get ConfigUpdateResponseStatus.t j "status";
  mret (make v0 v1).
Definition members (x : t) : list (cstring * json) :=
  [(str "message", to_json (message x));
   (str "status", to_json (status x))].
Definition as_json (x : t) : json := JObj (members x).
#[export] Instance codec : Codec t := {| from_json := of_json; to_json := as_json |}.
Definition fitting (x : t) : Prop :=
  fits (message x) ∧
  fits (status x).
#[export] Program Instance law : CodecLaw t := {| fits := fitting |}.
Next Obligation. done. Qed.
Next Obligation.
  intros x Hx. unfold fitting in Hx. cbn [from_json to_json codec]. unfold of_json, as_json. read_back x Hx.
Qed.
End codec.
End ReloadResponse.
Export (hints) ReloadResponse.

Module RouteTableCheck.
Record t := make {
  default_route_present : bool;
  detail : option cstring;
  expected_destination : option cstring;
  expected_gateway : option cstring;
  expected_interface : option cstring;
  expected_metric : option Z;
  expected_route_type : option cstring;
  gateway_matches : bool;
  interface_matches : bool;
  outbound_tag : cstring;
  status : CheckStatus.t;
  table_exists : bool;
  table_id : Z;
}.
Section codec.
Context {NL : Nlohmann}.
Definition of_json (j : json) : exc t :=
  v0 ← at_get bool j "default_route_present";
  v1 ← get_stack_optional cstring j "detail";
  v2 ← get_stack_optional cstring j "expected_destination";
  v3 ← get_stack_optional cstring j "expected_gateway";
  v4 ← get_stack_optional cstring j "expected_interface";
  v5 ← get_stack_optional Z j "expected_metric";
  v6 ← get_stack_optional cstring j "expected_route_type";
  v7 ← at_get bool j "gateway_matches";
  v8 ← at_get bool j "interface_matches";
  v9 ← at_get cstring j "outbound_tag";
  v10 ← at_get CheckStatus.t j "status";
  v11 ← at_get bool j "table_exists";
  v12 ← at_get Z j "table_id";
  mret (make v0 v1 v2 v3 v4 v5 v6 v7 v8 v9 v10 v11 v12).
Definition members (x : t) : list (cstring * json) :=
  [(str "default_route_present", to_json (default_route_present x));
   (str "detail", put_optional (detail x));
   (str "expected_destination", put_optional (expected_destination x));
   (str "expected_gateway", put_optional (expected_gateway x));
   (str "expected_interface", put_optional (expected_interface x));
   (str "expected_metric", put_optional (expected_metric x));
   (str "expected_route_type", put_optional (expected_route_type x));
   (str "gateway_matches", to_json (gateway_matches x));
   (str "interface_matches", to_json (interface_matches x));
   (str "outbound_tag", to_json (outbound_tag x));
   (str "status", to_json (status x));
   (str "table_exists", to_json (table_exists x));
   (str "table_id", to_json (table_id x))].
Definition as_json (x : t) : json := JObj (members x).
#[export] Instance codec : Codec t := {| from_json := of_json; to_json := as_json |}.
Definition fitting (x : t) : Prop :=
  fits (default_route_present x) ∧
  fits_optional (detail x) ∧
  fits_optional (expected_destination x) ∧
  fits_optional (expected_gateway x) ∧
  fits_optional (expected_interface x) ∧
  fits_optional (expected_metric x) ∧
  fits_optional (expected_route_type x) ∧
  fits (gateway_matches x) ∧
  fits (interface_matches x) ∧
  fits (outbound_tag x) ∧
  fits (status x) ∧
  fits (table_exists x) ∧
  fits (table_id x).
#[export] Program Instance law : CodecLaw t := {| fits := fitting |}.
Next Obligation. done. Qed.
Next Obligation.
  intros x Hx. unfold fitting in Hx. cbn [from_json to_json codec]. unfold of_json, as_json. read_back x Hx.
Qed.
End codec.
End RouteTableCheck.
Export (hints) RouteTableCheck.

Module RoutingHealthErrorResponseOverall.
Inductive t := ERROR.
Definition of_json (j : json) : exc t :=
  if is_text j "error" then Ok ERROR
  else bad_enum "RoutingHealthErrorResponseOverall".
Definition as_json (x : t) : json :=
  JStr match x with
       | ERROR => str "error"
       end.
#[export] Instance codec : Codec t := {| from_json := of_json; to_json := as_json |}.
#[export] Program Instance law : CodecLaw t := {| fits _ := True |}.
Next Obligation. done. Qed.
Next Obligation. by intros []. Qed.
End RoutingHealthErrorResponseOverall.
Export (hints) RoutingHealthErrorResponseOverall.

Module RoutingHealthErrorResponse.
Record t := make {
  error : cstring;
  overall : RoutingHealthErrorResponseOverall.t;
}.
Section codec.
Context {NL : Nlohmann}.
Definition of_json (j : json) : exc t :=
  v0 ← at_get cstring j "error";
  v1 ← at_get RoutingHealthErrorResponseOverall.t j "overall";
  mret (make v0 v1).
Definition members (x : t) : list (cstring * json) :=
  [(str "error", to_json (error x));
   (str "overall", to_json (overall x))].
Definition as_json (x : t) : json := JObj (members x).
#[export] Instance codec : Codec t := {| from_json := of_json; to_json := as_json |}.
Definition fitting (x : t) : Prop :=
  fits (error x) ∧
  fits (overall x).
#[export] Program Instance law : CodecLaw t := {| fits := fitting |}.
Next Obligation. done. Qed.
Next Obligation.
  intros x Hx. unfold fitting in Hx. cbn [from_json to_json codec]. unfold of_json, as_json. read_back x Hx.
Qed.
End codec.
End RoutingHealthErrorResponse.
Export (hints) RoutingHealthErrorResponse.

Module RoutingHealthResponseFirewallBackend.
Inductive t := IPTABLES | NFTABLES.
Definition of_json (j : json) : exc t :=
  if is_text j "iptables" then Ok IPTABLES
  else if is_text j "nftables" then Ok NFTABLES
  else bad_enum "RoutingHealthResponseFirewallBackend".
Definition as_json (x : t) : json :=
  JStr match x with
       | IPTABLES => str "iptables"
       | NFTABLES => str "nftables"
       end.
#[export] Instance codec : Codec t := {| from_json := of_json; to_json := as_json |}.
#[export] Program Instance law : CodecLaw t := {| fits _ := True |}.
Next Obligation. done. Qed.
Next Obligation. by intros []. Qed.
End RoutingHealthResponseFirewallBackend.
Export (hints) RoutingHealthResponseFirewallBackend.

Module RoutingHealthResponseOverall.
Inductive t := DEGRADED | ERROR | OK.
Definition of_json (j : json) : exc t :=
  if is_text j "degraded" then Ok DEGRADED
  else if is_text j "error" then Ok ERROR
  else if is_text j "ok" then Ok OK
  else bad_enum "RoutingHealthResponseOverall".
Definition as_json (x : t) : json :=
  JStr match x with
       | DEGRADED => str "degraded"
       | ERROR => str "error"
       | OK => str "ok"
       end.
#[export] Instance codec : Codec t := {| from_json := of_json; to_json := as_json |}.
#[export] Program Instance law : CodecLaw t := {| fits _ := True |}.
Next Obligation. done. Qed.
Next Obligation. by intros []. Qed.
End RoutingHealthResponseOverall.
Export (hints) RoutingHealthResponseOverall.

Module RoutingHealthResponse.
Record t := make {
  firewall : FirewallChain.t;
  firewall_backend : RoutingHealthResponseFirewallBackend.t;
  firewall_rules : (list FirewallRuleCheck.t);
  overall : RoutingHealthResponseOverall.t;
  policy_rules : (list PolicyRuleCheck.t);
  route_tables : (list RouteTableCheck.t);
}.
Section codec.
Context {NL : Nlohmann}.
Definition of_json (j : json) : exc t :=
  v0 ← at_get FirewallChain.t j "firewall";
  v1 ← at_get RoutingHealthResponseFirewallBackend.t j "firewall_backend";
  v2 ← at_get (list FirewallRuleCheck.t) j "firewall_rules";
  v3 ← at_get RoutingHealthResponseOverall.t j "overall";
  v4 ← at_get (list PolicyRuleCheck.t) j "policy_rules";
  v5 ← at_get (list RouteTableCheck.t) j "route_tables";
  mret (make v0 v1 v2 v3 v4 v5).
Definition members (x : t) : list (cstring * json) :=
  [(str "firewall", to_json (firewall x));
   (str "firewall_backend", to_json (firewall_backend x));
   (str "firewall_rules", to_json (firewall_rules x));
   (str "overall", to_json (overall x));
   (str "policy_rules", to_json (policy_rules x));
   (str "route_tables", to_json (route_tables x))].
Definition as_json (x : t) : json := JObj (members x).
#[export] Instance codec : Codec t := {| from_json := of_json; to_json := as_json |}.
Definition fitting (x : t) : Prop :=
  fits (firewall x) ∧
  fits (firewall_backend x) ∧
  fits (firewall_rules x) ∧
  fits (overall x) ∧
  fits (policy_rules x) ∧
  fits (route_tables x).
#[export] Program Instance law : CodecLaw t := {| fits := fitting |}.
Next Obligation. done. Qed.
Next Obligation.
  intros x Hx. unfold fitting in Hx. cbn [from_json to_json codec]. unfold of_json, as_json. read_back x Hx.
Qed.
End codec.
End RoutingHealthResponse.
Export (hints) RoutingHealthResponse.

Module ListMatch.
Record t := make {
  list_ : cstring;
  via : cstring;
}.
Section codec.
Context {NL : Nlohmann}.
Definition of_json (j : json) : exc t :=
  v0 ← at_get cstring j "list";
  v1 ← at_get cstring j "via";
  mret (make v0 v1).
Definition members (x : t) : list (cstring * json) :=
  [(str "list", to_json (list_ x));
   (str "via", to_json (via x))].
Definition as_json (x : t) : json := JObj (members x).
#[export] Instance codec : Codec t := {| from_json := of_json; to_json := as_json |}.
Definition fitting (x : t) : Prop :=
  fits (list_ x) ∧
  fits (via x).
#[export] Program Instance law : CodecLaw t := {| fits := fitting |}.
Next Obligation. done. Qed.
Next Obligation.
  intros x Hx. unfold fitting in Hx. cbn [from_json to_json codec]. unfold of_json, as_json. read_back x Hx.
Qed.
End codec.
End ListMatch.
Export (hints) ListMatch.

Module RoutingTestEntry.
Record t := make {
  actual_outbound : cstring;
  expected_outbound : cstring;
  ip : cstring;
  list_match : option ListMatch.t;
  ok : bool;
}.
Section codec.
Context {NL : Nlohmann}.
Definition of_json (j : json) : exc t :=
  v0 ← at_get cstring j "actual_outbound";
  v1 ← at_get cstring j "expected_outbound";
  v2 ← at_get cstring j "ip";
  v3 ← get_stack_optional ListMatch.t j "list_match";
  v4 ← at_get bool j "ok";
  mret (make v0 v1 v2 v3 v4).
Definition members (x : t) : list (cstring * json) :=
  [(str "actual_outbound", to_json (actual_outbound x));
   (str "expected_outbound", to_json (expected_outbound x));
   (str "ip", to_json (ip x));
   (str "list_match", put_optional (list_match x));
   (str "ok", to_json (ok x))].
Definition as_json (x : t) : json := JObj (members x).
#[export] Instance codec : Codec t := {| from_json := of_json; to_json := as_json |}.
Definition fitting (x : t) : Prop :=
  fits (actual_outbound x) ∧
  fits (expected_outbound x) ∧
  fits (ip x) ∧
  fits_optional (list_match x) ∧
  fits (ok x).
#[export] Program Instance law : CodecLaw t := {| fits := fitting |}.
Next Obligation. done. Qed.
Next Obligation.
  intros x Hx. unfold fitting in Hx. cbn [from_json to_json codec]. unfold of_json, as_json. read_back x Hx.
Qed.
End codec.
End RoutingTestEntry.
Export (hints) RoutingTestEntry.

Module RoutingTestRequest.
Record t := make {
  target : cstring;
}.
Section codec.
Context {NL : Nlohmann}.
Definition of_json (j : json) : exc t :=
  v0 ← at_get cstring j "target";
  mret (make v0).
Definition members (x : t) : list (cstring * json) :=
  [(str "target", to_json (target x))].
Definition as_json (x : t) : json := JObj (members x).
#[export] Instance codec : Codec t := {| from_json := of_json; to_json := as_json |}.
Definition fitting (x : t) : Prop :=
  fits (target x).
#[export] Program Instance law : CodecLaw t := {| fits := fitting |}.
Next Obligation. done. Qed.
Next Obligation.
  intros x Hx. unfold fitting in Hx. cbn [from_json to_json codec]. unfold of_json, as_json. read_back x Hx.
Qed.
End codec.
End RoutingTestRequest.
Export (hints) RoutingTestRequest.

Module RoutingTestRuleIpDiagnosticElement.
Record t := make {
  in_ipset : option bool;
  ip : cstring;
}.
Section codec.
Context {NL : Nlohmann}.
Definition of_json (j : json) : exc t :=
  v0 ← get_stack_optional bool j "in_ipset";
  v1 ← at_get cstring j "ip";
  mret (make v0 v1).
Definition members (x : t) : list (cstring * json) :=
  [(str "in_ipset", put_optional (in_ipset x));
   (str "ip", to_json (ip x))].
Definition as_json (x : t) : json := JObj (members x).
#[export] Instance codec : Codec t := {| from_json := of_json; to_json := as_json |}.
Definition fitting (x : t) : Prop :=
  fits_optional (in_ipset x) ∧
  fits (ip x).
#[export] Program Instance law : CodecLaw t := {| fits := fitting |}.
Next Obligation. done. Qed.
Next Obligation.
  intros x Hx. unfold fitting in Hx. cbn [from_json to_json codec]. unfold of_json, as_json. read_back x Hx.
Qed.
End codec.
End RoutingTestRuleIpDiagnosticElement.
Export (hints) RoutingTestRuleIpDiagnosticElement.

Module RoutingTestRuleDiagnosticElement.
Record t := make {
  interface_name : cstring;
  ip_rows : (list RoutingTestRuleIpDiagnosticElement.t);
  outbound : cstring;
  rule : RouteRule;
  rule_index : Z;
  target_in_lists : bool;
  target_match : option ListMatch.t;
}.
Section codec.
Context {NL : Nlohmann}.
Definition of_json (j : json) : exc t :=
  v0 ← at_get cstring j "interface_name";
  v1 ← at_get (list RoutingTestRuleIpDiagnosticElement.t) j "ip_rows";
  v2 ← at_get cstring j "outbound";
  v3 ← at_get RouteRule j "rule";
  v4 ← at_get Z j "rule_index";
  v5 ← at_get bool j "target_in_lists";
  v6 ← get_stack_optional ListMatch.t j "target_match";
  mret (make v0 v1 v2 v3 v4 v5 v6).
Definition members (x : t) : list (cstring * json) :=
  [(str "interface_name", to_json (interface_name x));
   (str "ip_rows", to_json (ip_rows x));
   (str "outbound", to_json (outbound x));
   (str "rule", to_json (rule x));
   (str "rule_index", to_json (rule_index x));
   (str "target_in_lists", to_json (target_in_lists x));
   (str "target_match", put_optional (target_match x))].
Definition as_json (x : t) : json := JObj (members x).
#[export] Instance codec : Codec t := {| from_json := of_json; to_json := as_json |}.
Definition fitting (x : t) : Prop :=
  fits (interface_name x) ∧
  fits (ip_rows x) ∧
  fits (outbound x) ∧
  fits (rule x) ∧
  fits (rule_index x) ∧
  fits (target_in_lists x) ∧
  fits_optional (target_match x).
#[export] Program Instance law : CodecLaw t := {| fits := fitting |}.
Next Obligation. done. Qed.
Next Obligation.
  intros x Hx. unfold fitting in Hx. cbn [from_json to_json codec]. unfold of_json, as_json. read_back x Hx.
Qed.
End codec.
End RoutingTestRuleDiagnosticElement.
Export (hints) RoutingTestRuleDiagnosticElement.

Module RoutingTestResponse.
Record t := make {
  dns_error : option cstring;
  is_domain : bool;
  no_matching_rule : bool;
  resolved_ips : (list cstring);
  results : (list RoutingTestEntry.t);
  rule_diagnostics : (list RoutingTestRuleDiagnosticElement.t);
  target : cstring;
  warnings : (list cstring);
}.
Section codec.
Context {NL : Nlohmann}.
Definition of_json (j : json) : exc t :=
  v0 ← get_stack_optional cstring j "dns_error";
  v1 ← at_get bool j "is_domain";
  v2 ← at_get bool j "no_matching_rule";
  v3 ← at_get (list cstring) j "resolved_ips";
  v4 ← at_get (list RoutingTestEntry.t) j "results";
  v5 ← at_get (list RoutingTestRuleDiagnosticElement.t) j "rule_diagnostics";
  v6 ← at_get cstring j "target";
  v7 ← at_get (list cstring) j "warnings";
  mret (make v0 v1 v2 v3 v4 v5 v6 v7).
Definition members (x : t) : list (cstring * json) :=
  [(str "dns_error", put_optional (dns_error x));
   (str "is_domain", to_json (is_domain x));
   (str "no_matching_rule", to_json (no_matching_rule x));
   (str "resolved_ips", to_json (resolved_ips x));
   (str "results", to_json (results x));
   (str "rule_diagnostics", to_json (rule_diagnostics x));
   (str "target", to_json (target x));
   (str "warnings", to_json (warnings x))].
Definition as_json (x : t) : json := JObj (members x).
#[export] Instance codec : Codec t := {| from_json := of_json; to_json := as_json |}.
Definition fitting (x : t) : Prop :=
  fits_optional (dns_error x) ∧
  fits (is_domain x) ∧
  fits (no_matching_rule x) ∧
  fits (resolved_ips x) ∧
  fits (results x) ∧
  fits (rule_diagnostics x) ∧
  fits (target x) ∧
  fits (warnings x).
#[export] Program Instance law : CodecLaw t := {| fits := fitting |}.
Next Obligation. done. Qed.
Next Obligation.
  intros x Hx. unfold fitting in Hx. cbn [from_json to_json codec]. unfold of_json, as_json. read_back x Hx.
Qed.
End codec.
End RoutingTestResponse.
Export (hints) RoutingTestResponse.

Module RuntimeInterfaceInventoryStatusEnum.
Inductive t := DOWN | UP.
Definition of_json (j : json) : exc t :=
  if is_text j "down" then Ok DOWN
  else if is_text j "up" then Ok UP
  else bad_enum "RuntimeInterfaceInventoryStatusEnum".
Definition as_json (x : t) : json :=
  JStr match x with
       | DOWN => str "down"
       | UP => str "up"
       end.
#[export] Instance codec : Codec t := {| from_json := of_json; to_json := as_json |}.
#[export] Program Instance law : CodecLaw t := {| fits _ := True |}.
Next Obligation. done. Qed.
Next Obligation. by intros []. Qed.
End RuntimeInterfaceInventoryStatusEnum.
Export (hints) RuntimeInterfaceInventoryStatusEnum.

Module RuntimeInterfaceInventoryEntry.
Record t := make {
  admin_up : option bool;
  carrier : option bool;
  description : option cstring;
  ipv4_addresses : option (list cstring);
  ipv6_addresses : option (list cstring);
  name : cstring;
  oper_state : option cstring;
  status : RuntimeInterfaceInventoryStatusEnum.t;
}.
Section codec.
Context {NL : Nlohmann}.
Definition of_json (j : json) : exc t :=
  v0 ← get_stack_optional bool j "admin_up";
  v1 ← get_stack_optional bool j "carrier";
  v2 ← get_stack_optional cstring j "description";
  v3 ← get_stack_optional (list cstring) j "ipv4_addresses";
  v4 ← get_stack_optional (list cstring) j "ipv6_addresses";
  v5 ← at_get cstring j "name";
  v6 ← get_stack_optional cstring j "oper_state";
  v7 ← at_get RuntimeInterfaceInventoryStatusEnum.t j "status";
  mret (make v0 v1 v2 v3 v4 v5 v6 v7).
Definition members (x : t) : list (cstring * json) :=
  [(str "admin_up", put_optional (admin_up x));
   (str "carrier", put_optional (carrier x));
   (str "description", put_optional (description x));
   (str "ipv4_addresses", put_optional (ipv4_addresses x));
   (str "ipv6_addresses", put_optional (ipv6_addresses x));
   (str "name", to_json (name x));
   (str "oper_state", put_optional (oper_state x));
   (str "status", to_json (status x))].
Definition as_json (x : t) : json := JObj (members x).
#[export] Instance codec : Codec t := {| from_json := of_json; to_json := as_json |}.
Definition fitting (x : t) : Prop :=
  fits_optional (admin_up x) ∧
  fits_optional (carrier x) ∧
  fits_optional (description x) ∧
  fits_optional (ipv4_addresses x) ∧
  fits_optional (ipv6_addresses x) ∧
  fits (name x) ∧
  fits_optional (oper_state x) ∧
  fits (status x).
#[export] Program Instance law : CodecLaw t := {| fits := fitting |}.
Next Obligation. done. Qed.
Next Obligation.
  intros x Hx. unfold fitting in Hx. cbn [from_json to_json codec]. unfold of_json, as_json. read_back x Hx.
Qed.
End codec.
End RuntimeInterfaceInventoryEntry.
Export (hints) RuntimeInterfaceInventoryEntry.

Module RuntimeInterfaceInventoryResponse.
Record t := make {
  interfaces : (list RuntimeInterfaceInventoryEntry.t);
}.
Section codec.
Context {NL : Nlohmann}.
Definition of_json (j : json) : exc t :=
  v0 ← at_get (list RuntimeInterfaceInventoryEntry.t) j "interfaces";
  mret (make v0).
Definition members (x : t) : list (cstring * json) :=
  [(str "interfaces", to_json (interfaces x))].
Definition as_json (x : t) : json := JObj (members x).
#[export] Instance codec : Codec t := {| from_json := of_json; to_json := as_json |}.
Definition fitting (x : t) : Prop :=
  fits (interfaces x).
#[export] Program Instance law : CodecLaw t := {| fits := fitting |}.
Next Obligation. done. Qed.
Next Obligation.
  intros x Hx. unfold fitting in Hx. cbn [from_json to_json codec]. unfold of_json, as_json. read_back x Hx.
Qed.
End codec.
End RuntimeInterfaceInventoryResponse.
Export (hints) RuntimeInterfaceInventoryResponse.

Module RuntimeInterfaceStatusEnum.
Inductive t := ACTIVE | BACKUP | DEGRADED | UNAVAILABLE | UNKNOWN.
Definition of_json (j : json) : exc t :=
  if is_text j "active" then Ok ACTIVE
  else if is_text j "backup" then Ok BACKUP
  else if is_text j "degraded" then Ok DEGRADED
  else if is_text j "unavailable" then Ok UNAVAILABLE
  else if is_text j "unknown" then Ok UNKNOWN
  else bad_enum "RuntimeInterfaceStatusEnum".
Definition as_json (x : t) : json :=
  JStr match x with
       | ACTIVE => str "active"
       | BACKUP => str "backup"
       | DEGRADED => str "degraded"
       | UNAVAILABLE => str "unavailable"
       | UNKNOWN => str "unknown"
       end.
#[export] Instance codec : Codec t := {| from_json := of_json; to_json := as_json |}.
#[export] Program Instance law : CodecLaw t := {| fits _ := True |}.
Next Obligation. done. Qed.
Next Obligation. by intros []. Qed.
End RuntimeInterfaceStatusEnum.
Export (hints) RuntimeInterfaceStatusEnum.

Module RuntimeInterfaceState.
Record t := make {
  detail : option cstring;
  interface_name : option cstring;
  latency_ms : option Z;
  outbound_tag : cstring;
  status : RuntimeInterfaceStatusEnum.t;
}.
Section codec.
Context {NL : Nlohmann}.
Definition of_json (j : json) : exc t :=
  v0 ← get_stack_optional cstring j "detail";
  v1 ← get_stack_optional cstring j "interface_name";
  v2 ← get_stack_optional Z j "latency_ms";
  v3 ← at_get cstring j "outbound_tag";
  v4 ← at_get RuntimeInterfaceStatusEnum.t j "status";
  mret (make v0 v1 v2 v3 v4).
Definition members (x : t) : list (cstring * json) :=
  [(str "detail", put_optional (detail x));
   (str "interface_name", put_optional (interface_name x));
   (str "latency_ms", put_optional (latency_ms x));
   (str "outbound_tag", to_json (outbound_tag x));
   (str "status", to_json (status x))].
Definition as_json (x : t) : json := JObj (members x).
#[export] Instance codec : Codec t := {| from_json := of_json; to_json := as_json |}.
Definition fitting (x : t) : Prop :=
  fits_optional (detail x) ∧
  fits_optional (interface_name x) ∧
  fits_optional (latency_ms x) ∧
  fits (outbound_tag x) ∧
  fits (status x).
#[export] Program Instance law : CodecLaw t := {| fits := fitting |}.
Next Obligation. done. Qed.
Next Obligation.
  intros x Hx. unfold fitting in Hx. cbn [from_json to_json codec]. unfold of_json, as_json. read_back x Hx.
Qed.
End codec.
End RuntimeInterfaceState.
Export (hints) RuntimeInterfaceState.

Module RuntimeOutboundStateElement.
Record t := make {
  detail : option cstring;
  interfaces : (list RuntimeInterfaceState.t);
  status : ResolverLiveStatus.t;
  tag : cstring;
  type : OutboundType.t;
}.
Section codec.
Context {NL : Nlohmann}.
Definition of_json (j : json) : exc t :=
  v0 ← get_stack_optional cstring j "detail";
  v1 ← at_get (list RuntimeInterfaceState.t) j "interfaces";
  v2 ← at_get ResolverLiveStatus.t j "status";
  v3 ← at_get cstring j "tag";
  v4 ← at_get OutboundType.t j "type";
  mret (make v0 v1 v2 v3 v4).
Definition members (x : t) : list (cstring * json) :=
  [(str "detail", put_optional (detail x));
   (str "interfaces", to_json (interfaces x));
   (str "status", to_json (status x));
   (str "tag", to_json (tag x));
   (str "type", to_json (type x))].
Definition as_json (x : t) : json := JObj (members x).
#[export] Instance codec : Codec t := {| from_json := of_json; to_json := as_json |}.
Definition fitting (x : t) : Prop :=
  fits_optional (detail x) ∧
  fits (interfaces x) ∧
  fits (status x) ∧
  fits (tag x) ∧
  fits (type x).
#[export] Program Instance law : CodecLaw t := {| fits := fitting |}.
Next Obligation. done. Qed.
Next Obligation.
  intros x Hx. unfold fitting in Hx. cbn [from_json to_json codec]. unfold of_json, as_json. read_back x Hx.
Qed.
End codec.
End RuntimeOutboundStateElement.
Export (hints) RuntimeOutboundStateElement.

Module RuntimeOutboundsResponse.
Record t := make {
  outbounds : (list RuntimeOutboundStateElement.t);
}.
Section codec.
Context {NL : Nlohmann}.
Definition of_json (j : json) : exc t :=
  v0 ← at_get (list RuntimeOutboundStateElement.t) j "outbounds";
  mret (make v0).
Definition members (x : t) : list (cstring * json) :=
  [(str "outbounds", to_json (outbounds x))].
Definition as_json (x : t) : json := JObj (members x).
#[export] Instance codec : Codec t := {| from_json := of_json; to_json := as_json |}.
Definition fitting (x : t) : Prop :=
  fits (outbounds x).
#[export] Program Instance law : CodecLaw t := {| fits := fitting |}.
Next Obligation. done. Qed.
Next Obligation.
  intros x Hx. unfold fitting in Hx. cbn [from_json to_json codec]. unfold of_json, as_json. read_back x Hx.
Qed.
End codec.
End RuntimeOutboundsResponse.
Export (hints) RuntimeOutboundsResponse.

Module StatusEventInterfacesType.
Inductive t := INTERFACES.
Definition of_json (j : json) : exc t :=
  if is_text j "interfaces" then Ok INTERFACES
  else bad_enum "StatusEventInterfacesType".
Definition as_json (x : t) : json :=
  JStr match x with
       | INTERFACES => str "interfaces"
       end.
#[export] Instance codec : Codec t := {| from_json := of_json; to_json := as_json |}.
#[export] Program Instance law : CodecLaw t := {| fits _ := True |}.
Next Obligation. done. Qed.
Next Obligation. by intros []. Qed.
End StatusEventInterfacesType.
Export (hints) StatusEventInterfacesType.

Module StatusEventInterfaces.
Record t := make {
  data : RuntimeInterfaceInventoryResponse.t;
  type : StatusEventInterfacesType.t;
}.
Section codec.
Context {NL : Nlohmann}.
Definition of_json (j : json) : exc t :=
  v0 ← at_get RuntimeInterfaceInventoryResponse.t j "data";
  v1 ← at_get StatusEventInterfacesType.t j "type";
  mret (make v0 v1).
Definition members (x : t) : list (cstring * json) :=
  [(str "data", to_json (data x));
   (str "type", to_json (type x))].
Definition as_json (x : t) : json := JObj (members x).
#[export] Instance codec : Codec t := {| from_json := of_json; to_json := as_json |}.
Definition fitting (x : t) : Prop :=
  fits (data x) ∧
  fits (type x).
#[export] Program Instance law : CodecLaw t := {| fits := fitting |}.
Next Obligation. done. Qed.
Next Obligation.
  intros x Hx. unfold fitting in Hx. cbn [from_json to_json codec]. unfold of_json, as_json. read_back x Hx.
Qed.
End codec.
End StatusEventInterfaces.
Export (hints) StatusEventInterfaces.

Module StatusEventOutboundsType.
Inductive t := OUTBOUNDS.
Definition of_json (j : json) : exc t :=
  if is_text j "outbounds" then Ok OUTBOUNDS
  else bad_enum "StatusEventOutboundsType".
Definition as_json (x : t) : json :=
  JStr match x with
       | OUTBOUNDS => str "outbounds"
       end.
#[export] Instance codec : Codec t := {| from_json := of_json; to_json := as_json |}.
#[export] Program Instance law : CodecLaw t := {| fits _ := True |}.
Next Obligation. done. Qed.
Next Obligation. by intros []. Qed.
End StatusEventOutboundsType.
Export (hints) StatusEventOutboundsType.

Module StatusEventOutbounds.
Record t := make {
  data : RuntimeOutboundsResponse.t;
  type : StatusEventOutboundsType.t;
}.
Section codec.
Context {NL : Nlohmann}.
Definition of_json (j : json) : exc t :=
  v0 ← at_get RuntimeOutboundsResponse.t j "data";
  v1 ← at_get StatusEventOutboundsType.t j "type";
  mret (make v0 v1).
Definition members (x : t) : list (cstring * json) :=
  [(str "data", to_json (data x));
   (str "type", to_json (type x))].
Definition as_json (x : t) : json := JObj (members x).
#[export] Instance codec : Codec t := {| from_json := of_json; to_json := as_json |}.
Definition fitting (x : t) : Prop :=
  fits (data x) ∧
  fits (type x).
#[export] Program Instance law : CodecLaw t := {| fits := fitting |}.
Next Obligation. done. Qed.
Next Obligation.
  intros x Hx. unfold fitting in Hx. cbn [from_json to_json codec]. unfold of_json, as_json. read_back x Hx.
Qed.
End codec.
End StatusEventOutbounds.
Export (hints) StatusEventOutbounds.

Module StatusEventServiceType.
Inductive t := SERVICE.
Definition of_json (j : json) : exc t :=
  if is_text j "service" then Ok SERVICE
  else bad_enum "StatusEventServiceType".
Definition as_json (x : t) : json :=
  JStr match x with
       | SERVICE => str "service"
       end.
#[export] Instance codec : Codec t := {| from_json := of_json; to_json := as_json |}.
#[export] Program Instance law : CodecLaw t := {| fits _ := True |}.
Next Obligation. done. Qed.
Next Obligation. by intros []. Qed.
End StatusEventServiceType.
Export (hints) StatusEventServiceType.

Module StatusEventService.
Record t := make {
  data : HealthResponse.t;
  type : StatusEventServiceType.t;
}.
Section codec.
Context {NL : Nlohmann}.
Definition of_json (j : json) : exc t :=
  v0 ← at_get HealthResponse.t j "data";
  v1 ← at_get StatusEventServiceType.t j "type";
  mret (make v0 v1).
Definition members (x : t) : list (cstring * json) :=
  [(str "data", to_json (data x));
   (str "type", to_json (type x))].
Definition as_json (x : t) : json := JObj (members x).
#[export] Instance codec : Codec t := {| from_json := of_json; to_json := as_json |}.
Definition fitting (x : t) : Prop :=
  fits (data x) ∧
  fits (type x).
#[export] Program Instance law : CodecLaw t := {| fits := fitting |}.
Next Obligation. done. Qed.
Next Obligation.
  intros x Hx. unfold fitting in Hx. cbn [from_json to_json codec]. unfold of_json, as_json. read_back x Hx.
Qed.
End codec.
End StatusEventService.
Export (hints) StatusEventService.

Module Data.
Record t := make {
  interfaces : RuntimeInterfaceInventoryResponse.t;
  outbounds : RuntimeOutboundsResponse.t;
  service : HealthResponse.t;
}.
Section codec.
Context {NL : Nlohmann}.
Definition of_json (j : json) : exc t :=
  v0 ← at_get RuntimeInterfaceInventoryResponse.t j "interfaces";
  v1 ← at_get RuntimeOutboundsResponse.t j "outbounds";
  v2 ← at_get HealthResponse.t j "service";
  mret (make v0 v1 v2).
Definition members (x : t) : list (cstring * json) :=
  [(str "interfaces", to_json (interfaces x));
   (str "outbounds", to_json (outbounds x));
   (str "service", to_json (service x))].
Definition as_json (x : t) : json := JObj (members x).
#[export] Instance codec : Codec t := {| from_json := of_json; to_json := as_json |}.
Definition fitting (x : t) : Prop :=
  fits (interfaces x) ∧
  fits (outbounds x) ∧
  fits (service x).
#[export] Program Instance law : CodecLaw t := {| fits := fitting |}.
Next Obligation. done. Qed.
Next Obligation.
  intros x Hx. unfold fitting in Hx. cbn [from_json to_json codec]. unfold of_json, as_json. read_back x Hx.
Qed.
End codec.
End Data.
Export (hints) Data.

Module StatusEventSnapshotType.
Inductive t := SNAPSHOT.
Definition of_json (j : json) : exc t :=
  if is_text j "snapshot" then Ok SNAPSHOT
  else bad_enum "StatusEventSnapshotType".
Definition as_json (x : t) : json :=
  JStr match x with
       | SNAPSHOT => str "snapshot"
       end.
#[export] Instance codec : Codec t := {| from_json := of_json; to_json := as_json |}.
#[export] Program Instance law : CodecLaw t := {| fits _ := True |}.
Next Obligation. done. Qed.
Next Obligation. by intros []. Qed.
End StatusEventSnapshotType.
Export (hints) StatusEventSnapshotType.

Module StatusEventSnapshot.
Record t := make {
  data : Data.t;
  type : StatusEventSnapshotType.t;
}.
Section codec.
Context {NL : Nlohmann}.
Definition of_json (j : json) : exc t :=
  v0 ← at_get Data.t j "data";
  v1 ← at_get StatusEventSnapshotType.t j "type";
  mret (make v0 v1).
Definition members (x : t) : list (cstring * json) :=
  [(str "data", to_json (data x));
   (str "type", to_json (type x))].
Definition as_json (x : t) : json := JObj (members x).
#[export] Instance codec : Codec t := {| from_json := of_json; to_json := as_json |}.
Definition fitting (x : t) : Prop :=
  fits (data x) ∧
  fits (type x).
#[export] Program Instance law : CodecLaw t := {| fits := fitting |}.
Next Obligation. done. Qed.
Next Obligation.
  intros x Hx. unfold fitting in Hx. cbn [from_json to_json codec]. unfold of_json, as_json. read_back x Hx.
Qed.
End codec.
End StatusEventSnapshot.
Export (hints) StatusEventSnapshot.

Module KeenPbrTypesEFtlCp.
Record t := make {
  api_config : option ApiConfig;
  cache_metadata : option CacheMetadata.t;
  check_status : option CheckStatus.t;
  circuit_breaker_config : option CircuitBreakerConfig;
  config_object : option Config;
  config_state_response : option ConfigStateResponse.t;
  config_update_response : option ConfigUpdateResponse.t;
  conntrack_on_switch : option ConntrackOnSwitch.t;
  daemon_config : option DaemonConfig;
  dns_config : option DnsConfig;
  dns_rule : option DnsRule;
  dns_server : option DnsServer;
  dns_system_resolver : option SystemResolver;
  dns_test_server : option DnsTestServer;
  error_response : option ErrorResponse.t;
  firewall_chain : option FirewallChain.t;
  firewall_rule_check : option FirewallRuleCheck.t;
  fwmark_config : option FwmarkConfig;
  health_response : option HealthResponse.t;
  iproute_config : option IprouteConfig;
  lifecycle_operation : option LifecycleOperation.t;
  lifecycle_operation_accepted_response : option LifecycleOperationAcceptedResponse.t;
  lifecycle_operation_stage : option LifecycleOperationStageElement.t;
  list_config : option ListConfig;
  list_refresh_request : option ListRefreshRequest.t;
  list_refresh_response : option ListRefreshResponse.t;
  list_refresh_state : option ListRefreshStateValue.t;
  lists_autoupdate_config : option ListsAutoupdateConfig;
  outbound : option Outbound;
  outbound_group : option OutboundGroup;
  policy_rule_check : option PolicyRuleCheck.t;
  reload_response : option ReloadResponse.t;
  resolver_config_probe_status : option ResolverConfigProbeStatus.t;
  resolver_config_sync_state : option ResolverConfigSyncState.t;
  retry_config : option RetryConfig;
  route_config : option RouteConfig;
  route_rule : option RouteRule;
  route_table_check : option RouteTableCheck.t;
  routing_health_error_response : option RoutingHealthErrorResponse.t;
  routing_health_response : option RoutingHealthResponse.t;
  routing_test_entry : option RoutingTestEntry.t;
  routing_test_list_match : option ListMatch.t;
  routing_test_request : option RoutingTestRequest.t;
  routing_test_response : option RoutingTestResponse.t;
  routing_test_rule_diagnostic : option RoutingTestRuleDiagnosticElement.t;
  routing_test_rule_ip_diagnostic : option RoutingTestRuleIpDiagnosticElement.t;
  runtime_interface_inventory_entry : option RuntimeInterfaceInventoryEntry.t;
  runtime_interface_inventory_response : option RuntimeInterfaceInventoryResponse.t;
  runtime_interface_inventory_status : option RuntimeInterfaceInventoryStatusEnum.t;
  runtime_interface_state : option RuntimeInterfaceState.t;
  runtime_interface_status : option RuntimeInterfaceStatusEnum.t;
  runtime_outbounds_response : option RuntimeOutboundsResponse.t;
  runtime_outbound_state : option RuntimeOutboundStateElement.t;
  runtime_outbound_status : option ResolverLiveStatus.t;
  status_event_interfaces : option StatusEventInterfaces.t;
  status_event_outbounds : option StatusEventOutbounds.t;
  status_event_service : option StatusEventService.t;
  status_event_snapshot : option StatusEventSnapshot.t;
  validation_error : option ValidationErrorElement.t;
}.
Section codec.
Context {NL : Nlohmann}.
Definition of_json (j : json) : exc t :=
  v0 ← get_stack_optional ApiConfig j "ApiConfig";
  v1 ← get_stack_optional CacheMetadata.t j "CacheMetadata";
  v2 ← get_stack_optional CheckStatus.t j "CheckStatus";
  v3 ← get_stack_optional CircuitBreakerConfig j "CircuitBreakerConfig";
  v4 ← get_stack_optional Config j "ConfigObject";
  v5 ← get_stack_optional ConfigStateResponse.t j "ConfigStateResponse";
  v6 ← get_stack_optional ConfigUpdateResponse.t j "ConfigUpdateResponse";
  v7 ← get_stack_optional ConntrackOnSwitch.t j "ConntrackOnSwitch";
  v8 ← get_stack_optional DaemonConfig j "DaemonConfig";
  v9 ← get_stack_optional DnsConfig j "DnsConfig";
  v10 ← get_stack_optional DnsRule j "DnsRule";
  v11 ← get_stack_optional DnsServer j "DnsServer";
  v12 ← get_stack_optional SystemResolver j "DnsSystemResolver";
  v13 ← get_stack_optional DnsTestServer j "DnsTestServer";
  v14 ← get_stack_optional ErrorResponse.t j "ErrorResponse";
  v15 ← get_stack_optional FirewallChain.t j "FirewallChain";
  v16 ← get_stack_optional FirewallRuleCheck.t j "FirewallRuleCheck";
  v17 ← get_stack_optional FwmarkConfig j "FwmarkConfig";
  v18 ← get_stack_optional HealthResponse.t j "HealthResponse";
  v19 ← get_stack_optional IprouteConfig j "IprouteConfig";
  v20 ← get_stack_optional LifecycleOperation.t j "LifecycleOperation";
  v21 ← get_stack_optional LifecycleOperationAcceptedResponse.t j "LifecycleOperationAcceptedResponse";
  v22 ← get_stack_optional LifecycleOperationStageElement.t j "LifecycleOperationStage";
  v23 ← get_stack_optional ListConfig j "ListConfig";
  v24 ← get_stack_optional ListRefreshRequest.t j "ListRefreshRequest";
  v25 ← get_stack_optional ListRefreshResponse.t j "ListRefreshResponse";
  v26 ← get_stack_optional ListRefreshStateValue.t j "ListRefreshState";
  v27 ← get_stack_optional ListsAutoupdateConfig j "ListsAutoupdateConfig";
  v28 ← get_stack_optional Outbound j "Outbound";
  v29 ← get_stack_optional OutboundGroup j "OutboundGroup";
  v30 ← get_stack_optional PolicyRuleCheck.t j "PolicyRuleCheck";
  v31 ← get_stack_optional ReloadResponse.t j "ReloadResponse";
  v32 ← get_stack_optional ResolverConfigProbeStatus.t j "ResolverConfigProbeStatus";
  v33 ← get_stack_optional ResolverConfigSyncState.t j "ResolverConfigSyncState";
  v34 ← get_stack_optional RetryConfig j "RetryConfig";
  v35 ← get_stack_optional RouteConfig j "RouteConfig";
  v36 ← get_stack_optional RouteRule j "RouteRule";
  v37 ← get_stack_optional RouteTableCheck.t j "RouteTableCheck";
  v38 ← get_stack_optional RoutingHealthErrorResponse.t j "RoutingHealthErrorResponse";
  v39 ← get_stack_optional RoutingHealthResponse.t j "RoutingHealthResponse";
  v40 ← get_stack_optional RoutingTestEntry.t j "RoutingTestEntry";
  v41 ← get_stack_optional ListMatch.t j "RoutingTestListMatch";
  v42 ← get_stack_optional RoutingTestRequest.t j "RoutingTestRequest";
  v43 ← get_stack_optional RoutingTestResponse.t j "RoutingTestResponse";
  v44 ← get_stack_optional RoutingTestRuleDiagnosticElement.t j "RoutingTestRuleDiagnostic";
  v45 ← get_stack_optional RoutingTestRuleIpDiagnosticElement.t j "RoutingTestRuleIpDiagnostic";
  v46 ← get_stack_optional RuntimeInterfaceInventoryEntry.t j "RuntimeInterfaceInventoryEntry";
  v47 ← get_stack_optional RuntimeInterfaceInventoryResponse.t j "RuntimeInterfaceInventoryResponse";
  v48 ← get_stack_optional RuntimeInterfaceInventoryStatusEnum.t j "RuntimeInterfaceInventoryStatus";
  v49 ← get_stack_optional RuntimeInterfaceState.t j "RuntimeInterfaceState";
  v50 ← get_stack_optional RuntimeInterfaceStatusEnum.t j "RuntimeInterfaceStatus";
  v51 ← get_stack_optional RuntimeOutboundsResponse.t j "RuntimeOutboundsResponse";
  v52 ← get_stack_optional RuntimeOutboundStateElement.t j "RuntimeOutboundState";
  v53 ← get_stack_optional ResolverLiveStatus.t j "RuntimeOutboundStatus";
  v54 ← get_stack_optional StatusEventInterfaces.t j "StatusEventInterfaces";
  v55 ← get_stack_optional StatusEventOutbounds.t j "StatusEventOutbounds";
  v56 ← get_stack_optional StatusEventService.t j "StatusEventService";
  v57 ← get_stack_optional StatusEventSnapshot.t j "StatusEventSnapshot";
  v58 ← get_stack_optional ValidationErrorElement.t j "ValidationError";
  mret (make v0 v1 v2 v3 v4 v5 v6 v7 v8 v9 v10 v11 v12 v13 v14 v15 v16 v17 v18 v19 v20 v21 v22 v23 v24 v25 v26 v27 v28 v29 v30 v31 v32 v33 v34 v35 v36 v37 v38 v39 v40 v41 v42 v43 v44 v45 v46 v47 v48 v49 v50 v51 v52 v53 v54 v55 v56 v57 v58).
Definition members (x : t) : list (cstring * json) :=
  [(str "ApiConfig", put_optional (api_config x));
   (str "CacheMetadata", put_optional (cache_metadata x));
   (str "CheckStatus", put_optional (check_status x));
   (str "CircuitBreakerConfig", put_optional (circuit_breaker_config x));
   (str "ConfigObject", put_optional (config_object x));
   (str "ConfigStateResponse", put_optional (config_state_response x));
   (str "ConfigUpdateResponse", put_optional (config_update_response x));
   (str "ConntrackOnSwitch", put_optional (conntrack_on_switch x));
   (str "DaemonConfig", put_optional (daemon_config x));
   (str "DnsConfig", put_optional (dns_config x));
   (str "DnsRule", put_optional (dns_rule x));
   (str "DnsServer", put_optional (dns_server x));
   (str "DnsSystemResolver", put_optional (dns_system_resolver x));
   (str "DnsTestServer", put_optional (dns_test_server x));
   (str "ErrorResponse", put_optional (error_response x));
   (str "FirewallChain", put_optional (firewall_chain x));
   (str "FirewallRuleCheck", put_optional (firewall_rule_check x));
   (str "FwmarkConfig", put_optional (fwmark_config x));
   (str "HealthResponse", put_optional (health_response x));
   (str "IprouteConfig", put_optional (iproute_config x));
   (str "LifecycleOperation", put_optional (lifecycle_operation x));
   (str "LifecycleOperationAcceptedResponse", put_optional (lifecycle_operation_accepted_response x));
   (str "LifecycleOperationStage", put_optional (lifecycle_operation_stage x));
   (str "ListConfig", put_optional (list_config x));
   (str "ListRefreshRequest", put_optional (list_refresh_request x));
   (str "ListRefreshResponse", put_optional (list_refresh_response x));
   (str "ListRefreshState", put_optional (list_refresh_state x));
   (str "ListsAutoupdateConfig", put_optional (lists_autoupdate_config x));
   (str "Outbound", put_optional (outbound x));
   (str "OutboundGroup", put_optional (outbound_group x));
   (str "PolicyRuleCheck", put_optional (policy_rule_check x));
   (str "ReloadResponse", put_optional (reload_response x));
   (str "ResolverConfigProbeStatus", put_optional (resolver_config_probe_status x));
   (str "ResolverConfigSyncState", put_optional (resolver_config_sync_state x));
   (str "RetryConfig", put_optional (retry_config x));
   (str "RouteConfig", put_optional (route_config x));
   (str "RouteRule", put_optional (route_rule x));
   (str "RouteTableCheck", put_optional (route_table_check x));
   (str "RoutingHealthErrorResponse", put_optional (routing_health_error_response x));
   (str "RoutingHealthResponse", put_optional (routing_health_response x));
   (str "RoutingTestEntry", put_optional (routing_test_entry x));
   (str "RoutingTestListMatch", put_optional (routing_test_list_match x));
   (str "RoutingTestRequest", put_optional (routing_test_request x));
   (str "RoutingTestResponse", put_optional (routing_test_response x));
   (str "RoutingTestRuleDiagnostic", put_optional (routing_test_rule_diagnostic x));
   (str "RoutingTestRuleIpDiagnostic", put_optional (routing_test_rule_ip_diagnostic x));
   (str "RuntimeInterfaceInventoryEntry", put_optional (runtime_interface_inventory_entry x));
   (str "RuntimeInterfaceInventoryResponse", put_optional (runtime_interface_inventory_response x));
   (str "RuntimeInterfaceInventoryStatus", put_optional (runtime_interface_inventory_status x));
   (str "RuntimeInterfaceState", put_optional (runtime_interface_state x));
   (str "RuntimeInterfaceStatus", put_optional (runtime_interface_status x));
   (str "RuntimeOutboundsResponse", put_optional (runtime_outbounds_response x));
   (str "RuntimeOutboundState", put_optional (runtime_outbound_state x));
   (str "RuntimeOutboundStatus", put_optional (runtime_outbound_status x));
   (str "StatusEventInterfaces", put_optional (status_event_interfaces x));
   (str "StatusEventOutbounds", put_optional (status_event_outbounds x));
   (str "StatusEventService", put_optional (status_event_service x));
   (str "StatusEventSnapshot", put_optional (status_event_snapshot x));
   (str "ValidationError", put_optional (validation_error x))].
Definition as_json (x : t) : json := JObj (members x).
#[export] Instance codec : Codec t := {| from_json := of_json; to_json := as_json |}.
Definition fitting (x : t) : Prop :=
  fits_optional (api_config x) ∧
  fits_optional (cache_metadata x) ∧
  fits_optional (check_status x) ∧
  fits_optional (circuit_breaker_config x) ∧
  fits_optional (config_object x) ∧
  fits_optional (config_state_response x) ∧
  fits_optional (config_update_response x) ∧
  fits_optional (conntrack_on_switch x) ∧
  fits_optional (daemon_config x) ∧
  fits_optional (dns_config x) ∧
  fits_optional (dns_rule x) ∧
  fits_optional (dns_server x) ∧
  fits_optional (dns_system_resolver x) ∧
  fits_optional (dns_test_server x) ∧
  fits_optional (error_response x) ∧
  fits_optional (firewall_chain x) ∧
  fits_optional (firewall_rule_check x) ∧
  fits_optional (fwmark_config x) ∧
  fits_optional (health_response x) ∧
  fits_optional (iproute_config x) ∧
  fits_optional (lifecycle_operation x) ∧
  fits_optional (lifecycle_operation_accepted_response x) ∧
  fits_optional (lifecycle_operation_stage x) ∧
  fits_optional (list_config x) ∧
  fits_optional (list_refresh_request x) ∧
  fits_optional (list_refresh_response x) ∧
  fits_optional (list_refresh_state x) ∧
  fits_optional (lists_autoupdate_config x) ∧
  fits_optional (outbound x) ∧
  fits_optional (outbound_group x) ∧
  fits_optional (policy_rule_check x) ∧
  fits_optional (reload_response x) ∧
  fits_optional (resolver_config_probe_status x) ∧
  fits_optional (resolver_config_sync_state x) ∧
  fits_optional (retry_config x) ∧
  fits_optional (route_config x) ∧
  fits_optional (route_rule x) ∧
  fits_optional (route_table_check x) ∧
  fits_optional (routing_health_error_response x) ∧
  fits_optional (routing_health_response x) ∧
  fits_optional (routing_test_entry x) ∧
  fits_optional (routing_test_list_match x) ∧
  fits_optional (routing_test_request x) ∧
  fits_optional (routing_test_response x) ∧
  fits_optional (routing_test_rule_diagnostic x) ∧
  fits_optional (routing_test_rule_ip_diagnostic x) ∧
  fits_optional (runtime_interface_inventory_entry x) ∧
  fits_optional (runtime_interface_inventory_response x) ∧
  fits_optional (runtime_interface_inventory_status x) ∧
  fits_optional (runtime_interface_state x) ∧
  fits_optional (runtime_interface_status x) ∧
  fits_optional (runtime_outbounds_response x) ∧
  fits_optional (runtime_outbound_state x) ∧
  fits_optional (runtime_outbound_status x) ∧
  fits_optional (status_event_interfaces x) ∧
  fits_optional (status_event_outbounds x) ∧
  fits_optional (status_event_service x) ∧
  fits_optional (status_event_snapshot x) ∧
  fits_optional (validation_error x).
#[export] Program Instance law : CodecLaw t := {| fits := fitting |}.
Next Obligation. done. Qed.
Next Obligation.
  intros x Hx. unfold fitting in Hx. cbn [from_json to_json codec]. unfold of_json, as_json. read_back x Hx.
Qed.
End codec.
End KeenPbrTypesEFtlCp.
Export (hints) KeenPbrTypesEFtlCp.

(** C38.  Every message of the API that is written as JSON is read back as itself:
    for all its types at once, the structs, their enumerations, lists and maps,
    as long as the integers are 64 bits wide. *)
Theorem api_json_roundtrip {NL : Nlohmann} (x : KeenPbrTypesEFtlCp.t) :
  KeenPbrTypesEFtlCp.fitting x → KeenPbrTypesEFtlCp.of_json (KeenPbrTypesEFtlCp.as_json x) = Ok x.
Proof. exact (from_to_json (CodecLaw:=KeenPbrTypesEFtlCp.law) x). Qed.

(** *** Witness *)

Definition w_message : KeenPbrTypesEFtlCp.t :=
  KeenPbrTypesEFtlCp.make  None None None None None None None None None None None None None None
    (Some (ErrorResponse.make "refused" (Some [ValidationErrorElement.make "bad" (Some (str "dns"))])))
    None None None None None
    (Some (LifecycleOperation.make None (Some 20) "7"
    [LifecycleOperationStageElement.make None "routes" LifecycleOperationStageStatus.SUCCEEDED "Routes"] 10
    LifecycleOperationStatus.SUCCEEDED LifecycleOperationType.RESTART))
    None None None None None None None None None None None None None None None None None None None None None None None None None None None None None None None None None None None None None None.

Lemma api_json_roundtrip_witness :
  KeenPbrTypesEFtlCp.of_json (NL:=w_nlohmann) (KeenPbrTypesEFtlCp.as_json (NL:=w_nlohmann) w_message) = Ok w_message.
Proof.
  apply (api_json_roundtrip (NL:=w_nlohmann)). unfold KeenPbrTypesEFtlCp.fitting. split_and!; try exact I.
  - split_and!; [exact I|]. cbn. repeat constructor.
  - split_and!; try exact I; cbn; [lia|repeat constructor|lia].
Defined.
