(* ===== verification/Runtime.v ===== *)
(** * Runtime bookkeeping (src/src/runtime/)

    The legal transitions of the runtime, the mutation lease, the lifecycle
    operations with their stages and published snapshots, the conntrack marks
    and the resolver's metadata, and the generic inspect, plan, apply, verify,
    commit loop.  Each class is a record; each critical section is one atomic
    step, so the two sections of [finish] can be separated by other calls. *)

From S2P Require Import Prelude CppString.

Local Open Scope Z_scope.

(** ** The runtime state machine (runtime_state_machine.cpp) *)

Module RuntimeState.
Inductive t := starting | running | restart_required | applying | stopped | broken | shutting_down.
#[global] Instance t_eq_dec : EqDecision t.
Proof. solve_decision. Defined.
End RuntimeState.

Definition runtime_state_name (s : RuntimeState.t) : cstring :=
  match s with
  | RuntimeState.starting => "starting"
  | RuntimeState.running => "running"
  | RuntimeState.restart_required => "restart_required"
  | RuntimeState.applying => "applying"
  | RuntimeState.stopped => "stopped"
  | RuntimeState.broken => "broken"
  | RuntimeState.shutting_down => "shutting_down"
  end.

Record RuntimeStateMachine := mk_RuntimeStateMachine {
  state_ : RuntimeState.t;
  reason_ : cstring;
}.

Definition initial_RuntimeStateMachine : RuntimeStateMachine :=
  mk_RuntimeStateMachine RuntimeState.starting [].

Definition runtime_allowed (from next : RuntimeState.t) : bool :=
  match from with
  | RuntimeState.starting =>
      match next with
      | RuntimeState.running | RuntimeState.stopped | RuntimeState.broken
      | RuntimeState.shutting_down => true
      | _ => false
      end
  | RuntimeState.running =>
      match next with
      | RuntimeState.applying | RuntimeState.restart_required | RuntimeState.stopped
      | RuntimeState.broken | RuntimeState.shutting_down => true
      | _ => false
      end
  | RuntimeState.restart_required =>
      match next with
      | RuntimeState.applying | RuntimeState.stopped | RuntimeState.broken
      | RuntimeState.shutting_down => true
      | _ => false
      end
  | RuntimeState.applying =>
      match next with
      | RuntimeState.running | RuntimeState.broken | RuntimeState.stopped => true
      | _ => false
      end
  | RuntimeState.stopped =>
      match next with
      | RuntimeState.starting | RuntimeState.applying | RuntimeState.broken
      | RuntimeState.shutting_down => true
      | _ => false
      end
  | RuntimeState.broken =>
      match next with
      | RuntimeState.applying | RuntimeState.stopped | RuntimeState.shutting_down => true
      | _ => false
      end
  | RuntimeState.shutting_down =>
      match next with RuntimeState.stopped => true | _ => false end
  end.

(** The result, the new value of the out-parameter [error], and the machine. *)
Definition transition (next : RuntimeState.t) (reason error : cstring)
    (m : RuntimeStateMachine) : (bool * cstring) * RuntimeStateMachine :=
  if negb (runtime_allowed (state_ m) next) then
    ((false, "invalid runtime transition: " ++ runtime_state_name (state_ m) ++ " -> " ++
             runtime_state_name next), m)
  else ((true, error), mk_RuntimeStateMachine next reason).

(** ** The mutation lease (operation_coordinator.cpp) *)

Record OperationCoordinator := mk_OperationCoordinator { busy_ : bool; operation_ : cstring }.

Definition try_begin (operation : cstring) (c : OperationCoordinator) :
    bool * OperationCoordinator :=
  if busy_ c then (false, c) else (true, mk_OperationCoordinator true operation).
Definition finish_operation (c : OperationCoordinator) : OperationCoordinator :=
  mk_OperationCoordinator false [].

(** ** Lifecycle operations (lifecycle_operation.cpp) *)

Module LifecycleOperationType.
Inductive t := ApplyConfig | Start | Stop | Restart.
End LifecycleOperationType.

Module LifecycleOperationStatus.
Inductive t := Pending | Running | Succeeded | Failed | Skipped.
#[global] Instance t_eq_dec : EqDecision t.
Proof. solve_decision. Defined.
End LifecycleOperationStatus.

Module LifecycleOperationResult.
Inductive t := Running | Succeeded | Failed.
#[global] Instance t_eq_dec : EqDecision t.
Proof. solve_decision. Defined.
End LifecycleOperationResult.

Definition lifecycle_operation_type_name (v : LifecycleOperationType.t) : cstring :=
  match v with
  | LifecycleOperationType.ApplyConfig => "apply_config"
  | LifecycleOperationType.Start => "start"
  | LifecycleOperationType.Stop => "stop"
  | LifecycleOperationType.Restart => "restart"
  end.

Definition lifecycle_operation_status_name (v : LifecycleOperationStatus.t) : cstring :=
  match v with
  | LifecycleOperationStatus.Pending => "pending"
  | LifecycleOperationStatus.Running => "running"
  | LifecycleOperationStatus.Succeeded => "succeeded"
  | LifecycleOperationStatus.Failed => "failed"
  | LifecycleOperationStatus.Skipped => "skipped"
  end.

Definition lifecycle_operation_result_name (v : LifecycleOperationResult.t) : cstring :=
  match v with
  | LifecycleOperationResult.Running => "running"
  | LifecycleOperationResult.Succeeded => "succeeded"
  | LifecycleOperationResult.Failed => "failed"
  end.

Record LifecycleOperationStage := mk_Stage {
  st_id : cstring;
  st_title : cstring;
  st_status : LifecycleOperationStatus.t;
  st_detail : cstring;
}.

Record LifecycleOperationSnapshot := mk_Snapshot {
  op_id : cstring;
  op_type : LifecycleOperationType.t;
  op_result : LifecycleOperationResult.t;
  op_started_at : Z;
  op_finished_at : option Z;
  op_error : cstring;
  op_stages : list LifecycleOperationStage;
}.

Definition set_status (s : LifecycleOperationStatus.t) (st : LifecycleOperationStage) :=
  mk_Stage (st_id st) (st_title st) s (st_detail st).
Definition set_status_detail (s : LifecycleOperationStatus.t) (d : cstring)
    (st : LifecycleOperationStage) := mk_Stage (st_id st) (st_title st) s d.
Definition with_stages (l : list LifecycleOperationStage) (op : LifecycleOperationSnapshot) :=
  mk_Snapshot (op_id op) (op_type op) (op_result op) (op_started_at op) (op_finished_at op)
    (op_error op) l.

(** Changes the first stage with the given id; [None] is the [break] on a
    status that does not allow the change. *)
Fixpoint change_stage (stage_id : cstring)
    (f : LifecycleOperationStage → option LifecycleOperationStage)
    (l : list LifecycleOperationStage) : option (list LifecycleOperationStage) :=
  match l with
  | [] => None
  | st :: l =>
      if bool_decide (st_id st = stage_id) then (λ st', st' :: l) <$> f st
      else cons st <$> change_stage stage_id f l
  end.

(** A [std::function] is a value of [Callback]; [publish] returns the callback
    that it invokes, if one is set. *)
Section lifecycle.
Context {Callback : Type}.

Record LifecycleOperationStore := mk_Store {
  snapshot_ : option LifecycleOperationSnapshot;
  publish_callback_ : option Callback;
}.

Definition publish (s : LifecycleOperationSnapshot) (st : LifecycleOperationStore) :
    option Callback * LifecycleOperationStore :=
  (publish_callback_ st, mk_Store (Some s) (publish_callback_ st)).
Definition set_publish_callback (c : option Callback) (st : LifecycleOperationStore) :
    LifecycleOperationStore := mk_Store (snapshot_ st) c.

(** The coordinator with the store it refers to. *)
Record LifecycleOperationCoordinator := mk_Lifecycle {
  store_ : LifecycleOperationStore;
  active_ : option LifecycleOperationSnapshot;
  sequence_ : Z;
}.

Definition lifecycle_id (n : Z) : cstring := "lifecycle-" ++ to_string n.

(** Returns the id of the active operation when it refuses; [created] is the
    out-parameter. *)
Definition begin (type : LifecycleOperationType.t) (stages : list LifecycleOperationStage)
    (now : Z) (created : LifecycleOperationSnapshot) (c : LifecycleOperationCoordinator) :
    (option cstring * LifecycleOperationSnapshot) * LifecycleOperationCoordinator :=
  match active_ c with
  | Some op => ((Some (op_id op), created), c)
  | None =>
      let sequence := u64 (sequence_ c + 1) in
      let created := mk_Snapshot (lifecycle_id sequence) type LifecycleOperationResult.Running
                       now None [] stages in
      ((None, created), mk_Lifecycle (publish created (store_ c)).2 (Some created) sequence)
  end.

Definition mutate (id : cstring)
    (mutation : LifecycleOperationSnapshot → LifecycleOperationSnapshot)
    (c : LifecycleOperationCoordinator) : LifecycleOperationCoordinator :=
  match active_ c with
  | None => c
  | Some op =>
      if negb (bool_decide (op_id op = id)) then c
      else let op' := mutation op in
           mk_Lifecycle (publish op' (store_ c)).2 (Some op') (sequence_ c)
  end.

(** A mutation that changes one stage, or nothing. *)
Definition on_stage (stage_id : cstring)
    (f : LifecycleOperationStage → option LifecycleOperationStage)
    (op : LifecycleOperationSnapshot) : LifecycleOperationSnapshot :=
  match change_stage stage_id f (op_stages op) with
  | Some l => with_stages l op
  | None => op
  end.

Definition start_stage (id stage_id : cstring) : LifecycleOperationCoordinator →
    LifecycleOperationCoordinator :=
  mutate id (on_stage stage_id (λ st,
    if bool_decide (st_status st = LifecycleOperationStatus.Pending)
    then Some (set_status LifecycleOperationStatus.Running st) else None)).

Definition succeed_stage (id stage_id detail : cstring) : LifecycleOperationCoordinator →
    LifecycleOperationCoordinator :=
  mutate id (on_stage stage_id (λ st,
    if negb (bool_decide (st_status st = LifecycleOperationStatus.Running)) then None
    else Some (set_status_detail LifecycleOperationStatus.Succeeded detail st))).

Definition skip_pending (st : LifecycleOperationStage) : LifecycleOperationStage :=
  if bool_decide (st_status st = LifecycleOperationStatus.Pending)
  then set_status LifecycleOperationStatus.Skipped st else st.

Definition fail_mutation (stage_id detail : cstring) (op : LifecycleOperationSnapshot) :
    LifecycleOperationSnapshot :=
  match change_stage stage_id (λ st,
          if negb (bool_decide (st_status st = LifecycleOperationStatus.Pending)) &&
             negb (bool_decide (st_status st = LifecycleOperationStatus.Running)) then None
          else Some (set_status_detail LifecycleOperationStatus.Failed detail st))
          (op_stages op) with
  | None => op
  | Some l => mk_Snapshot (op_id op) (op_type op) (op_result op) (op_started_at op)
                (op_finished_at op) detail (skip_pending <$> l)
  end.

Definition fail_stage (id stage_id detail : cstring) : LifecycleOperationCoordinator →
    LifecycleOperationCoordinator := mutate id (fail_mutation stage_id detail).

Definition skip_stage (id stage_id detail : cstring) : LifecycleOperationCoordinator →
    LifecycleOperationCoordinator :=
  mutate id (on_stage stage_id (λ st,
    if negb (bool_decide (st_status st = LifecycleOperationStatus.Pending)) then None
    else Some (set_status_detail LifecycleOperationStatus.Skipped detail st))).

Definition finish_mutation (error : cstring) (now : Z) (op : LifecycleOperationSnapshot) :
    LifecycleOperationSnapshot :=
  let e := if bool_decide (error = []) then op_error op else error in
  let failed := negb (bool_decide (e = [])) in
  mk_Snapshot (op_id op) (op_type op)
    (if failed then LifecycleOperationResult.Failed else LifecycleOperationResult.Succeeded)
    (op_started_at op) (Some now) e
    (if failed then skip_pending <$> op_stages op else op_stages op).

(** The second critical section of [finish]. *)
Definition reset_active (id : cstring) (c : LifecycleOperationCoordinator) :
    LifecycleOperationCoordinator :=
  match active_ c with
  | Some op => if bool_decide (op_id op = id) then mk_Lifecycle (store_ c) None (sequence_ c) else c
  | None => c
  end.

Definition finish (id error : cstring) (now : Z) (c : LifecycleOperationCoordinator) :
    LifecycleOperationCoordinator :=
  reset_active id (mutate id (finish_mutation error now) c).
End lifecycle.
Arguments LifecycleOperationStore : clear implicits.
Arguments LifecycleOperationCoordinator : clear implicits.

(** ** Conntrack (conntrack_manager.cpp) *)

Record ConntrackPolicy := mk_ConntrackPolicy { bypass_established_or_dnat : bool }.
#[export] Instance ConntrackPolicy_eq_dec : EqDecision ConntrackPolicy.
Proof. solve_decision. Defined.

Record CommandResult := { exit_code : Z; command_output : cstring }.

Record ConntrackManager := mk_ConntrackManager { active_policy_ : ConntrackPolicy }.

Definition conntrack_reconcile (desired : ConntrackPolicy) (m : ConntrackManager) :
    bool * ConntrackManager :=
  if bool_decide (active_policy_ m = desired) then (false, m)
  else (true, mk_ConntrackManager desired).

Definition restore_original_mark (nfmark ctmark owned_mask : Z) : Z :=
  Z.lor (Z.land nfmark (not32 owned_mask)) (Z.land ctmark owned_mask).
Definition save_selected_mark (ctmark nfmark owned_mask : Z) : Z :=
  Z.lor (Z.land ctmark (not32 owned_mask)) (Z.land nfmark owned_mask).

(** The command runner is the world the manager acts on. *)
Section conntrack.
Context {W : Type} (runner_ : list cstring → stexc W CommandResult).

Definition delete_family (selector family : cstring) : stexc W bool :=
  result ← runner_ [str "conntrack"; str "-D"; str "-f"; family; str "--mark"; selector];
  mret (if exit_code result =? 0 then true
        else (exit_code result =? 1) &&
             contains_str "0 flow entries have been deleted" (command_output result)).

Definition delete_mark (mark owned_mask : Z) : stexc W bool :=
  let selector := to_string mark ++ "/" ++ to_string owned_mask in
  ipv4 ← delete_family selector "ipv4";
  ipv6 ← delete_family selector "ipv6";
  mret (ipv4 && ipv6).
End conntrack.

(** ** Resolver metadata (resolver_coordinator.cpp) *)

Record ResolverMetadata := mk_ResolverMetadata {
  expected_config_hash : cstring;
  actual_config_hash : cstring;
}.

Definition resolver_reconcile (expected : cstring) (m : ResolverMetadata) :
    bool * ResolverMetadata :=
  if bool_decide (expected_config_hash m = expected) then (false, m)
  else (true, mk_ResolverMetadata expected (actual_config_hash m)).
Definition observe_actual (actual : cstring) (m : ResolverMetadata) : ResolverMetadata :=
  mk_ResolverMetadata (expected_config_hash m) actual.
Definition clear_actual (m : ResolverMetadata) : ResolverMetadata :=
  mk_ResolverMetadata (expected_config_hash m) [].

(** ** The generic reconciler (runtime_reconciler.cpp) *)

Module RuntimeComponent.
Inductive t := routing | firewall | resolver | conntrack.
End RuntimeComponent.

Record RoutingDesiredState := mk_RoutingDesired { rd_rules : list cstring; rd_routes : list cstring }.
Record FirewallObjects := mk_FirewallObjects {
  fo_chains : list cstring; fo_rules : list cstring; fo_sets : list cstring }.
Record RuntimeActualState := mk_RuntimeActual {
  ra_routing : RoutingDesiredState;
  ra_firewall : FirewallObjects;
  ra_resolver : cstring;
  ra_conntrack : cstring;
}.
(** [RuntimeDesiredState] has the same fields. *)
Abbreviation RuntimeDesiredState := RuntimeActualState.

Definition empty_RuntimeActual : RuntimeActualState :=
  mk_RuntimeActual (mk_RoutingDesired [] []) (mk_FirewallObjects [] [] []) [] [].

Definition merge_component (destination source : RuntimeActualState) (c : RuntimeComponent.t) :
    RuntimeActualState :=
  match c with
  | RuntimeComponent.routing => mk_RuntimeActual (ra_routing source) (ra_firewall destination)
      (ra_resolver destination) (ra_conntrack destination)
  | RuntimeComponent.firewall => mk_RuntimeActual (ra_routing destination) (ra_firewall source)
      (ra_resolver destination) (ra_conntrack destination)
  | RuntimeComponent.resolver => mk_RuntimeActual (ra_routing destination)
      (ra_firewall destination) (ra_resolver source) (ra_conntrack destination)
  | RuntimeComponent.conntrack => mk_RuntimeActual (ra_routing destination)
      (ra_firewall destination) (ra_resolver destination) (ra_conntrack source)
  end.

(** A virtual interface: what a subsystem does to the world [W]. *)
Record RuntimeSubsystem (W : Type) := {
  component : RuntimeComponent.t;
  inspect : stexc W RuntimeActualState;
  plan_ops : RuntimeDesiredState → RuntimeActualState → stexc W (list (stexc W unit));
  verify : RuntimeDesiredState → RuntimeActualState → stexc W (bool * cstring);
}.
Arguments component {_}. Arguments inspect {_}. Arguments plan_ops {_}. Arguments verify {_}.

Record RuntimeReconcileResult := mk_RuntimeResult {
  committed : bool;
  drift_detected : bool;
  reconcile_error : cstring;
  operation_count : nat;
}.

Section reconciler.
Context {W : Type} (desired : RuntimeDesiredState).

(** The planning loop, with the operations gathered so far. *)
Fixpoint plan_loop (subsystems : list (RuntimeSubsystem W)) (attempt_plan : list (stexc W unit))
    (w : W) : (exc unit * list (stexc W unit)) * W :=
  match subsystems with
  | [] => ((Ok tt, attempt_plan), w)
  | s :: subsystems =>
      match (actual ← inspect s; plan_ops s desired actual) w with
      | (Ok ops, w) => plan_loop subsystems (attempt_plan ++ ops) w
      | (Throw e, w) => ((Throw e, attempt_plan), w)
      | (Undefined, w) => ((Undefined, attempt_plan), w)
      end
  end.

(** [Some error] is the return on drift. *)
Fixpoint verify_loop (subsystems : list (RuntimeSubsystem W)) : stexc W (option cstring) :=
  match subsystems with
  | [] => mret None
  | s :: subsystems =>
      actual ← inspect s;
      r ← verify s desired actual;
      if negb r.1 then
        mret (Some (if bool_decide (r.2 = []) then str "runtime state drift detected" else r.2))
      else verify_loop subsystems
  end.

Definition reconcile_body (subsystems : list (RuntimeSubsystem W)) (commit : option (stexc W unit))
    (attempt_plan : list (stexc W unit)) : stexc W (option cstring) :=
  for_each (λ operation, operation) attempt_plan;;
  drift ← verify_loop subsystems;
  match drift with
  | Some e => mret (Some e)
  | None => match commit with Some c => c | None => mret tt end;; mret None
  end.

Definition reconcile_runtime (subsystems : list (RuntimeSubsystem W))
    (commit : option (stexc W unit)) : stexc W RuntimeReconcileResult := λ w,
  let '((planned, attempt_plan), w) := plan_loop subsystems [] w in
  let '(r, w) := match planned with
    | Ok _ => reconcile_body subsystems commit attempt_plan w
    | Throw e => (Throw e, w)
    | Undefined => (Undefined, w)
    end in
  let n := length attempt_plan in
  match r with
  | Ok None => (Ok (mk_RuntimeResult true false [] n), w)
  | Ok (Some e) => (Ok (mk_RuntimeResult false true e n), w)
  | Throw e => (Ok (mk_RuntimeResult false false
      (match what e with Some m => m | None => str "unknown runtime reconciliation error" end) n), w)
  | Undefined => (Undefined, w)
  end.

Fixpoint inspect_loop (subsystems : list (RuntimeSubsystem W)) (result : RuntimeActualState) :
    stexc W RuntimeActualState :=
  match subsystems with
  | [] => mret result
  | s :: subsystems =>
      actual ← inspect s;
      inspect_loop subsystems (merge_component result actual (component s))
  end.
Definition inspect_runtime (subsystems : list (RuntimeSubsystem W)) : stexc W RuntimeActualState :=
  inspect_loop subsystems empty_RuntimeActual.
End reconciler.

(** ** The state machine: recovery passes through an apply *)

(** The states a sequence of calls visits; a refused call leaves the state. *)
Inductive visits : RuntimeState.t → list RuntimeState.t → RuntimeState.t → Prop :=
  | visits_nil s : visits s [] s
  | visits_cons s next l s' :
      visits ((transition next [] [] (mk_RuntimeStateMachine s [])).2.(state_)) l s' →
      visits s (next :: l) s'.

Lemma transition_state next reason error m :
  state_ (transition next reason error m).2 =
  if runtime_allowed (state_ m) next then next else state_ m.
Proof. unfold transition. by destruct (runtime_allowed _ _). Qed.

(** A broken runtime only becomes running again through applying or through a
    fresh start. *)
Lemma broken_recovers_through_apply_aux s l s' :
  visits s l s' → (s = RuntimeState.broken ∨ s = RuntimeState.stopped ∨
                   s = RuntimeState.shutting_down) → s' = RuntimeState.running →
  RuntimeState.applying ∈ l ∨ RuntimeState.starting ∈ l.
Proof.
  induction 1 as [s|s next l s' Hv IH]; intros Hs Hr.
  - destruct Hs as [->|[->| ->]]; congruence.
  - rewrite transition_state in IH, Hv. cbn [state_] in *.
    destruct (runtime_allowed s next) eqn:E; [|destruct (IH Hs Hr); set_solver].
    destruct next; try (destruct Hs as [->|[->| ->]]; done); try set_solver.
    all: destruct (IH ltac:(auto) Hr); set_solver.
Qed.

(** A refused transition changes nothing and names the two states, and
    whatever calls are made, a runtime that is broken, stopped or shutting down
    is running again only after it was applying or starting in between. *)
Theorem broken_recovers_through_apply s l s' next reason error m :
  (s = RuntimeState.broken ∨ s = RuntimeState.stopped ∨ s = RuntimeState.shutting_down) →
  visits s l s' → s' = RuntimeState.running →
  (RuntimeState.applying ∈ l ∨ RuntimeState.starting ∈ l) ∧
  ((transition next reason error m).1.1 = false → (transition next reason error m).2 = m).
Proof.
  intros Hs Hv Hr. split; [by eapply broken_recovers_through_apply_aux|].
  unfold transition. by destruct (runtime_allowed _ _).
Qed.

(** ** Lifecycle operations are serialised *)

Lemma to_string_inj a b : 0 ≤ a → 0 ≤ b → to_string a = to_string b → a = b.
Proof.
  intros Ha Hb H. pose proof (to_string_spec a Ha) as Sa. pose proof (to_string_spec b Hb) as Sb.
  rewrite H in Sa. destruct_and?. lia.
Qed.

Lemma lifecycle_id_inj a b : 0 ≤ a → 0 ≤ b → lifecycle_id a = lifecycle_id b → a = b.
Proof. intros Ha Hb H%app_inv_head. by apply to_string_inj. Qed.

(** What one call may do to a stage. *)
Inductive legal_change : LifecycleOperationStatus.t → LifecycleOperationStatus.t → Prop :=
  | change_start : legal_change LifecycleOperationStatus.Pending LifecycleOperationStatus.Running
  | change_skip : legal_change LifecycleOperationStatus.Pending LifecycleOperationStatus.Skipped
  | change_fail_pending :
      legal_change LifecycleOperationStatus.Pending LifecycleOperationStatus.Failed
  | change_fail : legal_change LifecycleOperationStatus.Running LifecycleOperationStatus.Failed
  | change_succeed :
      legal_change LifecycleOperationStatus.Running LifecycleOperationStatus.Succeeded.

Definition stage_step (a b : LifecycleOperationStage) : Prop :=
  a = b ∨ (st_id a = st_id b ∧ st_title a = st_title b ∧ legal_change (st_status a) (st_status b)).

Lemma stage_step_refl a : stage_step a a.
Proof. by left. Qed.
#[local] Hint Resolve stage_step_refl : core.
#[local] Hint Constructors legal_change : core.

Lemma stages_step_refl l : Forall2 stage_step l l.
Proof. by apply Forall_Forall2_diag, Forall_true. Qed.
#[local] Hint Resolve stages_step_refl : core.

Lemma change_stage_step sid f l l' :
  (∀ st st', f st = Some st' → stage_step st st') →
  change_stage sid f l = Some l' → Forall2 stage_step l l'.
Proof.
  intros Hf. revert l'. induction l as [|st l IH]; intros l'; cbn; [done|].
  case_bool_decide; intros (x & Hx & ->)%fmap_Some; constructor; auto.
Qed.

Lemma skip_pending_step st : stage_step st (skip_pending st).
Proof.
  unfold skip_pending. case_bool_decide as E; [|done]. right. cbn. rewrite E. auto.
Qed.

(** A stage that failed is not skipped afterwards, so the two loops of
    [fail_stage] are one step for every stage. *)
Lemma fail_stage_step sid detail l l' :
  change_stage sid (λ st,
    if negb (bool_decide (st_status st = LifecycleOperationStatus.Pending)) &&
       negb (bool_decide (st_status st = LifecycleOperationStatus.Running)) then None
    else Some (set_status_detail LifecycleOperationStatus.Failed detail st)) l = Some l' →
  Forall2 stage_step l (skip_pending <$> l').
Proof.
  revert l'. induction l as [|st l IH]; intros l'; cbn; [done|].
  case_bool_decide; intros (x & Hx & ->)%fmap_Some; cbn; constructor.
  - destruct (st_status st) eqn:E; try done; injection Hx as <-; right;
      change (skip_pending (set_status_detail _ _ _)) with
        (set_status_detail LifecycleOperationStatus.Failed detail st); cbn; rewrite E; auto.
  - apply Forall2_fmap_r, Forall_Forall2_diag, Forall_true, skip_pending_step.
  - apply skip_pending_step.
  - by apply IH.
Qed.

Section lifecycle_steps.
Context {Callback : Type}.
Abbreviation coordinator := (LifecycleOperationCoordinator Callback).

(** The coordinator, with the calls of [finish] that are between their two
    critical sections. *)
Record lifecycle_system := mk_system { coord : coordinator; finishing : list cstring }.

Definition issued (id : cstring) (c : coordinator) : Prop :=
  ∃ n, 1 ≤ n ≤ sequence_ c ∧ id = lifecycle_id n.

(** Any thread may make any call at any time; an operation is finished by a
    thread that holds an id issued to it. *)
Inductive lifecycle_step : lifecycle_system → lifecycle_system → Prop :=
  | step_begin ty stages now created c l :
      lifecycle_step (mk_system c l) (mk_system (begin ty stages now created c).2 l)
  | step_start id sid c l :
      lifecycle_step (mk_system c l) (mk_system (start_stage id sid c) l)
  | step_succeed id sid d c l :
      lifecycle_step (mk_system c l) (mk_system (succeed_stage id sid d c) l)
  | step_fail id sid d c l :
      lifecycle_step (mk_system c l) (mk_system (fail_stage id sid d c) l)
  | step_skip id sid d c l :
      lifecycle_step (mk_system c l) (mk_system (skip_stage id sid d c) l)
  | step_finish id error now c l :
      issued id c →
      lifecycle_step (mk_system c l) (mk_system (mutate id (finish_mutation error now) c) (id :: l))
  | step_reset id c l1 l2 :
      lifecycle_step (mk_system c (l1 ++ id :: l2)) (mk_system (reset_active id c) (l1 ++ l2)).

Inductive lifecycle_reach : nat → lifecycle_system → Prop :=
  | reach_init cb :
      lifecycle_reach 0 (mk_system (mk_Lifecycle (mk_Store None cb) None 0) [])
  | reach_step n s s' : lifecycle_reach n s → lifecycle_step s s' → lifecycle_reach (S n) s'.

(** What every mutation of an operation respects. *)
Definition op_step (op op' : LifecycleOperationSnapshot) : Prop :=
  op_id op' = op_id op ∧ Forall2 stage_step (op_stages op) (op_stages op') ∧
  (op_result op ≠ LifecycleOperationResult.Running →
   op_result op' ≠ LifecycleOperationResult.Running).

Lemma op_step_refl op : op_step op op.
Proof. done. Qed.

Lemma on_stage_op_step sid f op :
  (∀ st st', f st = Some st' → stage_step st st') → op_step op (on_stage sid f op).
Proof.
  intros Hf. unfold on_stage. destruct (change_stage _ _ _) eqn:E; [|apply op_step_refl].
  split; [done|]. split; [|done]. cbn. by eapply change_stage_step.
Qed.

Lemma fail_op_step sid d op : op_step op (fail_mutation sid d op).
Proof.
  unfold fail_mutation. destruct (change_stage _ _ _) eqn:E; [|apply op_step_refl].
  split; [done|]. split; [|done]. by eapply fail_stage_step.
Qed.

Lemma finish_op_step e now op :
  op_step op (finish_mutation e now op) ∧
  op_result (finish_mutation e now op) ≠ LifecycleOperationResult.Running.
Proof.
  unfold finish_mutation. cbn.
  assert (Forall2 stage_step (op_stages op) (skip_pending <$> op_stages op)) as Hs
    by apply Forall2_fmap_r, Forall_Forall2_diag, Forall_true, skip_pending_step.
  destruct (negb _); repeat split; cbn; auto.
Qed.

(** The invariant of the coordinator and its store: what is active is what is
    published, ids are the sequence numbers, and a call of [finish] that still
    has to reset has already recorded a result. *)
Record lifecycle_ok (s : lifecycle_system) : Prop := {
  ok_seq : 0 ≤ sequence_ (coord s);
  ok_active op : active_ (coord s) = Some op →
    snapshot_ (store_ (coord s)) = Some op;
  ok_published op : snapshot_ (store_ (coord s)) = Some op →
    1 ≤ sequence_ (coord s) ∧ op_id op = lifecycle_id (sequence_ (coord s)) ∧
    (active_ (coord s) = None → op_result op ≠ LifecycleOperationResult.Running);
  ok_finishing id : id ∈ finishing s → issued id (coord s) ∧
    ∀ op, active_ (coord s) = Some op → op_id op = id →
    op_result op ≠ LifecycleOperationResult.Running;
}.

Lemma mutate_ok id f c l :
  (∀ op, op_step op (f op)) → lifecycle_ok (mk_system c l) →
  lifecycle_ok (mk_system (mutate id f c) l).
Proof.
  intros Hf [Hs Ha Hp Hfin]. unfold mutate. cbn in *.
  destruct (active_ c) as [op|] eqn:E; [|by constructor; cbn; rewrite ?E].
  case_bool_decide as Hid; cbn; [|by constructor; cbn; rewrite ?E].
  destruct (Hf op) as (Hi & Hst & Hr). destruct (Hp op (Ha op eq_refl)) as (H1 & H2 & _).
  constructor; cbn; [done|naive_solver|naive_solver congruence|].
  intros id' [Hiss Hres]%Hfin. split; [done|]. intros op' [= <-] <-. naive_solver.
Qed.

Lemma stage_calls_op_step sid d op :
  op_step op (on_stage sid (λ st,
    if bool_decide (st_status st = LifecycleOperationStatus.Pending)
    then Some (set_status LifecycleOperationStatus.Running st) else None) op) ∧
  op_step op (on_stage sid (λ st,
    if negb (bool_decide (st_status st = LifecycleOperationStatus.Running)) then None
    else Some (set_status_detail LifecycleOperationStatus.Succeeded d st)) op) ∧
  op_step op (on_stage sid (λ st,
    if negb (bool_decide (st_status st = LifecycleOperationStatus.Pending)) then None
    else Some (set_status_detail LifecycleOperationStatus.Skipped d st)) op).
Proof.
  split_and!; apply on_stage_op_step; intros st st' Hs; destruct (st_status st) eqn:E;
    simplify_eq/=; right; cbn; rewrite E; auto.
Qed.
Lemma begin_ok ty stages now created c l :
  sequence_ c + 1 < 2 ^ 64 → lifecycle_ok (mk_system c l) →
  lifecycle_ok (mk_system (begin ty stages now created c).2 l).
Proof.
  intros Hlt [Hs Ha Hp Hfin]. unfold begin. cbn in *.
  destruct (active_ c) as [op|] eqn:E; [by constructor; cbn; rewrite ?E|].
  rewrite wrap_small by lia. constructor; cbn; [lia|naive_solver| |].
  - intros op [= <-]. split; [lia|done].
  - intros id Hid. destruct (Hfin id Hid) as [(n & Hn & ->) _]. split.
    + exists n. cbn. split; [lia|done].
    + intros op [= <-] Heq. cbn in Heq. apply lifecycle_id_inj in Heq; lia.
Qed.

Lemma finish_step_ok id e now c l :
  issued id c → lifecycle_ok (mk_system c l) →
  lifecycle_ok (mk_system (mutate id (finish_mutation e now) c) (id :: l)).
Proof.
  intros Hiss Hok.
  destruct (mutate_ok id (finish_mutation e now) c l) as [Hs Ha Hp Hfin];
    [intros op; apply finish_op_step|done|]. cbn in *.
  constructor; cbn; [done..|]. intros id' [->|Hid]%elem_of_cons; [|auto].
  unfold mutate in *. destruct (active_ c) as [op|] eqn:E; [|split; [done|congruence]].
  case_bool_decide as Hid; cbn; [|split; [done|congruence]].
  split; [done|]. intros op' [= <-] _. apply finish_op_step.
Qed.

Lemma reset_ok id c l1 l2 :
  lifecycle_ok (mk_system c (l1 ++ id :: l2)) →
  lifecycle_ok (mk_system (reset_active id c) (l1 ++ l2)).
Proof.
  intros [Hs Ha Hp Hfin]. cbn in *.
  assert (Hsub : ∀ x, x ∈ l1 ++ l2 → x ∈ l1 ++ id :: l2) by set_solver.
  unfold reset_active. destruct (active_ c) as [op|] eqn:E.
  - case_bool_decide as Hid; constructor; cbn; rewrite ?E; auto; [naive_solver| |].
    + intros op' Hop. destruct (Hp op' Hop) as (? & ? & _). split_and!; [done..|]. intros _.
      rewrite (Ha op eq_refl) in Hop. simplify_eq. eapply (Hfin (op_id op')); [set_solver|done..].
    + intros id' Hid'. split; [|done]. by apply Hfin, Hsub.
  - constructor; cbn; rewrite ?E; auto.
Qed.

Lemma lifecycle_reach_ok n s :
  lifecycle_reach n s → Z.of_nat n < 2 ^ 64 →
  lifecycle_ok s ∧ sequence_ (coord s) ≤ Z.of_nat n.
Proof.
  induction 1 as [cb|n s s' _ IH Hstep]; intros Hn.
  { split; [|done]. constructor; cbn; [done|done|done|]. intros id Hid. set_solver. }
  destruct IH as [IH Hle]; [lia|].
  destruct Hstep; cbn in *.
  - split; [apply begin_ok; [lia|done]|]. unfold begin. destruct (active_ c); cbn; [lia|].
    pose proof (ok_seq _ IH). cbn in *. rewrite wrap_small by lia. lia.
  - split; [apply mutate_ok; [|done]; intros op; apply (stage_calls_op_step sid [])|].
    unfold start_stage, mutate. repeat (case_match; cbn; try lia).
  - split; [apply mutate_ok; [|done]; intros op; apply (stage_calls_op_step sid d)|].
    unfold succeed_stage, mutate. repeat (case_match; cbn; try lia).
  - split; [apply mutate_ok; [|done]; intros op; apply fail_op_step|].
    unfold fail_stage, mutate. repeat (case_match; cbn; try lia).
  - split; [apply mutate_ok; [|done]; intros op; apply (stage_calls_op_step sid d)|].
    unfold skip_stage, mutate. repeat (case_match; cbn; try lia).
  - split; [by apply finish_step_ok|]. unfold mutate. repeat (case_match; cbn; try lia).
  - split; [by apply reset_ok|]. unfold reset_active. repeat (case_match; cbn; try lia).
Qed.

Lemma mutate_published id f c op op' :
  lifecycle_ok (mk_system c []) → (∀ op, op_step op (f op)) →
  snapshot_ (store_ c) = Some op → snapshot_ (store_ (mutate id f c)) = Some op' → op_step op op'.
Proof.
  intros Hok Hf H H'. unfold mutate in H'. destruct (active_ c) as [a|] eqn:E.
  - assert (a = op) as ->.
    { pose proof (ok_active _ Hok a E) as Ha. cbn in Ha. congruence. }
    case_bool_decide; cbn in H'; simplify_eq; [apply Hf|apply op_step_refl].
  - simplify_eq. apply op_step_refl.
Qed.

(** Lifecycle operations are serialised and their stages only make legal
    moves, in every interleaving of calls (of [finish] too, whose two critical
    sections others may separate): the active operation is the one that is
    published; a step either moves the published operation on by legal stage
    changes, never back from a recorded result, or replaces it, and it replaces
    it only when its result is recorded, by a running operation with the next
    number. *)
Theorem lifecycle_serialised n s s' op op' :
  lifecycle_reach n s → Z.of_nat (S n) < 2 ^ 64 → lifecycle_step s s' →
  snapshot_ (store_ (coord s)) = Some op → snapshot_ (store_ (coord s')) = Some op' →
  (∀ a, active_ (coord s) = Some a → a = op) ∧
  (op_step op op' ∨
   (op_result op ≠ LifecycleOperationResult.Running ∧
    op_result op' = LifecycleOperationResult.Running ∧
    op_id op = lifecycle_id (sequence_ (coord s)) ∧
    op_id op' = lifecycle_id (sequence_ (coord s) + 1))).
Proof.
  intros Hr Hn Hstep Hop Hop'. destruct (lifecycle_reach_ok n s Hr ltac:(lia)) as [Hok Hle].
  pose proof (ok_published _ Hok op Hop) as (H1 & Hid & Hres).
  split; [intros a Ha; pose proof (ok_active _ Hok a Ha); congruence|].
  assert (Hok0 : lifecycle_ok (mk_system (coord s) [])).
  { destruct Hok as [? ? ? _]. constructor; cbn; auto. intros id Hin. set_solver. }
  destruct Hstep; cbn in *.
  1: { unfold begin in Hop'. destruct (active_ c) as [a|] eqn:E; cbn in *.
       - left. simplify_eq. apply op_step_refl.
       - right. simplify_eq. cbn. rewrite wrap_small by lia. auto. }
  1-5: left; eapply mutate_published; [done| |done|exact Hop']; intros o;
    first [apply (stage_calls_op_step sid []) | apply (stage_calls_op_step sid d)
          | apply fail_op_step | apply finish_op_step].
  left. unfold reset_active in Hop'. repeat (case_match; cbn in *; simplify_eq);
    apply op_step_refl.
Qed.
End lifecycle_steps.

(** ** Conntrack marks *)

Lemma not32_testbit x i : 0 ≤ x < 2 ^ 32 → 0 ≤ i < 32 →
  Z.testbit (not32 x) i = negb (Z.testbit x i).
Proof.
  intros Hx Hi. unfold not32, UINT32_MAX.
  assert (E : 4294967295 - x = Z.land (Z.lnot x) (Z.ones 32)).
  { rewrite Z.land_ones by lia. unfold Z.lnot. change (2 ^ 32) with 4294967296 in *. zlia. }
  rewrite E, Z.land_spec, Z.lnot_spec, Z.ones_spec_low by lia. by rewrite andb_true_r.
Qed.

(** Saving a mark in a connection and restoring it on a later packet gives
    the packet exactly the bits of the owned mask that were selected, leaves
    the foreign bits of the packet and of the connection as they were, and
    stays within 32 bits. *)
Theorem mark_save_restore nfmark ctmark later mask i :
  0 ≤ nfmark < 2 ^ 32 → 0 ≤ ctmark < 2 ^ 32 → 0 ≤ later < 2 ^ 32 → 0 ≤ mask < 2 ^ 32 →
  0 ≤ i < 32 →
  let saved := save_selected_mark ctmark nfmark mask in
  let restored := restore_original_mark later saved mask in
  Z.testbit restored i = (if Z.testbit mask i then Z.testbit nfmark i else Z.testbit later i) ∧
  Z.testbit saved i = (if Z.testbit mask i then Z.testbit nfmark i else Z.testbit ctmark i).
Proof.
  intros Hn Hc Hl Hm Hi saved restored. unfold restored, saved, restore_original_mark,
    save_selected_mark.
  rewrite !Z.lor_spec, !Z.land_spec, !Z.lor_spec, !Z.land_spec, !not32_testbit by lia.
  by destruct (Z.testbit mask i), (Z.testbit nfmark i), (Z.testbit later i),
    (Z.testbit ctmark i).
Qed.

(** ** The generic reconciler commits verified states only *)

Section reconciler_facts.
Context {W : Type} (desired : RuntimeDesiredState) (subs : list (RuntimeSubsystem W)).
(** Inspection and verification read the world; [good] is what a subsystem's
    verification establishes. *)
Context (view : RuntimeSubsystem W → W → RuntimeActualState).
Context (good : RuntimeSubsystem W → RuntimeActualState → Prop).
Context (inspect_reads : ∀ s w, s ∈ subs → inspect s w = (Ok (view s w), w)).
Context (verify_reads : ∀ s a w, s ∈ subs → (verify s desired a w).2 = w).
Context (verify_sound : ∀ s a w e, s ∈ subs →
  (verify s desired a w).1 = Ok (true, e) → good s a).

Lemma verify_loop_sound l w w' :
  (∀ s, s ∈ l → s ∈ subs) → verify_loop desired l w = (Ok None, w') →
  w' = w ∧ ∀ s, s ∈ l → good s (view s w).
Proof.
  induction l as [|s l IH]; cbn; intros Hl; [intros [= <-]; set_solver|].
  unfold mbind, stexc_bind. rewrite inspect_reads by set_solver.
  pose proof (verify_reads s (view s w) w ltac:(set_solver)) as Hr.
  pose proof (verify_sound s (view s w) w) as Hv.
  destruct (verify s desired (view s w) w) as [[[[] e]|e|] w1]; cbn in *; simplify_eq; try done.
  intros [-> Hg]%IH; [|set_solver]. split; [done|].
  intros s' [->|Hs]%elem_of_cons; [eapply Hv; [set_solver|done]|auto].
Qed.

(** The generic reconciler never lets an exception out, and when it reports
    a commit, the commit ran in a world whose every subsystem verified: the
    world it leaves is the result of the commit alone. *)
Theorem reconcile_commits_verified commit w r w' :
  reconcile_runtime desired subs commit w = (r, w') →
  (∀ e, r ≠ Throw e) ∧
  ∀ result, r = Ok result → committed result = true →
  ∃ w1, (∀ s, s ∈ subs → good s (view s w1)) ∧ drift_detected result = false ∧
    match commit with Some c => c w1 = (Ok tt, w') | None => w' = w1 end.
Proof.
  unfold reconcile_runtime.
  destruct (plan_loop desired subs [] w) as [[planned plan] w0].
  destruct planned as [[]|e|]; [|intros [= <- <-]; naive_solver..].
  unfold reconcile_body, mbind, stexc_bind.
  destruct (for_each _ plan w0) as [[[]|e|] w1]; [|intros [= <- <-]; naive_solver..].
  destruct (verify_loop desired subs w1) as [[[e|]|e|] w2] eqn:Ev;
    [intros [= <- <-]; naive_solver| |intros [= <- <-]; naive_solver..].
  apply verify_loop_sound in Ev as [-> Hg]; [|done].
  destruct commit as [c|]; cbn.
  - destruct (c w1) as [[[]|e|] w3] eqn:Ec; intros [= <- <-]; naive_solver.
  - intros [= <- <-]. naive_solver.
Qed.
End reconciler_facts.

(** ** Witnesses *)

Definition example_stages : list LifecycleOperationStage :=
  [mk_Stage "validate" "Validate" LifecycleOperationStatus.Pending [];
   mk_Stage "apply" "Apply" LifecycleOperationStatus.Pending []].
Definition example_op : LifecycleOperationSnapshot :=
  mk_Snapshot [] LifecycleOperationType.Start LifecycleOperationResult.Running 0 None [] [].
Definition example_c0 : LifecycleOperationCoordinator unit :=
  mk_Lifecycle (mk_Store None (Some tt)) None 0.
Definition example_c1 := (begin LifecycleOperationType.Start example_stages 100 example_op example_c0).2.
Definition example_c2 := fail_stage "lifecycle-1" "validate" "bad value" example_c1.
Definition example_c3 := mutate "lifecycle-1" (finish_mutation [] 101) example_c2.
Definition example_c4 := reset_active "lifecycle-1" example_c3.
Definition example_c5 := (begin LifecycleOperationType.Stop example_stages 102 example_op example_c4).2.

Lemma example_reach : lifecycle_reach 4 (mk_system example_c4 []).
Proof.
  apply (reach_step 3 (mk_system example_c3 [str "lifecycle-1"])); [|exact (step_reset _ _ [] [])].
  apply (reach_step 2 (mk_system example_c2 [])).
  2: { apply step_finish. exists 1. split; [by vm_compute|reflexivity]. }
  apply (reach_step 1 (mk_system example_c1 [])); [|apply step_fail].
  apply (reach_step 0 (mk_system example_c0 [])); [apply reach_init|apply step_begin].
Qed.

Lemma lifecycle_serialised_witness :
  ∃ op op', snapshot_ (store_ example_c4) = Some op ∧ snapshot_ (store_ example_c5) = Some op' ∧
    op_result op = LifecycleOperationResult.Failed ∧
    (st_status <$> op_stages op) =
      [LifecycleOperationStatus.Failed; LifecycleOperationStatus.Skipped] ∧
    op_id op' = lifecycle_id 2.
Proof.
  destruct (snapshot_ (store_ example_c4)) as [op|] eqn:E; [|discriminate E].
  destruct (snapshot_ (store_ example_c5)) as [op'|] eqn:E'; [|discriminate E'].
  exists op, op'. split; [done|]. split; [done|].
  destruct (lifecycle_serialised 4 (mk_system example_c4 []) (mk_system example_c5 []) op op'
    example_reach ltac:(lia) (step_begin _ _ _ _ _ _) E E') as [_ [(Hid & _)|(_ & _ & _ & Hid)]].
  - vm_compute in E, E'. injection E as <-. injection E' as <-. discriminate Hid.
  - vm_compute in E. injection E as <-. split; [done|]. split; [done|]. exact Hid.
Defined.

Lemma mark_save_restore_witness :
  Z.testbit (restore_original_mark 0x7 (save_selected_mark 0xF0 0x20005 0xFF0000) 0xFF0000) 17
  = true ∧ Z.testbit (save_selected_mark 0xF0 0x20005 0xFF0000) 4 = true.
Proof.
  split.
  - apply (mark_save_restore 0x20005 0xF0 0x7 0xFF0000 17); lia.
  - apply (mark_save_restore 0x20005 0xF0 0x7 0xFF0000 4); lia.
Defined.

(** A stage may fail with an empty detail, and then the operation that failed is
    reported as succeeded. *)
Lemma empty_failure_succeeds :
  let c := finish "lifecycle-1" [] 101 (fail_stage "lifecycle-1" "apply" [] example_c1) in
  op_result <$> snapshot_ (store_ c) = Some LifecycleOperationResult.Succeeded ∧
  (fmap st_status ∘ op_stages) <$> snapshot_ (store_ c) =
    Some [LifecycleOperationStatus.Skipped; LifecycleOperationStatus.Failed].
Proof. split; vm_compute; reflexivity. Qed.
