(* ===== verification/Md5.v ===== *)
(** * MD5 (src/src/crypto/md5.hpp)

    The streaming digest of the resolver configuration, field for field, and
    its equivalence with the one-shot definition of RFC 1321: however the
    message is cut into updates, the digest is that of the whole message. *)

From S2P Require Import Prelude CppString.

Local Open Scope Z_scope.

(** ** The code *)

Record words := mk_words { wa : Z; wb : Z; wc : Z; wd : Z }.

Record MD5State := mk_MD5State {
  regs : words;
  count : Z;
  buf : list Z;
  buf_len : nat;
}.

Definition init_words : words := mk_words 0x67452301 0xefcdab89 0x98badcfe 0x10325476.
Definition init_MD5State : MD5State := mk_MD5State init_words 0 (replicate 64 0) 0.

Definition S_table : list Z :=
  [7;12;17;22; 7;12;17;22; 7;12;17;22; 7;12;17;22;
   5; 9;14;20; 5; 9;14;20; 5; 9;14;20; 5; 9;14;20;
   4;11;16;23; 4;11;16;23; 4;11;16;23; 4;11;16;23;
   6;10;15;21; 6;10;15;21; 6;10;15;21; 6;10;15;21].

Definition K_table : list Z :=
  [0xd76aa478; 0xe8c7b756; 0x242070db; 0xc1bdceee;
   0xf57c0faf; 0x4787c62a; 0xa8304613; 0xfd469501;
   0x698098d8; 0x8b44f7af; 0xffff5bb1; 0x895cd7be;
   0x6b901122; 0xfd987193; 0xa679438e; 0x49b40821;
   0xf61e2562; 0xc040b340; 0x265e5a51; 0xe9b6c7aa;
   0xd62f105d; 0x02441453; 0xd8a1e681; 0xe7d3fbc8;
   0x21e1cde6; 0xc33707d6; 0xf4d50d87; 0x455a14ed;
   0xa9e3e905; 0xfcefa3f8; 0x676f02d9; 0x8d2a4c8a;
   0xfffa3942; 0x8771f681; 0x6d9d6122; 0xfde5380c;
   0xa4beea44; 0x4bdecfa9; 0xf6bb4b60; 0xbebfbc70;
   0x289b7ec6; 0xeaa127fa; 0xd4ef3085; 0x04881d05;
   0xd9d4d039; 0xe6db99e5; 0x1fa27cf8; 0xc4ac5665;
   0xf4292244; 0x432aff97; 0xab9423a7; 0xfc93a039;
   0x655b59c3; 0x8f0ccc92; 0xffeff47d; 0x85845dd1;
   0x6fa87e4f; 0xfe2ce6e0; 0xa3014314; 0x4e0811a1;
   0xf7537e82; 0xbd3af235; 0x2ad7d2bb; 0xeb86d391].

Definition rotl (x n : Z) : Z := Z.lor (u32 (Z.shiftl x n)) (Z.shiftr x (32 - n)).

(** [M[i]], little-endian *)
Definition block_word (block : list Z) (i : nat) : Z :=
  let at_ (j : nat) := nth (i * 4 + j) block 0 in
  Z.lor (Z.lor (Z.lor (at_ 0%nat) (Z.shiftl (at_ 1%nat) 8)) (Z.shiftl (at_ 2%nat) 16))
    (Z.shiftl (at_ 3%nat) 24).

(** The body of the loop over the 64 rounds. *)
Definition round (block : list Z) (w : words) (i : nat) : words :=
  let '(mk_words aa bb cc dd) := w in
  let '(F, g) :=
    if (i <? 16)%nat then (Z.lor (Z.land bb cc) (Z.land (not32 bb) dd), i)
    else if (i <? 32)%nat then
      (Z.lor (Z.land dd bb) (Z.land (not32 dd) cc), ((5 * i + 1) mod 16)%nat)
    else if (i <? 48)%nat then (Z.lxor (Z.lxor bb cc) dd, ((3 * i + 5) mod 16)%nat)
    else (Z.lxor cc (Z.lor bb (not32 dd)), ((7 * i) mod 16)%nat) in
  let F := u32 (F + aa + nth i K_table 0 + block_word block g) in
  mk_words dd (u32 (bb + rotl F (nth i S_table 0))) bb cc.

Definition process_block (block : list Z) (w : words) : words :=
  let '(mk_words aa bb cc dd) := foldl (round block) w (seq 0 64) in
  mk_words (u32 (wa w + aa)) (u32 (wb w + bb)) (u32 (wc w + cc)) (u32 (wd w + dd)).

(** [std::memcpy(buf + offset, src, len)] *)
Definition memcpy (dst : list Z) (offset : nat) (src : list Z) : list Z :=
  take offset dst ++ src ++ drop (offset + length src) dst.

(** The loop of [update]; every turn consumes at least one byte. *)
Fixpoint update_loop (fuel : nat) (data : list Z) (s : MD5State) : MD5State :=
  match fuel, data with
  | O, _ | _, [] => s
  | S fuel, _ =>
      let space := (64 - buf_len s)%nat in
      let take_ := if (length data <? space)%nat then length data else space in
      let buf' := memcpy (buf s) (buf_len s) (take take_ data) in
      let len' := (buf_len s + take_)%nat in
      update_loop fuel (drop take_ data)
        (if (len' =? 64)%nat then mk_MD5State (process_block buf' (regs s)) (count s) buf' 0
         else mk_MD5State (regs s) (count s) buf' len')
  end.

Definition update (data : list Z) (s : MD5State) : MD5State :=
  update_loop (length data) data
    (mk_MD5State (regs s) (u64 (count s + u64 (Z.of_nat (length data) * 8))) (buf s) (buf_len s)).

(** [uint8_t(x >> (i * 8))] for [i] below [n] *)
Definition le_bytes (n : nat) (x : Z) : list Z :=
  (λ i, u8 (Z.shiftr x (Z.of_nat i * 8))) <$> seq 0 n.

Definition pad_block : list Z := 0x80 :: replicate 63 0.

Definition finalize (s : MD5State) : list Z :=
  let pad_len := if (buf_len s <? 56)%nat then (56 - buf_len s)%nat else (120 - buf_len s)%nat in
  let message_bits := count s in
  let s := update (take pad_len pad_block) s in
  let s := update (le_bytes 8 message_bits) s in
  le_bytes 4 (wa (regs s)) ++ le_bytes 4 (wb (regs s)) ++ le_bytes 4 (wc (regs s)) ++
  le_bytes 4 (wd (regs s)).

(** [digest] finalizes a copy, so it leaves the state as it is. *)
Definition digest (s : MD5State) : list Z := finalize s.

Definition digest_to_hex (d : list Z) : cstring :=
  b ← d; [hex_digit_char (Z.shiftr b 4); hex_digit_char (Z.land b 0xF)].

Definition bytes_of (s : cstring) : list Z := ord <$> s.

Definition md5_hex (data : cstring) : cstring :=
  digest_to_hex (digest (update (bytes_of data) init_MD5State)).

(** ** RFC 1321

    The message digest as sections 3.1 to 3.5 of RFC 1321 define it, without
    reference to the code. *)

Module RFC1321.

(** A word from its bytes, low-order byte first, and back *)
Fixpoint word_of (bytes : list Z) : Z :=
  match bytes with [] => 0 | b :: bytes => b + 256 * word_of bytes end.
Fixpoint bytes_of_word (n : nat) (x : Z) : list Z :=
  match n with O => [] | S n => x mod 256 :: bytes_of_word n (x / 256) end.

(** Steps 1 and 2: a one bit, zero bits up to 448 modulo 512, then the length
    in bits as 64 bits. *)
Definition padded (m : list Z) : list Z :=
  m ++ 0x80 :: replicate (Z.to_nat ((55 - Z.of_nat (length m)) mod 64)) 0 ++
  bytes_of_word 8 (Z.of_nat (length m) * 8 mod 2 ^ 64).

(** Step 3: the registers, whose bytes the RFC gives low-order first. *)
Definition initial : words :=
  mk_words (word_of [0x01; 0x23; 0x45; 0x67]) (word_of [0x89; 0xab; 0xcd; 0xef])
           (word_of [0xfe; 0xdc; 0xba; 0x98]) (word_of [0x76; 0x54; 0x32; 0x10]).

(** Step 4: [T i] is the integer part of 4294967296 times [abs(sin(i))], [i] in
    radians.  The sine is the beginning of its power series, as an exact
    fraction; after [3i/2 + 16] terms the rest of the alternating series is below
    [2^-60] for [i] up to 64. *)
Fixpoint series (n : nat) (k x : Z) : Z * Z :=
  match n with
  | O => (1, 1)
  | S n =>
      let '(p, q) := series n (k + 1) x in
      let d := 2 * k * (2 * k + 1) in
      (d * q - x * x * p, d * q)
  end.
Definition T (i : Z) : Z := let '(p, q) := series (Z.to_nat (3 * i / 2 + 16)) 1 i in 2 ^ 32 * Z.abs (i * p) / q.

Definition complement (x : Z) : Z := 2 ^ 32 - 1 - x.
Definition F (x y z : Z) : Z := Z.lor (Z.land x y) (Z.land (complement x) z).
Definition G (x y z : Z) : Z := Z.lor (Z.land x z) (Z.land y (complement z)).
Definition H (x y z : Z) : Z := Z.lxor (Z.lxor x y) z.
Definition I (x y z : Z) : Z := Z.lxor y (Z.lor x (complement z)).

Definition add (x y : Z) : Z := (x + y) mod 2 ^ 32.
Definition rotate (x s : Z) : Z := x * 2 ^ s mod 2 ^ 32 + x / 2 ^ (32 - s).

(** [[abcd k s i]] and so on: which register plays which part *)
Inductive order := ABCD | DABC | CDAB | BCDA.
Record operation := mk_operation { op_order : order; op_k : nat; op_s : Z; op_i : Z }.
Abbreviation abcd := (mk_operation ABCD).
Abbreviation dabc := (mk_operation DABC).
Abbreviation cdab := (mk_operation CDAB).
Abbreviation bcda := (mk_operation BCDA).

Definition round1 : list operation :=
  [abcd 0 7 1; dabc 1 12 2; cdab 2 17 3; bcda 3 22 4;
   abcd 4 7 5; dabc 5 12 6; cdab 6 17 7; bcda 7 22 8;
   abcd 8 7 9; dabc 9 12 10; cdab 10 17 11; bcda 11 22 12;
   abcd 12 7 13; dabc 13 12 14; cdab 14 17 15; bcda 15 22 16].
Definition round2 : list operation :=
  [abcd 1 5 17; dabc 6 9 18; cdab 11 14 19; bcda 0 20 20;
   abcd 5 5 21; dabc 10 9 22; cdab 15 14 23; bcda 4 20 24;
   abcd 9 5 25; dabc 14 9 26; cdab 3 14 27; bcda 8 20 28;
   abcd 13 5 29; dabc 2 9 30; cdab 7 14 31; bcda 12 20 32].
Definition round3 : list operation :=
  [abcd 5 4 33; dabc 8 11 34; cdab 11 16 35; bcda 14 23 36;
   abcd 1 4 37; dabc 4 11 38; cdab 7 16 39; bcda 10 23 40;
   abcd 13 4 41; dabc 0 11 42; cdab 3 16 43; bcda 6 23 44;
   abcd 9 4 45; dabc 12 11 46; cdab 15 16 47; bcda 2 23 48].
Definition round4 : list operation :=
  [abcd 0 6 49; dabc 7 10 50; cdab 14 15 51; bcda 5 21 52;
   abcd 12 6 53; dabc 3 10 54; cdab 10 15 55; bcda 1 21 56;
   abcd 8 6 57; dabc 15 10 58; cdab 6 15 59; bcda 13 21 60;
   abcd 4 6 61; dabc 11 10 62; cdab 2 15 63; bcda 9 21 64].

Section block.
Context (X : nat → Z).

(** [a = b + ((a + f(b,c,d) + X[k] + T[i]) <<< s)] *)
Definition operate (f : Z → Z → Z → Z) (w : words) (o : operation) : words :=
  let '(mk_words A B C D) := w in
  let new a b c d := add b (rotate (add (add (add a (f b c d)) (X (op_k o))) (T (op_i o))) (op_s o)) in
  match op_order o with
  | ABCD => mk_words (new A B C D) B C D
  | DABC => mk_words A B C (new D A B C)
  | CDAB => mk_words A B (new C D A B) D
  | BCDA => mk_words A (new B C D A) C D
  end.

Definition four_rounds (w : words) : words :=
  foldl (operate I) (foldl (operate H) (foldl (operate G) (foldl (operate F) w round1) round2) round3) round4.
End block.

Definition digest_block (w : words) (block : list Z) : words :=
  let w' := four_rounds (λ k, word_of (take 4 (drop (4 * k) block))) w in
  mk_words (add (wa w) (wa w')) (add (wb w) (wb w')) (add (wc w) (wc w')) (add (wd w) (wd w')).

Fixpoint blocks (n : nat) (l : list Z) : list (list Z) :=
  match n with O => [] | S n => take 64 l :: blocks n (drop 64 l) end.

(** Step 5: the registers, low-order byte of [A] first *)
Definition md5 (m : list Z) : list Z :=
  let w := foldl digest_block initial (blocks (length (padded m) / 64) (padded m)) in
  bytes_of_word 4 (wa w) ++ bytes_of_word 4 (wb w) ++ bytes_of_word 4 (wc w) ++ bytes_of_word 4 (wd w).

End RFC1321.

(** ** The message in one piece *)

Fixpoint chunks64 (fuel : nat) (l : list Z) : list (list Z) :=
  match fuel with
  | O => []
  | S fuel => if (length l <? 64)%nat then [] else take 64 l :: chunks64 fuel (drop 64 l)
  end.

Definition md5_pad (m : list Z) : list Z :=
  m ++ 0x80 :: replicate (Z.to_nat ((55 - Z.of_nat (length m)) mod 64)) 0 ++
  le_bytes 8 (u64 (Z.of_nat (length m) * 8)).

Definition md5_of_blocks (m : list Z) : list Z :=
  let p := md5_pad m in
  let w := foldl (λ w b, process_block b w) init_words (chunks64 (length p) p) in
  le_bytes 4 (wa w) ++ le_bytes 4 (wb w) ++ le_bytes 4 (wc w) ++ le_bytes 4 (wd w).

(** ** Streaming *)

(** What a state stands for: the registers after the full blocks of the
    message, the rest of the message in the buffer, the length in bits. *)
Definition absorb_byte (p : words * list Z) (x : Z) : words * list Z :=
  let rest := p.2 ++ [x] in
  if (length rest =? 64)%nat then (process_block rest p.1, []) else (p.1, rest).
Definition absorb (m : list Z) (p : words * list Z) : words * list Z := foldl absorb_byte p m.

Record stands_for (s : MD5State) (m : list Z) : Prop := {
  sf_buf : length (buf s) = 64%nat;
  sf_len : (buf_len s < 64)%nat;
  sf_regs : absorb m (init_words, []) = (regs s, take (buf_len s) (buf s));
  sf_count : count s = u64 (Z.of_nat (length m) * 8);
}.

Lemma absorb_app m1 m2 p : absorb (m1 ++ m2) p = absorb m2 (absorb m1 p).
Proof. apply foldl_app. Qed.

(** A chunk that stays below a block, or completes it. *)
Lemma absorb_small l w rest :
  (length rest + length l < 64)%nat → absorb l (w, rest) = (w, rest ++ l).
Proof.
  revert rest. induction l as [|x l IH]; intros rest Hl; cbn in *; [by rewrite app_nil_r|].
  unfold absorb_byte. cbn [fst snd]. rewrite length_app. cbn [length].
  rewrite (proj2 (Nat.eqb_neq _ _)) by lia.
  unfold absorb in IH. rewrite IH; [by rewrite <-app_assoc|]. rewrite length_app. cbn. lia.
Qed.

Lemma absorb_block l w rest :
  l ≠ [] → (length rest + length l = 64)%nat →
  absorb l (w, rest) = (process_block (rest ++ l) w, []).
Proof.
  intros Hne Hl. destruct l as [|x l'] using rev_ind; [done|]. clear IHl'.
  rewrite length_app in Hl. cbn in Hl. rewrite absorb_app, absorb_small by lia.
  cbn. unfold absorb_byte. cbn [fst snd].
  rewrite (proj2 (Nat.eqb_eq _ _)) by (rewrite !length_app; cbn; lia).
  by rewrite <-app_assoc.
Qed.

Lemma memcpy_take dst off src :
  (off + length src ≤ length dst)%nat →
  length (memcpy dst off src) = length dst ∧
  take (off + length src) (memcpy dst off src) = take off dst ++ src.
Proof.
  intros Hl. unfold memcpy. rewrite !length_app, length_take, length_drop. split; [lia|].
  rewrite app_assoc, take_app_length'; [done|]. rewrite length_app, length_take. lia.
Qed.

Lemma update_loop_spec fuel data s :
  (length data ≤ fuel)%nat → length (buf s) = 64%nat → (buf_len s < 64)%nat →
  let s' := update_loop fuel data s in
  length (buf s') = 64%nat ∧ (buf_len s' < 64)%nat ∧ count s' = count s ∧
  absorb data (regs s, take (buf_len s) (buf s)) = (regs s', take (buf_len s') (buf s')).
Proof.
  revert data s. induction fuel as [|fuel IH]; intros data s Hf Hb Hl; cbn [update_loop].
  { by destruct data; cbn in Hf; [|lia]. }
  destruct data as [|x data]; [done|]. set (d := x :: data) in *.
  set (space := (64 - buf_len s)%nat).
  set (n := if (length d <? space)%nat then length d else space).
  assert (Hn : (0 < n ≤ length d)%nat ∧ (buf_len s + n ≤ 64)%nat).
  { unfold n, space, d. destruct (Nat.ltb_spec (length (x :: data)) (64 - buf_len s)); cbn in *; lia. }
  assert (Ht : length (take n d) = n) by (rewrite length_take; lia).
  destruct (memcpy_take (buf s) (buf_len s) (take n d)) as [Hm1 Hm2]; [lia|].
  rewrite Ht in Hm2. set (b := memcpy (buf s) (buf_len s) (take n d)) in *.
  assert (Hsplit : absorb d (regs s, take (buf_len s) (buf s)) =
    absorb (drop n d) (absorb (take n d) (regs s, take (buf_len s) (buf s)))).
  { rewrite <-absorb_app. by rewrite take_drop. }
  assert (Hpre : length (take (buf_len s) (buf s)) = buf_len s) by (rewrite length_take; lia).
  rewrite Hsplit. destruct (Nat.eqb_spec (buf_len s + n) 64) as [E|E].
  - rewrite absorb_block by (rewrite ?Hpre, ?Ht; destruct n, d; cbn in *; (done || lia)).
    rewrite <-Hm2, E, take_ge by lia.
    apply (IH (drop n d) (mk_MD5State (process_block b (regs s)) (count s) b 0)); cbn; [|lia..].
    rewrite length_drop. lia.
  - rewrite absorb_small by (rewrite Hpre, Ht; lia). rewrite <-Hm2.
    apply (IH (drop n d) (mk_MD5State (regs s) (count s) b (buf_len s + n))); cbn; [|lia..].
    rewrite length_drop. lia.
Qed.

Lemma update_stands_for data s m : stands_for s m → stands_for (update data s) (m ++ data).
Proof.
  intros [Hb Hl Hr Hc]. unfold update.
  destruct (update_loop_spec (length data) data
    (mk_MD5State (regs s) (u64 (count s + u64 (Z.of_nat (length data) * 8))) (buf s) (buf_len s)))
    as (H1 & H2 & H3 & H4); [lia|done|done|]. cbn [regs count buf buf_len] in *.
  constructor; [done|done| |].
  - by rewrite absorb_app, Hr, H4.
  - rewrite H3, Hc. unfold wrap. rewrite <-Zplus_mod, length_app. f_equal. lia.
Qed.

Lemma init_stands_for : stands_for init_MD5State [].
Proof. constructor; [done|cbn; lia|done|done]. Qed.

(** A message of whole blocks leaves nothing in the buffer. *)
Lemma absorb_chunks n p w :
  length p = (64 * n)%nat →
  absorb p (w, []) = (foldl (λ w b, process_block b w) w (chunks64 (length p) p), []).
Proof.
  revert p w. induction n as [|n IH]; intros p w Hp.
  { destruct p; [done|]. rewrite Nat.mul_0_r in Hp. done. }
  assert (Ht : length (take 64 p) = 64%nat) by (rewrite length_take; lia).
  assert (Hd : length (drop 64 p) = (64 * n)%nat) by (rewrite length_drop; lia).
  rewrite <-(take_drop 64 p) at 1. rewrite absorb_app, absorb_block by
    (cbn; try lia; intros E; rewrite E in Ht; done).
  rewrite IH by done. destruct (length p) as [|f] eqn:Ef; [lia|]. cbn [chunks64].
  rewrite Ef, (proj2 (Nat.ltb_ge _ _)) by lia. cbn [foldl app]. f_equal.
  assert (Hfuel : ∀ f l w, (length l ≤ f)%nat →
    foldl (λ w b, process_block b w) w (chunks64 f l) =
    foldl (λ w b, process_block b w) w (chunks64 (length l) l)).
  { clear. intros f. induction f as [f IHf] using lt_wf_ind. intros l w Hl.
    destruct (length l <? 64)%nat eqn:E.
    - destruct f, (length l) eqn:El; cbn [chunks64]; rewrite ?El, ?E; done.
    - apply Nat.ltb_ge in E as E'. destruct f as [|f]; [lia|].
      destruct (length l) as [|k] eqn:El; [lia|]. cbn [chunks64]. rewrite El, E. cbn [foldl].
      assert (length (drop 64 l) = (S k - 64)%nat) as Hdl by (rewrite length_drop; lia).
      rewrite (IHf f) by lia. rewrite (IHf k) by lia. done. }
  rewrite (Hfuel f (drop 64 p)) by lia. done.
Qed.

Lemma absorb_length m w rest w' rest' :
  (length rest < 64)%nat → absorb m (w, rest) = (w', rest') →
  (length rest' < 64)%nat ∧
  (Z.of_nat (length rest') = (Z.of_nat (length rest) + Z.of_nat (length m)) mod 64).
Proof.
  revert w rest. induction m as [|x m IH]; intros w rest Hr; cbn.
  - intros [= <- <-]. split; [done|]. rewrite Z.add_0_r, Z.mod_small; lia.
  - unfold absorb_byte. cbn [fst snd]. rewrite length_app. cbn [length].
    destruct (Nat.eqb_spec (length rest + 1) 64) as [E|E]; intros H.
    + apply IH in H as [H1 H2]; cbn in *; [|lia]. split; [done|]. rewrite H2.
      replace (Z.of_nat (length rest) + Z.of_nat (S (length m)))
        with (Z.of_nat (length m) + 1 * 64) by lia. by rewrite Z_mod_plus_full.
    + apply IH in H as [H1 H2]; rewrite ?length_app in *; cbn [length] in *; [|lia].
      split; [done|]. rewrite H2. f_equal. lia.
Qed.

Lemma pad_block_take n : (0 < n ≤ 64)%nat → take n pad_block = 0x80 :: replicate (n - 1) 0.
Proof.
  intros Hn. destruct n as [|n]; [lia|]. cbn [take pad_block]. unfold pad_block. cbn [take].
  rewrite take_replicate. repeat f_equal. lia.
Qed.

Lemma digest_of_blocks s m : stands_for s m → digest s = md5_of_blocks m.
Proof.
  intros Hs. pose proof (absorb_length m init_words [] _ _ ltac:(cbn; lia) (sf_regs _ _ Hs))
    as [_ Hlen]. destruct (Hs) as [Hb Hl _ Hc].
  rewrite length_take, Hb, Nat.min_l in Hlen by lia. cbn [length] in Hlen.
  unfold digest, finalize. cbv zeta.
  set (n := if (buf_len s <? 56)%nat then (56 - buf_len s)%nat else (120 - buf_len s)%nat).
  assert (Hn : (0 < n ≤ 64)%nat ∧
    (n - 1)%nat = Z.to_nat ((55 - Z.of_nat (length m)) mod 64)).
  { unfold n. destruct (Nat.ltb_spec (buf_len s) 56) as [E|E].
    - split; [lia|]. zlia.
    - split; [lia|]. zlia. }
  rewrite pad_block_take by lia. destruct Hn as [Hn ->].
  set (z := Z.to_nat _).
  pose proof (update_stands_for (0x80 :: replicate z 0) s m Hs) as H1.
  pose proof (update_stands_for (le_bytes 8 (count s)) _ _ H1) as [_ Hl2 H2 _].
  assert (Hp : (m ++ 0x80 :: replicate z 0) ++ le_bytes 8 (count s) = md5_pad m).
  { unfold md5_pad. rewrite Hc, <-app_assoc. done. }
  rewrite Hp in H2. clear Hp.
  assert (Hpl : ∃ k, length (md5_pad m) = (64 * k)%nat).
  { unfold md5_pad. rewrite length_app. cbn [length]. rewrite length_app, length_replicate.
    unfold le_bytes. rewrite length_fmap, length_seq. fold z.
    exists (Z.to_nat ((Z.of_nat (length m) + 72) / 64)). unfold z. zlia. }
  destruct Hpl as [k Hk]. rewrite (absorb_chunks k) in H2 by done.
  injection H2 as H2 _. unfold md5_of_blocks. cbv zeta. by rewrite H2.
Qed.

Lemma le_bytes_range n x : length (le_bytes n x) = n ∧ Forall (λ b, 0 ≤ b < 256) (le_bytes n x).
Proof.
  unfold le_bytes. rewrite length_fmap, length_seq. split; [done|].
  apply Forall_fmap, Forall_true. intros i. apply (wrap_range 8). lia.
Qed.

(** ** The rounds of the code against the RFC *)

Abbreviation byte := (λ b, 0 ≤ b < 256).

(** The registers as the loop of the code sees them: they move on by one place
    in every turn. *)
Definition seen (o : RFC1321.order) (w : words) : words :=
  let '(mk_words A B C D) := w in
  match o with
  | RFC1321.ABCD => mk_words A B C D
  | RFC1321.DABC => mk_words D A B C
  | RFC1321.CDAB => mk_words C D A B
  | RFC1321.BCDA => mk_words B C D A
  end.
Definition next_order (o : RFC1321.order) : RFC1321.order :=
  match o with
  | RFC1321.ABCD => RFC1321.DABC | RFC1321.DABC => RFC1321.CDAB
  | RFC1321.CDAB => RFC1321.BCDA | RFC1321.BCDA => RFC1321.ABCD
  end.

(** The function and the message word of turn [i] *)
Definition round_function (i : nat) : Z → Z → Z → Z :=
  if (i <? 16)%nat then RFC1321.F else if (i <? 32)%nat then RFC1321.G
  else if (i <? 48)%nat then RFC1321.H else RFC1321.I.
Definition round_index (i : nat) : nat :=
  if (i <? 16)%nat then i else if (i <? 32)%nat then ((5 * i + 1) mod 16)%nat
  else if (i <? 48)%nat then ((3 * i + 5) mod 16)%nat else ((7 * i) mod 16)%nat.

Lemma testbit_lt x n k : 0 ≤ x < 2 ^ k → k ≤ n → Z.testbit x n = false.
Proof.
  intros Hx Hk. destruct (decide (x = 0)) as [->|]; [apply Z.bits_0|].
  apply Z.bits_above_log2; [lia|]. apply Z.lt_le_trans with k; [|lia]. apply Z.log2_lt_pow2; lia.
Qed.
Lemma lor_add a b k : 0 ≤ k → 0 ≤ b < 2 ^ k → a mod 2 ^ k = 0 → Z.lor a b = a + b.
Proof.
  intros Hk Hb Ha. assert (Hl : Z.land a b = 0).
  { apply Z.bits_inj'. intros n Hn. rewrite Z.land_spec, Z.bits_0. destruct (decide (n < k)) as [Hlt|Hge].
    - rewrite (Z.div_mod a (2 ^ k)), Ha, Z.add_0_r, Z.mul_comm by lia. by rewrite Z.mul_pow2_bits_low.
    - rewrite (testbit_lt b n k) by lia. apply andb_false_r. }
  by rewrite <-Z.lxor_lor, <-Z.add_nocarry_lxor.
Qed.

Lemma rotl_rotate x s : 0 ≤ x < 2 ^ 32 → 0 ≤ s ≤ 32 → rotl x s = RFC1321.rotate x s.
Proof.
  intros Hx Hs. unfold rotl, RFC1321.rotate, wrap. rewrite Z.shiftl_mul_pow2, Z.shiftr_div_pow2 by lia.
  assert (Hp : 2 ^ 32 = 2 ^ s * 2 ^ (32 - s)) by (rewrite <-Z.pow_add_r by lia; f_equal; lia).
  pose proof (Z.pow_pos_nonneg 2 s ltac:(lia) ltac:(lia)). pose proof (Z.pow_pos_nonneg 2 (32 - s) ltac:(lia) ltac:(lia)).
  apply (lor_add _ _ s); [lia| |].
  - split; [apply Z.div_pos; lia|]. apply Z.div_lt_upper_bound; nia.
  - rewrite Hp, (Z.mul_comm x), Z.mul_mod_distr_l by lia. rewrite Z.mul_comm. by apply Z_mod_mult.
Qed.

Lemma le_bytes_word n : ∀ x, le_bytes n x = RFC1321.bytes_of_word n x.
Proof.
  unfold le_bytes. induction n as [|n IH]; intros x; [done|]. cbn [seq fmap list_fmap RFC1321.bytes_of_word]. f_equal.
  rewrite <-IH, <-fmap_S_seq, <-list_fmap_compose. apply list_fmap_ext. intros i k _. cbn [compose]. unfold compose.
    rewrite !Z.shiftr_div_pow2 by lia. rewrite Nat2Z.inj_succ, Z.mul_succ_l, Z.add_comm, Z.pow_add_r by lia.
    by rewrite Z.div_div by (try apply Z.pow_pos_nonneg; lia).
Qed.

Lemma block_word_word block i : length block = 64%nat → Forall byte block → (i < 16)%nat →
  block_word block i = RFC1321.word_of (take 4 (drop (4 * i) block)).
Proof.
  intros Hl Hb Hi. unfold block_word. rewrite Nat.mul_comm. set (l := drop (4 * i) block).
  assert (Hn : ∀ j, nth (4 * i + j) block 0 = nth j l 0) by (intros j; unfold l; by rewrite <-nth_skipn).
  rewrite !Hn. assert (Hll : (4 ≤ length l)%nat) by (unfold l; rewrite length_drop; lia).
  assert (Hlb : Forall byte l) by (unfold l; by apply Forall_drop). clearbody l.
  destruct l as [|a [|b [|c [|d l]]]]; cbn in Hll; try lia. cbn [nth take RFC1321.word_of].
  rewrite !Forall_cons in Hlb. destruct Hlb as (? & ? & ? & ? & _). rewrite !Z.shiftl_mul_pow2 by lia.
  rewrite (Z.lor_comm a), (lor_add (b * 2 ^ 8) a 8) by (apply Z_mod_mult || lia).
  rewrite (Z.lor_comm (b * _ + a)), (lor_add (c * 2 ^ 16) _ 16) by (apply Z_mod_mult || lia).
  rewrite (Z.lor_comm (c * _ + _)), (lor_add (d * 2 ^ 24) _ 24) by (apply Z_mod_mult || lia). rewrite take_0. cbn [RFC1321.word_of]. lia.
Qed.

(** One turn of the loop is one operation. *)
Lemma round_operate block X i o w :
  RFC1321.op_k o = round_index i → RFC1321.op_s o = nth i S_table 0 → 0 ≤ RFC1321.op_s o ≤ 32 →
  RFC1321.T (RFC1321.op_i o) = nth i K_table 0 → X (round_index i) = block_word block (round_index i) →
  round block (seen (RFC1321.op_order o) w) i = seen (next_order (RFC1321.op_order o)) (RFC1321.operate X (round_function i) w o).
Proof.
  intros Hk Hs Hr HT HX.
  assert (Hnew : ∀ a b c d, round block (mk_words a b c d) i =
    mk_words d (RFC1321.add b (RFC1321.rotate (RFC1321.add (RFC1321.add (RFC1321.add a (round_function i b c d)) (X (RFC1321.op_k o)))
      (RFC1321.T (RFC1321.op_i o))) (RFC1321.op_s o))) b c).
  { intros a b c d. rewrite HT, Hk, HX, Hs. unfold round, round_function, round_index, RFC1321.add.
    rewrite <-rotl_rotate by (rewrite <-?Hs; (done || apply Z.mod_pos_bound; done)). unfold wrap.
    rewrite !Zplus_mod_idemp_l. unfold RFC1321.F, RFC1321.G, RFC1321.H, RFC1321.I, RFC1321.complement, not32, UINT32_MAX.
    change (2 ^ 32 - 1) with 4294967295. rewrite (Z.land_comm d b), (Z.land_comm (_ - d) c), <-(Z.add_assoc (_ mod _)), Zplus_mod_idemp_l.
    destruct (i <? 16)%nat; [|destruct (i <? 32)%nat; [|destruct (i <? 48)%nat]]; do 5 f_equal; lia. }
  destruct w as [A B C D]. unfold RFC1321.operate. destruct (RFC1321.op_order o); cbn [seen next_order]; by rewrite Hnew.
Qed.

Fixpoint order_at (i : nat) : RFC1321.order :=
  match i with O => RFC1321.ABCD | S i => next_order (order_at i) end.
Definition same_order (o1 o2 : RFC1321.order) : bool :=
  match o1, o2 with
  | RFC1321.ABCD, RFC1321.ABCD | RFC1321.DABC, RFC1321.DABC | RFC1321.CDAB, RFC1321.CDAB | RFC1321.BCDA, RFC1321.BCDA => true
  | _, _ => false
  end.

(** The tables of the code from turn [i] on are those of the listed operations. *)
Fixpoint tables_agree (i : nat) (os : list RFC1321.operation) : bool :=
  match os with
  | [] => true
  | o :: os =>
      same_order (RFC1321.op_order o) (order_at i) && (RFC1321.op_k o =? round_index i)%nat && (round_index i <? 16)%nat &&
      (RFC1321.op_s o =? nth i S_table 0) && (0 <=? RFC1321.op_s o) && (RFC1321.op_s o <=? 32) &&
      (RFC1321.T (RFC1321.op_i o) =? nth i K_table 0) && tables_agree (S i) os
  end.

Lemma rounds_operate block X f os : (∀ k, (k < 16)%nat → X k = block_word block k) → ∀ i w,
  tables_agree i os = true → (∀ j, (i ≤ j < i + length os)%nat → round_function j = f) →
  foldl (round block) (seen (order_at i) w) (seq i (length os)) =
    seen (order_at (i + length os)) (foldl (RFC1321.operate X f) w os).
Proof.
  intros HX. induction os as [|o os IH]; intros i w; [by rewrite Nat.add_0_r|]. cbn [tables_agree length seq foldl].
  rewrite !andb_true_iff, !Z.eqb_eq, !Z.leb_le, Nat.eqb_eq, Nat.ltb_lt.
  intros [[[[[[[Ho Hk] Hlt] Hs] Hs0] Hs1] HT] Hrest] Hf.
  assert (Ho' : order_at i = RFC1321.op_order o) by (revert Ho; by destruct (RFC1321.op_order o), (order_at i)).
  rewrite Ho', (round_operate block X i o w), <-Ho' by auto. rewrite (Hf i) by lia.
  change (next_order (order_at i)) with (order_at (S i)). rewrite IH; [|done|intros j Hj; apply Hf; lia].
  by rewrite Nat.add_succ_comm.
Qed.

Lemma code_tables_agree :
  tables_agree 0 (RFC1321.round1 ++ RFC1321.round2 ++ RFC1321.round3 ++ RFC1321.round4) = true.
Proof. vm_compute. reflexivity. Qed.

Lemma tables_agree_app os1 os2 : ∀ i, tables_agree i (os1 ++ os2) = tables_agree i os1 && tables_agree (i + length os1) os2.
Proof.
  induction os1 as [|o os1 IH]; intros i; cbn [tables_agree app length]; [by rewrite Nat.add_0_r|].
  by rewrite IH, !andb_assoc, Nat.add_succ_comm.
Qed.

(** The loop over the 64 turns is the four rounds. *)
Lemma rounds_in_order block X os1 os2 os3 os4 w : (∀ k, (k < 16)%nat → X k = block_word block k) →
  tables_agree 0 (os1 ++ os2 ++ os3 ++ os4) = true →
  length os1 = 16%nat → length os2 = 16%nat → length os3 = 16%nat → length os4 = 16%nat →
  foldl (round block) w (seq 0 64) =
    foldl (RFC1321.operate X RFC1321.I) (foldl (RFC1321.operate X RFC1321.H) (foldl (RFC1321.operate X RFC1321.G)
      (foldl (RFC1321.operate X RFC1321.F) w os1) os2) os3) os4.
Proof.
  intros HX Ht L1 L2 L3 L4. rewrite !tables_agree_app, !andb_true_iff, L1, L2, L3 in Ht. destruct Ht as (H1 & H2 & H3 & H4).
  assert (Hseen : ∀ w, w = seen RFC1321.ABCD w) by (by intros []).
  assert (Hf : ∀ f os i, length os = 16%nat → order_at i = RFC1321.ABCD → order_at (i + 16) = RFC1321.ABCD → tables_agree i os = true →
    (∀ j, (i ≤ j < i + 16)%nat → round_function j = f) → ∀ w, foldl (round block) w (seq i 16) = foldl (RFC1321.operate X f) w os).
  { intros f os i Hl Ho Ho' Ha Hfun w'. rewrite (Hseen w') at 1. rewrite <-Ho, <-Hl, (rounds_operate block X f os HX) by (rewrite ?Hl; done).
    by rewrite Hl, Ho', <-Hseen. }
  change (seq 0 64) with (seq 0 16 ++ seq 16 16 ++ seq 32 16 ++ seq 48 16). rewrite !foldl_app.
  rewrite (Hf RFC1321.F os1 0%nat), (Hf RFC1321.G os2 16%nat), (Hf RFC1321.H os3 32%nat), (Hf RFC1321.I os4 48%nat); try done;
    intros j Hj; unfold round_function; by repeat match goal with |- context [(?a <? ?b)%nat] => destruct (Nat.ltb_spec a b); try lia end.
Qed.

Lemma rounds_are_four block X w : (∀ k, (k < 16)%nat → X k = block_word block k) →
  foldl (round block) w (seq 0 64) = RFC1321.four_rounds X w.
Proof. intros HX. apply rounds_in_order; [done|exact code_tables_agree|reflexivity..]. Qed.

Lemma process_block_digest block w : length block = 64%nat → Forall byte block →
  process_block block w = RFC1321.digest_block w block.
Proof.
  intros Hl Hb. unfold process_block, RFC1321.digest_block.
  rewrite (rounds_are_four block (λ k, RFC1321.word_of (take 4 (drop (4 * k) block)))) by (intros k Hk; symmetry; by apply block_word_word).
  by destruct (RFC1321.four_rounds _ w).
Qed.

Lemma chunks64_blocks n : ∀ l fuel, length l = (64 * n)%nat → (n ≤ fuel)%nat → chunks64 fuel l = RFC1321.blocks n l.
Proof.
  induction n as [|n IH]; intros l fuel Hl Hf.
  - destruct l; [|by rewrite Nat.mul_0_r in Hl]. by destruct fuel.
  - destruct fuel as [|fuel]; [lia|]. cbn [chunks64 RFC1321.blocks]. rewrite (proj2 (Nat.ltb_ge _ _)) by lia.
    f_equal. apply IH; [rewrite length_drop; lia|lia].
Qed.

Lemma foldl_blocks n : ∀ l w, length l = (64 * n)%nat → Forall byte l →
  foldl (λ w b, process_block b w) w (RFC1321.blocks n l) = foldl RFC1321.digest_block w (RFC1321.blocks n l).
Proof.
  induction n as [|n IH]; intros l w Hl Hb; [done|]. cbn [RFC1321.blocks foldl].
  rewrite process_block_digest by (rewrite ?length_take; lia || by apply Forall_take).
  apply IH; [rewrite length_drop; lia|by apply Forall_drop].
Qed.

Lemma md5_pad_blocks m : ∃ n, length (md5_pad m) = (64 * n)%nat.
Proof.
  unfold md5_pad. rewrite length_app. cbn [length]. rewrite length_app, length_replicate, (proj1 (le_bytes_range _ _)).
  exists (Z.to_nat ((Z.of_nat (length m) + 72) / 64)). zlia.
Qed.

(** The digest of the code is that of the RFC. *)
Lemma digest_is_md5 s m : stands_for s m → Forall byte m → digest s = RFC1321.md5 m.
Proof.
  intros Hs Hm. rewrite (digest_of_blocks s m Hs). unfold md5_of_blocks, RFC1321.md5.
  assert (Hp : md5_pad m = RFC1321.padded m) by (unfold md5_pad, RFC1321.padded; by rewrite le_bytes_word).
  destruct (md5_pad_blocks m) as [n Hn]. rewrite <-Hp, Hn, (Nat.mul_comm 64), Nat.div_mul by lia.
  rewrite (chunks64_blocks n) by (try done; lia). rewrite foldl_blocks; [|done|].
  - by rewrite !le_bytes_word.
  - unfold md5_pad. rewrite Forall_app, Forall_cons, Forall_app. split_and!; [done|lia|lia| |apply le_bytes_range].
    apply Forall_replicate. lia.
Qed.

Lemma bytes_of_range s : Forall byte (bytes_of s).
Proof. apply Forall_fmap, Forall_true. intros c. apply ord_range. Qed.

Lemma update_chunks_stands_for chunks s m :
  stands_for s m → stands_for (foldl (λ s c, update c s) s chunks) (m ++ concat chunks).
Proof.
  revert s m. induction chunks as [|c l IH]; intros s m Hs; cbn; [by rewrite app_nil_r|].
  rewrite app_assoc. by apply IH, update_stands_for.
Qed.

Lemma strings_stand_for (chunks : list cstring) : stands_for (foldl (λ s c, update (bytes_of c) s) init_MD5State chunks) (bytes_of (concat chunks)).
Proof.
  assert (Hcat : ∀ l, bytes_of (concat l) = concat (bytes_of <$> l)).
  { induction l as [|c l IH]; [done|]. cbn. unfold bytes_of in *. by rewrite fmap_app, IH. }
  assert (Hfold : ∀ l s, foldl (λ s c, update (bytes_of c) s) s l = foldl (λ s c, update c s) s (bytes_of <$> l)).
  { induction l as [|c l IH]; intros s; [done|]. cbn. apply IH. }
  rewrite Hcat, Hfold. apply (update_chunks_stands_for _ _ []), init_stands_for.
Qed.

Lemma hex_digit_char_lower d : 0 ≤ d < 16 →
  isxdigit (hex_digit_char d) = true ∧ isupper (hex_digit_char d) = false.
Proof.
  intros Hd.
  assert (H : forallb (λ d, isxdigit (hex_digit_char d) && negb (isupper (hex_digit_char d)))
    (seqZ 0 16) = true) by (vm_compute; reflexivity).
  rewrite forallb_forall in H. specialize (H d).
  rewrite <-list_elem_of_In, elem_of_seqZ in H. specialize (H ltac:(lia)). breflect. tauto.
Qed.

(** The digits of a hash: what the resolver's TXT record may carry. *)
Definition is_hash (h : cstring) : Prop :=
  length h = 32%nat ∧ Forall (λ c, isxdigit c = true ∧ isupper c = false) h.

Lemma digest_to_hex_is_hash d : length d = 16%nat → Forall (λ b, 0 ≤ b < 256) d →
  is_hash (digest_to_hex d).
Proof.
  intros Hl Hd. unfold digest_to_hex. split.
  - transitivity (length d * 2)%nat; [|lia]. clear Hl.
    induction Hd as [|b d _ _ IH]; [done|]. cbn in *. lia.
  - clear Hl. induction Hd as [|b d Hb _ IH]; [constructor|]. cbn.
    assert (0 ≤ Z.shiftr b 4 < 16) by (rewrite Z.shiftr_div_pow2 by lia; zlia).
    assert (0 ≤ Z.land b 15 < 16).
    { change 15 with (Z.ones 4). rewrite Z.land_ones by lia. apply Z.mod_pos_bound. lia. }
    repeat constructor; try apply hex_digit_char_lower; done.
Qed.

Lemma digest_is_hash s : is_hash (digest_to_hex (digest s)).
Proof.
  unfold digest, finalize. cbv zeta. apply digest_to_hex_is_hash.
  - by rewrite !length_app, !(proj1 (le_bytes_range _ _)).
  - rewrite !Forall_app. split_and!; apply le_bytes_range.
Qed.

Lemma md5_hex_is_hash data : is_hash (md5_hex data).
Proof. apply digest_is_hash. Qed.

(** C39. However a message is cut into updates, the digest of the streaming
    state is the MD5 of RFC 1321 of the whole message (of any length, the
    length modulo 2^64 bits included), and its printed form is 32 lower-case
    hexadecimal digits. *)
Theorem md5_streaming chunks :
  let s := foldl (λ s c, update (bytes_of c) s) init_MD5State chunks in
  digest s = RFC1321.md5 (bytes_of (concat chunks)) ∧ is_hash (digest_to_hex (digest s)).
Proof. split; [|apply digest_is_hash]. apply digest_is_md5; [apply strings_stand_for|apply bytes_of_range]. Qed.

Example md5_of_empty : md5_hex [] = str "d41d8cd98f00b204e9800998ecf8427e".
Proof. vm_compute. reflexivity. Qed.
Example md5_of_abc : md5_hex "abc" = str "900150983cd24fb0d6963f7d28e17f72".
Proof. vm_compute. reflexivity. Qed.
Example md5_of_80_digits :
  md5_hex "12345678901234567890123456789012345678901234567890123456789012345678901234567890"
  = str "57edf4a22be3c955ac49da2e2107b67a".
Proof. vm_compute. reflexivity. Qed.
