(* ===== verification/RouteTable.v ===== *)
(** * The route table (src/src/routing/route_table.{hpp,cpp})

    [RouteTable] tracks the routes it was asked for ([routes_]) and, among
    them, the ones it created itself ([owned_routes_]); only the latter are
    ever deleted. *)

From S2P Require Import Prelude CppString Netlink.

Local Open Scope Z_scope.

Record RouteTable := mk_RouteTable {
  routes_ : list RouteSpec;
  owned_routes_ : list RouteSpec;
}.

Definition empty_RouteTable : RouteTable := mk_RouteTable [] [].

Definition routes_equal (a b : RouteSpec) : bool :=
  bool_decide (rs_destination a = rs_destination b) &&
  (rs_table a =? rs_table b) &&
  bool_decide (rs_interface a = rs_interface b) &&
  bool_decide (rs_gateway a = rs_gateway b) &&
  Bool.eqb (rs_blackhole a) (rs_blackhole b) &&
  Bool.eqb (rs_unreachable a) (rs_unreachable b) &&
  (rs_family a =? rs_family b) &&
  (rs_metric a =? rs_metric b) &&
  (rs_protocol a =? rs_protocol b).

Section route_table.
Context {K Obj : Type} `{NL : !Netlink K RouteSpec Obj} (dry_run_ : bool).

Abbreviation op := (stexc (K * RouteTable) unit).

Definition is_tracked (spec : RouteSpec) (t : RouteTable) : bool :=
  any_of (λ r, routes_equal r spec) (routes_ t).

Definition add (spec : RouteSpec) : op :=
  t ← get_obj;
  if is_tracked spec t then mret tt
  else
    owned ← (if dry_run_ then mret true
             else r ← on_kernel (nl_add spec); mret (is_created r));
    modify_obj (λ t, mk_RouteTable (routes_ t ++ [spec])
      (if owned : bool then owned_routes_ t ++ [spec] else owned_routes_ t)).

(** The deletion is attempted only for an owned route; a [std::exception] it
    throws is logged and the route is forgotten all the same. *)
Definition remove (spec : RouteSpec) : op :=
  t ← get_obj;
  match find_if (λ r, routes_equal r spec) (routes_ t) with
  | None => mret tt
  | Some _ =>
      let owned := any_of (λ r, routes_equal r spec) (owned_routes_ t) in
      (if negb dry_run_ && owned then
         try_catch_std (on_kernel (nl_delete spec)) (λ _, mret tt)
       else mret tt);;
      modify_obj (λ t, mk_RouteTable
        (erase_first (λ r, routes_equal r spec) (routes_ t))
        (erase_first (λ r, routes_equal r spec) (owned_routes_ t)))
  end.

Definition add_missing (desired : list RouteSpec) : op := for_each add desired.

Definition remove_obsolete (desired : list RouteSpec) : op :=
  t ← get_obj;
  for_each (λ route,
    if any_of (λ candidate, routes_equal route candidate) desired then mret tt
    else remove route) (routes_ t).

Definition reconcile (desired : list RouteSpec) : op :=
  add_missing desired;; remove_obsolete desired.

Definition adopt_desired (desired : list RouteSpec) : op :=
  modify_obj (λ _, mk_RouteTable desired []).

(** Shutdown: delete the owned routes, last created first, whatever goes
    wrong with each of them. *)
Definition clear : op :=
  t ← get_obj;
  (if dry_run_ then mret tt
   else for_each try_delete (reverse (owned_routes_ t)));;
  modify_obj (λ _, empty_RouteTable).

(** ** The public interface as a step relation

    A step is one call, whatever its outcome. *)
Inductive call :=
  | CAdd (spec : RouteSpec) | CRemove (spec : RouteSpec)
  | CReconcile (desired : list RouteSpec) | CAddMissing (desired : list RouteSpec)
  | CRemoveObsolete (desired : list RouteSpec) | CAdopt (desired : list RouteSpec)
  | CClear.

Definition run (c : call) : op :=
  match c with
  | CAdd spec => add spec
  | CRemove spec => remove spec
  | CReconcile desired => reconcile desired
  | CAddMissing desired => add_missing desired
  | CRemoveObsolete desired => remove_obsolete desired
  | CAdopt desired => adopt_desired desired
  | CClear => clear
  end.

Inductive step : K * RouteTable → K * RouteTable → Prop :=
  | step_call c s : step s (run c s).2.

(** The calls other than [adopt_desired], which gives up ownership, that ask
    for routes of [U] only. *)
Definition owning (U : RouteSpec → Prop) (c : call) : Prop :=
  match c with
  | CAdd spec => U spec
  | CReconcile desired | CAddMissing desired => ∀ r, r ∈ desired → U r
  | CAdopt _ => False
  | _ => True
  end.

Inductive owning_step (U : RouteSpec → Prop) : K * RouteTable → K * RouteTable → Prop :=
  | owning_step_call c s : owning U c → owning_step U s (run c s).2.

Lemma routes_equal_true a b : routes_equal a b = true ↔ a = b.
Proof.
  unfold routes_equal. rewrite !andb_true_iff, !Z.eqb_eq, !bool_decide_eq_true, !eqb_true_iff.
  destruct a, b; cbn. split; [intros; destruct_and?; by subst|].
  intros [=]. by subst.
Qed.

Lemma is_tracked_true spec t : is_tracked spec t = true ↔ spec ∈ routes_ t.
Proof.
  unfold is_tracked. rewrite any_of_true. setoid_rewrite routes_equal_true. naive_solver.
Qed.

(** The loops keep whatever [add] and [remove] keep. *)
Lemma preserves_run (I : K * RouteTable → Prop) :
  (∀ spec, preserves I (remove spec)) →
  ∀ c, match c with
       | CAdd spec => preserves I (add spec)
       | CReconcile desired | CAddMissing desired =>
           ∀ r, r ∈ desired → preserves I (add r)
       | CAdopt desired => preserves I (adopt_desired desired)
       | CClear => preserves I clear
       | _ => True
       end → preserves I (run c).
Proof.
  intros Hr c Hc.
  assert (Hg : preserves I (get_obj (K:=K) (T:=RouteTable))) by by intros s.
  assert (Hro : ∀ desired, preserves I (remove_obsolete desired)).
  { intros desired. apply preserves_bind; [done|]. intros t. apply preserves_for_each.
    intros x _. destruct (any_of _ desired); [apply preserves_ret|apply Hr]. }
  destruct c; cbn; auto.
  - apply preserves_bind; [|done]. by apply preserves_for_each.
  - by apply preserves_for_each.
Qed.

(** ** Routes that predate the process *)

Definition safe (k0 : K) (s : K * RouteTable) : Prop :=
  dry_run_ = false → undisturbed k0 s.1 (owned_routes_ s.2).

Lemma add_safe k0 spec : preserves (safe k0) (add spec).
Proof.
  intros [k t] Hs. unfold add. cbn. unfold mbind, stexc_bind. cbn.
  destruct (is_tracked spec t); [done|]. intros Hd. rewrite Hd. cbn.
  pose proof (undisturbed_add k0 k (owned_routes_ t) spec (Hs Hd)) as Ha.
  unfold on_kernel. cbn. by destruct (nl_add spec k) as [[[]|e|] k'].
Qed.

Lemma remove_safe k0 spec : preserves (safe k0) (remove spec).
Proof.
  intros [k t] Hs. unfold remove, try_catch_std, on_kernel. cbn.
  unfold mbind, stexc_bind. cbn.
  destruct (find_if _ (routes_ t)) as [q|]; [|done]. intros Hd. specialize (Hs Hd).
  rewrite Hd. cbn in *. destruct (any_of _ (owned_routes_ t)) eqn:E; cbn.
  - destruct (erase_first_split _ _ E) as (o1 & x & o2 & Ho & ->%routes_equal_true & He).
    rewrite Ho in Hs. pose proof (undisturbed_delete k0 k o1 spec o2 Hs) as Hs'.
    assert (undisturbed k0 (nl_delete spec k).2 (erase_first (λ r, routes_equal r spec)
      (owned_routes_ t))).
    { rewrite He. eapply undisturbed_sublist; [|done]. set_solver. }
    rewrite <-Ho in Hs'.
    destruct (nl_delete spec k) as [[[]|e|] k']; cbn in *; [done| |done].
    by destruct (what e).
  - by rewrite erase_first_none.
Qed.

Lemma clear_safe k0 : preserves (safe k0) clear.
Proof.
  intros [k t] Hs Hd. specialize (Hs Hd). cbn in Hs. unfold clear. cbn.
  unfold mbind, stexc_bind. cbn. rewrite Hd.
  destruct (undisturbed_delete_all k0 k (owned_routes_ t) (reverse (owned_routes_ t)) t)
    as (k' & -> & Hk'); [|done|].
  - intros r. apply elem_of_reverse.
  - cbn. eapply undisturbed_sublist; [|exact Hk']. set_solver.
Qed.

Lemma run_safe k0 c : preserves (safe k0) (run c).
Proof.
  apply preserves_run; [by auto using remove_safe|].
  destruct c; auto using clear_safe, add_safe. intros [k t] Hs Hd. cbn. eapply undisturbed_sublist; [|exact (Hs Hd)]. set_solver.
Qed.

Lemma calls_dry_run c s : dry_run_ = true → (run c s).2.1 = s.1.
Proof.
  intros Hd. enough (H : preserves (λ s', s'.1 = s.1) (run c)) by by apply H.
  generalize s.1 as k. intros k.
  assert (Ha : ∀ spec, preserves (λ s' : K * RouteTable, s'.1 = k) (add spec)).
  { intros spec [k' t] Hk. unfold add. cbn. unfold mbind, stexc_bind. cbn.
    rewrite Hd. by destruct (is_tracked spec t). }
  apply preserves_run; [|destruct c; auto].
  - intros spec [k' t] Hk. unfold remove. cbn. unfold mbind, stexc_bind. cbn.
    rewrite Hd. by destruct (find_if _ _).
  - by intros [k' t] Hk.
  - intros [k' t] Hk. unfold clear. cbn. unfold mbind, stexc_bind. cbn. by rewrite Hd.
Qed.

Lemma foreign_routes_survive_Ok k0 s :
  rtc step (k0, empty_RouteTable) s → ∀ x, installed k0 x → installed s.1 x.
Proof.
  intros Hsteps. destruct dry_run_ eqn:Hd.
  - assert (Hk : s.1 = k0); [|by rewrite Hk].
    eapply (rtc_ind_r (λ s, s.1 = k0)); [| |exact Hsteps]; [done|].
    intros s1 s2 _ [c s'] <-. by apply calls_dry_run.
  - assert (Hs : safe k0 s); [|exact (proj2 (Hs Hd))].
    eapply (rtc_ind_r (safe k0)); [|..|exact Hsteps].
    + intros _. apply undisturbed_refl.
    + intros s1 s2 _ [c s'] HI. by apply run_safe.
Qed.

(** ** The tracked set *)

Lemma add_tracks spec s s' :
  add spec s = (Ok tt, s') → ∀ r, r ∈ routes_ s'.2 ↔ r = spec ∨ r ∈ routes_ s.2.
Proof.
  destruct s as [k t]. unfold add, on_kernel. cbn. unfold mbind, stexc_bind. cbn.
  destruct (is_tracked spec t) eqn:E.
  - intros [= <-]. apply is_tracked_true in E. cbn. naive_solver.
  - destruct dry_run_; cbn; [|destruct (nl_add spec k) as [[[]|e|] k']; cbn];
      unfold modify_obj; intros [= <-]; cbn; intros r;
      rewrite elem_of_app, list_elem_of_singleton; tauto.
Qed.

Lemma add_missing_tracks desired s s' :
  add_missing desired s = (Ok tt, s') →
  ∀ r, r ∈ routes_ s'.2 ↔ r ∈ desired ∨ r ∈ routes_ s.2.
Proof.
  revert s. induction desired as [|d desired IH]; intros s; cbn.
  - intros [= ->] r. rewrite elem_of_nil. tauto.
  - unfold mbind, stexc_bind. destruct (add d s) as [[[]|e|] s1] eqn:E; [|done..].
    intros H r. rewrite (IH s1 H), (add_tracks _ _ _ E), elem_of_cons. tauto.
Qed.

Lemma remove_tracks spec s s' l :
  remove spec s = (Ok tt, s') → routes_ s.2 ≡ₚ spec :: l → routes_ s'.2 ≡ₚ l.
Proof.
  destruct s as [k t]. unfold remove, on_kernel, try_catch_std. cbn.
  unfold mbind, stexc_bind. cbn. intros H Hp.
  assert (He : erase_first (λ r, routes_equal r spec) (routes_ t) ≡ₚ l).
  { eapply erase_first_perm; [|exact Hp]. intros y. apply routes_equal_true. }
  destruct (find_if _ (routes_ t)) as [q|] eqn:Ef.
  - unfold modify_obj in H.
    destruct (negb _ && _); [|by simplify_eq/=]. cbn in H.
    destruct (nl_delete spec k) as [[[]|e|] k']; cbn in H; [by simplify_eq/=| |done].
    destruct (what e); by simplify_eq/=.
  - eapply find_if_None in Ef; [|rewrite Hp; left].
    by rewrite (proj2 (routes_equal_true _ _) eq_refl) in Ef.
Qed.

Lemma remove_obsolete_tracks desired s s' :
  remove_obsolete desired s = (Ok tt, s') →
  routes_ s'.2 ≡ₚ filter (.∈ desired) (routes_ s.2).
Proof.
  unfold remove_obsolete. cbn. unfold mbind at 1, stexc_bind at 1. cbn.
  set (body := λ route : RouteSpec, _).
  enough (Hg : ∀ cur kept s, routes_ s.2 ≡ₚ kept ++ cur →
    for_each body cur s = (Ok tt, s') →
    routes_ s'.2 ≡ₚ kept ++ filter (.∈ desired) cur) by by apply (Hg _ []).
  clear s. induction cur as [|r cur IH]; intros kept s Hp; cbn [for_each].
  - intros [= <-]. done.
  - unfold mbind, stexc_bind. rewrite filter_cons. unfold body at 1.
    destruct (any_of _ desired) eqn:E.
    + apply any_of_true in E as (c & Hc & <-%routes_equal_true).
      rewrite decide_True by done. intros H. rewrite (IH (kept ++ [r]) s); [| |done].
      * by rewrite <-app_assoc.
      * by rewrite <-app_assoc.
    + rewrite decide_False.
      * destruct (remove r s) as [[[]|e|] s1] eqn:Er; [|done..]. apply IH.
        eapply remove_tracks; [done|]. by rewrite Hp, Permutation_middle.
      * intros Hr. eapply any_of_false in E; [|done].
        by rewrite (proj2 (routes_equal_true _ _) eq_refl) in E.
Qed.

Lemma reconcile_tracks_Ok desired s s' :
  reconcile desired s = (Ok tt, s') → ∀ r, r ∈ routes_ s'.2 ↔ r ∈ desired.
Proof.
  unfold reconcile, mbind, stexc_bind.
  destruct (add_missing desired s) as [[[]|e|] s1] eqn:E; [|done..].
  intros H r. rewrite (remove_obsolete_tracks _ _ _ H), list_elem_of_filter.
  rewrite (add_missing_tracks _ _ _ E). tauto.
Qed.

(** ** Ownership is exact *)

Context (Hrel : deletes_reliably K) (Hlive : dry_run_ = false).

Definition accounted (k0 : K) (s : K * RouteTable) : Prop :=
  ledger k0 s.1 (owned_routes_ s.2).

Lemma add_accounted k0 spec : preserves (accounted k0) (add spec).
Proof.
  intros [k t] Hs. unfold add, on_kernel. cbn. unfold mbind, stexc_bind. cbn.
  destruct (is_tracked spec t); [done|]. rewrite Hlive. cbn.
  pose proof (ledger_add k0 k (owned_routes_ t) spec Hs) as Ha.
  by destruct (nl_add spec k) as [[[]|e|] k'].
Qed.

Lemma add_missing_run k0 k t desired :
  ledger k0 k (owned_routes_ t) →
  match add_missing desired (k, t) with
  | (Ok _, (k', t')) => ledger k0 k' (owned_routes_ t') ∧
      (∀ r, r ∈ routes_ t' ↔ r ∈ desired ∨ r ∈ routes_ t)
  | (Throw _, (k', t')) => ledger k0 k' (owned_routes_ t')
  | (Undefined, _) => False
  end.
Proof.
  intros Hl. pose proof (add_missing_tracks desired (k, t)) as Ht.
  assert (Hacc : preserves (accounted k0) (add_missing desired)).
  { apply preserves_for_each. intros r _. apply add_accounted. }
  specialize (Hacc (k, t) Hl).
  assert (Hnu : ∀ s, (add_missing desired s).1 ≠ Undefined).
  { clear. unfold add_missing. induction desired as [|d desired IH]; intros s; cbn; [done|].
    unfold mbind, stexc_bind. destruct (add d s) as [[[]|e|] s1] eqn:E; [apply IH|done|].
    exfalso. revert E. unfold add, on_kernel. cbn. unfold mbind, stexc_bind. cbn.
    destruct (is_tracked d s.2); [done|]. destruct dry_run_; cbn; [done|].
    pose proof (nl_add_law s.1 d) as Hlaw. by destruct (nl_add d s.1) as [[[]|e|] k']. }
  specialize (Hnu (k, t)).
  destruct (add_missing desired (k, t)) as [[[]|e|] [k' t']]; [|done|done].
  split; [done|]. by apply (Ht (k', t')).
Qed.

(** The kernel holds what was there before and every tracked route. *)
Definition held (k0 : K) (s : K * RouteTable) : Prop :=
  ∀ x, installed s.1 x ↔ installed k0 x ∨ ∃ r, r ∈ routes_ s.2 ∧ x = realize r.

Lemma add_held k0 spec : preserves (held k0) (add spec).
Proof.
  intros [k t] Hs. unfold add, on_kernel. cbn. unfold mbind, stexc_bind. cbn.
  destruct (is_tracked spec t); [done|]. rewrite Hlive. cbn. pose proof (nl_add_law k spec) as Hlaw.
  unfold held in *. cbn [fst snd] in *.
  destruct (nl_add spec k) as [[[]|e|] k']; cbn; [| | |done]; intros x.
  - destruct Hlaw as [_ ->]. rewrite Hs. setoid_rewrite elem_of_app. setoid_rewrite list_elem_of_singleton. naive_solver.
  - destruct Hlaw as [Hp ->]. rewrite Hs in *. setoid_rewrite elem_of_app. setoid_rewrite list_elem_of_singleton. naive_solver.
  - rewrite Hlaw. apply Hs.
Qed.

Lemma add_missing_held k0 desired : preserves (held k0) (add_missing desired).
Proof. apply preserves_for_each. intros r _. apply add_held. Qed.

(** What [remove] does to a tracked route. *)
Lemma remove_run k t spec k0 :
  ledger k0 k (owned_routes_ t) → spec ∈ routes_ t →
  ∃ k', remove spec (k, t) = (Ok tt, (k', mk_RouteTable
          (erase_first (λ r, routes_equal r spec) (routes_ t))
          (erase_first (λ r, routes_equal r spec) (owned_routes_ t)))) ∧
    ledger k0 k' (erase_first (λ r, routes_equal r spec) (owned_routes_ t)) ∧
    ∀ x, installed k' x ↔ installed k x ∧ (spec ∈ owned_routes_ t → x ≠ realize spec).
Proof.
  intros Hl Hin. unfold remove, try_catch_std, on_kernel. cbn. unfold mbind, stexc_bind. cbn.
  destruct (find_if _ (routes_ t)) as [q|] eqn:Ef.
  2:{ eapply find_if_None in Ef; [|done]. by rewrite (proj2 (routes_equal_true _ _) eq_refl) in Ef. }
  rewrite Hlive. cbn. destruct (any_of _ (owned_routes_ t)) eqn:E; cbn.
  - destruct (erase_first_split _ _ E) as (o1 & x & o2 & Ho & ->%routes_equal_true & He).
    rewrite Ho in Hl.
    destruct (ledger_delete k0 k o1 spec o2 Hrel Hl) as [Hr Hl'].
    pose proof (nl_delete_law k spec) as Hlaw.
    destruct (nl_delete spec k) as [r k']. cbn in *. subst r. exists k'.
    unfold modify_obj. cbn. rewrite He. split; [done|]. split; [done|].
    intros x. rewrite Hlaw, Ho. set_solver.
  - unfold modify_obj. cbn. rewrite (erase_first_none _ (owned_routes_ t)) by done.
    exists k. split; [done|]. split; [done|].
    intros x. split; [|tauto]. intros Hx. split; [done|]. intros Ho.
    eapply any_of_false in E; [|done]. by rewrite (proj2 (routes_equal_true _ _) eq_refl) in E.
Qed.

Lemma remove_untracked s spec : spec ∉ routes_ s.2 → remove spec s = (Ok tt, s).
Proof.
  intros Hn. unfold remove. cbn. unfold mbind, stexc_bind. cbn.
  destruct (find_if _ (routes_ s.2)) as [q|] eqn:Ef; [|by destruct s].
  by apply find_if_Some in Ef as [? ->%routes_equal_true].
Qed.

Lemma remove_accounted k0 spec : preserves (accounted k0) (remove spec).
Proof.
  intros [k t] Hs. destruct (decide (spec ∈ routes_ t)) as [Hin|Hn].
  - destruct (remove_run k t spec k0 Hs Hin) as (k' & -> & Hl & _). done.
  - by rewrite remove_untracked.
Qed.

Lemma clear_run k0 k t :
  accounted k0 (k, t) →
  ∃ k', clear (k, t) = (Ok tt, (k', empty_RouteTable)) ∧
        ∀ x, installed k' x ↔ installed k0 x.
Proof.
  intros Hs. unfold clear. cbn. unfold mbind, stexc_bind. cbn. rewrite Hlive.
  destruct (ledger_delete_all k0 k (owned_routes_ t) t Hrel Hs) as (k' & -> & Hk').
  by exists k'.
Qed.

Lemma owning_accounted U k0 s :
  rtc (owning_step U) (k0, empty_RouteTable) s → accounted k0 s.
Proof.
  intros Hsteps. eapply (rtc_ind_r (accounted k0)); [| |exact Hsteps]; [apply ledger_refl|].
  intros s1 s2 _ [c s' Hc] HI. clear Hsteps s1 s2.
  apply preserves_run; auto using remove_accounted.
  destruct c; auto using add_accounted; [done|]. intros [k t] Hs.
  destruct (clear_run k0 k t Hs) as (k' & -> & Hk').
  split_and!; [constructor|by intros r ?%elem_of_nil|].
  intros x. cbn. rewrite Hk', elem_of_nil. tauto.
Qed.

(** ** The kernel follows the tracked set

    Here the requests of [U] denote pairwise distinct objects. *)

Context (U : RouteSpec → Prop).
Context (Hinj : ∀ r r', U r → U r' → realize r = realize (K:=K) r' → r = r').

Definition in_sync (k0 : K) (s : K * RouteTable) : Prop :=
  accounted k0 s ∧ NoDup (routes_ s.2) ∧ owned_routes_ s.2 ⊆ routes_ s.2 ∧
  ∀ r, r ∈ routes_ s.2 → U r ∧ installed s.1 (realize r).

Lemma add_in_sync k0 spec : U spec → preserves (in_sync k0) (add spec).
Proof.
  intros HU [k t] (Ha & Hd & Ho & Hi). split; [by apply add_accounted|].
  unfold add, on_kernel. cbn in *. unfold mbind, stexc_bind. cbn.
  destruct (is_tracked spec t) eqn:E; [done|]. rewrite Hlive. cbn.
  assert (Hn : spec ∉ routes_ t) by by rewrite <-is_tracked_true, E.
  assert (Hnd : NoDup (routes_ t ++ [spec])).
  { apply NoDup_app. split_and!; [done|set_solver|apply NoDup_singleton]. }
  pose proof (nl_add_law k spec) as Hlaw.
  destruct (nl_add spec k) as [[[]|e|] k']; cbn; [..|done].
  - destruct Hlaw as [_ Hlaw]. split_and!; [done|set_solver|].
    intros r [Hr| ->%list_elem_of_singleton]%elem_of_app; rewrite Hlaw; naive_solver.
  - destruct Hlaw as [Hp Hlaw]. split_and!; [done|set_solver|].
    intros r [Hr| ->%list_elem_of_singleton]%elem_of_app; rewrite Hlaw; naive_solver.
  - split_and!; [done..|]. intros r Hr. rewrite Hlaw. auto.
Qed.

Lemma remove_in_sync k0 spec : preserves (in_sync k0) (remove spec).
Proof.
  intros [k t] (Ha & Hd & Ho & Hi). split; [by apply remove_accounted|].
  destruct (decide (spec ∈ routes_ t)) as [Hin|Hn]; [|by rewrite remove_untracked].
  destruct (remove_run k t spec k0 Ha Hin) as (k' & -> & _ & Hk'). cbn in *.
  pose proof (elem_of_erase_first_NoDup _ _ _ (λ r, routes_equal_true r spec) Hd) as Hr.
  split_and!.
  - by eapply sublist_NoDup, erase_first_sublist.
  - destruct Ha as (Hnd & _ & _). apply NoDup_fmap_1 in Hnd.
    pose proof (elem_of_erase_first_NoDup _ _ _ (λ r, routes_equal_true r spec) Hnd) as Hr'.
    intros r. rewrite Hr, Hr'. naive_solver.
  - intros r [Hrt Hne]%Hr. destruct (Hi r Hrt) as [Hu Hx]. split; [done|].
    apply Hk'. split; [done|]. intros _ He. apply Hne. apply Hinj; naive_solver.
Qed.

Lemma owning_in_sync k0 s :
  rtc (owning_step U) (k0, empty_RouteTable) s → in_sync k0 s.
Proof.
  intros Hsteps. eapply (rtc_ind_r (in_sync k0)); [| |exact Hsteps].
  - split; [apply ledger_refl|]. split_and!; [constructor|done|by intros r ?%elem_of_nil].
  - intros s1 s2 _ [c s' Hc] HI.
    apply preserves_run; [by auto using remove_in_sync| |done].
    destruct c; cbn in Hc; auto using add_in_sync; [done|]. intros [k t] Hs.
    destruct (clear_run k0 k t (proj1 Hs)) as (k' & -> & Hk'). split.
    + split_and!; [constructor|by intros r ?%elem_of_nil|].
      intros x. cbn. rewrite Hk', elem_of_nil. tauto.
    + split_and!; [constructor|done|by intros r ?%elem_of_nil].
Qed.

Lemma reconcile_installs_Ok k0 s desired s' :
  rtc (owning_step U) (k0, empty_RouteTable) s → (∀ r, r ∈ desired → U r) →
  reconcile desired s = (Ok tt, s') →
  ∀ x, installed s'.1 x ↔ installed k0 x ∨ ∃ r, r ∈ desired ∧ x = realize r.
Proof.
  intros Hsteps Hu Hrun x.
  assert (Hs' : in_sync k0 s').
  { apply owning_in_sync. eapply rtc_r; [exact Hsteps|].
    replace s' with (run (CReconcile desired) s).2 by (cbn; by rewrite Hrun).
    by constructor. }
  destruct Hs' as ((_ & _ & Hk) & _ & Ho & Hi).
  pose proof (reconcile_tracks_Ok desired s s' Hrun) as Ht. rewrite Hk. split.
  - intros [Hx|(r & -> & Hr)%list_elem_of_fmap]; [by left|]. right. exists r.
    split; [|done]. by apply Ht, Ho.
  - intros [Hx|(r & Hr & ->)]; [by left|]. apply Hk. by apply Hi, Ht.
Qed.
End route_table.

(** ** Properties *)

(** Whatever sequence of public calls the daemon makes on a fresh route
    table, and whichever of them throw, a route that was in the kernel before
    the first call is still there. *)
Theorem foreign_routes_survive {K Obj} `{!Netlink K RouteSpec Obj} dry_run k0 s :
  rtc (step dry_run) (k0, empty_RouteTable) s → ∀ x, installed k0 x → installed s.1 x.
Proof. apply foreign_routes_survive_Ok. Qed.

(** Ownership is exact: when the kernel grants the deletion of existing
    routes, [clear] after any sequence of calls other than [adopt_desired]
    returns normally, forgets every route and leaves exactly the routes that
    were in the kernel before the first call. *)
Theorem clear_restores_kernel {K Obj} `{!Netlink K RouteSpec Obj} k0 s :
  deletes_reliably K → rtc (owning_step false (λ _, True)) (k0, empty_RouteTable) s →
  ∃ k', clear false s = (Ok tt, (k', empty_RouteTable)) ∧
        ∀ x, installed k' x ↔ installed k0 x.
Proof.
  intros Hrel Hs. destruct s as [k t].
  by eapply clear_run, owning_accounted.
Qed.

(** A [reconcile] that returns leaves exactly the desired routes tracked
    and, if the routes asked for denote distinct objects and the kernel grants
    deletions, the kernel holds exactly what it held at the start and the
    desired routes. *)
Theorem reconcile_installs {K Obj} `{!Netlink K RouteSpec Obj} (U : RouteSpec → Prop)
    k0 s desired s' :
  deletes_reliably K →
  (∀ r r', U r → U r' → realize r = realize (K:=K) r' → r = r') →
  rtc (owning_step false U) (k0, empty_RouteTable) s → (∀ r, r ∈ desired → U r) →
  reconcile false desired s = (Ok tt, s') →
  (∀ r, r ∈ routes_ s'.2 ↔ r ∈ desired) ∧
  ∀ x, installed s'.1 x ↔ installed k0 x ∨ ∃ r, r ∈ desired ∧ x = realize r.
Proof.
  intros Hrel Hinj Hs HU Hrun. split; [by eapply reconcile_tracks_Ok|].
  by eapply reconcile_installs_Ok.
Qed.

(** *** Witnesses: a kernel that already holds one of two routes *)

Definition w_kernel : Netlink (list RouteSpec) RouteSpec RouteSpec := list_kernel id.
Definition w_old : RouteSpec := new_RouteSpec "10.0.0.0/8" 150.
Definition w_new : RouteSpec := new_RouteSpec "192.168.1.0/24" 150.

Lemma foreign_routes_survive_witness :
  w_old ∈ (run (NL:=w_kernel) false CClear (run (NL:=w_kernel) false
             (CAddMissing [w_old; w_new]) ([w_old], empty_RouteTable)).2).2.1.
Proof.
  apply (foreign_routes_survive (Netlink0:=w_kernel) false [w_old]); [|left].
  eapply rtc_l; [constructor|]. eapply rtc_l; [constructor|]. apply rtc_refl.
Defined.

Lemma clear_restores_kernel_witness :
  ∃ k', clear (NL:=w_kernel) false (run (NL:=w_kernel) false
          (CAddMissing [w_old; w_new]) ([w_old], empty_RouteTable)).2
        = (Ok tt, (k', empty_RouteTable)) ∧ ∀ x, x ∈ k' ↔ x ∈ [w_old].
Proof.
  apply (clear_restores_kernel (Netlink0:=w_kernel) [w_old]); [apply list_kernel_reliable|].
  apply rtc_once. by constructor.
Defined.

Lemma reconcile_installs_witness :
  let s := (run (NL:=w_kernel) false (CAdd w_old) ([w_old], empty_RouteTable)).2 in
  let s' := (run (NL:=w_kernel) false (CReconcile [w_new]) s).2 in
  (∀ r, r ∈ routes_ s'.2 ↔ r ∈ [w_new]) ∧
  ∀ x, x ∈ s'.1 ↔ x ∈ [w_old] ∨ ∃ r, r ∈ [w_new] ∧ x = r.
Proof.
  intros s s'.
  apply (reconcile_installs (Netlink0:=w_kernel) (λ _, True) [w_old] s [w_new] s').
  - apply list_kernel_reliable.
  - by intros r r' _ _.
  - apply rtc_once. by constructor.
  - done.
  - vm_compute. reflexivity.
Defined.
