(* ===== verification/PolicyRule.v ===== *)
(** * Policy rules (src/src/routing/policy_rule.{hpp,cpp})

    [PolicyRuleManager] tracks the rules it was asked for ([rules_]) and the
    concrete per-family rules it created ([owned_rules_]).  A rule of family 0
    stands for one IPv4 and one IPv6 rule; when creating the second one fails,
    the first one is rolled back. *)

From S2P Require Import Prelude CppString Netlink.

Local Open Scope Z_scope.

Record PolicyRuleManager := mk_PolicyRuleManager {
  rules_ : list RuleSpec;
  owned_rules_ : list RuleSpec;
}.

Definition empty_PolicyRuleManager : PolicyRuleManager := mk_PolicyRuleManager [] [].

Definition rules_equal (a b : RuleSpec) : bool :=
  (rl_fwmark a =? rl_fwmark b) &&
  (rl_fwmask a =? rl_fwmask b) &&
  (rl_table a =? rl_table b) &&
  (rl_priority a =? rl_priority b) &&
  (rl_family a =? rl_family b) &&
  bool_decide (rl_action a = rl_action b).

Section policy_rule.
Context {K Obj : Type} `{NL : !Netlink K RuleSpec Obj} (dry_run_ : bool).

Abbreviation op := (stexc (K * PolicyRuleManager) unit).

(** The requests ignore the family of the spec (netlink.cpp). *)
Definition add_rule_for_family (spec : RuleSpec) (family : Z) : stexc K AddResult :=
  nl_add (with_family family spec).
Definition delete_rule_for_family (spec : RuleSpec) (family : Z) : stexc K unit :=
  nl_delete (with_family family spec).

Definition is_tracked (spec : RuleSpec) (t : PolicyRuleManager) : bool :=
  any_of (λ r, rules_equal r spec) (rules_ t).

Definition families (spec : RuleSpec) : list Z :=
  if negb (rl_family spec =? 0) then [rl_family spec] else [AF_INET; AF_INET6].

(** The body of the [try] of [add], over the local vector [newly_owned]. *)
Definition create_families (spec : RuleSpec) : stexc (K * list RuleSpec) unit :=
  for_each (λ family,
    r ← on_kernel (add_rule_for_family spec family);
    if is_created r
    then modify_obj (λ newly_owned, newly_owned ++ [with_family family spec])
    else mret tt) (families spec).

Definition roll_back (newly_owned : list RuleSpec) : op :=
  for_each (λ it,
    try_catch_std (on_kernel (delete_rule_for_family it (rl_family it))) (λ _, mret tt))
    (reverse newly_owned).

Definition add (spec : RuleSpec) : op :=
  t ← get_obj;
  if is_tracked spec t then mret tt
  else
    newly_owned ← (if dry_run_ then mret []
      else λ s, match create_families spec (s.1, []) with
                | (Ok _, (k', newly_owned)) => (Ok newly_owned, (k', s.2))
                | (Throw e, (k', newly_owned)) =>
                    (roll_back newly_owned;; throw e) (k', s.2)
                | (Undefined, (k', _)) => (Undefined, (k', s.2))
                end);
    modify_obj (λ t, mk_PolicyRuleManager (rules_ t ++ [spec]) (owned_rules_ t ++ newly_owned)).

Definition owned_by (spec owned : RuleSpec) : bool :=
  rules_equal owned (with_family (rl_family owned) spec) &&
  ((rl_family spec =? 0) || (rl_family spec =? rl_family owned)).

(** The loop of [remove]: [kept] is the part of [owned_rules_] it has passed.
    An exception leaves the loop at once. *)
Fixpoint remove_owned (spec : RuleSpec) (kept todo : list RuleSpec) : op :=
  match todo with
  | [] => mret tt
  | owned :: todo' =>
      if owned_by spec owned then
        on_kernel (delete_rule_for_family owned (rl_family owned));;
        modify_obj (λ t, mk_PolicyRuleManager (rules_ t) (kept ++ todo'));;
        remove_owned spec kept todo'
      else remove_owned spec (kept ++ [owned]) todo'
  end.

Definition remove (spec : RuleSpec) : op :=
  t ← get_obj;
  match find_if (λ r, rules_equal r spec) (rules_ t) with
  | None => mret tt
  | Some _ =>
      (if negb dry_run_ then remove_owned spec [] (owned_rules_ t) else mret tt);;
      modify_obj (λ t, mk_PolicyRuleManager
        (erase_first (λ r, rules_equal r spec) (rules_ t)) (owned_rules_ t))
  end.

Definition add_missing (desired : list RuleSpec) : op := for_each add desired.

Definition remove_obsolete (desired : list RuleSpec) : op :=
  t ← get_obj;
  for_each (λ rule,
    if any_of (λ candidate, rules_equal rule candidate) desired then mret tt
    else remove rule) (rules_ t).

Definition reconcile (desired : list RuleSpec) : op :=
  add_missing desired;; remove_obsolete desired.

Definition adopt_desired (desired : list RuleSpec) : op :=
  modify_obj (λ _, mk_PolicyRuleManager desired []).

Definition clear : op :=
  t ← get_obj;
  for_each (λ it,
    if negb dry_run_
    then try_catch_all (on_kernel (delete_rule_for_family it (rl_family it))) (λ _, mret tt)
    else mret tt) (reverse (owned_rules_ t));;
  modify_obj (λ _, empty_PolicyRuleManager).

(** ** The public interface as a step relation *)

Inductive call :=
  | CAdd (spec : RuleSpec) | CRemove (spec : RuleSpec)
  | CReconcile (desired : list RuleSpec) | CAddMissing (desired : list RuleSpec)
  | CRemoveObsolete (desired : list RuleSpec) | CAdopt (desired : list RuleSpec)
  | CClear.

Definition run (c : call) : op :=
  match c with
  | CAdd spec => add spec
  | CRemove spec => remove spec
  | CReconcile desired => reconcile desired
  | CAddMissing desired => add_missing desired
  | CRemoveObsolete desired => remove_obsolete desired
  | CAdopt desired => adopt_desired desired
  | CClear => clear
  end.

Inductive step : K * PolicyRuleManager → K * PolicyRuleManager → Prop :=
  | step_call c s : step s (run c s).2.

(** The calls other than [adopt_desired], which gives up ownership. *)
Inductive owning_step : K * PolicyRuleManager → K * PolicyRuleManager → Prop :=
  | owning_step_call c s :
      match c with CAdopt _ => False | _ => True end → owning_step s (run c s).2.

(** ** Lemmas *)

Lemma with_family_same r : with_family (rl_family r) r = r.
Proof. by destruct r. Qed.

Lemma rules_equal_true a b : rules_equal a b = true ↔ a = b.
Proof.
  unfold rules_equal. rewrite !andb_true_iff, !Z.eqb_eq, !bool_decide_eq_true.
  destruct a, b; cbn. split; [intros; destruct_and?; by subst|].
  intros [=]. by subst.
Qed.

Lemma rule_is_tracked_true spec t : is_tracked spec t = true ↔ spec ∈ rules_ t.
Proof.
  unfold is_tracked. rewrite any_of_true. setoid_rewrite rules_equal_true. naive_solver.
Qed.

(** What the [try] of [add] may have created by the time it ends. *)
Lemma create_families_undisturbed k0 k spec owned :
  undisturbed k0 k owned →
  let s' := (create_families spec (k, [])).2 in undisturbed k0 s'.1 (owned ++ s'.2).
Proof.
  intros Hu s'. subst s'.
  apply (preserves_for_each (λ s, undisturbed k0 s.1 (owned ++ s.2))); [|by rewrite app_nil_r].
  clear k Hu. intros f _ [k l] Hu. unfold on_kernel, add_rule_for_family.
  cbn. unfold mbind, stexc_bind. cbn.
  pose proof (undisturbed_add k0 k _ (with_family f spec) Hu) as Ha.
  destruct (nl_add _ k) as [[[]|e|] k']; cbn in *; by rewrite ?app_assoc.
Qed.

Lemma create_families_ledger k0 k spec owned :
  ledger k0 k owned →
  let s' := (create_families spec (k, [])).2 in ledger k0 s'.1 (owned ++ s'.2).
Proof.
  intros Hu s'. subst s'.
  apply (preserves_for_each (λ s, ledger k0 s.1 (owned ++ s.2))); [|by rewrite app_nil_r].
  clear k Hu. intros f _ [k l] Hu. unfold on_kernel, add_rule_for_family.
  cbn. unfold mbind, stexc_bind. cbn.
  pose proof (ledger_add k0 k _ (with_family f spec) Hu) as Ha.
  destruct (nl_add _ k) as [[[]|e|] k']; cbn in *; by rewrite ?app_assoc.
Qed.

(** The loops keep whatever [add] and [remove] keep. *)
Lemma rule_preserves_run (I : K * PolicyRuleManager → Prop) :
  (∀ spec, preserves I (add spec)) → (∀ spec, preserves I (remove spec)) →
  ∀ c, match c with
       | CAdopt desired => preserves I (adopt_desired desired)
       | CClear => preserves I clear
       | _ => True
       end → preserves I (run c).
Proof.
  intros Ha Hr c Hc.
  assert (Hg : preserves I (get_obj (K:=K) (T:=PolicyRuleManager))) by by intros s.
  assert (Hro : ∀ desired, preserves I (remove_obsolete desired)).
  { intros desired. apply preserves_bind; [done|]. intros t. apply preserves_for_each.
    intros x _. destruct (any_of _ desired); [apply preserves_ret|apply Hr]. }
  assert (Ham : ∀ desired, preserves I (add_missing desired)).
  { intros desired. by apply preserves_for_each. }
  destruct c; cbn; auto. by apply preserves_bind.
Qed.

(** ** Rules that predate the process *)

Definition safe (k0 : K) (s : K * PolicyRuleManager) : Prop :=
  dry_run_ = false → undisturbed k0 s.1 (owned_rules_ s.2).

Lemma delete_undisturbed k0 k owned r :
  r ∈ owned → undisturbed k0 k owned →
  undisturbed k0 (delete_rule_for_family r (rl_family r) k).2 owned.
Proof.
  intros (o1 & o2 & ->)%list_elem_of_split Hu. unfold delete_rule_for_family.
  rewrite with_family_same. by apply undisturbed_delete.
Qed.

Lemma roll_back_safe k0 k t owned newly_owned :
  newly_owned ⊆ owned → undisturbed k0 k owned →
  let s' := (roll_back newly_owned (k, t)).2 in undisturbed k0 s'.1 owned ∧ s'.2 = t.
Proof.
  intros Hsub Hu s'. subst s'.
  apply (preserves_for_each (λ s, undisturbed k0 s.1 owned ∧ s.2 = t)); [|done].
  intros r Hr. apply preserves_catch_std; [|intros; apply preserves_ret].
  intros [k1 t1] [Hu1 Ht]. unfold on_kernel. cbn in *.
  apply elem_of_reverse, Hsub in Hr. pose proof (delete_undisturbed k0 k1 owned r Hr Hu1).
  by destruct (delete_rule_for_family _ _ k1).
Qed.

Lemma rule_add_safe k0 spec : preserves (safe k0) (add spec).
Proof.
  intros [k t] Hs Hd. specialize (Hs Hd). unfold add. cbn in *. unfold mbind, stexc_bind. cbn.
  destruct (is_tracked spec t); [done|]. rewrite Hd.
  pose proof (create_families_undisturbed k0 k spec _ Hs) as Hc. cbn in *.
  destruct (create_families spec (k, [])) as [[[]|e|] [k' l]]; cbn in *; [done| |].
  - destruct (roll_back_safe k0 k' t (owned_rules_ t ++ l) l ltac:(set_solver) Hc) as [Hu Ht].
    destruct (roll_back l (k', t)) as [[[]|e'|] [k1 t1]]; cbn in *; subst;
      (eapply undisturbed_sublist; [|exact Hu]); set_solver.
  - eapply undisturbed_sublist; [|exact Hc]; set_solver.
Qed.

Lemma remove_owned_safe k0 k t spec kept todo :
  owned_rules_ t = kept ++ todo → undisturbed k0 k (kept ++ todo) →
  let s' := (remove_owned spec kept todo (k, t)).2 in undisturbed k0 s'.1 (owned_rules_ s'.2).
Proof.
  revert kept k t. induction todo as [|o todo IH]; intros kept k t Ht Hu; cbn.
  - by rewrite Ht.
  - destruct (owned_by spec o).
    + unfold on_kernel. unfold mbind, stexc_bind. cbn.
      pose proof (delete_undisturbed k0 k (kept ++ o :: todo) o ltac:(set_solver) Hu) as Hd.
      destruct (delete_rule_for_family _ _ k) as [[[]|e|] k']; cbn in *; rewrite ?Ht; [|done..].
      apply IH; [done|]. eapply undisturbed_sublist; [|exact Hd]. set_solver.
    + apply IH; by rewrite <-app_assoc.
Qed.

Lemma rule_remove_safe k0 spec : preserves (safe k0) (remove spec).
Proof.
  intros [k t] Hs Hd. specialize (Hs Hd). unfold remove. cbn in *. unfold mbind, stexc_bind. cbn.
  destruct (find_if _ _); [|done]. rewrite Hd. cbn.
  pose proof (remove_owned_safe k0 k t spec [] _ eq_refl Hs) as Hr. cbn in Hr.
  by destruct (remove_owned _ _ _ _) as [[[]|e|] s'].
Qed.

(** The shutdown loop is the best-effort deletion of all owned rules. *)
Lemma clear_loop l :
  dry_run_ = false →
  for_each (S:=K * PolicyRuleManager) (λ it,
    if negb dry_run_
    then try_catch_all (on_kernel (delete_rule_for_family it (rl_family it))) (λ _, mret tt)
    else mret tt) l = for_each try_delete l.
Proof.
  intros ->. induction l as [|r l IH]; cbn; [done|]. rewrite <-IH. cbn.
  unfold delete_rule_for_family. by rewrite with_family_same.
Qed.

Lemma rule_clear_safe k0 : preserves (safe k0) clear.
Proof.
  intros [k t] Hs Hd. specialize (Hs Hd). unfold clear. cbn in *. unfold mbind, stexc_bind. cbn.
  rewrite clear_loop by done.
  destruct (undisturbed_delete_all k0 k (owned_rules_ t) (reverse (owned_rules_ t)) t)
    as (k' & -> & Hk'); [|done|].
  - intros r. apply elem_of_reverse.
  - cbn. eapply undisturbed_sublist; [|exact Hk']. set_solver.
Qed.

Lemma rule_run_safe k0 c : preserves (safe k0) (run c).
Proof.
  apply rule_preserves_run; auto using rule_remove_safe, rule_add_safe.
  destruct c; auto using rule_clear_safe. intros [k t] Hs Hd. cbn.
  eapply undisturbed_sublist; [|exact (Hs Hd)]. set_solver.
Qed.

Lemma rule_calls_dry_run c s : dry_run_ = true → (run c s).2.1 = s.1.
Proof.
  intros Hd. enough (H : preserves (λ s', s'.1 = s.1) (run c)) by by apply H.
  generalize s.1 as k. intros k. apply rule_preserves_run; [| |destruct c; try done].
  - intros spec [k' t] Hk. unfold add. cbn. unfold mbind, stexc_bind. cbn.
    rewrite Hd. by destruct (is_tracked spec t).
  - intros spec [k' t] Hk. unfold remove. cbn. unfold mbind, stexc_bind. cbn.
    rewrite Hd. by destruct (find_if _ _).
  - by intros [k' t].
  - apply preserves_bind; [by intros s'|]. intros t.
    apply preserves_bind; [|by intros _ s'].
    apply preserves_for_each. intros x _. rewrite Hd. apply preserves_ret.
Qed.

Lemma foreign_rules_survive_Ok k0 s :
  rtc step (k0, empty_PolicyRuleManager) s → ∀ x, installed k0 x → installed s.1 x.
Proof.
  intros Hsteps. destruct dry_run_ eqn:Hd.
  - assert (Hk : s.1 = k0); [|by rewrite Hk].
    eapply (rtc_ind_r (λ s, s.1 = k0)); [| |exact Hsteps]; [done|].
    intros s1 s2 _ [c s'] <-. by apply rule_calls_dry_run.
  - assert (Hs : safe k0 s); [|exact (proj2 (Hs Hd))].
    eapply (rtc_ind_r (safe k0)); [|..|exact Hsteps].
    + intros _. apply undisturbed_refl.
    + intros s1 s2 _ [c s'] HI. by apply rule_run_safe.
Qed.

(** ** Ownership is exact *)

Context (Hrel : deletes_reliably K) (Hlive : dry_run_ = false).

Definition accounted (k0 : K) (s : K * PolicyRuleManager) : Prop :=
  ledger k0 s.1 (owned_rules_ s.2).

Lemma roll_back_run k0 k t owned newly_owned :
  ledger k0 k (owned ++ newly_owned) →
  ∃ k', roll_back newly_owned (k, t) = (Ok tt, (k', t)) ∧ ledger k0 k' owned.
Proof.
  apply ledger_delete_suffix; [done|]. intros r k1 Hr.
  unfold try_catch_std, on_kernel, delete_rule_for_family. rewrite with_family_same. cbn.
  destruct (nl_delete r k1) as [q k']. cbn in *. by subst.
Qed.

Lemma create_families_total k spec : (create_families spec (k, [])).1 ≠ Undefined.
Proof.
  unfold create_families. generalize (families spec). intros fs.
  set (l := [] : list RuleSpec) at 2. generalize l. clear l. revert k.
  induction fs as [|f fs IH]; intros k l; cbn; [done|].
  unfold mbind, stexc_bind, on_kernel, add_rule_for_family. cbn.
  pose proof (nl_add_law k (with_family f spec)) as Hlaw.
  destruct (nl_add _ k) as [[[]|e|] k']; cbn; [apply IH|apply IH|done|done].
Qed.

Lemma create_families_installs k spec k' l' :
  create_families spec (k, []) = (Ok tt, (k', l')) →
  ∀ f, f ∈ families spec → installed k' (realize (with_family f spec)).
Proof.
  unfold create_families. generalize (families spec). intros fs.
  set (l := [] : list RuleSpec) at 2. generalize l. clear l.
  enough (Hg : ∀ k l, for_each (λ family, r ← on_kernel (add_rule_for_family spec family);
    if is_created r then modify_obj (λ newly_owned, newly_owned ++ [with_family family spec])
    else mret tt) fs (k, l) = (Ok tt, (k', l')) →
    (∀ x, installed k x → installed k' x) ∧
    ∀ f, f ∈ fs → installed k' (realize (with_family f spec))).
  { intros l H. by apply (Hg k l). }
  clear k. induction fs as [|f fs IH]; intros k l; cbn.
  - intros [= <- <-]. split; [done|]. by intros f ?%elem_of_nil.
  - unfold mbind, stexc_bind, on_kernel, add_rule_for_family. cbn.
    pose proof (nl_add_law k (with_family f spec)) as Hlaw.
    destruct (nl_add _ k) as [[[]|e|] k1]; cbn; intros H; [| |done..];
      apply IH in H as [H1 H2]; destruct Hlaw as [Hl1 Hl2];
      (split; [naive_solver|]); intros f' [->|Hf]%elem_of_cons; naive_solver.
Qed.

(** [add] takes effect completely or, when it throws, not at all. *)
Lemma add_run k0 k t spec :
  ledger k0 k (owned_rules_ t) →
  match add spec (k, t) with
  | (Ok _, (k', t')) => ledger k0 k' (owned_rules_ t') ∧
      (∀ r, r ∈ rules_ t' ↔ r = spec ∨ r ∈ rules_ t)
  | (Throw _, (k', t')) => t' = t ∧ ledger k0 k' (owned_rules_ t)
  | (Undefined, _) => False
  end.
Proof.
  intros Hl. unfold add. cbn. unfold mbind, stexc_bind. cbn.
  destruct (is_tracked spec t) eqn:Et.
  { split; [done|]. apply rule_is_tracked_true in Et. naive_solver. }
  rewrite Hlive. cbn.
  pose proof (create_families_ledger k0 k spec _ Hl) as Hc. cbn in Hc.
  pose proof (create_families_total k spec) as Hnu.
  destruct (create_families spec (k, [])) as [[[]|e|] [k' l]]; cbn in *; [| |done].
  - split; [done|]. intros r. rewrite elem_of_app, list_elem_of_singleton. tauto.
  - destruct (roll_back_run k0 k' t (owned_rules_ t) l Hc) as (k1 & -> & Hl'). done.
Qed.

Lemma add_atomic_Ok k t spec :
  match add spec (k, t) with
  | (Ok _, (k', t')) =>
      (∀ r, r ∈ rules_ t' ↔ r = spec ∨ r ∈ rules_ t) ∧
      (spec ∉ rules_ t → ∀ f, f ∈ families spec → installed k' (realize (with_family f spec)))
  | (Throw _, (k', t')) => t' = t ∧ ∀ x, installed k' x ↔ installed k x
  | (Undefined, _) => False
  end.
Proof.
  unfold add. cbn. unfold mbind, stexc_bind. cbn.
  destruct (is_tracked spec t) eqn:Et.
  { apply rule_is_tracked_true in Et. naive_solver. }
  rewrite Hlive. cbn.
  pose proof (create_families_ledger k k spec [] (ledger_refl k)) as Hc. cbn in Hc.
  pose proof (create_families_total k spec) as Hnu.
  pose proof (create_families_installs k spec) as Hi.
  destruct (create_families spec (k, [])) as [[[]|e|] [k' l]]; cbn in *; [| |done].
  - split; [|intros _; by eapply Hi]. intros r.
    rewrite elem_of_app, list_elem_of_singleton. tauto.
  - destruct (roll_back_run k k' t [] l Hc) as (k1 & -> & Hl'). split; [done|].
    by apply ledger_nil.
Qed.

(** The kernel holds what was there before and every family of every tracked rule. *)
Definition held (k0 : K) (s : K * PolicyRuleManager) : Prop :=
  ∀ x, installed s.1 x ↔
    installed k0 x ∨ ∃ r f, r ∈ rules_ s.2 ∧ f ∈ families r ∧ x = realize (with_family f r).

Lemma create_families_only k spec k' l' : create_families spec (k, []) = (Ok tt, (k', l')) →
  ∀ x, installed k' x ↔ installed k x ∨ ∃ f, f ∈ families spec ∧ x = realize (with_family f spec).
Proof.
  unfold create_families. generalize (families spec). intros fs. set (l := [] : list RuleSpec) at 2. generalize l. clear l.
  revert k. induction fs as [|f fs IH]; intros k l; cbn.
  - intros [= <- <-] x. setoid_rewrite elem_of_nil. naive_solver.
  - unfold mbind, stexc_bind, on_kernel, add_rule_for_family. cbn. pose proof (nl_add_law k (with_family f spec)) as Hlaw.
    setoid_rewrite elem_of_cons. destruct (nl_add _ k) as [[[]|e|] k1]; cbn; intros H; [| |done..]; intros x; rewrite (IH _ _ H x).
    + destruct Hlaw as [_ ->]. naive_solver.
    + destruct Hlaw as [Hp ->]. naive_solver.
Qed.

Lemma rule_add_held k0 spec : preserves (held k0) (add spec).
Proof.
  intros [k t] Hs. pose proof (add_atomic_Ok k t spec) as Ha. revert Ha. unfold add. cbn. unfold mbind, stexc_bind. cbn.
  destruct (is_tracked spec t); [done|]. rewrite Hlive. cbn. pose proof (create_families_only k spec) as Honly.
  pose proof (create_families_total k spec) as Hnu. destruct (create_families spec (k, [])) as [[[]|e|] [k' l]]; cbn in *; [| |done].
  - intros _ x. unfold held in Hs. cbn in *. rewrite (Honly k' l eq_refl x), Hs.
    setoid_rewrite elem_of_app. setoid_rewrite list_elem_of_singleton. naive_solver.
  - destruct (roll_back l (k', t)) as [[[]|e'|] [k1 t1]]; cbn; [| |done]; intros [-> Hk] x; cbn; rewrite Hk; apply Hs.
Qed.

Lemma rule_add_missing_held k0 desired : preserves (held k0) (add_missing desired).
Proof. apply preserves_for_each. intros r _. apply rule_add_held. Qed.

Lemma rule_add_missing_run k0 k t desired :
  ledger k0 k (owned_rules_ t) →
  match add_missing desired (k, t) with
  | (Ok _, (k', t')) => ledger k0 k' (owned_rules_ t') ∧
      (∀ r, r ∈ rules_ t' ↔ r ∈ desired ∨ r ∈ rules_ t)
  | (Throw _, (k', t')) => ledger k0 k' (owned_rules_ t')
  | (Undefined, _) => False
  end.
Proof.
  revert k t. induction desired as [|d desired IH]; intros k t Hl; cbn.
  { split; [done|]. intros r. rewrite elem_of_nil. tauto. }
  unfold mbind, stexc_bind. pose proof (add_run k0 k t d Hl) as Ha.
  destruct (add d (k, t)) as [[[]|e|] [k1 t1]]; [|by destruct Ha as [-> ?]|done].
  destruct Ha as [Hl1 Ht1]. specialize (IH k1 t1 Hl1). unfold add_missing in IH.
  destruct (for_each add desired (k1, t1)) as [[[]|e|] [k2 t2]]; [|done..].
  destruct IH as [Hl2 Ht2]. split; [done|]. intros r. rewrite Ht2, Ht1, elem_of_cons. tauto.
Qed.

Lemma remove_owned_run k0 k t spec kept todo :
  owned_rules_ t = kept ++ todo → ledger k0 k (kept ++ todo) →
  ∃ k', remove_owned spec kept todo (k, t) =
          (Ok tt, (k', mk_PolicyRuleManager (rules_ t)
                         (kept ++ List.filter (λ o, negb (owned_by spec o)) todo))) ∧
        ledger k0 k' (kept ++ List.filter (λ o, negb (owned_by spec o)) todo).
Proof.
  revert kept k t. induction todo as [|o todo IH]; intros kept k t Ht Hl; cbn.
  - exists k. rewrite <-Ht. by destruct t; cbn in *; rewrite Ht.
  - destruct (owned_by spec o) eqn:E; cbn.
    + unfold on_kernel, delete_rule_for_family. unfold mbind, stexc_bind. cbn.
      rewrite with_family_same. destruct (ledger_delete k0 k kept o todo Hrel Hl) as [Hr Hl'].
      destruct (nl_delete o k) as [q k']. cbn in *. subst q.
      apply (IH kept k' (mk_PolicyRuleManager (rules_ t) (kept ++ todo))); done.
    + destruct (IH (kept ++ [o]) k t) as (k' & Hrun & Hl'); [by rewrite <-app_assoc..|].
      rewrite <-!app_assoc in *. cbn in *. eauto.
Qed.

Lemma rule_clear_run k0 k t :
  accounted k0 (k, t) →
  ∃ k', clear (k, t) = (Ok tt, (k', empty_PolicyRuleManager)) ∧
        ∀ x, installed k' x ↔ installed k0 x.
Proof.
  intros Hs. unfold clear. cbn. unfold mbind, stexc_bind. cbn. rewrite clear_loop by done.
  destruct (ledger_delete_all k0 k (owned_rules_ t) t Hrel Hs) as (k' & -> & Hk').
  by exists k'.
Qed.

Lemma rule_owning_accounted k0 s :
  rtc owning_step (k0, empty_PolicyRuleManager) s → accounted k0 s.
Proof.
  intros Hsteps. eapply (rtc_ind_r (accounted k0)); [| |exact Hsteps]; [apply ledger_refl|].
  intros s1 s2 _ [c s' Hc] HI. clear Hsteps s1 s2.
  apply rule_preserves_run; [| |destruct c; try done|done].
  - intros spec [k t] Hs. pose proof (add_run k0 k t spec Hs) as Ha.
    destruct (add spec (k, t)) as [[[]|e|] [k' t']]; unfold accounted; cbn; naive_solver.
  - intros spec [k t] Hs. unfold remove. cbn. unfold mbind, stexc_bind. cbn.
    destruct (find_if _ _); [|done]. rewrite Hlive. cbn.
    destruct (remove_owned_run k0 k t spec [] _ eq_refl Hs) as (k' & -> & Hl'). done.
  - intros [k t] Hs. destruct (rule_clear_run k0 k t Hs) as (k' & -> & Hk').
    by apply ledger_nil.
Qed.
End policy_rule.

(** ** Properties *)

(** C32.  [add] is all or nothing: when it returns, the rule is tracked and, if
    it was not tracked before, the kernel holds it for each of its families;
    when it throws, the manager is unchanged and the kernel, which grants
    deletions of existing rules, holds exactly the rules it held before. *)
Theorem add_rule_all_or_nothing {K Obj} `{!Netlink K RuleSpec Obj} k t spec :
  deletes_reliably K →
  match add false spec (k, t) with
  | (Ok _, (k', t')) =>
      (∀ r, r ∈ rules_ t' ↔ r = spec ∨ r ∈ rules_ t) ∧
      (spec ∉ rules_ t → ∀ f, f ∈ families spec → installed k' (realize (with_family f spec)))
  | (Throw _, (k', t')) => t' = t ∧ ∀ x, installed k' x ↔ installed k x
  | (Undefined, _) => False
  end.
Proof. intros Hrel. by apply add_atomic_Ok. Qed.

(** Whatever sequence of public calls is made on a fresh policy-rule
    manager, and whichever of them throw, a rule that was in the kernel before
    the first call is still there. *)
Theorem foreign_rules_survive {K Obj} `{!Netlink K RuleSpec Obj} dry_run k0 s :
  rtc (step dry_run) (k0, empty_PolicyRuleManager) s →
  ∀ x, installed k0 x → installed s.1 x.
Proof. apply foreign_rules_survive_Ok. Qed.

(** When the kernel grants the deletion of existing rules, [clear] after
    any sequence of calls other than [adopt_desired] (calls that throw
    included) leaves exactly the rules that were there before the first call. *)
Theorem clear_restores_rules {K Obj} `{!Netlink K RuleSpec Obj} k0 s :
  deletes_reliably K → rtc (owning_step false) (k0, empty_PolicyRuleManager) s →
  ∃ k', clear false s = (Ok tt, (k', empty_PolicyRuleManager)) ∧
        ∀ x, installed k' x ↔ installed k0 x.
Proof. intros Hrel Hs. destruct s as [k t]. by eapply rule_clear_run, rule_owning_accounted. Qed.

(** *** Witnesses *)

Definition w_kernel : Netlink (list RuleSpec) RuleSpec RuleSpec := list_kernel id.
Definition w_rule : RuleSpec := mk_RuleSpec 65536 16711680 150 1000 0 RuleAction.lookup.
Definition w_foreign : RuleSpec := mk_RuleSpec 0 0 254 32766 AF_INET RuleAction.lookup.

(** A kernel without IPv6: creating an IPv6 rule fails. *)
Definition w_ipv4_add (r : RuleSpec) : stexc (list RuleSpec) AddResult := λ k,
  if Z.eqb (rl_family r) AF_INET6 then (Throw (NetlinkError "Failed to add rule"), k)
  else lk_add id r k.

Program Definition w_ipv4_kernel : Netlink (list RuleSpec) RuleSpec RuleSpec := {|
  nl_add := w_ipv4_add;
  nl_delete := lk_delete id;
  realize := id;
  installed k x := x ∈ k;
|}.
Next Obligation.
  intros k r. unfold w_ipv4_add. destruct (Z.eqb _ _); [done|].
  apply (nl_add_law (Netlink := w_kernel) k r).
Qed.
Next Obligation. intros k r. apply (nl_delete_law (Netlink := w_kernel) k r). Qed.

Lemma add_rule_all_or_nothing_witness :
  let t' := (add (NL:=w_ipv4_kernel) false w_rule ([w_foreign], empty_PolicyRuleManager)).2 in
  t'.2 = empty_PolicyRuleManager ∧ ∀ x, x ∈ t'.1 ↔ x ∈ [w_foreign].
Proof.
  apply (add_rule_all_or_nothing (Netlink0:=w_ipv4_kernel) [w_foreign] empty_PolicyRuleManager
           w_rule).
  intros k r Hr. cbn in *. unfold lk_delete. by rewrite bool_decide_eq_true_2.
Defined.

Lemma foreign_rules_survive_witness :
  w_foreign ∈ (run (NL:=w_kernel) false CClear (run (NL:=w_kernel) false
    (CAdd w_rule) ([w_foreign], empty_PolicyRuleManager)).2).2.1.
Proof.
  apply (foreign_rules_survive (Netlink0:=w_kernel) false [w_foreign]); [|left].
  eapply rtc_l; [constructor|]. eapply rtc_l; [constructor|]. apply rtc_refl.
Defined.

Lemma clear_restores_rules_witness :
  ∃ k', clear (NL:=w_kernel) false (run (NL:=w_kernel) false
          (CAddMissing [w_foreign; w_rule]) ([w_foreign], empty_PolicyRuleManager)).2
        = (Ok tt, (k', empty_PolicyRuleManager)) ∧ ∀ x, x ∈ k' ↔ x ∈ [w_foreign].
Proof.
  apply (clear_restores_rules (Netlink0:=w_kernel) [w_foreign]); [apply list_kernel_reliable|].
  apply rtc_once. by constructor.
Defined.
