(* ===== verification/RoutingReconciler.v ===== *)
(** * The routing reconciler (src/src/routing/routing_reconciler.cpp)

    [RoutingReconciler::reconcile] brings the kernel's routes and policy rules
    to the desired ones without any record of what was installed before: routes
    are owned through their protocol number, rules through the marks of the
    active configuration.  The kernel is the interface [RoutingNetlink]. *)

From S2P Require Import Prelude CppString Netlink.

Local Open Scope Z_scope.

(** [RoutingNetlinkOperations], with the sets of routes and rules a kernel
    state holds, as a dump reports them. *)
Class RoutingNetlink (K : Type) := {
  dump_routes_in_table : Z → stexc K (list DumpedRoute);
  dump_policy_rules : stexc K (list DumpedRule);
  add_route : RouteSpec → stexc K AddResult;
  delete_route : RouteSpec → stexc K unit;
  add_rule_for_family : RuleSpec → Z → stexc K AddResult;
  delete_rule_for_family : RuleSpec → Z → stexc K unit;
  kroutes : K → DumpedRoute → Prop;
  krules : K → DumpedRule → Prop;
}.

(** What the requests do.  [shown] is how the kernel reports a route that was
    requested ([shown_rule] a rule); a route that the kernel reports is
    reported the same way when it is requested again. *)
Class RoutingNetlinkLaws K `{RN : !RoutingNetlink K} := {
  shown : RouteSpec → DumpedRoute;
  shown_rule : RuleSpec → Z → DumpedRule;
  same_kernel (k k' : K) := (∀ d, kroutes k' d ↔ kroutes k d) ∧ (∀ d, krules k' d ↔ krules k d);
  dump_routes_law k t :
    let '(r, k') := dump_routes_in_table t k in same_kernel k k' ∧
    match r with Ok l => ∀ d, d ∈ l ↔ kroutes k d ∧ dr_table d = t | _ => True end;
  dump_rules_law k :
    let '(r, k') := dump_policy_rules k in same_kernel k k' ∧
    match r with Ok l => ∀ d, d ∈ l ↔ krules k d | _ => True end;
  add_route_law k s :
    match add_route s k with
    | (Ok Created, k') => (∀ d, kroutes k' d ↔ d = shown s ∨ kroutes k d) ∧
                          ∀ d, krules k' d ↔ krules k d
    | (_, k') => same_kernel k k'
    end;
  delete_route_law k s :
    match delete_route s k with
    | (Ok _, k') => (∀ d, kroutes k' d ↔ kroutes k d ∧ d ≠ shown s) ∧
                    ∀ d, krules k' d ↔ krules k d
    | (_, k') => same_kernel k k'
    end;
  add_rule_law k s f :
    match add_rule_for_family s f k with
    | (Ok Created, k') => (∀ d, kroutes k' d ↔ kroutes k d) ∧
                          ∀ d, krules k' d ↔ d = shown_rule s f ∨ krules k d
    | (Ok AlreadyPresent, k') => krules k (shown_rule s f) ∧ same_kernel k k'
    | (_, k') => same_kernel k k'
    end;
  delete_rule_law k s f :
    match delete_rule_for_family s f k with
    | (Ok _, k') => (∀ d, kroutes k' d ↔ kroutes k d) ∧
                    ∀ d, krules k' d ↔ krules k d ∧ d ≠ shown_rule s f
    | (_, k') => same_kernel k k'
    end;
}.

Definition route_family (route : RouteSpec) : Z :=
  if negb (rs_family route =? 0) then rs_family route
  else if bool_decide (rs_destination route = "default") then AF_INET else 0.

Definition same_route (expected : RouteSpec) (actual : DumpedRoute)
    (include_protocol : bool) : bool :=
  bool_decide (rs_destination expected = dr_destination actual) &&
  (rs_table expected =? dr_table actual) &&
  bool_decide (rs_interface expected = dr_interface actual) &&
  bool_decide (rs_gateway expected = dr_gateway actual) &&
  Bool.eqb (rs_blackhole expected) (dr_blackhole actual) &&
  Bool.eqb (rs_unreachable expected) (dr_unreachable actual) &&
  (route_family expected =? dr_family actual) &&
  (rs_metric expected =? dr_metric actual) &&
  (negb include_protocol || (rs_protocol expected =? dr_protocol actual)).

Definition same_route_lookup_key (expected : RouteSpec) (actual : DumpedRoute) : bool :=
  bool_decide (rs_destination expected = dr_destination actual) &&
  (rs_table expected =? dr_table actual) &&
  (route_family expected =? dr_family actual).

Definition route_spec_from_dump (r : DumpedRoute) : RouteSpec :=
  mk_RouteSpec (dr_destination r) (dr_table r) (dr_interface r) (dr_gateway r)
    (dr_blackhole r) (dr_unreachable r) (dr_family r) (dr_metric r) (dr_protocol r).

Definition dumped_route_from_spec (r : RouteSpec) : DumpedRoute :=
  mk_DumpedRoute (rs_destination r) (rs_table r) (rs_interface r) (rs_gateway r)
    (rs_blackhole r) (rs_unreachable r) (rs_family r) (rs_metric r) (rs_protocol r).

Definition same_rule (expected : RuleSpec) (actual : DumpedRule) : bool :=
  (rl_fwmark expected =? du_fwmark actual) && (rl_fwmask expected =? du_fwmask actual) &&
  (rl_table expected =? du_table actual) && (rl_priority expected =? du_priority actual) &&
  bool_decide (rl_action expected = du_action actual) &&
  ((rl_family expected =? 0) || (rl_family expected =? du_family actual)).

Definition rule_namespace_owned (actual : DumpedRule) (desired : list RuleSpec) : bool :=
  any_of (λ expected,
    negb (rl_fwmark expected =? 0) && negb (rl_fwmask expected =? 0) &&
    (rl_fwmark expected =? du_fwmark actual) && (rl_fwmask expected =? du_fwmask actual))
    desired.

Definition rule_from_spec (spec : RuleSpec) (family : Z) : DumpedRule :=
  mk_DumpedRule (rl_priority spec) (rl_fwmark spec) (rl_fwmask spec) (rl_table spec)
    family (rl_action spec).

Definition rule_spec_from_dump (r : DumpedRule) : RuleSpec :=
  mk_RuleSpec (du_fwmark r) (du_fwmask r) (du_table r) (du_priority r) (du_family r)
    (du_action r).

(** Is the route asked for by one of [desired]? *)
Definition wanted (desired : list RouteSpec) (actual : DumpedRoute) : bool :=
  any_of (λ candidate, same_route candidate actual true) desired.
Definition generated (actual : DumpedRoute) : bool :=
  dr_protocol actual =? KEEN_PBR_GENERATED_ROUTE_PROTOCOL.

Section reconcile.
Context {K : Type} `{RN : !RoutingNetlink K}.

Definition tables_of (desired_routes : list RouteSpec) : list Z :=
  foldl (λ tables r, set_insert (rs_table r) tables) [] desired_routes.

Fixpoint dump_tables (tables : list Z) (actual_routes : list DumpedRoute) :
    stexc K (list DumpedRoute) :=
  match tables with
  | [] => mret actual_routes
  | table :: tables =>
      routes ← dump_routes_in_table table;
      dump_tables tables (actual_routes ++ routes)
  end.

(** The inner loop of the conflict check: does it reach the [throw]? *)
Fixpoint conflicts (desired : RouteSpec) (actual_routes : list DumpedRoute) : bool :=
  match actual_routes with
  | [] => false
  | actual :: rest =>
      if same_route desired actual true then false
      else if negb (generated actual) && same_route desired actual false then true
      else conflicts desired rest
  end.

Definition check_conflicts (desired_routes : list RouteSpec)
    (actual_routes : list DumpedRoute) : stexc K unit :=
  for_each (λ desired,
    if conflicts desired actual_routes
    then throw (NetlinkError ("Foreign route conflicts with desired route in table " ++
                              to_string (rs_table desired) ++
                              "; choose a different table_start"))
    else mret tt) desired_routes.

(** Delete the generated routes that occupy the place of [desired]; returns
    what is left of [actual_routes]. *)
Definition replaceable (desired_routes : list RouteSpec) (desired : RouteSpec)
    (actual : DumpedRoute) : bool :=
  generated actual && negb (wanted desired_routes actual) &&
  same_route_lookup_key desired actual.

Fixpoint replace_generated (desired_routes : list RouteSpec) (desired : RouteSpec)
    (actual_routes : list DumpedRoute) : stexc K (list DumpedRoute) :=
  match actual_routes with
  | [] => mret []
  | it :: rest =>
      if replaceable desired_routes desired it then
        delete_route (route_spec_from_dump it);;
        replace_generated desired_routes desired rest
      else
        rest' ← replace_generated desired_routes desired rest;
        mret (it :: rest')
  end.

Fixpoint add_routes (desired_routes todo : list RouteSpec)
    (actual_routes : list DumpedRoute) : stexc K (list DumpedRoute) :=
  match todo with
  | [] => mret actual_routes
  | desired :: todo =>
      if any_of (λ actual, same_route desired actual true) actual_routes
      then add_routes desired_routes todo actual_routes
      else
        actual_routes ← replace_generated desired_routes desired actual_routes;
        result ← add_route desired;
        if is_created result
        then add_routes desired_routes todo (actual_routes ++ [dumped_route_from_spec desired])
        else
          refreshed ← dump_routes_in_table (rs_table desired);
          if negb (any_of (λ actual, same_route desired actual true) refreshed)
          then throw (NetlinkError
                 ("kernel reported route already present but desired route is absent in table "
                  ++ to_string (rs_table desired)))
          else add_routes desired_routes todo actual_routes
  end.

Definition prune_routes (desired_routes : list RouteSpec)
    (actual_routes : list DumpedRoute) : stexc K unit :=
  for_each (λ actual,
    if negb (generated actual) then mret tt
    else if negb (wanted desired_routes actual)
         then delete_route (route_spec_from_dump actual)
         else mret tt) actual_routes.

Definition add_rules (desired_rules : list RuleSpec) (actual_rules : list DumpedRule) :
    stexc K unit :=
  for_each (λ desired,
    for_each (λ family,
      if negb (rl_family desired =? 0) && negb (rl_family desired =? family) then mret tt
      else if negb (any_of (λ actual, same_rule desired actual && (du_family actual =? family))
                      actual_rules)
           then add_rule_for_family desired family ≫= λ _, mret tt
           else mret tt) [AF_INET; AF_INET6]) desired_rules.

Definition prune_rules (desired_rules : list RuleSpec) (actual_rules : list DumpedRule) :
    stexc K unit :=
  for_each (λ actual,
    if negb (rule_namespace_owned actual desired_rules) then mret tt
    else if negb (any_of (λ desired, same_rule desired actual) desired_rules)
         then delete_rule_for_family (rule_spec_from_dump actual) (du_family actual)
         else mret tt) actual_rules.

Definition reconcile (desired_routes : list RouteSpec) (desired_rules : list RuleSpec) :
    stexc K unit :=
  actual_routes ← dump_tables (tables_of desired_routes) [];
  check_conflicts desired_routes actual_routes;;
  actual_routes ← add_routes desired_routes desired_routes actual_routes;
  prune_routes desired_routes actual_routes;;
  actual_rules ← dump_policy_rules;
  add_rules desired_rules actual_rules;;
  prune_rules desired_rules actual_rules.

(** A route of the kernel is what was asked for: everything is as requested, except
    that the kernel chooses the metric when none was given (Linux reports the
    metric 1024 for such a route of IPv6). *)
Definition at_metric (m : Z) (r : RouteSpec) : RouteSpec :=
  mk_RouteSpec (rs_destination r) (rs_table r) (rs_interface r) (rs_gateway r)
    (rs_blackhole r) (rs_unreachable r) (rs_family r) m (rs_protocol r).
Definition installed_as (r : RouteSpec) (d : DumpedRoute) : Prop :=
  same_route (at_metric (dr_metric d) r) d true = true ∧ (rs_metric r = 0 ∨ rs_metric r = dr_metric d).

(** ** Laws

    A dump is reproducible when the generated routes and the owned rules it lists
    are reported again as they are after they are requested. *)

Context `{RL : !RoutingNetlinkLaws K}.

Definition canonical (d : DumpedRoute) : Prop := shown (route_spec_from_dump d) = d.
Definition canonical_rule (d : DumpedRule) : Prop :=
  shown_rule (rule_spec_from_dump d) (du_family d) = d.

Context (k0 : K) (desired_routes : list RouteSpec) (desired_rules : list RuleSpec).

(** The desired routes name their family and the kernel installs them as they were
    asked for; a generated route of a managed table and a rule with a configured
    mark are addressed by what a dump says of them; rules are reported as they
    were asked for. *)
Record reproducible : Prop := {
  rep_routes d : kroutes k0 d → dr_table d ∈ tables_of desired_routes → generated d = true → canonical d;
  rep_rules d : krules k0 d → rule_namespace_owned d desired_rules = true → canonical_rule d;
  rep_family r : r ∈ desired_routes → rs_family r ≠ 0;
  rep_shown r : r ∈ desired_routes → installed_as r (shown r);
  rep_shown_rule r f : r ∈ desired_rules → shown_rule r f = rule_from_spec r f;
}.

Context (Hrep : reproducible).

Lemma elem_of_tables_of t : t ∈ tables_of desired_routes ↔ ∃ r, r ∈ desired_routes ∧ rs_table r = t.
Proof.
  unfold tables_of.
  enough (H : ∀ l acc, t ∈ foldl (λ tables r, set_insert (rs_table r) tables) acc l ↔
    t ∈ acc ∨ ∃ r, r ∈ l ∧ rs_table r = t).
  { rewrite H, elem_of_nil. tauto. }
  induction l as [|r l IH]; intros acc; cbn.
  - setoid_rewrite elem_of_nil. naive_solver.
  - rewrite IH, elem_of_set_insert. setoid_rewrite elem_of_cons. naive_solver.
Qed.

Lemma same_route_self r : rs_family r ≠ 0 → same_route r (dumped_route_from_spec r) true = true.
Proof.
  intros Hf. unfold same_route, route_family. cbn.
  rewrite (proj2 (Z.eqb_neq _ _) Hf). cbn.
  by rewrite !bool_decide_eq_true_2, !Z.eqb_refl, !eqb_reflx.
Qed.

Lemma same_route_installed r d : same_route r d true = true → installed_as r d.
Proof.
  intros Hs. unfold installed_as. assert (Hm : rs_metric r = dr_metric d).
  { unfold same_route in Hs. rewrite !andb_true_iff, !Z.eqb_eq in Hs. by destruct_and!. }
  split; [|by right]. rewrite <-Hm. by destruct r.
Qed.

Lemma installed_key r d : installed_as r d → same_route_lookup_key r d = true.
Proof.
  intros [Hs _]. unfold same_route, same_route_lookup_key, route_family in *.
  cbn [rs_destination rs_table rs_family at_metric] in Hs. rewrite !andb_true_iff in *. by destruct_and!.
Qed.

(** A route that the dump showed before the run *)
Definition known (d : DumpedRoute) : Prop :=
  dr_table d ∈ tables_of desired_routes ∧ (generated d = true → canonical d).

Lemma wanted_desired r : r ∈ desired_routes → wanted desired_routes (dumped_route_from_spec r) = true.
Proof.
  intros Hr. apply any_of_true. exists r. split; [done|].
  by apply same_route_self, rep_family.
Qed.

(** ** Nothing foreign and nothing wanted is deleted *)

(** A route that is not a stale generated route of a managed table. *)
Definition protected_route (d : DumpedRoute) : Prop :=
  ¬ (generated d = true ∧ wanted desired_routes d = false ∧
     dr_table d ∈ tables_of desired_routes).

Definition protected_rule (d : DumpedRule) : Prop :=
  ¬ (rule_namespace_owned d desired_rules = true ∧
     any_of (λ desired, same_rule desired d) desired_rules = false).

(** The routes a state may have lost since [k0] are unprotected, and it has no
    rules that are not reproducible. *)
Definition kept (k : K) : Prop :=
  (∀ d, protected_route d → kroutes k0 d → kroutes k d) ∧
  (∀ d, protected_rule d → krules k0 d → krules k d).

Lemma kept_same k k' : same_kernel k k' → kept k → kept k'.
Proof. intros [H1 H2] [Hr Hu]. split; intros d Hd H0; [apply H1|apply H2]; auto. Qed.

Lemma kept_add_route k s : kept k → kept (add_route s k).2.
Proof.
  intros Hk. pose proof (add_route_law k s) as Hl.
  destruct (add_route s k) as [[[]|e|] k']; cbn; try by eapply kept_same.
  destruct Hl as [H1 H2], Hk as [Hr Hu]. split; intros d Hd H0; [apply H1|apply H2]; auto.
Qed.

Lemma kept_delete_route k d : 
  known d → generated d = true → wanted desired_routes d = false →
  kept k → kept (delete_route (route_spec_from_dump d) k).2.
Proof.
  intros [Ht Hc] Hg Hw Hk. specialize (Hc Hg). unfold canonical in Hc. pose proof (delete_route_law k (route_spec_from_dump d)) as Hl.
  destruct (delete_route _ k) as [[[]|e|] k']; cbn; try by eapply kept_same.
  destruct Hl as [H1 H2], Hk as [Hr Hu]. split; intros d' Hd H0; [apply H1|apply H2; auto].
  split; [auto|]. rewrite Hc. intros ->. by apply Hd.
Qed.

Lemma kept_add_rule k s f : kept k → kept (add_rule_for_family s f k).2.
Proof.
  intros Hk. pose proof (add_rule_law k s f) as Hl.
  destruct (add_rule_for_family s f k) as [[[]|e|] k']; cbn; try by eapply kept_same.
  - destruct Hl as [H1 H2], Hk as [Hr Hu]. split; intros d Hd H0; [apply H1|apply H2]; auto.
  - eapply kept_same; [apply Hl|done].
Qed.

Lemma kept_delete_rule k d :
  canonical_rule d → rule_namespace_owned d desired_rules = true →
  any_of (λ desired, same_rule desired d) desired_rules = false →
  kept k → kept (delete_rule_for_family (rule_spec_from_dump d) (du_family d) k).2.
Proof.
  intros Hc Hn Hw Hk.
  pose proof (delete_rule_law k (rule_spec_from_dump d) (du_family d)) as Hl.
  destruct (delete_rule_for_family _ _ k) as [[[]|e|] k']; cbn; try by eapply kept_same.
  destruct Hl as [H1 H2], Hk as [Hr Hu]. split; intros d' Hd H0; [apply H1; auto|apply H2].
  split; [auto|]. rewrite Hc. intros ->. by apply Hd.
Qed.

(** ** The phases *)

Lemma same_kernel_trans k1 k2 k3 : same_kernel k1 k2 → same_kernel k2 k3 → same_kernel k1 k3.
Proof.
  intros [H1 H2] [H3 H4]. split; intros d; [by rewrite H3, H1|by rewrite H4, H2].
Qed.

Lemma dump_tables_run ts A k :
  let '(r, k') := dump_tables ts A k in
  same_kernel k k' ∧
  match r with
  | Ok A' => ∀ d, d ∈ A' ↔ d ∈ A ∨ kroutes k d ∧ dr_table d ∈ ts
  | _ => True
  end.
Proof.
  revert A k. induction ts as [|t ts IH]; intros A k; cbn.
  - split; [done|]. intros d. rewrite elem_of_nil. tauto.
  - unfold mbind, stexc_bind. pose proof (dump_routes_law k t) as Hl.
    destruct (dump_routes_in_table t k) as [[l|e|] k1]; [|naive_solver..].
    destruct Hl as [Hs Hl]. specialize (IH (A ++ l) k1).
    destruct (dump_tables ts (A ++ l) k1) as [[A'|e|] k']; destruct IH as [Hs' IH];
      (split; [by eapply same_kernel_trans|done || idtac]).
    intros d. rewrite IH, elem_of_app, Hl, elem_of_cons, (proj1 Hs d). tauto.
Qed.

Lemma replaceable_true desired d :
  replaceable desired_routes desired d = true →
  generated d = true ∧ wanted desired_routes d = false.
Proof. unfold replaceable. breflect. tauto. Qed.

Definition stale (d : DumpedRoute) : bool :=
  generated d && negb (wanted desired_routes d).

Lemma stale_true d : stale d = true ↔ generated d = true ∧ wanted desired_routes d = false.
Proof. unfold stale. by rewrite andb_true_iff, negb_true_iff. Qed.

Lemma replace_generated_run desired A k :
  (∀ d, d ∈ A → stale d = true → known d) → kept k →
  let '(r, k') := replace_generated desired_routes desired A k in
  kept k' ∧ (∀ d, krules k' d ↔ krules k d) ∧
  match r with
  | Ok A' => (∀ d, d ∈ A' ↔ d ∈ A ∧ replaceable desired_routes desired d = false) ∧
             ∀ d, kroutes k' d ↔ kroutes k d ∧
                    ¬ (d ∈ A ∧ replaceable desired_routes desired d = true)
  | _ => True
  end.
Proof.
  revert k. induction A as [|it A IH]; intros k HA Hk; cbn.
  - split; [done|]. split; [done|]. setoid_rewrite elem_of_nil. split; naive_solver.
  - assert (HA' : ∀ d, d ∈ A → stale d = true → known d) by (intros d Hd; apply HA; by right).
    destruct (replaceable desired_routes desired it) eqn:E; unfold mbind, stexc_bind.
    + destruct (replaceable_true _ _ E) as [Hg Hw].
      assert (Hkn : known it) by (apply HA; [left|by apply stale_true]).
      pose proof (kept_delete_route k it Hkn Hg Hw Hk) as Hk1.
      pose proof (delete_route_law k (route_spec_from_dump it)) as Hl.
      destruct (delete_route _ k) as [[[]|e|] k1]; cbn in Hk1; [|by destruct Hl..].
      specialize (IH k1 HA' Hk1). destruct (replace_generated _ _ A k1) as [[A'|e|] k'];
        destruct IH as (Hk' & Hu & IH), Hl as [Hl1 Hl2];
        (split; [done|]); (split; [intros d; by rewrite Hu, Hl2|]); [|done..].
      destruct IH as [IH1 IH2]. pose proof (proj2 Hkn Hg) as Hc. unfold canonical in Hc. split; intros d.
      * rewrite IH1, elem_of_cons. split; [tauto|]. intros [[->|?] ?]; [congruence|done].
      * rewrite IH2, Hl1, elem_of_cons, Hc.
        destruct (decide (d = it)) as [->|]; tauto.
    + specialize (IH k HA' Hk). destruct (replace_generated _ _ A k) as [[A'|e|] k']; [|done..].
      destruct IH as (Hk' & Hu & IH1 & IH2). split; [done|]. split; [done|]. split; intros d.
      * rewrite !elem_of_cons, IH1. split; [|tauto]. intros [->|?]; tauto.
      * rewrite IH2, elem_of_cons. split; [|tauto]. intros [? Hn]. split; [done|].
        intros [[->|?] ?]; [congruence|tauto].
Qed.

(** The working list [A] consists of the routes [R] that the dump showed and that are
    left, and of the desired routes [P] that were added, noted as requested; the
    kernel holds the former, and the latter as it shows them.  A stale route
    never has the place of an added one. *)
Record tracked (k : K) (A R : list DumpedRoute) (P : list RouteSpec) : Prop := {
  tr_kept : kept k;
  tr_rules d : krules k d ↔ krules k0 d;
  tr_list d : d ∈ A ↔ d ∈ R ∨ d ∈ dumped_route_from_spec <$> P;
  tr_known d : d ∈ R → known d;
  tr_added p : p ∈ P → p ∈ desired_routes;
  tr_fresh d p : d ∈ R → p ∈ P → stale d = true → same_route_lookup_key p d = false;
  tr_sync d : dr_table d ∈ tables_of desired_routes → (kroutes k d ↔ d ∈ R ∨ ∃ p, p ∈ P ∧ d = shown p);
}.

Lemma tracked_same k k' A R P : same_kernel k k' → tracked k A R P → tracked k' A R P.
Proof.
  intros Hs [H1 H2 H3 H4 H5 H6 H7]. split; [by eapply kept_same|..|done|done|done|done|].
  - intros d. rewrite <-H2. apply Hs.
  - intros d Hd. rewrite <-(H7 d Hd). apply Hs.
Qed.

(** What is stale in the working list was dumped. *)
Lemma stale_dumped k A R P d : tracked k A R P → d ∈ A → stale d = true → d ∈ R.
Proof.
  intros Htr [Hd|(p & -> & Hp)%list_elem_of_fmap]%(tr_list _ _ _ _ Htr) Hs; [done|]. exfalso.
  apply stale_true in Hs as [_ Hw]. rewrite wanted_desired in Hw; [done|]. by apply (tr_added _ _ _ _ Htr).
Qed.
Lemma stale_known k A R P d : tracked k A R P → d ∈ A → stale d = true → known d.
Proof. intros Htr Hd Hs. apply (tr_known _ _ _ _ Htr). by eapply stale_dumped. Qed.
Lemma added_not_stale k A R P p : tracked k A R P → p ∈ P → ¬ (shown p ∈ A ∧ stale (shown p) = true).
Proof.
  intros Htr Hp [Hin Hs]. pose proof (stale_dumped _ _ _ _ _ Htr Hin Hs) as HR.
  pose proof (tr_fresh _ _ _ _ Htr _ _ HR Hp Hs) as Hf. rewrite installed_key in Hf; [done|].
  apply (rep_shown Hrep). by apply (tr_added _ _ _ _ Htr).
Qed.

(** The replacement of what occupies the place of [r] *)
Lemma replace_tracked r k A R P k' A' : tracked k A R P → kept k' → (∀ d, krules k' d ↔ krules k d) →
  (∀ d, d ∈ A' ↔ d ∈ A ∧ replaceable desired_routes r d = false) →
  (∀ d, kroutes k' d ↔ kroutes k d ∧ ¬ (d ∈ A ∧ replaceable desired_routes r d = true)) →
  tracked k' A' (List.filter (λ d, negb (replaceable desired_routes r d)) R) P.
Proof.
  intros Htr Hk Hu HA HK.
  assert (HR : ∀ d, d ∈ List.filter (λ d, negb (replaceable desired_routes r d)) R ↔ d ∈ R ∧ replaceable desired_routes r d = false).
  { intros d. by rewrite !list_elem_of_In, filter_In, negb_true_iff. }
  split; [done|..].
  - intros d. rewrite Hu. apply Htr.
  - intros d. rewrite HA, HR, (tr_list _ _ _ _ Htr). split; [tauto|]. intros [?|Hp]; [tauto|]. split; [by right|].
    apply list_elem_of_fmap in Hp as (p & -> & Hp). unfold replaceable.
    rewrite wanted_desired by (by apply (tr_added _ _ _ _ Htr)). cbn. by rewrite andb_false_r.
  - intros d [Hd _]%HR. by apply (tr_known _ _ _ _ Htr).
  - apply Htr.
  - intros d p [Hd _]%HR. by apply (tr_fresh _ _ _ _ Htr).
  - intros d Hd. rewrite HK, HR, (tr_sync _ _ _ _ Htr d Hd). split.
    + intros [[HRd|Hp] Hn]; [left|by right]. split; [done|]. destruct (replaceable _ r d) eqn:E; [|done].
      exfalso. apply Hn. split; [apply (tr_list _ _ _ _ Htr); by left|done].
    + intros [[HRd Hf]|(p & Hp & ->)]; (split; [by eauto|]); [intros [_ ?]; congruence|]. intros [Hin Hrep'].
      apply (added_not_stale _ _ _ _ p Htr Hp). split; [done|]. apply stale_true. by eapply replaceable_true.
Qed.

(** The addition of [r] *)
Lemma added_tracked r k A R P k' : tracked k A R P → r ∈ desired_routes → kept k' →
  (∀ d, d ∈ R → stale d = true → same_route_lookup_key r d = false) →
  (∀ d, kroutes k' d ↔ d = shown r ∨ kroutes k d) → (∀ d, krules k' d ↔ krules k d) →
  tracked k' (A ++ [dumped_route_from_spec r]) R (P ++ [r]).
Proof.
  intros [T1 T2 T3 T4 T5 T6 T7] Hr Hk Hf HK Hu. split; [done|..].
  - intros d. by rewrite Hu.
  - intros d. rewrite fmap_app, !elem_of_app, T3. cbn. tauto.
  - done.
  - intros p [Hp| ->%list_elem_of_singleton]%elem_of_app; auto.
  - intros d p Hd [Hp| ->%list_elem_of_singleton]%elem_of_app; auto.
  - intros d Hd. rewrite HK, (T7 d Hd). setoid_rewrite elem_of_app. setoid_rewrite list_elem_of_singleton. naive_solver.
Qed.

(** A desired route is there for good: a dumped route of just this form is kept, or
    what was added is. *)
Definition settled (R : list DumpedRoute) (P : list RouteSpec) (r : RouteSpec) : Prop :=
  (∃ d, d ∈ R ∧ same_route r d true = true) ∨ (∃ p, p ∈ P ∧ installed_as r (shown p)).
Definition grows (R : list DumpedRoute) (P : list RouteSpec) (R' : list DumpedRoute) (P' : list RouteSpec) : Prop :=
  (∀ d, d ∈ R → wanted desired_routes d = true → d ∈ R') ∧ ∀ p, p ∈ P → p ∈ P'.

Lemma settled_grows R P R' P' r : r ∈ desired_routes → grows R P R' P' → settled R P r → settled R' P' r.
Proof.
  intros Hr [H1 H2] [(d & Hd & Hs)|(p & Hp & Hi)]; [left|right; by eauto]. exists d. split; [|done].
  apply H1; [done|]. apply any_of_true. by exists r.
Qed.

(** The entry of an added route is recognised only as that route. *)
Lemma present_settled k A R P r : tracked k A R P → r ∈ desired_routes →
  any_of (λ actual, same_route r actual true) A = true → settled R P r.
Proof.
  intros Htr Hr (d & Hd & Hs)%any_of_true. apply (tr_list _ _ _ _ Htr) in Hd as [Hd|(p & -> & Hp)%list_elem_of_fmap].
  - left. by exists d.
  - right. exists p. split; [done|]. assert (r = p) as ->.
    { unfold same_route, route_family in Hs. rewrite (proj2 (Z.eqb_neq _ _) (rep_family Hrep r Hr)) in Hs.
      rewrite !andb_true_iff, !bool_decide_eq_true, !eqb_true_iff, !Z.eqb_eq in Hs. cbn in Hs. rewrite Z.eqb_eq in Hs.
      destruct r, p. cbn in *. by destruct_and!; simplify_eq. }
    by apply (rep_shown Hrep).
Qed.

Lemma add_routes_run todo A R P k :
  (∀ r, r ∈ todo → r ∈ desired_routes) → tracked k A R P →
  let '(r, k') := add_routes desired_routes todo A k in
  match r with
  | Ok A' => ∃ R' P', tracked k' A' R' P' ∧ grows R P R' P' ∧ ∀ r, r ∈ todo → settled R' P' r
  | _ => kept k'
  end.
Proof.
  revert A R P k. induction todo as [|r todo IH]; intros A R P k Htodo Htr; cbn.
  { exists R, P. split_and!; [done|by split|]. by intros r ?%elem_of_nil. }
  assert (Hr : r ∈ desired_routes) by (apply Htodo; left).
  assert (Htodo' : ∀ r, r ∈ todo → r ∈ desired_routes) by (intros r' Hr'; apply Htodo; by right).
  (* what remains to be said once [r] is settled *)
  assert (Hdone : ∀ A1 R1 P1 k1, tracked k1 A1 R1 P1 → grows R P R1 P1 → settled R1 P1 r →
    let '(q, k') := add_routes desired_routes todo A1 k1 in
    match q with
    | Ok A' => ∃ R' P', tracked k' A' R' P' ∧ grows R P R' P' ∧ ∀ r', r' ∈ r :: todo → settled R' P' r'
    | _ => kept k'
    end).
  { intros A1 R1 P1 k1 Htr1 Hg1 Hs1. specialize (IH A1 R1 P1 k1 Htodo' Htr1).
    destruct (add_routes _ todo A1 k1) as [[A'|e|] k']; [|done..].
    destruct IH as (R' & P' & H1 & [H2 H2'] & H3). exists R', P'. split; [done|]. split.
    - destruct Hg1 as [Hg1 Hg2]. split; auto.
    - intros r' [->|Hr']%elem_of_cons; [|by auto]. by eapply settled_grows; [|split; [exact H2|exact H2']|]. }
  destruct (any_of _ A) eqn:Ep.
  { apply (Hdone A R P k Htr); [by split|]. by eapply present_settled. }
  unfold mbind, stexc_bind.
  pose proof (replace_generated_run r A k (λ d, stale_known _ _ _ _ d Htr) (tr_kept _ _ _ _ Htr)) as Hg.
  destruct (replace_generated _ r A k) as [[A1|e|] k1]; [|by destruct Hg..].
  destruct Hg as (Hk1 & Hu1 & HA1 & HK1). pose proof (replace_tracked r k A R P k1 A1 Htr Hk1 Hu1 HA1 HK1) as Htr1.
  set (R1 := List.filter _ R) in *. assert (HR1 : ∀ d, d ∈ R1 ↔ d ∈ R ∧ replaceable desired_routes r d = false).
  { intros d. unfold R1. by rewrite !list_elem_of_In, filter_In, negb_true_iff. }
  assert (Hw1 : grows R P R1 P).
  { split; [|done]. intros d Hd Hw. apply HR1. split; [done|]. unfold replaceable. rewrite Hw. cbn. by rewrite andb_false_r. }
  pose proof (add_route_law k1 r) as Hl. pose proof (kept_add_route k1 r Hk1) as Hk2.
  destruct (add_route r k1) as [[[]|e|] k2]; cbn [is_created]; [| |done..].
  - destruct Hl as [Hl1 Hl2]. apply (Hdone _ R1 (P ++ [r])).
    + eapply added_tracked; try done. intros d [_ Hf]%HR1 [Hg Hw]%stale_true. unfold replaceable in Hf. by rewrite Hg, Hw in Hf.
    + destruct Hw1 as [? _]. split; [done|]. intros p Hp. apply elem_of_app. by left.
    + right. exists r. split; [apply elem_of_app; right; left|]. by apply (rep_shown Hrep).
  - pose proof (tracked_same _ _ _ _ _ Hl Htr1) as Htr2. clear Hl.
    pose proof (dump_routes_law k2 (rs_table r)) as Hl.
    destruct (dump_routes_in_table _ k2) as [[l|e|] k3]; [|destruct Hl; by eapply kept_same..].
    destruct Hl as [Hs Hl]. pose proof (tracked_same _ _ _ _ _ Hs Htr2) as Htr3.
    destruct (any_of _ l) eqn:Ea; cbn [negb]; [|apply Htr3].
    apply (Hdone A1 R1 P k3 Htr3 Hw1). apply any_of_true in Ea as (d & [Hd Ht]%Hl & Hsr).
    apply (tr_sync _ _ _ _ Htr2) in Hd as [Hd|(p & Hp & ->)]; [left|right| ].
    + by exists d.
    + exists p. split; [done|]. by apply same_route_installed.
    + apply elem_of_tables_of. by exists r.
Qed.

Lemma prune_routes_run A R P k :
  tracked k A R P →
  match prune_routes desired_routes A k with
  | (Ok _, k') => kept k' ∧ (∀ d, krules k' d ↔ krules k d) ∧
                  ∀ d, kroutes k' d ↔ kroutes k d ∧ ¬ (d ∈ A ∧ stale d = true)
  | (_, k') => kept k'
  end.
Proof.
  intros Htr. apply (for_each_ind _ (λ l k', kept k' ∧ (∀ d, krules k' d ↔ krules k d) ∧
    ∀ d, kroutes k' d ↔ kroutes k d ∧ ¬ (d ∈ l ∧ stale d = true))).
  2:{ split; [apply Htr|]. split; [done|]. intros d. rewrite elem_of_nil. tauto. }
  intros x l k1 Hx (Hk1 & Hu1 & HK1).
  assert (Hc : ∀ d, d ∈ l ++ [x] ↔ d = x ∨ d ∈ l).
  { intros d. rewrite elem_of_app, list_elem_of_singleton. tauto. }
  destruct (stale x) eqn:Es.
  - pose proof (stale_known _ _ _ _ x Htr Hx Es) as Hkn. pose proof Es as Hs. apply stale_true in Es as [Eg Ew]. rewrite Eg, Ew. cbn [negb].
    pose proof (kept_delete_route k1 x Hkn Eg Ew Hk1) as Hk2. pose proof (proj2 Hkn Eg) as Hcan. unfold canonical in Hcan.
    pose proof (delete_route_law k1 (route_spec_from_dump x)) as Hl.
    destruct (delete_route _ k1) as [[[]|e|] k2]; [|done..]. destruct Hl as [Hl1 Hl2].
    split; [done|]. split; intros d; [by rewrite Hl2|].
    rewrite Hl1, HK1, Hc, Hcan.
    destruct (decide (d = x)) as [->|]; tauto.
  - assert (Hrun : (if negb (generated x) then mret ()
      else if negb (wanted desired_routes x) then delete_route (route_spec_from_dump x)
      else mret ()) k1 = (Ok tt, k1)).
    { unfold stale in Es. by destruct (generated x), (wanted desired_routes x). }
    rewrite Hrun. split; [done|]. split; [done|]. intros d. rewrite HK1, Hc.
    destruct (decide (d = x)) as [->|]; [|tauto]. intuition congruence.
Qed.

(** *** The rules *)

Definition rule_wanted (d : DumpedRule) : bool :=
  any_of (λ desired, same_rule desired d) desired_rules.

Lemma same_rule_self r f :
  rl_family r = 0 ∨ rl_family r = f → same_rule r (rule_from_spec r f) = true.
Proof.
  intros Hf. unfold same_rule. cbn. rewrite !Z.eqb_refl, bool_decide_eq_true_2 by done. cbn.
  destruct Hf as [-> | ->]; [done|]. by rewrite Z.eqb_refl, orb_true_r.
Qed.

Definition rule_present (k : K) (r : RuleSpec) (f : Z) : Prop :=
  rl_family r = 0 ∨ rl_family r = f →
  ∃ d, krules k d ∧ same_rule r d = true ∧ du_family d = f.

(** The state after some rules were added since [k1]. *)
Record extended (k1 k : K) : Prop := {
  ex_kept : kept k;
  ex_routes d : kroutes k d ↔ kroutes k1 d;
  ex_mono d : krules k1 d → krules k d;
  ex_new d : krules k d → krules k1 d ∨ rule_wanted d = true;
}.

Lemma add_rule_extended k1 k r f :
  r ∈ desired_rules → rl_family r = 0 ∨ rl_family r = f → extended k1 k →
  match add_rule_for_family r f k with
  | (Ok _, k') => extended k1 k' ∧ rule_present k' r f ∧ ∀ d, krules k d → krules k' d
  | (_, k') => kept k'
  end.
Proof.
  intros Hr Hf [E1 E2 E3 E4]. pose proof (add_rule_law k r f) as Hl.
  pose proof (kept_add_rule k r f E1) as Hk. rewrite (rep_shown_rule Hrep r f Hr) in Hl.
  assert (Hw : rule_wanted (rule_from_spec r f) = true).
  { apply any_of_true. exists r. split; [done|]. by apply same_rule_self. }
  destruct (add_rule_for_family r f k) as [[[]|e|] k']; [| |done..].
  - destruct Hl as [Hl1 Hl2]. split; [|split].
    + split; [done|..]; intros d; rewrite ?Hl1, ?Hl2; auto. intros [->|?]; auto.
    + intros _. exists (rule_from_spec r f). rewrite Hl2. auto using same_rule_self.
    + intros d. rewrite Hl2. auto.
  - destruct Hl as [Hp [Hl1 Hl2]]. split; [|split].
    + split; [done|..]; intros d; rewrite ?Hl1, ?Hl2; auto.
    + intros _. exists (rule_from_spec r f). rewrite Hl2. auto using same_rule_self.
    + intros d. by rewrite Hl2.
Qed.

Lemma rule_present_mono k k' r f :
  (∀ d, krules k d → krules k' d) → rule_present k r f → rule_present k' r f.
Proof. intros Hm Hp Hf. destruct (Hp Hf) as (d & Hd & ?). exists d. auto. Qed.

(** One family of one desired rule. *)
Lemma add_family_run k1 actual r fs f k k2 :
  (∀ d, d ∈ actual ↔ krules k1 d) → r ∈ desired_rules → extended k1 k2 →
  (∀ d, krules k d → krules k2 d) → (∀ f, f ∈ fs → rule_present k2 r f) →
  match (if negb (rl_family r =? 0) && negb (rl_family r =? f) then mret tt
         else if negb (any_of (λ actual, same_rule r actual && (du_family actual =? f)) actual)
              then add_rule_for_family r f ≫= λ _, mret tt
              else mret tt) k2 with
  | (Ok _, k') => extended k1 k' ∧ (∀ d, krules k d → krules k' d) ∧
                  ∀ f', f' ∈ fs ++ [f] → rule_present k' r f'
  | (_, k') => kept k'
  end.
Proof.
  intros Ha Hr E2 M2 P2.
  assert (Hstay : rule_present k2 r f →
    extended k1 k2 ∧ (∀ d, krules k d → krules k2 d) ∧
    ∀ f', f' ∈ fs ++ [f] → rule_present k2 r f').
  { intros Hp. split; [done|]. split; [done|].
    intros f' [Hf| ->%list_elem_of_singleton]%elem_of_app; auto. }
  destruct (negb (rl_family r =? 0) && negb (rl_family r =? f)) eqn:Eskip.
  { apply Hstay. intros Hf. breflect. lia. }
  destruct (any_of _ actual) eqn:Ep; cbn [negb].
  { apply Hstay. intros _. apply any_of_true in Ep as (d & Hd & [Hs Hfam]%andb_true_iff).
    exists d. split; [by apply (ex_mono _ _ E2), Ha|]. by apply Z.eqb_eq in Hfam. }
  assert (Hf : rl_family r = 0 ∨ rl_family r = f) by (breflect; lia).
  unfold mbind, stexc_bind. pose proof (add_rule_extended k1 k2 r f Hr Hf E2) as Hadd.
  destruct (add_rule_for_family r f k2) as [[?|e|] k']; [|done..].
  destruct Hadd as (E' & Hp & Hm). split; [done|]. split; [by auto|].
  intros f' [Hf'| ->%list_elem_of_singleton]%elem_of_app; [|done].
  eapply rule_present_mono; [exact Hm|auto].
Qed.

Lemma add_rules_run k1 actual :
  extended k1 k1 → (∀ d, d ∈ actual ↔ krules k1 d) →
  match add_rules desired_rules actual k1 with
  | (Ok _, k') => extended k1 k' ∧
      ∀ r f, r ∈ desired_rules → f ∈ [AF_INET; AF_INET6] → rule_present k' r f
  | (_, k') => kept k'
  end.
Proof.
  intros Hex Ha. apply (for_each_ind _ (λ l k, extended k1 k ∧
    ∀ r f, r ∈ l → f ∈ [AF_INET; AF_INET6] → rule_present k r f)).
  2:{ split; [done|]. by intros r f ?%elem_of_nil. }
  intros r l k Hr [Hk Hl].
  set (P := λ (fs : list Z) k', extended k1 k' ∧ (∀ d, krules k d → krules k' d) ∧
              ∀ f, f ∈ fs → rule_present k' r f).
  match goal with |- match for_each ?body ?fs k with _ => _ end =>
    pose proof (for_each_ind body P kept fs k) as Hf end.
  assert (HP : ∀ k', P [AF_INET; AF_INET6] k' → extended k1 k' ∧
    ∀ r' f, r' ∈ l ++ [r] → f ∈ [AF_INET; AF_INET6] → rule_present k' r' f).
  { intros k' (H1 & H2 & H3). split; [done|].
    intros r' f [Hr'| ->%list_elem_of_singleton]%elem_of_app Hf'; [|by apply H3].
    eapply rule_present_mono; [exact H2|auto]. }
  destruct (for_each _ [AF_INET; AF_INET6] k) as [[[]|e|] k'];
    [apply HP, Hf|apply Hf|apply Hf]; clear Hf HP.
  all: try (split; [done|]; split; [done|]; by intros f ?%elem_of_nil).
  all: intros f fs k2 _ (E2 & M2 & P2);
    apply (add_family_run k1 actual r fs f k k2 Ha Hr E2 M2 P2).
Qed.

Lemma prune_rules_run k1 actual k :
  (∀ d, krules k1 d ↔ krules k0 d) → (∀ d, d ∈ actual ↔ krules k1 d) → extended k1 k →
  match prune_rules desired_rules actual k with
  | (Ok _, k') => kept k' ∧ (∀ d, kroutes k' d ↔ kroutes k d) ∧
      ∀ d, krules k' d ↔ krules k d ∧
        ¬ (d ∈ actual ∧ rule_namespace_owned d desired_rules = true ∧ rule_wanted d = false)
  | (_, k') => kept k'
  end.
Proof.
  intros Hk1 Ha Hex. apply (for_each_ind _ (λ l k', kept k' ∧
    (∀ d, kroutes k' d ↔ kroutes k d) ∧ ∀ d, krules k' d ↔ krules k d ∧
      ¬ (d ∈ l ∧ rule_namespace_owned d desired_rules = true ∧ rule_wanted d = false))).
  2:{ split; [apply Hex|]. split; [done|]. intros d. rewrite elem_of_nil. tauto. }
  intros x l k2 Hx (Hk2 & HR2 & HU2).
  assert (Hc : ∀ d, d ∈ l ++ [x] ↔ d = x ∨ d ∈ l).
  { intros d. rewrite elem_of_app, list_elem_of_singleton. tauto. }
  destruct (rule_namespace_owned x desired_rules) eqn:En; cbn [negb].
  2:{ split; [done|]. split; [done|]. intros d. rewrite HU2, Hc.
      destruct (decide (d = x)) as [->|]; [|tauto]. intuition congruence. }
  change (any_of _ desired_rules) with (rule_wanted x).
  destruct (rule_wanted x) eqn:Ew; cbn [negb].
  { split; [done|]. split; [done|]. intros d. rewrite HU2, Hc.
    destruct (decide (d = x)) as [->|]; [|tauto]. intuition congruence. }
  assert (Hcan : canonical_rule x) by (apply (rep_rules Hrep); [by apply Hk1, Ha|done]). pose proof Hcan as Hcan'. unfold canonical_rule in Hcan'.
  pose proof (kept_delete_rule k2 x Hcan En Ew Hk2) as Hk3.
  pose proof (delete_rule_law k2 (rule_spec_from_dump x) (du_family x)) as Hl.
  destruct (delete_rule_for_family _ _ k2) as [[[]|e|] k3]; [|done..].
  destruct Hl as [Hl1 Hl2]. split; [done|]. split; intros d; [by rewrite Hl1|].
  rewrite Hl2, HU2, Hc, Hcan'. destruct (decide (d = x)) as [->|]; tauto.
Qed.

(** The kernel is as desired: every desired route and rule is there, and the
    managed tables and marks hold nothing stale. *)
Definition converged (k : K) : Prop :=
  (∀ r, r ∈ desired_routes → ∃ d, kroutes k d ∧ installed_as r d) ∧
  (∀ d, kroutes k d → dr_table d ∈ tables_of desired_routes → generated d = true →
        ∃ r, r ∈ desired_routes ∧ installed_as r d) ∧
  (∀ r f, r ∈ desired_rules → f ∈ [AF_INET; AF_INET6] → rule_present k r f) ∧
  (∀ d, krules k d → rule_namespace_owned d desired_rules = true → rule_wanted d = true).

Lemma check_conflicts_state A k : (check_conflicts desired_routes A k).2 = k.
Proof.
  unfold check_conflicts. apply (preserves_for_each (λ k', k' = k)); [|done].
  intros x _. destruct (conflicts x A); [apply preserves_throw|apply preserves_ret].
Qed.

Lemma start_tracked A k :
  same_kernel k0 k →
  (∀ d, d ∈ A ↔ d ∈ [] ∨ kroutes k0 d ∧ dr_table d ∈ tables_of desired_routes) → tracked k A A [].
Proof.
  intros Hs HA. assert (HA' : ∀ d, d ∈ A ↔ kroutes k0 d ∧ dr_table d ∈ tables_of desired_routes).
  { intros d. rewrite HA, elem_of_nil. tauto. }
  split.
  - eapply kept_same; [exact Hs|done].
  - apply Hs.
  - intros d. cbn. rewrite elem_of_nil. tauto.
  - intros d [Hd Ht]%HA'. split; [done|]. by apply (rep_routes Hrep).
  - by intros p ?%elem_of_nil.
  - by intros d p _ ?%elem_of_nil.
  - intros d Hd. rewrite HA', (proj1 Hs d). setoid_rewrite elem_of_nil. naive_solver.
Qed.

Lemma routes_converged k A R P k' :
  tracked k A R P → (∀ r, r ∈ desired_routes → settled R P r) →
  (∀ d, kroutes k' d ↔ kroutes k d ∧ ¬ (d ∈ A ∧ stale d = true)) →
  (∀ r, r ∈ desired_routes → ∃ d, kroutes k' d ∧ installed_as r d) ∧
  (∀ d, kroutes k' d → dr_table d ∈ tables_of desired_routes → generated d = true →
        ∃ r, r ∈ desired_routes ∧ installed_as r d).
Proof.
  intros Htr Hall HK'. split.
  - intros r Hr. destruct (Hall r Hr) as [(d & Hd & Hs)|(p & Hp & Hi)].
    + exists d. split; [|by apply same_route_installed]. apply HK'.
      split; [apply (tr_sync _ _ _ _ Htr); [by apply (tr_known _ _ _ _ Htr)|by left]|].
      intros [_ [_ Hw]%stale_true]. assert (wanted desired_routes d = true) by (apply any_of_true; by exists r). congruence.
    + exists (shown p). split; [|done]. apply HK'. split; [|by eapply added_not_stale].
      apply (tr_sync _ _ _ _ Htr); [|by eauto]. apply elem_of_tables_of. exists p. split; [by apply (tr_added _ _ _ _ Htr)|].
      pose proof (installed_key p (shown p) (rep_shown Hrep p (tr_added _ _ _ _ Htr p Hp))) as Hkey.
      unfold same_route_lookup_key in Hkey. rewrite !andb_true_iff, !Z.eqb_eq in Hkey. by destruct_and!.
  - intros d [Hd Hn]%HK' Ht Hg. apply (tr_sync _ _ _ _ Htr) in Hd as [Hd|(p & Hp & ->)]; [| |done].
    + destruct (wanted desired_routes d) eqn:Ew.
      * apply any_of_true in Ew as (r & Hr & Hs). exists r. split; [done|]. by apply same_route_installed.
      * exfalso. apply Hn. split; [apply (tr_list _ _ _ _ Htr); by left|by apply stale_true].
    + exists p. split; [by apply (tr_added _ _ _ _ Htr)|]. by apply (rep_shown Hrep), (tr_added _ _ _ _ Htr).
Qed.

Lemma reconcile_run :
  let '(r, k') := reconcile desired_routes desired_rules k0 in
  kept k' ∧ match r with Ok _ => converged k' | _ => True end.
Proof.
  unfold reconcile, mbind, stexc_bind.
  pose proof (dump_tables_run (tables_of desired_routes) [] k0) as H1.
  destruct (dump_tables _ _ k0) as [[A|e|] k1];
    [|split; [by eapply kept_same; [apply H1|]|done]..].
  destruct H1 as [Hs HA]. pose proof (start_tracked A k1 Hs HA) as Htr.
  pose proof (check_conflicts_state A k1) as Hcc.
  destruct (check_conflicts _ A k1) as [[[]|e|] k1'] ; cbn in Hcc; subst k1';
    [|split; [apply Htr|done]..].
  pose proof (add_routes_run desired_routes A A [] k1 (λ r H, H) Htr) as H2.
  destruct (add_routes _ _ A k1) as [[A2|e|] k2]; [|by split..].
  destruct H2 as (R2 & P2 & Htr2 & _ & Hall).
  pose proof (prune_routes_run A2 R2 P2 k2 Htr2) as H3.
  destruct (prune_routes _ A2 k2) as [[[]|e|] k3]; [|by split..].
  destruct H3 as (Hk3 & Hu3 & HK3).
  destruct (routes_converged k2 A2 R2 P2 k3 Htr2 Hall HK3) as [C1 C2].
  pose proof (dump_rules_law k3) as H4.
  destruct (dump_policy_rules k3) as [[U|e|] k4];
    [|split; [by eapply kept_same; [apply H4|]|done]..].
  destruct H4 as [Hs4 HU].
  pose proof (kept_same _ _ Hs4 Hk3) as Hk4. destruct Hs4 as [Hs4r Hs4u].
  assert (HU4 : ∀ d, d ∈ U ↔ krules k4 d) by (intros d; by rewrite Hs4u).
  assert (Hr0 : ∀ d, krules k4 d ↔ krules k0 d).
  { intros d. rewrite Hs4u, Hu3. apply (tr_rules _ _ _ _ Htr2). }
  assert (Hex : extended k4 k4) by (split; auto).
  pose proof (add_rules_run k4 U Hex HU4) as H5.
  destruct (add_rules _ U k4) as [[[]|e|] k5]; [|by split..]. destruct H5 as [Hex5 Hp5].
  pose proof (prune_rules_run k4 U k5 Hr0 HU4 Hex5) as H6.
  destruct (prune_rules _ U k5) as [[[]|e|] k6]; [|by split..].
  destruct H6 as (Hk6 & HR6 & HU6). split; [done|].
  assert (HR : ∀ d, kroutes k6 d ↔ kroutes k3 d).
  { intros d. by rewrite HR6, (ex_routes _ _ Hex5), Hs4r. }
  split; [|split; [|split]].
  - intros r Hr. destruct (C1 r Hr) as (d & Hd & ?). exists d. by rewrite HR.
  - intros d. rewrite HR. apply C2.
  - intros r f Hr Hf Hap. destruct (Hp5 r f Hr Hf Hap) as (d & Hd & Hsr & Hfam).
    exists d. split; [|done]. apply HU6. split; [done|]. intros (_ & _ & Hw).
    assert (rule_wanted d = true) by (apply any_of_true; by exists r). congruence.
  - intros d [Hd Hn]%HU6 Hown. destruct (rule_wanted d) eqn:Ew; [done|]. exfalso.
    apply (ex_new _ _ Hex5) in Hd as [Hd|]; [|congruence].
    apply Hn. split; [by apply HU4|done].
Qed.
End reconcile.

(** ** A kernel that satisfies the laws

    Routes and rules are kept in lists and reported as requested, with the
    family of a route resolved as NetlinkManager::add_route does and the metric
    1024 of Linux for a route of IPv6 without one. *)

Definition detect_family (addr_str : cstring) : Z :=
  match find_char ":" addr_str with Some _ => AF_INET6 | None => AF_INET end.

Definition resolve_family (spec : RouteSpec) : Z :=
  if rs_family spec =? 0 then
    if bool_decide (rs_destination spec = "default") then AF_INET
    else detect_family (rs_destination spec)
  else rs_family spec.

Definition lk_shown (r : RouteSpec) : DumpedRoute :=
  mk_DumpedRoute (rs_destination r) (rs_table r) (rs_interface r) (rs_gateway r)
    (rs_blackhole r) (rs_unreachable r) (resolve_family r)
    (if (resolve_family r =? AF_INET6) && (rs_metric r =? 0) then 1024 else rs_metric r) (rs_protocol r).

Definition lists : Type := list DumpedRoute * list DumpedRule.

#[export] Instance list_routing : RoutingNetlink lists := {|
  dump_routes_in_table t k := (Ok (List.filter (λ d, dr_table d =? t) k.1), k);
  dump_policy_rules k := (Ok k.2, k);
  add_route s k := if bool_decide (lk_shown s ∈ k.1) then (Ok AlreadyPresent, k)
                   else (Ok Created, (lk_shown s :: k.1, k.2));
  delete_route s k := if bool_decide (lk_shown s ∈ k.1)
                      then (Ok tt, (remove_if (λ d, bool_decide (d = lk_shown s)) k.1, k.2))
                      else (Throw (NetlinkError "Failed to delete route"), k);
  add_rule_for_family s f k := if bool_decide (rule_from_spec s f ∈ k.2)
                   then (Ok AlreadyPresent, k) else (Ok Created, (k.1, rule_from_spec s f :: k.2));
  delete_rule_for_family s f k := if bool_decide (rule_from_spec s f ∈ k.2)
                      then (Ok tt, (k.1, remove_if (λ d, bool_decide (d = rule_from_spec s f)) k.2))
                      else (Throw (NetlinkError "Failed to delete rule"), k);
  kroutes k d := d ∈ k.1;
  krules k d := d ∈ k.2;
|}.

#[export] Program Instance list_routing_laws : RoutingNetlinkLaws lists := {|
  shown := lk_shown;
  shown_rule := rule_from_spec;
|}.
Next Obligation.
  intros k t. cbn. split; [done|]. intros d.
  by rewrite !list_elem_of_In, filter_In, Z.eqb_eq.
Qed.
Next Obligation. by intros k. Qed.
Next Obligation.
  intros k s. cbn. case_bool_decide; [done|]. cbn. split; [|done].
  intros d. by rewrite elem_of_cons.
Qed.
Next Obligation.
  intros k s. cbn. case_bool_decide; [|done]. cbn. split; [|done].
  intros d. by rewrite elem_of_remove_if, bool_decide_eq_false.
Qed.
Next Obligation.
  intros k s f. cbn. case_bool_decide; [done|]. cbn. split; [done|].
  intros d. by rewrite elem_of_cons.
Qed.
Next Obligation.
  intros k s f. cbn. case_bool_decide; [|done]. cbn. split; [done|].
  intros d. by rewrite elem_of_remove_if, bool_decide_eq_false.
Qed.

(** ** Properties *)

(** C20.  However [reconcile] ends, by returning or by throwing, it has deleted
    only generated routes of a table it manages that no desired route describes
    exactly, metric included, and rules with a mark of the configuration that no
    desired rule describes: every other route and rule the kernel held is still
    there.  The desired routes name their family; the kernel installs routes as
    asked for, up to a metric that was left open, reports rules as asked for, and
    takes what it reports of a route or rule as its address. *)
Theorem reconcile_keeps_foreign {K} `{!RoutingNetlink K} `{!RoutingNetlinkLaws K}
    (k : K) desired_routes desired_rules :
  reproducible k desired_routes desired_rules →
  kept k desired_routes desired_rules (reconcile desired_routes desired_rules k).2.
Proof.
  intros Hrep. pose proof (reconcile_run k desired_routes desired_rules Hrep) as H.
  by destruct (reconcile _ _ k) as [r k'], H.
Qed.

(** C5.  When [reconcile] returns, the kernel has converged: it holds every
    desired route, with a metric of the kernel's choice where none was asked for,
    and in each applicable family every desired rule; the managed tables hold no
    generated route, and the configured marks no rule, that is not desired.  The
    desired routes name their family; the kernel installs routes as asked for,
    up to a metric that was left open, reports rules as asked for, and takes
    what it reports of a route or rule as its address. *)
Theorem reconcile_converges {K} `{!RoutingNetlink K} `{!RoutingNetlinkLaws K}
    (k k' : K) desired_routes desired_rules :
  reproducible k desired_routes desired_rules →
  reconcile desired_routes desired_rules k = (Ok tt, k') →
  converged desired_routes desired_rules k'.
Proof.
  intros Hrep Hrun. pose proof (reconcile_run k desired_routes desired_rules Hrep) as H.
  rewrite Hrun in H. apply H.
Qed.

(** A desired default route that leaves its family unspecified is created
    and then deleted again by the pruning phase of the same call: the working
    list records it with family 0, which the comparison with the request
    (taken as IPv4) does not recognise. *)
Theorem unspecified_family_default_is_lost :
  let r := new_RouteSpec "default" 150 in
  reconcile [r] [] (([], []) : lists) = (Ok tt, ([], [])) ∧
  add_route r (([], []) : lists) = (Ok Created, ([lk_shown r], [])).
Proof. split; vm_compute; reflexivity. Qed.

(** Linux reports the metric 1024 for a default route of IPv6 that was asked for
    without one, and the comparison takes the metric literally: every reconcile
    deletes the route that an earlier one installed and adds it again. *)
Theorem ipv6_default_is_replaced_every_time :
  let r := mk_RouteSpec "default" 150 (Some (str "wg0")) None false false AF_INET6 0 KEEN_PBR_GENERATED_ROUTE_PROTOCOL in
  let k := (reconcile [r] [] (([], []) : lists)).2 in
  k = ([lk_shown r], []) ∧ installed_as r (lk_shown r) ∧
  wanted [r] (lk_shown r) = false ∧ replace_generated [r] r k.1 k = (Ok [], ([], [])).
Proof. split_and!; vm_compute; try reflexivity. by split; [|left]. Qed.

(** *** Witnesses: a stale generated route, a foreign one, a stale rule, and a
    default route of IPv6 without a metric from an earlier run *)

Definition w_route : RouteSpec :=
  mk_RouteSpec "default" 150 (Some (str "wg0")) None false false AF_INET 0
    KEEN_PBR_GENERATED_ROUTE_PROTOCOL.
Definition w_stale : DumpedRoute :=
  mk_DumpedRoute "default" 150 None None false true AF_INET6 500
    KEEN_PBR_GENERATED_ROUTE_PROTOCOL.
Definition w_foreign : DumpedRoute :=
  mk_DumpedRoute "10.0.0.0/8" 150 (Some (str "eth0")) None false false AF_INET 0 3.
Definition w_rule : RuleSpec := mk_RuleSpec 65536 16711680 150 1000 0 RuleAction.lookup.
Definition w_stale_rule : DumpedRule :=
  mk_DumpedRule 2000 65536 16711680 151 AF_INET RuleAction.lookup.
Definition w_kernel : lists := ([w_stale; w_foreign], [w_stale_rule]).
Definition w_route6 : RouteSpec :=
  mk_RouteSpec "default" 150 (Some (str "wg0")) None false false AF_INET6 0
    KEEN_PBR_GENERATED_ROUTE_PROTOCOL.
Definition w_kernel6 : lists := ([w_stale; lk_shown w_route6; w_foreign], [w_stale_rule]).

Lemma w_reproducible : reproducible w_kernel [w_route] [w_rule].
Proof.
  split.
  - intros d Hd _ _. revert Hd. cbn. rewrite !elem_of_cons, elem_of_nil. intros [->|[->|[]]]; reflexivity.
  - intros d Hd _. revert Hd. cbn. rewrite elem_of_cons, elem_of_nil. intros [->|[]]; reflexivity.
  - intros r ->%list_elem_of_singleton. done.
  - intros r ->%list_elem_of_singleton. by split; [|left].
  - intros r f ->%list_elem_of_singleton. reflexivity.
Qed.
Lemma w_reproducible6 : reproducible w_kernel6 [w_route; w_route6] [w_rule].
Proof.
  split.
  - intros d Hd _ _. revert Hd. cbn. rewrite !elem_of_cons, elem_of_nil. intros [->|[->|[->|[]]]]; reflexivity.
  - intros d Hd _. revert Hd. cbn. rewrite elem_of_cons, elem_of_nil. intros [->|[]]; reflexivity.
  - intros r. rewrite !elem_of_cons, elem_of_nil. by intros [->|[->|[]]].
  - intros r. rewrite !elem_of_cons, elem_of_nil. by intros [->|[->|[]]]; (split; [|left]).
  - intros r f ->%list_elem_of_singleton. reflexivity.
Qed.

Lemma reconcile_keeps_foreign_witness :
  kept w_kernel6 [w_route; w_route6] [w_rule] (reconcile [w_route; w_route6] [w_rule] w_kernel6).2.
Proof. apply (reconcile_keeps_foreign w_kernel6). exact w_reproducible6. Defined.

Lemma reconcile_converges_witness :
  converged [w_route; w_route6] [w_rule] (reconcile [w_route; w_route6] [w_rule] w_kernel6).2.
Proof.
  apply (reconcile_converges w_kernel6); [exact w_reproducible6|]. vm_compute. reflexivity.
Defined.
