(* ===== verification/RoutingVerifier.v ===== *)
(** * The routing verifier (src/src/routing/routing_verifier.cpp,
    src/src/health/routing_health.hpp)

    Live checks of a route and of a policy rule against a kernel dump.  The
    verifier and the reconciler compare routes with different code; the last
    section shows that they agree on a reconciled kernel. *)

From S2P Require Import Prelude CppString Netlink RoutingReconciler.

Local Open Scope Z_scope.

Module CheckStatus.
Inductive t := ok | missing | mismatch.
#[global] Instance t_eq_dec : EqDecision t.
Proof. solve_decision. Defined.
End CheckStatus.

Record RouteTableCheck := mk_RouteTableCheck {
  rt_table_id : Z;
  rt_outbound_tag : cstring;
  rt_expected_destination : option cstring;
  rt_expected_interface : option cstring;
  rt_expected_gateway : option cstring;
  rt_expected_metric : option Z;
  rt_expected_route_type : option cstring;
  rt_table_exists : bool;
  rt_default_route_present : bool;
  rt_interface_matches : bool;
  rt_gateway_matches : bool;
  rt_status : CheckStatus.t;
  rt_detail : cstring;
}.

Record PolicyRuleCheck := mk_PolicyRuleCheck {
  pr_fwmark : Z;
  pr_fwmask : Z;
  pr_expected_table : Z;
  pr_priority : Z;
  pr_expected_action : cstring;
  pr_rule_present_v4 : bool;
  pr_rule_present_v6 : bool;
  pr_status : CheckStatus.t;
  pr_detail : cstring;
}.

Definition rule_action_label (action : RuleAction.t) : cstring :=
  match action with
  | RuleAction.lookup => "lookup"
  | RuleAction.unreachable => "unreachable"
  | RuleAction.blackhole => "blackhole"
  end.

Definition route_type_label (blackhole unreachable : bool) : cstring :=
  if blackhole then "blackhole" else if unreachable then "unreachable" else "unicast".

Definition route_type_matches (expected : RouteSpec) (actual : DumpedRoute) : bool :=
  Bool.eqb (rs_blackhole expected) (dr_blackhole actual) &&
  Bool.eqb (rs_unreachable expected) (dr_unreachable actual).

Definition route_metric_matches (expected : RouteSpec) (actual : DumpedRoute) : bool :=
  if rs_metric expected =? 0 then true else rs_metric expected =? dr_metric actual.

(** [actual] has the value that [expected] asks for, if it asks for one. *)
Definition optional_matches (expected actual : option cstring) : bool :=
  match expected with
  | None => true
  | Some e => match actual with Some a => bool_decide (a = e) | None => false end
  end.

Definition route_matches_expected (expected : RouteSpec) (actual : DumpedRoute) : bool :=
  if negb (bool_decide (dr_destination actual = "default")) then false
  else if negb (rs_family expected =? 0) && negb (rs_family expected =? dr_family actual)
  then false
  else if negb (route_type_matches expected actual) then false
  else if negb (rs_protocol expected =? dr_protocol actual) then false
  else if negb (route_metric_matches expected actual) then false
  else if rs_blackhole expected || rs_unreachable expected then true
  else if negb (optional_matches (rs_interface expected) (dr_interface actual)) then false
  else if negb (optional_matches (rs_gateway expected) (dr_gateway actual)) then false
  else true.

(** The loop over the dumped routes: the first default route of the expected
    family, and whether some route matched (which ends the loop). *)
Fixpoint scan_defaults (expected : RouteSpec) (routes : list DumpedRoute)
    (first_default : option DumpedRoute) : option DumpedRoute * bool :=
  match routes with
  | [] => (first_default, false)
  | r :: routes =>
      if negb (bool_decide (dr_destination r = "default")) then
        scan_defaults expected routes first_default
      else if negb (rs_family expected =? 0) && negb (dr_family r =? rs_family expected) then
        scan_defaults expected routes first_default
      else
        let first_default := match first_default with None => Some r | Some _ => first_default end in
        if negb (route_matches_expected expected r) then
          scan_defaults expected routes first_default
        else (first_default, true)
  end.

Definition optional_or_none (o : option cstring) : cstring :=
  match o with Some v => v | None => "(none)" end.

Definition mismatch_detail (expected : RouteSpec) (first_default : DumpedRoute)
    (interface_matches gateway_matches : bool) : cstring :=
  if negb (route_type_matches expected first_default) then
    "route type mismatch: expected '" ++
    route_type_label (rs_blackhole expected) (rs_unreachable expected) ++ "', got '" ++
    route_type_label (dr_blackhole first_default) (dr_unreachable first_default) ++ "'."
  else if negb (rs_protocol expected =? dr_protocol first_default) then
    "route protocol mismatch: expected '" ++ to_string (rs_protocol expected) ++
    "', got '" ++ to_string (dr_protocol first_default) ++ "'."
  else if negb (route_metric_matches expected first_default) then
    "metric mismatch: expected '" ++ to_string (rs_metric expected) ++
    "', got '" ++ to_string (dr_metric first_default) ++ "'."
  else
    let detail := if negb interface_matches then
      "interface mismatch: expected '" ++ optional_or_none (rs_interface expected) ++
      "', got '" ++ optional_or_none (dr_interface first_default) ++ "'." else [] in
    if negb gateway_matches then
      detail ++ (if bool_decide (detail = []) then [] else str " ") ++
      "gateway mismatch: expected '" ++ optional_or_none (rs_gateway expected) ++
      "', got '" ++ optional_or_none (dr_gateway first_default) ++ "'."
    else detail.

(** [catch (const NetlinkError& e)] *)
Definition try_catch_netlink {S A} (m : stexc S A) (h : cstring → stexc S A) : stexc S A :=
  λ s, match m s with
       | (Throw (NetlinkError w), s') => h w s'
       | r => r
       end.

Section verifier.
Context {K : Type} `{RN : !RoutingNetlink K}.

Definition verify_route_table (expected : RouteSpec) (outbound_tag : cstring) :
    stexc K RouteTableCheck :=
  let result := mk_RouteTableCheck (rs_table expected) outbound_tag
    (Some (rs_destination expected)) (rs_interface expected) (rs_gateway expected)
    (if negb (rs_metric expected =? 0) then Some (rs_metric expected) else None)
    (Some (route_type_label (rs_blackhole expected) (rs_unreachable expected))) in
  try_catch_netlink
    (routes ← dump_routes_in_table (rs_table expected);
     let table_exists := negb (bool_decide (routes = [])) in
     match scan_defaults expected routes None with
     | (_, true) => mret (result table_exists true true true CheckStatus.ok [])
     | (Some first_default, false) =>
         let interface_matches :=
           optional_matches (rs_interface expected) (dr_interface first_default) in
         let gateway_matches :=
           optional_matches (rs_gateway expected) (dr_gateway first_default) in
         mret (result table_exists true interface_matches gateway_matches CheckStatus.mismatch
                 (mismatch_detail expected first_default interface_matches gateway_matches))
     | (None, false) =>
         mret (result table_exists false false false CheckStatus.missing
           (if negb table_exists then
              "routing table " ++ to_string (rs_table expected) ++
              " has no routes (table missing or empty)"
            else
              "no " ++ str (if rs_family expected =? AF_INET then "IPv4 "
                        else if rs_family expected =? AF_INET6 then "IPv6 " else "") ++
              "default route found in table " ++ to_string (rs_table expected)))
     end)
    (λ w, mret (result false false false false CheckStatus.missing ("netlink error: " ++ w))).

Definition rule_matches (expected : RuleSpec) (r : DumpedRule) : bool :=
  negb (negb (du_fwmark r =? rl_fwmark expected) || negb (du_fwmask r =? rl_fwmask expected) ||
        negb (du_table r =? rl_table expected) || negb (du_priority r =? rl_priority expected) ||
        negb (bool_decide (du_action r = rl_action expected))).

(** The loop of [verify_policy_rule], over the two presence flags. *)
Definition scan_rules (expected : RuleSpec) (rules : list DumpedRule) : bool * bool :=
  foldl (λ '(v4, v6) r,
    if negb (rule_matches expected r) then (v4, v6)
    else if du_family r =? AF_INET then (true, v6)
    else if du_family r =? AF_INET6 then (v4, true)
    else (v4, v6)) (false, false) rules.

Definition verify_policy_rule (expected : RuleSpec) (outbound_tag : cstring) :
    stexc K PolicyRuleCheck :=
  let result := mk_PolicyRuleCheck (rl_fwmark expected) (rl_fwmask expected)
    (rl_table expected) (rl_priority expected) (rule_action_label (rl_action expected)) in
  try_catch_netlink
    (rules ← dump_policy_rules;
     let '(v4, v6) := scan_rules expected rules in
     let need_v4 := (rl_family expected =? 0) || (rl_family expected =? AF_INET) in
     let need_v6 := (rl_family expected =? 0) || (rl_family expected =? AF_INET6) in
     let ok_v4 := negb need_v4 || v4 in
     let ok_v6 := negb need_v6 || v6 in
     if ok_v4 && ok_v6 then mret (result v4 v6 CheckStatus.ok [])
     else mret (result v4 v6 CheckStatus.missing
            ("ip rule fwmark=0x" ++ to_hex (rl_fwmark expected) ++ "/0x" ++
             to_hex (rl_fwmask expected) ++ " table=" ++ to_string (rl_table expected) ++
             " priority=" ++ to_string (rl_priority expected) ++ " action=" ++
             rule_action_label (rl_action expected) ++ " missing:" ++
             (if negb ok_v4 then str " IPv4" else []) ++ (if negb ok_v6 then str " IPv6" else []))))
    (λ w, mret (result false false CheckStatus.missing ("netlink error: " ++ w))).
End verifier.

(** ** The scans *)

(** What makes a kernel route an acceptable realisation of [expected]. *)
Definition acceptable (expected : RouteSpec) (d : DumpedRoute) : Prop :=
  dr_destination d = "default" ∧
  (rs_family expected = 0 ∨ rs_family expected = dr_family d) ∧
  rs_blackhole expected = dr_blackhole d ∧ rs_unreachable expected = dr_unreachable d ∧
  rs_protocol expected = dr_protocol d ∧
  (rs_metric expected = 0 ∨ rs_metric expected = dr_metric d) ∧
  (rs_blackhole expected = false → rs_unreachable expected = false →
   (∀ i, rs_interface expected = Some i → dr_interface d = Some i) ∧
   (∀ g, rs_gateway expected = Some g → dr_gateway d = Some g)).

Lemma optional_matches_true e a :
  optional_matches e a = true ↔ ∀ v, e = Some v → a = Some v.
Proof.
  destruct e as [e|], a as [a|]; cbn; rewrite ?bool_decide_eq_true; naive_solver.
Qed.

Lemma if_then_false (a b : bool) : (if a then false else b) = negb a && b.
Proof. by destruct a. Qed.
Lemma if_then_true (a b : bool) : (if a then true else b) = a || b.
Proof. by destruct a. Qed.

Lemma route_matches_expected_true expected d :
  route_matches_expected expected d = true ↔ acceptable expected d.
Proof.
  unfold route_matches_expected, acceptable, route_type_matches, route_metric_matches.
  rewrite <-!optional_matches_true, !if_then_false, !if_then_true, !negb_involutive.
  rewrite !andb_true_iff, !negb_true_iff, !andb_false_iff, !negb_false_iff, !orb_true_iff,
    !andb_true_iff, !bool_decide_eq_true, !Z.eqb_eq, !eqb_true_iff.
  generalize (optional_matches (rs_interface expected) (dr_interface d)).
  generalize (optional_matches (rs_gateway expected) (dr_gateway d)).
  intros x y. destruct (rs_blackhole expected), (rs_unreachable expected); intuition congruence.
Qed.

Lemma scan_defaults_matched expected routes first :
  (scan_defaults expected routes first).2 = true ↔
  ∃ d, d ∈ routes ∧ acceptable expected d.
Proof.
  revert first. induction routes as [|r routes IH]; intros first; cbn [scan_defaults].
  - setoid_rewrite elem_of_nil. naive_solver.
  - assert (Hskip : ¬ acceptable expected r → ∀ first,
      (scan_defaults expected routes first).2 = true ↔
      ∃ d, d ∈ r :: routes ∧ acceptable expected d).
    { intros Hn first'. rewrite IH. setoid_rewrite elem_of_cons. naive_solver. }
    destruct (bool_decide_reflect (dr_destination r = "default")) as [Hd|Hd]; cbn [negb].
    2:{ apply Hskip. by intros [? _]. }
    destruct (negb (rs_family expected =? 0) && negb (dr_family r =? rs_family expected)) eqn:Ef.
    { apply Hskip. intros (_ & Hf & _). breflect. lia. }
    destruct (route_matches_expected expected r) eqn:Em; cbn [negb].
    + apply route_matches_expected_true in Em. split; [|done]. intros _. exists r.
      split; [left|done].
    + apply Hskip. by rewrite <-route_matches_expected_true, Em.
Qed.

Definition has_rule (expected : RuleSpec) (rules : list DumpedRule) (f : Z) : Prop :=
  ∃ d, d ∈ rules ∧ rule_matches expected d = true ∧ du_family d = f.

Lemma scan_rules_flags expected rules :
  ((scan_rules expected rules).1 = true ↔ has_rule expected rules AF_INET) ∧
  ((scan_rules expected rules).2 = true ↔ has_rule expected rules AF_INET6).
Proof.
  unfold scan_rules. match goal with |- context [foldl ?f _ _] => set (body := f) end.
  enough (H : ∀ a b, ((foldl body (a, b) rules).1 = true ↔ a = true ∨ has_rule expected rules AF_INET)
    ∧ ((foldl body (a, b) rules).2 = true ↔ b = true ∨ has_rule expected rules AF_INET6)).
  { destruct (H false false) as [H1 H2]. rewrite H1, H2. naive_solver. }
  induction rules as [|r rules IH]; intros a b.
  { cbn. unfold has_rule. setoid_rewrite elem_of_nil. naive_solver. }
  assert (Hc : ∀ f, has_rule expected (r :: rules) f ↔
    (rule_matches expected r = true ∧ du_family r = f) ∨ has_rule expected rules f).
  { intros f. unfold has_rule. setoid_rewrite elem_of_cons. naive_solver. }
  rewrite !Hc. cbn [foldl].
  assert (Hb : body (a, b) r =
    (a || (rule_matches expected r && (du_family r =? AF_INET)),
     b || (rule_matches expected r && (du_family r =? AF_INET6)))).
  { unfold body. destruct (rule_matches expected r); cbn; [|by rewrite !orb_false_r].
    destruct (Z.eqb_spec (du_family r) AF_INET) as [->|].
    - by rewrite orb_true_r, orb_false_r.
    - destruct (Z.eqb_spec (du_family r) AF_INET6); by rewrite ?orb_true_r, !orb_false_r. }
  rewrite Hb. destruct (IH (a || (rule_matches expected r && (du_family r =? AF_INET)))
    (b || (rule_matches expected r && (du_family r =? AF_INET6)))) as [-> ->].
  rewrite !orb_true_iff, !andb_true_iff, !Z.eqb_eq. tauto.
Qed.

Section checks.
Context {K : Type} `{RN : !RoutingNetlink K} `{RL : !RoutingNetlinkLaws K}.

Lemma verify_route_table_spec expected tag (k : K) :
  is_ok (dump_routes_in_table (rs_table expected) k).1 = true →
  ∃ c, (verify_route_table expected tag k).1 = Ok c ∧
    (rt_status c = CheckStatus.ok ↔
     ∃ d, kroutes k d ∧ dr_table d = rs_table expected ∧ acceptable expected d).
Proof.
  intros Hok. unfold verify_route_table, try_catch_netlink, mbind, stexc_bind.
  pose proof (dump_routes_law k (rs_table expected)) as Hl.
  destruct (dump_routes_in_table _ k) as [[routes|e|] k']; [|done..].
  destruct Hl as [_ Hl]. pose proof (scan_defaults_matched expected routes None) as Hs.
  assert (Hm : (∃ d, d ∈ routes ∧ acceptable expected d) ↔
    ∃ d, kroutes k d ∧ dr_table d = rs_table expected ∧ acceptable expected d).
  { setoid_rewrite Hl. naive_solver. }
  setoid_rewrite <-Hm. setoid_rewrite <-Hs. clear Hm Hs.
  destruct (scan_defaults expected routes None) as [[f|] []]; cbn; eexists; by split.
Qed.

Lemma rule_matches_true expected d :
  rule_matches expected d = true ↔
  du_fwmark d = rl_fwmark expected ∧ du_fwmask d = rl_fwmask expected ∧
  du_table d = rl_table expected ∧ du_priority d = rl_priority expected ∧
  du_action d = rl_action expected.
Proof. unfold rule_matches. breflect. naive_solver. Qed.

Lemma verify_policy_rule_spec expected tag (k : K) :
  is_ok (dump_policy_rules k).1 = true →
  ∃ c, (verify_policy_rule expected tag k).1 = Ok c ∧
    (pr_status c = CheckStatus.ok ↔
     ∀ f, f ∈ [AF_INET; AF_INET6] → rl_family expected = 0 ∨ rl_family expected = f →
       ∃ d, krules k d ∧ rule_matches expected d = true ∧ du_family d = f).
Proof.
  intros Hok. unfold verify_policy_rule, try_catch_netlink, mbind, stexc_bind.
  pose proof (dump_rules_law k) as Hl.
  destruct (dump_policy_rules k) as [[rules|e|] k']; [|done..]. destruct Hl as [_ Hl].
  destruct (scan_rules_flags expected rules) as [H4 H6].
  assert (Hh : ∀ f, has_rule expected rules f ↔
    ∃ d, krules k d ∧ rule_matches expected d = true ∧ du_family d = f).
  { intros f. unfold has_rule. by setoid_rewrite Hl. }
  setoid_rewrite <-Hh. setoid_rewrite elem_of_cons. setoid_rewrite list_elem_of_singleton.
  destruct (scan_rules expected rules) as [v4 v6]. cbn [fst snd] in H4, H6.
  assert (Hb : (negb ((rl_family expected =? 0) || (rl_family expected =? AF_INET)) || v4) &&
    (negb ((rl_family expected =? 0) || (rl_family expected =? AF_INET6)) || v6) = true ↔
    ∀ f, f = AF_INET ∨ f = AF_INET6 → rl_family expected = 0 ∨ rl_family expected = f →
      has_rule expected rules f).
  { rewrite andb_true_iff, !orb_true_iff, !negb_true_iff, !orb_false_iff, !Z.eqb_neq, H4, H6.
    split.
    - intros [Ha Hb] f [->| ->] Hf; tauto.
    - intros Ha. split.
      + specialize (Ha AF_INET (or_introl eq_refl)). unfold AF_INET in *.
        destruct (decide (rl_family expected = 0)), (decide (rl_family expected = 2)); tauto.
      + specialize (Ha AF_INET6 (or_intror eq_refl)). unfold AF_INET6 in *.
        destruct (decide (rl_family expected = 0)), (decide (rl_family expected = 10)); tauto. }
  destruct (_ && _) eqn:E; cbn; eexists; (split; [done|]); cbn; rewrite <-Hb; naive_solver.
Qed.

Lemma installed_acceptable r d :
  rs_destination r = "default" → installed_as r d → dr_table d = rs_table r ∧ acceptable r d.
Proof.
  intros Hd [Hs Hm]. unfold same_route, route_family in Hs. cbn [at_metric rs_destination rs_table rs_interface rs_gateway rs_blackhole
    rs_unreachable rs_family rs_metric rs_protocol] in Hs. rewrite !andb_true_iff in Hs.
  rewrite !bool_decide_eq_true, !Z.eqb_eq, !eqb_true_iff in Hs. cbn in Hs.
  rewrite Z.eqb_eq in Hs. destruct_and!. unfold acceptable.
  split; [congruence|]. split; [congruence|]. split; [|naive_solver congruence].
  destruct (Z.eqb_spec (rs_family r) 0); [by left|]. right. done.
Qed.

Lemma same_rule_matches r d : same_rule r d = true → rule_matches r d = true.
Proof.
  unfold same_rule. rewrite rule_matches_true. breflect. naive_solver.
Qed.

Lemma converged_verified desired_routes desired_rules (k : K) :
  converged desired_routes desired_rules k →
  (∀ r tag, r ∈ desired_routes → rs_destination r = "default" →
     is_ok (dump_routes_in_table (rs_table r) k).1 = true →
     ∃ c, (verify_route_table r tag k).1 = Ok c ∧ rt_status c = CheckStatus.ok) ∧
  (∀ r tag, r ∈ desired_rules → is_ok (dump_policy_rules k).1 = true →
     ∃ c, (verify_policy_rule r tag k).1 = Ok c ∧ pr_status c = CheckStatus.ok).
Proof.
  intros (C1 & _ & C3 & _). split.
  - intros r tag Hr Hd Hok.
    destruct (verify_route_table_spec r tag k Hok) as (c & Hc & Hst). exists c.
    split; [done|]. apply Hst. destruct (C1 r Hr) as (d & Hk & Hs). exists d.
    split; [done|]. by apply installed_acceptable.
  - intros r tag Hr Hok.
    destruct (verify_policy_rule_spec r tag k Hok) as (c & Hc & Hst). exists c.
    split; [done|]. apply Hst. intros f Hf Hap.
    destruct (C3 r f Hr Hf Hap) as (d & Hd & Hs & Hfam). exists d.
    by auto using same_rule_matches.
Qed.
End checks.

(** ** Properties *)

(** When the table can be dumped, the route check returns, and it reports
    ok exactly when the kernel holds, in that table, a default route of the
    expected family, type, protocol and metric with the expected interface and
    gateway. *)
Theorem verify_route_table_exact {K} `{!RoutingNetlink K} `{!RoutingNetlinkLaws K}
    expected tag (k : K) :
  is_ok (dump_routes_in_table (rs_table expected) k).1 = true →
  ∃ c, (verify_route_table expected tag k).1 = Ok c ∧
    (rt_status c = CheckStatus.ok ↔
     ∃ d, kroutes k d ∧ dr_table d = rs_table expected ∧ acceptable expected d).
Proof. apply verify_route_table_spec. Qed.

(** The live checks accept what the reconciler establishes: after a
    [reconcile] that returned, every desired default route and every desired
    policy rule is reported ok as long as the kernel can be dumped. *)
Theorem reconciled_state_verifies {K} `{!RoutingNetlink K} `{!RoutingNetlinkLaws K}
    (k k' : K) desired_routes desired_rules :
  reproducible k desired_routes desired_rules →
  reconcile desired_routes desired_rules k = (Ok tt, k') →
  (∀ r tag, r ∈ desired_routes → rs_destination r = "default" →
     is_ok (dump_routes_in_table (rs_table r) k').1 = true →
     ∃ c, (verify_route_table r tag k').1 = Ok c ∧ rt_status c = CheckStatus.ok) ∧
  (∀ r tag, r ∈ desired_rules → is_ok (dump_policy_rules k').1 = true →
     ∃ c, (verify_policy_rule r tag k').1 = Ok c ∧ pr_status c = CheckStatus.ok).
Proof.
  intros Hrep Hrun. apply converged_verified.
  pose proof (reconcile_run k desired_routes desired_rules Hrep) as H.
  rewrite Hrun in H. apply H.
Qed.

Lemma verify_route_table_exact_witness :
  ∃ c, (verify_route_table w_route "vpn" w_kernel).1 = Ok c ∧
    (rt_status c = CheckStatus.ok ↔
     ∃ d, kroutes w_kernel d ∧ dr_table d = rs_table w_route ∧ acceptable w_route d).
Proof. apply (verify_route_table_exact w_route "vpn" w_kernel). reflexivity. Defined.

Lemma reconciled_state_verifies_witness :
  let k' := (reconcile [w_route] [w_rule] w_kernel).2 in
  (∃ c, (verify_route_table w_route "vpn" k').1 = Ok c ∧ rt_status c = CheckStatus.ok) ∧
  (∃ c, (verify_policy_rule w_rule "vpn" k').1 = Ok c ∧ pr_status c = CheckStatus.ok).
Proof.
  destruct (reconciled_state_verifies w_kernel (reconcile [w_route] [w_rule] w_kernel).2
              [w_route] [w_rule]) as [Hr Hu].
  - exact w_reproducible.
  - vm_compute. reflexivity.
  - split; [apply Hr|apply Hu]; try (by left); vm_compute; reflexivity.
Defined.
