(* ===== verification/RoutingState.v ===== *)
(** * Planning the routing state (src/src/config/routing_state.{hpp,cpp})

    From the configuration and the marks, [populate_routing_state] plans the
    routes of every outbound's table and the policy rules that select the
    tables, and installs them in one transaction: all routes, then all rules,
    with everything rolled back when a step fails. *)

From S2P Require Import Prelude CppString Config Fwmark Netlink RouteTable PolicyRule.

Local Open Scope Z_scope.

(** ** Table ids *)

Definition RESERVED_TABLE_UNSPEC : Z := 0.
Definition RESERVED_TABLE_PRELOCAL : Z := 128.
Definition RESERVED_TABLE_BLOCK_LOW : Z := 250.
Definition RESERVED_TABLE_BLOCK_HIGH : Z := 260.
Definition RESERVED_TABLE_SYSTEM_START : Z := 32000.

Definition is_reserved_table (id : Z) : bool :=
  (id =? RESERVED_TABLE_UNSPEC) ||
  (id =? RESERVED_TABLE_PRELOCAL) ||
  ((id >=? RESERVED_TABLE_BLOCK_LOW) && (id <=? RESERVED_TABLE_BLOCK_HIGH)) ||
  (id >=? RESERVED_TABLE_SYSTEM_START).

(** The body of the loop of [safe_table_id], over [id] and [count]. *)
Definition safe_table_id_step (offset : Z) (s : Z * Z) : (Z * Z) + Z :=
  let '(id, count) := s in
  if negb (is_reserved_table id) then
    if count =? offset then inr id else inl (u32 (id + 1), u32 (count + 1))
  else inl (u32 (id + 1), count).

(** The loop is unbounded; [2^64] iterations always suffice (below). *)
Definition safe_table_id (table_start offset : Z) : option Z :=
  match run_pow 64 (safe_table_id_step offset) (table_start, 0) with
  | inr id => Some id
  | inl _ => None
  end.

Section safe_table_id.
Context (table_start offset : Z).
Context (Hstart : 0 ≤ table_start < 2 ^ 32) (Hoff : 0 ≤ offset < 2 ^ 32).

(** The ids the loop visits, and how many of the first [k] are usable. *)
Definition visited (i : nat) : Z := u32 (table_start + Z.of_nat i).
Fixpoint usable (k : nat) : Z :=
  match k with
  | O => 0
  | S k => usable k + (if is_reserved_table (visited k) then 0 else 1)
  end.

Definition loop_inv (s : Z * Z) : Prop :=
  ∃ k, s = (visited k, usable k) ∧ usable k ≤ offset.

Lemma usable_nonneg k : 0 ≤ usable k.
Proof. induction k; cbn; [lia|]. destruct (is_reserved_table _); lia. Qed.

Lemma usable_mono j k : (j ≤ k)%nat → usable j ≤ usable k.
Proof.
  induction 1 as [|k _ IH]; [lia|]. cbn. destruct (is_reserved_table _); lia.
Qed.

Lemma visited_succ k : visited (S k) = u32 (visited k + 1).
Proof.
  unfold visited, wrap. rewrite Nat2Z.inj_succ, Z.add_mod_idemp_l by lia.
  f_equal. lia.
Qed.

Lemma safe_table_id_step_inl s s' :
  loop_inv s → safe_table_id_step offset s = inl s' → loop_inv s'.
Proof.
  intros (k & -> & Hk). unfold safe_table_id_step.
  destruct (is_reserved_table (visited k)) eqn:E; cbn [negb].
  - intros [= <-]. exists (S k). cbn. rewrite visited_succ, E. split; [f_equal; lia|lia].
  - destruct (Z.eqb_spec (usable k) offset); [done|]. intros [= <-]. exists (S k).
    cbn. rewrite visited_succ, E. pose proof (usable_nonneg k).
    rewrite (wrap_small 32 (usable k + 1)) by lia. split; [done|lia].
Qed.

(** [2^32] steps at most between two visits to table 1, which is usable. *)
Definition loop_measure (s : Z * Z) : Z := (offset - s.2) * 2 ^ 32 + (1 - s.1) mod 2 ^ 32.

Lemma safe_table_id_step_measure s s' :
  loop_inv s → safe_table_id_step offset s = inl s' → 0 ≤ loop_measure s' < loop_measure s.
Proof.
  intros Hs Hstep. pose proof (safe_table_id_step_inl s s' Hs Hstep) as (k' & -> & Hk').
  destruct Hs as (k & -> & Hk). unfold safe_table_id_step, loop_measure in *. cbn [fst snd].
  pose proof (Z.mod_pos_bound (1 - visited k') (2 ^ 32) ltac:(lia)) as Hb'.
  pose proof (Z.mod_pos_bound (1 - visited k) (2 ^ 32) ltac:(lia)) as Hb.
  split; [nia|].
  destruct (is_reserved_table (visited k)) eqn:E; cbn [negb] in Hstep.
  - injection Hstep as Hv Hu. rewrite <-Hu, <-Hv.
    assert (Hne : visited k ≠ 1) by (intros H; by rewrite H in E).
    pose proof (wrap_range 32 (table_start + Z.of_nat k) ltac:(lia)) as Hr.
    change (wrap 32 _) with (visited k) in Hr. unfold wrap.
    rewrite Zminus_mod_idemp_r. clear - Hr Hne. zlia.
  - destruct (Z.eqb_spec (usable k) offset); [done|]. injection Hstep as Hv Hu.
    pose proof (usable_nonneg k). rewrite wrap_small in Hu by lia. nia.
Qed.

Lemma safe_table_id_run :
  ∃ k, safe_table_id table_start offset = Some (visited k) ∧
       is_reserved_table (visited k) = false ∧ usable k = offset.
Proof.
  assert (Hinit : loop_inv (table_start, 0)).
  { exists O. cbn. split; [|lia]. unfold visited. f_equal. rewrite Z.add_0_r.
    symmetry. by apply wrap_small. }
  destruct (run_pow_terminates (safe_table_id_step offset) loop_inv loop_measure 64
    (table_start, 0)) as [id Hid].
  - eauto using safe_table_id_step_inl, safe_table_id_step_measure.
  - done.
  - unfold loop_measure. cbn [fst snd].
    pose proof (Z.mod_pos_bound (1 - table_start) (2 ^ 32) ltac:(lia)). lia.
  - pose proof (run_pow_invariant (safe_table_id_step offset) loop_inv
      (λ id, ∃ k, id = visited k ∧ is_reserved_table (visited k) = false ∧ usable k = offset)
      64 (table_start, 0) safe_table_id_step_inl) as Hinv.
    unfold safe_table_id. rewrite Hid in *. destruct Hinv as (k & -> & ? & ?); [|done|eauto].
    intros s r (k & -> & Hk). unfold safe_table_id_step.
    destruct (is_reserved_table (visited k)) eqn:E; cbn; [done|].
    destruct (Z.eqb_spec (usable k) offset); [|done]. intros [= <-]. eauto.
Qed.
End safe_table_id.

(** ** The routes of a table *)

Definition kUnreachableRouteMetric : Z := 65535.

(** An empty [std::function] is [None]. *)
Abbreviation OutboundReachabilityFn := (option (Outbound → bool)).
Abbreviation OutboundFamilyAvailabilityFn := (option (Outbound → Z → bool)).

Definition strict_enforcement_enabled (cfg : Config) (ob : Outbound) : bool :=
  match strict_enforcement ob with
  | Some b => b
  | None => value_or (daemon_strict_enforcement (value_or (daemon cfg) default_DaemonConfig)) false
  end.

Definition strict_enforcement_action (cfg : Config) (ob : Outbound) : RuleAction.t :=
  let configured := match strict_enforcement_action_field ob with
    | Some a => Some a
    | None => daemon_strict_enforcement_action (value_or (daemon cfg) default_DaemonConfig)
    end in
  match configured with
  | Some StrictEnforcementAction.BLACKHOLE => RuleAction.blackhole
  | _ => RuleAction.unreachable
  end.

Definition has_value {A} (o : option A) : bool := match o with Some _ => true | None => false end.

Definition outbound_family_available (ob : Outbound) (family : Z)
    (family_available : OutboundFamilyAvailabilityFn) : bool :=
  if (family =? AF_INET) && has_value (gateway ob) then true
  else if (family =? AF_INET6) && has_value (gateway6 ob) then true
  else match family_available with None => true | Some f => f ob family end.

Definition build_route (table_id : Z) (ob : Outbound) (family : Z) (gw : option cstring) :
    RouteSpec :=
  mk_RouteSpec "default" table_id (Some (value_or (interface ob) [])) gw false false family 0
    KEEN_PBR_GENERATED_ROUTE_PROTOCOL.

Definition unreachable_route (table_id metric family : Z) : RouteSpec :=
  mk_RouteSpec "default" table_id None None false true family metric
    KEEN_PBR_GENERATED_ROUTE_PROTOCOL.

Definition make_default_routes (table_id : Z) (ob : Outbound)
    (family_available : OutboundFamilyAvailabilityFn) : list RouteSpec :=
  if negb (has_value (gateway ob)) && negb (has_value (gateway6 ob)) then
    (if outbound_family_available ob AF_INET family_available
     then [build_route table_id ob AF_INET None] else []) ++
    (if outbound_family_available ob AF_INET6 family_available
     then [build_route table_id ob AF_INET6 None] else [])
  else
    (if has_value (gateway ob) then [build_route table_id ob AF_INET (gateway ob)] else []) ++
    (if has_value (gateway6 ob) then [build_route table_id ob AF_INET6 (gateway6 ob)] else []).

Definition make_family_closure_routes (table_id : Z) (ob : Outbound)
    (family_available : OutboundFamilyAvailabilityFn) : list RouteSpec :=
  let route4 := has_value (gateway ob) ||
    (negb (has_value (gateway6 ob)) && outbound_family_available ob AF_INET family_available) in
  let route6 := has_value (gateway6 ob) ||
    (negb (has_value (gateway ob)) && outbound_family_available ob AF_INET6 family_available) in
  (if negb route4 then [unreachable_route table_id kUnreachableRouteMetric AF_INET] else []) ++
  (if negb route6 then [unreachable_route table_id kUnreachableRouteMetric AF_INET6] else []).

Definition make_unreachable_routes (table_id : Z) : list RouteSpec :=
  [unreachable_route table_id kUnreachableRouteMetric AF_INET;
   unreachable_route table_id kUnreachableRouteMetric AF_INET6].

Definition with_metric (metric : Z) (r : RouteSpec) : RouteSpec :=
  mk_RouteSpec (rs_destination r) (rs_table r) (rs_interface r) (rs_gateway r)
    (rs_blackhole r) (rs_unreachable r) (rs_family r) metric (rs_protocol r).

(** The groups in order of weight (equal weights in configuration order), each
    with its children that exist. *)
Definition ordered_urltest_children (outbounds : list Outbound) (urltest : Outbound) :
    list Outbound :=
  match outbound_groups urltest with
  | None => []
  | Some groups =>
      g ← stable_sort (λ a b, value_or (weight a) 1 <? value_or (weight b) 1) groups;
      omap (find_outbound outbounds) (group_outbounds g)
  end.

(** ** The plan *)

Record plan := mk_plan {
  planned_routes : list RouteSpec;
  planned_rules : list RuleSpec;
  table_offset : Z;
  rule_offset : Z;
}.

Definition rank (t : OutboundType.t) : Z :=
  match t with
  | OutboundType.INTERFACE => 0
  | OutboundType.TABLE => 1
  | OutboundType.URLTEST => 2
  | _ => 3
  end.

Definition outbound_lt (left right : Outbound) : bool :=
  if rank (type left) =? rank (type right) then str_lt (tag left) (tag right)
  else rank (type left) <? rank (type right).

Definition resolve_urltest_selection (selections : option (gmap cstring cstring))
    (urltest_tag : cstring) : cstring :=
  match selections with
  | None => []
  | Some m => match m !! urltest_tag with Some t => t | None => [] end
  end.

Definition option_eqb (o : option cstring) (t : cstring) : bool := bool_decide (o = Some t).

Definition is_internal_detour (cfg : Config) (t : cstring) : bool :=
  any_of (λ nl, option_eqb (list_detour nl.2) t) (map_to_list (value_or (lists cfg) ∅)) ||
  any_of (λ server, option_eqb (dns_detour server) t)
    (value_or (servers (value_or (dns cfg) default_DnsConfig)) []).

Section plan.
Context (cfg : Config) (marks : OutboundMarkMap) (fwmark_mask : Z).
Context (reachability_check : OutboundReachabilityFn).
Context (urltest_selections : option (gmap cstring cstring)) (ipv6_enabled : bool).
Context (family_available : OutboundFamilyAvailabilityFn).

Definition sorted_outbounds : list Outbound :=
  stable_sort outbound_lt (value_or (outbounds cfg) []).

Definition table_start_value : Z :=
  u32 (value_or (table_start (value_or (iproute cfg) default_IprouteConfig)) 150).
Definition rule_priority_start_value : Z :=
  u32 (value_or (rule_priority_start (value_or (iproute cfg) default_IprouteConfig))
         table_start_value).

Definition reachable (ob : Outbound) : bool :=
  match reachability_check with None => true | Some f => f ob end.

Definition enabled_routes (routes : list RouteSpec) : list RouteSpec :=
  List.filter (λ route, negb (negb ipv6_enabled && (rs_family route =? AF_INET6))) routes.

(** [add_route_if_enabled] for each of [routes] *)
Definition add_routes_if_enabled (routes : list RouteSpec) (p : plan) : plan :=
  mk_plan (planned_routes p ++ enabled_routes routes) (planned_rules p)
    (table_offset p) (rule_offset p).

Definition next_table_offset (p : plan) : plan :=
  mk_plan (planned_routes p) (planned_rules p) (u32 (table_offset p + 1)) (rule_offset p).

Definition add_lookup_and_guard (mark table : Z) (ob : Outbound) (guard_required : bool)
    (p : plan) : plan :=
  let priority := u32 (rule_priority_start_value + u32 (rule_offset p * 2)) in
  let family := if negb ipv6_enabled then AF_INET else 0 in
  let lookup := mk_RuleSpec mark fwmark_mask table priority family RuleAction.lookup in
  let guard := mk_RuleSpec mark fwmark_mask 0 (u32 (priority + 1)) family
                 (strict_enforcement_action cfg ob) in
  mk_plan (planned_routes p)
    (planned_rules p ++ lookup :: (if guard_required then [guard] else []))
    (table_offset p) (u32 (rule_offset p + 1)).

Definition add_internal_detour_guard (table : Z) (ob : Outbound) (p : plan) : plan :=
  match marks !! internal_detour_mark_key (tag ob) with
  | Some mark => if is_internal_detour cfg (tag ob)
                 then add_lookup_and_guard mark table ob true p else p
  | None => p
  end.

(** The default and closure routes of an interface outbound in a table. *)
Definition interface_routes (table_id : Z) (ob : Outbound) : list RouteSpec :=
  make_default_routes table_id ob family_available ++
  make_family_closure_routes table_id ob family_available.

Definition interface_plan (table_id : Z) (ob : Outbound) : list RouteSpec :=
  if reachable ob then interface_routes table_id ob
  else if strict_enforcement_enabled cfg ob then make_unreachable_routes table_id
  else [].

(** The candidates of a urltest group, with increasing metrics. *)
Fixpoint candidate_routes (table_id metric : Z) (children : list Outbound) : list RouteSpec :=
  match children with
  | [] => []
  | child :: children =>
      if negb (bool_decide (type child = OutboundType.INTERFACE)) then
        candidate_routes table_id metric children
      else if negb (reachable child) then candidate_routes table_id metric children
      else (with_metric metric <$> interface_routes table_id child) ++
           candidate_routes table_id (u32 (metric + 1)) children
  end.

Definition urltest_routes (table_id : Z) (ob : Outbound) : list RouteSpec :=
  let selected_tag := resolve_urltest_selection urltest_selections (tag ob) in
  if bool_decide (selected_tag = []) then []
  else
    (match find_outbound sorted_outbounds selected_tag with
     | Some selected =>
         if bool_decide (type selected = OutboundType.INTERFACE) && reachable selected
         then interface_routes table_id selected else []
     | None => []
     end) ++
    candidate_routes table_id 1 (ordered_urltest_children sorted_outbounds ob).

(** One iteration of the loop over the outbounds. *)
Definition plan_outbound (ob : Outbound) (p : plan) : exc plan :=
  match type ob with
  | OutboundType.INTERFACE =>
      match marks !! tag ob with
      | None => mret p
      | Some mark =>
          match safe_table_id table_start_value (table_offset p) with
          | None => Undefined
          | Some table_id =>
              let p := next_table_offset p in
              let p := add_routes_if_enabled (interface_plan table_id ob) p in
              let p := add_lookup_and_guard mark table_id ob
                         (strict_enforcement_enabled cfg ob) p in
              mret (add_internal_detour_guard table_id ob p)
          end
      end
  | OutboundType.TABLE =>
      match marks !! tag ob with
      | None => mret p
      | Some mark =>
          let table_id := u32 (value_or (table ob) 0) in
          let p := add_lookup_and_guard mark table_id ob (strict_enforcement_enabled cfg ob) p in
          let p := add_internal_detour_guard table_id ob p in
          mret (next_table_offset p)
      end
  | OutboundType.URLTEST =>
      match marks !! tag ob with
      | None => mret p
      | Some mark =>
          match safe_table_id table_start_value (table_offset p) with
          | None => Undefined
          | Some table_id =>
              let p := next_table_offset p in
              let routes_before_candidates := length (planned_routes p) in
              let p := add_routes_if_enabled (urltest_routes table_id ob) p in
              let p := if (length (planned_routes p) =? routes_before_candidates)%nat
                       then add_routes_if_enabled (make_unreachable_routes table_id) p else p in
              let p := add_lookup_and_guard mark table_id ob true p in
              mret (add_internal_detour_guard table_id ob p)
          end
      end
  | OutboundType.BLACKHOLE | OutboundType.IGNORE => mret p
  end.

Fixpoint plan_outbounds (obs : list Outbound) (p : plan) : exc plan :=
  match obs with
  | [] => mret p
  | ob :: obs => p ← plan_outbound ob p; plan_outbounds obs p
  end.

Definition plan_routing : exc plan :=
  plan_outbounds sorted_outbounds (mk_plan [] [] 0 0).
End plan.

(** ** Installation *)

Section populate.
Context {KR OR KU OU : Type}.
Context `{NR : !Netlink KR RouteSpec OR} `{NU : !Netlink KU RuleSpec OU}.

(** The two managers, each with the part of the kernel it changes. *)
Abbreviation managers := ((KR * RouteTable) * (KU * PolicyRuleManager))%type.

Definition on_routes {A} (m : stexc (KR * RouteTable) A) : stexc managers A :=
  λ s, let '(r, s1) := m s.1 in (r, (s1, s.2)).
Definition on_rules {A} (m : stexc (KU * PolicyRuleManager) A) : stexc managers A :=
  λ s, let '(r, s2) := m s.2 in (r, (s.1, s2)).

Definition install_plan (dry_run : bool) (p : plan) : stexc managers unit :=
  try_catch_all
    (for_each (λ route, on_routes (RouteTable.add dry_run route)) (planned_routes p);;
     for_each (λ rule, on_rules (PolicyRule.add dry_run rule)) (planned_rules p))
    (λ e, on_rules (PolicyRule.clear dry_run);;
          on_routes (RouteTable.clear dry_run);;
          throw e).

Definition populate_routing_state (dry_run : bool) (cfg : Config) (marks : OutboundMarkMap)
    (reachability_check : OutboundReachabilityFn)
    (urltest_selections : option (gmap cstring cstring)) (ipv6_enabled : bool)
    (family_available : OutboundFamilyAvailabilityFn) : stexc managers unit := λ s,
  match (mask ← fwmark_mask_value (value_or (fwmark cfg) default_FwmarkConfig);
         plan_routing cfg marks mask reachability_check urltest_selections ipv6_enabled
           family_available) with
  | Ok p => install_plan dry_run p s
  | Throw e => (Throw e, s)
  | Undefined => (Undefined, s)
  end.
End populate.

(** ** The plan is total and only grows *)

Section plan_facts.
Context (cfg : Config) (marks : OutboundMarkMap) (fwmark_mask : Z).
Context (reachability_check : OutboundReachabilityFn).
Context (urltest_selections : option (gmap cstring cstring)) (ipv6_enabled : bool).
Context (family_available : OutboundFamilyAvailabilityFn).

Abbreviation plan1 := (plan_outbound cfg marks fwmark_mask reachability_check
  urltest_selections ipv6_enabled family_available).
Abbreviation plans := (plan_outbounds cfg marks fwmark_mask reachability_check
  urltest_selections ipv6_enabled family_available).
Abbreviation add_pair := (add_lookup_and_guard cfg fwmark_mask ipv6_enabled).
Abbreviation add_detour := (add_internal_detour_guard cfg marks fwmark_mask ipv6_enabled).

Definition offset_ok (p : plan) : Prop := 0 ≤ table_offset p < 2 ^ 32.

Lemma table_start_range : 0 ≤ table_start_value cfg < 2 ^ 32.
Proof. apply wrap_range. lia. Qed.

(** [p'] extends [p]: what was planned stays planned. *)
Definition extends (p p' : plan) : Prop :=
  planned_routes p ⊆ planned_routes p' ∧ planned_rules p ⊆ planned_rules p'.

#[local] Instance extends_preorder : PreOrder extends.
Proof. split; [done|]. intros p1 p2 p3 [? ?] [? ?]. split; by etrans. Qed.

Lemma extends_routes rs p : extends p (add_routes_if_enabled ipv6_enabled rs p).
Proof. split; cbn; [intros x; rewrite elem_of_app; auto|done]. Qed.
Lemma extends_next p : extends p (next_table_offset p).
Proof. done. Qed.
Lemma extends_pair m t ob g p : extends p (add_pair m t ob g p).
Proof. split; cbn; [done|intros x; rewrite elem_of_app; auto]. Qed.
Lemma extends_detour t ob p : extends p (add_detour t ob p).
Proof.
  unfold add_internal_detour_guard. destruct (marks !! _); [|done].
  destruct (is_internal_detour _ _); [apply extends_pair|done].
Qed.
Hint Resolve extends_routes extends_next extends_pair extends_detour : kpbr.

Lemma plan_outbound_total ob p :
  offset_ok p → ∃ p', plan1 ob p = Ok p' ∧ offset_ok p' ∧ extends p p'.
Proof.
  intros Ho. unfold plan_outbound.
  destruct (safe_table_id_run (table_start_value cfg) (table_offset p) table_start_range Ho)
    as (k & -> & _).
  assert (Hwrap : ∀ x, offset_ok (next_table_offset x)) by (intros; apply wrap_range; lia).
  assert (Hdet : ∀ t x, offset_ok x → offset_ok (add_detour t ob x)).
  { intros t x Hx. unfold add_internal_detour_guard. by repeat case_match. }
  destruct (type ob), (marks !! tag ob); try (exists p; by eauto); eexists;
    (split; [reflexivity|]); (split; [try apply Hdet; first [apply Hwrap|destruct (_ =? _)%nat; apply Hwrap]|]).
  - rewrite <-extends_detour, <-extends_pair, <-extends_routes. apply extends_next.
  - rewrite <-extends_next, <-extends_detour. apply extends_pair.
  - rewrite <-extends_detour, <-extends_pair. case_match; by rewrite <-!extends_routes.
Qed.

Lemma plan_outbounds_total obs p :
  offset_ok p → ∃ p', plans obs p = Ok p' ∧ extends p p'.
Proof.
  revert p. induction obs as [|ob obs IH]; intros p Hp; cbn; [by exists p|].
  destruct (plan_outbound_total ob p Hp) as (p1 & -> & Hp1 & He1). cbn.
  destruct (IH p1 Hp1) as (p2 & -> & He2). exists p2. split; [done|]. by etrans.
Qed.

(** ** Every selected table leads somewhere *)

Definition family_enabled (f : Z) : Prop := f = AF_INET ∨ (f = AF_INET6 ∧ ipv6_enabled = true).

Definition has_default (routes : list RouteSpec) (t f : Z) : Prop :=
  ∃ r, r ∈ routes ∧ rs_destination r = "default" ∧ rs_table r = t ∧ rs_family r = f.

Lemma interface_routes_families t ob f :
  f = AF_INET ∨ f = AF_INET6 →
  ∃ r, List.filter (λ r, rs_family r =? f) (interface_routes family_available t ob) = [r] ∧
       rs_destination r = "default" ∧ rs_table r = t.
Proof.
  intros Hf. unfold interface_routes, make_default_routes, make_family_closure_routes.
  destruct (has_value (gateway ob)), (has_value (gateway6 ob)),
    (outbound_family_available ob AF_INET family_available),
    (outbound_family_available ob AF_INET6 family_available);
    destruct Hf as [-> | ->]; eexists; split; (reflexivity || done).
Qed.

Lemma interface_routes_default t ob f :
  f = AF_INET ∨ f = AF_INET6 → has_default (interface_routes family_available t ob) t f.
Proof.
  intros Hf. destruct (interface_routes_families t ob f Hf) as (r & Hr & Hd & Ht).
  assert (Hin : In r [r]) by by left. rewrite <-Hr in Hin.
  apply filter_In in Hin as [Hin Hfam%Z.eqb_eq]. exists r. by rewrite list_elem_of_In.
Qed.

Lemma unreachable_routes_default t f :
  f = AF_INET ∨ f = AF_INET6 → has_default (make_unreachable_routes t) t f.
Proof.
  intros [-> | ->].
  - eexists. split; [left|]. by split_and!.
  - eexists. split; [right; left|]. by split_and!.
Qed.

Lemma elem_of_enabled_routes routes r :
  r ∈ routes → family_enabled (rs_family r) → r ∈ enabled_routes ipv6_enabled routes.
Proof.
  intros Hr Hf. unfold enabled_routes. apply list_elem_of_In, filter_In.
  split; [by apply list_elem_of_In|]. destruct Hf as [-> | [-> ->]]; [|done].
  by destruct ipv6_enabled.
Qed.

Lemma enabled_has_default routes t f :
  family_enabled f → has_default routes t f →
  has_default (enabled_routes ipv6_enabled routes) t f.
Proof.
  intros Hf (r & Hr & Hd & Ht & <-). exists r. split; [|done]. by apply elem_of_enabled_routes.
Qed.

Lemma has_default_mono l l' t f : l ⊆ l' → has_default l t f → has_default l' t f.
Proof. intros Hs (r & Hr & H). exists r. auto. Qed.

Lemma has_default_app_r l l' t f : has_default l' t f → has_default (l ++ l') t f.
Proof. intros (r & Hr & H). exists r. rewrite elem_of_app. auto. Qed.

Lemma family_enabled_family f : family_enabled f → f = AF_INET ∨ f = AF_INET6.
Proof. intros [->|[-> _]]; auto. Qed.

(** The routes of the candidates of a urltest cover both families as soon as
    there is one. *)
Lemma candidate_routes_default t m children f :
  f = AF_INET ∨ f = AF_INET6 →
  candidate_routes reachability_check family_available t m children = [] ∨
  has_default (candidate_routes reachability_check family_available t m children) t f.
Proof.
  intros Hf. revert m. induction children as [|c children IH]; intros m; cbn; [by left|].
  destruct (negb _); [apply IH|]. destruct (negb _); [apply IH|]. right.
  destruct (interface_routes_default t c f Hf) as (r & Hr & Hd & Ht & Hfam).
  exists (with_metric m r). split; [|by split_and!].
  apply elem_of_app. left. by apply list_elem_of_fmap_2.
Qed.

Lemma urltest_routes_default t ob f :
  f = AF_INET ∨ f = AF_INET6 →
  urltest_routes cfg reachability_check urltest_selections family_available t ob = [] ∨
  has_default (urltest_routes cfg reachability_check urltest_selections family_available t ob) t f.
Proof.
  intros Hf. unfold urltest_routes. case_bool_decide; [by left|].
  destruct (candidate_routes_default t 1 (ordered_urltest_children (sorted_outbounds cfg) ob) f Hf)
    as [->|Hc].
  - rewrite app_nil_r. destruct (find_outbound _ _); [|by left].
    destruct (_ && _); [right; by apply interface_routes_default|by left].
  - right. by apply has_default_app_r.
Qed.

(** ** Priorities *)

Abbreviation start := (rule_priority_start_value cfg).

(** The rules planned so far use the priorities below the next pair, in order. *)
Definition priorities_ok (p : plan) : Prop :=
  0 ≤ rule_offset p ∧
  StronglySorted Z.lt (rl_priority <$> planned_rules p) ∧
  Forall (λ prio, start ≤ prio < start + 2 * rule_offset p) (rl_priority <$> planned_rules p).

Lemma start_range : 0 ≤ start < 2 ^ 32.
Proof. apply wrap_range. lia. Qed.

Lemma sorted_snoc_lt (l l' : list Z) b :
  StronglySorted Z.lt l → Forall (λ x, x < b) l → StronglySorted Z.lt l' →
  Forall (λ x, b ≤ x) l' → StronglySorted Z.lt (l ++ l').
Proof.
  intros Hs Hb Hs' Hb'. induction Hs as [|x l Hs IH Hx]; [done|].
  apply Forall_cons in Hb as [Hxb Hb]. cbn. constructor; [by apply IH|].
  apply Forall_app. split; [done|]. eapply Forall_impl; [exact Hb'|]. cbn. lia.
Qed.

Lemma add_pair_priorities m t ob g p :
  priorities_ok p → start + 2 * (rule_offset p + 1) ≤ 2 ^ 32 →
  priorities_ok (add_pair m t ob g p) ∧
  rule_offset (add_pair m t ob g p) = rule_offset p + 1.
Proof.
  intros (Ho & Hs & Hf) Hroom. pose proof start_range as Hst.
  assert (Hp : u32 (start + u32 (rule_offset p * 2)) = start + 2 * rule_offset p).
  { rewrite (wrap_small 32 (rule_offset p * 2)) by lia. rewrite wrap_small by lia. lia. }
  assert (Ho' : rule_offset (add_pair m t ob g p) = rule_offset p + 1).
  { cbn. apply wrap_small. lia. }
  split; [|done]. split; [lia|]. rewrite Ho'. cbn [planned_rules add_lookup_and_guard].
  rewrite fmap_app, Hp, (wrap_small 32 (start + 2 * rule_offset p + 1)) by lia.
  split.
  - apply (sorted_snoc_lt _ _ (start + 2 * rule_offset p)); [done|..].
    + eapply Forall_impl; [exact Hf|]. cbn. lia.
    + destruct g; cbn; repeat constructor; lia.
    + destruct g; cbn; repeat constructor; lia.
  - apply Forall_app. split; [eapply Forall_impl; [exact Hf|]; cbn; lia|].
    destruct g; cbn; repeat constructor; lia.
Qed.

Lemma add_detour_priorities t ob p :
  priorities_ok p → start + 2 * (rule_offset p + 1) ≤ 2 ^ 32 →
  priorities_ok (add_detour t ob p) ∧
  rule_offset p ≤ rule_offset (add_detour t ob p) ≤ rule_offset p + 1.
Proof.
  intros Hp Hroom. unfold add_internal_detour_guard.
  destruct (marks !! _) as [m|]; [|split; [done|lia]].
  destruct (is_internal_detour _ _); [|split; [done|lia]].
  destruct (add_pair_priorities m t ob true p Hp Hroom) as [? ->]. split; [done|lia].
Qed.

Lemma plan_outbound_priorities ob p p' :
  priorities_ok p → start + 2 * rule_offset p + 4 ≤ 2 ^ 32 → plan1 ob p = Ok p' →
  priorities_ok p' ∧ rule_offset p ≤ rule_offset p' ≤ rule_offset p + 2.
Proof.
  intros Hp Hroom. unfold plan_outbound.
  assert (Hboth : ∀ m t g q, planned_rules q = planned_rules p → rule_offset q = rule_offset p →
    let q' := add_detour t ob (add_pair m t ob g q) in
    priorities_ok q' ∧ rule_offset p ≤ rule_offset q' ≤ rule_offset p + 2).
  { intros m t g q Hr Ho q'.
    assert (Hq : priorities_ok q) by (unfold priorities_ok; by rewrite Hr, Ho).
    destruct (add_pair_priorities m t ob g q Hq) as [H1 H2]; [lia|].
    destruct (add_detour_priorities t ob _ H1) as [H3 H4]; [lia|].
    split; [done|]. unfold q'. lia. }
  assert (Hsame : priorities_ok p ∧ rule_offset p ≤ rule_offset p ≤ rule_offset p + 2)
    by (split; [done|lia]).
  destruct (type ob), (marks !! tag ob) as [m|]; try (by intros [= <-]);
    try (destruct (safe_table_id _ _) as [t|]; [|done]); intros [= <-].
  - by apply Hboth.
  - by apply (Hboth m (u32 (value_or (table ob) 0))).
  - apply Hboth; by destruct (_ =? _)%nat.
Qed.

Lemma plan_outbounds_priorities obs p p' :
  offset_ok p → priorities_ok p →
  start + 2 * rule_offset p + 4 * Z.of_nat (length obs) ≤ 2 ^ 32 →
  plans obs p = Ok p' → priorities_ok p'.
Proof.
  revert p. induction obs as [|o obs IH]; intros p Ho Hp Hroom.
  { cbn. by intros [= <-]. }
  cbn [length] in Hroom. cbn.
  destruct (plan_outbound_total o p Ho) as (p1 & E1 & Ho1 & _). rewrite E1. cbn. intros H.
  destruct (plan_outbound_priorities o p p1 Hp ltac:(lia) E1) as [Hp1 Hoff].
  apply (IH p1); [done|done|lia|done].
Qed.
(** ** Every marked outbound is fail-safe *)

(** The rule that sends the mark [m] to table [t], and the terminal rule of
    the mark at the next priority. *)
Definition lookup_rule (p : plan) (m t prio : Z) : Prop :=
  ∃ r, r ∈ planned_rules p ∧ rl_fwmark r = m ∧ rl_table r = t ∧
       rl_priority r = prio ∧ rl_action r = RuleAction.lookup.
Definition guard_rule (p : plan) (m prio : Z) : Prop :=
  ∃ r, r ∈ planned_rules p ∧ rl_fwmark r = m ∧
       rl_priority r = prio + 1 ∧ rl_action r ≠ RuleAction.lookup.

(** The outbounds whose table gets default routes, and those whose own mark
    gets a guard. *)
Definition needs_routes (ob : Outbound) : Prop :=
  type ob = OutboundType.URLTEST ∨
  (type ob = OutboundType.INTERFACE ∧
   (reachable reachability_check ob = true ∨ strict_enforcement_enabled cfg ob = true)).
Definition needs_guard (ob : Outbound) : Prop :=
  type ob = OutboundType.URLTEST ∨ strict_enforcement_enabled cfg ob = true.

(** The table of an outbound: the configured one of a table outbound, and
    otherwise one that is not reserved and, where routes are due, has a default
    route for every enabled family. *)
Definition table_of (p : plan) (ob : Outbound) (t : Z) : Prop :=
  (type ob = OutboundType.TABLE → t = u32 (value_or (table ob) 0)) ∧
  (type ob ≠ OutboundType.TABLE → is_reserved_table t = false) ∧
  (needs_routes ob → ∀ f, family_enabled f → has_default (planned_routes p) t f).

(** The mark [m] is sent to table [t], and stopped there when [guarded]. *)
Definition steered (p : plan) (m t : Z) (guarded : Prop) : Prop :=
  ∃ prio, lookup_rule p m t prio ∧ (guarded → guard_rule p m prio).

(** An outbound with mark [m] is fail-safe in a plan: its mark is sent to its
    table and stopped where a guard is due, and when the outbound is a detour
    of the resolver or of a list, the mark of that traffic is sent to the same
    table and always stopped. *)
Definition fail_safe (p : plan) (ob : Outbound) (m : Z) : Prop :=
  ∃ t, table_of p ob t ∧ steered p m t (needs_guard ob) ∧
    ∀ m', is_internal_detour cfg (tag ob) = true →
      marks !! internal_detour_mark_key (tag ob) = Some m' → steered p m' t True.

Lemma steered_mono p p' m t (g g' : Prop) :
  extends p p' → (g' → g) → steered p m t g → steered p' m t g'.
Proof.
  intros [_ Hu] Hg (prio & (r & Hin & ?) & Hguard). exists prio. split; [exists r; auto|].
  intros Hg'. destruct (Hguard (Hg Hg')) as (q & Hq & ?). exists q. auto.
Qed.

Lemma fail_safe_mono p p' ob m : extends p p' → fail_safe p ob m → fail_safe p' ob m.
Proof.
  intros He (t & (Ht & Hres & Hdef) & Hs & Hd). exists t. split; [split_and!; [done|done|]|split].
  - intros Hn f Hf. eapply has_default_mono; [apply He|auto].
  - by eapply steered_mono.
  - intros m' H1 H2. eapply steered_mono; [exact He|done|]. by apply Hd.
Qed.

Lemma strict_action_guard ob : strict_enforcement_action cfg ob ≠ RuleAction.lookup.
Proof. unfold strict_enforcement_action. by repeat case_match. Qed.

(** The pair of rules that [add_lookup_and_guard] plans. *)
Lemma add_pair_steers m t ob g p :
  priorities_ok p → start + 2 * (rule_offset p + 1) ≤ 2 ^ 32 →
  steered (add_pair m t ob g p) m t (g = true).
Proof.
  intros (Ho & _) Hroom. pose proof start_range as Hst. exists (start + 2 * rule_offset p).
  assert (Hp : u32 (start + u32 (rule_offset p * 2)) = start + 2 * rule_offset p).
  { rewrite (wrap_small 32 (rule_offset p * 2)) by lia. rewrite wrap_small by lia. lia. }
  split.
  - eexists. cbn. rewrite elem_of_app, elem_of_cons, Hp.
    split; [right; left; reflexivity|]. split_and!; reflexivity.
  - intros ->. eexists. cbn. rewrite elem_of_app, elem_of_cons, Hp.
    split; [right; right; left|]. cbn.
    split_and!; [done|apply wrap_small; lia|apply strict_action_guard].
Qed.

Lemma fail_safe_intro m t ob g q :
  priorities_ok q → start + 2 * (rule_offset q + 2) ≤ 2 ^ 32 →
  table_of q ob t → (needs_guard ob → g = true) →
  fail_safe (add_detour t ob (add_pair m t ob g q)) ob m.
Proof.
  intros Hq Hroom Ht Hg. destruct (add_pair_priorities m t ob g q Hq) as [Hq' Ho]; [lia|].
  exists t. split; [|split].
  - destruct Ht as (? & ? & Hdef). split_and!; [done..|]. intros Hn f Hf.
    eapply has_default_mono; [|by apply Hdef]. apply (extends_detour t ob (add_pair m t ob g q)).
  - eapply steered_mono; [apply extends_detour|exact Hg|]. apply add_pair_steers; [done|lia].
  - intros m' Hd Hm'. unfold add_internal_detour_guard. rewrite Hm', Hd.
    eapply steered_mono; [reflexivity| |apply add_pair_steers; [done|lia]]. done.
Qed.

Lemma interface_plan_default t ob f :
  type ob = OutboundType.INTERFACE → needs_routes ob → f = AF_INET ∨ f = AF_INET6 →
  has_default (interface_plan cfg reachability_check family_available t ob) t f.
Proof.
  intros Et [Hn|[_ Hn]] Hf; [congruence|]. unfold interface_plan.
  destruct (reachable _ ob); [by apply interface_routes_default|].
  destruct Hn as [|Hn]; [done|]. rewrite Hn. by apply unreachable_routes_default.
Qed.

(** The candidates of a urltest, or the unreachable routes when none of them is
    planned. *)
Lemma urltest_plan_default t ob p f :
  family_enabled f →
  let before := planned_routes p in
  let p1 := add_routes_if_enabled ipv6_enabled
    (urltest_routes cfg reachability_check urltest_selections family_available t ob) p in
  has_default (planned_routes (if (length (planned_routes p1) =? length before)%nat
    then add_routes_if_enabled ipv6_enabled (make_unreachable_routes t) p1 else p1)) t f.
Proof.
  intros Hf before p1. pose proof (family_enabled_family f Hf) as Hf'.
  destruct (Nat.eqb_spec (length (planned_routes p1)) (length before)) as [Hlen|Hlen].
  - cbn [add_routes_if_enabled planned_routes]. apply has_default_app_r.
    apply enabled_has_default, unreachable_routes_default; done.
  - subst p1 before. cbn in *. rewrite length_app in Hlen.
    apply has_default_app_r.
    apply enabled_has_default; [done|].
    destruct (urltest_routes_default t ob f Hf') as [He|]; [|done].
    rewrite He in Hlen. cbn in Hlen. lia.
Qed.

Lemma plan_outbound_fail_safe ob p p' m :
  offset_ok p → priorities_ok p → start + 2 * rule_offset p + 4 ≤ 2 ^ 32 →
  is_routable (type ob) = true → marks !! tag ob = Some m →
  plan1 ob p = Ok p' → fail_safe p' ob m.
Proof.
  intros Ho Hp Hroom Hrt Hm. unfold plan_outbound. rewrite Hm.
  destruct (safe_table_id_run (table_start_value cfg) (table_offset p) table_start_range Ho)
    as (k & -> & Hres & _).
  destruct (type ob) eqn:Et; try done; intros [= <-].
  - apply fail_safe_intro; [exact Hp|cbn; lia| |intros [?|?]; congruence].
    split_and!; [congruence|done|]. intros Hn f Hf. cbn. apply has_default_app_r.
    apply enabled_has_default; [done|]. apply interface_plan_default; [done..|].
    by eapply family_enabled_family.
  - eapply fail_safe_mono; [apply extends_next|].
    apply fail_safe_intro; [exact Hp|lia| |intros [?|?]; congruence].
    split_and!; try done. intros [?|[? _]]; congruence.
  - apply fail_safe_intro; [case_match; exact Hp|case_match; cbn; lia| |done].
    split_and!; [congruence|done|].
    intros _ f Hf. by apply (urltest_plan_default _ _ (next_table_offset p)).
Qed.

Lemma plan_outbounds_fail_safe obs p p' :
  offset_ok p → priorities_ok p →
  start + 2 * rule_offset p + 4 * Z.of_nat (length obs) ≤ 2 ^ 32 → plans obs p = Ok p' →
  ∀ ob m, ob ∈ obs → is_routable (type ob) = true → marks !! tag ob = Some m →
    fail_safe p' ob m.
Proof.
  revert p. induction obs as [|o obs IH]; intros p Ho Hp Hroom; cbn.
  { intros _ ob m ?%elem_of_nil. done. }
  cbn [length] in Hroom.
  destruct (plan_outbound_total o p Ho) as (p1 & E1 & Ho1 & He1). rewrite E1. cbn.
  destruct (plan_outbound_priorities o p p1 Hp ltac:(lia) E1) as [Hp1 Hoff].
  intros H ob m [->|Hin]%elem_of_cons Hrt Hm; [|eapply (IH p1); eauto; lia].
  destruct (plan_outbounds_total obs p1 Ho1) as (p2 & E2 & He2).
  assert (p2 = p') as -> by congruence. eapply fail_safe_mono; [exact He2|].
  exact (plan_outbound_fail_safe o p p1 m Ho Hp ltac:(lia) Hrt Hm E1).
Qed.
End plan_facts.

Lemma initial_offset_ok : offset_ok (mk_plan [] [] 0 0).
Proof. split; cbn; lia. Qed.

Lemma initial_priorities_ok cfg : priorities_ok cfg (mk_plan [] [] 0 0).
Proof. split; [cbn; lia|]. split; constructor. Qed.

(** The room that the priorities of the rules need. *)
Definition priority_room (cfg : Config) : Prop :=
  rule_priority_start_value cfg + 4 * Z.of_nat (length (value_or (outbounds cfg) [])) ≤ 2 ^ 32.

Lemma planned_priorities_sorted cfg marks mask reach selections ipv6 available p :
  priority_room cfg → plan_routing cfg marks mask reach selections ipv6 available = Ok p →
  StronglySorted Z.lt (rl_priority <$> planned_rules p).
Proof.
  unfold priority_room. intros Hroom Hp.
  eapply plan_outbounds_priorities in Hp as (_ & Hs & _); [done|..].
  - apply initial_offset_ok.
  - apply initial_priorities_ok.
  - cbn [rule_offset]. unfold sorted_outbounds. rewrite stable_sort_perm. lia.
Qed.

Lemma plan_routing_fail_safe cfg marks mask reach selections ipv6 available :
  priority_room cfg →
  ∃ p, plan_routing cfg marks mask reach selections ipv6 available = Ok p ∧
  ∀ ob m, ob ∈ value_or (outbounds cfg) [] → is_routable (type ob) = true →
    marks !! tag ob = Some m → fail_safe cfg marks reach ipv6 p ob m.
Proof.
  unfold priority_room. intros Hroom.
  destruct (plan_outbounds_total cfg marks mask reach selections ipv6 available
    (sorted_outbounds cfg) _ initial_offset_ok) as (p & Hp & _).
  exists p. split; [done|]. intros ob m Hin.
  eapply plan_outbounds_fail_safe;
    [apply initial_offset_ok|apply initial_priorities_ok| |exact Hp|].
  - cbn [rule_offset]. unfold sorted_outbounds. rewrite stable_sort_perm. lia.
  - unfold sorted_outbounds. by rewrite stable_sort_perm.
Qed.

(** ** The transaction *)

Section transaction.
Context {KR OR KU OU : Type}.
Context `{NR : !Netlink KR RouteSpec OR} `{NU : !Netlink KU RuleSpec OU}.
Context (Hrr : deletes_reliably KR) (Hru : deletes_reliably KU).

Abbreviation managers := ((KR * RouteTable) * (KU * PolicyRuleManager))%type.

(** Both managers account for everything they did since [kr] and [ku]. *)
Definition balanced (kr : KR) (ku : KU) (s : managers) : Prop :=
  RouteTable.accounted kr s.1 ∧ PolicyRule.accounted ku s.2.

Lemma for_each_on_routes {A} (f : A → stexc (KR * RouteTable) unit) l (s : managers) :
  for_each (λ x, on_routes (f x)) l s = on_routes (for_each f l) s.
Proof.
  revert s. induction l as [|x l IH]; intros [s1 s2]; cbn; [done|].
  unfold mbind, stexc_bind, on_routes at 1 3. cbn.
  destruct (f x s1) as [[[]|e|] s1']; [|done..]. by rewrite IH.
Qed.

Lemma for_each_on_rules {A} (f : A → stexc (KU * PolicyRuleManager) unit) l (s : managers) :
  for_each (λ x, on_rules (f x)) l s = on_rules (for_each f l) s.
Proof.
  revert s. induction l as [|x l IH]; intros [s1 s2]; cbn; [done|].
  unfold mbind, stexc_bind, on_rules at 1 3. cbn.
  destruct (f x s2) as [[[]|e|] s2']; [|done..]. by rewrite IH.
Qed.

(** The handler undoes everything. *)
Lemma roll_back_balanced kr ku s e :
  balanced kr ku s →
  ∃ kr' ku', (on_rules (PolicyRule.clear false);;
              on_routes (RouteTable.clear false);; throw (A:=unit) e) s =
             (Throw e, ((kr', empty_RouteTable), (ku', empty_PolicyRuleManager))) ∧
    (∀ x, installed kr' x ↔ installed kr x) ∧ (∀ x, installed ku' x ↔ installed ku x).
Proof.
  destruct s as [[k1 t1] [k2 t2]]. intros [H1 H2]. cbn in *.
  destruct (PolicyRule.rule_clear_run false Hru eq_refl ku k2 t2 H2) as (ku' & E2 & Hu).
  destruct (RouteTable.clear_run false Hrr eq_refl kr k1 t1 H1) as (kr' & E1 & Hr).
  exists kr', ku'. unfold mbind, stexc_bind, on_rules, on_routes. cbn.
  rewrite E2. cbn. by rewrite E1.
Qed.

(** A kernel beside a fresh manager holds what it held. *)
Lemma fresh_routes_held kr : RouteTable.held kr (kr, empty_RouteTable).
Proof. intros x. cbn. setoid_rewrite elem_of_nil. naive_solver. Qed.
Lemma fresh_rules_held ku : PolicyRule.held ku (ku, empty_PolicyRuleManager).
Proof. intros x. cbn. setoid_rewrite elem_of_nil. naive_solver. Qed.

Lemma install_plan_run p kr ku :
  match install_plan false p ((kr, empty_RouteTable), (ku, empty_PolicyRuleManager)) with
  | (Ok _, ((kr', t'), (ku', u'))) =>
      (∀ r, r ∈ routes_ t' ↔ r ∈ planned_routes p) ∧
      (∀ r, r ∈ rules_ u' ↔ r ∈ planned_rules p) ∧
      RouteTable.held kr (kr', t') ∧ PolicyRule.held ku (ku', u')
  | (Throw _, ((kr', t'), (ku', u'))) =>
      t' = empty_RouteTable ∧ u' = empty_PolicyRuleManager ∧
      (∀ x, installed kr' x ↔ installed kr x) ∧ (∀ x, installed ku' x ↔ installed ku x)
  | (Undefined, _) => False
  end.
Proof.
  unfold install_plan, try_catch_all. unfold mbind at 1, stexc_bind at 1.
  rewrite for_each_on_routes. unfold on_routes at 1. cbn [fst snd].
  pose proof (RouteTable.add_missing_run false eq_refl kr kr empty_RouteTable
    (planned_routes p) (ledger_refl kr)) as H1. unfold RouteTable.add_missing in H1.
  pose proof (RouteTable.add_missing_held false eq_refl kr (planned_routes p)
    (kr, empty_RouteTable) (fresh_routes_held kr)) as Hh1. unfold RouteTable.add_missing in Hh1.
  destruct (for_each (RouteTable.add false) _ _) as [[[]|e|] [kr1 t1]]; [| |done].
  2:{ destruct (roll_back_balanced kr ku ((kr1, t1), (ku, empty_PolicyRuleManager)) e)
        as (kr' & ku' & -> & ? & ?); [|done].
      split; [done|]. apply ledger_refl. }
  destruct H1 as [Hl1 Ht1]. rewrite for_each_on_rules. unfold on_rules at 1. cbn [fst snd].
  pose proof (PolicyRule.rule_add_missing_run false Hru eq_refl ku ku empty_PolicyRuleManager
    (planned_rules p) (ledger_refl ku)) as H2. unfold PolicyRule.add_missing in H2.
  pose proof (PolicyRule.rule_add_missing_held false Hru eq_refl ku (planned_rules p)
    (ku, empty_PolicyRuleManager) (fresh_rules_held ku)) as Hh2.
  unfold PolicyRule.add_missing in Hh2.
  destruct (for_each (PolicyRule.add false) _ _) as [[[]|e|] [ku1 u1]]; [| |done].
  - destruct H2 as [Hl2 Ht2]. split_and!; [| |exact Hh1|exact Hh2].
    + intros r. rewrite Ht1. cbn. rewrite elem_of_nil. tauto.
    + intros r. rewrite Ht2. cbn. rewrite elem_of_nil. tauto.
  - destruct (roll_back_balanced kr ku ((kr1, t1), (ku1, u1)) e) as (kr' & ku' & -> & ? & ?);
      done.
Qed.
End transaction.

(** ** The check of the priority room (validate_config, src/src/config/config.cpp) *)

Definition priority_start_ok (configured : option Z) : bool :=
  match configured with
  | None => true
  | Some v => (1 <=? v) && (v <=? UINT32_MAX)
  end.

(** Does the check leave the configuration without an issue? *)
Definition validate_rule_priorities (cfg : Config) : bool :=
  let table_start := table_start_value cfg in
  let configured := rule_priority_start (value_or (iproute cfg) default_IprouteConfig) in
  let start := u32 (if priority_start_ok configured then value_or configured table_start
                    else table_start) in
  let routable_count := Z.of_nat (length
    (List.filter (λ ob, is_routable (type ob)) (value_or (outbounds cfg) []))) in
  negb (is_reserved_table table_start) && priority_start_ok configured &&
  negb ((start =? 0) || (routable_count >? (UINT32_MAX - start) / 2)).

(** ** Properties *)

(** The search for a table id ends for every start and offset, at an id
    that is not reserved, and it skips exactly [offset] usable ids on the way
    (the ids wrap around after the last one). *)
Theorem safe_table_id_correct table_start offset :
  0 ≤ table_start < 2 ^ 32 → 0 ≤ offset < 2 ^ 32 →
  ∃ k, safe_table_id table_start offset = Some (visited table_start k) ∧
       is_reserved_table (visited table_start k) = false ∧ usable table_start k = offset.
Proof. apply safe_table_id_run. Qed.


(** C2.  Populating the routing state is a transaction.  Starting from fresh
    managers, on a kernel that grants the deletion of what it holds, it either
    returns with the planned routes and rules tracked and the kernel holding,
    beside exactly what it held before, every planned route and every planned
    rule in each of its families and nothing more; or it throws with both
    managers empty and both parts of the kernel exactly as they were. *)
Theorem populate_is_transactional {KR OR KU OU} `{!Netlink KR RouteSpec OR}
    `{!Netlink KU RuleSpec OU} (kr : KR) (ku : KU) cfg marks reach selections ipv6 available :
  deletes_reliably KR → deletes_reliably KU →
  match populate_routing_state false cfg marks reach selections ipv6 available
          ((kr, empty_RouteTable), (ku, empty_PolicyRuleManager)) with
  | (Ok _, ((kr', t'), (ku', u'))) =>
      ∃ mask p, fwmark_mask_value (value_or (fwmark cfg) default_FwmarkConfig) = Ok mask ∧
        plan_routing cfg marks mask reach selections ipv6 available = Ok p ∧
        (∀ r, r ∈ routes_ t' ↔ r ∈ planned_routes p) ∧
        (∀ r, r ∈ rules_ u' ↔ r ∈ planned_rules p) ∧
        (∀ x, installed kr' x ↔
           installed kr x ∨ ∃ r, r ∈ planned_routes p ∧ x = realize r) ∧
        (∀ x, installed ku' x ↔
           installed ku x ∨ ∃ r f, r ∈ planned_rules p ∧ f ∈ PolicyRule.families r ∧
                                   x = realize (with_family f r))
  | (Throw _, ((kr', t'), (ku', u'))) =>
      t' = empty_RouteTable ∧ u' = empty_PolicyRuleManager ∧
      (∀ x, installed kr' x ↔ installed kr x) ∧ (∀ x, installed ku' x ↔ installed ku x)
  | (Undefined, _) => False
  end.
Proof.
  intros Hrr Hru. unfold populate_routing_state.
  destruct (fwmark_mask_value_total (value_or (fwmark cfg) default_FwmarkConfig))
    as [[mask Hm]|[e He]]; [|by rewrite He].
  destruct (plan_outbounds_total cfg marks mask reach selections ipv6 available
    (sorted_outbounds cfg) _ initial_offset_ok) as (p & Hp & _).
  rewrite Hm. cbn. unfold plan_routing at 1. rewrite Hp.
  pose proof (install_plan_run Hrr Hru p kr ku) as H.
  destruct (install_plan false p _) as [[[]|e|] [[kr' t'] [ku' u']]]; [|done..].
  destruct H as (Ht & Hu & Hkr & Hku). exists mask, p. split_and!; [done..| |].
  - intros x. rewrite (Hkr x). cbn. by setoid_rewrite Ht.
  - intros x. rewrite (Hku x). cbn. by setoid_rewrite Hu.
Qed.

(** *** Witnesses and a concrete configuration *)

Definition w_interface (t : cstring) (strict : bool) : Outbound :=
  Build_Outbound None None None None (Some t) None None None None (Some strict) None None t
    None OutboundType.INTERFACE None.

Definition w_config (start : Z) (obs : list Outbound) (servers : list DnsServer) : Config :=
  Build_Config None None (Some (Build_DnsConfig None None None (Some servers) None)) None
    (Some (Build_IprouteConfig (Some start) None)) None None (Some obs) None.

Definition w_marks : OutboundMarkMap :=
  {[ str "vpn" := 65536; internal_detour_mark_key "vpn" := 131072 ]}.

Definition w_vpn : Outbound := w_interface "vpn" true.
Definition w_detour : DnsServer := Build_DnsServer None (Some (str "vpn")) "dns" None.

Definition plan_of (start : Z) (servers : list DnsServer) : plan :=
  from_exc (mk_plan [] [] 0 0)
    (plan_routing (w_config start [w_vpn] servers) w_marks 16711680 None None true None).

(** The validation of the rule priorities counts one lookup/guard pair per
    outbound, but an outbound that is also a detour of the resolver gets two:
    with a start of 4294967293 the configuration passes the check and the last
    guard is planned with priority 0. *)
Theorem detour_guard_priority_wraps :
  validate_rule_priorities (w_config 4294967293 [w_vpn] [w_detour]) = true ∧
  rl_priority <$> planned_rules (plan_of 4294967293 [w_detour]) =
    [4294967293; 4294967294; 4294967295; 0].
Proof. split; vm_compute; reflexivity. Qed.

Lemma safe_table_id_correct_witness :
  ∃ k, safe_table_id 249 1 = Some (visited 249 k) ∧
       is_reserved_table (visited 249 k) = false ∧ usable 249 k = 1.
Proof. apply (safe_table_id_correct 249 1); lia. Defined.


(** A kernel without IPv6 rules, where the transaction fails and is undone, and
    one that takes every rule. *)
Definition w_populated_on (NU : Netlink (list RuleSpec) RuleSpec RuleSpec) :=
  populate_routing_state (NR := RouteTable.w_kernel) (NU := NU)
    false (w_config 1000 [w_vpn] []) w_marks None None true None
    (([], empty_RouteTable), ([], empty_PolicyRuleManager)).
Definition w_populated := w_populated_on PolicyRule.w_ipv4_kernel.
Definition w_populated_whole := w_populated_on PolicyRule.w_kernel.

Lemma w_populated_fails : is_ok w_populated.1 = false.
Proof. vm_compute. reflexivity. Qed.
Lemma w_populated_succeeds : is_ok w_populated_whole.1 = true.
Proof. vm_compute. reflexivity. Qed.

Lemma w_ipv4_reliable : @deletes_reliably _ _ _ PolicyRule.w_ipv4_kernel.
Proof. intros k r Hr. cbn in *. unfold lk_delete. by rewrite bool_decide_eq_true_2. Qed.

Lemma populate_is_transactional_witness :
  (let s' := w_populated.2 in
   s'.1.2 = empty_RouteTable ∧ s'.2.2 = empty_PolicyRuleManager ∧
   (∀ x, x ∈ s'.1.1 ↔ x ∈ []) ∧ (∀ x, x ∈ s'.2.1 ↔ x ∈ [])) ∧
  (let s' := w_populated_whole.2 in ∃ p,
   (∀ x, x ∈ s'.1.1 ↔ x ∈ [] ∨ ∃ r, r ∈ planned_routes p ∧ x = r) ∧
   (∀ x, x ∈ s'.2.1 ↔ x ∈ [] ∨ ∃ r f, r ∈ planned_rules p ∧ f ∈ PolicyRule.families r ∧
                                      x = with_family f r)).
Proof.
  split.
  - pose proof (populate_is_transactional (Netlink0 := RouteTable.w_kernel)
      (Netlink1 := PolicyRule.w_ipv4_kernel) [] [] (w_config 1000 [w_vpn] []) w_marks
      None None true None (list_kernel_reliable id) w_ipv4_reliable) as H.
    fold (w_populated_on PolicyRule.w_ipv4_kernel) in H. fold w_populated in H.
    pose proof w_populated_fails as Hf.
    destruct w_populated as [[[]|e|] [[kr t] [ku u]]]; [discriminate Hf|exact H|destruct H].
  - pose proof (populate_is_transactional (Netlink0 := RouteTable.w_kernel)
      (Netlink1 := PolicyRule.w_kernel) [] [] (w_config 1000 [w_vpn] []) w_marks
      None None true None (list_kernel_reliable id) (list_kernel_reliable id)) as H.
    fold (w_populated_on PolicyRule.w_kernel) in H. fold w_populated_whole in H.
    pose proof w_populated_succeeds as Hs.
    destruct w_populated_whole as [[[]|e|] [[kr t] [ku u]]]; [|discriminate Hs..].
    destruct H as (mask & p & _ & _ & _ & _ & H1 & H2). exists p. exact (conj H1 H2).
Defined.
