(* ===== verification/AddrSpec.v ===== *)
(** * Rule selectors: addresses and their validation
    (src/src/config/addr_spec.hpp and the selector checks of
    src/src/config/config.cpp)

    [parse_addr_spec] splits an address selector into CIDRs; the validators of
    config.cpp decide which port and address selectors a configuration may
    contain.  [inet_pton] belongs to the C library. *)

From S2P Require Import Prelude CppString Config PortSpec Fwmark.

Local Open Scope Z_scope.

(** [inet_pton family s]: the bytes of the address, when [s] is one. *)
Class InetPton := { inet_pton : Z → cstring → option (list Z) }.

Record AddrSpec := mk_AddrSpec { addrs : list cstring; negate : bool }.
Definition empty_AddrSpec : AddrSpec := mk_AddrSpec [] false.

Definition is_blank (c : ascii) : bool := (ord c =? 32) || (ord c =? 9).

(** [s.substr(1)] after a leading '!', with the flag. *)
Definition strip_neg (value : cstring) : cstring * bool :=
  match value with
  | c :: rest => if ascii_eqb c "!" then (rest, true) else (value, false)
  | [] => (value, false)
  end.

Section addr_spec.
Context {IP : InetPton}.

Definition is_inet (family : Z) (s : cstring) : bool :=
  match inet_pton family s with Some _ => true | None => false end.

Definition validate_cidr (cidr : cstring) : exc unit :=
  let slash := find_char "/" cidr in
  let ip_part := match slash with None => cidr | Some i => take i cidr end in
  let is_v4 := is_inet AF_INET ip_part in
  let is_v6 := negb is_v4 && is_inet AF_INET6 ip_part in
  if negb is_v4 && negb is_v6 then
    Throw (invalid_argument ("Invalid IP address in CIDR spec: '" ++ cidr ++ "'"))
  else match slash with
  | None => Ok tt
  | Some i =>
      match whole (from_chars_int (drop (i + 1) cidr)) with
      | None => Throw (invalid_argument ("Invalid prefix length in CIDR spec: '" ++ cidr ++ "'"))
      | Some prefix =>
          let max_prefix := if is_v4 then 32 else 128 in
          if (prefix <? 0) || (max_prefix <? prefix) then
            Throw (invalid_argument
                     ("Prefix length out of range in CIDR spec: '" ++ cidr ++ "'"))
          else Ok tt
      end
  end.

Fixpoint parse_addr_tokens (tokens : list cstring) (acc : list cstring) : exc (list cstring) :=
  match tokens with
  | [] => mret acc
  | token :: tokens =>
      let token := trim_by is_blank token in
      if bool_decide (token = []) then parse_addr_tokens tokens acc
      else
        _ ← validate_cidr token;
        parse_addr_tokens tokens (acc ++ [token])
  end.

Definition parse_addr_spec (spec : cstring) : exc AddrSpec :=
  match spec with
  | [] => Ok empty_AddrSpec
  | _ =>
      let '(body, neg) := strip_neg spec in
      l ← parse_addr_tokens (getline_all "," body) [];
      mret (mk_AddrSpec l neg)
  end.

(** ** The validators of config.cpp: [None] accepts *)

Definition parse_uint_in_range (raw : cstring) (min_value max_value : Z) : option Z :=
  if bool_decide (raw = []) then None
  else match parse_port_value_loop 0 raw with
       | None => None
       | Some value => if (value <? min_value) || (max_value <? value) then None else Some value
       end.

Definition bad_list : cstring := "Use comma-separated ports or ranges.".
Definition bad_range : cstring := "Port ranges must use valid ports such as 8000-9000.".

Definition validate_port_part (token : cstring) : option cstring :=
  let part := trim_copy token in
  if bool_decide (part = []) then Some bad_list
  else match find_char "-" part with
  | Some dash =>
      match find_char_from "-" (dash + 1) part with
      | Some _ => Some bad_range
      | None =>
          match parse_uint_in_range (trim_copy (take dash part)) 1 65535,
                parse_uint_in_range (trim_copy (drop (dash + 1) part)) 1 65535 with
          | Some start, Some end_ =>
              if end_ <? start
              then Some (str "Port range start must be less than or equal to end.") else None
          | _, _ => Some bad_range
          end
      end
  | None =>
      match parse_uint_in_range part 1 65535 with
      | None => Some (str "Ports must be integers between 1 and 65535.")
      | Some _ => None
      end
  end.

Fixpoint validate_port_parts (tokens : list cstring) : option cstring :=
  match tokens with
  | [] => None
  | token :: tokens =>
      match validate_port_part token with
      | Some e => Some e
      | None => validate_port_parts tokens
      end
  end.

(** Empty, or with a comma at either end. *)
Definition bad_commas (content : cstring) : bool :=
  bool_decide (content = []) || bool_decide (head content = Some ","%char) ||
  bool_decide (last content = Some ","%char).

Definition validate_port_spec (value : option cstring) : option cstring :=
  match value with
  | None => None
  | Some value =>
      let normalized := trim_copy value in
      if bool_decide (normalized = []) then None
      else
        let content := (strip_neg normalized).1 in
        if bad_commas content then Some bad_list
        else validate_port_parts (getline_all "," content)
  end.

Definition validate_address_spec (value : option cstring) : option cstring :=
  match value with
  | None => None
  | Some value =>
      let normalized := trim_copy value in
      if bool_decide (normalized = []) then None
      else if bad_commas (strip_neg normalized).1 then
        Some (str "Use comma-separated IP addresses or CIDRs.")
      else match parse_addr_spec normalized with
           | Throw (invalid_argument _) =>
               Some ("Addresses must be valid IPv4 or IPv6 hosts or CIDR ranges, " ++
                     "for example 10.0.0.1, 10.0.0.0/8, or 2001:db8::/32.")
           | _ => None
           end
  end.

(** ** Lemmas *)

(** An address the parser lets through. *)
Definition valid_cidr (a : cstring) : Prop := validate_cidr a = Ok tt.

Lemma validate_cidr_throws a : validate_cidr a ≠ Undefined.
Proof. unfold validate_cidr. by repeat case_match. Qed.

Lemma parse_addr_tokens_Ok tokens acc l :
  parse_addr_tokens tokens acc = Ok l ↔
  Forall (λ t, trim_by is_blank t = [] ∨ valid_cidr (trim_by is_blank t)) tokens ∧
  l = acc ++ List.filter (λ t, negb (bool_decide (t = []))) (trim_by is_blank <$> tokens).
Proof.
  revert acc. induction tokens as [|t tokens IH]; intros acc; cbn.
  - rewrite app_nil_r. split; [intros [= <-]; by split|]. by intros [_ ->].
  - case_bool_decide as Ht; cbn.
    + rewrite IH, Forall_cons. naive_solver.
    + rewrite Forall_cons. unfold valid_cidr. unfold mbind, exc_bind.
      destruct (validate_cidr (trim_by is_blank t)) as [[]|e|]; [|naive_solver..].
      rewrite IH, <-app_assoc. naive_solver.
Qed.

Lemma drop_while_no f s : forallb (λ c, negb (f c)) s = true → drop_while f s = s.
Proof. destruct s as [|c s]; cbn; [done|]. intros [H _]%andb_true_iff. by destruct (f c). Qed.

Lemma forallb_reverse {A} (f : A → bool) (l : list A) : forallb f (reverse l) = forallb f l.
Proof.
  apply Bool.eq_true_iff_eq. rewrite !forallb_forall.
  setoid_rewrite <-list_elem_of_In. setoid_rewrite elem_of_reverse. done.
Qed.

Lemma trim_by_no f s : forallb (λ c, negb (f c)) s = true → trim_by f s = s.
Proof.
  intros H. unfold trim_by. rewrite (drop_while_no f s) by done.
  rewrite drop_while_no by by rewrite forallb_reverse. apply reverse_involutive.
Qed.

Lemma forallb_elem {A} (f : A → bool) l : forallb f l = true ↔ ∀ x, x ∈ l → f x = true.
Proof. rewrite forallb_forall. by setoid_rewrite list_elem_of_In. Qed.

(** The two ways of splitting agree on a text that does not end in a separator. *)
Lemma getline_split sep cur s :
  last (cur ++ s) ≠ Some sep → cur ++ s ≠ [] →
  getline_loop sep cur s = split_loop sep cur s.
Proof.
  revert cur. induction s as [|c s IH]; intros cur Hl Hne; cbn.
  - rewrite app_nil_r in Hne. by rewrite bool_decide_eq_false_2.
  - destruct (ascii_eqb c sep) eqn:E.
    + f_equal. apply ascii_eqb_eq in E as ->. destruct s as [|d s].
      * exfalso. apply Hl. by rewrite last_snoc.
      * apply IH; [|done]. cbn [app]. intros H. apply Hl.
        rewrite last_app. cbn [last]. by rewrite H.
    + apply IH; rewrite <-app_assoc; done.
Qed.

Lemma parse_uint_port raw v : parse_uint_in_range raw 1 65535 = Some v ↔ denotes_port raw v.
Proof. apply (parse_port_value_Some raw v). Qed.

Definition no_space (s : cstring) : bool := forallb (λ c, negb (isspace c)) s.

Lemma no_space_trim s : no_space s = true → trim_copy s = s.
Proof. apply trim_by_no. Qed.

Lemma no_space_app a b : no_space (a ++ b) = true ↔ no_space a = true ∧ no_space b = true.
Proof. unfold no_space. by rewrite forallb_app, andb_true_iff. Qed.

(** A whitespace-free part that passes the check denotes a range. *)
Lemma validate_port_part_denotes t :
  no_space t = true → validate_port_part t = None → ∃ r, denotes_range t r.
Proof.
  intros Hns. unfold validate_port_part. rewrite (no_space_trim t) by done.
  case_bool_decide as Hne; [done|].
  destruct (find_char "-" t) as [i|] eqn:Hf.
  - destruct (find_char_from "-" (i + 1) t) eqn:Hff; [done|].
    apply find_char_Some in Hf as [Ht _]. replace (i + 1)%nat with (S i) by lia.
    rewrite Ht in Hns. apply no_space_app in Hns as [H1 H2].
    apply (no_space_app ["-"%char]) in H2 as [_ H2].
    rewrite (no_space_trim _ H1), (no_space_trim _ H2).
    destruct (parse_uint_in_range (take i t) 1 65535) as [lo|] eqn:E1; [|done].
    destruct (parse_uint_in_range (drop (S i) t) 1 65535) as [hi|] eqn:E2; [|done].
    apply parse_uint_port in E1, E2. destruct (Z.ltb_spec hi lo); [done|]. intros _.
    exists (mk_PortRange lo hi). left. right. eauto 10.
  - destruct (parse_uint_in_range t 1 65535) as [v|] eqn:E; [|done]. intros _.
    apply parse_uint_port in E. exists (mk_PortRange v v). left. by left.
Qed.

Lemma validate_port_parts_denote tokens :
  Forall (λ t, no_space t = true) tokens → validate_port_parts tokens = None →
  ∃ rs, Forall2 denotes_range tokens rs.
Proof.
  induction 1 as [|t tokens Ht _ IH]; cbn; [by eexists; constructor|].
  destruct (validate_port_part t) eqn:E; [done|]. intros H.
  destruct (validate_port_part_denotes t Ht E) as [r Hr]. destruct (IH H) as [rs Hrs].
  exists (r :: rs). by constructor.
Qed.

Lemma elem_of_split_loop sep cur s t c :
  t ∈ split_loop sep cur s → c ∈ t → c ∈ cur ++ s.
Proof.
  revert cur. induction s as [|x s IH]; intros cur; cbn.
  - rewrite list_elem_of_singleton, app_nil_r. by intros ->.
  - destruct (ascii_eqb x sep).
    + intros [->|Ht]%elem_of_cons Hc; [set_solver|].
      specialize (IH [] Ht Hc). set_solver.
    + intros Ht Hc. specialize (IH _ Ht Hc). by rewrite <-app_assoc in IH.
Qed.

Lemma validate_port_spec_parses `{SS : StdSort} s :
  no_space s = true → s ≠ [] → validate_port_spec (Some s) = None →
  ∃ ps, parse_port_spec (strip_neg s).1 = Ok ps.
Proof.
  intros Hns Hne. unfold validate_port_spec. rewrite no_space_trim by done.
  rewrite bool_decide_eq_false_2 by done.
  set (content := (strip_neg s).1).
  destruct (bad_commas content) eqn:Hb; [done|]. unfold bad_commas in Hb. breflect.
  destruct Hb as [[Hc1 _] Hc2]. unfold getline_all.
  rewrite getline_split by done. intros Hv.
  assert (Hcs : ∀ c, c ∈ content → c ∈ s).
  { subst content. unfold strip_neg. intros c. destruct s as [|x s]; [done|].
    destruct (ascii_eqb x "!"); [by right|done]. }
  destruct (validate_port_parts_denote (split_loop "," [] content)) as [rs Hrs].
  - apply Forall_forall. intros t Ht. unfold no_space. apply forallb_elem. intros c Hc.
    unfold no_space in Hns. rewrite forallb_elem in Hns. apply Hns, Hcs.
    apply (elem_of_split_loop "," [] content t c Ht Hc).
  - done.
  - exists (mk_PortSpec (std_sort range_lt rs)). apply parse_port_spec_Ok. right.
    split; [done|]. exists rs. split; [done|]. cbn. split.
    + apply std_sort_perm.
    + apply std_sort_in_order, range_lt_swo.
Qed.

Lemma last_join sep l :
  l ≠ [] → Forall (λ p, p ≠ []) l → ∃ p, p ∈ l ∧ last (join [sep] l) = last p.
Proof.
  intros Hne HF. induction HF as [|p l Hp HF IH]; [done|]. destruct l as [|q l].
  - exists p. split; [left|done].
  - destruct IH as (r & Hr & Hl); [done|]. exists r. split; [by right|].
    change (join [sep] (p :: q :: l)) with (p ++ sep :: join [sep] (q :: l)).
    assert (Hnn : join [sep] (q :: l) ≠ []) by (apply join_ne; done).
    rewrite last_app, last_cons, Hl. rewrite Forall_forall in HF.
    destruct (last r) eqn:El; [done|]. apply last_None in El as ->. by destruct (HF []).
Qed.

(** A printed selector. *)
Definition print_addr_spec (a : AddrSpec) : cstring :=
  (if negate a then str "!" else []) ++ join [","%char] (addrs a).

(** A CIDR as it may appear in a printed selector. *)
Definition plain_cidr (a : cstring) : Prop :=
  valid_cidr a ∧ a ≠ [] ∧ (","%char ∉ a) ∧ ("!"%char ∉ a) ∧
  forallb (λ c, negb (is_blank c)) a = true.

Lemma print_addr_spec_strip a :
  Forall plain_cidr (addrs a) → addrs a ≠ [] →
  strip_neg (print_addr_spec a) = (join [","%char] (addrs a), negate a).
Proof.
  destruct a as [l neg]. unfold print_addr_spec. cbn. intros HF Hne.
  destruct neg; [done|]. cbn. destruct l as [|a l]; [done|].
  apply Forall_cons in HF as [(_ & Ha & _ & Hx & _) _]. destruct a as [|c a]; [done|].
  assert (Hc : ascii_eqb c "!" = false) by (apply ascii_eqb_neq; set_solver).
  destruct l; unfold strip_neg; cbn; by rewrite Hc.
Qed.

Lemma parse_addr_spec_print a :
  Forall plain_cidr (addrs a) → addrs a ≠ [] → parse_addr_spec (print_addr_spec a) = Ok a.
Proof.
  intros HF Hne. pose proof (print_addr_spec_strip a HF Hne) as Hs.
  unfold parse_addr_spec.
  assert (HF1 : Forall (λ p : cstring, p ≠ []) (addrs a))
    by (eapply Forall_impl; [exact HF|]; unfold plain_cidr; naive_solver).
  assert (HF2 : Forall (λ p : cstring, ","%char ∉ p) (addrs a))
    by (eapply Forall_impl; [exact HF|]; unfold plain_cidr; naive_solver).
  assert (Hj : join [","%char] (addrs a) ≠ []) by by apply join_ne.
  destruct (print_addr_spec a) as [|c s] eqn:Ep.
  { unfold print_addr_spec in Ep. by apply app_eq_nil in Ep as [_ ?]. }
  rewrite Hs. unfold getline_all. rewrite getline_split; [|cbn [app]|done].
  2:{ destruct (last_join "," (addrs a) Hne HF1) as (p & Hp & ->). intros Hl.
      rewrite Forall_forall in HF2. apply (HF2 p Hp).
      apply last_Some in Hl as [p' ->]. set_solver. }
  fold (split_on "," (join [","%char] (addrs a))). rewrite split_on_join by done.
  assert (Ht : trim_by is_blank <$> addrs a = addrs a).
  { clear - HF. induction HF as [|p l Hp _ IH]; cbn; [done|].
    rewrite IH. f_equal. apply trim_by_no. apply Hp. }
  rewrite (proj2 (parse_addr_tokens_Ok (addrs a) [] (addrs a))); [by destruct a|].
  split.
  - rewrite Forall_forall in *. intros p Hp. right.
    rewrite trim_by_no by apply (HF p Hp). apply (HF p Hp).
  - rewrite Ht. cbn. clear - HF1. induction HF1 as [|p l Hp _ IH]; cbn; [done|].
    rewrite bool_decide_eq_false_2 by done. cbn. by rewrite <-IH.
Qed.
End addr_spec.

(** ** Properties *)

(** A port selector without whitespace that the configuration check
    accepts can be turned into a firewall selector: parsing it, after its
    optional negation, does not throw. *)
Theorem validated_port_spec_parses `{SS : StdSort} s :
  no_space s = true → s ≠ [] → validate_port_spec (Some s) = None →
  ∃ ps, parse_port_spec (strip_neg s).1 = Ok ps.
Proof. apply validate_port_spec_parses. Qed.

(** The configuration check trims blanks around ports and ranges, the
    parser of the firewall does not: the selector "80, 443" is accepted and
    then throws when the rules are built. *)
Theorem padded_port_spec_throws `{SS : StdSort} :
  validate_port_spec (Some (str "80, 443")) = None ∧
  is_ok (parse_port_spec "80, 443") = false.
Proof. split; vm_compute; reflexivity. Qed.

(** Printing an address selector made of plain valid CIDRs, negated or
    not, and parsing it gives the selector back. *)
Theorem addr_spec_roundtrip {IP : InetPton} a :
  Forall plain_cidr (addrs a) → addrs a ≠ [] → parse_addr_spec (print_addr_spec a) = Ok a.
Proof. apply parse_addr_spec_print. Qed.

(** *** Witnesses *)

(** A C library that knows two addresses. *)
Definition w_inet : InetPton := {|
  inet_pton f s :=
    if (f =? AF_INET) && bool_decide (s = str "10.0.0.0") then Some [10; 0; 0; 0]
    else if (f =? AF_INET) && bool_decide (s = str "192.168.1.1") then Some [192; 168; 1; 1]
    else None;
|}.

Lemma validated_port_spec_parses_witness :
  ∃ ps, @parse_port_spec insertion_StdSort (strip_neg "!80,8000-9000").1 = Ok ps.
Proof. apply (@validated_port_spec_parses insertion_StdSort); [reflexivity|done|reflexivity]. Defined.

Lemma addr_spec_roundtrip_witness :
  let a := mk_AddrSpec [str "10.0.0.0/8"; str "192.168.1.1"] true in
  @parse_addr_spec w_inet (print_addr_spec a) = Ok a.
Proof.
  apply (@addr_spec_roundtrip w_inet); [|done].
  apply Forall_forall. intros x. cbn [addrs]. rewrite !elem_of_cons, elem_of_nil.
  intros [->|[->|[]]]; (split; [reflexivity|]); (split; [done|]);
    (split; [by apply (bool_decide_unpack _); vm_compute|]);
    (split; [by apply (bool_decide_unpack _); vm_compute|reflexivity]).
Defined.
