(* ===== verification/DnsServer.v ===== *)
(** * DNS servers (src/src/dns/dns_server.{hpp,cpp}, src/src/dns/dns_router.{hpp,cpp})

    The spelling of a server address ("ip", "ip:port", "[ip]", "[ip]:port") and
    the registry of the configured servers by tag. *)

From S2P Require Import Prelude CppString Config AddrSpec.

Local Open Scope Z_scope.

Record ParsedDnsAddress := mk_ParsedDns { dns_ip : cstring; dns_port : Z }.

Record DnsServerConfig := mk_DnsServerConfig {
  ds_tag : cstring;
  ds_address : cstring;
  ds_detour : option cstring;
  ds_resolved_ip : cstring;
  ds_port : Z;
}.

Definition bad_address (address why : cstring) : exn :=
  DnsError ("Invalid DNS server address: '" ++ address ++ "' (" ++ why ++ ")").

Definition parse_dns_port_or_throw (address port_str : cstring) : exc Z :=
  match whole (from_chars_uint port_str) with
  | None => Throw (bad_address address "non-numeric port")
  | Some port =>
      if (port <? 1) || (port >? 65535)
      then Throw (bad_address address "port out of range 1-65535")
      else Ok port
  end.

(** One octet, from [start] to [i]. *)
Definition octet_ok (cur : cstring) : bool :=
  if bool_decide (cur = []) then false
  else match whole (from_chars_uint cur) with Some octet => negb (octet >? 255) | None => false end.

(** The loop over the characters; [cur] is the text since [start]. *)
Fixpoint is_valid_ipv4_loop (s cur : cstring) (dots : nat) : bool :=
  match s with
  | [] => octet_ok cur && (dots =? 3)%nat
  | c :: s =>
      if ascii_eqb c "." then octet_ok cur && is_valid_ipv4_loop s [] (S dots)
      else if (ord c <? 48) || (ord c >? 57) then false
      else is_valid_ipv4_loop s (cur ++ [c]) dots
  end.
Definition is_valid_ipv4 (addr : cstring) : bool := is_valid_ipv4_loop addr [] 0.

Section dns.
Context {IP : InetPton}.

Definition is_valid_ipv6 (addr : cstring) : bool :=
  if bool_decide (addr = []) then false
  else match find_char "%" addr with
       | Some _ => false
       | None => is_inet AF_INET6 addr
       end.

Definition is_valid_ip (addr : cstring) : bool := is_valid_ipv4 addr || is_valid_ipv6 addr.

Definition count_char (c : ascii) (s : cstring) : nat := length (List.filter (ascii_eqb c) s).

(** The part of [parse_dns_address_str] that separates the port. *)
Definition split_dns_address (address : cstring) : exc (cstring * Z) :=
  match address with
  | [] => Throw (DnsError "Invalid DNS server address: empty string")
  | c :: _ =>
      if ascii_eqb c "[" then
        match find_char "]" address with
        | None => Throw (bad_address address "missing closing ']'")
        | Some close =>
            let ip := substr 1 (close - 1) address in
            if (S close <? length address)%nat then
              if negb (bool_decide (address !! S close = Some ":"%char)) then
                Throw (bad_address address "expected ':' after ']'")
              else port ← parse_dns_port_or_throw address (drop (close + 2) address);
                   mret (ip, port)
            else mret (ip, 53)
        end
      else if (count_char ":" address =? 1)%nat then
        match find_char ":" address with
        | None => Undefined
        | Some sep =>
            port ← parse_dns_port_or_throw address (drop (S sep) address);
            mret (take sep address, port)
        end
      else mret (address, 53)
  end.

Definition parse_dns_address_str (address : cstring) : exc ParsedDnsAddress :=
  ip_port ← split_dns_address address;
  if negb (is_valid_ip ip_port.1)
  then Throw (bad_address address "not a valid IPv4 or IPv6 address")
  else mret (mk_ParsedDns ip_port.1 ip_port.2).

Definition validate_dns_address (address : cstring) : exc unit :=
  parse_dns_address_str address ≫= λ _, mret tt.

Definition parse_dns_server (tag address : cstring) (detour : option cstring) :
    exc DnsServerConfig :=
  parsed ← parse_dns_address_str address;
  mret (mk_DnsServerConfig tag address detour (dns_ip parsed) (dns_port parsed)).

(** ** The registry *)

Record DnsServerRegistry := mk_Registry {
  servers_ : gmap cstring (list DnsServerConfig);
  fallback_tags_ : list cstring;
}.

(** [resolve_keenetic_dns_addresses()] *)
Context (keenetic_addresses : exc (list cstring)).

Definition push_server (tag : cstring) (s : DnsServerConfig)
    (m : gmap cstring (list DnsServerConfig)) : gmap cstring (list DnsServerConfig) :=
  <[tag := value_or (m !! tag) [] ++ [s]]> m.

Fixpoint push_addresses (server : DnsServer) (addresses : list cstring)
    (m : gmap cstring (list DnsServerConfig)) : exc (gmap cstring (list DnsServerConfig)) :=
  match addresses with
  | [] => mret m
  | a :: addresses =>
      s ← parse_dns_server (dns_tag server) a (dns_detour server);
      push_addresses server addresses (push_server (dns_tag server) s m)
  end.

Fixpoint register_servers (l : list DnsServer) (m : gmap cstring (list DnsServerConfig)) :
    exc (gmap cstring (list DnsServerConfig)) :=
  match l with
  | [] => mret m
  | server :: l =>
      m ← match value_or (dns_type server) DnsServerType.STATIC with
          | DnsServerType.KEENETIC =>
              addresses ← keenetic_addresses; push_addresses server addresses m
          | DnsServerType.STATIC =>
              match dns_address server with
              | None => Throw (DnsError ("DNS server '" ++ dns_tag server ++ "' is missing address"))
              | Some a => push_addresses server [a] m
              end
          end;
      register_servers l m
  end.

Fixpoint check_tags (m : gmap cstring (list DnsServerConfig)) (error : cstring → exn)
    (tags : list cstring) : exc unit :=
  match tags with
  | [] => mret tt
  | t :: tags => if bool_decide (is_Some (m !! t)) then check_tags m error tags else Throw (error t)
  end.

Definition make_DnsServerRegistry (cfg : DnsConfig) : exc DnsServerRegistry :=
  let fallback_tags := value_or (fallback cfg) [] in
  m ← register_servers (value_or (servers cfg) []) ∅;
  check_tags m (λ t, DnsError ("DNS fallback server tag not found: '" ++ t ++ "'")) fallback_tags
    ≫= λ _,
  check_tags m (λ t, DnsError ("DNS rule references unknown server tag: '" ++ t ++ "'"))
    (dns_rule_server <$> List.filter dns_rule_enabled (value_or (dns_rules cfg) [])) ≫= λ _,
  mret (mk_Registry m fallback_tags).

Definition get_servers (r : DnsServerRegistry) (tag : cstring) : list DnsServerConfig :=
  value_or (servers_ r !! tag) [].

Definition fallback_servers (r : DnsServerRegistry) : list DnsServerConfig :=
  t ← fallback_tags_ r; get_servers r t.
End dns.

(** ** IPv4 literals *)

Definition is_octet (p : cstring) : Prop :=
  p ≠ [] ∧ forallb isdigit p = true ∧ dec_value 0 p ≤ 255.

Lemma from_chars_uint_digits p : p ≠ [] → forallb isdigit p = true →
  whole (from_chars_uint p) =
  if dec_value 0 p <=? UINT32_MAX then Some (dec_value 0 p) else None.
Proof.
  intros Hne Hd. unfold from_chars_uint. rewrite take_while_all, drop_while_all by done.
  rewrite bool_decide_eq_false_2 by done. by destruct (_ <=? _).
Qed.

Lemma from_chars_uint_whole s v : whole (from_chars_uint s) = Some v ↔
  s ≠ [] ∧ forallb isdigit s = true ∧ v = dec_value 0 s ∧ v ≤ UINT32_MAX.
Proof.
  split.
  - unfold from_chars_uint. case_bool_decide as E; [done|].
    destruct (_ <=? _) eqn:Hv; [|done]. destruct (drop_while isdigit s) eqn:Hd; [|done].
    intros [= <-]. apply drop_while_nil in Hd. rewrite take_while_all in * by done.
    apply Z.leb_le in Hv. done.
  - intros (Hne & Hd & -> & Hv). rewrite from_chars_uint_digits by done.
    by rewrite (proj2 (Z.leb_le _ _)).
Qed.

Lemma octet_ok_spec p : octet_ok p = true ↔ is_octet p.
Proof.
  unfold octet_ok, is_octet. case_bool_decide as E; [naive_solver|].
  destruct (whole (from_chars_uint p)) as [v|] eqn:Ew.
  - apply from_chars_uint_whole in Ew as (? & ? & -> & ?). breflect.
    rewrite Z.gtb_ltb, Z.ltb_ge. naive_solver.
  - split; [done|]. intros (_ & Hd & Hv). rewrite from_chars_uint_digits in Ew by done.
    rewrite (proj2 (Z.leb_le _ _)) in Ew; [done|]. unfold UINT32_MAX. lia.
Qed.

Lemma is_valid_ipv4_loop_spec s cur dots :
  is_valid_ipv4_loop s cur dots = true ↔
  Forall is_octet (split_loop "." cur s) ∧ (length (split_loop "." cur s) + dots = 4)%nat.
Proof.
  revert cur dots. induction s as [|c s IH]; intros cur dots; cbn.
  - rewrite andb_true_iff, octet_ok_spec, Nat.eqb_eq, Forall_singleton. intuition lia.
  - destruct (ascii_eqb c ".") eqn:E; cbn.
    + rewrite andb_true_iff, octet_ok_spec, IH, Forall_cons. intuition lia.
    + destruct (isdigit c) eqn:Ed.
      * assert ((ord c <? 48) || (ord c >? 57) = false) as ->.
        { apply isdigit_range in Ed. breflect. rewrite Z.gtb_ltb, Z.ltb_ge. lia. }
        apply IH.
      * assert ((ord c <? 48) || (ord c >? 57) = true) as ->.
        { apply not_true_iff_false in Ed. rewrite isdigit_range in Ed.
          rewrite orb_true_iff, Z.gtb_ltb, !Z.ltb_lt. lia. }
        split; [done|]. intros [HF _]. exfalso.
        destruct (split_loop_starts "." (cur ++ [c]) s) as (t & rest & Ht). rewrite Ht in HF.
        apply Forall_cons in HF as [(_ & Hd & _) _].
        rewrite !forallb_app in Hd. cbn in Hd. rewrite Ed in Hd. by rewrite !andb_false_r in Hd.
Qed.

(** The IPv4 test accepts exactly four decimal octets of at most 255, joined by
    dots. *)
Lemma is_valid_ipv4_spec s : is_valid_ipv4 s = true ↔
  Forall is_octet (split_on "." s) ∧ length (split_on "." s) = 4%nat.
Proof. unfold is_valid_ipv4, split_on. rewrite is_valid_ipv4_loop_spec, Nat.add_0_r. done. Qed.

(** ** Addresses *)

Definition port_spelling (ds : cstring) (p : Z) : Prop :=
  ds ≠ [] ∧ forallb isdigit ds = true ∧ dec_value 0 ds = p ∧ 1 ≤ p ≤ 65535.

Inductive dns_spelling : cstring → cstring → Z → Prop :=
  | spell_bracket ip : "]"%char ∉ ip → dns_spelling ("[" ++ ip ++ "]") ip 53
  | spell_bracket_port ip ds p : "]"%char ∉ ip → port_spelling ds p →
      dns_spelling ("[" ++ ip ++ "]:" ++ ds) ip p
  | spell_port ip ds p : ":"%char ∉ ip → head ip ≠ Some "["%char → port_spelling ds p →
      dns_spelling (ip ++ ":" ++ ds) ip p
  | spell_bare ip : ip ≠ [] → head ip ≠ Some "["%char → count_char ":" ip ≠ 1%nat →
      dns_spelling ip ip 53.

Lemma parse_dns_port_spec address ds p :
  parse_dns_port_or_throw address ds = Ok p ↔ port_spelling ds p.
Proof.
  unfold parse_dns_port_or_throw, port_spelling.
  destruct (whole (from_chars_uint ds)) as [v|] eqn:E.
  - apply from_chars_uint_whole in E as (Hne & Hd & -> & Hv).
    destruct ((dec_value 0 ds <? 1) || (dec_value 0 ds >? 65535)) eqn:Er.
    + split; [done|]. intros (_ & _ & <- & Hr). rewrite Z.gtb_ltb in Er. breflect. lia.
    + rewrite Z.gtb_ltb in Er. breflect. split; [intros [= <-]; naive_solver lia|].
      intros (_ & _ & -> & _). done.
  - split; [done|]. intros (Hne & Hd & <- & Hr).
    rewrite from_chars_uint_digits in E by done.
    rewrite (proj2 (Z.leb_le _ _)) in E; [done|]. unfold UINT32_MAX. lia.
Qed.

Lemma count_char_app c s t : count_char c (s ++ t) = (count_char c s + count_char c t)%nat.
Proof. unfold count_char. by rewrite List.filter_app, length_app. Qed.

Lemma count_char_0 c s : count_char c s = 0%nat ↔ c ∉ s.
Proof.
  unfold count_char. induction s as [|x s IH]; cbn.
  - split; [intros _; apply not_elem_of_nil|done].
  - rewrite not_elem_of_cons. destruct (ascii_eqb c x) eqn:E; cbn.
    + apply ascii_eqb_eq in E as ->. naive_solver.
    + apply ascii_eqb_neq in E. rewrite IH. naive_solver.
Qed.

Lemma port_no_colon ds p : port_spelling ds p → count_char ":" ds = 0%nat.
Proof.
  intros (_ & Hd & _). apply count_char_0. intros Hin. rewrite forallb_forall in Hd.
  apply list_elem_of_In in Hin. by specialize (Hd _ Hin).
Qed.

Lemma split_dns_address_complete s ip p :
  dns_spelling s ip p → split_dns_address s = Ok (ip, p).
Proof.
  destruct 1 as [ip Hip|ip ds p Hip Hp|ip ds p Hip Hh Hp|ip Hne Hh Hc].
  - assert (Hs : str "[" ++ ip ++ "]" = ("["%char :: ip) ++ "]"%char :: []) by done.
    rewrite Hs. unfold split_dns_address. cbn [app]. rewrite ascii_eqb_refl, app_comm_cons.
    rewrite find_char_app by (apply not_elem_of_cons; done).
    rewrite (proj2 (Nat.ltb_ge _ _)) by (rewrite length_app; cbn; lia).
    cbn [length]. unfold substr. cbn. by rewrite Nat.sub_0_r, drop_0, take_app_length.
  - assert (Hs : str "[" ++ ip ++ "]:" ++ ds = ("["%char :: ip) ++ "]"%char :: ":"%char :: ds) by done.
    rewrite Hs. unfold split_dns_address. cbn [app]. rewrite ascii_eqb_refl, app_comm_cons.
    rewrite find_char_app by (apply not_elem_of_cons; done).
    rewrite (proj2 (Nat.ltb_lt _ _)) by (rewrite length_app; cbn; lia).
    rewrite lookup_app_r by lia.
    replace (S (length ("["%char :: ip)) - length ("["%char :: ip))%nat with 1%nat by lia.
    rewrite bool_decide_eq_true_2 by done. cbn [negb].
    assert (Hd : drop (length ("["%char :: ip) + 2)
      (("["%char :: ip) ++ "]"%char :: ":"%char :: ds) = ds).
    { rewrite drop_app_ge by lia. by rewrite Nat.add_comm, Nat.add_sub. }
    rewrite Hd, (proj2 (parse_dns_port_spec _ _ p)) by done. cbn. unfold substr. cbn. by rewrite Nat.sub_0_r, drop_0, take_app_length.
  - assert (H1 : count_char ":" (ip ++ ":" ++ ds) = 1%nat).
    { by rewrite !count_char_app, (proj2 (count_char_0 _ _) Hip), (port_no_colon ds p). }
    assert (Hd : drop (S (length ip)) (ip ++ ":" ++ ds) = ds).
    { rewrite drop_app_ge by lia. by replace (S (length ip) - length ip)%nat with 1%nat by lia. }
    change (str ":" ++ ds) with (":"%char :: ds) in *.
    unfold split_dns_address. rewrite find_char_app, H1, Hd, take_app_length by done.
    rewrite Nat.eqb_refl, (proj2 (parse_dns_port_spec _ _ p)) by done.
    destruct ip as [|c ip]; [done|]. cbn [app].
    by rewrite (proj2 (ascii_eqb_neq c "[")) by (cbn in Hh; congruence).
  - unfold split_dns_address. destruct ip as [|c ip]; [done|].
    rewrite (proj2 (ascii_eqb_neq c "[")) by (cbn in Hh; congruence).
    by rewrite (proj2 (Nat.eqb_neq _ _)).
Qed.

Lemma split_dns_address_sound s ip p :
  split_dns_address s = Ok (ip, p) → dns_spelling s ip p.
Proof.
  unfold split_dns_address. destruct s as [|c s]; [done|].
  destruct (ascii_eqb c "[") eqn:Ec.
  - apply ascii_eqb_eq in Ec as ->. destruct (find_char "]" _) as [close|] eqn:Ef; [|done].
    apply find_char_Some in Ef as [Hs Hn].
    destruct close as [|close]; [by injection Hs|]. cbn [take drop app] in Hs, Hn.
    apply not_elem_of_cons in Hn as [_ Hn]. injection Hs as Hs.
    assert (Hip : substr 1 (S close - 1) ("["%char :: s) = take close s).
    { unfold substr. cbn. by rewrite Nat.sub_0_r, drop_0. }
    rewrite Hip. assert (Hcl : (close < length s)%nat).
    { apply (f_equal length) in Hs. rewrite length_app, length_take in Hs. cbn in Hs. lia. }
    destruct (Nat.ltb_spec (S (S close)) (length ("["%char :: s))) as [Hlt|Hge].
    + case_bool_decide as Hcol; cbn [negb]; [|done]. cbn in Hcol, Hlt.
      intros (q & Hq%parse_dns_port_spec & [= <- <-])%exc_bind_Ok.
      replace (S close + 2)%nat with (S (S (S close))) in Hq by lia. cbn [drop] in Hq.
      assert (Hd : drop (S close) s = ":"%char :: drop (S (S close)) s)
        by (by apply drop_S).
      rewrite Hs at 1. rewrite Hd.
      exact (spell_bracket_port (take close s) (drop (S (S close)) s) q Hn Hq).
    + intros [= <- <-]. cbn in Hge. rewrite (drop_ge s (S close)) in Hs by lia.
      rewrite Hs at 1. exact (spell_bracket (take close s) Hn).
  - apply ascii_eqb_neq in Ec.
    destruct (Nat.eqb_spec (count_char ":" (c :: s)) 1) as [E1|E1].
    + destruct (find_char ":" (c :: s)) as [sep|] eqn:Ef; [|done].
      apply find_char_Some in Ef as [Hs Hn].
      intros (q & Hq%parse_dns_port_spec & [= <- <-])%exc_bind_Ok.
      rewrite Hs at 1. change (":"%char :: ?x) with (str ":" ++ x).
      apply spell_port; [done| |done]. destruct sep; cbn; congruence.
    + intros [= <- <-]. apply spell_bare; [done|cbn; congruence|done].
Qed.

(** A DNS server address is accepted exactly in its four spellings (a bare
    address, an address in brackets, each with or without a decimal port of 1
    to 65535), around a valid address, and the parts are the ones spelled. *)
Theorem parse_dns_address_correct {IP : InetPton} s ip p :
  parse_dns_address_str s = Ok (mk_ParsedDns ip p) ↔ dns_spelling s ip p ∧ is_valid_ip ip = true.
Proof.
  unfold parse_dns_address_str. rewrite exc_bind_Ok. split.
  - intros ((ip' & p') & Hs & H). cbn [fst snd] in H.
    destruct (is_valid_ip ip') eqn:Ev; [|done]. injection H as -> ->.
    by apply split_dns_address_sound in Hs.
  - intros [Hs Hv]. exists (ip, p). rewrite (split_dns_address_complete s ip p) by done.
    cbn. by rewrite Hv.
Qed.

(** ** The registry resolves every tag that is used *)

Section registry.
Context {IP : InetPton} (keenetic_addresses : exc (list cstring)).

Definition good_server (t : cstring) (s : DnsServerConfig) : Prop :=
  ds_tag s = t ∧ 1 ≤ ds_port s ≤ 65535 ∧ is_valid_ip (ds_resolved_ip s) = true.
Definition registry_ok (m : gmap cstring (list DnsServerConfig)) : Prop :=
  map_Forall (λ t l, l ≠ [] ∧ Forall (good_server t) l) m.

Lemma dns_spelling_port s ip p : dns_spelling s ip p → 1 ≤ p ≤ 65535.
Proof. destruct 1 as [|? ? ? ? (_ & _ & _ & ?)|? ? ? ? ? (_ & _ & _ & ?)|]; lia. Qed.

Lemma parse_dns_server_good t a d s : parse_dns_server t a d = Ok s → good_server t s.
Proof.
  unfold parse_dns_server. intros ([ip p] & Hp & [= <-])%exc_bind_Ok.
  apply parse_dns_address_correct in Hp as [Hs Hv]. split; [done|]. cbn.
  by apply dns_spelling_port in Hs.
Qed.

Lemma push_addresses_ok server l m m' :
  push_addresses server l m = Ok m' → registry_ok m → registry_ok m'.
Proof.
  revert m. induction l as [|a l IH]; intros m; cbn; [by intros [= <-]|].
  intros (s & Hs%parse_dns_server_good & H)%exc_bind_Ok Hm. apply (IH _ H).
  unfold push_server. apply map_Forall_insert_2; [|done]. split; [by destruct (value_or _ _)|].
  apply Forall_app. split; [|by apply Forall_singleton].
  destruct (m !! dns_tag server) as [l'|] eqn:E; cbn; [|constructor].
  by apply (Hm _ _ E).
Qed.

Lemma register_servers_ok l m m' :
  register_servers keenetic_addresses l m = Ok m' → registry_ok m → registry_ok m'.
Proof.
  revert m. induction l as [|server l IH]; intros m; cbn; [by intros [= <-]|].
  intros (m1 & H1 & H)%exc_bind_Ok Hm. apply (IH _ H).
  destruct (value_or (dns_type server) _).
  - apply exc_bind_Ok in H1 as (as_ & _ & H1). by eapply push_addresses_ok.
  - destruct (dns_address server) as [a|]; [|done]. exact (push_addresses_ok server [a] m m1 H1 Hm).
Qed.

Lemma check_tags_ok m e tags u t : check_tags m e tags = Ok u → t ∈ tags → is_Some (m !! t).
Proof.
  induction tags as [|t' tags IH]; cbn; [set_solver|]. case_bool_decide as Hd; [|done].
  intros H [->|Ht]%elem_of_cons; auto.
Qed.

(** A registry that is built resolves every tag that is used: each fallback
    tag and each server of an enabled rule has at least one server, and every
    server it returns carries the tag, a valid address and a port. *)
Theorem registry_resolves cfg r :
  make_DnsServerRegistry keenetic_addresses cfg = Ok r →
  (∀ t, t ∈ value_or (fallback cfg) [] → get_servers r t ≠ []) ∧
  (∀ rule, rule ∈ value_or (dns_rules cfg) [] → dns_rule_enabled rule = true →
     get_servers r (dns_rule_server rule) ≠ []) ∧
  (∀ t s, s ∈ get_servers r t → good_server t s) ∧
  Forall (λ s, ∃ t, t ∈ value_or (fallback cfg) [] ∧ good_server t s) (fallback_servers r).
Proof.
  unfold make_DnsServerRegistry.
  intros (m & Hm & ([] & Hf & ([] & Hr & [= <-])%exc_bind_Ok)%exc_bind_Ok)%exc_bind_Ok.
  apply register_servers_ok in Hm; [|apply map_Forall_empty].
  assert (Hne : ∀ t, is_Some (m !! t) → value_or (m !! t) [] ≠ []).
  { intros t [l Hl]. rewrite Hl. cbn. by apply (Hm _ _ Hl). }
  assert (Hg : ∀ t s, s ∈ value_or (m !! t) [] → good_server t s).
  { intros t s. destruct (m !! t) as [l|] eqn:E; cbn; [|set_solver].
    destruct (Hm _ _ E) as [_ HF]. intros Hs. rewrite Forall_forall in HF. by apply HF. }
  unfold get_servers. cbn [servers_ fallback_tags_]. split_and!.
  - intros t Ht. eapply Hne, check_tags_ok; [exact Hf|done].
  - intros rule Hin Hen. eapply Hne, check_tags_ok; [exact Hr|].
    apply list_elem_of_fmap. exists rule. split; [done|].
    rewrite list_elem_of_In, filter_In, <-list_elem_of_In. done.
  - exact Hg.
  - apply Forall_forall. unfold fallback_servers. intros s Hs.
    apply list_elem_of_bind in Hs as (t & Hs & Ht). exists t. split; [done|]. by apply Hg.
Qed.
End registry.

(** *** Witnesses *)

Definition w_dns : DnsConfig := {|
  dns_test_server := None;
  fallback := Some [str "local"];
  dns_rules := None;
  servers := Some [Build_DnsServer (Some (str "192.168.1.1:5353")) None "local" None];
  system_resolver := None;
|}.

Lemma registry_resolves_witness :
  ∃ r, @make_DnsServerRegistry w_inet (Throw (DnsError [])) w_dns = Ok r ∧
    get_servers r "local" ≠ [] ∧ Forall (λ s, ds_port s = 5353) (get_servers r "local").
Proof.
  destruct (@make_DnsServerRegistry w_inet (Throw (DnsError [])) w_dns) as [r|e|] eqn:E;
    [|vm_compute in E; discriminate E..].
  exists r. split; [done|]. split.
  - apply (@registry_resolves w_inet (Throw (DnsError [])) w_dns r E). cbn. left.
  - vm_compute in E. injection E as <-. repeat constructor.
Defined.
