(* ===== verification/DnsProbe.v ===== *)
(** * The DNS test server (src/src/dns/dns_probe_server.{hpp,cpp})

    The parser of queries, which works on bytes from the network, the answer it
    builds, the framing of the TCP clients and their limits.  A byte is an
    [ascii] ([ord] is its value); reading outside the packet is [Undefined].
    The sockets' results are arguments. *)

From S2P Require Import Prelude CppString AddrSpec DnsServer.

Local Open Scope Z_scope.

Definition DNS_HEADER_SIZE : nat := 12.
Definition DNS_TYPE_A : Z := 1.
Definition DNS_CLASS_IN : Z := 1.
Definition DNS_TYPE_OPT : Z := 41.
Definition DNS_FLAG_QR : Z := 0x8000.
Definition DNS_FLAG_RD : Z := 0x0100.
Definition DNS_EDNS_OPTION_ECS : Z := 8.
Definition kMaxTcpClients : nat := 16.
Definition kMaxTcpBufferSize : Z := 16384.
Definition kTcpClientIdleTimeout : Z := 15.

Record DnsProbeServerSettings := mk_Settings {
  set_listen : cstring;
  bind_ip : cstring;
  set_port : Z;
  set_answer_ipv4 : cstring;
}.

Record DnsProbeQuestion := mk_Question {
  dq_id : Z;
  dq_flags : Z;
  dq_name : cstring;
  ecs : option cstring;
  question_wire : list ascii;
}.

(** [inet_ntop] *)
Class InetNtop := { inet_ntop : Z → list Z → option cstring }.

(** ** Bytes *)

Definition byte_at (packet : list ascii) (i : nat) : exc Z :=
  match packet !! i with Some c => Ok (ord c) | None => Undefined end.
Definition be16 (a b : Z) : Z := Z.lor (Z.shiftl a 8) b.
Definition u16_at (packet : list ascii) (i : nat) : exc Z :=
  a ← byte_at packet i; b ← byte_at packet (S i); mret (be16 a b).

(** [span.subspan(pos, n)] and an iterator range, for a range inside *)
Definition subspan (packet : list ascii) (pos n : nat) : exc (list ascii) :=
  if (pos + n <=? length packet)%nat then Ok (take n (drop pos packet)) else Undefined.

Definition append_u16 (v : Z) : list ascii := [chr (Z.land (Z.shiftr v 8) 0xFF); chr (Z.land v 0xFF)].
Definition append_u32 (v : Z) : list ascii :=
  [chr (Z.land (Z.shiftr v 24) 0xFF); chr (Z.land (Z.shiftr v 16) 0xFF);
   chr (Z.land (Z.shiftr v 8) 0xFF); chr (Z.land v 0xFF)].

Section probe.
Context {IP : InetPton} {NT : InetNtop}.

(** ** Settings *)

Definition probe_is_valid_ipv4 (ip : cstring) : bool := is_inet AF_INET ip.

Definition parse_dns_probe_listen_address (listen : cstring) : exc ParsedDnsAddress :=
  parsed ← parse_dns_address_str listen;
  if probe_is_valid_ipv4 (dns_ip parsed) then mret parsed
  else Throw (DnsError ("DNS test server listen address must be IPv4: " ++ listen)).

Definition parse_dns_probe_server_settings (listen : cstring) (answer_ipv4 : option cstring) :
    exc DnsProbeServerSettings :=
  parsed ← parse_dns_probe_listen_address listen;
  let answer := match answer_ipv4 with Some a => a | None => dns_ip parsed end in
  if probe_is_valid_ipv4 answer then mret (mk_Settings listen (dns_ip parsed) (dns_port parsed) answer)
  else Throw (DnsError ("DNS test server answer_ipv4 must be a valid IPv4 address: " ++ answer)).

(** ** Queries *)

Definition normalize_dns_name (labels : list cstring) : cstring :=
  let name := join "." labels in if bool_decide (name = []) then str "." else name.

(** The fuel is the limit of 128 labels. *)
Fixpoint name_loop (fuel : nat) (packet : list ascii) (pos cursor jumps : nat) : exc nat :=
  match fuel with
  | O => Undefined
  | S fuel =>
      if (length packet <=? cursor)%nat then Throw (DnsError "DNS name truncated")
      else
        len ← byte_at packet cursor;
        if len =? 0 then mret (cursor - pos + 1)%nat
        else if Z.land len 0xC0 =? 0xC0 then
          if (length packet <=? cursor + 1)%nat then Throw (DnsError "DNS compression pointer truncated")
          else mret (cursor - pos + 2)%nat
        else if negb (Z.land len 0xC0 =? 0) then Throw (DnsError "DNS name label invalid")
        else if (128 <? S jumps)%nat then Throw (DnsError "DNS name parse exceeded limit")
        else name_loop fuel packet pos (cursor + 1 + Z.to_nat len) (S jumps)
  end.
Definition read_name_length (packet : list ascii) (pos : nat) : exc nat := name_loop 129 packet pos pos 0.

(** The address of an ECS option, padded with zeros. *)
Definition ecs_address (family : Z) (size : nat) (option_data : list ascii) (source_prefix : Z) : option cstring :=
  let address := ord <$> drop 4 option_data in
  text ← inet_ntop family (address ++ replicate (size - length address) 0);
  Some (text ++ "/" ++ to_string source_prefix).

Definition parse_ecs_option (option_data : list ascii) : exc (option cstring) :=
  if (length option_data <? 4)%nat then mret None
  else
    family ← u16_at option_data 0;
    source_prefix ← byte_at option_data 2;
    let address_bytes := (length option_data - 4)%nat in
    mret (if family =? 1 then
            if (32 <? source_prefix) || (4 <? address_bytes)%nat then None
            else ecs_address AF_INET 4 option_data source_prefix
          else if family =? 2 then
            if (128 <? source_prefix) || (16 <? address_bytes)%nat then None
            else ecs_address AF_INET6 16 option_data source_prefix
          else None).

(** The options of an OPT record: the first client subnet that parses. *)
Fixpoint options_loop (fuel : nat) (packet : list ascii) (opt_pos opt_end : nat) : exc (option cstring) :=
  match fuel with
  | O => Undefined
  | S fuel =>
      if (opt_pos + 4 <=? opt_end)%nat then
        option_code ← u16_at packet opt_pos;
        option_len ← u16_at packet (opt_pos + 2);
        let opt_pos := (opt_pos + 4)%nat in
        let next := (opt_pos + Z.to_nat option_len)%nat in
        if (opt_end <? next)%nat then mret None
        else if option_code =? DNS_EDNS_OPTION_ECS then
          data ← subspan packet opt_pos (Z.to_nat option_len);
          found ← parse_ecs_option data;
          match found with
          | Some e => mret (Some e)
          | None => options_loop fuel packet next opt_end
          end
        else options_loop fuel packet next opt_end
      else mret None
  end.

Fixpoint parse_edns_client_subnet (packet : list ascii) (arcount pos : nat) : exc (option cstring) :=
  match arcount with
  | O => mret None
  | S arcount =>
      name_len ← read_name_length packet pos;
      let pos := (pos + name_len)%nat in
      if (length packet <? pos + 10)%nat then Throw (DnsError "DNS additional record truncated")
      else
        type ← u16_at packet pos;
        rdlen ← u16_at packet (pos + 8);
        let pos := (pos + 10)%nat in
        if (length packet <? pos + Z.to_nat rdlen)%nat
        then Throw (DnsError "DNS additional record payload truncated")
        else
          found ← (if type =? DNS_TYPE_OPT
                   then options_loop (S (length packet)) packet pos (pos + Z.to_nat rdlen) else mret None);
          match found with
          | Some e => mret (Some e)
          | None => parse_edns_client_subnet packet arcount (pos + Z.to_nat rdlen)
          end
  end.

(** The labels of the question, the bytes read and the position after them. *)
Fixpoint qname_loop (fuel : nat) (packet : list ascii) (pos : nat) (labels : list cstring) (wire : list ascii) :
    exc (list cstring * list ascii * nat) :=
  match fuel with
  | O => Undefined
  | S fuel =>
      if (length packet <=? pos)%nat then Throw (DnsError "DNS probe qname truncated")
      else
        len ← byte_at packet pos;
        let pos := S pos in
        let wire := wire ++ [chr len] in
        if len =? 0 then mret (labels, wire, pos)
        else if negb (Z.land len 0xC0 =? 0)
        then Throw (DnsError "DNS probe does not accept compressed questions")
        else if (length packet <? pos + Z.to_nat len)%nat then Throw (DnsError "DNS probe qname label truncated")
        else
          label ← subspan packet pos (Z.to_nat len);
          qname_loop fuel packet (pos + Z.to_nat len) (labels ++ [label]) (wire ++ label)
  end.

(** [for (uint16_t i = 0; i < ancount + nscount; ++i)]: the sum is an [int], the
    counter wraps. *)
Fixpoint skip_records (fuel : nat) (packet : list ascii) (i total : Z) (pos : nat) : exc nat :=
  match fuel with
  | O => Undefined
  | S fuel =>
      if i <? total then
        name_len ← read_name_length packet pos;
        let pos := (pos + name_len)%nat in
        if (length packet <? pos + 10)%nat then Throw (DnsError "DNS record truncated")
        else
          rdlen ← u16_at packet (pos + 8);
          let pos := (pos + 10)%nat in
          if (length packet <? pos + Z.to_nat rdlen)%nat then Throw (DnsError "DNS record payload truncated")
          else skip_records fuel packet (u16 (i + 1)) total (pos + Z.to_nat rdlen)
      else mret pos
  end.

Definition parse_dns_probe_query (packet : list ascii) : exc DnsProbeQuestion :=
  if (length packet <? DNS_HEADER_SIZE)%nat then Throw (DnsError "DNS probe packet too short")
  else
    qdcount ← u16_at packet 4;
    if negb (qdcount =? 1) then Throw (DnsError "DNS probe expects exactly one question")
    else
      ancount ← u16_at packet 6;
      nscount ← u16_at packet 8;
      arcount ← u16_at packet 10;
      r ← qname_loop (S (length packet)) packet DNS_HEADER_SIZE [] [];
      let '(labels, wire, pos) := r in
      if (length packet <? pos + 4)%nat then Throw (DnsError "DNS probe question footer truncated")
      else
        footer ← subspan packet pos 4;
        id ← u16_at packet 0;
        flags ← u16_at packet 2;
        pos ← skip_records (S (length packet)) packet 0 (ancount + nscount) (pos + 4);
        subnet ← parse_edns_client_subnet packet (Z.to_nat arcount) pos;
        mret (mk_Question id flags (normalize_dns_name labels) subnet (wire ++ footer)).

(** ** Answers *)

Definition build_dns_probe_response (q : DnsProbeQuestion) (answer_ipv4 : cstring) : exc (list ascii) :=
  match inet_pton AF_INET answer_ipv4 with
  | None => Throw (DnsError ("Invalid DNS probe answer IPv4: " ++ answer_ipv4))
  | Some bytes =>
      mret (append_u16 (dq_id q) ++ append_u16 (Z.lor DNS_FLAG_QR (Z.land (dq_flags q) DNS_FLAG_RD)) ++
            append_u16 1 ++ append_u16 1 ++ append_u16 0 ++ append_u16 0 ++
            question_wire q ++
            append_u16 0xC00C ++ append_u16 DNS_TYPE_A ++ append_u16 DNS_CLASS_IN ++ append_u32 0 ++ append_u16 4 ++
            (chr <$> bytes))
  end.
End probe.

(** ** TCP clients *)

Record TcpClientState := mk_Client {
  buffer : list ascii;
  expected_size : Z;
  have_size : bool;
  last_activity : Z;
}.
Definition new_client (now : Z) : TcpClientState := mk_Client [] 0 false now.

(** What a call of [recv] returns. *)
Inductive recv_result :=
  | Received (data : list ascii)
  | Closed
  | WouldBlock
  | Interrupted
  | RecvFailed.

(** After some data: the client, and when the connection is over, the packet
    that is answered, if any. *)
Definition tcp_received (now : Z) (data : list ascii) (st : TcpClientState) :
    TcpClientState * option (option (list ascii)) :=
  let buf := buffer st ++ data in
  let size := Z.of_nat (length buf) in
  if kMaxTcpBufferSize <? size then (mk_Client buf (expected_size st) (have_size st) now, Some None)
  else
    let st' :=
      if negb (have_size st) && (2 <=? size)
      then mk_Client buf (be16 (ord (nth 0 buf "000"%char)) (ord (nth 1 buf "000"%char))) true now
      else mk_Client buf (expected_size st) (have_size st) now in
    if have_size st' && (expected_size st' + 2 <=? size)
    then (st', Some (Some (take (Z.to_nat (expected_size st')) (drop 2 buf))))
    else (st', None).

(** The loop over [recv]: whether the client is kept, its state, and the packet
    that was answered.  [None] while the results last. *)
Fixpoint handle_tcp_client_readable (results : list (Z * recv_result)) (st : TcpClientState) :
    option (bool * TcpClientState * option (list ascii)) :=
  match results with
  | [] => None
  | (now, Received data) :: results =>
      match tcp_received now data st with
      | (st', None) => handle_tcp_client_readable results st'
      | (st', Some packet) => Some (false, st', packet)
      end
  | (_, Interrupted) :: results => handle_tcp_client_readable results st
  | (_, WouldBlock) :: _ => Some (true, st, None)
  | (_, Closed) :: _ | (_, RecvFailed) :: _ => Some (false, st, None)
  end.

(** What a call of [accept4] returns. *)
Inductive accept_result := Accepted (fd : Z) | AcceptWouldBlock | AcceptInterrupted | AcceptFailed.

Fixpoint accept_tcp_clients (now : Z) (results : list accept_result) (clients : gmap Z TcpClientState) :
    list Z * gmap Z TcpClientState :=
  match results with
  | Accepted fd :: results =>
      if (kMaxTcpClients <=? size clients)%nat then ([], clients)
      else let '(accepted, clients) := accept_tcp_clients now results (<[fd := new_client now]> clients) in
           (fd :: accepted, clients)
  | AcceptInterrupted :: results => accept_tcp_clients now results clients
  | _ => ([], clients)
  end.

Definition expired_tcp_clients (now : Z) (clients : gmap Z TcpClientState) : list Z :=
  stable_sort Z.ltb (fst <$> List.filter (λ c, kTcpClientIdleTimeout <=? now - last_activity c.2) (map_to_list clients)).
Definition remove_tcp_client (fd : Z) (clients : gmap Z TcpClientState) : gmap Z TcpClientState := delete fd clients.

(** ** Bytes, lemmas *)

Lemma byte_at_in packet i : (i < length packet)%nat → ∃ v, byte_at packet i = Ok v ∧ 0 ≤ v < 256.
Proof.
  intros Hi. unfold byte_at. destruct (lookup_lt_is_Some_2 packet i Hi) as [c ->].
  exists (ord c). split; [done|apply ord_range].
Qed.

Lemma be16_range a b : 0 ≤ a < 256 → 0 ≤ b < 256 → be16 a b = 256 * a + b ∧ 0 ≤ be16 a b < 65536.
Proof.
  intros Ha Hb. assert (E : be16 a b = 256 * a + b); [|rewrite E; lia].
  assert (Hd : Z.land (Z.shiftl a 8) b = 0).
  { apply Z.bits_inj'. intros n Hn. rewrite Z.land_spec, Z.bits_0. destruct (Z.lt_ge_cases n 8).
    - by rewrite Z.shiftl_spec_low.
    - rewrite <- (Z.mod_small b (2 ^ 8)), (Z.mod_pow2_bits_high b 8 n) by lia. apply andb_false_r. }
  unfold be16. rewrite <- Z.lxor_lor, <- Z.add_nocarry_lxor, Z.shiftl_mul_pow2 by done. lia.
Qed.

Lemma u16_at_in packet i : (S i < length packet)%nat → ∃ v, u16_at packet i = Ok v ∧ 0 ≤ v < 65536.
Proof.
  intros Hi. unfold u16_at. destruct (byte_at_in packet i) as (a & -> & Ha); [lia|].
  destruct (byte_at_in packet (S i)) as (b & -> & Hb); [lia|]. exists (be16 a b).
  split; [done|]. by apply be16_range.
Qed.

Lemma append_u16_value v : 0 ≤ v < 65536 →
  be16 (ord (chr (Z.land (Z.shiftr v 8) 0xFF))) (ord (chr (Z.land v 0xFF))) = v.
Proof.
  intros Hv. change 0xFF with (Z.ones 8). rewrite !Z.land_ones, Z.shiftr_div_pow2 by lia.
  change (2 ^ 8) with 256. assert (0 ≤ v / 256 < 256) by (split; [apply Z.div_pos|apply Z.div_lt_upper_bound]; lia).
  pose proof (Z.mod_pos_bound v 256). rewrite (Z.mod_small (v / 256)), !ord_chr by lia.
  rewrite (proj1 (be16_range (v / 256) (v mod 256) ltac:(lia) ltac:(lia))).
  symmetry. apply Z.div_mod. lia.
Qed.

Lemma u16_at_append pre v rest : 0 ≤ v < 65536 →
  u16_at (pre ++ append_u16 v ++ rest) (length pre) = Ok v.
Proof.
  intros Hv. unfold u16_at, byte_at.
  assert ((pre ++ append_u16 v ++ rest) !! length pre = Some (chr (Z.land (Z.shiftr v 8) 0xFF))) as ->
    by (by rewrite lookup_app_r, Nat.sub_diag by lia).
  assert ((pre ++ append_u16 v ++ rest) !! S (length pre) = Some (chr (Z.land v 0xFF))) as ->
    by (rewrite lookup_app_r by lia; by replace (S (length pre) - length pre)%nat with 1%nat by lia).
  cbn [mbind exc_bind]. f_equal. by apply append_u16_value.
Qed.

Lemma subspan_app pre mid rest : subspan (pre ++ mid ++ rest) (length pre) (length mid) = Ok mid.
Proof.
  unfold subspan. rewrite !length_app, (proj2 (Nat.leb_le _ _)) by lia.
  by rewrite drop_app_length, take_app_length.
Qed.

(** ** No packet makes the parser read outside it or run on *)

Section safety.
Context {IP : InetPton} {NT : InetNtop}.

Lemma name_loop_safe fuel packet pos cursor jumps :
  (pos ≤ cursor)%nat → (jumps + fuel = 129)%nat → (0 < fuel)%nat →
  match name_loop fuel packet pos cursor jumps with
  | Ok n => (1 ≤ n ∧ pos + n ≤ length packet)%nat
  | Throw _ => True
  | Undefined => False
  end.
Proof.
  revert cursor jumps. induction fuel as [|fuel IH]; intros cursor jumps Hc Hj Hf; [lia|]. cbn [name_loop].
  destruct (Nat.leb_spec (length packet) cursor); [done|].
  destruct (byte_at_in packet cursor) as (len & -> & Hl); [done|]. cbn [mbind exc_bind].
  destruct (len =? 0); [cbn; lia|]. destruct (Z.land len 0xC0 =? 0xC0).
  { destruct (Nat.leb_spec (length packet) (cursor + 1)); [done|cbn; lia]. }
  destruct (negb _); [done|]. destruct (Nat.ltb_spec 128 (S jumps)); [done|]. apply IH; lia.
Qed.

Lemma read_name_length_safe packet pos :
  match read_name_length packet pos with
  | Ok n => (1 ≤ n ∧ pos + n ≤ length packet)%nat
  | Throw _ => True
  | Undefined => False
  end.
Proof. apply name_loop_safe; lia. Qed.

Lemma subspan_in packet pos n : (pos + n ≤ length packet)%nat →
  subspan packet pos n = Ok (take n (drop pos packet)).
Proof. intros H. unfold subspan. by rewrite (proj2 (Nat.leb_le _ _)). Qed.

Lemma parse_ecs_option_safe data : ∃ r, parse_ecs_option data = Ok r.
Proof.
  unfold parse_ecs_option. destruct (Nat.ltb_spec (length data) 4); [by eexists|].
  destruct (u16_at_in data 0) as (v & -> & _); [lia|]. destruct (byte_at_in data 2) as (w & -> & _); [lia|].
  by eexists.
Qed.

Lemma options_loop_safe fuel packet opt_pos opt_end :
  (opt_pos ≤ opt_end ≤ length packet)%nat → (opt_end < opt_pos + fuel)%nat →
  ∃ r, options_loop fuel packet opt_pos opt_end = Ok r.
Proof.
  revert opt_pos. induction fuel as [|fuel IH]; intros opt_pos He Hf; [lia|]. cbn [options_loop].
  destruct (Nat.leb_spec (opt_pos + 4) opt_end); [|by eexists].
  destruct (u16_at_in packet opt_pos) as (code & -> & _); [lia|].
  destruct (u16_at_in packet (opt_pos + 2)) as (len & -> & Hlen); [lia|]. cbn [mbind exc_bind].
  destruct (Nat.ltb_spec opt_end (opt_pos + 4 + Z.to_nat len)); [by eexists|].
  destruct (code =? DNS_EDNS_OPTION_ECS); [|apply IH; lia].
  rewrite subspan_in by lia. cbn [mbind exc_bind].
  destruct (parse_ecs_option_safe (take (Z.to_nat len) (drop (opt_pos + 4) packet))) as [[e|] ->]; [by eexists|].
  apply IH; lia.
Qed.

Lemma edns_safe packet arcount pos : parse_edns_client_subnet packet arcount pos ≠ Undefined.
Proof.
  revert pos. induction arcount as [|arcount IH]; intros pos; cbn [parse_edns_client_subnet]; [done|].
  pose proof (read_name_length_safe packet pos) as Hn.
  destruct (read_name_length packet pos) as [n|e|]; [|done|done]. cbn [mbind exc_bind].
  destruct (Nat.ltb_spec (length packet) (pos + n + 10)); [done|].
  destruct (u16_at_in packet (pos + n)) as (type & -> & _); [lia|].
  destruct (u16_at_in packet (pos + n + 8)) as (rdlen & -> & _); [lia|]. cbn [mbind exc_bind].
  destruct (Nat.ltb_spec (length packet) (pos + n + 10 + Z.to_nat rdlen)); [done|].
  destruct (type =? DNS_TYPE_OPT); [|apply IH].
  destruct (options_loop_safe (S (length packet)) packet (pos + n + 10) (pos + n + 10 + Z.to_nat rdlen)) as [[e|] ->];
    [lia|lia|done|apply IH].
Qed.

(** What the loop over the labels returns, as it runs. *)
Definition qname_bytes (labels : list cstring) : list ascii :=
  mjoin ((λ l, chr (Z.of_nat (length l)) :: l) <$> labels) ++ [chr 0].
Definition good_label (l : cstring) : Prop := (1 ≤ length l ≤ 63)%nat.

Lemma land_label len : 0 ≤ len < 256 → (Z.land len 0xC0 = 0 ↔ len < 64).
Proof.
  intros H. rewrite <- (Z2Nat.id len) by lia.
  assert (Hn : (Z.to_nat len < 256)%nat) by lia. revert Hn. generalize (Z.to_nat len). clear. intros n Hn.
  assert (Hall : forallb (λ n, Bool.eqb (Z.land (Z.of_nat n) 0xC0 =? 0) (Z.of_nat n <? 64)) (seq 0 256) = true)
    by (vm_compute; reflexivity).
  rewrite forallb_forall in Hall. specialize (Hall n). rewrite <- Z.eqb_eq, <- Z.ltb_lt.
  destruct (Z.land _ _ =? 0), (_ <? 64); try tauto; exfalso; discriminate Hall; apply in_seq; lia.
Qed.

Lemma qname_loop_safe fuel packet pos labels wire : (length packet < pos + fuel)%nat → (0 < fuel)%nat →
  match qname_loop fuel packet pos labels wire with
  | Ok (labels', wire', pos') =>
      (pos < pos' ≤ length packet)%nat ∧ ∃ ls, labels' = labels ++ ls ∧ wire' = wire ++ qname_bytes ls ∧
      Forall good_label ls
  | Throw _ => True
  | Undefined => False
  end.
Proof.
  revert pos labels wire. induction fuel as [|fuel IH]; intros pos labels wire Hf Hp; [lia|]. cbn [qname_loop].
  destruct (Nat.leb_spec (length packet) pos); [done|].
  destruct (byte_at_in packet pos) as (len & -> & Hl); [done|]. cbn [mbind exc_bind].
  destruct (Z.eqb_spec len 0) as [->|Hne].
  { cbn. split; [lia|]. exists []. by rewrite app_nil_r. }
  destruct (Z.eqb_spec (Z.land len 0xC0) 0) as [El|]; [|done]. apply land_label in El; [|done]. cbn [negb].
  destruct (Nat.ltb_spec (length packet) (S pos + Z.to_nat len)); [done|].
  rewrite subspan_in by lia. cbn [mbind exc_bind].
  set (label := take (Z.to_nat len) (drop (S pos) packet)).
  assert (Hlab : length label = Z.to_nat len) by (unfold label; rewrite length_take, length_drop; lia).
  specialize (IH (S pos + Z.to_nat len)%nat (labels ++ [label]) ((wire ++ [chr len]) ++ label) ltac:(lia) ltac:(lia)).
  destruct (qname_loop _ _ _ _ _) as [[[labels' wire'] pos']|e|]; [|done|done].
  destruct IH as (Hpos & ls & -> & -> & Hls). split; [lia|]. exists (label :: ls).
  split; [by rewrite <- app_assoc|]. split.
  - unfold qname_bytes. rewrite fmap_cons. cbn [mjoin list_join]. rewrite Hlab, Z2Nat.id by lia.
    by rewrite <- !app_assoc.
  - constructor; [unfold good_label; lia|done].
Qed.

Lemma skip_records_safe fuel packet i total pos : (pos ≤ length packet)%nat → (length packet < pos + fuel)%nat →
  match skip_records fuel packet i total pos with
  | Ok pos' => (pos ≤ pos' ≤ length packet)%nat
  | Throw _ => True
  | Undefined => False
  end.
Proof.
  revert i pos. induction fuel as [|fuel IH]; intros i pos Hp Hf; [lia|]. cbn [skip_records].
  destruct (i <? total); [|cbn; lia]. pose proof (read_name_length_safe packet pos) as Hn.
  destruct (read_name_length packet pos) as [n|e|]; [|done|done]. cbn [mbind exc_bind].
  destruct (Nat.ltb_spec (length packet) (pos + n + 10)); [done|].
  destruct (u16_at_in packet (pos + n + 8)) as (rdlen & -> & _); [lia|]. cbn [mbind exc_bind].
  destruct (Nat.ltb_spec (length packet) (pos + n + 10 + Z.to_nat rdlen)); [done|].
  specialize (IH (u16 (i + 1)) (pos + n + 10 + Z.to_nat rdlen)%nat ltac:(lia) ltac:(lia)).
  destruct (skip_records _ _ _ _ _); [lia|done..].
Qed.

(** What a parsed question is made of. *)
Lemma parse_query_shape packet :
  match parse_dns_probe_query packet with
  | Ok q => ∃ ls footer, Forall good_label ls ∧ length footer = 4%nat ∧ question_wire q = qname_bytes ls ++ footer ∧
              dq_name q = normalize_dns_name ls ∧ 0 ≤ dq_id q < 65536 ∧ 0 ≤ dq_flags q < 65536
  | Throw _ => True
  | Undefined => False
  end.
Proof.
  unfold parse_dns_probe_query. destruct (Nat.ltb_spec (length packet) DNS_HEADER_SIZE) as [|Hlen]; [done|].
  unfold DNS_HEADER_SIZE in Hlen.
  destruct (u16_at_in packet 4) as (qd & -> & _); [lia|]. cbn [mbind exc_bind]. destruct (negb _); [done|].
  destruct (u16_at_in packet 6) as (an & -> & _); [lia|]. destruct (u16_at_in packet 8) as (ns & -> & _); [lia|].
  destruct (u16_at_in packet 10) as (ar & -> & _); [lia|]. cbn [mbind exc_bind].
  pose proof (qname_loop_safe (S (length packet)) packet DNS_HEADER_SIZE [] [] ltac:(unfold DNS_HEADER_SIZE; lia) ltac:(lia)) as Hq.
  destruct (qname_loop _ _ _ _ _) as [[[labels wire] pos]|e|]; [|done|done].
  destruct Hq as (Hpos & ls & -> & -> & Hls). cbn [mbind exc_bind app].
  destruct (Nat.ltb_spec (length packet) (pos + 4)); [done|]. rewrite subspan_in by lia.
  destruct (u16_at_in packet 0) as (id & -> & Hid); [lia|]. destruct (u16_at_in packet 2) as (fl & -> & Hfl); [lia|].
  cbn [mbind exc_bind].
  pose proof (skip_records_safe (S (length packet)) packet 0 (an + ns) (pos + 4) ltac:(lia) ltac:(lia)) as Hk.
  destruct (skip_records _ _ _ _ _) as [pos'|e|]; [|done|done]. cbn [mbind exc_bind].
  pose proof (edns_safe packet (Z.to_nat ar) pos') as He.
  destruct (parse_edns_client_subnet _ _ _) as [subnet|e|]; [|done|done]. cbn.
  exists ls, (take 4 (drop pos packet)). split; [done|]. split; [rewrite length_take, length_drop; lia|]. done.
Qed.

(** C27. For every packet, whatever its lengths, counts and pointers say, the
    parser of the DNS test server terminates and reads only bytes of the
    packet: it returns a question or throws an error. *)
Theorem dns_query_parser_is_memory_safe packet :
  parse_dns_probe_query packet ≠ Undefined.
Proof. intros E. pose proof (parse_query_shape packet) as H. by rewrite E in H. Qed.
End safety.

(** ** The answer echoes the question *)

Section answers.
Context {IP : InetPton} {NT : InetNtop}.

Lemma qname_bytes_cons l ls : qname_bytes (l :: ls) = chr (Z.of_nat (length l)) :: l ++ qname_bytes ls.
Proof. unfold qname_bytes. rewrite fmap_cons. cbn [mjoin list_join]. by rewrite <- app_assoc. Qed.

Lemma qname_loop_encode fuel pre ls rest labels wire :
  Forall good_label ls → (length ls < fuel)%nat →
  qname_loop fuel (pre ++ qname_bytes ls ++ rest) (length pre) labels wire =
    Ok (labels ++ ls, wire ++ qname_bytes ls, (length pre + length (qname_bytes ls))%nat).
Proof.
  revert fuel pre labels wire. induction ls as [|l ls IH]; intros fuel pre labels wire Hg Hf;
    (destruct fuel as [|fuel]; [cbn in Hf; lia|]); cbn [qname_loop].
  - rewrite (proj2 (Nat.leb_gt _ _)) by (rewrite !length_app; cbn; lia).
    assert (byte_at (pre ++ qname_bytes [] ++ rest) (length pre) = Ok 0) as ->
      by (unfold byte_at; by rewrite lookup_app_r, Nat.sub_diag by lia).
    cbn [mbind exc_bind Z.eqb]. rewrite app_nil_r, Nat.add_1_r. done.
  - apply Forall_cons in Hg as [Hl Hg]. unfold good_label in Hl. cbn in Hf.
    rewrite qname_bytes_cons, (proj2 (Nat.leb_gt _ _)) by (rewrite !length_app; cbn; lia).
    assert (byte_at (pre ++ (chr (Z.of_nat (length l)) :: l ++ qname_bytes ls) ++ rest) (length pre) = Ok (Z.of_nat (length l))) as ->
      by (unfold byte_at; rewrite lookup_app_r, Nat.sub_diag by lia; cbn; by rewrite ord_chr by lia).
    cbn [mbind exc_bind]. rewrite (proj2 (Z.eqb_neq _ 0)) by lia.
    rewrite (proj2 (land_label (Z.of_nat (length l)) ltac:(lia))) by lia. cbn [Z.eqb negb].
    rewrite Nat2Z.id, (proj2 (Nat.ltb_ge _ _)) by (rewrite !length_app; cbn; rewrite !length_app; lia).
    replace (pre ++ (chr (Z.of_nat (length l)) :: l ++ qname_bytes ls) ++ rest) with
      ((pre ++ [chr (Z.of_nat (length l))]) ++ l ++ qname_bytes ls ++ rest) by (by cbn; rewrite <- !app_assoc).
    replace (S (length pre)) with (length (pre ++ [chr (Z.of_nat (length l))])) by (rewrite length_app; cbn; lia).
    rewrite subspan_app. cbn [mbind exc_bind]. rewrite (app_assoc (pre ++ _) l), <- length_app, IH by (done || lia).
    f_equal. f_equal; [f_equal|].
    + by rewrite <- app_assoc.
    + by rewrite <- !app_assoc.
    + rewrite !length_app. cbn. rewrite length_app. lia.
Qed.

(** [inet_pton(AF_INET, ...)] fills four bytes. *)
Definition four_bytes : Prop :=
  ∀ a bytes, inet_pton AF_INET a = Some bytes → length bytes = 4%nat.

Lemma answer_flags flags : 0 ≤ flags → 0 ≤ Z.lor DNS_FLAG_QR (Z.land flags DNS_FLAG_RD) < 65536.
Proof.
  intros Hf. set (rd := Z.land flags DNS_FLAG_RD). assert (Hrd : 0 ≤ rd) by (apply Z.land_nonneg; by left).
  assert (H0 : 0 ≤ Z.lor DNS_FLAG_QR rd) by (by apply Z.lor_nonneg). split; [done|].
  destruct (Z.eq_dec (Z.lor DNS_FLAG_QR rd) 0) as [->|]; [lia|].
  apply (Z.log2_lt_pow2 _ 16); [lia|]. rewrite Z.log2_lor by done.
  pose proof (Z.log2_land flags DNS_FLAG_RD Hf ltac:(done)) as H. fold rd in H.
  change (Z.log2 DNS_FLAG_QR) with 15. change (Z.log2 DNS_FLAG_RD) with 8 in H. lia.
Qed.

Lemma u16_at_split P pre v rest k : P = pre ++ append_u16 v ++ rest → length pre = k → 0 ≤ v < 65536 →
  u16_at P k = Ok v.
Proof. intros -> <-. apply u16_at_append. Qed.

(** The record of the answer, with a pointer for its name. *)
Definition answer_record (bytes : list Z) : list ascii :=
  append_u16 0xC00C ++ append_u16 DNS_TYPE_A ++ append_u16 DNS_CLASS_IN ++ append_u32 0 ++ append_u16 4 ++ (chr <$> bytes).

Lemma skip_answer pre bytes : length bytes = 4%nat →
  skip_records (S (length (pre ++ answer_record bytes))) (pre ++ answer_record bytes) 0 1 (length pre) =
    Ok (length (pre ++ answer_record bytes)).
Proof.
  intros Hb. set (P := pre ++ answer_record bytes).
  assert (HP : length P = (length pre + 16)%nat) by (unfold P, answer_record; rewrite !length_app, length_fmap, Hb; cbn; lia).
  cbn [skip_records]. change (0 <? 1) with true. cbv iota.
  assert (Hn : read_name_length P (length pre) = Ok 2%nat).
  { unfold read_name_length. cbn [name_loop]. rewrite (proj2 (Nat.leb_gt _ _)) by lia.
    assert (byte_at P (length pre) = Ok 0xC0) as ->
      by (unfold byte_at, P; rewrite lookup_app_r, Nat.sub_diag by lia; reflexivity).
    cbn [mbind exc_bind]. change (0xC0 =? 0) with false. change (Z.land 0xC0 0xC0 =? 0xC0) with true. cbv iota.
    rewrite (proj2 (Nat.leb_gt _ _)) by lia. cbn. f_equal. lia. }
  rewrite Hn. cbn [mbind exc_bind]. rewrite (proj2 (Nat.ltb_ge _ _)) by lia.
  rewrite (u16_at_split P (pre ++ append_u16 0xC00C ++ append_u16 DNS_TYPE_A ++ append_u16 DNS_CLASS_IN ++ append_u32 0) 4 (chr <$> bytes)).
  - cbn [mbind exc_bind]. change (Z.to_nat 4) with 4%nat. rewrite (proj2 (Nat.ltb_ge _ _)) by lia.
    destruct (length P) as [|n] eqn:En; [lia|]. cbn [skip_records]. change (u16 (0 + 1) <? 1) with false. cbv iota.
    cbn. f_equal. lia.
  - unfold P, answer_record. by rewrite <- !app_assoc.
  - rewrite !length_app. cbn. lia.
  - lia.
Qed.

Lemma qname_bytes_length ls : Forall good_label ls → (length ls < length (qname_bytes ls))%nat.
Proof.
  induction 1 as [|l ls Hl _ IH]; [cbn; lia|]. rewrite qname_bytes_cons. cbn. rewrite length_app. lia.
Qed.

(** Parsing an answer gives back the question it answers: the identifier, the
    name and the bytes of the question are those of the query, the response flag
    is set and the recursion flag copied; and the answer ends in the four bytes
    of the configured address. *)
Theorem dns_answer_echoes_question packet q answer_ipv4 response :
  four_bytes → parse_dns_probe_query packet = Ok q → build_dns_probe_response q answer_ipv4 = Ok response →
  parse_dns_probe_query response =
    Ok (mk_Question (dq_id q) (Z.lor DNS_FLAG_QR (Z.land (dq_flags q) DNS_FLAG_RD)) (dq_name q) None (question_wire q)) ∧
  ∃ bytes, inet_pton AF_INET answer_ipv4 = Some bytes ∧ drop (length response - 4) response = chr <$> bytes.
Proof.
  intros H4 Hq Hr. pose proof (parse_query_shape packet) as Hs. rewrite Hq in Hs.
  destruct Hs as (ls & footer & Hls & Hfoot & Hwire & Hname & Hid & Hfl).
  unfold build_dns_probe_response in Hr. destruct (inet_pton AF_INET answer_ipv4) as [bytes|] eqn:Eb; [|done].
  specialize (H4 _ _ Eb). set (fl := Z.lor DNS_FLAG_QR _) in *.
  assert (Hfl' : 0 ≤ fl < 65536) by (apply answer_flags; lia).
  set (hdr := append_u16 (dq_id q) ++ append_u16 fl ++ append_u16 1 ++ append_u16 1 ++ append_u16 0 ++ append_u16 0).
  assert (HP : response = hdr ++ qname_bytes ls ++ footer ++ answer_record bytes).
  { apply (f_equal (λ r, match r with Ok x => x | _ => [] end)) in Hr. rewrite <- Hr. unfold hdr.
    by rewrite Hwire, <- !app_assoc. }
  clear Hr. rename response into P.
  assert (Hlen : length P = (12 + length (qname_bytes ls) + 4 + 16)%nat)
    by (rewrite HP; unfold answer_record; rewrite !length_app, length_fmap, Hfoot, H4; cbn; lia).
  pose proof (qname_bytes_length ls Hls) as Hlq. split.
  2:{ exists bytes. split; [done|].
      assert (HP' : P = (hdr ++ qname_bytes ls ++ footer ++ take 12 (answer_record bytes)) ++ (chr <$> bytes))
        by (rewrite HP, <- !app_assoc; reflexivity).
      rewrite HP' at 2. apply drop_app_length'. rewrite Hlen, !length_app, Hfoot.
      change (length hdr) with 12%nat. change (length (take 12 (answer_record bytes))) with 12%nat. lia. }
  unfold parse_dns_probe_query. rewrite (proj2 (Nat.ltb_ge _ _)) by (unfold DNS_HEADER_SIZE; lia).
  rewrite (u16_at_split P (take 4 hdr) 1 (drop 6 P) 4), (u16_at_split P (take 6 hdr) 1 (drop 8 P) 6),
    (u16_at_split P (take 8 hdr) 0 (drop 10 P) 8), (u16_at_split P (take 10 hdr) 0 (drop 12 P) 10)
    by (lia || (rewrite ?HP; reflexivity)).
  cbn [mbind exc_bind]. change (negb (1 =? 1)) with false. cbv iota.
  rewrite HP, (qname_loop_encode _ hdr) by (done || (rewrite <- HP; lia)).
  rewrite <- HP. cbn [mbind exc_bind app]. change (length hdr) with 12%nat.
  rewrite (proj2 (Nat.ltb_ge _ _)) by lia.
  assert (subspan P (12 + length (qname_bytes ls)) 4 = Ok footer) as ->.
  { pose proof (subspan_app (hdr ++ qname_bytes ls) footer (answer_record bytes)) as Hs.
    rewrite Hfoot, length_app, <- app_assoc, <- HP in Hs. exact Hs. }
  rewrite (u16_at_split P [] (dq_id q) (drop 2 P) 0), (u16_at_split P (take 2 hdr) fl (drop 4 P) 2)
    by (lia || (rewrite ?HP; reflexivity)).
  cbn [mbind exc_bind]. change (1 + 0) with 1.
  assert (Hpre : P = (hdr ++ qname_bytes ls ++ footer) ++ answer_record bytes) by (by rewrite HP, <- !app_assoc).
  assert (Hpl : (12 + length (qname_bytes ls) + 4)%nat = length (hdr ++ qname_bytes ls ++ footer))
    by (rewrite !length_app, Hfoot; change (length hdr) with 12%nat; lia).
  rewrite Hpl. rewrite Hpre at 1 2. rewrite skip_answer by done. cbn [mbind exc_bind].
  change (Z.to_nat 0) with 0%nat. cbn. by rewrite Hname, Hwire.
Qed.
End answers.

(** ** TCP framing *)

(** The calls of a client: each readiness event delivers some chunks and ends
    with nothing left to read. *)
Definition burst (chunks : list (list ascii)) : list (Z * recv_result) :=
  ((λ d, (0, Received d)) <$> chunks) ++ [(0, WouldBlock)].
Fixpoint serve (bursts : list (list (Z * recv_result))) (st : TcpClientState) : list (list ascii) :=
  match bursts with
  | [] => []
  | b :: bursts =>
      match handle_tcp_client_readable b st with
      | Some (true, st', _) => serve bursts st'
      | Some (false, _, packet) => option_list packet
      | None => []
      end
  end.

Section framing.
Context (m : list ascii) (m_short : Z.of_nat (length m) ≤ kMaxTcpBufferSize - 2).

Definition tcp_frame : list ascii := append_u16 (Z.of_nat (length m)) ++ m.

Lemma tcp_frame_length : length tcp_frame = S (S (length m)).
Proof. done. Qed.

(** The client has received the part [got] of the frame, which is not all. *)
Definition partial (got : list ascii) (st : TcpClientState) : Prop :=
  buffer st = got ∧ have_size st = (2 <=? Z.of_nat (length got)) ∧
  (have_size st = true → expected_size st = Z.of_nat (length m)).

Lemma tcp_received_partial now got data rest st : partial got st → got ++ data ++ rest = tcp_frame →
  ∃ st', tcp_received now data st = (st', if bool_decide (rest = []) then Some (Some m) else None) ∧
    partial (got ++ data) st'.
Proof.
  intros (Hb & Hh & He) Hf. unfold tcp_received. rewrite Hb. unfold kMaxTcpBufferSize in *.
  assert (Hlen : (length (got ++ data) + length rest = S (S (length m)))%nat)
    by (rewrite <- tcp_frame_length, <- Hf, !length_app; lia).
  rewrite (proj2 (Z.ltb_ge _ _)) by lia.
  set (st' := if negb (have_size st) && _ then _ else _).
  assert (Hp : partial (got ++ data) st').
  { unfold st', partial. rewrite Hh. rewrite length_app in *. destruct (Z.leb_spec 2 (Z.of_nat (length got))); cbn [negb andb].
    - cbn [buffer have_size expected_size]. split; [done|]. split; [symmetry; apply Z.leb_le; lia|].
      intros _. by apply He.
    - destruct (Z.leb_spec 2 (Z.of_nat (length got + length data))) as [H2|]; [|by cbn].
      cbn [buffer have_size expected_size]. split; [done|]. split; [done|]. intros _.
      assert (Hpre : ∃ t, got ++ data = append_u16 (Z.of_nat (length m)) ++ t).
      { exists (drop 2 (got ++ data)). rewrite <- (take_drop 2 (got ++ data)) at 1. f_equal.
        rewrite app_assoc in Hf. apply (f_equal (take 2)) in Hf. rewrite take_app_le in Hf by (rewrite length_app; lia). exact Hf. }
      destruct Hpre as [t ->]. cbn [app append_u16 nth]. apply append_u16_value. lia. }
  exists st'. split; [|done]. destruct Hp as (Hb' & Hh' & He').
  destruct (bool_decide_reflect (rest = [])) as [->|Hr].
  - cbn [length] in Hlen. rewrite Hh', (proj2 (Z.leb_le 2 _)) by lia. rewrite He' by (rewrite Hh', (proj2 (Z.leb_le _ _)); [done|lia]).
    rewrite (proj2 (Z.leb_le _ _)) by lia. cbn [andb]. rewrite app_nil_r in Hf. rewrite Hf, Nat2Z.id.
    do 2 f_equal. unfold tcp_frame, append_u16. cbn [app drop]. by rewrite firstn_all.
  - assert (0 < length rest)%nat by (destruct rest; [done|cbn; lia]).
    destruct (have_size st') eqn:Eh; [|done]. rewrite He' by done. by rewrite (proj2 (Z.leb_gt _ _)) by lia.
Qed.

Lemma burst_partial chunks got rest st : partial got st → got ++ mjoin chunks ++ rest = tcp_frame →
  mjoin chunks ++ rest ≠ [] →
  ∃ st', handle_tcp_client_readable (burst chunks) st =
    (if bool_decide (rest = []) then Some (false, st', Some m) else Some (true, st', None)) ∧
    partial (got ++ mjoin chunks) st' ∨ rest = [] ∧ ∃ st'', handle_tcp_client_readable (burst chunks) st = Some (false, st'', Some m).
Proof.
  revert got st. induction chunks as [|d chunks IH]; intros got st Hp Hf Hne; cbn [mjoin list_join] in *.
  - cbn. exists st. rewrite bool_decide_eq_false_2 by done. left. by rewrite app_nil_r.
  - unfold burst. rewrite fmap_cons. cbn [app handle_tcp_client_readable].
    rewrite <- app_assoc in Hf. destruct (tcp_received_partial 0 got d (mjoin chunks ++ rest) st Hp Hf) as (st' & -> & Hp').
    destruct (decide (mjoin chunks ++ rest = [])) as [E|E].
    + rewrite bool_decide_eq_true_2 by done. apply app_eq_nil in E as [E1 ->]. exists st'. right. split; [done|by eexists].
    + rewrite bool_decide_eq_false_2 by done. fold (burst chunks). rewrite app_assoc in Hf.
      destruct (IH _ st' Hp' Hf E) as (st2 & [[H1 H2]|H]); exists st2; [left|by right].
      by rewrite app_assoc.
Qed.

(** However the bytes of a framed query are cut into chunks, and however the
    chunks are spread over readiness events, the server answers exactly that
    query, once. *)
Theorem tcp_queries_are_reassembled bursts :
  mjoin (mjoin bursts) = tcp_frame → serve (burst <$> bursts) (new_client 0) = [m].
Proof.
  assert (H : ∀ got st, partial got st → got ++ mjoin (mjoin bursts) = tcp_frame → mjoin (mjoin bursts) ≠ [] →
    serve (burst <$> bursts) st = [m]).
  { induction bursts as [|b bursts IH]; intros got st Hp Hf Hne; [done|]. rewrite fmap_cons. cbn [serve].
    cbn [mjoin list_join] in Hf, Hne. rewrite join_app in Hf, Hne.
    destruct (burst_partial b got (mjoin (mjoin bursts)) st Hp Hf Hne) as (st' & [[-> Hp']|[_ [st2 ->]]]); [|done].
    destruct (decide (mjoin (mjoin bursts) = [])) as [E|E];
      [by rewrite bool_decide_eq_true_2|rewrite bool_decide_eq_false_2 by done].
    apply (IH _ st' Hp'); [by rewrite <- app_assoc|done]. }
  intros Hf. apply (H []); [by repeat split|by rewrite Hf|by rewrite Hf].
Qed.
End framing.

(** ** Limits *)

(** The server never holds more than its limit of clients. *)
Lemma accept_keeps_limit now results clients : (size clients ≤ kMaxTcpClients)%nat →
  (size (accept_tcp_clients now results clients).2 ≤ kMaxTcpClients)%nat.
Proof.
  revert clients. induction results as [|[fd| | |] results IH]; intros clients Hs; cbn [accept_tcp_clients]; try done; [|by apply IH].
  destruct (Nat.leb_spec kMaxTcpClients (size clients)); [done|].
  specialize (IH (<[fd := new_client now]> clients)).
  destruct (accept_tcp_clients _ _ _) as [acc cl]. apply IH.
  rewrite map_size_insert. destruct (clients !! fd); cbn; lia.
Qed.

(** ** Witnesses *)

(** A numeric parser for addresses of four one-digit numbers. *)
Definition w_pton : InetPton := {|
  inet_pton family s :=
    match s with
    | [a; d1; b; d2; c; d3; d] =>
        if (family =? AF_INET) && forallb isdigit [a; b; c; d] && forallb (ascii_eqb ".") [d1; d2; d3]
        then Some (digit_val <$> [a; b; c; d]) else None
    | _ => None
    end;
|}.
Definition w_ntop : InetNtop := {| inet_ntop _ _ := None |}.

(** A query for "a.bc", with identifier 258 and recursion desired. *)
Definition w_query : list ascii :=
  append_u16 258 ++ append_u16 0x0100 ++ append_u16 1 ++ append_u16 0 ++ append_u16 0 ++ append_u16 0 ++
  qname_bytes [str "a"; str "bc"] ++ append_u16 1 ++ append_u16 1.

Lemma dns_answer_echoes_question_witness :
  ∃ q response, parse_dns_probe_query (NT:=w_ntop) w_query = Ok q ∧
    build_dns_probe_response (IP:=w_pton) q "1.2.3.4" = Ok response ∧
    parse_dns_probe_query (NT:=w_ntop) response =
      Ok (mk_Question 258 0x8100 "a.bc" None (question_wire q)) ∧
    drop (length response - 4) response = chr <$> [1; 2; 3; 4].
Proof.
  destruct (parse_dns_probe_query (NT:=w_ntop) w_query) as [q|e|] eqn:Eq; [|vm_compute in Eq; discriminate Eq..].
  destruct (build_dns_probe_response (IP:=w_pton) q "1.2.3.4") as [response|e|] eqn:Er;
    [|unfold build_dns_probe_response in Er; discriminate Er..].
  exists q, response. split; [done|]. split; [done|].
  destruct (@dns_answer_echoes_question w_pton w_ntop w_query q "1.2.3.4" response) as (H1 & bytes & H2 & H3).
  - intros a bytes. cbn. destruct a as [|a0 [|a1 [|a2 [|a3 [|a4 [|a5 [|a6 [|]]]]]]]]; try done.
    destruct (_ && _); [|done]. by intros [= <-].
  - exact Eq.
  - exact Er.
  - rewrite H1, H3. vm_compute in H2. injection H2 as <-. split; [|reflexivity].
    vm_compute in Eq. injection Eq as <-. reflexivity.
Defined.

Lemma tcp_queries_are_reassembled_witness :
  serve (burst <$> [[take 1 (tcp_frame w_query)]; [take 3 (drop 1 (tcp_frame w_query)); drop 4 (tcp_frame w_query)]])
    (new_client 0) = [w_query].
Proof. apply (tcp_queries_are_reassembled w_query); [vm_compute; discriminate|vm_compute; reflexivity]. Defined.
