(* ===== verification/DnsTxt.v ===== *)
(** * The resolver's TXT record (src/src/dns/dns_txt_client.{hpp,cpp})

    The daemon learns which configuration dnsmasq runs from a TXT record
    "<timestamp>|<md5>".  Modelled: the checks on the response, the choice among
    the answers, the decoding of the character strings and the parsing of the
    text.  The parsing of the DNS message itself (ns_initparse, ns_parserr) and
    the sockets are parameters. *)

From S2P Require Import Prelude CppString Md5.

Local Open Scope Z_scope.

Record ResolverConfigHashTxtValue := mk_TxtValue { txt_ts : option Z; txt_hash : cstring }.
Definition empty_TxtValue : ResolverConfigHashTxtValue := mk_TxtValue None [].

Module ResolverConfigHashProbeStatus.
Inductive t := SUCCESS | NO_USABLE_TXT | INVALID_TXT | QUERY_FAILED.
#[global] Instance t_eq_dec : EqDecision t.
Proof. solve_decision. Defined.
End ResolverConfigHashProbeStatus.

Record ResolverConfigHashProbeResult := mk_ProbeResult {
  probe_status : ResolverConfigHashProbeStatus.t;
  raw_txt : option cstring;
  parsed_value : ResolverConfigHashTxtValue;
  probe_error : cstring;
}.

(** ** The response header *)

Definition NS_HFIXEDSZ : nat := 12.
Definition ns_t_txt : Z := 16.
Definition ns_c_in : Z := 1.

(** The bytes of the packet ([nullptr] is [None]). *)
Definition dns_response_is_truncated (packet : option (list Z)) : bool :=
  match packet with
  | None => false
  | Some p => (NS_HFIXEDSZ <=? length p)%nat && negb (Z.land (nth 2 p 0) 0x02 =? 0)
  end.

(** The question of a message that [ns_initparse] accepts and that has exactly
    one: its type, class and name; [None] when a step fails. *)
Record DnsQuestion := { q_type : Z; q_class : Z; q_name : cstring }.

Definition drop_root_dot (s : cstring) : cstring :=
  match last s with
  | Some c => if ascii_eqb c "." then take (length s - 1) s else s
  | None => s
  end.

(** [strcasecmp(a.c_str(), b.c_str()) == 0]: up to the first NUL, if any. *)
Definition c_str (s : cstring) : cstring := take_while (λ c, negb (ord c =? 0)) s.
Definition strcasecmp_eq (a b : cstring) : bool :=
  bool_decide (tolower <$> c_str a = tolower <$> c_str b).

Definition dns_response_matches_query (packet : option (list Z)) (question : option DnsQuestion)
    (transaction_id : Z) (domain : cstring) : bool :=
  match packet with
  | None => false
  | Some p =>
      if (length p <? NS_HFIXEDSZ)%nat || (Z.of_nat (length p) >? INT_MAX) then false
      else
        let response_id := u16 (Z.lor (Z.shiftl (nth 0 p 0) 8) (nth 1 p 0)) in
        if negb (response_id =? transaction_id) || (Z.land (nth 2 p 0) 0x80 =? 0) ||
           negb (Z.land (nth 2 p 0) 0x78 =? 0) || negb (Z.land (nth 3 p 0) 0x0f =? 0) then false
        else match question with
        | None => false
        | Some q =>
            if negb (q_type q =? ns_t_txt) || negb (q_class q =? ns_c_in) then false
            else strcasecmp_eq (drop_root_dot (q_name q)) (drop_root_dot domain)
        end
  end.

(** ** The text *)

Definition is_hex_char (c : ascii) : bool := isxdigit c.
Definition txt_trim_copy (s : cstring) : cstring := trim_by isspace s.

Definition double_quote : ascii := chr 34.
Definition single_quote : ascii := chr 39.

(** The loops that take off one pair of quotes after the other; the value gets
    shorter at every turn. *)
Fixpoint strip_quotes_loop (fuel : nat) (value : cstring) : cstring :=
  match fuel with
  | O => value
  | S fuel =>
      match head value, last value with
      | Some first, Some last_ =>
          if (2 <=? length value)%nat &&
             ((ascii_eqb first double_quote && ascii_eqb last_ double_quote) ||
              (ascii_eqb first single_quote && ascii_eqb last_ single_quote))
          then strip_quotes_loop fuel (txt_trim_copy (substr 1 (length value - 2) value))
          else value
      | _, _ => value
      end
  end.

Definition strip_balanced_quotes (value : cstring) : cstring :=
  strip_quotes_loop (length value) (txt_trim_copy value).

Definition normalize_dns_txt_md5 (txt_payload : cstring) : cstring :=
  let normalized := strip_quotes_loop (length txt_payload) (txt_trim_copy txt_payload) in
  let compact := List.filter (λ c, negb (ascii_eqb c double_quote || ascii_eqb c single_quote ||
                                         isspace c)) normalized in
  let md5_prefix := str "md5=" in
  let compact := if (length md5_prefix <? length compact)%nat &&
                    bool_decide (tolower <$> take (length md5_prefix) compact = md5_prefix)
                 then drop (length md5_prefix) compact else compact in
  let hex_only := tolower <$> List.filter is_hex_char compact in
  if (length hex_only =? 32)%nat then hex_only else compact.

Definition INT64_MAX : Z := 9223372036854775807.

Definition parse_resolver_config_hash_txt (txt_payload : cstring) : ResolverConfigHashTxtValue :=
  let normalized := strip_balanced_quotes txt_payload in
  match find_char "|" normalized with
  | None => mk_TxtValue None (normalize_dns_txt_md5 normalized)
  | Some delimiter =>
      let ts_part := txt_trim_copy (take delimiter normalized) in
      let hash_part := txt_trim_copy (drop (S delimiter) normalized) in
      mk_TxtValue
        (if negb (bool_decide (ts_part = [])) && forallb isdigit ts_part then
           (* std::stoll throws out_of_range, which is caught *)
           if dec_value 0 ts_part <=? INT64_MAX then Some (dec_value 0 ts_part) else None
         else None)
        (normalize_dns_txt_md5 hash_part)
  end.

Definition is_valid_resolver_config_hash_txt_value (v : ResolverConfigHashTxtValue) : bool :=
  (length (txt_hash v) =? 32)%nat && forallb isxdigit (txt_hash v).

(** ** The answers *)

(** A record that [ns_parserr] accepts, with its data. *)
Record DnsRecord := { rr_type : Z; rr_class : Z; rr_rdata : cstring }.

(** The character strings of the data, one after the other; [None] when the
    last is cut off. *)
Fixpoint txt_chunks (fuel : nat) (rdata txt : cstring) : option cstring :=
  match fuel, rdata with
  | O, _ | _, [] => Some txt
  | S fuel, len :: rest =>
      let chunk_len := Z.to_nat (ord len) in
      if (length rest <? chunk_len)%nat then None
      else txt_chunks fuel (drop chunk_len rest) (txt ++ take chunk_len rest)
  end.
Definition decode_txt (rdata : cstring) : option cstring := txt_chunks (length rdata) rdata [].

Record TxtSelection := mk_Selection {
  first_txt : option cstring;
  latest_ts_txt : option cstring;
  latest_ts_value : option Z;
}.

Definition kDnsTxtAnswerNotFound : cstring := "DNS TXT answer not found".

(** The loop over the answers; [None] is the early return on a cut-off text. *)
Fixpoint scan_answers (answers : list (option DnsRecord)) (s : TxtSelection) :
    option TxtSelection :=
  match answers with
  | [] => Some s
  | None :: answers => scan_answers answers s
  | Some rr :: answers =>
      if negb (rr_type rr =? ns_t_txt) || negb (rr_class rr =? ns_c_in) ||
         (length (rr_rdata rr) =? 0)%nat
      then scan_answers answers s
      else match decode_txt (rr_rdata rr) with
      | None => None
      | Some txt =>
          let first := match first_txt s with Some t => Some t | None => Some txt end in
          let parsed := parse_resolver_config_hash_txt txt in
          match txt_ts parsed with
          | Some ts =>
              if match latest_ts_value s with None => true | Some v => ts >? v end
              then scan_answers answers (mk_Selection first (Some txt) (Some ts))
              else scan_answers answers (mk_Selection first (latest_ts_txt s) (latest_ts_value s))
          | None => scan_answers answers (mk_Selection first (latest_ts_txt s) (latest_ts_value s))
          end
      end
  end.

(** [answers] is [None] when [ns_initparse] fails.  The error is the text given
    to [error_out]. *)
Definition parse_first_txt_answer (answers : option (list (option DnsRecord))) :
    cstring + cstring :=
  match answers with
  | None => inl (str "Failed to parse DNS response")
  | Some answers =>
      match scan_answers answers (mk_Selection None None None) with
      | None => inl (str "DNS TXT chunk truncated")
      | Some s =>
          match latest_ts_txt s, first_txt s with
          | Some t, _ => inr t
          | None, Some t => inr t
          | None, None => inl kDnsTxtAnswerNotFound
          end
      end
  end.

(** [query_dns_txt_record] may throw; an error leaves its text. *)
Definition query_resolver_config_hash_txt (query : exc (cstring + cstring)) :
    exc ResolverConfigHashProbeResult :=
  match query with
  | Ok (inl error) =>
      Ok (mk_ProbeResult
            (if bool_decide (error = kDnsTxtAnswerNotFound)
             then ResolverConfigHashProbeStatus.NO_USABLE_TXT
             else ResolverConfigHashProbeStatus.QUERY_FAILED) None empty_TxtValue error)
  | Ok (inr txt) =>
      let parsed := parse_resolver_config_hash_txt txt in
      Ok (if is_valid_resolver_config_hash_txt_value parsed
          then mk_ProbeResult ResolverConfigHashProbeStatus.SUCCESS (Some txt) parsed []
          else mk_ProbeResult ResolverConfigHashProbeStatus.INVALID_TXT (Some txt) parsed
                 "Resolver TXT payload is missing a valid md5 hash")
  | Throw e =>
      match what e with
      | Some w => Ok (mk_ProbeResult ResolverConfigHashProbeStatus.QUERY_FAILED None
                        empty_TxtValue w)
      | None => Throw e
      end
  | Undefined => Undefined
  end.

(** ** What is published is what is read *)

Definition is_quote (q : ascii) : Prop := q = double_quote ∨ q = single_quote.
Definition blanks (l : cstring) : Prop := forallb isspace l = true.

(** A text in any number of quotes, with blanks around each level. *)
Inductive quoted (v : cstring) : cstring → Prop :=
  | quoted_plain l r : blanks l → blanks r → quoted v (l ++ v ++ r)
  | quoted_wrap l r q t : blanks l → blanks r → is_quote q → quoted v t →
      quoted v (l ++ (q :: t ++ [q]) ++ r).

(** A text that trimming and the quote loops leave alone. *)
Record plain_text (v : cstring) : Prop := {
  plain_ne : v ≠ [];
  plain_head c : head v = Some c → isspace c = false ∧ ¬ is_quote c;
  plain_last c : last v = Some c → isspace c = false;
}.

Lemma strip_quotes_plain fuel v : plain_text v → strip_quotes_loop fuel v = v.
Proof.
  intros [Hne Hh _]. destruct fuel as [|fuel]; [done|]. cbn [strip_quotes_loop].
  destruct v as [|c v]; [done|]. cbn [head].
  destruct (last (c :: v)) as [d|]; [|done].
  destruct (Hh c eq_refl) as [_ Hq].
  rewrite (proj2 (ascii_eqb_neq c double_quote)), (proj2 (ascii_eqb_neq c single_quote)) by
    (intros ->; apply Hq; by (left + right)).
  by rewrite andb_false_r.
Qed.

Lemma is_quote_facts q : is_quote q → isspace q = false ∧
  (ascii_eqb q double_quote && ascii_eqb q double_quote) ||
  (ascii_eqb q single_quote && ascii_eqb q single_quote) = true.
Proof. by intros [->| ->]. Qed.

Lemma strip_quoted v t : plain_text v → quoted v t →
  ∀ fuel, (length t ≤ fuel)%nat → strip_quotes_loop fuel (txt_trim_copy t) = v.
Proof.
  intros Hv. induction 1 as [l r Hl Hr|l r q t Hl Hr Hq Ht IH]; intros fuel Hf; unfold txt_trim_copy.
  - rewrite trim_by_core; [by apply strip_quotes_plain|done|done|apply Hv| |apply Hv].
    intros c Hc. by apply Hv.
  - destruct (is_quote_facts q Hq) as [Hsp Hqq].
    rewrite trim_by_core; [|done|done|done|naive_solver|].
    2: { intros c. rewrite app_comm_cons, last_snoc. naive_solver. }
    rewrite !length_app in Hf. cbn in Hf. rewrite length_app in Hf. cbn in Hf.
    destruct fuel as [|fuel]; [lia|]. cbn [strip_quotes_loop head].
    rewrite app_comm_cons, last_snoc, <-app_comm_cons.
    rewrite (proj2 (Nat.leb_le _ _)), Hqq by (cbn; rewrite length_app; cbn; lia).
    cbn [andb]. unfold substr. cbn [drop length].
    rewrite length_app. cbn [length]. rewrite drop_0.
    replace (S (length t + 1) - 2)%nat with (length t) by lia.
    rewrite take_app_length. apply IH. lia.
Qed.

Lemma is_hash_filter h f : (∀ c, isxdigit c = true → f c = true) → is_hash h →
  List.filter f h = h.
Proof.
  intros Hf [_ HF]. induction HF as [|c h [Hc _] _ IH]; [done|]. cbn. by rewrite Hf, IH.
Qed.

Lemma xdigit_range c : isxdigit c = true → (48 ≤ ord c ≤ 57) ∨ (97 ≤ ord c ≤ 102) ∨ (65 ≤ ord c ≤ 70).
Proof.
  unfold isxdigit, isdigit, in_range. rewrite !orb_true_iff, !andb_true_iff, !Z.leb_le. lia.
Qed.

Lemma xdigit_facts c : isxdigit c = true →
  isspace c = false ∧ ¬ is_quote c ∧ c ≠ "|"%char ∧ c ≠ "="%char ∧
  negb (ascii_eqb c double_quote || ascii_eqb c single_quote || isspace c) = true.
Proof.
  intros H%xdigit_range.
  assert (Hs : isspace c = false).
  { unfold isspace, in_range. rewrite orb_false_iff, andb_false_iff, !Z.leb_gt, Z.eqb_neq. lia. }
  assert (Hn : ∀ x, ord x = 34 ∨ ord x = 39 ∨ ord x = 124 ∨ ord x = 61 → c ≠ x)
    by (intros x Hx ->; lia).
  assert (Hq1 : c ≠ double_quote) by (apply Hn; by left).
  assert (Hq2 : c ≠ single_quote) by (apply Hn; right; by left).
  split_and!; [done| |apply Hn; do 2 right; by left|apply Hn; do 3 right; done|].
  - intros [->| ->]; done.
  - by rewrite Hs, (proj2 (ascii_eqb_neq _ _) Hq1), (proj2 (ascii_eqb_neq _ _) Hq2).
Qed.

Lemma hash_plain h : is_hash h → plain_text h.
Proof.
  intros [Hl HF]. rewrite Forall_forall in HF. constructor.
  - intros ->. done.
  - intros c Hc. destruct h as [|x h]; [done|]. injection Hc as ->.
    destruct (HF c (list_elem_of_here _ _)) as [Hx _]. by apply xdigit_facts in Hx as (? & ? & _).
  - intros c Hc. apply last_Some in Hc as [h' ->]. destruct (HF c) as [Hx _]; [set_solver|].
    by apply xdigit_facts in Hx as (? & _).
Qed.

Lemma normalize_hash h : is_hash h → normalize_dns_txt_md5 h = h.
Proof.
  intros Hh. unfold normalize_dns_txt_md5.
  assert (Ht : strip_quotes_loop (length h) (txt_trim_copy h) = h).
  { apply (strip_quoted h h); [by apply hash_plain| |done].
    rewrite <-(app_nil_r h) at 2. by apply (quoted_plain h [] []). }
  rewrite Ht, (is_hash_filter h) by (by intros; apply xdigit_facts || done).
  rewrite (bool_decide_eq_false_2 (tolower <$> _ = _)), andb_false_r.
  2: { intros E. destruct Hh as [Hl HF]. do 4 (destruct h as [|? h]; [done|]).
       rewrite !Forall_cons in HF. destruct HF as (_ & _ & _ & [Hx Hu] & _).
       cbn in E. injection E as _ _ _ E. unfold tolower in E. rewrite Hu in E.
       by apply xdigit_facts in Hx as (_ & _ & _ & ? & _). }
  rewrite (is_hash_filter h) by done. destruct Hh as [Hl HF].
  assert (Hlow : tolower <$> h = h).
  { clear Hl Ht. induction HF as [|c h [_ Hu] _ IH]; [done|]. cbn.
    unfold tolower at 1. by rewrite Hu, IH. }
  by rewrite Hlow, Hl.
Qed.

Lemma parse_published ts h t :
  0 ≤ ts ≤ INT64_MAX → is_hash h → quoted (to_string ts ++ "|" ++ h) t →
  parse_resolver_config_hash_txt t = mk_TxtValue (Some ts) h ∧
  is_valid_resolver_config_hash_txt_value (parse_resolver_config_hash_txt t) = true.
Proof.
  intros Hts Hh Hq. destruct (to_string_spec ts) as (Hne & Hd & Hv); [lia|].
  set (v := to_string ts ++ "|" ++ h).
  assert (Hdig : ∀ c, c ∈ to_string ts → isdigit c = true).
  { intros c Hc. rewrite forallb_forall in Hd. by apply Hd, list_elem_of_In. }
  assert (Hx : ∀ c, isdigit c = true → isxdigit c = true) by (intros c Hc; unfold isxdigit; by rewrite Hc).
  assert (Hpt : plain_text (to_string ts)).
  { constructor; [done| |]; intros c Hc.
    - destruct (to_string ts) as [|x l] eqn:E; [done|]. injection Hc as ->.
      destruct (xdigit_facts c) as (? & ? & _); [apply Hx, Hdig; left|]. done.
    - apply last_Some in Hc as [l El]. destruct (xdigit_facts c) as (? & _); [|done].
      apply Hx, Hdig. rewrite El. set_solver. }
  assert (Hp : plain_text v).
  { constructor; unfold v.
    - by destruct (to_string ts).
    - intros c Hc. destruct (to_string ts) as [|x l]; [done|]. by apply Hpt.
    - intros c Hc. apply (plain_last _ (hash_plain h Hh)).
      destruct h as [|x h'] using rev_ind; [by destruct Hh|].
      rewrite !app_assoc, last_snoc in Hc. by rewrite last_snoc. }
  assert (Hs : strip_balanced_quotes t = v) by (by apply (strip_quoted v t)).
  assert (Hparse : parse_resolver_config_hash_txt t = mk_TxtValue (Some ts) h).
  { unfold parse_resolver_config_hash_txt. rewrite Hs. unfold v.
    change (str "|" ++ h) with ("|"%char :: h). rewrite find_char_app.
    2: { intros Hin%Hdig. done. }
    rewrite take_app_length, (cons_middle "|"%char), app_assoc, drop_app_length' by
      (rewrite length_app; cbn; lia).
    assert (Htrim : ∀ x, plain_text x → txt_trim_copy x = x).
    { intros x [? Hh' ?]. unfold txt_trim_copy. rewrite <-(app_nil_r x) at 1.
      apply (trim_by_core isspace [] x []); try done. intros c Hc. by apply Hh'. }
    rewrite !Htrim by (done || by apply hash_plain).
    rewrite normalize_hash, Hd, Hv by done. rewrite bool_decide_eq_false_2 by done. cbn.
    by rewrite (proj2 (Z.leb_le ts INT64_MAX)) by lia. }
  split; [done|]. rewrite Hparse. unfold is_valid_resolver_config_hash_txt_value. cbn.
  destruct Hh as [-> HF]. cbn. apply forallb_forall. intros c Hc.
  rewrite Forall_forall in HF. by apply HF, list_elem_of_In.
Qed.

(** The text that the resolver configuration publishes is read back: for a
    timestamp of 63 bits and a hash of 32 lower-case digits, "<ts>|<hash>", in
    any number of quotes and with blanks around them, parses to exactly that
    timestamp and hash, and the hash is accepted as valid. *)
Theorem resolver_txt_roundtrip ts h t :
  0 ≤ ts ≤ INT64_MAX → is_hash h → quoted (to_string ts ++ "|" ++ h) t →
  parse_resolver_config_hash_txt t = mk_TxtValue (Some ts) h ∧
  is_valid_resolver_config_hash_txt_value (parse_resolver_config_hash_txt t) = true.
Proof. apply parse_published. Qed.

(** ** The newest answer is chosen *)

Definition is_txt (rr : DnsRecord) : bool :=
  (rr_type rr =? ns_t_txt) && (rr_class rr =? ns_c_in) && negb (length (rr_rdata rr) =? 0)%nat.

(** The texts of the answers, in order, when none is cut off. *)
Fixpoint answer_texts (answers : list (option DnsRecord)) : option (list cstring) :=
  match answers with
  | [] => Some []
  | None :: answers => answer_texts answers
  | Some rr :: answers =>
      if is_txt rr then
        txt ← decode_txt (rr_rdata rr); rest ← answer_texts answers; mret (txt :: rest)
      else answer_texts answers
  end.

Definition ts_of (t : cstring) : option Z := txt_ts (parse_resolver_config_hash_txt t).

Record selects (seen : list cstring) (s : TxtSelection) : Prop := {
  sel_first : first_txt s = head seen;
  sel_latest : match latest_ts_txt s with
    | None => latest_ts_value s = None ∧ ∀ t, t ∈ seen → ts_of t = None
    | Some t => ∃ v, t ∈ seen ∧ latest_ts_value s = Some v ∧ ts_of t = Some v ∧
                  ∀ t' v', t' ∈ seen → ts_of t' = Some v' → v' ≤ v
    end;
}.

Lemma scan_answers_spec answers s seen :
  selects seen s →
  match scan_answers answers s, answer_texts answers with
  | Some s', Some l => selects (seen ++ l) s'
  | None, None => True
  | _, _ => False
  end.
Proof.
  revert s seen. induction answers as [|[rr|] answers IH]; intros s seen Hs; cbn.
  - by rewrite app_nil_r.
  - assert (Hb : (negb (rr_type rr =? ns_t_txt) || negb (rr_class rr =? ns_c_in) ||
      (length (rr_rdata rr) =? 0)%nat) = negb (is_txt rr)).
    { unfold is_txt. rewrite !negb_andb, negb_involutive. done. }
    rewrite Hb. destruct (is_txt rr); cbn [negb]; [|by apply IH].
    destruct (decode_txt (rr_rdata rr)) as [txt|]; cbn; [|done].
    assert (Hstep : ∀ s1, selects (seen ++ [txt]) s1 →
      match scan_answers answers s1, answer_texts answers ≫= λ rest, Some (txt :: rest) with
      | Some s', Some l => selects (seen ++ l) s' | None, None => True | _, _ => False end).
    { intros s1 H1. specialize (IH s1 _ H1). destruct (scan_answers answers s1), (answer_texts answers);
        cbn in *; try done. by rewrite <-app_assoc in IH. }
    assert (Hfirst : match first_txt s with Some t => Some t | None => Some txt end =
      head (seen ++ [txt])).
    { rewrite (sel_first _ _ Hs). by destruct seen. }
    destruct Hs as [_ Hl]. change (txt_ts (parse_resolver_config_hash_txt txt)) with (ts_of txt).
    destruct (ts_of txt) as [ts|] eqn:Ets.
    + destruct (latest_ts_txt s) as [t|].
      * destruct Hl as (v & Hin & -> & Ht & Hmax). destruct (ts >? v) eqn:Ec;
          rewrite Z.gtb_ltb in Ec; breflect; apply Hstep; constructor; try done; cbn.
        -- exists ts. split_and!; [set_solver|done|done|].
           intros t' v' [Hin'| ->%list_elem_of_singleton]%elem_of_app Hv'; [|simplify_eq; lia].
           specialize (Hmax _ _ Hin' Hv'). lia.
        -- exists v. split_and!; [set_solver|done|done|].
           intros t' v' [Hin'| ->%list_elem_of_singleton]%elem_of_app Hv'; [|simplify_eq; lia].
           by eapply Hmax.
      * destruct Hl as (-> & Hnone). apply Hstep. constructor; [done|]. cbn.
        exists ts. split_and!; [set_solver|done|done|].
        intros t' v' [Hin'| ->%list_elem_of_singleton]%elem_of_app Hv'; [|simplify_eq; lia].
        rewrite (Hnone _ Hin') in Hv'. done.
    + apply Hstep. constructor; [done|]. cbn. destruct (latest_ts_txt s) as [t|].
      * destruct Hl as (v & Hin & -> & Ht & Hmax). exists v. split_and!; [set_solver|done|done|].
        intros t' v' [Hin'| ->%list_elem_of_singleton]%elem_of_app Hv'; [by eapply Hmax|congruence].
      * destruct Hl as (-> & Hnone). split; [done|].
        intros t' [Hin'| ->%list_elem_of_singleton]%elem_of_app; auto.
  - by apply IH.
Qed.

(** Of the TXT answers of a response the client takes the newest: the
    chosen text is one of the answers, no answer has a later timestamp, and
    when no answer has one it is the first.  A response without TXT answers is
    reported as such, and one with a cut-off text is refused as a whole. *)
Theorem newest_txt_is_chosen answers :
  match parse_first_txt_answer (Some answers), answer_texts answers with
  | inr t, Some l =>
      t ∈ l ∧ (∀ t' v', t' ∈ l → ts_of t' = Some v' → ∃ v, ts_of t = Some v ∧ v' ≤ v) ∧
      (Forall (λ t', ts_of t' = None) l → head l = Some t)
  | inl e, Some l => l = [] ∧ e = kDnsTxtAnswerNotFound
  | inl e, None => e = str "DNS TXT chunk truncated"
  | inr _, None => False
  end.
Proof.
  unfold parse_first_txt_answer.
  pose proof (scan_answers_spec answers (mk_Selection None None None) []) as H.
  destruct (scan_answers _ _) as [s|], (answer_texts answers) as [l|]; try done;
    (specialize (H ltac:(constructor; [done|split; [done|set_solver]])); try done).
  cbn [app] in H. destruct H as [Hf Hl]. destruct (latest_ts_txt s) as [t|].
  - destruct Hl as (v & Hin & _ & Ht & Hmax). split_and!; [done|naive_solver|].
    intros HF. rewrite Forall_forall in HF. rewrite (HF t Hin) in Ht. done.
  - destruct Hl as [_ Hnone]. rewrite Hf. destruct l as [|t l]; cbn; [done|].
    split_and!; [left| |done]. intros t' v' Hin Hv. rewrite Hnone in Hv; done.
Qed.

(** The character strings of a TXT record are decoded as they are encoded. *)
Definition encode_txt (chunks : list cstring) : cstring :=
  c ← chunks; chr (Z.of_nat (length c)) :: c.

Lemma decode_encode_txt chunks :
  Forall (λ c, (length c < 256)%nat) chunks → decode_txt (encode_txt chunks) = Some (concat chunks).
Proof.
  intros HF. unfold decode_txt.
  cut (∀ fuel acc, (length (encode_txt chunks) ≤ fuel)%nat →
    txt_chunks fuel (encode_txt chunks) acc = Some (acc ++ concat chunks)).
  { intros H. by rewrite H. }
  induction HF as [|c chunks Hc _ IH]; intros fuel acc Hf.
  - destruct fuel; cbn; by rewrite app_nil_r.
  - unfold encode_txt in *. cbn in *. rewrite length_app in Hf.
    destruct fuel as [|fuel]; [lia|]. cbn [txt_chunks app]. rewrite ord_chr, Nat2Z.id by lia.
    rewrite (proj2 (Nat.ltb_ge _ _)) by (rewrite length_app; lia).
    rewrite take_app_length, drop_app_length, IH by lia. by rewrite <-app_assoc.
Qed.

(** *** Witnesses *)

Definition w_hash : cstring := md5_hex "abc".

Lemma w_hash_ok : is_hash w_hash.
Proof. apply md5_hex_is_hash. Qed.

Lemma resolver_txt_roundtrip_witness :
  parse_resolver_config_hash_txt (double_quote :: (to_string 1700000000 ++ "|" ++ w_hash) ++ [double_quote])
  = mk_TxtValue (Some 1700000000) w_hash.
Proof.
  apply (resolver_txt_roundtrip 1700000000 w_hash); [unfold INT64_MAX; lia|exact w_hash_ok|].
  rewrite <-(app_nil_r (_ :: _)). apply (quoted_wrap _ [] [] double_quote); [done|done|by left|].
  rewrite <-(app_nil_r (to_string _ ++ _)). by apply (quoted_plain _ [] []).
Defined.
