(* ===== verification/FirewallRules.v ===== *)
(** * Firewall rule states (the second half of
    src/src/config/routing_state.cpp, with src/src/routing/target.{hpp,cpp},
    src/src/routing/firewall_state.{hpp,cpp} and src/src/firewall/firewall.hpp)

    The decision each route rule leads to, the selectors and set names of its
    firewall rule, and the recovery of a urltest selection from the kernel. *)

From S2P Require Import Prelude CppString Netlink RoutingReconciler.
From S2P Require Import Config PortSpec Fwmark AddrSpec RouteTable PolicyRule RoutingState.

Local Open Scope Z_scope.

(** ** Decisions *)

Record RoutingDecision := mk_RoutingDecision {
  rd_outbound : option Outbound;
  is_skip : bool;
  is_passthrough : bool;
}.

Definition route_to (ob : Outbound) : RoutingDecision := mk_RoutingDecision (Some ob) false false.
Definition passthrough (ob : Outbound) : RoutingDecision := mk_RoutingDecision (Some ob) false true.
Definition none : RoutingDecision := mk_RoutingDecision None false false.

Definition resolve_route_action (outbound_tag : cstring) (obs : list Outbound) :
    RoutingDecision :=
  match find_outbound obs outbound_tag with
  | None => none
  | Some ob => if bool_decide (type ob = OutboundType.IGNORE) then passthrough ob
               else route_to ob
  end.

(** ** Selectors *)

Module L4Proto.
Inductive t := Any | Tcp | Udp | TcpUdp.
#[global] Instance t_eq_dec : EqDecision t.
Proof. solve_decision. Defined.
End L4Proto.

Record FirewallRuleCriteria := mk_Criteria {
  dst_set_name : option cstring;
  fc_dscp : option Z;
  fc_proto : L4Proto.t;
  fc_src_port : PortSpec;
  fc_dst_port : PortSpec;
  fc_src_addr : list cstring;
  fc_dst_addr : list cstring;
  negate_src_port : bool;
  negate_dst_port : bool;
  negate_src_addr : bool;
  negate_dst_addr : bool;
  apply_output : bool;
}.

Definition empty_Criteria : FirewallRuleCriteria :=
  mk_Criteria None None L4Proto.Any empty_spec empty_spec [] [] false false false false false.

Record FirewallGlobalPrefilter := {
  pf_inbound_interfaces : option (list cstring);
  skip_established_or_dnat : bool;
  pf_skip_marked_packets : bool;
  restore_conntrack_mark : bool;
  conntrack_mark_mask : Z;
}.

Definition build_firewall_global_prefilter (cfg : Config) : FirewallGlobalPrefilter := {|
  skip_established_or_dnat := true;
  pf_skip_marked_packets :=
    value_or (skip_marked_packets (value_or (daemon cfg) default_DaemonConfig)) true;
  pf_inbound_interfaces :=
    match inbound_interfaces (value_or (route cfg) default_RouteConfig) with
    | Some (i :: rest) => Some (i :: rest)
    | _ => None
    end;
  restore_conntrack_mark := false;
  conntrack_mark_mask := 0;
|}.

Definition parse_rule_proto (p : option cstring) : exc L4Proto.t :=
  match p with
  | None | Some [] => Ok L4Proto.Any
  | Some s =>
      if bool_decide (s = "tcp") then Ok L4Proto.Tcp
      else if bool_decide (s = "udp") then Ok L4Proto.Udp
      else if bool_decide (s = "tcp/udp") then Ok L4Proto.TcpUdp
      else Throw (FirewallError ("Unsupported route rule protocol: " ++ s))
  end.

Section criteria.
Context {SS : StdSort} {IP : InetPton}.

Definition build_firewall_rule_criteria (rule : RouteRule) : exc FirewallRuleCriteria :=
  p ← parse_rule_proto (proto rule);
  let d := u8 <$> dscp rule in
  let '(sport, sneg) := strip_neg (value_or (src_port rule) []) in
  src ← parse_port_spec sport;
  let '(dport, dneg) := strip_neg (value_or (dest_port rule) []) in
  dst ← parse_port_spec dport;
  saddr ← parse_addr_spec (value_or (src_addr rule) []);
  daddr ← parse_addr_spec (value_or (dest_addr rule) []);
  mret (mk_Criteria None d p src dst (addrs saddr) (addrs daddr) sneg dneg
          (negate saddr) (negate daddr) false).
End criteria.

(** ** Rule states *)

Module RuleActionType.
Inductive t := Mark | Drop | Pass | Skip.
#[global] Instance t_eq_dec : EqDecision t.
Proof. solve_decision. Defined.
End RuleActionType.

Record RuleState := mk_RuleState {
  rule_index : nat;
  list_names : list cstring;
  set_names : list cstring;
  outbound_tag : cstring;
  action_type : RuleActionType.t;
  rs_fwmark : Z;
  criteria : FirewallRuleCriteria;
}.

Definition rule_sets (lists_map : gmap cstring ListConfig) (rule : RouteRule) : list cstring :=
  name ← route_rule_lists rule;
  match lists_map !! name with
  | None => []
  | Some _ => ["kpbr4_" ++ name; "kpbr6_" ++ name; "kpbr4d_" ++ name; "kpbr6d_" ++ name]
  end.

Definition config_rules (cfg : Config) : list RouteRule :=
  value_or (rules (value_or (route cfg) default_RouteConfig)) [].
Definition config_lists (cfg : Config) : gmap cstring ListConfig := value_or (lists cfg) ∅.

(** A urltest with a selected child that exists stands for the child. *)
Definition effective_outbound (all_outbounds : list Outbound)
    (urltest_selections : option (gmap cstring cstring)) (ob : Outbound) : Outbound * cstring :=
  if bool_decide (type ob = OutboundType.URLTEST) then
    let selected := resolve_urltest_selection urltest_selections (tag ob) in
    if bool_decide (selected = []) then (ob, tag ob)
    else match find_outbound all_outbounds selected with
         | Some child => (child, selected)
         | None => (ob, tag ob)
         end
  else (ob, tag ob).

(** The body of the loop of [build_fw_rule_states]. *)
Definition fw_rule_state (cfg : Config) (marks : OutboundMarkMap)
    (urltest_selections : option (gmap cstring cstring)) (rule_idx : nat) (rule : RouteRule) :
    RuleState :=
  let all_outbounds := value_or (outbounds cfg) [] in
  let state sets action mark :=
    mk_RuleState rule_idx (route_rule_lists rule) sets (rule_outbound rule) action mark
      empty_Criteria in
  if negb (route_rule_enabled rule) then state [] RuleActionType.Skip 0
  else
    let decision := resolve_route_action (rule_outbound rule) all_outbounds in
    if is_skip decision then state [] RuleActionType.Skip 0
    else match rd_outbound decision with
    | None => state [] RuleActionType.Skip 0
    | Some ob =>
        if is_passthrough decision then
          state (rule_sets (config_lists cfg) rule) RuleActionType.Pass 0
        else
          let '(effective_ob, effective_tag) :=
            effective_outbound all_outbounds urltest_selections ob in
          if bool_decide (type effective_ob = OutboundType.BLACKHOLE) then
            state (rule_sets (config_lists cfg) rule) RuleActionType.Drop 0
          else
            state (rule_sets (config_lists cfg) rule) RuleActionType.Mark
              (value_or (marks !! effective_tag) 0)
    end.

Definition build_fw_rule_states (cfg : Config) (marks : OutboundMarkMap)
    (urltest_selections : option (gmap cstring cstring)) : list RuleState :=
  imap (fw_rule_state cfg marks urltest_selections) (config_rules cfg).

Record ListSetUsage := { has_static_entries : bool; has_domain_entries : bool;
                         dynamic_timeout : Z }.

Section prune.
Context {SS : StdSort} {IP : InetPton}.
Context (cfg : Config) (list_usage_fn : cstring → ListConfig → ListSetUsage).
Context (ipv6_enabled : bool).

Definition realized_sets (name : cstring) (usage : ListSetUsage) : list cstring :=
  (if has_static_entries usage
   then ("kpbr4_" ++ name) :: (if ipv6_enabled then ["kpbr6_" ++ name] else []) else []) ++
  (if has_domain_entries usage
   then ("kpbr4d_" ++ name) :: (if ipv6_enabled then ["kpbr6d_" ++ name] else []) else []).

(** The loop over the lists of a rule, with the cache of usages it fills. *)
Fixpoint realized_rule_sets (names : list cstring) (usage_cache : gmap cstring ListSetUsage)
    (sets : list cstring) : list cstring * gmap cstring ListSetUsage :=
  match names with
  | [] => (sets, usage_cache)
  | name :: names =>
      match config_lists cfg !! name with
      | None => realized_rule_sets names usage_cache sets
      | Some list_cfg =>
          let '(usage, usage_cache) :=
            match usage_cache !! name with
            | Some u => (u, usage_cache)
            | None => let u := list_usage_fn name list_cfg in (u, <[name := u]> usage_cache)
            end in
          realized_rule_sets names usage_cache (sets ++ realized_sets name usage)
      end
  end.

Fixpoint prune_states (states : list RuleState) (usage_cache : gmap cstring ListSetUsage) :
    exc (list RuleState) :=
  match states with
  | [] => mret []
  | rs :: states =>
      if bool_decide (action_type rs = RuleActionType.Skip) then
        rest ← prune_states states usage_cache; mret (rs :: rest)
      else match config_rules cfg !! rule_index rs with
      | None => rest ← prune_states states usage_cache; mret (rs :: rest)
      | Some rule =>
          c ← build_firewall_rule_criteria rule;
          let '(sets, usage_cache) :=
            realized_rule_sets (route_rule_lists rule) usage_cache [] in
          rest ← prune_states states usage_cache;
          mret (mk_RuleState (rule_index rs) (list_names rs) sets (outbound_tag rs)
                  (action_type rs) (rs_fwmark rs) c :: rest)
      end
  end.

Definition prune_fw_rule_states_to_realized_sets (states : list RuleState) :
    exc (list RuleState) := prune_states states ∅.
End prune.

(** ** List names (config.cpp) *)

Definition IPSET_MAX_NAME : nat := 31.
Definition IPSET_PREFIX_LEN : nat := 7.
Definition MAX_TAG_LEN : nat := (IPSET_MAX_NAME - IPSET_PREFIX_LEN)%nat.

Definition is_valid_tag (value : cstring) : bool :=
  if bool_decide (value = []) || (MAX_TAG_LEN <? length value)%nat then false
  else match value with
  | [] => false
  | first :: rest =>
      if negb (islower first) then false
      else forallb (λ c, islower c || isdigit c || ascii_eqb c "_") rest
  end.

(** ** Recovering the selection of a urltest *)

Definition route_matches_outbound (r : DumpedRoute) (ob : Outbound) : bool :=
  if negb (bool_decide (dr_destination r = "default")) || dr_blackhole r || dr_unreachable r
  then false
  else if negb (bool_decide (type ob = OutboundType.INTERFACE)) then false
  else if negb (bool_decide (dr_interface r = interface ob)) then false
  else if (dr_family r =? AF_INET) && has_value (gateway ob) then
    bool_decide (dr_gateway r = gateway ob)
  else if (dr_family r =? AF_INET6) && has_value (gateway6 ob) then
    bool_decide (dr_gateway r = gateway6 ob)
  else negb (has_value (dr_gateway r)).

(** The inner loops over the children: [inl tt] is the [return nullopt] on an
    ambiguous route. *)
Fixpoint match_children (obs : list Outbound) (r : DumpedRoute) (child_tags : list cstring)
    (route_tag : option cstring) : unit + option cstring :=
  match child_tags with
  | [] => inr route_tag
  | child_tag :: child_tags =>
      match find_outbound obs child_tag with
      | None => match_children obs r child_tags route_tag
      | Some child =>
          if negb (route_matches_outbound r child) then
            match_children obs r child_tags route_tag
          else match route_tag with
          | Some t => if negb (bool_decide (t = child_tag)) then inl tt
                      else match_children obs r child_tags (Some child_tag)
          | None => match_children obs r child_tags (Some child_tag)
          end
      end
  end.

Definition urltest_child_tags (urltest : Outbound) : list cstring :=
  g ← value_or (outbound_groups urltest) []; group_outbounds g.

Fixpoint infer_loop (obs : list Outbound) (urltest : Outbound) (routes : list DumpedRoute)
    (selected_tag : option cstring) : option cstring :=
  match routes with
  | [] => selected_tag
  | r :: routes =>
      if negb (bool_decide (dr_destination r = "default")) || dr_blackhole r ||
         dr_unreachable r || negb (dr_metric r =? 0)
      then infer_loop obs urltest routes selected_tag
      else match match_children obs r (urltest_child_tags urltest) None with
      | inl _ => None
      | inr None => None
      | inr (Some route_tag) =>
          match selected_tag with
          | Some t => if negb (bool_decide (t = route_tag)) then None
                      else infer_loop obs urltest routes (Some route_tag)
          | None => infer_loop obs urltest routes (Some route_tag)
          end
      end
  end.

Definition infer_urltest_selection_from_routes (obs : list Outbound) (urltest : Outbound)
    (routes : list DumpedRoute) : option cstring :=
  infer_loop obs urltest routes None.

(** ** The firewall state object *)

Record FirewallState := mk_FirewallState {
  outbound_marks_ : OutboundMarkMap;
  fwmark_mask_ : Z;
  fs_rules_ : list RuleState;
  urltest_selections_ : gmap cstring cstring;
}.

Definition set_rules (rs : list RuleState) (s : FirewallState) : FirewallState :=
  mk_FirewallState (outbound_marks_ s) (fwmark_mask_ s) rs (urltest_selections_ s).
Definition set_urltest_selection (urltest_tag child_tag : cstring) (s : FirewallState) :
    FirewallState :=
  mk_FirewallState (outbound_marks_ s) (fwmark_mask_ s) (fs_rules_ s)
    (<[urltest_tag := child_tag]> (urltest_selections_ s)).
Definition set_outbound_marks (marks : OutboundMarkMap) (s : FirewallState) : FirewallState :=
  mk_FirewallState marks (fwmark_mask_ s) (fs_rules_ s) (urltest_selections_ s).
Definition set_fwmark_mask (mask : Z) (s : FirewallState) : FirewallState :=
  mk_FirewallState (outbound_marks_ s) mask (fs_rules_ s) (urltest_selections_ s).
Definition resolve_effective_outbound (s : FirewallState) (rule : RuleState) : cstring :=
  value_or (urltest_selections_ s !! outbound_tag rule) (outbound_tag rule).

(** ** Every marked packet is routed *)

(** The selected children exist to carry traffic. *)
Definition selections_routable (cfg : Config) (sel : option (gmap cstring cstring)) : Prop :=
  ∀ t ob, find_outbound (value_or (outbounds cfg) []) (resolve_urltest_selection sel t) = Some ob →
    type ob ≠ OutboundType.IGNORE.

Lemma mark_state_outbound cfg marks sel i rule :
  selections_routable cfg sel →
  action_type (fw_rule_state cfg marks sel i rule) = RuleActionType.Mark →
  ∃ ob, ob ∈ value_or (outbounds cfg) [] ∧ is_routable (type ob) = true ∧
    rs_fwmark (fw_rule_state cfg marks sel i rule) = value_or (marks !! tag ob) 0.
Proof.
  intros Hsel. unfold fw_rule_state, resolve_route_action.
  destruct (route_rule_enabled rule); cbn; [|done].
  destruct (find_outbound _ _) as [ob|] eqn:Ef; cbn; [|done].
  apply find_outbound_Some in Ef as [Hin _].
  case_bool_decide as Hign; cbn; [done|].
  destruct (effective_outbound _ sel ob) as [eob etag] eqn:Ee.
  assert (He : eob ∈ value_or (outbounds cfg) [] ∧ type eob ≠ OutboundType.IGNORE ∧ tag eob = etag).
  { revert Ee. unfold effective_outbound. repeat case_bool_decide; [by intros [= <- <-]| |
      by intros [= <- <-]].
    destruct (find_outbound _ _) as [c|] eqn:Ec; intros [= <- <-]; [|done].
    destruct (find_outbound_Some _ _ _ Ec). split_and!; [done|by eapply Hsel|done]. }
  destruct He as (He1 & He2 & <-). case_bool_decide as Hb; cbn; [done|]. intros _.
  exists eob. split; [done|]. split; [|done]. by destruct (type eob).
Qed.

Lemma elem_of_build_fw_rule_states cfg marks sel rs :
  rs ∈ build_fw_rule_states cfg marks sel →
  ∃ i rule, config_rules cfg !! i = Some rule ∧ rs = fw_rule_state cfg marks sel i rule.
Proof.
  unfold build_fw_rule_states. intros (i & Hi)%list_elem_of_lookup.
  rewrite list_lookup_imap in Hi. apply fmap_Some in Hi as (rule & Hr & ->). eauto.
Qed.

(** ** Pruning *)

Section prune_facts.
Context {SS : StdSort} {IP : InetPton}.
Context (cfg : Config) (usage : cstring → ListConfig → ListSetUsage) (ipv6 : bool).

Lemma realized_sets_sublist name u :
  realized_sets ipv6 name u `sublist_of`
  ["kpbr4_" ++ name; "kpbr6_" ++ name; "kpbr4d_" ++ name; "kpbr6d_" ++ name].
Proof.
  unfold realized_sets.
  destruct (has_static_entries u), (has_domain_entries u), ipv6; repeat constructor.
Qed.

Lemma realized_rule_sets_sublist names cache sets :
  ∃ l, (realized_rule_sets cfg usage ipv6 names cache sets).1 = sets ++ l ∧
       l `sublist_of` (name ← names; match config_lists cfg !! name with
         | None => []
         | Some _ => ["kpbr4_" ++ name; "kpbr6_" ++ name; "kpbr4d_" ++ name; "kpbr6d_" ++ name]
         end).
Proof.
  revert cache sets. induction names as [|n names IH]; intros cache sets.
  { exists []. rewrite app_nil_r. split; [done|constructor]. }
  cbn [realized_rule_sets]. rewrite bind_cons.
  destruct (config_lists cfg !! n) as [lc|]; [|apply IH].
  destruct (match cache !! n with Some u => _ | None => _ end) as [u c'].
  destruct (IH c' (sets ++ realized_sets ipv6 n u)) as (l & -> & Hl).
  exists (realized_sets ipv6 n u ++ l). rewrite app_assoc. split; [done|].
  apply sublist_app; [apply realized_sets_sublist|done].
Qed.

(** What pruning leaves of a state. *)
Definition pruned_from (rs rs' : RuleState) : Prop :=
  rule_index rs' = rule_index rs ∧ outbound_tag rs' = outbound_tag rs ∧
  action_type rs' = action_type rs ∧ rs_fwmark rs' = rs_fwmark rs ∧
  set_names rs' `sublist_of` set_names rs.

Lemma non_skip_set_names marks sel i rule :
  action_type (fw_rule_state cfg marks sel i rule) ≠ RuleActionType.Skip →
  set_names (fw_rule_state cfg marks sel i rule) = rule_sets (config_lists cfg) rule.
Proof.
  unfold fw_rule_state.
  destruct (route_rule_enabled rule); cbn; [|done].
  destruct (is_skip _); cbn; [done|]. destruct (rd_outbound _); cbn; [|done].
  destruct (is_passthrough _); cbn; [done|].
  destruct (effective_outbound _ _ _) as [e t]. by case_bool_decide.
Qed.

Lemma fw_rule_state_index marks sel i rule :
  rule_index (fw_rule_state cfg marks sel i rule) = i.
Proof.
  unfold fw_rule_state. destruct (negb _); [done|]. destruct (is_skip _); [done|].
  destruct (rd_outbound _); [|done]. destruct (is_passthrough _); [done|].
  destruct (effective_outbound _ _ _). by case_bool_decide.
Qed.

Lemma prune_states_spec states cache states' :
  (∀ rs, rs ∈ states → ∃ rule, config_rules cfg !! rule_index rs = Some rule ∧
     (action_type rs ≠ RuleActionType.Skip → set_names rs = rule_sets (config_lists cfg) rule)) →
  prune_states cfg usage ipv6 states cache = Ok states' → Forall2 pruned_from states states'.
Proof.
  revert cache states'. induction states as [|rs states IH]; intros cache states' Hall; cbn.
  { intros [= <-]. constructor. }
  destruct (Hall rs) as (rule & Hr & Hsets); [left|].
  assert (Hall' : ∀ rs, rs ∈ states → ∃ rule, config_rules cfg !! rule_index rs = Some rule ∧
     (action_type rs ≠ RuleActionType.Skip → set_names rs = rule_sets (config_lists cfg) rule))
    by (intros; apply Hall; by right).
  case_bool_decide as Hskip.
  - intros (rest & Hrest & [= <-])%exc_bind_Ok. constructor; [by split_and!|by eapply IH].
  - rewrite Hr. intros (c & _ & H)%exc_bind_Ok.
    destruct (realized_rule_sets_sublist (route_rule_lists rule) cache []) as (l & Hl & Hsub).
    destruct (realized_rule_sets _ _ _ _ _ _) as [sets cache']. cbn in Hl. subst sets.
    apply exc_bind_Ok in H as (rest & Hrest & [= <-]). constructor; [|by eapply IH].
    split_and!; try done. cbn. rewrite Hsets by done. exact Hsub.
Qed.
End prune_facts.

(** ** The selection can be read back from the kernel *)

Section infer_facts.
Context (obs : list Outbound) (urltest : Outbound) (s : cstring).

(** A route that the inference passes over. *)
Definition skipped (r : DumpedRoute) : bool :=
  negb (bool_decide (dr_destination r = "default")) || dr_blackhole r ||
  dr_unreachable r || negb (dr_metric r =? 0).

Lemma match_children_unique r tags acc :
  (∀ t c, t ∈ tags → find_outbound obs t = Some c → route_matches_outbound r c = true → t = s) →
  acc = None ∨ acc = Some s →
  match_children obs r tags acc = inr acc ∨ match_children obs r tags acc = inr (Some s).
Proof.
  intros Hu Hacc. revert acc Hacc. induction tags as [|t tags IH]; intros acc Hacc; [by left|].
  assert (Hu' : ∀ t c, t ∈ tags → find_outbound obs t = Some c →
    route_matches_outbound r c = true → t = s) by (intros; eapply Hu; [by right|done..]).
  specialize (IH Hu'). cbn [match_children].
  destruct (find_outbound obs t) as [c|] eqn:Ef; [|by apply IH].
  destruct (route_matches_outbound r c) eqn:Em; cbn [negb]; [|by apply IH].
  assert (t = s) as -> by (eapply Hu; [left|done..]).
  destruct Hacc as [->| ->].
  - destruct (IH (Some s)) as [H|H]; [by right|by right..].
  - rewrite bool_decide_eq_true_2 by done. cbn [negb]. by apply IH; right.
Qed.

(** The matching child occurs, so it is found. *)
Lemma match_children_found r tags acc c :
  (∀ t c, t ∈ tags → find_outbound obs t = Some c → route_matches_outbound r c = true → t = s) →
  acc = None ∨ acc = Some s →
  s ∈ tags → find_outbound obs s = Some c → route_matches_outbound r c = true →
  match_children obs r tags acc = inr (Some s).
Proof.
  intros Hu Hacc Hin Hf Hm. revert acc Hacc. induction tags as [|t tags IH]; intros acc Hacc.
  { by apply elem_of_nil in Hin. }
  assert (Hu' : ∀ t c, t ∈ tags → find_outbound obs t = Some c →
    route_matches_outbound r c = true → t = s) by (intros; eapply Hu; [by right|done..]).
  cbn [match_children]. destruct (decide (t = s)) as [->|Hne].
  - rewrite Hf, Hm. cbn [negb].
    destruct (match_children_unique r tags (Some s) Hu' (or_intror eq_refl)) as [H|H];
      destruct Hacc as [->| ->]; rewrite ?bool_decide_eq_true_2 by done; exact H.
  - apply elem_of_cons in Hin as [->|Hin]; [done|]. specialize (IH Hu' Hin).
    destruct (find_outbound obs t) as [c'|] eqn:Ef'; [|by apply IH].
    destruct (route_matches_outbound r c') eqn:Em'; cbn [negb]; [|by apply IH].
    exfalso. apply Hne. eapply Hu; [left|done..].
Qed.

Lemma infer_loop_found routes sel :
  (∀ r, r ∈ routes → skipped r = true ∨
     match_children obs r (urltest_child_tags urltest) None = inr (Some s)) →
  sel = None ∨ sel = Some s →
  infer_loop obs urltest routes sel =
    if any_of (λ r, negb (skipped r)) routes then Some s else sel.
Proof.
  revert sel. induction routes as [|r routes IH]; intros sel Hall Hsel; [done|].
  assert (Hall' : ∀ r, r ∈ routes → skipped r = true ∨
     match_children obs r (urltest_child_tags urltest) None = inr (Some s))
    by (intros; apply Hall; by right).
  change (any_of _ (r :: routes)) with (negb (skipped r) || any_of (λ r, negb (skipped r)) routes).
  cbn [infer_loop]. change (_ || negb (dr_metric r =? 0)) with (skipped r).
  destruct (skipped r) eqn:Es; cbn [negb orb]; [by apply IH|].
  destruct (Hall r) as [?| ->]; [left|congruence|].
  destruct Hsel as [->| ->].
  - rewrite IH by auto. by destruct (any_of _ routes).
  - rewrite bool_decide_eq_true_2 by done. cbn [negb]. rewrite IH by auto.
    by destruct (any_of _ routes).
Qed.
End infer_facts.

Lemma elem_of_default_routes t ob avail r :
  r ∈ make_default_routes t ob avail →
  r = build_route t ob AF_INET (gateway ob) ∧ (has_value (gateway ob) = false → has_value (gateway6 ob) = false) ∨
  r = build_route t ob AF_INET6 (gateway6 ob) ∧ (has_value (gateway6 ob) = false → has_value (gateway ob) = false).
Proof.
  unfold make_default_routes. intros Hr.
  destruct (gateway ob) as [g|] eqn:E4, (gateway6 ob) as [g6|] eqn:E6;
    cbn [has_value negb andb app] in Hr.
  4: destruct (outbound_family_available ob AF_INET avail),
       (outbound_family_available ob AF_INET6 avail); cbn in Hr.
  all: repeat (apply elem_of_cons in Hr as [->|Hr]); try by apply elem_of_nil in Hr.
  all: first [left; by split|right; by split].
Qed.

Lemma default_route_matches t ob avail r :
  type ob = OutboundType.INTERFACE → has_value (interface ob) = true →
  r ∈ make_default_routes t ob avail →
  skipped (dumped_route_from_spec r) = false ∧
  route_matches_outbound (dumped_route_from_spec r) ob = true.
Proof.
  intros Ht Hi Hr. destruct (interface ob) as [i|] eqn:Ei; [|done].
  unfold route_matches_outbound. rewrite Ht, Ei.
  apply elem_of_default_routes in Hr as [[-> H]|[-> H]]; (split; [reflexivity|]); cbn;
    rewrite Ei; cbn.
  - destruct (gateway ob); cbn; by rewrite !bool_decide_eq_true_2.
  - destruct (gateway6 ob) eqn:E6; cbn; by rewrite !bool_decide_eq_true_2.
Qed.

Lemma closure_routes_skipped t ob avail r :
  r ∈ make_family_closure_routes t ob avail → skipped (dumped_route_from_spec r) = true.
Proof.
  unfold make_family_closure_routes. rewrite elem_of_app.
  destruct (negb _), (negb _); rewrite ?list_elem_of_singleton, ?elem_of_nil;
    intros [?|?]; simplify_eq; done.
Qed.

Lemma candidate_routes_skipped reach avail t m children r :
  1 ≤ m → m + Z.of_nat (length children) < 2 ^ 32 →
  r ∈ candidate_routes reach avail t m children → skipped (dumped_route_from_spec r) = true.
Proof.
  revert m. induction children as [|c children IH]; intros m Hm Hlen; [by intros ?%elem_of_nil|].
  cbn [length] in Hlen. cbn [candidate_routes].
  destruct (negb _); [apply IH; lia|]. destruct (negb _); [apply IH; lia|].
  intros [(r' & -> & _)%list_elem_of_fmap|Hr]%elem_of_app.
  - unfold skipped. cbn. assert ((m =? 0) = false) as -> by lia. by rewrite orb_true_r.
  - revert Hr. rewrite wrap_small by lia. apply IH; lia.
Qed.

(** The tables of a plan as a dump shows them. *)
Definition dumped (routes : list RouteSpec) : list DumpedRoute :=
  dumped_route_from_spec <$> routes.

Lemma other_interface_no_match t ob avail r c :
  interface c ≠ interface ob → has_value (interface ob) = true →
  r ∈ make_default_routes t ob avail →
  route_matches_outbound (dumped_route_from_spec r) c = false.
Proof.
  intros Hne Hi Hr. destruct (interface ob) as [i|] eqn:Ei; [|done].
  assert (Hri : rs_interface r = Some i).
  { apply elem_of_default_routes in Hr as [[-> _]|[-> _]]; cbn; by rewrite Ei. }
  unfold route_matches_outbound. cbn. rewrite Hri.
  destruct (_ || _ || _); [done|]. destruct (negb _); [done|].
  by rewrite bool_decide_eq_false_2.
Qed.

Section recover.
Context (cfg : Config) (reach : OutboundReachabilityFn) (sel : option (gmap cstring cstring)).
Context (avail : OutboundFamilyAvailabilityFn) (ipv6 : bool) (u c : Outbound) (t : Z).
Abbreviation obs := (value_or (outbounds cfg) []).
Abbreviation s := (resolve_urltest_selection sel (tag u)).

(** A configuration in which the children of [u] can be told apart by their
    interface and [c] is the selected one. *)
Record recoverable : Prop := {
  rec_selected : s ≠ [];
  rec_found : find_outbound obs s = Some c;
  rec_found_sorted : find_outbound (sorted_outbounds cfg) s = Some c;
  rec_type : type c = OutboundType.INTERFACE;
  rec_interface : has_value (interface c) = true;
  rec_reachable : reachable reach c = true;
  rec_child : s ∈ urltest_child_tags u;
  rec_distinct t' c' : t' ∈ urltest_child_tags u → t' ≠ s → find_outbound obs t' = Some c' →
    interface c' ≠ interface c;
  rec_few : Z.of_nat (length (ordered_urltest_children (sorted_outbounds cfg) u)) < 2 ^ 32 - 1;
}.

Lemma recover_routes (Hrec : recoverable) r :
  r ∈ urltest_routes cfg reach sel avail t u →
  r ∈ make_default_routes t c avail ∨ skipped (dumped_route_from_spec r) = true.
Proof.
  unfold urltest_routes. rewrite bool_decide_eq_false_2 by apply Hrec.
  rewrite (rec_found_sorted Hrec), (rec_type Hrec), (rec_reachable Hrec).
  rewrite bool_decide_eq_true_2 by done. cbn [andb].
  intros [[Hd|Hc]%elem_of_app|Hc]%elem_of_app; [by left|..]; right.
  - by eapply closure_routes_skipped.
  - eapply candidate_routes_skipped; [..|exact Hc]; [lia|]. pose proof (rec_few Hrec). lia.
Qed.

Lemma recover_selection (Hrec : recoverable) :
  enabled_routes ipv6 (make_default_routes t c avail) ≠ [] →
  infer_urltest_selection_from_routes obs u
    (dumped (enabled_routes ipv6 (urltest_routes cfg reach sel avail t u))) = Some s.
Proof.
  intros Hsome. unfold infer_urltest_selection_from_routes.
  assert (Hen : ∀ l r, r ∈ enabled_routes ipv6 l → r ∈ l).
  { intros l r. unfold enabled_routes. rewrite !list_elem_of_In, filter_In. tauto. }
  rewrite (infer_loop_found obs u s); [|clear Hsome|by left].
  - assert (Hany : any_of (λ r, negb (skipped r))
      (dumped (enabled_routes ipv6 (urltest_routes cfg reach sel avail t u))) = true);
      [|by rewrite Hany].
    destruct (enabled_routes ipv6 (make_default_routes t c avail)) as [|r l] eqn:El; [done|].
    assert (Hr : r ∈ enabled_routes ipv6 (make_default_routes t c avail))
      by (rewrite El; left).
    pose proof (Hen _ _ Hr) as Hd.
    destruct (default_route_matches t c avail r (rec_type Hrec) (rec_interface Hrec) Hd) as [Hs _].
    apply any_of_true. exists (dumped_route_from_spec r). rewrite Hs. split; [|done].
    apply list_elem_of_fmap_2. revert Hr. unfold enabled_routes.
    rewrite !list_elem_of_In, !filter_In. intros [_ Hf]. split; [|done].
    apply list_elem_of_In. unfold urltest_routes. rewrite bool_decide_eq_false_2 by apply Hrec.
    rewrite (rec_found_sorted Hrec), (rec_type Hrec), (rec_reachable Hrec).
    rewrite bool_decide_eq_true_2 by done. cbn [andb].
    apply elem_of_app. left. apply elem_of_app. by left.
  - intros d (r & -> & Hr%Hen)%list_elem_of_fmap.
    destruct (recover_routes Hrec r Hr) as [Hd|Hs]; [right|by left].
    eapply match_children_found; [|by left|apply Hrec|apply Hrec|].
    + intros t' c' Ht' Hf' Hm. destruct (decide (t' = s)) as [|Hne]; [done|].
      rewrite (other_interface_no_match t c avail r c') in Hm; [done| |apply Hrec|done].
      by eapply (rec_distinct Hrec).
    + by apply (default_route_matches t c avail r (rec_type Hrec) (rec_interface Hrec) Hd).
Qed.
End recover.

Lemma rule_sets_elem lists_map rule x :
  x ∈ rule_sets lists_map rule →
  ∃ name, name ∈ route_rule_lists rule ∧
    (x = "kpbr4_" ++ name ∨ x = "kpbr6_" ++ name ∨ x = "kpbr4d_" ++ name ∨ x = "kpbr6d_" ++ name).
Proof.
  unfold rule_sets. intros (name & Hx & Hn)%list_elem_of_bind. exists name. split; [done|].
  destruct (lists_map !! name); [|by apply elem_of_nil in Hx].
  rewrite !elem_of_cons, elem_of_nil in Hx. tauto.
Qed.

Lemma is_valid_tag_length n : is_valid_tag n = true → (length n ≤ MAX_TAG_LEN)%nat.
Proof.
  unfold is_valid_tag. destruct (bool_decide _ || _) eqn:E; [done|]. intros _.
  apply orb_false_iff in E as [_ E]. by apply Nat.ltb_ge.
Qed.

(** ** Properties *)

(** Pruning the rule states to the sets that are realised keeps every
    state, its action and its mark, and only drops set names: what remains is
    a subsequence of the names the rule was built with. *)
Theorem pruning_only_drops_sets {SS : StdSort} {IP : InetPton} cfg marks sel usage ipv6 states' :
  prune_fw_rule_states_to_realized_sets cfg usage ipv6 (build_fw_rule_states cfg marks sel) =
    Ok states' →
  Forall2 pruned_from (build_fw_rule_states cfg marks sel) states'.
Proof.
  apply prune_states_spec. intros rs (i & rule & Hr & ->)%elem_of_build_fw_rule_states.
  exists rule. rewrite fw_rule_state_index. split; [done|]. apply non_skip_set_names.
Qed.

(** The selection of a urltest can be read back from the kernel: when its
    children use distinct interfaces and the selected child is reachable in an
    enabled family, the routes planned for the urltest's table identify it. *)
Theorem selection_is_recoverable cfg reach sel avail ipv6 u c t :
  recoverable cfg reach sel u c →
  enabled_routes ipv6 (make_default_routes t c avail) ≠ [] →
  infer_urltest_selection_from_routes (value_or (outbounds cfg) []) u
    (dumped (enabled_routes ipv6 (urltest_routes cfg reach sel avail t u))) =
  Some (resolve_urltest_selection sel (tag u)).
Proof. apply recover_selection. Qed.

(** A rule whose lists have valid names only refers to sets whose names
    fit into the 31 characters ipset allows. *)
Theorem set_names_fit lists_map rule :
  Forall (λ n, is_valid_tag n = true) (route_rule_lists rule) →
  Forall (λ x, (length x ≤ IPSET_MAX_NAME)%nat) (rule_sets lists_map rule).
Proof.
  intros HF. apply Forall_forall. intros x (n & Hn & Hx)%rule_sets_elem.
  rewrite Forall_forall in HF. pose proof (is_valid_tag_length n (HF n Hn)) as Hlen.
  unfold MAX_TAG_LEN, IPSET_MAX_NAME, IPSET_PREFIX_LEN in *.
  destruct Hx as [->|[->|[->| ->]]]; rewrite length_app; cbn; lia.
Qed.

(** *** Witnesses *)

Definition w_rule_on (l t : cstring) : RouteRule :=
  Build_RouteRule None None None None (Some [l]) t None None None.
Definition w_list : ListConfig := Build_ListConfig None None None None None None.

Definition w_urltest : Outbound :=
  Build_Outbound None None None None None None
    (Some [Build_OutboundGroup [str "a"; str "b"] None]) None None None None None "auto" None
    OutboundType.URLTEST None.

Definition w_fw_config : Config :=
  Build_Config None None None None None (Some {[ str "ru" := w_list ]}) None
    (Some [w_interface "a" false; w_interface "b" false; w_urltest])
    (Some (Build_RouteConfig None (Some [w_rule_on "ru" "auto"]))).

Definition w_selection : option (gmap cstring cstring) := Some {[ str "auto" := str "b" ]}.

Definition w_fw_marks : OutboundMarkMap :=
  from_exc ∅ (@allocate_outbound_marks insertion_StdSort default_FwmarkConfig
    [w_interface "a" false; w_interface "b" false; w_urltest]).

Definition w_state : RuleState :=
  fw_rule_state w_fw_config w_fw_marks w_selection 0 (w_rule_on "ru" "auto").

Lemma w_selections_routable : selections_routable w_fw_config w_selection.
Proof.
  intros t ob. unfold resolve_urltest_selection, w_selection.
  destruct (decide (t = str "auto")) as [->|Hne].
  - rewrite lookup_singleton_eq. vm_compute. by intros [= <-].
  - rewrite lookup_singleton_ne by done. vm_compute. by intros [=].
Qed.

Definition w_usage : cstring → ListConfig → ListSetUsage := λ _ _, Build_ListSetUsage true false 0.

Definition w_pruned : list RuleState :=
  from_exc [] (@prune_fw_rule_states_to_realized_sets insertion_StdSort w_inet w_fw_config
    w_usage false (build_fw_rule_states w_fw_config w_fw_marks w_selection)).

Lemma pruning_only_drops_sets_witness :
  Forall2 pruned_from (build_fw_rule_states w_fw_config w_fw_marks w_selection) w_pruned.
Proof.
  apply (@pruning_only_drops_sets insertion_StdSort w_inet w_fw_config w_fw_marks w_selection
           w_usage false).
  apply (from_exc_Ok []). vm_compute. reflexivity.
Defined.

Lemma selection_is_recoverable_witness :
  infer_urltest_selection_from_routes (value_or (outbounds w_fw_config) []) w_urltest
    (dumped (enabled_routes true
       (urltest_routes w_fw_config None w_selection None 150 w_urltest))) = Some (str "b").
Proof.
  apply (selection_is_recoverable w_fw_config None w_selection None true w_urltest
           (w_interface "b" false) 150); [|vm_compute; discriminate].
  split; try (vm_compute; (reflexivity || discriminate)).
  - right. left.
  - intros t' c'. change (urltest_child_tags w_urltest) with [str "a"; str "b"].
    assert (resolve_urltest_selection w_selection (tag w_urltest) = str "b") as ->
      by (vm_compute; reflexivity).
    rewrite !elem_of_cons, elem_of_nil. intros [->|[->|[]]] Hne; [|by destruct Hne].
    vm_compute. by intros [= <-].
Defined.

Lemma set_names_fit_witness :
  Forall (λ x, (length x ≤ IPSET_MAX_NAME)%nat)
    (rule_sets (config_lists w_fw_config) (w_rule_on "ru" "auto")).
Proof.
  apply (set_names_fit (config_lists w_fw_config) (w_rule_on "ru" "auto")).
  repeat constructor.
Defined.
