(* ===== verification/ListParser.v ===== *)
(** * The list parser (src/src/config/list_parser.cpp)

    Classification of list entries into addresses, CIDRs and domains, the
    normalisation of domains, and the line-by-line parser with its bounded
    number of warnings.  [inet_pton] belongs to the C library. *)

From S2P Require Import Prelude CppString Config PortSpec Fwmark AddrSpec.

Local Open Scope Z_scope.

Module EntryType.
Inductive t := Ip | Cidr | Domain.
#[global] Instance t_eq_dec : EqDecision t.
Proof. solve_decision. Defined.
End EntryType.

(** ' ', '\t' and '\r' *)
Definition is_padding (c : ascii) : bool := (ord c =? 32) || (ord c =? 9) || (ord c =? 13).
Definition trim (sv : cstring) : cstring := trim_by is_padding sv.

Definition kMaxLoggedBytes : nat := 256.

Definition escape (c : ascii) : cstring :=
  let ch := ord c in
  if ch =? 92 then [c; c]
  else if ch =? 39 then [chr 92; c]
  else if ch =? 10 then [chr 92; "n"%char]
  else if ch =? 13 then [chr 92; "r"%char]
  else if ch =? 9 then [chr 92; "t"%char]
  else if (ch <? 32) || (ch =? 127) then
    [chr 92; "x"%char; hex_digit_char (Z.shiftr ch 4); hex_digit_char (Z.land ch 15)]
  else [c].

Definition format_entry_for_log (entry : cstring) : cstring :=
  [chr 39] ++ (c ← take kMaxLoggedBytes entry; escape c) ++
  (if (kMaxLoggedBytes <? length entry)%nat then [chr 226; chr 128; chr 166] else []) ++ [chr 39].

(** The loop of [is_ipv4]: [missing] octets are still to come and [rest] is the text
    from [pos], [None] once [pos] is past the end. *)
Fixpoint is_ipv4_loop (missing : nat) (rest : option cstring) : bool :=
  match rest, missing with
  | None, O => true
  | None, S _ | Some _, O => false
  | Some s, S missing =>
      let dot := find_char "." s in
      let part := match dot with None => s | Some i => take i s end in
      if bool_decide (part = []) || (3 <? length part)%nat then false
      else match whole (from_chars_int part) with
      | None => false
      | Some val =>
          if (val <? 0) || (255 <? val) then false
          else is_ipv4_loop missing (match dot with None => None | Some i => Some (drop (i + 1) s) end)
      end
  end.

Definition is_ipv4 (s : cstring) : bool := is_ipv4_loop 4 (Some s).

Section parser.
Context {IP : InetPton}.

Definition is_ipv6 (s : cstring) : bool :=
  if bool_decide (s = []) then false
  else match find_char "/" s, find_char "%" s with
  | None, None => is_inet AF_INET6 s
  | _, _ => false
  end.

(** The common shape of [is_cidr_v4] and [is_cidr_v6]. *)
Definition is_cidr_with (is_ip : cstring → bool) (max_digits : nat) (max_prefix : Z)
    (s : cstring) : bool :=
  match find_char "/" s with
  | None => false
  | Some slash =>
      let ip_part := take slash s in
      let prefix_part := drop (slash + 1) s in
      if negb (is_ip ip_part) then false
      else if bool_decide (prefix_part = []) || (max_digits <? length prefix_part)%nat then false
      else match whole (from_chars_int prefix_part) with
      | None => false
      | Some prefix => (0 <=? prefix) && (prefix <=? max_prefix)
      end
  end.

Definition is_cidr_v4 (s : cstring) : bool := is_cidr_with is_ipv4 2 32 s.
Definition is_cidr_v6 (s : cstring) : bool := is_cidr_with is_ipv6 3 128 s.

Definition domain_char (c : ascii) : bool :=
  isalpha c || isdigit c || ascii_eqb c "-" || ascii_eqb c "_".

Definition label_ok (label : cstring) : bool :=
  negb (bool_decide (label = []) || (63 <? length label)%nat) &&
  negb (bool_decide (head label = Some "-"%char) || bool_decide (last label = Some "-"%char)) &&
  forallb domain_char label.

(** The loop over the labels; [None] is [return std::nullopt]. *)
Fixpoint domain_loop (fuel : nat) (s : cstring) (has_alpha : bool) : option bool :=
  match fuel with
  | O => None
  | S fuel =>
      match s with
      | [] => Some has_alpha
      | _ =>
          let dot := find_char "." s in
          let label := match dot with None => s | Some i => take i s end in
          if negb (label_ok label) then None
          else
            let has_alpha := has_alpha || any_of isalpha label in
            match dot with
            | None => Some has_alpha
            | Some i => domain_loop fuel (drop (i + 1) s) has_alpha
            end
      end
  end.

Definition strip_wildcard (s : cstring) : cstring :=
  match s with
  | a :: b :: rest => if ascii_eqb a "*" && ascii_eqb b "." then rest else s
  | _ => s
  end.
Definition strip_root_dot (s : cstring) : cstring :=
  if bool_decide (last s = Some "."%char) then take (length s - 1) s else s.

Definition normalize_domain (s : cstring) : option cstring :=
  if bool_decide (s = []) then None
  else
    let s := strip_root_dot (strip_wildcard s) in
    if bool_decide (s = []) || bool_decide (last s = Some "."%char) || (253 <? length s)%nat
    then None
    else match domain_loop (S (length s)) s false with
    | Some true => Some s
    | _ => None
    end.

(** The entry dispatched to the visitor, if any. *)
Definition classify_entry (entry : cstring) : option (EntryType.t * cstring) :=
  if is_cidr_v4 entry || is_cidr_v6 entry then Some (EntryType.Cidr, entry)
  else if is_ipv4 entry || is_ipv6 entry then Some (EntryType.Ip, entry)
  else match normalize_domain entry with
  | Some domain => Some (EntryType.Domain, domain)
  | None => None
  end.

Record ParseContext := mk_ParseContext { log_invalid_entries : bool; invalid_entry_count : nat }.

(** What a visitor has received and what was logged. *)
Record Output := mk_Output { entries : list (EntryType.t * cstring); warnings : list cstring }.

Definition kMaxDetailedInvalidEntries : nat := 5.

Definition source_or_default (source_name : cstring) : cstring :=
  if bool_decide (source_name = []) then "list source" else source_name.

Definition too_many_warning (source_name : cstring) : cstring :=
  "Too many invalid list entries in " ++ source_or_default source_name ++
  "; further entries will be skipped without warnings".
Definition invalid_warning (value source_name : cstring) (line_number : nat) : cstring :=
  "Skipping invalid list entry " ++ format_entry_for_log value ++ " in " ++
  source_or_default source_name ++ " at line " ++ to_string (Z.of_nat line_number).

(** [parse_line] with a context. *)
Definition parse_line (line source_name : cstring) (line_number : nat)
    (s : ParseContext * Output) : ParseContext * Output :=
  let '(ctx, out) := s in
  let value := trim line in
  if bool_decide (value = []) || bool_decide (head value = Some "#"%char) then (ctx, out)
  else match classify_entry value with
  | Some e => (ctx, mk_Output (entries out ++ [e]) (warnings out))
  | None =>
      if log_invalid_entries ctx then
        let count := S (invalid_entry_count ctx) in
        let ctx := mk_ParseContext true count in
        if (S kMaxDetailedInvalidEntries <? count)%nat then (ctx, out)
        else if (count =? S kMaxDetailedInvalidEntries)%nat then
          (ctx, mk_Output (entries out) (warnings out ++ [too_many_warning source_name]))
        else
          (ctx, mk_Output (entries out)
                  (warnings out ++ [invalid_warning value source_name line_number]))
      else (ctx, out)
  end.

Fixpoint parse_lines (lines : list cstring) (source_name : cstring) (line_number : nat)
    (s : ParseContext * Output) : ParseContext * Output :=
  match lines with
  | [] => s
  | line :: lines =>
      parse_lines lines source_name (S line_number) (parse_line line source_name (S line_number) s)
  end.

Definition stream_parse (input source_name : cstring) : Output :=
  (parse_lines (getline_all (chr 10) input) source_name 0
     (mk_ParseContext true 0, mk_Output [] [])).2.

(** ** Splitting at the first separator *)

Lemma split_on_find sep s :
  split_on sep s = match find_char sep s with
                   | None => [s]
                   | Some i => take i s :: split_on sep (drop (S i) s)
                   end.
Proof.
  destruct (find_char sep s) as [i|] eqn:E.
  - apply find_char_Some in E as [Hs Hn]. unfold split_on. rewrite Hs at 1.
    by rewrite split_loop_app.
  - apply find_char_None in E. unfold split_on. by rewrite split_loop_last.
Qed.

(** ** IPv4 *)

(** One part of a dotted quad as the parser accepts it. *)
Definition octet (part : cstring) : bool :=
  negb (bool_decide (part = []) || (3 <? length part)%nat) &&
  match whole (from_chars_int part) with
  | None => false
  | Some val => negb ((val <? 0) || (255 <? val))
  end.

Lemma is_ipv4_loop_step n s :
  is_ipv4_loop (S n) (Some s) =
  octet (match find_char "." s with None => s | Some i => take i s end) &&
  is_ipv4_loop n (match find_char "." s with None => None | Some i => Some (drop (S i) s) end).
Proof.
  cbn [is_ipv4_loop]. unfold octet. destruct (_ || _); cbn [negb andb]; [done|].
  destruct (whole _) as [v|]; cbn [andb]; [|done].
  destruct (_ || _); cbn [negb andb]; [done|].
  destruct (find_char "." s) as [i|]; [|done]. by rewrite Nat.add_1_r.
Qed.

Lemma is_ipv4_loop_spec n s :
  is_ipv4_loop (S n) (Some s) = true ↔
  length (split_on "." s) = S n ∧ forallb octet (split_on "." s) = true.
Proof.
  revert s. induction n as [|n IH]; intros s; rewrite is_ipv4_loop_step, split_on_find;
    destruct (find_char "." s) as [i|]; cbn [length forallb]; rewrite ?andb_true_iff.
  - cbn. split; [naive_solver|]. intros [H _]. destruct (split_on "." (drop (S i) s)) eqn:E; [|done].
    by destruct (split_loop_ne "." [] (drop (S i) s)).
  - cbn. naive_solver.
  - rewrite IH. naive_solver lia.
  - cbn. naive_solver.
Qed.

(** What [std::from_chars] for [int] makes of a whole text. *)
Lemma whole_from_chars_int s v :
  whole (from_chars_int s) = Some v ↔
  in_int v = true ∧ ∃ ds, ds ≠ [] ∧ forallb isdigit ds = true ∧
    ((s = ds ∧ v = dec_value 0 ds) ∨ (s = "-"%char :: ds ∧ v = - dec_value 0 ds)).
Proof.
  unfold from_chars_int.
  assert (Hd : ∀ (neg : bool) body, whole (if bool_decide (take_while isdigit body = []) then None
      else if in_int ((if neg then -1 else 1) * dec_value 0 (take_while isdigit body))
           then Some ((if neg then -1 else 1) * dec_value 0 (take_while isdigit body),
                      drop_while isdigit body) else None) = Some v ↔
    in_int v = true ∧ body ≠ [] ∧ forallb isdigit body = true ∧
    v = (if neg then -1 else 1) * dec_value 0 body).
  { intros neg body. case_bool_decide as Ht; cbn.
    - split; [done|]. intros (_ & Hne & Hall & _). by rewrite take_while_all in Ht.
    - destruct (in_int _) eqn:Ei; cbn.
      + destruct (drop_while isdigit body) as [|c r] eqn:Ed.
        * apply drop_while_nil in Ed. rewrite take_while_all in * by done. naive_solver.
        * split; [done|]. intros (_ & _ & Hall & _). by rewrite drop_while_all in Ed.
      + split; [done|]. intros (Hi & _ & Hall & ->). rewrite take_while_all in Ei by done.
        congruence. }
  assert (Hm : ∀ ds, forallb isdigit ds = true → head ds ≠ Some "-"%char).
  { intros [|c ds]; [done|]. cbn. by intros [Hc _]%andb_true_iff [= ->]. }
  destruct s as [|c s]; cbn -[take_while drop_while].
  - rewrite (Hd false). naive_solver.
  - destruct (ascii_eqb c "-") eqn:Ec; breflect.
    + subst c. rewrite (Hd true). split.
      * intros (Hi & Hne & Hall & ->). split; [done|]. exists s. split_and!; [done..|].
        right. split; [done|lia].
      * intros (Hi & ds & Hne & Hall & [[<- _]|[[= <-] ->]]); [by apply Hm in Hall|].
        by split_and!.
    + rewrite (Hd false). split.
      * intros (Hi & Hne & Hall & ->). split; [done|]. exists (c :: s). split_and!; [done..|].
        left. split; [done|lia].
      * intros (Hi & ds & Hne & Hall & [[<- ->]|[[= -> <-] _]]); [|done].
        split_and!; try done. lia.
Qed.

(** A part of the text form of an IPv4 address: one to three digits of value
    at most 255 -- or a zero with a minus sign. *)
Definition octet_text (part : cstring) : Prop :=
  ∃ ds, ds ≠ [] ∧ forallb isdigit ds = true ∧
    ((part = ds ∧ (length ds ≤ 3)%nat ∧ dec_value 0 ds ≤ 255) ∨
     (part = "-"%char :: ds ∧ (length ds ≤ 2)%nat ∧ dec_value 0 ds = 0)).

Lemma octet_correct part : octet part = true ↔ octet_text part.
Proof.
  unfold octet, octet_text. pose proof (whole_from_chars_int part) as Hw.
  assert (Hnn : ∀ ds, forallb isdigit ds = true → 0 ≤ dec_value 0 ds)
    by (intros; by apply dec_value_mono).
  destruct (whole (from_chars_int part)) as [v|].
  - destruct (proj1 (Hw v) eq_refl) as (_ & ds & Hne & Hd & Hcase).
    specialize (Hnn ds Hd). breflect.
    destruct Hcase as [[-> ->]|[-> ->]]; cbn [length]; split.
    + intros [[_ Hl] [H0 H1]]. exists ds. split_and!; [done..|]. left. split_and!; [done|lia|lia].
    + intros (ds' & Hne' & Hd' & [(-> & Hl & Hv)|(-> & _)]); [|done]. naive_solver lia.
    + intros [[_ Hl] [H0 H1]]. exists ds. split_and!; [done..|]. right. split_and!; [done|lia|lia].
    + intros (ds' & Hne' & Hd' & [(<- & _)|([= <-] & Hl & Hv)]); [done|].
      split; [split; [done|lia]|lia].
  - rewrite andb_false_r. split; [done|]. intros (ds & Hne & Hd & Hcase). exfalso.
    specialize (Hnn ds Hd).
    destruct Hcase as [(-> & _ & Hv)|(-> & _ & Hv)].
    + destruct (Hw (dec_value 0 ds)) as [_ H]. specialize (H ltac:(split; [unfold in_int, INT_MIN, INT_MAX; breflect; lia|]; exists ds; auto)). done.
    + destruct (Hw (- dec_value 0 ds)) as [_ H]. specialize (H ltac:(split; [unfold in_int, INT_MIN, INT_MAX; breflect; lia|]; exists ds; auto)). done.
Qed.

(** ** Domains *)

(** A list of labels separated by dots, with a letter somewhere. *)
Definition valid_domain (d : cstring) : Prop :=
  (length d ≤ 253)%nat ∧ forallb label_ok (split_on "." d) = true ∧ any_of isalpha d = true.

Lemma label_ok_ne : label_ok [] = false.
Proof. done. Qed.

Lemma any_of_app {A} (f : A → bool) l l' : any_of f (l ++ l') = any_of f l || any_of f l'.
Proof. apply existsb_app. Qed.

Lemma domain_loop_spec fuel s ha :
  (length s < fuel)%nat → s ≠ [] → last s ≠ Some "."%char →
  domain_loop fuel s ha =
  if forallb label_ok (split_on "." s) then Some (ha || any_of isalpha s) else None.
Proof.
  revert s ha. induction fuel as [|fuel IH]; intros s ha Hf Hne Hl; [lia|].
  rewrite split_on_find. cbn [domain_loop]. destruct s as [|c0 s0]; [done|].
  set (s := c0 :: s0) in *.
  destruct (find_char "." s) as [i|] eqn:E; cbn [forallb].
  - rewrite Nat.add_1_r. destruct (label_ok (take i s)); cbn [negb andb]; [|done].
    apply find_char_Some in E as [Hs Hn].
    assert (Hrest : drop (S i) s ≠ []).
    { intros Hr. rewrite Hr in Hs. apply Hl. rewrite Hs. by rewrite last_snoc. }
    rewrite IH; [| |done|].
    + assert (Ha : any_of isalpha s = any_of isalpha (take i s) || any_of isalpha (drop (S i) s))
        by (rewrite Hs at 1; by rewrite any_of_app).
      by rewrite Ha, orb_assoc.
    + rewrite length_drop. assert (0 < length s)%nat by (unfold s; cbn; lia). lia.
    + intros Hd. apply Hl. rewrite Hs. rewrite last_app. by rewrite last_cons, Hd.
  - by destruct (label_ok s).
Qed.

Lemma label_chars s c : forallb label_ok (split_on "." s) = true → c ∈ s →
  c = "."%char ∨ domain_char c = true.
Proof.
  intros Hall Hc. pose proof (join_split_loop "." [] s) as Hj. cbn [app] in Hj.
  rewrite <-Hj in Hc. fold (split_on "." s) in Hc. clear Hj. revert Hall Hc.
  induction (split_on "." s) as [|l ls IH]; cbn; [by intros _ ?%elem_of_nil|].
  intros [Hl Hls]%andb_true_iff Hc.
  assert (Hlc : c ∈ l → domain_char c = true).
  { intros Hin. unfold label_ok in Hl. apply andb_true_iff in Hl as [_ Hl].
    rewrite forallb_elem in Hl. auto. }
  destruct ls as [|l' ls]; [by auto|].
  apply elem_of_app in Hc as [Hc|[->|Hc]%elem_of_cons]; [auto|by left|].
  by apply IH.
Qed.

Lemma valid_domain_ne d : valid_domain d → d ≠ [].
Proof. intros (_ & _ & Ha) ->. done. Qed.

Lemma valid_domain_last d : valid_domain d → last d ≠ Some "."%char.
Proof.
  intros (_ & Hl & _) [d' ->]%last_Some.
  assert (Hs : [] ∈ split_on "." (d' ++ ["."%char])).
  { clear. unfold split_on. generalize ([] : cstring) at 2. induction d' as [|c d' IH]; intros cur; cbn.
    - right. left.
    - destruct (ascii_eqb c "."); [right|]; apply IH. }
  rewrite forallb_elem in Hl. by apply Hl in Hs.
Qed.

Lemma valid_domain_no_star d : valid_domain d → head d ≠ Some "*"%char.
Proof.
  intros (_ & Hl & _). destruct d as [|c d]; [done|]. intros [= ->].
  destruct (label_chars ("*"%char :: d) "*" Hl) as [|]; [left|done|done].
Qed.

Lemma strip_root_dot_snoc d : strip_root_dot (d ++ ["."%char]) = d.
Proof.
  unfold strip_root_dot. rewrite last_snoc, bool_decide_eq_true_2 by done.
  rewrite length_app. cbn. replace (length d + 1 - 1)%nat with (length d) by lia.
  by rewrite take_app_length.
Qed.

Lemma strip_root_dot_id d : last d ≠ Some "."%char → strip_root_dot d = d.
Proof. intros H. unfold strip_root_dot. by rewrite bool_decide_eq_false_2. Qed.

Lemma strip_root_dot_cases s d :
  strip_root_dot s = d → s = d ∨ s = d ++ ["."%char].
Proof.
  unfold strip_root_dot. case_bool_decide as H; [|by left].
  apply last_Some in H as [s' ->]. rewrite length_app. cbn.
  replace (length s' + 1 - 1)%nat with (length s') by lia.
  rewrite take_app_length. intros ->. by right.
Qed.

Lemma strip_wildcard_id s : head s ≠ Some "*"%char → strip_wildcard s = s.
Proof.
  intros H. unfold strip_wildcard. destruct s as [|a [|b r]]; [done..|].
  assert (ascii_eqb a "*" = false) as -> by (apply ascii_eqb_neq; naive_solver). done.
Qed.

Lemma strip_wildcard_cases s d : strip_wildcard s = d → s = d ∨ s = str "*." ++ d.
Proof.
  unfold strip_wildcard. destruct s as [|a [|b r]]; [by left..|].
  destruct (ascii_eqb a "*") eqn:E1, (ascii_eqb b ".") eqn:E2; cbn; try by left.
  apply ascii_eqb_eq in E1 as ->, E2 as ->. intros ->. by right.
Qed.

(** The accepted spellings of a domain. *)
Definition spelling (d s : cstring) : Prop :=
  s = d ∨ s = d ++ ["."%char] ∨ s = str "*." ++ d ∨ s = str "*." ++ d ++ ["."%char].

Lemma strip_spelling d s :
  valid_domain d → spelling d s → strip_root_dot (strip_wildcard s) = d.
Proof.
  intros Hv Hs. pose proof (valid_domain_last d Hv) as Hl.
  pose proof (valid_domain_no_star d Hv) as Hh. pose proof (valid_domain_ne d Hv) as Hne.
  destruct Hs as [->|[->|[->| ->]]].
  - by rewrite strip_wildcard_id, strip_root_dot_id.
  - rewrite strip_wildcard_id, strip_root_dot_snoc; [done|]. by destruct d.
  - cbn. by apply strip_root_dot_id.
  - cbn. apply strip_root_dot_snoc.
Qed.

Lemma normalize_domain_Some s d :
  normalize_domain s = Some d ↔ valid_domain d ∧ spelling d s.
Proof.
  unfold normalize_domain. split.
  - case_bool_decide as Hs; [done|]. set (d' := strip_root_dot (strip_wildcard s)).
    destruct (_ || _ || _) eqn:Eb; [done|]. breflect. destruct Eb as [[Hne Hl] Hlen].
    rewrite domain_loop_spec by (done || lia). cbn [orb].
    destruct (forallb label_ok _) eqn:Ef; [|done].
    destruct (any_of isalpha d') eqn:Ea; [|done]. intros [= <-].
    split; [split_and!; [lia|done|done]|].
    destruct (strip_wildcard_cases s _ eq_refl) as [E1|E1],
      (strip_root_dot_cases (strip_wildcard s) d' eq_refl) as [E2|E2];
      rewrite E2 in E1; unfold spelling; auto.
  - intros [Hv Hsp]. rewrite (strip_spelling d s Hv Hsp).
    pose proof (valid_domain_last d Hv) as Hl. pose proof (valid_domain_ne d Hv) as Hne.
    destruct Hv as (Hlen & Hf & Ha).
    rewrite bool_decide_eq_false_2.
    2:{ intros ->. destruct Hsp as [?|[?|[?|?]]]; [congruence|by destruct d|done|done]. }
    rewrite !bool_decide_eq_false_2 by done. cbn [orb].
    rewrite (proj2 (Nat.ltb_ge 253 (length d))) by lia.
    rewrite domain_loop_spec by (done || lia). by rewrite Hf, Ha.
Qed.

(** ** The line parser *)

(** The values of the lines that are neither blank nor comments. *)
Definition significant (lines : list cstring) : list cstring :=
  List.filter (λ v, negb (bool_decide (v = []) || bool_decide (head v = Some "#"%char)))
    (trim <$> lines).

Lemma parse_lines_spec lines src n c out :
  let '(c', out') := parse_lines lines src n (mk_ParseContext true c, out) in
  entries out' = entries out ++ omap classify_entry (significant lines) ∧
  log_invalid_entries c' = true ∧
  (length (warnings out') + Nat.min c 6 = length (warnings out) + Nat.min (invalid_entry_count c') 6)%nat ∧
  (c ≤ invalid_entry_count c')%nat.
Proof.
  revert n c out. induction lines as [|line lines IH]; intros n c out; cbn [parse_lines].
  { cbn. rewrite app_nil_r. split_and!; auto; lia. }
  unfold parse_line, significant. cbn [fmap list_fmap List.filter].
  destruct (_ || _) eqn:Eb; cbn [negb]; [apply IH|]. cbn [omap list_omap].
  destruct (classify_entry (trim line)) as [e|].
  - specialize (IH (S n) c (mk_Output (entries out ++ [e]) (warnings out))).
    destruct (parse_lines _ _ _ _) as [c' out']. destruct IH as (-> & H). cbn [entries warnings] in *.
    by rewrite <-app_assoc.
  - cbn [log_invalid_entries invalid_entry_count].
    unfold kMaxDetailedInvalidEntries.
    destruct (6 <? S c)%nat eqn:E1; [|destruct (S c =? 6)%nat eqn:E2].
    all: match goal with |- context [parse_lines ?l ?s ?k (mk_ParseContext true ?x, ?o)] =>
      specialize (IH k x o); destruct (parse_lines l s k (mk_ParseContext true x, o)) as [c' out'] end.
    all: cbn [entries warnings] in *; rewrite ?length_app in IH; cbn [length] in IH; breflect.
    all: destruct IH as (H1 & H2 & H3 & H4); split_and!; [done|done|lia|lia].
Qed.
End parser.

(** ** Properties *)

(** The domain normaliser accepts exactly the domains of at most 253
    characters whose labels are well-formed and contain a letter, written with
    an optional leading "*." and an optional root dot, and returns the bare
    domain; hence it is idempotent. *)
Theorem normalize_domain_correct s d :
  (normalize_domain s = Some d ↔ valid_domain d ∧ spelling d s) ∧
  (normalize_domain s = Some d → normalize_domain d = Some d).
Proof.
  split; [apply normalize_domain_Some|]. rewrite !normalize_domain_Some.
  intros [Hv _]. split; [done|]. by left.
Qed.

(** The IPv4 test accepts exactly four parts separated by dots, each one
    to three digits of value at most 255, or a zero with a minus sign. *)
Theorem is_ipv4_correct s :
  is_ipv4 s = true ↔
  ∃ p1 p2 p3 p4, split_on "." s = [p1; p2; p3; p4] ∧
    octet_text p1 ∧ octet_text p2 ∧ octet_text p3 ∧ octet_text p4.
Proof.
  unfold is_ipv4. rewrite is_ipv4_loop_spec. setoid_rewrite <-octet_correct. split.
  - intros [Hl Hf]. destruct (split_on "." s) as [|p1 [|p2 [|p3 [|p4 [|p5 l]]]]]; try done.
    exists p1, p2, p3, p4. cbn in Hf. rewrite !andb_true_iff in Hf. tauto.
  - intros (p1 & p2 & p3 & p4 & -> & H1 & H2 & H3 & H4). split; [done|].
    cbn. by rewrite H1, H2, H3, H4.
Qed.

(** "-0.1.2.3" passes as an IPv4 address: [std::from_chars] for [int]
    accepts a minus sign, and minus zero is not negative. *)
Theorem minus_zero_octet_is_accepted : is_ipv4 "-0.1.2.3" = true.
Proof. vm_compute. reflexivity. Qed.

(** Parsing a list dispatches, in order, exactly the classified entries of
    the lines that are neither blank nor comments, and logs at most six
    warnings, however many entries are invalid. *)
Theorem stream_parse_correct {IP : InetPton} input source_name :
  entries (stream_parse input source_name) =
    omap classify_entry (significant (getline_all (chr 10) input)) ∧
  (length (warnings (stream_parse input source_name)) ≤ 6)%nat.
Proof.
  unfold stream_parse.
  pose proof (parse_lines_spec (getline_all (chr 10) input) source_name 0 0 (mk_Output [] [])) as H.
  destruct (parse_lines _ _ _ _) as [c out]. destruct H as (H1 & _ & H3 & _).
  cbn [entries warnings length snd] in *. split; [done|lia].
Qed.
