(* ===== verification/IpSet.v ===== *)
(** * The address set (src/src/lists/ipset.{hpp,cpp})

    A binary trie of prefixes, the parsers of IPv4 and IPv6 addresses and the
    set of addresses and subnets built on them. *)

From S2P Require Import Prelude CppString.

Local Open Scope Z_scope.

(** ** The trie

    A null child is [Null]; a [Node] carries [is_prefix] and its children. *)

Inductive trie := Null | Node (is_prefix : bool) (zero one : trie).

Definition new_node : trie := Node false Null Null.

Definition is_prefix (t : trie) : bool := match t with Node b _ _ => b | Null => false end.

(** [(bits[i / 8] >> (7 - i % 8)) & 1]; reading past the array is undefined. *)
Definition bit_at (bits : list Z) (i : Z) : option bool :=
  byte ← bits !! Z.to_nat (i / 8);
  mret (negb (Z.land (Z.shiftr byte (7 - i mod 8)) 1 =? 0)).

Definition bits_of (bits : list Z) (n : nat) : option (list bool) :=
  mapM (λ i, bit_at bits (Z.of_nat i)) (seq 0 n).

(** The descent of [insert] from a node, along the remaining bits. *)
Fixpoint insert_bits (path : list bool) (node : trie) : trie :=
  match node with
  | Null => Null
  | Node p t0 t1 =>
      match path with
      | [] => Node true t0 t1
      | bit :: path =>
          let child := if bit : bool then t1 else t0 in
          let child := match child with Null => new_node | _ => child end in
          let child := if is_prefix child then child else insert_bits path child in
          if bit then Node p t0 child else Node p child t1
      end
  end.

Fixpoint contains_bits (path : list bool) (node : trie) : bool :=
  match path with
  | [] => false
  | bit :: path =>
      match node with
      | Null => false
      | Node _ t0 t1 =>
          let child := if bit : bool then t1 else t0 in
          match child with
          | Null => false
          | Node p _ _ => if p then true else contains_bits path child
          end
      end
  end.

Definition trie_insert (bits : list Z) (prefix_len max_bits : Z) (root : trie) : exc trie :=
  if (prefix_len <? 0) || (max_bits <? prefix_len) then
    Throw (invalid_argument "invalid prefix length")
  else match bits_of bits (Z.to_nat prefix_len) with
  | None => Undefined
  | Some path => Ok (insert_bits path root)
  end.

Definition trie_contains (bits : list Z) (max_bits : Z) (root : trie) : exc bool :=
  if is_prefix root then Ok true
  else match bits_of bits (Z.to_nat max_bits) with
  | None => Undefined
  | Some path => Ok (contains_bits path root)
  end.

(** ** IPv4 *)

(** The loop of [parse_ipv4] from octet [i] on; [s] is the text from [pos]. *)
Fixpoint parse_ipv4_loop (n : nat) (first : bool) (s : cstring) : option (list Z) :=
  match n with
  | O => if bool_decide (s = []) then Some [] else None
  | S n =>
      let after_dot := if first then Some s
                       else match s with
                            | c :: s => if ascii_eqb c "." then Some s else None
                            | [] => None
                            end in
      match after_dot with
      | None => None
      | Some s =>
          let digits := take_while isdigit s in
          if bool_decide (digits = []) then None
          else match whole (from_chars_uint digits) with
          | None => None
          | Some val =>
              if 255 <? val then None
              else octets ← parse_ipv4_loop n false (drop_while isdigit s);
                   mret (u8 val :: octets)
          end
      end
  end.

Definition parse_ipv4 (s : cstring) : option (list Z) := parse_ipv4_loop 4 true s.

(** ** IPv6 *)

(** The hexadecimal characters at the front, four at most. *)
Definition hex_group (s : cstring) : cstring := take 4 (take_while isxdigit s).

(** The loop over the groups: [None] is [return false]. *)
Fixpoint parse_groups (fuel : nat) (s : cstring) (double_colon_pos : option nat)
    (groups : list Z) : option (option nat * list Z) :=
  match fuel with
  | O => None
  | S fuel =>
      match s with
      | [] => Some (double_colon_pos, groups)
      | c :: s1 =>
          let double := ascii_eqb c ":" &&
                        match s1 with d :: _ => ascii_eqb d ":" | [] => false end in
          if double then
            match double_colon_pos with
            | Some _ => None
            | None => parse_groups fuel (drop 2 s) (Some (length groups)) groups
            end
          else
            let s := if ascii_eqb c ":" then s1 else s in
            let digits := hex_group s in
            if bool_decide (digits = []) then None
            else match whole (from_chars_hex digits) with
            | None => None
            | Some val =>
                if 65535 <? val then None
                else
                  let rest := drop (length digits) s in
                  match rest with
                  | d :: _ => if negb (ascii_eqb d ":") then None
                              else parse_groups fuel rest double_colon_pos (groups ++ [u16 val])
                  | [] => parse_groups fuel rest double_colon_pos (groups ++ [u16 val])
                  end
            end
      end
  end.

(** [out[2 * out_idx]] and the next byte; a write past the array is undefined. *)
Definition write_group (group : Z) (out_idx : nat) (out : list Z) : exc (list Z) :=
  if (2 * out_idx + 1 <? length out)%nat then
    Ok (<[(2 * out_idx + 1)%nat := Z.land group 255]> (<[(2 * out_idx)%nat := Z.shiftr group 8]> out))
  else Undefined.

Fixpoint write_groups (groups : list Z) (out_idx : nat) (out : list Z) : exc (list Z) :=
  match groups with
  | [] => mret out
  | g :: groups => out ← write_group g out_idx out; write_groups groups (S out_idx) out
  end.

Definition zeros16 : list Z := replicate 16 0.

Definition expand_groups (double_colon_pos : option nat) (groups : list Z) :
    exc (option (list Z)) :=
  match double_colon_pos with
  | Some pos =>
      let missing := 8 - Z.of_nat (length groups) in
      if missing <? 0 then Ok None
      else
        out ← write_groups (take pos groups) 0 zeros16;
        out ← write_groups (drop pos groups) (length (take pos groups) + Z.to_nat missing) out;
        mret (Some out)
  | None =>
      if negb (length groups =? 8)%nat then Ok None
      else out ← write_groups groups 0 zeros16; mret (Some out)
  end.

Definition leading_colons (s : cstring) : bool :=
  match s with
  | a :: b :: _ => ascii_eqb a ":" && ascii_eqb b ":"
  | _ => false
  end.

(** [parse_ipv6] on a text without an embedded IPv4 address. *)
Definition parse_ipv6_groups (s : cstring) : exc (option (list Z)) :=
  let leading := leading_colons s in
  if leading && bool_decide (drop 2 s = []) then Ok (Some zeros16)
  else
    match parse_groups (S (length s)) (if leading then drop 2 s else s)
            (if leading then Some O else None) [] with
    | None => Ok None
    | Some (double_colon_pos, groups) => expand_groups double_colon_pos groups
    end.

(** The text of the IPv4 part, when the last group contains a dot. *)
Definition embedded_ipv4 (s : cstring) : option (nat * cstring) :=
  match rfind_char ":" s with
  | None => None
  | Some i =>
      let after_colon := drop (S i) s in
      if bool_decide (after_colon = []) then None
      else match find_char "." after_colon with
      | None => None
      | Some _ => Some (i, after_colon)
      end
  end.

(** The recursive call on the rewritten text meets no dot, so that it is the
    last one. *)
Definition parse_ipv6 (s : cstring) : exc (option (list Z)) :=
  match embedded_ipv4 s with
  | Some (v4_sep, after_colon) =>
      match parse_ipv4 after_colon with
      | Some [a; b; c; d] =>
          parse_ipv6_groups (take (S v4_sep) s ++ to_hex (Z.lor (Z.shiftl a 8) b) ++ str ":" ++
                             to_hex (Z.lor (Z.shiftl c 8) d))
      | _ => Ok None
      end
  | None => parse_ipv6_groups s
  end.

(** ** The set *)

Record IpSet := mk_IpSet { v4_trie_ : trie; v6_trie_ : trie }.

Definition empty_IpSet : IpSet := mk_IpSet new_node new_node.

Definition insert_v4 (v4 : list Z) (prefix_len : Z) (s : IpSet) : exc IpSet :=
  t ← trie_insert v4 prefix_len 32 (v4_trie_ s); mret (mk_IpSet t (v6_trie_ s)).
Definition insert_v6 (v6 : list Z) (prefix_len : Z) (s : IpSet) : exc IpSet :=
  t ← trie_insert v6 prefix_len 128 (v6_trie_ s); mret (mk_IpSet (v4_trie_ s) t).

Definition add_address (addr : cstring) (s : IpSet) : exc IpSet :=
  match parse_ipv4 addr with
  | Some v4 => insert_v4 v4 32 s
  | None =>
      v6 ← parse_ipv6 addr;
      match v6 with
      | Some v6 => insert_v6 v6 128 s
      | None => Throw (invalid_argument ("invalid IP address: " ++ addr))
      end
  end.

Definition add_cidr (cidr : cstring) (s : IpSet) : exc IpSet :=
  match find_char "/" cidr with
  | None => Throw (invalid_argument ("invalid CIDR notation (no /): " ++ cidr))
  | Some slash =>
      let ip_part := take slash cidr in
      match whole (from_chars_uint (drop (slash + 1) cidr)) with
      | None => Throw (invalid_argument ("invalid CIDR prefix length: " ++ cidr))
      | Some prefix_len =>
          match parse_ipv4 ip_part with
          | Some v4 =>
              if 32 <? prefix_len
              then Throw (invalid_argument ("IPv4 prefix length > 32: " ++ cidr))
              else insert_v4 v4 prefix_len s
          | None =>
              v6 ← parse_ipv6 ip_part;
              match v6 with
              | Some v6 =>
                  if 128 <? prefix_len
                  then Throw (invalid_argument ("IPv6 prefix length > 128: " ++ cidr))
                  else insert_v6 v6 prefix_len s
              | None => Throw (invalid_argument ("invalid CIDR notation: " ++ cidr))
              end
          end
      end
  end.

Definition contains (addr : cstring) (s : IpSet) : exc bool :=
  match parse_ipv4 addr with
  | Some v4 => trie_contains v4 32 (v4_trie_ s)
  | None =>
      v6 ← parse_ipv6 addr;
      match v6 with
      | Some v6 => trie_contains v6 128 (v6_trie_ s)
      | None => Throw (invalid_argument ("invalid IP address: " ++ addr))
      end
  end.

(** ** The trie represents a set of prefixes *)

(** Is the node itself, or a node on the way down, a stored prefix? *)
Definition covers (path : list bool) (node : trie) : bool :=
  is_prefix node || contains_bits path node.

Definition node_or_new (t : trie) : trie := match t with Null => new_node | _ => t end.

Lemma covers_cons bit path b t0 t1 :
  covers (bit :: path) (Node b t0 t1) = b || covers path (if bit then t1 else t0).
Proof.
  unfold covers. cbn. f_equal. destruct (if bit then t1 else t0) as [|[] u0 u1]; cbn; [|done..].
  by destruct path.
Qed.

Lemma covers_new path : covers path new_node = false.
Proof. unfold covers. cbn. by destruct path as [|[] path]. Qed.

Lemma covers_node_or_new path t : covers path (node_or_new t) = covers path t.
Proof.
  destruct t; [|done]. rewrite covers_new. unfold covers. by destruct path.
Qed.

Lemma covers_prefix path t : is_prefix t = true → covers path t = true.
Proof. unfold covers. by intros ->. Qed.

(** Descending from a node: what is covered afterwards. *)
Lemma covers_insert_bits p q b t0 t1 :
  covers q (insert_bits p (Node b t0 t1)) =
  covers q (Node b t0 t1) || bool_decide (p `prefix_of` q).
Proof.
  revert q b t0 t1. induction p as [|bit p IH]; intros q b t0 t1.
  - cbn [insert_bits]. rewrite (covers_prefix q (Node true t0 t1)) by done.
    rewrite (bool_decide_eq_true_2 ([] `prefix_of` q)) by apply prefix_nil.
    by rewrite orb_true_r.
  - set (child := node_or_new (if bit then t1 else t0)).
    set (child' := if is_prefix child then child else insert_bits p child).
    assert (Hins : insert_bits (bit :: p) (Node b t0 t1) =
      if bit then Node b t0 child' else Node b child' t1) by by destruct bit.
    assert (Hcov : ∀ q', covers q' child' = covers q' child || bool_decide (p `prefix_of` q')).
    { intros q'. unfold child'. destruct (is_prefix child) eqn:E.
      - by rewrite covers_prefix.
      - subst child. destruct (if bit then t1 else t0) as [|b' u0 u1]; apply IH. }
    rewrite Hins. destruct q as [|bit' q].
    { destruct bit; unfold covers; cbn; by rewrite ?orb_false_r. }
    assert (Hp : bool_decide (bit :: p `prefix_of` bit' :: q) =
      Bool.eqb bit bit' && bool_decide (p `prefix_of` q)).
    { apply Bool.eq_true_iff_eq. rewrite andb_true_iff, !bool_decide_eq_true, eqb_true_iff.
      split.
      - intros Hpre. split; [by eapply prefix_cons_inv_1|by eapply prefix_cons_inv_2].
      - intros [-> Hpre]. by apply prefix_cons. }
    rewrite Hp, covers_cons.
    destruct bit, bit'; cbn [Bool.eqb andb]; rewrite ?covers_cons, ?Hcov, ?orb_false_r; cbn;
      rewrite ?covers_node_or_new; try done; unfold child; by rewrite covers_node_or_new, orb_assoc.
Qed.

(** ** The parsers are total and fill the whole array *)

Lemma parse_ipv4_loop_length n first s l : parse_ipv4_loop n first s = Some l → length l = n.
Proof.
  revert first s l. induction n as [|n IH]; intros first s l; cbn [parse_ipv4_loop].
  { by case_bool_decide; intros [= <-]. }
  destruct (if first then _ else _) as [s'|]; [|done].
  case_bool_decide; [done|]. destruct (whole _) as [v|]; [|done].
  destruct (255 <? v); [done|].
  destruct (parse_ipv4_loop n false _) as [octets|] eqn:E; [|done].
  intros [= <-]. cbn [length]. by rewrite (IH _ _ _ E).
Qed.

Lemma parse_ipv4_length s l : parse_ipv4 s = Some l → length l = 4%nat.
Proof. apply parse_ipv4_loop_length. Qed.

(** Each turn of the group loop consumes a character, so that one more turn than
    there are characters is enough. *)
Lemma parse_groups_fuel f f' s pos groups :
  (length s < f)%nat → (length s < f')%nat →
  parse_groups f s pos groups = parse_groups f' s pos groups.
Proof.
  revert f' s pos groups. induction f as [|f IH]; intros f' s pos groups Hf Hf'; [lia|].
  destruct f' as [|f']; [lia|]. cbn [parse_groups]. destruct s as [|c s1]; [done|]. cbn [length] in *.
  destruct (ascii_eqb c ":" && _).
  { destruct pos; [done|]. cbn [drop]. apply IH; rewrite length_drop; lia. }
  set (t := if ascii_eqb c ":" then s1 else c :: s1).
  assert (Ht : (length t ≤ S (length s1))%nat) by (subst t; destruct (ascii_eqb c ":"); cbn; lia).
  case_bool_decide as Hd; [done|]. destruct (whole _) as [v|]; [|done]. destruct (65535 <? v); [done|].
  assert (Hr : (length (drop (length (hex_group t)) t) < S (length s1))%nat).
  { rewrite length_drop. destruct (hex_group t); [done|]. cbn. lia. }
  destruct (drop _ t) as [|d rest]; [apply IH; cbn; lia|]. destruct (negb _); [done|]. apply IH; lia.
Qed.

Definition within (pos : option nat) (groups : list Z) : Prop :=
  match pos with Some p => (p ≤ length groups)%nat | None => True end.

Lemma parse_groups_within fuel s pos groups pos' groups' :
  within pos groups → parse_groups fuel s pos groups = Some (pos', groups') →
  within pos' groups'.
Proof.
  revert s pos groups. induction fuel as [|fuel IH]; intros s pos groups Hw; cbn [parse_groups]; [done|].
  destruct s as [|c s1]; [by intros [= <- <-]|].
  destruct (ascii_eqb c ":" && _).
  { destruct pos; [done|]. apply IH. cbn. lia. }
  case_bool_decide; [done|]. destruct (whole _) as [v|]; [|done].
  destruct (65535 <? v); [done|].
  assert (Hw' : within pos (groups ++ [u16 v])).
  { destruct pos; cbn in *; [|done]. rewrite length_app. lia. }
  destruct (drop _ _) as [|d rest]; [by apply IH|].
  destruct (negb _); [done|]. by apply IH.
Qed.

Lemma write_groups_ok groups i out :
  (2 * (i + length groups) ≤ length out)%nat →
  ∃ out', write_groups groups i out = Ok out' ∧ length out' = length out.
Proof.
  revert i out. induction groups as [|g groups IH]; intros i out Hle; cbn [write_groups length] in *.
  { by eexists. }
  unfold write_group. rewrite (proj2 (Nat.ltb_lt _ _)) by lia. cbn [mbind exc_bind].
  destruct (IH (S i) (<[(2 * i + 1)%nat:=Z.land g 255]> (<[(2 * i)%nat:=Z.shiftr g 8]> out)))
    as (out' & -> & Hlen); rewrite !length_insert in *; [lia|]. by eexists.
Qed.

Lemma expand_groups_total pos groups :
  within pos groups →
  ∃ r, expand_groups pos groups = Ok r ∧ ∀ out, r = Some out → length out = 16%nat.
Proof.
  intros Hw. unfold expand_groups. destruct pos as [pos|]; cbn [within] in Hw.
  - case_match eqn:E; [by eexists|]. apply Z.ltb_ge in E.
    destruct (write_groups_ok (take pos groups) 0 zeros16) as (o1 & -> & H1).
    { rewrite length_take, Nat.min_l by done. change (length zeros16) with 16%nat. lia. }
    destruct (write_groups_ok (drop pos groups)
      (length (take pos groups) + Z.to_nat (8 - Z.of_nat (length groups))) o1) as (o2 & H2 & H2').
    { rewrite length_take, length_drop, Nat.min_l, H1 by done.
      change (length zeros16) with 16%nat. lia. }
    cbn [mbind exc_bind]. rewrite H2. eexists; split; [done|]. intros out [= <-]. by rewrite H2', H1.
  - case_match eqn:E; [by eexists|]. apply negb_false_iff, Nat.eqb_eq in E.
    destruct (write_groups_ok groups 0 zeros16) as (o1 & H1 & H1').
    { change (length zeros16) with 16%nat. lia. }
    rewrite H1. eexists; split; [done|]. by intros out [= <-].
Qed.

Lemma parse_ipv6_groups_total s :
  ∃ r, parse_ipv6_groups s = Ok r ∧ ∀ out, r = Some out → length out = 16%nat.
Proof.
  unfold parse_ipv6_groups. generalize (leading_colons s). intros leading.
  destruct (leading && _). { eexists; split; [done|]. by intros out [= <-]. }
  destruct (parse_groups _ _ _ _) as [[pos groups]|] eqn:E; [|by eexists].
  eapply expand_groups_total, parse_groups_within, E. destruct leading; cbn; [lia|done].
Qed.

Lemma parse_ipv6_total s :
  ∃ r, parse_ipv6 s = Ok r ∧ ∀ out, r = Some out → length out = 16%nat.
Proof.
  unfold parse_ipv6. destruct (embedded_ipv4 s) as [[i t]|]; [|apply parse_ipv6_groups_total].
  destruct (parse_ipv4 t) as [[|a [|b [|c [|d [|]]]]]|];
    (apply parse_ipv6_groups_total || by eexists).
Qed.

(** ** The bits of an address *)

Lemma bits_of_total bits n :
  (n ≤ 8 * length bits)%nat → ∃ path, bits_of bits n = Some path ∧ length path = n.
Proof.
  intros Hn. unfold bits_of.
  destruct (mapM (λ i, bit_at bits (Z.of_nat i)) (seq 0 n)) as [path|] eqn:E.
  { exists path; split; [done|]. apply mapM_Some, Forall2_length in E. by rewrite <- E, length_seq. }
  apply mapM_None_1, Exists_exists in E as (i & Hi & E). apply elem_of_seq in Hi.
  unfold bit_at in E. destruct (bits !! Z.to_nat (Z.of_nat i / 8)) eqn:Hb; [done|].
  apply lookup_ge_None in Hb.
  assert (Z.of_nat i / 8 < Z.of_nat (length bits)) by (apply Z.div_lt_upper_bound; lia).
  assert (0 ≤ Z.of_nat i / 8) by (apply Z.div_pos; lia). lia.
Qed.

Lemma bits_of_take bits n m path :
  (n ≤ m)%nat → bits_of bits m = Some path → bits_of bits n = Some (take n path).
Proof.
  intros Hn H. unfold bits_of in *. apply mapM_Some in H. apply mapM_Some.
  replace (seq 0 n) with (take n (seq 0 m)); [by apply Forall2_take|].
  by rewrite take_seq, Nat.min_l.
Qed.

(** ** Refinement of the set of networks *)

Inductive entry := Addr (addr : cstring) | Cidr (cidr : cstring).
#[export] Instance entry_eq_dec : EqDecision entry.
Proof. solve_decision. Defined.

Definition add (e : entry) (s : IpSet) : exc IpSet :=
  match e with Addr a => add_address a s | Cidr c => add_cidr c s end.

Fixpoint add_all (es : list entry) (s : IpSet) : exc IpSet :=
  match es with [] => mret s | e :: es => s ← add e s; add_all es s end.

(** A family ([true] is IPv6) and the bits of an address or a network. *)
Abbreviation network := (bool * list bool)%type.

Definition address_of (addr : cstring) : option network :=
  match parse_ipv4 addr, parse_ipv6 addr with
  | Some v4, _ => pair false <$> bits_of v4 32
  | None, Ok (Some v6) => pair true <$> bits_of v6 128
  | _, _ => None
  end.

(** A network is the leading bits of its address, as many as the text after
    the slash says. *)
Definition network_of (e : entry) : option network :=
  match e with
  | Addr a => address_of a
  | Cidr c =>
      slash ← find_char "/" c;
      n ← whole (from_chars_uint (drop (slash + 1) c));
      a ← address_of (take slash c);
      if n <=? Z.of_nat (length a.2) then Some (a.1, take (Z.to_nat n) a.2) else None
  end.

Definition in_network (a n : network) : bool :=
  Bool.eqb a.1 n.1 && bool_decide (n.2 `prefix_of` a.2).

Definition root_of (v6 : bool) (s : IpSet) : trie := if v6 then v6_trie_ s else v4_trie_ s.

(** The set answers as the list [ns] of networks does. *)
Definition represents (s : IpSet) (ns : list network) : Prop :=
  ∀ v6, (∃ b t0 t1, root_of v6 s = Node b t0 t1) ∧
        ∀ q, covers q (root_of v6 s) = existsb (in_network (v6, q)) ns.

Lemma represents_empty : represents empty_IpSet [].
Proof. intros []; (split; [by do 3 eexists|]); intros q; apply covers_new. Qed.

Lemma represents_insert v6 path s s' ns :
  represents s ns →
  root_of v6 s' = insert_bits path (root_of v6 s) →
  root_of (negb v6) s' = root_of (negb v6) s →
  represents s' (ns ++ [(v6, path)]).
Proof.
  intros Hs Hi Hn w. destruct (Hs w) as [(b & t0 & t1 & Hr) Hc].
  assert (Hw : w = v6 ∨ w = negb v6) by (destruct w, v6; auto).
  setoid_rewrite existsb_app. cbn [existsb]. setoid_rewrite orb_false_r.
  unfold in_network at 2. cbn [fst snd]. destruct Hw as [->| ->].
  - rewrite Hi, Hr. split.
    { destruct path as [|[] path]; cbn; by do 3 eexists. }
    intros q. by rewrite covers_insert_bits, <- Hr, Hc, eqb_reflx.
  - rewrite Hn. split; [by do 3 eexists|]. intros q. rewrite Hc. by destruct v6; cbn; rewrite orb_false_r.
Qed.

Lemma trie_insert_total bits n m path root :
  bits_of bits m = Some path → 0 ≤ n → (Z.to_nat n ≤ m)%nat →
  trie_insert bits n (Z.of_nat m) root = Ok (insert_bits (take (Z.to_nat n) path) root).
Proof.
  intros Hb Hn Hm. unfold trie_insert.
  rewrite (proj2 (Z.ltb_ge _ _)), (proj2 (Z.ltb_ge _ _)) by lia. cbn [orb].
  by rewrite (bits_of_take _ _ _ _ Hm Hb).
Qed.

Lemma from_chars_uint_nonneg s n : whole (from_chars_uint s) = Some n → 0 ≤ n.
Proof.
  unfold from_chars_uint. case_bool_decide; [done|]. case_match; [|done].
  cbn. case_match; [|done]. intros [= <-].
  pose proof (dec_value_mono 0 (take_while isdigit s) (take_while_forallb _ _) (Z.le_refl 0)). lia.
Qed.

Definition width (v6 : bool) : nat := if v6 then 128%nat else 32%nat.

Lemma insert_ok v6 bits n path s ns :
  represents s ns → bits_of bits (width v6) = Some path → 0 ≤ n ≤ Z.of_nat (width v6) →
  ∃ s', (if v6 then insert_v6 else insert_v4) bits n s = Ok s' ∧
        represents s' (ns ++ [(v6, take (Z.to_nat n) path)]).
Proof.
  intros Hs Hb Hn.
  pose proof (λ r, trie_insert_total bits n (width v6) path r Hb (proj1 Hn) ltac:(lia)) as Ht.
  destruct v6; cbn [width] in Ht; unfold insert_v6, insert_v4.
  - change (Z.of_nat 128) with 128 in Ht. rewrite Ht. eexists; split; [done|].
    by apply (represents_insert true _ s).
  - change (Z.of_nat 32) with 32 in Ht. rewrite Ht. eexists; split; [done|].
    by apply (represents_insert false _ s).
Qed.

(** What a text parses as, in the order in which the operations try. *)
Lemma address_cases s :
  (∃ v4 path, parse_ipv4 s = Some v4 ∧ bits_of v4 32 = Some path ∧ length path = 32%nat ∧
     address_of s = Some (false, path)) ∨
  (∃ v6 path, parse_ipv4 s = None ∧ parse_ipv6 s = Ok (Some v6) ∧ bits_of v6 128 = Some path ∧
     length path = 128%nat ∧ address_of s = Some (true, path)) ∨
  (parse_ipv4 s = None ∧ parse_ipv6 s = Ok None ∧ address_of s = None).
Proof.
  unfold address_of. destruct (parse_ipv4 s) as [v4|] eqn:E4.
  - left. destruct (bits_of_total v4 32) as (path & Hp & Hl).
    { rewrite (parse_ipv4_length _ _ E4). lia. }
    exists v4, path. by rewrite Hp.
  - right. destruct (parse_ipv6_total s) as ([v6|] & -> & Hlen); [left|by right].
    destruct (bits_of_total v6 128) as (path & Hp & Hl).
    { rewrite (Hlen v6) by done. lia. }
    exists v6, path. by rewrite Hp.
Qed.

Definition adds_as (r : exc IpSet) (ns : list network) (net : option network) : Prop :=
  match net with
  | Some net => ∃ s', r = Ok s' ∧ represents s' (ns ++ [net])
  | None => ∃ msg, r = Throw (invalid_argument msg)
  end.

Lemma add_address_ok a s ns : represents s ns → adds_as (add_address a s) ns (address_of a).
Proof.
  intros Hs. unfold add_address.
  destruct (address_cases a) as [(v4 & p & -> & Hb & Hl & ->)|[(v6 & p & -> & -> & Hb & Hl & ->)|(-> & -> & ->)]].
  - destruct (insert_ok false v4 32 p s ns Hs Hb ltac:(done)) as (s' & Hi & Hr).
    rewrite take_ge in Hr by (rewrite Hl; lia). by exists s'.
  - destruct (insert_ok true v6 128 p s ns Hs Hb ltac:(done)) as (s' & Hi & Hr).
    rewrite take_ge in Hr by (rewrite Hl; lia). by exists s'.
  - by eexists.
Qed.

Lemma add_cidr_ok c s ns : represents s ns → adds_as (add_cidr c s) ns (network_of (Cidr c)).
Proof.
  intros Hs. unfold add_cidr. cbn [network_of].
  destruct (find_char "/" c) as [slash|]; cbn [mbind option_bind]; [|by eexists].
  destruct (whole _) as [n|] eqn:En; cbn [mbind option_bind]; [|by eexists].
  apply from_chars_uint_nonneg in En.
  destruct (address_cases (take slash c)) as
    [(v4 & p & -> & Hb & Hl & ->)|[(v6 & p & -> & -> & Hb & Hl & ->)|(-> & -> & ->)]];
    cbn [mbind option_bind exc_bind fst snd]; [| |by eexists]; rewrite Hl.
  - change (Z.of_nat 32) with 32. rewrite Z.ltb_antisym.
    destruct (Z.leb_spec n 32); cbn [negb]; [|by eexists].
    by apply (insert_ok false v4 n p s ns Hs Hb).
  - change (Z.of_nat 128) with 128. rewrite Z.ltb_antisym.
    destruct (Z.leb_spec n 128); cbn [negb]; [|by eexists].
    by apply (insert_ok true v6 n p s ns Hs Hb).
Qed.

Lemma add_all_ok es s ns :
  represents s ns →
  match mapM network_of es with
  | Some nets => ∃ s', add_all es s = Ok s' ∧ represents s' (ns ++ nets)
  | None => ∃ msg, add_all es s = Throw (invalid_argument msg)
  end.
Proof.
  revert s ns. induction es as [|e es IH]; intros s ns Hs; cbn [mapM add_all mbind option_bind].
  { exists s. by rewrite app_nil_r. }
  assert (He : adds_as (add e s) ns (network_of e)).
  { destruct e; [by apply add_address_ok|by apply add_cidr_ok]. }
  destruct (network_of e) as [net|]; cbn [mbind option_bind adds_as] in *.
  - destruct He as (s1 & -> & H1). cbn [mbind exc_bind]. specialize (IH s1 _ H1).
    destruct (mapM network_of es) as [nets|]; [|done].
    destruct IH as (s' & -> & H'). exists s'. by rewrite <- app_assoc in H'.
  - destruct He as [msg ->]. by eexists.
Qed.

Lemma contains_ok addr s ns :
  represents s ns →
  contains addr s = match address_of addr with
                    | Some a => Ok (existsb (in_network a) ns)
                    | None => Throw (invalid_argument ("invalid IP address: " ++ addr))
                    end.
Proof.
  intros Hs. unfold contains.
  destruct (address_cases addr) as [(v4 & p & -> & Hb & Hl & ->)|[(v6 & p & -> & -> & Hb & Hl & ->)|(-> & -> & ->)]].
  - rewrite <- (proj2 (Hs false)). unfold trie_contains, covers. cbn [root_of].
    change (Z.to_nat 32) with 32%nat. rewrite Hb. by destruct (is_prefix _).
  - rewrite <- (proj2 (Hs true)). unfold trie_contains, covers. cbn [root_of mbind exc_bind].
    change (Z.to_nat 128) with 128%nat. rewrite Hb. by destruct (is_prefix _).
  - done.
Qed.

(** The set of addresses refines the set of networks: adding a sequence of
    addresses and subnets to an empty set succeeds exactly when every text
    denotes a network and throws [invalid_argument] otherwise (never an
    out-of-bounds access), and afterwards [contains] answers whether the
    address lies in one of the networks added, or throws on a text that is no
    address. *)
Theorem ipset_refines_networks (es : list entry) :
  match mapM network_of es with
  | Some nets => ∃ s, add_all es empty_IpSet = Ok s ∧
      ∀ addr, contains addr s =
        match address_of addr with
        | Some a => Ok (existsb (in_network a) nets)
        | None => Throw (invalid_argument ("invalid IP address: " ++ addr))
        end
  | None => ∃ msg, add_all es empty_IpSet = Throw (invalid_argument msg)
  end.
Proof.
  pose proof (add_all_ok es empty_IpSet [] represents_empty) as H.
  destruct (mapM network_of es) as [nets|]; [|done].
  destruct H as (s & Hs & Hr). exists s; split; [done|].
  intros addr. by rewrite (contains_ok addr s nets).
Qed.

(** The IPv6 parser reads a single leading colon as a separator, so that it
    accepts texts that are no addresses. *)
Theorem malformed_ipv6_is_accepted :
  parse_ipv6 ":1:2:3:4:5:6:7:8" = parse_ipv6 "1:2:3:4:5:6:7:8" ∧
  parse_ipv6 ":::1" = parse_ipv6 "::1" ∧
  parse_ipv6 "::1" = Ok (Some (replicate 15 0 ++ [1])).
Proof. vm_compute. done. Qed.
