(* ===== verification/CircuitBreaker.v ===== *)
(** * The circuit breaker (src/src/health/circuit_breaker.{hpp,cpp})

    One entry per outbound: consecutive failures open it, a cooldown lets
    probes through again, successful probes close it.  Times are nanoseconds of
    the steady clock, passed to the operations that read the clock. *)

From S2P Require Import Prelude CppString Config.

Local Open Scope Z_scope.

Module CircuitState.
Inductive t := closed | open | half_open.
#[global] Instance t_eq_dec : EqDecision t.
Proof. solve_decision. Defined.
End CircuitState.

Record CircuitBreakerEntry := mk_Entry {
  state : CircuitState.t;
  failure_count : Z;
  success_count_in_half_open : Z;
  half_open_active_requests : Z;
  last_failure_time : Z;
  opened_at : Z;
}.

Definition new_entry : CircuitBreakerEntry := mk_Entry CircuitState.closed 0 0 0 0 0.

Record CircuitBreaker := mk_CircuitBreaker {
  config_ : CircuitBreakerConfig;
  entries_ : gmap cstring CircuitBreakerEntry;
}.

Definition new_CircuitBreaker (config : CircuitBreakerConfig) : CircuitBreaker :=
  mk_CircuitBreaker config ∅.

(** ** The operations on one entry *)

Definition failure_limit (config : CircuitBreakerConfig) : Z :=
  i32 (value_or (failure_threshold config) 5).
Definition success_limit (config : CircuitBreakerConfig) : Z :=
  u32 (value_or (success_threshold config) 2).
Definition request_limit (config : CircuitBreakerConfig) : Z :=
  u32 (value_or (half_open_max_requests config) 1).
(** The cooldown in the clock's unit. *)
Definition cooldown (config : CircuitBreakerConfig) : Z :=
  value_or (timeout_ms config) 30000 * 1000000.

Definition entry_success (config : CircuitBreakerConfig) (e : CircuitBreakerEntry) :
    CircuitBreakerEntry :=
  match state e with
  | CircuitState.half_open =>
      let successes := u32 (success_count_in_half_open e + 1) in
      if success_limit config <=? successes
      then mk_Entry CircuitState.closed 0 0 0 (last_failure_time e) (opened_at e)
      else mk_Entry CircuitState.half_open (failure_count e) successes
             (half_open_active_requests e) (last_failure_time e) (opened_at e)
  | CircuitState.closed =>
      mk_Entry CircuitState.closed 0 (success_count_in_half_open e)
        (half_open_active_requests e) (last_failure_time e) (opened_at e)
  | CircuitState.open => e
  end.

(** The increment of the [int] counter is undefined at its maximum. *)
Definition entry_failure (config : CircuitBreakerConfig) (now : Z) (e : CircuitBreakerEntry) :
    exc CircuitBreakerEntry :=
  let count := failure_count e + 1 in
  if negb (in_int count) then Undefined
  else Ok match state e with
  | CircuitState.closed =>
      if failure_limit config <=? count
      then mk_Entry CircuitState.open count (success_count_in_half_open e)
             (half_open_active_requests e) now now
      else mk_Entry CircuitState.closed count (success_count_in_half_open e)
             (half_open_active_requests e) now (opened_at e)
  | CircuitState.half_open => mk_Entry CircuitState.open count 0 0 now now
  | CircuitState.open =>
      mk_Entry CircuitState.open count (success_count_in_half_open e)
        (half_open_active_requests e) now (opened_at e)
  end.

Definition in_int64 (x : Z) : bool := (- 2 ^ 63 <=? x) && (x <? 2 ^ 63).

(** The comparison of the durations is made in nanoseconds of 64 bits. *)
Definition entry_allowed (config : CircuitBreakerConfig) (now : Z) (e : CircuitBreakerEntry) :
    exc (bool * CircuitBreakerEntry) :=
  match state e with
  | CircuitState.closed => Ok (true, e)
  | CircuitState.open =>
      if negb (in_int64 (cooldown config)) then Undefined
      else if cooldown config <=? now - opened_at e
      then Ok (true, mk_Entry CircuitState.half_open (failure_count e) 0 0
                       (last_failure_time e) (opened_at e))
      else Ok (false, e)
  | CircuitState.half_open => Ok (half_open_active_requests e <? request_limit config, e)
  end.

Definition entry_begin (e : CircuitBreakerEntry) : CircuitBreakerEntry :=
  match state e with
  | CircuitState.half_open =>
      mk_Entry (state e) (failure_count e) (success_count_in_half_open e)
        (u32 (half_open_active_requests e + 1)) (last_failure_time e) (opened_at e)
  | _ => e
  end.

Definition entry_end (e : CircuitBreakerEntry) : CircuitBreakerEntry :=
  if 0 <? half_open_active_requests e
  then mk_Entry (state e) (failure_count e) (success_count_in_half_open e)
         (half_open_active_requests e - 1) (last_failure_time e) (opened_at e)
  else e.

(** ** The operations of the class *)

(** [entries_[tag]] creates the entry; the reference is written through. *)
Definition get_or_create (tag : cstring) (cb : CircuitBreaker) : CircuitBreakerEntry :=
  value_or (entries_ cb !! tag) new_entry.

Definition set_entry (tag : cstring) (e : CircuitBreakerEntry) (cb : CircuitBreaker) :
    CircuitBreaker :=
  mk_CircuitBreaker (config_ cb) (<[tag := e]> (entries_ cb)).

Definition record_success (tag : cstring) (cb : CircuitBreaker) : CircuitBreaker :=
  set_entry tag (entry_success (config_ cb) (get_or_create tag cb)) cb.

Definition record_failure (tag : cstring) (now : Z) (cb : CircuitBreaker) : exc CircuitBreaker :=
  e ← entry_failure (config_ cb) now (get_or_create tag cb); mret (set_entry tag e cb).

Definition is_allowed (tag : cstring) (now : Z) (cb : CircuitBreaker) : exc (bool * CircuitBreaker) :=
  r ← entry_allowed (config_ cb) now (get_or_create tag cb); mret (r.1, set_entry tag r.2 cb).

Definition begin_request (tag : cstring) (cb : CircuitBreaker) : CircuitBreaker :=
  set_entry tag (entry_begin (get_or_create tag cb)) cb.

Definition end_request (tag : cstring) (cb : CircuitBreaker) : CircuitBreaker :=
  set_entry tag (entry_end (get_or_create tag cb)) cb.

Definition state_of (tag : cstring) (cb : CircuitBreaker) : CircuitState.t :=
  match entries_ cb !! tag with None => CircuitState.closed | Some e => state e end.

Definition failures_of (tag : cstring) (cb : CircuitBreaker) : Z :=
  match entries_ cb !! tag with None => 0 | Some e => failure_count e end.

Definition reset (tag : cstring) (cb : CircuitBreaker) : CircuitBreaker :=
  mk_CircuitBreaker (config_ cb) (delete tag (entries_ cb)).

Definition reset_all (cb : CircuitBreaker) : CircuitBreaker := mk_CircuitBreaker (config_ cb) ∅.

(** ** Sequences of calls for one outbound *)

Inductive call := Success | Failure (now : Z) | Allowed (now : Z) | Begin | End_.

(** The call, with the answer of [is_allowed] when it is that. *)
Definition perform (tag : cstring) (c : call) (cb : CircuitBreaker) :
    exc (list bool * CircuitBreaker) :=
  match c with
  | Success => Ok ([], record_success tag cb)
  | Failure now => cb ← record_failure tag now cb; mret ([], cb)
  | Allowed now => r ← is_allowed tag now cb; mret ([r.1], r.2)
  | Begin => Ok ([], begin_request tag cb)
  | End_ => Ok ([], end_request tag cb)
  end.

Fixpoint perform_all (tag : cstring) (cs : list call) (cb : CircuitBreaker) :
    exc (list bool * CircuitBreaker) :=
  match cs with
  | [] => Ok ([], cb)
  | c :: cs =>
      r ← perform tag c cb;
      r' ← perform_all tag cs r.2;
      mret (r.1 ++ r'.1, r'.2)
  end.

Lemma get_set_entry tag e cb : get_or_create tag (set_entry tag e cb) = e.
Proof. unfold get_or_create, set_entry. cbn. by rewrite lookup_insert_eq. Qed.

Lemma state_of_get tag cb : state_of tag cb = state (get_or_create tag cb).
Proof. unfold state_of, get_or_create. by destruct (entries_ cb !! tag). Qed.

(** [e] is open since [o] and has seen at most [n] failures. *)
Definition open_since (o n : Z) (e : CircuitBreakerEntry) : Prop :=
  state e = CircuitState.open ∧ opened_at e = o ∧ 0 ≤ failure_count e ≤ n.

Definition asked_before (deadline : Z) (c : call) : Prop :=
  match c with Allowed now => now < deadline | _ => True end.

Lemma perform_open tag c cb o n :
  in_int64 (cooldown (config_ cb)) = true → n < INT_MAX →
  asked_before (o + cooldown (config_ cb)) c →
  open_since o n (get_or_create tag cb) →
  ∃ answers cb', perform tag c cb = Ok (answers, cb') ∧ Forall (λ a, a = false) answers ∧
    config_ cb' = config_ cb ∧ open_since o (n + 1) (get_or_create tag cb').
Proof.
  intros Hcd Hn Hc (Hs & Ho & Hf). unfold open_since.
  destruct c as [|now|now| |]; cbn [perform asked_before] in *.
  - do 2 eexists; split; [done|]. unfold record_success. rewrite get_set_entry.
    unfold entry_success. rewrite Hs. repeat split; auto; lia.
  - unfold record_failure, entry_failure. rewrite Hs.
    assert (in_int (failure_count (get_or_create tag cb) + 1) = true) as ->.
    { unfold in_int, INT_MIN, INT_MAX in *. breflect. lia. }
    cbn [negb mbind exc_bind mret exc_ret]. do 2 eexists; split; [done|].
    rewrite get_set_entry. cbn. repeat split; auto; lia.
  - unfold is_allowed, entry_allowed. rewrite Hs, Hcd, Ho. cbn [negb].
    rewrite (proj2 (Z.leb_gt _ _)) by lia. cbn [mbind exc_bind mret exc_ret fst snd].
    do 2 eexists; split; [done|].
    rewrite get_set_entry. cbn. repeat split; auto; lia.
  - do 2 eexists; split; [done|]. unfold begin_request. rewrite get_set_entry.
    unfold entry_begin. rewrite Hs. repeat split; auto; lia.
  - do 2 eexists; split; [done|]. unfold end_request. rewrite get_set_entry.
    unfold entry_end. destruct (0 <? _); cbn; repeat split; auto; lia.
Qed.

Lemma perform_all_open tag cs cb o n :
  in_int64 (cooldown (config_ cb)) = true → n + Z.of_nat (length cs) ≤ INT_MAX →
  Forall (asked_before (o + cooldown (config_ cb))) cs →
  open_since o n (get_or_create tag cb) →
  ∃ answers cb', perform_all tag cs cb = Ok (answers, cb') ∧ Forall (λ a, a = false) answers ∧
    state_of tag cb' = CircuitState.open ∧ opened_at (get_or_create tag cb') = o.
Proof.
  revert cb n. induction cs as [|c cs IH]; intros cb n Hcd Hn Hcs He; cbn [perform_all length] in *.
  { exists [], cb. rewrite state_of_get. destruct He as (? & ? & ?). auto. }
  apply Forall_cons in Hcs as [Hc Hcs].
  destruct (perform_open tag c cb o n Hcd ltac:(lia) Hc He) as (a1 & cb1 & -> & Ha1 & Hcfg & He1).
  cbn [mbind exc_bind fst snd].
  destruct (IH cb1 (n + 1)) as (a2 & cb2 & -> & Ha2 & ? & ?); rewrite ?Hcfg; try done; [lia|].
  exists (a1 ++ a2), cb2. repeat split; auto. by apply Forall_app.
Qed.

(** ** Runs of failures *)

(** The result of a health check: a failure at a time, or a success. *)
Definition outcome_call (o : option Z) : call :=
  match o with Some now => Failure now | None => Success end.

Definition streak (os : list (option Z)) : Z :=
  foldl (λ k o, match o with Some _ => k + 1 | None => 0 end) 0 os.

Definition failed (o : option Z) : Prop := is_Some o.

(** [n] failures in a row somewhere in the sequence. *)
Definition has_run (n : Z) (os : list (option Z)) : Prop :=
  ∃ l1 l2 l3, os = l1 ++ l2 ++ l3 ∧ Z.of_nat (length l2) = n ∧ Forall failed l2.

Lemma streak_snoc os o :
  streak (os ++ [o]) = match o with Some _ => streak os + 1 | None => 0 end.
Proof. unfold streak. by rewrite foldl_app. Qed.

Lemma streak_bounds os : 0 ≤ streak os ≤ Z.of_nat (length os).
Proof.
  induction os as [|o os IH] using rev_ind; [done|].
  rewrite streak_snoc, length_app. destruct o; cbn; lia.
Qed.

(** The streak is the longest all-failing suffix. *)
Lemma streak_suffix os n :
  0 ≤ n → (n ≤ streak os ↔ ∃ l1 l2, os = l1 ++ l2 ∧ Z.of_nat (length l2) = n ∧ Forall failed l2).
Proof.
  revert n. induction os as [|o os IH] using rev_ind; intros n Hn.
  - split.
    + cbn. intros. exists [], []. repeat split; auto. cbn. lia.
    + intros (l1 & l2 & E & <- & _). symmetry in E. apply app_nil in E as [_ ->]. done.
  - rewrite streak_snoc. destruct (decide (n = 0)) as [->|Hn0].
    { split; intros _.
      - exists (os ++ [o]), []. by rewrite app_nil_r.
      - pose proof (streak_bounds os). destruct o; lia. }
    split.
    + destruct o as [now|]; [|lia]. intros Hle.
      destruct (proj1 (IH (n - 1) ltac:(lia)) ltac:(lia)) as (l1 & l2 & -> & Hl & Hf).
      exists l1, (l2 ++ [Some now]). rewrite app_assoc, length_app. cbn.
      repeat split; [lia|]. apply Forall_app; split; [done|]. apply Forall_singleton. by exists now.
    + intros (l1 & l2 & E & Hl & Hf). destruct l2 as [|o' l2 _] using rev_ind; [cbn in *; lia|].
      rewrite app_assoc in E. apply app_inj_tail in E as [-> ->].
      apply Forall_app in Hf as [Hf Ho]. apply Forall_cons in Ho as [[now ->] _].
      rewrite length_app in Hl. cbn in Hl.
      enough (n - 1 ≤ streak (l1 ++ l2)) by lia. apply IH; [lia|]. exists l1, l2. repeat split; auto; lia.
Qed.

Lemma has_run_snoc n os o :
  0 < n → (has_run n (os ++ [o]) ↔ has_run n os ∨ n ≤ streak (os ++ [o])).
Proof.
  intros Hn. rewrite streak_suffix by lia. split.
  - intros (l1 & l2 & l3 & E & Hl & Hf). destruct l3 as [|o' l3 _] using rev_ind.
    + right. exists l1, l2. by rewrite app_nil_r in E.
    + rewrite !app_assoc in E. apply app_inj_tail in E as [-> ->].
      left. exists l1, l2, l3. by rewrite app_assoc.
  - intros [(l1 & l2 & l3 & -> & Hl & Hf)|(l1 & l2 & -> & Hl & Hf)].
    + exists l1, l2, (l3 ++ [o]). by rewrite !app_assoc.
    + exists l1, l2, []. by rewrite app_nil_r.
Qed.

(** From a closed entry, health checks alone: closed with the streak counted, or
    open once a run is complete. *)
Definition tracks (config : CircuitBreakerConfig) (os : list (option Z))
    (e : CircuitBreakerEntry) : Prop :=
  0 ≤ failure_count e ≤ Z.of_nat (length os) ∧
  ((state e = CircuitState.open ∧ has_run (failure_limit config) os) ∨
   (state e = CircuitState.closed ∧ ¬ has_run (failure_limit config) os ∧
    failure_count e = streak os)).

Lemma tracks_snoc config os o e :
  0 < failure_limit config → Z.of_nat (length os) < INT_MAX → tracks config os e →
  ∃ e', (match o with
         | Some now => entry_failure config now e
         | None => Ok (entry_success config e)
         end) = Ok e' ∧ tracks config (os ++ [o]) e'.
Proof.
  intros Hlim Hlen [Hc Hs]. unfold tracks. rewrite length_app. cbn [length].
  setoid_rewrite (has_run_snoc _ _ _ Hlim). rewrite streak_snoc.
  destruct o as [now|].
  - unfold entry_failure.
    assert (in_int (failure_count e + 1) = true) as ->.
    { unfold in_int, INT_MIN, INT_MAX in *. breflect. lia. }
    cbn [negb]. eexists; split; [done|]. destruct Hs as [[-> Hr]|(-> & Hr & Hst)].
    + cbn [state failure_count]. split; [lia|]. left. split; [done|]. by left.
    + destruct (failure_limit config <=? _) eqn:E; breflect; cbn; (split; [lia|]).
      * left. split; [done|]. right. lia.
      * right. split; [done|]. split; [|lia]. intros [?|?]; [done|lia].
  - eexists; split; [done|]. unfold entry_success. destruct Hs as [[Ho Hr]|(-> & Hr & Hst)].
    + rewrite Ho. split; [lia|]. left. split; [done|]. by left.
    + cbn. split; [lia|]. right. split; [done|]. split; [|done]. intros [?|?]; [done|lia].
Qed.

Lemma perform_all_app tag cs1 cs2 cb :
  perform_all tag (cs1 ++ cs2) cb =
  (r ← perform_all tag cs1 cb; r' ← perform_all tag cs2 r.2; mret (r.1 ++ r'.1, r'.2)).
Proof.
  revert cb. induction cs1 as [|c cs1 IH]; intros cb; cbn.
  { by destruct (perform_all tag cs2 cb) as [[]| |]. }
  destruct (perform tag c cb) as [[a1 cb1]| |]; cbn; [|done..]. rewrite IH.
  destruct (perform_all tag cs1 cb1) as [[a2 cb2]| |]; cbn; [|done..].
  destruct (perform_all tag cs2 cb2) as [[a3 cb3]| |]; cbn; [|done..]. by rewrite app_assoc.
Qed.

Lemma perform_all_tracks tag config os :
  0 < failure_limit config → Z.of_nat (length os) ≤ INT_MAX →
  ∃ cb, perform_all tag (outcome_call <$> os) (new_CircuitBreaker config) = Ok ([], cb) ∧
        config_ cb = config ∧ tracks config os (get_or_create tag cb).
Proof.
  intros Hlim. induction os as [|o os IH] using rev_ind; intros Hlen.
  { eexists; split; [done|]. split; [done|]. unfold get_or_create, tracks.
    change (entries_ (new_CircuitBreaker config)) with (∅ : gmap cstring CircuitBreakerEntry).
    rewrite lookup_empty. cbn [value_or new_entry state failure_count length].
    split; [lia|]. right. split; [done|]. split; [|done].
    intros (l1 & l2 & l3 & E & Hl & _). symmetry in E. apply app_nil in E as [-> [-> ->]%app_nil].
    cbn in Hl. lia. }
  rewrite length_app in Hlen. cbn in Hlen.
  destruct IH as (cb & E & Hcfg & Ht); [lia|].
  rewrite fmap_app, perform_all_app, E. cbn [mbind exc_bind fst snd fmap list_fmap perform_all].
  destruct (tracks_snoc config os o _ Hlim ltac:(lia) Ht) as (e' & He' & Ht').
  destruct o as [now|]; cbn [outcome_call perform]; unfold record_failure, record_success;
    rewrite Hcfg; [rewrite He'|injection He' as ->];
    cbn [mbind exc_bind mret exc_ret fst snd app];
    (eexists; split; [done|]; split; [done|]; by rewrite get_set_entry).
Qed.

(** ** The contract of the breaker *)

(** Health checks alone open the breaker of an outbound exactly when
    [failure_threshold] of them fail in a row, however long the sequence (below
    [2^31] checks) and whatever succeeded in between; until then it stays
    closed and counts the failures since the last success. *)
Theorem breaker_opens_on_run tag config os :
  0 < failure_limit config → Z.of_nat (length os) ≤ INT_MAX →
  ∃ cb, perform_all tag (outcome_call <$> os) (new_CircuitBreaker config) = Ok ([], cb) ∧
    (state_of tag cb = CircuitState.open ↔ has_run (failure_limit config) os) ∧
    (state_of tag cb = CircuitState.closed ↔ ¬ has_run (failure_limit config) os) ∧
    (state_of tag cb = CircuitState.closed → failures_of tag cb = streak os).
Proof.
  intros Hlim Hlen. destruct (perform_all_tracks tag config os Hlim Hlen) as (cb & E & _ & _ & Ht).
  exists cb. split; [done|].
  assert (Hf : failures_of tag cb = failure_count (get_or_create tag cb)).
  { unfold failures_of, get_or_create. by destruct (entries_ cb !! tag). }
  rewrite Hf, state_of_get. destruct Ht as [[-> ?]|(-> & ? & ?)]; by repeat split.
Qed.

(** An open breaker admits nothing before its cooldown is over: whatever
    calls arrive (failures, successes, requests that begin or end), as long as
    [is_allowed] is asked before [opened_at + timeout], every answer is no and
    the breaker is still open with the same opening time. *)
Theorem open_until_cooldown tag cs cb :
  state_of tag cb = CircuitState.open →
  0 ≤ failures_of tag cb → failures_of tag cb + Z.of_nat (length cs) ≤ INT_MAX →
  in_int64 (cooldown (config_ cb)) = true →
  Forall (asked_before (opened_at (get_or_create tag cb) + cooldown (config_ cb))) cs →
  ∃ answers cb', perform_all tag cs cb = Ok (answers, cb') ∧ Forall (λ a, a = false) answers ∧
    state_of tag cb' = CircuitState.open ∧
    opened_at (get_or_create tag cb') = opened_at (get_or_create tag cb).
Proof.
  intros Hs H0 Hn Hcd Hcs.
  assert (Hf : failures_of tag cb = failure_count (get_or_create tag cb)).
  { unfold failures_of, get_or_create. by destruct (entries_ cb !! tag). }
  rewrite Hf in *. rewrite state_of_get in Hs. eapply (perform_all_open tag cs cb); try done.
Qed.

(** ** Witnesses *)

Definition w_breaker_config : CircuitBreakerConfig :=
  Build_CircuitBreakerConfig (Some 2) (Some 1) (Some 1) (Some 1000).

Lemma breaker_opens_on_run_witness :
  ∃ cb, perform_all "vpn" (outcome_call <$> [Some 1; None; Some 2; Some 3; None])
          (new_CircuitBreaker w_breaker_config) = Ok ([], cb) ∧
    state_of "vpn" cb = CircuitState.open.
Proof.
  destruct (breaker_opens_on_run "vpn" w_breaker_config [Some 1; None; Some 2; Some 3; None])
    as (cb & E & [_ Ho] & _); [done|done|].
  exists cb. split; [done|]. apply Ho.
  exists [Some 1; None], [Some 2; Some 3], [None]. repeat split.
  repeat (apply Forall_cons; split; [by eexists|]). by apply Forall_nil.
Defined.

Definition w_open_breaker : CircuitBreaker :=
  mk_CircuitBreaker w_breaker_config
    {[ str "vpn" := mk_Entry CircuitState.open 2 0 0 50 50 ]}.

Lemma open_until_cooldown_witness :
  ∃ answers cb', perform_all "vpn" [Allowed 60; Failure 70; Success; Allowed 1000000049]
                   w_open_breaker = Ok (answers, cb') ∧ Forall (λ a, a = false) answers.
Proof.
  destruct (open_until_cooldown "vpn" [Allowed 60; Failure 70; Success; Allowed 1000000049]
    w_open_breaker) as (a & cb' & E & Ha & _); [reflexivity|done|done|reflexivity| |by exists a, cb'].
  repeat (apply Forall_cons; split; [done|]). by apply Forall_nil.
Defined.
