(* ===== verification/UrlTest.v ===== *)
(** * Choosing the outbound of a urltest (src/src/routing/urltest_manager.{hpp,cpp},
      src/src/health/url_tester.{hpp,cpp})

    The prober of one child, the registry of urltest outbounds with a circuit
    breaker per child, the asynchronous probes and the selection. *)

From S2P Require Import Prelude CppString Config CircuitBreaker.

Local Open Scope Z_scope.

(** ** The prober *)

Record URLTestResult := mk_Result { success : bool; latency_ms : Z; error : cstring }.

Record HttpTransportRequest := {
  req_url : cstring;
  req_timeout_ms : Z;
  user_agent : cstring;
  req_fwmark : Z;
  max_redirects : Z;
  req_headers : list cstring;
  method : cstring;
  req_body : cstring;
  discard_body : bool;
  max_response_size : Z;
}.

Record HttpTransportResponse := {
  status_code : Z;
  resp_body : cstring;
  resp_headers : gmap cstring cstring;
  elapsed : Z;
}.

Section prober.
(** The transport: the answer to the [n]-th request made. *)
Context (perform : nat → HttpTransportRequest → exc HttpTransportResponse).

Definition test_once (n : nat) (url : cstring) (fwmark timeout_ms : Z) : exc URLTestResult :=
  let request := Build_HttpTransportRequest url timeout_ms "keen-pbr-urltest" fwmark 3
                   [] "GET" "" true (8 * 1024 * 1024) in
  match perform n request with
  | Ok response =>
      if (200 <=? status_code response) && (status_code response <? 300)
      then Ok (mk_Result true (u32 (elapsed response)) [])
      else Ok (mk_Result false 0 ("HTTP " ++ to_string (status_code response)))
  | Throw (HttpTransportError what) => Ok (mk_Result false 0 what)
  | Throw e => Throw e
  | Undefined => Undefined
  end.

(** The attempts from number [n] on; [last_error] is [best.error]. *)
Fixpoint test_loop (left_ : nat) (n : nat) (url : cstring) (fwmark timeout_ms : Z)
    (last_error : cstring) : exc URLTestResult :=
  match left_ with
  | O => Ok (mk_Result false 0 last_error)
  | S left_ =>
      result ← test_once n url fwmark timeout_ms;
      if success result then Ok result
      else test_loop left_ (S n) url fwmark timeout_ms (error result)
  end.

Definition test (url : cstring) (fwmark timeout_ms : Z) (retry : RetryConfig) : exc URLTestResult :=
  test_loop (Z.to_nat (u32 (value_or (attempts retry) 1))) 0 url fwmark timeout_ms
    "No attempts made".
End prober.

Definition kDefaultUrltestProbeTimeoutMs : Z := 5000.

(** ** The state of a urltest outbound *)

Record UrltestState := mk_UrltestState {
  ut_config : Outbound;
  last_results : gmap cstring URLTestResult;
  circuit_breakers : gmap cstring CircuitBreaker;
  selected_outbound : cstring;
  scheduler_task_id : Z;
  probe_inflight : bool;
  generation : Z;
}.

Definition set_breakers (cbs : gmap cstring CircuitBreaker) (st : UrltestState) : UrltestState :=
  mk_UrltestState (ut_config st) (last_results st) cbs (selected_outbound st)
    (scheduler_task_id st) (probe_inflight st) (generation st).
Definition set_selected (child : cstring) (st : UrltestState) : UrltestState :=
  mk_UrltestState (ut_config st) (last_results st) (circuit_breakers st) child
    (scheduler_task_id st) (probe_inflight st) (generation st).
Definition set_probe (inflight : bool) (gen : Z) (st : UrltestState) : UrltestState :=
  mk_UrltestState (ut_config st) (last_results st) (circuit_breakers st) (selected_outbound st)
    (scheduler_task_id st) inflight gen.
Definition set_result (child : cstring) (r : URLTestResult) (st : UrltestState) : UrltestState :=
  mk_UrltestState (ut_config st) (<[child := r]> (last_results st)) (circuit_breakers st)
    (selected_outbound st) (scheduler_task_id st) (probe_inflight st) (generation st).

Definition groups_of (ob : Outbound) : list OutboundGroup := value_or (outbound_groups ob) [].
Definition children_of (ob : Outbound) : list cstring := concat (group_outbounds <$> groups_of ob).

(** Whole seconds, one at least. *)
Definition normalize_interval_seconds (ob : Outbound) : Z :=
  let interval := Z.quot (value_or (interval_ms ob) 180000) 1000 in
  if interval <? 1 then 1 else interval.

(** [circuit_breakers.emplace] keeps the first breaker of a repeated child. *)
Definition initial_breakers (ob : Outbound) : gmap cstring CircuitBreaker :=
  foldl (λ cbs child,
           match cbs !! child with
           | Some _ => cbs
           | None => <[child := new_CircuitBreaker
                                  (value_or (circuit_breaker ob) default_CircuitBreakerConfig)]> cbs
           end) ∅ (children_of ob).

(** ** The selection *)

(** The latency of a child that may be selected: its breaker is not open and
    its last probe succeeded. *)
Definition child_latency (st : UrltestState) (child : cstring) : option Z :=
  match circuit_breakers st !! child with
  | None => None
  | Some cb =>
      if bool_decide (state_of child cb = CircuitState.open) then None
      else match last_results st !! child with
      | Some r => if success r then Some (latency_ms r) else None
      | None => None
      end
  end.

Definition min_latency (st : UrltestState) (children : list cstring) : Z :=
  foldl (λ m child, match child_latency st child with Some l => Z.min m l | None => m end)
    UINT32_MAX children.

Definition tolerance (st : UrltestState) : Z := u32 (value_or (tolerance_ms (ut_config st)) 100).

Definition within_tolerance (st : UrltestState) (m : Z) (child : cstring) : bool :=
  match child_latency st child with
  | Some l => l <=? u32 (m + tolerance st)
  | None => false
  end.

(** One iteration over the groups; [Some] is a [return]. *)
Definition select_in_group (st : UrltestState) (children : list cstring) : option cstring :=
  let m := min_latency st children in
  if m =? UINT32_MAX then None
  else if negb (bool_decide (selected_outbound st = [])) &&
          bool_decide (selected_outbound st ∈ children) &&
          within_tolerance st m (selected_outbound st)
  then Some (selected_outbound st)
  else find_if (within_tolerance st m) children.

Definition group_weight (g : OutboundGroup) : Z := u32 (value_or (weight g) 1).

Record GroupRef := mk_GroupRef { index : nat; ref_weight : Z }.
Definition ref_lt (lhs rhs : GroupRef) : bool := ref_weight lhs <? ref_weight rhs.

Definition group_refs (groups : list OutboundGroup) : list GroupRef :=
  imap (λ i g, mk_GroupRef i (group_weight g)) groups.

Fixpoint select_loop (st : UrltestState) (groups : list OutboundGroup) (refs : list GroupRef) :
    cstring :=
  match refs with
  | [] => []
  | r :: refs =>
      match groups !! index r ≫= λ g, select_in_group st (group_outbounds g) with
      | Some child => child
      | None => select_loop st groups refs
      end
  end.

Definition select_state {SS : StdSort} (st : UrltestState) : cstring :=
  match outbound_groups (ut_config st) with
  | None => []
  | Some groups => select_loop st groups (std_sort ref_lt (group_refs groups))
  end.

(** ** The manager and its surroundings *)

Record TestCandidate := {
  child_tag : cstring;
  cand_url : cstring;
  fwmark : Z;
  cand_timeout_ms : Z;
  cand_retry : RetryConfig;
}.

(** A probe handed to the executor, and results handed to the control thread. *)
Record probe := mk_probe { p_tag : cstring; p_generation : Z; p_candidates : list TestCandidate }.
(** [results] is a [std::map]: one result per child, in the order of the keys. *)
Record commit := mk_commit { c_tag : cstring; c_generation : Z;
                             c_results : list (cstring * URLTestResult) }.

Record UrltestManager := mk_Manager {
  states_ : gmap cstring UrltestState;
  generation_ : Z;
}.

(** The scheduler as the manager uses it. *)
Class TaskScheduler (S : Type) := {
  schedule_repeating : Z → cstring → stexc S Z;
  cancel : Z → stexc S unit;
}.

(** The manager, the scheduler, the probes posted and not finished, the
    results not yet committed and the calls made to [on_change_]. *)
Record world (S : Type) := mk_world {
  sched : S;
  mgr : UrltestManager;
  probes : list probe;
  commits : list commit;
  changes : list (cstring * cstring);
}.
Arguments mk_world {_}.
Arguments sched {_}.
Arguments mgr {_}.
Arguments probes {_}.
Arguments commits {_}.
Arguments changes {_}.

Section manager.
Context {S : Type} `{!TaskScheduler S} {SS : StdSort}.
Abbreviation M := (stexc (world S)).

Definition get_mgr : M UrltestManager := λ w, (Ok (mgr w), w).
Definition put_mgr (m : UrltestManager) : M unit := λ w,
  (Ok tt, mk_world (sched w) m (probes w) (commits w) (changes w)).
Definition on_sched {A} (op : stexc S A) : M A := λ w,
  let '(r, s) := op (sched w) in
  (r, mk_world s (mgr w) (probes w) (commits w) (changes w)).
Definition post_probe (p : probe) : M unit := λ w,
  (Ok tt, mk_world (sched w) (mgr w) (probes w ++ [p]) (commits w) (changes w)).
Definition notify_change (t child : cstring) : M unit := λ w,
  (Ok tt, mk_world (sched w) (mgr w) (probes w) (commits w) (changes w ++ [(t, child)])).
Definition lift {A} (r : exc A) : M A := λ w, (r, w).

Definition set_state (t : cstring) (st : UrltestState) (m : UrltestManager) : UrltestManager :=
  mk_Manager (<[t := st]> (states_ m)) (generation_ m).

(** The loop over the children: [clock k] is the [k]-th reading of the clock. *)
Fixpoint collect_candidates (ob : Outbound) (marks : OutboundMarkMap) (clock : nat → Z) (k : nat)
    (children : list cstring) (cbs : gmap cstring CircuitBreaker) :
    exc (list TestCandidate * gmap cstring CircuitBreaker) :=
  match children with
  | [] => Ok ([], cbs)
  | child :: children =>
      match marks !! child, cbs !! child with
      | Some mark, Some cb =>
          r ← is_allowed child (clock k) cb;
          if r.1 : bool then
            rest ← collect_candidates ob marks clock (k + 1) children
                     (<[child := begin_request child r.2]> cbs);
            mret ({| child_tag := child;
                     cand_url := value_or (url ob) [];
                     fwmark := mark;
                     cand_timeout_ms := u32 (value_or (probe_timeout_ms ob)
                                               kDefaultUrltestProbeTimeoutMs);
                     cand_retry := value_or (retry ob) default_RetryConfig |} :: rest.1, rest.2)
          else collect_candidates ob marks clock (k + 1) children (<[child := r.2]> cbs)
      | _, _ => collect_candidates ob marks clock k children cbs
      end
  end.

Definition end_candidate (cbs : gmap cstring CircuitBreaker) (c : TestCandidate) :
    gmap cstring CircuitBreaker :=
  match cbs !! child_tag c with
  | Some cb => <[child_tag c := end_request (child_tag c) cb]> cbs
  | None => cbs
  end.

Definition end_requests (candidates : list TestCandidate) (cbs : gmap cstring CircuitBreaker) :
    gmap cstring CircuitBreaker :=
  foldl end_candidate cbs candidates.

(** The first critical section of [queue_probe_unlocked]: [None] when it
    returns early, otherwise the probe to post. *)
Definition start_probe (marks : OutboundMarkMap) (clock : nat → Z) (t : cstring) : M (option probe) :=
  m ← get_mgr;
  match states_ m !! t with
  | None => mret None
  | Some st =>
      if probe_inflight st then mret None
      else
        let gen := generation_ m in
        let st := set_probe true gen st in
        r ← lift (collect_candidates (ut_config st) marks clock 0 (children_of (ut_config st))
                    (circuit_breakers st));
        put_mgr (mk_Manager (<[t := set_breakers r.2 st]> (states_ m)) (u64 (gen + 1))) ≫= λ _,
        mret (Some (mk_probe t gen r.1))
  end.

(** The rest: [enqueued] is the answer of the executor; on a refusal the second
    critical section undoes the first, unless the state is no longer the one
    the probe was started for. *)
Definition finish_probe (enqueued : bool) (p : probe) : M bool :=
  if enqueued then post_probe p ≫= λ _, mret true
  else
    m ← get_mgr;
    match states_ m !! p_tag p with
    | Some st =>
        if generation st =? p_generation p then
          put_mgr (set_state (p_tag p)
                     (set_breakers (end_requests (p_candidates p) (circuit_breakers st))
                        (set_probe false (generation st) st)) m) ≫= λ _, mret false
        else mret false
    | None => mret false
    end.

Definition queue_probe_unlocked (marks : OutboundMarkMap) (clock : nat → Z) (enqueued : bool)
    (t : cstring) : M bool :=
  started ← start_probe marks clock t;
  match started with
  | None => mret false
  | Some p => finish_probe enqueued p
  end.

(** The critical section of [register_urltest]; [states_.emplace] keeps a state
    that is already there. *)
Definition insert_urltest (ut : Outbound) : M unit :=
  task_id ← on_sched (schedule_repeating (normalize_interval_seconds ut * 1000) ("urltest:" ++ tag ut));
  m ← get_mgr;
  put_mgr (match states_ m !! tag ut with
           | Some _ => m
           | None => set_state (tag ut)
                       (mk_UrltestState ut ∅ (initial_breakers ut) [] task_id false 0) m
           end).

Definition register_urltest (marks : OutboundMarkMap) (clock : nat → Z) (enqueued : bool)
    (ut : Outbound) : M unit :=
  insert_urltest ut ≫= λ _,
  queue_probe_unlocked marks clock enqueued (tag ut) ≫= λ _, mret tt.

Definition trigger_immediate_test (marks : OutboundMarkMap) (clock : nat → Z) (enqueued : bool)
    (t : cstring) : M unit :=
  queue_probe_unlocked marks clock enqueued t ≫= λ _, mret tt.

Definition run_tests := trigger_immediate_test.

Fixpoint apply_results (clock : nat → Z) (k : nat) (results : list (cstring * URLTestResult))
    (st : UrltestState) : exc UrltestState :=
  match results with
  | [] => Ok st
  | (child, result) :: results =>
      match circuit_breakers st !! child with
      | None => apply_results clock k results st
      | Some cb =>
          let cb := end_request child cb in
          cb ← (if success result then Ok (record_success child cb)
                else record_failure child (clock k) cb);
          apply_results clock (k + 1) results
            (set_result child result (set_breakers (<[child := cb]> (circuit_breakers st)) st))
      end
  end.

Definition commit_probe_results (clock : nat → Z) (t : cstring) (gen : Z)
    (results : list (cstring * URLTestResult)) : M bool :=
  m ← get_mgr;
  match states_ m !! t with
  | None => mret false
  | Some st =>
      if negb (gen =? generation st) then mret false
      else
        st ← lift (apply_results clock 0 results (set_probe false (generation st) st));
        let new_selected := select_state st in
        let changed := negb (bool_decide (new_selected = selected_outbound st)) in
        put_mgr (set_state t (if changed then set_selected new_selected st else st) m) ≫= λ _,
        if changed then notify_change t new_selected ≫= λ _, mret true else mret false
  end.

Definition get_selected (m : UrltestManager) (t : cstring) : cstring :=
  match states_ m !! t with None => [] | Some st => selected_outbound st end.

Definition get_state (m : UrltestManager) (t : cstring) : option UrltestState := states_ m !! t.

Definition is_probe_current (m : UrltestManager) (t : cstring) (gen : Z) : bool :=
  match states_ m !! t with None => false | Some st => generation st =? gen end.

(** The states in the order of their tags. *)
Definition ordered_states (m : UrltestManager) : list UrltestState :=
  snd <$> stable_sort (λ x y, str_lt x.1 y.1) (map_to_list (states_ m)).

Definition clear : M unit :=
  m ← get_mgr;
  for_each (λ st, if 0 <=? scheduler_task_id st
                  then on_sched (cancel (scheduler_task_id st)) else mret tt)
    (ordered_states m) ≫= λ _,
  put_mgr (mk_Manager ∅ (u64 (generation_ m + 1))).
End manager.

(** ** What the selection promises *)

(** [child] may be selected. *)
Definition eligible (st : UrltestState) (child : cstring) : Prop := is_Some (child_latency st child).

(** The additions of the selection stay within 32 bits. *)
Definition latencies_bounded (st : UrltestState) : Prop :=
  ∀ child l, child_latency st child = Some l → 0 ≤ l ∧ l + tolerance st < UINT32_MAX.

Lemma tolerance_nonneg st : 0 ≤ tolerance st.
Proof. apply wrap_range. lia. Qed.

Lemma min_latency_spec st children :
  let m := min_latency st children in
  m ≤ UINT32_MAX ∧
  (∀ child l, child ∈ children → child_latency st child = Some l → m ≤ l) ∧
  (m = UINT32_MAX ∨ ∃ child, child ∈ children ∧ child_latency st child = Some m).
Proof.
  unfold min_latency. induction children as [|c children IH] using rev_ind; cbn zeta in *.
  { cbn. split; [done|]. split; [set_solver|]. by left. }
  rewrite foldl_app. cbn [foldl]. revert IH.
  generalize (foldl (λ m child, match child_latency st child with
                                 | Some l => Z.min m l | None => m end) UINT32_MAX children).
  intros m (Hle & Hmin & Hex). destruct (child_latency st c) as [l|] eqn:E.
  - split; [lia|]. split.
    + intros c' l' [Hc|Hc%list_elem_of_singleton]%elem_of_app Hl.
      * specialize (Hmin c' l' Hc Hl). lia.
      * subst c'. rewrite E in Hl. injection Hl as <-. lia.
    + destruct (Z.min_spec m l) as [[_ ->]|[_ ->]].
      * destruct Hex as [?|(c' & Hc & Hl)]; [by left|]. right. exists c'. set_solver.
      * right. exists c. set_solver.
  - split; [done|]. split.
    + intros c' l' [Hc|Hc%list_elem_of_singleton]%elem_of_app Hl; [by eapply Hmin|].
      subst c'. by rewrite E in Hl.
    + destruct Hex as [?|(c' & Hc & Hl)]; [by left|]. right. exists c'. set_solver.
Qed.

Lemma within_tolerance_spec st m child :
  0 ≤ m → m + tolerance st < UINT32_MAX →
  within_tolerance st m child = true ↔
  ∃ l, child_latency st child = Some l ∧ l ≤ m + tolerance st.
Proof.
  intros Hm Ht. unfold within_tolerance. pose proof (tolerance_nonneg st).
  rewrite wrap_small by (unfold UINT32_MAX in *; lia).
  destruct (child_latency st child) as [l|].
  - breflect. split; [eauto|]. by intros (? & [= <-] & ?).
  - split; [done|]. by intros (? & ? & ?).
Qed.

(** A good answer within one group. *)
Definition good_choice (st : UrltestState) (children : list cstring) (child : cstring) : Prop :=
  child ∈ children ∧
  (∃ l, child_latency st child = Some l ∧
     ∀ c' l', c' ∈ children → child_latency st c' = Some l' → l ≤ l' + tolerance st) ∧
  (∀ l, selected_outbound st ≠ [] → selected_outbound st ∈ children →
     child_latency st (selected_outbound st) = Some l →
     (∀ c' l', c' ∈ children → child_latency st c' = Some l' → l ≤ l' + tolerance st) →
     child = selected_outbound st).

Lemma select_in_group_spec st children :
  latencies_bounded st →
  match select_in_group st children with
  | Some child => good_choice st children child
  | None => ∀ child, child ∈ children → ¬ eligible st child
  end.
Proof.
  intros Hb. unfold select_in_group.
  destruct (min_latency_spec st children) as (Hle & Hmin & Hex). set (m := min_latency st children) in *.
  pose proof (tolerance_nonneg st) as Ht.
  destruct (m =? UINT32_MAX) eqn:E; breflect.
  { intros c Hc [l Hl]. specialize (Hmin c l Hc Hl). specialize (Hb c l Hl). lia. }
  destruct Hex as [?|(c0 & Hc0 & Hl0)]; [done|]. destruct (Hb c0 m Hl0) as [Hm0 Hm1].
  assert (Hgood : ∀ c, c ∈ children → within_tolerance st m c = true →
    ∃ l, child_latency st c = Some l ∧
     ∀ c' l', c' ∈ children → child_latency st c' = Some l' → l ≤ l' + tolerance st).
  { intros c Hc (l & Hl & Hlm)%within_tolerance_spec; [|done..]. exists l. split; [done|].
    intros c' l' Hc' Hl'. specialize (Hmin c' l' Hc' Hl'). lia. }
  destruct (negb _ && _ && _) eqn:Es; breflect.
  { destruct Es as [[_ Hin] Hw]. split; [done|]. by split; [apply Hgood|]. }
  destruct (find_if _ _) as [c|] eqn:Ef.
  - apply find_if_Some in Ef as [Hc Hw]. split; [done|]. split; [by apply Hgood|].
    intros l Hne Hin Hl Hlm. exfalso. destruct Es as [[Es|Es]|Es]; [done..|].
    assert (within_tolerance st m (selected_outbound st) = true); [|congruence].
    apply within_tolerance_spec; [done..|]. exists l. split; [done|]. by apply (Hlm c0 m).
  - rewrite find_if_None in Ef. specialize (Ef c0 Hc0).
    assert (within_tolerance st m c0 = true); [|congruence].
    apply within_tolerance_spec; [done..|]. exists m. split; [done|]. lia.
Qed.

Definition none_eligible (st : UrltestState) (g : OutboundGroup) : Prop :=
  ∀ child, child ∈ group_outbounds g → ¬ eligible st child.

#[export] Instance ref_lt_swo : StrictWeakOrder ref_lt.
Proof. split; unfold ref_lt; intros; breflect; lia. Qed.

Lemma elem_of_group_refs groups r :
  r ∈ group_refs groups ↔ ∃ g, groups !! index r = Some g ∧ ref_weight r = group_weight g.
Proof.
  unfold group_refs. rewrite list_elem_of_lookup. setoid_rewrite list_lookup_imap. split.
  - intros (i & Hi). destruct (groups !! i) as [g|] eqn:E; [|done]. injection Hi as <-. by exists g.
  - intros (g & Hg & Hw). exists (index r). rewrite Hg. cbn. by destruct r; cbn in *; subst.
Qed.

Lemma select_loop_spec st groups refs :
  latencies_bounded st → in_order ref_lt refs →
  (∀ r, r ∈ refs → r ∈ group_refs groups) →
  (select_loop st groups refs = [] ∧
   ∀ r g, r ∈ refs → groups !! index r = Some g → none_eligible st g) ∨
  (∃ r g, r ∈ refs ∧ groups !! index r = Some g ∧
     good_choice st (group_outbounds g) (select_loop st groups refs) ∧
     ∀ r' g', r' ∈ refs → groups !! index r' = Some g' → ref_weight r' < ref_weight r →
              none_eligible st g').
Proof.
  intros Hb. induction 1 as [|r refs Hs IH Hr]; intros Hrefs; cbn [select_loop].
  { left. split; [done|]. set_solver. }
  destruct (proj1 (elem_of_group_refs _ _) (Hrefs r ltac:(left))) as (g & Hg & Hw).
  rewrite Hg. cbn [mbind option_bind].
  pose proof (select_in_group_spec st (group_outbounds g) Hb) as Hgroup.
  destruct (select_in_group st (group_outbounds g)) as [child|].
  - right. exists r, g. repeat split; [left|done|apply Hgroup..|].
    intros r' g' [->|Hr']%elem_of_cons Hg' Hlt; [lia|].
    rewrite Forall_forall in Hr. specialize (Hr r' Hr'). unfold ref_lt in Hr. breflect. lia.
  - destruct IH as [[E Hnone]|(r1 & g1 & Hr1 & Hg1 & Hgood & Hbest)]; [set_solver|left|right].
    + split; [done|]. intros r' g' [->|Hr']%elem_of_cons Hg'; [|by eapply Hnone].
      rewrite Hg in Hg'. by injection Hg' as <-.
    + exists r1, g1. split; [by right|]. split; [done|]. split; [done|].
      intros r' g' [->|Hr']%elem_of_cons Hg' Hlt; [|by eapply Hbest].
      rewrite Hg in Hg'. by injection Hg' as <-.
Qed.

Lemma select_state_spec {SS : StdSort} st groups :
  outbound_groups (ut_config st) = Some groups → latencies_bounded st →
  (select_state st = [] ∧ ∀ g, g ∈ groups → none_eligible st g) ∨
  (∃ g, g ∈ groups ∧ good_choice st (group_outbounds g) (select_state st) ∧
     ∀ g', g' ∈ groups → group_weight g' < group_weight g → none_eligible st g').
Proof.
  intros Hg Hb. unfold select_state. rewrite Hg.
  assert (Hmem : ∀ g, g ∈ groups → ∃ r, r ∈ std_sort ref_lt (group_refs groups) ∧
    groups !! index r = Some g ∧ ref_weight r = group_weight g).
  { intros g [i Hi]%list_elem_of_lookup. exists (mk_GroupRef i (group_weight g)).
    rewrite std_sort_perm, elem_of_group_refs. cbn. eauto. }
  destruct (select_loop_spec st groups (std_sort ref_lt (group_refs groups)) Hb)
    as [[-> Hnone]|(r & g & Hr & Hgr & Hgood & Hbest)].
  - apply std_sort_in_order, _.
  - intros r. by rewrite std_sort_perm.
  - left. split; [done|]. intros g (r & Hr & Hgr & _)%Hmem. by eapply Hnone.
  - right. exists g. rewrite std_sort_perm, elem_of_group_refs in Hr.
    destruct Hr as (g' & Hg' & Hw). rewrite Hgr in Hg'. injection Hg' as <-.
    split; [by eapply list_elem_of_lookup_2|]. split; [done|].
    intros g' (r' & Hr' & Hgr' & Hw')%Hmem Hlt. eapply Hbest; [done|done|lia].
Qed.

(** ** The prober tries until it succeeds *)

Definition good_response (r : exc HttpTransportResponse) : bool :=
  match r with Ok r => (200 <=? status_code r) && (status_code r <? 300) | _ => false end.

Section prober_spec.
Context (perform : nat → HttpTransportRequest → exc HttpTransportResponse).
Context (url : cstring) (fwmark timeout_ms : Z).

Definition probe_request : HttpTransportRequest :=
  Build_HttpTransportRequest url timeout_ms "keen-pbr-urltest" fwmark 3 [] "GET" "" true (8 * 1024 * 1024).

(** The transport answers or reports its own error. *)
Definition answers (n : nat) : Prop :=
  match perform n probe_request with
  | Ok _ | Throw (HttpTransportError _) => True
  | _ => False
  end.

Definition good_attempt (n : nat) : bool := good_response (perform n probe_request).

Definition attempt_latency (n : nat) : Z :=
  match perform n probe_request with Ok r => u32 (elapsed r) | _ => 0 end.

Lemma test_once_spec n :
  answers n →
  ∃ r, test_once perform n url fwmark timeout_ms = Ok r ∧ success r = good_attempt n ∧
       (good_attempt n = true → r = mk_Result true (attempt_latency n) []).
Proof.
  unfold answers, test_once, good_attempt, good_response, attempt_latency. fold probe_request.
  destruct (perform n probe_request) as [resp|[]|]; try done; intros _.
  - destruct (_ && _); by eexists.
  - by eexists.
Qed.

Lemma test_loop_spec k n err :
  (∀ i, (n ≤ i < n + k)%nat → answers i) →
  ∃ r, test_loop perform k n url fwmark timeout_ms err = Ok r ∧
    match find_if good_attempt (seq n k) with
    | Some i => r = mk_Result true (attempt_latency i) []
    | None => success r = false
    end.
Proof.
  revert n err. induction k as [|k IH]; intros n err Ha; cbn [test_loop].
  { by eexists. }
  destruct (test_once_spec n) as (r & -> & Hs & Hr); [apply Ha; lia|].
  cbn [mbind exc_bind seq]. unfold find_if. cbn [List.find]. fold (find_if good_attempt (seq (S n) k)).
  rewrite Hs. destruct (good_attempt n).
  - eexists; split; [done|]. by apply Hr.
  - apply IH. intros i Hi. apply Ha. lia.
Qed.
End prober_spec.

(** ** Interleavings of probes, results, registrations and resets *)

(** Results for every child that was probed, one each. *)
Definition results_for (p : probe) (rs : list (cstring * URLTestResult)) : Prop :=
  NoDup rs.*1 ∧ ∀ child, child ∈ rs.*1 ↔ child ∈ child_tag <$> p_candidates p.

Section interleaving.
Context {S : Type} `{!TaskScheduler S} {SS : StdSort}.

(** A world and the probes started whose posting is still to come. *)
Record system := mk_system { the_world : world S; unposted : list probe }.

Definition drop_probe (l : list probe) (w : world S) : world S :=
  mk_world (sched w) (mgr w) l (commits w) (changes w).
Definition with_commits (l : list commit) (w : world S) : world S :=
  mk_world (sched w) (mgr w) (probes w) l (changes w).

(** One critical section, or one event of the executor or the control thread.
    In a [lossy] run an exception may end a probe without results and results
    may be discarded on the way to the control thread. *)
Inductive step (lossy : bool) : system → system → Prop :=
  | step_register ut r w w' u :
      insert_urltest ut w = (r, w') → step lossy (mk_system w u) (mk_system w' u)
  | step_start marks clock t p w w' u :
      start_probe marks clock t w = (Ok p, w') →
      step lossy (mk_system w u) (mk_system w' (option_list p ++ u))
  | step_post enqueued p r w w' u1 u2 :
      finish_probe enqueued p w = (Ok r, w') →
      step lossy (mk_system w (u1 ++ p :: u2)) (mk_system w' (u1 ++ u2))
  | step_abort p w u l1 l2 :
      probes w = l1 ++ p :: l2 → is_probe_current (mgr w) (p_tag p) (p_generation p) = false →
      step lossy (mk_system w u) (mk_system (drop_probe (l1 ++ l2) w) u)
  | step_results p rs w u l1 l2 :
      probes w = l1 ++ p :: l2 → results_for p rs →
      step lossy (mk_system w u)
        (mk_system (with_commits (commits w ++ [mk_commit (p_tag p) (p_generation p) rs])
                      (drop_probe (l1 ++ l2) w)) u)
  | step_commit clock c r w w' u l1 l2 :
      commits w = l1 ++ c :: l2 →
      commit_probe_results clock (c_tag c) (c_generation c) (c_results c)
        (with_commits (l1 ++ l2) w) = (Ok r, w') →
      step lossy (mk_system w u) (mk_system w' u)
  | step_clear r w w' u :
      clear w = (r, w') → step lossy (mk_system w u) (mk_system w' u)
  | step_lose_probe p w u l1 l2 :
      lossy = true → probes w = l1 ++ p :: l2 →
      step lossy (mk_system w u) (mk_system (drop_probe (l1 ++ l2) w) u)
  | step_lose_results c w u l1 l2 :
      lossy = true → commits w = l1 ++ c :: l2 →
      step lossy (mk_system w u) (mk_system (with_commits (l1 ++ l2) w) u).

Definition initial (s : S) : system :=
  mk_system (mk_world s (mk_Manager ∅ 1) [] [] []) [].

(** ** Tickets

    Every probe or result under way carries the tag and the generation it was
    started for, and the children it concerns. *)
Definition ticket : Type := (cstring * Z) * list cstring.

Definition probe_ticket (p : probe) : ticket :=
  ((p_tag p, p_generation p), child_tag <$> p_candidates p).
Definition commit_ticket (c : commit) : ticket := ((c_tag c, c_generation c), (c_results c).*1).

Definition tickets (s : system) : list ticket :=
  (probe_ticket <$> unposted s) ++ (probe_ticket <$> probes (the_world s)) ++
  (commit_ticket <$> commits (the_world s)).

Definition keys (s : system) : list (cstring * Z) := (tickets s).*1.

Definition active (child : cstring) (cb : CircuitBreaker) : Z :=
  half_open_active_requests (get_or_create child cb).

(** The bookkeeping of one registered urltest against the tickets under way. *)
Record accounted (lossy : bool) (ts : list ticket) (t : cstring) (st : UrltestState) : Prop := {
  acc_current : (t, generation st) ∈ ts.*1 → probe_inflight st = true;
  acc_inflight : lossy = false → probe_inflight st = true → (t, generation st) ∈ ts.*1;
  acc_active : lossy = false → NoDup (children_of (ut_config st)) →
    ∀ child cb, circuit_breakers st !! child = Some cb →
      active child cb = 0 ∨
      (active child cb = 1 ∧ ∃ cs, ((t, generation st), cs) ∈ ts ∧ child ∈ cs);
}.

Record Inv (lossy : bool) (n : nat) (s : system) : Prop := {
  inv_gen : 1 ≤ generation_ (mgr (the_world s)) ≤ 1 + Z.of_nat n;
  inv_keys : ∀ t g, (t, g) ∈ keys s → 1 ≤ g < generation_ (mgr (the_world s));
  inv_nodup : NoDup (keys s).*2;
  inv_states : ∀ t st, states_ (mgr (the_world s)) !! t = Some st →
    0 ≤ generation st < generation_ (mgr (the_world s)) ∧ accounted lossy (tickets s) t st;
}.

Lemma elem_of_keys (ts : list ticket) k : k ∈ ts.*1 ↔ ∃ cs, (k, cs) ∈ ts.
Proof.
  rewrite list_elem_of_fmap. split.
  - intros ([k' cs] & -> & H). by exists cs.
  - intros [cs H]. by exists (k, cs).
Qed.

(** Replacing tickets by tickets of the same keys that cover the same children. *)
Lemma Inv_transfer lossy n s s' :
  mgr (the_world s') = mgr (the_world s) → keys s' ≡ₚ keys s →
  (∀ k cs, (k, cs) ∈ tickets s → ∃ cs', (k, cs') ∈ tickets s' ∧ ∀ c, c ∈ cs → c ∈ cs') →
  Inv lossy n s → Inv lossy n s'.
Proof.
  intros Hm Hk Ht [Hg Hkeys Hnd Hst]. split; rewrite ?Hm.
  - done.
  - intros t g. rewrite Hk. apply Hkeys.
  - by rewrite Hk.
  - intros t st Hlook. destruct (Hst t st Hlook) as [Hgen [H1 H2 H3]]. split; [done|].
    fold (keys s) in *. split; fold (keys s').
    + by rewrite Hk.
    + by rewrite Hk.
    + intros Hl Hc child cb Hcb. destruct (H3 Hl Hc child cb Hcb) as [?|(Ha & cs & Hcs & Hin)]; [by left|].
      right. destruct (Ht _ _ Hcs) as (cs' & Hcs' & Hsub). split; [done|]. eauto.
Qed.

(** Dropping a ticket that no state waits for, or any ticket of a lossy run. *)
Lemma Inv_drop lossy n s s' k cs :
  mgr (the_world s') = mgr (the_world s) → tickets s ≡ₚ (k, cs) :: tickets s' →
  (lossy = true ∨ ∀ st, states_ (mgr (the_world s)) !! k.1 = Some st → generation st ≠ k.2) →
  Inv lossy n s → Inv lossy n s'.
Proof.
  intros Hm Hp Hcur [Hg Hkeys Hnd Hst].
  assert (Hk : keys s ≡ₚ k :: keys s') by (unfold keys; by rewrite Hp).
  split; rewrite ?Hm.
  - done.
  - intros t g H. apply (Hkeys t). rewrite Hk. by right.
  - rewrite Hk in Hnd. by apply NoDup_cons in Hnd as [_ ?].
  - intros t st Hlook. destruct (Hst t st Hlook) as [Hgen [H1 H2 H3]]. split; [done|].
    fold (keys s) in *. split; fold (keys s').
    + intros H. apply H1. rewrite Hk. by right.
    + intros Hl Hi. specialize (H2 Hl Hi). rewrite Hk in H2.
      apply elem_of_cons in H2 as [<-|?]; [|done]. destruct Hcur as [->|Hcur]; [done|].
      by destruct (Hcur st Hlook).
    + intros Hl Hc child cb Hcb. destruct (H3 Hl Hc child cb Hcb) as [?|(Ha & cs' & Hcs & Hin)]; [by left|].
      right. split; [done|]. exists cs'. split; [|done]. rewrite Hp in Hcs.
      apply elem_of_cons in Hcs as [[= <- <-]|?]; [|done]. destruct Hcur as [->|Hcur]; [done|].
      by destruct (Hcur st Hlook).
Qed.

Lemma Inv_mono lossy n s : Inv lossy n s → Inv lossy (Datatypes.S n) s.
Proof. intros [Hg ? ? ?]. split; [|done..]. lia. Qed.

(** ** The breakers *)

Lemma initial_breakers_inactive ut child cb :
  initial_breakers ut !! child = Some cb → active child cb = 0.
Proof.
  unfold initial_breakers. revert child cb.
  induction (children_of ut) as [|c cs IH] using rev_ind; intros child cb; [done|].
  rewrite foldl_app. cbn [foldl]. case_match; [by apply IH|].
  destruct (decide (child = c)) as [->|Hne].
  - rewrite lookup_insert_eq. intros [= <-]. unfold active, get_or_create. cbn. by rewrite lookup_empty.
  - rewrite lookup_insert_ne by done. apply IH.
Qed.

Lemma is_allowed_active child now cb r :
  is_allowed child now cb = Ok r → active child cb = 0 → active child r.2 = 0.
Proof.
  unfold is_allowed, active. intros (e & He & [= <-])%exc_bind_Ok Ha. cbn [snd].
  rewrite get_set_entry. unfold entry_allowed in He. repeat case_match; simplify_eq/=; done.
Qed.

Lemma begin_request_active child cb :
  active child cb = 0 → active child (begin_request child cb) = 0 ∨ active child (begin_request child cb) = 1.
Proof.
  unfold active, begin_request. rewrite get_set_entry. intros Ha. unfold entry_begin.
  case_match; [by left|by left|]. right. cbn. by rewrite Ha.
Qed.

Lemma end_request_active child cb :
  active child cb = 0 ∨ active child cb = 1 → active child (end_request child cb) = 0.
Proof.
  unfold active, end_request. rewrite get_set_entry. intros Ha. unfold entry_end.
  destruct (0 <? _) eqn:E; breflect; cbn; lia.
Qed.

Lemma record_success_active child cb : active child cb = 0 → active child (record_success child cb) = 0.
Proof.
  unfold active, record_success. rewrite get_set_entry. intros Ha. unfold entry_success.
  repeat case_match; cbn; done.
Qed.

Lemma record_failure_active child now cb cb' :
  record_failure child now cb = Ok cb' → active child cb = 0 → active child cb' = 0.
Proof.
  unfold active, record_failure. intros (e & He & [= <-])%exc_bind_Ok Ha.
  rewrite get_set_entry. unfold entry_failure in He. repeat case_match; simplify_eq/=; done.
Qed.

(** Collecting the candidates begins at most one request per child, and only
    for the children it returns. *)
Lemma collect_candidates_active ob marks clock k children cbs cands cbs' :
  NoDup children →
  collect_candidates ob marks clock k children cbs = Ok (cands, cbs') →
  (∀ child cb, child ∈ children → cbs !! child = Some cb → active child cb = 0) →
  (∀ child, child ∉ children → cbs' !! child = cbs !! child) ∧
  (∀ child cb, child ∈ children → cbs' !! child = Some cb →
     active child cb = 0 ∨ (active child cb = 1 ∧ child ∈ child_tag <$> cands)).
Proof.
  revert k cbs cands. induction children as [|c children IH]; intros k cbs cands Hnd.
  { intros [= <- <-] _. split; [done|]. set_solver. }
  apply NoDup_cons in Hnd as [Hc Hnd]. cbn [collect_candidates].
  assert (Hskip : ∀ k cbs1 cands, collect_candidates ob marks clock k children cbs1 = Ok (cands, cbs') →
    (∀ child cb, child ∈ c :: children → cbs !! child = Some cb → active child cb = 0) →
    (∀ child, child ≠ c → cbs1 !! child = cbs !! child) →
    (∀ child, child ∉ c :: children → cbs' !! child = cbs !! child) ∧
    cbs' !! c = cbs1 !! c ∧
    (∀ child cb, child ∈ children → cbs' !! child = Some cb →
     active child cb = 0 ∨ (active child cb = 1 ∧ child ∈ child_tag <$> cands))).
  { intros k1 cbs1 cands1 Hcol H0 Hsame. destruct (IH _ _ _ Hnd Hcol) as [H1 H2].
    { intros child cb Hin Hlook. apply (H0 child); [by right|]. rewrite <- Hsame; [done|]. by intros ->. }
    split; [|split; [by apply H1|done]]. intros child [Hne Hn]%not_elem_of_cons.
    rewrite H1 by done. by apply Hsame. }
  assert (Hpass : ∀ k cands, collect_candidates ob marks clock k children cbs = Ok (cands, cbs') →
    (∀ child cb, child ∈ c :: children → cbs !! child = Some cb → active child cb = 0) →
    (∀ child, child ∉ c :: children → cbs' !! child = cbs !! child) ∧
    (∀ child cb, child ∈ c :: children → cbs' !! child = Some cb →
     active child cb = 0 ∨ (active child cb = 1 ∧ child ∈ child_tag <$> cands))).
  { intros k1 cands1 Hcol H0. destruct (Hskip _ _ _ Hcol H0 ltac:(done)) as (H1 & H2 & H3).
    split; [done|]. intros child cb [->|Hin]%elem_of_cons Hlook; [|by apply H3].
    left. apply (H0 c); [left|]. by rewrite <- H2. }
  destruct (marks !! c) as [mark|]; [|by apply Hpass].
  destruct (cbs !! c) as [cb0|] eqn:Hcb0; [|by apply Hpass].
  intros ([ok cb1] & Hal & Hcol)%exc_bind_Ok H0. cbn [fst snd] in Hcol.
  assert (Ha1 : active c cb1 = 0) by (apply (is_allowed_active _ _ _ _ Hal), (H0 c); [left|done]).
  destruct ok.
  - apply exc_bind_Ok in Hcol as ([cands1 cbs1] & Hcol & Hret). injection Hret as <- <-.
    destruct (Hskip _ _ _ Hcol H0) as (H1 & H2 & H3); [by intros; rewrite lookup_insert_ne|].
    split; [done|]. cbn [snd fst fmap list_fmap] in *.
    intros child cb [->|Hin]%elem_of_cons Hlook.
    + rewrite H2, lookup_insert_eq in Hlook. injection Hlook as <-.
      destruct (begin_request_active c cb1 Ha1); [by left|]. right. split; [done|]. left.
    + destruct (H3 child cb Hin Hlook) as [?|[? ?]]; [by left|]. right. split; [done|]. by right.
  - destruct (Hskip _ _ _ Hcol H0) as (H1 & H2 & H3); [by intros; rewrite lookup_insert_ne|].
    split; [done|]. intros child cb [->|Hin]%elem_of_cons Hlook; [|by apply H3].
    rewrite H2, lookup_insert_eq in Hlook. injection Hlook as <-. by left.
Qed.

Lemma end_candidate_lookup cbs c child :
  end_candidate cbs c !! child =
  if decide (child = child_tag c) then end_request child <$> cbs !! child else cbs !! child.
Proof.
  unfold end_candidate. case_decide as Hc.
  - subst child. destruct (cbs !! child_tag c) eqn:E; [by rewrite lookup_insert_eq|by rewrite E].
  - case_match; [by rewrite lookup_insert_ne|done].
Qed.

Lemma end_requests_active cands cbs child cb :
  end_requests cands cbs !! child = Some cb →
  (∀ cb, cbs !! child = Some cb → active child cb = 0 ∨
     (active child cb = 1 ∧ child ∈ child_tag <$> cands)) →
  active child cb = 0.
Proof.
  unfold end_requests. revert cbs. induction cands as [|c cands IH]; intros cbs Hl H01; cbn [foldl] in Hl.
  { destruct (H01 cb Hl) as [?|[_ Hin]]; [done|]. set_solver. }
  apply (IH _ Hl). intros cb1. rewrite end_candidate_lookup. case_decide as Hc.
  - intros (cb0 & H0 & ->)%fmap_Some. left. apply end_request_active. destruct (H01 cb0 H0) as [?|[? _]]; auto.
  - intros H0. destruct (H01 cb1 H0) as [?|[? Hin]]; [by left|]. right. split; [done|].
    cbn in Hin. by apply elem_of_cons in Hin as [?|?].
Qed.

Lemma recorded_active (result : URLTestResult) child now cb cb' :
  (if success result then Ok (record_success child cb) else record_failure child now cb) = Ok cb' →
  active child cb = 0 → active child cb' = 0.
Proof.
  destruct (success result); [intros [= <-]; apply record_success_active|apply record_failure_active].
Qed.

Lemma apply_results_active clock k rs st st' child cb :
  apply_results clock k rs st = Ok st' → circuit_breakers st' !! child = Some cb →
  (∀ cb, circuit_breakers st !! child = Some cb → active child cb = 0 ∨
     (active child cb = 1 ∧ child ∈ rs.*1)) →
  active child cb = 0.
Proof.
  revert k st. induction rs as [|[c r] rs IH]; intros k st Hap Hl H01; cbn [apply_results] in Hap.
  { injection Hap as ->. destruct (H01 cb Hl) as [?|[_ Hin]]; [done|]. set_solver. }
  destruct (circuit_breakers st !! c) as [cb0|] eqn:E; cycle 1.
  { apply (IH _ _ Hap Hl). intros cb1 Hcb1. destruct (H01 cb1 Hcb1) as [?|[? Hin]]; [by left|].
    right. split; [done|]. cbn in Hin. apply elem_of_cons in Hin as [->|?]; [congruence|done]. }
  apply exc_bind_Ok in Hap as (cb1 & Hcb1 & Hap).
  apply (IH _ _ Hap Hl). cbn [set_result set_breakers circuit_breakers].
  intros cb2. destruct (decide (child = c)) as [->|Hne].
  - rewrite lookup_insert_eq. intros [= <-]. left. eapply recorded_active; [done|].
    apply end_request_active. destruct (H01 cb0 E) as [?|[? _]]; auto.
  - rewrite lookup_insert_ne by done. intros Hcb2. destruct (H01 cb2 Hcb2) as [?|[? Hin]]; [by left|].
    right. split; [done|]. cbn in Hin. by apply elem_of_cons in Hin as [?|?].
Qed.

Lemma apply_results_keeps clock k rs st st' :
  apply_results clock k rs st = Ok st' →
  ut_config st' = ut_config st ∧ generation st' = generation st ∧
  probe_inflight st' = probe_inflight st ∧ selected_outbound st' = selected_outbound st.
Proof.
  revert k st. induction rs as [|[c r] rs IH]; intros k st; cbn [apply_results].
  { by intros [= ->]. }
  destruct (circuit_breakers st !! c) as [cb0|]; [|apply IH].
  intros (cb1 & _ & (H1 & H2 & H3 & H4)%IH)%exc_bind_Ok. done.
Qed.

(** ** Every step keeps the books *)

(** Evaluate the monadic structure of a run. *)
Ltac run_in H :=
  cbv [mbind stexc_bind mret stexc_ret get_mgr put_mgr lift post_probe notify_change on_sched] in H.

(** Compare two lists of tickets up to order. *)
Ltac tickets_perm :=
  unfold tickets; cbn [unposted the_world probes commits drop_probe with_commits];
  rewrite ?fmap_app; cbn [fmap list_fmap]; solve_Permutation.

Lemma ticket_unique (ts ts' : list ticket) k cs cs' :
  NoDup ts.*1.*2 → ts ≡ₚ (k, cs) :: ts' → (k, cs') ∈ ts → cs' = cs.
Proof.
  intros Hnd Hp Hin. rewrite Hp in Hnd, Hin. apply elem_of_cons in Hin as [[= ->]|Hin]; [done|].
  cbn in Hnd. apply NoDup_cons in Hnd as [Hn _]. destruct Hn.
  apply list_elem_of_fmap. exists k. split; [done|]. apply elem_of_keys. eauto.
Qed.

(** The requests of a state whose ticket is at hand concern its children. *)
Lemma active_within lossy n s ts' t st cs child cb :
  Inv lossy n s → lossy = false → states_ (mgr (the_world s)) !! t = Some st →
  tickets s ≡ₚ ((t, generation st), cs) :: ts' → NoDup (children_of (ut_config st)) →
  circuit_breakers st !! child = Some cb →
  active child cb = 0 ∨ (active child cb = 1 ∧ child ∈ cs).
Proof.
  intros [_ _ Hnd Hst] Hl Hlook Hp Hc Hcb. destruct (Hst t st Hlook) as [_ [_ _ H3]].
  destruct (H3 Hl Hc child cb Hcb) as [?|(Ha & cs' & Hin & Hchild)]; [by left|]. right. split; [done|].
  by rewrite <- (ticket_unique _ _ _ _ _ Hnd Hp Hin).
Qed.

(** The ticket of a state is used up and the state no longer waits. *)
Lemma Inv_settle lossy n s s' t st st' cs :
  Inv lossy n s → states_ (mgr (the_world s)) !! t = Some st →
  mgr (the_world s') = set_state t st' (mgr (the_world s)) →
  tickets s ≡ₚ ((t, generation st), cs) :: tickets s' →
  generation st' = generation st → ut_config st' = ut_config st → probe_inflight st' = false →
  (lossy = false → NoDup (children_of (ut_config st)) →
   ∀ child cb, circuit_breakers st' !! child = Some cb → active child cb = 0) →
  Inv lossy n s'.
Proof.
  intros [Hg Hkeys Hnd Hst] Hlook Hm Hp Hgen Hcfg Hinf Hact.
  assert (Hk : keys s ≡ₚ (t, generation st) :: keys s') by (unfold keys; by rewrite Hp).
  assert (Hnot : ∀ t', (t', generation st) ∉ keys s').
  { intros t' Hin. rewrite Hk in Hnd. cbn in Hnd. apply NoDup_cons in Hnd as [Hn _].
    destruct Hn. apply list_elem_of_fmap. by exists (t', generation st). }
  split; rewrite ?Hm; cbn [set_state states_ generation_].
  - done.
  - intros t' g' H. apply (Hkeys t'). rewrite Hk. by right.
  - rewrite Hk in Hnd. by apply NoDup_cons in Hnd as [_ ?].
  - intros t' st1. destruct (decide (t' = t)) as [->|Hne].
    + rewrite lookup_insert_eq. intros [= <-]. destruct (Hst t st Hlook) as [Hgb _].
      rewrite Hgen. split; [done|]. split; rewrite ?Hgen, ?Hinf, ?Hcfg.
      * intros H. by destruct (Hnot t).
      * done.
      * intros Hl Hc child cb Hcb. left. by eapply Hact.
    + rewrite lookup_insert_ne by done. intros Hlook1.
      destruct (Hst t' st1 Hlook1) as [Hgb [H1 H2 H3]]. split; [done|].
      fold (keys s) in *. split; fold (keys s').
      * intros H. apply H1. rewrite Hk. by right.
      * intros Hl Hi. specialize (H2 Hl Hi). rewrite Hk in H2.
        apply elem_of_cons in H2 as [[= -> _]|?]; done.
      * intros Hl Hc child cb Hcb. destruct (H3 Hl Hc child cb Hcb) as [?|(Ha & cs' & Hin & Hch)]; [by left|].
        right. split; [done|]. exists cs'. split; [|done]. rewrite Hp in Hin.
        by apply elem_of_cons in Hin as [[= ->]|?].
Qed.

(** A started probe: the children whose requests it begins are on its ticket. *)
Lemma accounted_started lossy ts marks clock t st cands cbs gen :
  collect_candidates (ut_config st) marks clock 0 (children_of (ut_config st))
    (circuit_breakers st) = Ok (cands, cbs) →
  probe_inflight st = false → accounted lossy ts t st →
  accounted lossy (((t, gen), child_tag <$> cands) :: ts) t (set_breakers cbs (set_probe true gen st)).
Proof.
  intros Hcol Hinf [H1 H2 H3].
  assert (Hnot : ∀ cs, ((t, generation st), cs) ∉ ts).
  { intros cs Hcs. rewrite H1 in Hinf; [done|]. apply elem_of_keys. eauto. }
  split; cbn [set_breakers set_probe generation probe_inflight ut_config circuit_breakers].
  - done.
  - intros _ _. left.
  - intros Hl Hc child cb Hcb.
    destruct (collect_candidates_active _ _ _ _ _ _ _ _ Hc Hcol) as [Hout Hin].
    { intros c cb0 _ Hcb0. destruct (H3 Hl Hc c cb0 Hcb0) as [?|(_ & cs & Hcs & _)]; [done|].
      by destruct (Hnot cs). }
    destruct (decide (child ∈ children_of (ut_config st))) as [Hch|Hch].
    + destruct (Hin child cb Hch Hcb) as [?|[Ha Hcand]]; [by left|]. right. split; [done|].
      exists (child_tag <$> cands). split; [left|done].
    + rewrite (Hout child Hch) in Hcb.
      destruct (H3 Hl Hc child cb Hcb) as [?|(_ & cs & Hcs & _)]; [by left|]. by destruct (Hnot cs).
Qed.

(** Another urltest does not notice a new ticket. *)
Lemma accounted_other lossy ts t t' st gen cs :
  t' ≠ t → accounted lossy ts t' st → accounted lossy (((t, gen), cs) :: ts) t' st.
Proof.
  intros Hne [H1 H2 H3]. split; cbn [fmap list_fmap].
  - intros [[= -> _]|H]%elem_of_cons; [done|]. by apply H1.
  - intros Hl Hi. right. by apply H2.
  - intros Hl Hc child cb Hcb. destruct (H3 Hl Hc child cb Hcb) as [?|(Ha & cs' & Hin & Hch)]; [by left|].
    right. split; [done|]. exists cs'. split; [by right|done].
Qed.

Lemma Inv_start lossy n marks clock t p w w' u :
  2 + Z.of_nat n < 2 ^ 64 → start_probe marks clock t w = (Ok p, w') →
  Inv lossy n (mk_system w u) → Inv lossy (Datatypes.S n) (mk_system w' (option_list p ++ u)).
Proof.
  intros Hn Hrun HI. unfold start_probe in Hrun. run_in Hrun.
  destruct (states_ (mgr w) !! t) as [st|] eqn:Hlook; [|injection Hrun as <- <-; by apply Inv_mono].
  destruct (probe_inflight st) eqn:Hinf; [injection Hrun as <- <-; by apply Inv_mono|].
  destruct (collect_candidates _ _ _ _ _ _) as [[cands cbs]| |] eqn:Hcol; [|done..].
  injection Hrun as <- <-. cbn [option_list app].
  destruct HI as [Hg Hkeys Hnd Hst]. cbn [the_world mgr] in *.
  set (gen := generation_ (mgr w)) in *.
  assert (Hwrap : u64 (gen + 1) = gen + 1) by (apply wrap_small; lia).
  set (s := mk_system w u) in *.
  split; cbn [the_world mgr states_ generation_]; fold gen; rewrite ?Hwrap.
  - lia.
  - intros t' g' Hin. change (keys (mk_system _ _)) with ((t, gen) :: keys s) in Hin.
    apply elem_of_cons in Hin as [[= -> ->]|Hin]; [lia|]. specialize (Hkeys t' g' Hin). lia.
  - change (keys (mk_system _ _)) with ((t, gen) :: keys s). cbn [fmap list_fmap].
    apply NoDup_cons. split; [|done]. intros ([t' g'] & Heq & Hin)%list_elem_of_fmap.
    cbn in Heq. specialize (Hkeys t' g' Hin). lia.
  - intros t' st1. change (tickets (mk_system _ _)) with
      (((t, gen), child_tag <$> cands) :: tickets s).
    destruct (decide (t' = t)) as [->|Hne].
    + rewrite lookup_insert_eq. intros [= <-]. destruct (Hst t st Hlook) as [Hgb Hacc].
      split; [cbn; lia|]. by eapply accounted_started.
    + rewrite lookup_insert_ne by done. intros Hlook1. destruct (Hst t' st1 Hlook1) as [Hgb1 Hacc].
      split; [lia|]. by apply accounted_other.
Qed.

Lemma Inv_register lossy n ut r w w' u :
  insert_urltest ut w = (r, w') → Inv lossy n (mk_system w u) → Inv lossy n (mk_system w' u).
Proof.
  intros Hrun HI. unfold insert_urltest in Hrun. run_in Hrun.
  destruct (schedule_repeating _ _ (sched w)) as [[id| e|] sc]; cycle 1.
  1,2: injection Hrun as <- <-; by apply (Inv_transfer lossy n (mk_system w u)); eauto.
  injection Hrun as <- <-. cbn [mgr sched probes commits changes] in *.
  destruct (states_ (mgr w) !! tag ut) as [st|] eqn:Hlook.
  { apply (Inv_transfer lossy n (mk_system w u)); eauto. }
  destruct HI as [Hg Hkeys Hnd Hst]. split; try done.
  intros t st. cbn [the_world mgr set_state states_ generation_] in *.
  destruct (decide (t = tag ut)) as [->|Hne].
  - rewrite lookup_insert_eq. intros [= <-]. cbn [generation]. split; [lia|].
    split; cbn [generation probe_inflight circuit_breakers].
    + intros Hin. specialize (Hkeys _ _ Hin). lia.
    + done.
    + intros _ _ child cb Hcb. left. by eapply initial_breakers_inactive.
  - rewrite lookup_insert_ne by done. apply Hst.
Qed.

Lemma Inv_post lossy n enqueued p r w w' u1 u2 :
  finish_probe enqueued p w = (Ok r, w') →
  Inv lossy n (mk_system w (u1 ++ p :: u2)) → Inv lossy n (mk_system w' (u1 ++ u2)).
Proof.
  intros Hrun HI. set (s := mk_system w (u1 ++ p :: u2)) in *.
  destruct enqueued; unfold finish_probe in Hrun; run_in Hrun.
  { injection Hrun as <- <-.
    assert (Hp : tickets (mk_system (mk_world (sched w) (mgr w) (probes w ++ [p]) (commits w)
      (changes w)) (u1 ++ u2)) ≡ₚ tickets s).
    { subst s. tickets_perm. }
    apply (Inv_transfer lossy n s); [done|unfold keys; by rewrite Hp| |done].
    intros k cs Hin. exists cs. rewrite Hp. auto. }
  assert (Hp : ∀ w', probes w' = probes w → commits w' = commits w →
    tickets s ≡ₚ probe_ticket p :: tickets (mk_system w' (u1 ++ u2))).
  { intros w1 H1 H2. subst s. unfold tickets. cbn [unposted the_world]. rewrite H1, H2. tickets_perm. }
  destruct (states_ (mgr w) !! p_tag p) as [st|] eqn:Hlook; cycle 1.
  { injection Hrun as <- <-. eapply Inv_drop; [..|exact HI]; [done|by apply Hp|].
    right. cbn. intros st. by rewrite Hlook. }
  destruct (generation st =? p_generation p) eqn:Eg; breflect; injection Hrun as <- <-.
  - eapply (Inv_settle lossy n s _ (p_tag p) st); [done|done|done|..|done|done|done|].
    { rewrite Eg. by apply Hp. }
    intros Hl Hc child cb Hcb. cbn [set_breakers circuit_breakers] in Hcb.
    eapply end_requests_active; [done|]. intros cb0 Hcb0.
    eapply (active_within lossy n s _ _ st); try done. rewrite Eg. by apply (Hp w).
  - eapply Inv_drop; [..|exact HI]; [done|by apply Hp|]. right. cbn. intros st1.
    rewrite Hlook. by intros [= <-].
Qed.

Lemma Inv_commit lossy n clock c r w w' u l1 l2 :
  commits w = l1 ++ c :: l2 →
  commit_probe_results clock (c_tag c) (c_generation c) (c_results c)
    (with_commits (l1 ++ l2) w) = (Ok r, w') →
  Inv lossy n (mk_system w u) → Inv lossy n (mk_system w' u).
Proof.
  intros Hc Hrun HI. set (s := mk_system w u) in *.
  assert (Hp : ∀ w', probes w' = probes w → commits w' = l1 ++ l2 →
    tickets s ≡ₚ commit_ticket c :: tickets (mk_system w' u)).
  { intros w1 H1 H2. subst s. unfold tickets. cbn [unposted the_world]. rewrite H1, H2, Hc. tickets_perm. }
  unfold commit_probe_results in Hrun. run_in Hrun. cbn [with_commits mgr] in Hrun.
  destruct (states_ (mgr w) !! c_tag c) as [st|] eqn:Hlook; cycle 1.
  { injection Hrun as <- <-. eapply Inv_drop; [..|exact HI]; [done|by apply Hp|].
    right. cbn. intros st. by rewrite Hlook. }
  destruct (negb _) eqn:Eg; breflect.
  { injection Hrun as <- <-. eapply Inv_drop; [..|exact HI]; [done|by apply Hp|]. right. cbn.
    intros st1. rewrite Hlook. intros [= <-]. congruence. }
  destruct (apply_results _ _ _ _) as [st1| |] eqn:Hap; [|done..].
  destruct (apply_results_keeps _ _ _ _ _ Hap) as (Hcfg & Hgen & Hinf & _).
  cbn [set_probe ut_config generation probe_inflight] in Hcfg, Hgen, Hinf.
  set (changed := negb (bool_decide (select_state st1 = selected_outbound st1))) in *.
  set (st2 := if changed then set_selected (select_state st1) st1 else st1) in *.
  assert (H2 : generation st2 = generation st ∧ ut_config st2 = ut_config st ∧
    probe_inflight st2 = false ∧ circuit_breakers st2 = circuit_breakers st1)
    by (subst st2; by destruct changed).
  destruct H2 as (Hg2 & Hc2 & Hi2 & Hb2).
  assert (Hw : mgr w' = set_state (c_tag c) st2 (mgr w) ∧ probes w' = probes w ∧ commits w' = l1 ++ l2)
    by (destruct changed; injection Hrun as <- <-; done).
  destruct Hw as (Hm & Hpr & Hco).
  eapply (Inv_settle lossy n s _ (c_tag c) st st2); [done|done|done| |done|done|done|].
  { rewrite <- Eg. by apply Hp. }
  intros Hl Hch child cb Hcb. rewrite Hb2 in Hcb. eapply apply_results_active; [done|done|].
  intros cb0 Hcb0. eapply (active_within lossy n s _ _ st); try done. rewrite <- Eg. by apply (Hp w').
Qed.

(** The scheduler does not touch the manager. *)
Lemma cancel_loop_keeps (l : list UrltestState) (w w' : world S) r :
  for_each (λ st, if 0 <=? scheduler_task_id st
                  then on_sched (cancel (scheduler_task_id st)) else mret tt) l w = (r, w') →
  mgr w' = mgr w ∧ probes w' = probes w ∧ commits w' = commits w.
Proof.
  set (f := λ st : UrltestState, _). intros Hrun.
  assert (H : preserves (λ w1, mgr w1 = mgr w ∧ probes w1 = probes w ∧ commits w1 = commits w)
    (for_each f l)).
  { apply preserves_for_each. intros st _ w1 H1. unfold f, on_sched.
    destruct (0 <=? _); [|done]. by destruct (cancel _ _). }
  specialize (H w ltac:(done)). by rewrite Hrun in H.
Qed.

Lemma Inv_clear lossy n r w w' u :
  2 + Z.of_nat n < 2 ^ 64 → clear w = (r, w') →
  Inv lossy n (mk_system w u) → Inv lossy (Datatypes.S n) (mk_system w' u).
Proof.
  intros Hn Hrun HI. unfold clear in Hrun. cbv [mbind stexc_bind get_mgr] in Hrun.
  destruct (for_each _ _ _) as [r1 w1] eqn:Hloop.
  apply cancel_loop_keeps in Hloop as (Hm & Hp & Hc).
  assert (Ht : tickets (mk_system w1 u) = tickets (mk_system w u)) by (unfold tickets; cbn; by rewrite Hp, Hc).
  assert (Hsame : Inv lossy n (mk_system w1 u)).
  { apply (Inv_transfer lossy n (mk_system w u)); [done|unfold keys; by rewrite Ht| |done].
    rewrite Ht. eauto. }
  destruct r1 as [[]|e|]; [|injection Hrun as <- <-; by apply Inv_mono..].
  unfold put_mgr in Hrun. injection Hrun as <- <-. destruct Hsame as [Hg Hkeys Hnd Hst].
  cbn [the_world] in *. rewrite Hm in *.
  assert (Hwrap : u64 (generation_ (mgr w) + 1) = generation_ (mgr w) + 1) by (apply wrap_small; lia).
  split; cbn [the_world mgr generation_ states_]; rewrite ?Hwrap.
  - lia.
  - intros t g Hin. specialize (Hkeys t g Hin). lia.
  - done.
  - done.
Qed.

Lemma Inv_step lossy n s s' :
  2 + Z.of_nat n < 2 ^ 64 → step lossy s s' → Inv lossy n s → Inv lossy (Datatypes.S n) s'.
Proof.
  intros Hn Hstep HI. destruct Hstep as
    [ut r w w' u Hrun|marks clock t p w w' u Hrun|enq p r w w' u1 u2 Hrun|p w u l1 l2 Hl Hcur
    |p rs w u l1 l2 Hl [Hnd Hrs]|clock c r w w' u l1 l2 Hl Hrun|r w w' u Hrun|p w u l1 l2 Hloss Hl
    |c w u l1 l2 Hloss Hl].
  - by eapply Inv_mono, Inv_register.
  - by eapply Inv_start.
  - by eapply Inv_mono, Inv_post.
  - apply Inv_mono. eapply (Inv_drop _ _ (mk_system w u)); [done| |right|done].
    { unfold tickets. cbn [unposted the_world]. rewrite Hl. fold (probe_ticket p). tickets_perm. }
    cbn. intros st Hlook. unfold is_probe_current in Hcur. rewrite Hlook in Hcur. by breflect.
  - apply Inv_mono. apply (Inv_transfer _ _ (mk_system w u)); [done| | |done].
    + unfold keys, tickets. cbn [unposted the_world probes commits drop_probe with_commits].
      rewrite Hl, !fmap_app. cbn [fmap list_fmap probe_ticket commit_ticket fst c_tag c_generation].
      solve_Permutation.
    + intros k cs. unfold tickets. cbn [unposted the_world probes commits drop_probe with_commits].
      rewrite Hl, !fmap_app. cbn [fmap list_fmap]. rewrite !elem_of_app, elem_of_cons.
      intros Hin. destruct (decide ((k, cs) = probe_ticket p)) as [Heq|Hne]; cycle 1.
      { exists cs. rewrite !elem_of_app. naive_solver. }
      injection Heq as -> ->. exists rs.*1. rewrite !elem_of_app, list_elem_of_singleton.
      split; [by do 3 right|]. intros c. apply Hrs.
  - by eapply Inv_mono, Inv_commit.
  - by eapply Inv_clear.
  - apply Inv_mono. eapply (Inv_drop _ _ (mk_system w u)); [done| |by left|done].
    unfold tickets. cbn [unposted the_world]. rewrite Hl. fold (probe_ticket p). tickets_perm.
  - apply Inv_mono. eapply (Inv_drop _ _ (mk_system w u)); [done| |by left|done].
    unfold tickets. cbn [unposted the_world]. rewrite Hl. fold (commit_ticket c). tickets_perm.
Qed.

Lemma Inv_initial lossy s : Inv lossy 0 (initial s).
Proof.
  split; cbn; try done.
  - intros t g H. by apply elem_of_nil in H.
  - apply NoDup_nil_2.
Qed.

Lemma Inv_reachable lossy n s0 s :
  1 + Z.of_nat n < 2 ^ 64 → nsteps (step lossy) n (initial s0) s → Inv lossy n s.
Proof.
  revert s. induction n as [|n IH]; intros s Hn Hsteps.
  - inversion Hsteps; subst. apply Inv_initial.
  - apply nsteps_inv_r in Hsteps as (s1 & Hs1 & Hstep).
    apply (Inv_step _ _ s1); [lia|done|]. apply IH; [lia|done].
Qed.
End interleaving.

(** ** The contract of the manager *)

(** Only one of several keys of one urltest can carry its current generation. *)
Lemma one_current_key (m : UrltestManager) (ks : list (cstring * Z)) t : NoDup ks →
  (length (filter (λ k, k.1 = t ∧ is_probe_current m k.1 k.2 = true) ks) ≤ 1)%nat.
Proof.
  intros Hnd. apply (NoDup_filter (λ k, k.1 = t ∧ is_probe_current m k.1 k.2 = true)) in Hnd.
  assert (Hall : ∀ k, k ∈ filter (λ k, k.1 = t ∧ is_probe_current m k.1 k.2 = true) ks → ∃ st, states_ m !! t = Some st ∧ k = (t, generation st)).
  { intros [t' g] [[H1 H2] _]%list_elem_of_filter. cbn in *. subst t'. unfold is_probe_current in H2.
    destruct (states_ m !! t) as [st|]; [|done]. breflect. subst. eauto. }
  destruct (filter _ ks) as [|k1 [|k2 l]]; cbn; [lia..|]. exfalso.
  destruct (Hall k1) as (st1 & Hs1 & ->); [by left|]. destruct (Hall k2) as (st2 & Hs2 & ->); [by right; left|].
  rewrite Hs1 in Hs2. injection Hs2 as <-. apply NoDup_cons in Hnd as [Hnot _]. apply Hnot. by left.
Qed.

(** C28. At most one probe counts for a urltest: in every interleaving of
    registrations, triggers, probes, results and resets (below [2^64] steps), at
    most one probe or result under way carries the current generation of a
    registered urltest; there is one only while the urltest is marked as in
    flight and, unless probes or results get lost, whenever it is so marked.  No
    two under way have the same generation, and the result of any other, such
    as a probe begun before a reset that still runs, is discarded without any
    effect on the manager. *)
Theorem single_flight {S} `{!TaskScheduler S} {SS : StdSort} lossy n (s0 : S) s :
  1 + Z.of_nat n < 2 ^ 64 → nsteps (step lossy) n (initial s0) s →
  NoDup (keys s).*2 ∧
  (∀ t, (length (filter (λ k, k.1 = t ∧ is_probe_current (mgr (the_world s)) k.1 k.2 = true) (keys s)) ≤ 1)%nat) ∧
  (∀ t st, states_ (mgr (the_world s)) !! t = Some st →
    ((t, generation st) ∈ keys s → probe_inflight st = true) ∧
    (lossy = false → probe_inflight st = true → (t, generation st) ∈ keys s)) ∧
  (∀ clock t gen results, is_probe_current (mgr (the_world s)) t gen = false →
    commit_probe_results clock t gen results (the_world s) = (Ok false, the_world s)).
Proof.
  intros Hn Hsteps. destruct (Inv_reachable _ _ _ _ Hn Hsteps) as [_ _ Hnd Hst]. split_and!; [done| | |].
  - intros t. by apply one_current_key, (NoDup_fmap_1 snd).
  - intros t st Hlook. by destruct (Hst t st Hlook) as [_ [H1 H2 _]].
  - intros clock t gen results Hc. unfold commit_probe_results, is_probe_current in *.
    unfold mbind, stexc_bind, get_mgr. destruct (states_ (mgr (the_world s)) !! t) as [st|]; [|done]. by rewrite Z.eqb_sym, Hc.
Qed.

(** A recovering child is never starved: in every interleaving without lost
    probes, when no probe of a urltest with distinct children is in flight, no
    request is left counted against any of its children, so that a half-open
    child is admitted to the next probe. *)
Theorem half_open_child_is_probed {S} `{!TaskScheduler S} {SS : StdSort} n (s0 : S) s t st child cb now :
  1 + Z.of_nat n < 2 ^ 64 → nsteps (step false) n (initial s0) s →
  states_ (mgr (the_world s)) !! t = Some st → probe_inflight st = false →
  NoDup (children_of (ut_config st)) → circuit_breakers st !! child = Some cb →
  half_open_active_requests (get_or_create child cb) = 0 ∧
  (state_of child cb = CircuitState.half_open → 0 < request_limit (config_ cb) →
   ∃ cb', is_allowed child now cb = Ok (true, cb')).
Proof.
  intros Hn Hsteps Hlook Hinf Hc Hcb. destruct (Inv_reachable _ _ _ _ Hn Hsteps) as [_ _ _ Hst].
  destruct (Hst t st Hlook) as [_ [H1 _ H3]].
  assert (Ha : active child cb = 0).
  { destruct (H3 eq_refl Hc child cb Hcb) as [?|(_ & cs & Hcs & _)]; [done|].
    rewrite H1 in Hinf; [done|]. apply elem_of_keys. eauto. }
  split; [done|]. rewrite state_of_get. intros Hs Hlim. unfold is_allowed, entry_allowed.
  rewrite Hs. unfold active in Ha. rewrite Ha, (proj2 (Z.ltb_lt _ _) Hlim). by eexists.
Qed.

(** The selection is right: unless no child of any group has a breaker that
    is not open and a successful last probe, in which case the answer is
    empty, it is such a child of a group below which (by weight) no group has
    one, its latency is within the tolerance of the best of its group, and the
    current selection is kept whenever it qualifies in that group. *)
Theorem selection_is_best {SS : StdSort} st groups :
  outbound_groups (ut_config st) = Some groups → latencies_bounded st →
  (select_state st = [] ∧ ∀ g, g ∈ groups → none_eligible st g) ∨
  (∃ g, g ∈ groups ∧ good_choice st (group_outbounds g) (select_state st) ∧
     ∀ g', g' ∈ groups → group_weight g' < group_weight g → none_eligible st g').
Proof. apply select_state_spec. Qed.

(** A probe makes its attempts in order and stops at the first that gets a
    2xx answer, whose latency it reports; when none of the configured number
    of attempts does, it reports failure. *)
Theorem probe_stops_at_first_success perform url fwmark timeout_ms retry :
  (∀ i, answers perform url fwmark timeout_ms i) →
  ∃ r, test perform url fwmark timeout_ms retry = Ok r ∧
    match find_if (good_attempt perform url fwmark timeout_ms)
            (seq 0 (Z.to_nat (u32 (value_or (attempts retry) 1)))) with
    | Some i => r = mk_Result true (attempt_latency perform url fwmark timeout_ms i) []
    | None => success r = false
    end.
Proof. intros Ha. apply test_loop_spec. auto. Qed.

(** A tolerance near the top of the 32-bit range wraps the bound of the
    selection below the best latency, and a healthy child is not selected. *)
Definition w_urltest_config (tolerance : option Z) : Outbound :=
  Build_Outbound None None None None None None
    (Some [Build_OutboundGroup [str "a"; str "b"] (Some 1)]) None None None None None
    "auto" tolerance OutboundType.URLTEST (Some (str "http://probe/")).

Definition w_probed (tolerance : option Z) : UrltestState :=
  mk_UrltestState (w_urltest_config tolerance)
    {[ str "a" := mk_Result true 20 []; str "b" := mk_Result true 30 [] ]}
    {[ str "a" := new_CircuitBreaker default_CircuitBreakerConfig;
       str "b" := new_CircuitBreaker default_CircuitBreakerConfig ]}
    [] 1 false 1.

Theorem large_tolerance_selects_nothing {SS : StdSort} :
  select_state (w_probed (Some 4294967295)) = [] ∧
  eligible (w_probed (Some 4294967295)) "a" ∧
  select_state (w_probed (Some 4294967275)) = str "a".
Proof.
  assert (Hsort : ∀ r, std_sort ref_lt [r] = [r]).
  { intros r. apply Permutation_singleton_r, std_sort_perm. }
  unfold select_state. cbn [w_probed ut_config w_urltest_config outbound_groups].
  change (group_refs [Build_OutboundGroup [str "a"; str "b"] (Some 1)]) with [mk_GroupRef 0 1].
  rewrite Hsort. split; [vm_compute; done|]. split; [by exists 20|vm_compute; done].
Qed.

(** With [half_open_max_requests] 0 the request that ends the cooldown is the
    last one: a half-open child that needs a second success is never probed
    again, whatever the time. *)
Theorem zero_request_limit_starves child cb now :
  state_of child cb = CircuitState.half_open → request_limit (config_ cb) = 0 →
  0 ≤ half_open_active_requests (get_or_create child cb) →
  ∃ cb', is_allowed child now cb = Ok (false, cb').
Proof.
  rewrite state_of_get. intros Hs Hlim Ha. unfold is_allowed, entry_allowed. rewrite Hs, Hlim.
  rewrite (proj2 (Z.ltb_ge _ _) Ha). by eexists.
Qed.

(** ** Witnesses *)

(** A scheduler that only counts. *)
#[local] Instance counting_scheduler : TaskScheduler Z := {|
  schedule_repeating _ _ := λ s, (Ok s, s + 1);
  cancel _ := λ s, (Ok tt, s);
|}.
#[local] Existing Instance insertion_StdSort.

Definition w_ut : Outbound := w_urltest_config None.
Definition w_ut_marks : OutboundMarkMap := {[ str "a" := 256; str "b" := 512 ]}.
Definition w_clock : nat → Z := λ k, Z.of_nat k.
Definition w_results : list (cstring * URLTestResult) :=
  [(str "a", mk_Result true 20 []); (str "b", mk_Result false 0 "HTTP 500")].

Definition w_s0 : system := initial 1.
Definition w_s1 : system := mk_system (insert_urltest w_ut (the_world w_s0)).2 [].
Definition w_p : probe :=
  match start_probe w_ut_marks w_clock "auto" (the_world w_s1) with
  | (Ok (Some p), _) => p | _ => mk_probe [] 0 [] end.
Definition w_s2 : system :=
  mk_system (start_probe w_ut_marks w_clock "auto" (the_world w_s1)).2 [w_p].
Definition w_s3 : system := mk_system (finish_probe true w_p (the_world w_s2)).2 [].
Definition w_s4 : system :=
  mk_system (with_commits [mk_commit "auto" 1 w_results] (drop_probe [] (the_world w_s3))) [].
Definition w_s5 : system :=
  mk_system (commit_probe_results w_clock "auto" 1 w_results
               (with_commits [] (the_world w_s4))).2 [].

Lemma w_reachable2 : nsteps (step false) 2 (initial 1) w_s2.
Proof.
  apply (nsteps_l _ _ _ w_s1); [|apply (nsteps_l _ _ _ w_s2); [|apply nsteps_O]].
  - by eapply step_register.
  - apply (step_start false w_ut_marks w_clock "auto" (Some w_p) (the_world w_s1) _ []).
    vm_compute. reflexivity.
Defined.

Lemma w_reachable5 : nsteps (step false) 5 (initial 1) w_s5.
Proof.
  apply (nsteps_trans 2 3 _ _ _ w_reachable2).
  apply (nsteps_l _ _ _ w_s3); [|apply (nsteps_l _ _ _ w_s4); [|apply (nsteps_l _ _ _ w_s5); [|apply nsteps_O]]].
  - by apply (step_post false true w_p true (the_world w_s2) _ [] []).
  - apply (step_results false w_p w_results (the_world w_s3) [] [] []); [vm_compute; reflexivity|].
    split; [by apply (bool_decide_unpack _); vm_compute|]. done.
  - apply (step_commit false w_clock (mk_commit "auto" 1 w_results) true (the_world w_s4) _ [] [] []);
      vm_compute; reflexivity.
Defined.

Lemma single_flight_witness :
  NoDup (keys w_s2).*2 ∧ (str "auto", 1) ∈ keys w_s2.
Proof.
  destruct (single_flight false 2 1 w_s2 ltac:(done) w_reachable2) as (Hnd & _ & Hst & _).
  split; [exact Hnd|].
  destruct (states_ (mgr (the_world w_s2)) !! str "auto") as [st|] eqn:E; [|vm_compute in E; done].
  assert (Hg : generation st = 1 ∧ probe_inflight st = true).
  { vm_compute in E. injection E as <-. done. }
  destruct Hg as [Hg Hi]. destruct (Hst (str "auto") st E) as [_ H]. rewrite Hg in H. by apply H.
Defined.

Lemma half_open_child_is_probed_witness :
  ∃ st cb, states_ (mgr (the_world w_s5)) !! str "auto" = Some st ∧
    circuit_breakers st !! str "b" = Some cb ∧
    half_open_active_requests (get_or_create "b" cb) = 0.
Proof.
  destruct (states_ (mgr (the_world w_s5)) !! str "auto") as [st|] eqn:E; [|vm_compute in E; done].
  destruct (circuit_breakers st !! str "b") as [cb|] eqn:Eb.
  2: { vm_compute in E. injection E as <-. vm_compute in Eb. done. }
  exists st, cb. split; [done|]. split; [done|].
  apply (half_open_child_is_probed 5 1 w_s5 "auto" st "b" cb 0 ltac:(done) w_reachable5 E); [| |done].
  - vm_compute in E. by injection E as <-.
  - apply (bool_decide_unpack _). vm_compute in E. injection E as <-. vm_compute. done.
Defined.

Lemma selection_is_best_witness :
  ∃ groups, outbound_groups (ut_config (w_probed None)) = Some groups ∧
    select_state (w_probed None) = str "a" ∧
    ((select_state (w_probed None) = [] ∧ ∀ g, g ∈ groups → none_eligible (w_probed None) g) ∨
     (∃ g, g ∈ groups ∧ good_choice (w_probed None) (group_outbounds g) (select_state (w_probed None)) ∧
       ∀ g', g' ∈ groups → group_weight g' < group_weight g → none_eligible (w_probed None) g')).
Proof.
  eexists. split; [reflexivity|]. split; [vm_compute; done|].
  apply selection_is_best; [reflexivity|]. intros child l.
  unfold child_latency. cbn [w_probed circuit_breakers last_results].
  destruct (decide (child = str "a")) as [->|Ha]; [by intros [= <-]|].
  destruct (decide (child = str "b")) as [->|Hb]; [by intros [= <-]|].
  by rewrite lookup_insert_ne, lookup_singleton_ne by done.
Defined.

Definition w_transport : nat → HttpTransportRequest → exc HttpTransportResponse := λ n _,
  match n with
  | O => Throw (HttpTransportError "timeout")
  | _ => Ok (Build_HttpTransportResponse 204 [] ∅ (100 - Z.of_nat n))
  end.

Lemma probe_stops_at_first_success_witness :
  test w_transport "http://probe/" 256 5000 (Build_RetryConfig (Some 3) None) =
  Ok (mk_Result true 99 []).
Proof.
  destruct (probe_stops_at_first_success w_transport "http://probe/" 256 5000
    (Build_RetryConfig (Some 3) None)) as (r & -> & Hr); [by intros [|]|].
  vm_compute in Hr. by rewrite Hr.
Defined.
