(* ===== verification/ListStreamer.v ===== *)
(** * Streaming the sources of a list (src/src/lists/list_streamer.cpp,
      src/src/lists/list_set_usage.cpp, paths of src/src/cache/cache_manager.cpp)

    A list is fed to a visitor from its cached download, its local file and
    its inline entries; files are read in chunks with limits on the size of
    the file and of a line. *)

From S2P Require Import Prelude CppString Config AddrSpec FirewallRules ListParser.

Local Open Scope Z_scope.

(** ** Files

    What the system calls report for a path: [open], [fstat], and the results
    of the successive [read] calls (the end of the list is the end of file). *)

Inductive read_result := Read (bytes : cstring) | Interrupted | ReadError (error : cstring).

Record file_state := {
  open_error : option cstring;
  stat_error : option cstring;
  is_regular : bool;
  st_size : Z;
  reads : list read_result;
}.

Class Files := {
  file_at : cstring → file_state;
  path_exists : cstring → bool;
}.

(** [std::filesystem::path::operator/] *)
Definition path_join (dir name : cstring) : cstring :=
  if bool_decide (head name = Some "/"%char) then name
  else if bool_decide (dir = []) || bool_decide (last dir = Some "/"%char) then dir ++ name
  else dir ++ "/" ++ name.

Record CacheManager := { cache_dir_ : cstring; max_file_size_bytes_ : Z }.

Definition cache_path (cache : CacheManager) (name : cstring) : cstring :=
  path_join (cache_dir_ cache) (name ++ ".txt").
Definition has_cache `{!Files} (cache : CacheManager) (name : cstring) : bool :=
  path_exists (cache_path cache name).

(** ** The visitor *)

(** What a visitor has received, with the lists reported complete. *)
Record visited := mk_visited { received : Output; completed : list cstring }.

Definition kMaxLineBytes : nat := 4096.
Definition newline : ascii := chr 10.

Section streamer.
Context {IP : InetPton} {FS : Files}.

(** The reader's local variables: the line read so far, its number, the
    context of the parser. *)
Record reader := mk_reader { line : cstring; line_number : nat; context : ParseContext }.

Abbreviation M := (stexc visited).

Definition feed_line (path : cstring) (text : cstring) (n : nat) (ctx : ParseContext) : M ParseContext :=
  λ v, let '(ctx, out) := parse_line text path n (ctx, received v) in
       (Ok ctx, mk_visited out (completed v)).

(** The loop over the bytes of one chunk. *)
Fixpoint feed_bytes (path : cstring) (bytes : cstring) (r : reader) : M reader :=
  match bytes with
  | [] => mret r
  | c :: bytes =>
      if ascii_eqb c newline then
        ctx ← feed_line path (line r) (line_number r) (context r);
        feed_bytes path bytes (mk_reader [] (S (line_number r)) ctx)
      else if (kMaxLineBytes <=? length (line r))%nat then
        throw (runtime_error ("List line exceeds 4096-byte limit in " ++ path ++ " at line " ++
                              to_string (Z.of_nat (line_number r))))
      else feed_bytes path bytes (mk_reader (line r ++ [c]) (line_number r) (context r))
  end.

(** The rest of the file: what follows the [while] loop. *)
Definition finish_file (path : cstring) (r : reader) : M unit :=
  if bool_decide (line r = []) then mret tt
  else feed_line path (line r) (line_number r) (context r) ≫= λ _, mret tt.

Fixpoint read_loop (max_file_size : Z) (path : cstring) (rs : list read_result) (total_bytes : Z)
    (r : reader) : M unit :=
  match rs with
  | [] => finish_file path r
  | Interrupted :: rs => read_loop max_file_size path rs total_bytes r
  | ReadError error :: _ =>
      throw (runtime_error ("Failed to read list file " ++ path ++ ": " ++ error))
  | Read bytes :: rs =>
      if bool_decide (bytes = []) then finish_file path r
      else
        let total_bytes := total_bytes + Z.of_nat (length bytes) in
        if max_file_size <? total_bytes then
          throw (runtime_error ("List file exceeds configured size limit: " ++ path))
        else r ← feed_bytes path bytes r; read_loop max_file_size path rs total_bytes r
  end.

Definition stream_file (max_file_size : Z) (path : cstring) (log_invalid : bool) : M unit :=
  let f := file_at path in
  match open_error f with
  | Some error => throw (runtime_error ("Failed to open list file " ++ path ++ ": " ++ error))
  | None =>
  match stat_error f with
  | Some error => throw (runtime_error ("Failed to inspect list file " ++ path ++ ": " ++ error))
  | None =>
      if negb (is_regular f) then
        throw (runtime_error ("List source is not a regular file: " ++ path))
      else if (st_size f <? 0) || (max_file_size <? st_size f) then
        throw (runtime_error ("List file exceeds configured size limit: " ++ path))
      else read_loop max_file_size path (reads f) 0 (mk_reader [] 1 (mk_ParseContext log_invalid 0))
  end end.

(** The two loops over inline entries. *)
Fixpoint stream_inline (source : cstring) (items : list cstring) (n : nat) (ctx : ParseContext) :
    M (nat * ParseContext) :=
  match items with
  | [] => mret (n, ctx)
  | item :: items => ctx ← feed_line source item n ctx; stream_inline source items (S n) ctx
  end.

Definition on_list_complete (name : cstring) : M unit :=
  λ v, (Ok tt, mk_visited (received v) (completed v ++ [name])).

Definition stream_all_sources (cache : CacheManager) (name : cstring) (config : ListConfig)
    (include_cache : bool) : M unit :=
  (if include_cache
   then stream_file (max_file_size_bytes_ cache) (cache_path cache name) false
   else mret tt) ≫= λ _,
  (match list_file config with
   | Some file => stream_file (max_file_size_bytes_ cache) file true
   | None => mret tt
   end) ≫= λ _,
  let source := "inline list '" ++ name ++ "'" in
  r ← stream_inline source (value_or (ip_cidrs config) []) 1 (mk_ParseContext true 0);
  stream_inline source (value_or (domains config) []) r.1 r.2 ≫= λ _,
  on_list_complete name.

Definition stream_list (cache : CacheManager) (name : cstring) (config : ListConfig) : M unit :=
  stream_all_sources cache name config
    (match list_url config with Some _ => true | None => false end && has_cache cache name).

Definition stream_list_preferring_cache (cache : CacheManager) (name : cstring)
    (config : ListConfig) : M unit :=
  stream_all_sources cache name config (has_cache cache name).

Definition stream_cache (cache : CacheManager) (name : cstring) : M unit :=
  if has_cache cache name
  then stream_file (max_file_size_bytes_ cache) (cache_path cache name) false else mret tt.

(** ** The use of a list *)

Definition count_of (t : EntryType.t) (es : list (EntryType.t * cstring)) : nat :=
  length (List.filter (λ e, bool_decide (e.1 = t)) es).

Definition analyze_list_set_usage (cache : CacheManager) (name : cstring) (config : ListConfig) :
    exc ListSetUsage :=
  match stream_list cache name config (mk_visited (mk_Output [] []) []) with
  | (Ok _, v) =>
      let es := entries (received v) in
      let ttl := value_or (ttl_ms config) 0 in
      Ok {| has_static_entries := (0 <? count_of EntryType.Ip es)%nat ||
                                  (0 <? count_of EntryType.Cidr es)%nat;
            has_domain_entries := (0 <? count_of EntryType.Domain es)%nat;
            dynamic_timeout := if 1000 <=? ttl then u32 (Z.quot ttl 1000) else 0 |}
  | (Throw e, _) => Throw e
  | (Undefined, _) => Undefined
  end.

(** ** Reading in chunks is reading lines *)

Definition fits (text : cstring) : bool := (length text <=? kMaxLineBytes)%nat.

Lemma split_loop_head sep cur s :
  ∃ first rest, split_loop sep cur s = first :: rest ∧ (length cur ≤ length first)%nat.
Proof.
  revert cur. induction s as [|c s IH]; intros cur; cbn.
  { by exists cur, []. }
  destruct (ascii_eqb c sep); [by do 2 eexists|].
  destruct (IH (cur ++ [c])) as (first & rest & E & Hl). exists first, rest.
  split; [done|]. rewrite length_app in Hl. cbn in Hl. lia.
Qed.

(** Feeding bytes to a reader parses the lines they complete and keeps the
    last, incomplete one; a line that is too long ends it. *)
Lemma feed_bytes_spec path bytes cur n ctx v :
  (length cur ≤ kMaxLineBytes)%nat →
  ∃ ls last, split_loop newline cur bytes = ls ++ [last] ∧
    if forallb fits (ls ++ [last]) then
      let '(ctx', out) := parse_lines ls path n (ctx, received v) in
      feed_bytes path bytes (mk_reader cur (S n) ctx) v =
      (Ok (mk_reader last (S (n + length ls)) ctx'), mk_visited out (completed v))
    else ∃ msg v', feed_bytes path bytes (mk_reader cur (S n) ctx) v = (Throw (runtime_error msg), v').
Proof.
  revert cur n ctx v. induction bytes as [|c bytes IH]; intros cur n ctx v Hcur;
    cbn [feed_bytes split_loop line line_number context].
  { exists [], cur. split; [done|]. cbn [app forallb]. unfold fits at 1.
    rewrite (proj2 (Nat.leb_le _ _) Hcur). cbn. rewrite Nat.add_0_r. by destruct v. }
  destruct (ascii_eqb c newline).
  - cbv [mbind stexc_bind feed_line].
    destruct (parse_line cur path (S n) (ctx, received v)) as [ctx1 out1] eqn:Ep.
    destruct (IH [] (S n) ctx1 (mk_visited out1 (completed v)) ltac:(cbn; lia)) as (ls & last & E & H).
    exists (cur :: ls), last. rewrite E. split; [done|]. cbn [app forallb].
    unfold fits at 1. rewrite (proj2 (Nat.leb_le _ _) Hcur). cbn [andb parse_lines length].
    rewrite Ep. cbn [received completed] in H. by rewrite Nat.add_succ_r.
  - destruct (kMaxLineBytes <=? length cur)%nat eqn:Elen; breflect.
    + destruct (split_loop_head newline (cur ++ [c]) bytes) as (first & rest & E & Hl).
      destruct (exists_last (split_loop_ne newline (cur ++ [c]) bytes)) as (ls & last & Els).
      exists ls, last. split; [done|]. rewrite <- Els, E. cbn [forallb]. unfold fits at 1.
      rewrite length_app in Hl. cbn in Hl.
      rewrite (proj2 (Nat.leb_gt _ _)) by lia. by do 2 eexists.
    + apply (IH (cur ++ [c])). rewrite length_app. cbn. lia.
Qed.

Lemma feed_bytes_app path a b r v :
  feed_bytes path (a ++ b) r v = (feed_bytes path a r ≫= feed_bytes path b) v.
Proof.
  revert r v. induction a as [|c a IH]; intros r v; cbn [app feed_bytes]; [done|].
  destruct (ascii_eqb c newline).
  - cbv [mbind stexc_bind feed_line]. destruct (parse_line _ _ _ _) as [ctx out]. apply IH.
  - destruct (_ <=? _)%nat; [done|]. apply IH.
Qed.

Definition is_data (r : read_result) : Prop :=
  match r with Read bytes => bytes ≠ [] | Interrupted => True | ReadError _ => False end.
Definition data_of (rs : list read_result) : cstring :=
  concat ((λ r, match r with Read bytes => bytes | _ => [] end) <$> rs).

Lemma read_loop_fits max path rs total r v :
  Forall is_data rs → total + Z.of_nat (length (data_of rs)) ≤ max →
  read_loop max path rs total r v = (feed_bytes path (data_of rs) r ≫= finish_file path) v.
Proof.
  revert total r v. induction rs as [|[bytes| |] rs IH]; intros total r v Hd Hmax;
    cbn [read_loop data_of fmap list_fmap concat]; apply Forall_cons in Hd as [Hr Hd] || clear Hd.
  - done.
  - rewrite bool_decide_eq_false_2 by done. cbn [data_of fmap list_fmap concat] in Hmax.
    rewrite length_app in Hmax. fold (data_of rs) in *.
    rewrite (proj2 (Z.ltb_ge _ _)) by lia. cbv [mbind stexc_bind]. rewrite feed_bytes_app.
    cbv [mbind stexc_bind]. destruct (feed_bytes path bytes r v) as [[r1|e|] v1]; [|done..].
    rewrite IH by (done || lia). done.
  - by apply IH.
  - done.
Qed.

Lemma feed_bytes_no_undefined path bytes r v :
  match feed_bytes path bytes r v with
  | (Ok _, _) => True | (Throw e, _) => ∃ msg, e = runtime_error msg | (Undefined, _) => False end.
Proof.
  revert r v. induction bytes as [|c bytes IH]; intros r v; cbn [feed_bytes]; [done|].
  destruct (ascii_eqb c newline).
  - cbv [mbind stexc_bind feed_line]. destruct (parse_line _ _ _ _) as [ctx out]. apply IH.
  - destruct (_ <=? _)%nat; [by eexists|]. apply IH.
Qed.

Lemma read_loop_too_big max path rs total r v :
  Forall is_data rs → total ≤ max < total + Z.of_nat (length (data_of rs)) →
  ∃ msg v', read_loop max path rs total r v = (Throw (runtime_error msg), v').
Proof.
  revert total r v. induction rs as [|[bytes| |] rs IH]; intros total r v Hd Hmax;
    cbn [read_loop]; apply Forall_cons in Hd as [Hr Hd] || clear Hd.
  - cbn in Hmax. lia.
  - rewrite bool_decide_eq_false_2 by done.
    unfold data_of in Hmax. cbn [fmap list_fmap concat] in Hmax. fold (data_of rs) in Hmax.
    rewrite length_app in Hmax. destruct (max <? _) eqn:E; breflect; [by do 2 eexists|].
    cbv [mbind stexc_bind]. pose proof (feed_bytes_no_undefined path bytes r v) as Hf.
    destruct (feed_bytes path bytes r v) as [[r1|e|] v1]; [|destruct Hf as [msg ->]; by do 2 eexists|done].
    apply IH; [done|lia].
  - by apply IH.
  - done.
Qed.

(** The lines of [getline] are those of the splitting loop, less an empty last
    one. *)
Lemma getline_loop_split sep cur s ls last :
  split_loop sep cur s = ls ++ [last] →
  getline_loop sep cur s = ls ++ (if bool_decide (last = []) then [] else [last]).
Proof.
  revert cur ls. induction s as [|c s IH]; intros cur ls; cbn.
  - intros E. destruct ls as [|l ls]; [by injection E as <-|].
    injection E as <- E. by destruct ls.
  - destruct (ascii_eqb c sep); [|apply IH]. intros E. destruct ls as [|l ls].
    + injection E as <- E. by destruct (split_loop_ne sep [] s).
    + injection E as <- E. cbn. f_equal. by apply IH.
Qed.

Lemma parse_lines_app l1 l2 path n s :
  parse_lines (l1 ++ l2) path n s = parse_lines l2 path (n + length l1) (parse_lines l1 path n s).
Proof.
  revert n s. induction l1 as [|l l1 IH]; intros n s; cbn [app parse_lines length].
  { by rewrite Nat.add_0_r. }
  rewrite IH. f_equal. lia.
Qed.

(** A file that can be opened, is regular, has an acceptable size, and whose
    reads deliver data. *)
Record readable (max_file_size : Z) (path : cstring) : Prop := {
  readable_open : open_error (file_at path) = None;
  readable_stat : stat_error (file_at path) = None;
  readable_regular : is_regular (file_at path) = true;
  readable_size : 0 ≤ st_size (file_at path) ≤ max_file_size;
  readable_data : Forall is_data (reads (file_at path));
}.

Definition content (path : cstring) : cstring := data_of (reads (file_at path)).
Definition lines_of (path : cstring) : list cstring := getline_all newline (content path).

Definition acceptable (max_file_size : Z) (path : cstring) : bool :=
  (Z.of_nat (length (content path)) <=? max_file_size) && forallb fits (lines_of path).

Lemma stream_file_run max path log v :
  readable max path →
  stream_file max path log v =
  read_loop max path (reads (file_at path)) 0 (mk_reader [] 1 (mk_ParseContext log 0)) v.
Proof.
  intros [Ho Hs Hr Hz _]. unfold stream_file. rewrite Ho, Hs, Hr. cbn [negb].
  by rewrite (proj2 (Z.ltb_ge _ _)), (proj2 (Z.ltb_ge _ _)) by lia.
Qed.

Lemma stream_file_spec max path log v :
  readable max path →
  if acceptable max path then
    stream_file max path log v =
    (Ok tt, mk_visited (parse_lines (lines_of path) path 0 (mk_ParseContext log 0, received v)).2
              (completed v))
  else ∃ msg v', stream_file max path log v = (Throw (runtime_error msg), v').
Proof.
  intros Hread. rewrite (stream_file_run _ _ _ _ Hread). destruct Hread as [_ _ _ Hz Hd].
  unfold acceptable, lines_of, content, getline_all. set (data := data_of (reads (file_at path))).
  destruct (Z.leb_spec (Z.of_nat (length data)) max) as [Hle|Hgt]; cbn [andb]; cycle 1.
  { apply read_loop_too_big; [done|]. fold data. lia. }
  rewrite read_loop_fits by (done || (fold data; lia)). fold data.
  destruct (feed_bytes_spec path data [] 0 (mk_ParseContext log 0) v ltac:(cbn; lia)) as (ls & last & E & H).
  rewrite (getline_loop_split _ _ _ _ _ E).
  assert (Hfit : forallb fits (ls ++ (if bool_decide (last = []) then [] else [last])) =
                 forallb fits (ls ++ [last])).
  { rewrite !forallb_app. case_bool_decide; [by subst last|done]. }
  rewrite Hfit. cbv [mbind stexc_bind]. destruct (forallb fits (ls ++ [last])).
  - rewrite parse_lines_app. destruct (parse_lines ls path 0 _) as [ctx out]. rewrite H.
    unfold finish_file. cbn [line line_number context]. case_bool_decide; [done|].
    cbv [mbind stexc_bind feed_line]. cbn [parse_lines received completed].
    by destruct (parse_line last path _ _).
  - destruct H as (msg & v' & ->). by do 2 eexists.
Qed.

(** ** The entries of a list *)

Lemma parse_line_entries text src n s :
  entries (parse_line text src n s).2 = entries s.2 ++ omap classify_entry (significant [text]).
Proof.
  destruct s as [ctx out]. unfold parse_line, significant. cbn [fmap list_fmap List.filter snd].
  destruct (_ || _); cbn [negb omap list_omap snd]; [by rewrite app_nil_r|].
  destruct (classify_entry (trim text)); cbn [entries snd]; [done|]. rewrite app_nil_r.
  by repeat case_match.
Qed.

Lemma significant_cons text ls : significant (text :: ls) = significant [text] ++ significant ls.
Proof. unfold significant. cbn [fmap list_fmap List.filter]. by destruct (negb _). Qed.

Lemma significant_app l1 l2 : significant (l1 ++ l2) = significant l1 ++ significant l2.
Proof. unfold significant. by rewrite fmap_app, List.filter_app. Qed.

Lemma omap_app' l1 l2 :
  omap classify_entry (l1 ++ l2) = omap classify_entry l1 ++ omap classify_entry l2.
Proof. induction l1 as [|x l1 IH]; cbn; [done|]. rewrite IH. by destruct (classify_entry x). Qed.

Lemma parse_lines_entries ls src n s :
  entries (parse_lines ls src n s).2 = entries s.2 ++ omap classify_entry (significant ls).
Proof.
  revert n s. induction ls as [|l ls IH]; intros n s; cbn [parse_lines].
  { by rewrite app_nil_r. }
  rewrite IH, parse_line_entries, (significant_cons l ls), omap_app'. by rewrite app_assoc.
Qed.

(** A step of the streamer that succeeds and delivers the entries of [ls]. *)
Definition delivers (m : M unit) (ls : list cstring) : Prop :=
  ∀ v, ∃ v', m v = (Ok tt, v') ∧ completed v' = completed v ∧
    entries (received v') = entries (received v) ++ omap classify_entry (significant ls).

Lemma stream_file_delivers max path log :
  readable max path → acceptable max path = true → delivers (stream_file max path log) (lines_of path).
Proof.
  intros Hr Ha v. pose proof (stream_file_spec max path log v Hr) as H. rewrite Ha in H.
  eexists. split; [exact H|]. split; [done|]. cbn [received]. by rewrite parse_lines_entries.
Qed.

Lemma delivers_nothing : delivers (mret tt) [].
Proof. intros v. exists v. by rewrite app_nil_r. Qed.

Lemma stream_inline_entries source items n ctx v :
  ∃ r v', stream_inline source items n ctx v = (Ok r, v') ∧ completed v' = completed v ∧
    entries (received v') = entries (received v) ++ omap classify_entry (significant items).
Proof.
  revert n ctx v. induction items as [|item items IH]; intros n ctx v; cbn [stream_inline].
  { do 2 eexists. split; [done|]. by rewrite app_nil_r. }
  cbv [mbind stexc_bind feed_line].
  destruct (parse_line item source n (ctx, received v)) as [ctx1 out1] eqn:Ep.
  destruct (IH (S n) ctx1 (mk_visited out1 (completed v))) as (r & v' & -> & Hc & He).
  do 2 eexists. split; [done|]. split; [done|].
  rewrite He, (significant_cons item items), omap_app', app_assoc. f_equal. cbn [received].
  pose proof (parse_line_entries item source n (ctx, received v)) as H. by rewrite Ep in H.
Qed.

Lemma stream_all_sources_spec cache name config (include_cache : bool) ls1 ls2 v :
  delivers (if include_cache
            then stream_file (max_file_size_bytes_ cache) (cache_path cache name) false
            else mret tt) ls1 →
  delivers (match list_file config with
            | Some file => stream_file (max_file_size_bytes_ cache) file true
            | None => mret tt end) ls2 →
  ∃ v', stream_all_sources cache name config include_cache v = (Ok tt, v') ∧
    completed v' = completed v ++ [name] ∧
    entries (received v') = entries (received v) ++
      omap classify_entry (significant (ls1 ++ ls2 ++ value_or (ip_cidrs config) [] ++
                                        value_or (domains config) [])).
Proof.
  intros H1 H2. unfold stream_all_sources. cbv [mbind stexc_bind].
  destruct (H1 v) as (v1 & -> & Hc1 & He1). destruct (H2 v1) as (v2 & -> & Hc2 & He2).
  match goal with |- context [stream_inline ?src ?items 1 ?ctx v2] =>
    destruct (stream_inline_entries src items 1 ctx v2) as (r & v3 & -> & Hc3 & He3) end.
  match goal with |- context [stream_inline ?src ?items r.1 r.2 v3] =>
    destruct (stream_inline_entries src items r.1 r.2 v3) as (r' & v4 & -> & Hc4 & He4) end.
  unfold on_list_complete. eexists. split; [done|]. cbn [completed received].
  rewrite Hc4, Hc3, Hc2, Hc1. split; [done|].
  by rewrite He4, He3, He2, He1, !significant_app, !omap_app', <- !app_assoc.
Qed.
End streamer.

Section contract.
Context {IP : InetPton} {FS : Files}.

Definition uses_cache (cache : CacheManager) (name : cstring) (config : ListConfig) : bool :=
  match list_url config with Some _ => true | None => false end && has_cache cache name.

Definition source_ok (cache : CacheManager) (path : cstring) : Prop :=
  readable (max_file_size_bytes_ cache) path ∧
  acceptable (max_file_size_bytes_ cache) path = true.

(** The files among the sources can be read within the limits. *)
Definition sources_ok (cache : CacheManager) (name : cstring) (config : ListConfig) : Prop :=
  (uses_cache cache name config = true → source_ok cache (cache_path cache name)) ∧
  (∀ file, list_file config = Some file → source_ok cache file).

(** The lines of all the sources, in the order in which they are streamed. *)
Definition source_lines (cache : CacheManager) (name : cstring) (config : ListConfig) : list cstring :=
  (if uses_cache cache name config then lines_of (cache_path cache name) else []) ++
  (match list_file config with Some file => lines_of file | None => [] end) ++
  value_or (ip_cidrs config) [] ++ value_or (domains config) [].

Definition list_entries (cache : CacheManager) (name : cstring) (config : ListConfig) :
    list (EntryType.t * cstring) :=
  omap classify_entry (significant (source_lines cache name config)).

Lemma stream_list_spec cache name config v :
  sources_ok cache name config →
  ∃ v', stream_list cache name config v = (Ok tt, v') ∧
    completed v' = completed v ++ [name] ∧
    entries (received v') = entries (received v) ++ list_entries cache name config.
Proof.
  intros [Hcache Hfile]. unfold stream_list, list_entries, source_lines.
  fold (uses_cache cache name config). apply stream_all_sources_spec.
  - destruct (uses_cache cache name config); [|apply delivers_nothing].
    destruct (Hcache eq_refl). by apply stream_file_delivers.
  - destruct (list_file config) as [file|]; [|apply delivers_nothing].
    destruct (Hfile file eq_refl). by apply stream_file_delivers.
Qed.

Lemma count_of_pos t es : (0 <? count_of t es)%nat = true ↔ ∃ e, (t, e) ∈ es.
Proof.
  unfold count_of. breflect. split.
  - intros H. destruct (List.filter _ es) as [|[t' e] l] eqn:E; [cbn in H; lia|].
    assert (Hin : In (t', e) (List.filter (λ e, bool_decide (e.1 = t)) es)) by (rewrite E; by left).
    apply filter_In in Hin as [Hin Ht]. breflect. exists e. apply list_elem_of_In. by subst.
  - intros (e & Hin%list_elem_of_In).
    assert (Hf : In (t, e) (List.filter (λ e, bool_decide (e.1 = t)) es)).
    { apply filter_In. split; [done|]. by rewrite bool_decide_eq_true_2. }
    destruct (List.filter _ es); [done|]. cbn. lia.
Qed.
End contract.

(** ** Properties *)

(** Reading a list file in chunks is reading its lines: wherever the
    boundaries of the chunks fall and whenever a read is interrupted, the
    visitor receives what the line parser delivers for the whole text, with
    the right line numbers; a file over the size limit or with a line over
    4096 bytes, and only such a file, ends in a [runtime_error]. *)
Theorem stream_file_reads_lines {IP : InetPton} {FS : Files} max path log v :
  readable max path →
  if acceptable max path then
    stream_file max path log v =
    (Ok tt, mk_visited (parse_lines (lines_of path) path 0 (mk_ParseContext log 0, received v)).2
              (completed v))
  else ∃ msg v', stream_file max path log v = (Throw (runtime_error msg), v').
Proof. apply stream_file_spec. Qed.

(** Streaming a list delivers the entries of its cached download (only
    while the list has a URL), of its file, of its inline addresses and of its
    inline domains, in that order, and then reports the list complete; the
    analysis of its use says exactly whether it has addresses or subnets and
    whether it has domains. *)
Theorem stream_list_correct {IP : InetPton} {FS : Files} cache name config v :
  sources_ok cache name config →
  (∃ v', stream_list cache name config v = (Ok tt, v') ∧
     completed v' = completed v ++ [name] ∧
     entries (received v') = entries (received v) ++ list_entries cache name config) ∧
  (∃ u, analyze_list_set_usage cache name config = Ok u ∧
     (has_static_entries u = true ↔
      ∃ t e, (t, e) ∈ list_entries cache name config ∧ t ≠ EntryType.Domain) ∧
     (has_domain_entries u = true ↔ ∃ e, (EntryType.Domain, e) ∈ list_entries cache name config)).
Proof.
  intros Hok. split; [by apply stream_list_spec|].
  destruct (stream_list_spec cache name config (mk_visited (mk_Output [] []) []) Hok)
    as (v' & Hrun & _ & He).
  unfold analyze_list_set_usage. rewrite Hrun, He. cbn [received entries app].
  eexists. split; [done|]. cbn [has_static_entries has_domain_entries].
  rewrite orb_true_iff, !count_of_pos. split; [|done]. split.
  - intros [[e H]|[e H]]; eauto.
  - intros (t & e & H & Hne). destruct t; [by left; eauto|by right; eauto|done].
Qed.

(** ** Witnesses *)

Definition lf : cstring := [newline].

Definition w_files : Files := {|
  file_at path :=
    {| open_error := None; stat_error := None; is_regular := true; st_size := 20;
       reads := [Read ("# list" ++ lf ++ "10.0."); Interrupted;
                 Read ("0.0/8" ++ lf ++ "Exa"); Read "mple.com"] |};
  path_exists _ := true;
|}.

Definition w_cache : CacheManager := {| cache_dir_ := "/var/cache"; max_file_size_bytes_ := 64 |}.
Definition w_list_config : ListConfig :=
  Build_ListConfig None (Some [str "*.Example.org"]) (Some (str "/etc/list")) (Some [str "1.2.3.4"])
    None (Some (str "http://lists/x")).

Lemma w_readable path : readable (FS:=w_files) 64 path.
Proof. split; try done. repeat (apply Forall_cons; split; [done|]). by apply Forall_nil. Defined.

Lemma stream_file_reads_lines_witness :
  entries (received (@stream_file w_inet w_files 64 "/etc/list" true
                       (mk_visited (mk_Output [] []) [])).2) =
  [(EntryType.Cidr, str "10.0.0.0/8"); (EntryType.Domain, str "Example.com")].
Proof.
  pose proof (@stream_file_reads_lines w_inet w_files 64 "/etc/list" true
    (mk_visited (mk_Output [] []) []) (w_readable _)) as H.
  change (acceptable 64 "/etc/list") with true in H. cbn match in H. rewrite H. vm_compute. done.
Defined.

Lemma w_sources_ok : @sources_ok w_files w_cache "x" w_list_config.
Proof.
  split.
  - intros _. split; [apply w_readable|vm_compute; reflexivity].
  - intros file [= <-]. split; [apply w_readable|vm_compute; reflexivity].
Defined.

Lemma stream_list_correct_witness :
  ∃ v', @stream_list w_inet w_files w_cache "x" w_list_config (mk_visited (mk_Output [] []) []) =
          (Ok tt, v') ∧
    entries (received v') =
      [(EntryType.Cidr, str "10.0.0.0/8"); (EntryType.Domain, str "Example.com");
       (EntryType.Cidr, str "10.0.0.0/8"); (EntryType.Domain, str "Example.com");
       (EntryType.Ip, str "1.2.3.4"); (EntryType.Domain, str "Example.org")].
Proof.
  destruct (@stream_list_correct w_inet w_files w_cache "x" w_list_config
    (mk_visited (mk_Output [] []) []) w_sources_ok) as [(v' & Hrun & _ & He) _].
  exists v'. split; [exact Hrun|]. rewrite He. vm_compute. done.
Defined.
