(* ===== verification/Cache.v ===== *)
(** * The HTTP client and the list cache (src/src/http/http_client.cpp,
      src/src/cache/cache_manager.{hpp,cpp})

    Conditional downloads, the body and metadata files of a list, and their
    replacement through temporary files.  The class [CacheWorld] holds the
    HTTP transport and the files. *)

From S2P Require Import Prelude CppString Config Json JsonSample ConfigJson ApiJson UrlTest ListStreamer.

Local Open Scope Z_scope.

(** ** The HTTP client *)

Definition trim_header_value (value : cstring) : cstring :=
  trim_by (λ c, existsb (ascii_eqb c) [" "%char; chr 9; chr 13; chr 10]) value.

(** [capture_response_header_line] on the pair of ETag and Last-Modified *)
Definition capture_response_header_line (header : cstring) (captured : cstring * cstring) : cstring * cstring :=
  if starts_with "HTTP/" header || starts_with "http/" header then ([], [])
  else match find_char ":" header with
  | None => captured
  | Some colon =>
      let name := tolower <$> take colon header in
      let value := trim_header_value (drop (colon + 1) header) in
      (if bool_decide (name = str "etag") then value else captured.1,
       if bool_decide (name = str "last-modified") then value else captured.2)
  end.

(** [HttpError]: its message and status code *)
Record HttpError := mk_HttpError { he_what : cstring; he_status_code : Z }.

Record ConditionalDownloadResult := mk_Conditional {
  cd_not_modified : bool;
  cd_body : cstring;
  cd_etag : cstring;
  cd_last_modified : cstring;
}.

Record HttpClient := mk_HttpClient { timeout_ : Z; user_agent_ : cstring; max_response_size_ : Z }.
Definition default_user_agent (version : cstring) : cstring := "keen-pbr/" ++ version.

Definition request_for (c : HttpClient) (url : cstring) (fwmark : Z) : HttpTransportRequest :=
  Build_HttpTransportRequest url (timeout_ c * 1000) (user_agent_ c) fwmark 5 [] "GET" [] false (max_response_size_ c).
Definition with_headers (r : HttpTransportRequest) (hs : list cstring) : HttpTransportRequest :=
  Build_HttpTransportRequest (req_url r) (req_timeout_ms r) (user_agent r) (req_fwmark r) (max_redirects r)
    (req_headers r ++ hs) (method r) (req_body r) (discard_body r) (max_response_size r).
Definition as_post (r : HttpTransportRequest) (body : cstring) : HttpTransportRequest :=
  Build_HttpTransportRequest (req_url r) (req_timeout_ms r) (user_agent r) (req_fwmark r) (max_redirects r)
    (req_headers r) "POST" body (discard_body r) (max_response_size r).

Definition throw_for_status (status : Z) : option HttpError :=
  if 400 <=? status then Some (mk_HttpError ("HTTP error " ++ to_string status) status) else None.

(** What happens to a temporary file that is written: it cannot be opened, the
    stream fails while it is written, or the stream accepts the text, of which
    the part still in the buffer may be lost when the file is closed. *)
Inductive WriteOutcome := CannotOpen | WriteFailed | Accepted.

Class CacheWorld (W : Type) := {
  perform : HttpTransportRequest → stexc W HttpTransportResponse;
  contents : W → cstring → option cstring;
  exists_at : W → cstring → bool;
  write_file : cstring → cstring → W → WriteOutcome * W;
  rename : cstring → cstring → stexc W unit;
  remove : cstring → stexc W unit;
  create_directories : cstring → stexc W unit;
  now_iso : W → cstring;
}.

Class CacheWorldLaws W `{CW : !CacheWorld W} := {
  perform_keeps r w p : contents (perform r w).2 p = contents w p;
  write_law p text w :
    match write_file p text w with
    | (CannotOpen, w') => ∀ q, contents w' q = contents w q
    | (WriteFailed, w') => ∀ q, q ≠ p → contents w' q = contents w q
    | (Accepted, w') => (∀ q, q ≠ p → contents w' q = contents w q) ∧ ∃ part, part `prefix_of` text ∧ contents w' p = Some part
    end;
  rename_law a b w : a ≠ b →
    match rename a b w with
    | (Ok _, w') => contents w' b = contents w a ∧ contents w' a = None ∧ ∀ q, q ≠ a → q ≠ b → contents w' q = contents w q
    | (_, w') => ∀ q, contents w' q = contents w q
    end;
  remove_law p w :
    match remove p w with
    | (Ok _, w') => contents w' p = None ∧ ∀ q, q ≠ p → contents w' q = contents w q
    | (_, w') => ∀ q, contents w' q = contents w q
    end;
}.

(** Closing an accepted file writes all of it. *)
Definition writes_through W `{CW : !CacheWorld W} : Prop :=
  ∀ p text (w w' : W), write_file p text w = (Accepted, w') → contents w' p = Some text.

Section client.
Context {W : Type} `{CW : !CacheWorld W}.

(** A call that may throw an [HttpError] besides other exceptions *)
Definition http (A : Type) : Type := stexc W (HttpError + A).

(** [catch (const HttpTransportError& error) { throw HttpError(error.what()); }] *)
Definition performing {A} (r : HttpTransportRequest) (k : HttpTransportResponse → HttpError + A) : http A := λ w,
  match perform r w with
  | (Ok resp, w') => (Ok (k resp), w')
  | (Throw (HttpTransportError m), w') => (Ok (inl (mk_HttpError m 0)), w')
  | (Throw e, w') => (Throw e, w')
  | (Undefined, w') => (Undefined, w')
  end.

Definition body_or_error (resp : HttpTransportResponse) : HttpError + cstring :=
  match throw_for_status (status_code resp) with Some e => inl e | None => inr (resp_body resp) end.
Definition http_download (c : HttpClient) (url : cstring) (fwmark : Z) : http cstring :=
  performing (request_for c url fwmark) body_or_error.
Definition post_json (c : HttpClient) (url body : cstring) (fwmark : Z) : http cstring :=
  performing (with_headers (as_post (request_for c url fwmark) body) [str "Content-Type: application/json"]) body_or_error.

Definition conditional_headers (if_none_match if_modified_since : cstring) : list cstring :=
  (if bool_decide (if_none_match = []) then [] else ["If-None-Match: " ++ if_none_match]) ++
  (if bool_decide (if_modified_since = []) then [] else ["If-Modified-Since: " ++ if_modified_since]).

Definition conditional_result (resp : HttpTransportResponse) : HttpError + ConditionalDownloadResult :=
  let not_modified := status_code resp =? 304 in
  match (if not_modified then None else throw_for_status (status_code resp)) with
  | Some e => inl e
  | None => inr (mk_Conditional not_modified (if not_modified then [] else resp_body resp)
                   (value_or (resp_headers resp !! str "etag") []) (value_or (resp_headers resp !! str "last-modified") []))
  end.
Definition download_conditional (c : HttpClient) (url if_none_match if_modified_since : cstring) (fwmark : Z) :
    http ConditionalDownloadResult :=
  performing (with_headers (request_for c url fwmark) (conditional_headers if_none_match if_modified_since)) conditional_result.
End client.

(** ** The cache *)

Module CacheDownloadStatus.
Inductive t := Updated | NotModified | Failed.
#[global] Instance t_eq_dec : EqDecision t.
Proof. solve_decision. Defined.
End CacheDownloadStatus.

Record CacheDownloadResult := mk_Download {
  dl_status : CacheDownloadStatus.t;
  error_message : cstring;
  http_status_code : option Z;
}.
Definition download_failed (message : cstring) (code : option Z) : CacheDownloadResult :=
  mk_Download CacheDownloadStatus.Failed message code.

Definition clean_download_error_message (message : cstring) : cstring :=
  let prefix := str "HTTP request failed: " in
  if starts_with prefix message then drop (length prefix) message else message.

Definition meta_path (cache : CacheManager) (name : cstring) : cstring := path_join (cache_dir_ cache) (name ++ ".meta.json").
Definition tmp_body (cache : CacheManager) (name : cstring) : cstring := path_join (cache_dir_ cache) (name ++ ".txt.tmp").
Definition tmp_meta (cache : CacheManager) (name : cstring) : cstring := path_join (cache_dir_ cache) (name ++ ".meta.json.tmp").

Definition empty_CacheMetadata : CacheMetadata.t := CacheMetadata.make None None None None None None None.

Section cache.
Context {NL : Nlohmann} {JT : JsonText} {JD : JsonDump} {W : Type} `{CW : !CacheWorld W}.
Context (cache : CacheManager) (client : HttpClient).

Definition cache_contents_equal (path body : cstring) (w : W) : bool := bool_decide (contents w path = Some body).

Definition load_metadata (name : cstring) (w : W) : exc CacheMetadata.t :=
  match contents w (meta_path cache name) with
  | None => Ok empty_CacheMetadata
  | Some text =>
      match json_parse text with
      | None => Ok empty_CacheMetadata
      | Some j => match from_json j with
                  | Throw (json_exception _) => Ok empty_CacheMetadata
                  | r => r end
      end
  end.

Definition meta_text (meta : CacheMetadata.t) : exc cstring := text ← json_dump (to_json meta); mret (text ++ [chr 10]).

(** Writing the metadata: the file is open when the text is made. *)
Definition write_metadata (name : cstring) (meta : CacheMetadata.t) : W → exc WriteOutcome * W := λ w,
  match meta_text meta with
  | Ok text => let '(o, w) := write_file (tmp_meta cache name) text w in (Ok o, w)
  | Throw e => match write_file (tmp_meta cache name) [] w with
               | (CannotOpen, w) => (Ok CannotOpen, w)
               | (_, w) => (Throw e, w) end
  | Undefined => (Undefined, w)
  end.

(** [save_metadata] *)
Definition save_metadata (name : cstring) (meta : CacheMetadata.t) : stexc W unit := λ w,
  match write_metadata name meta w with
  | (Ok CannotOpen, w) => (Ok tt, w)
  | (Ok WriteFailed, w) => remove (tmp_meta cache name) w
  | (Ok Accepted, w) => rename (tmp_meta cache name) (meta_path cache name) w
  | (Throw e, w) => (Throw e, w)
  | (Undefined, w) => (Undefined, w)
  end.

(** The two renames of the [try] block *)
Definition install_files (name : cstring) : stexc W CacheDownloadResult :=
  try_catch_std
    (rename (tmp_body cache name) (cache_path cache name);;
     rename (tmp_meta cache name) (meta_path cache name);;
     mret (mk_Download CacheDownloadStatus.Updated [] None))
    (λ e, remove (tmp_body cache name);;
          remove (tmp_meta cache name);;
          mret (download_failed e None)).

(** Storing a new body, from line 107 on *)
Definition store_download (name url : cstring) (result : ConditionalDownloadResult) : stexc W CacheDownloadResult := λ w,
  match write_file (tmp_body cache name) (cd_body result) w with
  | (CannotOpen, w) => (Ok (download_failed "failed to open temporary cache file for writing" None), w)
  | (WriteFailed, w) =>
      (remove (tmp_body cache name);; mret (download_failed "failed to write temporary cache file" None)) w
  | (Accepted, w) =>
      let meta := CacheMetadata.make None None (Some (now_iso w)) (Some (cd_etag result)) None
                    (Some (cd_last_modified result)) (Some url) in
      match write_metadata name meta w with
      | (Throw e, w) => (Throw e, w)
      | (Undefined, w) => (Undefined, w)
      | (Ok CannotOpen, w) =>
          (remove (tmp_body cache name);; mret (download_failed "failed to open temporary cache metadata for writing" None)) w
      | (Ok WriteFailed, w) =>
          (remove (tmp_body cache name);; remove (tmp_meta cache name);;
           mret (download_failed "failed to write temporary cache metadata" None)) w
      | (Ok Accepted, w) => install_files name w
      end
  end.

Definition download (name url : cstring) (fwmark : Z) : stexc W CacheDownloadResult := λ w,
  match load_metadata name w with
  | Throw e => (Throw e, w)
  | Undefined => (Undefined, w)
  | Ok existing =>
      match download_conditional client url (value_or (CacheMetadata.etag existing) [])
              (value_or (CacheMetadata.last_modified existing) []) fwmark w with
      | (Ok (inl e), w) =>
          (Ok (if 0 <? he_status_code e
               then download_failed ("HTTP " ++ to_string (he_status_code e)) (Some (he_status_code e))
               else download_failed (clean_download_error_message (he_what e)) None), w)
      | (Throw e, w) => match what e with Some m => (Ok (download_failed m None), w) | None => (Throw e, w) end
      | (Undefined, w) => (Undefined, w)
      | (Ok (inr result), w) =>
          if cd_not_modified result || cache_contents_equal (cache_path cache name) (cd_body result) w
          then (Ok (mk_Download CacheDownloadStatus.NotModified [] None), w)
          else store_download name url result w
      end
  end.
End cache.

(** The constructor, [ensure_dir] and [set_max_file_size]; the client is a member
    of the cache. *)
Definition new_CacheManager (cache_dir : cstring) (max_file_size_bytes : Z) (version : cstring) : CacheManager * HttpClient :=
  ({| cache_dir_ := cache_dir; max_file_size_bytes_ := max_file_size_bytes |},
   mk_HttpClient 10 (default_user_agent version) max_file_size_bytes).
Definition ensure_dir {W} `{!CacheWorld W} (cache : CacheManager) : stexc W unit := create_directories (cache_dir_ cache).
Definition set_max_file_size (bytes : Z) (s : CacheManager * HttpClient) : CacheManager * HttpClient :=
  ({| cache_dir_ := cache_dir_ s.1; max_file_size_bytes_ := bytes |}, mk_HttpClient (timeout_ s.2) (user_agent_ s.2) bytes).

(** ** The files of a list *)

Lemma suffix_paths d n a b : head a = Some "."%char → head b = Some "."%char →
  path_join d (n ++ a) = path_join d (n ++ b) → a = b.
Proof.
  intros Ha Hb. unfold path_join.
  assert (Hh : (head (n ++ a) = Some "/"%char) ↔ (head (n ++ b) = Some "/"%char)).
  { destruct n; [|done]. cbn. rewrite Ha, Hb. done. }
  rewrite (bool_decide_ext _ _ Hh). case_bool_decide; [apply (inj (app n))|].
  destruct (_ || _); intros E.
  - by apply (inj (app d)), (inj (app n)) in E.
  - by apply (inj (app d)), (inj (app (str "/"))), (inj (app n)) in E.
Qed.

Section paths.
Context (cache : CacheManager) (name : cstring).

Lemma paths_distinct :
  cache_path cache name ≠ meta_path cache name ∧ cache_path cache name ≠ tmp_body cache name ∧
  cache_path cache name ≠ tmp_meta cache name ∧ meta_path cache name ≠ tmp_body cache name ∧
  meta_path cache name ≠ tmp_meta cache name ∧ tmp_body cache name ≠ tmp_meta cache name.
Proof. split_and!; intros H; apply suffix_paths in H; done. Qed.
End paths.

Section files.
Context {NL : Nlohmann} {JT : JsonText} {JD : JsonDump} {W : Type} `{CW : !CacheWorld W} `{CL : !CacheWorldLaws W}.
Context (cache : CacheManager) (client : HttpClient).

(** Every file but the temporary ones is as before. *)
Definition kept_files (name : cstring) (w w' : W) : Prop :=
  ∀ q, q ≠ tmp_body cache name → q ≠ tmp_meta cache name → contents w' q = contents w q.

Lemma kept_files_refl name w : kept_files name w w.
Proof. done. Qed.
Lemma kept_files_trans name w1 w2 w3 : kept_files name w1 w2 → kept_files name w2 w3 → kept_files name w1 w3.
Proof. intros H1 H2 q Ha Hb. by rewrite H2, H1. Qed.

Lemma kept_remove_body name w : kept_files name w (remove (tmp_body cache name) w).2.
Proof.
  intros q Ha Hb. pose proof (remove_law (tmp_body cache name) w) as H.
  destruct (remove (tmp_body cache name) w) as [[[]|e|] w']; cbn; [by apply H|by rewrite H..].
Qed.
Lemma kept_remove_meta name w : kept_files name w (remove (tmp_meta cache name) w).2.
Proof.
  intros q Ha Hb. pose proof (remove_law (tmp_meta cache name) w) as H.
  destruct (remove (tmp_meta cache name) w) as [[[]|e|] w']; cbn; [by apply H|by rewrite H..].
Qed.

Lemma kept_remove_both {A} name (x : A) w :
  kept_files name w ((remove (tmp_body cache name);; remove (tmp_meta cache name);; mret x) w).2.
Proof.
  unfold mbind, stexc_bind. pose proof (kept_remove_body name w) as H1.
  destruct (remove (tmp_body cache name) w) as [[[]|e|] w1]; cbn in *; [|done..].
  pose proof (kept_remove_meta name w1) as H2.
  destruct (remove (tmp_meta cache name) w1) as [[[]|e|] w2]; cbn in *; by eapply kept_files_trans.
Qed.
Lemma kept_remove_one {A} name (x : A) w : kept_files name w ((remove (tmp_body cache name);; mret x) w).2.
Proof.
  unfold mbind, stexc_bind. pose proof (kept_remove_body name w) as H1. by destruct (remove (tmp_body cache name) w) as [[[]|e|] w1].
Qed.

(** What may be found in the files of a list after an attempt to replace them by
    [body] and [meta]: both old, both new, or a new body with the old metadata. *)
Definition replaced (name : cstring) (body meta : option cstring) (w w' : W) : Prop :=
  (∀ q, q ≠ cache_path cache name → q ≠ meta_path cache name → q ≠ tmp_body cache name → q ≠ tmp_meta cache name →
     contents w' q = contents w q) ∧
  contents w' (cache_path cache name) = body ∧ contents w' (meta_path cache name) = meta.

(** The outcome of the two renames *)
Lemma install_files_run name w b m :
  contents w (tmp_body cache name) = Some b → contents w (tmp_meta cache name) = Some m →
  let old_body := contents w (cache_path cache name) in
  let old_meta := contents w (meta_path cache name) in
  match install_files cache name w with
  | (Ok r, w') =>
      (dl_status r = CacheDownloadStatus.Updated ∧ replaced name (Some b) (Some m) w w') ∨
      (dl_status r = CacheDownloadStatus.Failed ∧ (replaced name old_body old_meta w w' ∨ replaced name (Some b) old_meta w w'))
  | (_, w') => replaced name old_body old_meta w w' ∨ replaced name (Some b) old_meta w w'
  end.
Proof.
  intros Hb Hm. destruct (paths_distinct cache name) as (P1 & P2 & P3 & P4 & P5 & P6). cbv zeta.
  unfold install_files, try_catch_std, mbind, stexc_bind.
  pose proof (rename_law (tmp_body cache name) (cache_path cache name) w (not_eq_sym P2)) as L1.
  assert (Hfail : ∀ body w1 e, replaced name body (contents w (meta_path cache name)) w w1 →
    match match what e with
          | Some x => (remove (tmp_body cache name);; remove (tmp_meta cache name);; mret (download_failed x None)) w1
          | None => (Throw e, w1) end with
    | (Ok r, w') => dl_status r = CacheDownloadStatus.Failed ∧ replaced name body (contents w (meta_path cache name)) w w'
    | (_, w') => replaced name body (contents w (meta_path cache name)) w w'
    end).
  { intros body w1 e (H1 & H2 & H3). destruct (what e) as [x|]; [|done].
    pose proof (kept_remove_both name (download_failed x None) w1) as Hk.
    assert (Hr : replaced name body (contents w (meta_path cache name)) w
      ((remove (tmp_body cache name);; remove (tmp_meta cache name);; mret (download_failed x None)) w1).2).
    { split_and!; [intros q Q1 Q2 Q3 Q4; rewrite Hk by done; by apply H1|rewrite Hk by done; done|rewrite Hk by done; done]. }
    revert Hr. unfold mbind, stexc_bind. destruct (remove (tmp_body cache name) w1) as [[[]|e'|] w2]; cbn; [|done..].
    by destruct (remove (tmp_meta cache name) w2) as [[[]|e'|] w3]. }
  destruct (rename (tmp_body cache name) (cache_path cache name) w) as [[[]|e|] w1].
  - destruct L1 as (L1a & L1b & L1c).
    assert (Hmid : replaced name (Some b) (contents w (meta_path cache name)) w w1).
    { split_and!; [intros q Q1 Q2 Q3 Q4; by apply L1c|congruence|by apply L1c]. }
    pose proof (rename_law (tmp_meta cache name) (meta_path cache name) w1 (not_eq_sym P5)) as L2.
    destruct (rename (tmp_meta cache name) (meta_path cache name) w1) as [[[]|e|] w2].
    + destruct L2 as (L2a & L2b & L2c). left. split; [done|]. split_and!.
      * intros q Q1 Q2 Q3 Q4. rewrite L2c by done. by apply L1c.
      * rewrite L2c by done. congruence.
      * rewrite L2a, L1c by done. done.
    + assert (Hmid2 : replaced name (Some b) (contents w (meta_path cache name)) w w2).
      { destruct Hmid as (M1 & M2 & M3). split_and!; [intros; rewrite L2; by apply M1|by rewrite L2|by rewrite L2]. }
      pose proof (Hfail (Some b) w2 e Hmid2) as H.
      destruct (match what e with Some _ => _ | None => _ end) as [[r|e'|] w3]; [|by right..]. right. destruct H. auto.
    + right. destruct Hmid as (M1 & M2 & M3). split_and!; [intros; rewrite L2; by apply M1|by rewrite L2|by rewrite L2].
  - assert (Hold : replaced name (contents w (cache_path cache name)) (contents w (meta_path cache name)) w w1).
    { split_and!; [intros; by rewrite L1|by rewrite L1|by rewrite L1]. }
    pose proof (Hfail _ w1 e Hold) as H.
    destruct (match what e with Some _ => _ | None => _ end) as [[r|e'|] w3]; [|by left..]. right. destruct H. auto.
  - left. split_and!; [intros; by rewrite L1|by rewrite L1|by rewrite L1].
Qed.

(** A text of which a part may be missing, unless closing writes it all *)
Definition stored (text : cstring) (found : option cstring) : Prop :=
  ∃ part, part `prefix_of` text ∧ found = Some part ∧ (writes_through W → part = text).

Definition new_meta (url : cstring) (result : ConditionalDownloadResult) (time : cstring) : CacheMetadata.t :=
  CacheMetadata.make None None (Some time) (Some (cd_etag result)) None (Some (cd_last_modified result)) (Some url).

(** The body that a failed attempt may leave *)
Definition old_or_new (name : cstring) (body : cstring) (w w' : W) : Prop :=
  ∃ b, replaced name b (contents w (meta_path cache name)) w w' ∧
    (b = contents w (cache_path cache name) ∨ stored body b).

Lemma kept_old name body w w' : kept_files name w w' → old_or_new name body w w'.
Proof.
  intros Hk. destruct (paths_distinct cache name) as (P1 & P2 & P3 & P4 & P5 & P6).
  exists (contents w (cache_path cache name)). split; [|by left]. split_and!; [intros; by apply Hk|by apply Hk|by apply Hk].
Qed.

Lemma write_stored p text w w' : write_file p text w = (Accepted, w') →
  (∀ q, q ≠ p → contents w' q = contents w q) ∧ stored text (contents w' p).
Proof.
  intros E. pose proof (write_law p text w) as H. rewrite E in H. destruct H as [H1 (part & Hp & Hc)]. split; [done|].
  exists part. split; [done|]. split; [done|]. intros Hw. apply Hw in E. congruence.
Qed.

Lemma write_metadata_run name meta w :
  match write_metadata cache name meta w with
  | (Ok Accepted, w') => ∃ text, meta_text meta = Ok text ∧
      (∀ q, q ≠ tmp_meta cache name → contents w' q = contents w q) ∧ stored text (contents w' (tmp_meta cache name))
  | (_, w') => kept_files name w w'
  end.
Proof.
  unfold write_metadata. destruct (meta_text meta) as [text|e|]; [| |apply kept_files_refl].
  - pose proof (write_law (tmp_meta cache name) text w) as L. destruct (write_file (tmp_meta cache name) text w) as [[| |] w'] eqn:E.
    + intros q _ _. by rewrite L.
    + intros q _ Q. by apply L.
    + apply write_stored in E as [O S]. by exists text.
  - pose proof (write_law (tmp_meta cache name) [] w) as L. destruct (write_file (tmp_meta cache name) [] w) as [[| |] w'].
    + intros q _ _. by rewrite L.
    + intros q _ Q. by apply L.
    + intros q _ Q. by apply L.
Qed.

Lemma store_download_run name url result w :
  match store_download cache name url result w with
  | (Ok r, w') =>
      (dl_status r = CacheDownloadStatus.Updated ∧ ∃ b m time, replaced name b m w w' ∧ stored (cd_body result) b ∧
         ∃ text, meta_text (new_meta url result time) = Ok text ∧ stored text m) ∨
      (dl_status r = CacheDownloadStatus.Failed ∧ old_or_new name (cd_body result) w w')
  | (_, w') => old_or_new name (cd_body result) w w'
  end.
Proof.
  destruct (paths_distinct cache name) as (P1 & P2 & P3 & P4 & P5 & P6). unfold store_download.
  pose proof (write_law (tmp_body cache name) (cd_body result) w) as L1.
  destruct (write_file (tmp_body cache name) (cd_body result) w) as [[| |] w1] eqn:E1.
  - right. split; [done|]. apply kept_old. intros q _ _. by rewrite L1.
  - assert (K1 : kept_files name w w1) by (intros q Q1 _; by apply L1).
    pose proof (kept_remove_one name (download_failed "failed to write temporary cache file" None) w1) as K2.
    pose proof (kept_old name (cd_body result) w _ (kept_files_trans _ _ _ _ K1 K2)) as Ho. revert Ho. unfold mbind, stexc_bind.
    destruct (remove (tmp_body cache name) w1) as [[[]|e|] w2]; cbn; [by right|done..].
  - apply write_stored in E1 as [O1 S1]. clear L1.
    set (meta := CacheMetadata.make _ _ _ _ _ _ _).
    assert (K1 : kept_files name w w1) by (intros q Q1 _; by apply O1).
    pose proof (write_metadata_run name meta w1) as L2.
    destruct (write_metadata cache name meta w1) as [[[| |]|e|] w2].
    + pose proof (kept_files_trans _ _ _ _ K1 L2) as K2.
      pose proof (kept_remove_one name (download_failed "failed to open temporary cache metadata for writing" None) w2) as K3.
      pose proof (kept_old name (cd_body result) w _ (kept_files_trans _ _ _ _ K2 K3)) as Ho. revert Ho. unfold mbind, stexc_bind.
      destruct (remove (tmp_body cache name) w2) as [[[]|e|] w3]; cbn; [by right|done..].
    + pose proof (kept_files_trans _ _ _ _ K1 L2) as K2.
      pose proof (kept_remove_both name (download_failed "failed to write temporary cache metadata" None) w2) as K3.
      pose proof (kept_old name (cd_body result) w _ (kept_files_trans _ _ _ _ K2 K3)) as Ho. revert Ho. unfold mbind, stexc_bind.
      destruct (remove (tmp_body cache name) w2) as [[[]|e|] w3]; cbn; [|done..].
      destruct (remove (tmp_meta cache name) w3) as [[[]|e|] w4]; cbn; [by right|done..].
    + destruct L2 as (text & Htext & O2 & S2).
      assert (K2 : kept_files name w w2) by (eapply kept_files_trans; [exact K1|]; intros q _ Q2; by apply O2).
      rewrite <- (O2 (tmp_body cache name)) in S1 by done.
      pose proof S1 as (b & _ & Eb & _). pose proof S2 as (m & _ & Em & _).
      pose proof (install_files_run name w2 b m Eb Em) as H. cbv zeta in H. rewrite <- Eb, <- Em in H.
      rewrite (K2 (cache_path cache name)), (K2 (meta_path cache name)) in H by done.
      assert (Hpush : ∀ x y w', replaced name x y w2 w' → replaced name x y w w').
      { intros x y w' (R1 & R2 & R3). split_and!; [|done|done]. intros q Q1 Q2 Q3 Q4. rewrite R1 by done. by apply K2. }
      destruct (install_files cache name w2) as [[r|e|] w3].
      * destruct H as [[Hu Hr]|[Hf Hr]]; [left|right].
        -- split; [done|]. do 2 eexists. exists (now_iso w1). split; [by apply Hpush|]. split; [done|]. by exists text.
        -- split; [done|]. destruct Hr as [Hr|Hr]; eexists; (split; [by apply Hpush|]); auto.
      * destruct H as [Hr|Hr]; eexists; (split; [by apply Hpush|]); auto.
      * destruct H as [Hr|Hr]; eexists; (split; [by apply Hpush|]); auto.
    + apply kept_old. by eapply kept_files_trans.
    + apply kept_old. by eapply kept_files_trans.
Qed.

(** The request of a conditional download *)
Definition refresh_request (existing : CacheMetadata.t) (url : cstring) (fwmark : Z) : HttpTransportRequest :=
  with_headers (request_for client url fwmark)
    (conditional_headers (value_or (CacheMetadata.etag existing) []) (value_or (CacheMetadata.last_modified existing) [])).

Lemma same_kept name body w w' : (∀ q, contents w' q = contents w q) → old_or_new name body w w'.
Proof. intros H. apply kept_old. intros q _ _. apply H. Qed.

Lemma download_run name url fwmark w existing : load_metadata cache name w = Ok existing →
  let req := refresh_request existing url fwmark in
  match download cache client name url fwmark w with
  | (Ok r, w') =>
      (dl_status r = CacheDownloadStatus.NotModified ∧ (∀ q, contents w' q = contents w q) ∧
       ∃ resp result w1, perform req w = (Ok resp, w1) ∧ conditional_result resp = inr result ∧
         (cd_not_modified result = true ∨ contents w (cache_path cache name) = Some (cd_body result))) ∨
      (dl_status r = CacheDownloadStatus.Updated ∧
       ∃ resp result w1 b m time text, perform req w = (Ok resp, w1) ∧ conditional_result resp = inr result ∧
         cd_not_modified result = false ∧ replaced name b m w w' ∧ stored (cd_body result) b ∧
         meta_text (new_meta url result time) = Ok text ∧ stored text m) ∨
      (dl_status r = CacheDownloadStatus.Failed ∧
       ((∀ q, contents w' q = contents w q) ∨
        ∃ resp w1, perform req w = (Ok resp, w1) ∧ old_or_new name (resp_body resp) w w'))
  | (_, w') => (∀ q, contents w' q = contents w q) ∨ ∃ resp w1, perform req w = (Ok resp, w1) ∧ old_or_new name (resp_body resp) w w'
  end.
Proof.
  intros Hload req. unfold download. rewrite Hload. unfold download_conditional, performing. fold (refresh_request existing url fwmark).
  fold req. pose proof (perform_keeps req w) as Hk. destruct (perform req w) as [[resp|e|] w1]; cbn [snd] in Hk.
  - destruct (conditional_result resp) as [e|result] eqn:Er.
    { right. right. split; [by destruct (0 <? he_status_code e)|by left]. }
    assert (Hbody : cd_not_modified result = false → cd_body result = resp_body resp).
    { revert Er. unfold conditional_result. destruct (status_code resp =? 304).
      - intros [= <-]. done.
      - destruct (throw_for_status _); [done|]. by intros [= <-]. }
    unfold cache_contents_equal. rewrite Hk.
    destruct (cd_not_modified result) eqn:En; cbn [orb].
    { left. split; [done|]. split; [done|]. exists resp, result, w1. rewrite En. auto. }
    case_bool_decide as Hc.
    { left. split; [done|]. split; [done|]. exists resp, result, w1. auto. }
    pose proof (store_download_run name url result w1) as H.
    assert (Hpush : ∀ w', old_or_new name (cd_body result) w1 w' → old_or_new name (resp_body resp) w w').
    { intros w' (b & (R1 & R2 & R3) & Hb). rewrite Hbody in Hb by done. rewrite Hk in Hb, R3. exists b. split; [|done].
      split_and!; [|done|done]. intros q Q1 Q2 Q3 Q4. by rewrite R1, Hk. }
    destruct (store_download cache name url result w1) as [[r|e|] w2].
    + destruct H as [[Hu (b & m & time & (R1 & R2 & R3) & Sb & text & Ht & Sm)]|[Hf Ho]].
      * right. left. split; [done|]. exists resp, result, w1, b, m, time, text. split; [done|]. split; [done|]. split; [done|]. split; [|done].
        split_and!; [|done|done]. intros q Q1 Q2 Q3 Q4. by rewrite R1, Hk.
      * right. right. split; [done|]. right. exists resp, w1. split; [done|]. by apply Hpush.
    + right. exists resp, w1. split; [done|]. by apply Hpush.
    + right. exists resp, w1. split; [done|]. by apply Hpush.
  - assert (Hgen : match match what e with Some m => (Ok (download_failed m None), w1) | None => (Throw e, w1) end with
      | (Ok r, w') => dl_status r = CacheDownloadStatus.Failed ∧ w' = w1 | (_, w') => w' = w1 end) by (by destruct (what e)).
    destruct e; cbn in Hgen |- *; try (right; right; split; [done|by left]); by left.
  - by left.
Qed.

(** A list file is replaced as a whole: when closing a file writes what its
    stream accepted, then after a download, however it ends, the body of the
    list is the old one or exactly the one received; it is untouched together
    with its metadata when the list was not modified, both are new when it was
    updated, and no file of another list changes. *)
Theorem download_replaces_whole_files name url fwmark w existing :
  writes_through W → load_metadata cache name w = Ok existing →
  let req := refresh_request existing url fwmark in
  let body w := contents w (cache_path cache name) in
  let meta w := contents w (meta_path cache name) in
  let received b := ∃ resp w1, perform req w = (Ok resp, w1) ∧ b = Some (resp_body resp) in
  let '(res, w') := download cache client name url fwmark w in
  (∀ q, q ≠ cache_path cache name → q ≠ meta_path cache name → q ≠ tmp_body cache name → q ≠ tmp_meta cache name →
     contents w' q = contents w q) ∧
  match res with
  | Ok r => match dl_status r with
            | CacheDownloadStatus.NotModified => body w' = body w ∧ meta w' = meta w
            | CacheDownloadStatus.Updated => received (body w') ∧
                ∃ resp result time text, conditional_result resp = inr result ∧ body w' = Some (resp_body resp) ∧
                  meta_text (new_meta url result time) = Ok text ∧ meta w' = Some text
            | CacheDownloadStatus.Failed => meta w' = meta w ∧ (body w' = body w ∨ received (body w'))
            end
  | _ => meta w' = meta w ∧ (body w' = body w ∨ received (body w'))
  end.
Proof.
  intros Hw Hload req body meta received. pose proof (download_run name url fwmark w existing Hload) as H. cbv zeta in H. fold req in H.
  assert (Hfail : ∀ w', (∀ q, contents w' q = contents w q) ∨ (∃ resp w1, perform req w = (Ok resp, w1) ∧ old_or_new name (resp_body resp) w w') →
    (∀ q, q ≠ cache_path cache name → q ≠ meta_path cache name → q ≠ tmp_body cache name → q ≠ tmp_meta cache name →
       contents w' q = contents w q) ∧ meta w' = meta w ∧ (body w' = body w ∨ received (body w'))).
  { intros w' [Hs|(resp & w1 & Hp & b & (R1 & R2 & R3) & Hb)].
    - split; [intros; apply Hs|]. unfold meta, body. rewrite !Hs. auto.
    - split; [done|]. split; [done|]. destruct Hb as [->|(part & _ & -> & Hpart)]; [by left|]. right. exists resp, w1.
      split; [done|]. unfold body. by rewrite R2, (Hpart Hw). }
  destruct (download cache client name url fwmark w) as [[r|e|] w']; [|by apply Hfail..].
  destruct H as [(-> & Hs & _)|[(-> & resp & result & w1 & b & m & time & text & Hp & Hr & Hn & (R1 & R2 & R3) & (pb & _ & -> & Hpb) & Ht & (pm & _ & -> & Hpm))|(-> & Hf)]].
  - split; [intros; apply Hs|]. unfold body, meta. by rewrite !Hs.
  - assert (Hbody : cd_body result = resp_body resp).
    { revert Hr Hn. unfold conditional_result. destruct (status_code resp =? 304); [by intros [= <-]|].
      destruct (throw_for_status _); [done|]. by intros [= <-]. }
    split; [done|]. unfold body, meta, received. rewrite R2, R3, (Hpb Hw), (Hpm Hw), Hbody. split; [by exists resp, w1|].
    by exists resp, result, time, text.
  - by apply Hfail.
Qed.
End files.

(** ** A refreshed list is the server's *)

Section server.
Context {NL : Nlohmann} {JT : JsonText} {JD : JsonDump} {W : Type} `{CW : !CacheWorld W} `{CL : !CacheWorldLaws W}.
Context (cache : CacheManager) (client : HttpClient).

(** A document that was printed is read back. *)
Definition reparses : Prop := ∀ j text, json_dump j = Ok text → json_parse (text ++ [chr 10]) = Some j.

Lemma metadata_survives (meta : CacheMetadata.t) text : reparses → CacheMetadata.fitting meta → meta_text meta = Ok text →
  ∃ j, json_parse text = Some j ∧ from_json j = Ok meta.
Proof.
  intros Hr Hf. unfold meta_text, mbind, exc_bind. destruct (json_dump (to_json meta)) as [t|e|] eqn:E; [|done..].
  intros [= <-]. exists (to_json meta). split; [by apply Hr|by apply (from_to_json meta)].
Qed.

Context (url : cstring) (content_of : cstring → cstring) (current : W → cstring).

(** A server that tags its versions: "not modified" answers only a request that
    names the tag of the current version, and any other success brings the
    current content with its tag. *)
Record tagging_server : Prop := mk_tagging_server {
  ts_tag : ∀ w, current w ≠ [];
  ts_answer : ∀ req w resp w1, req_url req = url → perform req w = (Ok resp, w1) →
    (status_code resp = 304 → ("If-None-Match: " ++ current w) ∈ req_headers req) ∧
    (status_code resp ≠ 304 → status_code resp < 400 →
       resp_body resp = content_of (current w) ∧ resp_headers resp !! str "etag" = Some (current w) ∧
       resp_headers resp !! str "last-modified" = None);
}.

(** The recorded tag, if any, is that of the body. *)
Definition in_step (name : cstring) (w : W) : Prop := ∃ meta, load_metadata cache name w = Ok meta ∧
  value_or (CacheMetadata.last_modified meta) [] = [] ∧
  (value_or (CacheMetadata.etag meta) [] ≠ [] →
   contents w (cache_path cache name) = Some (content_of (value_or (CacheMetadata.etag meta) []))).

(** C30. A refresh that does not fail brings the list up to date, on these
    conditions.  The server tags its versions: "not modified" answers only a
    request that names the current tag, and any other success brings the current
    body with its tag.  The cache is in step: the recorded tag, if there is one,
    is that of the cached body, and no date is recorded (a body that was lost, or
    one of another address, is not).  A file that was written without an error
    holds all that was written, and the JSON library reads back what it prints.
    Then a download that reports an update or no modification leaves the
    server's current content in the cache, and the cache in step. *)
Theorem refreshed_list_is_current name fwmark w r w' :
  writes_through W → reparses → tagging_server → in_step name w →
  download cache client name url fwmark w = (Ok r, w') → dl_status r ≠ CacheDownloadStatus.Failed →
  contents w' (cache_path cache name) = Some (content_of (current w)) ∧ in_step name w'.
Proof.
  intros Hw Hms [Htag Hans] (meta & Hload & Hlm & Hin) Hd Hst.
  pose proof (download_run cache client name url fwmark w meta Hload) as H. cbv zeta in H. rewrite Hd in H.
  set (req := refresh_request client meta url fwmark) in *.
  assert (Hsame : ∀ w', (∀ q, contents w' q = contents w q) → in_step name w').
  { intros w2 Hs. exists meta. unfold load_metadata in *. rewrite !Hs. done. }
  assert (Hgood : ∀ resp result w1, perform req w = (Ok resp, w1) → conditional_result resp = inr result → cd_not_modified result = false →
    cd_body result = content_of (current w) ∧ cd_etag result = current w ∧ cd_last_modified result = []).
  { intros resp result w1 Hp Hr Hn. destruct (Hans req w resp w1 eq_refl Hp) as [_ H200]. revert Hr Hn. unfold conditional_result.
    destruct (Z.eqb_spec (status_code resp) 304) as [|Hne]; [by intros [= <-]|]. unfold throw_for_status.
    destruct (Z.leb_spec 400 (status_code resp)); [done|]. intros [= <-] _.
    destruct (H200 Hne) as (E1 & E2 & E3); [done|]. cbn [cd_body cd_etag cd_last_modified]. split_and!; [done|exact (f_equal (λ o, value_or o []) E2)|exact (f_equal (λ o, value_or o []) E3)]. }
  destruct H as [(_ & Hs & resp & result & w1 & Hp & Hr & Hnm)|[(_ & resp & result & w1 & b & m & time & text & Hp & Hr & Hn & (R1 & R2 & R3) & (pb & _ & -> & Hpb) & Ht & (pm & _ & -> & Hpm))|(Hf & _)]]; [| |done].
  - split; [|by apply Hsame]. rewrite Hs.
    destruct (cd_not_modified result) eqn:En; [|destruct Hnm as [[=]|Hc]; destruct (Hgood _ _ _ Hp Hr En) as (<- & _); done].
    assert (H304 : status_code resp = 304).
    { revert Hr En. unfold conditional_result. destruct (Z.eqb_spec (status_code resp) 304); [done|].
      destruct (throw_for_status _); [done|]. by intros [= <-]. }
    destruct (Hans req w resp w1 eq_refl Hp) as [Hh _]. specialize (Hh H304). unfold req, refresh_request in Hh. cbn in Hh.
    unfold conditional_headers in Hh. rewrite Hlm, (bool_decide_eq_true_2 ([] = [])), app_nil_r in Hh by done.
    case_bool_decide as He; [by apply elem_of_nil in Hh|]. apply list_elem_of_singleton in Hh.
    apply (inj (app (str "If-None-Match: "))) in Hh. rewrite Hh. by apply Hin.
  - destruct (Hgood _ _ _ Hp Hr Hn) as (Hb & He & Hl). rewrite R2, (Hpb Hw), Hb. split; [done|].
    destruct (metadata_survives (new_meta url result time) text Hms) as (j & Hj & Hfrom); [done|done|]. exists (new_meta url result time). split_and!.
    + unfold load_metadata. by rewrite R3, (Hpm Hw), Hj, Hfrom.
    + done.
    + cbn. by rewrite R2, (Hpb Hw), Hb, He.
Qed.
End server.

(** ** A concrete world *)

Module CacheSample.
Import JsonSample.
Lemma w_reparses : @reparses w_text w_dump.
Proof. intros j text. apply parse_dump. Qed.

(** Files, with a server, how much of a text a closed file keeps, and the
    paths that cannot be replaced *)
Abbreviation w_files := (gmap cstring cstring).
Definition w_kept (kept : option nat) (text : cstring) : cstring := match kept with Some n => take n text | None => text end.
Definition w_move (a b : cstring) (w : w_files) : w_files :=
  match w !! a with Some t => <[b := t]> (delete a w) | None => w end.
Definition w_cache_world (server : HttpTransportRequest → HttpTransportResponse) (kept : option nat) (blocked : cstring → bool) :
    CacheWorld w_files := {|
  perform r w := (Ok (server r), w);
  contents w p := w !! p;
  exists_at w p := bool_decide (is_Some (w !! p));
  write_file p text w := (Accepted, <[p := w_kept kept text]> w);
  rename a b w := if blocked b || bool_decide (w !! a = None)
                  then (Throw (runtime_error "cannot rename"), w) else (Ok tt, w_move a b w);
  remove p w := (Ok tt, delete p w);
  create_directories _ w := (Ok tt, w);
  now_iso _ := "2024-05-06T07:08:09Z";
|}.

Lemma w_cache_laws server kept blocked : @CacheWorldLaws w_files (w_cache_world server kept blocked).
Proof.
  split; cbn; [done|..].
  - intros p text w. split; [intros q Hq; by apply lookup_insert_ne|]. exists (w_kept kept text).
    split; [destruct kept; [apply prefix_take|done]|apply lookup_insert_eq].
  - intros a b w Hab. destruct (blocked b); cbn; [done|]. case_bool_decide as E; [done|]. unfold w_move.
    destruct (w !! a) as [t|] eqn:Ea; [|done]. cbn. rewrite lookup_insert_eq, lookup_insert_ne, lookup_delete_eq by done.
    split_and!; [done|done|]. intros q Q1 Q2. by rewrite lookup_insert_ne, lookup_delete_ne.
  - intros p w. cbn. split; [apply lookup_delete_eq|]. intros q Hq. by apply lookup_delete_ne.
Qed.

Lemma w_writes_through server blocked : @writes_through w_files (w_cache_world server None blocked).
Proof. intros p text w w' [= <-]. cbn. apply lookup_insert_eq. Qed.

Definition w_cache : CacheManager := {| cache_dir_ := "/c"; max_file_size_bytes_ := 8388608 |}.
Definition w_client : HttpClient := mk_HttpClient 30 "keen-pbr/3" 8388608.
Definition w_name : cstring := "ads".
Definition w_url : cstring := "http://lists/ads".

(** A server with one version *)
Definition w_content (tag : cstring) : cstring := tag ++ ".example.com".
Definition w_answer (tag : cstring) (r : HttpTransportRequest) : HttpTransportResponse :=
  if bool_decide (("If-None-Match: " ++ tag) ∈ req_headers r) then Build_HttpTransportResponse 304 [] ∅ 1
  else Build_HttpTransportResponse 200 (w_content tag) {[str "etag" := tag]} 1.

(** The cache with the body and the metadata of a version *)
Definition w_meta (tag url : cstring) : CacheMetadata.t :=
  CacheMetadata.make None None (Some (str "2024-05-05T07:08:09Z")) (Some tag) None (Some []) (Some url).
Definition w_metadata (tag url : cstring) : cstring := match @meta_text w_nlohmann w_dump (w_meta tag url) with Ok t => t | _ => [] end.
Definition w_stored (tag url : cstring) : w_files :=
  {[ cache_path w_cache w_name := w_content tag; meta_path w_cache w_name := w_metadata tag url ]}.
Definition w_run (server : HttpTransportRequest → HttpTransportResponse) (kept : option nat) (blocked : cstring → bool) (url : cstring) (w : w_files) :=
  @download w_nlohmann w_text w_dump w_files (w_cache_world server kept blocked) w_cache w_client w_name url 0 w.
Definition w_status (r : exc CacheDownloadResult) : option CacheDownloadStatus.t := match r with Ok r => Some (dl_status r) | _ => None end.

Lemma w_tagging tag : tag ≠ [] →
  @tagging_server w_files (w_cache_world (w_answer tag) None (λ _, false)) w_url w_content (λ _, tag).
Proof.
  intros Ht. split; [done|]. intros req w resp w1 _ [= <- _]. unfold w_answer. case_bool_decide as E; [done|].
  split; [done|]. intros _ _. split; [done|]. split; [apply lookup_singleton_eq|by apply lookup_singleton_ne].
Qed.

Lemma download_replaces_whole_files_witness :
  let '(res, w') := w_run (w_answer "v2") None (λ _, false) w_url (w_stored "v1" w_url) in
  w_status res = Some CacheDownloadStatus.Updated ∧ w' !! str "/c/other.txt" = w_stored "v1" w_url !! str "/c/other.txt".
Proof.
  pose proof (@download_replaces_whole_files w_nlohmann w_text w_dump w_files (w_cache_world (w_answer "v2") None (λ _, false))
    (w_cache_laws _ _ _) w_cache w_client w_name w_url 0 (w_stored "v1" w_url) (w_meta "v1" w_url)
    (w_writes_through _ _) ltac:(by vm_compute)) as H. cbv zeta in H.
  assert (Hs : w_status (w_run (w_answer "v2") None (λ _, false) w_url (w_stored "v1" w_url)).1 = Some CacheDownloadStatus.Updated) by (by vm_compute).
  fold (w_run (w_answer "v2") None (λ _, false) w_url (w_stored "v1" w_url)) in H.
  destruct (w_run (w_answer "v2") None (λ _, false) w_url (w_stored "v1" w_url)) as [res w'].
  split; [done|]. destruct H as [H _]. apply H; by vm_compute.
Defined.

Lemma refreshed_list_is_current_witness :
  (w_run (w_answer "v2") None (λ _, false) w_url (w_stored "v1" w_url)).2 !! str "/c/ads.txt" = Some (w_content "v2").
Proof.
  assert (Hs : w_status (w_run (w_answer "v2") None (λ _, false) w_url (w_stored "v1" w_url)).1 = Some CacheDownloadStatus.Updated) by (by vm_compute).
  destruct (w_run (w_answer "v2") None (λ _, false) w_url (w_stored "v1" w_url)) as [[r|e|] w'] eqn:E; [|done..].
  refine (proj1 (@refreshed_list_is_current w_nlohmann w_text w_dump w_files (w_cache_world (w_answer "v2") None (λ _, false)) (w_cache_laws _ _ _)
    w_cache w_client w_url w_content (λ _, str "v2") w_name 0 (w_stored "v1" w_url) r w' (w_writes_through _ _) w_reparses
    (w_tagging _ _) _ E _)).
  - done.
  - exists (w_meta "v1" w_url). split_and!; [by vm_compute|done|]. by intros _.
  - injection Hs as ->. done.
Defined.

(** ** What the cache does not notice *)

(** The body of a list was lost while its metadata stayed: the server still
    answers "not modified", and the list stays missing. *)
Lemma lost_body_is_not_fetched_again :
  let '(res, w') := w_run (w_answer "v1") None (λ _, false) w_url {[ meta_path w_cache w_name := w_metadata "v1" w_url ]} in
  w_status res = Some CacheDownloadStatus.NotModified ∧ w' !! cache_path w_cache w_name = None.
Proof. by vm_compute. Qed.

(** The address of a list was changed to a server that uses the same tag: the
    content of the old address stays. *)
Lemma changed_address_keeps_old_content :
  let server r := if bool_decide (req_url r = str "http://lists/other")
    then (if bool_decide (str "If-None-Match: 1" ∈ req_headers r) then Build_HttpTransportResponse 304 [] ∅ 1
          else Build_HttpTransportResponse 200 "other.example.com" {[str "etag" := str "1"]} 1)
    else w_answer "1" r in
  let '(res, w') := w_run server None (λ _, false) "http://lists/other" (w_stored "1" w_url) in
  w_status res = Some CacheDownloadStatus.NotModified ∧ w' !! cache_path w_cache w_name = Some (w_content "1").
Proof. by vm_compute. Qed.

(** The text that was still buffered when the file was closed is lost, and the
    shortened list is installed as an update. *)
Lemma shortened_body_is_installed :
  let '(res, w') := w_run (w_answer "v2") (Some 3%nat) (λ _, false) w_url (w_stored "v1" w_url) in
  w_status res = Some CacheDownloadStatus.Updated ∧ w' !! cache_path w_cache w_name = Some (str "v2.").
Proof. by vm_compute. Qed.

(** The metadata cannot be replaced: the download fails with the new body
    installed and the old metadata. *)
Lemma failed_download_leaves_new_body :
  let '(res, w') := w_run (w_answer "v2") None (λ p, bool_decide (p = meta_path w_cache w_name)) w_url (w_stored "v1" w_url) in
  w_status res = Some CacheDownloadStatus.Failed ∧ w' !! cache_path w_cache w_name = Some (w_content "v2") ∧
  w' !! meta_path w_cache w_name = Some (w_metadata "v1" w_url).
Proof. by vm_compute. Qed.

(** A tag that is not UTF-8: the exception leaves the download. *)
Lemma foreign_tag_escapes :
  ∃ m, (w_run (w_answer [chr 233]) None (λ _, false) w_url (w_stored "v1" w_url)).1 = Throw (json_exception m).
Proof. eexists. by vm_compute. Qed.
End CacheSample.
