(* ===== verification/ListService.v ===== *)
(** * The list service (src/src/daemon/list_service.{hpp,cpp})

    Which lists a refresh covers, the refresh itself, and how concurrent
    refreshes share one execution. *)

From S2P Require Import Prelude CppString Config Json JsonSample ConfigJson ApiJson Fwmark FirewallRules ListStreamer Cache.

Local Open Scope Z_scope.

(** ** Selecting lists *)

Module RemoteListTargetSelectionError.
Inductive t := None | NotFound | NotRemote.
End RemoteListTargetSelectionError.

Record RemoteListTargetSelection := mk_Selection {
  selection_error : RemoteListTargetSelectionError.t;
  list_names : list cstring;
}.
Definition selection_ok (s : RemoteListTargetSelection) : bool :=
  match selection_error s with RemoteListTargetSelectionError.None => true | _ => false end.

Definition is_remote (cfg : ListConfig) : bool := bool_decide (is_Some (list_url cfg)).

Definition select_remote_list_targets (config : Config) (requested_name : option cstring) : RemoteListTargetSelection :=
  match requested_name with
  | Some name =>
      match config_lists config !! name with
      | None => mk_Selection RemoteListTargetSelectionError.NotFound []
      | Some cfg => if is_remote cfg then mk_Selection RemoteListTargetSelectionError.None [name]
                    else mk_Selection RemoteListTargetSelectionError.NotRemote []
      end
  | None => mk_Selection RemoteListTargetSelectionError.None
              (List.filter (λ e, is_remote e.2) (in_key_order (config_lists config))).*1
  end.

Definition route_rules (config : Config) : list RouteRule := value_or (route config ≫= rules) [].
Definition config_dns_rules (config : Config) : list DnsRule := value_or (dns config ≫= dns_rules) [].

Definition collect_dns_relevant_list_names (config : Config) : gset cstring :=
  list_to_set (rule ← List.filter dns_rule_enabled (config_dns_rules config); dns_rule_list rule).
Definition collect_relevant_list_names (config : Config) : gset cstring :=
  list_to_set (rule ← List.filter route_rule_enabled (route_rules config); route_rule_lists rule) ∪
  collect_dns_relevant_list_names config.

Fixpoint join_names (names : list cstring) : cstring :=
  match names with [] => [] | [name] => name | name :: names => name ++ ", " ++ join_names names end.
Definition format_list_names (names : list cstring) : cstring :=
  if bool_decide (names = []) then "(none)" else join_names names.

(** ** A refresh *)

Record RemoteListsRefreshResult := mk_Refresh {
  refreshed_lists : list cstring;
  cached_lists : list cstring;
  changed_lists : list cstring;
  unchanged_lists : list cstring;
  relevant_changed_lists : list cstring;
  dns_relevant_changed_lists : list cstring;
  failed_lists : list cstring;
}.
Definition no_lists : RemoteListsRefreshResult := mk_Refresh [] [] [] [] [] [] [].
Definition non_empty (l : list cstring) : bool := negb (bool_decide (l = [])).
Definition any_refreshed (r : RemoteListsRefreshResult) : bool := non_empty (refreshed_lists r).
Definition any_changed (r : RemoteListsRefreshResult) : bool := non_empty (changed_lists r).
Definition any_relevant_changed (r : RemoteListsRefreshResult) : bool := non_empty (relevant_changed_lists r).
Definition any_dns_relevant_changed (r : RemoteListsRefreshResult) : bool := non_empty (dns_relevant_changed_lists r).
Definition any_failed (r : RemoteListsRefreshResult) : bool := non_empty (failed_lists r).

Definition should_reload_runtime_after_list_refresh (routing_runtime_active : bool) (r : RemoteListsRefreshResult) : bool :=
  routing_runtime_active && any_relevant_changed r.

(** The arguments of [download_remote_lists]; a set is [None] for a null pointer. *)
Record RefreshCall := mk_Call {
  rc_config : Config;
  rc_marks : OutboundMarkMap;
  only_uncached : bool;
  relevant_lists : option (gset cstring);
  target_lists : option (gset cstring);
  dns_relevant_lists : option (gset cstring);
}.
Definition download_uncached_call (config : Config) (marks : OutboundMarkMap) (relevant dns_relevant : option (gset cstring)) :
    RefreshCall := mk_Call config marks true relevant None dns_relevant.
Definition refresh_remote_lists_call (config : Config) (marks : OutboundMarkMap) (relevant targets dns_relevant : option (gset cstring)) :
    RefreshCall := mk_Call config marks false relevant targets dns_relevant.

(** [set && set->count(name) > 0] *)
Definition in_given (s : option (gset cstring)) (name : cstring) : bool :=
  match s with Some s => bool_decide (name ∈ s) | None => false end.

(** What the loop does with a list: skip it, keep its cached body, download it *)
Definition is_target (c : RefreshCall) (e : cstring * ListConfig) : bool :=
  is_remote e.2 && match target_lists c with Some s => bool_decide (e.1 ∈ s) | None => true end.
Definition detour_fwmark (marks : OutboundMarkMap) (cfg : ListConfig) : Z :=
  match list_detour cfg with
  | Some detour => value_or (marks !! internal_detour_mark_key detour) 0
  | None => 0
  end.

Definition add_cached (name : cstring) (r : RemoteListsRefreshResult) : RemoteListsRefreshResult :=
  mk_Refresh (refreshed_lists r) (cached_lists r ++ [name]) (changed_lists r) (unchanged_lists r)
    (relevant_changed_lists r) (dns_relevant_changed_lists r) (failed_lists r).
Definition add_refreshed (c : RefreshCall) (name : cstring) (status : CacheDownloadStatus.t) (r : RemoteListsRefreshResult) :
    RemoteListsRefreshResult :=
  let refreshed := refreshed_lists r ++ [name] in
  match status with
  | CacheDownloadStatus.Failed =>
      mk_Refresh refreshed (cached_lists r) (changed_lists r) (unchanged_lists r)
        (relevant_changed_lists r) (dns_relevant_changed_lists r) (failed_lists r ++ [name])
  | CacheDownloadStatus.NotModified =>
      mk_Refresh refreshed (cached_lists r) (changed_lists r) (unchanged_lists r ++ [name])
        (relevant_changed_lists r) (dns_relevant_changed_lists r) (failed_lists r)
  | CacheDownloadStatus.Updated =>
      mk_Refresh refreshed (cached_lists r) (changed_lists r ++ [name]) (unchanged_lists r)
        (relevant_changed_lists r ++ (if in_given (relevant_lists c) name then [name] else []))
        (dns_relevant_changed_lists r ++ (if in_given (dns_relevant_lists c) name then [name] else []))
        (failed_lists r)
  end.

Section refresh.
Context {NL : Nlohmann} {JT : JsonText} {JD : JsonDump} {W : Type} `{CW : !CacheWorld W}.
Context (cache : CacheManager) (client : HttpClient).

(** One turn of the loop *)
Definition refresh_list (c : RefreshCall) (e : cstring * ListConfig) (r : RemoteListsRefreshResult) :
    stexc W RemoteListsRefreshResult := λ w,
  match list_url e.2 with
  | None => (Ok r, w)
  | Some url =>
      if negb (is_target c e) then (Ok r, w)
      else if only_uncached c && exists_at w (cache_path cache e.1) then (Ok (add_cached e.1 r), w)
      else (d ← download cache client e.1 url (detour_fwmark (rc_marks c) e.2);
            mret (add_refreshed c e.1 (dl_status d) r)) w
  end.

Fixpoint refresh_loop (c : RefreshCall) (l : list (cstring * ListConfig)) (r : RemoteListsRefreshResult) :
    stexc W RemoteListsRefreshResult :=
  match l with
  | [] => mret r
  | e :: l => r ← refresh_list c e r; refresh_loop c l r
  end.
Definition call_lists (c : RefreshCall) : list (cstring * ListConfig) := in_key_order (config_lists (rc_config c)).
(** The [try] block of [download_remote_lists] *)
Definition download_lists (c : RefreshCall) : stexc W RemoteListsRefreshResult := refresh_loop c (call_lists c) no_lists.

(** [build_list_refresh_state_map] *)
Fixpoint refresh_states (l : list (cstring * ListConfig)) (w : W) (m : gmap cstring ListRefreshStateValue.t) :
    exc (gmap cstring ListRefreshStateValue.t) :=
  match l with
  | [] => Ok m
  | (name, cfg) :: l =>
      if is_remote cfg
      then metadata ← load_metadata cache name w;
           refresh_states l w (<[name := ListRefreshStateValue.make (CacheMetadata.download_time metadata)]> m)
      else refresh_states l w m
  end.
Definition build_list_refresh_state_map (config : Config) (w : W) : exc (gmap cstring ListRefreshStateValue.t) :=
  refresh_states (in_key_order (config_lists config)) w ∅.
End refresh.

(** ** One execution at a time *)

Definition set_json (s : option (gset cstring)) : json :=
  match s with Some s => JArr (JStr <$> stable_sort str_lt (elements s)) | None => JNull end.
Definition marks_json (m : OutboundMarkMap) : json := JObj (prod_map id JInt <$> in_key_order m).

Section key.
Context {NL : Nlohmann} {JD : JsonDump}.
Definition refresh_flight_key (c : RefreshCall) : exc cstring :=
  json_compact (JObj [(str "config", config_to_json (rc_config c)); (str "dns_relevant", set_json (dns_relevant_lists c));
    (str "marks", marks_json (rc_marks c)); (str "only_uncached", JBool (only_uncached c));
    (str "relevant", set_json (relevant_lists c)); (str "targets", set_json (target_lists c))]).
End key.

Record RefreshFlight := mk_Flight {
  flight_key : cstring;
  flight_done : bool;
  flight_result : RemoteListsRefreshResult;
  flight_error : option exn;
}.

(** A caller of [download_remote_lists]: before it has found or made a flight,
    waiting for another's, running its own, returned *)
Inductive caller :=
  | Calling (c : RefreshCall)
  | Following (c : RefreshCall) (flight : nat)
  | Running (c : RefreshCall) (flight : nat) (todo : list (cstring * ListConfig)) (result : RemoteListsRefreshResult)
  | Returned (c : RefreshCall) (outcome : exc RemoteListsRefreshResult).

Record ListService (W : Type) := mk_Service {
  callers : list caller;
  flights : list RefreshFlight;
  refresh_flight_ : option nat;
  world : W;
}.
Arguments mk_Service {W}.
Arguments callers {W}.
Arguments flights {W}.
Arguments refresh_flight_ {W}.
Arguments world {W}.

Section service.
Context {NL : Nlohmann} {JT : JsonText} {JD : JsonDump} {W : Type} `{CW : !CacheWorld W}.
Context (cache : CacheManager) (client : HttpClient).

Definition set_caller (i : nat) (t : caller) (s : ListService W) : ListService W :=
  mk_Service (<[i := t]> (callers s)) (flights s) (refresh_flight_ s) (world s).

(** Taking the mutex for the first time; [None] while another flight is under way *)
Definition enter (i : nat) (c : RefreshCall) (s : ListService W) : option (ListService W) :=
  match refresh_flight_key c with
  | Ok key =>
      match refresh_flight_ s with
      | Some f =>
          fl ← flights s !! f;
          if bool_decide (flight_key fl = key) then Some (set_caller i (Following c f) s) else None
      | None =>
          let f := length (flights s) in
          Some (mk_Service (<[i := Running c f (call_lists c) no_lists]> (callers s))
                  (flights s ++ [mk_Flight key false no_lists None]) (Some f) (world s))
      end
  | Throw e => Some (set_caller i (Returned c (Throw e)) s)
  | Undefined => None
  end.

(** The owner ends its flight *)
Definition complete (i : nat) (c : RefreshCall) (f : nat) (result : RemoteListsRefreshResult) (error : option exn) (w : W)
    (s : ListService W) : ListService W :=
  mk_Service (<[i := Returned c (match error with Some e => Throw e | None => Ok result end)]> (callers s))
    (alter (λ fl, mk_Flight (flight_key fl) true (match error with Some _ => flight_result fl | None => result end) error) f (flights s))
    None w.

(** The next step of caller [i], if it has one *)
Definition advance (i : nat) (s : ListService W) : option (ListService W) :=
  match callers s !! i with
  | Some (Calling c) => enter i c s
  | Some (Following c f) =>
      fl ← flights s !! f;
      if flight_done fl
      then Some (set_caller i (Returned c (match flight_error fl with Some e => Throw e | None => Ok (flight_result fl) end)) s)
      else None
  | Some (Running c f [] result) => Some (complete i c f result None (world s) s)
  | Some (Running c f (e :: todo) result) =>
      match refresh_list cache client c e result (world s) with
      | (Ok result', w') => Some (mk_Service (<[i := Running c f todo result']> (callers s)) (flights s) (refresh_flight_ s) w')
      | (Throw ex, w') => Some (complete i c f result (Some ex) w' s)
      | (Undefined, _) => None
      end
  | _ => None
  end.

Inductive service_step : ListService W → ListService W → Prop :=
  | step_call c s : service_step s (mk_Service (callers s ++ [Calling c]) (flights s) (refresh_flight_ s) (world s))
  | step_advance i s s' : advance i s = Some s' → service_step s s'.
Definition new_service (w : W) : ListService W := mk_Service [] [] None w.
Definition service_reachable (w : W) (s : ListService W) : Prop := rtc service_step (new_service w) s.
End service.

(** ** What a refresh reports *)

Lemma body_path_other cache a b : head a ≠ Some "/"%char → head b ≠ Some "/"%char → a ≠ b →
  cache_path cache a ≠ cache_path cache b ∧ cache_path cache a ≠ meta_path cache b ∧
  cache_path cache a ≠ tmp_body cache b ∧ cache_path cache a ≠ tmp_meta cache b.
Proof.
  intros Ha Hb Hab. unfold cache_path, meta_path, tmp_body, tmp_meta, path_join.
  assert (Hh : ∀ n s, head n ≠ Some "/"%char → head s = Some "."%char → bool_decide (head (n ++ s) = Some "/"%char) = false).
  { intros n s Hn Hs. apply bool_decide_eq_false_2. destruct n; [cbn; congruence|done]. }
  rewrite !Hh by done.
  assert (Hj : ∀ x y : cstring, (if bool_decide (cache_dir_ cache = []) || bool_decide (last (cache_dir_ cache) = Some "/"%char)
    then cache_dir_ cache ++ x else cache_dir_ cache ++ "/" ++ x) = (if bool_decide (cache_dir_ cache = []) || bool_decide (last (cache_dir_ cache) = Some "/"%char)
    then cache_dir_ cache ++ y else cache_dir_ cache ++ "/" ++ y) → x = y).
  { intros x y. destruct (_ || _); intros H; [by apply (inj (app (cache_dir_ cache))) in H|].
    by apply (inj (app (cache_dir_ cache))), (inj (app (str "/"))) in H. }
  assert (Hl : ∀ x y : cstring, x = y → last x = last y) by (by intros ? ? ->).
  split_and!; intros H; apply Hj in H.
  - by apply (inj (λ l, l ++ str ".txt")) in H.
  - apply Hl in H. rewrite !last_app in H. done.
  - apply Hl in H. rewrite !last_app in H. done.
  - apply Hl in H. rewrite !last_app in H. done.
Qed.

Section report.
Context {NL : Nlohmann} {JT : JsonText} {JD : JsonDump} {W : Type} `{CW : !CacheWorld W} `{CL : !CacheWorldLaws W}.
Context (cache : CacheManager) (client : HttpClient).

Lemma download_keeps_others name url fwmark w r w' other :
  download cache client name url fwmark w = (Ok r, w') → head name ≠ Some "/"%char → head other ≠ Some "/"%char →
  (other = name → dl_status r = CacheDownloadStatus.NotModified) →
  contents w' (cache_path cache other) = contents w (cache_path cache other).
Proof.
  intros Hd Hn Ho Hsame. destruct (load_metadata cache name w) as [existing|e|] eqn:El;
    [|by unfold download in Hd; rewrite El in Hd..].
  pose proof (download_run cache client name url fwmark w existing El) as H. cbv zeta in H. rewrite Hd in H.
  destruct (decide (other = name)) as [->|Hne].
  { rewrite (Hsame eq_refl) in H. destruct H as [(_ & Hs & _)|[(? & _)|(? & _)]]; done. }
  destruct (body_path_other cache other name Ho Hn Hne) as (P1 & P2 & P3 & P4).
  destruct H as [(_ & Hs & _)|[(_ & ? & ? & ? & ? & ? & ? & ? & _ & _ & _ & (R1 & _) & _)|(_ & [Hs|(? & ? & _ & ? & (R1 & _) & _)])]].
  all: first [apply Hs|by apply R1].
Qed.

(** The lists that a result accounts for *)
Record accounts (c : RefreshCall) (targets : list cstring) (r : RemoteListsRefreshResult) : Prop := mk_accounts {
  acc_targets : refreshed_lists r ++ cached_lists r ≡ₚ targets;
  acc_refreshed : refreshed_lists r ≡ₚ changed_lists r ++ unchanged_lists r ++ failed_lists r;
  acc_relevant : relevant_changed_lists r = List.filter (in_given (relevant_lists c)) (changed_lists r);
  acc_dns : dns_relevant_changed_lists r = List.filter (in_given (dns_relevant_lists c)) (changed_lists r);
  acc_uncached : only_uncached c = false → cached_lists r = [];
}.

Lemma accounts_cached c ts r name : only_uncached c = true → accounts c ts r → accounts c (ts ++ [name]) (add_cached name r).
Proof. intros Ho [A1 A2 A3 A4 A5]. split; cbn; [|done..|congruence]. by rewrite app_assoc, A1. Qed.

Lemma accounts_refreshed c ts r name st : accounts c ts r → accounts c (ts ++ [name]) (add_refreshed c name st r).
Proof.
  intros [A1 A2 A3 A4 A5]. unfold add_refreshed. destruct st; split; cbn; try done.
  all: try (rewrite <- A1; solve_Permutation).
  all: try (rewrite A2; solve_Permutation).
  all: rewrite ?A3, ?A4, List.filter_app; cbn; by destruct (in_given _ _).
Qed.

Lemma refresh_list_step c e r w r' w' ts :
  refresh_list cache client c e r w = (Ok r', w') → accounts c ts r →
  accounts c (ts ++ (if is_target c e then [e.1] else [])) r' ∧
  (∀ n, n ∈ changed_lists r ∨ n ∈ failed_lists r → n ∈ changed_lists r' ∨ n ∈ failed_lists r') ∧
  (∀ n, head n ≠ Some "/"%char → head e.1 ≠ Some "/"%char → n ∉ changed_lists r' → n ∉ failed_lists r' →
    contents w' (cache_path cache n) = contents w (cache_path cache n)).
Proof.
  unfold refresh_list. destruct (list_url e.2) as [url|] eqn:Eu; cycle 1.
  { intros [= <- <-] Ha. unfold is_target, is_remote. rewrite Eu, bool_decide_eq_false_2 by (by intros [? ?]). cbn. by rewrite app_nil_r. }
  destruct (is_target c e); cbn [negb]; [|intros [= <- <-] Ha; by rewrite app_nil_r].
  destruct (only_uncached c) eqn:Eo; cbn [andb].
  1: destruct (exists_at w (cache_path cache e.1)); [intros [= <- <-] Ha; split; [by apply accounts_cached|done]|].
  all: unfold mbind, stexc_bind; destruct (download _ _ _ _ _ w) as [[d|ex|] w1] eqn:Ed; [|done..]; intros [= <- <-] Ha;
    (split; [by apply accounts_refreshed|]); (split; [unfold add_refreshed; destruct (dl_status d); cbn; set_solver|]);
    intros n Hn He Hc Hf; eapply download_keeps_others; [exact Ed|done|done|]; intros ->;
    revert Hc Hf; unfold add_refreshed; destruct (dl_status d); cbn; set_solver.
Qed.

Lemma refresh_loop_run c l r w r' w' ts :
  refresh_loop cache client c l r w = (Ok r', w') → accounts c ts r →
  accounts c (ts ++ (List.filter (is_target c) l).*1) r' ∧
  (∀ n, n ∈ changed_lists r ∨ n ∈ failed_lists r → n ∈ changed_lists r' ∨ n ∈ failed_lists r') ∧
  ((∀ n, n ∈ l.*1 → head n ≠ Some "/"%char) → ∀ n, head n ≠ Some "/"%char → n ∉ changed_lists r' → n ∉ failed_lists r' →
    contents w' (cache_path cache n) = contents w (cache_path cache n)).
Proof.
  revert r w ts. induction l as [|e l IH]; intros r w ts; cbn [refresh_loop].
  { intros [= <- <-] Ha. cbn. by rewrite app_nil_r. }
  unfold mbind, stexc_bind. destruct (refresh_list cache client c e r w) as [[r1|ex|] w1] eqn:E1; [|done..]. intros Hl Ha.
  destruct (refresh_list_step _ _ _ _ _ _ _ E1 Ha) as (Ha1 & Hm1 & Hk1).
  destruct (IH _ _ _ Hl Ha1) as (Ha2 & Hm2 & Hk2). split_and!.
  - cbn. destruct (is_target c e); cbn in *; by rewrite ?app_nil_r, <- ?app_assoc in Ha2.
  - auto.
  - intros Hs n Hn Hc Hf. rewrite fmap_cons in Hs. rewrite Hk2; [|by intros; apply Hs; right|done..].
    apply Hk1; [done|apply Hs; left| |]; intros Hin; destruct (Hm2 n); auto.
Qed.

(** A refresh accounts for every list it covers: the remote lists it was
    asked for are exactly those refreshed or found in the cache, the refreshed
    ones are exactly those that changed, did not change or failed, the relevant
    changes are the changes among the relevant lists, every list is refreshed
    unless only missing ones were asked for, and the body of a list that is
    reported neither changed nor failed is the one it had before. *)
Theorem refresh_accounts_for_lists c w r w' :
  download_lists cache client c w = (Ok r, w') →
  refreshed_lists r ++ cached_lists r ≡ₚ (List.filter (is_target c) (call_lists c)).*1 ∧
  refreshed_lists r ≡ₚ changed_lists r ++ unchanged_lists r ++ failed_lists r ∧
  relevant_changed_lists r = List.filter (in_given (relevant_lists c)) (changed_lists r) ∧
  dns_relevant_changed_lists r = List.filter (in_given (dns_relevant_lists c)) (changed_lists r) ∧
  (only_uncached c = false → cached_lists r = []) ∧
  ((∀ n, n ∈ (call_lists c).*1 → head n ≠ Some "/"%char) → ∀ n, n ∈ (call_lists c).*1 →
     n ∉ changed_lists r → n ∉ failed_lists r → contents w' (cache_path cache n) = contents w (cache_path cache n)).
Proof.
  intros H. destruct (refresh_loop_run c _ _ _ _ _ [] H) as ([A1 A2 A3 A4 A5] & _ & Hk); [by split|].
  split_and!; [done..|]. intros Hs n Hn. by apply Hk, Hs.
Qed.
End report.

(** ** The key of a call *)

#[local] Instance JStr_inj : Inj (=) (=) JStr.
Proof. by intros x y [= ->]. Qed.
#[local] Instance member_int_inj : Inj (=) (=) (prod_map id JInt : cstring * Z → cstring * json).
Proof. by intros [x a] [y b] [= -> ->]. Qed.

Lemma set_json_inj s t : set_json s = set_json t → s = t.
Proof.
  destruct s as [s|], t as [t|]; cbn; [|done..]. intros [= H]. apply (inj (fmap JStr)) in H. f_equal. apply set_eq. intros x.
  rewrite <- !elem_of_elements, <- (stable_sort_perm str_lt (elements s)), <- (stable_sort_perm str_lt (elements t)). by rewrite H.
Qed.

Lemma marks_json_inj m1 m2 : marks_json m1 = marks_json m2 → m1 = m2.
Proof.
  intros [= H]. apply (inj (fmap (prod_map id JInt))) in H.
  by rewrite <- (list_to_map_in_key_order m1), <- (list_to_map_in_key_order m2), H.
Qed.

Section key_spec.
Context {NL : Nlohmann} {JT : JsonText} {JD : JsonDump}.

Definition compact_reparses : Prop := ∀ j text, json_compact j = Ok text → json_parse text = Some j.

Lemma refresh_flight_key_inj c1 c2 key : compact_reparses → config_fits (rc_config c1) → config_fits (rc_config c2) →
  refresh_flight_key c1 = Ok key → refresh_flight_key c2 = Ok key → c1 = c2.
Proof.
  intros Hp F1 F2 K1 K2. apply Hp in K1, K2. rewrite K1 in K2. clear K1.
  assert (Ec : config_to_json (rc_config c1) = config_to_json (rc_config c2)) by congruence.
  assert (Hback : ∀ cfg, config_fits cfg → config_from_json (config_to_json cfg) = Ok cfg) by exact (from_to_json (CodecLaw := config_law)).
  apply (f_equal config_from_json) in Ec. rewrite !Hback in Ec by done.
  assert (set_json (dns_relevant_lists c1) = set_json (dns_relevant_lists c2)) as E1%set_json_inj by congruence.
  assert (set_json (relevant_lists c1) = set_json (relevant_lists c2)) as E2%set_json_inj by congruence.
  assert (set_json (target_lists c1) = set_json (target_lists c2)) as E3%set_json_inj by congruence.
  assert (marks_json (rc_marks c1) = marks_json (rc_marks c2)) as E4%marks_json_inj by congruence.
  destruct c1, c2; cbn in *. congruence.
Qed.
End key_spec.

(** ** Concurrent refreshes are serial *)

Definition outcome_of (fl : RefreshFlight) : exc RemoteListsRefreshResult :=
  match flight_error fl with Some e => Throw e | None => Ok (flight_result fl) end.

Section serial.
Context {NL : Nlohmann} {JT : JsonText} {JD : JsonDump} {W : Type} `{CW : !CacheWorld W}.
Context (cache : CacheManager) (client : HttpClient).

(** Executions one after the other, with their outcomes *)
Inductive serial : W → list (RefreshCall * exc RemoteListsRefreshResult) → W → Prop :=
  | serial_nil w : serial w [] w
  | serial_snoc w log w1 c r w2 : serial w log w1 → download_lists cache client c w1 = (r, w2) → serial w (log ++ [(c, r)]) w2.

Definition call_of (t : caller) : RefreshCall :=
  match t with Calling c | Following c _ | Running c _ _ _ | Returned c _ => c end.
Definition called (ts : list caller) (c : RefreshCall) : Prop := ∃ i t, ts !! i = Some t ∧ call_of t = c.

Lemma called_insert ts i old new c : ts !! i = Some old → call_of new = call_of old → called ts c → called (<[i := new]> ts) c.
Proof.
  intros Hi Hn (j & t & Hj & Ht). destruct (decide (i = j)) as [->|Hne].
  - exists j, new. split; [apply list_lookup_insert_eq; by apply lookup_lt_Some in Hj|]. rewrite Hi in Hj. injection Hj as ->. congruence.
  - exists j, t. by rewrite list_lookup_insert_ne.
Qed.

Definition is_running (t : caller) : Prop := match t with Running _ _ _ _ => True | _ => False end.

(** The flight under way and its owner, which has handled the lists [past] *)
Record under_way (w1 : W) (s : ListService W) (f i : nat) (c : RefreshCall) (past todo : list (cstring * ListConfig))
    (res : RemoteListsRefreshResult) : Prop := mk_under_way {
  uw_flight : ∃ fl, flights s !! f = Some fl ∧ flight_done fl = false ∧ refresh_flight_key c = Ok (flight_key fl);
  uw_owner : callers s !! i = Some (Running c f todo res);
  uw_only : ∀ j t, callers s !! j = Some t → is_running t → j = i;
  uw_lists : call_lists c = past ++ todo;
  uw_run : refresh_loop cache client c past no_lists w1 = (Ok res, world s);
  uw_others : ∀ f' fl, flights s !! f' = Some fl → f' ≠ f → flight_done fl = true;
}.

Record idle (w1 : W) (s : ListService W) : Prop := mk_idle {
  idle_world : world s = w1;
  idle_callers : ∀ j t, callers s !! j = Some t → ¬ is_running t;
  idle_flights : ∀ f fl, flights s !! f = Some fl → flight_done fl = true;
}.

Definition explained (log : list (RefreshCall * exc RemoteListsRefreshResult)) (fls : list RefreshFlight) (t : caller) : Prop :=
  match t with
  | Following c f => ∃ fl, fls !! f = Some fl ∧ refresh_flight_key c = Ok (flight_key fl)
  | Returned c r => (∃ e, refresh_flight_key c = Throw e ∧ r = Throw e) ∨
                    ∃ c' key, refresh_flight_key c = Ok key ∧ refresh_flight_key c' = Ok key ∧ (c', r) ∈ log
  | _ => True
  end.

Record service_ok (w0 : W) (log : list (RefreshCall * exc RemoteListsRefreshResult)) (w1 : W) (s : ListService W) : Prop := mk_service_ok {
  so_serial : serial w0 log w1;
  so_flights : ∀ f fl, flights s !! f = Some fl → flight_done fl = true →
    ∃ c, refresh_flight_key c = Ok (flight_key fl) ∧ (c, outcome_of fl) ∈ log;
  so_current : match refresh_flight_ s with
               | Some f => ∃ i c past todo res, under_way w1 s f i c past todo res
               | None => idle w1 s
               end;
  so_callers : ∀ i t, callers s !! i = Some t → explained log (flights s) t;
  so_log : ∀ c r, (c, r) ∈ log → called (callers s) c;
}.

Lemma insert_lookup_cases {A} (l : list A) i j x y : <[i := x]> l !! j = Some y → (j = i ∧ y = x) ∨ (j ≠ i ∧ l !! j = Some y).
Proof. intros H. apply list_lookup_insert_Some in H. naive_solver. Qed.

(** A caller that is not the owner moves on. *)
Lemma other_moves w0 log w1 s i old new : service_ok w0 log w1 s → callers s !! i = Some old → ¬ is_running old → ¬ is_running new →
  call_of new = call_of old → explained log (flights s) new → service_ok w0 log w1 (set_caller i new s).
Proof.
  intros [S1 S2 S3 S4 S5] Hi Ho Hn Hc He. split; [done|done| | |intros c r Hin; eapply called_insert; eauto].
  - cbn [refresh_flight_ set_caller]. destruct (refresh_flight_ s) as [f|].
    + destruct S3 as (k & c & past & todo & res & [U1 U2 U3 U4 U5 U6]). exists k, c, past, todo, res.
      assert (i ≠ k) by (intros ->; rewrite Hi in U2; injection U2 as ->; by apply Ho).
      split; try done; cbn [callers set_caller].
      * by rewrite list_lookup_insert_ne.
      * intros j t Hj Ht. apply insert_lookup_cases in Hj as [[-> ->]|[_ Hj]]; [done|by apply (U3 j t)].
    + destruct S3 as [I1 I2 I3]. split; try done. cbn [callers set_caller]. intros j t Hj.
      apply insert_lookup_cases in Hj as [[-> ->]|[_ Hj]]; [done|by apply (I2 j)].
  - cbn [callers flights set_caller]. intros j t Hj. apply insert_lookup_cases in Hj as [[-> ->]|[_ Hj]]; [done|by apply (S4 j)].
Qed.

Lemma explained_mono log fls t log' fls' : explained log fls t →
  (∀ x, x ∈ log → x ∈ log') → (∀ f fl, fls !! f = Some fl → ∃ fl', fls' !! f = Some fl' ∧ flight_key fl' = flight_key fl) →
  explained log' fls' t.
Proof.
  destruct t; cbn; try done.
  - intros (fl & Hf & Hk) _ Hfl. destruct (Hfl _ _ Hf) as (fl' & Hf' & E). exists fl'. split; [done|]. by rewrite E.
  - intros [H|(c' & key & K1 & K2 & Hin)] Hl _; [by left|]. right. exists c', key. auto.
Qed.

Lemma enter_ok w0 log w1 s i c s' : service_ok w0 log w1 s → callers s !! i = Some (Calling c) → enter i c s = Some s' →
  service_ok w0 log w1 s'.
Proof.
  intros Hok Hi. unfold enter. destruct (refresh_flight_key c) as [key|e|] eqn:Ek; [|intros [= <-]|done].
  2:{ eapply other_moves; eauto. left. eauto. }
  destruct (refresh_flight_ s) as [f|] eqn:Ef.
  { unfold mbind, option_bind. destruct (flights s !! f) as [fl|] eqn:Efl; [|done]. case_bool_decide as E; [|done]. intros [= <-].
    eapply other_moves; eauto. exists fl. split; [done|]. by rewrite E. }
  intros [= <-]. destruct Hok as [S1 S2 S3 S4 S5]. rewrite Ef in S3. destruct S3 as [I1 I2 I3].
  assert (Hold : ∀ f fl, (flights s ++ [mk_Flight key false no_lists None]) !! f = Some fl →
    (f = length (flights s) ∧ fl = mk_Flight key false no_lists None) ∨ (f ≠ length (flights s) ∧ flights s !! f = Some fl)).
  { intros f fl H. apply lookup_app_Some in H as [H|[H1 H2]]; [right; split; [|done]; apply lookup_lt_Some in H; lia|left].
    apply list_lookup_singleton_Some in H2 as [H2 <-]. split; [lia|done]. }
  split; cbn [flights callers refresh_flight_ world]; [done| | | |intros c' r Hin; eapply called_insert; eauto].
  - intros f fl Hf Hd. apply Hold in Hf as [[-> ->]|[_ Hf]]; [done|eauto].
  - exists i, c, [], (call_lists c), no_lists. split; cbn [flights callers refresh_flight_ world].
    + exists (mk_Flight key false no_lists None). split; [|done]. by rewrite lookup_app_r, Nat.sub_diag by lia.
    + apply list_lookup_insert_eq. by apply lookup_lt_Some in Hi.
    + intros j t Hj Ht. apply insert_lookup_cases in Hj as [[-> ->]|[_ Hj]]; [done|]. by destruct (I2 _ _ Hj).
    + done.
    + cbn. by rewrite I1.
    + intros f' fl Hf Hne. apply Hold in Hf as [[-> ->]|[_ Hf]]; [done|eauto].
  - intros j t Hj. apply insert_lookup_cases in Hj as [[-> ->]|[_ Hj]]; [done|]. eapply explained_mono; [by apply (S4 j)|done|].
    intros f fl Hf. exists fl. split; [|done]. by apply lookup_app_l_Some.
Qed.

Lemma refresh_loop_app c l1 l2 r (w : W) :
  refresh_loop cache client c (l1 ++ l2) r w = (r ← refresh_loop cache client c l1 r; refresh_loop cache client c l2 r) w.
Proof.
  revert r w. induction l1 as [|e l1 IH]; intros r w; [done|]. cbn [app refresh_loop]. unfold mbind, stexc_bind in *.
  destruct (refresh_list cache client c e r w) as [[r1|ex|] w1]; [apply IH|done..].
Qed.

(** The owner handles a list. *)
Lemma owner_moves w0 log w1 s i c f e todo res res' w' : service_ok w0 log w1 s →
  callers s !! i = Some (Running c f (e :: todo) res) → refresh_list cache client c e res (world s) = (Ok res', w') →
  service_ok w0 log w1 (mk_Service (<[i := Running c f todo res']> (callers s)) (flights s) (refresh_flight_ s) w').
Proof.
  intros [S1 S2 S3 S4 S5] Hi He. split; cbn [flights callers refresh_flight_ world]; [done|done| | |intros c' r Hin; eapply called_insert; eauto; done].
  - destruct (refresh_flight_ s) as [f'|]; [|by destruct (idle_callers _ _ S3 _ _ Hi)].
    destruct S3 as (k & c' & past & todo' & r' & [U1 U2 U3 U4 U5 U6]). assert (i = k) as <- by by apply (U3 _ _ Hi).
    rewrite Hi in U2. injection U2 as <- <- <- <-. exists i, c, (past ++ [e]), todo, res'.
    split; cbn [flights callers refresh_flight_ world]; try done.
    + apply list_lookup_insert_eq. by apply lookup_lt_Some in Hi.
    + intros j t Hj Ht. apply insert_lookup_cases in Hj as [[-> ->]|[_ Hj]]; [done|by apply (U3 j t)].
    + by rewrite <- app_assoc.
    + rewrite refresh_loop_app. unfold mbind, stexc_bind. rewrite U5. cbn [refresh_loop]. unfold mbind, stexc_bind. by rewrite He.
  - intros j t Hj. apply insert_lookup_cases in Hj as [[-> ->]|[_ Hj]]; [done|by apply (S4 j)].
Qed.

(** The owner's flight ends with the outcome of its whole execution. *)
Lemma owner_completes w0 log w1 s i c f todo res error w' : service_ok w0 log w1 s → callers s !! i = Some (Running c f todo res) →
  refresh_loop cache client c todo res (world s) = (match error with Some e => Throw e | None => Ok res end, w') →
  service_ok w0 (log ++ [(c, match error with Some e => Throw e | None => Ok res end)]) w' (complete i c f res error w' s).
Proof.
  intros [S1 S2 S3 S4 S5] Hi Hrun. destruct (refresh_flight_ s) as [f'|]; [|by destruct (idle_callers _ _ S3 _ _ Hi)].
  destruct S3 as (k & c' & past & todo' & r' & [U1 U2 U3 U4 U5 U6]). assert (i = k) as <- by by apply (U3 _ _ Hi).
  rewrite Hi in U2. injection U2 as <- <- <- <-. destruct U1 as (fl0 & Hfl0 & Hd0 & Hk0).
  set (r := match error with Some e => Throw e | None => Ok res end) in *.
  assert (Hend : download_lists cache client c w1 = (r, w')).
  { unfold download_lists. rewrite U4, refresh_loop_app. unfold mbind, stexc_bind. by rewrite U5. }
  set (g := λ fl, mk_Flight (flight_key fl) true (match error with Some _ => flight_result fl | None => res end) error).
  assert (Hfl : ∀ f' fl, alter g f (flights s) !! f' = Some fl →
    (f' = f ∧ fl = g fl0) ∨ (f' ≠ f ∧ flights s !! f' = Some fl)).
  { intros f' fl H. destruct (decide (f' = f)) as [->|Hne]; [left|right; by rewrite list_lookup_alter_ne in H].
    rewrite list_lookup_alter_eq, Hfl0 in H. by injection H as <-. }
  assert (Hout : outcome_of (g fl0) = r) by (unfold outcome_of, r, g; by destruct error).
  unfold complete. fold r. fold g. split; cbn [flights callers refresh_flight_ world].
  - by econstructor.
  - intros f' fl H Hd. apply Hfl in H as [[-> ->]|[_ H]].
    + exists c. split; [done|]. rewrite Hout. set_solver.
    + destruct (S2 _ _ H Hd) as (c' & ? & ?). exists c'. set_solver.
  - split; cbn [flights callers refresh_flight_ world]; [done| |].
    + intros j t Hj Ht. apply insert_lookup_cases in Hj as [[-> ->]|[Hne Hj]]; [done|]. by apply Hne, (U3 j t).
    + intros f' fl H. apply Hfl in H as [[-> ->]|[Hne H]]; [done|]. by apply (U6 f').
  - intros j t Hj. apply insert_lookup_cases in Hj as [[-> ->]|[_ Hj]].
    + right. exists c, (flight_key fl0). split; [done|]. split; [done|]. set_solver.
    + eapply explained_mono; [by apply (S4 j)|set_solver|]. intros f' fl H. destruct (decide (f' = f)) as [->|Hne].
      * rewrite list_lookup_alter_eq, H. cbn. by eexists.
      * rewrite list_lookup_alter_ne by done. eauto.
  - intros c' r' [Hin|[= -> ->]%list_elem_of_singleton]%elem_of_app; (eapply called_insert; [done|done|]); [eauto|]. by exists i, (Running c f todo res).
Qed.

Lemma advance_ok w0 log w1 s i s' : service_ok w0 log w1 s → advance cache client i s = Some s' →
  ∃ log' w1', service_ok w0 log' w1' s'.
Proof.
  intros Hok. unfold advance. destruct (callers s !! i) as [[c|c f|c f [|e todo] res|c r]|] eqn:Hi; try done.
  - intros He. eauto using enter_ok.
  - unfold mbind, option_bind. destruct (flights s !! f) as [fl|] eqn:Ef; [|done]. destruct (flight_done fl) eqn:Ed; [|done].
    intros [= <-]. exists log, w1. eapply other_moves; eauto. fold (outcome_of fl).
    destruct (so_callers _ _ _ _ Hok _ _ Hi) as (fl' & Ef' & Hk). rewrite Ef in Ef'. injection Ef' as <-.
    destruct (so_flights _ _ _ _ Hok _ _ Ef Ed) as (c' & Hk' & Hin). right. eauto.
  - intros [= <-]. do 2 eexists. exact (owner_completes _ _ _ _ _ _ _ _ _ None _ Hok Hi eq_refl).
  - destruct (refresh_list cache client c e res (world s)) as [[res'|ex|] w'] eqn:He; [|intros [= <-]|done].
    + intros [= <-]. eauto using owner_moves.
    + do 2 eexists. apply (owner_completes _ _ _ _ _ _ _ _ _ (Some ex) _ Hok Hi). cbn [refresh_loop]. unfold mbind, stexc_bind. by rewrite He.
Qed.

Lemma service_invariant w0 s : service_reachable cache client w0 s → ∃ log w1, service_ok w0 log w1 s.
Proof.
  intros H. unfold service_reachable in H. remember (new_service w0) as s0 eqn:E0.
  assert (Hinit : ∃ log w1, service_ok w0 log w1 s0).
  { subst s0. exists [], w0. split; [constructor|done| |done|by intros c r ?%elem_of_nil]. by split. }
  clear E0. induction H as [|s1 s2 s3 Hstep _ IH]; [done|]. apply IH. destruct Hinit as (log & w1 & Hok).
  destruct Hstep as [c s|i s s' Ha]; [|by eapply advance_ok]. exists log, w1.
  assert (Hcases : ∀ j t, (callers s ++ [Calling c]) !! j = Some t → callers s !! j = Some t ∨ t = Calling c).
  { intros j t Hj. apply lookup_app_Some in Hj as [Hj|[_ Hj]]; [by left|]. apply list_lookup_singleton_Some in Hj as [_ <-]. by right. }
  destruct Hok as [S1 S2 S3 S4 S5]. split; cbn [flights callers refresh_flight_ world]; [done|done| | |].
  - destruct (refresh_flight_ s) as [f|].
    + destruct S3 as (i & c' & past & todo & res & [U1 U2 U3 U4 U5 U6]). exists i, c', past, todo, res.
      split; cbn [flights callers refresh_flight_ world]; try done; [by apply lookup_app_l_Some|].
      intros j t [Hj| ->]%Hcases Ht; [by apply (U3 j t)|done].
    + destruct S3 as [I1 I2 I3]. split; try done. intros j t [Hj| ->]%Hcases; [by apply (I2 j)|by intros []].
  - intros j t [Hj| ->]%Hcases; [by apply (S4 j)|done].
  - intros c' r Hin. destruct (S5 c' r Hin) as (j & t & Hj & Ht). exists j, t. split; [by apply lookup_app_l_Some|done].
Qed.

(** C29. Concurrent refreshes behave as if they had been executed one after the
    other: at most one caller works on the files at a time, in every reachable state the results that callers got are those of
    executions of their own calls in one serial order, of which each works on
    the files the previous one left, and when no refresh is under way the files
    are those the last one left. *)
Theorem refreshes_are_serial w0 s : compact_reparses → service_reachable cache client w0 s →
  (∀ c, called (callers s) c → config_fits (rc_config c)) →
  (∀ i j t t', callers s !! i = Some t → is_running t → callers s !! j = Some t' → is_running t' → i = j) ∧
  ∃ log w1, serial w0 log w1 ∧ (refresh_flight_ s = None → world s = w1) ∧
    ∀ i c r, callers s !! i = Some (Returned c r) → (∃ e, refresh_flight_key c = Throw e ∧ r = Throw e) ∨ (c, r) ∈ log.
Proof.
  intros Hp Hr Hfit. apply service_invariant in Hr as (log & w1 & Hok). split.
  { intros i j t t' Hi Ht Hj Ht'. pose proof (so_current _ _ _ _ Hok) as H. destruct (refresh_flight_ s) as [f|].
    - destruct H as (k & c & past & todo & res & H). by rewrite (uw_only _ _ _ _ _ _ _ _ H _ _ Hi Ht), (uw_only _ _ _ _ _ _ _ _ H _ _ Hj Ht').
    - by destruct (idle_callers _ _ H _ _ Hi). }
  exists log, w1. split_and!.
  - apply Hok.
  - intros E. pose proof (so_current _ _ _ _ Hok) as H. rewrite E in H. apply H.
  - intros i c r Hi. destruct (so_callers _ _ _ _ Hok _ _ Hi) as [H|(c' & key & K1 & K2 & Hin)]; [by left|right].
    rewrite (refresh_flight_key_inj c c' key); [done|done| |by apply Hfit, (so_log _ _ _ _ Hok _ _ Hin)|done|done].
    apply Hfit. by exists i, (Returned c r).
Qed.

(** ** Every caller returns *)

Definition caller_weight (t : caller) : nat :=
  match t with
  | Calling c => 2 + length (call_lists c)
  | Following _ _ => 1
  | Running _ _ todo _ => 1 + length todo
  | Returned _ _ => 0
  end.
Definition service_weight (s : ListService W) : nat := sum_list_with caller_weight (callers s).
Definition moves (s s' : ListService W) : Prop := ∃ i, advance cache client i s = Some s'.
Definition has_returned (t : caller) : Prop := match t with Returned _ _ => True | _ => False end.

Lemma sum_list_with_insert {A} (f : A → nat) l i x y : l !! i = Some x →
  (sum_list_with f (<[i := y]> l) + f x = sum_list_with f l + f y)%nat.
Proof.
  revert i. induction l as [|z l IH]; intros [|i] H; try done.
  - injection H as ->. cbn. lia.
  - specialize (IH _ H). change (<[S i := y]> (z :: l)) with (z :: <[i := y]> l). cbn [sum_list_with]. lia.
Qed.

Lemma moves_lighter s s' : moves s s' → (service_weight s' < service_weight s)%nat.
Proof.
  intros (i & H). unfold advance in H. destruct (callers s !! i) as [t|] eqn:Hi; [|done].
  assert (Hless : ∀ t' cs, cs = <[i := t']> (callers s) → (caller_weight t' < caller_weight t)%nat →
    (sum_list_with caller_weight cs < service_weight s)%nat).
  { intros t' cs -> Ht. pose proof (sum_list_with_insert caller_weight _ _ _ t' Hi). unfold service_weight. lia. }
  destruct t as [c|c f|c f [|e todo] res|c r]; try done.
  - unfold enter in H. destruct (refresh_flight_key c); [|injection H as <-; eapply Hless; [done|cbn; lia]|done].
    destruct (refresh_flight_ s); [|injection H as <-; eapply Hless; [done|cbn; lia]].
    unfold mbind, option_bind in H. destruct (flights s !! n); [|done]. case_bool_decide; [|done].
    injection H as <-; eapply Hless; [done|cbn; lia].
  - unfold mbind, option_bind in H. destruct (flights s !! f) as [fl|]; [|done]. destruct (flight_done fl); [|done].
    injection H as <-; eapply Hless; [done|cbn; lia].
  - injection H as <-; eapply Hless; [done|cbn; lia].
  - destruct (refresh_list cache client c e res (world s)) as [[r|ex|] w']; [| |done]; injection H as <-; (eapply Hless; [done|cbn; lia]).
Qed.

(** No call of the library and no file operation has undefined behaviour; then
    no refresh has. *)
Record defined_world : Prop := mk_defined_world {
  dw_perform : ∀ r (w : W), (perform r w).1 ≠ Undefined;
  dw_rename : ∀ a b (w : W), (rename a b w).1 ≠ Undefined;
  dw_remove : ∀ p (w : W), (remove p w).1 ≠ Undefined;
  dw_dump : ∀ j, json_dump j ≠ Undefined;
  dw_compact : ∀ j, json_compact j ≠ Undefined;
}.
Definition never_undefined {A} (m : stexc W A) : Prop := ∀ w, (m w).1 ≠ Undefined.

Lemma never_undefined_bind {A B} (m : stexc W A) (k : A → stexc W B) :
  never_undefined m → (∀ a, never_undefined (k a)) → never_undefined (m ≫= k).
Proof.
  intros Hm Hk w. unfold mbind, stexc_bind. specialize (Hm w). destruct (m w) as [[a|e|] w']; [apply Hk|done..].
Qed.
Lemma never_undefined_ret {A} (a : A) : never_undefined (mret a).
Proof. by intros w. Qed.

Lemma metadata_defined j : CacheMetadata.of_json j ≠ Undefined.
Proof.
  assert (Hb : ∀ A B (m : exc A) (k : A → exc B), m ≠ Undefined → (∀ a, k a ≠ Undefined) → m ≫= k ≠ Undefined).
  { intros A B m k Hm Hk. destruct m; [apply Hk|done..]. }
  assert (Hz : ∀ k, get_stack_optional Z j k ≠ Undefined).
  { intros k. unfold get_stack_optional. destruct (jfind k j) as [[]|]; done. }
  assert (Hs : ∀ k, get_stack_optional cstring j k ≠ Undefined).
  { intros k. unfold get_stack_optional. destruct (jfind k j) as [[]|]; done. }
  unfold CacheMetadata.of_json. repeat (apply Hb; [auto|intros ?]). done.
Qed.

Lemma never_undefined_catch {A} (m : stexc W A) h : never_undefined m → (∀ e, never_undefined (h e)) → never_undefined (try_catch_std m h).
Proof.
  intros Hm Hh w. unfold try_catch_std. specialize (Hm w). destruct (m w) as [[a|e|] w']; [done| |done].
  destruct (what e); [apply Hh|done].
Qed.

Lemma install_defined name : defined_world → never_undefined (install_files cache name).
Proof.
  intros D. apply never_undefined_catch; [|intros e];
    repeat (apply never_undefined_bind; [intros ?; apply D|intros ?]); apply never_undefined_ret.
Qed.

Lemma store_defined name url result : defined_world → never_undefined (store_download cache name url result).
Proof.
  intros D w. assert (H1 : ∀ (x : CacheDownloadResult), never_undefined (remove (tmp_body cache name);; mret x)).
  { intros x. apply never_undefined_bind; [intros ?; apply D|intros ?; apply never_undefined_ret]. }
  assert (H2 : ∀ (x : CacheDownloadResult), never_undefined (remove (tmp_body cache name);; remove (tmp_meta cache name);; mret x)).
  { intros x. repeat (apply never_undefined_bind; [intros ?; apply D|intros ?]). apply never_undefined_ret. }
  unfold store_download. destruct (write_file _ _ w) as [[| |] w1]; [done|apply H1|].
  set (meta := CacheMetadata.make _ _ _ _ _ _ _).
  assert (H3 : (write_metadata cache name meta w1).1 ≠ Undefined).
  { unfold write_metadata, meta_text, mbind, exc_bind. pose proof (dw_dump D (to_json meta)).
    destruct (json_dump (to_json meta)) as [t|e|]; cbn [mret exc_ret]; [by destruct (write_file _ _ w1)| |done].
    by destruct (write_file _ _ w1) as [[| |] w2]. }
  destruct (write_metadata cache name meta w1) as [[[| |]|e|] w2]; [apply H1|apply H2|by apply install_defined|done|done].
Qed.

Lemma download_defined name url fwmark : defined_world → never_undefined (download cache client name url fwmark).
Proof.
  intros D w. unfold download, load_metadata.
  assert (Hl : match contents w (meta_path cache name) with
    | None => Ok empty_CacheMetadata
    | Some text => match json_parse text with None => Ok empty_CacheMetadata
       | Some j => match from_json j with Throw (json_exception _) => Ok empty_CacheMetadata | r => r end end
    end ≠ Undefined).
  { destruct (contents w _) as [text|]; [|done]. destruct (json_parse text); [|done]. pose proof (metadata_defined j) as Hm.
    change (CacheMetadata.of_json j) with (@from_json CacheMetadata.t _ j) in Hm. destruct (from_json j) as [m|[]|]; done. }
  destruct (match contents w (meta_path cache name) with Some _ => _ | None => _ end) as [existing|e|]; [|done..].
  unfold download_conditional, performing. pose proof (dw_perform D (with_headers (request_for client url fwmark)
    (conditional_headers (value_or (CacheMetadata.etag existing) []) (value_or (CacheMetadata.last_modified existing) []))) w) as Hp.
  destruct (perform _ w) as [[resp|[]|] w1]; cbn in Hp; try done.
  destruct (conditional_result resp) as [e|result]; [done|]. destruct (_ || _); [done|by apply store_defined].
Qed.

Definition defined_calls : Prop :=
  (∀ c, refresh_flight_key c ≠ Undefined) ∧ ∀ c e r w, (refresh_list cache client c e r w).1 ≠ Undefined.
Lemma world_defines_calls : defined_world → defined_calls.
Proof.
  intros D. split; [intros c; apply D|]. intros c e r w. unfold refresh_list. destruct (list_url e.2); [|done].
  destruct (negb _); [done|]. destruct (_ && _); [done|]. apply never_undefined_bind; [by apply download_defined|].
  intros d. apply never_undefined_ret.
Qed.

Lemma pending_moves w0 log w1 s : defined_calls → service_ok w0 log w1 s → (∃ i t, callers s !! i = Some t ∧ ¬ has_returned t) →
  ∃ s', moves s s'.
Proof.
  intros [D1 D2] Hok (i & t & Hi & Ht). pose proof (so_current _ _ _ _ Hok) as H. unfold moves, advance.
  destruct (refresh_flight_ s) as [f|] eqn:Ef.
  - destruct H as (k & c & past & [|e todo] & res & [U1 U2 U3 U4 U5 U6]); [eexists _, k; by rewrite U2|].
    pose proof (D2 c e res (world s)) as Hd.
    destruct (refresh_list cache client c e res (world s)) as [[r|ex|] w'] eqn:E; [eexists _, k; by rewrite U2, E..|done].
  - destruct t as [c|c f|c f todo res|c r]; [| |by destruct (idle_callers _ _ H _ _ Hi)|by destruct Ht].
    + assert (Hs : is_Some (enter i c s)).
      { unfold enter. rewrite Ef. specialize (D1 c). by destruct (refresh_flight_key c). }
      destruct Hs as [s' Hs]. exists s', i. by rewrite Hi.
    + destruct (so_callers _ _ _ _ Hok _ _ Hi) as (fl & Hfl & Hk). eexists _, i. rewrite Hi. unfold mbind, option_bind.
      by rewrite Hfl, (idle_flights _ _ H _ _ Hfl).
Qed.

(** Every caller returns: once no further calls are made, every schedule of
    the callers is finite, with a bound that depends on the lists still to be
    handled, and where it stops every caller has returned; so no wakeup is
    missed and nobody waits for a flight that has ended. *)
Theorem every_refresh_returns w0 s : defined_world → service_reachable cache client w0 s →
  (∀ n s', nsteps moves n s s' → (n ≤ service_weight s)%nat) ∧
  (∀ s', rtc moves s s' → (∀ s'', ¬ moves s' s'') → ∀ i t, callers s' !! i = Some t → has_returned t).
Proof.
  intros Hd%world_defines_calls Hr. split.
  - intros n s' H. enough (n + service_weight s' ≤ service_weight s)%nat by lia.
    clear Hr. induction H as [|n s1 s2 s3 Hm _ IH]; [lia|]. apply moves_lighter in Hm. lia.
  - intros s' Hs Hstop i t Hi.
    assert (Hr' : service_reachable cache client w0 s').
    { clear - Hr Hs. unfold service_reachable in *. induction Hs as [|s1 s2 s3 (i & Ha) _ IH]; [done|].
      apply IH. eapply rtc_r; [done|]. by eapply step_advance. }
    apply service_invariant in Hr' as (log & w1 & Hok). destruct t as [| | |c r]; try done.
    all: destruct (pending_moves w0 log w1 s' Hd Hok) as [s'' Hm]; [|by destruct (Hstop s'')]; eexists i, _; (split; [done|by intros []]).
Qed.

(** A schedule: calls and moves *)
Fixpoint run_schedule (l : list (RefreshCall + nat)) (s : ListService W) : option (ListService W) :=
  match l with
  | [] => Some s
  | inl c :: l => run_schedule l (mk_Service (callers s ++ [Calling c]) (flights s) (refresh_flight_ s) (world s))
  | inr i :: l => advance cache client i s ≫= run_schedule l
  end.
Lemma run_schedule_reachable w0 l s s' : service_reachable cache client w0 s → run_schedule l s = Some s' → service_reachable cache client w0 s'.
Proof.
  revert s. induction l as [|[c|i] l IH]; intros s Hr; cbn [run_schedule].
  - by intros [= <-].
  - apply IH. eapply rtc_r; [done|]. apply step_call.
  - unfold mbind, option_bind. destruct (advance cache client i s) as [s1|] eqn:E; [|done]. apply IH. eapply rtc_r; [done|]. by eapply step_advance.
Qed.
End serial.

(** *** Witnesses *)

Module ListServiceSample.
Import JsonSample CacheSample.

Definition w_remote : ListConfig := Build_ListConfig (Some (str "vpn")) None None None None (Some w_url).
Definition w_local : ListConfig := Build_ListConfig None (Some [str "example.org"]) None None None None.
Definition w_config : Config := {|
  api := None; daemon := None; fwmark := None; iproute := None; dns := None;
  lists := Some {[ w_name := w_remote; str "own" := w_local ]};
  lists_autoupdate := None; outbounds := None; route := None;
|}.
Definition w_call : RefreshCall := refresh_remote_lists_call w_config {[ internal_detour_mark_key "vpn" := 5 ]} (Some {[w_name]}) None None.
Definition w_other : RefreshCall := download_uncached_call w_config ∅ None None.
Definition w_world : CacheWorld (gmap cstring cstring) := w_cache_world (w_answer "v2") None (λ _, false).
#[local] Existing Instances w_nlohmann w_dump w_text w_world.

Lemma w_config_fits : config_fits w_config.
Proof.
  split_and!; try exact I. apply (map_Forall_insert_2 (λ _, list_config_fits)); [|apply (proj2 (map_Forall_singleton (λ _, list_config_fits) _ _))].
  all: split_and!; try exact I; repeat constructor.
Qed.

Lemma refresh_accounts_for_lists_witness :
  ∃ r, (download_lists w_cache w_client w_call (w_stored "v1" w_url)).1 = Ok r ∧ changed_lists r = [w_name] ∧
    refreshed_lists r ≡ₚ changed_lists r ++ unchanged_lists r ++ failed_lists r.
Proof.
  destruct (download_lists w_cache w_client w_call (w_stored "v1" w_url)) as [[r|e|] w'] eqn:E; [|by vm_compute in E..].
  exists r. split; [done|]. pose proof (@refresh_accounts_for_lists _ _ _ _ _ (w_cache_laws _ _ _) _ _ _ _ _ _ E) as (_ & H & _).
  split; [|done]. apply (f_equal fst) in E. vm_compute in E. by injection E as <-.
Defined.

(** Two callers with the same call and one with another, all returned *)
Definition w_schedule : list (RefreshCall + nat) :=
  [inl w_call; inl w_call; inr 0%nat; inl w_other; inr 1%nat; inr 0%nat; inr 0%nat; inr 0%nat; inr 2%nat; inr 1%nat; inr 2%nat; inr 2%nat; inr 2%nat].
Definition w_service : ListService (gmap cstring cstring) :=
  default (new_service ∅) (run_schedule w_cache w_client w_schedule (new_service (w_stored "v1" w_url))).
Lemma w_service_reachable : service_reachable w_cache w_client (w_stored "v1" w_url) w_service.
Proof.
  eapply (run_schedule_reachable _ _ _ w_schedule (new_service (w_stored "v1" w_url))); [apply rtc_refl|].
  unfold w_service. destruct (run_schedule _ _ _ _) eqn:E; [done|]. by vm_compute in E.
Qed.

Lemma refreshes_are_serial_witness : ∃ log w1, serial w_cache w_client (w_stored "v1" w_url) log w1 ∧ world w_service = w1.
Proof.
  destruct (refreshes_are_serial w_cache w_client (w_stored "v1" w_url) w_service) as (_ & log & w1 & H1 & H2 & _).
  - intros j text H. rewrite <- (app_nil_r text). by apply parse_dump.
  - apply w_service_reachable.
  - intros c (i & t & Hi & <-). enough (rc_config (call_of t) = w_config) as -> by apply w_config_fits.
    revert Hi. destruct i as [|[|[|i]]]; vm_compute; by intros [= <-].
  - exists log, w1. split; [done|]. apply H2. by vm_compute.
Defined.

Lemma every_refresh_returns_witness : Forall has_returned (callers w_service).
Proof.
  apply Forall_lookup.
  destruct (every_refresh_returns w_cache w_client (w_stored "v1" w_url) w_service) as [_ H].
  - split; [done| | | |].
    + intros a b w. cbn. by destruct (bool_decide _).
    + done.
    + intros j. cbn. unfold dump. by destruct (printable j).
    + intros j. cbn. unfold dump. by destruct (printable j).
  - apply w_service_reachable.
  - apply (H w_service); [apply rtc_refl|]. intros s' (i & Hi). revert Hi. unfold advance.
    destruct i as [|[|[|i]]]; by vm_compute.
Defined.
End ListServiceSample.
