(* ===== verification/ConfigStore.v ===== *)
(** * The configuration in memory and on disk (src/src/daemon/config_store.cpp,
      src/src/daemon/config_apply_transaction.cpp,
      src/src/config/config_writer.cpp)

    The active configuration and the staged draft, the order of the steps of an
    apply, and the durable replacement of the configuration file.  The class
    [ConfigFiles] holds the system calls. *)

From S2P Require Import Prelude CppString Config Json ConfigJson Fwmark ListStreamer.

Local Open Scope Z_scope.

(** ** The store *)

Record ActiveConfigSnapshot := mk_Active { active_config_of : Config; active_marks_of : OutboundMarkMap }.

Record ConfigStore := mk_ConfigStore {
  active_config_ : Config;
  active_outbound_marks_ : OutboundMarkMap;
  staged_config_ : option Config;
  staged_config_json_ : option cstring;
}.

Definition new_ConfigStore {SS : StdSort} (c : Config) : exc ConfigStore :=
  marks ← allocate_outbound_marks (value_or (fwmark c) default_FwmarkConfig) (value_or (outbounds c) []);
  mret (mk_ConfigStore c marks None None).

Definition active_snapshot (s : ConfigStore) : ActiveConfigSnapshot := mk_Active (active_config_ s) (active_outbound_marks_ s).
Definition visible_config (s : ConfigStore) : Config := value_or (staged_config_ s) (active_config_ s).
Definition config_is_draft (s : ConfigStore) : bool := bool_decide (is_Some (staged_config_ s)).
Definition replace_active (c : Config) (marks : OutboundMarkMap) (s : ConfigStore) : ConfigStore :=
  mk_ConfigStore c marks (staged_config_ s) (staged_config_json_ s).
Definition stage_config (c : Config) (text : cstring) (s : ConfigStore) : ConfigStore :=
  mk_ConfigStore (active_config_ s) (active_outbound_marks_ s) (Some c) (Some text).
Definition staged_snapshot (s : ConfigStore) : option (Config * cstring) :=
  match staged_config_ s, staged_config_json_ s with Some c, Some text => Some (c, text) | _, _ => None end.
Definition clear_staged (s : ConfigStore) : ConfigStore :=
  mk_ConfigStore (active_config_ s) (active_outbound_marks_ s) None None.
Definition clear_staged_if_matches (text : cstring) (s : ConfigStore) : ConfigStore :=
  if bool_decide (staged_config_json_ s = Some text) then clear_staged s else s.

(** ** The order of an apply *)

Module ConfigApplyTransactionState.
Inductive t := Prepared | CandidateApplied | ResolverConfirmed | Committed.
#[global] Instance t_eq_dec : EqDecision t.
Proof. solve_decision. Defined.
End ConfigApplyTransactionState.
Abbreviation tx_state := ConfigApplyTransactionState.t.

Definition require_state (expected : tx_state) (operation : cstring) (next : tx_state) : stexc tx_state unit := λ s,
  if bool_decide (s = expected) then (Ok tt, next)
  else (Throw (logic_error ("invalid config apply transaction operation: " ++ operation)), s).
Definition candidate_applied : stexc tx_state unit :=
  require_state ConfigApplyTransactionState.Prepared "candidate_applied" ConfigApplyTransactionState.CandidateApplied.
Definition resolver_confirmed : stexc tx_state unit :=
  require_state ConfigApplyTransactionState.CandidateApplied "resolver_confirmed" ConfigApplyTransactionState.ResolverConfirmed.
Definition committed : stexc tx_state unit :=
  require_state ConfigApplyTransactionState.ResolverConfirmed "committed" ConfigApplyTransactionState.Committed.
Definition may_commit (s : tx_state) : bool := bool_decide (s = ConfigApplyTransactionState.ResolverConfirmed).

(** ** Replacing the file *)

Inductive lstat_result := Missing | Unknown (error : cstring) | Found (regular : bool) (mode uid gid : Z).
Inductive write_result := Wrote (n : nat) | Interrupted | Failed (error : cstring).

(** The system calls on the configuration, its temporary file and its directory;
    a call fails with the text of its error.  [signals] is how many more times a
    write is interrupted. *)
Class ConfigFiles (W : Type) := {
  file : W → cstring → option cstring;
  mode_of : W → cstring → Z;
  (** what a path may show after a power failure, and that the data of the file
      it names has reached the disk *)
  crash : W → cstring → option cstring → Prop;
  synced : W → cstring → Prop;
  signals : W → nat;
  lstat : W → cstring → lstat_result;
  mkstemp : cstring → W → (cstring + cstring) * W;
  set_cloexec : cstring → W → option cstring * W;
  fchown : cstring → Z → Z → W → option cstring * W;
  fchmod : cstring → Z → W → option cstring * W;
  write : cstring → cstring → W → write_result * W;
  fsync : cstring → W → option cstring * W;
  close : cstring → W → option cstring * W;
  rename_file : cstring → cstring → W → option cstring * W;
  open_dir : cstring → W → option cstring * W;
  fsync_dir : cstring → W → option cstring * W;
  close_dir : cstring → W → option cstring * W;
  unlink : cstring → W → W;
}.

(** [std::filesystem::path]: the name after the last separator, and the rest
    without the separators at its end unless it is the root *)
Definition filename (path : cstring) : cstring :=
  match rfind_char "/" path with Some i => drop (S i) path | None => path end.
Fixpoint drop_slashes (rev_path : cstring) : cstring :=
  match rev_path with "/"%char :: rest => drop_slashes rest | _ => rev_path end.
Definition parent_path (path : cstring) : cstring :=
  match rfind_char "/" path with
  | None => []
  | Some i => match rev (drop_slashes (rev (take i path))) with [] => str "/" | dir => dir end
  end.
Definition directory_of (path : cstring) : cstring :=
  match parent_path path with [] => str "." | dir => dir end.
Definition tmp_template (path : cstring) : cstring := path_join (directory_of path) ("." ++ filename path ++ ".tmp.XXXXXX").

Section writer.
Context {W : Type} `{CF : !ConfigFiles W}.

Definition errno_error (prefix error : cstring) : exn := runtime_error (prefix ++ ": " ++ error).
Definition system_call (prefix : cstring) (op : W → option cstring * W) : stexc W unit := λ w,
  match op w with (None, w') => (Ok tt, w') | (Some e, w') => (Throw (errno_error prefix e), w') end.
(** [try m catch (...) { h(); throw; }] *)
Definition on_error (h : W → W) (m : stexc W unit) : stexc W unit := λ w,
  match m w with (Throw e, w') => (Throw e, h w') | r => r end.

(** [write_all]; a file that takes nothing would never end, and never is one *)
Fixpoint write_loop (fuel : nat) (tmp rest : cstring) : stexc W unit := λ w,
  if bool_decide (rest = []) then (Ok tt, w)
  else match fuel with
  | O => (Undefined, w)
  | S fuel =>
      match write tmp rest w with
      | (Wrote n, w') => write_loop fuel tmp (drop n rest) w'
      | (Interrupted, w') => write_loop fuel tmp rest w'
      | (Failed e, w') => (Throw (errno_error "Cannot write config file" e), w')
      end
  end.
Definition write_all (tmp body : cstring) : stexc W unit := λ w, write_loop (length body + signals w) tmp body w.

Definition file_mode (st : lstat_result) : Z := match st with Found _ m _ _ => Z.land m 4095 | _ => 384 end.
Definition keep_owner (st : lstat_result) (tmp : cstring) : stexc W unit :=
  match st with
  | Found _ _ uid gid => system_call "Cannot preserve config file ownership" (fchown tmp uid gid)
  | _ => mret tt
  end.

(** Filling the temporary file, putting it in the place of the old one *)
Definition fill_temporary (st : lstat_result) (tmp body : cstring) : stexc W unit :=
  system_call "Cannot mark temporary config file close-on-exec" (set_cloexec tmp);;
  keep_owner st tmp;;
  system_call "Cannot set config file mode" (fchmod tmp (file_mode st));;
  write_all tmp body;;
  system_call "Cannot fsync temporary config file" (fsync tmp).
Definition sync_directory (dir : cstring) : stexc W unit :=
  system_call "Cannot open config directory for fsync" (open_dir dir);;
  on_error (λ w, (close_dir dir w).2) (system_call "Cannot fsync config directory" (fsync_dir dir));;
  system_call "Cannot close config directory after fsync" (close_dir dir).

Definition replace_file (st : lstat_result) (path body : cstring) : stexc W unit := λ w,
  match mkstemp (tmp_template path) w with
  | (inl e, w) => (Throw (errno_error "Cannot create temporary config file" e), w)
  | (inr tmp, w) =>
      on_error (unlink tmp)
        (on_error (λ w, (close tmp w).2) (fill_temporary st tmp body);;
         system_call "Cannot close temporary config file" (close tmp);;
         system_call "Cannot replace config file" (rename_file tmp path);;
         sync_directory (directory_of path)) w
  end.
Definition write_config_atomically (path body : cstring) : stexc W unit := λ w,
  match lstat w path with
  | Unknown e => (Throw (errno_error "Cannot inspect config file" e), w)
  | Found false _ _ _ => (Throw (runtime_error "Refusing to replace non-regular config file"), w)
  | st => replace_file st path body w
  end.
End writer.

(** ** The replacement is atomic and durable *)

(** Nothing changes but at [p]. *)
Definition only_at {W} `{CF : !ConfigFiles W} (p : cstring) (w w' : W) : Prop :=
  ∀ q, q ≠ p → file w' q = file w q ∧ mode_of w' q = mode_of w q ∧ (∀ x, crash w' q x ↔ crash w q x) ∧ (synced w q → synced w' q).
Definition unchanged {W} `{CF : !ConfigFiles W} (w w' : W) : Prop :=
  (∀ q, file w' q = file w q ∧ mode_of w' q = mode_of w q ∧ (∀ x, crash w' q x ↔ crash w q x) ∧ (synced w q → synced w' q)) ∧ signals w' = signals w.

Class ConfigFilesLaws W `{CF : !ConfigFiles W} := {
  lstat_law w p : match lstat w p with
                  | Found _ m _ _ => mode_of w p = Z.land m 4095
                  | Missing => file w p = None
                  | Unknown _ => True
                  end;
  mkstemp_law t w : match mkstemp t w with
                    | (inr p, w') => (∃ six, length six = 6%nat ∧ ("/"%char ∉ six) ∧ p = (take (length t - 6) t ++ six)) ∧
                                     file w p = None ∧ file w' p = Some [] ∧ only_at p w w'
                    | (inl _, w') => unchanged w w'
                    end;
  cloexec_law p w : unchanged w (set_cloexec p w).2;
  fchown_law p u g w : only_at p w (fchown p u g w).2 ∧ file (fchown p u g w).2 p = file w p;
  fchmod_law p m w : only_at p w (fchmod p m w).2 ∧ file (fchmod p m w).2 p = file w p ∧
    ((fchmod p m w).1 = None → mode_of (fchmod p m w).2 p = m);
  write_law p text w : only_at p w (write p text w).2 ∧ mode_of (write p text w).2 p = mode_of w p ∧
    match write p text w with
    | (Wrote n, w') => (1 ≤ n ≤ length text)%nat ∧ (∀ c, file w p = Some c → file w' p = Some (c ++ take n text)) ∧ signals w' = signals w
    | (Interrupted, w') => file w' p = file w p ∧ S (signals w') = signals w
    | (Failed _, w') => True
    end;
  fsync_law p w : only_at p w (fsync p w).2 ∧ file (fsync p w).2 p = file w p ∧ mode_of (fsync p w).2 p = mode_of w p ∧
    ((fsync p w).1 = None → synced (fsync p w).2 p);
  close_law p w : unchanged w (close p w).2;
  rename_law a b w : a ≠ b →
    match rename_file a b w with
    | (None, w') => file w' b = file w a ∧ mode_of w' b = mode_of w a ∧ file w' a = None ∧ (synced w a → synced w' b) ∧
        (∀ x, crash w' b x → crash w b x ∨ (synced w a → x = file w a)) ∧
        ∀ q, q ≠ a → q ≠ b → file w' q = file w q
    | (Some _, w') => unchanged w w'
    end;
  open_dir_law d w : unchanged w (open_dir d w).2;
  fsync_dir_law d w : (∀ q, file (fsync_dir d w).2 q = file w q ∧ mode_of (fsync_dir d w).2 q = mode_of w q ∧
      (∀ x, crash (fsync_dir d w).2 q x → crash w q x)) ∧
    ((fsync_dir d w).1 = None → ∀ q x, directory_of q = d → synced w q → crash (fsync_dir d w).2 q x → x = file w q);
  close_dir_law d w : unchanged w (close_dir d w).2;
  unlink_law p w : only_at p w (unlink p w);
}.

Lemma filename_no_slash path : "/"%char ∉ filename path.
Proof.
  unfold filename. destruct (rfind_char "/" path) as [i|] eqn:E.
  - apply rfind_char_Some in E as (p & q & -> & Hq & ->). by rewrite cons_middle, app_assoc, drop_app_length' by (rewrite length_app; cbn; lia).
  - intros H. unfold rfind_char in E. destruct (find_char "/" (reverse path)) eqn:E'; [done|].
    apply find_char_None in E'. by rewrite elem_of_reverse in E'.
Qed.

Lemma filename_join dir name : "/"%char ∉ name → filename (path_join dir name) = name.
Proof.
  intros Hn. assert (Hf : ∀ d, filename (d ++ "/"%char :: name) = name).
  { intros d. unfold filename. rewrite rfind_char_app by done. by rewrite cons_middle, app_assoc, drop_app_length' by (rewrite length_app; cbn; lia). }
  unfold path_join. case_bool_decide as Hh.
  { destruct name as [|c name]; [done|]. injection Hh as ->. set_solver. }
  case_bool_decide as Ed; cbn [orb].
  { subst dir. cbn [app]. unfold filename. by rewrite rfind_char_None. }
  case_bool_decide as Hl; [|apply Hf]. apply last_Some in Hl as (d & ->). rewrite <- app_assoc. apply Hf.
Qed.

Section atomic.
Context {W : Type} `{CF : !ConfigFiles W} `{CL : !ConfigFilesLaws W}.

Lemma unchanged_only_at p w w' : unchanged w w' → only_at p w w'.
Proof. intros [H _] q _. apply H. Qed.
Lemma only_at_refl p w : only_at p w w.
Proof. by intros q _. Qed.
Lemma only_at_trans p w1 w2 w3 : only_at p w1 w2 → only_at p w2 w3 → only_at p w1 w3.
Proof.
  intros H1 H2 q Hq. destruct (H1 q Hq) as (A1 & A2 & A3 & A4), (H2 q Hq) as (B1 & B2 & B3 & B4).
  split_and!; [congruence|congruence| |auto]. intros x. by rewrite B3.
Qed.

(** The loop writes the whole text or throws; only the temporary file changes. *)
Lemma write_loop_run tmp : ∀ fuel rest w c, file w tmp = Some c → (length rest + signals w ≤ fuel)%nat →
  let '(r, w') := write_loop fuel tmp rest w in
  r ≠ Undefined ∧ only_at tmp w w' ∧ mode_of w' tmp = mode_of w tmp ∧ (r = Ok tt → file w' tmp = Some (c ++ rest)).
Proof.
  induction fuel as [|fuel IH]; intros rest w c Hc Hf; cbn [write_loop].
  all: case_bool_decide as Hr; [subst rest; rewrite app_nil_r; by split_and!; auto using only_at_refl|].
  { destruct rest; [done|cbn in Hf; lia]. }
  destruct (write_law tmp rest w) as (O & M & L). destruct (write tmp rest w) as [[n| |e] w1]; cbn [fst snd] in *.
  - destruct L as (Hn & Hfile & Hs). specialize (IH (drop n rest) w1 (c ++ take n rest) (Hfile c Hc)).
    destruct (write_loop fuel tmp (drop n rest) w1) as [r w2].
    destruct IH as (I1 & I2 & I3 & I4); [rewrite length_drop; lia|]. split_and!; [done|by eapply only_at_trans|congruence|].
    intros Ho. rewrite (I4 Ho), <- app_assoc, take_drop. done.
  - destruct L as (Hfile & Hs). specialize (IH rest w1 c). rewrite Hfile in IH. specialize (IH Hc).
    destruct (write_loop fuel tmp rest w1) as [r w2]. destruct IH as (I1 & I2 & I3 & I4); [lia|].
    split_and!; [done|by eapply only_at_trans|congruence|done].
  - by split_and!.
Qed.

Lemma fill_temporary_run st tmp body w : file w tmp = Some [] →
  let '(r, w') := fill_temporary st tmp body w in
  r ≠ Undefined ∧ only_at tmp w w' ∧ (r = Ok tt → file w' tmp = Some body ∧ mode_of w' tmp = file_mode st ∧ synced w' tmp).
Proof.
  intros H0. unfold fill_temporary, mbind, stexc_bind, system_call at 1.
  pose proof (cloexec_law tmp w) as L1. destruct (set_cloexec tmp w) as [[e|] w1]; cbn [snd] in L1.
  { split_and!; [done|by apply unchanged_only_at|done]. }
  assert (H1 : file w1 tmp = Some []) by (rewrite (proj1 (proj1 L1 tmp)); done). apply (unchanged_only_at tmp) in L1.
  assert (L2 : let '(r, w2) := keep_owner st tmp w1 in r ≠ Undefined ∧ only_at tmp w1 w2 ∧ file w2 tmp = Some []).
  { unfold keep_owner, system_call. destruct st as [|e|rg m u g]; [by split_and!; auto using only_at_refl..|].
    pose proof (fchown_law tmp u g w1) as [O F]. destruct (fchown tmp u g w1) as [[e|] w2]; cbn [snd] in *; (split_and!; [done|done|congruence]). }
  destruct (keep_owner st tmp w1) as [[[]|e|] w2]; [|destruct L2 as (_ & O2 & _); split_and!; [done|by eapply only_at_trans|done]|by destruct L2].
  destruct L2 as (_ & O2 & H2). apply (only_at_trans tmp w) in O2; [|done]. unfold system_call at 1.
  pose proof (fchmod_law tmp (file_mode st) w2) as (O3 & F3 & M3). destruct (fchmod tmp (file_mode st) w2) as [[e|] w3]; cbn [fst snd] in *.
  { split_and!; [done|by eapply only_at_trans|done]. }
  specialize (M3 eq_refl). apply (only_at_trans tmp w) in O3; [|done]. rewrite H2 in F3.
  pose proof (write_loop_run tmp (length body + signals w3) body w3 [] F3 (le_n _)) as L4. unfold write_all.
  destruct (write_loop (length body + signals w3) tmp body w3) as [[[]|e|] w4]; destruct L4 as (U4 & O4 & M4 & F4); [| |done].
  2:{ split_and!; [done|by eapply only_at_trans|done]. }
  specialize (F4 eq_refl). cbn [app] in F4. apply (only_at_trans tmp w) in O4; [|done]. unfold system_call.
  pose proof (fsync_law tmp w4) as (O5 & F5 & M5 & S5). destruct (fsync tmp w4) as [[e|] w5]; cbn [fst snd] in *.
  { split_and!; [done|by eapply only_at_trans|done]. }
  split_and!; [done|by eapply only_at_trans|]. intros _. split_and!; [congruence|congruence|by apply S5].
Qed.

Lemma path_join_app dir name suffix : head name = Some "."%char → path_join dir (name ++ suffix) = path_join dir name ++ suffix.
Proof.
  intros Hh. unfold path_join. destruct name as [|c name]; [done|]. cbn [app head] in *. injection Hh as ->.
  rewrite !bool_decide_eq_false_2 by done. destruct (_ || _); by rewrite <- !app_assoc.
Qed.

Lemma tmp_differs path six : length six = 6%nat → "/"%char ∉ six →
  take (length (tmp_template path) - 6) (tmp_template path) ++ six ≠ path.
Proof.
  intros Hl Hs. unfold tmp_template.
  set (base := "." ++ filename path ++ ".tmp.").
  assert (E : "." ++ filename path ++ ".tmp.XXXXXX" = base ++ "XXXXXX") by (unfold base; by rewrite <- !app_assoc).
  rewrite E, path_join_app, length_app, Nat.add_sub, take_app_length, <- path_join_app by done.
  intros Hp. apply (f_equal filename) in Hp. rewrite filename_join in Hp.
  - apply (f_equal length) in Hp. unfold base in Hp. rewrite !length_app in Hp. cbn in Hp. lia.
  - unfold base. pose proof (filename_no_slash path). rewrite !elem_of_app. intros [[H'|[H'|H']]|H']; [|done| |done].
    + by apply list_elem_of_singleton in H'.
    + vm_compute in H'. repeat (apply elem_of_cons in H' as [H'|H']; [done|]). by apply elem_of_nil in H'.
Qed.

(** What the writer may leave at a path: the old file or the new one, now and
    after a power failure *)
Definition old_or_new (path body : cstring) (w0 w : W) : Prop :=
  (file w path = file w0 path ∨ file w path = Some body) ∧ (∀ x, crash w path x → crash w0 path x ∨ x = Some body) ∧
  ∀ q, q ≠ path → file w0 q ≠ None → file w q = file w0 q.

Lemma sync_directory_run path body w0 w : old_or_new path body w0 w → file w path = Some body → synced w path →
  let '(r, w') := sync_directory (directory_of path) w in
  r ≠ Undefined ∧ old_or_new path body w0 w' ∧ file w' path = Some body ∧ mode_of w' path = mode_of w path ∧
  (r = Ok tt → ∀ x, crash w' path x → x = Some body).
Proof.
  intros (A1 & A2 & A3) Hf Hs. unfold sync_directory, mbind, stexc_bind, system_call at 1. set (d := directory_of path).
  assert (Hpush : ∀ w1 w2, old_or_new path body w0 w1 → (∀ q, file w2 q = file w1 q ∧ (∀ x, crash w2 q x → crash w1 q x)) → old_or_new path body w0 w2).
  { intros w1 w2 (B1 & B2 & B3) H. split_and!.
    - by rewrite (proj1 (H path)).
    - intros x Hx. by apply B2, H.
    - intros q Q1 Q2. rewrite (proj1 (H q)). by apply B3. }
  assert (Hun : ∀ w1 w2, unchanged w1 w2 → ∀ q, file w2 q = file w1 q ∧ (∀ x, crash w2 q x → crash w1 q x)).
  { intros w1 w2 [H _] q. destruct (H q) as (H1 & _ & H3 & _). split; [done|]. intros x. apply H3. }
  pose proof (open_dir_law d w) as L1. destruct (open_dir d w) as [[e|] w1]; cbn [snd] in L1.
  { destruct (proj1 L1 path) as (F & M & _). split_and!; [done|by eapply Hpush, Hun|congruence|congruence|done]. }
  destruct (proj1 L1 path) as (F1 & M1 & _ & S1). specialize (S1 Hs).
  assert (O1 : old_or_new path body w0 w1) by (by eapply Hpush, Hun). unfold on_error, system_call at 1.
  pose proof (fsync_dir_law d w1) as (L2 & S2). destruct (fsync_dir d w1) as [[e|] w2]; cbn [fst snd] in *.
  { pose proof (close_dir_law d w2) as L3. destruct (proj1 L3 path) as (F3 & M3 & _). destruct (L2 path) as (F2 & M2 & _).
    split_and!; [done| |congruence|congruence|done]. eapply Hpush; [|by apply Hun]. eapply Hpush; [done|]. intros q. destruct (L2 q) as (? & _ & ?). done. }
  assert (O2 : old_or_new path body w0 w2) by (eapply Hpush; [done|]; intros q; destruct (L2 q) as (? & _ & ?); done).
  destruct (L2 path) as (F2 & M2 & _). specialize (S2 eq_refl path).
  unfold system_call. pose proof (close_dir_law d w2) as L3. destruct (proj1 L3 path) as (F3 & M3 & C3 & _).
  destruct (close_dir d w2) as [[e|] w3]; cbn [snd] in *; (split_and!; [done|by eapply Hpush, Hun|congruence|congruence|]); [done|].
  intros _ x Hx. apply C3 in Hx. rewrite (S2 x); [congruence|done|done|done].
Qed.

Lemma old_or_new_at path body w0 w w' p : p ≠ path → file w0 p = None → old_or_new path body w0 w → only_at p w w' → old_or_new path body w0 w'.
Proof.
  intros Hp Hn (A1 & A2 & A3) O. destruct (O path ltac:(done)) as (F & _ & C & _). split_and!.
  - by rewrite F.
  - intros x Hx. by apply A2, C.
  - intros q Q1 Q2. rewrite (proj1 (O q ltac:(congruence))). by apply A3.
Qed.

Lemma replace_file_run st path body w :
  let '(r, w') := replace_file st path body w in
  r ≠ Undefined ∧ old_or_new path body w w' ∧
  (r = Ok tt → file w' path = Some body ∧ (∀ x, crash w' path x → x = Some body) ∧ mode_of w' path = file_mode st).
Proof.
  assert (Hrefl : old_or_new path body w w) by (split_and!; [by left|by left|done]).
  unfold replace_file. pose proof (mkstemp_law (tmp_template path) w) as L0.
  destruct (mkstemp (tmp_template path) w) as [[e|tmp] w1].
  { split_and!; [done| |done]. destruct L0 as [L0 _]. split_and!.
    - left. apply L0.
    - intros x Hx. left. by apply (L0 path).
    - intros q _ _. apply L0. }
  destruct L0 as ((six & S1 & S2 & Etmp) & N0 & F1 & O1).
  assert (Hne : tmp ≠ path) by (subst tmp; by apply tmp_differs).
  assert (R1 : old_or_new path body w w1) by (by eapply old_or_new_at).
  unfold on_error at 1, mbind, stexc_bind, on_error at 1.
  pose proof (fill_temporary_run st tmp body w1 F1) as L2.
  destruct (fill_temporary st tmp body w1) as [[[]|e|] w2]; destruct L2 as (U2 & O2 & H2); [| |done].
  2:{ split_and!; [done| |done]. eapply old_or_new_at; [done|done| |apply unlink_law]. eapply old_or_new_at; [done|done| |apply unchanged_only_at, close_law].
      by eapply old_or_new_at. }
  destruct (H2 eq_refl) as (F2 & M2 & Sy2). assert (R2 : old_or_new path body w w2) by (by eapply old_or_new_at).
  unfold system_call at 1. pose proof (close_law tmp w2) as L3. destruct (close tmp w2) as [[e|] w3]; cbn [snd] in L3.
  { split_and!; [done| |done]. eapply old_or_new_at; [done|done| |apply unlink_law]. eapply old_or_new_at; [done|done|exact R2|by apply unchanged_only_at]. }
  destruct (proj1 L3 tmp) as (F3 & M3 & _ & Sy3). specialize (Sy3 Sy2).
  assert (R3 : old_or_new path body w w3) by (eapply old_or_new_at; [done|done|exact R2|by apply unchanged_only_at]).
  unfold system_call at 1. pose proof (rename_law tmp path w3 Hne) as L4. destruct (rename_file tmp path w3) as [[e|] w4].
  { split_and!; [done| |done]. eapply old_or_new_at; [done|done| |apply unlink_law]. eapply old_or_new_at; [done|done|exact R3|by apply unchanged_only_at]. }
  destruct L4 as (F4 & M4 & N4 & Sy4 & C4 & K4). specialize (Sy4 Sy3). rewrite F3, F2 in F4.
  assert (R4 : old_or_new path body w w4).
  { destruct R3 as (A1 & A2 & A3). split_and!; [by right| |].
    - intros x Hx. destruct (C4 x Hx) as [Hc|Hc]; [by apply A2|]. right. rewrite (Hc Sy3). congruence.
    - intros q Q1 Q2. rewrite K4; [by apply A3| |done]. intros ->. congruence. }
  pose proof (sync_directory_run path body w w4 R4 F4 Sy4) as L5. destruct (sync_directory (directory_of path) w4) as [[[]|e|] w5];
    destruct L5 as (U5 & R5 & F5 & M5 & C5); [| |done].
  - split_and!; [done|done|]. intros _. split_and!; [done|by apply C5|congruence].
  - split_and!; [done| |done]. eapply old_or_new_at; [done|done|exact R5|apply unlink_law].
Qed.

Lemma write_config_run path body w :
  let '(r, w') := write_config_atomically path body w in
  r ≠ Undefined ∧
  (file w' path = file w path ∨ file w' path = Some body) ∧
  (∀ x, crash w' path x → crash w path x ∨ x = Some body) ∧
  (∀ q, q ≠ path → file w q ≠ None → file w' q = file w q) ∧
  (r = Ok tt → file w' path = Some body ∧ (∀ x, crash w' path x → x = Some body) ∧
     mode_of w' path = match lstat w path with Missing => 384 | _ => mode_of w path end).
Proof.
  unfold write_config_atomically. pose proof (lstat_law w path) as Ls.
  destruct (lstat w path) as [|e|[] m u g] eqn:El; [| | |].
  2, 4: (split_and!; [done|by left|by left|done|done]).
  - pose proof (replace_file_run Missing path body w) as H. destruct (replace_file Missing path body w) as [r w'].
    destruct H as (H1 & (H2 & H3 & H4) & H5). done.
  - pose proof (replace_file_run (Found true m u g) path body w) as H. destruct (replace_file _ path body w) as [r w'].
    destruct H as (H1 & (H2 & H3 & H4) & H5). split_and!; [done..|]. rewrite Ls. done.
Qed.

(** C10. Replacing the configuration file is atomic and durable: whatever fails on
    the way, the file is the old one or has the new text, now and after a power
    failure, and no other file that existed changes; and when the writer returns
    the file has the new text, a power failure cannot undo it, and the mode is
    that of the old file, or private to its owner for a new one. *)
Theorem config_write_is_atomic path body w :
  let '(r, w') := write_config_atomically path body w in
  r ≠ Undefined ∧
  (file w' path = file w path ∨ file w' path = Some body) ∧
  (∀ x, crash w' path x → crash w path x ∨ x = Some body) ∧
  (∀ q, q ≠ path → file w q ≠ None → file w' q = file w q) ∧
  (r = Ok tt → file w' path = Some body ∧ (∀ x, crash w' path x → x = Some body) ∧
     mode_of w' path = match lstat w path with Missing => 384 | _ => mode_of w path end).
Proof. apply write_config_run. Qed.
End atomic.

(** *** Witnesses *)

Module ConfigStoreSample.

(** A disk on which everything is durable at once; opening the directory fails
    when [dir_fails] *)
Definition w_tmp_name (t : cstring) : cstring := take (length t - 6) t ++ "aaaaaa".
Definition w_config_files (dir_fails : bool) : ConfigFiles (gmap cstring (cstring * Z)) := {|
  file w p := fst <$> w !! p;
  mode_of w p := match w !! p with Some e => e.2 | None => 0 end;
  crash w p x := x = (fst <$> w !! p);
  synced _ _ := True;
  signals _ := 0%nat;
  lstat w p := match w !! p with Some e => if (0 <=? e.2) && (e.2 <? 4096) then Found true e.2 0 0 else Unknown "mode" | None => Missing end;
  mkstemp t w := match w !! w_tmp_name t with Some _ => (inl (str "exists"), w) | None => (inr (w_tmp_name t), <[w_tmp_name t := (([] : cstring), 384)]> w) end;
  set_cloexec _ w := (None, w);
  fchown _ _ _ w := (None, w);
  fchmod p m w := match w !! p with Some e => (None, <[p := (e.1, m)]> w) | None => (Some (str "missing"), w) end;
  write p text w := match text with
                    | [] => (Failed "nothing", w)
                    | _ => (Wrote (length text), alter (λ e, (e.1 ++ text, e.2)) p w)
                    end;
  fsync _ w := (None, w);
  close _ w := (None, w);
  rename_file a b w := match w !! a with Some e => (None, <[b := e]> (delete a w)) | None => (Some (str "missing"), w) end;
  open_dir _ w := (if dir_fails then Some (str "too many open files") else None, w);
  fsync_dir _ w := (None, w);
  close_dir _ w := (None, w);
  unlink p w := delete p w;
|}.

Lemma w_unchanged (dir_fails : bool) (w : gmap cstring (cstring * Z)) : @unchanged _ (w_config_files dir_fails) w w.
Proof. done. Qed.
Lemma w_only_at (dir_fails : bool) (p : cstring) (w w' : gmap cstring (cstring * Z)) : (∀ q, q ≠ p → w' !! q = w !! q) → @only_at _ (w_config_files dir_fails) p w w'.
Proof. intros H q Hq. cbn. by rewrite (H q Hq). Qed.

Lemma w_fs_laws (dir_fails : bool) : @ConfigFilesLaws _ (w_config_files dir_fails).
Proof.
  split; cbn -[unchanged only_at].
  - intros w p. destruct (w !! p) as [[c m]|]; cbn; [|done]. destruct (Z.leb_spec 0 m), (Z.ltb_spec m 4096); cbn; try done.
    change 4095 with (Z.ones 12). rewrite Z.land_ones by lia. rewrite Z.mod_small; [done|]. cbn. lia.
  - intros t w. destruct (w !! w_tmp_name t) eqn:E; [apply w_unchanged|]. rewrite lookup_insert_eq. split_and!; [|by rewrite E|done|].
    + exists (str "aaaaaa"). split_and!; [done| |done]. vm_compute. intros H. repeat (apply elem_of_cons in H as [H|H]; [done|]). by apply elem_of_nil in H.
    + apply w_only_at. intros q Hq. by apply lookup_insert_ne.
  - intros p w. apply w_unchanged.
  - intros p u g w. split; [|done]. by apply w_only_at.
  - intros p m w. destruct (w !! p) as [e|] eqn:E; cbn -[only_at]; [|split_and!; [by apply w_only_at|by rewrite ?E|by intros [=]]].
    rewrite lookup_insert_eq. split_and!; [|by rewrite ?E|done]. apply w_only_at. intros q Hq. by apply lookup_insert_ne.
  - intros p text w. destruct text as [|a text]; [split_and!; [by apply w_only_at|done|done]|]. cbn. split_and!.
    + apply w_only_at. intros q Hq. by apply lookup_alter_ne.
    + rewrite lookup_alter_eq. by destruct (w !! p).
    + lia.
    + lia.
    + intros c. rewrite lookup_alter_eq. destruct (w !! p) as [e|]; [|done]. cbn. intros [= <-]. by rewrite firstn_all.
    + done.
  - intros p w. split_and!; [by apply w_only_at|done..].
  - intros p w. apply w_unchanged.
  - intros a b w Hab. destruct (w !! a) as [e|] eqn:E; [|apply w_unchanged]. rewrite !lookup_insert_eq, lookup_insert_ne, lookup_delete_eq by done.
    split_and!; [done..| |].
    + intros x ->. right. intros _. done.
    + intros q Q1 Q2. by rewrite lookup_insert_ne, lookup_delete_ne.
  - intros d w. apply w_unchanged.
  - intros d w. split; [done|]. by intros _ q x _ _ ->.
  - intros d w. apply w_unchanged.
  - intros p w. apply w_only_at. intros q Hq. by apply lookup_delete_ne.
Qed.

Definition w_path : cstring := "/etc/keen-pbr/config.json".
Definition w_old : gmap cstring (cstring * Z) := {[ w_path := (str "{}", 416); str "/etc/keen-pbr/other" := (str "x", 420) ]}.
Definition w_written (dir_fails : bool) : exc unit * gmap cstring (cstring * Z) :=
  @write_config_atomically _ (w_config_files dir_fails) w_path "{ }" w_old.

Lemma config_write_is_atomic_witness :
  (w_written false).1 = Ok tt ∧ (fst <$> (w_written false).2 !! w_path) = Some (str "{ }") ∧
  (fst <$> (w_written false).2 !! str "/etc/keen-pbr/other") = Some (str "x").
Proof.
  pose proof (@config_write_is_atomic _ (w_config_files false) (w_fs_laws false) w_path "{ }" w_old) as H.
  fold (w_written false) in H. assert (Hr : (w_written false).1 = Ok tt) by (by vm_compute).
  destruct (w_written false) as [r w']. cbn [fst snd] in *. destruct H as (_ & _ & _ & Ho & Hok). split_and!; [done|by apply Hok|].
  change (@file _ (w_config_files false) w' "/etc/keen-pbr/other" = @file _ (w_config_files false) w_old "/etc/keen-pbr/other").
  apply Ho; by vm_compute.
Defined.

(** The writer throws although the file has been replaced: the directory could
    not be opened afterwards. *)
Lemma failed_write_may_have_replaced :
  ∃ e, (w_written true).1 = Throw e ∧ (fst <$> (w_written true).2 !! w_path) = Some (str "{ }").
Proof. eexists. by vm_compute. Qed.
End ConfigStoreSample.
