(* ===== verification/ConfigDisk.v ===== *)
(** * The configuration file against the configuration (the serializer of
      src/src/api/handler_config.cpp, src/src/daemon/disk_config_state.cpp)

    What a saved configuration looks like on disk, that it is read back, and how
    the daemon compares the file with the configuration in use. *)

From S2P Require Import Prelude CppString Config Json JsonSample ConfigJson.

Local Open Scope Z_scope.

(** ** The file and the configuration in use *)

Record DiskConfigState := mk_DiskState { matches_active : bool; disk_error : cstring }.

(** [prune_json]: whether the value is to be erased, and the value *)
Fixpoint prune_json (j : json) : bool * json :=
  match j with
  | JObj l =>
      let kept := (fix go l := match l with
        | [] => []
        | (k, v) :: l => let '(gone, v') := prune_json v in if gone then go l else (k, v') :: go l
        end) l in
      (match kept with [] => true | _ => false end, JObj kept)
  | JArr l => (false, JArr ((λ x, (prune_json x).2) <$> l))
  | JNull => (true, JNull)
  | _ => (false, j)
  end.

Section disk.
Context {NL : Nlohmann} {JT : JsonText}.
(** How the library compares two numbers of which one has a fraction, its message
    for a text it cannot parse, and its printer with an indentation of one tab *)
Context (float_equal : json → json → bool) (parse_error : cstring → cstring) (dump_tabs : json → exc cstring).

(** [operator==] of the library, which keeps the members of an object in a map *)
Fixpoint json_equal (a b : json) : bool :=
  match a, b with
  | JNull, JNull => true
  | JBool x, JBool y => Bool.eqb x y
  | JInt x, JInt y => x =? y
  | JInt _, JFloat _ | JFloat _, JInt _ | JFloat _, JFloat _ => float_equal a b
  | JStr x, JStr y => bool_decide (x = y)
  | JArr l, JArr l' =>
      (fix go l l' := match l, l' with
        | [], [] => true
        | x :: l, y :: l' => json_equal x y && go l l'
        | _, _ => false
        end) l l'
  | JObj l, JObj l' =>
      (length l =? length l')%nat &&
      (fix go l := match l with
        | [] => true
        | (k, v) :: l => match assoc k l' with Some v' => json_equal v v' | None => false end && go l
        end) l
  | _, _ => false
  end.

Definition serialize_config_pretty (c : Config) : exc cstring :=
  text ← dump_tabs (prune_json (config_to_json c)).2; mret (text ++ [chr 10]).

(** [contents]: the file, if it can be opened *)
Definition inspect_disk_config_state (contents : option cstring) (active_config : Config) : DiskConfigState :=
  match contents with
  | None => mk_DiskState false "cannot open disk config"
  | Some text =>
      match json_parse text with
      | Some disk_json => mk_DiskState (json_equal disk_json (config_to_json active_config)) []
      | None => mk_DiskState false (parse_error text)
      end
  end.
End disk.

(** ** What is saved is read back *)

Definition kept_members (l : list (cstring * json)) : list (cstring * json) :=
  match (prune_json (JObj l)).2 with JObj l => l | _ => [] end.

(** No section becomes empty when absent members are left out. *)
Fixpoint tight (j : json) : bool :=
  match j with
  | JObj l =>
      (fix go l := match l with
        | [] => true
        | (_, v) :: l => match v with JNull => true | _ => tight v && negb (prune_json v).1 end && go l
        end) l
  | JArr l => (fix go l := match l with [] => true | x :: l => tight x && go l end) l
  | _ => true
  end.

Lemma prune_members l : (prune_json (JObj l)).2 = JObj (kept_members l).
Proof. done. Qed.
Lemma kept_members_cons k v l :
  kept_members ((k, v) :: l) = if (prune_json v).1 then kept_members l else (k, (prune_json v).2) :: kept_members l.
Proof. unfold kept_members. cbn. by destruct (prune_json v) as [[] v']. Qed.
Lemma tight_cons k v l : tight (JObj ((k, v) :: l)) = match v with JNull => true | _ => tight v && negb (prune_json v).1 end && tight (JObj l).
Proof. done. Qed.
Lemma tight_member l k v : tight (JObj l) = true → (k, v) ∈ l → v = JNull ∨ (tight v = true ∧ (prune_json v).1 = false).
Proof.
  induction l as [|[k' v'] l IH]; [by intros _ ?%elem_of_nil|]. rewrite tight_cons. intros [Hv Hl]%andb_true_iff [[= -> ->]|Hin]%elem_of_cons; [|by apply IH].
  destruct v'; try (by left); right; by apply andb_true_iff in Hv as [Hv1 Hv2%negb_true_iff].
Qed.
Lemma prune_not_null v : v ≠ JNull → (prune_json v).2 ≠ JNull.
Proof. by destruct v. Qed.

Lemma assoc_not_in k l : k ∉ l.*1 → assoc k (kept_members l) = None.
Proof.
  induction l as [|[k' v'] l IH]; [done|]. rewrite fmap_cons, not_elem_of_cons, kept_members_cons. intros [Hk Hl]. cbn in Hk.
  destruct (prune_json v') as [[] w]; cbn [fst snd]; [by apply IH|]. cbn [assoc]. rewrite bool_decide_eq_false_2 by congruence. by apply IH.
Qed.
Lemma assoc_kept l i k v : NoDup l.*1 → l !! i = Some (k, v) →
  assoc k (kept_members l) = if (prune_json v).1 then None else Some (prune_json v).2.
Proof.
  revert i. induction l as [|[k' v'] l IH]; intros i Hl; [done|]. rewrite fmap_cons, NoDup_cons in Hl. destruct Hl as [Hk Hl].
  rewrite kept_members_cons. destruct i as [|i]; cbn [lookup list_lookup].
  - intros [= -> ->]. destruct (prune_json v) as [[] w]; cbn [fst snd]; [by apply assoc_not_in|]. cbn [assoc]. by rewrite bool_decide_eq_true_2.
  - intros Hi. assert (k' ≠ k). { intros ->. apply Hk, list_elem_of_fmap. exists (k, v). split; [done|]. by eapply list_elem_of_lookup_2. }
    destruct (prune_json v') as [[] w]; cbn [fst snd]; [by eapply IH|]. cbn [assoc]. rewrite bool_decide_eq_false_2 by done. by eapply IH.
Qed.

Class PruneLaw (A : Type) `{CA : Codec A} `{LA : !CodecLaw A} : Prop :=
  prune_back a : fits a → tight (to_json a) = true → from_json (prune_json (to_json a)).2 = Ok a.

Lemma scalar_prune `{CodecLaw A} : (∀ a : A, prune_json (to_json a) = (false, to_json a)) → PruneLaw A.
Proof. intros Hs a Ha _. rewrite Hs. by apply from_to_json. Qed.

Section laws.
Context {NL : Nlohmann}.

#[export] Instance bool_prune : PruneLaw bool.
Proof. by apply scalar_prune. Qed.
#[export] Instance string_prune : PruneLaw cstring.
Proof. by apply scalar_prune. Qed.
#[export] Instance int_prune : PruneLaw Z.
Proof. by apply scalar_prune. Qed.
#[export] Instance backend_prune : PruneLaw DaemonConfigFirewallBackend.t.
Proof. apply scalar_prune. by intros []. Qed.
#[export] Instance strict_action_prune : PruneLaw StrictEnforcementAction.t.
Proof. apply scalar_prune. by intros []. Qed.
#[export] Instance dns_server_type_prune : PruneLaw DnsServerType.t.
Proof. apply scalar_prune. by intros []. Qed.
#[export] Instance conntrack_prune : PruneLaw ConntrackOnSwitch.t.
Proof. apply scalar_prune. by intros []. Qed.
#[export] Instance outbound_type_prune : PruneLaw OutboundType.t.
Proof. apply scalar_prune. by intros []. Qed.

#[export] Instance vector_prune `{PruneLaw A} : PruneLaw (list A) | 10.
Proof.
  intros l Hl Ht. cbn -[prune_json] in *. cbn [prune_json snd]. induction Hl as [|x l Hx Hl IH]; [done|].
  cbn [fmap list_fmap] in *. cbn [tight] in Ht. apply andb_true_iff in Ht as [Ht1 Ht2].
  cbn [read_all]. rewrite (prune_back x Hx Ht1). cbn [mbind exc_bind]. by rewrite IH.
Qed.

#[export] Instance map_prune `{PruneLaw A} : PruneLaw (gmap cstring A).
Proof.
  intros m Hm Ht. cbn [to_json map_codec] in *. rewrite prune_members. cbn [from_json map_codec].
  enough (E : read_members from_json (kept_members ((λ e, (e.1, to_json e.2)) <$> in_key_order m)) = Ok (in_key_order m)).
  { rewrite E. cbn. by rewrite list_to_map_in_key_order. }
  assert (Hall : Forall (λ e, fits e.2) (in_key_order m)).
  { apply Forall_forall. intros [k x] Hx%in_key_order_elem. by eapply Hm. }
  induction Hall as [|[k x] l Hx _ IH]; [done|]. rewrite fmap_cons in *. cbn [fst snd] in *. rewrite tight_cons in Ht. apply andb_true_iff in Ht as [Hv Hl].
  cbn [fst snd] in *. assert (Hx2 : tight (to_json x) = true ∧ (prune_json (to_json x)).1 = false).
  { pose proof (to_json_not_null x). destruct (to_json x); try done; by apply andb_true_iff in Hv as [? ?%negb_true_iff]. }
  destruct Hx2 as [Ht2 Hg]. rewrite kept_members_cons, Hg. cbn [read_members]. rewrite (prune_back x Hx Ht2). cbn [mbind exc_bind]. by rewrite (IH Hl).
Qed.

Lemma get_optional_pruned `{PruneLaw A} l i k (o : option A) : tight (JObj l) = true →
  NoDup l.*1 → l !! i = Some (k, put_optional o) → fits_optional o → get_stack_optional A (prune_json (JObj l)).2 k = Ok o.
Proof.
  intros Ht Hl Hi Ho. rewrite prune_members. unfold get_stack_optional. cbn [jfind]. rewrite (assoc_kept _ _ _ _ Hl Hi).
  destruct o as [x|]; cbn [put_optional]; [|done]. pose proof (to_json_not_null x) as Hn.
  destruct (tight_member l k (to_json x) Ht) as [?|[Ht' Hg]]; [by eapply list_elem_of_lookup_2|done|]. rewrite Hg.
  pose proof (prune_not_null _ Hn). pose proof (prune_back x Ho Ht') as Hb. destruct (prune_json (to_json x)).2; [done|by rewrite Hb..].
Qed.
Lemma at_get_pruned `{PruneLaw A} l i k (x : A) : tight (JObj l) = true →
  NoDup l.*1 → l !! i = Some (k, to_json x) → fits x → at_get A (prune_json (JObj l)).2 k = Ok x.
Proof.
  intros Ht Hl Hi Ho. rewrite prune_members. unfold at_get. rewrite (assoc_kept _ _ _ _ Hl Hi).
  pose proof (to_json_not_null x) as Hn. destruct (tight_member l k (to_json x) Ht) as [?|[Ht' Hg]]; [by eapply list_elem_of_lookup_2|done|].
  rewrite Hg. by apply prune_back.
Qed.
End laws.

(** Reads back member after member of an object whose absent members were left
    out. *)
Ltac read_pruned_from i Ht :=
  match goal with
  | |- _ ≫= _ = _ =>
      eapply bind_Ok;
      [first [eapply (get_optional_pruned _ i)|eapply (at_get_pruned _ i)];
       [exact Ht|apply (bool_decide_unpack _); vm_compute; exact I|reflexivity|done]
      |read_pruned_from (S i) Ht]
  | _ => idtac
  end.
Ltac read_pruned x Hx Ht := destruct_and? Hx; read_pruned_from 0%nat Ht; by destruct x.

Section structs.
Context {NL : Nlohmann}.

#[export] Instance api_config_prune : PruneLaw ApiConfig.
Proof.
  intros x Hx Ht. cbn [fits api_config_law] in Hx. unfold api_config_fits in Hx. cbn [from_json to_json api_config_codec] in *.
  unfold api_config_from_json, api_config_to_json in *. read_pruned x Hx Ht.
Qed.
#[export] Instance circuit_breaker_prune : PruneLaw CircuitBreakerConfig.
Proof.
  intros x Hx Ht. cbn [fits circuit_breaker_law] in Hx. unfold circuit_breaker_fits in Hx. cbn [from_json to_json circuit_breaker_codec] in *.
  unfold circuit_breaker_from_json, circuit_breaker_to_json in *. read_pruned x Hx Ht.
Qed.
#[export] Instance daemon_config_prune : PruneLaw DaemonConfig.
Proof.
  intros x Hx Ht. cbn [fits daemon_config_law] in Hx. unfold daemon_config_fits in Hx. cbn [from_json to_json daemon_config_codec] in *.
  unfold daemon_config_from_json, daemon_config_to_json in *. read_pruned x Hx Ht.
Qed.
#[export] Instance dns_test_server_prune : PruneLaw DnsTestServer.
Proof.
  intros x Hx Ht. cbn [fits dns_test_server_law] in Hx. unfold dns_test_server_fits in Hx. cbn [from_json to_json dns_test_server_codec] in *.
  unfold dns_test_server_from_json, dns_test_server_to_json in *. read_pruned x Hx Ht.
Qed.
#[export] Instance dns_rule_prune : PruneLaw DnsRule.
Proof.
  intros x Hx Ht. cbn [fits dns_rule_law] in Hx. unfold dns_rule_fits in Hx. cbn [from_json to_json dns_rule_codec] in *.
  unfold dns_rule_from_json, dns_rule_to_json in *. read_pruned x Hx Ht.
Qed.
#[export] Instance dns_server_prune : PruneLaw DnsServer.
Proof.
  intros x Hx Ht. cbn [fits dns_server_law] in Hx. unfold dns_server_fits in Hx. cbn [from_json to_json dns_server_codec] in *.
  unfold dns_server_from_json, dns_server_to_json in *. read_pruned x Hx Ht.
Qed.
#[export] Instance system_resolver_prune : PruneLaw SystemResolver.
Proof.
  intros x Hx Ht. cbn [fits system_resolver_law] in Hx. unfold system_resolver_fits in Hx. cbn [from_json to_json system_resolver_codec] in *.
  unfold system_resolver_from_json, system_resolver_to_json in *. read_pruned x Hx Ht.
Qed.
#[export] Instance dns_config_prune : PruneLaw DnsConfig.
Proof.
  intros x Hx Ht. cbn [fits dns_config_law] in Hx. unfold dns_config_fits in Hx. cbn [from_json to_json dns_config_codec] in *.
  unfold dns_config_from_json, dns_config_to_json in *. read_pruned x Hx Ht.
Qed.
#[export] Instance fwmark_prune : PruneLaw FwmarkConfig.
Proof.
  intros x Hx Ht. cbn [fits fwmark_law] in Hx. unfold fwmark_fits in Hx. cbn [from_json to_json fwmark_codec] in *.
  unfold fwmark_from_json, fwmark_to_json in *. read_pruned x Hx Ht.
Qed.
#[export] Instance iproute_prune : PruneLaw IprouteConfig.
Proof.
  intros x Hx Ht. cbn [fits iproute_law] in Hx. unfold iproute_fits in Hx. cbn [from_json to_json iproute_codec] in *.
  unfold iproute_from_json, iproute_to_json in *. read_pruned x Hx Ht.
Qed.
#[export] Instance list_config_prune : PruneLaw ListConfig.
Proof.
  intros x Hx Ht. cbn [fits list_config_law] in Hx. unfold list_config_fits in Hx. cbn [from_json to_json list_config_codec] in *.
  unfold list_config_from_json, list_config_to_json in *. read_pruned x Hx Ht.
Qed.
#[export] Instance lists_autoupdate_prune : PruneLaw ListsAutoupdateConfig.
Proof.
  intros x Hx Ht. cbn [fits lists_autoupdate_law] in Hx. unfold lists_autoupdate_fits in Hx. cbn [from_json to_json lists_autoupdate_codec] in *.
  unfold lists_autoupdate_from_json, lists_autoupdate_to_json in *. read_pruned x Hx Ht.
Qed.
#[export] Instance outbound_group_prune : PruneLaw OutboundGroup.
Proof.
  intros x Hx Ht. cbn [fits outbound_group_law] in Hx. unfold outbound_group_fits in Hx. cbn [from_json to_json outbound_group_codec] in *.
  unfold outbound_group_from_json, outbound_group_to_json in *. read_pruned x Hx Ht.
Qed.
#[export] Instance retry_prune : PruneLaw RetryConfig.
Proof.
  intros x Hx Ht. cbn [fits retry_law] in Hx. unfold retry_fits in Hx. cbn [from_json to_json retry_codec] in *.
  unfold retry_from_json, retry_to_json in *. read_pruned x Hx Ht.
Qed.
#[export] Instance outbound_prune : PruneLaw Outbound.
Proof.
  intros x Hx Ht. cbn [fits outbound_law] in Hx. unfold outbound_fits in Hx. cbn [from_json to_json outbound_codec] in *.
  unfold outbound_from_json, outbound_to_json in *. read_pruned x Hx Ht.
Qed.
#[export] Instance route_rule_prune : PruneLaw RouteRule.
Proof.
  intros x Hx Ht. cbn [fits route_rule_law] in Hx. unfold route_rule_fits in Hx. cbn [from_json to_json route_rule_codec] in *.
  unfold route_rule_from_json, route_rule_to_json in *. read_pruned x Hx Ht.
Qed.
#[export] Instance route_prune : PruneLaw RouteConfig.
Proof.
  intros x Hx Ht. cbn [fits route_law] in Hx. unfold route_fits in Hx. cbn [from_json to_json route_codec] in *.
  unfold route_from_json, route_to_json in *. read_pruned x Hx Ht.
Qed.
#[export] Instance config_prune : PruneLaw Config.
Proof.
  intros x Hx Ht. cbn [fits config_law] in Hx. unfold config_fits in Hx. cbn [from_json to_json config_codec] in *.
  unfold config_from_json, config_to_json in *. read_pruned x Hx Ht.
Qed.
End structs.

Section saved.
Context {NL : Nlohmann} {JT : JsonText}.
Context (float_equal : json → json → bool) (parse_error : cstring → cstring) (dump_tabs : json → exc cstring).
(** The library reads what it printed. *)
Context (reparses : ∀ j text, dump_tabs j = Ok text → json_parse (text ++ [chr 10]) = Some j).

Lemma serialized c text : serialize_config_pretty dump_tabs c = Ok text → json_parse text = Some (prune_json (config_to_json c)).2.
Proof.
  unfold serialize_config_pretty, mbind, exc_bind. destruct (dump_tabs _) as [t|e|] eqn:E; [|done..]. intros [= <-]. by apply reparses.
Qed.

(** C11. A saved configuration is read back as itself: leaving out the members that
    are absent loses nothing, for every configuration whose integers are 64 bits
    wide and of which no section is present and empty. *)
Theorem saved_config_reads_back c text : config_fits c → tight (config_to_json c) = true →
  serialize_config_pretty dump_tabs c = Ok text →
  ∃ j, json_parse text = Some j ∧ config_from_json j = Ok c.
Proof.
  intros Hf Ht Hs. exists (prune_json (config_to_json c)).2. split; [by apply serialized|]. exact (prune_back (PruneLaw := config_prune) c Hf Ht).
Qed.

Lemma kept_fewer l : (length (kept_members l) ≤ length l)%nat ∧ ((∃ k, (k, JNull) ∈ l) → (length (kept_members l) < length l)%nat).
Proof.
  induction l as [|[k v] l IH]; [split; [done|]; by intros [k ?%elem_of_nil]|]. rewrite kept_members_cons. destruct IH as [IH1 IH2]. split.
  - destruct (prune_json v) as [[] w]; cbn [fst snd length]; lia.
  - intros (k' & [[= -> <-]|Hin]%elem_of_cons); [cbn [prune_json fst length]; lia|]. specialize (IH2 (ex_intro _ k' Hin)). destruct (prune_json v) as [[] w]; cbn [fst snd length]; lia.
Qed.

(** A file that was just saved counts as different from the configuration in use
    whenever any section of it is absent: the file leaves the section out, the
    comparison expects a null. *)
Theorem saved_file_does_not_match c text : (∃ k, (k, JNull) ∈ config_members c) →
  serialize_config_pretty dump_tabs c = Ok text →
  matches_active (inspect_disk_config_state float_equal parse_error (Some text) c) = false.
Proof.
  intros Hn Hs. unfold inspect_disk_config_state. rewrite (serialized c text Hs). cbn [matches_active].
  unfold config_to_json. rewrite prune_members. cbn [json_equal].
  pose proof (proj2 (kept_fewer (config_members c)) Hn). rewrite (proj2 (Nat.eqb_neq _ _)) by lia. done.
Qed.
End saved.

(** *** Witnesses *)

Module ConfigDiskSample.
Import JsonSample.
#[local] Existing Instances w_nlohmann w_text.

Lemma w_json_config_fits : config_fits w_json_config.
Proof.
  split_and!; try exact I.
  - split_and!; try exact I; repeat constructor.
  - split_and!; [exact I|]. cbn. lia.
  - apply (proj2 (map_Forall_singleton (λ _, list_config_fits) _ _)). split_and!; try exact I; repeat constructor.
Qed.

Lemma w_reparses_tabs j text : dump j = Ok text → json_parse (text ++ [chr 10]) = Some j.
Proof. apply parse_dump. Qed.

Lemma saved_config_reads_back_witness :
  ∃ text j, serialize_config_pretty dump w_json_config = Ok text ∧ json_parse text = Some j ∧ config_from_json j = Ok w_json_config.
Proof.
  eexists. destruct (saved_config_reads_back dump w_reparses_tabs w_json_config _ w_json_config_fits ltac:(by vm_compute) eq_refl) as (j & H1 & H2).
  exists j. split; [reflexivity|done].
Defined.

Lemma saved_file_does_not_match_witness :
  ∃ text, serialize_config_pretty dump w_json_config = Ok text ∧
    matches_active (inspect_disk_config_state (λ _ _, false) id (Some text) w_json_config) = false.
Proof.
  eexists. split; [reflexivity|]. apply (saved_file_does_not_match (λ _ _, false) id dump w_reparses_tabs); [|reflexivity].
  exists (str "api"). by left.
Defined.

(** A section without members is lost. *)
Lemma empty_section_is_lost :
  let c := Build_Config None None None None None None (Some (Build_ListsAutoupdateConfig None None)) None None in
  config_from_json (prune_json (config_to_json c)).2 = Ok default_Config ∧ c ≠ default_Config.
Proof. by vm_compute. Qed.
End ConfigDiskSample.
