(* ===== verification/ControlProtocol.v ===== *)
(** * The control protocol (src/src/ipc/control_protocol.{hpp,cpp}, control_client.cpp,
      resolver_fallback.cpp, and the stream buffer of src/src/daemon/daemon_core.cpp)

    A request and its answer are JSON texts behind their length in four bytes; the
    configuration of the resolver is streamed in chunks of at most 16 KiB, each
    behind its length, up to a chunk of length zero.  The client copies the
    stream to its output, and uses a static fallback when the daemon is not
    there. *)

From S2P Require Import Prelude CppString Config Json JsonSample ConfigJson ConfigDisk Md5.

Local Open Scope Z_scope.

(** ** Frames *)

Definition kControlProtocolVersion : Z := 1.
Definition kMaxControlMessageBytes : Z := 1024 * 1024.
Definition kResolverStreamChunkBytes : Z := 16 * 1024.

Definition size (s : cstring) : Z := Z.of_nat (length s).
(** The bytes of [htonl(n)], and [ntohl] of four bytes *)
Definition htonl (n : Z) : cstring :=
  [chr (Z.land (Z.shiftr n 24) 255); chr (Z.land (Z.shiftr n 16) 255); chr (Z.land (Z.shiftr n 8) 255); chr (Z.land n 255)].
Definition ntohl (s : cstring) : Z := foldl (λ n c, Z.lor (Z.shiftl n 8) (ord c)) 0 s.

Section protocol.
Context {NL : Nlohmann} {JT : JsonText} {JD : JsonDump}.
(** How the library compares two numbers of which one has a fraction, and its
    message for a text it cannot parse *)
Context (float_equal : json → json → bool) (parse_error : cstring → cstring).

Definition too_large : exn := ControlProtocolError "control message exceeds maximum size".

Definition encode_message (envelope : json) : exc cstring :=
  payload ← json_compact envelope;
  if size payload >? kMaxControlMessageBytes then Throw too_large else mret (htonl (size payload) ++ payload).

Definition decode_message (frame : cstring) : exc json :=
  if size frame <? 4 then Throw (ControlProtocolError "truncated control message header")
  else
    let payload_size := ntohl (take 4 frame) in
    if payload_size >? kMaxControlMessageBytes then Throw too_large
    else if negb (size frame =? 4 + payload_size) then Throw (ControlProtocolError "control message length does not match frame")
    else match json_parse (drop 4 frame) with
         | Some j => mret j
         | None => Throw (ControlProtocolError ("invalid control JSON: " ++ parse_error (drop 4 frame)))
         end.

(** [contains(k) && at(k).is_string() && !at(k).empty()] *)
Definition has_text (k : cstring) (j : json) : bool :=
  match jfind k j with Some (JStr s) => negb (bool_decide (s = [])) | _ => false end.
Definition validate_request_envelope (request : json) : exc unit :=
  match request with
  | JObj _ =>
      if negb (match jfind "protocol_version" request with Some v => json_equal float_equal v (JInt kControlProtocolVersion) | None => false end)
      then Throw (ControlProtocolError "unsupported control protocol version")
      else if negb (has_text "request_id" request) then Throw (ControlProtocolError "control request requires a non-empty request_id")
      else if negb (has_text "operation" request) then Throw (ControlProtocolError "control request requires an operation")
      else mret tt
  | _ => Throw (ControlProtocolError "control request must be an object")
  end.

Definition make_error_response (request : json) (code message : cstring) : json :=
  JObj ([(str "error", JObj [(str "code", JStr code); (str "message", JStr message)]); (str "ok", JBool false);
         (str "protocol_version", JInt kControlProtocolVersion)] ++
        match jfind "request_id" request with Some (JStr id) => [(str "request_id", JStr id)] | _ => [] end).

(** [j.value(k, d)] *)
Definition json_value {A} (read : json → exc A) (k : cstring) (d : A) (j : json) : exc A :=
  match j with
  | JObj l => match assoc k l with Some v => read v | None => Ok d end
  | _ => type_mismatch "object" j
  end.
Definition value_bool (k : cstring) (d : bool) (j : json) : exc bool := json_value from_json k d j.
Definition value_string (k d : cstring) (j : json) : exc cstring := json_value from_json k d j.
Definition value_json (k : cstring) (d j : json) : exc json := json_value Ok k d j.

(** ** Sockets *)

Definition POLLIN : Z := 1.
Definition POLLOUT : Z := 4.
Definition POLL_FAULTS : Z := 8 + 16 + 32. (* POLLERR | POLLHUP | POLLNVAL *)
Inductive poll_result := PollTimeout | PollError | PollEvents (revents : Z).
Inductive connect_result := NoSocket | Unreachable | Connected.

(** The socket of the client, its output, and the text of [errno]; a call that
    returns a count that is not positive is [None], or nothing. *)
Class ControlIO (W : Type) := {
  c_connect : cstring → W → connect_result * W;
  c_poll : Z → Z → W → poll_result * W;
  c_send : cstring → W → option nat * W;
  c_recv : nat → W → option cstring * W;
  c_close : W → W;
  out_write : cstring → W → bool * W;
  strerror : W → cstring;
}.

(** ** The client *)

Section client.
Context {W : Type} `{IO : !ControlIO W}.
Abbreviation M := (stexc W).

Definition fail {A} (m : cstring) : M A := throw (ControlProtocolError m).

Definition wait_for (events timeout_ms : Z) : M unit := λ w,
  match c_poll events timeout_ms w with
  | (PollTimeout, w) => fail "control socket timeout" w
  | (PollError, w) => fail ("control socket poll failed: " ++ strerror w) w
  | (PollEvents revents, w) =>
      if (Z.land revents events =? 0) && negb (Z.land revents POLL_FAULTS =? 0) then fail "control socket closed" w else (Ok tt, w)
  end.

Fixpoint send_loop (wait : M unit) (failed : cstring) (fuel : nat) (rest : cstring) : M unit :=
  match rest with
  | [] => mret tt
  | _ =>
      match fuel with
      | O => λ w, (Undefined, w)
      | S fuel =>
          wait;;
          (λ w, match c_send rest w with
                | (Some (S n), w) => send_loop wait failed fuel (drop (S n) rest) w
                | (_, w) => fail (failed ++ strerror w) w
                end) : M unit
      end
  end.
Definition write_all (data : cstring) (timeout_ms : Z) : M unit :=
  send_loop (wait_for POLLOUT timeout_ms) "control socket write failed: " (length data) data.

Fixpoint read_loop (timeout_ms : Z) (fuel : nat) (missing : nat) (received : cstring) : M cstring :=
  match missing with
  | O => mret received
  | S _ =>
      match fuel with
      | O => λ w, (Undefined, w)
      | S fuel =>
          wait_for POLLIN timeout_ms;;
          (λ w, match c_recv missing w with
                | (Some (c :: s), w) => read_loop timeout_ms fuel (missing - length (c :: s)) (received ++ c :: s) w
                | (_, w) => fail "control socket read failed" w
                end) : M cstring
      end
  end.
Definition read_exact (n : nat) (timeout_ms : Z) : M cstring := read_loop timeout_ms n n [].

(** [sizeof(sockaddr_un::sun_path)] *)
Definition sun_path_size : Z := 108.
Definition connect_control_socket (socket_path : cstring) : M unit := λ w,
  if size socket_path >=? sun_path_size then fail "control socket path is too long" w
  else match c_connect socket_path w with
       | (NoSocket, w) => fail ("control socket create failed: " ++ strerror w) w
       | (Unreachable, w) => fail ("control socket unavailable: " ++ strerror w) (c_close w)
       | (Connected, w) => (Ok tt, w)
       end.

Definition of_exc_at {A} (e : exc A) : M A := λ w, (e, w).

Definition read_response_envelope (timeout_ms : Z) : M json :=
  header ← read_exact 4 timeout_ms;
  let payload_size := ntohl header in
  if payload_size >? kMaxControlMessageBytes then fail "control response exceeds maximum size"
  else payload ← read_exact (Z.to_nat payload_size) timeout_ms; of_exc_at (decode_message (header ++ payload)).

Definition close_socket : M unit := λ w, (Ok tt, c_close w).

Definition request_control (socket_path : cstring) (request : json) (timeout_ms : Z) : M json :=
  of_exc_at (validate_request_envelope request) ≫= λ _,
  connect_control_socket socket_path;;
  try_catch_all
    (frame ← of_exc_at (encode_message request); write_all frame timeout_ms;; read_response_envelope timeout_ms)
    (λ e, close_socket;; throw e).

(** ** Streams *)

Record ControlStreamError := mk_StreamError { stream_what : cstring; active_bytes_streamed : bool }.

(** The state of the loop over the chunks: the end of the stream, or the error
    that is thrown *)
Definition copy_chunk (idle_timeout_ms : Z) (active : bool) : M (ControlStreamError + bool) :=
  length_frame ← read_exact 4 idle_timeout_ms;
  let chunk_size := ntohl length_frame in
  if chunk_size =? 0 then mret (inr false)
  else if chunk_size >? kResolverStreamChunkBytes then mret (inl (mk_StreamError "protocol_error" active))
  else
    chunk ← read_exact (Z.to_nat chunk_size) idle_timeout_ms;
    (λ w, let '(good, w) := out_write chunk w in
          (Ok (if good then inr true else inl (mk_StreamError "stdout_error" active)), w)) : M (ControlStreamError + bool).
(** The exception of a protocol error carries what was already copied. *)
Definition converting (active : bool) {A} (m : M (ControlStreamError + A)) : M (ControlStreamError + A) := λ w,
  match m w with
  | (Throw (ControlProtocolError e), w) => (Ok (inl (mk_StreamError e active)), w)
  | r => r
  end.
Fixpoint copy_chunks (idle_timeout_ms : Z) (fuel : nat) (active : bool) : M (ControlStreamError + unit) :=
  match fuel with
  | O => λ w, (Undefined, w)
  | S fuel =>
      r ← converting active (copy_chunk idle_timeout_ms active);
      match r with
      | inl e => mret (inl e)
      | inr false => mret (inr tt)
      | inr true => copy_chunks idle_timeout_ms fuel true
      end
  end.

(** From the request to the envelope of the answer *)
Definition start_stream (request : json) (idle_timeout_ms : Z) : M (ControlStreamError + unit) :=
  frame ← of_exc_at (encode_message request);
  write_all frame idle_timeout_ms;;
  response ← read_response_envelope idle_timeout_ms;
  ok ← of_exc_at (value_bool "ok" false response);
  if negb ok then
    error ← of_exc_at (value_json "error" (JObj []) response);
    code ← of_exc_at (value_string "code" "daemon_error" error);
    mret (inl (mk_StreamError code false))
  else
    stream ← of_exc_at (value_bool "stream" false response);
    mret (if negb stream then inl (mk_StreamError "protocol_error" false) else inr tt).

(** [fuel] bounds the number of chunks; [inl] is the [ControlStreamError] that is
    thrown.  The socket is closed on every path once it is open. *)
Definition stream_control (fuel : nat) (socket_path : cstring) (request : json) (idle_timeout_ms : Z) : M (ControlStreamError + unit) :=
  of_exc_at (validate_request_envelope request) ≫= λ _,
  connected ← converting false (connect_control_socket socket_path;; mret (inr tt));
  match connected with
  | inl e => mret (inl e)
  | inr () =>
      r ← try_catch_all
        (started ← converting false (start_stream request idle_timeout_ms);
         match started with inl e => mret (inl e) | inr () => copy_chunks idle_timeout_ms fuel false end)
        (λ e, close_socket;; throw e);
      close_socket;; mret r
  end.
End client.

(** ** The server's side of a stream *)

(** What the generator of the configuration writes: texts and single characters *)
Inductive put := Text (s : cstring) | Char (c : ascii).
Definition put_text (p : put) : cstring := match p with Text s => s | Char c => [c] end.

(** [SocketStreamBuffer] and the stream over it *)
Record stream_buffer := mk_buffer { pending : cstring; good : bool }.

Section server.
Context {W : Type} `{IO : !ControlIO W}.
Abbreviation M := (stexc W).

Definition send_all (data : cstring) : M unit := send_loop (mret tt) "resolver stream write failed: " (length data) data.

(** [flush_buffer() == 0]: an exception is caught *)
Definition flush_buffer (pending : cstring) (w : W) : exc bool * W :=
  if bool_decide (pending = []) then (Ok true, w)
  else match (send_all (htonl (size pending));; send_all pending) w with
       | (Ok _, w) => (Ok true, w)
       | (Throw _, w) => (Ok false, w)
       | (Undefined, w) => (Undefined, w)
       end.

Definition room (pending : cstring) : nat := Z.to_nat kResolverStreamChunkBytes - length pending.

(** [xsputn]: what is left to write and what is in the buffer *)
Fixpoint xsputn (fuel : nat) (data pending : cstring) : M (cstring * cstring) :=
  match data with
  | [] => mret ([], pending)
  | _ =>
      match fuel with
      | O => λ w, (Undefined, w)
      | S fuel =>
          λ w,
          if (room pending =? 0)%nat then
            match flush_buffer pending w with
            | (Ok true, w) => xsputn fuel (drop (room []) data) (take (room []) data) w
            | (Ok false, w) => (Ok (data, pending), w)
            | (Throw e, w) => (Throw e, w)
            | (Undefined, w) => (Undefined, w)
            end
          else xsputn fuel (drop (room pending) data) (pending ++ take (room pending) data) w
      end
  end.

(** [output << p]: nothing once the stream has failed *)
Definition write_put (p : put) (b : stream_buffer) : M stream_buffer :=
  if negb (good b) then mret b
  else match p with
  | Text s => r ← xsputn (length s) s (pending b); mret (mk_buffer r.2 (bool_decide (r.1 = [])))
  | Char c =>
      if (room (pending b) =? 0)%nat then
        flushed ← flush_buffer (pending b);
        mret (if flushed : bool then mk_buffer [c] true else mk_buffer (pending b) false)
      else mret (mk_buffer (pending b ++ [c]) true)
  end.
Fixpoint write_puts (l : list put) (b : stream_buffer) : M stream_buffer :=
  match l with [] => mret b | p :: l => b ← write_put p b; write_puts l b end.
(** [flush] and the destructor *)
Definition sync (b : stream_buffer) : M stream_buffer :=
  flushed ← flush_buffer (pending b);
  mret (if flushed : bool then mk_buffer [] (good b) else mk_buffer (pending b) false).
Definition flush (b : stream_buffer) : M stream_buffer := if negb (good b) then mret b else sync b.

(** The job of [generate-resolver-config]: the generator writes [puts] and may
    throw [error].  The result tells whether the stream counts as completed. *)
Definition stream_header (request_id : cstring) : json :=
  JObj [(str "ok", JBool true); (str "protocol_version", JInt kControlProtocolVersion); (str "request_id", JStr request_id); (str "stream", JBool true)].
Definition stream_body (puts : list put) (error : option exn) : M unit :=
  b ← write_puts puts (mk_buffer [] true);
  match error with
  | Some e => sync b;; throw e
  | None =>
      b ← flush b;
      try_catch_all (send_all (htonl 0)) (λ e, sync b;; throw e);;
      sync b;; mret tt
  end.
Definition serve_stream (request_id : cstring) (puts : list put) (error : option exn) : M bool := λ w,
  let answer e w := match encode_message (make_error_response (JObj [(str "request_id", JStr request_id)]) e e) with
                    | Ok frame => (Ok false, (c_send frame w).2)
                    | Throw e => (Throw e, w)
                    | Undefined => (Undefined, w)
                    end in
  let '(r, w) := (header ← of_exc_at (encode_message (stream_header request_id)); send_all header) w in
  match r with
  | Undefined => (Undefined, w)
  | Throw e => match what e with
               | Some m => let '(r, w) := answer m w in (r, c_close w)
               | None => (Throw e, w)
               end
  | Ok _ =>
      match stream_body puts error w with
      | (Ok _, w) => (Ok true, c_close w)
      | (Throw e, w) => match what e with Some _ => (Ok false, c_close w) | None => (Throw e, w) end
      | (Undefined, w) => (Undefined, w)
      end
  end.
End server.
End protocol.

(** ** The fallback *)

Definition valid_reason_code (value : cstring) : bool :=
  negb (bool_decide (value = [])) && forallb (λ c, islower c || isdigit c || ascii_eqb c "_") value.

(** A file that is read to its end, or that cannot be opened or read *)
Fixpoint chunks_of (n : nat) (fuel : nat) (s : cstring) : list cstring :=
  match fuel, s with
  | O, _ | _, [] => []
  | S fuel, _ => take n s :: chunks_of n fuel (drop n s)
  end.
Definition fallback_hash (body : cstring) : cstring :=
  digest_to_hex (digest (foldl (λ s c, update (bytes_of c) s) init_MD5State (chunks_of (Z.to_nat 16384) (length body) body))).

(** What is written to an output that takes everything, and whether the function
    returns true: copying an empty file fails the output. *)
Definition emit_resolver_fallback (fallback : option cstring) (reason_code : cstring) (timestamp : Z) : cstring * bool :=
  if negb (valid_reason_code reason_code) then ([], false)
  else match fallback with
  | None => ([], false)
  | Some body =>
      ("# keen-pbr resolver state: fallback reason=" ++ reason_code ++ [chr 10] ++
       "txt-record=config-hash.keen.pbr," ++ to_string timestamp ++ "|" ++ fallback_hash body ++ [chr 10] ++
       "txt-record=resolver-state.keen.pbr," ++ to_string timestamp ++ "|fallback|" ++ reason_code ++ [chr 10] ++ body,
       negb (bool_decide (body = [])))
  end.

(** main.cpp *)
Definition resolver_fallback_reason (error : cstring) : option cstring :=
  if bool_decide (error = "runtime_stopped") then Some (str "runtime_stopped")
  else if bool_decide (error = "runtime_shutting_down") then Some (str "runtime_shutting_down")
  else if contains_str "control socket unavailable" error || contains_str "control socket create failed" error
       then Some (str "daemon_unavailable")
  else None.

(** ** The command [generate-resolver-config] (main.cpp) *)

Definition cli_request (resolver_type : cstring) : json :=
  JObj [(str "operation", JStr "generate-resolver-config"); (str "protocol_version", JInt kControlProtocolVersion);
        (str "request_id", JStr "cli-generate-resolver-config"); (str "resolver", JStr resolver_type)].

Section command.
Context {NL : Nlohmann} {JT : JsonText} {JD : JsonDump} (float_equal : json → json → bool) (parse_error : cstring → cstring).
Context {W : Type} `{IO : !ControlIO W}.

(** [throw;] in the handler: the error of the stream is the error of the command. *)
Definition generate_resolver_config (fuel : nat) (socket_path default_path config_path resolver_type : cstring) (fallback : option cstring)
    (now : Z) : stexc W unit :=
  if negb (bool_decide (config_path = default_path)) then throw (runtime_error "--config is only supported with the service command")
  else if negb (bool_decide (resolver_type ∈ [str "dnsmasq"; str "dnsmasq-ipset"; str "dnsmasq-nftset"]))
  then throw (runtime_error ("Unknown resolver type: " ++ resolver_type))
  else
    r ← stream_control float_equal parse_error fuel socket_path (cli_request resolver_type) 15000;
    match r with
    | inr () => mret tt
    | inl e =>
        match resolver_fallback_reason (stream_what e) with
        | Some reason =>
            if active_bytes_streamed e then throw (ControlProtocolError (stream_what e))
            else
              let '(text, ok) := emit_resolver_fallback fallback reason now in
              (λ w, let '(good, w) := out_write text w in
                    if ok && good then (Ok tt, w) else (Throw (ControlProtocolError (stream_what e)), w)) : stexc W unit
        | None => throw (ControlProtocolError (stream_what e))
        end
    end.
End command.

(** ** Frames come back *)

Lemma size_app s t : size (s ++ t) = size s + size t.
Proof. unfold size. rewrite length_app. lia. Qed.
Lemma size_nonneg s : 0 ≤ size s.
Proof. unfold size. lia. Qed.
Lemma htonl_length n : length (htonl n) = 4%nat.
Proof. done. Qed.

Lemma shift_or n x : 0 ≤ n → 0 ≤ x < 256 → Z.lor (Z.shiftl n 8) x = 256 * n + x.
Proof.
  intros Hn Hx. assert (Hd : Z.land (Z.shiftl n 8) x = 0).
  { apply Z.bits_inj'. intros i Hi. rewrite Z.land_spec, Z.bits_0. destruct (Z.lt_ge_cases i 8).
    - by rewrite Z.shiftl_spec_low.
    - rewrite <- (Z.mod_small x (2 ^ 8)), (Z.mod_pow2_bits_high x 8 i) by lia. apply andb_false_r. }
  rewrite <- Z.lxor_lor, <- Z.add_nocarry_lxor, Z.shiftl_mul_pow2 by done. lia.
Qed.
Lemma low_byte n : Z.land n 255 = n mod 256.
Proof. change 255 with (Z.ones 8). rewrite Z.land_ones by lia. done. Qed.
Lemma ntohl_htonl n : 0 ≤ n < 2 ^ 32 → ntohl (htonl n) = n.
Proof.
  intros Hn. unfold ntohl, htonl. cbn [foldl]. rewrite !low_byte, !Z.shiftr_div_pow2 by lia.
  assert (Hb : ∀ m, 0 ≤ m mod 256 < 256) by (intros; apply Z.mod_pos_bound; lia). rewrite !ord_chr by apply Hb.
  change (2 ^ 24) with 16777216. change (2 ^ 16) with 65536. change (2 ^ 8) with 256. change (2 ^ 32) with 4294967296 in Hn.
  pose proof (Hb (n / 16777216)) as H1. pose proof (Hb (n / 65536)) as H2. pose proof (Hb (n / 256)) as H3. pose proof (Hb n) as H4.
  rewrite (shift_or 0), (shift_or (256 * 0 + _)) by lia. rewrite (shift_or (256 * (256 * 0 + _) + _)), shift_or by lia.
  clear -Hn. Z.to_euclidean_division_equations. lia.
Qed.

(** The hash of the fallback is the MD5 of the file, whatever its length. *)
Lemma chunks_of_concat n : (0 < n)%nat → ∀ fuel s, (length s ≤ fuel)%nat → concat (chunks_of n fuel s) = s.
Proof.
  intros Hn. induction fuel as [|fuel IH]; intros [|c s] Hf; cbn in Hf; try lia; try done. cbn [chunks_of concat].
  rewrite IH; [apply take_drop|]. rewrite length_drop. cbn [length]. lia.
Qed.
Lemma fallback_hash_is_md5 body : fallback_hash body = digest_to_hex (RFC1321.md5 (bytes_of body)).
Proof.
  unfold fallback_hash. f_equal. apply digest_is_md5; [|apply bytes_of_range].
  pose proof (strings_stand_for (chunks_of (Z.to_nat 16384) (length body) body)) as H.
  by rewrite chunks_of_concat in H by lia.
Qed.

Section proofs.
Context {NL : Nlohmann} {JT : JsonText} {JD : JsonDump}.
Context (float_equal : json → json → bool) (parse_error : cstring → cstring).

(** The library reads what it printed. *)
Definition compact_reparses : Prop := ∀ j text, json_compact j = Ok text → json_parse text = Some j.

Lemma encode_frame j frame : encode_message j = Ok frame →
  ∃ payload, json_compact j = Ok payload ∧ size payload ≤ kMaxControlMessageBytes ∧ frame = htonl (size payload) ++ payload.
Proof.
  unfold encode_message, mbind, exc_bind. destruct (json_compact j) as [payload|e|]; [|done..].
  destruct (size payload >? _) eqn:Hs; [done|]. intros [= <-]. exists payload. split_and!; [done| |done]. lia.
Qed.
Lemma ntohl_size s : size s ≤ kMaxControlMessageBytes → ntohl (htonl (size s)) = size s.
Proof. intros H. apply ntohl_htonl. unfold kMaxControlMessageBytes in H. pose proof (size_nonneg s). lia. Qed.
Lemma decode_encoded j frame : compact_reparses → encode_message j = Ok frame → decode_message parse_error frame = Ok j.
Proof.
  intros Hre (payload & Hp & Hs & ->)%encode_frame. unfold decode_message. rewrite size_app. change (size (htonl (size payload))) with 4.
  pose proof (size_nonneg payload). rewrite (proj2 (Z.ltb_ge _ _)) by lia.
  change (take 4 (htonl (size payload) ++ payload)) with (htonl (size payload)). change (drop 4 (htonl (size payload) ++ payload)) with payload.
  rewrite ntohl_size by done. destruct (size payload >? _) eqn:Hg; [lia|]. rewrite Z.eqb_refl. cbn [negb]. by rewrite (Hre j payload).
Qed.

(** ** A connection

    What has arrived and was not read, what was sent, and what was printed.  A
    send may take part of the text and a read may get part of what there is; a
    failed write to the output may have printed part of the text. *)
Class ConnectionLaws (W : Type) `{IO : !ControlIO W} := {
  incoming : W → cstring;
  outgoing : W → cstring;
  printed : W → cstring;
  same (w w' : W) : Prop := incoming w' = incoming w ∧ outgoing w' = outgoing w ∧ printed w' = printed w;
  connect_law path w : same w (c_connect path w).2;
  poll_law events t w : same w (c_poll events t w).2;
  close_law w : outgoing (c_close w) = outgoing w ∧ printed (c_close w) = printed w;
  send_law data w : match c_send data w with
    | (Some n, w') => (n ≤ length data)%nat ∧ incoming w' = incoming w ∧ outgoing w' = outgoing w ++ take n data ∧ printed w' = printed w
    | (None, w') => same w w'
    end;
  recv_law n w : match c_recv n w with
    | (Some s, w') => (length s ≤ n)%nat ∧ incoming w = s ++ incoming w' ∧ outgoing w' = outgoing w ∧ printed w' = printed w
    | (None, w') => same w w'
    end;
  out_law text w : match out_write text w with
    | (true, w') => incoming w' = incoming w ∧ outgoing w' = outgoing w ∧ printed w' = printed w ++ text
    | (false, w') => incoming w' = incoming w ∧ outgoing w' = outgoing w ∧ ∃ part, part `prefix_of` text ∧ printed w' = printed w ++ part
    end;
}.

Section connection.
Context {W : Type} `{IO : !ControlIO W} `{CL : !ConnectionLaws W}.

Definition protocol_error (e : exn) : Prop := ∃ m, e = ControlProtocolError m.

Lemma wait_for_run events t w : match wait_for events t w with
  | (Ok _, w') => same w w' | (Throw e, w') => same w w' ∧ protocol_error e | (Undefined, _) => False end.
Proof.
  unfold wait_for, fail. pose proof (poll_law events t w) as H. destruct (c_poll events t w) as [[| |r] w']; cbn in *; [split; [done|by eexists]..|].
  destruct (_ && _); [|done]. split; [done|by eexists].
Qed.

Lemma read_loop_run t : ∀ fuel missing received w, (missing ≤ fuel)%nat → match read_loop t fuel missing received w with
  | (Ok s, w') => ∃ s', s = received ++ s' ∧ length s' = missing ∧ incoming w = s' ++ incoming w' ∧ outgoing w' = outgoing w ∧ printed w' = printed w
  | (Throw e, w') => protocol_error e ∧ printed w' = printed w
  | (Undefined, _) => False
  end.
Proof.
  induction fuel as [|fuel IH]; intros missing received w Hf.
  { assert (missing = 0%nat) as -> by lia. cbn. exists []. by rewrite app_nil_r. }
  destruct missing as [|k]; [cbn; exists []; by rewrite app_nil_r|].
  cbn [read_loop]. unfold mbind, stexc_bind. pose proof (wait_for_run POLLIN t w) as Hw.
  destruct (wait_for POLLIN t w) as [[[]|e|] w1]; [|destruct Hw as [(_ & _ & Hp) He]; done|done].
  destruct Hw as (Hi & Ho & Hp). pose proof (recv_law (S k) w1) as Hr.
  destruct (c_recv (S k) w1) as [[[|c s]|] w2]; [| |].
  - destruct Hr as (_ & Hi2 & Ho2 & Hp2). unfold fail. cbn. split; [by eexists|]. by rewrite Hp2.
  - destruct Hr as (Hl & Hi2 & Ho2 & Hp2). specialize (IH (S k - length (c :: s))%nat (received ++ c :: s) w2 ltac:(cbn [length] in *; lia)).
    destruct (read_loop _ _ _ _ _) as [[x|e|] w3]; [|split; [apply IH|]; destruct IH as [_ ->]; by rewrite Hp2|done].
    destruct IH as (s' & -> & Hl' & Hi3 & Ho3 & Hp3). exists ((c :: s) ++ s'). rewrite <-!app_assoc. split_and!; [done| |..].
    + rewrite length_app, Hl'. lia.
    + by rewrite <-Hi, Hi2, Hi3.
    + by rewrite Ho3, Ho2.
    + by rewrite Hp3, Hp2.
  - destruct Hr as (Hi2 & Ho2 & Hp2). unfold fail. cbn. split; [by eexists|]. by rewrite Hp2.
Qed.
Lemma read_exact_run n t w : match read_exact n t w with
  | (Ok s, w') => length s = n ∧ incoming w = s ++ incoming w' ∧ outgoing w' = outgoing w ∧ printed w' = printed w
  | (Throw e, w') => protocol_error e ∧ printed w' = printed w
  | (Undefined, _) => False
  end.
Proof.
  unfold read_exact. pose proof (read_loop_run t n n [] w ltac:(lia)) as H. destruct (read_loop t n n [] w) as [[s|e|] w']; [|done..].
  by destruct H as (s' & -> & H).
Qed.

(** *** Sending *)

(** Nothing can be sent any more *)
Definition refused (o : option nat) : Prop := match o with Some (S _) => False | _ => True end.
Definition stuck (w : W) : Prop := ∀ data, data ≠ [] → refused (c_send data w).1.

Lemma send_loop_run (wait : stexc W unit) failed :
  (∀ w, match wait w with (Ok _, w') => same w w' | (Throw e, w') => same w w' ∧ protocol_error e | (Undefined, _) => False end) →
  ∀ fuel rest w, (length rest ≤ fuel)%nat → match send_loop wait failed fuel rest w with
  | (Ok _, w') => incoming w' = incoming w ∧ outgoing w' = outgoing w ++ rest ∧ printed w' = printed w
  | (Throw e, w') => protocol_error e ∧ incoming w' = incoming w ∧ printed w' = printed w ∧
      ∃ sent, sent `prefix_of` rest ∧ sent ≠ rest ∧ outgoing w' = outgoing w ++ sent
  | (Undefined, _) => False
  end.
Proof.
  intros Hwait. induction fuel as [|fuel IH]; intros rest w Hf.
  { destruct rest; [|cbn in Hf; lia]. cbn. by rewrite app_nil_r. }
  destruct rest as [|c rest]; [cbn; by rewrite app_nil_r|]. cbn [send_loop]. unfold mbind, stexc_bind.
  specialize (Hwait w). destruct (wait w) as [[[]|e|] w1]; [| |done].
  2: { destruct Hwait as [(Hi & Ho & Hp) He]. split_and!; [done..|]. exists []. split_and!; [apply prefix_nil|done|by rewrite app_nil_r]. }
  destruct Hwait as (Hi & Ho & Hp). pose proof (send_law (c :: rest) w1) as Hs.
  assert (Hfail : ∀ w2 m, same w1 w2 → match fail (A := unit) m w2 with
    | (Ok _, w') => incoming w' = incoming w ∧ outgoing w' = outgoing w ++ c :: rest ∧ printed w' = printed w
    | (Throw e, w') => protocol_error e ∧ incoming w' = incoming w ∧ printed w' = printed w ∧
        ∃ sent, sent `prefix_of` c :: rest ∧ sent ≠ c :: rest ∧ outgoing w' = outgoing w ++ sent
    | (Undefined, _) => False end).
  { intros w2 m (Hi2 & Ho2 & Hp2). cbn. split_and!; [by eexists|congruence..|]. exists [].
    split_and!; [apply prefix_nil|done|rewrite app_nil_r; congruence]. }
  destruct (c_send (c :: rest) w1) as [[[|n]|] w2]; [|..|by apply Hfail].
  - apply Hfail. destruct Hs as (_ & Hi2 & Ho2 & Hp2). split_and!; [done| |done]. by rewrite app_nil_r in Ho2.
  - destruct Hs as (Hn & Hi2 & Ho2 & Hp2). cbn [length] in *. specialize (IH (drop (S n) (c :: rest)) w2 ltac:(rewrite length_drop; cbn; lia)).
    destruct (send_loop _ _ _ _ _) as [[[]|e|] w3]; [| |done].
    + destruct IH as (Hi3 & Ho3 & Hp3). split_and!; [congruence| |congruence]. rewrite Ho3, Ho2, Ho, <-app_assoc. f_equal. apply take_drop.
    + destruct IH as (He & Hi3 & Hp3 & sent & Hpre & Hne & Ho3). split_and!; [done|congruence..|].
      exists (take (S n) (c :: rest) ++ sent). rewrite Ho3, Ho2, Ho, <-app_assoc. split_and!; [| |done].
      * rewrite <-(take_drop (S n) (c :: rest)) at 2. by apply prefix_app.
      * intros Heq. apply Hne. rewrite <-(take_drop (S n) (c :: rest)) in Heq at 2. by apply app_inv_head in Heq.
Qed.
Lemma send_all_run data w : match send_all data w with
  | (Ok _, w') => incoming w' = incoming w ∧ outgoing w' = outgoing w ++ data ∧ printed w' = printed w
  | (Throw e, w') => protocol_error e ∧ incoming w' = incoming w ∧ printed w' = printed w ∧
      ∃ sent, sent `prefix_of` data ∧ sent ≠ data ∧ outgoing w' = outgoing w ++ sent
  | (Undefined, _) => False
  end.
Proof. by apply send_loop_run. Qed.
Lemma write_all_run data t w : match write_all data t w with
  | (Ok _, w') => incoming w' = incoming w ∧ printed w' = printed w
  | (Throw e, w') => protocol_error e ∧ printed w' = printed w
  | (Undefined, _) => False
  end.
Proof.
  pose proof (send_loop_run (wait_for POLLOUT t) "control socket write failed: " (wait_for_run POLLOUT t) (length data) data w ltac:(lia)) as H.
  unfold write_all. destruct (send_loop _ _ _ _ _) as [[[]|e|] w']; [|..]; naive_solver.
Qed.

(** *** Copying a stream *)

Definition frame_of (c : cstring) : cstring := htonl (size c) ++ c.
Definition chunk_ok (c : cstring) : Prop := 0 < size c ≤ kResolverStreamChunkBytes.
Definition stream_bytes (chunks : list cstring) : cstring := concat (frame_of <$> chunks) ++ htonl 0.

Lemma ntohl_chunk c : chunk_ok c → ntohl (htonl (size c)) = size c.
Proof. unfold chunk_ok, kResolverStreamChunkBytes. intros. apply ntohl_htonl. lia. Qed.

(** What arrives is a beginning of a stream: the text that is printed is a
    beginning of its text, and the copy succeeds only when everything arrived. *)
Lemma copy_chunks_run t : ∀ chunks fuel active w lost, Forall chunk_ok chunks → (length chunks < fuel)%nat →
  incoming w ++ lost = stream_bytes chunks →
  match copy_chunks t fuel active w with
  | (Ok (inr _), w') => lost = [] ∧ printed w' = printed w ++ concat chunks
  | (Ok (inl e), w') => ∃ text, printed w' = printed w ++ text ∧ text `prefix_of` concat chunks ∧
      (active_bytes_streamed e = true → active = true ∨ text ≠ []) ∧
      (active_bytes_streamed e = false → active = false ∧ (text = [] ∨ stream_what e = "stdout_error"))
  | _ => False
  end.
Proof.
  induction chunks as [|c chunks IH]; intros fuel active w lost Hok Hfuel Hin; (destruct fuel as [|fuel]; [lia|]);
    cbn [copy_chunks]; unfold copy_chunk, converting, mbind, stexc_bind; pose proof (read_exact_run 4 t w) as Hr;
    destruct (read_exact 4 t w) as [[hdr|e|] w1]; try done.
  (* A helper for the protocol errors *)
  all: try (destruct Hr as [[m ->] Hp]; exists []; rewrite app_nil_r; cbn; split_and!; [done|apply prefix_nil|intros ->; by left|by intros ->; split; [|left]]).
  - destruct Hr as (Hl & Hi & _ & Hp). rewrite Hi in Hin. unfold stream_bytes in Hin. cbn [fmap list_fmap concat app] in Hin.
    rewrite <-app_assoc in Hin. rewrite <-(app_nil_r (htonl 0)) in Hin. apply app_inj_1 in Hin as [-> Hin]; [|done].
    apply app_nil in Hin as [_ ->]. cbn. by rewrite app_nil_r.
  - destruct Hr as (Hl & Hi & _ & Hp). apply Forall_cons in Hok as [Hc Hok]. rewrite Hi in Hin. unfold stream_bytes in Hin.
    cbn [fmap list_fmap concat] in Hin. unfold frame_of at 1 in Hin. rewrite <-!app_assoc in Hin. apply app_inj_1 in Hin as [-> Hin]; [|done].
    rewrite ntohl_chunk by done. unfold chunk_ok in Hc. destruct (size c =? 0) eqn:Hz; [lia|]. destruct (size c >? _) eqn:Hg; [lia|].
    pose proof (read_exact_run (Z.to_nat (size c)) t w1) as Hr2. destruct (read_exact (Z.to_nat (size c)) t w1) as [[x|e|] w2]; [| |done].
    2: { destruct Hr2 as [[m ->] Hp2]. exists []. rewrite app_nil_r. cbn. split_and!; [congruence|apply prefix_nil|intros ->; by left|by intros ->; split; [|left]]. }
    destruct Hr2 as (Hl2 & Hi2 & _ & Hp2). rewrite Hi2, <-app_assoc in Hin. apply app_inj_1 in Hin as [-> Hin]; [|unfold size in Hl2; lia].
    pose proof (out_law c w2) as Ho. destruct (out_write c w2) as [[] w3].
    + destruct Ho as (Hi3 & _ & Hp3). specialize (IH fuel true w3 lost Hok ltac:(cbn in Hfuel; lia)). rewrite Hi3 in IH. specialize (IH Hin).
      destruct (copy_chunks t fuel true w3) as [[[e|[]]|e|] w4]; try done.
      * destruct IH as (text & Hp4 & Hpre & Ha & Hb). exists (c ++ text). split_and!.
        -- rewrite Hp4, Hp3, Hp2, Hp. by rewrite <-app_assoc.
        -- cbn [concat]. by apply prefix_app.
        -- intros _. right. intros [-> _]%app_nil. unfold size in Hc. cbn in Hc. lia.
        -- intros He. by destruct (Hb He).
      * destruct IH as [-> Hp4]. split; [done|]. rewrite Hp4, Hp3, Hp2, Hp. cbn [concat]. by rewrite <-app_assoc.
    + destruct Ho as (_ & _ & part & Hpre & Hp3). exists part. rewrite Hp3, Hp2, Hp. split_and!; [done| |cbn; by left|cbn; intros ->; split; [done|by right]].
      cbn [concat]. by apply prefix_app_r.
Qed.

Definition copied (w w' : W) (chunks : list cstring) (e : ControlStreamError) : Prop :=
  ∃ text, printed w' = printed w ++ text ∧ text `prefix_of` concat chunks ∧ (active_bytes_streamed e = true → text ≠ []) ∧
    (active_bytes_streamed e = false → text = [] ∨ stream_what e = "stdout_error").
Lemma copied_none w w' chunks m : printed w' = printed w → copied w w' chunks (mk_StreamError m false).
Proof. intros H. exists []. rewrite app_nil_r. split_and!; [done|apply prefix_nil|done|by left]. Qed.

Lemma read_envelope_run t w lost header hdr rest : compact_reparses → encode_message header = Ok hdr → incoming w ++ lost = hdr ++ rest →
  match read_response_envelope parse_error t w with
  | (Ok j, w') => j = header ∧ incoming w' ++ lost = rest ∧ printed w' = printed w
  | (Throw e, w') => protocol_error e ∧ printed w' = printed w
  | (Undefined, _) => False
  end.
Proof.
  intros Hre Henc Hin. pose proof (decode_encoded header hdr Hre Henc) as Hdec.
  apply encode_frame in Henc as (payload & _ & Hs & ->). unfold read_response_envelope, mbind, stexc_bind.
  pose proof (read_exact_run 4 t w) as Hr. destruct (read_exact 4 t w) as [[h|e|] w1]; [|done..]. destruct Hr as (Hl & Hi & _ & Hp).
  rewrite Hi, <-!app_assoc in Hin. apply app_inj_1 in Hin as [-> Hin]; [|done]. rewrite ntohl_size by done.
  destruct (size payload >? _) eqn:Hg; [lia|]. pose proof (read_exact_run (Z.to_nat (size payload)) t w1) as Hr2.
  destruct (read_exact (Z.to_nat (size payload)) t w1) as [[x|e|] w2]; [| |done].
  - destruct Hr2 as (Hl2 & Hi2 & _ & Hp2). rewrite Hi2, <-app_assoc in Hin. apply app_inj_1 in Hin as [-> Hin]; [|unfold size in Hl2; lia].
    unfold of_exc_at. rewrite Hdec. split_and!; [done..|congruence].
  - destruct Hr2 as [He Hp2]. split; [done|congruence].
Qed.

Lemma header_values id : value_bool "ok" false (stream_header id) = Ok true ∧ value_bool "stream" false (stream_header id) = Ok true.
Proof. split; reflexivity. Qed.

Lemma stream_client_run fuel path request frame t w lost id hdr chunks : compact_reparses →
  validate_request_envelope float_equal request = Ok tt → encode_message request = Ok frame →
  encode_message (stream_header id) = Ok hdr → Forall chunk_ok chunks → (length chunks < fuel)%nat →
  incoming w ++ lost = hdr ++ stream_bytes chunks →
  match stream_control float_equal parse_error fuel path request t w with
  | (Ok (inr _), w') => lost = [] ∧ printed w' = printed w ++ concat chunks
  | (Ok (inl e), w') => copied w w' chunks e
  | _ => False
  end.
Proof.
  intros Hre Hval Hfr Henc Hok Hfuel Hin. unfold stream_control, of_exc_at, mbind, stexc_bind at 1. rewrite Hval. unfold stexc_bind at 1.
  unfold converting at 1, connect_control_socket at 1, mbind, stexc_bind at 1. destruct (size path >=? sun_path_size); [by apply copied_none|].
  pose proof (connect_law path w) as Hc. destruct (c_connect path w) as [[| |] w1]; cbn [fail throw snd] in *.
  { by apply copied_none, Hc. }
  { apply copied_none. destruct (close_law w1) as [_ ->]. apply Hc. }
  destruct Hc as (Hi1 & _ & Hp1). unfold mret, stexc_ret. cbn iota. unfold stexc_bind at 1, try_catch_all at 1, stexc_bind at 1, converting.
  unfold start_stream, of_exc_at, mbind, stexc_bind. rewrite Hfr. pose proof (write_all_run frame t w1) as Hw.
  destruct (write_all frame t w1) as [[[]|e|] w2]; [| |done].
  2: { destruct Hw as [[m ->] Hp2]. cbn. apply copied_none. destruct (close_law w2) as [_ ->]. congruence. }
  destruct Hw as [Hi2 Hp2]. rewrite <-Hi1, <-Hi2 in Hin. pose proof (read_envelope_run t w2 lost _ hdr _ Hre Henc Hin) as He.
  destruct (read_response_envelope parse_error t w2) as [[j|e|] w3]; [| |done].
  2: { destruct He as [[m ->] Hp3]. cbn. apply copied_none. destruct (close_law w3) as [_ ->]. congruence. }
  destruct He as (-> & Hi3 & Hp3). destruct (header_values id) as [-> ->]. cbn.
  pose proof (copy_chunks_run t chunks fuel false w3 lost Hok Hfuel Hi3) as Hcp.
  destruct (copy_chunks t fuel false w3) as [[[e|[]]|e|] w4]; try done; cbn; destruct (close_law w4) as [_ Hcl].
  - destruct Hcp as (text & Hp4 & Hpre & Ha & Hb). exists text. split_and!; [congruence|done| |].
    + intros Hf. by destruct (Ha Hf).
    + intros Hf. by destruct (Hb Hf).
  - destruct Hcp as [-> Hp4]. split; [done|congruence].
Qed.

(** *** Serving a stream *)

(** A connection that has failed once does not come back. *)
Definition stays_down : Prop := ∀ data w, data ≠ [] → refused (c_send data w).1 → stuck (c_send data w).2.

Section serving.
Context (Hdown : stays_down).

Lemma send_loop_stuck failed : ∀ fuel rest w e w', send_loop (mret tt) failed fuel rest w = (Throw e, w') → stuck w'.
Proof.
  induction fuel as [|fuel IH]; intros [|c rest] w e w'; try done. cbn [send_loop]. unfold mbind, stexc_bind, mret, stexc_ret.
  pose proof (Hdown (c :: rest) w ltac:(done)) as Hd. destruct (c_send (c :: rest) w) as [[[|n]|] w1]; cbn in *.
  - intros [= _ <-]. by apply Hd.
  - apply IH.
  - intros [= _ <-]. by apply Hd.
Qed.
Lemma send_all_stuck data w e w' : send_all data w = (Throw e, w') → stuck w'.
Proof. apply send_loop_stuck. Qed.
Lemma stuck_send_all data w : stuck w → data ≠ [] → ∃ e w', send_all data w = (Throw e, w') ∧ outgoing w' = outgoing w ∧ stuck w'.
Proof.
  intros Hs Hd. destruct data as [|c data]; [done|]. unfold send_all. cbn [length send_loop]. unfold mbind, stexc_bind, mret, stexc_ret.
  pose proof (Hs (c :: data) ltac:(done)) as Hr. pose proof (Hdown (c :: data) w ltac:(done) Hr) as Hs'. pose proof (send_law (c :: data) w) as Hl.
  destruct (c_send (c :: data) w) as [[[|n]|] w1]; cbn in *; [|done|].
  - eexists _, _. split; [done|]. split; [|done]. destruct Hl as (_ & _ & -> & _). apply app_nil_r.
  - eexists _, _. split; [done|]. split; [|done]. apply Hl.
Qed.

(** Frames were sent completely up to part of one; nothing more will be. *)
Definition cut_off (base text : cstring) (w : W) : Prop :=
  stuck w ∧ ∃ chunks next sent, Forall chunk_ok chunks ∧ chunk_ok next ∧ concat chunks ++ next `prefix_of` text ∧
    sent `prefix_of` frame_of next ∧ sent ≠ frame_of next ∧ outgoing w = base ++ concat (frame_of <$> chunks) ++ sent.
Definition flushed (base : cstring) (chunks : list cstring) (w : W) : Prop :=
  Forall chunk_ok chunks ∧ outgoing w = base ++ concat (frame_of <$> chunks).
Definition buffered (base text : cstring) (b : stream_buffer) (w : W) : Prop :=
  if good b then size (pending b) ≤ kResolverStreamChunkBytes ∧ ∃ chunks, flushed base chunks w ∧ concat chunks ++ pending b = text
  else cut_off base text w.

Lemma cut_off_app base text more w : cut_off base text w → cut_off base (text ++ more) w.
Proof.
  intros (Hs & chunks & next & sent & H1 & H2 & H3 & H4). split; [done|]. exists chunks, next, sent. split_and!; try done; [|apply H4..].
  by apply prefix_app_r.
Qed.

Lemma flush_buffer_run base chunks p w : size p ≤ kResolverStreamChunkBytes → flushed base chunks w →
  match flush_buffer p w with
  | (Ok true, w') => ∃ chunks', flushed base chunks' w' ∧ concat chunks' = concat chunks ++ p
  | (Ok false, w') => p ≠ [] ∧ cut_off base (concat chunks ++ p) w'
  | _ => False
  end.
Proof.
  intros Hp [Hc Ho]. unfold flush_buffer. case_bool_decide as Hne; [subst p; exists chunks; by rewrite app_nil_r|].
  assert (Hok : chunk_ok p) by (split; [|done]; destruct p; [done|]; unfold size; cbn; lia).
  assert (Hcut : ∀ w' sent, stuck w' → outgoing w' = outgoing w ++ sent → sent `prefix_of` frame_of p → sent ≠ frame_of p → cut_off base (concat chunks ++ p) w').
  { intros w' sent Hst Ho' Hpre Hns. split; [done|]. exists chunks, p, sent. split_and!; try done. rewrite Ho', Ho. by rewrite <-app_assoc. }
  unfold mbind, stexc_bind. pose proof (send_all_run (htonl (size p)) w) as H1. destruct (send_all (htonl (size p)) w) as [[[]|e|] w1] eqn:E1; [| |done].
  - destruct H1 as (_ & Ho1 & _). pose proof (send_all_run p w1) as H2. destruct (send_all p w1) as [[[]|e|] w2] eqn:E2; [| |done].
    + destruct H2 as (_ & Ho2 & _). exists (chunks ++ [p]). split; [split|].
      * apply Forall_app. split; [done|by apply Forall_singleton].
      * rewrite Ho2, Ho1, Ho, fmap_app, concat_app. cbn. by rewrite app_nil_r, <-!app_assoc.
      * rewrite concat_app. cbn. by rewrite app_nil_r.
    + destruct H2 as (_ & _ & _ & sent & Hpre & Hns & Ho2). split; [done|]. apply (Hcut w2 (htonl (size p) ++ sent)).
      * by eapply send_all_stuck.
      * by rewrite Ho2, Ho1, <-app_assoc.
      * by apply prefix_app.
      * intros Heq. by apply app_inv_head in Heq.
  - destruct H1 as (_ & _ & _ & sent & Hpre & Hns & Ho1). split; [done|]. apply (Hcut w1 sent); [by eapply send_all_stuck|done| |].
    + by apply prefix_app_r.
    + intros ->. destruct Hpre as [k Hk]. apply (f_equal length) in Hk. unfold frame_of in Hk. rewrite !length_app, htonl_length in Hk.
      destruct p; [done|]. cbn in Hk. lia.
Qed.

Lemma stuck_flush p w : stuck w → ∃ w', flush_buffer p w = (Ok (bool_decide (p = [])), w') ∧ outgoing w' = outgoing w ∧ stuck w'.
Proof.
  intros Hs. unfold flush_buffer. case_bool_decide; [by exists w|]. unfold mbind, stexc_bind.
  destruct (stuck_send_all (htonl (size p)) w Hs) as (e & w' & -> & Ho & Hs'); [done|]. by exists w'.
Qed.

Lemma room_size p : size p ≤ kResolverStreamChunkBytes → Z.of_nat (room p) = kResolverStreamChunkBytes - size p.
Proof. unfold room, size. intros. lia. Qed.

Lemma room_empty (x : ascii) rest : let n := room [] in (length (drop n (x :: rest)) ≤ length rest)%nat ∧ size (take n (x :: rest)) ≤ kResolverStreamChunkBytes.
Proof.
  intros n. assert (Hn : Z.of_nat n = kResolverStreamChunkBytes) by (subst n; rewrite room_size; unfold size, kResolverStreamChunkBytes; cbn; lia).
  clearbody n. unfold kResolverStreamChunkBytes in *. unfold size. rewrite length_drop, length_take. cbn [length]. lia.
Qed.

Lemma xsputn_run base : ∀ fuel data p chunks w, (length data ≤ fuel)%nat → size p ≤ kResolverStreamChunkBytes → flushed base chunks w →
  match xsputn fuel data p w with
  | (Ok ([], p'), w') => size p' ≤ kResolverStreamChunkBytes ∧ ∃ chunks', flushed base chunks' w' ∧ concat chunks' ++ p' = concat chunks ++ p ++ data
  | (Ok (_ :: _, p'), w') => cut_off base (concat chunks ++ p ++ data) w'
  | _ => False
  end.
Proof.
  induction fuel as [|fuel IH]; intros data p chunks w Hf Hp Hfl.
  { destruct data; [|cbn in Hf; lia]. cbn. split; [done|]. exists chunks. by rewrite app_nil_r. }
  destruct data as [|c data]; [cbn; split; [done|]; exists chunks; by rewrite app_nil_r|]. cbn [xsputn].
  destruct (Nat.eqb_spec (room p) 0) as [Hr|Hr].
  - pose proof (flush_buffer_run base chunks p w Hp Hfl) as Hfb. destruct (flush_buffer p w) as [[[]|e|] w1]; try done.
    + destruct Hfb as (chunks' & Hfl' & Heq). specialize (IH (drop (room []) (c :: data)) (take (room []) (c :: data)) chunks' w1).
      destruct (room_empty c data) as [Hlen Hsz]. specialize (IH ltac:(cbn [length] in Hf; lia) Hsz Hfl').
      by rewrite take_drop, Heq, <-app_assoc in IH.
    + destruct Hfb as [_ Hcut]. rewrite app_assoc. by apply cut_off_app.
  - specialize (IH (drop (room p) (c :: data)) (p ++ take (room p) (c :: data)) chunks w). rewrite length_drop in IH. cbn [length] in *.
    specialize (IH ltac:(lia)). rewrite <-app_assoc, take_drop in IH. apply IH; [|done].
    rewrite size_app. unfold size at 2. rewrite length_take. pose proof (room_size p Hp). cbn [length]. lia.
Qed.

Lemma write_put_run base text p b w : buffered base text b w →
  match write_put p b w with (Ok b', w') => buffered base (text ++ put_text p) b' w' | _ => False end.
Proof.
  unfold write_put, buffered. destruct (good b) eqn:Hg; cbn [negb].
  2: { intros Hcut. cbn. rewrite Hg. by apply cut_off_app. }
  intros (Hp & chunks & Hfl & Htext). destruct p as [s|c]; cbn [put_text].
  - unfold mbind, stexc_bind. pose proof (xsputn_run base (length s) s (pending b) chunks w ltac:(lia) Hp Hfl) as H.
    destruct (xsputn _ _ _ _) as [[[[|x rest] p']|e|] w']; try done; cbn.
    + destruct H as (Hp' & chunks' & Hfl' & Heq). split; [done|]. exists chunks'. by rewrite Heq, app_assoc, Htext.
    + by rewrite app_assoc, Htext in H.
  - destruct (Nat.eqb_spec (room (pending b)) 0) as [Hr|Hr].
    + unfold mbind, stexc_bind. pose proof (flush_buffer_run base chunks (pending b) w Hp Hfl) as H.
      destruct (flush_buffer _ _) as [[[]|e|] w']; try done; cbn.
      * destruct H as (chunks' & Hfl' & Heq). split; [unfold size, kResolverStreamChunkBytes; cbn; lia|]. exists chunks'. by rewrite Heq, Htext.
      * destruct H as [_ H]. rewrite Htext in H. by apply cut_off_app.
    + cbn. split.
      * pose proof (room_size (pending b) Hp). rewrite size_app. unfold size at 2. cbn [length]. lia.
      * exists chunks. by rewrite app_assoc, Htext.
Qed.
Definition text_of (puts : list put) : cstring := concat (put_text <$> puts).
Lemma write_puts_run base : ∀ puts text b w, buffered base text b w →
  match write_puts puts b w with (Ok b', w') => buffered base (text ++ text_of puts) b' w' | _ => False end.
Proof.
  induction puts as [|p puts IH]; intros text b w Hb; [cbn; by rewrite app_nil_r|]. cbn [write_puts]. unfold mbind, stexc_bind.
  pose proof (write_put_run base text p b w Hb) as H. destruct (write_put p b w) as [[b1|e|] w1]; try done.
  specialize (IH _ b1 w1 H). unfold text_of in *. cbn [fmap list_fmap concat]. by rewrite <-app_assoc in IH.
Qed.

(** Part of a stream whose text is a beginning of [text] was sent. *)
Definition partial (base text : cstring) (w : W) : Prop :=
  ∃ chunks sent, Forall chunk_ok chunks ∧ concat chunks `prefix_of` text ∧ sent `prefix_of` stream_bytes chunks ∧ sent ≠ stream_bytes chunks ∧
    outgoing w = base ++ sent.
Lemma strict_prefix_length (s t : cstring) : s `prefix_of` t → s ≠ t → (length s < length t)%nat.
Proof.
  intros [k ->] Hne. rewrite length_app. destruct k; [by rewrite app_nil_r in Hne|]. cbn. lia.
Qed.
Lemma cut_off_partial base text w : cut_off base text w → partial base text w.
Proof.
  intros (_ & chunks & next & sent & Hok & Hn & Hpre & Hs & Hne & Ho). exists (chunks ++ [next]), (concat (frame_of <$> chunks) ++ sent).
  assert (Hb : stream_bytes (chunks ++ [next]) = concat (frame_of <$> chunks) ++ frame_of next ++ htonl 0).
  { unfold stream_bytes. rewrite fmap_app, concat_app. cbn. by rewrite app_nil_r, <-app_assoc. }
  split_and!; [apply Forall_app; split; [done|by apply Forall_singleton]|rewrite concat_app; cbn; by rewrite app_nil_r| | |done].
  - rewrite Hb. by apply prefix_app, prefix_app_r.
  - rewrite Hb. intros Heq. apply app_inv_head in Heq. apply strict_prefix_length in Hs; [|done]. subst sent. rewrite length_app in Hs. lia.
Qed.
Lemma flushed_partial base text chunks sent w : Forall chunk_ok chunks → concat chunks `prefix_of` text → sent `prefix_of` htonl 0 → sent ≠ htonl 0 →
  outgoing w = base ++ concat (frame_of <$> chunks) ++ sent → partial base text w.
Proof.
  intros Hok Hpre Hs Hne Ho. exists chunks, (concat (frame_of <$> chunks) ++ sent). split_and!; [done..| | |done].
  - unfold stream_bytes. by apply prefix_app.
  - unfold stream_bytes. intros Heq. by apply app_inv_head in Heq.
Qed.
Lemma stuck_sync b w : stuck w → ∃ b' w', sync b w = (Ok b', w') ∧ outgoing w' = outgoing w.
Proof.
  intros Hs. unfold sync, mbind, stexc_bind. destruct (stuck_flush (pending b) w Hs) as (w' & -> & Ho & _). by eexists _, w'.
Qed.
Lemma cut_off_same base text w w' : cut_off base text w → outgoing w' = outgoing w → partial base text w'.
Proof. intros H Ho. apply cut_off_partial in H as (c & t & H). exists c, t. by rewrite Ho. Qed.

Lemma stream_body_run puts error w : match stream_body puts error w with
  | (Ok _, w') => error = None ∧ ∃ chunks, Forall chunk_ok chunks ∧ concat chunks = text_of puts ∧ outgoing w' = outgoing w ++ stream_bytes chunks
  | (Throw e, w') => partial (outgoing w) (text_of puts) w' ∧ (error = Some e ∨ protocol_error e)
  | (Undefined, _) => False
  end.
Proof.
  unfold stream_body, mbind, stexc_bind. set (base := outgoing w).
  assert (Hb0 : buffered base [] (mk_buffer [] true) w).
  { split; [done|]. exists []. split; [split; [done|by rewrite app_nil_r]|done]. }
  pose proof (write_puts_run base puts [] _ w Hb0) as H. destruct (write_puts puts _ w) as [[b|e|] w1]; try done. cbn [app] in H. clear Hb0.
  unfold buffered in H. destruct (good b) eqn:Hg.
  - destruct H as (Hp & chunks & Hfl & Htext). pose proof (flush_buffer_run base chunks (pending b) w1 Hp Hfl) as Hfb. rewrite Htext in Hfb.
    destruct error as [e|].
    + unfold sync at 1, mbind, stexc_bind. destruct (flush_buffer (pending b) w1) as [[[]|?|] w2]; try done; cbn.
      * destruct Hfb as (chunks' & [Hok Ho] & Heq). split; [|by left]. apply (flushed_partial base _ chunks' []); [done|by rewrite Heq|apply prefix_nil|done|].
        by rewrite app_nil_r.
      * split; [|by left]. by apply cut_off_partial, Hfb.
    + unfold flush at 1. rewrite Hg. cbn [negb]. unfold sync at 1, mbind, stexc_bind. destruct (flush_buffer (pending b) w1) as [[[]|?|] w2]; try done; cbn [mret stexc_ret].
      * destruct Hfb as (chunks' & [Hok Ho] & Heq). unfold try_catch_all. pose proof (send_all_run (htonl 0) w2) as Hs.
        destruct (send_all (htonl 0) w2) as [[[]|e|] w3]; [| |done].
        -- destruct Hs as (_ & Ho3 & _). cbn. split; [done|]. exists chunks'. split_and!; [done..|]. rewrite Ho3, Ho. unfold stream_bytes. by rewrite <-app_assoc.
        -- destruct Hs as (He & _ & _ & sent & Hpre & Hne & Ho3). cbn. split; [|by right].
           apply (flushed_partial base _ chunks' sent); [done|by rewrite Heq|done..|]. rewrite Ho3, Ho. by rewrite <-app_assoc.
      * destruct Hfb as [_ Hcut]. unfold try_catch_all. destruct (stuck_send_all (htonl 0) w2 (proj1 Hcut)) as (e & w3 & Hsend & Ho3 & Hst3); [done|].
        rewrite Hsend. destruct (stuck_sync (mk_buffer (pending b) false) w3 Hst3) as (b' & w4 & -> & Ho4). cbn. split; [|].
        -- apply (cut_off_same base _ w2); [done|congruence].
        -- right. pose proof (send_all_run (htonl 0) w2) as Hr. rewrite Hsend in Hr. apply Hr.
  - destruct error as [e|].
    + destruct (stuck_sync b w1 (proj1 H)) as (b' & w2 & -> & Ho). cbn. split; [|by left]. by apply (cut_off_same base _ w1).
    + unfold flush at 1. rewrite Hg. cbn [negb mret stexc_ret]. unfold try_catch_all.
      destruct (stuck_send_all (htonl 0) w1 (proj1 H)) as (e & w3 & Hsend & Ho3 & Hst3); [done|].
      rewrite Hsend. destruct (stuck_sync b w3 Hst3) as (b' & w4 & -> & Ho4). cbn. split.
      * apply (cut_off_same base _ w1); [done|congruence].
      * right. pose proof (send_all_run (htonl 0) w1) as Hr. rewrite Hsend in Hr. apply Hr.
Qed.

(** A beginning of a stream was sent, and all of it exactly when it counts as completed. *)
Definition sent_part (hdr : cstring) (puts : list put) (error : option exn) (w : W) (r : exc bool) (w' : W) : Prop :=
  ∃ chunks sent, Forall chunk_ok chunks ∧ concat chunks `prefix_of` text_of puts ∧ sent `prefix_of` hdr ++ stream_bytes chunks ∧
    outgoing w' = outgoing w ++ sent ∧
    (sent = hdr ++ stream_bytes chunks → r = Ok true ∧ error = None ∧ concat chunks = text_of puts) ∧
    (r = Ok true → sent = hdr ++ stream_bytes chunks).
Lemma sent_strict hdr puts error w r w' chunks sent : Forall chunk_ok chunks → concat chunks `prefix_of` text_of puts →
  sent `prefix_of` hdr ++ stream_bytes chunks → sent ≠ hdr ++ stream_bytes chunks → outgoing w' = outgoing w ++ sent → r ≠ Ok true →
  sent_part hdr puts error w r w'.
Proof. intros. by exists chunks, sent. Qed.

Lemma serve_stream_run id hdr puts error w : encode_message (stream_header id) = Ok hdr →
  let '(r, w') := serve_stream id puts error w in sent_part hdr puts error w r w'.
Proof.
  intros Henc. unfold serve_stream, of_exc_at, mbind, stexc_bind. rewrite Henc. clear Henc. pose proof (send_all_run hdr w) as Hs.
  destruct (send_all hdr w) as [[[]|e|] w1] eqn:Esend; [| |done].
  - destruct Hs as (_ & Ho1 & _). pose proof (stream_body_run puts error w1) as Hb. destruct (stream_body puts error w1) as [[[]|e|] w2]; [| |done].
    + destruct Hb as (-> & chunks & Hok & Htext & Ho2). exists chunks, (hdr ++ stream_bytes chunks). destruct (close_law w2) as [-> _].
      split_and!; [done|by rewrite Htext|done|by rewrite Ho2, Ho1, <-app_assoc|done..].
    + destruct Hb as [(chunks & sent & Hok & Hpre & Hsent & Hne & Ho2) _]. destruct (what e).
      all: apply (sent_strict hdr puts error w _ _ chunks (hdr ++ sent)); [done..|by apply prefix_app|by intros Heq%app_inv_head| |done].
      * destruct (close_law w2) as [-> _]. by rewrite Ho2, Ho1, <-app_assoc.
      * by rewrite Ho2, Ho1, <-app_assoc.
  - destruct Hs as (_ & _ & _ & sent & Hpre & Hne & Ho1). pose proof (send_all_stuck _ _ _ _ Esend) as Hst.
    assert (H : ∀ r w3, outgoing w3 = outgoing w1 → r ≠ Ok true → sent_part hdr puts error w r w3).
    { intros r w3 Ho3 Hr. apply (sent_strict hdr puts error w r w3 [] sent); [done|apply prefix_nil|by apply prefix_app_r| |congruence|done].
      intros ->. apply strict_prefix_length in Hpre; [|done]. rewrite length_app in Hpre. lia. }
    destruct (what e) as [m|]; [|by apply H]. destruct (encode_message _) as [fr|e'|] eqn:Efr; [|apply H; [apply close_law|done]..].
    apply encode_frame in Efr as (payload & _ & _ & Efr). apply H; [|done]. destruct (close_law (c_send fr w1).2) as [-> _]. pose proof (send_law fr w1) as Hl. specialize (Hst fr ltac:(by rewrite Efr)). clear Efr.
    destruct (c_send fr w1) as [[[|n]|] w2]; cbn in *; [|done|apply Hl]. destruct Hl as (_ & _ & -> & _). apply app_nil_r.
Qed.
End serving.

(** *** Nothing fails *)

Definition never_fails : Prop :=
  (∀ path w, (c_connect path w).1 = Connected) ∧
  (∀ events t w, ∃ r, (c_poll events t w).1 = PollEvents r ∧ Z.land r POLL_FAULTS = 0) ∧
  (∀ data w, data ≠ [] → ∃ n, (c_send data w).1 = Some (S n)) ∧
  (∀ n w, incoming w ≠ [] → ∃ c s, (c_recv (S n) w).1 = Some (c :: s)) ∧
  (∀ text w, (out_write text w).1 = true).

Section reliable.
Context (Hrel : never_fails).

Lemma wait_for_Ok events t w : ∃ w', wait_for events t w = (Ok tt, w').
Proof.
  unfold wait_for. destruct (proj1 (proj2 Hrel) events t w) as (r & H & Hf). destruct (c_poll events t w) as [o w']. cbn in H. subst o.
  rewrite Hf. cbn [negb Z.eqb]. rewrite andb_false_r. by eexists.
Qed.
Lemma send_loop_Ok (wait : stexc W unit) failed : (∀ w, ∃ w', wait w = (Ok tt, w')) →
  ∀ fuel rest w, (length rest ≤ fuel)%nat → ∃ w', send_loop wait failed fuel rest w = (Ok tt, w').
Proof.
  intros Hwait. induction fuel as [|fuel IH]; intros [|c rest] w Hf; cbn in Hf; try lia; try by eexists.
  cbn [send_loop]. unfold mbind, stexc_bind. destruct (Hwait w) as [w1 ->].
  destruct (proj1 (proj2 (proj2 Hrel)) (c :: rest) w1) as [n Hn]; [done|]. destruct (c_send (c :: rest) w1) as [o w2]. cbn in Hn. subst o.
  apply IH. rewrite length_drop. cbn [length]. lia.
Qed.
Lemma read_loop_Ok t : ∀ fuel missing received w, (missing ≤ fuel)%nat → (missing ≤ length (incoming w))%nat →
  ∃ s w', read_loop t fuel missing received w = (Ok s, w').
Proof.
  induction fuel as [|fuel IH]; intros [|k] received w Hf Hl; try lia; try by eexists _, _.
  cbn [read_loop]. unfold mbind, stexc_bind. destruct (wait_for_Ok POLLIN t w) as [w1 Hw]. pose proof (wait_for_run POLLIN t w) as Hsame. rewrite Hw in *.
  destruct Hsame as (Hi & _). destruct (proj1 (proj2 (proj2 (proj2 Hrel))) k w1) as (c & s & Hr); [rewrite Hi; intros Hn; rewrite Hn in Hl; cbn in Hl; lia|].
  pose proof (recv_law (S k) w1) as Hlaw. destruct (c_recv (S k) w1) as [o w2]. cbn in Hr. subst o. destruct Hlaw as (Hle & Hi2 & _).
  cbn [length] in *. apply IH; [lia|]. rewrite <-Hi, Hi2, length_app in Hl. cbn [length] in Hl. lia.
Qed.
Lemma read_exact_Ok n t w : (n ≤ length (incoming w))%nat → ∃ s w', read_exact n t w = (Ok s, w').
Proof. intros H. by apply read_loop_Ok. Qed.

Lemma copy_chunks_Ok t : ∀ chunks fuel active w, Forall chunk_ok chunks → (length chunks < fuel)%nat → incoming w = stream_bytes chunks →
  ∃ w', copy_chunks t fuel active w = (Ok (inr tt), w').
Proof.
  induction chunks as [|c chunks IH]; intros [|fuel] active w Hok Hfuel Hin; try (cbn in Hfuel; lia); cbn [copy_chunks];
    unfold copy_chunk, converting, mbind, stexc_bind; (destruct (read_exact_Ok 4 t w) as (hdr & w1 & Hr);
      [rewrite Hin; unfold stream_bytes; cbn [fmap list_fmap concat frame_of]; rewrite !length_app, ?htonl_length; cbn; lia|]);
    pose proof (read_exact_run 4 t w) as Hrun; rewrite Hr in *; destruct Hrun as (Hl & Hi & _); rewrite Hi in Hin; unfold stream_bytes in Hin;
    cbn [fmap list_fmap concat app] in Hin.
  - rewrite <-(app_nil_r (htonl 0)) in Hin. apply app_inj_1 in Hin as [-> _]; [|done]. by eexists.
  - apply Forall_cons in Hok as [Hc Hok]. unfold frame_of at 1 in Hin. rewrite <-!app_assoc in Hin. apply app_inj_1 in Hin as [-> Hin]; [|done].
    rewrite ntohl_chunk by done. unfold chunk_ok in Hc. destruct (size c =? 0) eqn:Hz; [lia|]. destruct (size c >? _) eqn:Hg; [lia|].
    destruct (read_exact_Ok (Z.to_nat (size c)) t w1) as (x & w2 & Hr2); [rewrite Hin, length_app; unfold size; lia|].
    pose proof (read_exact_run (Z.to_nat (size c)) t w1) as Hrun2. rewrite Hr2 in *. destruct Hrun2 as (Hl2 & Hi2 & _).
    rewrite Hi2 in Hin. apply app_inj_1 in Hin as [-> Hin]; [|unfold size in Hl2; lia].
    pose proof (out_law c w2) as Ho. pose proof (proj2 (proj2 (proj2 (proj2 Hrel))) c w2) as Hgood. destruct (out_write c w2) as [g w3]. cbn in Hgood. subst g.
    destruct Ho as (Hi3 & _). apply IH; [done|cbn in Hfuel; lia|]. by rewrite Hi3.
Qed.

Lemma reliable_stays_down : stays_down.
Proof. intros data w Hd Hr. destruct (proj1 (proj2 (proj2 Hrel)) data w Hd) as [n Hn]. by rewrite Hn in Hr. Qed.
Lemma send_all_Ok data w : ∃ w', send_all data w = (Ok tt, w').
Proof. apply send_loop_Ok; [|lia]. intros w'. by exists w'. Qed.
Lemma flush_buffer_Ok p w : ∃ w', flush_buffer p w = (Ok true, w').
Proof.
  unfold flush_buffer. case_bool_decide; [by eexists|]. unfold mbind, stexc_bind. destruct (send_all_Ok (htonl (size p)) w) as [w1 ->].
  destruct (send_all_Ok p w1) as [w2 ->]. by eexists.
Qed.
Lemma xsputn_Ok : ∀ fuel data p w, match xsputn fuel data p w with (Ok r, _) => r.1 = [] | (Throw _, _) => False | _ => True end.
Proof.
  induction fuel as [|fuel IH]; intros [|c data] p w; try done. cbn [xsputn]. destruct (room p =? 0)%nat; [|apply IH].
  destruct (flush_buffer_Ok p w) as [w1 ->]. apply IH.
Qed.
Lemma write_puts_Ok : ∀ puts b w, good b = true → match write_puts puts b w with (Ok b', _) => good b' = true | (Throw _, _) => False | _ => True end.
Proof.
  induction puts as [|p puts IH]; intros b w Hg; [done|]. cbn [write_puts]. unfold mbind, stexc_bind, write_put. rewrite Hg. cbn [negb]. destruct p as [s|c].
  - unfold mbind, stexc_bind. pose proof (xsputn_Ok (length s) s (pending b) w) as Hx. destruct (xsputn _ _ _ _) as [[r|e|] w']; [|done..].
    apply IH. cbn. by rewrite Hx.
  - destruct (room (pending b) =? 0)%nat; [|by apply IH]. unfold mbind, stexc_bind. destruct (flush_buffer_Ok (pending b) w) as [w1 ->]. by apply IH.
Qed.
Lemma stream_body_Ok puts w e w' : stream_body puts None w ≠ (Throw e, w').
Proof.
  unfold stream_body, mbind, stexc_bind. pose proof (write_puts_Ok puts (mk_buffer [] true) w eq_refl) as H.
  destruct (write_puts puts _ w) as [[b|?|] w1]; [|done..]. unfold flush. rewrite H. cbn [negb]. unfold sync, mbind, stexc_bind.
  destruct (flush_buffer_Ok (pending b) w1) as [w2 ->]. cbn [mret stexc_ret]. unfold try_catch_all. by destruct (send_all_Ok (htonl 0) w2) as [w3 ->].
Qed.
Lemma serve_stream_Ok id hdr puts w : encode_message (stream_header id) = Ok hdr → (serve_stream id puts None w).1 = Ok true.
Proof.
  intros Henc. unfold serve_stream, of_exc_at, mbind, stexc_bind. rewrite Henc. destruct (send_all_Ok hdr w) as [w1 ->].
  pose proof (stream_body_run reliable_stays_down puts None w1) as Hb. destruct (stream_body puts None w1) as [[[]|e|] w2] eqn:E; [done| |done].
  by destruct (stream_body_Ok puts w1 e w2).
Qed.

Lemma read_envelope_Ok t w header hdr rest : compact_reparses → encode_message header = Ok hdr → incoming w = hdr ++ rest →
  ∃ w', read_response_envelope parse_error t w = (Ok header, w') ∧ incoming w' = rest ∧ printed w' = printed w.
Proof.
  intros Hre Henc Hin. assert (Hin' : incoming w ++ [] = hdr ++ rest) by by rewrite app_nil_r.
  pose proof (read_envelope_run t w [] _ hdr _ Hre Henc Hin') as He.
  assert (∃ j w', read_response_envelope parse_error t w = (Ok j, w')) as (j & w' & Hj).
  { pose proof (decode_encoded _ _ Hre Henc) as Hdec. apply encode_frame in Henc as (payload & _ & Hs & ->).
    unfold read_response_envelope, mbind, stexc_bind. destruct (read_exact_Ok 4 t w) as (h & w3 & Hr); [rewrite Hin, !length_app, htonl_length; lia|].
    pose proof (read_exact_run 4 t w) as Hrun. rewrite Hr in *. destruct Hrun as (Hl & Hi & _). rewrite Hi, <-app_assoc in Hin.
    apply app_inj_1 in Hin as [-> Hin]; [|done]. rewrite ntohl_size by done. destruct (size payload >? _) eqn:Hgt; [lia|].
    destruct (read_exact_Ok (Z.to_nat (size payload)) t w3) as (x & w4 & Hr4); [rewrite Hin, length_app; unfold size; lia|].
    pose proof (read_exact_run (Z.to_nat (size payload)) t w3) as Hrun4. rewrite Hr4 in *. destruct Hrun4 as (Hl4 & Hi4 & _). rewrite Hi4 in Hin.
    apply app_inj_1 in Hin as [-> _]; [|unfold size in Hl4; lia]. unfold of_exc_at. rewrite Hdec. by eexists _, _. }
  rewrite Hj in *. destruct He as (-> & Hi & Hp). rewrite app_nil_r in Hi. by exists w'.
Qed.

(** The request goes out and the first envelope comes in. *)
Lemma exchange_Ok path frame t w header hdr rest : compact_reparses → size path < sun_path_size → encode_message header = Ok hdr → incoming w = hdr ++ rest →
  ∃ w1 w2 w3, connect_control_socket path w = (Ok tt, w1) ∧ write_all frame t w1 = (Ok tt, w2) ∧
    read_response_envelope parse_error t w2 = (Ok header, w3) ∧ incoming w3 = rest ∧ printed w3 = printed w.
Proof.
  intros Hre Hpath Henc Hin. unfold connect_control_socket. destruct (size path >=? sun_path_size) eqn:Hg; [lia|].
  pose proof (connect_law path w) as Hc. pose proof (proj1 Hrel path w) as Hcon. destruct (c_connect path w) as [o w1]. cbn in Hcon. subst o.
  destruct Hc as (Hi1 & _ & Hp1). exists w1.
  destruct (send_loop_Ok (wait_for POLLOUT t) "control socket write failed: " (wait_for_Ok POLLOUT t) (length frame) frame w1 ltac:(lia)) as [w2 Hw2].
  exists w2. pose proof (write_all_run frame t w1) as Hw. unfold write_all in *. rewrite Hw2 in *. destruct Hw as (Hi2 & Hp2). cbn [snd] in *.
  destruct (read_envelope_Ok t w2 header hdr rest Hre Henc) as (w3 & Hr & Hi3 & Hp3); [congruence|]. exists w3. split_and!; try done. congruence.
Qed.

Lemma stream_client_Ok fuel path request frame t w id hdr chunks : compact_reparses → size path < sun_path_size →
  validate_request_envelope float_equal request = Ok tt → encode_message request = Ok frame →
  encode_message (stream_header id) = Ok hdr → Forall chunk_ok chunks → (length chunks < fuel)%nat →
  incoming w = hdr ++ stream_bytes chunks → (stream_control float_equal parse_error fuel path request t w).1 = Ok (inr tt).
Proof.
  intros Hre Hpath Hval Hfr Henc Hok Hfuel Hin. destruct (exchange_Ok path frame t w _ hdr _ Hre Hpath Henc Hin) as (w1 & w2 & w3 & H1 & H2 & H3 & Hi3 & _).
  unfold stream_control, converting, start_stream, of_exc_at, mbind, stexc_bind, try_catch_all, mret, stexc_ret. rewrite Hval, H1, Hfr, H2, H3.
  destruct (header_values id) as [-> ->]. cbn [negb]. destruct (copy_chunks_Ok t chunks fuel false w3 Hok Hfuel Hi3) as [w4 ->]. done.
Qed.

(** An answer that is an error becomes the error of the stream, and nothing is printed. *)
Lemma error_values request code message : value_bool "ok" false (make_error_response request code message) = Ok false ∧
  value_json "error" (JObj []) (make_error_response request code message) = Ok (JObj [(str "code", JStr code); (str "message", JStr message)]).
Proof. split; reflexivity. Qed.
Lemma refused_client_Ok fuel path request frame t w hdr code message : compact_reparses → size path < sun_path_size →
  validate_request_envelope float_equal request = Ok tt → encode_message request = Ok frame →
  encode_message (make_error_response request code message) = Ok hdr → incoming w = hdr →
  ∃ w', stream_control float_equal parse_error fuel path request t w = (Ok (inl (mk_StreamError code false)), w') ∧ printed w' = printed w.
Proof.
  intros Hre Hpath Hval Hfr Henc Hin. rewrite <-(app_nil_r hdr) in Hin.
  destruct (exchange_Ok path frame t w _ hdr _ Hre Hpath Henc Hin) as (w1 & w2 & w3 & H1 & H2 & H3 & _ & Hp3).
  unfold stream_control, converting, start_stream, of_exc_at, mbind, stexc_bind, try_catch_all, mret, stexc_ret. rewrite Hval, H1, Hfr, H2, H3.
  destruct (error_values request code message) as [-> ->]. cbn [negb]. eexists. split; [done|]. unfold close_socket. by rewrite (proj2 (close_law w3)).
Qed.
End reliable.
End connection.

(** *** From the daemon to the output *)

Lemma cli_request_valid resolver : validate_request_envelope float_equal (cli_request resolver) = Ok tt.
Proof. reflexivity. Qed.

Lemma chunks_bounded chunks : Forall chunk_ok chunks → (length chunks ≤ length (concat chunks))%nat.
Proof.
  induction 1 as [|c chunks Hc _ IH]; [done|]. cbn [length concat]. rewrite length_app. unfold chunk_ok, size in Hc. lia.
Qed.
Lemma prefix_length_le (s t : cstring) : s `prefix_of` t → (length s ≤ length t)%nat.
Proof. intros [k ->]. rewrite length_app. lia. Qed.

Section end_to_end.
Context {Ws : Type} `{IOs : !ControlIO Ws} `{CLs : !ConnectionLaws Ws} {Wc : Type} `{IOc : !ControlIO Wc} `{CLc : !ConnectionLaws Wc}.
Context (Hre : compact_reparses) (Hdown : stays_down (W := Ws)).
Context (id hdr : cstring) (Henc : encode_message (stream_header id) = Ok hdr).
Context (resolver frame : cstring) (Hfr : encode_message (cli_request resolver) = Ok frame).

(** What the client makes of whatever arrives of a stream *)
Lemma arriving_stream puts error (ws : Ws) r ws' (wc : Wc) lost fuel path t : sent_part hdr puts error ws r ws' →
  outgoing ws' = outgoing ws ++ incoming wc ++ lost → (length (text_of puts) < fuel)%nat →
  match stream_control float_equal parse_error fuel path (cli_request resolver) t wc with
  | (Ok (inr _), wc') => lost = [] ∧ error = None ∧ r = Ok true ∧ printed wc' = printed wc ++ text_of puts
  | (Ok (inl e), wc') => ∃ text, printed wc' = printed wc ++ text ∧ text `prefix_of` text_of puts ∧
      (active_bytes_streamed e = true → text ≠ []) ∧ (active_bytes_streamed e = false → text = [] ∨ stream_what e = "stdout_error")
  | _ => False
  end.
Proof using Hre Henc Hfr.
  intros (chunks & sent & Hok & Htext & Hsent & Ho & Hfull & _) Hin Hfuel. rewrite Ho in Hin. apply app_inv_head in Hin. subst sent.
  destruct Hsent as [k Hk]. assert (Hbytes : incoming wc ++ (lost ++ k) = hdr ++ stream_bytes chunks) by by rewrite app_assoc.
  assert (Hlen : (length chunks < fuel)%nat) by (pose proof (chunks_bounded chunks Hok); pose proof (prefix_length_le _ _ Htext); lia).
  pose proof (stream_client_run fuel path _ frame t wc (lost ++ k) id hdr chunks Hre (cli_request_valid resolver) Hfr Henc Hok Hlen Hbytes) as H.
  destruct (stream_control _ _ _ _ _ _ _) as [[[e|[]]|e|] wc']; try done.
  - destruct H as (text & Hp & Hpre & Ha & Hb). exists text. split_and!; [done|by etrans|done|done].
  - destruct H as [Hlost Hp]. apply app_nil in Hlost as [-> ->]. rewrite app_nil_r in Hk. destruct Hfull as (-> & -> & Htx); [done|].
    by rewrite <-Htx.
Qed.

(** C13. The resolver gets a whole configuration or none, provided that a send of
    the daemon that has failed keeps failing, as on a connection that is broken
    (a send that times out once and then goes on is
    [interrupted_stream_counts_as_whole]), and that the JSON library reads back
    what it prints.  However the bytes of a stream are cut by the two sockets,
    wherever the connection breaks, and whether or not the generator fails: when
    the command succeeds, its output
    is the whole configuration that the daemon wrote, or the fallback alone;
    when it fails, the output is a beginning of one of them.  And when nothing
    fails the command succeeds with the whole configuration. *)
Theorem resolver_config_is_whole puts error (ws : Ws) (wc : Wc) lost fuel path config_path fallback now :
  let '(r, ws') := serve_stream id puts error ws in
  outgoing ws' = outgoing ws ++ incoming wc ++ lost → (length (text_of puts) < fuel)%nat →
  let fallback_text reason := (emit_resolver_fallback fallback reason now).1 in
  match generate_resolver_config float_equal parse_error fuel path config_path config_path resolver fallback now wc with
  | (Ok _, wc') => (error = None ∧ lost = [] ∧ printed wc' = printed wc ++ text_of puts) ∨ (∃ reason, printed wc' = printed wc ++ fallback_text reason)
  | (Throw _, wc') => ∃ part, printed wc' = printed wc ++ part ∧ (part `prefix_of` text_of puts ∨ ∃ reason, part `prefix_of` fallback_text reason)
  | (Undefined, _) => False
  end ∧
  (resolver ∈ [str "dnsmasq"; str "dnsmasq-ipset"; str "dnsmasq-nftset"] → size path < sun_path_size →
   never_fails (W := Ws) → never_fails (W := Wc) → error = None → lost = [] →
   ∃ wc', generate_resolver_config float_equal parse_error fuel path config_path config_path resolver fallback now wc = (Ok tt, wc') ∧
     printed wc' = printed wc ++ text_of puts).
Proof using Hre Hdown Henc Hfr.
  pose proof (serve_stream_run Hdown id hdr puts error ws Henc) as Hserve. destruct (serve_stream id puts error ws) as [r ws'] eqn:Eserve.
  intros Hin Hfuel fallback_text. pose proof (arriving_stream puts error ws r ws' wc lost fuel path 15000 Hserve Hin Hfuel) as H.
  unfold generate_resolver_config. rewrite (bool_decide_eq_true_2 (config_path = config_path)) by done. cbn [negb].
  case_bool_decide as Hres; cbn [negb]; [|split; [exists []; rewrite app_nil_r; split; [done|left; apply prefix_nil]|done]].
  unfold mbind, stexc_bind. split.
  - destruct (stream_control _ _ _ _ _ _ _) as [[[e|[]]|e|] wc'] eqn:Ecl; try done; [|left; naive_solver].
    destruct H as (text & Hp & Hpre & Ha & Hb).
    assert (Hplain : ∃ part, printed wc' = printed wc ++ part ∧ (part `prefix_of` text_of puts ∨ ∃ reason, part `prefix_of` fallback_text reason))
      by (exists text; by split; [|left]).
    destruct (resolver_fallback_reason (stream_what e)) as [reason|] eqn:Hreason; [|done].
    destruct (active_bytes_streamed e) eqn:Hact; [done|].
    assert (text = []) as -> by (destruct (Hb eq_refl) as [|Hw]; [done|by rewrite Hw in Hreason]). rewrite app_nil_r in Hp.
    destruct (emit_resolver_fallback fallback reason now) as [ft ok] eqn:Eft.
    assert (Hft : fallback_text reason = ft) by (unfold fallback_text; by rewrite Eft). pose proof (out_law ft wc') as Hout.
    destruct (out_write ft wc') as [[] wc'']; rewrite ?andb_true_r, ?andb_false_r.
    + destruct Hout as (_ & _ & Hp2). rewrite Hp in Hp2. destruct ok; [right; exists reason; by rewrite Hft|].
      exists ft. split; [done|]. right. exists reason. by rewrite Hft.
    + destruct Hout as (_ & _ & part & Hpp & Hp2). rewrite Hp in Hp2. exists part. split; [done|]. right. exists reason. by rewrite Hft.
  - intros _ Hpath Hws Hwc -> ->. rewrite app_nil_r in Hin. destruct Hserve as (chunks & sent & Hok & Htext & _ & Ho & Hfull & Hcomplete).
    pose proof (serve_stream_Ok Hws id hdr puts ws Henc) as Hr. rewrite Eserve in Hr. cbn in Hr. specialize (Hcomplete Hr).
    assert (Hlen : (length chunks < fuel)%nat) by (pose proof (chunks_bounded chunks Hok); pose proof (prefix_length_le _ _ Htext); lia).
    rewrite Ho, Hcomplete in Hin. apply app_inv_head in Hin.
    pose proof (stream_client_Ok Hwc fuel path _ frame 15000 wc id hdr chunks Hre Hpath (cli_request_valid resolver) Hfr Henc Hok Hlen ltac:(done)) as Hs.
    destruct (stream_control _ _ _ _ _ _ _) as [x wc']. cbn in Hs. subst x. exists wc'. split; [done|]. apply H.
Qed.
End end_to_end.
End proofs.

(** *** Witnesses *)

Module ControlProtocolSample.
Import JsonSample.

#[local] Existing Instances ConfigJson.w_nlohmann w_text w_dump.

(** A connection that takes and gives seven bytes at a time; [faulty] ones refuse
    the calls that [faults] marks. *)
Record w_connection := mk_connection { w_in : cstring; w_out : cstring; w_printed : cstring; faults : list bool }.
Definition w_io (faulty : bool) : ControlIO w_connection := {|
  c_connect _ w := (Connected, w);
  c_poll events _ w := (PollEvents (Z.land events 5), w);
  c_send data w :=
    if faulty && value_or (head (faults w)) false then (None, mk_connection (w_in w) (w_out w) (w_printed w) (tail (faults w)))
    else (Some (Nat.min (length data) 7), mk_connection (w_in w) (w_out w ++ take 7 data) (w_printed w) (tail (faults w)));
  c_recv n w := match w_in w with
    | [] => (None, w)
    | s => (Some (take (Nat.min n 7) s), mk_connection (drop (Nat.min n 7) s) (w_out w) (w_printed w) (faults w))
    end;
  c_close w := w;
  out_write text w := (true, mk_connection (w_in w) (w_out w) (w_printed w ++ text) (faults w));
  strerror _ := str "failed";
|}.
#[local] Program Instance w_laws faulty : ConnectionLaws (IO := w_io faulty) w_connection := {| incoming := w_in; outgoing := w_out; printed := w_printed |}.
Solve Obligations with try done.
Next Obligation.
  intros faulty data w. cbn. destruct (_ && _); cbn; [done|]. split; [lia|]. split_and!; [done| |done]. f_equal.
  destruct (Nat.le_ge_cases (length data) 7); [|by rewrite Nat.min_r by lia]. rewrite Nat.min_l by lia. by rewrite !take_ge by lia.
Qed.
Next Obligation.
  intros faulty n w. cbn. destruct (w_in w) as [|c s] eqn:E; [done|]. cbn -[take drop]. split; [rewrite length_take; lia|].
  split_and!; [|done..]. by rewrite take_drop.
Qed.

Lemma w_reliable : @never_fails _ (w_io false) (w_laws false).
Proof.
  split_and!; cbn; try done.
  - intros events t w. exists (Z.land events 5). split; [done|]. rewrite <-Z.land_assoc. apply Z.land_0_r.
  - intros [|c data] w Hd; [done|]. by eexists.
  - intros n w. destruct (w_in w) as [|c s]; [done|]. intros _. by eexists _, _.
Qed.
Lemma w_compact_reparses : compact_reparses.
Proof. intros j text H. rewrite <-(app_nil_r text). exact (parse_dump j text [] H). Qed.

(** A daemon that writes two pieces, and the client at the other end *)
Definition w_puts : list put := [Text "# active"; Char (chr 10); Text "server=/example/127.0.0.1"].
Definition w_idle : w_connection := mk_connection [] [] [] [].
Definition w_sent (faulty : bool) (fs : list bool) : exc bool * w_connection :=
  serve_stream (IO := w_io faulty) "cli" w_puts None (mk_connection [] [] [] fs).
Definition w_client (bytes : cstring) : exc unit * w_connection :=
  generate_resolver_config (IO := w_io false) (λ _ _, false) (λ _, []) 100 "/run/keen-pbr.sock" "/etc/c" "/etc/c" "dnsmasq" (Some (str "server=1.1.1.1")) 100
    (mk_connection bytes [] [] []).

Lemma stream_reaches_the_output : let '(r, ws) := w_sent false [] in
  r = Ok true ∧ w_printed (w_client (w_out ws)).2 = text_of w_puts ∧ (w_client (w_out ws)).1 = Ok tt.
Proof. vm_compute. done. Qed.

(** A send that times out once: the part of the configuration that could not be
    sent is dropped and the mark of the end is sent all the same.  The client
    takes the empty rest for the whole, and the daemon counts the stream as
    completed. *)
Lemma interrupted_stream_counts_as_whole : let '(r, ws) := w_sent true (replicate 14 false ++ [true]) in
  r = Ok true ∧ (w_client (w_out ws)).1 = Ok tt ∧ w_printed (w_client (w_out ws)).2 = [] ∧ text_of w_puts ≠ [].
Proof. vm_compute. done. Qed.

(** A daemon that is stopped answers with its state, and the fallback is used. *)
Definition w_error (code : cstring) : cstring := match encode_message (make_error_response (cli_request "dnsmasq") code "resolver runtime is not active") with Ok f => f | _ => [] end.
Lemma stopped_daemon_gives_fallback :
  (w_client (w_error "runtime_stopped")).1 = Ok tt ∧
  w_printed (w_client (w_error "runtime_stopped")).2 = (emit_resolver_fallback (Some (str "server=1.1.1.1")) "runtime_stopped" 100).1 ∧
  (w_client (w_error "busy")).1 = Throw (ControlProtocolError "busy") ∧ w_printed (w_client (w_error "busy")).2 = [].
Proof. vm_compute. done. Qed.

(** An empty fallback is printed and then reported as an error. *)
Lemma empty_fallback_fails : let '(text, ok) := emit_resolver_fallback (Some []) "daemon_unavailable" 100 in text ≠ [] ∧ ok = false.
Proof. vm_compute. done. Qed.

Definition w_bytes : cstring := w_out (w_sent false []).2.
Lemma resolver_config_is_whole_witness :
  ∃ wc', w_client w_bytes = (Ok tt, wc') ∧ printed (ConnectionLaws := w_laws false) wc' = text_of w_puts.
Proof.
  pose proof (resolver_config_is_whole (λ _ _, false) (λ _, []) (IOs := w_io false) (CLs := w_laws false) (IOc := w_io false) (CLc := w_laws false)
    w_compact_reparses (reliable_stays_down w_reliable) "cli" _ eq_refl "dnsmasq" _ eq_refl w_puts None w_idle (mk_connection w_bytes [] [] []) [] 100
    "/run/keen-pbr.sock" "/etc/c" (Some (str "server=1.1.1.1")) 100) as H.
  assert (Hs : w_out (serve_stream (IO := w_io false) "cli" w_puts None w_idle).2 = w_bytes) by (vm_compute; reflexivity).
  destruct (serve_stream (IO := w_io false) "cli" w_puts None w_idle) as [r ws']. cbn [snd] in Hs.
  destruct H as [_ H]; [cbn; by rewrite app_nil_r|vm_compute; lia|].
  apply H; [by constructor|vm_compute; reflexivity|exact w_reliable|exact w_reliable|reflexivity..].
Defined.
End ControlProtocolSample.
