(* ===== verification/Firewall.v ===== *)
(** * The firewall interface and its runtime client (src/src/firewall/firewall.hpp,
      firewall_runtime.cpp, the decision of src/src/util/ipv6_support.cpp)

    [Firewall] is the abstract class of the two backends: calls that queue sets,
    elements and rules, and one that applies them.  [apply_runtime_firewall] is
    written against it, and so are its theorems; [Nftables] and [Iptables] are
    the instances. *)

From S2P Require Import Prelude CppString Config PortSpec Fwmark AddrSpec DnsServer.
From S2P Require Import RoutingState FirewallRules ListParser ListStreamer.

Local Open Scope Z_scope.

Module FirewallBackend.
Inductive t := iptables | nftables.
#[global] Instance t_eq_dec : EqDecision t.
Proof. solve_decision. Defined.
End FirewallBackend.

Module FirewallApplyMode.
Inductive t := Destructive | PreserveSets | StaticSetsOnly.
#[global] Instance t_eq_dec : EqDecision t.
Proof. solve_decision. Defined.
End FirewallApplyMode.

Module FirewallSetGeneration.
Inductive t := A | B.
#[global] Instance t_eq_dec : EqDecision t.
Proof. solve_decision. Defined.
End FirewallSetGeneration.

Definition l4_proto_name (p : L4Proto.t) : cstring :=
  match p with
  | L4Proto.Any => []
  | L4Proto.Tcp => "tcp"
  | L4Proto.Udp => "udp"
  | L4Proto.TcpUdp => "tcp/udp"
  end.

Definition spec_empty (p : PortSpec) : bool := bool_decide (ranges p = []).

Definition has_rule_selector (c : FirewallRuleCriteria) : bool :=
  has_value (dst_set_name c) || has_value (fc_dscp c) || negb (spec_empty (fc_src_port c)) ||
  negb (spec_empty (fc_dst_port c)) || negb (bool_decide (fc_src_addr c = [])) ||
  negb (bool_decide (fc_dst_addr c = [])).

Definition has_inbound_interfaces (p : FirewallGlobalPrefilter) : bool :=
  match pf_inbound_interfaces p with Some (_ :: _) => true | _ => false end.

Definition empty_prefilter : FirewallGlobalPrefilter := Build_FirewallGlobalPrefilter None false false false 0.

Definition with_set (c : FirewallRuleCriteria) (name : option cstring) : FirewallRuleCriteria :=
  mk_Criteria name (fc_dscp c) (fc_proto c) (fc_src_port c) (fc_dst_port c) (fc_src_addr c) (fc_dst_addr c)
    (negate_src_port c) (negate_dst_port c) (negate_src_addr c) (negate_dst_addr c) (apply_output c).

(** The members the base class keeps. *)
Record FirewallBase := mk_FirewallBase {
  global_prefilter_ : FirewallGlobalPrefilter;
  base_fwmark_mask_ : Z;
  ipv6_enabled_ : bool;
  clear_dynamic_sets_on_apply_ : bool;
}.
Definition default_FirewallBase : FirewallBase := mk_FirewallBase empty_prefilter 0xFFFFFFFF true true.

(** ** The interface *)

Class Firewall (F : Type) := {
  fw_base : F → FirewallBase;
  fw_set_base : FirewallBase → F → F;
  prepare_apply : FirewallApplyMode.t → stexc F unit;
  static_set_name : F → cstring → Z → cstring;
  dynamic_set_name : F → cstring → Z → cstring;
  create_ipset : cstring → Z → Z → stexc F unit;
  create_mark_rule : Z → FirewallRuleCriteria → stexc F unit;
  create_drop_rule : FirewallRuleCriteria → stexc F unit;
  create_pass_rule : FirewallRuleCriteria → stexc F unit;
  (** [create_batch_loader], and [on_entry] of the visitor it returns *)
  create_batch_loader : cstring → stexc F unit;
  loader_on_entry : cstring → EntryType.t → cstring → stexc F unit;
  fw_apply : FirewallApplyMode.t → stexc F unit;
  fw_cleanup : stexc F unit;
  fw_backend : FirewallBackend.t;
  uses_raw_prerouting : F → bool;
}.

(** The names of the base class. *)
Definition base_static_set_name (list_name : cstring) (family : Z) : cstring :=
  (if family =? AF_INET6 then str "kpbr6_" else str "kpbr4_") ++ list_name.
Definition base_dynamic_set_name (list_name : cstring) (family : Z) : cstring :=
  (if family =? AF_INET6 then str "kpbr6d_" else str "kpbr4d_") ++ list_name.

Definition update_base {F} `{Firewall F} (f : FirewallBase → FirewallBase) : stexc F unit :=
  λ s, (Ok tt, fw_set_base (f (fw_base s)) s).
Definition set_global_prefilter {F} `{Firewall F} (p : FirewallGlobalPrefilter) : stexc F unit :=
  update_base (λ b, mk_FirewallBase p (base_fwmark_mask_ b) (ipv6_enabled_ b) (clear_dynamic_sets_on_apply_ b)).
Definition fw_set_fwmark_mask {F} `{Firewall F} (m : Z) : stexc F unit :=
  update_base (λ b, mk_FirewallBase (global_prefilter_ b) m (ipv6_enabled_ b) (clear_dynamic_sets_on_apply_ b)).
Definition set_ipv6_enabled {F} `{Firewall F} (e : bool) : stexc F unit :=
  update_base (λ b, mk_FirewallBase (global_prefilter_ b) (base_fwmark_mask_ b) e (clear_dynamic_sets_on_apply_ b)).
Definition set_clear_dynamic_sets_on_apply {F} `{Firewall F} (c : bool) : stexc F unit :=
  update_base (λ b, mk_FirewallBase (global_prefilter_ b) (base_fwmark_mask_ b) (ipv6_enabled_ b) c).

(** ** Whether IPv6 is used (ipv6_support.cpp) *)

Module Ipv6Reason.
Inductive t := Enabled | DisabledByConfig | UnsupportedBySystem.
End Ipv6Reason.

Section ipv6.
(** What the system answers: the probe socket, the backend that would be used
    (or an exception), and the probes of the two backends. *)
Context (system_ipv6_supported : bool) (resolved_backend : exc FirewallBackend.t).
Context (iptables_ipv6_supported nft_ipv6_supported : bool).

Definition firewall_ipv6_supported : bool :=
  match resolved_backend with
  | Ok FirewallBackend.iptables => iptables_ipv6_supported
  | Ok FirewallBackend.nftables => nft_ipv6_supported
  | _ => true
  end.

Definition resolve_ipv6_support (cfg : Config) : bool * Ipv6Reason.t :=
  match daemon cfg ≫= ipv6_enabled with
  | Some false => (false, Ipv6Reason.DisabledByConfig)
  | _ => if negb system_ipv6_supported || negb firewall_ipv6_supported
         then (false, Ipv6Reason.UnsupportedBySystem)
         else (true, Ipv6Reason.Enabled)
  end.
End ipv6.

(** ** Applying the configuration *)

Section runtime.
Context {SS : StdSort} {IP : InetPton} {FS : Files} (cache : CacheManager).
Context (keenetic_addresses : exc (list cstring)).
Context {F : Type} {FW : Firewall F}.
Context (config : Config) (outbound_marks : OutboundMarkMap).
Context (urltest_selections : gmap cstring cstring) (ipv6 : bool).

Abbreviation M := (stexc F).

Definition lift {A} (r : exc A) : M A := λ s, (r, s).

(** The lambda [apply_rule]. *)
Definition apply_rule (rs : RuleState) (c : FirewallRuleCriteria) (set_name : option cstring) : M unit :=
  let rule_criteria := with_set c set_name in
  match action_type rs with
  | RuleActionType.Drop => create_drop_rule rule_criteria
  | RuleActionType.Pass => create_pass_rule rule_criteria
  | _ => if negb (rs_fwmark rs =? 0) then create_mark_rule (rs_fwmark rs) rule_criteria else mret tt
  end.

(** The visitor [splitter]: an address goes to the loader of its family. *)
Definition splitter (set4 set6 : cstring) (e : EntryType.t * cstring) : M unit :=
  if bool_decide (e.1 = EntryType.Domain) then mret tt
  else match find_char ":" e.2 with
  | Some _ => if ipv6 then loader_on_entry set6 e.1 e.2 else mret tt
  | None => loader_on_entry set4 e.1 e.2
  end.

(** [list_streamer.stream_list(list_name, list_cfg, splitter)]: the visitor is
    called with each entry before the stream goes on. *)
Definition stream_to (list_name : cstring) (list_cfg : ListConfig) (visit : EntryType.t * cstring → M unit) :
    M unit :=
  let '(r, v) := stream_list cache list_name list_cfg (mk_visited (mk_Output [] []) []) in
  for_each visit (entries (received v)) ≫= λ _, lift r.

Definition when (b : bool) (m : M unit) : M unit := if b then m else mret tt.

(** The body of the loop over the lists of a rule, with the names of its sets:
    the sets it created. *)
Definition apply_list_named (rs : RuleState) (c : FirewallRuleCriteria) (list_name : cstring)
    (list_cfg : ListConfig) (usage : ListSetUsage) (set4 set6 set4d set6d : cstring) : M (list cstring) :=
  when (has_static_entries usage)
    (create_ipset set4 AF_INET 0 ≫= λ _,
     when ipv6 (create_ipset set6 AF_INET6 0) ≫= λ _,
     create_batch_loader set4 ≫= λ _,
     when ipv6 (create_batch_loader set6) ≫= λ _,
     stream_to list_name list_cfg (splitter set4 set6)) ≫= λ _,
  when (has_domain_entries usage)
    (create_ipset set4d AF_INET (dynamic_timeout usage) ≫= λ _,
     when ipv6 (create_ipset set6d AF_INET6 (dynamic_timeout usage))) ≫= λ _,
  when (has_static_entries usage)
    (apply_rule rs c (Some set4) ≫= λ _, when ipv6 (apply_rule rs c (Some set6))) ≫= λ _,
  when (has_domain_entries usage)
    (apply_rule rs c (Some set4d) ≫= λ _, when ipv6 (apply_rule rs c (Some set6d))) ≫= λ _,
  mret ((if has_static_entries usage then set4 :: (if ipv6 then [set6] else []) else []) ++
        (if has_domain_entries usage then set4d :: (if ipv6 then [set6d] else []) else [])).

Definition apply_list (rs : RuleState) (c : FirewallRuleCriteria) (list_name : cstring) (list_cfg : ListConfig)
    (usage : ListSetUsage) : M (list cstring) := λ fw,
  apply_list_named rs c list_name list_cfg usage
    (static_set_name fw list_name AF_INET) (static_set_name fw list_name AF_INET6)
    (dynamic_set_name fw list_name AF_INET) (dynamic_set_name fw list_name AF_INET6) fw.

(** The loop over the lists: the sets created, whether a rule was emitted, and
    the cache of usages. *)
Fixpoint apply_lists (rs : RuleState) (c : FirewallRuleCriteria) (names : list cstring)
    (usage_cache : gmap cstring ListSetUsage) (sets : list cstring) (emitted : bool) :
    M (list cstring * bool * gmap cstring ListSetUsage) :=
  match names with
  | [] => mret (sets, emitted, usage_cache)
  | name :: names =>
      match config_lists config !! name with
      | None => apply_lists rs c names usage_cache sets emitted
      | Some list_cfg =>
          u ← match usage_cache !! name with
              | Some u => mret u
              | None => lift (analyze_list_set_usage cache name list_cfg)
              end;
          new_sets ← apply_list rs c name list_cfg u;
          apply_lists rs c names (<[name := u]> usage_cache) (sets ++ new_sets)
            (emitted || has_static_entries u || has_domain_entries u)
      end
  end.

(** The body of the loop over the rules, for a state that is not skipped. *)
Definition apply_route_rule (rule : RouteRule) (rs : RuleState) (usage_cache : gmap cstring ListSetUsage) :
    M (RuleState * gmap cstring ListSetUsage) :=
  c ← lift (build_firewall_rule_criteria rule);
  r ← (if bool_decide (route_rule_lists rule = [])
       then when (has_rule_selector c) (apply_rule rs c None) ≫= λ _, mret ([], usage_cache)
       else
         r ← apply_lists rs c (route_rule_lists rule) usage_cache [] false;
         when (negb r.1.2 && has_rule_selector c) (apply_rule rs c None) ≫= λ _, mret (r.1.1, r.2));
  mret (mk_RuleState (rule_index rs) (list_names rs) r.1 (outbound_tag rs) (action_type rs) (rs_fwmark rs) c,
        r.2).

Fixpoint apply_route_rules (rules : list RouteRule) (states : list RuleState)
    (usage_cache : gmap cstring ListSetUsage) : M (list RuleState) :=
  match rules, states with
  | [], _ => mret states
  | rule :: rules, rs :: states =>
      if bool_decide (action_type rs = RuleActionType.Skip)
      then rest ← apply_route_rules rules states usage_cache; mret (rs :: rest)
      else
        r ← apply_route_rule rule rs usage_cache;
        rest ← apply_route_rules rules states r.2;
        mret (r.1 :: rest)
  | _ :: _, [] => λ s, (Undefined, s)
  end.

(** The rules that send the queries of a server through its detour. *)
Definition detour_criteria (server : DnsServerConfig) : exc FirewallRuleCriteria :=
  port ← parse_port_spec (to_string (ds_port server));
  mret (mk_Criteria None None L4Proto.TcpUdp empty_spec port [] [ds_resolved_ip server]
          false false false false true).

Definition apply_detour (registry : DnsServerRegistry) (server : DnsServer) : M unit :=
  match dns_detour server with
  | None => mret tt
  | Some detour =>
      match find_outbound (value_or (outbounds config) []) detour with
      | None => mret tt
      | Some ob =>
          let effective_tag :=
            if bool_decide (type ob = OutboundType.URLTEST) then tag ob
            else internal_detour_mark_key (tag ob) in
          match outbound_marks !! effective_tag with
          | None => mret tt
          | Some mark =>
              match get_servers registry (dns_tag server) with
              | [] => throw (FirewallError ("DNS server tag not found during detour setup: " ++ dns_tag server))
              | resolved =>
                  for_each (λ s, c ← lift (detour_criteria s); create_mark_rule mark c) resolved
              end
          end
      end
  end.

Definition apply_detours : M unit :=
  match dns config with
  | None => mret tt
  | Some dns_cfg =>
      registry ← lift (make_DnsServerRegistry keenetic_addresses dns_cfg);
      for_each (apply_detour registry) (value_or (servers dns_cfg) [])
  end.

Definition runtime_prefilter (mask : Z) : FirewallGlobalPrefilter :=
  let p := build_firewall_global_prefilter config in
  Build_FirewallGlobalPrefilter (pf_inbound_interfaces p) (skip_established_or_dnat p)
    (pf_skip_marked_packets p) true mask.

(** Everything that is queued: the loop over the rules and the detours. *)
Definition queue_rules : M (list RuleState) :=
  rule_states ← apply_route_rules (config_rules config)
                  (build_fw_rule_states config outbound_marks (Some urltest_selections)) ∅;
  apply_detours ≫= λ _,
  mret rule_states.

(** The settings made before the rules. *)
Definition configure_firewall (mode : FirewallApplyMode.t) : M unit :=
  set_ipv6_enabled ipv6 ≫= λ _,
  set_clear_dynamic_sets_on_apply
    (value_or (clear_dynamic_sets_on_apply (value_or (daemon config) default_DaemonConfig)) true) ≫= λ _,
  prepare_apply mode ≫= λ _,
  mask ← lift (fwmark_mask_value (value_or (fwmark config) default_FwmarkConfig));
  set_global_prefilter (runtime_prefilter mask) ≫= λ _,
  fw_set_fwmark_mask mask.

Definition apply_runtime_firewall (mode : FirewallApplyMode.t) : M (list RuleState) :=
  configure_firewall mode ≫= λ _,
  rule_states ← queue_rules;
  fw_apply mode ≫= λ _,
  mret rule_states.
End runtime.

(** ** Any backend receives the same calls

    [queue_rules] on a backend is the replay of the calls that it makes on a
    recorder with the same names. *)

Inductive call :=
  | Call_create_ipset (name : cstring) (family timeout : Z)
  | Call_create_mark_rule (fwmark : Z) (c : FirewallRuleCriteria)
  | Call_create_drop_rule (c : FirewallRuleCriteria)
  | Call_create_pass_rule (c : FirewallRuleCriteria)
  | Call_create_batch_loader (name : cstring)
  | Call_on_entry (name : cstring) (t : EntryType.t) (entry : cstring).

Definition record (c : call) : stexc (list call) unit := λ l, (Ok tt, l ++ [c]).

Definition recorder (static dynamic : cstring → Z → cstring) : Firewall (list call) := {|
  fw_base _ := default_FirewallBase;
  fw_set_base _ l := l;
  prepare_apply _ := mret tt;
  static_set_name _ := static;
  dynamic_set_name _ := dynamic;
  create_ipset n f t := record (Call_create_ipset n f t);
  create_mark_rule m c := record (Call_create_mark_rule m c);
  create_drop_rule c := record (Call_create_drop_rule c);
  create_pass_rule c := record (Call_create_pass_rule c);
  create_batch_loader n := record (Call_create_batch_loader n);
  loader_on_entry n t e := record (Call_on_entry n t e);
  fw_apply _ := mret tt;
  fw_cleanup := mret tt;
  fw_backend := FirewallBackend.nftables;
  uses_raw_prerouting _ := false;
|}.

Definition perform {F} `{Firewall F} (c : call) : stexc F unit :=
  match c with
  | Call_create_ipset n f t => create_ipset n f t
  | Call_create_mark_rule m c => create_mark_rule m c
  | Call_create_drop_rule c => create_drop_rule c
  | Call_create_pass_rule c => create_pass_rule c
  | Call_create_batch_loader n => create_batch_loader n
  | Call_on_entry n t e => loader_on_entry n t e
  end.
Definition replay {F} `{Firewall F} (l : list call) : stexc F unit := for_each perform l.

(** What a backend promises: queueing does not change the names of the sets. *)
Class StableNames (F : Type) `{Firewall F} := {
  static_names_stable c s : static_set_name (perform c s).2 = static_set_name s;
  dynamic_names_stable c s : dynamic_set_name (perform c s).2 = dynamic_set_name s;
}.

Section replay.
Context {F : Type} {FW : Firewall F} {SN : StableNames F}.
Context (static dynamic : cstring → Z → cstring).

Definition named (s : F) : Prop := static_set_name s = static ∧ dynamic_set_name s = dynamic.

Lemma perform_named c s : named s → named (perform c s).2.
Proof. intros [H1 H2]. split; [by rewrite static_names_stable|by rewrite dynamic_names_stable]. Qed.
Lemma replay_named l s : named s → named (replay l s).2.
Proof.
  revert s. apply (preserves_for_each named). intros c _ s. apply perform_named.
Qed.

Lemma replay_app l1 l2 s :
  replay (l1 ++ l2) s = match replay l1 s with
    | (Ok _, s') => replay l2 s'
    | (Throw e, s') => (Throw e, s')
    | (Undefined, s') => (Undefined, s') end.
Proof.
  unfold replay. revert s. induction l1 as [|c l1 IH]; intros s; cbn; [done|].
  unfold mbind, stexc_bind. destruct (perform c s) as [[[]|e|] s']; [apply IH|done..].
Qed.

(** [m] on the backend does what [m'] records. *)
Definition tracks {A} (m : stexc F A) (m' : stexc (list call) A) : Prop :=
  ∃ r l, (∀ log, m' log = (r, log ++ l)) ∧
    ∀ s, named s → m s = match replay l s with
      | (Ok _, s') => (r, s')
      | (Throw e, s') => (Throw e, s')
      | (Undefined, s') => (Undefined, s') end.

Lemma tracks_lift {A} (r : exc A) : tracks (lift r) (lift r).
Proof. exists r, []. split; [intros log; by rewrite app_nil_r|done]. Qed.
Lemma tracks_ret {A} (a : A) : tracks (mret a) (mret a).
Proof. apply (tracks_lift (Ok a)). Qed.
Lemma tracks_throw {A} e : tracks (@throw _ A e) (throw e).
Proof. apply (tracks_lift (Throw e)). Qed.
Lemma tracks_undefined {A} : tracks (λ s, (@Undefined A, s)) (λ s, (Undefined, s)).
Proof. apply (tracks_lift Undefined). Qed.
Lemma tracks_call c : tracks (perform c) (record c).
Proof.
  exists (Ok tt), [c]. split; [done|]. intros s _. unfold replay. cbn. unfold mbind, stexc_bind.
  by destruct (perform c s) as [[[]|e|] s'].
Qed.

Lemma tracks_bind {A B} (m : stexc F A) m' (f : A → stexc F B) f' :
  tracks m m' → (∀ a, tracks (f a) (f' a)) → tracks (m ≫= f) (m' ≫= f').
Proof.
  intros (r & l & Hm' & Hm) Hf. destruct r as [a|e|].
  - destruct (Hf a) as (r2 & l2 & Hf' & Hfm). exists r2, (l ++ l2). split.
    + intros log. unfold mbind, stexc_bind. rewrite Hm', Hf'. by rewrite app_assoc.
    + intros s Hs. unfold mbind, stexc_bind. rewrite Hm, replay_app by done.
      pose proof (replay_named l s Hs) as Hn. destruct (replay l s) as [[[]|e|] s']; [|done..].
      by rewrite Hfm.
  - exists (Throw e), l. split; [intros log; unfold mbind, stexc_bind; by rewrite Hm'|].
    intros s Hs. unfold mbind, stexc_bind. rewrite Hm by done. by destruct (replay l s) as [[[]|e'|] s'].
  - exists Undefined, l. split; [intros log; unfold mbind, stexc_bind; by rewrite Hm'|].
    intros s Hs. unfold mbind, stexc_bind. rewrite Hm by done. by destruct (replay l s) as [[[]|e'|] s'].
Qed.

Lemma tracks_for_each {A} (f : A → stexc F unit) f' l :
  (∀ x, tracks (f x) (f' x)) → tracks (for_each f l) (for_each f' l).
Proof. intros Hf. induction l; cbn; [apply tracks_ret|]. apply tracks_bind; auto. Qed.
Lemma tracks_when b m m' : tracks m m' → tracks (when b m) (when b m').
Proof. intros H. destruct b; [done|apply tracks_ret]. Qed.
End replay.

Section queue_replays.
Context {SS : StdSort} {IP : InetPton} {FS : Files} (cache : CacheManager).
Context (keenetic_addresses : exc (list cstring)).
Context {F : Type} {FW : Firewall F} {SN : StableNames F}.
Context (config : Config) (marks : OutboundMarkMap) (sel : gmap cstring cstring) (ipv6 : bool).
Context (static dynamic : cstring → Z → cstring).

Abbreviation R := (recorder static dynamic).
Abbreviation tracks' := (tracks (FW:=FW) static dynamic).

#[local] Hint Resolve tracks_lift tracks_ret tracks_throw tracks_undefined tracks_for_each tracks_when : core.
#[local] Hint Extern 2 (tracks _ _ (mbind _ _) _) => (apply tracks_bind; [|intros ?]) : core.

Lemma tracks_ipset n f t : tracks' (create_ipset n f t) (@create_ipset _ R n f t).
Proof. apply (tracks_call (FW:=FW) static dynamic (Call_create_ipset n f t)). Qed.
Lemma tracks_loader n : tracks' (create_batch_loader n) (@create_batch_loader _ R n).
Proof. apply (tracks_call (FW:=FW) static dynamic (Call_create_batch_loader n)). Qed.
Lemma tracks_entry n t e : tracks' (loader_on_entry n t e) (@loader_on_entry _ R n t e).
Proof. apply (tracks_call (FW:=FW) static dynamic (Call_on_entry n t e)). Qed.
Lemma tracks_mark m c : tracks' (create_mark_rule m c) (@create_mark_rule _ R m c).
Proof. apply (tracks_call (FW:=FW) static dynamic (Call_create_mark_rule m c)). Qed.
Lemma tracks_drop c : tracks' (create_drop_rule c) (@create_drop_rule _ R c).
Proof. apply (tracks_call (FW:=FW) static dynamic (Call_create_drop_rule c)). Qed.
Lemma tracks_pass c : tracks' (create_pass_rule c) (@create_pass_rule _ R c).
Proof. apply (tracks_call (FW:=FW) static dynamic (Call_create_pass_rule c)). Qed.
#[local] Hint Resolve tracks_ipset tracks_loader tracks_entry tracks_mark tracks_drop tracks_pass : core.

Lemma tracks_rule rs c n : tracks' (apply_rule rs c n) (apply_rule (FW:=R) rs c n).
Proof. unfold apply_rule. destruct (action_type rs); auto; by destruct (negb _); auto. Qed.
#[local] Hint Resolve tracks_rule : core.

Lemma tracks_splitter set4 set6 e : tracks' (splitter ipv6 set4 set6 e) (splitter (FW:=R) ipv6 set4 set6 e).
Proof.
  unfold splitter. destruct (bool_decide _); [auto|]. destruct (find_char _ _); [|auto].
  destruct ipv6; auto.
Qed.
#[local] Hint Resolve tracks_splitter : core.

Lemma tracks_stream name cfg f f' : (∀ e, tracks' (f e) (f' e)) →
  tracks' (stream_to cache name cfg f) (stream_to cache name cfg f').
Proof. intros Hf. unfold stream_to. destruct (stream_list _ _ _ _) as [r v]. auto. Qed.
#[local] Hint Resolve tracks_stream : core.

Lemma tracks_list rs c name cfg u :
  tracks' (apply_list cache ipv6 rs c name cfg u) (apply_list (FW:=R) cache ipv6 rs c name cfg u).
Proof.
  assert (H : tracks' (apply_list_named cache ipv6 rs c name cfg u (static name AF_INET) (static name AF_INET6)
      (dynamic name AF_INET) (dynamic name AF_INET6))
    (apply_list_named (FW:=R) cache ipv6 rs c name cfg u (static name AF_INET) (static name AF_INET6)
      (dynamic name AF_INET) (dynamic name AF_INET6))).
  { unfold apply_list_named. repeat (apply tracks_bind; [|intros ?]); auto 10. }
  destruct H as (r & l & H1 & H2). exists r, l. split; [done|]. intros s [Hs Hd].
  unfold apply_list. rewrite Hs, Hd. by apply H2.
Qed.
#[local] Hint Resolve tracks_list : core.

Lemma tracks_lists rs c names uc sets em :
  tracks' (apply_lists cache config ipv6 rs c names uc sets em)
    (apply_lists (FW:=R) cache config ipv6 rs c names uc sets em).
Proof.
  revert uc sets em. induction names as [|n names IH]; intros uc sets em; cbn; [auto|].
  destruct (config_lists config !! n); [|auto].
  apply tracks_bind; [by destruct (uc !! n); auto|]. intros u. apply tracks_bind; auto.
Qed.
#[local] Hint Resolve tracks_lists : core.

Lemma tracks_route_rules rules states uc :
  tracks' (apply_route_rules cache config ipv6 rules states uc)
    (apply_route_rules (FW:=R) cache config ipv6 rules states uc).
Proof.
  revert states uc. induction rules as [|rule rules IH]; intros [|rs states] uc; cbn; auto.
  destruct (bool_decide _); [auto|]. apply tracks_bind; [|intros ?; auto]. unfold apply_route_rule.
  apply tracks_bind; [auto|]. intros c. apply tracks_bind; [|auto]. destruct (bool_decide _); auto.
Qed.

Lemma tracks_detours :
  tracks' (apply_detours keenetic_addresses config marks) (apply_detours (FW:=R) keenetic_addresses config marks).
Proof.
  unfold apply_detours. destruct (dns config); [|auto]. apply tracks_bind; [auto|]. intros registry.
  apply tracks_for_each. intros server. unfold apply_detour. destruct (dns_detour server); [|auto].
  destruct (find_outbound _ _); [|auto]. destruct (marks !! _); [|auto].
  destruct (get_servers registry _); [auto|]. apply tracks_for_each. intros x. auto.
Qed.

Lemma tracks_queue :
  tracks' (queue_rules cache keenetic_addresses config marks sel ipv6)
    (queue_rules (FW:=R) cache keenetic_addresses config marks sel ipv6).
Proof.
  apply tracks_bind; [apply tracks_route_rules|]. intros states.
  apply tracks_bind; [apply tracks_detours|auto].
Qed.
End queue_replays.

(** ** The calls are those of the returned states *)

Definition is_rule (c : call) : bool :=
  match c with
  | Call_create_mark_rule _ _ | Call_create_drop_rule _ | Call_create_pass_rule _ => true
  | _ => false
  end.

Definition rule_call (rs : RuleState) (set_name : option cstring) : list call :=
  let c := with_set (criteria rs) set_name in
  match action_type rs with
  | RuleActionType.Drop => [Call_create_drop_rule c]
  | RuleActionType.Pass => [Call_create_pass_rule c]
  | RuleActionType.Mark => if rs_fwmark rs =? 0 then [] else [Call_create_mark_rule (rs_fwmark rs) c]
  | RuleActionType.Skip => []
  end.

(** The rules a state stands for: one for each of its sets, or one without a
    set when it has other selectors. *)
Definition state_calls (rs : RuleState) : list call :=
  match set_names rs with
  | [] => if has_rule_selector (criteria rs) then rule_call rs None else []
  | sets => sets ≫= λ n, rule_call rs (Some n)
  end.

(** The rules of the detours of the servers. *)
Definition detour_calls {SS : StdSort} (registry : DnsServerRegistry) (config : Config)
    (marks : OutboundMarkMap) (server : DnsServer) : list call :=
  match dns_detour server ≫= find_outbound (value_or (outbounds config) []) with
  | None => []
  | Some ob =>
      match marks !! (if bool_decide (type ob = OutboundType.URLTEST) then tag ob
                      else internal_detour_mark_key (tag ob)) with
      | None => []
      | Some mark =>
          s ← get_servers registry (dns_tag server);
          match detour_criteria s with Ok c => [Call_create_mark_rule mark c] | _ => [] end
      end
  end.

Section recorded.
Context {SS : StdSort} {IP : InetPton} {FS : Files} (cache : CacheManager).
Context (config : Config) (ipv6 : bool) (static dynamic : cstring → Z → cstring).
Abbreviation R := (recorder static dynamic).

(** What a computation that returns has recorded of the rules. *)
Definition emits {A} (m : stexc (list call) A) (P : A → list call → Prop) : Prop :=
  ∀ log a log', m log = (Ok a, log') → ∃ l, log' = log ++ l ∧ P a (List.filter is_rule l).

Lemma emits_bind {A B} (m : stexc (list call) A) (f : A → stexc (list call) B) P Q :
  emits m P → (∀ a, emits (f a) (Q a)) →
  emits (m ≫= f) (λ b l, ∃ a l1 l2, l = l1 ++ l2 ∧ P a l1 ∧ Q a b l2).
Proof.
  intros Hm Hf log b log'. unfold mbind, stexc_bind. specialize (Hm log).
  destruct (m log) as [[a|e|] log1]; [|done..]. destruct (Hm a log1 eq_refl) as (l1 & -> & H1).
  intros H. destruct (Hf a _ _ _ H) as (l2 & -> & H2). exists (l1 ++ l2).
  rewrite app_assoc, List.filter_app. split; [done|]. eauto 10.
Qed.

Lemma emits_weaken {A} (m : stexc (list call) A) (P Q : A → list call → Prop) :
  emits m P → (∀ a l, P a l → Q a l) → emits m Q.
Proof. intros Hm HPQ log a log' H. destruct (Hm _ _ _ H) as (l & -> & HP). eauto. Qed.

Lemma emits_lift {A} (r : exc A) : emits (lift r) (λ a l, r = Ok a ∧ l = []).
Proof. intros log a log' [= <- <-]. exists []. rewrite app_nil_r. by split. Qed.
Lemma emits_ret {A} (a : A) : emits (mret a) (λ a' l, a' = a ∧ l = []).
Proof. intros log a' log' [= <- <-]. exists []. rewrite app_nil_r. by split. Qed.
Lemma emits_record c : emits (record c) (λ _ l, l = List.filter is_rule [c]).
Proof. intros log a log' [= <- <-]. by exists [c]. Qed.

Lemma emits_rule rs c n : action_type rs ≠ RuleActionType.Skip →
  emits (apply_rule (FW:=R) rs c n) (λ _ l, l = rule_call
    (mk_RuleState (rule_index rs) (list_names rs) [] (outbound_tag rs) (action_type rs) (rs_fwmark rs) c) n).
Proof.
  intros Hs. unfold apply_rule, rule_call. cbn [action_type rs_fwmark criteria].
  destruct (action_type rs); try done; try apply emits_record.
  destruct (rs_fwmark rs =? 0); cbn [negb]; [|apply emits_record].
  eapply emits_weaken; [apply emits_ret|]. naive_solver.
Qed.

Definition silent {A} (m : stexc (list call) A) : Prop := emits m (λ _ l, l = []).

Lemma silent_bind {A B} (m : stexc (list call) A) (f : A → stexc (list call) B) :
  silent m → (∀ a, silent (f a)) → silent (m ≫= f).
Proof.
  intros Hm Hf. eapply emits_weaken; [by apply (emits_bind m f (λ _ l, l = []) (λ _ _ l, l = []))|].
  by intros b l (a & l1 & l2 & -> & -> & ->).
Qed.
Lemma silent_lift {A} (r : exc A) : silent (lift r).
Proof. eapply emits_weaken; [apply emits_lift|]. by intros a l [_ ->]. Qed.
Lemma silent_ret {A} (a : A) : silent (mret a).
Proof. eapply emits_weaken; [apply emits_ret|]. by intros a' l [_ ->]. Qed.
Lemma silent_when b m : silent m → silent (when b m).
Proof. intros H. destruct b; [done|apply silent_ret]. Qed.
Lemma silent_for_each {A} (f : A → stexc (list call) unit) l :
  (∀ x, silent (f x)) → silent (for_each f l).
Proof. intros Hf. induction l; cbn; [apply silent_ret|]. by apply silent_bind. Qed.
Lemma silent_record c : is_rule c = false → silent (record c).
Proof. intros H. eapply emits_weaken; [apply emits_record|]. cbn. by rewrite H. Qed.
#[local] Hint Resolve silent_lift silent_ret silent_when silent_for_each silent_record : core.

Lemma silent_load name cfg set4 set6 : silent
  (create_ipset (Firewall:=R) set4 AF_INET 0 ≫= λ _,
     when ipv6 (create_ipset (Firewall:=R) set6 AF_INET6 0) ≫= λ _,
     create_batch_loader (Firewall:=R) set4 ≫= λ _,
     when ipv6 (create_batch_loader (Firewall:=R) set6) ≫= λ _,
     stream_to cache name cfg (splitter (FW:=R) ipv6 set4 set6)).
Proof.
  repeat (apply silent_bind; [|intros _]); try (apply silent_when); try by apply silent_record.
  unfold stream_to. destruct (stream_list _ _ _ _) as [r v].
  apply silent_bind; [|auto]. apply silent_for_each. intros e. unfold splitter.
  destruct (bool_decide _); [auto|]. destruct (find_char _ _); [|by apply silent_record].
  by destruct ipv6; [apply silent_record|apply silent_ret].
Qed.

Definition list_sets (name : cstring) (u : ListSetUsage) : list cstring :=
  (if has_static_entries u
   then static name AF_INET :: (if ipv6 then [static name AF_INET6] else []) else []) ++
  (if has_domain_entries u
   then dynamic name AF_INET :: (if ipv6 then [dynamic name AF_INET6] else []) else []).

Definition with_criteria (rs : RuleState) (sets : list cstring) (c : FirewallRuleCriteria) : RuleState :=
  mk_RuleState (rule_index rs) (list_names rs) sets (outbound_tag rs) (action_type rs) (rs_fwmark rs) c.

(** The pairs of rules of a kind of set. *)
Lemma emits_pair (b : bool) rs c n4 n6 : action_type rs ≠ RuleActionType.Skip →
  emits (when b (apply_rule (FW:=R) rs c (Some n4) ≫= λ _, when ipv6 (apply_rule (FW:=R) rs c (Some n6))))
    (λ _ l, l = (if b then n4 :: (if ipv6 then [n6] else []) else []) ≫=
                λ n, rule_call (with_criteria rs [] c) (Some n)).
Proof.
  intros Hs. destruct b; cbn [when]; [|apply silent_ret].
  eapply emits_weaken.
  { apply (emits_bind _ _ (λ _ l, l = rule_call (with_criteria rs [] c) (Some n4)) (λ _ _ l, l = if ipv6 then rule_call (with_criteria rs [] c) (Some n6) else []));
      [by apply emits_rule|]. intros _.
    destruct ipv6; cbn [when]; [by apply emits_rule|apply silent_ret]. }
  intros a l (a' & l1 & l2 & -> & -> & ->). rewrite bind_cons. f_equal.
  destruct ipv6; [|done]. cbn. by rewrite app_nil_r.
Qed.

Lemma emits_list rs c name cfg u : action_type rs ≠ RuleActionType.Skip →
  emits (apply_list (FW:=R) cache ipv6 rs c name cfg u)
    (λ sets l, sets = list_sets name u ∧
               l = list_sets name u ≫= λ n, rule_call (with_criteria rs [] c) (Some n)).
Proof.
  intros Hs. change (emits (apply_list_named (FW:=R) cache ipv6 rs c name cfg u (static name AF_INET)
    (static name AF_INET6) (dynamic name AF_INET) (dynamic name AF_INET6)) (λ sets l, sets = list_sets name u ∧
    l = list_sets name u ≫= λ n, rule_call (with_criteria rs [] c) (Some n))).
  eapply emits_weaken.
  { apply emits_bind; [apply silent_when, silent_load|]. intros ?.
    apply emits_bind; [apply silent_when, silent_bind;
      [by apply silent_record|intros _; apply silent_when; by apply silent_record]|]. intros ?.
    apply emits_bind; [by apply emits_pair|]. intros ?.
    apply emits_bind; [by apply emits_pair|]. intros ?. apply emits_ret. }
  cbn. intros sets l (_ & l1 & l2 & -> & -> & _ & l3 & l4 & -> & -> & _ & l5 & l6 & -> & -> & _ & l7 & l8 & -> & -> & -> & ->).
  unfold list_sets. by rewrite bind_app, app_nil_r.
Qed.

(** A total usage function that agrees with the analysis. *)
Definition agrees (usage : cstring → ListConfig → ListSetUsage) : Prop :=
  ∀ name cfg u, analyze_list_set_usage cache name cfg = Ok u → usage name cfg = u.

Definition base_names : Prop := static = base_static_set_name ∧ dynamic = base_dynamic_set_name.

Lemma list_sets_realized name u : base_names → list_sets name u = realized_sets ipv6 name u.
Proof.
  unfold base_names, list_sets, realized_sets. intros [-> ->].
  destruct (has_static_entries u), (has_domain_entries u), ipv6; reflexivity.
Qed.

Lemma emits_lists rs c names uc sets em : action_type rs ≠ RuleActionType.Skip →
  emits (apply_lists (FW:=R) cache config ipv6 rs c names uc sets em)
    (λ r l, ∃ new, r.1.1 = sets ++ new ∧ r.1.2 = em || negb (bool_decide (new = [])) ∧
       l = new ≫= (λ n, rule_call (with_criteria rs [] c) (Some n)) ∧
       ∀ usage, agrees usage → base_names → realized_rule_sets config usage ipv6 names uc sets = (r.1.1, r.2)).
Proof.
  intros Hs. revert uc sets em. induction names as [|n names IH]; intros uc sets em; cbn [apply_lists].
  { eapply emits_weaken; [apply emits_ret|]. intros r l [-> ->]. exists []. cbn.
    by rewrite app_nil_r, orb_false_r. }
  destruct (config_lists config !! n) as [cfg|] eqn:Ec.
  2:{ eapply emits_weaken; [apply IH|]. intros r l (new & H1 & H2 & H3 & H4). exists new.
      cbn [realized_rule_sets]. rewrite Ec. auto. }
  eapply emits_weaken.
  { apply (emits_bind _ _ (λ u l, l = [] ∧ (uc !! n = Some u ∨ uc !! n = None ∧ analyze_list_set_usage cache n cfg = Ok u))).
    - destruct (uc !! n) as [u|]; [eapply emits_weaken; [apply emits_ret|]; naive_solver|].
      eapply emits_weaken; [apply emits_lift|]. naive_solver.
    - intros u. apply emits_bind; [by apply emits_list|]. intros ns. apply IH. }
  cbn. intros r l (u & l1 & l2 & -> & [-> Hu] & ns & l3 & l4 & -> & [-> ->] & new & H1 & H2 & -> & H4).
  exists (list_sets n u ++ new). rewrite H1, H2, app_assoc. split; [done|]. split.
  { rewrite <- !orb_assoc. f_equal. unfold list_sets.
    destruct (has_static_entries u); [done|]. by destruct (has_domain_entries u). }
  split; [by rewrite bind_app|]. intros usage Hag Hb. rewrite Ec. specialize (H4 usage Hag Hb). rewrite H1 in H4.
  destruct Hu as [Hu|[Hu Ha]]; rewrite Hu; rewrite ?(Hag _ _ _ Ha), <- list_sets_realized by done; [|done].
  rewrite insert_id in H4; done.
Qed.

Lemma emits_when_rule (b : bool) rs c : action_type rs ≠ RuleActionType.Skip →
  emits (when b (apply_rule (FW:=R) rs c None))
    (λ _ l, l = if b then rule_call (with_criteria rs [] c) None else []).
Proof. intros Hs. destruct b; cbn [when]; [by apply emits_rule|apply silent_ret]. Qed.

Lemma emits_route_rule rule rs uc : action_type rs ≠ RuleActionType.Skip →
  emits (apply_route_rule (FW:=R) cache config ipv6 rule rs uc)
    (λ r l, ∃ c sets, r.1 = with_criteria rs sets c ∧ build_firewall_rule_criteria rule = Ok c ∧
       l = state_calls (with_criteria rs sets c) ∧
       ∀ usage, agrees usage → base_names →
         realized_rule_sets config usage ipv6 (route_rule_lists rule) uc [] = (sets, r.2)).
Proof.
  intros Hs. unfold apply_route_rule. eapply emits_weaken.
  { apply emits_bind; [apply emits_lift|]. intros c.
    apply (emits_bind _ _ (λ r l, l = state_calls (with_criteria rs r.1 c) ∧
      ∀ usage, agrees usage → base_names →
         realized_rule_sets config usage ipv6 (route_rule_lists rule) uc [] = r));
      [|intros r; apply emits_ret].
    destruct (bool_decide (route_rule_lists rule = [])) eqn:El.
    - apply bool_decide_eq_true in El. rewrite El. eapply emits_weaken.
      { apply emits_bind; [by apply emits_when_rule|]. intros ?. apply emits_ret. }
      cbn. by intros r l (_ & l1 & l2 & -> & -> & -> & ->); rewrite app_nil_r.
    - eapply emits_weaken.
      { apply emits_bind; [by apply emits_lists|]. intros ?.
        apply emits_bind; [by apply emits_when_rule|]. intros ?. apply emits_ret. }
      cbn. intros r l ([[sets em] uc'] & l1 & l2 & -> & (new & H1 & H2 & -> & H4) & _ & l3 & l4 & -> & -> & -> & ->).
      cbn in *. subst sets em. split; [|done]. rewrite app_nil_r. unfold state_calls. cbn [set_names with_criteria].
      destruct new as [|n new]; [done|]. cbn [negb]. rewrite bool_decide_eq_false_2 by done. by rewrite app_nil_r. }
  cbn. intros r l (c & l1 & l2 & -> & [Hc ->] & [sets uc'] & l3 & l4 & -> & [-> H] & -> & ->).
  exists c, sets. rewrite app_nil_r. by split_and!.
Qed.

Lemma skip_calls rs : action_type rs = RuleActionType.Skip → state_calls rs = [].
Proof.
  intros H. unfold state_calls.
  assert (Hr : ∀ n, rule_call rs n = []) by (intros n; unfold rule_call; by rewrite H).
  destruct (set_names rs) as [|n l]; [by rewrite Hr; destruct (has_rule_selector _)|].
  induction (n :: l) as [|x l' IH]; [done|]. by rewrite bind_cons, Hr, IH.
Qed.

(** Realizing a state changes neither its action nor its mark. *)
Definition same_action (rs rs' : RuleState) : Prop :=
  action_type rs' = action_type rs ∧ rs_fwmark rs' = rs_fwmark rs.

Lemma emits_route_rules k rules states uc :
  drop k (config_rules config) = rules → rule_index <$> states = seq k (length rules) →
  emits (apply_route_rules (FW:=R) cache config ipv6 rules states uc)
    (λ states' l, l = states' ≫= state_calls ∧ Forall2 same_action states states' ∧
       ∀ usage, agrees usage → base_names → prune_states config usage ipv6 states uc = Ok states').
Proof.
  revert k states uc. induction rules as [|rule rules IH]; intros k states uc Hk Hi.
  { destruct states; [|done]. eapply emits_weaken; [apply emits_ret|].
    intros ? l [-> ->]. split_and!; [done|constructor|done]. }
  destruct states as [|rs states]; [done|]. cbn in Hi. injection Hi as Hi1 Hi2.
  assert (Hk' : drop (S k) (config_rules config) = rules) by (by rewrite <- Nat.add_1_r, <- drop_drop, Hk).
  assert (Hr : config_rules config !! rule_index rs = Some rule)
    by (by rewrite Hi1, <- (Nat.add_0_r k), <- lookup_drop, Hk).
  cbn [apply_route_rules]. destruct (bool_decide (action_type rs = RuleActionType.Skip)) eqn:Es.
  - apply bool_decide_eq_true in Es. eapply emits_weaken.
    { apply emits_bind; [by apply (IH (S k))|]. intros ?. apply emits_ret. }
    cbn. intros st l (rest & l1 & l2 & -> & (-> & Ha & Hp) & -> & ->). rewrite bind_cons, skip_calls, app_nil_r by done.
    split; [done|]. split; [by constructor|]. intros usage Hag Hb. rewrite bool_decide_eq_true_2 by done. by rewrite (Hp usage Hag Hb).
  - apply bool_decide_eq_false in Es. eapply emits_weaken.
    { apply emits_bind; [by apply emits_route_rule|]. intros ?.
      apply emits_bind; [by apply (IH (S k))|]. intros ?. apply emits_ret. }
    cbn. intros st l ([rs' uc'] & l1 & l2 & -> & (c & sets & -> & Hc & -> & Hs) & rest & l3 & l4 & -> & (-> & Ha & Hp) & -> & ->).
    rewrite bind_cons, app_nil_r. split; [done|]. split; [by constructor|]. intros usage Hag Hb.
    rewrite bool_decide_eq_false_2 by done. rewrite Hr, Hc. cbn. cbn in Hs. rewrite (Hs usage Hag Hb).
    cbn in Hp. by rewrite (Hp usage Hag Hb).
Qed.

Lemma emits_for_each {A} (f : A → stexc (list call) unit) (g : A → list call) l :
  (∀ x, emits (f x) (λ _ r, r = g x)) → emits (for_each f l) (λ _ r, r = l ≫= g).
Proof.
  intros Hf. induction l as [|x l IH]; cbn; [apply silent_ret|].
  eapply emits_weaken; [by apply (emits_bind _ _ (λ _ r, r = g x) (λ _ _ r, r = l ≫= g))|].
  by intros a r (_ & l1 & l2 & -> & -> & ->).
Qed.

Lemma emits_detour registry marks server :
  emits (apply_detour (FW:=R) config marks registry server)
    (λ _ l, l = detour_calls registry config marks server).
Proof.
  unfold apply_detour, detour_calls. destruct (dns_detour server) as [d|]; [|apply silent_ret]. cbn [mbind option_bind].
  destruct (find_outbound _ d) as [ob|]; [|apply silent_ret]. destruct (marks !! _) as [mark|]; [|apply silent_ret].
  assert (H : ∀ l, emits (for_each (λ s, c ← lift (detour_criteria s); create_mark_rule (Firewall:=R) mark c) l)
    (λ _ r, r = l ≫= λ s, match detour_criteria s with Ok c => [Call_create_mark_rule mark c] | _ => [] end)).
  { intros l. apply emits_for_each. intros x. eapply emits_weaken.
    { apply emits_bind; [apply emits_lift|]. intros ?. apply emits_record. }
    intros ? r (c & l1 & l2 & -> & [-> ->] & ->). done. }
  destruct (get_servers registry (dns_tag server)) eqn:E; [|apply H].
  by intros log a log' [= ? ?].
Qed.
End recorded.

Lemma build_states_index config marks sel :
  rule_index <$> build_fw_rule_states config marks sel = seq 0 (length (config_rules config)).
Proof.
  unfold build_fw_rule_states. apply list_eq. intros i. rewrite list_lookup_fmap, list_lookup_imap.
  destruct (config_rules config !! i) as [rule|] eqn:E; cbn.
  - rewrite fw_rule_state_index. symmetry. apply lookup_seq. split; [done|]. by eapply lookup_lt_Some.
  - symmetry. apply lookup_seq_ge. by apply lookup_ge_None.
Qed.

(** The detour rules of a configuration. *)
Definition config_detour_calls {SS : StdSort} {IP : InetPton} (keenetic : exc (list cstring))
    (config : Config) (marks : OutboundMarkMap) : list call :=
  match dns config with
  | None => []
  | Some d =>
      match make_DnsServerRegistry keenetic d with
      | Ok registry => value_or (servers d) [] ≫= detour_calls registry config marks
      | _ => []
      end
  end.

Lemma emits_detours {SS : StdSort} {IP : InetPton} keenetic config marks static dynamic :
  emits (apply_detours (FW:=recorder static dynamic) keenetic config marks)
    (λ _ l, l = config_detour_calls keenetic config marks).
Proof.
  unfold apply_detours, config_detour_calls. destruct (dns config) as [d|]; [|apply silent_ret].
  eapply emits_weaken.
  { apply emits_bind; [apply emits_lift|]. intros registry. apply emits_for_each.
    intros server. apply emits_detour. }
  by intros ? l (registry & l1 & l2 & -> & [-> ->] & ->).
Qed.

Lemma queue_calls {SS : StdSort} {IP : InetPton} {FS : Files} {F : Type} {FW : Firewall F}
    {SN : StableNames F} cache keenetic config marks sel ipv6 mode s states s' :
  apply_runtime_firewall cache keenetic config marks sel ipv6 mode s = (Ok states, s') →
  ∃ calls s1 s2,
    configure_firewall config ipv6 mode s = (Ok tt, s1) ∧
    queue_rules (FW:=recorder (static_set_name s1) (dynamic_set_name s1)) cache keenetic config marks sel ipv6 [] =
      (Ok states, calls) ∧
    replay calls s1 = (Ok tt, s2) ∧ fw_apply mode s2 = (Ok tt, s').
Proof.
  intros ([] & s1 & Hconf & H)%stexc_bind_Ok. apply stexc_bind_Ok in H as (st & s2 & Hq & H).
  apply stexc_bind_Ok in H as ([] & s3 & Ha & [= -> ->]).
  destruct (tracks_queue cache keenetic config marks sel ipv6 (static_set_name s1) (dynamic_set_name s1))
    as (r & calls & Hrec & Hrun). rewrite (Hrun s1) in Hq by done.
  destruct (replay calls s1) as [[[]|e|] s2'] eqn:Er; [|done..]. injection Hq as -> <-.
  exists calls, s1, s2'. split; [done|]. split; [apply (Hrec [])|]. done.
Qed.

(** The rules among the calls, and the states. *)
Lemma queue_calls_rules {SS : StdSort} {IP : InetPton} {FS : Files} cache keenetic config marks sel ipv6
    static dynamic states calls :
  queue_rules (FW:=recorder static dynamic) cache keenetic config marks sel ipv6 [] = (Ok states, calls) →
  List.filter is_rule calls = (states ≫= state_calls) ++ config_detour_calls keenetic config marks ∧
  Forall2 same_action (build_fw_rule_states config marks (Some sel)) states ∧
  (∀ usage, agrees cache usage → static = base_static_set_name → dynamic = base_dynamic_set_name →
    prune_fw_rule_states_to_realized_sets config usage ipv6
      (build_fw_rule_states config marks (Some sel)) = Ok states).
Proof.
  intros (states0 & log1 & Hr & Hd)%stexc_bind_Ok. apply stexc_bind_Ok in Hd as ([] & log2 & Hd & [= -> ->]).
  apply (emits_route_rules cache config ipv6 static dynamic 0) in Hr
    as (l1 & -> & H1 & Hsame & H2); [|done|apply build_states_index].
  apply emits_detours in Hd as (l2 & Hl & H3). cbn in Hl. subst calls.
  rewrite List.filter_app, H1, H3. split; [done|]. split; [done|]. intros usage Hag Hs Hdyn. by apply H2.
Qed.


(** ** The marks of the rules *)

(** A mark rule of a rule state carries the state's mark. *)
Lemma state_calls_mark rs m c :
  Call_create_mark_rule m c ∈ state_calls rs →
  action_type rs = RuleActionType.Mark ∧ m = rs_fwmark rs.
Proof.
  assert (Hr : ∀ n, Call_create_mark_rule m c ∈ rule_call rs n →
    action_type rs = RuleActionType.Mark ∧ m = rs_fwmark rs).
  { intros n. unfold rule_call. destruct (action_type rs); try case_match;
      rewrite ?list_elem_of_singleton, ?elem_of_nil; naive_solver. }
  unfold state_calls. destruct (set_names rs) as [|n l].
  - destruct (has_rule_selector _); [apply Hr|by intros ?%elem_of_nil].
  - intros (n' & H & _)%list_elem_of_bind. by eapply Hr.
Qed.

(** A mark rule of a detour carries the mark of a urltest, or the internal
    mark of an outbound that is a detour. *)
Lemma detour_calls_mark {SS : StdSort} {IP : InetPton} keenetic config marks m c :
  Call_create_mark_rule m c ∈ config_detour_calls keenetic config marks →
  ∃ ob, ob ∈ value_or (outbounds config) [] ∧ is_internal_detour config (tag ob) = true ∧
    ((type ob = OutboundType.URLTEST ∧ marks !! tag ob = Some m) ∨
     marks !! internal_detour_mark_key (tag ob) = Some m).
Proof.
  unfold config_detour_calls. destruct (dns config) as [d|] eqn:Ed; [|by intros ?%elem_of_nil].
  destruct (make_DnsServerRegistry keenetic d) as [registry|e|]; [|by intros ?%elem_of_nil..].
  intros (server & H & Hin)%list_elem_of_bind. unfold detour_calls in H.
  destruct (dns_detour server) as [det|] eqn:Edet; [|by apply elem_of_nil in H]. cbn [mbind option_bind] in H.
  destruct (find_outbound _ det) as [ob|] eqn:Ef; [|by apply elem_of_nil in H].
  apply find_outbound_Some in Ef as [Hob <-].
  destruct (marks !! _) as [mark|] eqn:Em; [|by apply elem_of_nil in H].
  exists ob. split; [done|]. split.
  - unfold is_internal_detour. apply orb_true_iff. right. rewrite Ed. cbn [value_or].
    apply any_of_true. exists server. split; [done|]. unfold option_eqb. by rewrite Edet, bool_decide_eq_true_2.
  - apply list_elem_of_bind in H as (s & H & _). destruct (detour_criteria s); try by apply elem_of_nil in H.
    apply list_elem_of_singleton in H as [= -> _]. case_bool_decide; auto.
Qed.

(** The mark [m] is steered by the plan: it is the mark of an outbound, sent to
    its table with a guard where one is due, or the internal mark of an outbound
    that is a detour, sent to its table with a guard. *)
Definition mark_routed (config : Config) (marks : OutboundMarkMap) reach (ipv6 : bool) (p : plan)
    (m : Z) : Prop :=
  ∃ ob t, ob ∈ value_or (outbounds config) [] ∧ is_routable (type ob) = true ∧
    table_of config reach ipv6 p ob t ∧
    ((marks !! tag ob = Some m ∧ steered p m t (needs_guard config ob)) ∨
     (marks !! internal_detour_mark_key (tag ob) = Some m ∧ steered p m t True)).

(** C7.  End to end: with the marks that the daemon allocates, with room for the
    priorities of four rules per outbound, and with no urltest whose selected
    child is an "ignore" outbound, a run of the firewall that succeeds has queued,
    after the settings are made, only mark rules whose mark the routing plan
    steers.  That holds for the rules of the route rules and for those of the
    DNS detours: each mark is that of a configured routable outbound, sent to the
    table of that outbound (with default routes for a urltest and for an
    interface that is reachable or strict) and stopped by a terminal rule when
    the outbound is a urltest or strict; or the internal mark of an outbound that
    is a detour, sent to the same table and always stopped. *)
Theorem marked_traffic_is_routed {SS : StdSort} {IP : InetPton} {FS : Files} {F : Type}
    {FW : Firewall F} {SN : StableNames F} cache keenetic config marks mask sel reach ipv6 avail
    mode s states s' :
  let fw := value_or (fwmark config) default_FwmarkConfig in
  allocate_outbound_marks fw (value_or (outbounds config) []) = Ok marks →
  fwmark_mask_value fw = Ok mask → priority_room config → selections_routable config (Some sel) →
  apply_runtime_firewall cache keenetic config marks sel ipv6 mode s = (Ok states, s') →
  ∃ p calls s1 s2,
    plan_routing config marks mask reach (Some sel) ipv6 avail = Ok p ∧
    configure_firewall config ipv6 mode s = (Ok tt, s1) ∧
    replay calls s1 = (Ok tt, s2) ∧ fw_apply mode s2 = (Ok tt, s') ∧
    ∀ m c, Call_create_mark_rule m c ∈ calls → mark_routed config marks reach ipv6 p m.
Proof.
  intros fw Ha Hm Hroom Hsel Hrun.
  destruct (queue_calls _ _ _ _ _ _ _ _ _ _ Hrun) as (calls & s1 & s2 & H1 & H2 & H3 & H4).
  destruct (queue_calls_rules _ _ _ _ _ _ _ _ _ _ H2) as (Hcalls & Hsame & _).
  destruct (plan_routing_fail_safe config marks mask reach (Some sel) ipv6 avail Hroom) as (p & Hp & Hfs).
  exists p, calls, s1, s2. split_and!; [done..|]. intros m c Hin.
  destruct (allocate_outbound_marks_Ok _ _ _ _ Ha Hm) as [Hcov _].
  assert (Hown : ∀ ob, ob ∈ value_or (outbounds config) [] → is_routable (type ob) = true →
    marks !! tag ob = Some m → mark_routed config marks reach ipv6 p m).
  { intros ob Hob Hrt Hmk. destruct (Hfs ob m Hob Hrt Hmk) as (t & Ht & Hst & _). exists ob, t. auto 10. }
  assert (Hr : Call_create_mark_rule m c ∈ List.filter is_rule calls) by (by apply list_elem_of_In, filter_In; rewrite <- list_elem_of_In).
  rewrite Hcalls, elem_of_app in Hr. destruct Hr as [(rs' & Hc & Hrs)%list_elem_of_bind|Hr].
  - apply state_calls_mark in Hc as [Hmark ->].
    apply list_elem_of_lookup in Hrs as [i Hi].
    destruct (Forall2_lookup_r _ _ _ _ _ Hsame Hi) as (rs & Hi' & Hact & Hfm).
    apply list_elem_of_lookup_2 in Hi'. apply elem_of_build_fw_rule_states in Hi' as (j & rule & Hr & ->).
    rewrite Hact in Hmark.
    destruct (mark_state_outbound config marks (Some sel) j rule Hsel Hmark) as (ob & Hob & Hrt & Hv).
    destruct (Hcov ob Hob Hrt) as [[m Hmk] _]. rewrite Hmk in Hv. cbn in Hv.
    eapply Hown; [done|done|]. by rewrite Hfm, Hv.
  - apply detour_calls_mark in Hr as (ob & Hob & Hdet & [[Hu Hmk]|Hmk]).
    { eapply Hown; [done| |done]. by rewrite Hu. }
    destruct (allocate_outbound_marks_keys _ _ _ _ _ Ha Hmk) as (ob' & Hob' & Hrt & [Hkey|Hkey]).
    { eapply Hown; [done..|]. by rewrite <- Hkey. }
    apply app_inv_head in Hkey. destruct (Hcov ob' Hob' Hrt) as [[m' Hmk'] _].
    destruct (Hfs ob' m' Hob' Hrt Hmk') as (t & Ht & _ & Hst). rewrite Hkey in *.
    exists ob', t. auto 10.
Qed.
