(* ===== verification/FirewallTrace.v ===== *)
(** * Sets are declared before the rules that use them

    The calls [queue_rules] makes on a backend with the common names create
    every set, with the family its name says, before a rule refers to it. *)

From S2P Require Import Prelude CppString Config PortSpec Fwmark AddrSpec DnsServer.
From S2P Require Import RoutingState FirewallRules ListParser ListStreamer Firewall.

Local Open Scope Z_scope.

Definition name_family (set_name : cstring) : Z :=
  if starts_with "kpbr6" set_name then AF_INET6 else AF_INET.

Definition call_set (c : call) : option cstring :=
  match c with
  | Call_create_mark_rule _ c | Call_create_drop_rule c | Call_create_pass_rule c => dst_set_name c
  | _ => None
  end.

(** The sets known after some calls. *)
Fixpoint known_after (known : list cstring) (calls : list call) : list cstring :=
  match calls with
  | [] => known
  | Call_create_ipset n _ _ :: calls => known_after (n :: known) calls
  | _ :: calls => known_after known calls
  end.

(** [ipv6] says whether sets of IPv6 are in use. *)
Definition well_created (ipv6 : bool) (c : call) : Prop :=
  match c with
  | Call_create_ipset n f _ => f = name_family n ∧ (f = AF_INET6 → ipv6 = true)
  | _ => True
  end.

Section declared.
Context (ipv6 : bool).

Fixpoint declared (known : list cstring) (calls : list call) : Prop :=
  match calls with
  | [] => True
  | c :: calls =>
      well_created ipv6 c ∧
      match call_set c with Some n => n ∈ known | None => True end ∧
      declared (known_after known [c]) calls
  end.

Lemma known_after_app k l1 l2 : known_after k (l1 ++ l2) = known_after (known_after k l1) l2.
Proof. revert k. induction l1 as [|c l1 IH]; intros k; [done|]. destruct c; cbn; apply IH. Qed.

Lemma known_after_mono k k' l : k ⊆ k' → known_after k l ⊆ known_after k' l.
Proof.
  revert k k'. induction l as [|c l IH]; intros k k' H; [done|].
  destruct c; cbn; apply IH; try done. set_solver.
Qed.
Lemma known_after_incl k l : k ⊆ known_after k l.
Proof.
  revert k. induction l as [|c l IH]; intros k; [done|]. destruct c; cbn; try apply IH.
  etrans; [|apply IH]. set_solver.
Qed.

Lemma declared_mono k k' l : k ⊆ k' → declared k l → declared k' l.
Proof.
  revert k k'. induction l as [|c l IH]; intros k k' Hk; [done|]. cbn [declared]. intros (H1 & H2 & H3).
  split; [done|]. split; [destruct (call_set c); [by apply Hk|done]|].
  eapply IH; [|done]. by apply known_after_mono.
Qed.

Lemma declared_app k l1 l2 : declared k (l1 ++ l2) ↔ declared k l1 ∧ declared (known_after k l1) l2.
Proof.
  revert k. induction l1 as [|c l1 IH]; intros k; cbn [app declared]; [cbn; tauto|].
  rewrite IH. replace (known_after k (c :: l1)) with (known_after (known_after k [c]) l1); [tauto|].
  by rewrite <- known_after_app.
Qed.

(** A computation that, when it returns, has declared what it uses, from the
    sets in [k], and leaves at least [k'] declared. *)
Definition declares {A} (k : list cstring) (m : stexc (list call) A) (k' : list cstring) : Prop :=
  ∀ log a log', m log = (Ok a, log') → ∃ l, log' = log ++ l ∧ declared k l ∧ k' ⊆ known_after k l.

Lemma declares_bind {A B} k k1 k2 (m : stexc (list call) A) (f : A → stexc (list call) B) :
  declares k m k1 → (∀ a, declares k1 (f a) k2) → declares k (m ≫= f) k2.
Proof.
  intros Hm Hf log b log' (a & log1 & H1 & H2)%stexc_bind_Ok.
  destruct (Hm _ _ _ H1) as (l1 & -> & Hd1 & Hk1). destruct (Hf _ _ _ _ H2) as (l2 & -> & Hd2 & Hk2).
  exists (l1 ++ l2). rewrite app_assoc, declared_app, known_after_app. split; [done|].
  split; [split; [done|by eapply declared_mono]|]. etrans; [exact Hk2|]. by apply known_after_mono.
Qed.

Lemma declares_lift {A} k (r : exc A) : declares k (lift r) k.
Proof. intros log a log' [= -> <-]. exists []. by rewrite app_nil_r. Qed.
Lemma declares_ret {A} k (a : A) : declares k (mret a) k.
Proof. apply (declares_lift k (Ok a)). Qed.
Lemma declares_weaken {A} k k1 k2 (m : stexc (list call) A) : k2 ⊆ k1 → declares k m k1 → declares k m k2.
Proof. intros Hk Hm log a log' H. destruct (Hm _ _ _ H) as (l & -> & Hd & Hk1). exists l. split; [done|]. split; [done|]. by etrans. Qed.
Lemma declares_record k c :
  well_created ipv6 c →
  match call_set c with Some n => n ∈ k | None => True end →
  declares k (record c) (known_after k [c]).
Proof. intros H1 H2 log a log' [= <- <-]. exists [c]. split; [done|]. by cbn. Qed.
Lemma declares_when_true k (b : bool) m : (b = true → declares k m k) → declares k (when b m) k.
Proof. intros H. destruct b; [by apply H|apply declares_ret]. Qed.
Lemma declares_when k (b : bool) m : declares k m k → declares k (when b m) k.
Proof. intros H. by apply declares_when_true. Qed.
Lemma declares_for_each {A} k (f : A → stexc (list call) unit) l :
  (∀ x, declares k (f x) k) → declares k (for_each f l) k.
Proof. intros Hf. induction l; cbn; [apply declares_ret|]. by eapply declares_bind. Qed.

End declared.

Section queue.
Context {SS : StdSort} {IP : InetPton} {FS : Files} (cache : CacheManager).
Context (keenetic : exc (list cstring)) (config : Config) (marks : OutboundMarkMap).
Context (sel : gmap cstring cstring) (ipv6 : bool).
Abbreviation R := (recorder base_static_set_name base_dynamic_set_name).
Abbreviation declares k m k' := (declares ipv6 k m k').
Abbreviation create n f t := (create_ipset (Firewall:=R) n f t).

Lemma declares_rule k rs c n : match n with Some n => n ∈ k | None => True end →
  declares k (apply_rule (FW:=R) rs c n) k.
Proof.
  intros Hn. unfold apply_rule. destruct (action_type rs).
  1,4: destruct (negb _); [|apply declares_ret].
  - apply (declares_record ipv6 k (Call_create_mark_rule _ (with_set c n))); [done|by destruct n].
  - apply (declares_record ipv6 k (Call_create_mark_rule _ (with_set c n))); [done|by destruct n].
  - apply (declares_record ipv6 k (Call_create_drop_rule (with_set c n))); [done|by destruct n].
  - apply (declares_record ipv6 k (Call_create_pass_rule (with_set c n))); [done|by destruct n].
Qed.

(** The two sets of a kind. *)
Definition kind_sets (n4 n6 : cstring) : list cstring := n4 :: (if ipv6 then [n6] else []).

Lemma declares_create6 k n6 t : name_family n6 = AF_INET6 →
  declares k (when ipv6 (create n6 AF_INET6 t)) ((if ipv6 then [n6] else []) ++ k).
Proof.
  intros H6. destruct ipv6; cbn [when]; [by apply (declares_record true k (Call_create_ipset n6 AF_INET6 t))|apply declares_ret].
Qed.

Lemma declares_create k (b : bool) n4 n6 t : name_family n4 = AF_INET → name_family n6 = AF_INET6 →
  declares k (when b (create n4 AF_INET t ≫= λ _, when ipv6 (create n6 AF_INET6 t)))
    ((if b then kind_sets n4 n6 else []) ++ k).
Proof.
  intros H4 H6. destruct b; cbn [when]; [|apply declares_ret].
  eapply declares_bind; [by apply (declares_record ipv6 k (Call_create_ipset n4 AF_INET t))|]. intros _.
  eapply declares_weaken; [|by apply declares_create6]. unfold kind_sets. cbn. destruct ipv6; set_solver.
Qed.

Lemma declares_create_then k (b : bool) n4 n6 t rest : name_family n4 = AF_INET → name_family n6 = AF_INET6 →
  (∀ k, declares k rest k) →
  declares k (when b (create n4 AF_INET t ≫= λ _, when ipv6 (create n6 AF_INET6 t) ≫= λ _, rest))
    ((if b then kind_sets n4 n6 else []) ++ k).
Proof.
  intros H4 H6 Hrest. destruct b; cbn [when]; [|apply declares_ret].
  eapply declares_bind; [by apply (declares_record ipv6 k (Call_create_ipset n4 AF_INET t))|]. intros _.
  eapply declares_bind; [by apply declares_create6|]. intros _.
  eapply declares_weaken; [|apply Hrest]. unfold kind_sets. cbn. destruct ipv6; set_solver.
Qed.

Lemma declares_use k (b : bool) rs c n4 n6 : (b = true → kind_sets n4 n6 ⊆ k) →
  declares k (when b (apply_rule (FW:=R) rs c (Some n4) ≫= λ _, when ipv6 (apply_rule (FW:=R) rs c (Some n6)))) k.
Proof.
  unfold kind_sets. intros Hk. destruct b; cbn [when]; [|apply declares_ret]. specialize (Hk eq_refl).
  eapply declares_bind; [apply declares_rule; apply Hk; left|]. intros _.
  apply declares_when_true. intros E6. apply declares_rule, Hk. rewrite E6. right; left.
Qed.

Lemma base_name_families name :
  name_family (base_static_set_name name AF_INET) = AF_INET ∧
  name_family (base_static_set_name name AF_INET6) = AF_INET6 ∧
  name_family (base_dynamic_set_name name AF_INET) = AF_INET ∧
  name_family (base_dynamic_set_name name AF_INET6) = AF_INET6.
Proof. done. Qed.

Lemma declares_load k name cfg set4 set6 :
  declares k (create_batch_loader (Firewall:=R) set4 ≫= λ _,
     when ipv6 (create_batch_loader (Firewall:=R) set6) ≫= λ _,
     stream_to cache name cfg (splitter (FW:=R) ipv6 set4 set6)) k.
Proof.
  eapply declares_bind; [by apply (declares_record ipv6 k (Call_create_batch_loader set4))|]. intros _.
  eapply declares_bind; [apply declares_when; by apply (declares_record ipv6 k (Call_create_batch_loader set6))|]. intros _.
  unfold stream_to. destruct (stream_list _ _ _ _) as [r v].
  eapply declares_bind; [apply declares_for_each|intros _; apply declares_lift]. intros e. unfold splitter.
  destruct (bool_decide _); [apply declares_ret|].
  destruct (find_char _ _); [|by eapply (declares_record ipv6 k (Call_on_entry _ _ _))].
  apply (declares_when ipv6 k ipv6). by eapply (declares_record ipv6 k (Call_on_entry _ _ _)).
Qed.

Lemma declares_list k rs c name cfg u :
  declares k (apply_list (FW:=R) cache ipv6 rs c name cfg u) k.
Proof.
  change (declares k (apply_list_named (FW:=R) cache ipv6 rs c name cfg u
    (base_static_set_name name AF_INET) (base_static_set_name name AF_INET6)
    (base_dynamic_set_name name AF_INET) (base_dynamic_set_name name AF_INET6)) k).
  destruct (base_name_families name) as (F1 & F2 & F3 & F4). unfold apply_list_named.
  eapply declares_bind; [apply declares_create_then; [done..|]; intros k'; apply declares_load|]. intros _.
  eapply declares_bind; [by apply declares_create|]. intros _.
  eapply declares_bind; [apply declares_use; intros ->; set_solver|]. intros _.
  eapply declares_bind; [apply declares_use; intros ->; set_solver|]. intros _.
  eapply declares_weaken; [|apply declares_ret]. set_solver.
Qed.

Lemma declares_lists k rs c names uc sets em :
  declares k (apply_lists (FW:=R) cache config ipv6 rs c names uc sets em) k.
Proof.
  revert uc sets em. induction names as [|n names IH]; intros uc sets em; cbn [apply_lists]; [apply declares_ret|].
  destruct (config_lists config !! n); [|apply IH].
  eapply declares_bind; [destruct (uc !! n); [apply declares_ret|apply declares_lift]|]. intros u.
  eapply declares_bind; [apply declares_list|]. intros ns. apply IH.
Qed.

Lemma declares_route_rules k rules states uc :
  declares k (apply_route_rules (FW:=R) cache config ipv6 rules states uc) k.
Proof.
  revert states uc. induction rules as [|rule rules IH]; intros [|rs states] uc; cbn [apply_route_rules];
    try apply declares_ret; [by intros log a log'|].
  destruct (bool_decide _); [eapply declares_bind; [apply IH|intros ?; apply declares_ret]|].
  eapply declares_bind; [|intros r; eapply declares_bind; [apply IH|intros ?; apply declares_ret]].
  unfold apply_route_rule. eapply declares_bind; [apply declares_lift|]. intros c.
  eapply declares_bind; [|intros ?; apply declares_ret].
  destruct (bool_decide _).
  - eapply declares_bind; [by apply declares_when, declares_rule|intros ?; apply declares_ret].
  - eapply declares_bind; [apply declares_lists|]. intros r.
    eapply declares_bind; [by apply declares_when, declares_rule|intros ?; apply declares_ret].
Qed.

Lemma detour_criteria_no_set s c : detour_criteria s = Ok c → dst_set_name c = None.
Proof. unfold detour_criteria. by intros (port & _ & [= <-])%exc_bind_Ok. Qed.

Lemma declares_detours k : declares k (apply_detours (FW:=R) keenetic config marks) k.
Proof.
  unfold apply_detours. destruct (dns config); [|apply declares_ret].
  eapply declares_bind; [apply declares_lift|]. intros registry. apply declares_for_each. intros server.
  unfold apply_detour. destruct (dns_detour server); [|apply declares_ret].
  destruct (find_outbound _ _); [|apply declares_ret]. destruct (marks !! _) as [mark|]; [|apply declares_ret].
  destruct (get_servers _ _) as [|x servers]; [by intros log a log'|]. apply declares_for_each. intros s.
  intros log a log' (c & log1 & H1 & H2)%stexc_bind_Ok. injection H1 as Hc <-. injection H2 as <- <-.
  exists [Call_create_mark_rule mark c]. split; [done|]. cbn. by rewrite (detour_criteria_no_set _ _ Hc).
Qed.

(** Every set is created, with the family of its name, before it is used. *)
Lemma declares_queue : declares [] (queue_rules (FW:=R) cache keenetic config marks sel ipv6) [].
Proof.
  eapply declares_bind; [apply declares_route_rules|]. intros st.
  eapply declares_bind; [apply declares_detours|]. intros _. apply declares_ret.
Qed.
End queue.

(** A run on a backend with the common names: its calls, with their sets
    declared and their rules those of the states. *)
Lemma runtime_calls {SS : StdSort} {IP : InetPton} {FS : Files} {F : Type} {FW : Firewall F} {SN : StableNames F}
    cache keenetic config marks sel ipv6 mode s states s' :
  (∀ s, static_set_name (Firewall:=FW) s = base_static_set_name) →
  (∀ s, dynamic_set_name (Firewall:=FW) s = base_dynamic_set_name) →
  apply_runtime_firewall cache keenetic config marks sel ipv6 mode s = (Ok states, s') →
  ∃ calls s1 s2,
    configure_firewall config ipv6 mode s = (Ok tt, s1) ∧ replay calls s1 = (Ok tt, s2) ∧
    declared ipv6 [] calls ∧ fw_apply mode s2 = (Ok tt, s') ∧
    List.filter is_rule calls = (states ≫= state_calls) ++ config_detour_calls keenetic config marks.
Proof.
  intros Hs Hd Hrun. destruct (queue_calls _ _ _ _ _ _ _ _ _ _ Hrun) as (calls & s1 & s2 & H1 & H2 & H3 & H4).
  exists calls, s1, s2. rewrite Hs, Hd in H2. split; [done|]. split; [done|]. split; [|split; [done|]].
  - by destruct (declares_queue _ _ _ _ _ _ _ _ _ H2) as (l & -> & Hl & _).
  - by apply (queue_calls_rules _ _ _ _ _ _ _ _ _ _ H2).
Qed.

(** ** Invariants of a backend

    What a backend keeps in every call with names of its own, it keeps in the
    whole run, also when the run throws. *)

Definition own_call (static dynamic : cstring → Z → cstring) (c : call) : Prop :=
  match c with
  | Call_create_ipset n _ _ => (∃ l f, n = static l f) ∨ ∃ l f, n = dynamic l f
  | Call_create_batch_loader n | Call_on_entry n _ _ => ∃ l f, n = static l f
  | _ => True
  end.

Section backend_invariant.
Context {SS : StdSort} {IP : InetPton} {FS : Files} (cache : CacheManager).
Context {F : Type} {FW : Firewall F} (static dynamic : cstring → Z → cstring) (I : F → Prop).
Context (I_named : ∀ s, I s → static_set_name s = static ∧ dynamic_set_name s = dynamic).
Context (I_call : ∀ c, own_call static dynamic c → preserves I (perform c)).
Context (config : Config) (ipv6 : bool).

Lemma preserves_lift {A} (r : exc A) : preserves I (lift r).
Proof. by intros s. Qed.
Lemma preserves_when (b : bool) m : preserves I m → preserves I (when b m).
Proof. intros H. destruct b; [done|apply preserves_ret]. Qed.
Create HintDb inv discriminated.
#[local] Hint Resolve preserves_lift preserves_when preserves_ret preserves_throw preserves_bind : inv.

Lemma preserves_rule rs c n : preserves I (apply_rule rs c n).
Proof.
  unfold apply_rule. destruct (action_type rs).
  1,4: destruct (negb _); [|apply preserves_ret].
  1,2: by apply (I_call (Call_create_mark_rule _ _)).
  - by apply (I_call (Call_create_drop_rule _)).
  - by apply (I_call (Call_create_pass_rule _)).
Qed.

Lemma preserves_create n f t : own_call static dynamic (Call_create_ipset n f t) →
  preserves I (create_ipset n f t).
Proof. apply (I_call (Call_create_ipset n f t)). Qed.

Lemma preserves_load name cfg l f4 f6 : preserves I
  (create_batch_loader (static l f4) ≫= λ _,
   when ipv6 (create_batch_loader (static l f6)) ≫= λ _,
   stream_to cache name cfg (splitter ipv6 (static l f4) (static l f6))).
Proof.
  assert (Hl : ∀ f, preserves I (create_batch_loader (static l f)))
    by (intros f; apply (I_call (Call_create_batch_loader _)); cbn; eauto).
  assert (He : ∀ f t e, preserves I (loader_on_entry (static l f) t e))
    by (intros f t e; apply (I_call (Call_on_entry _ _ _)); cbn; eauto).
  apply preserves_bind; [done|]. intros _. apply preserves_bind; [auto with inv|]. intros _.
  unfold stream_to. destruct (stream_list _ _ _ _) as [r v]. apply preserves_bind; [|auto with inv].
  apply preserves_for_each. intros e _. unfold splitter. destruct (bool_decide _); [auto with inv|].
  destruct (find_char _ _); [|done]. destruct ipv6; auto with inv.
Qed.

Lemma preserves_list rs c name cfg u : preserves I (apply_list cache ipv6 rs c name cfg u).
Proof.
  assert (Hc : ∀ f t, preserves I (create_ipset (static name f) f t)) by (intros f t; apply preserves_create; cbn; eauto).
  assert (Hd : ∀ f t, preserves I (create_ipset (dynamic name f) f t)) by (intros f t; apply preserves_create; cbn; eauto).
  pose proof preserves_rule as Hr. pose proof (preserves_load name cfg name AF_INET AF_INET6) as Hl.
  assert (H : preserves I (apply_list_named cache ipv6 rs c name cfg u (static name AF_INET) (static name AF_INET6)
    (dynamic name AF_INET) (dynamic name AF_INET6))) by (unfold apply_list_named; auto 12 with inv).
  intros s Hs. unfold apply_list. destruct (I_named s Hs) as [-> ->]. by apply H.
Qed.

Lemma preserves_lists rs c names uc sets em :
  preserves I (apply_lists cache config ipv6 rs c names uc sets em).
Proof.
  revert uc sets em. induction names as [|n names IH]; intros uc sets em; cbn [apply_lists]; [auto with inv|].
  destruct (config_lists config !! n); [|apply IH].
  apply preserves_bind; [by destruct (uc !! n); auto with inv|]. intros u.
  apply preserves_bind; [apply preserves_list|]. intros ns. apply IH.
Qed.

Lemma preserves_route_rules rules states uc :
  preserves I (apply_route_rules cache config ipv6 rules states uc).
Proof.
  revert states uc. induction rules as [|rule rules IH]; intros [|rs states] uc; cbn [apply_route_rules];
    auto with inv; [by intros s|].
  destruct (bool_decide _); [auto with inv|]. apply preserves_bind; [|auto with inv].
  unfold apply_route_rule. apply preserves_bind; [auto with inv|]. intros c. apply preserves_bind; [|auto with inv].
  pose proof preserves_rule as Hr. destruct (bool_decide _); [auto with inv|].
  apply preserves_bind; [apply preserves_lists|auto with inv].
Qed.

Lemma preserves_queue keenetic marks sel :
  preserves I (queue_rules cache keenetic config marks sel ipv6).
Proof.
  apply preserves_bind; [apply preserves_route_rules|]. intros st. apply preserves_bind; [|auto with inv].
  unfold apply_detours. destruct (dns config); [|auto with inv]. apply preserves_bind; [auto with inv|].
  intros registry. apply preserves_for_each. intros server _. unfold apply_detour.
  destruct (dns_detour server); [|auto with inv]. destruct (find_outbound _ _); [|auto with inv].
  destruct (marks !! _); [|auto with inv]. destruct (get_servers _ _); [auto with inv|].
  apply preserves_for_each. intros y _. apply preserves_bind; [auto with inv|]. intros c.
  by apply (I_call (Call_create_mark_rule _ _)).
Qed.
End backend_invariant.
