(* ===== verification/Nftables.v ===== *)
(** * The nftables backend (src/src/firewall/nftables.{hpp,cpp},
      nft_batch_pipe.{hpp,cpp})

    Rules, sets and elements are queued and applied as one JSON document.  The
    document is a value of [json] here; its text, and the [nft] program that
    executes it, are the class [Nft]. *)

From S2P Require Import Prelude CppString Config PortSpec AddrSpec RoutingState FirewallRules.
From S2P Require Import ListParser Firewall Json.

Local Open Scope Z_scope.

(** ** Reading a dump *)

(** [json::value] with a string and with an unsigned default; nft prints no
    fractional number. *)
Definition value_str (k : cstring) (l : list (cstring * json)) : exc cstring :=
  match assoc k l with
  | None => Ok []
  | Some (JStr s) => Ok s
  | Some _ => Throw (json_exception "type must be string")
  end.
Definition value_uint (k : cstring) (l : list (cstring * json)) : exc Z :=
  match assoc k l with
  | None => Ok 0
  | Some (JInt z) => Ok (u32 z)
  | Some (JBool b) => Ok (if b then 1 else 0)
  | Some _ => Throw (json_exception "type must be number")
  end.

Definition TABLE_NAME : cstring := "KeenPbrTable".
Definition CHAIN_NAME : cstring := "prerouting".
Definition OUTPUT_CHAIN_NAME : cstring := "output".

(** ** What is queued *)

Record PendingSet := mk_PendingSet { ps_name : cstring; ps_type : cstring; ps_timeout : Z }.

Module Action.
Inductive t := Mark | Drop | Pass.
#[global] Instance t_eq_dec : EqDecision t.
Proof. solve_decision. Defined.
End Action.

Record PendingRule := mk_PendingRule {
  pr_family : Z;
  pr_action : Action.t;
  pr_fwmark : Z;
  pr_fwmark_mask : Z;
  save_conntrack_mark : bool;
  pr_criteria : FirewallRuleCriteria;
}.

Record LiveTableState := mk_LiveTableState {
  lt_table_exists : bool;
  chain_exists : bool;
  output_chain_exists : bool;
  live_set_names : gset cstring;
  set_schemas : gmap cstring cstring;
}.
Definition empty_LiveTableState : LiveTableState := mk_LiveTableState false false false ∅ ∅.

(** The object, with the kernel it acts on. *)
Record NftablesFirewall (K : Type) := mk_Nft {
  nft_base : FirewallBase;
  pending_sets_ : list PendingSet;
  pending_elements_ : gmap cstring (list json);
  pending_rules_ : list PendingRule;
  created_sets_ : gmap cstring Z;
  table_created_ : bool;
  kernel : K;
}.
Arguments mk_Nft {K}. Arguments nft_base {K}. Arguments pending_sets_ {K}. Arguments pending_elements_ {K}.
Arguments pending_rules_ {K}. Arguments created_sets_ {K}. Arguments table_created_ {K}. Arguments kernel {K}.

(** ** Addresses and protocols *)

Definition is_ipv6_addr (addr : cstring) : bool := has_value (find_char ":" addr).

Definition filter_addrs_by_family (addrs : list cstring) (ipv6 : bool) : list cstring :=
  List.filter (λ addr, Bool.eqb (is_ipv6_addr addr) ipv6) addrs.

Definition expand_l4_protos (proto : L4Proto.t) : list L4Proto.t :=
  match proto with L4Proto.TcpUdp => [L4Proto.Tcp; L4Proto.Udp] | _ => [proto] end.

Definition needs_family_specific_rule (c : FirewallRuleCriteria) : bool :=
  has_value (dst_set_name c) || has_value (fc_dscp c) || negb (bool_decide (fc_src_addr c = [])) ||
  negb (bool_decide (fc_dst_addr c = [])) || negb (spec_empty (fc_src_port c)) ||
  negb (spec_empty (fc_dst_port c)).

Definition is_dynamic_set_name (set_name : cstring) : bool :=
  starts_with "kpbr4d_" set_name || starts_with "kpbr6d_" set_name.

Definition set_schema_key (s : PendingSet) : cstring := ps_type s ++ ":" ++ to_string (ps_timeout s).

(** ** Elements (nft_batch_pipe.cpp) *)

Definition cidr_to_nft_prefix_json (cidr : cstring) : exc json :=
  match find_char "/" cidr with
  | None => Throw (invalid_argument ("Invalid CIDR for nft prefix encoding: " ++ cidr))
  | Some slash =>
      if (slash =? 0)%nat || (length cidr <=? slash + 1)%nat
      then Throw (invalid_argument ("Invalid CIDR for nft prefix encoding: " ++ cidr))
      else match whole (from_chars_int (drop (slash + 1) cidr)) with
      | None => Throw (invalid_argument ("Invalid prefix length for nft prefix encoding: " ++ cidr))
      | Some prefix_len =>
          Ok (obj1 "prefix" (JObj [(str "addr", JStr (take slash cidr)); (str "len", JInt prefix_len)]))
      end
  end.

Definition nft_element (t : EntryType.t) (entry : cstring) : exc (option json) :=
  match t with
  | EntryType.Domain => Ok None
  | EntryType.Cidr => Some <$> cidr_to_nft_prefix_json entry
  | EntryType.Ip => Ok (Some (JStr entry))
  end.

(** ** The parts of a rule *)

Definition port_spec_to_nft_rhs (spec : PortSpec) : exc json :=
  let range_json := λ r, obj1 "range" (JArr [JInt (PortSpec.pr_from r); JInt (pr_to r)]) in
  match kind spec with
  | PortSpecKind.List =>
      Ok (obj1 "set" (JArr ((λ r, if negb (PortSpec.pr_from r =? pr_to r) then range_json r
                                  else JInt (PortSpec.pr_from r)) <$> ranges spec)))
  | PortSpecKind.Range => match ranges spec with r :: _ => Ok (range_json r) | [] => Undefined end
  | _ => match ranges spec with r :: _ => Ok (JInt (PortSpec.pr_from r)) | [] => Undefined end
  end.

Definition match_json (op : cstring) (left right : json) : json :=
  obj1 "match" (JObj [(str "op", JStr op); (str "left", left); (str "right", right)]).
Definition payload_json (protocol field : cstring) : json :=
  obj1 "payload" (JObj [(str "protocol", JStr protocol); (str "field", JStr field)]).
Definition meta_json (key : cstring) : json := obj1 "meta" (obj1 "key" (JStr key)).
Definition ct_json (key : cstring) : json := obj1 "ct" (obj1 "key" (JStr key)).
Definition counter_json : json := obj1 "counter" JNull.
Definition accept_json : json := obj1 "accept" JNull.
Definition drop_json : json := obj1 "drop" JNull.
Definition mangle_json (key value : json) : json := obj1 "mangle" (JObj [(str "key", key); (str "value", value)]).
Definition binop_json (op : cstring) (l r : json) : json := obj1 op (JArr [l; r]).
Definition op_json (negated : bool) : cstring := if negated then str "!=" else str "==".

Definition build_port_match_exprs (proto : L4Proto.t) (src dst : PortSpec) (neg_src neg_dst : bool) :
    exc (list json) :=
  if bool_decide (proto = L4Proto.Any) && spec_empty src && spec_empty dst then Ok []
  else
    let proto_expr :=
      if negb (bool_decide (proto = L4Proto.Any))
      then [match_json "==" (meta_json "l4proto") (JStr (l4_proto_name proto))] else [] in
    let payload_proto := if bool_decide (proto = L4Proto.Any) then str "th" else l4_proto_name proto in
    s ← (if spec_empty src then Ok []
         else rhs ← port_spec_to_nft_rhs src;
              Ok [match_json (op_json neg_src) (payload_json payload_proto "sport") rhs]);
    d ← (if spec_empty dst then Ok []
         else rhs ← port_spec_to_nft_rhs dst;
              Ok [match_json (op_json neg_dst) (payload_json payload_proto "dport") rhs]);
    Ok (proto_expr ++ s ++ d).

(** The prefix an address stands for. *)
Definition addr_prefix (addr : cstring) : exc (cstring * Z) :=
  match find_char "/" addr with
  | Some slash => len ← stoi (drop (slash + 1) addr); Ok (take slash addr, len)
  | None => Ok (addr, if is_ipv6_addr addr then 128 else 32)
  end.

Definition addr_to_rhs (addr : cstring) : exc json :=
  p ← addr_prefix addr;
  Ok (obj1 "prefix" (JObj [(str "addr", JStr p.1); (str "len", JInt p.2)])).

Fixpoint exc_map {A B} (f : A → exc B) (l : list A) : exc (list B) :=
  match l with
  | [] => Ok []
  | x :: l => y ← f x; ys ← exc_map f l; Ok (y :: ys)
  end.

Definition cidr_list_to_nft_rhs (addrs : list cstring) : exc json :=
  match addrs with
  | [a] => addr_to_rhs a
  | _ => l ← exc_map addr_to_rhs addrs; Ok (obj1 "set" (JArr l))
  end.

Definition build_addr_match_exprs (ip_proto : cstring) (src dst : list cstring) (neg_src neg_dst : bool) :
    exc (list json) :=
  s ← (if bool_decide (src = []) then Ok []
       else rhs ← cidr_list_to_nft_rhs src;
            Ok [match_json (op_json neg_src) (payload_json ip_proto "saddr") rhs]);
  d ← (if bool_decide (dst = []) then Ok []
       else rhs ← cidr_list_to_nft_rhs dst;
            Ok [match_json (op_json neg_dst) (payload_json ip_proto "daddr") rhs]);
  Ok (s ++ d).

Definition build_dscp_match_exprs (ip_proto : cstring) (dscp : option Z) : list json :=
  match dscp with
  | None => []
  | Some d => [match_json "==" (payload_json ip_proto "dscp") (JInt d)]
  end.

Definition ip_proto_of (family : Z) : cstring := if family =? AF_INET6 then str "ip6" else str "ip".

(** The matches that the three kinds of rules share. *)
Definition rule_matches_json (r : PendingRule) : exc (list json) :=
  let c := pr_criteria r in
  let ip_proto := ip_proto_of (pr_family r) in
  let set_expr := match dst_set_name c with
    | Some n => [match_json "==" (payload_json ip_proto "daddr") (JStr ("@" ++ n))]
    | None => [] end in
  a ← build_addr_match_exprs ip_proto (fc_src_addr c) (fc_dst_addr c) (negate_src_addr c) (negate_dst_addr c);
  p ← build_port_match_exprs (fc_proto c) (fc_src_port c) (fc_dst_port c) (negate_src_port c) (negate_dst_port c);
  Ok (set_expr ++ build_dscp_match_exprs ip_proto (fc_dscp c) ++ a ++ p).

Definition rule_json (chain : cstring) (expr : list json) : json :=
  obj1 "add" (obj1 "rule" (JObj [(str "family", JStr "inet"); (str "table", JStr TABLE_NAME);
    (str "chain", JStr chain); (str "expr", JArr expr)])).
Definition rule_chain (r : PendingRule) : cstring :=
  if apply_output (pr_criteria r) then OUTPUT_CHAIN_NAME else CHAIN_NAME.

(** [meta mark set ...]: the whole mark, or only the bits of the mask. *)
Definition mark_value_json (r : PendingRule) : json :=
  if pr_fwmark_mask r =? 0xFFFFFFFF then JInt (pr_fwmark r)
  else binop_json "|" (binop_json "&" (meta_json "mark") (JInt (not32 (pr_fwmark_mask r)))) (JInt (pr_fwmark r)).

Definition build_mark_rule_json (r : PendingRule) : exc json :=
  m ← rule_matches_json r;
  Ok (rule_json (rule_chain r)
    (m ++ [counter_json; mangle_json (meta_json "mark") (mark_value_json r)] ++
     (if save_conntrack_mark r
      then [mangle_json (ct_json "mark") (binop_json "&" (meta_json "mark") (JInt (pr_fwmark_mask r)))] else []) ++
     [accept_json])).
Definition build_drop_rule_json (r : PendingRule) : exc json :=
  m ← rule_matches_json r; Ok (rule_json (rule_chain r) (m ++ [counter_json; drop_json])).
Definition build_pass_rule_json (r : PendingRule) : exc json :=
  m ← rule_matches_json r; Ok (rule_json (rule_chain r) (m ++ [counter_json; accept_json])).

Definition build_pending_rule_json (r : PendingRule) : exc json :=
  match pr_action r with
  | Action.Mark => build_mark_rule_json r
  | Action.Drop => build_drop_rule_json r
  | Action.Pass => build_pass_rule_json r
  end.

(** The rules ahead of the configured ones. *)
Definition restore_exprs (p : FirewallGlobalPrefilter) : list (list json) :=
  if restore_conntrack_mark p && negb (conntrack_mark_mask p =? 0) then
    let masked := binop_json "&" (ct_json "mark") (JInt (conntrack_mark_mask p)) in
    [[match_json "==" (ct_json "direction") (JInt 0); match_json "!=" masked (JInt 0);
      mangle_json (meta_json "mark") masked; accept_json]]
  else [].
Definition dnat_exprs (p : FirewallGlobalPrefilter) : list (list json) :=
  if skip_established_or_dnat p
  then [[match_json "in" (ct_json "status") (JStr "dnat"); counter_json; accept_json]] else [].
Definition marked_exprs (p : FirewallGlobalPrefilter) : list (list json) :=
  if pf_skip_marked_packets p
  then [[match_json "!=" (meta_json "mark") (JInt 0); counter_json; accept_json]] else [].
Definition iface_exprs (p : FirewallGlobalPrefilter) : list (list json) :=
  match pf_inbound_interfaces p with
  | Some (i :: l) =>
      let rhs := match l with [] => JStr i | _ => obj1 "set" (JArr (JStr <$> i :: l)) end in
      [[match_json "!=" (meta_json "iifname") rhs; counter_json; accept_json]]
  | _ => []
  end.
Definition prefilter_exprs (p : FirewallGlobalPrefilter) : list (list json) :=
  restore_exprs p ++ dnat_exprs p ++ marked_exprs p ++ iface_exprs p.

Definition build_rule_add_commands (p : FirewallGlobalPrefilter) (rules : list PendingRule) : exc (list json) :=
  l ← exc_map build_pending_rule_json rules;
  Ok ((rule_json CHAIN_NAME <$> prefilter_exprs p) ++ l).

(** ** The document *)

Definition build_table_json : json :=
  obj1 "add" (obj1 "table" (JObj [(str "family", JStr "inet"); (str "name", JStr TABLE_NAME)])).
Definition set_ref_json (name : cstring) : json :=
  obj1 "set" (JObj [(str "family", JStr "inet"); (str "table", JStr TABLE_NAME); (str "name", JStr name)]).
Definition build_flush_set_json (name : cstring) : json := obj1 "flush" (set_ref_json name).
Definition build_delete_set_json (name : cstring) : json := obj1 "delete" (set_ref_json name).
Definition build_set_json (ps : PendingSet) : json :=
  let timed := 0 <? ps_timeout ps in
  obj1 "add" (obj1 "set" (JObj ([(str "family", JStr "inet"); (str "table", JStr TABLE_NAME);
    (str "name", JStr (ps_name ps)); (str "type", JStr (ps_type ps));
    (str "flags", JArr (JStr "interval" :: (if timed then [JStr "timeout"] else [])));
    (str "auto-merge", JBool true)] ++ (if timed then [(str "timeout", JInt (ps_timeout ps))] else [])))).
Definition chain_json (name hook : cstring) : json :=
  obj1 "add" (obj1 "chain" (JObj [(str "family", JStr "inet"); (str "table", JStr TABLE_NAME);
    (str "name", JStr name); (str "type", JStr "filter"); (str "hook", JStr hook); (str "prio", JInt (-150));
    (str "policy", JStr "accept")])).
Definition build_chain_json : json := chain_json CHAIN_NAME "prerouting".
Definition build_output_chain_json : json := chain_json OUTPUT_CHAIN_NAME "output".
Definition delete_chain_json (name : cstring) : json :=
  obj1 "delete" (obj1 "chain" (JObj [(str "family", JStr "inet"); (str "table", JStr TABLE_NAME);
    (str "name", JStr name)])).
Definition build_delete_chain_json : json := delete_chain_json CHAIN_NAME.
Definition build_delete_output_chain_json : json := delete_chain_json OUTPUT_CHAIN_NAME.
Definition build_elements_json (name : cstring) (elems : list json) : json :=
  obj1 "add" (obj1 "element" (JObj [(str "family", JStr "inet"); (str "table", JStr TABLE_NAME);
    (str "name", JStr name); (str "elem", JArr elems)])).

(** The commands for one pending set. *)
Definition set_commands (live : LiveTableState) (full clear_dynamic : bool) (ps : PendingSet) : exc (list json) :=
  let existing := negb full && bool_decide (ps_name ps ∈ live_set_names live) in
  if existing && is_dynamic_set_name (ps_name ps)
  then Ok (if clear_dynamic then [build_flush_set_json (ps_name ps)] else [])
  else if existing then
    match set_schemas live !! ps_name ps with
    | None => Throw (out_of_range "map::at")
    | Some schema =>
        Ok (if bool_decide (schema = set_schema_key ps) then []
            else [build_delete_set_json (ps_name ps); build_set_json ps])
    end
  else Ok [build_set_json ps].

(** The commands for the elements of one set. *)
Definition element_commands (live : LiveTableState) (full : bool) (e : cstring * list json) : list json :=
  let existing := negb full && bool_decide (e.1 ∈ live_set_names live) in
  if existing && is_dynamic_set_name e.1 then []
  else (if existing then [build_flush_set_json e.1] else []) ++
       (if bool_decide (length e.2 = 0%nat) then [] else [build_elements_json e.1 e.2]).

Definition chain_commands (live : LiveTableState) (full : bool) (p : FirewallGlobalPrefilter)
    (rules : list PendingRule) : exc (list json) :=
  commands ← build_rule_add_commands p rules;
  Ok ((if negb full && chain_exists live then [build_delete_chain_json] else []) ++
      (if negb full && output_chain_exists live then [build_delete_output_chain_json] else []) ++
      [build_chain_json; build_output_chain_json] ++ commands).

Definition build_apply_document {K} (live : LiveTableState) (full static_sets_only clear_dynamic : bool)
    (f : NftablesFirewall K) : exc (list json) :=
  sets ← exc_map (set_commands live full clear_dynamic) (pending_sets_ f);
  chains ← (if static_sets_only then Ok []
            else chain_commands live full (global_prefilter_ (nft_base f)) (pending_rules_ f));
  Ok ([obj1 "metainfo" (obj1 "json_schema_version" (JInt 1))] ++ (if full then [build_table_json] else []) ++
      mjoin sets ++ chains ++ (in_key_order (pending_elements_ f) ≫= element_commands live full)).

(** ** The object *)

(** The [nft] program and the kernel behind it: the parsed listing of the table
    ([None] when the command fails, prints nothing or no JSON), whether the table
    exists, the exit status of a batch, and the removal of the table. *)
Class Nft (K : Type) := {
  nft_list_table : K → option json;
  nft_table_exists : K → bool;
  nft_run : list json → K → Z * K;
  nft_delete_table : K → K;
}.

Section object.
Context {K : Type} {NF : Nft K}.
Abbreviation M := (stexc (NftablesFirewall K)).

Definition nft_create_ipset (set_name : cstring) (family timeout : Z) : M unit := λ f,
  (Ok tt,
   if (family =? AF_INET6) && negb (ipv6_enabled_ (nft_base f)) then f
   else mk_Nft (nft_base f)
     (pending_sets_ f ++ [mk_PendingSet set_name
        (if family =? AF_INET6 then str "ipv6_addr" else str "ipv4_addr") timeout])
     (pending_elements_ f) (pending_rules_ f) (<[set_name := family]> (created_sets_ f))
     (table_created_ f) (kernel f)).

Definition with_addrs (c : FirewallRuleCriteria) (proto : L4Proto.t) (src dst : list cstring) :
    FirewallRuleCriteria :=
  mk_Criteria (dst_set_name c) (fc_dscp c) proto (fc_src_port c) (fc_dst_port c) src dst
    (negate_src_port c) (negate_dst_port c) (negate_src_addr c) (negate_dst_addr c) (apply_output c).

(** The rules [append_rules_for_family] adds. *)
Definition rules_for_family (base : FirewallBase) (family : Z) (action : Action.t) (fwmark : Z)
    (c : FirewallRuleCriteria) : list PendingRule :=
  if (family =? AF_INET6) && negb (ipv6_enabled_ base) then []
  else
    let ipv6 := family =? AF_INET6 in
    let src := filter_addrs_by_family (fc_src_addr c) ipv6 in
    let dst := filter_addrs_by_family (fc_dst_addr c) ipv6 in
    if (negb (bool_decide (fc_src_addr c = [])) && bool_decide (src = [])) ||
       (negb (bool_decide (fc_dst_addr c = [])) && bool_decide (dst = [])) then []
    else (λ proto, mk_PendingRule family action fwmark (base_fwmark_mask_ base) false
                     (with_addrs c proto src dst)) <$> expand_l4_protos (fc_proto c).

Definition append_rules (l : list PendingRule) (f : NftablesFirewall K) : NftablesFirewall K :=
  mk_Nft (nft_base f) (pending_sets_ f) (pending_elements_ f) (pending_rules_ f ++ l) (created_sets_ f)
    (table_created_ f) (kernel f).

(** The common body of [create_mark_rule], [create_drop_rule] and
    [create_pass_rule]. *)
Definition rules_for (base : FirewallBase) (created : gmap cstring Z) (action : Action.t) (fwmark : Z)
    (c : FirewallRuleCriteria) : list PendingRule :=
  match dst_set_name c with
  | Some n => rules_for_family base (value_or (created !! n) AF_INET) action fwmark c
  | None =>
      rules_for_family base AF_INET action fwmark c ++
      (if negb (needs_family_specific_rule c) then []
       else rules_for_family base AF_INET6 action fwmark c)
  end.

Definition nft_create_rule (action : Action.t) (fwmark : Z) (c : FirewallRuleCriteria) : M unit := λ f,
  (Ok tt, append_rules (rules_for (nft_base f) (created_sets_ f) action fwmark c) f).
Definition nft_create_mark_rule (fwmark : Z) (c : FirewallRuleCriteria) : M unit :=
  nft_create_rule Action.Mark fwmark c.
Definition nft_create_drop_rule (c : FirewallRuleCriteria) : M unit := nft_create_rule Action.Drop 0 c.
Definition nft_create_pass_rule (c : FirewallRuleCriteria) : M unit := nft_create_rule Action.Pass 0 c.

Definition set_elements (m : gmap cstring (list json)) (f : NftablesFirewall K) : NftablesFirewall K :=
  mk_Nft (nft_base f) (pending_sets_ f) m (pending_rules_ f) (created_sets_ f) (table_created_ f) (kernel f).

Definition nft_create_batch_loader (set_name : cstring) : M unit := λ f,
  (Ok tt, set_elements (<[set_name := value_or (pending_elements_ f !! set_name) []]> (pending_elements_ f)) f).

(** [NftBatchVisitor::on_entry] on the buffer of the set. *)
Definition nft_on_entry (set_name : cstring) (t : EntryType.t) (entry : cstring) : M unit := λ f,
  match nft_element t entry with
  | Ok None => (Ok tt, f)
  | Ok (Some j) =>
      (Ok tt, set_elements (<[set_name := value_or (pending_elements_ f !! set_name) [] ++ [j]]>
                              (pending_elements_ f)) f)
  | Throw e => (Throw e, f)
  | Undefined => (Undefined, f)
  end.

(** ** The live table *)

Definition same_str (k v : cstring) (l : list (cstring * json)) : exc bool :=
  s ← value_str k l; Ok (bool_decide (s = v)).
(** [a && b] *)
Definition exc_and (a b : exc bool) : exc bool := x ← a; if x : bool then b else Ok false.

(** One element of the listing. *)
Definition read_item (st : LiveTableState) (item : json) : exc LiveTableState :=
  match item with
  | JObj members =>
      match assoc "table" members with
      | Some (JObj table) =>
          hit ← exc_and (same_str "family" "inet" table) (same_str "name" TABLE_NAME table);
          Ok (if hit : bool
              then mk_LiveTableState true (chain_exists st) (output_chain_exists st) (live_set_names st)
                     (set_schemas st) else st)
      | _ =>
      match assoc "chain" members with
      | Some (JObj chain) =>
          let named := λ n, exc_and (same_str "family" "inet" chain)
            (exc_and (same_str "table" TABLE_NAME chain) (same_str "name" n chain)) in
          pre ← named CHAIN_NAME;
          if pre : bool
          then Ok (mk_LiveTableState (lt_table_exists st) true (output_chain_exists st) (live_set_names st)
                     (set_schemas st))
          else out ← named OUTPUT_CHAIN_NAME;
               Ok (if out : bool
                   then mk_LiveTableState (lt_table_exists st) (chain_exists st) true (live_set_names st)
                          (set_schemas st) else st)
      | _ =>
      match assoc "set" members with
      | Some (JObj set) =>
          hit ← exc_and (same_str "family" "inet" set) (same_str "table" TABLE_NAME set);
          if hit : bool then
            name ← value_str "name" set;
            if bool_decide (name = []) then Ok st
            else
              type ← value_str "type" set;
              timeout ← value_uint "timeout" set;
              Ok (mk_LiveTableState (lt_table_exists st) (chain_exists st) (output_chain_exists st)
                    ({[name]} ∪ live_set_names st)
                    (<[name := type ++ ":" ++ to_string timeout]> (set_schemas st)))
          else Ok st
      | _ => Ok st
      end end end
  | _ => Ok st
  end.

Fixpoint read_items (st : LiveTableState) (items : list json) : exc LiveTableState :=
  match items with
  | [] => Ok st
  | item :: items => st ← read_item st item; read_items st items
  end.

Definition read_live_table_state (k : K) : exc LiveTableState :=
  match nft_list_table k ≫= jfind "nftables" with
  | Some (JArr items) => read_items empty_LiveTableState items
  | _ => Ok empty_LiveTableState
  end.

(** ** Applying *)

Definition with_saved_marks (f : NftablesFirewall K) : NftablesFirewall K :=
  let save := restore_conntrack_mark (global_prefilter_ (nft_base f)) &&
              negb (conntrack_mark_mask (global_prefilter_ (nft_base f)) =? 0) in
  mk_Nft (nft_base f) (pending_sets_ f) (pending_elements_ f)
    ((λ r, mk_PendingRule (pr_family r) (pr_action r) (pr_fwmark r) (pr_fwmark_mask r) save (pr_criteria r)) <$>
     pending_rules_ f) (created_sets_ f) (table_created_ f) (kernel f).

Definition nft_apply (mode : FirewallApplyMode.t) : M unit := λ f,
  match read_live_table_state (kernel f) with
  | Throw e => (Throw e, f)
  | Undefined => (Undefined, f)
  | Ok live =>
      let static_sets_only := bool_decide (mode = FirewallApplyMode.StaticSetsOnly) in
      if static_sets_only && negb (lt_table_exists live)
      then (Throw (FirewallError "cannot refresh list sets before nft firewall state exists"), f)
      else
        let full := negb (lt_table_exists live) in
        let f := with_saved_marks f in
        let clear := bool_decide (mode = FirewallApplyMode.Destructive) &&
                     clear_dynamic_sets_on_apply_ (nft_base f) in
        match build_apply_document live full static_sets_only clear f with
        | Throw e => (Throw e, f)
        | Undefined => (Undefined, f)
        | Ok doc =>
            let '(status, k) := nft_run doc (kernel f) in
            if negb (status =? 0)
            then (Throw (FirewallError ("nft -j -f - exited with status " ++ to_string status)),
                  mk_Nft (nft_base f) (pending_sets_ f) (pending_elements_ f) (pending_rules_ f)
                    (created_sets_ f) (table_created_ f) k)
            else (Ok tt, mk_Nft (nft_base f) [] ∅ [] (created_sets_ f) true k)
        end
  end.

Definition nft_cleanup : M unit := λ f,
  (Ok tt,
   if table_created_ f || nft_table_exists (kernel f)
   then mk_Nft (nft_base f) [] ∅ [] ∅ false (nft_delete_table (kernel f))
   else mk_Nft (nft_base f) [] ∅ [] ∅ (table_created_ f) (kernel f)).

#[export] Instance NftablesFirewall_Firewall : Firewall (NftablesFirewall K) := {|
  fw_base := nft_base;
  fw_set_base b f := mk_Nft b (pending_sets_ f) (pending_elements_ f) (pending_rules_ f) (created_sets_ f)
                       (table_created_ f) (kernel f);
  prepare_apply _ := mret tt;
  static_set_name _ := base_static_set_name;
  dynamic_set_name _ := base_dynamic_set_name;
  create_ipset := nft_create_ipset;
  create_mark_rule := nft_create_mark_rule;
  create_drop_rule := nft_create_drop_rule;
  create_pass_rule := nft_create_pass_rule;
  create_batch_loader := nft_create_batch_loader;
  loader_on_entry := nft_on_entry;
  fw_apply := nft_apply;
  fw_cleanup := nft_cleanup;
  fw_backend := FirewallBackend.nftables;
  uses_raw_prerouting _ := false;
|}.

#[export] Instance nft_stable_names : StableNames (NftablesFirewall K).
Proof. split; reflexivity. Qed.
End object.
