(* ===== verification/Packet.v ===== *)
(** * What the queued rules mean for a packet

    The specification both backends are held to: a rule's criteria decide
    whether it applies to a packet, and the first rule that applies decides what
    becomes of it.  Set membership and address prefixes are a parameter. *)

From S2P Require Import Prelude CppString Config PortSpec AddrSpec RoutingState FirewallRules.
From S2P Require Import ListParser Firewall Json Nftables.

Local Open Scope Z_scope.

Record packet := mk_packet {
  pk_family : Z;
  pk_saddr : list Z;
  pk_daddr : list Z;
  pk_l4 : cstring;
  pk_sport : option Z;
  pk_dport : option Z;
  pk_dscp : Z;
  pk_mark : Z;
  pk_ctmark : Z;
  pk_ctdir : Z;
  pk_dnat : bool;
  pk_iif : cstring;
}.

Definition set_marks (mark ctmark : Z) (p : packet) : packet :=
  mk_packet (pk_family p) (pk_saddr p) (pk_daddr p) (pk_l4 p) (pk_sport p) (pk_dport p) (pk_dscp p)
    mark ctmark (pk_ctdir p) (pk_dnat p) (pk_iif p).

(** The contents of the named sets, and the addresses of a prefix. *)
Class Matching := {
  in_set : cstring → list Z → bool;
  in_prefix : cstring → Z → list Z → bool;
}.

Module Verdict.
Inductive t := Accept | Drop.
#[global] Instance t_eq_dec : EqDecision t.
Proof. solve_decision. Defined.
End Verdict.

(** A verdict with the packet it leaves, or that the chain goes on. *)
Definition outcome : Type := option (Verdict.t * packet).

Section meaning.
Context {MT : Matching}.

Definition in_addr (x : list Z) (addr : cstring) : bool :=
  match addr_prefix addr with Ok p => in_prefix p.1 p.2 x | _ => false end.

(** Addresses of the packet's family; a list without one does not apply. *)
Definition addrs_apply (family : Z) (addrs : list cstring) (negated : bool) (x : list Z) : bool :=
  bool_decide (addrs = []) ||
  (let l := filter_addrs_by_family addrs (family =? AF_INET6) in
   negb (bool_decide (l = [])) && xorb negated (existsb (in_addr x) l)).

Definition in_range (v : Z) (r : PortRange) : bool := (PortSpec.pr_from r <=? v) && (v <=? pr_to r).

(** A packet without ports is matched by no port selector, negated or not. *)
Definition ports_apply (spec : PortSpec) (negated : bool) (port : option Z) : bool :=
  spec_empty spec ||
  match port with
  | Some v => xorb negated (existsb (in_range v) (ranges spec))
  | None => false
  end.

Definition proto_applies (proto : L4Proto.t) (p : packet) : bool :=
  match proto with
  | L4Proto.Any => true
  | L4Proto.Tcp => bool_decide (pk_l4 p = "tcp")
  | L4Proto.Udp => bool_decide (pk_l4 p = "udp")
  | L4Proto.TcpUdp => bool_decide (pk_l4 p = "tcp") || bool_decide (pk_l4 p = "udp")
  end.

(** Selectors that look at the network header need a rule for the family. *)
Definition looks_at_network (c : FirewallRuleCriteria) : bool :=
  has_value (dst_set_name c) || has_value (fc_dscp c) || negb (bool_decide (fc_src_addr c = [])) ||
  negb (bool_decide (fc_dst_addr c = [])).

Context (set_family : cstring → Z) (ipv6_on : bool).

Definition criteria_apply (c : FirewallRuleCriteria) (p : packet) : bool :=
  (negb (looks_at_network c) || negb (pk_family p =? AF_INET6) || ipv6_on) &&
  match dst_set_name c with
  | Some n => (pk_family p =? set_family n) && in_set n (pk_daddr p)
  | None => true
  end &&
  match fc_dscp c with Some d => pk_dscp p =? d | None => true end &&
  addrs_apply (pk_family p) (fc_src_addr c) (negate_src_addr c) (pk_saddr p) &&
  addrs_apply (pk_family p) (fc_dst_addr c) (negate_dst_addr c) (pk_daddr p) &&
  proto_applies (fc_proto c) p &&
  ports_apply (fc_src_port c) (negate_src_port c) (pk_sport p) &&
  ports_apply (fc_dst_port c) (negate_dst_port c) (pk_dport p).

(** Setting the bits of the mask. *)
Definition masked_mark (mask fwmark mark : Z) : Z :=
  if mask =? 0xFFFFFFFF then fwmark else Z.lor (Z.land mark (not32 mask)) fwmark.

Context (mask : Z) (save : bool).

Definition decision (action : Action.t) (fwmark : Z) (p : packet) : Verdict.t * packet :=
  match action with
  | Action.Mark =>
      let mark := masked_mark mask fwmark (pk_mark p) in
      (Verdict.Accept, set_marks mark (if save then Z.land mark mask else pk_ctmark p) p)
  | Action.Drop => (Verdict.Drop, p)
  | Action.Pass => (Verdict.Accept, p)
  end.

(** What a call asks for. *)
Definition call_rule (c : call) : option (Action.t * Z * FirewallRuleCriteria) :=
  match c with
  | Call_create_mark_rule m c => Some (Action.Mark, m, c)
  | Call_create_drop_rule c => Some (Action.Drop, 0, c)
  | Call_create_pass_rule c => Some (Action.Pass, 0, c)
  | _ => None
  end.

Definition call_outcome (output : bool) (c : call) (p : packet) : outcome :=
  match call_rule c with
  | Some (action, m, crit) =>
      if Bool.eqb (apply_output crit) output && criteria_apply crit p then Some (decision action m p) else None
  | None => None
  end.

(** The first call that applies decides. *)
Fixpoint first_match (output : bool) (calls : list call) (p : packet) : outcome :=
  match calls with
  | [] => None
  | c :: calls => match call_outcome output c p with Some o => Some o | None => first_match output calls p end
  end.
End meaning.
