(* ===== verification/NftSemantics.v ===== *)
(** * The nftables document decides as the queued rules say

    The meaning of the JSON rules the backend writes (the fragment of
    libnftables-json(5) that it uses), and the proof that the document refines
    the specification of [Packet]. *)

From S2P Require Import Prelude CppString Config PortSpec AddrSpec RoutingState FirewallRules.
From S2P Require Import ListParser ListStreamer Fwmark DnsServer Firewall FirewallTrace Json Nftables Packet.

Local Open Scope Z_scope.

Inductive field_val := VInt (z : Z) | VAddr (a : list Z) | VStr (s : cstring).

Section semantics.
Context {MT : Matching}.

(** ** Expressions *)

Definition network_field (f : cstring) (p : packet) : option field_val :=
  if bool_decide (f = "saddr") then Some (VAddr (pk_saddr p))
  else if bool_decide (f = "daddr") then Some (VAddr (pk_daddr p))
  else if bool_decide (f = "dscp") then Some (VInt (pk_dscp p)) else None.
Definition transport_field (f : cstring) (p : packet) : option field_val :=
  if bool_decide (f = "sport") then VInt <$> pk_sport p
  else if bool_decide (f = "dport") then VInt <$> pk_dport p else None.

(** A header field exists only in packets with the header. *)
Definition payload_value (protocol f : cstring) (p : packet) : option field_val :=
  if bool_decide (protocol = "ip") then if pk_family p =? AF_INET then network_field f p else None
  else if bool_decide (protocol = "ip6") then if pk_family p =? AF_INET6 then network_field f p else None
  else if bool_decide (protocol = "tcp") then if bool_decide (pk_l4 p = "tcp") then transport_field f p else None
  else if bool_decide (protocol = "udp") then if bool_decide (pk_l4 p = "udp") then transport_field f p else None
  else if bool_decide (protocol = "th") then transport_field f p else None.

Definition meta_value (key : cstring) (p : packet) : option field_val :=
  if bool_decide (key = "mark") then Some (VInt (pk_mark p))
  else if bool_decide (key = "l4proto") then Some (VStr (pk_l4 p))
  else if bool_decide (key = "iifname") then Some (VStr (pk_iif p)) else None.
Definition ct_value (key : cstring) (p : packet) : option field_val :=
  if bool_decide (key = "mark") then Some (VInt (pk_ctmark p))
  else if bool_decide (key = "direction") then Some (VInt (pk_ctdir p))
  else if bool_decide (key = "status") then Some (VStr (if pk_dnat p then str "dnat" else [])) else None.

Definition str_member (k : cstring) (l : list (cstring * json)) : option cstring :=
  match assoc k l with Some (JStr s) => Some s | _ => None end.

Fixpoint expr_value (e : json) (p : packet) : option field_val :=
  match e with
  | JInt z => Some (VInt z)
  | JObj [(k, JObj l)] =>
      if bool_decide (k = "payload") then
        match str_member "protocol" l, str_member "field" l with
        | Some protocol, Some f => payload_value protocol f p
        | _, _ => None
        end
      else match str_member "key" l with
      | Some key => if bool_decide (k = "meta") then meta_value key p
                    else if bool_decide (k = "ct") then ct_value key p else None
      | None => None
      end
  | JObj [(k, JArr [a; JInt m])] =>
      match expr_value a p with
      | Some (VInt z) => if bool_decide (k = "&") then Some (VInt (Z.land z m))
                         else if bool_decide (k = "|") then Some (VInt (Z.lor z m)) else None
      | _ => None
      end
  | _ => None
  end.

(** ** Right-hand sides *)

Definition element_contains (e : json) (v : field_val) : bool :=
  match e, v with
  | JInt z, VInt x => x =? z
  | JStr s, VStr x => bool_decide (x = s)
  | JStr (at_sign :: n), VAddr a => ascii_eqb at_sign "@" && in_set n a
  | JObj [(k, JArr [JInt lo; JInt hi])], VInt x => bool_decide (k = "range") && (lo <=? x) && (x <=? hi)
  | JObj [(k, JObj l)], VAddr a =>
      bool_decide (k = "prefix") &&
      match assoc "addr" l, assoc "len" l with
      | Some (JStr addr), Some (JInt len) => in_prefix addr len a
      | _, _ => false
      end
  | _, _ => false
  end.

Definition rhs_contains (e : json) (v : field_val) : bool :=
  match e with
  | JObj [(k, JArr l)] =>
      if bool_decide (k = "set") then existsb (λ x, element_contains x v) l else element_contains e v
  | _ => element_contains e v
  end.

(** ** Statements *)

(** [None] for a statement outside the fragment. *)
Definition eval_match (l : list (cstring * json)) (p : packet) : option bool :=
  match str_member "op" l, assoc "left" l, assoc "right" l with
  | Some op, Some lhs, Some rhs =>
      match expr_value lhs p with
      | None => Some false
      | Some v => if bool_decide (op = "!=") then Some (negb (rhs_contains rhs v))
                  else if bool_decide (op = "==") || bool_decide (op = "in")
                  then Some (rhs_contains rhs v) else None
      end
  | _, _, _ => None
  end.

Definition eval_mangle (l : list (cstring * json)) (p : packet) : option packet :=
  match assoc "key" l, assoc "value" l with
  | Some (JObj [(k, JObj key)]), Some value =>
      match str_member "key" key, expr_value value p with
      | Some field, Some (VInt z) =>
          if negb (bool_decide (field = "mark")) then None
          else if bool_decide (k = "meta") then Some (set_marks z (pk_ctmark p) p)
          else if bool_decide (k = "ct") then Some (set_marks (pk_mark p) z p) else None
      | _, _ => None
      end
  | _, _ => None
  end.

(** The statements of a rule: the packet and the verdict, if any. *)
Fixpoint run_exprs (l : list json) (p : packet) : option (packet * option Verdict.t) :=
  match l with
  | [] => Some (p, None)
  | JObj [(k, a)] :: l =>
      if bool_decide (k = "match") then
        match a with
        | JObj m => match eval_match m p with
                    | Some true => run_exprs l p
                    | Some false => Some (p, None)
                    | None => None
                    end
        | _ => None
        end
      else if bool_decide (k = "mangle") then
        match a with
        | JObj m => match eval_mangle m p with Some p' => run_exprs l p' | None => None end
        | _ => None
        end
      else if bool_decide (k = "counter") then run_exprs l p
      else if bool_decide (k = "accept") then Some (p, Some Verdict.Accept)
      else if bool_decide (k = "drop") then Some (p, Some Verdict.Drop)
      else None
  | _ => None
  end.

(** The rules a document adds to a chain. *)
Definition command_rule (chain : cstring) (cmd : json) : option (list json) :=
  match jfind "add" cmd ≫= jfind "rule" with
  | Some (JObj l) =>
      match str_member "chain" l, assoc "expr" l with
      | Some c, Some (JArr e) => if bool_decide (c = chain) then Some e else None
      | _, _ => None
      end
  | _ => None
  end.

Fixpoint run_rules (rules : list (list json)) (p : packet) : option (packet * option Verdict.t) :=
  match rules with
  | [] => Some (p, None)
  | e :: rules =>
      match run_exprs e p with
      | Some (p', None) => run_rules rules p'
      | r => r
      end
  end.

(** Does the command delete the chain, with its rules? *)
Definition deletes_chain (chain : cstring) (cmd : json) : bool :=
  match jfind "delete" cmd ≫= jfind "chain" with
  | Some (JObj l) => bool_decide (str_member "name" l = Some chain)
  | _ => false
  end.

(** The rules of a chain after a command, from those it held before: deleting
    the chain removes them, adding a rule appends it, and everything else, such
    as adding a table or a chain that is already there, keeps them. *)
Definition run_command (chain : cstring) (rules : list (list json)) (cmd : json) : list (list json) :=
  if deletes_chain chain cmd then []
  else match command_rule chain cmd with Some e => rules ++ [e] | None => rules end.
Definition rules_after (chain : cstring) (before : list (list json)) (doc : list json) : list (list json) :=
  fold_left (run_command chain) doc before.

(** What the chain does to a packet once the document has been run on a
    kernel in which the chain held [before]. *)
Definition run_chain (chain : cstring) (before : list (list json)) (doc : list json) (p : packet) :
    option (packet * option Verdict.t) :=
  run_rules (rules_after chain before doc) p.

(** A rule that decides or leaves the packet alone. *)
Definition result_of (o : outcome) (p : packet) : packet * option Verdict.t :=
  match o with Some (v, p') => (p', Some v) | None => (p, None) end.

(** ** The matches of a rule *)

(** The statements pass the packets for which [f] holds and no others. *)
Definition guards (m : list json) (f : packet → bool) : Prop :=
  ∀ rest p, run_exprs (m ++ rest) p = if f p then run_exprs rest p else Some (p, None).

Lemma guards_nil : guards [] (λ _, true).
Proof. done. Qed.
Lemma guards_app m1 m2 f1 f2 : guards m1 f1 → guards m2 f2 → guards (m1 ++ m2) (λ p, f1 p && f2 p).
Proof. intros H1 H2 rest p. rewrite <- app_assoc, H1, H2. by destruct (f1 p). Qed.
Lemma guards_ext m f g : (∀ p, f p = g p) → guards m f → guards m g.
Proof. intros Hfg H rest p. by rewrite H, Hfg. Qed.

Lemma guards_match neg lhs rhs :
  guards [match_json (op_json neg) lhs rhs]
    (λ p, match expr_value lhs p with Some v => xorb neg (rhs_contains rhs v) | None => false end).
Proof.
  intros rest p.
  assert (He : eval_match [(str "op", JStr (op_json neg)); (str "left", lhs); (str "right", rhs)] p =
    match expr_value lhs p with
    | Some v => Some (if neg then negb (rhs_contains rhs v) else rhs_contains rhs v)
    | None => Some false end) by (destruct neg; reflexivity).
  cbn [app match_json obj1 run_exprs]. rewrite bool_decide_eq_true_2, He by done.
  destruct (expr_value lhs p) as [v|]; [|done]. by destruct neg, (rhs_contains rhs v).
Qed.

Definition rule_family_ok (fam : Z) : Prop := fam = AF_INET ∨ fam = AF_INET6.

Lemma payload_network fam f p : rule_family_ok fam →
  expr_value (payload_json (ip_proto_of fam) f) p = if pk_family p =? fam then network_field f p else None.
Proof. by intros [-> | ->]. Qed.

Lemma payload_transport proto f p : proto ≠ L4Proto.TcpUdp →
  expr_value (payload_json (if bool_decide (proto = L4Proto.Any) then str "th" else l4_proto_name proto) f) p =
  if proto_applies proto p then transport_field f p else None.
Proof. intros H. by destruct proto. Qed.

Lemma guards_set fam n : rule_family_ok fam →
  guards [match_json "==" (payload_json (ip_proto_of fam) "daddr") (JStr ("@" ++ n))]
    (λ p, (pk_family p =? fam) && in_set n (pk_daddr p)).
Proof.
  intros Hf. eapply guards_ext; [|apply (guards_match false)]. intros p. cbn beta.
  rewrite payload_network by done. by destruct (pk_family p =? fam).
Qed.

Lemma guards_dscp fam d : rule_family_ok fam →
  guards (build_dscp_match_exprs (ip_proto_of fam) d)
    (λ p, match d with Some x => (pk_family p =? fam) && (pk_dscp p =? x) | None => true end).
Proof.
  intros Hf. destruct d as [x|]; [|apply guards_nil].
  eapply guards_ext; [|apply (guards_match false)]. intros p. cbn beta.
  rewrite payload_network by done. by destruct (pk_family p =? fam).
Qed.

Lemma addr_to_rhs_contains addr j x :
  addr_to_rhs addr = Ok j → element_contains j (VAddr x) = in_addr x addr.
Proof. unfold addr_to_rhs, in_addr. intros (pr & -> & [= <-])%exc_bind_Ok. done. Qed.

Lemma exc_map_contains addrs l x :
  exc_map addr_to_rhs addrs = Ok l →
  existsb (λ j, element_contains j (VAddr x)) l = existsb (in_addr x) addrs.
Proof.
  revert l. induction addrs as [|a addrs IH]; intros l; cbn; [by intros [= <-]|].
  intros (j & Hj & H)%exc_bind_Ok. apply exc_bind_Ok in H as (l' & Hl & [= <-]). cbn [existsb].
  by rewrite (addr_to_rhs_contains _ _ _ Hj), (IH _ Hl).
Qed.

Lemma cidr_list_contains addrs rhs x :
  cidr_list_to_nft_rhs addrs = Ok rhs → rhs_contains rhs (VAddr x) = existsb (in_addr x) addrs.
Proof.
  assert (Hset : ∀ l, exc_map addr_to_rhs addrs = Ok l →
    rhs_contains (obj1 "set" (JArr l)) (VAddr x) = existsb (in_addr x) addrs)
    by (intros l Hl; by apply exc_map_contains).
  destruct addrs as [|a [|b addrs]]; cbn [cidr_list_to_nft_rhs].
  - intros (l & Hl & [= <-])%exc_bind_Ok. by apply Hset.
  - intros H. cbn [existsb]. rewrite orb_false_r, <- (addr_to_rhs_contains _ _ x H).
    unfold addr_to_rhs in H. by apply exc_bind_Ok in H as (pr & _ & [= <-]).
  - intros (l & Hl & [= <-])%exc_bind_Ok. by apply Hset.
Qed.

(** The addresses of a rule, already of its family. *)
Definition family_addrs_apply (fam : Z) (addrs : list cstring) (neg : bool) (x : list Z) (p : packet) : bool :=
  bool_decide (addrs = []) || ((pk_family p =? fam) && xorb neg (existsb (in_addr x) addrs)).

Lemma guards_addr fam addrs neg field get m :
  rule_family_ok fam → (∀ p, network_field field p = Some (VAddr (get p))) →
  (if bool_decide (addrs = []) then Ok []
   else rhs ← cidr_list_to_nft_rhs addrs;
        Ok [match_json (op_json neg) (payload_json (ip_proto_of fam) field) rhs]) = Ok m →
  guards m (λ p, family_addrs_apply fam addrs neg (get p) p).
Proof.
  intros Hf Hget. unfold family_addrs_apply. destruct (bool_decide (addrs = [])); cbn [orb].
  { intros [= <-]. apply guards_nil. }
  intros (rhs & Hr & [= <-])%exc_bind_Ok. eapply guards_ext; [|apply guards_match]. intros p. cbn beta.
  rewrite payload_network by done. rewrite Hget. destruct (pk_family p =? fam); [|done].
  by rewrite (cidr_list_contains _ _ _ Hr).
Qed.

Lemma set_contains l v : rhs_contains (obj1 "set" (JArr l)) v = existsb (λ x, element_contains x v) l.
Proof. reflexivity. Qed.
Lemma range_contains r v :
  element_contains (obj1 "range" (JArr [JInt (PortSpec.pr_from r); JInt (pr_to r)])) (VInt v) = in_range v r.
Proof. reflexivity. Qed.
Lemma single_contains r v : PortSpec.pr_from r = pr_to r →
  element_contains (JInt (PortSpec.pr_from r)) (VInt v) = in_range v r.
Proof.
  intros E. unfold in_range. rewrite <- E. cbn. apply eq_true_iff_eq. breflect. lia.
Qed.

Lemma set_members_contain v l :
  existsb (λ j, element_contains j (VInt v)) ((λ r, if negb (PortSpec.pr_from r =? pr_to r)
    then obj1 "range" (JArr [JInt (PortSpec.pr_from r); JInt (pr_to r)]) else JInt (PortSpec.pr_from r)) <$> l) =
  existsb (in_range v) l.
Proof.
  induction l as [|q l IH]; [done|]. rewrite fmap_cons. cbn [existsb]. rewrite <- IH. f_equal.
  destruct (Z.eqb_spec (PortSpec.pr_from q) (pr_to q)) as [E|E]; cbn [negb].
  - by apply single_contains.
  - apply range_contains.
Qed.

Lemma port_rhs_contains spec rhs v :
  port_spec_to_nft_rhs spec = Ok rhs → rhs_contains rhs (VInt v) = existsb (in_range v) (ranges spec).
Proof.
  unfold port_spec_to_nft_rhs, kind. destruct (ranges spec) as [|r [|r' l]]; [done| |].
  - destruct (Z.eqb_spec (PortSpec.pr_from r) (pr_to r)) as [E|E]; intros [= <-]; cbn [existsb]; rewrite orb_false_r.
    + by apply single_contains.
    + apply range_contains.
  - intros [= <-]. rewrite set_contains. apply (set_members_contain v (r :: r' :: l)).
Qed.

Lemma guards_port proto spec neg field get m : proto ≠ L4Proto.TcpUdp →
  (∀ p, transport_field field p = VInt <$> get p) →
  (if spec_empty spec then Ok []
   else rhs ← port_spec_to_nft_rhs spec;
        Ok [match_json (op_json neg) (payload_json
              (if bool_decide (proto = L4Proto.Any) then str "th" else l4_proto_name proto) field) rhs]) = Ok m →
  guards m (λ p, spec_empty spec || (proto_applies proto p && ports_apply spec neg (get p))).
Proof.
  intros Hp Hget. unfold ports_apply. destruct (spec_empty spec); cbn [orb].
  { intros [= <-]. apply guards_nil. }
  intros (rhs & Hr & [= <-])%exc_bind_Ok. eapply guards_ext; [|apply guards_match]. intros p. cbn beta.
  rewrite payload_transport by done. rewrite Hget. destruct (proto_applies proto p); [|done].
  destruct (get p) as [v|]; [|done]. cbn. by rewrite (port_rhs_contains _ _ _ Hr).
Qed.

Lemma guards_ports proto src dst ns nd m : proto ≠ L4Proto.TcpUdp →
  build_port_match_exprs proto src dst ns nd = Ok m →
  guards m (λ p, proto_applies proto p && ports_apply src ns (pk_sport p) && ports_apply dst nd (pk_dport p)).
Proof.
  intros Hp. unfold build_port_match_exprs.
  destruct (bool_decide (proto = L4Proto.Any) && spec_empty src && spec_empty dst) eqn:E0.
  { intros [= <-]. apply andb_true_iff in E0 as [[E1 E2]%andb_true_iff E3]. apply bool_decide_eq_true in E1. subst proto.
    eapply guards_ext; [|apply guards_nil]. intros p. unfold ports_apply. by rewrite E2, E3. }
  intros (s & Hs & H)%exc_bind_Ok. apply exc_bind_Ok in H as (d & Hd & [= <-]).
  apply (guards_port proto src ns "sport" pk_sport) in Hs; [|done..].
  apply (guards_port proto dst nd "dport" pk_dport) in Hd; [|done..].
  assert (Hpr : guards (if negb (bool_decide (proto = L4Proto.Any))
      then [match_json "==" (meta_json "l4proto") (JStr (l4_proto_name proto))] else []) (proto_applies proto)).
  { destruct proto; [apply guards_nil| | |done];
      (eapply guards_ext; [|apply (guards_match false)]; intros p; cbn; by case_bool_decide). }
  eapply guards_ext; [|by apply guards_app; [|apply guards_app]]. intros p. cbn beta. unfold ports_apply.
  destruct (proto_applies proto p), (spec_empty src), (spec_empty dst); cbn; done.
Qed.

(** ** A rule decides for the packets its criteria select *)

Definition rule_applies (r : PendingRule) (p : packet) : bool :=
  let c := pr_criteria r in
  match dst_set_name c with
  | Some n => (pk_family p =? pr_family r) && in_set n (pk_daddr p)
  | None => true
  end &&
  match fc_dscp c with Some d => (pk_family p =? pr_family r) && (pk_dscp p =? d) | None => true end &&
  family_addrs_apply (pr_family r) (fc_src_addr c) (negate_src_addr c) (pk_saddr p) p &&
  family_addrs_apply (pr_family r) (fc_dst_addr c) (negate_dst_addr c) (pk_daddr p) p &&
  proto_applies (fc_proto c) p &&
  ports_apply (fc_src_port c) (negate_src_port c) (pk_sport p) &&
  ports_apply (fc_dst_port c) (negate_dst_port c) (pk_dport p).

Lemma guards_rule r m : rule_family_ok (pr_family r) → fc_proto (pr_criteria r) ≠ L4Proto.TcpUdp →
  rule_matches_json r = Ok m → guards m (rule_applies r).
Proof.
  intros Hf Hp. unfold rule_matches_json, build_addr_match_exprs.
  intros (a & Ha & H)%exc_bind_Ok. apply exc_bind_Ok in H as (po & Hpo & [= <-]).
  apply exc_bind_Ok in Ha as (s & Hs & Ha). apply exc_bind_Ok in Ha as (d & Hd & [= <-]).
  apply (guards_addr _ _ _ "saddr" pk_saddr) in Hs; [|done..].
  apply (guards_addr _ _ _ "daddr" pk_daddr) in Hd; [|done..].
  apply guards_ports in Hpo; [|done].
  eapply guards_ext.
  2:{ apply guards_app; [|apply guards_app; [by apply guards_dscp|apply guards_app; [apply guards_app|]]]; [|done..].
      instantiate (1 := λ p, match dst_set_name (pr_criteria r) with
        | Some n => (pk_family p =? pr_family r) && in_set n (pk_daddr p) | None => true end).
      destruct (dst_set_name (pr_criteria r)); [by apply guards_set|apply guards_nil]. }
  intros p. cbn beta. unfold rule_applies. by rewrite !andb_assoc.
Qed.

Definition rule_outcome (r : PendingRule) (p : packet) : outcome :=
  if rule_applies r p
  then Some (decision (pr_fwmark_mask r) (save_conntrack_mark r) (pr_action r) (pr_fwmark r) p) else None.

Lemma command_rule_json chain c e :
  command_rule chain (rule_json c e) = if bool_decide (c = chain) then Some e else None.
Proof. reflexivity. Qed.

Lemma mark_statements_run r p :
  run_exprs ([counter_json; mangle_json (meta_json "mark") (mark_value_json r)] ++
     (if save_conntrack_mark r
      then [mangle_json (ct_json "mark") (binop_json "&" (meta_json "mark") (JInt (pr_fwmark_mask r)))] else []) ++
     [accept_json]) p =
  Some (result_of (Some (decision (pr_fwmark_mask r) (save_conntrack_mark r) Action.Mark (pr_fwmark r) p)) p).
Proof.
  unfold mark_value_json, decision, masked_mark.
  destruct (pr_fwmark_mask r =? 0xFFFFFFFF), (save_conntrack_mark r); reflexivity.
Qed.

Lemma pending_rule_runs r j : rule_family_ok (pr_family r) → fc_proto (pr_criteria r) ≠ L4Proto.TcpUdp →
  build_pending_rule_json r = Ok j →
  ∃ e, j = rule_json (rule_chain r) e ∧ ∀ p, run_exprs e p = Some (result_of (rule_outcome r p) p).
Proof.
  intros Hf Hp. unfold build_pending_rule_json, rule_outcome.
  destruct (pr_action r); intros (m & Hm%guards_rule & [= <-])%exc_bind_Ok; try done;
    (eexists; split; [done|]); intros p; rewrite Hm; destruct (rule_applies r p); try done.
  apply mark_statements_run.
Qed.

(** The first rule of the chain that applies. *)
Fixpoint first_rule (chain : cstring) (rules : list PendingRule) (p : packet) : outcome :=
  match rules with
  | [] => None
  | r :: rules =>
      match (if bool_decide (rule_chain r = chain) then rule_outcome r p else None) with
      | Some o => Some o
      | None => first_rule chain rules p
      end
  end.

Lemma run_chain_first chain rules cmds p :
  Forall (λ r, rule_family_ok (pr_family r) ∧ fc_proto (pr_criteria r) ≠ L4Proto.TcpUdp) rules →
  exc_map build_pending_rule_json rules = Ok cmds →
  run_rules (omap (command_rule chain) cmds) p = Some (result_of (first_rule chain rules p) p).
Proof.
  intros Hr. revert cmds. induction Hr as [|r rules [Hf Hp] _ IH]; intros cmds; cbn [exc_map]; [by intros [= <-]|].
  intros (j & Hj & H)%exc_bind_Ok. apply exc_bind_Ok in H as (cmds' & Hc & [= <-]).
  destruct (pending_rule_runs r j Hf Hp Hj) as (e & -> & He).
  cbn [omap list_omap first_rule]. rewrite command_rule_json.
  destruct (bool_decide (rule_chain r = chain)); [|by apply IH].
  cbn [run_rules]. rewrite He. destruct (rule_outcome r p) as [[v p']|]; [done|by apply IH].
Qed.

(** ** The rules of a call *)

Definition uniform (a : Action.t) (m mask : Z) (save output : bool) (r : PendingRule) : Prop :=
  pr_action r = a ∧ pr_fwmark r = m ∧ pr_fwmark_mask r = mask ∧ save_conntrack_mark r = save ∧
  apply_output (pr_criteria r) = output.

Definition chain_of (output : bool) : cstring := if output then OUTPUT_CHAIN_NAME else CHAIN_NAME.

Lemma first_rule_uniform out a m mask save output l p : Forall (uniform a m mask save output) l →
  first_rule (chain_of out) l p =
  if Bool.eqb output out && existsb (λ r, rule_applies r p) l then Some (decision mask save a m p) else None.
Proof.
  assert (Hc : ∀ r, apply_output (pr_criteria r) = output →
    bool_decide (rule_chain r = chain_of out) = Bool.eqb output out)
    by (intros r Hr; unfold rule_chain; rewrite Hr; by destruct output, out).
  induction 1 as [|r l (Ha & Hm & Hmask & Hs & Ho) _ IH]; [by rewrite andb_false_r|].
  cbn [first_rule existsb]. rewrite Hc, IH by done. unfold rule_outcome. rewrite Ha, Hm, Hmask, Hs.
  by destruct (Bool.eqb output out), (rule_applies r p).
Qed.

Lemma first_rule_app chain l1 l2 p :
  first_rule chain (l1 ++ l2) p = match first_rule chain l1 p with Some o => Some o | None => first_rule chain l2 p end.
Proof.
  induction l1 as [|r l1 IH]; [done|]. cbn [app first_rule]. by destruct (if bool_decide _ then _ else _).
Qed.

Definition with_save (save : bool) (r : PendingRule) : PendingRule :=
  mk_PendingRule (pr_family r) (pr_action r) (pr_fwmark r) (pr_fwmark_mask r) save (pr_criteria r).

(** The rules of one family apply exactly to this. *)
Definition family_applies (ipv6_on : bool) (fam : Z) (c : FirewallRuleCriteria) (p : packet) : bool :=
  let addrs := λ l neg x, bool_decide (l = []) ||
    (let f := filter_addrs_by_family l (fam =? AF_INET6) in
     negb (bool_decide (f = [])) && ((pk_family p =? fam) && xorb neg (existsb (in_addr x) f))) in
  (negb (fam =? AF_INET6) || ipv6_on) &&
  match dst_set_name c with Some n => (pk_family p =? fam) && in_set n (pk_daddr p) | None => true end &&
  match fc_dscp c with Some d => (pk_family p =? fam) && (pk_dscp p =? d) | None => true end &&
  addrs (fc_src_addr c) (negate_src_addr c) (pk_saddr p) &&
  addrs (fc_dst_addr c) (negate_dst_addr c) (pk_daddr p) &&
  proto_applies (fc_proto c) p &&
  ports_apply (fc_src_port c) (negate_src_port c) (pk_sport p) &&
  ports_apply (fc_dst_port c) (negate_dst_port c) (pk_dport p).

(** Splitting the protocols is a disjunction. *)
Lemma expand_protos_apply proto p (b : bool) :
  existsb (λ pr, proto_applies pr p && b) (expand_l4_protos proto) = proto_applies proto p && b.
Proof. destruct proto; cbn; rewrite ?orb_false_r; [done..|]. by destruct b; rewrite ?andb_false_r, ?andb_true_r. Qed.

Lemma existsb_fmap {A B} (f : A → B) (g : B → bool) l : existsb g (f <$> l) = existsb (λ x, g (f x)) l.
Proof. induction l as [|x l IH]; [done|]. rewrite fmap_cons. cbn [existsb]. by rewrite IH. Qed.
Lemma existsb_ext {A} (f g : A → bool) l : (∀ x, f x = g x) → existsb f l = existsb g l.
Proof. intros H. induction l as [|x l IH]; [done|]. cbn. by rewrite H, IH. Qed.
Lemma existsb_andb_l {A} (b : bool) (g : A → bool) l : existsb (λ x, b && g x) l = b && existsb g l.
Proof. induction l as [|x l IH]; cbn; [by rewrite andb_false_r|]. rewrite IH. by destruct b. Qed.

Lemma filter_nil_addrs ipv6 : filter_addrs_by_family [] ipv6 = [].
Proof. done. Qed.

Lemma rules_for_family_apply base save fam a m c p :
  existsb (λ r, rule_applies (with_save save r) p) (rules_for_family base fam a m c) =
  family_applies (ipv6_enabled_ base) fam c p.
Proof.
  unfold rules_for_family, family_applies.
  destruct ((fam =? AF_INET6) && negb (ipv6_enabled_ base)) eqn:E6.
  { apply andb_true_iff in E6 as [E1 E2]. apply negb_true_iff in E2. by rewrite E1, E2. }
  assert ((negb (fam =? AF_INET6) || ipv6_enabled_ base) = true) as ->
    by (destruct (fam =? AF_INET6), (ipv6_enabled_ base); done).
  set (fs := filter_addrs_by_family (fc_src_addr c) _). set (fd := filter_addrs_by_family (fc_dst_addr c) _).
  assert (Haddr : ∀ l neg x, family_addrs_apply fam (filter_addrs_by_family l (fam =? AF_INET6)) neg x p =
    bool_decide (filter_addrs_by_family l (fam =? AF_INET6) = []) ||
    ((pk_family p =? fam) && xorb neg (existsb (in_addr x) (filter_addrs_by_family l (fam =? AF_INET6)))))
    by done.
  destruct ((negb (bool_decide (fc_src_addr c = [])) && bool_decide (fs = [])) ||
            (negb (bool_decide (fc_dst_addr c = [])) && bool_decide (fd = []))) eqn:Ea.
  { cbn [existsb]. symmetry. apply orb_true_iff in Ea as [Ea|Ea]; apply andb_true_iff in Ea as [Ea1 Ea2];
      apply negb_true_iff in Ea1; rewrite Ea1, Ea2; cbn [negb orb andb]; by rewrite !andb_false_r. }
  rewrite existsb_fmap. unfold rule_applies. cbn [pr_criteria with_save with_addrs pr_family dst_set_name fc_dscp
    fc_proto fc_src_port fc_dst_port fc_src_addr fc_dst_addr negate_src_port negate_dst_port negate_src_addr negate_dst_addr].
  unfold fs, fd in *. apply orb_false_iff in Ea as [Ea1 Ea2].
  assert (Hf : ∀ l neg x, negb (bool_decide (l = [])) && bool_decide (filter_addrs_by_family l (fam =? AF_INET6) = []) = false →
    family_addrs_apply fam (filter_addrs_by_family l (fam =? AF_INET6)) neg x p =
    bool_decide (l = []) || (let f := filter_addrs_by_family l (fam =? AF_INET6) in
       negb (bool_decide (f = [])) && ((pk_family p =? fam) && xorb neg (existsb (in_addr x) f)))).
  { intros l neg x Hl. rewrite Haddr. destruct (bool_decide (l = [])) eqn:El.
    - apply bool_decide_eq_true in El as ->. done.
    - cbn [negb andb] in Hl. cbv zeta. rewrite Hl. reflexivity. }
  rewrite (Hf _ _ _ Ea1), (Hf _ _ _ Ea2).
  etrans; [apply existsb_ext; intros x; rewrite <- (andb_assoc _ (ports_apply _ _ _)), <- (andb_assoc _ (proto_applies x p)); reflexivity|].
  rewrite existsb_andb_l, expand_protos_apply. by rewrite !andb_assoc.
Qed.

(** The packet's family is the one that matters. *)
Lemma family_applies_same ipv6_on set_family fam c p : pk_family p = fam →
  match dst_set_name c with Some n => set_family n = fam | None => True end → looks_at_network c = true →
  family_applies ipv6_on fam c p = criteria_apply set_family ipv6_on c p.
Proof.
  intros <- Hs Hl. unfold family_applies, criteria_apply, addrs_apply. rewrite Hl. cbn [negb orb].
  rewrite Z.eqb_refl. cbn [andb]. destruct (dst_set_name c) as [n|]; [|done]. by rewrite Hs, Z.eqb_refl.
Qed.

Lemma family_applies_other ipv6_on fam c p : pk_family p ≠ fam → looks_at_network c = true →
  family_applies ipv6_on fam c p = false.
Proof.
  intros Hne Hl. unfold family_applies, looks_at_network in *. rewrite (proj2 (Z.eqb_neq _ _) Hne). cbn [andb].
  destruct (dst_set_name c); [by rewrite andb_false_r|]. destruct (fc_dscp c); [by rewrite !andb_false_r|].
  cbn [has_value orb] in Hl.
  destruct (bool_decide (fc_src_addr c = [])); cbn [negb orb] in *; [|by rewrite !andb_false_r].
  destruct (bool_decide (fc_dst_addr c = [])); cbn [negb orb] in *; [done|by rewrite !andb_false_r].
Qed.

Lemma family_applies_blind ipv6_on set_family fam c p : looks_at_network c = false →
  family_applies ipv6_on fam c p = (negb (fam =? AF_INET6) || ipv6_on) && criteria_apply set_family ipv6_on c p.
Proof.
  intros H. unfold family_applies, criteria_apply, addrs_apply. rewrite H. unfold looks_at_network in H.
  destruct (dst_set_name c), (fc_dscp c); try done. cbn [has_value orb negb] in *.
  apply orb_false_iff in H as [H1%negb_false_iff H2%negb_false_iff]. rewrite H1, H2.
  cbn [negb orb andb]. by rewrite !andb_true_r, !andb_assoc.
Qed.

(** [rules_for] with the families of the sets. *)
Definition rules_named (base : FirewallBase) (sf : cstring → Z) (a : Action.t) (m : Z)
    (c : FirewallRuleCriteria) : list PendingRule :=
  match dst_set_name c with
  | Some n => rules_for_family base (sf n) a m c
  | None => rules_for base ∅ a m c
  end.

Lemma rules_named_apply base save sf a m c p :
  rule_family_ok (pk_family p) →
  existsb (λ r, rule_applies (with_save save r) p) (rules_named base sf a m c) =
  criteria_apply sf (ipv6_enabled_ base) c p.
Proof.
  intros Hp. unfold rules_named, rules_for.
  destruct (dst_set_name c) as [n|] eqn:En.
  - rewrite rules_for_family_apply. assert (Hl : looks_at_network c = true) by (unfold looks_at_network; by rewrite En).
    destruct (decide (pk_family p = sf n)) as [E|E].
    + apply family_applies_same; [done|by rewrite En|done].
    + rewrite family_applies_other by done. unfold criteria_apply. rewrite En.
      rewrite (proj2 (Z.eqb_neq _ _) E). cbn. by rewrite andb_false_r.
  - rewrite existsb_app, rules_for_family_apply. destruct (looks_at_network c) eqn:Hl.
    + assert (needs_family_specific_rule c = true) as ->
        by (unfold needs_family_specific_rule; fold (looks_at_network c); by rewrite Hl).
      cbn [negb]. rewrite rules_for_family_apply. destruct Hp as [Hp|Hp].
      * rewrite (family_applies_other _ AF_INET6), orb_false_r by (done || rewrite Hp; done).
        apply family_applies_same; [done|by rewrite En|done].
      * rewrite (family_applies_other _ AF_INET) by (done || rewrite Hp; done).
        apply family_applies_same; [done|by rewrite En|done].
    + rewrite (family_applies_blind _ sf AF_INET) by done. cbn [Z.eqb negb orb andb].
      destruct (negb (needs_family_specific_rule c)); cbn [existsb]; [by rewrite orb_false_r|].
      rewrite rules_for_family_apply, (family_applies_blind _ sf AF_INET6) by done.
      change (AF_INET =? AF_INET6) with false. cbn [negb orb andb].
      destruct (criteria_apply sf _ c p); [done|by rewrite andb_false_r].
Qed.

Lemma rules_named_ok base save sf a m c : (∀ n, rule_family_ok (sf n)) →
  Forall (λ r, (rule_family_ok (pr_family r) ∧ fc_proto (pr_criteria r) ≠ L4Proto.TcpUdp) ∧
               uniform a m (base_fwmark_mask_ base) save (apply_output c) r) (with_save save <$> rules_named base sf a m c).
Proof.
  intros Hfam.
  assert (H : ∀ fam, rule_family_ok fam → Forall (λ r, (rule_family_ok (pr_family r) ∧ fc_proto (pr_criteria r) ≠ L4Proto.TcpUdp) ∧
    uniform a m (base_fwmark_mask_ base) save (apply_output c) r) (with_save save <$> rules_for_family base fam a m c)).
  { intros fam Hf. unfold rules_for_family. destruct (_ && _); [constructor|]. destruct (_ || _); [constructor|].
    rewrite <- list_fmap_compose. apply Forall_fmap. eapply (Forall_impl (λ pr, pr ≠ L4Proto.TcpUdp)).
    - destruct (fc_proto c); repeat constructor; done.
    - intros pr Hpr. by split. }
  unfold rules_named, rules_for. destruct (dst_set_name c) as [n|]; [by apply H|].
  rewrite fmap_app. apply Forall_app. split; [apply H; by left|].
  destruct (negb _); [constructor|apply H; by right].
Qed.

(** The pending rules of a call. *)
Definition call_rules (base : FirewallBase) (sf : cstring → Z) (c : call) : list PendingRule :=
  match call_rule c with
  | Some (a, m, crit) => rules_named base sf a m crit
  | None => []
  end.

Lemma call_rules_ok base save sf calls : (∀ n, rule_family_ok (sf n)) →
  Forall (λ r, rule_family_ok (pr_family r) ∧ fc_proto (pr_criteria r) ≠ L4Proto.TcpUdp)
    (with_save save <$> (calls ≫= call_rules base sf)).
Proof.
  intros Hfam. induction calls as [|c calls IH]; [constructor|]. rewrite bind_cons, fmap_app.
  apply Forall_app. split; [|done]. unfold call_rules. destruct (call_rule c) as [[[a m] crit]|]; [|constructor].
  eapply Forall_impl; [by apply rules_named_ok|]. by intros r [H _].
Qed.

Lemma first_rule_calls base save sf out calls p :
  rule_family_ok (pk_family p) → (∀ n, rule_family_ok (sf n)) →
  first_rule (chain_of out) (with_save save <$> (calls ≫= call_rules base sf)) p =
  first_match sf (ipv6_enabled_ base) (base_fwmark_mask_ base) save out calls p.
Proof.
  intros Hp Hfam. induction calls as [|c calls IH]; [done|].
  rewrite bind_cons, fmap_app, first_rule_app, IH. cbn [first_match].
  assert (H : first_rule (chain_of out) (with_save save <$> call_rules base sf c) p =
    call_outcome sf (ipv6_enabled_ base) (base_fwmark_mask_ base) save out c p); [|by rewrite H].
  unfold call_rules, call_outcome. destruct (call_rule c) as [[[a m] crit]|]; [|done].
  rewrite (first_rule_uniform out a m (base_fwmark_mask_ base) save (apply_output crit)).
  - by rewrite existsb_fmap, rules_named_apply.
  - eapply Forall_impl; [by apply rules_named_ok|]. by intros r [_ H].
Qed.
End semantics.

(** ** From the calls to the pending rules *)

Section pending.
Context {K : Type} {NF : Nft K}.

(** The families recorded for the sets are those of their names. *)
Definition families_ok (created : gmap cstring Z) : Prop :=
  ∀ n f, created !! n = Some f → f = name_family n.

Definition knows (known : list cstring) (f : NftablesFirewall K) : Prop :=
  families_ok (created_sets_ f) ∧ ∀ n, n ∈ known → created_sets_ f !! n = Some (name_family n).

Lemma call_rules_named known (f : NftablesFirewall K) c : knows known f →
  match call_set c with Some n => n ∈ known | None => True end →
  match call_rule c with
  | Some (a, m, crit) => rules_for (nft_base f) (created_sets_ f) a m crit
  | None => []
  end = call_rules (nft_base f) name_family c.
Proof.
  intros [_ Hk] Hn. unfold call_rules, rules_named.
  destruct (call_rule c) as [[[a m] crit]|] eqn:Ec; [|done].
  assert (call_set c = dst_set_name crit) as Hs by (destruct c; inversion Ec; done).
  rewrite Hs in Hn. unfold rules_for. destruct (dst_set_name crit) as [n|]; [|done]. by rewrite (Hk n Hn).
Qed.

Lemma perform_pending known c (f f' : NftablesFirewall K) :
  well_created (ipv6_enabled_ (nft_base f)) c → match call_set c with Some n => n ∈ known | None => True end →
  knows known f → perform c f = (Ok tt, f') →
  pending_rules_ f' = pending_rules_ f ++ call_rules (nft_base f) name_family c ∧
  nft_base f' = nft_base f ∧ kernel f' = kernel f ∧ knows (known_after known [c]) f'.
Proof.
  intros Hw Hs Hk. pose proof (call_rules_named known f c Hk Hs) as Hr.
  destruct c as [n fam t|m crit|crit|crit|n|n t e]; cbn [perform create_ipset create_mark_rule create_drop_rule
    create_pass_rule create_batch_loader loader_on_entry NftablesFirewall_Firewall known_after].
  - unfold nft_create_ipset. destruct Hw as [-> Hw6]. intros [= <-].
    destruct ((name_family n =? AF_INET6) && negb (ipv6_enabled_ (nft_base f))) eqn:E6.
    { apply andb_true_iff in E6 as [E1%Z.eqb_eq E2%negb_true_iff]. by rewrite (Hw6 E1) in E2. }
    cbn [pending_rules_ nft_base kernel]. rewrite app_nil_r. split; [done|]. split; [done|]. split; [done|].
    destruct Hk as [Hf Hk]. split; cbn [created_sets_].
    + intros n' f'. rewrite lookup_insert_Some. intros [[-> <-]|[_ H]]; [done|by apply Hf].
    + intros n' [->|Hn']%elem_of_cons; [by rewrite lookup_insert_eq|].
      destruct (decide (n' = n)) as [->|Hne]; [by rewrite lookup_insert_eq|].
      rewrite lookup_insert_ne by done. by apply Hk.
  - intros [= <-]. by rewrite <- Hr.
  - intros [= <-]. by rewrite <- Hr.
  - intros [= <-]. by rewrite <- Hr.
  - intros [= <-]. cbn. by rewrite app_nil_r.
  - unfold nft_on_entry. destruct (nft_element t e) as [[j|]|e'|]; intros [= <-]; cbn; by rewrite app_nil_r.
Qed.

Lemma replay_pending known calls (f f' : NftablesFirewall K) :
  declared (ipv6_enabled_ (nft_base f)) known calls → knows known f → replay calls f = (Ok tt, f') →
  pending_rules_ f' = pending_rules_ f ++ (calls ≫= call_rules (nft_base f) name_family) ∧
  nft_base f' = nft_base f ∧ kernel f' = kernel f ∧ families_ok (created_sets_ f').
Proof.
  revert known f. induction calls as [|c calls IH]; intros known f Hd Hk.
  { intros [= <-]. rewrite app_nil_r. split; [done|]. split; [done|]. split; [done|apply Hk]. }
  destruct Hd as (Hw & Hs & Hd). intros ([] & f1 & H1 & H2)%stexc_bind_Ok.
  destruct (perform_pending _ _ _ _ Hw Hs Hk H1) as (Hp & Hb & Hker & Hk').
  rewrite <- Hb in Hd. destruct (IH _ _ Hd Hk' H2) as (Hp' & Hb' & Hker' & Hf).
  rewrite Hp', Hp, Hb, bind_cons, app_assoc. split; [done|]. split; [congruence|]. split; [congruence|done].
Qed.
End pending.

(** ** The document *)

Section document.
Context {MT : Matching} {K : Type} {NF : Nft K}.

(** What the prefilter decides: packets with a restored mark, translated or
    marked ones and those of other interfaces leave the chain. *)
Definition restores (pf : FirewallGlobalPrefilter) (p : packet) : bool :=
  restore_conntrack_mark pf && negb (conntrack_mark_mask pf =? 0) &&
  ((pk_ctdir p =? 0) && negb (Z.land (pk_ctmark p) (conntrack_mark_mask pf) =? 0)).
Definition other_interface (pf : FirewallGlobalPrefilter) (p : packet) : bool :=
  match pf_inbound_interfaces pf with
  | Some (i :: l) => negb (bool_decide (pk_iif p ∈ i :: l))
  | _ => false
  end.
Definition prefilter_outcome (pf : FirewallGlobalPrefilter) (p : packet) : outcome :=
  if restores pf p
  then Some (Verdict.Accept, set_marks (Z.land (pk_ctmark p) (conntrack_mark_mask pf)) (pk_ctmark p) p)
  else if skip_established_or_dnat pf && pk_dnat p then Some (Verdict.Accept, p)
  else if pf_skip_marked_packets pf && negb (pk_mark p =? 0) then Some (Verdict.Accept, p)
  else if other_interface pf p then Some (Verdict.Accept, p) else None.

Lemma element_str (s x : cstring) : element_contains (JStr s) (VStr x) = bool_decide (x = s).
Proof. by destruct s. Qed.
Lemma existsb_iface (x : cstring) l : existsb (λ j, element_contains j (VStr x)) (JStr <$> l) = bool_decide (x ∈ l).
Proof.
  induction l as [|i l IH]; [done|]. rewrite fmap_cons. cbn [existsb]. rewrite IH, element_str.
  apply eq_true_iff_eq. rewrite orb_true_iff, !bool_decide_eq_true, elem_of_cons. done.
Qed.

(** A rule of the prefilter accepts the packets it guards. *)
Lemma run_accept_rule m f rest p : guards m f →
  run_rules ((m ++ [counter_json; accept_json]) :: rest) p =
  if f p then Some (p, Some Verdict.Accept) else run_rules rest p.
Proof. intros Hm. cbn [run_rules]. rewrite Hm. by destruct (f p). Qed.

Lemma run_restore pf rest p :
  run_rules (restore_exprs pf ++ rest) p =
  if restores pf p
  then Some (set_marks (Z.land (pk_ctmark p) (conntrack_mark_mask pf)) (pk_ctmark p) p, Some Verdict.Accept)
  else run_rules rest p.
Proof.
  unfold restore_exprs, restores.
  destruct (restore_conntrack_mark pf && negb (conntrack_mark_mask pf =? 0)); [|done]. cbn [app andb].
  set (masked := binop_json "&" (ct_json "mark") (JInt (conntrack_mark_mask pf))).
  pose proof (guards_app _ _ _ _ (guards_match false (ct_json "direction") (JInt 0))
    (guards_match true masked (JInt 0)) [mangle_json (meta_json "mark") masked; accept_json] p) as Hg.
  cbn [app op_json] in Hg. cbn [run_rules]. rewrite Hg.
  change (expr_value (ct_json "direction") p) with (Some (VInt (pk_ctdir p))).
  change (expr_value masked p) with (Some (VInt (Z.land (pk_ctmark p) (conntrack_mark_mask pf)))).
  cbn [rhs_contains element_contains]. destruct (pk_ctdir p =? 0); [|done]. cbn [xorb andb].
  by destruct (Z.land (pk_ctmark p) (conntrack_mark_mask pf) =? 0).
Qed.

Lemma run_dnat pf rest p :
  run_rules (dnat_exprs pf ++ rest) p =
  if skip_established_or_dnat pf && pk_dnat p then Some (p, Some Verdict.Accept) else run_rules rest p.
Proof.
  unfold dnat_exprs. destruct (skip_established_or_dnat pf); [|done]. cbn [andb].
  by destruct p as [? ? ? ? ? ? ? ? ? ? [] ?].
Qed.

Lemma run_marked pf rest p :
  run_rules (marked_exprs pf ++ rest) p =
  if pf_skip_marked_packets pf && negb (pk_mark p =? 0) then Some (p, Some Verdict.Accept) else run_rules rest p.
Proof.
  unfold marked_exprs. destruct (pf_skip_marked_packets pf); [|done]. cbn [app andb].
  pose proof (run_accept_rule _ _ rest p (guards_match true (meta_json "mark") (JInt 0))) as Hr.
  cbn [app op_json] in Hr. rewrite Hr.
  change (expr_value (meta_json "mark") p) with (Some (VInt (pk_mark p))). cbn.
  by destruct (pk_mark p =? 0).
Qed.

Lemma run_iface pf rest p :
  run_rules (iface_exprs pf ++ rest) p =
  if other_interface pf p then Some (p, Some Verdict.Accept) else run_rules rest p.
Proof.
  unfold iface_exprs, other_interface. destruct (pf_inbound_interfaces pf) as [[|i l]|]; [done| |done].
  cbn [app]. set (rhs := match l with [] => _ | _ => _ end).
  pose proof (run_accept_rule _ _ rest p (guards_match true (meta_json "iifname") rhs)) as Hr.
  cbn [app op_json] in Hr. rewrite Hr.
  change (expr_value (meta_json "iifname") p) with (Some (VStr (pk_iif p))). cbn [xorb].
  assert (rhs_contains rhs (VStr (pk_iif p)) = bool_decide (pk_iif p ∈ i :: l)) as ->.
  { destruct l as [|i' l]; [|apply (existsb_iface _ (i :: i' :: l))].
    unfold rhs, rhs_contains. rewrite element_str. apply eq_true_iff_eq. rewrite !bool_decide_eq_true. set_solver. }
  by destruct (bool_decide _).
Qed.

Lemma run_prefilter pf rest p :
  run_rules (prefilter_exprs pf ++ rest) p =
  match prefilter_outcome pf p with Some (v, p') => Some (p', Some v) | None => run_rules rest p end.
Proof.
  unfold prefilter_exprs, prefilter_outcome. rewrite <- !app_assoc, run_restore.
  destruct (restores pf p); [done|]. rewrite run_dnat. destruct (_ && pk_dnat p); [done|].
  rewrite run_marked. destruct (_ && negb (pk_mark p =? 0)); [done|]. rewrite run_iface.
  by destruct (other_interface pf p).
Qed.

Lemma ok_inj {A} (x y : A) : Ok x = Ok y → x = y.
Proof. congruence. Qed.

(** Commands that leave every chain as it is. *)
Definition inert (l : list json) : Prop := ∀ chain before, rules_after chain before l = before.

Lemma rules_after_app chain before l1 l2 :
  rules_after chain before (l1 ++ l2) = rules_after chain (rules_after chain before l1) l2.
Proof. apply fold_left_app. Qed.

Lemma inert_app l1 l2 : inert l1 → inert l2 → inert (l1 ++ l2).
Proof. intros H1 H2 chain before. by rewrite rules_after_app, H1, H2. Qed.
Lemma inert_cons j l : (∀ chain before, run_command chain before j = before) → inert l → inert (j :: l).
Proof. intros H1 H2 chain before. unfold rules_after. cbn. rewrite H1. apply H2. Qed.
Lemma inert_nil : inert [].
Proof. done. Qed.
#[local] Hint Resolve inert_app inert_nil inert_cons : core.

Lemma inert_set_json ps chain before : run_command chain before (build_set_json ps) = before.
Proof. unfold build_set_json. by destruct (0 <? ps_timeout ps). Qed.
#[local] Hint Resolve inert_set_json : core.

(** Rules are appended in order. *)
Lemma rules_after_rules chain before cmds :
  Forall (λ j, ∃ c e, j = rule_json c e) cmds →
  rules_after chain before cmds = before ++ omap (command_rule chain) cmds.
Proof.
  intros H. revert before. induction H as [|j cmds (c & e & ->) _ IH]; intros before; [by rewrite app_nil_r|].
  change (rules_after chain before (rule_json c e :: cmds)) with (rules_after chain (run_command chain before (rule_json c e)) cmds).
  rewrite IH. unfold run_command. change (deletes_chain chain (rule_json c e)) with false.
  cbn [omap list_omap]. destruct (command_rule chain (rule_json c e)); [|done]. by rewrite <- app_assoc.
Qed.

(** The chains that a reading of the live table found, and the deletion of one. *)
Definition chain_found (live : LiveTableState) (chain : cstring) : bool :=
  lt_table_exists live && (if bool_decide (chain = CHAIN_NAME) then chain_exists live else output_chain_exists live).

Lemma chains_deleted live full chain before :
  chain = CHAIN_NAME ∨ chain = OUTPUT_CHAIN_NAME → full = negb (lt_table_exists live) →
  (chain_found live chain = false → before = []) →
  rules_after chain before
    ((if negb full && chain_exists live then [build_delete_chain_json] else []) ++
     (if negb full && output_chain_exists live then [build_delete_output_chain_json] else []) ++
     [build_chain_json; build_output_chain_json]) = [].
Proof.
  unfold chain_found. intros Hc -> Hb. rewrite negb_involutive.
  destruct Hc as [-> | ->], (lt_table_exists live), (chain_exists live), (output_chain_exists live);
    cbn in Hb; rewrite ?Hb by done; reflexivity.
Qed.

Lemma inert_set_commands live full clear ps l : set_commands live full clear ps = Ok l → inert l.
Proof.
  unfold set_commands. destruct (_ && is_dynamic_set_name _); [intros [= <-]; destruct clear; auto|].
  destruct (_ && _); [|intros [= <-]; auto]. destruct (set_schemas live !! _); [|done].
  intros [= <-]. destruct (bool_decide _); auto.
Qed.

Lemma inert_sets live full clear l sets : exc_map (set_commands live full clear) l = Ok sets → inert (mjoin sets).
Proof.
  revert sets. induction l as [|ps l IH]; intros sets; cbn [exc_map]; [by intros [= <-]|].
  intros (x & Hx & H)%exc_bind_Ok. apply exc_bind_Ok in H as (xs & Hxs & [= <-]). cbn.
  apply inert_app; [by eapply inert_set_commands|auto].
Qed.

Lemma inert_elements live full l : inert (l ≫= element_commands live full).
Proof.
  induction l as [|e l IH]; [done|]. rewrite bind_cons. apply inert_app; [|done]. unfold element_commands.
  destruct (_ && is_dynamic_set_name _); [done|]. apply inert_app; [destruct (_ && _); auto|destruct (bool_decide _); auto].
Qed.

Lemma prefilter_commands l : Forall (λ j, ∃ c e, j = rule_json c e) (rule_json CHAIN_NAME <$> l).
Proof. apply Forall_fmap, Forall_true. intros e. cbn. eauto. Qed.
Lemma prefilter_commands_rules chain l :
  omap (command_rule chain) (rule_json CHAIN_NAME <$> l) = if bool_decide (CHAIN_NAME = chain) then l else [].
Proof.
  destruct (bool_decide (CHAIN_NAME = chain)) eqn:E; induction l as [|e l IH]; try done;
    rewrite fmap_cons; cbn [omap list_omap]; rewrite command_rule_json, E; by rewrite IH.
Qed.

Lemma pending_rule_commands rules cmds : exc_map build_pending_rule_json rules = Ok cmds →
  Forall (λ j, ∃ c e, j = rule_json c e) cmds.
Proof.
  revert cmds. induction rules as [|r rules IH]; intros cmds; cbn [exc_map]; [by intros [= <-]|].
  intros (j & Hj & H)%exc_bind_Ok. apply exc_bind_Ok in H as (cmds' & Hc & [= <-]).
  constructor; [|by apply IH]. unfold build_pending_rule_json in Hj.
  destruct (pr_action r); apply exc_bind_Ok in Hj as (m & _ & <-%ok_inj); eauto.
Qed.

Lemma document_rules live clear (f : NftablesFirewall K) doc chain before :
  build_apply_document live (negb (lt_table_exists live)) false clear f = Ok doc →
  chain = CHAIN_NAME ∨ chain = OUTPUT_CHAIN_NAME → (chain_found live chain = false → before = []) →
  ∃ cmds, exc_map build_pending_rule_json (pending_rules_ f) = Ok cmds ∧
    rules_after chain before doc =
    (if bool_decide (CHAIN_NAME = chain) then prefilter_exprs (global_prefilter_ (nft_base f)) else []) ++
    omap (command_rule chain) cmds.
Proof.
  unfold build_apply_document. intros (sets & Hs%inert_sets & H)%exc_bind_Ok Hchain Hb. cbn match in H.
  apply exc_bind_Ok in H as (chains & Hc & Hdoc). unfold chain_commands, build_rule_add_commands in Hc.
  apply exc_bind_Ok in Hc as (cmds' & Hr & Hchains). apply exc_bind_Ok in Hr as (cmds & Hcmds & Hcmds').
  apply ok_inj in Hdoc, Hchains, Hcmds'. subst doc chains cmds'. exists cmds. split; [done|].
  set (full := negb (lt_table_exists live)).
  assert (inert [obj1 "metainfo" (obj1 "json_schema_version" (JInt 1))]) as H1 by done.
  assert (inert (if full then [build_table_json] else [])) as H2 by (by destruct full).
  pose proof (chains_deleted live full chain before Hchain eq_refl Hb) as Hdel.
  rewrite rules_after_app, H1, rules_after_app, H2, rules_after_app, Hs, rules_after_app, inert_elements.
  rewrite !rules_after_app in Hdel |- *.
  rewrite (rules_after_app _ _ [build_chain_json; build_output_chain_json]), Hdel, rules_after_app.
  rewrite (rules_after_rules chain []) by apply prefilter_commands.
  rewrite (rules_after_rules chain _ cmds) by (by eapply pending_rule_commands).
  cbn [app]. f_equal. apply prefilter_commands_rules.
Qed.

Lemma family_of_name n : rule_family_ok (name_family n).
Proof. unfold name_family. by destruct (starts_with _ _); [right|left]. Qed.

Lemma call_rules_filter base sf calls :
  calls ≫= call_rules base sf = List.filter is_rule calls ≫= call_rules base sf.
Proof.
  induction calls as [|c calls IH]; [done|]. rewrite bind_cons, IH. by destruct c.
Qed.

(** What the document of the queued calls does to the packets of each chain. *)
Lemma document_decides live clear (f : NftablesFirewall K) calls save doc before p :
  build_apply_document live (negb (lt_table_exists live)) false clear f = Ok doc →
  (∀ out, chain_found live (chain_of out) = false → before (chain_of out) = []) →
  pending_rules_ f = with_save save <$> (calls ≫= call_rules (nft_base f) name_family) →
  rule_family_ok (pk_family p) →
  let fm := first_match name_family (ipv6_enabled_ (nft_base f)) (base_fwmark_mask_ (nft_base f)) save in
  run_chain CHAIN_NAME (before CHAIN_NAME) doc p =
    Some (result_of (match prefilter_outcome (global_prefilter_ (nft_base f)) p with
                     | Some o => Some o | None => fm false calls p end) p) ∧
  run_chain OUTPUT_CHAIN_NAME (before OUTPUT_CHAIN_NAME) doc p = Some (result_of (fm true calls p) p).
Proof.
  intros Hdoc Hbefore Hrules Hp. cbv zeta.
  assert (Hrun : ∀ out cmds, exc_map build_pending_rule_json (pending_rules_ f) = Ok cmds →
    run_rules (omap (command_rule (chain_of out)) cmds) p =
    Some (result_of (first_match name_family (ipv6_enabled_ (nft_base f)) (base_fwmark_mask_ (nft_base f)) save out calls p) p)).
  { intros out cmds Hc. rewrite Hrules in Hc.
    rewrite (run_chain_first _ _ _ p (call_rules_ok _ _ _ calls family_of_name) Hc).
    by rewrite first_rule_calls by (done || apply family_of_name). }
  split.
  - destruct (document_rules _ _ _ _ CHAIN_NAME (before CHAIN_NAME) Hdoc (or_introl eq_refl) (Hbefore false)) as (cmds & Hc & Hd).
    pose proof (Hrun false _ Hc) as Hf. change (chain_of false) with CHAIN_NAME in Hf.
    unfold run_chain. rewrite Hd, bool_decide_eq_true_2, run_prefilter, Hf by done.
    by destruct (prefilter_outcome _ p) as [[]|].
  - destruct (document_rules _ _ _ _ OUTPUT_CHAIN_NAME (before OUTPUT_CHAIN_NAME) Hdoc (or_intror eq_refl) (Hbefore true)) as (cmds & Hc & Hd).
    unfold run_chain. rewrite Hd, bool_decide_eq_false_2 by done. apply (Hrun true _ Hc).
Qed.

Lemma configure_nft config ipv6 mode (f f1 : NftablesFirewall K) :
  configure_firewall config ipv6 mode f = (Ok tt, f1) →
  ∃ mask, fwmark_mask_value (value_or (fwmark config) default_FwmarkConfig) = Ok mask ∧
    global_prefilter_ (nft_base f1) = runtime_prefilter config mask ∧
    base_fwmark_mask_ (nft_base f1) = mask ∧ ipv6_enabled_ (nft_base f1) = ipv6 ∧
    pending_rules_ f1 = pending_rules_ f ∧ created_sets_ f1 = created_sets_ f ∧ kernel f1 = kernel f.
Proof.
  unfold configure_firewall. intros H.
  do 3 (apply stexc_bind_Ok in H as ([] & ? & [= <-] & H)).
  apply stexc_bind_Ok in H as (mask & ? & [= Hm <-] & H).
  apply stexc_bind_Ok in H as ([] & ? & [= <-] & [= <-]). by exists mask.
Qed.

Lemma nft_apply_Ok mode (f f' : NftablesFirewall K) : mode ≠ FirewallApplyMode.StaticSetsOnly →
  nft_apply mode f = (Ok tt, f') →
  ∃ live clear doc, read_live_table_state (kernel f) = Ok live ∧
    build_apply_document live (negb (lt_table_exists live)) false clear (with_saved_marks f) = Ok doc ∧
    nft_run doc (kernel f) = (0, kernel f') ∧ pending_rules_ f' = [] ∧ created_sets_ f' = created_sets_ f.
Proof.
  intros Hm. unfold nft_apply. destruct (read_live_table_state (kernel f)) as [live|e|]; [|done..].
  rewrite (bool_decide_eq_false_2 (mode = FirewallApplyMode.StaticSetsOnly)) by done. cbn [andb].
  destruct (build_apply_document _ _ _ _ _) as [doc|e|] eqn:Ed; [|done..].
  change (kernel (with_saved_marks f)) with (kernel f).
  destruct (nft_run doc (kernel f)) as [status k] eqn:Er. destruct (Z.eqb_spec status 0) as [->|]; cbn [negb]; [|done].
  intros [= <-]. by do 3 eexists.
Qed.

(** The chains' rules before the run, and the listing of the live table: a
    chain that the listing does not show holds no rules. *)
Definition listing_complete (k : K) (before : cstring → list (list json)) : Prop :=
  ∀ live out, read_live_table_state k = Ok live → chain_found live (chain_of out) = false →
    before (chain_of out) = [].

(** C1. End to end for nftables, for a run that replaces the rules (any mode
    but that which refreshes the static sets only) and starts with no rule
    queued, none left by a run that failed.  When applying a configuration
    succeeds, and whatever rules the chains held before in a table whose listing
    shows every chain that holds some, the document given to [nft] leaves the
    prerouting chain with no rule but its own: a packet is first accepted where
    the prefilter says so, and otherwise treated as the first rule, in the order
    of the configured rules, whose sets and selectors match it: dropped, passed,
    or given the rule's mark in the bits of the mask only, with the mark saved
    to the connection; a packet that no rule matches is left alone. Locally
    generated packets are treated by the DNS detours in the same way. The
    backend is left ready for the next run. *)
Theorem nft_packets_follow_the_rules {SS : StdSort} {IP : InetPton} {FS : Files}
    cache keenetic config marks sel ipv6 mode (f f' : NftablesFirewall K) states before :
  apply_runtime_firewall cache keenetic config marks sel ipv6 mode f = (Ok states, f') →
  mode ≠ FirewallApplyMode.StaticSetsOnly → pending_rules_ f = [] → families_ok (created_sets_ f) →
  listing_complete (kernel f) before →
  ∃ mask doc,
    fwmark_mask_value (value_or (fwmark config) default_FwmarkConfig) = Ok mask ∧
    nft_run doc (kernel f) = (0, kernel f') ∧
    pending_rules_ f' = [] ∧ families_ok (created_sets_ f') ∧
    ∀ p, rule_family_ok (pk_family p) →
      let calls := (states ≫= state_calls) ++ config_detour_calls keenetic config marks in
      let first := first_match name_family ipv6 mask (negb (mask =? 0)) in
      run_chain CHAIN_NAME (before CHAIN_NAME) doc p =
        Some (result_of (match prefilter_outcome (runtime_prefilter config mask) p with
                         | Some o => Some o | None => first false calls p end) p) ∧
      run_chain OUTPUT_CHAIN_NAME (before OUTPUT_CHAIN_NAME) doc p = Some (result_of (first true calls p) p).
Proof.
  intros Hrun Hm Hpend Hfam Hlist.
  destruct (runtime_calls (FW:=NftablesFirewall_Firewall) cache keenetic config marks sel ipv6 mode f states f' (λ _, eq_refl) (λ _, eq_refl) Hrun)
    as (calls & f1 & f2 & Hconf & Hrep & Hdecl & Happ & Hcalls).
  destruct (configure_nft _ _ _ _ _ Hconf) as (mask & Hmask & Hpf & Hbm & H6 & Hp1 & Hc1 & Hk1).
  assert (Hd : declared (ipv6_enabled_ (nft_base f1)) [] calls) by (by rewrite H6; apply Hdecl).
  destruct (replay_pending [] calls f1 f2 Hd) as (Hp2 & Hb2 & Hk2 & Hfam2); [split; [by rewrite Hc1|set_solver]|done|].
  destruct (nft_apply_Ok mode f2 f' Hm Happ) as (live & clear & doc & Hlive & Hdoc & Hnft & Hpf' & Hcf').
  exists mask, doc. split; [done|]. split; [by rewrite <- Hk1, <- Hk2|]. split; [done|]. split; [by rewrite Hcf'|].
  intros p Hp. cbv zeta. rewrite <- Hcalls.
  destruct (document_decides live clear (with_saved_marks f2) (List.filter is_rule calls) (negb (mask =? 0)) doc before p Hdoc)
    as [H1 H2]; [intros out; apply Hlist; by rewrite <- Hk1, <- Hk2| |done|].
  - cbn [with_saved_marks pending_rules_ nft_base]. rewrite Hp2, Hp1, Hpend, Hb2, <- call_rules_filter, Hpf. done.
  - cbn [with_saved_marks nft_base] in H1, H2. rewrite Hb2, Hpf, Hbm, H6 in H1. rewrite Hb2, Hbm, H6 in H2. done.
Qed.
End document.

(** ** Rules of a failed run stay queued *)

(** A run that fails in [apply] keeps its rules, and [prepare_apply] does not
    drop them: they come ahead of the rules of the next run. *)
Lemma failed_apply_keeps_rules {K} {NF : Nft K} mode mode' (f f' : NftablesFirewall K) r :
  nft_apply mode f = (r, f') → r ≠ Ok tt →
  pr_criteria <$> pending_rules_ (prepare_apply mode' f').2 = pr_criteria <$> pending_rules_ f.
Proof.
  unfold nft_apply. destruct (read_live_table_state (kernel f)) as [live|e|]; [|by intros [= <- <-]..].
  destruct (_ && _); [by intros [= <- <-]|].
  assert (Hs : pr_criteria <$> pending_rules_ (with_saved_marks f) = pr_criteria <$> pending_rules_ f)
    by (cbn; by rewrite <- list_fmap_compose).
  destruct (build_apply_document _ _ _ _ _) as [doc|e|]; [|by intros [= <- <-]..].
  destruct (nft_run _ _) as [status k]. destruct (negb _); by intros [= <- <-].
Qed.

(** ** Witness *)

(** A kernel that keeps the documents it was given. *)
Definition w_nft : Nft (list (list json)) := {|
  nft_list_table _ := None;
  nft_table_exists k := negb (bool_decide (length k = 0%nat));
  nft_run doc k := (0, doc :: k);
  nft_delete_table _ := [];
|}.

Definition w_fresh : NftablesFirewall (list (list json)) :=
  mk_Nft default_FirewallBase [] ∅ [] ∅ false [].

(** Traffic to list [x] goes through [a]; that of port 25 is dropped. *)
Definition w_blackhole : Outbound :=
  Build_Outbound None None None None None None None None None None None None "hole" None
    OutboundType.BLACKHOLE None.
Definition w_port_rule : RouteRule :=
  Build_RouteRule None (Some (str "25")) None None None "hole" (Some (str "tcp")) None None.
Definition w_nft_config : Config :=
  Build_Config None None None None None (Some {[ str "x" := w_list_config ]}) None
    (Some [w_interface "a" false; w_blackhole])
    (Some (Build_RouteConfig None (Some [w_rule_on "x" "a"; w_port_rule]))).
Definition w_nft_marks : OutboundMarkMap := {[ str "a" := 0x10000 ]}.

Definition w_matching : Matching := {|
  in_set n a := bool_decide (n = "kpbr4_x") && bool_decide (a = [10; 0; 0; 1]);
  in_prefix _ _ _ := false;
|}.
Definition w_packet (daddr : list Z) (port : Z) : packet :=
  mk_packet AF_INET [192; 168; 1; 2] daddr "tcp" (Some 4000) (Some port) 0 0 0 0 false "br0".

(** A kernel whose table is there, with a rule that drops everything. *)
Definition w_chain_item (name : cstring) : json :=
  obj1 "chain" (JObj [(str "family", JStr "inet"); (str "table", JStr TABLE_NAME); (str "name", JStr name)]).
Definition w_live_nft : Nft (list (list json)) := {|
  nft_list_table _ := Some (obj1 "nftables" (JArr
    [obj1 "table" (JObj [(str "family", JStr "inet"); (str "name", JStr TABLE_NAME)]);
     w_chain_item CHAIN_NAME; w_chain_item OUTPUT_CHAIN_NAME]));
  nft_table_exists _ := true;
  nft_run doc k := (0, doc :: k);
  nft_delete_table _ := [];
|}.
Definition w_before (chain : cstring) : list (list json) := [[obj1 "drop" JNull]].

Lemma nft_packets_follow_the_rules_witness :
  ∃ doc, run_chain (MT:=w_matching) CHAIN_NAME (w_before CHAIN_NAME) doc (w_packet [10; 0; 0; 1] 25) =
           Some (set_marks 0x10000 0x10000 (w_packet [10; 0; 0; 1] 25), Some Verdict.Accept) ∧
         run_chain (MT:=w_matching) CHAIN_NAME (w_before CHAIN_NAME) doc (w_packet [10; 0; 0; 2] 25) =
           Some (w_packet [10; 0; 0; 2] 25, Some Verdict.Drop) ∧
         run_chain (MT:=w_matching) CHAIN_NAME (w_before CHAIN_NAME) doc (w_packet [10; 0; 0; 2] 80) =
           Some (w_packet [10; 0; 0; 2] 80, None).
Proof.
  destruct (@apply_runtime_firewall insertion_StdSort w_inet w_files w_cache (Ok []) _
    (@NftablesFirewall_Firewall _ w_live_nft) w_nft_config w_nft_marks ∅ true FirewallApplyMode.Destructive w_fresh)
    as [[states|e|] f'] eqn:E; [|vm_compute in E; discriminate E..].
  destruct (@nft_packets_follow_the_rules w_matching _ w_live_nft insertion_StdSort w_inet w_files w_cache (Ok [])
    w_nft_config w_nft_marks ∅ true FirewallApplyMode.Destructive w_fresh f' states w_before E)
    as (mask & doc & Hm & _ & _ & _ & H); [discriminate|reflexivity|by intros n x Hx| |].
  { intros live out Hl. vm_compute in Hl. injection Hl as <-. by destruct out; vm_compute. }
  exists doc. vm_compute in Hm. injection Hm as <-.
  vm_compute in E. injection E as <- _.
  split; [|split]; (etrans; [apply H; left; reflexivity|vm_compute; reflexivity]).
Defined.


(** Traffic of list [ru] goes through the urltest [auto], whose selected child
    is [b]; the server [dns] is reached through the detour [a]. *)
Definition w_detour_config : Config :=
  Build_Config None None
    (Some (Build_DnsConfig None None None
       (Some [Build_DnsServer (Some (str "10.0.0.53")) (Some (str "a")) "dns" None]) None))
    None None (Some {[ str "x" := w_list_config ]}) None
    (Some [w_interface "a" false; w_interface "b" false; w_urltest])
    (Some (Build_RouteConfig None (Some [w_rule_on "x" "auto"]))).
Definition w_detour_sel : gmap cstring cstring := {[ str "auto" := str "b" ]}.

Lemma w_detour_selections : selections_routable w_detour_config (Some w_detour_sel).
Proof.
  intros t ob. unfold resolve_urltest_selection, w_detour_sel.
  destruct (decide (t = str "auto")) as [->|Hne].
  - rewrite lookup_singleton_eq. vm_compute. by intros [= <-].
  - rewrite lookup_singleton_ne by done. vm_compute. by intros [=].
Qed.

Lemma marked_traffic_is_routed_witness :
  ∃ p calls (f1 f2 : NftablesFirewall (list (list json))),
    plan_routing w_detour_config w_fw_marks 16711680 None (Some w_detour_sel) true None = Ok p ∧
    @replay _ (@NftablesFirewall_Firewall _ w_nft) calls f1 = (Ok tt, f2) ∧
    ∀ m c, Call_create_mark_rule m c ∈ calls → mark_routed w_detour_config w_fw_marks None true p m.
Proof.
  destruct (@apply_runtime_firewall insertion_StdSort w_inet w_files w_cache (Ok []) _
    (@NftablesFirewall_Firewall _ w_nft) w_detour_config w_fw_marks w_detour_sel true
    FirewallApplyMode.Destructive w_fresh)
    as [[states|e|] f'] eqn:E; [|vm_compute in E; discriminate E..].
  destruct (@marked_traffic_is_routed insertion_StdSort w_inet w_files _ (@NftablesFirewall_Firewall _ w_nft)
    (@nft_stable_names _ w_nft) w_cache (Ok []) w_detour_config w_fw_marks 16711680 w_detour_sel None true None
    FirewallApplyMode.Destructive w_fresh states f')
    as (p & calls & f1 & f2 & Hp & _ & Hr & _ & Hm).
  - apply (from_exc_Ok ∅). vm_compute. reflexivity.
  - vm_compute. reflexivity.
  - vm_compute. discriminate.
  - exact w_detour_selections.
  - exact E.
  - exists p, calls, f1, f2. split; [exact Hp|]. split; [exact Hr|exact Hm].
Defined.
