(* ===== verification/RuleSearch.v ===== *)
(** * The search of the firewall verifiers

    Both verifiers look for each expected rule among the listed ones that are not
    used yet.  The search finds all of them when the expected rules match, in
    order, some of the listed ones: the rule found for each is not behind that
    one, so that the ones for the later rules are never used up. *)

From S2P Require Import Prelude.

(** [find_if] over the listed rules that are not used yet; [n] is the index *)
Fixpoint find_unused {A} (p : A → bool) (used : nat → bool) (n : nat) (rules : list A) : option (nat * A) :=
  match rules with
  | [] => None
  | r :: rules => if negb (used n) && p r then Some (n, r) else find_unused p used (S n) rules
  end.

Inductive covers {A B} (R : A → B → Prop) : list A → list B → Prop :=
  | covers_nil l : covers R l []
  | covers_skip x l m : covers R l m → covers R (x :: l) m
  | covers_take x y l m : R x y → covers R l m → covers R (x :: l) (y :: m).

Section covers.
Context {A B : Type} (R : A → B → Prop).

Lemma covers_app l1 l2 m1 m2 : covers R l1 m1 → covers R l2 m2 → covers R (l1 ++ l2) (m1 ++ m2).
Proof.
  intros H1 H2. induction H1 as [l|x l m _ IH|x y l m Hxy _ IH]; cbn.
  - induction l as [|x l IH]; [done|]. cbn. by apply covers_skip.
  - by apply covers_skip.
  - by apply covers_take.
Qed.
Lemma covers_Forall2 l m : Forall2 R l m → covers R l m.
Proof. induction 1; constructor; done. Qed.
Lemma covers_bind {C} (f : C → list A) (g : C → list B) cs :
  (∀ c, c ∈ cs → covers R (f c) (g c)) → covers R (cs ≫= f) (cs ≫= g).
Proof.
  induction cs as [|c cs IH]; intros H; [constructor|]. rewrite !bind_cons.
  apply covers_app; [apply H; set_solver|]. apply IH. set_solver.
Qed.
Lemma covers_filter (keep : A → bool) l m :
  (∀ x y, R x y → keep x = true) → covers R l m → covers R (List.filter keep l) m.
Proof.
  intros Hk. induction 1 as [l|x l m _ IH|x y l m Hxy _ IH]; cbn; [constructor|destruct (keep x); [by apply covers_skip|done]|].
  rewrite (Hk x y Hxy). by apply covers_take.
Qed.
Lemma covers_fmap {C} (f : C → A) l m : covers (λ x y, R (f x) y) l m → covers R (f <$> l) m.
Proof. induction 1; cbn; by constructor. Qed.
Lemma covers_impl (R' : A → B → Prop) l m : (∀ x y, x ∈ l → y ∈ m → R x y → R' x y) → covers R l m → covers R' l m.
Proof.
  intros HR. induction 1 as [l|x l m _ IH|x y l m Hxy _ IH]; [constructor|constructor|constructor 3].
  - apply IH. set_solver.
  - apply HR; set_solver.
  - apply IH. set_solver.
Qed.

(** The first of the matches *)
Lemma covers_cons_inv l y m : covers R l (y :: m) →
  ∃ i x, l !! i = Some x ∧ R x y ∧ covers R (drop (S i) l) m.
Proof.
  remember (y :: m) as ym eqn:E. induction 1 as [l|x l m' _ IH|x y' l m' Hxy H _]; [done| |].
  - destruct (IH E) as (i & x' & Hi & HR & Hc). by exists (S i), x'.
  - injection E as -> ->. by exists 0%nat, x.
Qed.
End covers.

Lemma covers_omap {A B C} (R : A → C → Prop) (R' : B → C → Prop) (f : A → option B) l m :
  (∀ x y, R x y → ∃ z, f x = Some z ∧ R' z y) → covers R l m → covers R' (omap f l) m.
Proof.
  intros Hf. induction 1 as [l|x l m _ IH|x y l m Hxy _ IH]; cbn; [constructor|by destruct (f x); [apply covers_skip|]|].
  destruct (Hf x y Hxy) as (z & -> & Hz). by apply covers_take.
Qed.

Lemma covers_compose {A B C} (R : A → B → Prop) (S : B → C → Prop) l m m' :
  covers R l m → Forall2 S m m' → covers (λ x z, ∃ y, R x y ∧ S y z) l m'.
Proof.
  intros Hc. revert m'. induction Hc as [l|x l m _ IH|x y l m Hxy _ IH]; intros m' HF.
  - apply Forall2_nil_inv_l in HF as ->. constructor.
  - apply covers_skip. by apply IH.
  - apply Forall2_cons_inv_l in HF as (z & m'' & Hyz & HF & ->). apply covers_take; [by exists y|by apply IH].
Qed.

Lemma find_unused_Some {A} (p : A → bool) used n rules i r : rules !! i = Some r → used (n + i)%nat = false → p r = true →
  ∃ j r', find_unused p used n rules = Some ((n + j)%nat, r') ∧ (j ≤ i)%nat.
Proof.
  revert n i. induction rules as [|x rules IH]; intros n i Hi Hu Hp; [done|]. cbn [find_unused].
  destruct (negb (used n) && p x) eqn:E.
  { exists 0%nat, x. rewrite Nat.add_0_r. split; [done|lia]. }
  destruct i as [|i]; [injection Hi as ->; rewrite Nat.add_0_r in Hu; by rewrite Hu, Hp in E|].
  destruct (IH (S n) i Hi) as (j & r' & Hf & Hj); [by rewrite Nat.add_succ_comm|done|].
  exists (S j), r'. rewrite <- Nat.add_succ_comm. split; [done|lia].
Qed.

Lemma find_unused_inv {A} (p : A → bool) used n rules i r : find_unused p used n rules = Some (i, r) →
  (n ≤ i)%nat ∧ rules !! (i - n)%nat = Some r ∧ used i = false ∧ p r = true.
Proof.
  revert n. induction rules as [|x rules IH]; intros n; [done|]. cbn [find_unused].
  destruct (negb (used n) && p x) eqn:E.
  - intros [= <- <-]. apply andb_true_iff in E as [E1%negb_true_iff E2]. by rewrite Nat.sub_diag.
  - intros (Hi & Hl & Hu)%IH. replace (i - n)%nat with (S (i - S n)) by lia. split; [lia|done].
Qed.
