(* ===== verification/NftVerifier.v ===== *)
(** * The verifier of nftables (src/src/firewall/nftables_verifier.{hpp,cpp})

    The verifier lists the prerouting chain as JSON, reads the rules back into
    criteria and actions, expands the expected rule states as the backend does
    and looks for each expected rule among the listed ones.  The last section
    shows that it accepts what the backend installs. *)

From S2P Require Import Prelude CppString Config PortSpec Fwmark AddrSpec DnsServer RoutingVerifier.
From S2P Require Import RoutingState FirewallRules ListParser ListStreamer Firewall FirewallTrace.
From S2P Require Import Json Nftables Packet NftSemantics RuleSearch.

Local Open Scope Z_scope.

(** ** What is read *)

Record ParsedNftRule := mk_ParsedNftRule {
  nr_set_name : cstring;
  nr_criteria : FirewallRuleCriteria;
  is_mark : bool;
  is_drop : bool;
  is_pass : bool;
  nr_fwmark : Z;
  nr_ipv6 : bool;
}.
Definition new_rule : ParsedNftRule := mk_ParsedNftRule [] empty_Criteria false false false 0 false.

Record ParsedNftSet := mk_ParsedNftSet { ns_name : cstring; ns_type : cstring; ns_timeout_seconds : Z }.

Record ParsedNftablesState := mk_ParsedNft {
  has_table : bool;
  has_prerouting_chain : bool;
  has_prerouting_hook : bool;
  nft_rules : list ParsedNftRule;
  nft_sets : list ParsedNftSet;
}.
Definition empty_ParsedNft : ParsedNftablesState := mk_ParsedNft false false false [] [].

Record CommandResult := mk_CommandResult { stdout_output : cstring; exit_code : Z; truncated : bool }.

Record FirewallChainCheck := mk_ChainCheck {
  chain_present : bool;
  prerouting_hook_present : bool;
  chain_detail : cstring;
}.

Record FirewallRuleCheck := mk_RuleCheck {
  ck_set_name : cstring;
  ck_action : cstring;
  ck_expected_fwmark : option Z;
  ck_actual_fwmark : option Z;
  ck_status : CheckStatus.t;
  ck_detail : cstring;
}.

Definition format_nft_read_failure (subject : cstring) (result : CommandResult) : cstring :=
  if truncated result then "nft verification output exceeded capture limit while reading " ++ subject
  else if exit_code result =? 127 then "nft command not found while reading " ++ subject
  else [].

(** [criteria.empty()] *)
Definition criteria_empty (c : FirewallRuleCriteria) : bool :=
  negb (has_value (dst_set_name c)) && negb (has_value (fc_dscp c)) && bool_decide (fc_proto c = L4Proto.Any) &&
  spec_empty (fc_src_port c) && spec_empty (fc_dst_port c) && bool_decide (fc_src_addr c = []) &&
  bool_decide (fc_dst_addr c = []) && negb (apply_output c).

(** ** Values *)

Section values.
Context {NL : Nlohmann} {SS : StdSort} {IP : InetPton}.

(** [j.value(k, d)] for a text [d] *)
Definition value_text (k d : cstring) (l : list (cstring * json)) : exc cstring :=
  match assoc k l with
  | None => Ok d
  | Some (JStr s) => Ok s
  | Some j => type_mismatch "string" j
  end.

(** [get<int>] also takes a boolean *)
Definition get_int (j : json) : exc Z :=
  match j with
  | JInt z => Ok (i32 z)
  | JFloat t => Ok (i32 (float_to_int64 t))
  | JBool b => Ok (if b then 1 else 0)
  | _ => type_mismatch "number" j
  end.
Definition get_text (j : json) : exc cstring := from_json (Codec:=string_codec) j.
Definition get_int64 (j : json) : exc Z := from_json (Codec:=int_codec) j.

Definition parse_l4proto (token : cstring) : option L4Proto.t :=
  if bool_decide (token = str "tcp") then Some L4Proto.Tcp
  else if bool_decide (token = str "udp") then Some L4Proto.Udp else None.

(** [strtoul(s, &end, 0)] when it reads all of [s] and something *)
Definition octal_value (s : cstring) : Z := foldl (λ v c, v * 8 + digit_val c) 0 s.
Definition isoctal (c : ascii) : bool := CppString.in_range 48 55 c.
Definition strtoul_digits (s : cstring) : option Z :=
  match s with
  | "0"%char :: x :: rest =>
      if (ascii_eqb x "x" || ascii_eqb x "X") && negb (bool_decide (rest = [])) && forallb isxdigit rest
      then Some (hex_value 0 rest)
      else if forallb isoctal (x :: rest) then Some (octal_value (x :: rest)) else None
  | [] => None
  | _ => if forallb isdigit s then Some (dec_value 0 s) else None
  end.
Definition ULONG_MAX : Z := 18446744073709551615.
Definition strtoul_all (s : cstring) : option Z :=
  let s := drop_while isspace (take_while (λ c, negb (ascii_eqb c "000"%char)) s) in
  let clamp v := Z.min v ULONG_MAX in
  match s with
  | "+"%char :: s => clamp <$> strtoul_digits s
  | "-"%char :: s => (λ v, if v <=? ULONG_MAX then u64 (- v) else ULONG_MAX) <$> strtoul_digits s
  | _ => clamp <$> strtoul_digits s
  end.

Definition dscp_names : list (cstring * Z) :=
  [(str "cs0", 0); (str "be", 0); (str "cs1", 8); (str "af11", 10); (str "af12", 12); (str "af13", 14);
   (str "cs2", 16); (str "af21", 18); (str "af22", 20); (str "af23", 22); (str "cs3", 24); (str "af31", 26);
   (str "af32", 28); (str "af33", 30); (str "cs4", 32); (str "af41", 34); (str "af42", 36); (str "af43", 38);
   (str "cs5", 40); (str "va", 44); (str "ef", 46); (str "cs6", 48); (str "cs7", 56)].

Definition parse_nft_dscp_value (value : json) : option Z :=
  match value with
  | JInt z => let parsed := u64 z in if parsed <=? 63 then Some parsed else None
  | JStr raw =>
      let raw := tolower <$> raw in
      let named := snd <$> find_if (λ e, bool_decide (e.1 = raw)) dscp_names in
      match strtoul_all raw with
      | Some parsed => if parsed <=? 63 then Some parsed else named
      | None => named
      end
  | _ => None
  end.

Fixpoint parse_nft_mark_value (value : json) : exc (option Z) :=
  match value with
  | JInt z => Ok (Some (u32 (u64 z)))
  | JObj l =>
      (** The two operands of a member that is an array of two *)
      let operands := fix operands (k : cstring) (l : list (cstring * json)) :=
        match l with
        | [] => None
        | (k', v) :: l =>
            if bool_decide (k' = k)
            then match v with JArr [a; b] => Some (parse_nft_mark_value a, parse_nft_mark_value b) | _ => None end
            else operands k l
        end in
      let combine (op : Z → Z → Z) (lhs rhs : exc (option Z)) : exc (option Z) :=
        lhs ← lhs; rhs ← rhs;
        Ok (match lhs, rhs with Some x, Some y => Some (op x y) | _, _ => None end) in
      reads_mark ← (match assoc "meta" l with
                    | Some (JObj m) => key ← value_text "key" [] m; Ok (bool_decide (key = str "mark"))
                    | _ => Ok false
                    end);
      if reads_mark : bool then Ok (Some 0)
      else match operands "|" l with
      | Some (lhs, rhs) => combine Z.lor lhs rhs
      | None => match operands "&" l with
                | Some (lhs, rhs) => combine Z.land lhs rhs
                | None => Ok None
                end
      end
  | _ => Ok None
  end.

Fixpoint parse_nft_port_spec (rhs : json) : exc PortSpec :=
  match rhs with
  | JInt z => parse_port_spec (to_string (swrap 64 z))
  | JObj l =>
      match assoc "range" l with
      | Some (JArr [a; b]) =>
          x ← get_int64 a; y ← get_int64 b; parse_port_spec (to_string x ++ "-" ++ to_string y)
      | _ =>
          (fix go (l : list (cstring * json)) : exc PortSpec :=
             match l with
             | [] => Ok empty_spec
             | (k, v) :: l =>
                 if bool_decide (k = str "set")
                 then match v with
                      | JArr items =>
                          texts ← (fix each (items : list json) : exc (list cstring) :=
                                     match items with
                                     | [] => Ok []
                                     | j :: items =>
                                         s ← parse_nft_port_spec j; rest ← each items;
                                         Ok (to_config_string s :: rest)
                                     end) items;
                          parse_port_spec (join "," texts)
                      | _ => Ok empty_spec
                      end
                 else go l
             end) l
      end
  | _ => Ok empty_spec
  end.

(** [parse_one]: an address or a prefix *)
Definition parse_nft_addr (item : json) : exc (option cstring) :=
  match item with
  | JStr s => Ok (Some s)
  | JObj l =>
      match assoc "prefix" l with
      | Some (JObj p) =>
          match assoc "addr" p, assoc "len" p with
          | Some a, Some n =>
              addr ← get_text a; len ← get_int n;
              Ok (Some (if (negb (is_ipv6_addr addr) && (len =? 32)) || (is_ipv6_addr addr && (len =? 128))
                        then addr else addr ++ "/" ++ to_string len))
          | _, _ => Ok None
          end
      | _ => Ok None
      end
  | _ => Ok None
  end.

Definition parse_nft_addr_list (rhs : json) : exc (list cstring) :=
  match rhs with
  | JStr s => Ok [s]
  | JObj l =>
      match assoc "prefix" l with
      | Some _ => mbind (M:=exc) (λ o : option cstring, Ok (option_list o)) (parse_nft_addr rhs)
      | None => match assoc "set" l with
                | Some (JArr items) =>
                    mbind (M:=exc) (λ os : list (option cstring), Ok (os ≫= option_list)) (exc_map parse_nft_addr items)
                | _ => Ok []
                end
      end
  | _ => Ok []
  end.

(** The loop over the bits of a mask, the high ones first *)
Fixpoint prefix_loop (bits : list bool) (prefix : Z) (saw_zero : bool) : option Z :=
  match bits with
  | [] => Some prefix
  | true :: bits => if saw_zero then None else prefix_loop bits (prefix + 1) saw_zero
  | false :: bits => prefix_loop bits prefix true
  end.
Definition prefix_length_from_mask (mask : cstring) : option Z :=
  match inet_pton (if is_ipv6_addr mask then AF_INET6 else AF_INET) mask with
  | None => None
  | Some bytes => prefix_loop (bytes ≫= λ b, Z.testbit b <$> [7; 6; 5; 4; 3; 2; 1; 0]) 0 false
  end.
End values.

(** ** Comparing criteria *)

Definition normalize_host_prefix (address : cstring) : cstring :=
  match rfind_char "/" address with
  | None => address
  | Some slash =>
      let suffix := drop (slash + 1) address in
      if (negb (is_ipv6_addr address) && bool_decide (suffix = str "32")) ||
         (is_ipv6_addr address && bool_decide (suffix = str "128"))
      then take slash address else address
  end.

Definition addr_lists_equal (lhs rhs : list cstring) : bool :=
  bool_decide (normalize_host_prefix <$> lhs = normalize_host_prefix <$> rhs).

Definition criteria_equal (lhs rhs : FirewallRuleCriteria) : bool :=
  bool_decide (fc_proto lhs = fc_proto rhs) && bool_decide (fc_dscp lhs = fc_dscp rhs) &&
  bool_decide (fc_src_port lhs = fc_src_port rhs) && bool_decide (fc_dst_port lhs = fc_dst_port rhs) &&
  addr_lists_equal (fc_src_addr lhs) (fc_src_addr rhs) && addr_lists_equal (fc_dst_addr lhs) (fc_dst_addr rhs) &&
  Bool.eqb (negate_src_port lhs) (negate_src_port rhs) && Bool.eqb (negate_dst_port lhs) (negate_dst_port rhs) &&
  Bool.eqb (negate_src_addr lhs) (negate_src_addr rhs) && Bool.eqb (negate_dst_addr lhs) (negate_dst_addr rhs).

Definition criteria_summary (c : FirewallRuleCriteria) : cstring :=
  let bang (negated : bool) : cstring := if negated then "!" else [] in
  let addr_part (label : cstring) addrs (negated : bool) :=
    if bool_decide (addrs = []) then [] else [label ++ "=" ++ bang negated ++ join "," addrs] in
  let port_part (label : cstring) spec (negated : bool) :=
    if spec_empty spec then [] else [label ++ "=" ++ bang negated ++ to_config_string spec] in
  let parts : list cstring :=
    (if negb (bool_decide (fc_proto c = L4Proto.Any)) then [str "proto=" ++ l4_proto_name (fc_proto c)] else []) ++
    (match fc_dscp c with Some d => [str "dscp=" ++ to_string d] | None => [] end) ++
    port_part "sport" (fc_src_port c) (negate_src_port c) ++ port_part "dport" (fc_dst_port c) (negate_dst_port c) ++
    addr_part "src" (fc_src_addr c) (negate_src_addr c) ++ addr_part "dst" (fc_dst_addr c) (negate_dst_addr c) in
  let out := join " " parts in
  if bool_decide (out = []) then "any" else out.

(** ** What is expected *)

(** The verifier's own [needs_family_specific_rule], which does not look at the
    ports *)
Definition expects_both_families (c : FirewallRuleCriteria) : bool :=
  has_value (dst_set_name c) || has_value (fc_dscp c) || negb (bool_decide (fc_src_addr c = [])) ||
  negb (bool_decide (fc_dst_addr c = [])).

Definition ipv6_from_set_name (set_name : cstring) : option bool :=
  if starts_with "kpbr6_" set_name || starts_with "kpbr6d_" set_name then Some true
  else if starts_with "kpbr4_" set_name || starts_with "kpbr4d_" set_name then Some false
  else None.

Record ExpectedNftRule := mk_Expected {
  en_set_name : cstring;
  en_ipv6 : bool;
  en_action_type : RuleActionType.t;
  en_fwmark : Z;
  en_criteria : FirewallRuleCriteria;
}.

(** The sets, with their families, that a state is expected for *)
Definition state_targets (rs : RuleState) : list (cstring * bool) :=
  match set_names rs with
  | [] =>
      if has_rule_selector (criteria rs)
      then if negb (expects_both_families (criteria rs)) then [([], false)] else [([], false); ([], true)]
      else []
  | sets => (λ n, (n, value_or (ipv6_from_set_name n) false)) <$> sets
  end.

Definition target_rules (rs : RuleState) (target : cstring * bool) : list ExpectedNftRule :=
  let c := criteria rs in
  let src := filter_addrs_by_family (fc_src_addr c) target.2 in
  let dst := filter_addrs_by_family (fc_dst_addr c) target.2 in
  if (negb (bool_decide (fc_src_addr c = [])) && bool_decide (src = [])) ||
     (negb (bool_decide (fc_dst_addr c = [])) && bool_decide (dst = [])) then []
  else (λ proto, mk_Expected target.1 target.2 (action_type rs) (rs_fwmark rs) (with_addrs c proto src dst)) <$>
       expand_l4_protos (fc_proto c).

Definition expand_expected_rule_states (expected : list RuleState) : list ExpectedNftRule :=
  rs ← expected;
  if bool_decide (action_type rs = RuleActionType.Skip) then [] else state_targets rs ≫= target_rules rs.

Definition action_matches (actual : ParsedNftRule) (expected : ExpectedNftRule) : bool :=
  match en_action_type expected with
  | RuleActionType.Mark => is_mark actual && (nr_fwmark actual =? en_fwmark expected)
  | RuleActionType.Drop => is_drop actual
  | _ => is_pass actual
  end.

Definition same_shape (actual : ParsedNftRule) (expected : ExpectedNftRule) : bool :=
  Bool.eqb (nr_ipv6 actual) (en_ipv6 expected) && bool_decide (nr_set_name actual = en_set_name expected) &&
  criteria_equal (nr_criteria actual) (en_criteria expected).

Definition rule_matches (actual : ParsedNftRule) (expected : ExpectedNftRule) : bool :=
  Bool.eqb (nr_ipv6 actual) (en_ipv6 expected) && bool_decide (nr_set_name actual = en_set_name expected) &&
  action_matches actual expected && criteria_equal (nr_criteria actual) (en_criteria expected).

(** ** Reading a listing *)

Definition with_dscp (d : Z) (c : FirewallRuleCriteria) : FirewallRuleCriteria :=
  mk_Criteria (dst_set_name c) (Some d) (fc_proto c) (fc_src_port c) (fc_dst_port c) (fc_src_addr c) (fc_dst_addr c)
    (negate_src_port c) (negate_dst_port c) (negate_src_addr c) (negate_dst_addr c) (apply_output c).
Definition with_proto (p : L4Proto.t) (c : FirewallRuleCriteria) : FirewallRuleCriteria :=
  mk_Criteria (dst_set_name c) (fc_dscp c) p (fc_src_port c) (fc_dst_port c) (fc_src_addr c) (fc_dst_addr c)
    (negate_src_port c) (negate_dst_port c) (negate_src_addr c) (negate_dst_addr c) (apply_output c).
Definition with_src_addr (l : list cstring) (n : bool) (c : FirewallRuleCriteria) : FirewallRuleCriteria :=
  mk_Criteria (dst_set_name c) (fc_dscp c) (fc_proto c) (fc_src_port c) (fc_dst_port c) l (fc_dst_addr c)
    (negate_src_port c) (negate_dst_port c) n (negate_dst_addr c) (apply_output c).
Definition with_dst_addr (l : list cstring) (n : bool) (c : FirewallRuleCriteria) : FirewallRuleCriteria :=
  mk_Criteria (dst_set_name c) (fc_dscp c) (fc_proto c) (fc_src_port c) (fc_dst_port c) (fc_src_addr c) l
    (negate_src_port c) (negate_dst_port c) (negate_src_addr c) n (apply_output c).
Definition with_src_port (p : PortSpec) (n : bool) (c : FirewallRuleCriteria) : FirewallRuleCriteria :=
  mk_Criteria (dst_set_name c) (fc_dscp c) (fc_proto c) p (fc_dst_port c) (fc_src_addr c) (fc_dst_addr c)
    n (negate_dst_port c) (negate_src_addr c) (negate_dst_addr c) (apply_output c).
Definition with_dst_port (p : PortSpec) (n : bool) (c : FirewallRuleCriteria) : FirewallRuleCriteria :=
  mk_Criteria (dst_set_name c) (fc_dscp c) (fc_proto c) (fc_src_port c) p (fc_src_addr c) (fc_dst_addr c)
    (negate_src_port c) n (negate_src_addr c) (negate_dst_addr c) (apply_output c).

Definition on_criteria (f : FirewallRuleCriteria → FirewallRuleCriteria) (nr : ParsedNftRule) : ParsedNftRule :=
  mk_ParsedNftRule (nr_set_name nr) (f (nr_criteria nr)) (is_mark nr) (is_drop nr) (is_pass nr) (nr_fwmark nr)
    (nr_ipv6 nr).
Definition with_set_name (n : cstring) (nr : ParsedNftRule) : ParsedNftRule :=
  mk_ParsedNftRule n (nr_criteria nr) (is_mark nr) (is_drop nr) (is_pass nr) (nr_fwmark nr) (nr_ipv6 nr).
Definition with_ipv6 (nr : ParsedNftRule) : ParsedNftRule :=
  mk_ParsedNftRule (nr_set_name nr) (nr_criteria nr) (is_mark nr) (is_drop nr) (is_pass nr) (nr_fwmark nr) true.
Definition with_mark (m : Z) (nr : ParsedNftRule) : ParsedNftRule :=
  mk_ParsedNftRule (nr_set_name nr) (nr_criteria nr) true (is_drop nr) (is_pass nr) m (nr_ipv6 nr).
Definition with_drop (nr : ParsedNftRule) : ParsedNftRule :=
  mk_ParsedNftRule (nr_set_name nr) (nr_criteria nr) (is_mark nr) true (is_pass nr) (nr_fwmark nr) (nr_ipv6 nr).
Definition with_pass (nr : ParsedNftRule) : ParsedNftRule :=
  mk_ParsedNftRule (nr_set_name nr) (nr_criteria nr) (is_mark nr) (is_drop nr) true (nr_fwmark nr) (nr_ipv6 nr).

Section reading.
Context {NL : Nlohmann} {SS : StdSort} {IP : InetPton} {JT : JsonText}.

(** The payload a match looks at, with the length of the mask over it *)
Definition match_payload (lhs : list (cstring * json)) : option (list (cstring * json) * option Z) :=
  match assoc "payload" lhs with
  | Some (JObj payload) => Some (payload, None)
  | _ =>
      match assoc "&" lhs with
      | Some (JArr [JObj masked; JStr mask]) =>
          match assoc "payload" masked with
          | Some (JObj payload) => Some (payload, prefix_length_from_mask mask)
          | _ => None
          end
      | _ => None
      end
  end.

Definition append_prefix (prefix : option Z) (addrs : list cstring) : list cstring :=
  match prefix, addrs with
  | Some n, [a] => [a ++ "/" ++ to_string n]
  | _, _ => addrs
  end.

(** The set a right-hand side names *)
Definition set_reference (rhs : json) : option cstring :=
  let set_ref := match rhs with
    | JStr s => s
    | JObj l => match assoc "set" l with Some (JStr s) => s | _ => [] end
    | _ => [] end in
  match set_ref with "@"%char :: n => Some n | _ => None end.

Definition port_proto (protocol : cstring) (c : FirewallRuleCriteria) : FirewallRuleCriteria :=
  if bool_decide (protocol = str "tcp") then with_proto L4Proto.Tcp c
  else if bool_decide (protocol = str "udp") then with_proto L4Proto.Udp c else c.

(** A match of a payload against [rhs] *)
Definition parse_payload_match (nr : ParsedNftRule) (op : cstring) (payload : list (cstring * json))
    (prefix : option Z) (rhs : option json) : exc ParsedNftRule :=
  let negated := bool_decide (op = str "!=") in
  protocol ← value_text "protocol" [] payload;
  field ← value_text "field" [] payload;
  let nr := if bool_decide (protocol = str "ip6") then with_ipv6 nr else nr in
  match rhs with
  | None => Ok nr
  | Some rhs =>
      if bool_decide (field = str "dscp") then
        Ok (match parse_nft_dscp_value rhs with Some d => on_criteria (with_dscp d) nr | None => nr end)
      else if bool_decide (field = str "saddr") then
        l ← parse_nft_addr_list rhs; Ok (on_criteria (with_src_addr (append_prefix prefix l) negated) nr)
      else if bool_decide (field = str "daddr") then
        match set_reference rhs with
        | Some n => Ok (with_set_name n nr)
        | None => l ← parse_nft_addr_list rhs;
                  Ok (on_criteria (with_dst_addr (append_prefix prefix l) negated) nr)
        end
      else if bool_decide (field = str "sport") then
        p ← parse_nft_port_spec rhs; Ok (on_criteria (with_src_port p negated ∘ port_proto protocol) nr)
      else if bool_decide (field = str "dport") then
        p ← parse_nft_port_spec rhs; Ok (on_criteria (with_dst_port p negated ∘ port_proto protocol) nr)
      else Ok nr
  end.

Definition parse_match (nr : ParsedNftRule) (m : list (cstring * json)) : exc ParsedNftRule :=
  op ← value_text "op" "==" m;
  match assoc "left" m with
  | Some (JObj lhs) =>
      match match_payload lhs with
      | Some (payload, prefix) => parse_payload_match nr op payload prefix (assoc "right" m)
      | None =>
          match assoc "meta" lhs with
          | Some (JObj meta) =>
              key ← value_text "key" [] meta;
              match assoc "right" m with
              | Some (JStr rhs) =>
                  Ok (if bool_decide (key = str "l4proto")
                      then on_criteria (with_proto (value_or (parse_l4proto rhs) L4Proto.Any)) nr else nr)
              | _ => Ok nr
              end
          | _ => Ok nr
          end
      end
  | _ => Ok nr
  end.

Definition parse_mangle (nr : ParsedNftRule) (m : list (cstring * json)) : exc ParsedNftRule :=
  match assoc "key" m with
  | Some (JObj k) =>
      match assoc "meta" k with
      | Some (JObj meta) =>
          key ← value_text "key" [] meta;
          match assoc "value" m with
          | Some value =>
              if bool_decide (key = str "mark") then
                o ← parse_nft_mark_value value;
                Ok (match o with Some mark => with_mark mark nr | None => nr end)
              else Ok nr
          | None => Ok nr
          end
      | _ => Ok nr
      end
  | _ => Ok nr
  end.

Definition contains (k : cstring) (l : list (cstring * json)) : bool := has_value (assoc k l).

Definition parse_expr (nr : ParsedNftRule) (expr : json) : exc ParsedNftRule :=
  match expr with
  | JObj l =>
      match assoc "match" l with
      | Some (JObj m) => parse_match nr m
      | Some _ => Ok nr
      | None =>
          match assoc "mangle" l with
          | Some (JObj m) => parse_mangle nr m
          | Some _ => Ok nr
          | None => Ok (if contains "drop" l then with_drop nr
                        else if contains "accept" l || contains "return" l then with_pass nr else nr)
          end
      end
  | _ => Ok nr
  end.

Fixpoint parse_exprs (nr : ParsedNftRule) (exprs : list json) : exc ParsedNftRule :=
  match exprs with
  | [] => Ok nr
  | e :: exprs => nr ← parse_expr nr e; parse_exprs nr exprs
  end.

(** The rules the verifier is not about *)
Definition ignored_rule (nr : ParsedNftRule) : bool :=
  (negb (is_mark nr) && negb (is_drop nr) && negb (is_pass nr)) ||
  (bool_decide (nr_set_name nr = []) && criteria_empty (nr_criteria nr)).

(** [a != x || ...]: the operands are read in order *)
Definition text_is (k v : cstring) (l : list (cstring * json)) : exc bool :=
  s ← value_text k [] l; Ok (bool_decide (s = v)).

Definition parse_rule_item (st : ParsedNftablesState) (rule : list (cstring * json)) : exc ParsedNftablesState :=
  hit ← exc_and (text_is "table" TABLE_NAME rule) (text_is "chain" CHAIN_NAME rule);
  match assoc "expr" rule with
  | Some (JArr exprs) =>
      if hit : bool then
        nr ← parse_exprs new_rule exprs;
        Ok (if ignored_rule nr then st
            else mk_ParsedNft (has_table st) (has_prerouting_chain st) (has_prerouting_hook st)
                   (nft_rules st ++ [nr]) (nft_sets st))
      else Ok st
  | _ => Ok st
  end.

Definition parse_chain_item (st : ParsedNftablesState) (ch : list (cstring * json)) : exc ParsedNftablesState :=
  hit ← exc_and (text_is "table" TABLE_NAME ch) (text_is "name" CHAIN_NAME ch);
  if hit : bool then
    hook ← text_is "hook" "prerouting" ch;
    Ok (mk_ParsedNft (has_table st) true (has_prerouting_hook st || hook) (nft_rules st) (nft_sets st))
  else Ok st.

Definition parse_set_item (st : ParsedNftablesState) (set : list (cstring * json)) : exc ParsedNftablesState :=
  hit ← text_is "table" TABLE_NAME set;
  if hit : bool then
    name ← value_text "name" [] set;
    type ← value_text "type" [] set;
    let timeout := match assoc "timeout" set with Some (JInt z) => if 0 <=? z then u32 z else 0 | _ => 0 end in
    Ok (if bool_decide (name = []) then st
        else mk_ParsedNft (has_table st) (has_prerouting_chain st) (has_prerouting_hook st) (nft_rules st)
               (nft_sets st ++ [mk_ParsedNftSet name type timeout]))
  else Ok st.

Definition parse_nft_item (st : ParsedNftablesState) (elem : json) : exc ParsedNftablesState :=
  match elem with
  | JObj l =>
      match assoc "table" l with
      | Some (JObj tbl) =>
          hit ← exc_and (text_is "family" "inet" tbl) (text_is "name" TABLE_NAME tbl);
          Ok (if hit : bool
              then mk_ParsedNft true (has_prerouting_chain st) (has_prerouting_hook st) (nft_rules st) (nft_sets st)
              else st)
      | Some _ => Ok st
      | None =>
      match assoc "chain" l with
      | Some (JObj ch) => parse_chain_item st ch
      | Some _ => Ok st
      | None =>
      match assoc "set" l with
      | Some (JObj set) => parse_set_item st set
      | Some _ => Ok st
      | None => match assoc "rule" l with Some (JObj rule) => parse_rule_item st rule | _ => Ok st end
      end end end
  | _ => Ok st
  end.

Fixpoint parse_nft_items (st : ParsedNftablesState) (items : list json) : exc ParsedNftablesState :=
  match items with
  | [] => Ok st
  | item :: items => st ← parse_nft_item st item; parse_nft_items st items
  end.

Definition parse_nft_json (json_output : cstring) : exc ParsedNftablesState :=
  if bool_decide (json_output = []) then Ok empty_ParsedNft
  else match json_parse json_output ≫= jfind "nftables" with
       | Some (JArr items) => parse_nft_items empty_ParsedNft items
       | _ => Ok empty_ParsedNft
       end.

Definition validate_nft_json_root (json_output subject : cstring) : option cstring :=
  if bool_decide (json_output = []) then Some ("nft returned empty JSON while reading " ++ subject)
  else match json_parse json_output ≫= jfind "nftables" with
       | Some (JArr _) => None
       | _ => Some ("failed to parse nftables JSON while reading " ++ subject)
       end.

(** ** The object *)

Record CachedState := mk_CachedState { cs_state : ParsedNftablesState; cs_error : cstring }.

Record NftablesFirewallVerifier := mk_NftVerifier {
  runner_ : list cstring → CommandResult;
  cached_state_ : option CachedState;
}.

Definition list_chain_command : list cstring :=
  [str "nft"; str "-j"; str "list"; str "chain"; str "inet"; TABLE_NAME; CHAIN_NAME].
Definition list_table_command : list cstring :=
  [str "nft"; str "-j"; str "-t"; str "list"; str "table"; str "inet"; TABLE_NAME].

(** What [get_state] computes when nothing is cached *)
Definition read_state (runner : list cstring → CommandResult) : exc CachedState :=
  let failed error := Ok (mk_CachedState empty_ParsedNft error) in
  let chain_result := runner list_chain_command in
  let error := format_nft_read_failure "prerouting chain" chain_result in
  if negb (bool_decide (error = [])) then failed error
  else if negb (exit_code chain_result =? 0) then
    let table_result := runner list_table_command in
    let table_error := format_nft_read_failure "KeenPbrTable table" table_result in
    if negb (bool_decide (table_error = [])) then failed table_error
    else if negb (exit_code table_result =? 0) then failed []
    else match validate_nft_json_root (stdout_output table_result) "KeenPbrTable table" with
    | Some parse_error => failed parse_error
    | None =>
        st ← parse_nft_json (stdout_output table_result);
        Ok (mk_CachedState (mk_ParsedNft true (has_prerouting_chain st) (has_prerouting_hook st) (nft_rules st)
                              (nft_sets st)) [])
    end
  else match validate_nft_json_root (stdout_output chain_result) "prerouting chain" with
  | Some parse_error => failed parse_error
  | None =>
      st ← parse_nft_json (stdout_output chain_result);
      Ok (mk_CachedState (mk_ParsedNft true true (has_prerouting_hook st) (nft_rules st) (nft_sets st)) [])
  end.

Definition get_state : stexc NftablesFirewallVerifier CachedState := λ v,
  match cached_state_ v with
  | Some c => (Ok c, v)
  | None =>
      match read_state (runner_ v) with
      | Ok c => (Ok c, mk_NftVerifier (runner_ v) (Some c))
      | Throw e => (Throw e, v)
      | Undefined => (Undefined, v)
      end
  end.

Definition verify_chain : stexc NftablesFirewallVerifier FirewallChainCheck :=
  cached ← get_state;
  let state := cs_state cached in
  mret (mk_ChainCheck (has_prerouting_chain state) (has_prerouting_hook state)
    (if negb (bool_decide (cs_error cached = [])) then cs_error cached
     else if negb (has_table state) then TABLE_NAME ++ " table not found in nftables"
     else if negb (has_prerouting_chain state) then CHAIN_NAME ++ " chain not found in " ++ TABLE_NAME ++ " table"
     else if negb (has_prerouting_hook state) then CHAIN_NAME ++ " chain exists but prerouting hook not configured"
     else str "ok")).

(** The fields a check has before the rules are looked at *)
Definition check_of (exp : ExpectedNftRule) (actual : option Z) (status : CheckStatus.t) (detail : cstring) :
    FirewallRuleCheck :=
  mk_RuleCheck
    (if bool_decide (en_set_name exp = []) then str "<direct>" else en_set_name exp)
    (match en_action_type exp with
     | RuleActionType.Mark => str "mark" | RuleActionType.Drop => str "drop" | _ => str "pass" end)
    (if bool_decide (en_action_type exp = RuleActionType.Mark) then Some (en_fwmark exp) else None)
    actual status detail.

Definition actual_mark (actual : ParsedNftRule) : option Z :=
  if is_mark actual then Some (nr_fwmark actual) else None.

Definition mismatch_detail (exp : ExpectedNftRule) (actual : ParsedNftRule) : cstring :=
  match en_action_type exp with
  | RuleActionType.Mark =>
      if is_mark actual
      then "fwmark mismatch: expected 0x" ++ to_hex (en_fwmark exp) ++ " got 0x" ++ to_hex (nr_fwmark actual)
      else if is_drop actual then "expected MARK rule but found DROP rule"
      else "expected MARK rule but found ACCEPT rule"
  | RuleActionType.Drop =>
      if is_mark actual then "expected DROP rule but found MARK rule" else "expected DROP rule but found ACCEPT rule"
  | _ =>
      if is_mark actual then "expected ACCEPT rule but found MARK rule"
      else "expected ACCEPT rule but found DROP rule"
  end.

(** The check of one expected rule, and the rules used after it *)
Definition verify_rule (rules : list ParsedNftRule) (used : nat → bool) (exp : ExpectedNftRule) :
    FirewallRuleCheck * (nat → bool) :=
  match find_unused (λ actual, rule_matches actual exp) used 0 rules with
  | Some (index, actual) =>
      (check_of exp (actual_mark actual) CheckStatus.ok "ok", λ n, used n || (n =? index)%nat)
  | None =>
      match find_unused (λ actual, same_shape actual exp) used 0 rules with
      | None =>
          (check_of exp None CheckStatus.missing
             ("rule not found in nftables prerouting chain (family=" ++
              (if en_ipv6 exp then str "ipv6" else str "ipv4") ++ " criteria=" ++
              criteria_summary (en_criteria exp) ++ ")"), used)
      | Some (_, actual) =>
          (check_of exp (actual_mark actual) CheckStatus.mismatch (mismatch_detail exp actual), used)
      end
  end.

Fixpoint verify_expected (rules : list ParsedNftRule) (used : nat → bool) (expected : list ExpectedNftRule) :
    list FirewallRuleCheck :=
  match expected with
  | [] => []
  | exp :: expected =>
      let r := verify_rule rules used exp in r.1 :: verify_expected rules r.2 expected
  end.

Definition verify_rules (expected : list RuleState) :
    stexc NftablesFirewallVerifier (list FirewallRuleCheck) :=
  cached ← get_state;
  let exps := expand_expected_rule_states expected in
  mret (if negb (bool_decide (cs_error cached = []))
        then (λ exp, check_of exp None CheckStatus.missing (cs_error cached)) <$> exps
        else verify_expected (nft_rules (cs_state cached)) (λ _, false) exps).
End reading.
