(* ===== verification/NftVerified.v ===== *)
(** * The nftables verifier accepts what the backend installs

    The rules of a document are read back into the criteria and actions they
    were built from, also when [nft] lists them without the redundant parts, and
    the search of the verifier finds a listed rule for every expected one. *)

From S2P Require Import Prelude CppString Config PortSpec Fwmark AddrSpec DnsServer RoutingVerifier.
From S2P Require Import RoutingState FirewallRules ListParser ListStreamer Firewall FirewallTrace.
From S2P Require Import Json Nftables Packet NftSemantics RuleSearch NftVerifier.

Local Open Scope Z_scope.

(** ** The search

    The expected rules are found when they match, in order, some of the listed
    ones: the rule found for each is not behind that one, so that the ones for
    the later rules are never used up. *)

Lemma verify_expected_ok rules expected : ∀ used k,
  (∀ n, (k ≤ n)%nat → used n = false) →
  covers (λ actual exp, rule_matches actual exp = true) (drop k rules) expected →
  Forall (λ c, ck_status c = CheckStatus.ok ∧ ck_detail c = str "ok") (verify_expected rules used expected).
Proof.
  induction expected as [|exp expected IH]; intros used k Hu Hc; [constructor|].
  apply covers_cons_inv in Hc as (i & actual & Hi & Hm & Hc). rewrite lookup_drop in Hi.
  destruct (find_unused_Some (λ actual, rule_matches actual exp) used 0 rules (k + i) actual)
    as (j & r' & Hf & Hj); [done|apply Hu; lia|done|].
  cbn [verify_expected]. unfold verify_rule. rewrite Hf. cbn [fst snd]. constructor; [done|].
  apply (IH _ (S (k + i))).
  - intros n Hn. rewrite Hu by lia. apply Nat.eqb_neq. cbn. lia.
  - by rewrite drop_drop, <- plus_n_Sm in Hc.
Qed.

Lemma verify_expected_found rules expected : ∀ used,
  Forall (λ c, ck_status c = CheckStatus.ok) (verify_expected rules used expected) →
  ∃ found, NoDup found ∧ Forall (λ i, used i = false) found ∧
    Forall2 (λ i exp, ∃ actual, rules !! i = Some actual ∧ rule_matches actual exp = true) found expected.
Proof.
  induction expected as [|exp expected IH]; intros used; [exists []; split_and!; constructor|].
  cbn [verify_expected]. unfold verify_rule.
  destruct (find_unused _ used 0 rules) as [[i actual]|] eqn:Ef; cbn [fst snd].
  2:{ destruct (find_unused (λ actual, same_shape actual exp) used 0 rules) as [[j x]|]; by intros [H _]%Forall_cons. }
  apply find_unused_inv in Ef as (_ & Hi & Hu & Hm). rewrite Nat.sub_0_r in Hi.
  intros [_ (found & Hnd & Hfu & Hf)%IH]%Forall_cons. exists (i :: found). split_and!.
  - constructor; [|done]. intros Hin. rewrite Forall_forall in Hfu. specialize (Hfu i Hin). cbn in Hfu.
    by rewrite Nat.eqb_refl, orb_true_r in Hfu.
  - constructor; [done|]. eapply Forall_impl; [exact Hfu|]. cbn. intros j Hj. by apply orb_false_iff in Hj as [Hj _].
  - constructor; [by exists actual|done].
Qed.

(** ** Addresses *)

(** The text of a length, if there is one, is its decimal. *)
Definition canonical_addr (a : cstring) : Prop :=
  match find_char "/" a with
  | None => True
  | Some i => ∃ len, 0 ≤ len ∧ drop (i + 1) a = to_string len
  end.

Lemma stoi_to_string n v : 0 ≤ n → stoi (to_string n) = Ok v → v = n.
Proof.
  intros Hn. destruct (to_string_spec n Hn) as (Hne & Hd & Hv). unfold stoi.
  destruct (to_string n) as [|c t] eqn:Et; [done|].
  assert (Hc : isdigit c = true) by (by apply andb_true_iff in Hd as [Hc _]).
  apply isdigit_range in Hc as Hr.
  assert (Hsp : isspace c = false) by (unfold isspace, CppString.in_range; breflect; lia).
  cbn [drop_while]. rewrite Hsp.
  rewrite (proj2 (ascii_eqb_neq c "-"%char)), (proj2 (ascii_eqb_neq c "+"%char));
    [|by apply isdigit_not with (x := "+"%char)|by apply isdigit_not with (x := "-"%char)].
  rewrite take_while_all by done. rewrite Hv. rewrite bool_decide_eq_false_2 by done.
  destruct (in_int _); [|done]. intros [= <-]. by destruct n.
Qed.

Lemma is_ipv6_true a : is_ipv6_addr a = true ↔ ":"%char ∈ a.
Proof.
  unfold is_ipv6_addr. destruct (find_char ":" a) as [i|] eqn:E; cbn [has_value].
  - apply find_char_Some in E as [-> _]. set_solver.
  - apply find_char_None in E. done.
Qed.

(** The address the verifier reads where the backend wrote [a] *)
Definition read_back (p : cstring * Z) : cstring :=
  if (negb (is_ipv6_addr p.1) && (p.2 =? 32)) || (is_ipv6_addr p.1 && (p.2 =? 128))
  then p.1 else p.1 ++ "/" ++ to_string p.2.

Lemma read_back_addr a p : canonical_addr a → addr_prefix a = Ok p →
  normalize_host_prefix (read_back p) = normalize_host_prefix a.
Proof.
  unfold canonical_addr, addr_prefix. destruct (find_char "/" a) as [i|] eqn:Ea.
  2:{ intros _ [= <-]. unfold read_back. cbn [fst snd]. by destruct (is_ipv6_addr a). }
  intros (len & Hlen & Hs) (v & Hv & [= <-])%exc_bind_Ok. rewrite Hs in Hv. apply stoi_to_string in Hv as ->; [|done].
  apply find_char_Some in Ea as [Ea Hno]. rewrite Nat.add_1_r in Hs. rewrite Hs in Ea.
  unfold read_back. cbn [fst snd]. set (b := take i a) in *. clearbody b. subst a. clear Hs.
  assert (Hsl : "/"%char ∉ to_string len) by (by apply to_string_no_char).
  assert (H6 : is_ipv6_addr (b ++ "/"%char :: to_string len) = is_ipv6_addr b).
  { apply eq_true_iff_eq. rewrite !is_ipv6_true, elem_of_app, elem_of_cons.
    pose proof (to_string_no_char len ":"%char Hlen eq_refl). naive_solver. }
  destruct (_ || _) eqn:Eh; [|done]. unfold normalize_host_prefix at 2.
  rewrite rfind_char_app, H6 by done.
  rewrite drop_app_ge, take_app_length by lia. replace (length b + 1 - length b)%nat with 1%nat by lia. cbn [drop].
  unfold normalize_host_prefix. rewrite rfind_char_None by done.
  destruct (is_ipv6_addr b); cbn [negb andb orb] in *; rewrite ?orb_false_r in Eh; apply Z.eqb_eq in Eh as ->; done.
Qed.

Lemma assoc_eq k v l : assoc k ((k, v) :: l) = Some v.
Proof. cbn [assoc]. by rewrite bool_decide_eq_true_2. Qed.
Lemma assoc_ne k k' v l : bool_decide (k' = k) = false → assoc k ((k', v) :: l) = assoc k l.
Proof. intros H. cbn [assoc]. by rewrite H. Qed.
Lemma assoc_nil k : assoc k [] = None.
Proof. done. Qed.
(** The members of objects with known keys *)
Ltac members := unfold obj1 in *; repeat first [rewrite assoc_eq | rewrite assoc_ne by reflexivity | rewrite assoc_nil].

Section reading.
Context {NL : Nlohmann} {SS : StdSort} {IP : InetPton}.

Definition read_addr (a : cstring) : cstring :=
  match addr_prefix a with Ok p => read_back p | _ => [] end.

Lemma addr_prefix_int a p : addr_prefix a = Ok p → i32 p.2 = p.2.
Proof.
  unfold addr_prefix. destruct (find_char "/" a) as [i|].
  - intros (v & Hv & [= <-])%exc_bind_Ok. cbn [snd]. unfold stoi in Hv.
    destruct (match drop_while isspace (drop (i + 1) a) with [] => _ | _ => _ end) as [neg body].
    destruct (bool_decide _); [done|]. destruct (in_int _) eqn:E; [|done]. injection Hv as <-.
    revert E. generalize ((if neg : bool then -1 else 1) * dec_value 0 (take_while isdigit body)). intros z.
    unfold in_int. intros E. unfold i32, swrap. change (32 - 1) with 31. breflect.
    unfold INT_MIN, INT_MAX in *. rewrite Z.mod_small; lia.
  - intros [= <-]. cbn [snd]. by destruct (is_ipv6_addr a).
Qed.

Lemma parse_addr_rhs a j : addr_to_rhs a = Ok j → parse_nft_addr j = Ok (Some (read_addr a)).
Proof.
  unfold addr_to_rhs, read_addr. intros (p & Hp & [= <-])%exc_bind_Ok. rewrite Hp.
  unfold parse_nft_addr. members. cbn [get_text get_int from_json string_codec]. unfold mbind, exc_bind.
  by rewrite (addr_prefix_int a p Hp).
Qed.

Lemma parse_addrs_rhs l js : exc_map addr_to_rhs l = Ok js →
  exc_map parse_nft_addr js = Ok ((λ a, Some (read_addr a)) <$> l).
Proof.
  revert js. induction l as [|a l IH]; intros js; [by intros [= <-]|].
  intros (j & Hj & (js' & Hjs & [= <-])%exc_bind_Ok)%exc_bind_Ok. cbn [exc_map].
  rewrite (parse_addr_rhs _ _ Hj). cbn [mbind exc_bind]. by rewrite (IH _ Hjs).
Qed.

Lemma parse_addr_list_rhs l rhs : cidr_list_to_nft_rhs l = Ok rhs →
  parse_nft_addr_list rhs = Ok (read_addr <$> l) ∧ set_reference rhs = None.
Proof.
  assert (Hm : ∀ l js, exc_map addr_to_rhs l = Ok js →
    parse_nft_addr_list (obj1 "set" (JArr js)) = Ok (read_addr <$> l) ∧ set_reference (obj1 "set" (JArr js)) = None).
  { intros l' js Hj. split; [|done]. unfold parse_nft_addr_list. members.
    rewrite (parse_addrs_rhs _ _ Hj). cbn [mbind exc_bind]. f_equal.
    clear Hj. induction l' as [|a l' IH]; [done|]. by rewrite !fmap_cons, bind_cons, IH. }
  destruct l as [|a [|b l]].
  - intros [= <-]. apply (Hm [] []). done.
  - cbn [cidr_list_to_nft_rhs]. intros Ha. pose proof (parse_addr_rhs _ _ Ha) as Hp.
    apply exc_bind_Ok in Ha as (p & _ & <-%ok_inj). split; [|done].
    unfold parse_nft_addr_list. members. by rewrite Hp.
  - unfold cidr_list_to_nft_rhs. intros (js & Hj & <-%ok_inj)%exc_bind_Ok. by apply Hm.
Qed.

Lemma read_addrs_equal l rhs : Forall canonical_addr l → (l ≠ [] → cidr_list_to_nft_rhs l = Ok rhs) →
  addr_lists_equal (read_addr <$> l) l = true.
Proof.
  intros Hc Hr. apply bool_decide_eq_true. rewrite <- list_fmap_compose. apply list_fmap_ext. intros i a Ha. cbn.
  assert (∃ j, addr_to_rhs a = Ok j) as (j & (p & Hp & _)%exc_bind_Ok).
  { destruct l as [|b l]; [done|]. specialize (Hr ltac:(done)). destruct l as [|c l].
    - destruct i; [|done]. injection Ha as ->. by exists rhs.
    - unfold cidr_list_to_nft_rhs in Hr. apply exc_bind_Ok in Hr as (js & Hj & _). revert Ha Hj. clear.
      generalize (b :: c :: l) as l'. intros l'. revert i js. induction l' as [|x l' IH]; intros i js Hi; [done|].
      intros (j & Hj & (js' & Hjs & _)%exc_bind_Ok)%exc_bind_Ok.
      destruct i as [|i]; [injection Hi as ->; by exists j|by apply (IH i js')]. }
  unfold read_addr. rewrite Hp. apply read_back_addr; [|done]. rewrite Forall_lookup in Hc. by eapply Hc.
Qed.

(** ** Ports *)

Definition spec_ok (spec : PortSpec) : Prop := Forall valid_range (ranges spec) ∧ in_order range_lt (ranges spec).

Definition item_json (r : PortRange) : json :=
  if negb (PortSpec.pr_from r =? pr_to r) then obj1 "range" (JArr [JInt (PortSpec.pr_from r); JInt (pr_to r)])
  else JInt (PortSpec.pr_from r).

Lemma swrap_port z : 1 ≤ z ≤ 65535 → swrap 64 z = z.
Proof. intros Hz. unfold swrap. change (64 - 1) with 63. rewrite Z.mod_small; lia. Qed.

Lemma parse_item r : valid_range r → parse_nft_port_spec (item_json r) = Ok (mk_PortSpec [r]).
Proof.
  intros Hr. transitivity (parse_port_spec (to_config_string (mk_PortSpec [r]))).
  2:{ apply ranges_to_string_parse; [by left|by apply Forall_singleton|by repeat constructor]. }
  unfold item_json, to_config_string, ranges_to_string. cbn [ranges ranges_to_strings join].
  destruct Hr as [Hf Ht]. destruct (PortSpec.pr_from r =? pr_to r) eqn:E; cbn [negb].
  - cbn [parse_nft_port_spec]. by rewrite swrap_port by lia.
  - unfold obj1. cbn [parse_nft_port_spec]. members. cbn [get_int64 from_json int_codec mbind exc_bind].
    by rewrite !swrap_port by lia.
Qed.

Lemma parse_set_spec items :
  parse_nft_port_spec (obj1 "set" (JArr items)) =
  exc_map (λ j, s ← parse_nft_port_spec j; Ok (to_config_string s)) items ≫= λ texts, parse_port_spec (join "," texts).
Proof.
  unfold obj1. cbn [parse_nft_port_spec]. members. rewrite bool_decide_eq_true_2 by done. f_equal.
  induction items as [|j items IH]; [done|]. cbn [exc_map]. rewrite <- IH.
  destruct (parse_nft_port_spec j); done.
Qed.

Lemma parse_port_rhs spec rhs : spec_ok spec → port_spec_to_nft_rhs spec = Ok rhs → parse_nft_port_spec rhs = Ok spec.
Proof.
  intros [Hv Ho]. unfold port_spec_to_nft_rhs, kind. destruct spec as [[|r [|r2 l]]]; cbn [ranges] in *; [done| |].
  - apply Forall_cons in Hv as [Hr _]. intros H. rewrite <- (parse_item r Hr). unfold item_json. f_equal.
    destruct (PortSpec.pr_from r =? pr_to r); cbn [negb]; by apply ok_inj in H.
  - intros <-%ok_inj. rewrite parse_set_spec.
    assert (Ht : exc_map (λ j, s ← parse_nft_port_spec j; Ok (to_config_string s)) (item_json <$> r :: r2 :: l) =
      Ok (ranges_to_strings (r :: r2 :: l) "-")); [|unfold item_json in Ht; rewrite Ht; by apply (ranges_to_string_parse "-" (mk_PortSpec (r :: r2 :: l))); [left| |]].
    clear Ho. induction Hv as [|x m Hx _ IH]; [done|]. rewrite fmap_cons. cbn [exc_map ranges_to_strings].
    rewrite (parse_item x Hx). cbn [mbind exc_bind]. rewrite IH. done.
Qed.

(** ** The expressions of a rule *)

Definition fam6 (fam : Z) (nr : ParsedNftRule) : ParsedNftRule := if fam =? AF_INET6 then with_ipv6 nr else nr.

Lemma parse_payload nr op protocol field rhs :
  parse_expr nr (match_json op (payload_json protocol field) rhs) =
  parse_payload_match nr op [(str "protocol", JStr protocol); (str "field", JStr field)] None (Some rhs).
Proof.
  unfold match_json, payload_json, parse_expr. members. unfold parse_match. members. cbn [value_text].
  unfold value_text. members. unfold match_payload. members. done.
Qed.

Lemma parse_network nr op fam field rhs :
  parse_expr nr (match_json op (payload_json (ip_proto_of fam) field) rhs) =
  parse_payload_match (fam6 fam nr) op [(str "protocol", JStr []); (str "field", JStr field)] None (Some rhs).
Proof.
  rewrite parse_payload. unfold parse_payload_match, value_text. members. cbn [mbind exc_bind].
  unfold ip_proto_of, fam6. by destruct (fam =? AF_INET6).
Qed.

Lemma parse_exprs_cons nr nr' e l : parse_expr nr e = Ok nr' → parse_exprs nr (e :: l) = parse_exprs nr' l.
Proof. intros H. cbn [parse_exprs]. by rewrite H. Qed.

Lemma op_negated neg : bool_decide (op_json neg = str "!=") = neg.
Proof. by destruct neg. Qed.

Lemma reads_set fam n nr rest :
  parse_exprs nr (match_json "==" (payload_json (ip_proto_of fam) "daddr") (JStr ("@" ++ n)) :: rest) =
  parse_exprs (with_set_name n (fam6 fam nr)) rest.
Proof. apply parse_exprs_cons. rewrite parse_network. reflexivity. Qed.

Lemma reads_dscp fam d nr rest : 0 ≤ d ≤ 63 →
  parse_exprs nr (match_json "==" (payload_json (ip_proto_of fam) "dscp") (JInt d) :: rest) =
  parse_exprs (on_criteria (with_dscp d) (fam6 fam nr)) rest.
Proof.
  intros Hd. apply parse_exprs_cons. rewrite parse_network. unfold parse_payload_match, value_text. members.
  cbn [mbind exc_bind]. cbn [parse_nft_dscp_value]. unfold u64, wrap.
  rewrite Z.mod_small by (change (2 ^ 64) with 18446744073709551616; lia).
  by rewrite (proj2 (Z.leb_le d 63)) by lia.
Qed.

Lemma reads_saddr fam l neg rhs nr rest : cidr_list_to_nft_rhs l = Ok rhs →
  parse_exprs nr (match_json (op_json neg) (payload_json (ip_proto_of fam) "saddr") rhs :: rest) =
  parse_exprs (on_criteria (with_src_addr (read_addr <$> l) neg) (fam6 fam nr)) rest.
Proof.
  intros [H _]%parse_addr_list_rhs. apply parse_exprs_cons. rewrite parse_network. unfold parse_payload_match, value_text.
  members. cbn [mbind exc_bind]. rewrite op_negated.
  by rewrite (bool_decide_eq_false_2 (str "saddr" = str "dscp")), (bool_decide_eq_true_2 (str "saddr" = str "saddr")), H by done.
Qed.

Lemma reads_daddr fam l neg rhs nr rest : cidr_list_to_nft_rhs l = Ok rhs →
  parse_exprs nr (match_json (op_json neg) (payload_json (ip_proto_of fam) "daddr") rhs :: rest) =
  parse_exprs (on_criteria (with_dst_addr (read_addr <$> l) neg) (fam6 fam nr)) rest.
Proof.
  intros [H Hs]%parse_addr_list_rhs. apply parse_exprs_cons. rewrite parse_network. unfold parse_payload_match, value_text.
  members. cbn [mbind exc_bind]. rewrite op_negated.
  by rewrite (bool_decide_eq_false_2 (str "daddr" = str "dscp")), (bool_decide_eq_false_2 (str "daddr" = str "saddr")),
    (bool_decide_eq_true_2 (str "daddr" = str "daddr")), Hs, H by done.
Qed.

Lemma reads_l4proto p nr rest : p = L4Proto.Tcp ∨ p = L4Proto.Udp →
  parse_exprs nr (match_json "==" (meta_json "l4proto") (JStr (l4_proto_name p)) :: rest) =
  parse_exprs (on_criteria (with_proto p) nr) rest.
Proof. intros [->| ->]; apply parse_exprs_cons; reflexivity. Qed.

Definition transport_proto (p : L4Proto.t) : cstring :=
  if bool_decide (p = L4Proto.Any) then str "th" else l4_proto_name p.

Lemma port_proto_same p c : p ≠ L4Proto.TcpUdp → fc_proto c = p → port_proto (transport_proto p) c = c.
Proof. intros H <-. destruct c as [? ? p]. by destruct p. Qed.

Lemma reads_sport p spec neg rhs nr rest : p ≠ L4Proto.TcpUdp → fc_proto (nr_criteria nr) = p →
  spec_ok spec → port_spec_to_nft_rhs spec = Ok rhs →
  parse_exprs nr (match_json (op_json neg) (payload_json (transport_proto p) "sport") rhs :: rest) =
  parse_exprs (on_criteria (with_src_port spec neg) nr) rest.
Proof.
  intros Hp Hc Hs Hr. apply parse_exprs_cons. rewrite parse_payload. unfold parse_payload_match, value_text. members.
  cbn [mbind exc_bind]. rewrite op_negated, (parse_port_rhs spec rhs Hs Hr).
  rewrite (bool_decide_eq_false_2 (transport_proto p = str "ip6")) by (by destruct p).
  cbn. f_equal. unfold on_criteria, compose. by rewrite port_proto_same.
Qed.
Lemma reads_dport p spec neg rhs nr rest : p ≠ L4Proto.TcpUdp → fc_proto (nr_criteria nr) = p →
  spec_ok spec → port_spec_to_nft_rhs spec = Ok rhs →
  parse_exprs nr (match_json (op_json neg) (payload_json (transport_proto p) "dport") rhs :: rest) =
  parse_exprs (on_criteria (with_dst_port spec neg) nr) rest.
Proof.
  intros Hp Hc Hs Hr. apply parse_exprs_cons. rewrite parse_payload. unfold parse_payload_match, value_text. members.
  cbn [mbind exc_bind]. rewrite op_negated, (parse_port_rhs spec rhs Hs Hr).
  rewrite (bool_decide_eq_false_2 (transport_proto p = str "ip6")) by (by destruct p).
  cbn. f_equal. unfold on_criteria, compose. by rewrite port_proto_same.
Qed.

(** ** The rules of the backend *)

(** The criteria the verifier can read back *)
Record readable (c : FirewallRuleCriteria) : Prop := mk_readable {
  rd_dscp : ∀ d, fc_dscp c = Some d → 0 ≤ d ≤ 63;
  rd_src_port : spec_ok (fc_src_port c);
  rd_dst_port : spec_ok (fc_dst_port c);
}.

Definition some_addr (l : list cstring) : bool := negb (bool_decide (l = [])).
Definition some_port (s : PortSpec) : bool := negb (spec_empty s).

(** What is read of the matches of a rule *)
Definition parsed_criteria (c : FirewallRuleCriteria) : FirewallRuleCriteria :=
  mk_Criteria None (fc_dscp c) (fc_proto c) (fc_src_port c) (fc_dst_port c) (read_addr <$> fc_src_addr c)
    (read_addr <$> fc_dst_addr c) (negate_src_port c && some_port (fc_src_port c))
    (negate_dst_port c && some_port (fc_dst_port c)) (negate_src_addr c && some_addr (fc_src_addr c))
    (negate_dst_addr c && some_addr (fc_dst_addr c)) false.
Definition network_match (c : FirewallRuleCriteria) : bool :=
  has_value (dst_set_name c) || has_value (fc_dscp c) || some_addr (fc_src_addr c) || some_addr (fc_dst_addr c).
Definition parsed_of (r : PendingRule) : ParsedNftRule :=
  let c := pr_criteria r in
  mk_ParsedNftRule (value_or (dst_set_name c) []) (parsed_criteria c)
    (bool_decide (pr_action r = Action.Mark)) (bool_decide (pr_action r = Action.Drop))
    (negb (bool_decide (pr_action r = Action.Drop)))
    (if bool_decide (pr_action r = Action.Mark) then pr_fwmark r else 0)
    ((pr_family r =? AF_INET6) && network_match c).

Lemma reads_addrs fam c rest nr m :
  nr_criteria nr = mk_Criteria None (fc_dscp c) L4Proto.Any empty_spec empty_spec [] [] false false false false false →
  build_addr_match_exprs (ip_proto_of fam) (fc_src_addr c) (fc_dst_addr c) (negate_src_addr c) (negate_dst_addr c) = Ok m →
  parse_exprs nr (m ++ rest) =
  parse_exprs (mk_ParsedNftRule (nr_set_name nr)
    (mk_Criteria None (fc_dscp c) L4Proto.Any empty_spec empty_spec (read_addr <$> fc_src_addr c) (read_addr <$> fc_dst_addr c)
       false false (negate_src_addr c && some_addr (fc_src_addr c)) (negate_dst_addr c && some_addr (fc_dst_addr c)) false)
    (is_mark nr) (is_drop nr) (is_pass nr) (nr_fwmark nr)
    (nr_ipv6 nr || (fam =? AF_INET6) && (some_addr (fc_src_addr c) || some_addr (fc_dst_addr c)))) rest.
Proof.
  destruct nr as [n c0 ma dr pa fw v6]. cbn [nr_criteria]. intros ->. unfold build_addr_match_exprs, some_addr.
  intros (s & Hs & (d & Hd & <-%ok_inj)%exc_bind_Ok)%exc_bind_Ok. rewrite <- app_assoc.
  destruct (fc_src_addr c) as [|a l] eqn:Ea.
  - apply ok_inj in Hs as <-. destruct (fc_dst_addr c) as [|b l'] eqn:Eb.
    + apply ok_inj in Hd as <-. by rewrite !andb_false_r, orb_false_r.
    + rewrite bool_decide_eq_false_2 in Hd by done. apply exc_bind_Ok in Hd as (rhs & Hr & <-%ok_inj).
      cbn [app]. rewrite (reads_daddr _ _ _ _ _ _ Hr), andb_false_r, bool_decide_eq_false_2 by done.
      cbn [negb orb]. rewrite !andb_true_r. unfold fam6. destruct (fam =? AF_INET6); cbn; by rewrite ?orb_true_r, ?orb_false_r.
  - rewrite bool_decide_eq_false_2 in Hs by done. apply exc_bind_Ok in Hs as (rhs & Hr & <-%ok_inj).
    cbn [app]. rewrite (reads_saddr _ _ _ _ _ _ Hr), (bool_decide_eq_false_2 (a :: l = [])) by done.
    destruct (fc_dst_addr c) as [|b l'] eqn:Eb.
    + apply ok_inj in Hd as <-. cbn [negb orb]. rewrite andb_false_r, !andb_true_r.
      unfold fam6. destruct (fam =? AF_INET6); cbn; by rewrite ?orb_true_r, ?orb_false_r.
    + rewrite bool_decide_eq_false_2 in Hd by done. apply exc_bind_Ok in Hd as (rhs' & Hr' & <-%ok_inj).
      cbn [app]. rewrite (reads_daddr _ _ _ _ _ _ Hr'), (bool_decide_eq_false_2 (b :: l' = [])) by done.
      cbn [negb orb]. rewrite !andb_true_r. unfold fam6. destruct (fam =? AF_INET6); cbn; by rewrite ?orb_true_r, ?orb_false_r.
Qed.

Lemma reads_ports c rest nr m : fc_proto c ≠ L4Proto.TcpUdp → readable c →
  fc_proto (nr_criteria nr) = L4Proto.Any → fc_src_port (nr_criteria nr) = empty_spec →
  fc_dst_port (nr_criteria nr) = empty_spec → negate_src_port (nr_criteria nr) = false →
  negate_dst_port (nr_criteria nr) = false →
  build_port_match_exprs (fc_proto c) (fc_src_port c) (fc_dst_port c) (negate_src_port c) (negate_dst_port c) = Ok m →
  parse_exprs nr (m ++ rest) =
  parse_exprs (on_criteria (λ c0, mk_Criteria (dst_set_name c0) (fc_dscp c0) (fc_proto c) (fc_src_port c) (fc_dst_port c)
      (fc_src_addr c0) (fc_dst_addr c0) (negate_src_port c && some_port (fc_src_port c))
      (negate_dst_port c && some_port (fc_dst_port c)) (negate_src_addr c0) (negate_dst_addr c0) (apply_output c0)) nr) rest.
Proof.
  destruct nr as [n [dset dscp pr sp dp sa da nsp ndp nsa nda ao] ma dr pa fw v6].
  cbn [nr_criteria fc_proto fc_src_port fc_dst_port negate_src_port negate_dst_port].
  intros Hp Hrd -> -> -> -> ->. unfold build_port_match_exprs, some_port.
  assert (Hproto : ∀ (m0 : list json),
    parse_exprs (mk_ParsedNftRule n (mk_Criteria dset dscp L4Proto.Any empty_spec empty_spec sa da false false nsa nda ao) ma dr pa fw v6)
      ((if negb (bool_decide (fc_proto c = L4Proto.Any))
        then [match_json "==" (meta_json "l4proto") (JStr (l4_proto_name (fc_proto c)))] else []) ++ m0) =
    parse_exprs (mk_ParsedNftRule n (mk_Criteria dset dscp (fc_proto c) empty_spec empty_spec sa da false false nsa nda ao) ma dr pa fw v6) m0).
  { intros m0. destruct (fc_proto c) eqn:Ec; cbn [app]; try done; rewrite reads_l4proto; auto. }
  assert (Hempty : ∀ s, spec_empty s = true → s = empty_spec)
    by (intros [l]; unfold spec_empty; cbn; intros ->%bool_decide_eq_true; done).
  destruct (bool_decide (fc_proto c = L4Proto.Any) && spec_empty (fc_src_port c) && spec_empty (fc_dst_port c)) eqn:E.
  { intros <-%ok_inj. apply andb_true_iff in E as [[E1%bool_decide_eq_true E2]%andb_true_iff E3].
    rewrite E1, E2, E3, (Hempty _ E2), (Hempty _ E3). cbn [negb app]. by rewrite !andb_false_r. }
  intros (s & Hs & (d & Hd & <-%ok_inj)%exc_bind_Ok)%exc_bind_Ok. rewrite <- app_assoc, Hproto.
  fold (transport_proto (fc_proto c)) in Hs, Hd. rewrite <- app_assoc.
  destruct (spec_empty (fc_src_port c)) eqn:E2; cbn [negb].
  - apply ok_inj in Hs as <-. rewrite (Hempty _ E2), andb_false_r. cbn [app].
    destruct (spec_empty (fc_dst_port c)) eqn:E3; cbn [negb].
    + apply ok_inj in Hd as <-. by rewrite (Hempty _ E3), andb_false_r.
    + apply exc_bind_Ok in Hd as (rhs & Hr & <-%ok_inj). cbn [app]. rewrite (reads_dport (fc_proto c) (fc_dst_port c)); try done; [|apply Hrd].
      by rewrite andb_true_r.
  - apply exc_bind_Ok in Hs as (rhs & Hr & <-%ok_inj). cbn [app]. rewrite (reads_sport (fc_proto c) (fc_src_port c)); try done; [|apply Hrd].
    rewrite andb_true_r. destruct (spec_empty (fc_dst_port c)) eqn:E3; cbn [negb].
    + apply ok_inj in Hd as <-. by rewrite (Hempty _ E3), andb_false_r.
    + apply exc_bind_Ok in Hd as (rhs' & Hr' & <-%ok_inj). cbn [app]. rewrite (reads_dport (fc_proto c) (fc_dst_port c)); try done; [|apply Hrd].
      by rewrite andb_true_r.
Qed.

Lemma reads_matches r m rest : fc_proto (pr_criteria r) ≠ L4Proto.TcpUdp → readable (pr_criteria r) →
  rule_matches_json r = Ok m →
  parse_exprs new_rule (m ++ rest) =
  parse_exprs (mk_ParsedNftRule (value_or (dst_set_name (pr_criteria r)) []) (parsed_criteria (pr_criteria r))
    false false false 0 ((pr_family r =? AF_INET6) && network_match (pr_criteria r))) rest.
Proof.
  intros Hp Hrd. unfold rule_matches_json, parsed_criteria. set (c := pr_criteria r) in *.
  intros (a & Ha & (p & Hports & <-%ok_inj)%exc_bind_Ok)%exc_bind_Ok. rewrite <- !app_assoc.
  unfold network_match, build_dscp_match_exprs, new_rule.
  destruct (dst_set_name c) as [n|]; destruct (fc_dscp c) as [d|] eqn:Ed; cbn [app has_value value_or orb];
    rewrite ?reads_set, ?reads_dscp by (by apply Hrd); rewrite (reads_addrs (pr_family r) c _ _ a);
    try done; try (unfold fam6; destruct (pr_family r =? AF_INET6); cbn; by rewrite Ed);
    (rewrite (reads_ports c _ _ p); [|by unfold fam6; destruct (pr_family r =? AF_INET6)..]);
    rewrite Ed; unfold fam6; by destruct (pr_family r =? AF_INET6).
Qed.

Lemma reads_mark r nr rest : 0 ≤ pr_fwmark r < 2 ^ 32 →
  parse_exprs nr (mangle_json (meta_json "mark") (mark_value_json r) :: rest) = parse_exprs (with_mark (pr_fwmark r) nr) rest.
Proof.
  intros Hm. apply parse_exprs_cons. unfold mangle_json, parse_expr. members. unfold parse_mangle. members.
  change (meta_json "mark") with (JObj [(str "meta", JObj [(str "key", JStr (str "mark"))])]). members.
  unfold value_text. members. cbn [mbind exc_bind]. rewrite bool_decide_eq_true_2 by done.
  assert (Hu : u32 (u64 (pr_fwmark r)) = pr_fwmark r).
  { unfold u32, u64, wrap. rewrite (Z.mod_small _ (2 ^ 64)) by lia. by rewrite Z.mod_small. }
  assert (Hv : parse_nft_mark_value (mark_value_json r) = Ok (Some (pr_fwmark r))); [|by rewrite Hv].
  unfold mark_value_json. destruct (pr_fwmark_mask r =? 0xFFFFFFFF); cbn; by rewrite Hu.
Qed.

Lemma reads_saved m nr rest :
  parse_exprs nr (mangle_json (ct_json "mark") m :: rest) = parse_exprs nr rest.
Proof. by apply parse_exprs_cons. Qed.

Lemma pending_rule_reads r j chain : fc_proto (pr_criteria r) ≠ L4Proto.TcpUdp → readable (pr_criteria r) →
  (pr_action r = Action.Mark → 0 ≤ pr_fwmark r < 2 ^ 32) → build_pending_rule_json r = Ok j →
  command_rule chain j = (if bool_decide (rule_chain r = chain) then command_rule (rule_chain r) j else None) ∧
  ∃ exprs, command_rule (rule_chain r) j = Some exprs ∧ parse_exprs new_rule exprs = Ok (parsed_of r).
Proof.
  intros Hp Hrd Hm. unfold build_pending_rule_json, parsed_of.
  destruct (pr_action r) eqn:Ea; intros (m & H & <-%ok_inj)%exc_bind_Ok;
    (split; [rewrite !command_rule_json; by destruct (bool_decide (rule_chain r = chain)); rewrite ?bool_decide_eq_true_2|]);
    rewrite command_rule_json, bool_decide_eq_true_2 by done; (eexists; split; [reflexivity|]);
    rewrite (reads_matches r m _ Hp Hrd H); cbn [app];
    rewrite (parse_exprs_cons _ _ counter_json _ eq_refl); [|done..].
  rewrite reads_mark by auto. by destruct (save_conntrack_mark r); cbn [app]; rewrite ?reads_saved.
Qed.

(** The rules of the prefilter are read as rules without criteria. *)
Lemma prefilter_reads pf : Forall (λ exprs, ∃ nr, parse_exprs new_rule exprs = Ok nr ∧ ignored_rule nr = true) (prefilter_exprs pf).
Proof.
  unfold prefilter_exprs. rewrite !Forall_app. split_and!.
  - unfold restore_exprs. destruct (_ && _); [|done]. apply Forall_singleton. by eexists.
  - unfold dnat_exprs. destruct (skip_established_or_dnat pf); [|done]. apply Forall_singleton. by eexists.
  - unfold marked_exprs. destruct (pf_skip_marked_packets pf); [|done]. apply Forall_singleton. by eexists.
  - unfold iface_exprs. destruct (pf_inbound_interfaces pf) as [[|i [|i' l]]|]; try done; apply Forall_singleton; by eexists.
Qed.
End reading.

(** ** What is expected of a state *)

(** The pending rule that an expected rule stands for *)
Record pending_for (r : PendingRule) (e : ExpectedNftRule) : Prop := mk_pending_for {
  pf_set : value_or (dst_set_name (pr_criteria r)) [] = en_set_name e;
  pf_ipv6 : (pr_family r =? AF_INET6) && network_match (pr_criteria r) = en_ipv6 e;
  pf_action : (pr_action r, pr_fwmark r) =
    match en_action_type e with
    | RuleActionType.Mark => (Action.Mark, en_fwmark e)
    | RuleActionType.Drop => (Action.Drop, 0)
    | _ => (Action.Pass, 0)
    end;
  pf_criteria : pr_criteria r = with_set (en_criteria e) (dst_set_name (pr_criteria r));
  pf_output : apply_output (en_criteria e) = false;
  pf_selects : en_set_name e ≠ [] ∨ has_rule_selector (with_set (en_criteria e) None) = true;
}.

(** The negations are of something, and the addresses are canonical. *)
Record canonical (c : FirewallRuleCriteria) : Prop := mk_canonical {
  cn_src_port : negate_src_port c = true → some_port (fc_src_port c) = true;
  cn_dst_port : negate_dst_port c = true → some_port (fc_dst_port c) = true;
  cn_src_neg : negate_src_addr c = true → some_addr (fc_src_addr c) = true;
  cn_dst_neg : negate_dst_addr c = true → some_addr (fc_dst_addr c) = true;
  cn_src_addr : Forall canonical_addr (fc_src_addr c);
  cn_dst_addr : Forall canonical_addr (fc_dst_addr c);
}.

Lemma rule_addrs_readable r m : rule_matches_json r = Ok m →
  ∃ rhs1 rhs2, (fc_src_addr (pr_criteria r) ≠ [] → cidr_list_to_nft_rhs (fc_src_addr (pr_criteria r)) = Ok rhs1) ∧
    (fc_dst_addr (pr_criteria r) ≠ [] → cidr_list_to_nft_rhs (fc_dst_addr (pr_criteria r)) = Ok rhs2).
Proof.
  unfold rule_matches_json. intros (a & Ha & _)%exc_bind_Ok. unfold build_addr_match_exprs in Ha.
  apply exc_bind_Ok in Ha as (s & Hs & (d & Hd & _)%exc_bind_Ok).
  assert (H : ∀ l neg f x, (if bool_decide (l = []) then Ok []
       else rhs ← cidr_list_to_nft_rhs l;
            Ok [match_json (op_json neg) (payload_json (ip_proto_of (pr_family r)) f) rhs]) = Ok x →
    ∃ rhs, l ≠ [] → cidr_list_to_nft_rhs l = Ok rhs).
  { intros [|y l] neg f x; [by exists JNull|]. rewrite bool_decide_eq_false_2 by done. intros (rhs & Hr & _)%exc_bind_Ok. by exists rhs. }
  destruct (H _ _ _ _ Hs) as [r1 H1], (H _ _ _ _ Hd) as [r2 H2]. by exists r1, r2.
Qed.

Lemma build_matches r j : build_pending_rule_json r = Ok j → ∃ m, rule_matches_json r = Ok m.
Proof.
  unfold build_pending_rule_json. destruct (pr_action r); intros (m & H & _)%exc_bind_Ok; by exists m.
Qed.

Lemma andb_implied a b : (a = true → b = true) → a && b = a.
Proof. destruct a; [by intros ->|done]. Qed.

Lemma parsed_matches r e j : pending_for r e → canonical (en_criteria e) → build_pending_rule_json r = Ok j →
  rule_matches (parsed_of r) e = true ∧ ignored_rule (parsed_of r) = false.
Proof.
  intros [Hset H6 Hact Hcrit Hout Hsel] Hc (m & Hm)%build_matches. destruct (rule_addrs_readable r m Hm) as (r1 & r2 & H1 & H2).
  assert (Hn : pr_action r = Action.Mark ∨ pr_action r = Action.Drop ∨ pr_action r = Action.Pass) by (destruct (pr_action r); auto).
  destruct e as [n v6 act fw c]. cbn [en_set_name en_ipv6 en_action_type en_fwmark en_criteria] in *.
  assert (Hs : fc_src_addr (pr_criteria r) = fc_src_addr c ∧ fc_dst_addr (pr_criteria r) = fc_dst_addr c) by (by rewrite Hcrit).
  destruct Hs as [Hsrc Hdst]. rewrite Hsrc in H1. rewrite Hdst in H2.
  pose proof (read_addrs_equal _ _ (cn_src_addr _ Hc) H1) as He1.
  pose proof (read_addrs_equal _ _ (cn_dst_addr _ Hc) H2) as He2. split.
  - unfold rule_matches, parsed_of, criteria_equal, action_matches.
    cbn [nr_ipv6 nr_set_name nr_criteria is_mark is_drop is_pass nr_fwmark en_set_name en_ipv6 en_action_type en_fwmark en_criteria].
    rewrite Hset, H6, Hcrit. unfold parsed_criteria, with_set.
    cbn [fc_proto fc_dscp fc_src_port fc_dst_port fc_src_addr fc_dst_addr negate_src_port negate_dst_port
         negate_src_addr negate_dst_addr].
    rewrite He1, He2, (andb_implied _ _ (cn_src_port _ Hc)), (andb_implied _ _ (cn_dst_port _ Hc)),
      (andb_implied _ _ (cn_src_neg _ Hc)), (andb_implied _ _ (cn_dst_neg _ Hc)), !eqb_reflx.
    rewrite (bool_decide_eq_true_2 (n = n)), (bool_decide_eq_true_2 (fc_proto c = _)), (bool_decide_eq_true_2 (fc_dscp c = _)),
      (bool_decide_eq_true_2 (fc_src_port c = _)), (bool_decide_eq_true_2 (fc_dst_port c = _)) by done.
    destruct act; apply pair_equal_spec in Hact as [-> Hf]; rewrite ?Hf, ?Z.eqb_refl; done.
  - unfold ignored_rule, parsed_of. cbn [nr_set_name nr_criteria is_mark is_drop is_pass].
    rewrite Hset. apply orb_false_iff. split; [by destruct (pr_action r)|].
    apply andb_false_iff. destruct Hsel as [Hne|Hne]; [left; by apply bool_decide_eq_false_2|right].
    revert Hne. rewrite Hcrit. unfold criteria_empty, parsed_criteria, has_rule_selector, with_set.
    cbn [fc_proto fc_dscp fc_src_port fc_dst_port fc_src_addr fc_dst_addr dst_set_name apply_output has_value negb orb andb].
    assert (Hnil : ∀ l : list cstring, bool_decide (read_addr <$> l = []) = bool_decide (l = [])).
    { intros [|x l]; [done|]. by rewrite !bool_decide_eq_false_2. }
    rewrite !Hnil. destruct (fc_dscp c), (bool_decide (fc_proto c = L4Proto.Any)), (spec_empty (fc_src_port c)),
      (spec_empty (fc_dst_port c)), (bool_decide (fc_src_addr c = [])), (bool_decide (fc_dst_addr c = [])); done.
Qed.

(** The action of the calls of a state *)
Definition pending_action (rs : RuleState) : Action.t * Z :=
  match action_type rs with
  | RuleActionType.Mark => (Action.Mark, rs_fwmark rs)
  | RuleActionType.Drop => (Action.Drop, 0)
  | _ => (Action.Pass, 0)
  end.

Lemma family_rules_expected base save rs fam set : ipv6_enabled_ base = true → apply_output (criteria rs) = false →
  value_or set [] ≠ [] ∨ set = None ∧ has_rule_selector (with_set (criteria rs) None) = true →
  (fam = AF_INET6 → has_value set || expects_both_families (with_set (criteria rs) None) = true) →
  Forall2 pending_for
    (with_save save <$> rules_for_family base fam (pending_action rs).1 (pending_action rs).2 (with_set (criteria rs) set))
    (target_rules rs (value_or set [], fam =? AF_INET6)).
Proof.
  intros H6 Hout Hsel Hfam. unfold rules_for_family, target_rules. rewrite H6. cbn [negb fst snd]. rewrite andb_false_r.
  set (c := criteria rs) in *. cbn [fc_src_addr fc_dst_addr with_set fc_proto].
  set (src := filter_addrs_by_family (fc_src_addr c) (fam =? AF_INET6)).
  set (dst := filter_addrs_by_family (fc_dst_addr c) (fam =? AF_INET6)).
  destruct (_ && _ || _ && _) eqn:Ex; [constructor|]. apply orb_false_iff in Ex as [Es Ed].
  assert (Hsrc : some_addr src = some_addr (fc_src_addr c)).
  { revert Es. unfold src, some_addr. destruct (fc_src_addr c) as [|x l]; [done|].
    rewrite (bool_decide_eq_false_2 (x :: l = [])) by done. cbn [negb andb]. by intros ->. }
  assert (Hdst : some_addr dst = some_addr (fc_dst_addr c)).
  { revert Ed. unfold dst, some_addr. destruct (fc_dst_addr c) as [|x l]; [done|].
    rewrite (bool_decide_eq_false_2 (x :: l = [])) by done. cbn [negb andb]. by intros ->. }
  clear Es Ed. clearbody src dst. rewrite <- list_fmap_compose. apply Forall2_fmap. apply Forall_Forall2_diag, Forall_true.
  intros pr. constructor; cbn [compose with_save pr_criteria pr_family pr_action pr_fwmark with_addrs with_set dst_set_name
    en_set_name en_ipv6 en_action_type en_fwmark en_criteria]; try done.
  - unfold network_match. cbn [dst_set_name fc_dscp fc_src_addr fc_dst_addr with_addrs with_set]. rewrite Hsrc, Hdst.
    destruct (Z.eqb_spec fam AF_INET6) as [E|]; [|done]. specialize (Hfam E). revert Hfam.
    unfold expects_both_families, some_addr. cbn [dst_set_name fc_dscp fc_src_addr fc_dst_addr with_set].
    destruct (has_value set); [done|]. cbn [orb andb has_value]. done.
  - unfold pending_action. by destruct (action_type rs).
  - destruct Hsel as [?|[-> Hsel]]; [by left|right]. revert Hsel. unfold has_rule_selector.
    cbn [dst_set_name fc_dscp fc_src_port fc_dst_port fc_src_addr fc_dst_addr with_addrs with_set].
    fold (some_addr src) (some_addr dst) (some_addr (fc_src_addr c)) (some_addr (fc_dst_addr c)). by rewrite Hsrc, Hdst.
Qed.

Lemma bind_one {A B} (f : A → list B) x : [x] ≫= f = f x.
Proof. apply app_nil_r. Qed.

Lemma rule_call_rules base sf rs set : action_type rs ≠ RuleActionType.Skip →
  (action_type rs = RuleActionType.Mark → rs_fwmark rs ≠ 0) →
  rule_call rs set ≫= call_rules base sf =
  rules_named base sf (pending_action rs).1 (pending_action rs).2 (with_set (criteria rs) set).
Proof.
  unfold rule_call, pending_action. destruct (action_type rs); intros Hs Hm; cbn [mbind list_bind app]; try done;
    [rewrite (proj2 (Z.eqb_neq _ _) (Hm eq_refl))|..]; cbn [mbind list_bind]; by rewrite app_nil_r.
Qed.

(** The name of a set tells its family. *)
Definition own_set (n : cstring) : Prop := ipv6_from_set_name n = Some (name_family n =? AF_INET6).

Lemma state_expected base save rs : ipv6_enabled_ base = true → apply_output (criteria rs) = false →
  dst_set_name (criteria rs) = None → Forall own_set (set_names rs) →
  (action_type rs = RuleActionType.Mark → rs_fwmark rs ≠ 0) →
  covers pending_for (with_save save <$> (state_calls rs ≫= call_rules base name_family))
    (expand_expected_rule_states [rs]).
Proof.
  intros H6 Hout Hdst Hown Hm. unfold expand_expected_rule_states. rewrite bind_one.
  case_bool_decide as Hskip; [by rewrite skip_calls; [constructor|]|].
  unfold state_calls, state_targets. destruct (set_names rs) as [|n l] eqn:Esets.
  - assert (Hws : with_set (criteria rs) None = criteria rs) by (destruct (criteria rs); cbn in Hdst; by subst).
    destruct (has_rule_selector (criteria rs)) eqn:Hsel; [|constructor].
    rewrite rule_call_rules by done. unfold rules_named, rules_for. cbn [dst_set_name with_set]. rewrite fmap_app.
    assert (H4 : covers pending_for
      (with_save save <$> rules_for_family base AF_INET (pending_action rs).1 (pending_action rs).2 (with_set (criteria rs) None))
      (target_rules rs ([], false))).
    { apply covers_Forall2. change ([], false) with (value_or None [] : cstring, AF_INET =? AF_INET6).
      apply family_rules_expected; rewrite ?Hws; auto. done. }
    rewrite Hws in *. destruct (expects_both_families (criteria rs)) eqn:Eb; cbn [negb].
    + assert (needs_family_specific_rule (criteria rs) = true) as ->.
      { revert Eb. unfold needs_family_specific_rule, expects_both_families. intros ->. done. }
      cbn [negb]. rewrite bind_cons, bind_one. apply covers_app; [done|].
      apply covers_Forall2. change ([], true) with (value_or None [] : cstring, AF_INET6 =? AF_INET6). rewrite <- Hws.
      apply family_rules_expected; rewrite ?Hws; auto.
    + rewrite bind_one. rewrite <- (app_nil_r (target_rules rs _)). apply covers_app; [done|constructor].
  - rewrite <- Esets in *. clear Esets n l. induction Hown as [|n l Hn Hown IH]; [constructor|].
    rewrite fmap_cons, !bind_cons, bind_app, fmap_app. apply covers_app; [|apply IH].
    rewrite rule_call_rules by done. unfold rules_named. cbn [dst_set_name with_set]. unfold own_set in Hn. rewrite Hn.
    change (n, value_or (Some (name_family n =? AF_INET6)) false) with (value_or (Some n) [], name_family n =? AF_INET6).
    apply covers_Forall2, family_rules_expected; auto. left. intros E. cbn in E. subst n. done.
Qed.

(** ** The states of a run *)

(** What the run guarantees of a state *)
Definition state_built {SS : StdSort} {IP : InetPton} (config : Config) (rs : RuleState) : Prop :=
  action_type rs = RuleActionType.Skip ∨
  (∃ rule, rule ∈ config_rules config ∧ build_firewall_rule_criteria rule = Ok (criteria rs)) ∧
  Forall own_set (set_names rs).

Lemma realized_own ipv6 name u : Forall own_set (realized_sets ipv6 name u).
Proof.
  unfold realized_sets. apply Forall_app. split.
  - destruct (has_static_entries u); [|done]. by destruct ipv6; repeat constructor.
  - destruct (has_domain_entries u); [|done]. by destruct ipv6; repeat constructor.
Qed.

Lemma realized_rule_sets_own config usage ipv6 names uc sets :
  Forall own_set sets → Forall own_set (realized_rule_sets config usage ipv6 names uc sets).1.
Proof.
  revert uc sets. induction names as [|n names IH]; intros uc sets Hs; cbn [realized_rule_sets]; [done|].
  destruct (config_lists config !! n) as [cfg|]; [|by apply IH].
  destruct (match uc !! n with Some u => (u, uc) | None => _ end) as [u uc'] eqn:E. apply IH, Forall_app.
  split; [done|apply realized_own].
Qed.

Lemma prune_states_built {SS : StdSort} {IP : InetPton} config usage ipv6 states uc states' :
  Forall (λ rs, config_rules config !! rule_index rs ≠ None) states →
  prune_states config usage ipv6 states uc = Ok states' → Forall (state_built config) states'.
Proof.
  revert uc states'. induction states as [|rs states IH]; intros uc states' Hi; cbn [prune_states].
  { intros [= <-]. constructor. }
  apply Forall_cons in Hi as [Hr Hi]. case_bool_decide as Hs.
  { intros (rest & H%IH & [= <-])%exc_bind_Ok; [|done]. constructor; [by left|done]. }
  destruct (config_rules config !! rule_index rs) as [rule|] eqn:Er; [|done].
  intros (c & Hc & H)%exc_bind_Ok.
  pose proof (realized_rule_sets_own config usage ipv6 (route_rule_lists rule) uc [] (List.Forall_nil _)) as Hown.
  destruct (realized_rule_sets _ _ _ _ _ _) as [sets uc']. apply exc_bind_Ok in H as (rest & H%IH & [= <-]); [|done].
  constructor; [right|done]. split; [|done]. exists rule. split; [by eapply list_elem_of_lookup_2|done].
Qed.

Lemma run_states_built {SS : StdSort} {IP : InetPton} {FS : Files} {K} {NF : Nft K}
    cache keenetic config marks sel ipv6 mode (f f' : NftablesFirewall K) states :
  apply_runtime_firewall cache keenetic config marks sel ipv6 mode f = (Ok states, f') →
  Forall (state_built config) states.
Proof.
  intros Hrun. destruct (queue_calls _ _ _ _ _ _ _ _ _ _ Hrun) as (calls & s1 & s2 & _ & Hq & _).
  destruct (queue_calls_rules _ _ _ _ _ _ _ _ _ _ Hq) as (_ & _ & Hp).
  set (usage := λ n cfg, match analyze_list_set_usage cache n cfg with
                         | Ok u => u | _ => Build_ListSetUsage false false 0 end).
  specialize (Hp usage). eapply prune_states_built; [|apply Hp; [|done..]].
  - rewrite Forall_lookup. intros i rs Hi.
    assert (Hx : (rule_index <$> build_fw_rule_states config marks (Some sel)) !! i = Some (rule_index rs))
      by (by rewrite list_lookup_fmap, Hi).
    rewrite build_states_index, lookup_seq in Hx. destruct Hx as [-> Hx]. by apply lookup_lt_is_Some in Hx as [x Hx]; cbn; rewrite Hx.
  - intros n cfg u Hu. unfold usage. by rewrite Hu.
Qed.

(** The criteria of a configured rule *)
Lemma parsed_spec_ok {SS : StdSort} s ps : parse_port_spec s = Ok ps → spec_ok ps.
Proof.
  intros [[_ H]|(_ & rs & Hrs & Hp & Ho)]%parse_port_spec_Ok; split; try done; try (rewrite H; constructor).
  rewrite Hp. eapply Forall2_Forall_r; [done|]. apply Forall_true. intros t r. apply denotes_range_valid.
Qed.

Lemma built_criteria {SS : StdSort} {IP : InetPton} rule c : build_firewall_rule_criteria rule = Ok c →
  dst_set_name c = None ∧ apply_output c = false ∧ spec_ok (fc_src_port c) ∧ spec_ok (fc_dst_port c).
Proof.
  unfold build_firewall_rule_criteria. intros (p & _ & H)%exc_bind_Ok.
  destruct (strip_neg _) as [sport sneg]. apply exc_bind_Ok in H as (src & Hs & H).
  destruct (strip_neg _) as [dport dneg]. apply exc_bind_Ok in H as (dst & Hd & H).
  apply exc_bind_Ok in H as (sa & _ & H). apply exc_bind_Ok in H as (da & _ & [= <-]).
  split_and!; try done; by eapply parsed_spec_ok.
Qed.

(** ** The listing

    What [nft] prints for the expressions of a rule: a prefix of full length is
    printed as an address, and a match of the protocol is not printed when a
    match of ports implies it. *)

Definition host_prefix (addr : cstring) (len : Z) : Prop :=
  head addr ≠ Some "@"%char ∧ (if is_ipv6_addr addr then len = 128 else len = 32).
Definition prefix_json (addr : cstring) (len : Z) : json :=
  obj1 "prefix" (JObj [(str "addr", JStr addr); (str "len", JInt len)]).

Inductive listed_item : json → json → Prop :=
  | listed_item_same j : listed_item j j
  | listed_item_host addr len : host_prefix addr len → listed_item (prefix_json addr len) (JStr addr).

Inductive listed : list json → list json → Prop :=
  | listed_nil : listed [] []
  | listed_same e l l' : listed l l' → listed (e :: l) (e :: l')
  | listed_host op protocol field addr len l l' :
      field = str "saddr" ∨ field = str "daddr" → host_prefix addr len → listed l l' →
      listed (match_json op (payload_json protocol field) (prefix_json addr len) :: l)
        (match_json op (payload_json protocol field) (JStr addr) :: l')
  | listed_hosts op protocol field items items' l l' :
      field = str "saddr" ∨ field = str "daddr" → Forall2 listed_item items items' → listed l l' →
      listed (match_json op (payload_json protocol field) (obj1 "set" (JArr items)) :: l)
        (match_json op (payload_json protocol field) (obj1 "set" (JArr items')) :: l')
  | listed_implied p op field rhs l l' :
      p = L4Proto.Tcp ∨ p = L4Proto.Udp → field = str "sport" ∨ field = str "dport" → listed l l' →
      listed (match_json "==" (meta_json "l4proto") (JStr (l4_proto_name p)) ::
              match_json op (payload_json (l4_proto_name p) field) rhs :: l)
        (match_json op (payload_json (l4_proto_name p) field) rhs :: l').

(** The parsed output of [nft -j list chain inet KeenPbrTable prerouting] *)
Definition rule_item (handle : Z) (exprs : list json) : json :=
  obj1 "rule" (JObj [(str "family", JStr "inet"); (str "table", JStr TABLE_NAME); (str "chain", JStr CHAIN_NAME);
    (str "handle", JInt handle); (str "expr", JArr exprs)]).
Definition chain_item (handle : Z) : json :=
  obj1 "chain" (JObj [(str "family", JStr "inet"); (str "table", JStr TABLE_NAME); (str "name", JStr CHAIN_NAME);
    (str "handle", JInt handle); (str "type", JStr "filter"); (str "hook", JStr "prerouting"); (str "prio", JInt (-150));
    (str "policy", JStr "accept")]).
(** The listing of the chain once the document has been run where the chain
    held the rules [before] *)
Definition lists_chain (before : list (list json)) (doc : list json) (root : json) : Prop :=
  ∃ meta handle handles exprss,
    root = obj1 "nftables" (JArr (obj1 "metainfo" meta :: chain_item handle :: zip_with rule_item handles exprss)) ∧
    length handles = length exprss ∧ Forall2 listed (rules_after CHAIN_NAME before doc) exprss.

Section listing.
Context {NL : Nlohmann} {SS : StdSort} {IP : InetPton} {JT : JsonText}.

Lemma parse_host addr len : host_prefix addr len → parse_nft_addr (prefix_json addr len) = Ok (Some addr).
Proof.
  intros [_ H]. unfold parse_nft_addr, prefix_json. members. cbn [get_text from_json string_codec get_int mbind exc_bind].
  destruct (is_ipv6_addr addr); subst len; done.
Qed.

Lemma parse_listed_item j j' : listed_item j j' → parse_nft_addr j' = parse_nft_addr j.
Proof. intros [|addr len H]; [done|]. by rewrite (parse_host addr len H). Qed.

Lemma parse_listed_items items items' : Forall2 listed_item items items' →
  exc_map parse_nft_addr items' = exc_map parse_nft_addr items.
Proof. induction 1 as [|j j' l l' Hj _ IH]; [done|]. cbn [exc_map]. by rewrite (parse_listed_item _ _ Hj), IH. Qed.

Lemma addr_match_ext nr op protocol field rhs rhs' : field = str "saddr" ∨ field = str "daddr" →
  set_reference rhs = None → set_reference rhs' = None → parse_nft_addr_list rhs' = parse_nft_addr_list rhs →
  parse_expr nr (match_json op (payload_json protocol field) rhs') = parse_expr nr (match_json op (payload_json protocol field) rhs).
Proof.
  intros Hf H1 H2 H3. rewrite !parse_payload. unfold parse_payload_match, value_text. members. cbn [mbind exc_bind].
  rewrite H1, H2, H3. by destruct Hf as [->| ->].
Qed.

Lemma parse_listed l l' : listed l l' → ∀ nr, parse_exprs nr l' = parse_exprs nr l.
Proof.
  induction 1 as [|e l l' _ IH|op protocol field addr len l l' Hf Hh _ IH|op protocol field items items' l l' Hf Hi _ IH
    |p op field rhs l l' Hp Hf _ IH]; intros nr; [done|..].
  - cbn [parse_exprs]. destruct (parse_expr nr e); [apply IH|done..].
  - cbn [parse_exprs]. rewrite (addr_match_ext nr op protocol field (prefix_json addr len) (JStr addr)); [|done..| |].
    + destruct (parse_expr nr _); [apply IH|done..].
    + destruct Hh as [Hh _]. destruct addr as [|c addr]; [done|]. cbn in Hh.
      unfold set_reference. destruct c as [[] [] [] [] [] [] [] []]; done.
    + unfold parse_nft_addr_list. unfold prefix_json at 1. members. fold (obj1 "addr" (JStr addr)).
      change (JObj [(str "prefix", JObj [(str "addr", JStr addr); (str "len", JInt len)])]) with (prefix_json addr len).
      by rewrite (parse_host addr len Hh).
  - cbn [parse_exprs]. rewrite (addr_match_ext nr op protocol field (obj1 "set" (JArr items)) (obj1 "set" (JArr items'))); [|done..|].
    + destruct (parse_expr nr _); [apply IH|done..].
    + unfold parse_nft_addr_list. members. by rewrite (parse_listed_items _ _ Hi).
  - rewrite reads_l4proto by done. cbn [parse_exprs].
    assert (He : parse_expr (on_criteria (with_proto p) nr) (match_json op (payload_json (l4_proto_name p) field) rhs) =
                 parse_expr nr (match_json op (payload_json (l4_proto_name p) field) rhs)).
    { rewrite !parse_payload. unfold parse_payload_match, value_text. members. cbn [mbind exc_bind].
      destruct Hp as [->| ->], Hf as [->| ->]; cbn; by destruct (parse_nft_port_spec rhs). }
    rewrite He. destruct (parse_expr nr _); [apply IH|done..].
Qed.

Definition add_rules (l : list ParsedNftRule) (st : ParsedNftablesState) : ParsedNftablesState :=
  mk_ParsedNft (has_table st) (has_prerouting_chain st) (has_prerouting_hook st) (nft_rules st ++ l) (nft_sets st).

Lemma parse_rule_items handles exprss parsed st : length handles = length exprss →
  Forall2 (λ exprs nr, parse_exprs new_rule exprs = Ok nr) exprss parsed →
  parse_nft_items st (zip_with rule_item handles exprss) = Ok (add_rules (List.filter (λ nr, negb (ignored_rule nr)) parsed) st).
Proof.
  intros Hl H. revert handles Hl st. induction H as [|exprs nr exprss parsed Hp _ IH]; intros [|h handles] Hl st; try done.
  - destruct st. unfold add_rules. cbn. by rewrite app_nil_r.
  - cbn [zip_with parse_nft_items List.filter]. unfold parse_nft_item, rule_item. members.
    unfold parse_rule_item, text_is, value_text. members. cbn [mbind exc_bind].
    rewrite !bool_decide_eq_true_2 by done. cbn [exc_and mbind exc_bind]. rewrite Hp. cbn [mbind exc_bind].
    fold (obj1 "x" JNull). unfold obj1. rewrite (IH handles) by (by injection Hl).
    destruct (ignored_rule nr); cbn [negb]; [done|]. unfold add_rules. cbn. by rewrite <- app_assoc.
Qed.

Lemma parse_listing before doc out root parsed :
  out ≠ [] → json_parse out = Some root → lists_chain before doc root →
  Forall2 (λ exprs nr, parse_exprs new_rule exprs = Ok nr) (rules_after CHAIN_NAME before doc) parsed →
  validate_nft_json_root out "prerouting chain" = None ∧
  parse_nft_json out = Ok (mk_ParsedNft false true true (List.filter (λ nr, negb (ignored_rule nr)) parsed) []).
Proof.
  intros Hout Hroot (meta & h & hs & exprss & -> & Hl & Hlist) Hp.
  unfold validate_nft_json_root, parse_nft_json. rewrite bool_decide_eq_false_2, Hroot by done.
  cbn [mbind option_bind jfind]. unfold obj1 at 1 3. unfold jfind. rewrite assoc_eq. split; [done|].
  assert (Hp' : Forall2 (λ exprs nr, parse_exprs new_rule exprs = Ok nr) exprss parsed).
  { clear -Hlist Hp. revert parsed Hp. induction Hlist as [|x y l l' Hxy _ IH]; intros parsed Hp; inversion Hp; subst; constructor.
    - by rewrite (parse_listed _ _ Hxy).
    - by apply IH. }
  change (parse_nft_items empty_ParsedNft (obj1 "metainfo" meta :: chain_item h :: zip_with rule_item hs exprss)) with
    (parse_nft_items (mk_ParsedNft false true true [] []) (zip_with rule_item hs exprss)).
  by rewrite (parse_rule_items _ _ _ _ Hl Hp').
Qed.
End listing.

(** ** After a run *)

Lemma call_rules_from base sf call r : r ∈ call_rules base sf call →
  ∃ a m c, call_rule call = Some (a, m, c) ∧ pr_action r = a ∧ pr_fwmark r = m ∧
    fc_dscp (pr_criteria r) = fc_dscp c ∧ fc_src_port (pr_criteria r) = fc_src_port c ∧
    fc_dst_port (pr_criteria r) = fc_dst_port c ∧ apply_output (pr_criteria r) = apply_output c.
Proof.
  unfold call_rules. destruct (call_rule call) as [[[a m] c]|]; [|by rewrite list_elem_of_In].
  assert (H : ∀ fam, r ∈ rules_for_family base fam a m c → pr_action r = a ∧ pr_fwmark r = m ∧
    fc_dscp (pr_criteria r) = fc_dscp c ∧ fc_src_port (pr_criteria r) = fc_src_port c ∧
    fc_dst_port (pr_criteria r) = fc_dst_port c ∧ apply_output (pr_criteria r) = apply_output c).
  { intros fam. unfold rules_for_family. destruct (_ && negb _); [by rewrite list_elem_of_In|].
    destruct (_ && _ || _ && _); [by rewrite list_elem_of_In|]. by intros (p & -> & _)%list_elem_of_fmap. }
  intros Hr. exists a, m, c. split; [done|]. unfold rules_named, rules_for in Hr.
  destruct (dst_set_name c) as [n|]; [by apply (H (sf n))|].
  apply elem_of_app in Hr as [Hr|Hr]; [by apply (H AF_INET)|]. destruct (negb _); [by rewrite list_elem_of_In in Hr|by apply (H AF_INET6)].
Qed.

Lemma detours_on_output {SS : StdSort} {IP : InetPton} keenetic config marks call :
  call ∈ config_detour_calls keenetic config marks → ∃ m c, call = Call_create_mark_rule m c ∧ apply_output c = true.
Proof.
  unfold config_detour_calls. destruct (dns config) as [d|]; [|by rewrite list_elem_of_In].
  destruct (make_DnsServerRegistry keenetic d) as [registry|e|]; [|by rewrite list_elem_of_In..].
  intros (server & Hc & _)%list_elem_of_bind. unfold detour_calls in Hc.
  destruct (_ ≫= _) as [ob|]; [|by rewrite list_elem_of_In in Hc]. destruct (marks !! _) as [mark|]; [|by rewrite list_elem_of_In in Hc].
  apply list_elem_of_bind in Hc as (s & Hc & _). unfold detour_criteria in Hc.
  destruct (parse_port_spec _) as [port|e|]; cbn in Hc; [|by rewrite list_elem_of_In in Hc..].
  apply list_elem_of_singleton in Hc as ->. by do 2 eexists.
Qed.

(** What the verifier needs of a state to find its rules: the value of [dscp]
    exists, a negation is of something, addresses have canonical lengths, and
    the mark is one. *)
Record verifiable (rs : RuleState) : Prop := mk_verifiable {
  vf_dscp : ∀ d, fc_dscp (criteria rs) = Some d → 0 ≤ d ≤ 63;
  vf_canonical : canonical (criteria rs);
  vf_mark : action_type rs = RuleActionType.Mark → 0 < rs_fwmark rs < 2 ^ 32;
}.

Lemma expected_canonical rs e : canonical (criteria rs) → e ∈ expand_expected_rule_states [rs] → canonical (en_criteria e).
Proof.
  intros Hc. unfold expand_expected_rule_states. rewrite bind_one. case_bool_decide; [by rewrite list_elem_of_In|].
  intros (t & He & _)%list_elem_of_bind. unfold target_rules in He.
  destruct (_ && _ || _ && _) eqn:Ex; [by rewrite list_elem_of_In in He|]. apply orb_false_iff in Ex as [Es Ed].
  apply list_elem_of_fmap in He as (p & -> & _). cbn [en_criteria].
  assert (Hf : ∀ l v6, Forall canonical_addr l → Forall canonical_addr (filter_addrs_by_family l v6)).
  { intros l v6. rewrite !Forall_forall. intros Hl x Hx. apply Hl. unfold filter_addrs_by_family in Hx.
    by apply list_elem_of_In, filter_In in Hx as [Hx%list_elem_of_In _]. }
  assert (Hn : ∀ l v6, negb (bool_decide (l = [])) && bool_decide (filter_addrs_by_family l v6 = []) = false →
    some_addr l = true → some_addr (filter_addrs_by_family l v6) = true).
  { intros l v6. unfold some_addr. intros Hb Hl. rewrite Hl in Hb. cbn [andb] in Hb. by rewrite Hb. }
  destruct Hc as [H1 H2 H3 H4 H5 H6]. constructor; cbn [with_addrs negate_src_port negate_dst_port negate_src_addr
    negate_dst_addr fc_src_port fc_dst_port fc_src_addr fc_dst_addr]; auto.
Qed.

Section verified.
Context {NL : Nlohmann} {SS : StdSort} {IP : InetPton}.

Lemma exc_map_elem {A B} (g : A → exc B) l ys : exc_map g l = Ok ys → ∀ x, x ∈ l → ∃ y, g x = Ok y.
Proof.
  revert ys. induction l as [|a l IH]; intros ys; [by intros _ x; rewrite list_elem_of_In|].
  intros (y & Hy & (ys' & Hys & _)%exc_bind_Ok)%exc_bind_Ok x [->|Hx]%elem_of_cons; [by exists y|by eapply IH].
Qed.

(** The rules of the prerouting chain are read back. *)
Lemma chain_reads rules cmds : exc_map build_pending_rule_json rules = Ok cmds →
  Forall (λ r, apply_output (pr_criteria r) = false → fc_proto (pr_criteria r) ≠ L4Proto.TcpUdp ∧ readable (pr_criteria r) ∧
    (pr_action r = Action.Mark → 0 ≤ pr_fwmark r < 2 ^ 32)) rules →
  Forall2 (λ exprs nr, parse_exprs new_rule exprs = Ok nr) (omap (command_rule CHAIN_NAME) cmds)
    (parsed_of <$> List.filter (λ r, negb (apply_output (pr_criteria r))) rules).
Proof.
  revert cmds. induction rules as [|r rules IH]; intros cmds; [by intros [= <-] _|].
  intros (j & Hj & (js & Hjs & <-%ok_inj)%exc_bind_Ok)%exc_bind_Ok [Hr Hrs]%Forall_cons. specialize (IH js Hjs Hrs).
  cbn [omap list_omap List.filter]. destruct (apply_output (pr_criteria r)) eqn:Eo; cbn [negb].
  - assert (command_rule CHAIN_NAME j = None) as ->; [|done]. unfold build_pending_rule_json in Hj.
    destruct (pr_action r); apply exc_bind_Ok in Hj as (m & _ & <-%ok_inj); unfold rule_chain; by rewrite Eo, command_rule_json.
  - destruct (Hr eq_refl) as (Hp & Hrd & Hm). destruct (pending_rule_reads r j CHAIN_NAME Hp Hrd Hm Hj) as (_ & exprs & He & Hpe).
    unfold rule_chain in He. rewrite Eo in He. rewrite He, fmap_cons. by constructor.
Qed.

(** The pending rules of the states, and those expected of them *)
Lemma states_expected base save config states : ipv6_enabled_ base = true → Forall (state_built config) states →
  Forall (λ rs, action_type rs ≠ RuleActionType.Skip → verifiable rs) states →
  covers (λ r e, pending_for r e ∧ canonical (en_criteria e))
    (with_save save <$> ((states ≫= state_calls) ≫= call_rules base name_family)) (expand_expected_rule_states states) ∧
  Forall (λ r, readable (pr_criteria r) ∧ (pr_action r = Action.Mark → 0 ≤ pr_fwmark r < 2 ^ 32))
    (with_save save <$> ((states ≫= state_calls) ≫= call_rules base name_family)).
Proof.
  intros H6 Hb Hv. induction states as [|rs states IH]; [split; constructor|].
  apply Forall_cons in Hb as [Hb Hbs], Hv as [Hv Hvs]. specialize (IH Hbs Hvs) as [IH1 IH2].
  rewrite bind_cons, bind_app, fmap_app.
  change (expand_expected_rule_states (rs :: states)) with
    (expand_expected_rule_states ([rs] ++ states)). unfold expand_expected_rule_states at 1. rewrite bind_app.
  fold (expand_expected_rule_states [rs]) (expand_expected_rule_states states).
  destruct (decide (action_type rs = RuleActionType.Skip)) as [Hs|Hs].
  { rewrite skip_calls by done. split; [|done]. unfold expand_expected_rule_states at 1. rewrite bind_one.
    rewrite bool_decide_eq_true_2 by done. done. }
  destruct Hb as [?|[(rule & _ & Hc) Hown]]; [done|]. destruct (Hv Hs) as [Hd Hcan Hm].
  destruct (built_criteria rule _ Hc) as (Hset & Hout & Hsp & Hdp). split.
  - apply covers_app; [|done]. eapply covers_impl; [|apply state_expected; try done].
    + intros r e _ He Hr. split; [done|]. by apply expected_canonical with rs.
    + intros Ha. specialize (Hm Ha). lia.
  - apply Forall_app. split; [|done]. apply Forall_forall. intros r (r0 & -> & Hr)%list_elem_of_fmap.
    cbn [with_save pr_criteria pr_action pr_fwmark]. apply list_elem_of_bind in Hr as (call & Hr & Hcall).
    apply call_rules_from in Hr as (a & m & c & Hcr & <- & <- & H1 & H2 & H3 & _).
    assert (Hcall' : ∃ n, call ∈ rule_call rs n).
    { unfold state_calls in Hcall. destruct (set_names rs); [destruct (has_rule_selector _); [by exists None|by rewrite list_elem_of_In in Hcall]|].
      apply list_elem_of_bind in Hcall as (n & Hcall & _). by exists (Some n). }
    destruct Hcall' as [n Hn]. unfold rule_call in Hn.
    destruct (action_type rs) eqn:Ea; [destruct (rs_fwmark rs =? 0); [by rewrite list_elem_of_In in Hn|]|..|done];
      apply list_elem_of_singleton in Hn as ->; injection Hcr as Ha Hf <-; (split; [constructor; [rewrite H1; apply Hd|by rewrite H2|by rewrite H3]|]);
      rewrite <- Ha; try done. rewrite <- Hf. specialize (Hm eq_refl). lia.
Qed.

(** The rules read from a listing of the document cover the expected ones. *)
Lemma document_verified {FS : Files} {K} {NF : Nft K} cache keenetic config marks sel mode (f f' : NftablesFirewall K) states before :
  apply_runtime_firewall cache keenetic config marks sel true mode f = (Ok states, f') →
  mode ≠ FirewallApplyMode.StaticSetsOnly → pending_rules_ f = [] → families_ok (created_sets_ f) →
  listing_complete (kernel f) before →
  Forall (λ rs, action_type rs ≠ RuleActionType.Skip → verifiable rs) states →
  ∃ doc parsed, nft_run doc (kernel f) = (0, kernel f') ∧
    Forall2 (λ exprs nr, parse_exprs new_rule exprs = Ok nr) (rules_after CHAIN_NAME (before CHAIN_NAME) doc) parsed ∧
    covers (λ actual exp, rule_matches actual exp = true) (List.filter (λ nr, negb (ignored_rule nr)) parsed)
      (expand_expected_rule_states states).
Proof.
  intros Hrun Hm Hpend Hfam Hshown Hv.
  destruct (runtime_calls (FW:=NftablesFirewall_Firewall) cache keenetic config marks sel true mode f states f' (λ _, eq_refl) (λ _, eq_refl) Hrun)
    as (calls & f1 & f2 & Hconf & Hrep & Hdecl & Happ & Hcalls).
  destruct (configure_nft _ _ _ _ _ Hconf) as (mask & Hmask & Hpf & Hbm & H6 & Hp1 & Hc1 & Hk1).
  assert (Hd : declared (ipv6_enabled_ (nft_base f1)) [] calls) by (by rewrite H6; apply Hdecl).
  destruct (replay_pending [] calls f1 f2 Hd) as (Hp2 & Hb2 & Hk2 & _); [split; [by rewrite Hc1|set_solver]|done|].
  destruct (nft_apply_Ok mode f2 f' Hm Happ) as (live & clear & doc & Hlive & Hdoc & Hnft & _).
  destruct (document_rules live clear (with_saved_marks f2) doc CHAIN_NAME (before CHAIN_NAME) Hdoc (or_introl eq_refl))
    as (cmds & Hcmds & Hexprs); [apply (Hshown live false); by rewrite <- Hk1, <- Hk2|].
  set (save := restore_conntrack_mark (global_prefilter_ (nft_base f2)) && negb (conntrack_mark_mask (global_prefilter_ (nft_base f2)) =? 0)).
  assert (Hrules : pending_rules_ (with_saved_marks f2) = with_save save <$> (List.filter is_rule calls ≫= call_rules (nft_base f1) name_family)).
  { cbn [with_saved_marks pending_rules_]. rewrite Hp2, Hp1, Hpend, <- call_rules_filter. done. }
  rewrite Hcalls, bind_app, fmap_app in Hrules.
  destruct (states_expected (nft_base f1) save config states H6 (run_states_built _ _ _ _ _ _ _ _ _ _ Hrun) Hv) as [Hcov Hok].
  pose proof (call_rules_ok (nft_base f1) save name_family (states ≫= state_calls) family_of_name) as Hproto.
  assert (Hdet : Forall (λ r, apply_output (pr_criteria r) = true)
    (with_save save <$> (config_detour_calls keenetic config marks ≫= call_rules (nft_base f1) name_family))).
  { apply Forall_forall. intros r (r0 & -> & Hr)%list_elem_of_fmap. apply list_elem_of_bind in Hr as (call & Hr & Hcall).
    apply detours_on_output in Hcall as (m & c & -> & Ho). apply call_rules_from in Hr as (a & m' & c' & [= <- <- <-] & _ & _ & _ & _ & _ & Hr).
    cbn [with_save pr_criteria]. congruence. }
  set (state_rules := with_save save <$> ((states ≫= state_calls) ≫= call_rules (nft_base f1) name_family)) in *.
  set (detour_rules := with_save save <$> (config_detour_calls keenetic config marks ≫= call_rules (nft_base f1) name_family)) in *.
  assert (Hpre : ∃ pre, Forall2 (λ exprs nr, parse_exprs new_rule exprs = Ok nr)
    (prefilter_exprs (global_prefilter_ (nft_base (with_saved_marks f2)))) pre).
  { pose proof (prefilter_reads (global_prefilter_ (nft_base (with_saved_marks f2)))) as H. revert H.
    generalize (prefilter_exprs (global_prefilter_ (nft_base (with_saved_marks f2)))). intros l0.
    induction 1 as [|e l (nr & He & _) _ (pre & IH)]; [by exists []|]. exists (nr :: pre). by constructor. }
  destruct Hpre as [pre Hpre].
  exists doc, (pre ++ (parsed_of <$> List.filter (λ r, negb (apply_output (pr_criteria r))) (pending_rules_ (with_saved_marks f2)))).
  split; [by rewrite <- Hk1, <- Hk2|]. split.
  - rewrite Hexprs, bool_decide_eq_true_2 by done. apply Forall2_app; [done|]. apply chain_reads; [done|].
    rewrite Hrules. apply Forall_app. split.
    + rewrite Forall_forall in *. intros r Hr _. destruct (Hok r Hr), (Hproto r Hr). done.
    + eapply Forall_impl; [exact Hdet|]. cbn. intros r -> [=].
  - rewrite List.filter_app. change (expand_expected_rule_states states) with ([] ++ expand_expected_rule_states states).
    apply covers_app; [constructor|].
    apply (covers_impl (λ x y, rule_matches x y = true ∧ ignored_rule x = false)); [by intros x y _ _ [H _]|].
    apply covers_filter; [by intros x y [_ ->]|]. apply covers_fmap.
    apply (covers_impl (λ r e, pending_for r e ∧ canonical (en_criteria e))).
    + intros r e [Hr _]%list_elem_of_In%filter_In _ [Hpe Hce]. apply list_elem_of_In in Hr.
      destruct (exc_map_elem _ _ _ Hcmds r Hr) as [j Hj]. by apply parsed_matches with j.
    + apply covers_filter.
      * intros r e [[_ _ _ Hc Ho _] _]. rewrite Hc. cbn [with_set apply_output]. by rewrite Ho.
      * rewrite Hrules, <- (app_nil_r (expand_expected_rule_states states)). apply covers_app; [done|constructor].
Qed.

Lemma run_is_verified {FS : Files} {JT : JsonText} {K} {NF : Nft K}
    cache keenetic config marks sel mode (f f' : NftablesFirewall K) states before :
  apply_runtime_firewall cache keenetic config marks sel true mode f = (Ok states, f') →
  mode ≠ FirewallApplyMode.StaticSetsOnly → pending_rules_ f = [] → families_ok (created_sets_ f) →
  listing_complete (kernel f) before →
  Forall (λ rs, action_type rs ≠ RuleActionType.Skip → verifiable rs) states →
  ∃ doc, nft_run doc (kernel f) = (0, kernel f') ∧
    ∀ v out root, cached_state_ v = None → runner_ v list_chain_command = mk_CommandResult out 0 false →
      out ≠ [] → json_parse out = Some root → lists_chain (before CHAIN_NAME) doc root →
      ∃ v' checks, verify_chain v = (Ok (mk_ChainCheck true true "ok"), v') ∧
        verify_rules states v' = (Ok checks, v') ∧
        length checks = length (expand_expected_rule_states states) ∧
        Forall (λ c, ck_status c = CheckStatus.ok ∧ ck_detail c = str "ok") checks.
Proof.
  intros Hrun Hm Hpend Hfam Hshown Hv.
  destruct (document_verified _ _ _ _ _ _ _ _ _ before Hrun Hm Hpend Hfam Hshown Hv) as (doc & parsed & Hnft & Hp & Hcov).
  exists doc. split; [done|]. intros v out root Hcache Hrunner Hout Hroot Hlist.
  destruct (parse_listing _ doc out root parsed Hout Hroot Hlist Hp) as [Hval Hparse].
  set (rules := List.filter (λ nr, negb (ignored_rule nr)) parsed) in *.
  set (st := mk_CachedState (mk_ParsedNft true true true rules []) []).
  assert (Hst : read_state (runner_ v) = Ok st).
  { unfold read_state. rewrite Hrunner. cbn [format_nft_read_failure truncated exit_code stdout_output].
    rewrite bool_decide_eq_true_2 by done. cbn [negb Z.eqb]. rewrite Hval, Hparse. done. }
  assert (Hget : get_state v = (Ok st, mk_NftVerifier (runner_ v) (Some st))) by (unfold get_state; by rewrite Hcache, Hst).
  exists (mk_NftVerifier (runner_ v) (Some st)), (verify_expected rules (λ _, false) (expand_expected_rule_states states)).
  split_and!.
  - unfold verify_chain, mbind, stexc_bind. by rewrite Hget.
  - done.
  - generalize (expand_expected_rule_states states) as l. intros l. generalize (λ _ : nat, false) as used.
    induction l as [|e l IH]; intros used; [done|]. cbn [verify_expected length]. by rewrite IH.
  - apply (verify_expected_ok rules _ _ 0); [done|]. by rewrite drop_0.
Qed.

(** C21. The verifier agrees with the backend, for a run with IPv6 on that
    replaces the rules (any mode but that which refreshes the static sets only),
    starts with no rule left queued by a failed run, on a table whose listing
    shows every chain that holds rules, and returns states that the verifier can
    recognize: each [dscp] is within 0..63, nothing but a given list is negated,
    addresses are written with canonical lengths, and marks are positive 32-bit
    numbers.  After such a run, when [nft] lists the rules that the chain now has
    (printing full-length prefixes as addresses and leaving out implied protocol
    matches as it likes), the chain check is good and the check of every
    expected rule of the returned states is [ok]: none is reported missing or
    mismatched. *)
Theorem nft_verifier_accepts_the_run {FS : Files} {JT : JsonText} {K} {NF : Nft K}
    cache keenetic config marks sel mode (f f' : NftablesFirewall K) states before :
  apply_runtime_firewall cache keenetic config marks sel true mode f = (Ok states, f') →
  mode ≠ FirewallApplyMode.StaticSetsOnly → pending_rules_ f = [] → families_ok (created_sets_ f) →
  listing_complete (kernel f) before →
  Forall (λ rs, action_type rs ≠ RuleActionType.Skip → verifiable rs) states →
  ∃ doc, nft_run doc (kernel f) = (0, kernel f') ∧
    ∀ v out root, cached_state_ v = None → runner_ v list_chain_command = mk_CommandResult out 0 false →
      out ≠ [] → json_parse out = Some root → lists_chain (before CHAIN_NAME) doc root →
      ∃ v' checks, verify_chain v = (Ok (mk_ChainCheck true true "ok"), v') ∧
        verify_rules states v' = (Ok checks, v') ∧
        length checks = length (expand_expected_rule_states states) ∧
        Forall (λ c, ck_status c = CheckStatus.ok ∧ ck_detail c = str "ok") checks.
Proof. apply run_is_verified. Qed.

(** A good report is true: when every check of the verifier is [ok], there
    are pairwise different listed rules, one for each expected rule, with its
    family, set, selectors and action. *)
Theorem nft_verifier_ok_rules_exist rules expected :
  Forall (λ c, ck_status c = CheckStatus.ok) (verify_expected rules (λ _, false) expected) →
  ∃ found, NoDup found ∧
    Forall2 (λ i exp, ∃ actual, rules !! i = Some actual ∧ rule_matches actual exp = true) found expected.
Proof.
  intros H. destruct (verify_expected_found rules expected (λ _, false) H) as (found & Hnd & _ & Hf). by exists found.
Qed.
End verified.

(** ** Where the verifier and the backend differ *)

(** The expected rules of a state that passes traffic to set [n] *)
Definition w_state_on (sets : list cstring) (a : RuleActionType.t) (m : Z) (c : FirewallRuleCriteria) : RuleState :=
  mk_RuleState 0 [] sets "a" a m c.
Definition dscp_criteria : FirewallRuleCriteria :=
  mk_Criteria None (Some 46) L4Proto.Any empty_spec empty_spec [] [] false false false false false.
Definition src_criteria (a : cstring) : FirewallRuleCriteria :=
  mk_Criteria None None L4Proto.Any empty_spec empty_spec [a] [] false false false false false.

(** The statuses for the rules that the calls of [queued] leave, when [expected]
    is checked *)
Definition statuses (base : FirewallBase) (queued expected : list RuleState) : list CheckStatus.t :=
  ck_status <$> verify_expected (parsed_of <$> ((queued ≫= state_calls) ≫= call_rules base name_family)) (λ _, false)
    (expand_expected_rule_states expected).

(** A rule that marks ends in [accept], which is all that the verifier asks of a
    rule that passes: when the live rule marks the traffic that should pass, the
    report is good. *)
Lemma mark_rule_verifies_as_pass :
  statuses default_FirewallBase [w_state_on [str "kpbr4_x"] RuleActionType.Mark 0x10000 empty_Criteria]
    [w_state_on [str "kpbr4_x"] RuleActionType.Pass 0 empty_Criteria] = [CheckStatus.ok].
Proof. reflexivity. Qed.

(** Without IPv6 the backend installs no IPv6 rule for selectors of the network
    layer, and the verifier reports it missing. *)
Lemma direct_rule_missing_without_ipv6 :
  let rs := w_state_on [] RuleActionType.Mark 0x10000 dscp_criteria in
  statuses (mk_FirewallBase empty_prefilter 0xFFFFFFFF true true) [rs] [rs] = [CheckStatus.ok; CheckStatus.ok] ∧
  statuses (mk_FirewallBase empty_prefilter 0xFFFFFFFF false true) [rs] [rs] = [CheckStatus.ok; CheckStatus.missing].
Proof. split; reflexivity. Qed.

(** A length with a leading zero is accepted by the configuration and installed,
    and not found again. *)
Lemma padded_length_not_found {IP : InetPton} :
  is_inet AF_INET "10.0.0.0" = true →
  let rs := w_state_on [] RuleActionType.Drop 0 (src_criteria "10.0.0.0/08") in
  validate_cidr "10.0.0.0/08" = Ok tt ∧ statuses default_FirewallBase [rs] [rs] = [CheckStatus.missing].
Proof. intros H. split; [|reflexivity]. unfold validate_cidr.
  change (find_char "/" (str "10.0.0.0/08")) with (Some 8%nat). cbv zeta match.
  change (take 8 (str "10.0.0.0/08")) with (str "10.0.0.0"). by rewrite H. Qed.

(** ** Witnesses *)

Lemma listed_refl l : listed l l.
Proof. induction l; by constructor. Qed.

Definition w_applied :=
  @apply_runtime_firewall insertion_StdSort w_inet w_files w_cache (Ok []) _
    (@NftablesFirewall_Firewall _ w_nft) w_nft_config w_nft_marks ∅ true FirewallApplyMode.Destructive w_fresh.
Definition w_doc : list json := match kernel w_applied.2 with d :: _ => d | [] => [] end.
Definition w_exprs : list (list json) := rules_after CHAIN_NAME [] w_doc.
Definition w_root : json :=
  obj1 "nftables" (JArr (obj1 "metainfo" JNull :: chain_item 1 :: zip_with rule_item (Z.of_nat <$> seq 2 (length w_exprs)) w_exprs)).
Definition w_json_text : JsonText := {| json_parse _ := Some w_root |}.
Definition w_nlohmann : Nlohmann := {| type_error _ _ := []; key_not_found _ := []; float_to_int64 _ := 0 |}.
Definition w_verifier : NftablesFirewallVerifier := mk_NftVerifier (λ _, mk_CommandResult "{}" 0 false) None.

Lemma nft_verifier_accepts_the_run_witness :
  ∃ states v' checks, w_applied.1 = Ok states ∧
    @verify_rules w_nlohmann insertion_StdSort w_inet w_json_text states v' = (Ok checks, v') ∧ length checks = 5%nat ∧
    Forall (λ c, ck_status c = CheckStatus.ok ∧ ck_detail c = str "ok") checks.
Proof.
  destruct w_applied as [[states|e|] f'] eqn:E; [|vm_compute in E; discriminate E..].
  assert (Hk : kernel f' = [w_doc]) by (unfold w_doc; rewrite E; vm_compute in E; injection E as _ <-; reflexivity).
  pose proof E as E0. unfold w_applied in E0.
  destruct (@nft_verifier_accepts_the_run w_nlohmann insertion_StdSort w_inet w_files w_json_text _ w_nft w_cache (Ok [])
    w_nft_config w_nft_marks ∅ FirewallApplyMode.Destructive w_fresh f' states (λ _, []) E0) as (doc & Hrun & H);
    [discriminate|reflexivity|by intros n x Hx|by intros live out _ _| |].
  { vm_compute in E. injection E as <- _. repeat constructor; cbn; try discriminate; intros; simplify_eq; lia. }
  assert (Hdoc : doc = w_doc) by (rewrite Hk in Hrun; cbn in Hrun; congruence). subst doc.
  destruct (H w_verifier "{}" w_root) as (v' & checks & _ & Hv & Hl & Hc); [reflexivity|reflexivity|discriminate|reflexivity| |].
  { exists JNull, 1, (Z.of_nat <$> seq 2 (length w_exprs)), w_exprs. split; [reflexivity|]. split; [by rewrite length_fmap, length_seq|].
    fold w_exprs. generalize w_exprs. intros l. induction l; constructor; [apply listed_refl|done]. }
  exists states, v', checks. split; [reflexivity|]. split; [exact Hv|]. split; [|exact Hc]. rewrite Hl.
  vm_compute in E. injection E as <- _. vm_compute. reflexivity.
Defined.

Lemma nft_verifier_ok_rules_exist_witness :
  let rules := [parsed_of (mk_PendingRule AF_INET Action.Drop 0 0 false (with_set empty_Criteria (Some (str "kpbr4_x"))))] in
  let expected := expand_expected_rule_states [w_state_on [str "kpbr4_x"] RuleActionType.Drop 0 empty_Criteria] in
  ∃ found, NoDup found ∧
    Forall2 (λ i exp, ∃ actual, rules !! i = Some actual ∧ rule_matches actual exp = true) found expected.
Proof. apply nft_verifier_ok_rules_exist. vm_compute. repeat constructor. Defined.
