(* ===== verification/Iptables.v ===== *)
(** * The iptables backend (src/src/firewall/iptables.{hpp,cpp},
      ipset_restore_pipe.{hpp,cpp})

    Static sets and rules are built in the inactive of two generations, A and B,
    and the dispatcher chains are pointed at it.  The commands, with what is
    written to their standard input, go to the class [Shell]. *)

From S2P Require Import Prelude CppString Config PortSpec Fwmark AddrSpec DnsServer RoutingState FirewallRules.
From S2P Require Import ListParser ListStreamer Firewall FirewallTrace Json Nftables Packet NftSemantics.

Local Open Scope Z_scope.

(** The commands of the system: exit status and effect, and what a query
    prints. *)
Class Shell (K : Type) := {
  safe_exec : list cstring → K → Z * K;
  safe_exec_pipe_stdin : list cstring → cstring → K → Z * K;
  safe_exec_capture : list cstring → K → Z * cstring;
}.

Definition endl : cstring := [chr 10].
Definition hex (n : Z) : cstring := "0x" ++ to_hex n.

Definition IPT_CHAIN_NAME : cstring := "KeenPbrTable".
Definition RAW_CHAIN_NAME : cstring := "KeenPbrRaw".
Definition IPT_OUTPUT_CHAIN_NAME : cstring := "KeenPbrOutput".

Record IptPendingSet := mk_IptPendingSet { is_name : cstring; family_str : cstring; is_timeout : Z }.

Record IptPendingRule := mk_IptPendingRule {
  ir_ipv6 : bool;
  ir_action : Action.t;
  ir_fwmark : Z;
  ir_fwmark_mask : Z;
  ir_criteria : FirewallRuleCriteria;
}.

Record IptablesFirewall (K : Type) := mk_Ipt {
  ipt_base : FirewallBase;
  ipt_pending_sets_ : list IptPendingSet;
  ipt_pending_elements_ : gmap cstring cstring;
  ipt_pending_rules_ : list IptPendingRule;
  ipt_created_sets_ : gmap cstring Z;
  chain_v4_created_ : bool;
  chain_v6_created_ : bool;
  active_v4_generation_ : option FirewallSetGeneration.t;
  active_v6_generation_ : option FirewallSetGeneration.t;
  target_v4_generation_ : FirewallSetGeneration.t;
  target_v6_generation_ : FirewallSetGeneration.t;
  apply_prepared_ : bool;
  use_raw_prerouting_ : bool;
  shell_state : K;
}.
Arguments mk_Ipt {K}. Arguments ipt_base {K}. Arguments ipt_pending_sets_ {K}. Arguments ipt_pending_elements_ {K}.
Arguments ipt_pending_rules_ {K}. Arguments ipt_created_sets_ {K}. Arguments chain_v4_created_ {K}.
Arguments chain_v6_created_ {K}. Arguments active_v4_generation_ {K}. Arguments active_v6_generation_ {K}.
Arguments target_v4_generation_ {K}. Arguments target_v6_generation_ {K}. Arguments apply_prepared_ {K}.
Arguments use_raw_prerouting_ {K}. Arguments shell_state {K}.

(** ** Generations and names *)

Definition opposite_generation (g : FirewallSetGeneration.t) : FirewallSetGeneration.t :=
  match g with FirewallSetGeneration.A => FirewallSetGeneration.B | FirewallSetGeneration.B => FirewallSetGeneration.A end.
Definition generation_chain (g : FirewallSetGeneration.t) : cstring :=
  match g with FirewallSetGeneration.A => "KeenPbrTable_A" | FirewallSetGeneration.B => "KeenPbrTable_B" end.
Definition output_generation_chain (g : FirewallSetGeneration.t) : cstring :=
  match g with FirewallSetGeneration.A => "KeenPbrOutput_A" | FirewallSetGeneration.B => "KeenPbrOutput_B" end.
Definition prerouting_table_name (raw ipv6 : bool) : cstring :=
  if raw && negb ipv6 then str "raw" else str "mangle".
Definition prerouting_dispatcher_chain_name (raw ipv6 : bool) : cstring :=
  if raw && negb ipv6 then RAW_CHAIN_NAME else IPT_CHAIN_NAME.
Definition prerouting_generation_chain (raw : bool) (g : FirewallSetGeneration.t) (ipv6 : bool) : cstring :=
  if raw && negb ipv6
  then match g with FirewallSetGeneration.A => str "KeenPbrRaw_A" | FirewallSetGeneration.B => str "KeenPbrRaw_B" end
  else generation_chain g.

Definition generation_slot (g : FirewallSetGeneration.t) : cstring :=
  match g with FirewallSetGeneration.A => "s" | FirewallSetGeneration.B => "S" end.
Definition ipt_static_name (g4 g6 : FirewallSetGeneration.t) (list_name : cstring) (family : Z) : cstring :=
  "kpbr" ++ (if family =? AF_INET6 then str "6" else str "4") ++
  generation_slot (if family =? AF_INET6 then g6 else g4) ++ "_" ++ list_name.

(** ** Queueing *)

Definition expand_l4_protos_for_iptables (c : FirewallRuleCriteria) : list L4Proto.t :=
  if bool_decide (fc_proto c = L4Proto.Any) && (negb (spec_empty (fc_src_port c)) || negb (spec_empty (fc_dst_port c)))
  then [L4Proto.Tcp; L4Proto.Udp] else expand_l4_protos (fc_proto c).

(** [std::vector{src}] unless it is the empty string that stands for any. *)
Definition addr_list (a : cstring) : list cstring := if bool_decide (a = []) then [] else [a].

Definition ipt_rules_for_family (mask : Z) (ipv6 : bool) (action : Action.t) (fwmark : Z) (c : FirewallRuleCriteria) :
    list IptPendingRule :=
  let src := if bool_decide (fc_src_addr c = []) then [[]] else filter_addrs_by_family (fc_src_addr c) ipv6 in
  let dst := if bool_decide (fc_dst_addr c = []) then [[]] else filter_addrs_by_family (fc_dst_addr c) ipv6 in
  if (negb (bool_decide (fc_src_addr c = [])) && bool_decide (src = [])) ||
     (negb (bool_decide (fc_dst_addr c = [])) && bool_decide (dst = [])) then []
  else
    proto ← expand_l4_protos_for_iptables c;
    s ← src;
    d ← dst;
    [mk_IptPendingRule ipv6 action fwmark mask (with_addrs c proto (addr_list s) (addr_list d))].

Definition ipt_rules_for (mask : Z) (created : gmap cstring Z) (action : Action.t) (fwmark : Z)
    (c : FirewallRuleCriteria) : list IptPendingRule :=
  match dst_set_name c with
  | Some n => ipt_rules_for_family mask (bool_decide (created !! n = Some AF_INET6)) action fwmark c
  | None => ipt_rules_for_family mask false action fwmark c ++ ipt_rules_for_family mask true action fwmark c
  end.

(** ** The text of the scripts *)

Definition build_ipset_create_line (ps : IptPendingSet) : cstring :=
  "create " ++ is_name ps ++ " hash:net family " ++ family_str ps ++
  (if 0 <? is_timeout ps then " timeout " ++ to_string (is_timeout ps) else []) ++ " -exist" ++ endl.

(** [IpsetRestoreVisitor::on_entry] *)
Definition ipset_add_line (set_name entry : cstring) : cstring :=
  "add " ++ set_name ++ " " ++ entry ++ " -exist" ++ endl.

Definition bang (negated : bool) : cstring := if negated then str " !" else [].

Definition port_fragment (spec : PortSpec) (negated : bool) (plural single : cstring) : cstring :=
  if spec_empty spec then []
  else if bool_decide (kind spec = PortSpecKind.List)
  then " -m multiport" ++ bang negated ++ plural ++ to_iptables_string spec
  else bang negated ++ single ++ to_iptables_string spec.

Definition build_proto_port_fragment (proto : L4Proto.t) (src dst : PortSpec) (neg_src neg_dst : bool) : cstring :=
  if bool_decide (proto = L4Proto.Any) && spec_empty src && spec_empty dst then []
  else
    (if bool_decide (proto = L4Proto.Any) then [] else " -p " ++ l4_proto_name proto) ++
    port_fragment src neg_src " --sports " " --sport " ++
    port_fragment dst neg_dst " --dports " " --dport ".

Definition build_prefilter_lines (p : FirewallGlobalPrefilter) (chain : cstring) (allow_conntrack : bool) : cstring :=
  let mask := hex (conntrack_mark_mask p) in
  (if allow_conntrack && restore_conntrack_mark p && negb (conntrack_mark_mask p =? 0) then
     "-A " ++ chain ++ " -m conntrack --ctdir ORIGINAL -m connmark ! --mark 0/" ++ mask ++
       " -j CONNMARK --restore-mark --mask " ++ mask ++ endl ++
     "-A " ++ chain ++ " -m conntrack --ctdir ORIGINAL -m mark ! --mark 0/" ++ mask ++ " -j RETURN" ++ endl
   else []) ++
  (if allow_conntrack && skip_established_or_dnat p
   then "-A " ++ chain ++ " -m conntrack --ctstate DNAT -j RETURN" ++ endl else []) ++
  (if pf_skip_marked_packets p
   then "-A " ++ chain ++ " -m mark ! --mark 0x0/0xffffffff -j ACCEPT" ++ endl else []) ++
  (match pf_inbound_interfaces p with
   | Some [i] => "-A " ++ chain ++ " ! -i " ++ i ++ " -j RETURN" ++ endl
   | _ => []
   end).

Definition iface_fragments (p : FirewallGlobalPrefilter) : list cstring :=
  match pf_inbound_interfaces p with
  | Some (i :: j :: l) => (λ x, " -i " ++ x) <$> (i :: j :: l)
  | _ => [[]]
  end.

Definition append_mark_and_save (p : FirewallGlobalPrefilter) (allow_conntrack : bool) (mark_line : cstring) :
    list cstring :=
  mark_line ::
  (if negb allow_conntrack || negb (restore_conntrack_mark p) || (conntrack_mark_mask p =? 0) then []
   else match find_str " -j MARK " mark_line with
        | None => []
        | Some target =>
            [take target mark_line ++ " -j CONNMARK --save-mark --mask " ++ hex (conntrack_mark_mask p) ++ endl]
        end).

(** The lines of one protocol and interface. *)
Definition rule_lines_for (r : IptPendingRule) (p : FirewallGlobalPrefilter) (chain : cstring)
    (allow_conntrack : bool) (pp iface : cstring) : list cstring :=
  let c := ir_criteria r in
  let addr_frag :=
    match fc_src_addr c with [] => [] | a :: _ => bang (negate_src_addr c) ++ " -s " ++ a end ++
    match fc_dst_addr c with [] => [] | a :: _ => bang (negate_dst_addr c) ++ " -d " ++ a end in
  let dscp_frag := match fc_dscp c with Some d => " -m dscp --dscp " ++ to_string d | None => [] end in
  let tail := iface ++ addr_frag ++ dscp_frag ++ pp in
  let head := λ ch, match dst_set_name c with
    | None => "-A " ++ ch
    | Some n => "-A " ++ ch ++ " -m set --match-set " ++ n ++ " dst" end in
  (** the DROP and RETURN rules of a set name [CHAIN_NAME], not [chain] *)
  let end_chain := match dst_set_name c with None => chain | Some _ => IPT_CHAIN_NAME end in
  match ir_action r with
  | Action.Mark =>
      append_mark_and_save p allow_conntrack
        (head chain ++ tail ++ " -j MARK --set-xmark " ++ hex (ir_fwmark r) ++ "/" ++ hex (ir_fwmark_mask r) ++ endl) ++
      [head chain ++ tail ++ " -j RETURN" ++ endl]
  | Action.Drop => [head end_chain ++ tail ++ " -j DROP" ++ endl]
  | Action.Pass => [head end_chain ++ tail ++ " -j RETURN" ++ endl]
  end.

Definition build_rule_lines (r : IptPendingRule) (p : FirewallGlobalPrefilter) (chain : cstring)
    (allow_conntrack : bool) : list cstring :=
  let c := ir_criteria r in
  proto ← expand_l4_protos_for_iptables c;
  iface ← iface_fragments p;
  rule_lines_for r p chain allow_conntrack
    (build_proto_port_fragment proto (fc_src_port c) (fc_dst_port c) (negate_src_port c) (negate_dst_port c)) iface.

Definition rule_text (ipv6 : bool) (rules : list IptPendingRule) (p : FirewallGlobalPrefilter) (chain : cstring)
    (allow_conntrack : bool) : cstring :=
  mjoin (r ← rules; if Bool.eqb (ir_ipv6 r) ipv6 then build_rule_lines r p chain allow_conntrack else []).

Definition build_ipt_script (ipv6 : bool) (active_chain : cstring) (replace_active_chain : bool)
    (rules : list IptPendingRule) (p : FirewallGlobalPrefilter) : cstring :=
  let T := IPT_CHAIN_NAME in
  "*mangle" ++ endl ++ ":" ++ active_chain ++ " - [0:0]" ++ endl ++ "-F " ++ active_chain ++ endl ++
  (if negb replace_active_chain then
     ":" ++ T ++ " - [0:0]" ++ endl ++ ":" ++ T ++ "_OUTPUT - [0:0]" ++ endl ++
     "-A PREROUTING -j " ++ T ++ endl ++ "-A OUTPUT -j " ++ T ++ "_OUTPUT" ++ endl ++
     "-A " ++ T ++ " -j " ++ active_chain ++ endl ++ "-A " ++ T ++ "_OUTPUT -j " ++ active_chain ++ endl
   else
     "-F " ++ T ++ endl ++ "-F " ++ T ++ "_OUTPUT" ++ endl ++
     "-A " ++ T ++ " -j " ++ active_chain ++ endl ++ "-A " ++ T ++ "_OUTPUT -j " ++ active_chain ++ endl) ++
  build_prefilter_lines p active_chain true ++ rule_text ipv6 rules p active_chain true ++ "COMMIT" ++ endl.

Definition build_raw_prerouting_script (active_chain : cstring) (replace_active_chain : bool)
    (rules : list IptPendingRule) (p : FirewallGlobalPrefilter) : cstring :=
  let T := RAW_CHAIN_NAME in
  "*raw" ++ endl ++ ":" ++ active_chain ++ " - [0:0]" ++ endl ++ "-F " ++ active_chain ++ endl ++
  (if negb replace_active_chain then
     ":" ++ T ++ " - [0:0]" ++ endl ++ "-A PREROUTING -j " ++ T ++ endl ++ "-A " ++ T ++ " -j " ++ active_chain ++ endl
   else "-F " ++ T ++ endl ++ "-A " ++ T ++ " -j " ++ active_chain ++ endl) ++
  build_prefilter_lines p active_chain false ++ rule_text false rules p active_chain false ++ "COMMIT" ++ endl.

Definition build_output_script (active_chain : cstring) (replace_active_chain : bool)
    (rules : list IptPendingRule) (p : FirewallGlobalPrefilter) : cstring :=
  let T := IPT_OUTPUT_CHAIN_NAME in
  "*mangle" ++ endl ++ ":" ++ active_chain ++ " - [0:0]" ++ endl ++ "-F " ++ active_chain ++ endl ++
  (if negb replace_active_chain then
     ":" ++ T ++ " - [0:0]" ++ endl ++ "-A OUTPUT -j " ++ T ++ endl ++ "-A " ++ T ++ " -j " ++ active_chain ++ endl
   else "-F " ++ T ++ endl ++ "-A " ++ T ++ " -j " ++ active_chain ++ endl) ++
  build_prefilter_lines p active_chain true ++ rule_text false rules p active_chain true ++ "COMMIT" ++ endl.

(** The lines for one set in the restore script. *)
Definition ipset_set_lines (mode : FirewallApplyMode.t) (clear_dynamic : bool) (ps : IptPendingSet) : cstring :=
  if is_dynamic_set_name (is_name ps) then
    if bool_decide (mode = FirewallApplyMode.Destructive)
    then build_ipset_create_line ps ++ (if clear_dynamic then "flush " ++ is_name ps ++ endl else [])
    else []
  else build_ipset_create_line ps ++ "flush " ++ is_name ps ++ endl.

Definition usable_set (effective_ipv6 : bool) (ps : IptPendingSet) : bool :=
  negb (bool_decide (family_str ps = "inet6")) || effective_ipv6.

Definition build_ipset_script (mode : FirewallApplyMode.t) (clear_dynamic effective_ipv6 : bool)
    (sets : list IptPendingSet) (elements : gmap cstring cstring) : cstring :=
  mjoin (ipset_set_lines mode clear_dynamic <$> List.filter (usable_set effective_ipv6) sets) ++
  mjoin (snd <$> List.filter (λ e, negb (existsb (λ ps, bool_decide (is_name ps = e.1))
           (List.filter (λ ps, negb (usable_set effective_ipv6 ps)) sets))) (in_key_order elements)).

(** ** The object *)

Section object.
Context {K : Type} {SH : Shell K}.
Abbreviation M := (stexc (IptablesFirewall K)).

Definition with_shell (k : K) (f : IptablesFirewall K) : IptablesFirewall K :=
  mk_Ipt (ipt_base f) (ipt_pending_sets_ f) (ipt_pending_elements_ f) (ipt_pending_rules_ f) (ipt_created_sets_ f)
    (chain_v4_created_ f) (chain_v6_created_ f) (active_v4_generation_ f) (active_v6_generation_ f)
    (target_v4_generation_ f) (target_v6_generation_ f) (apply_prepared_ f) (use_raw_prerouting_ f) k.
Definition with_pending (sets : list IptPendingSet) (elements : gmap cstring cstring) (rules : list IptPendingRule)
    (f : IptablesFirewall K) : IptablesFirewall K :=
  mk_Ipt (ipt_base f) sets elements rules (ipt_created_sets_ f) (chain_v4_created_ f) (chain_v6_created_ f)
    (active_v4_generation_ f) (active_v6_generation_ f) (target_v4_generation_ f) (target_v6_generation_ f)
    (apply_prepared_ f) (use_raw_prerouting_ f) (shell_state f).
Definition with_created (m : gmap cstring Z) (f : IptablesFirewall K) : IptablesFirewall K :=
  mk_Ipt (ipt_base f) (ipt_pending_sets_ f) (ipt_pending_elements_ f) (ipt_pending_rules_ f) m
    (chain_v4_created_ f) (chain_v6_created_ f) (active_v4_generation_ f) (active_v6_generation_ f)
    (target_v4_generation_ f) (target_v6_generation_ f) (apply_prepared_ f) (use_raw_prerouting_ f) (shell_state f).
Definition with_chains (c4 c6 : bool) (a4 a6 : option FirewallSetGeneration.t) (f : IptablesFirewall K) :
    IptablesFirewall K :=
  mk_Ipt (ipt_base f) (ipt_pending_sets_ f) (ipt_pending_elements_ f) (ipt_pending_rules_ f) (ipt_created_sets_ f)
    c4 c6 a4 a6 (target_v4_generation_ f) (target_v6_generation_ f) (apply_prepared_ f) (use_raw_prerouting_ f)
    (shell_state f).
Definition with_targets (t4 t6 : FirewallSetGeneration.t) (prepared : bool) (f : IptablesFirewall K) :
    IptablesFirewall K :=
  mk_Ipt (ipt_base f) (ipt_pending_sets_ f) (ipt_pending_elements_ f) (ipt_pending_rules_ f) (ipt_created_sets_ f)
    (chain_v4_created_ f) (chain_v6_created_ f) (active_v4_generation_ f) (active_v6_generation_ f) t4 t6 prepared
    (use_raw_prerouting_ f) (shell_state f).

Definition modify (g : IptablesFirewall K → IptablesFirewall K) : M unit := λ f, (Ok tt, g f).

Definition exec (args : list cstring) : M Z := λ f,
  let '(status, k) := safe_exec args (shell_state f) in (Ok status, with_shell k f).
(** Commands whose status is ignored. *)
Definition exec_all (cmds : list (list cstring)) : M unit := for_each (λ c, exec c ≫= λ _, mret tt) cmds.

Definition pipe_to_cmd (args : list cstring) (input : cstring) : M unit := λ f,
  let '(status, k) := safe_exec_pipe_stdin args input (shell_state f) in
  (if status =? 0 then Ok tt
   else Throw (FirewallError (value_or (head args) [] ++ " exited with status " ++ to_string status)),
   with_shell k f).

(** *** Queueing *)

Definition target_of (mode : FirewallApplyMode.t) (active : option FirewallSetGeneration.t) : FirewallSetGeneration.t :=
  if bool_decide (mode = FirewallApplyMode.Destructive) then FirewallSetGeneration.A
  else match active with Some g => opposite_generation g | None => FirewallSetGeneration.A end.

Definition ipt_prepare_apply (mode : FirewallApplyMode.t) : M unit := modify (λ f,
  with_targets (target_of mode (active_v4_generation_ f)) (target_of mode (active_v6_generation_ f)) true
    (with_pending [] ∅ [] f)).

Definition ipt_create_ipset (set_name : cstring) (family timeout : Z) : M unit := λ f,
  let ps := mk_IptPendingSet set_name (if family =? AF_INET6 then str "inet6" else str "inet") timeout in
  match find_if (λ p, bool_decide (is_name p = set_name)) (ipt_pending_sets_ f) with
  | None =>
      (Ok tt, with_created (<[set_name := family]> (ipt_created_sets_ f))
         (with_pending (ipt_pending_sets_ f ++ [ps]) (ipt_pending_elements_ f) (ipt_pending_rules_ f) f))
  | Some existing =>
      if negb (bool_decide (family_str existing = family_str ps)) || negb (is_timeout existing =? timeout)
      then (Throw (FirewallError ("conflicting ipset declaration for " ++ set_name)), f)
      else (Ok tt, with_created (<[set_name := family]> (ipt_created_sets_ f)) f)
  end.

Definition ipt_create_rule (action : Action.t) (fwmark : Z) (c : FirewallRuleCriteria) : M unit := modify (λ f,
  with_pending (ipt_pending_sets_ f) (ipt_pending_elements_ f)
    (ipt_pending_rules_ f ++ ipt_rules_for (base_fwmark_mask_ (ipt_base f)) (ipt_created_sets_ f) action fwmark c) f).

Definition set_ipt_elements (m : gmap cstring cstring) (f : IptablesFirewall K) : IptablesFirewall K :=
  with_pending (ipt_pending_sets_ f) m (ipt_pending_rules_ f) f.
Definition ipt_create_batch_loader (set_name : cstring) : M unit := modify (λ f,
  set_ipt_elements (<[set_name := value_or (ipt_pending_elements_ f !! set_name) []]> (ipt_pending_elements_ f)) f).
Definition ipt_on_entry (set_name : cstring) (t : EntryType.t) (entry : cstring) : M unit := modify (λ f,
  match t with
  | EntryType.Domain => f
  | _ => set_ipt_elements (<[set_name := value_or (ipt_pending_elements_ f !! set_name) [] ++
                                         ipset_add_line set_name entry]> (ipt_pending_elements_ f)) f
  end).

(** *** Cleaning up *)

Definition ipt (command table : cstring) (args : list cstring) : list cstring :=
  command :: str "-t" :: table :: args.
Definition flush_delete (command table chain : cstring) : list (list cstring) :=
  [ipt command table [str "-F"; chain]; ipt command table [str "-X"; chain]].
Definition unjump (command table hook chain : cstring) : list cstring :=
  ipt command table [str "-D"; hook; str "-j"; chain].
Definition OUTPUT_DISPATCHER : cstring := IPT_CHAIN_NAME ++ "_OUTPUT".

Definition raw_chain_commands : list (list cstring) :=
  [unjump "iptables" "raw" "PREROUTING" RAW_CHAIN_NAME] ++ flush_delete "iptables" "raw" RAW_CHAIN_NAME.
Definition raw_generation_commands : list (list cstring) :=
  flush_delete "iptables" "raw" "KeenPbrRaw_A" ++ flush_delete "iptables" "raw" "KeenPbrRaw_B".

Definition family_chain_commands (command : cstring) : list (list cstring) :=
  [unjump command "mangle" "PREROUTING" IPT_CHAIN_NAME; unjump command "mangle" "OUTPUT" OUTPUT_DISPATCHER] ++
  flush_delete command "mangle" OUTPUT_DISPATCHER ++ flush_delete command "mangle" IPT_CHAIN_NAME.

Definition cleanup_v4_commands (raw sweep : bool) : list (list cstring) :=
  if raw then
    raw_chain_commands ++ [unjump "iptables" "mangle" "OUTPUT" IPT_OUTPUT_CHAIN_NAME] ++
    flush_delete "iptables" "mangle" IPT_OUTPUT_CHAIN_NAME ++ raw_generation_commands ++
    flush_delete "iptables" "mangle" (output_generation_chain FirewallSetGeneration.A) ++
    flush_delete "iptables" "mangle" (output_generation_chain FirewallSetGeneration.B)
  else family_chain_commands "iptables" ++ (if sweep then raw_chain_commands ++ raw_generation_commands else []).

Definition generation_commands (g : FirewallSetGeneration.t) : list (list cstring) :=
  flush_delete "iptables" "mangle" (generation_chain g) ++ flush_delete "ip6tables" "mangle" (generation_chain g).

(** The chains of older versions: the name that is deleted lacks the prefix. *)
Definition legacy_chains (output : cstring) : list cstring :=
  line ← getline_all (chr 10) output;
  let prefix := str "-N KeenPbrTable_" in
  if starts_with prefix line then
    let chain := drop (length prefix) line in
    if bool_decide (chain = []) || negb (forallb isdigit chain) then [] else [chain]
  else [].
Definition cleanup_legacy_generation_chains (command : cstring) : M unit := λ f,
  let '(status, output) := safe_exec_capture (ipt command "mangle" [str "-S"]) (shell_state f) in
  if negb (status =? 0) then (Ok tt, f)
  else exec_all (mjoin (flush_delete command "mangle" <$> legacy_chains output)) f.

Definition cleanup_rules_impl (sweep : bool) : M unit :=
  f ← get_st;
  let owned_v4 := chain_v4_created_ f in
  let owned_v6 := chain_v6_created_ f in
  let raw := use_raw_prerouting_ f in
  when (owned_v4 || sweep)
    (exec_all (cleanup_v4_commands raw sweep) ≫= λ _,
     modify (λ f, with_chains false (chain_v6_created_ f) (active_v4_generation_ f) (active_v6_generation_ f) f)) ≫= λ _,
  when (owned_v6 || sweep)
    (exec_all (family_chain_commands "ip6tables") ≫= λ _,
     modify (λ f, with_chains (chain_v4_created_ f) false (active_v4_generation_ f) (active_v6_generation_ f) f)) ≫= λ _,
  when (negb raw && (owned_v4 || owned_v6 || sweep))
    (exec_all (generation_commands FirewallSetGeneration.A ++ generation_commands FirewallSetGeneration.B)) ≫= λ _,
  when sweep (cleanup_legacy_generation_chains "iptables" ≫= λ _, cleanup_legacy_generation_chains "ip6tables") ≫= λ _,
  modify (λ f, with_chains (chain_v4_created_ f) (chain_v6_created_ f) None None f).

(** [input >> verb >> name] and the rest of the line. *)
Fixpoint saved_sets (fuel : nat) (input : cstring) : list (cstring * cstring) :=
  match fuel with
  | O => []
  | S fuel =>
      let s := drop_while isspace input in
      let verb := take_while (λ c, negb (isspace c)) s in
      let s := drop_while isspace (drop_while (λ c, negb (isspace c)) s) in
      let name := take_while (λ c, negb (isspace c)) s in
      if bool_decide (verb = []) || bool_decide (name = []) then []
      else (verb, name) :: saved_sets fuel
             (drop 1 (drop_while (λ c, negb (ascii_eqb c (chr 10))) (drop_while (λ c, negb (isspace c)) s)))
  end.

Definition managed_static (name : cstring) : bool :=
  starts_with "kpbr4_" name || starts_with "kpbr6_" name || starts_with "kpbr4s_" name ||
  starts_with "kpbr6s_" name || starts_with "kpbr4S_" name || starts_with "kpbr6S_" name.
Definition destroy_set (name : cstring) : list (list cstring) :=
  [[str "ipset"; str "flush"; name]; [str "ipset"; str "destroy"; name]].

(** The commands for one line of [ipset save]. *)
Definition swept_set (preserve_dynamic : bool) (e : cstring * cstring) : list (list cstring) :=
  let dynamic := is_dynamic_set_name e.2 in
  if negb (bool_decide (e.1 = str "create")) || (negb (managed_static e.2) && negb dynamic) ||
     (dynamic && preserve_dynamic)
  then [] else destroy_set e.2.

Definition cleanup_saved_sets (preserve_dynamic : bool) : M unit := λ f,
  let '(status, output) := safe_exec_capture [str "ipset"; str "save"] (shell_state f) in
  if negb (status =? 0) then (Ok tt, f)
  else exec_all (mjoin (swept_set preserve_dynamic <$> saved_sets (S (length output)) output)) f.

Definition cleanup_live_impl (preserve_dynamic sweep : bool) : M unit :=
  cleanup_rules_impl sweep ≫= λ _,
  f ← get_st;
  exec_all (mjoin ((λ e : cstring * Z, if preserve_dynamic && is_dynamic_set_name e.1 then [] else destroy_set e.1)
                   <$> in_key_order (ipt_created_sets_ f))) ≫= λ _,
  when sweep (cleanup_saved_sets preserve_dynamic).

Definition ipt_cleanup : M unit :=
  cleanup_live_impl false false ≫= λ _, modify (λ f, with_pending [] ∅ [] (with_created ∅ f)).

(** *** Applying *)

Definition ipv6_backend_available : M bool := λ f,
  let '(s1, k) := safe_exec (ipt "ip6tables" "mangle" [str "-S"]) (shell_state f) in
  if negb (s1 =? 0) then (Ok false, with_shell k f)
  else let '(s2, k) := safe_exec_pipe_stdin [str "ip6tables-restore"; str "--test"]
                         ("*mangle" ++ endl ++ "COMMIT" ++ endl) k in
       (Ok (s2 =? 0), with_shell k f).

Definition dispatcher_chains_exist (ipv6 : bool) : M bool :=
  f ← get_st;
  let command := if ipv6 then str "ip6tables" else str "iptables" in
  let raw := use_raw_prerouting_ f in
  let output_dispatcher := if raw && negb ipv6 then IPT_OUTPUT_CHAIN_NAME else OUTPUT_DISPATCHER in
  s1 ← exec (ipt command (prerouting_table_name raw ipv6) [str "-S"; prerouting_dispatcher_chain_name raw ipv6]);
  if negb (s1 =? 0) then mret false
  else s2 ← exec (ipt command "mangle" [str "-S"; output_dispatcher]); mret (s2 =? 0).

Definition restore_args (command : cstring) : list cstring := [command; str "--noflush"; str "--counters"].

(** The rules of IPv4 and of IPv6. *)
Definition apply_v4 : M unit :=
  f ← get_st;
  let raw := use_raw_prerouting_ f in
  let next_chain := prerouting_generation_chain raw (target_v4_generation_ f) false in
  let replace := has_value (active_v4_generation_ f) in
  let rules := ipt_pending_rules_ f in
  let pf := global_prefilter_ (ipt_base f) in
  (if raw then
     pipe_to_cmd (restore_args "iptables-restore") (build_raw_prerouting_script next_chain replace rules pf) ≫= λ _,
     pipe_to_cmd (restore_args "iptables-restore")
       (build_output_script (output_generation_chain (target_v4_generation_ f)) replace rules pf)
   else pipe_to_cmd (restore_args "iptables-restore") (build_ipt_script false next_chain replace rules pf)) ≫= λ _,
  modify (λ f, with_chains true (chain_v6_created_ f) (Some (target_v4_generation_ f)) (active_v6_generation_ f) f).

Definition apply_v6 : M unit :=
  f ← get_st;
  pipe_to_cmd (restore_args "ip6tables-restore")
    (build_ipt_script true (generation_chain (target_v6_generation_ f)) (has_value (active_v6_generation_ f))
       (ipt_pending_rules_ f) (global_prefilter_ (ipt_base f))) ≫= λ _,
  modify (λ f, with_chains (chain_v4_created_ f) true (active_v4_generation_ f) (Some (target_v6_generation_ f)) f).

(** The chains of either family have gone while a generation is active. *)
Definition dispatchers_missing (effective_ipv6 : bool) : M bool :=
  f ← get_st;
  v4 ← (if has_value (active_v4_generation_ f) then e ← dispatcher_chains_exist false; mret (negb e) else mret false);
  v6 ← (if effective_ipv6 && has_value (active_v6_generation_ f)
        then e ← dispatcher_chains_exist true; mret (negb e) else mret false);
  mret (v4 || v6).

Definition ipt_apply (mode : FirewallApplyMode.t) : M unit :=
  f ← get_st;
  if negb (apply_prepared_ f) then throw (FirewallError "iptables apply was not prepared")
  else
    modify (λ f, with_targets (target_v4_generation_ f) (target_v6_generation_ f) false f) ≫= λ _,
    available ← (if ipv6_enabled_ (ipt_base f) then ipv6_backend_available else mret false);
    let effective_ipv6 := ipv6_enabled_ (ipt_base f) && available in
    let clear := clear_dynamic_sets_on_apply_ (ipt_base f) in
    when (bool_decide (mode = FirewallApplyMode.Destructive))
      (cleanup_live_impl (negb clear) true ≫= λ _,
       modify (λ f, with_chains (chain_v4_created_ f) (chain_v6_created_ f) None None f)) ≫= λ _,
    let script := build_ipset_script mode clear effective_ipv6 (ipt_pending_sets_ f) (ipt_pending_elements_ f) in
    when (negb (bool_decide (script = []))) (pipe_to_cmd [str "ipset"; str "restore"; str "-exist"] script) ≫= λ _,
    missing ← dispatchers_missing effective_ipv6;
    when missing (cleanup_rules_impl true) ≫= λ _,
    apply_v4 ≫= λ _,
    when (effective_ipv6 || existsb ir_ipv6 (ipt_pending_rules_ f)) apply_v6 ≫= λ _,
    modify (with_pending [] ∅ []).

#[export] Instance IptablesFirewall_Firewall : Firewall (IptablesFirewall K) := {|
  fw_base := ipt_base;
  fw_set_base b f := mk_Ipt b (ipt_pending_sets_ f) (ipt_pending_elements_ f) (ipt_pending_rules_ f)
    (ipt_created_sets_ f) (chain_v4_created_ f) (chain_v6_created_ f) (active_v4_generation_ f)
    (active_v6_generation_ f) (target_v4_generation_ f) (target_v6_generation_ f) (apply_prepared_ f)
    (use_raw_prerouting_ f) (shell_state f);
  prepare_apply := ipt_prepare_apply;
  static_set_name f := ipt_static_name (target_v4_generation_ f) (target_v6_generation_ f);
  dynamic_set_name _ := base_dynamic_set_name;
  create_ipset := ipt_create_ipset;
  create_mark_rule m c := ipt_create_rule Action.Mark m c;
  create_drop_rule c := ipt_create_rule Action.Drop 0 c;
  create_pass_rule c := ipt_create_rule Action.Pass 0 c;
  create_batch_loader := ipt_create_batch_loader;
  loader_on_entry := ipt_on_entry;
  fw_apply := ipt_apply;
  fw_cleanup := ipt_cleanup;
  fw_backend := FirewallBackend.iptables;
  uses_raw_prerouting := use_raw_prerouting_;
|}.

#[export] Instance ipt_stable_names : StableNames (IptablesFirewall K).
Proof.
  assert (H : ∀ c (f : IptablesFirewall K), target_v4_generation_ (perform c f).2 = target_v4_generation_ f ∧
    target_v6_generation_ (perform c f).2 = target_v6_generation_ f).
  { intros [n fam t| | | | |n t e] f; try done; cbn.
    - unfold ipt_create_ipset. destruct (find_if _ _); [|done]. by destruct (_ || _).
    - by destruct t. }
  split; intros c f; [|done]. cbn. by destruct (H c f) as [-> ->].
Qed.
End object.

(** ** Switching generations

    A logic for what a computation leaves behind when it returns and when it
    does not. *)

Definition triple {S A} (P : S → Prop) (m : stexc S A) (R : A → S → Prop) (E : S → Prop) : Prop :=
  ∀ s, P s → match m s with (Ok a, s') => R a s' | (_, s') => E s' end.

Lemma triple_bind {S A B} (P : S → Prop) (m : stexc S A) (f : A → stexc S B) R Q E :
  triple P m R E → (∀ a, triple (R a) (f a) Q E) → triple P (m ≫= f) Q E.
Proof.
  intros Hm Hf s Hs. specialize (Hm s Hs). unfold mbind, stexc_bind.
  destruct (m s) as [[a|e|] s']; [by apply Hf|done..].
Qed.
Lemma triple_ret {S A} (P : S → Prop) (a : A) E : triple P (mret a) (λ _, P) E.
Proof. by intros s Hs. Qed.
Lemma triple_get {S} (P : S → Prop) E : triple P get_st (λ x s, x = s ∧ P s) E.
Proof. by intros s Hs. Qed.
Lemma triple_preserves {S A} (P : S → Prop) (m : stexc S A) : preserves P m → triple P m (λ _, P) P.
Proof. intros H s Hs. specialize (H s Hs). by destruct (m s) as [[a|e|] s']. Qed.
Lemma triple_weaken {S A} (P P' : S → Prop) (m : stexc S A) (R R' : A → S → Prop) (E E' : S → Prop) :
  triple P m R E → (∀ s, P' s → P s) → (∀ a s, R a s → R' a s) → (∀ s, E s → E' s) → triple P' m R' E'.
Proof. intros H HP HR HE s Hs. specialize (H s (HP s Hs)). destruct (m s) as [[a|e|] s']; auto. Qed.
Lemma triple_pure {S A} (φ : Prop) (P : S → Prop) (m : stexc S A) R E :
  (φ → triple P m R E) → triple (λ s, φ ∧ P s) m R E.
Proof. intros H s [Hφ Hs]. by apply H. Qed.
Lemma triple_get_bind {S A} (P : S → Prop) (f : S → stexc S A) R E :
  (∀ x, P x → triple P (f x) R E) → triple P (get_st ≫= f) R E.
Proof. intros H s Hs. by apply (H s Hs). Qed.
Lemma triple_when {S} (P : S → Prop) (b : bool) (m : stexc S unit) E :
  (b = true → triple P m (λ _, P) E) → triple P (when b m) (λ _, P) E.
Proof. destruct b; [auto|intros _; apply triple_ret]. Qed.

(** The commands of a restore script for sets. *)
Inductive ipset_cmd :=
  | ISCreate (ps : IptPendingSet)
  | ISFlush (name : cstring)
  | ISAdd (name entry : cstring).
Definition ipset_cmd_text (c : ipset_cmd) : cstring :=
  match c with
  | ISCreate ps => build_ipset_create_line ps
  | ISFlush n => "flush " ++ n ++ endl
  | ISAdd n e => ipset_add_line n e
  end.
Definition ipset_cmd_set (c : ipset_cmd) : cstring :=
  match c with ISCreate ps => is_name ps | ISFlush n | ISAdd n _ => n end.

Lemma join_cons {A} (x : list A) l : mjoin (x :: l) = x ++ mjoin l.
Proof. done. Qed.
Lemma join_one {A B} (g : A → list B) x : mjoin (g <$> [x]) = g x.
Proof. apply app_nil_r. Qed.

Section switch.
Context {K : Type} {SH : Shell K}.
Context (a4 a6 : option FirewallSetGeneration.t).

(** A set that no rule of the active generations refers to. *)
Definition idle_set (n : cstring) : Prop :=
  is_dynamic_set_name n = false ∧
  ∀ g4 g6 l f, (a4 = Some g4 ∨ f = AF_INET6) → (a6 = Some g6 ∨ f ≠ AF_INET6) → n ≠ ipt_static_name g4 g6 l f.

Abbreviation t4 := (target_of FirewallApplyMode.PreserveSets a4).
Abbreviation t6 := (target_of FirewallApplyMode.PreserveSets a6).

Lemma target_of_mode mode a : mode ≠ FirewallApplyMode.Destructive →
  target_of mode a = target_of FirewallApplyMode.PreserveSets a.
Proof. by destruct mode. Qed.

(** The sets of the target generations are idle. *)
Lemma target_sets_idle l f : idle_set (ipt_static_name t4 t6 l f).
Proof.
  unfold idle_set, ipt_static_name. split.
  - destruct (f =? AF_INET6), a4 as [[]|], a6 as [[]|]; reflexivity.
  - intros g4 g6 l' f' H4 H6 Heq.
    destruct (Z.eqb_spec f AF_INET6) as [->|], (Z.eqb_spec f' AF_INET6) as [->|]; try discriminate Heq.
    + destruct H6 as [->|]; [|done]. destruct g6; discriminate Heq.
    + destruct H4 as [->|]; [|done]. destruct g4; discriminate Heq.
Qed.

(** What the rules of the two families do with traffic, as predicates on the
    state of the system, and what the commands keep of it. *)
Context (I4 I6 : K → Prop).
Abbreviation live k := (I4 k ∧ I6 k).

Definition ipt_tool (c : cstring) : Prop := c = "iptables" ∨ c = "ip6tables".

Record Commands : Prop := {
  (** listing chains changes nothing, and the dispatchers are there *)
  query_keeps c t l k : ipt_tool c → live k → live (safe_exec (ipt c t (str "-S" :: l)) k).2;
  dispatchers_there c t chain k : ipt_tool c → live k → (safe_exec (ipt c t [str "-S"; chain]) k).1 = 0;
  test_keeps input k : live k → live (safe_exec_pipe_stdin [str "ip6tables-restore"; str "--test"] input k).2;
  (** a script for idle sets does not change what the rules do *)
  ipset_keeps cmds k : Forall (idle_set) (ipset_cmd_set <$> cmds) → live k →
    live (safe_exec_pipe_stdin [str "ipset"; str "restore"; str "-exist"] (mjoin (ipset_cmd_text <$> cmds)) k).2;
  (** a restore that fails has changed nothing, one of IPv4 never changes IPv6 *)
  restore_atomic script k : live k → (safe_exec_pipe_stdin (restore_args "iptables-restore") script k).1 ≠ 0 →
    live (safe_exec_pipe_stdin (restore_args "iptables-restore") script k).2;
  restore6_atomic script k : I6 k → (safe_exec_pipe_stdin (restore_args "ip6tables-restore") script k).1 ≠ 0 →
    I6 (safe_exec_pipe_stdin (restore_args "ip6tables-restore") script k).2;
  restore_family script k : I6 k → I6 (safe_exec_pipe_stdin (restore_args "iptables-restore") script k).2;
}.
Context (CMD : Commands).

Definition buffer_ok (n buf : cstring) : Prop :=
  idle_set n ∧ ∃ l, buf = mjoin (ipset_add_line n <$> l).

(** The object while a run is being prepared. *)
Definition preparing (f : IptablesFirewall K) : Prop :=
  live (shell_state f) ∧ use_raw_prerouting_ f = false ∧
  active_v4_generation_ f = a4 ∧ active_v6_generation_ f = a6.
Definition queueing (f : IptablesFirewall K) : Prop :=
  preparing f ∧ target_v4_generation_ f = t4 ∧ target_v6_generation_ f = t6 ∧
  Forall (λ ps, is_dynamic_set_name (is_name ps) = false → idle_set (is_name ps)) (ipt_pending_sets_ f) ∧
  map_Forall buffer_ok (ipt_pending_elements_ f).

Lemma queueing_names f : queueing f →
  static_set_name f = ipt_static_name t4 t6 ∧ dynamic_set_name f = base_dynamic_set_name.
Proof. intros (_ & H4 & H6 & _). cbn. by rewrite H4, H6. Qed.

Lemma dynamic_name_is_dynamic l f : is_dynamic_set_name (base_dynamic_set_name l f) = true.
Proof. unfold base_dynamic_set_name. by destruct (f =? AF_INET6). Qed.

Lemma queueing_call c : own_call (ipt_static_name t4 t6) base_dynamic_set_name c → preserves queueing (perform c).
Proof.
  intros Hc f (Hp & H4 & H6 & Hs & He). destruct c as [n fam t| | | |n|n t e]; cbn.
  - unfold ipt_create_ipset. destruct (find_if _ _); [by destruct (_ || _)|].
    split; [done|]. split; [done|]. split; [done|]. split; [|done]. apply Forall_app. split; [done|].
    apply Forall_singleton. cbn. destruct Hc as [(l & g & ->)|(l & g & ->)]; intros Hd.
    + apply target_sets_idle.
    + by rewrite dynamic_name_is_dynamic in Hd.
  - by split.
  - by split.
  - by split.
  - destruct Hc as (l & g & ->). split; [done|]. split; [done|]. split; [done|]. split; [done|].
    apply map_Forall_insert_2; [|done].
    destruct (ipt_pending_elements_ f !! _) as [b|] eqn:E; cbn; [by apply (He _ b)|].
    split; [apply target_sets_idle|by exists []].
  - destruct Hc as (l & g & ->). destruct t; [..|by split]; cbn; (split; [done|]; split; [done|]; split; [done|];
      split; [done|]; apply map_Forall_insert_2; [|done]; split; [apply target_sets_idle|]).
    all: destruct (ipt_pending_elements_ f !! _) as [b|] eqn:E; cbn; [|by exists [e]; rewrite join_one].
    all: destruct (He _ b E) as [_ [l' ->]]; exists (l' ++ [e]); by rewrite fmap_app, join_app, join_one.
Qed.

(** What is left when the run fails. *)
Definition kept (f : IptablesFirewall K) : Prop :=
  I6 (shell_state f) ∧ active_v6_generation_ f = a6 ∧
  (I4 (shell_state f) ∧ active_v4_generation_ f = a4 ∨ active_v4_generation_ f = Some t4).
Lemma preparing_kept f : preparing f → kept f.
Proof. intros ([H4 H6] & _ & Ha4 & Ha6). unfold kept. auto. Qed.

Lemma ipset_script_idle mode clear v6 (f : IptablesFirewall K) :
  mode ≠ FirewallApplyMode.Destructive → queueing f →
  ∃ cmds, build_ipset_script mode clear v6 (ipt_pending_sets_ f) (ipt_pending_elements_ f) =
            mjoin (ipset_cmd_text <$> cmds) ∧ Forall idle_set (ipset_cmd_set <$> cmds).
Proof.
  intros Hm (_ & _ & _ & Hs & He). unfold build_ipset_script.
  assert (H1 : ∃ cmds, mjoin (ipset_set_lines mode clear <$> List.filter (usable_set v6) (ipt_pending_sets_ f)) =
            mjoin (ipset_cmd_text <$> cmds) ∧ Forall idle_set (ipset_cmd_set <$> cmds)).
  { induction Hs as [|ps l Hps Hl IH]; [by exists []|]. destruct IH as (cmds & E & Hc). cbn [List.filter].
    destruct (usable_set v6 ps); [|by exists cmds]. rewrite fmap_cons, join_cons, E.
    unfold ipset_set_lines. destruct (is_dynamic_set_name (is_name ps)) eqn:Ed.
    - rewrite bool_decide_eq_false_2 by done. by exists cmds.
    - exists (ISCreate ps :: ISFlush (is_name ps) :: cmds). split; [by rewrite !fmap_cons, !join_cons, <- app_assoc|].
      specialize (Hps eq_refl). rewrite !fmap_cons. by apply Forall_cons_2, Forall_cons_2. }
  assert (H2 : ∀ l : list (cstring * cstring), (∀ n b, (n, b) ∈ l → buffer_ok n b) → ∀ g,
    ∃ cmds, mjoin (snd <$> List.filter g l) = mjoin (ipset_cmd_text <$> cmds) ∧ Forall idle_set (ipset_cmd_set <$> cmds)).
  { intros l Hl g. induction l as [|[n b] l IH]; [by exists []|].
    destruct IH as (cmds & E & Hc); [intros n' b' H'; apply Hl; by right|]. cbn [List.filter].
    destruct (g (n, b)); [|by exists cmds]. destruct (Hl n b) as [Hi [es ->]]; [left|].
    exists ((ISAdd n <$> es) ++ cmds). rewrite !fmap_app, join_app, fmap_cons, join_cons, E. cbn [snd].
    split; [by rewrite <- list_fmap_compose|]. apply Forall_app. split; [|done].
    rewrite <- list_fmap_compose. apply Forall_fmap, Forall_true. by intros e. }
  destruct H1 as (c1 & E1 & F1). destruct (H2 (in_key_order (ipt_pending_elements_ f))) with
    (g := λ e : cstring * cstring, negb (existsb (λ ps, bool_decide (is_name ps = e.1))
           (List.filter (λ ps, negb (usable_set v6 ps)) (ipt_pending_sets_ f)))) as (c2 & E2 & F2).
  { intros n b Hin. apply He. by apply in_key_order_elem. }
  exists (c1 ++ c2). rewrite E1, E2, !fmap_app, join_app. split; [done|]. by apply Forall_app.
Qed.

Lemma exec_query c t l : ipt_tool c → preserves queueing (exec (ipt c t (str "-S" :: l))).
Proof.
  intros Hc f [(Hl & Hp) Hq]. unfold exec. pose proof (query_keeps CMD c t l _ Hc Hl) as H.
  destruct (safe_exec _ _) as [status k]. by split.
Qed.
Lemma exec_dispatcher c t chain : ipt_tool c →
  triple queueing (exec (ipt c t [str "-S"; chain])) (λ s f, s = 0 ∧ queueing f) kept.
Proof.
  intros Hc f Hf. pose proof (exec_query c t [chain] Hc f Hf) as Hq. revert Hq. unfold exec.
  destruct Hf as [(Hl & _) _]. pose proof (dispatchers_there CMD c t chain _ Hc Hl) as H.
  destruct (safe_exec _ _) as [status k]. by split.
Qed.

Lemma available_keeps : preserves queueing ipv6_backend_available.
Proof.
  intros f [(Hl & Hp) Hq]. unfold ipv6_backend_available.
  pose proof (query_keeps CMD (str "ip6tables") (str "mangle") [] _ (or_intror eq_refl) Hl) as H.
  destruct (safe_exec _ _) as [s1 k]. destruct (negb _); [by split|]. cbn [snd] in H.
  pose proof (test_keeps CMD ("*mangle" ++ endl ++ "COMMIT" ++ endl) k H) as H'.
  destruct (safe_exec_pipe_stdin _ _ _) as [s2 k2]. by split.
Qed.

Lemma dispatchers_found ipv6 : triple queueing (dispatcher_chains_exist ipv6) (λ b f, b = true ∧ queueing f) kept.
Proof.
  unfold dispatcher_chains_exist. apply triple_get_bind. intros f _.
  assert (Hc : ipt_tool (if ipv6 then str "ip6tables" else str "iptables")) by (destruct ipv6; [by right|by left]).
  eapply triple_bind; [by apply exec_dispatcher|]. intros s1.
  apply triple_pure. intros ->. cbn [Z.eqb negb]. eapply triple_bind; [by apply exec_dispatcher|].
  by intros s2 s [-> Hs].
Qed.

Lemma none_missing v6 : triple queueing (dispatchers_missing v6) (λ b f, b = false ∧ queueing f) kept.
Proof.
  assert (H : ∀ (b : bool) ipv6, triple queueing
    (if b then e ← dispatcher_chains_exist ipv6; mret (negb e) else mret false) (λ b f, b = false ∧ queueing f) kept).
  { intros [] ipv6; [|by intros s Hs]. eapply triple_bind; [apply dispatchers_found|]. by intros b s [-> Hs]. }
  unfold dispatchers_missing. apply triple_get_bind. intros f _.
  eapply triple_bind; [apply H|]. intros v4. apply triple_pure. intros ->.
  eapply triple_bind; [apply H|]. intros v6'. apply triple_pure. intros ->. by intros s Hs.
Qed.

(** The state after IPv4 has been switched. *)
Definition switched4 (f : IptablesFirewall K) : Prop :=
  I6 (shell_state f) ∧ active_v4_generation_ f = Some t4 ∧ active_v6_generation_ f = a6.

Lemma apply_v4_switches : triple queueing apply_v4 (λ _, switched4) kept.
Proof.
  intros f [(Hl & Hraw & H4 & H6) (Ht4 & _)]. unfold apply_v4, get_st, mbind, stexc_bind. rewrite Hraw. unfold pipe_to_cmd.
  match goal with |- context [safe_exec_pipe_stdin (restore_args ?c) ?s ?k] =>
    pose proof (restore_atomic CMD s k Hl) as Ha; pose proof (restore_family CMD s k (proj2 Hl)) as Hf;
    destruct (safe_exec_pipe_stdin (restore_args c) s k) as [status k'] end.
  destruct (Z.eqb_spec status 0) as [->|Hne]; cbn [modify].
  - by split; [|rewrite <- Ht4].
  - specialize (Ha Hne). cbn in Ha. unfold kept. cbn. naive_solver.
Qed.

Lemma apply_v6_switches : triple switched4 apply_v6 (λ _ _, True) kept.
Proof.
  intros f (Hl & H4 & H6). unfold apply_v6, get_st, mbind, stexc_bind, pipe_to_cmd.
  match goal with |- context [safe_exec_pipe_stdin (restore_args ?c) ?s ?k] =>
    pose proof (restore6_atomic CMD s k Hl) as Ha;
    destruct (safe_exec_pipe_stdin (restore_args c) s k) as [status k'] end.
  destruct (Z.eqb_spec status 0) as [->|Hne]; [done|]. specialize (Ha Hne). unfold kept. cbn. auto.
Qed.

Lemma ipset_phase script cmds : script = mjoin (ipset_cmd_text <$> cmds) → Forall idle_set (ipset_cmd_set <$> cmds) →
  preserves queueing (pipe_to_cmd [str "ipset"; str "restore"; str "-exist"] script).
Proof.
  intros -> Hc f [(Hl & Hp) Hq]. unfold pipe_to_cmd. pose proof (ipset_keeps CMD cmds _ Hc Hl) as H.
  destruct (safe_exec_pipe_stdin _ _ _) as [status k]. by split.
Qed.

Lemma queueing_kept f : queueing f → kept f.
Proof. intros [H _]. by apply preparing_kept. Qed.

Lemma triple_kept {A} (m : stexc (IptablesFirewall K) A) :
  preserves queueing m → triple queueing m (λ _, queueing) kept.
Proof.
  intros H. eapply triple_weaken; [by apply triple_preserves|done..|]. apply queueing_kept.
Qed.

Lemma ipt_apply_switches mode : mode ≠ FirewallApplyMode.Destructive →
  triple queueing (ipt_apply mode) (λ _ _, True) kept.
Proof.
  intros Hm. unfold ipt_apply. apply triple_get_bind. intros f Hf.
  destruct (negb (apply_prepared_ f)); [intros s Hs; by apply queueing_kept|].
  eapply triple_bind; [apply triple_kept; intros s [(Ha & Hb) Hc]; by split|]. intros ?.
  eapply (triple_bind _ _ _ (λ _, queueing)).
  { destruct (ipv6_enabled_ _); [apply triple_kept, available_keeps|by intros s Hs]. }
  intros available. rewrite (bool_decide_eq_false_2 (mode = FirewallApplyMode.Destructive)) by done. cbn [when].
  eapply triple_bind; [apply triple_ret|]. intros ?.
  destruct (ipset_script_idle mode (clear_dynamic_sets_on_apply_ (ipt_base f))
    (ipv6_enabled_ (ipt_base f) && available) f Hm Hf) as (cmds & Hs & Hi).
  eapply triple_bind; [apply triple_when; intros _; eapply triple_kept, ipset_phase; [exact Hs|exact Hi]|]. intros ?.
  eapply triple_bind; [apply none_missing|]. intros missing. apply triple_pure. intros ->. cbn [when].
  eapply triple_bind; [apply triple_ret|]. intros ?.
  eapply triple_bind; [apply apply_v4_switches|]. intros ?.
  eapply (triple_bind _ _ _ (λ _ _, True)); [|by intros ? s _].
  destruct (_ || _); cbn [when]; [apply apply_v6_switches|by intros s Hs0].
Qed.

Lemma configure_queueing config ipv6 mode : mode ≠ FirewallApplyMode.Destructive →
  triple preparing (configure_firewall config ipv6 mode) (λ _, queueing) kept.
Proof.
  intros Hm f Hf. unfold configure_firewall.
  assert (Hq : queueing (with_targets (target_of mode a4) (target_of mode a6) true (with_pending [] ∅ [] f))).
  { destruct Hf as (Hl & Hr & H4 & H6). rewrite !(target_of_mode mode) by done. split; [done|].
    split; [done|]. split; [done|]. split; [by constructor|apply map_Forall_empty]. }
  assert (Hk : ∀ b, queueing (fw_set_base b (with_targets (target_of mode a4) (target_of mode a6) true (with_pending [] ∅ [] f)))).
  { intros b. destruct Hq as [(Ha & Hb) Hc]. by split. }
  destruct Hf as (_ & _ & <- & <-). unfold mbind, stexc_bind, lift. cbn -[runtime_prefilter fwmark_mask_value].
  destruct (fwmark_mask_value _) as [mask|e|]; cbn -[runtime_prefilter].
  all: try apply queueing_kept; apply Hk.
Qed.
End switch.

(** *** The commands of a run *)

(** A system that records the commands it is given, with their input. *)
Definition command_log : Type := list (list cstring * cstring).
Definition recording {K} (SH : Shell K) : Shell (K * command_log) := {|
  safe_exec args s := let '(status, k) := safe_exec args s.1 in (status, (k, s.2 ++ [(args, [])]));
  safe_exec_pipe_stdin args input s :=
    let '(status, k) := safe_exec_pipe_stdin args input s.1 in (status, (k, s.2 ++ [(args, input)]));
  safe_exec_capture args s := safe_exec_capture args s.1;
|}.

(** A command that, if it is one of [ipset], is a script for idle sets. *)
Definition writes_idle (a4 a6 : option FirewallSetGeneration.t) (c : list cstring * cstring) : Prop :=
  c.1 !! 0%nat = Some (str "ipset") →
  c.1 = [str "ipset"; str "restore"; str "-exist"] ∧
  ∃ cmds, c.2 = mjoin (ipset_cmd_text <$> cmds) ∧ Forall (idle_set a4 a6) (ipset_cmd_set <$> cmds).

Lemma recording_commands {K} {SH : Shell K} a4 a6 (I4 I6 : K → Prop) :
  Commands a4 a6 I4 I6 →
  Commands (SH:=recording SH) a4 a6 (λ s, I4 s.1 ∧ Forall (writes_idle a4 a6) s.2)
    (λ s, I6 s.1 ∧ Forall (writes_idle a4 a6) s.2).
Proof.
  intros CMD.
  assert (Hlog : ∀ l args input, Forall (writes_idle a4 a6) l → args !! 0%nat ≠ Some (str "ipset") →
    Forall (writes_idle a4 a6) (l ++ [(args, input)])).
  { intros l args input Hl Ha. apply Forall_app. split; [done|]. apply Forall_singleton. by intros ?. }
  split; cbn.
  - intros c t l [k log] Hc [[H4 Hl] [H6 _]]. pose proof (query_keeps _ _ _ _ CMD c t l k Hc (conj H4 H6)) as H.
    cbn. destruct (safe_exec _ k) as [status k']. cbn in *. destruct Hc as [-> | ->]; naive_solver.
  - intros c t chain [k log] Hc [[H4 _] [H6 _]]. pose proof (dispatchers_there _ _ _ _ CMD c t chain k Hc (conj H4 H6)) as H.
    cbn. by destruct (safe_exec _ k).
  - intros input [k log] [[H4 Hl] [H6 _]]. pose proof (test_keeps _ _ _ _ CMD input k (conj H4 H6)) as H.
    cbn. destruct (safe_exec_pipe_stdin _ _ k) as [status k']. cbn in *. naive_solver.
  - intros cmds [k log] Hi [[H4 Hl] [H6 _]]. pose proof (ipset_keeps _ _ _ _ CMD cmds k Hi (conj H4 H6)) as H.
    cbn. destruct (safe_exec_pipe_stdin _ _ k) as [status k']. cbn in *.
    assert (Forall (writes_idle a4 a6) (log ++ [([str "ipset"; str "restore"; str "-exist"], mjoin (ipset_cmd_text <$> cmds))]))
      by (apply Forall_app; split; [done|]; apply Forall_singleton; intros _; eauto).
    naive_solver.
  - intros script [k log] [[H4 Hl] [H6 _]]. pose proof (restore_atomic _ _ _ _ CMD script k (conj H4 H6)) as H.
    cbn. destruct (safe_exec_pipe_stdin _ _ k) as [status k']. cbn in *. naive_solver.
  - intros script [k log] [H6 Hl]. pose proof (restore6_atomic _ _ _ _ CMD script k H6) as H.
    cbn. destruct (safe_exec_pipe_stdin _ _ k) as [status k']. cbn in *. naive_solver.
  - intros script [k log] [H6 Hl]. pose proof (restore_family _ _ _ _ CMD script k H6) as H.
    cbn. destruct (safe_exec_pipe_stdin _ _ k) as [status k']. cbn in *. naive_solver.
Qed.

(** C4. Updating iptables in place, in a mode other than the destructive one and
    with the raw prerouting chain off, on a system where the dispatcher chains
    are there, a restore that fails changes nothing, and filling sets that no
    live rule refers to does not change what the rules do: an update that fails
    anywhere leaves the IPv6 rules and generation as they were, and leaves the
    IPv4 rules and generation as they were unless they had already been replaced
    completely by the new ones.  Every command that such a run gives to [ipset]
    is a script that only creates, flushes and fills sets of the inactive
    generations: never a set that a live rule refers to, never a set of
    [dnsmasq]. *)
Theorem failed_update_keeps_live_rules {K} {SH : Shell K} {SS : StdSort} {IP : InetPton} {FS : Files}
    (I4 I6 : K → Prop) cache keenetic config marks sel ipv6 mode
    (f f' : IptablesFirewall (K * command_log)) k r :
  let FW := @IptablesFirewall_Firewall _ (recording SH) in
  Commands (active_v4_generation_ f) (active_v6_generation_ f) I4 I6 →
  mode ≠ FirewallApplyMode.Destructive → use_raw_prerouting_ f = false →
  shell_state f = (k, []) → I4 k → I6 k →
  apply_runtime_firewall cache keenetic config marks sel ipv6 mode f = (r, f') → (∀ states, r ≠ Ok states) →
  I6 (shell_state f').1 ∧ active_v6_generation_ f' = active_v6_generation_ f ∧
  (I4 (shell_state f').1 ∧ active_v4_generation_ f' = active_v4_generation_ f ∨
   active_v4_generation_ f' = Some (target_of mode (active_v4_generation_ f))) ∧
  Forall (writes_idle (active_v4_generation_ f) (active_v6_generation_ f)) (shell_state f').2.
Proof.
  intros FW CMD0 Hm Hraw Hk H4 H6 Hrun Hr. rewrite (target_of_mode mode) by done.
  pose proof (recording_commands _ _ _ _ CMD0) as CMD.
  set (J4 := λ s : K * command_log, I4 s.1 ∧ Forall (writes_idle (active_v4_generation_ f) (active_v6_generation_ f)) s.2) in CMD.
  set (J6 := λ s : K * command_log, I6 s.1 ∧ Forall (writes_idle (active_v4_generation_ f) (active_v6_generation_ f)) s.2) in CMD.
  assert (Ht : triple (preparing (active_v4_generation_ f) (active_v6_generation_ f) J4 J6)
    (apply_runtime_firewall cache keenetic config marks sel ipv6 mode) (λ _ _, True)
    (kept (active_v4_generation_ f) (active_v6_generation_ f) J4 J6)).
  { unfold apply_runtime_firewall. eapply triple_bind; [by apply configure_queueing|]. intros ?.
    eapply triple_bind; [apply triple_kept|].
    - eapply preserves_queue; [apply queueing_names|apply queueing_call].
    - intros states. eapply triple_bind; [by apply ipt_apply_switches|]. by intros ? s _. }
  assert (Hp : preparing (active_v4_generation_ f) (active_v6_generation_ f) J4 J6 f)
    by (unfold preparing, J4, J6; rewrite Hk; cbn; auto 10).
  specialize (Ht f Hp). rewrite Hrun in Ht.
  assert (Hkept : kept (active_v4_generation_ f) (active_v6_generation_ f) J4 J6 f')
    by (destruct r as [states|e|]; [by destruct (Hr states)|exact Ht|exact Ht]).
  unfold kept, J4, J6 in Hkept. naive_solver.
Qed.

(** A system whose rules are intact, and that refuses every restore of rules. *)
Definition w_shell : Shell bool := {|
  safe_exec args k := if bool_decide (args !! 3%nat = Some (str "-S")) then (0, k) else (0, false);
  safe_exec_pipe_stdin args _ k := if bool_decide (args !! 1%nat = Some (str "--noflush")) then (1, k) else (0, k);
  safe_exec_capture _ _ := (0, []);
|}.
Definition w_ipt_on {K} (k : K) : IptablesFirewall K :=
  mk_Ipt default_FirewallBase [] ∅ [] ∅ true false (Some FirewallSetGeneration.A) None
    FirewallSetGeneration.A FirewallSetGeneration.A false false k.
Definition w_ipt : IptablesFirewall (bool * command_log) := w_ipt_on (true, []).

Lemma failed_update_keeps_live_rules_witness :
  ∃ f', apply_runtime_firewall (FW:=@IptablesFirewall_Firewall _ (recording w_shell)) (SS:=insertion_StdSort) (IP:=w_inet)
      (FS:=w_files) w_cache (Ok []) w_nft_config w_nft_marks ∅ true FirewallApplyMode.PreserveSets w_ipt =
      (Throw (FirewallError "iptables-restore exited with status 1"), f') ∧
    (shell_state f').1 = true ∧ active_v4_generation_ f' = Some FirewallSetGeneration.A ∧
    length (List.filter (λ c : list cstring * cstring, bool_decide (c.1 !! 0%nat = Some (str "ipset"))) (shell_state f').2) = 1%nat ∧
    Forall (writes_idle (Some FirewallSetGeneration.A) None) (shell_state f').2.
Proof.
  destruct (apply_runtime_firewall (FW:=@IptablesFirewall_Firewall _ (recording w_shell)) (SS:=insertion_StdSort) (IP:=w_inet)
      (FS:=w_files) w_cache (Ok []) w_nft_config w_nft_marks ∅ true FirewallApplyMode.PreserveSets w_ipt)
    as [r f'] eqn:E.
  exists f'.
  assert (Hr : r = Throw (FirewallError "iptables-restore exited with status 1"))
    by (vm_compute in E; injection E as <- _; vm_compute; reflexivity).
  destruct (@failed_update_keeps_live_rules bool w_shell insertion_StdSort w_inet w_files (λ k, k = true) (λ k, k = true)
    w_cache (Ok []) w_nft_config w_nft_marks ∅ true FirewallApplyMode.PreserveSets w_ipt f' true r) as (H6 & _ & H4 & Hl).
  - split; cbn; done.
  - discriminate.
  - reflexivity.
  - reflexivity.
  - reflexivity.
  - reflexivity.
  - exact E.
  - intros states. by rewrite Hr.
  - split; [by rewrite Hr|]. split; [exact H6|]. split; [|split; [|exact Hl]].
    + destruct H4 as [[_ H4]|H4]; [exact H4|]. vm_compute in E. injection E as _ <-. discriminate H4.
    + vm_compute in E. injection E as _ <-. vm_compute. reflexivity.
Defined.

(** ** Which packets the queued rules select *)

Section selection.
Context {MT : Matching}.

Definition single_addr_applies (addrs : list cstring) (negated : bool) (x : list Z) : bool :=
  match addrs with [] => true | a :: _ => xorb negated (in_addr x a) end.

(** The matches of the lines that [build_rule_lines] writes for a rule, in the
    tables of its family. *)
Definition ipt_rule_applies (p : packet) (r : IptPendingRule) : bool :=
  let c := ir_criteria r in
  Bool.eqb (pk_family p =? AF_INET6) (ir_ipv6 r) &&
  match dst_set_name c with Some n => in_set n (pk_daddr p) | None => true end &&
  match fc_dscp c with Some d => pk_dscp p =? d | None => true end &&
  single_addr_applies (fc_src_addr c) (negate_src_addr c) (pk_saddr p) &&
  single_addr_applies (fc_dst_addr c) (negate_dst_addr c) (pk_daddr p) &&
  proto_applies (fc_proto c) p &&
  ports_apply (fc_src_port c) (negate_src_port c) (pk_sport p) &&
  ports_apply (fc_dst_port c) (negate_dst_port c) (pk_dport p).

(** The addresses of one direction, expanded into a rule for each. *)
Definition expanded (addrs : list cstring) (ipv6 : bool) : list cstring :=
  if bool_decide (addrs = []) then [[]] else filter_addrs_by_family addrs ipv6.

(** Expanding is a disjunction: right for a positive list, and for a negated one
    of at most one address. *)
Definition expandable (addrs : list cstring) (negated ipv6 : bool) : Prop :=
  ([] ∉ addrs) ∧ (negated = true → (length (filter_addrs_by_family addrs ipv6) ≤ 1)%nat).

Lemma existsb_bind {A B} (f : A → list B) (g : B → bool) l :
  existsb g (mbind f l) = existsb (λ x, existsb g (f x)) l.
Proof. induction l as [|x l IH]; [done|]. rewrite bind_cons, existsb_app, IH. done. Qed.
Lemma existsb_andb_r {A} (b : bool) (g : A → bool) l : existsb (λ x, g x && b) l = existsb g l && b.
Proof. induction l as [|x l IH]; cbn; [done|]. rewrite IH. by destruct b; rewrite ?andb_true_r, ?andb_false_r. Qed.

Lemma existsb_pair {A B} (q r : bool) (S : A → bool) (D : B → bool) ls ld :
  existsb (λ s, existsb (λ d, q && S s && D d && r) ld) ls = q && existsb S ls && existsb D ld && r.
Proof.
  etrans; [apply existsb_ext; intros s; rewrite existsb_andb_r, existsb_andb_l; reflexivity|].
  by rewrite existsb_andb_r, existsb_andb_r, existsb_andb_l.
Qed.

Lemma filter_addrs_elem addrs ipv6 a : a ∈ filter_addrs_by_family addrs ipv6 → a ∈ addrs.
Proof. unfold filter_addrs_by_family. rewrite !list_elem_of_In, filter_In. tauto. Qed.

Lemma expanded_apply family addrs neg x : rule_family_ok family → expandable addrs neg (family =? AF_INET6) →
  existsb (λ a, single_addr_applies (addr_list a) neg x) (expanded addrs (family =? AF_INET6)) =
  addrs_apply family addrs neg x.
Proof.
  intros _ [Hne Hlen]. unfold expanded, addrs_apply. destruct (bool_decide (addrs = [])); [done|]. cbn [orb].
  pose proof (filter_addrs_elem addrs (family =? AF_INET6)) as Hin.
  set (l := filter_addrs_by_family addrs _) in *.
  assert (Hl : Forall (λ a, a ≠ []) l) by (apply Forall_forall; intros a Ha ->; by apply Hne, Hin).
  assert (He : existsb (λ a, single_addr_applies (addr_list a) neg x) l = existsb (λ a, xorb neg (in_addr x a)) l).
  { clear Hin Hlen. induction Hl as [|a l' Ha Hl' IH]; [done|]. cbn [existsb]. rewrite IH. f_equal.
    unfold addr_list. by rewrite bool_decide_eq_false_2 by done. }
  rewrite He. destruct neg; cbn [xorb] in *.
  - specialize (Hlen eq_refl). destruct l as [|a [|b l']]; cbn in *; [done| |lia]. by rewrite !orb_false_r.
  - destruct l; [done|]. rewrite bool_decide_eq_false_2 by done. cbn [negb andb].
    apply existsb_ext. intros y. by destruct (in_addr x y).
Qed.

(** Packets with ports are of TCP or UDP. *)
Definition ports_are_l4 (p : packet) : Prop :=
  pk_sport p ≠ None ∨ pk_dport p ≠ None → proto_applies L4Proto.TcpUdp p = true.

Lemma expand_ports_apply c p : ports_are_l4 p →
  let ports := ports_apply (fc_src_port c) (negate_src_port c) (pk_sport p) &&
               ports_apply (fc_dst_port c) (negate_dst_port c) (pk_dport p) in
  existsb (λ pr, proto_applies pr p && ports) (expand_l4_protos_for_iptables c) = proto_applies (fc_proto c) p && ports.
Proof.
  intros Hp ports. unfold expand_l4_protos_for_iptables.
  destruct (bool_decide (fc_proto c = L4Proto.Any) && _) eqn:E; [|apply expand_protos_apply].
  apply andb_true_iff in E as [E1%bool_decide_eq_true E2]. rewrite E1. cbn [existsb]. rewrite orb_false_r, <- andb_orb_distrib_l.
  change (proto_applies L4Proto.Any p) with true. cbn [andb]. destruct ports eqn:Ep; [|by rewrite andb_false_r].
  rewrite andb_true_r. apply Hp. unfold ports, ports_apply in Ep. apply andb_true_iff in Ep as [Es Ed].
  apply orb_true_iff in E2 as [E2%negb_true_iff|E2%negb_true_iff]; rewrite E2 in *; cbn [orb] in *.
  - left. by destruct (pk_sport p).
  - right. by destruct (pk_dport p).
Qed.

(** The rules of a family select what the criteria do in that family. *)
Lemma ipt_rules_for_family_apply mask ipv6 a m c p :
  rule_family_ok (pk_family p) → ports_are_l4 p →
  expandable (fc_src_addr c) (negate_src_addr c) ipv6 → expandable (fc_dst_addr c) (negate_dst_addr c) ipv6 →
  existsb (ipt_rule_applies p) (ipt_rules_for_family mask ipv6 a m c) =
  Bool.eqb (pk_family p =? AF_INET6) ipv6 &&
  criteria_apply (λ _, pk_family p) true c p.
Proof.
  intros Hf Hp Hs Hd. unfold ipt_rules_for_family.
  fold (expanded (fc_src_addr c) ipv6). fold (expanded (fc_dst_addr c) ipv6).
  destruct (Bool.eqb (pk_family p =? AF_INET6) ipv6) eqn:E.
  2:{ cbn [andb]. destruct (_ || _); [done|]. apply not_true_iff_false. intros (r & Hr & Happ)%existsb_exists.
      apply list_elem_of_In, list_elem_of_bind in Hr as (pr & Hr & _). apply list_elem_of_bind in Hr as (s & Hr & _).
      apply list_elem_of_bind in Hr as (d & ->%list_elem_of_singleton & _). unfold ipt_rule_applies in Happ. cbn [ir_ipv6] in Happ.
      by rewrite E in Happ. }
  apply eqb_prop in E. subst ipv6. cbn [andb].
  pose proof (expanded_apply _ _ _ (pk_saddr p) Hf Hs) as Es. pose proof (expanded_apply _ _ _ (pk_daddr p) Hf Hd) as Ed.
  assert (Hempty : ∀ addrs neg x, existsb (λ a, single_addr_applies (addr_list a) neg x) (expanded addrs (pk_family p =? AF_INET6)) =
      addrs_apply (pk_family p) addrs neg x →
    negb (bool_decide (addrs = [])) && bool_decide (expanded addrs (pk_family p =? AF_INET6) = []) = true →
    addrs_apply (pk_family p) addrs neg x = false).
  { intros addrs neg x <- [_ ->%bool_decide_eq_true]%andb_true_iff. done. }
  destruct (_ || _) eqn:Eo.
  { symmetry. unfold criteria_apply. apply orb_true_iff in Eo as [Eo|Eo];
      [rewrite (Hempty _ _ _ Es Eo)|rewrite (Hempty _ _ _ Ed Eo)]; cbn [andb]; by rewrite ?andb_false_r. }
  clear Eo Hempty. rewrite existsb_bind. unfold criteria_apply. rewrite <- Es, <- Ed, Z.eqb_refl. cbn [andb].
  rewrite !orb_true_r. cbn [andb]. rewrite <- (andb_assoc _ (ports_apply _ _ _)), <- (andb_assoc _ (proto_applies _ p)).
  pose proof (expand_ports_apply c p Hp) as Hports. cbv zeta in Hports. rewrite <- Hports, <- existsb_andb_l.
  apply existsb_ext. intros pr. rewrite existsb_bind.
  etrans; [apply existsb_ext; intros s; rewrite existsb_bind; apply existsb_ext; intros d; cbn [existsb];
           rewrite orb_false_r; unfold ipt_rule_applies; cbn -[proto_applies ports_apply single_addr_applies addr_list];
           rewrite eqb_reflx; cbn [andb]; rewrite <- (andb_assoc _ (ports_apply _ _ _)), <- (andb_assoc _ (proto_applies _ p));
           reflexivity|].
  apply existsb_pair.
Qed.

Definition set_family_of (created : gmap cstring Z) (n : cstring) : Z :=
  if bool_decide (created !! n = Some AF_INET6) then AF_INET6 else AF_INET.

Lemma criteria_apply_family sf sf' c p :
  match dst_set_name c with Some n => sf n = sf' n | None => True end →
  criteria_apply sf true c p = criteria_apply sf' true c p.
Proof. intros H. unfold criteria_apply. destruct (dst_set_name c) as [n|]; [by rewrite H|done]. Qed.

(** C26. The rules queued for iptables select exactly the packets that the
    rule's criteria describe, as the nftables rules do, in each family:
    addresses, ports, protocols and sets, negated or not, when a negated address
    list has at most one address of the family. *)
Theorem ipt_rules_select_the_criteria mask created a m c p :
  rule_family_ok (pk_family p) → ports_are_l4 p →
  (∀ ipv6, expandable (fc_src_addr c) (negate_src_addr c) ipv6 ∧
           expandable (fc_dst_addr c) (negate_dst_addr c) ipv6) →
  existsb (ipt_rule_applies p) (ipt_rules_for mask created a m c) =
  criteria_apply (set_family_of created) true c p.
Proof.
  intros Hf Hp He. unfold ipt_rules_for. destruct (dst_set_name c) as [n|] eqn:En.
  - rewrite ipt_rules_for_family_apply by (done || apply He).
    destruct Hf as [Hf|Hf]; rewrite Hf; destruct (bool_decide (created !! n = Some AF_INET6)) eqn:Ec;
      change (AF_INET =? AF_INET6) with false; change (AF_INET6 =? AF_INET6) with true; cbn [Bool.eqb andb].
    1,4: unfold criteria_apply; rewrite En; unfold set_family_of; rewrite Hf, Ec; cbn; by rewrite andb_false_r.
    all: apply criteria_apply_family; rewrite En; unfold set_family_of; by rewrite Ec.
  - rewrite existsb_app, !ipt_rules_for_family_apply by (done || apply He).
    rewrite (criteria_apply_family _ (set_family_of created)) by (by rewrite En).
    by destruct (pk_family p =? AF_INET6); cbn [Bool.eqb andb]; rewrite ?orb_false_r.
Qed.
End selection.

Definition w_negated (addrs : list cstring) : FirewallRuleCriteria :=
  mk_Criteria None None L4Proto.Any empty_spec empty_spec addrs [] false false true false false.
(** Prefixes are equal addresses here: enough to tell two hosts apart. *)
Definition w_hosts : Matching := {|
  in_set _ _ := false;
  in_prefix a _ x := bool_decide (a = "10.0.0.1") && bool_decide (x = [10; 0; 0; 1]) ||
                     bool_decide (a = "10.0.0.2") && bool_decide (x = [10; 0; 0; 2]);
|}.
Definition w_from (saddr : list Z) : packet :=
  mk_packet AF_INET saddr [1; 1; 1; 1] "tcp" (Some 4000) (Some 80) 0 0 0 0 false "br0".

Lemma ipt_rules_select_the_criteria_witness :
  existsb (ipt_rule_applies (MT:=w_hosts) (w_from [10; 0; 0; 1])) (ipt_rules_for 0xFF0000 ∅ Action.Mark 0x10000 (w_negated [str "10.0.0.1"])) = false ∧
  existsb (ipt_rule_applies (MT:=w_hosts) (w_from [10; 0; 0; 2])) (ipt_rules_for 0xFF0000 ∅ Action.Mark 0x10000 (w_negated [str "10.0.0.1"])) = true.
Proof.
  assert (He : ∀ ipv6, expandable (fc_src_addr (w_negated [str "10.0.0.1"])) true ipv6 ∧
    expandable (fc_dst_addr (w_negated [str "10.0.0.1"])) false ipv6).
  { intros ipv6. split; split; cbn [w_negated fc_src_addr fc_dst_addr]; try by set_solver.
    intros _. destruct ipv6; vm_compute; lia. }
  split; (rewrite (@ipt_rules_select_the_criteria w_hosts); [vm_compute; reflexivity|by left|by intros _|exact He]).
Defined.

(** Two negated addresses are expanded into two rules, and a packet from one of
    them is selected by the rule of the other. *)
Lemma negated_list_selects_everything :
  existsb (ipt_rule_applies (MT:=w_hosts) (w_from [10; 0; 0; 1]))
    (ipt_rules_for 0xFF0000 ∅ Action.Mark 0x10000 (w_negated [str "10.0.0.1"; str "10.0.0.2"])) = true ∧
  criteria_apply (MT:=w_hosts) (set_family_of ∅) true (w_negated [str "10.0.0.1"; str "10.0.0.2"]) (w_from [10; 0; 0; 1]) = false.
Proof. vm_compute. by split. Qed.

(** A rule that drops, or passes, the packets of a set goes to the dispatcher,
    whatever chain is being built. *)
Lemma set_rules_name_the_dispatcher r p chain allow pp iface line n :
  dst_set_name (ir_criteria r) = Some n → ir_action r ≠ Action.Mark →
  line ∈ rule_lines_for r p chain allow pp iface →
  starts_with ("-A " ++ IPT_CHAIN_NAME ++ " -m set --match-set ") line = true.
Proof.
  intros Hn Ha. unfold rule_lines_for. rewrite Hn.
  destruct (ir_action r); [done|..]; intros ->%list_elem_of_singleton; reflexivity.
Qed.

(** The chain of an older version is listed, but not under its name. *)
Lemma legacy_chain_loses_prefix :
  legacy_chains ("-N KeenPbrTable_123" ++ endl) = [str "123"].
Proof. reflexivity. Qed.

(** Without an IPv6 backend, a rule that names no set still makes [ip6tables]
    run, and its failure fails the whole run. *)
Definition w_no_ipv6 : Shell bool := {|
  safe_exec args k := (if bool_decide (head args = Some (str "ip6tables")) then 1 else 0, k);
  safe_exec_pipe_stdin args _ k := (if bool_decide (head args = Some (str "ip6tables-restore")) then 1 else 0, k);
  safe_exec_capture _ _ := (0, []);
|}.
Lemma no_ipv6_backend_fails :
  (apply_runtime_firewall (FW:=@IptablesFirewall_Firewall _ w_no_ipv6) (SS:=insertion_StdSort) (IP:=w_inet)
     (FS:=w_files) w_cache (Ok []) w_nft_config w_nft_marks ∅ false FirewallApplyMode.PreserveSets (w_ipt_on true)).1 =
  Throw (FirewallError "ip6tables-restore exited with status 1").
Proof. vm_compute. reflexivity. Qed.
