(* ===== verification/IptVerifier.v ===== *)
(** * The verifier of iptables (src/src/firewall/iptables_verifier.{hpp,cpp})

    The verifier lists the dispatcher chains, the versioned chains they jump to
    and the PREROUTING chains of both families, reads the words of each rule back
    into criteria and an action, expands the expected rule states as the backend
    does and looks for each expected rule among the listed ones. *)

From S2P Require Import Prelude CppString Config PortSpec Fwmark AddrSpec DnsServer RoutingVerifier.
From S2P Require Import RoutingState FirewallRules ListParser ListStreamer Firewall FirewallTrace.
From S2P Require Import Json Nftables Packet NftSemantics RuleSearch NftVerifier Iptables.

Local Open Scope Z_scope.

(** ** What is read *)

Record ParsedIptablesRule := mk_ParsedIpt {
  pi_set_name : cstring;
  pi_criteria : FirewallRuleCriteria;
  pi_ipv6 : bool;
  pi_is_mark : bool;
  pi_is_drop : bool;
  pi_is_pass : bool;
  pi_fwmark : Z;
  mark_is_exact : bool;
  xmark_mask : Z;
}.
Definition new_ipt_rule (ipv6 : bool) : ParsedIptablesRule :=
  mk_ParsedIpt [] empty_Criteria ipv6 false false false 0 true 0xFFFFFFFF.

Record ParsedIptablesState := mk_ParsedIptState {
  has_keen_pbr_chain : bool;
  has_prerouting_jump : bool;
  ipt_rules : list ParsedIptablesRule;
}.

Record ParsedIpset := mk_ParsedIpset { pset_name : cstring; pset_family : Z; pset_timeout : Z }.

(** [std::stoul(input, nullptr, 0)]: the number at the start of the text *)
Definition stoul_digits (s : cstring) : option Z :=
  match s with
  | "0"%char :: x :: d :: rest =>
      if (ascii_eqb x "x" || ascii_eqb x "X") && isxdigit d then Some (hex_value 0 (take_while isxdigit (d :: rest)))
      else Some (octal_value (take_while isoctal (x :: d :: rest)))
  | "0"%char :: rest => Some (octal_value (take_while isoctal rest))
  | c :: rest => if isdigit c then Some (dec_value 0 (take_while isdigit (c :: rest))) else None
  | [] => None
  end.
Definition parse_u32 (input : cstring) : option Z :=
  let in_range v := if v <=? ULONG_MAX then Some v else None in
  u32 <$> match drop_while isspace input with
          | "+"%char :: s => stoul_digits s ≫= in_range
          | "-"%char :: s => (λ v, u64 (- v)) <$> (stoul_digits s ≫= in_range)
          | s => stoul_digits s ≫= in_range
          end.

Definition parse_proto_token (token : cstring) : option L4Proto.t :=
  if bool_decide (token = str "tcp") then Some L4Proto.Tcp
  else if bool_decide (token = str "udp") then Some L4Proto.Udp else None.

(** [while (stream >> token)] *)
Fixpoint split_ws_loop (cur s : cstring) : list cstring :=
  match s with
  | [] => if bool_decide (cur = []) then [] else [cur]
  | c :: s =>
      if isspace c then (if bool_decide (cur = []) then [] else [cur]) ++ split_ws_loop [] s
      else split_ws_loop (cur ++ [c]) s
  end.
Definition split_ws (line : cstring) : list cstring := split_ws_loop [] line.

Definition normalize_addr_value (addr : cstring) : cstring :=
  match find_char "/" addr with
  | None => addr
  | Some slash =>
      let base := take slash addr in
      let prefix := drop (slash + 1) addr in
      if (negb (is_ipv6_addr base) && bool_decide (prefix = str "32")) ||
         (is_ipv6_addr base && bool_decide (prefix = str "128")) then base else addr
  end.
Definition normalize_addr_list (addrs : list cstring) : list cstring := normalize_addr_value <$> addrs.

Definition ipt_criteria_equal (lhs rhs : FirewallRuleCriteria) : bool :=
  bool_decide (fc_proto lhs = fc_proto rhs) && bool_decide (fc_dscp lhs = fc_dscp rhs) &&
  bool_decide (to_iptables_string (fc_src_port lhs) = to_iptables_string (fc_src_port rhs)) &&
  bool_decide (to_iptables_string (fc_dst_port lhs) = to_iptables_string (fc_dst_port rhs)) &&
  bool_decide (normalize_addr_list (fc_src_addr lhs) = normalize_addr_list (fc_src_addr rhs)) &&
  bool_decide (normalize_addr_list (fc_dst_addr lhs) = normalize_addr_list (fc_dst_addr rhs)) &&
  Bool.eqb (negate_src_port lhs) (negate_src_port rhs) && Bool.eqb (negate_dst_port lhs) (negate_dst_port rhs) &&
  Bool.eqb (negate_src_addr lhs) (negate_src_addr rhs) && Bool.eqb (negate_dst_addr lhs) (negate_dst_addr rhs).

Definition ipt_criteria_summary (c : FirewallRuleCriteria) : cstring :=
  let bang (negated : bool) : cstring := if negated then "!" else [] in
  let addr_part (label : cstring) addrs (negated : bool) :=
    if bool_decide (addrs = []) then [] else [label ++ "=" ++ bang negated ++ join "," addrs] in
  let port_part (label : cstring) spec (negated : bool) :=
    if spec_empty spec then [] else [label ++ "=" ++ bang negated ++ to_iptables_string spec] in
  let parts : list cstring :=
    (if negb (bool_decide (fc_proto c = L4Proto.Any)) then [str "proto=" ++ l4_proto_name (fc_proto c)] else []) ++
    (match fc_dscp c with Some d => [str "dscp=" ++ to_string d] | None => [] end) ++
    port_part "sport" (fc_src_port c) (negate_src_port c) ++ port_part "dport" (fc_dst_port c) (negate_dst_port c) ++
    addr_part "src" (fc_src_addr c) (negate_src_addr c) ++ addr_part "dst" (fc_dst_addr c) (negate_dst_addr c) in
  let out := join " " parts in
  if bool_decide (out = []) then "any" else out.

(** ** What is expected *)

Definition ipt_ipv6_from_set_name (set_name : cstring) : option bool :=
  if starts_with "kpbr6_" set_name || starts_with "kpbr6s_" set_name || starts_with "kpbr6S_" set_name ||
     starts_with "kpbr6d_" set_name then Some true
  else if starts_with "kpbr4_" set_name || starts_with "kpbr4s_" set_name || starts_with "kpbr4S_" set_name ||
          starts_with "kpbr4d_" set_name then Some false
  else None.

(** The sets, with their families, that a state is expected for *)
Definition ipt_state_targets (rs : RuleState) : list (cstring * bool) :=
  match set_names rs with
  | [] => if has_rule_selector (criteria rs) then [([], false); ([], true)] else []
  | sets => (λ n, (n, value_or (ipt_ipv6_from_set_name n) false)) <$> sets
  end.

Definition ipt_target_rules (rs : RuleState) (target : cstring * bool) : list ExpectedNftRule :=
  let c := criteria rs in
  let src := if bool_decide (fc_src_addr c = []) then [[]] else filter_addrs_by_family (fc_src_addr c) target.2 in
  let dst := if bool_decide (fc_dst_addr c = []) then [[]] else filter_addrs_by_family (fc_dst_addr c) target.2 in
  if (negb (bool_decide (fc_src_addr c = [])) && bool_decide (src = [])) ||
     (negb (bool_decide (fc_dst_addr c = [])) && bool_decide (dst = [])) then []
  else
    proto ← expand_l4_protos_for_iptables c;
    s ← src;
    d ← dst;
    [mk_Expected target.1 target.2 (action_type rs) (rs_fwmark rs) (with_addrs c proto (addr_list s) (addr_list d))].

Definition ipt_expand_expected_rule_states (expected : list RuleState) : list ExpectedNftRule :=
  rs ← expected;
  if bool_decide (action_type rs = RuleActionType.Skip) then [] else ipt_state_targets rs ≫= ipt_target_rules rs.

Definition ipt_action_matches (actual : ParsedIptablesRule) (expected : ExpectedNftRule) (mask : Z) : bool :=
  match en_action_type expected with
  | RuleActionType.Mark =>
      pi_is_mark actual && (pi_fwmark actual =? en_fwmark expected) && (xmark_mask actual =? mask)
  | RuleActionType.Drop => pi_is_drop actual
  | _ => pi_is_pass actual
  end.

Definition ipt_same_shape (actual : ParsedIptablesRule) (expected : ExpectedNftRule) : bool :=
  Bool.eqb (pi_ipv6 actual) (en_ipv6 expected) && bool_decide (pi_set_name actual = en_set_name expected) &&
  ipt_criteria_equal (pi_criteria actual) (en_criteria expected).
Definition ipt_rule_matches (actual : ParsedIptablesRule) (expected : ExpectedNftRule) (mask : Z) : bool :=
  Bool.eqb (pi_ipv6 actual) (en_ipv6 expected) && bool_decide (pi_set_name actual = en_set_name expected) &&
  ipt_action_matches actual expected mask && ipt_criteria_equal (pi_criteria actual) (en_criteria expected).

(** ** Reading a listing *)

Definition on_ipt_criteria (f : FirewallRuleCriteria → FirewallRuleCriteria) (r : ParsedIptablesRule) : ParsedIptablesRule :=
  mk_ParsedIpt (pi_set_name r) (f (pi_criteria r)) (pi_ipv6 r) (pi_is_mark r) (pi_is_drop r) (pi_is_pass r) (pi_fwmark r)
    (mark_is_exact r) (xmark_mask r).
Definition with_ipt_set (n : cstring) (r : ParsedIptablesRule) : ParsedIptablesRule :=
  mk_ParsedIpt n (pi_criteria r) (pi_ipv6 r) (pi_is_mark r) (pi_is_drop r) (pi_is_pass r) (pi_fwmark r)
    (mark_is_exact r) (xmark_mask r).
Definition with_ipt_drop (r : ParsedIptablesRule) : ParsedIptablesRule :=
  mk_ParsedIpt (pi_set_name r) (pi_criteria r) (pi_ipv6 r) (pi_is_mark r) true (pi_is_pass r) (pi_fwmark r)
    (mark_is_exact r) (xmark_mask r).
Definition with_ipt_pass (r : ParsedIptablesRule) : ParsedIptablesRule :=
  mk_ParsedIpt (pi_set_name r) (pi_criteria r) (pi_ipv6 r) (pi_is_mark r) (pi_is_drop r) true (pi_fwmark r)
    (mark_is_exact r) (xmark_mask r).
Definition with_ipt_mark (m : Z) (r : ParsedIptablesRule) : ParsedIptablesRule :=
  mk_ParsedIpt (pi_set_name r) (pi_criteria r) (pi_ipv6 r) true (pi_is_drop r) (pi_is_pass r) m
    (mark_is_exact r) (xmark_mask r).
Definition with_ipt_xmark (m mask : Z) (r : ParsedIptablesRule) : ParsedIptablesRule :=
  mk_ParsedIpt (pi_set_name r) (pi_criteria r) (pi_ipv6 r) true (pi_is_drop r) (pi_is_pass r) m
    (mask =? 0xFFFFFFFF) mask.

(** The words after [-j] *)
Definition parse_target (rule : ParsedIptablesRule) (action : cstring) (args : list cstring) : ParsedIptablesRule :=
  if bool_decide (action = str "DROP") then with_ipt_drop rule
  else if bool_decide (action = str "RETURN") then with_ipt_pass rule
  else if bool_decide (action = str "MARK") then
    match args with
    | opt :: value :: _ =>
        if bool_decide (opt = str "--set-mark") then
          match parse_u32 value with Some m => with_ipt_mark m rule | None => rule end
        else if bool_decide (opt = str "--set-xmark") then
          match find_char "/" value with
          | None => rule
          | Some slash =>
              match parse_u32 (take slash value), parse_u32 (drop (slash + 1) value) with
              | Some m, Some mask => with_ipt_xmark m mask rule
              | _, _ => rule
              end
          end
        else rule
    | _ => rule
    end
  else rule.

Section reading.
Context {SS : StdSort}.

Definition is_one_of (tok a b : cstring) : bool := bool_decide (tok = a) || bool_decide (tok = b).

(** The loop over the words of a rule *)
Fixpoint parse_words (rule : ParsedIptablesRule) (negate_next : bool) (tokens : list cstring) : exc ParsedIptablesRule :=
  match tokens with
  | [] => Ok rule
  | tok :: rest =>
      if bool_decide (tok = str "!") then parse_words rule true rest
      else match rest with
      | [] => Ok rule
      | value :: rest' =>
          if bool_decide (tok = str "-m") then parse_words rule negate_next rest'
          else if bool_decide (tok = str "--match-set") then
            match rest' with
            | _ :: rest'' => parse_words (with_ipt_set value rule) false rest''
            | [] => parse_words rule false rest
            end
          else if bool_decide (tok = str "-s") then
            parse_words (on_ipt_criteria (with_src_addr [value] negate_next) rule) false rest'
          else if bool_decide (tok = str "-d") then
            parse_words (on_ipt_criteria (with_dst_addr [value] negate_next) rule) false rest'
          else if bool_decide (tok = str "-p") then
            parse_words (on_ipt_criteria (with_proto (value_or (parse_proto_token value) L4Proto.Any)) rule) false rest'
          else if is_one_of tok "--sport" "--sports" then
            p ← parse_port_spec value;
            parse_words (on_ipt_criteria (with_src_port p negate_next) rule) false rest'
          else if is_one_of tok "--dport" "--dports" then
            p ← parse_port_spec value;
            parse_words (on_ipt_criteria (with_dst_port p negate_next) rule) false rest'
          else if bool_decide (tok = str "--dscp") then
            parse_words (match parse_u32 value with
                         | Some d => if d <=? 63 then on_ipt_criteria (with_dscp d) rule else rule
                         | None => rule end) false rest'
          else if bool_decide (tok = str "-j") then Ok (parse_target rule value rest')
          else parse_words rule false rest
      end
  end.

Definition ignored_ipt_rule (r : ParsedIptablesRule) : bool :=
  (negb (pi_is_mark r) && negb (pi_is_drop r) && negb (pi_is_pass r)) ||
  (bool_decide (pi_set_name r = []) && criteria_empty (pi_criteria r)).

(** A line that is a rule of the chain, or of one of its versions *)
Definition is_chain_rule (chain_name line : cstring) : bool :=
  let prefix := "-A " ++ chain_name in
  starts_with prefix line &&
  match line !! length prefix with
  | Some c => ascii_eqb c " " || ascii_eqb c "_"
  | None => true
  end.

Definition parse_ipt_line (chain_name : cstring) (ipv6 : bool) (st : ParsedIptablesState) (line : cstring) :
    exc ParsedIptablesState :=
  if bool_decide (line = "-N " ++ chain_name) then Ok (mk_ParsedIptState true (has_prerouting_jump st) (ipt_rules st))
  else if bool_decide (line = "-A PREROUTING -j " ++ chain_name)
  then Ok (mk_ParsedIptState (has_keen_pbr_chain st) true (ipt_rules st))
  else if negb (is_chain_rule chain_name line) then Ok st
  else
    rule ← parse_words (new_ipt_rule ipv6) false (split_ws line);
    Ok (if ignored_ipt_rule rule then st
        else mk_ParsedIptState (has_keen_pbr_chain st) (has_prerouting_jump st) (ipt_rules st ++ [rule])).

Fixpoint parse_ipt_lines (chain_name : cstring) (ipv6 : bool) (st : ParsedIptablesState) (lines : list cstring) :
    exc ParsedIptablesState :=
  match lines with
  | [] => Ok st
  | line :: lines => st ← parse_ipt_line chain_name ipv6 st line; parse_ipt_lines chain_name ipv6 st lines
  end.

Definition parse_iptables_s_for_family (output : cstring) (ipv6 : bool) (chain_name : cstring) : exc ParsedIptablesState :=
  parse_ipt_lines chain_name ipv6 (mk_ParsedIptState false false []) (getline_all (chr 10) output).
Definition parse_iptables_s (output : cstring) : exc ParsedIptablesState :=
  parse_iptables_s_for_family output false "KeenPbrTable".

(** [ipset save] *)
Definition own_ipset_name (n : cstring) : bool := has_value (ipt_ipv6_from_set_name n).
Fixpoint parse_ipset_words (set : ParsedIpset) (tokens : list cstring) : ParsedIpset :=
  match tokens with
  | tok :: ((value :: _) as rest) =>
      let set := if bool_decide (tok = str "family")
                 then mk_ParsedIpset (pset_name set) (if bool_decide (value = str "inet6") then AF_INET6 else AF_INET)
                        (pset_timeout set) else set in
      let set := if bool_decide (tok = str "timeout")
                 then mk_ParsedIpset (pset_name set) (pset_family set) (value_or (parse_u32 value) 0) else set in
      parse_ipset_words set rest
  | _ => set
  end.
Definition parse_ipset_save (output : cstring) : list ParsedIpset :=
  line ← getline_all (chr 10) output;
  match split_ws line with
  | verb :: name :: ((_ :: _ :: _ :: _) as rest) =>
      if negb (bool_decide (verb = str "create")) || negb (own_ipset_name name) then []
      else let set := parse_ipset_words (mk_ParsedIpset name 0 0) rest in
           if negb (pset_family set =? 0) then [set] else []
  | _ => []
  end.

(** ** The object *)

Record IptCachedState := mk_IptCached { v4_state : ParsedIptablesState; v6_state : ParsedIptablesState }.

Record IptablesFirewallVerifier := mk_IptVerifier {
  ipt_runner_ : list cstring → CommandResult;
  verify_raw_prerouting_ : bool;
  expected_fwmark_mask_ : Z;
  ipt_cached_state_ : option IptCachedState;
}.

(** A newline after the text, unless it has one *)
Definition end_line (s : cstring) : cstring :=
  match last s with
  | None => s
  | Some c => if ascii_eqb c (chr 10) then s else s ++ [chr 10]
  end.

(** The first versioned chain that a rule jumps to *)
Fixpoint jump_target (chain_name : cstring) (tokens : list cstring) : option cstring :=
  match tokens with
  | tok :: ((target :: _) as rest) =>
      if negb (bool_decide (tok = str "-j")) || negb (starts_with (chain_name ++ "_") target) ||
         bool_decide (target = str "KeenPbrTable_OUTPUT")
      then jump_target chain_name rest else Some target
  | _ => None
  end.

(** The lambda [read_state]: [list_args] lists a chain of the table *)
Definition read_ipt_state (runner : list cstring → CommandResult) (list_args : cstring → list cstring) (ipv6 : bool)
    (chain_name : cstring) : exc ParsedIptablesState :=
  let chain_result := runner (list_args chain_name) in
  let combined :=
    if exit_code chain_result =? 0 then
      foldl (λ combined line,
        match jump_target chain_name (split_ws line) with
        | None => combined
        | Some target =>
            let versioned := runner (list_args target) in
            if exit_code versioned =? 0 then end_line (combined ++ stdout_output versioned) else combined
        end) (end_line (stdout_output chain_result)) (getline_all (chr 10) (stdout_output chain_result))
    else [] in
  let prerouting := runner (list_args "PREROUTING") in
  parse_iptables_s_for_family (combined ++ (if exit_code prerouting =? 0 then stdout_output prerouting else [])) ipv6 chain_name.

Definition list_args_of (command table chain : cstring) : list cstring := [command; str "-t"; table; str "-S"; chain].

Definition read_ipt_states (runner : list cstring → CommandResult) (raw : bool) : exc IptCachedState :=
  let v4_chain := if raw then RAW_CHAIN_NAME else IPT_CHAIN_NAME in
  let v4_table := if raw then str "raw" else str "mangle" in
  v4 ← read_ipt_state runner (list_args_of "iptables" v4_table) false v4_chain;
  v6 ← read_ipt_state runner (list_args_of "ip6tables" "mangle") true IPT_CHAIN_NAME;
  Ok (mk_IptCached v4 v6).

Definition ipt_get_state : stexc IptablesFirewallVerifier IptCachedState := λ v,
  match ipt_cached_state_ v with
  | Some c => (Ok c, v)
  | None =>
      match read_ipt_states (ipt_runner_ v) (verify_raw_prerouting_ v) with
      | Ok c => (Ok c, mk_IptVerifier (ipt_runner_ v) (verify_raw_prerouting_ v) (expected_fwmark_mask_ v) (Some c))
      | Throw e => (Throw e, v)
      | Undefined => (Undefined, v)
      end
  end.

Definition ipt_verify_chain : stexc IptablesFirewallVerifier FirewallChainCheck :=
  c ← ipt_get_state;
  v ← get_st;
  let chain_present := has_keen_pbr_chain (v4_state c) || has_keen_pbr_chain (v6_state c) in
  let hook_present := has_prerouting_jump (v4_state c) || has_prerouting_jump (v6_state c) in
  mret (mk_ChainCheck chain_present hook_present
    (if negb chain_present then
       (if verify_raw_prerouting_ v
        then str "KeenPbrRaw chain not found in iptables raw table or KeenPbrTable in ip6tables mangle table"
        else str "KeenPbrTable chain not found in iptables or ip6tables mangle table")
     else if negb hook_present then IPT_CHAIN_NAME ++ " chain exists but PREROUTING jump not found"
     else str "ok")).

Definition ipt_actual_mark (actual : ParsedIptablesRule) : option Z :=
  if pi_is_mark actual then Some (pi_fwmark actual) else None.

Definition ipt_mismatch_detail (mask : Z) (exp : ExpectedNftRule) (actual : ParsedIptablesRule) : cstring :=
  match en_action_type exp with
  | RuleActionType.Mark =>
      if pi_is_mark actual then
        if negb (xmark_mask actual =? mask)
        then "fwmark mask mismatch: expected " ++ hex (en_fwmark exp) ++ "/" ++ hex mask ++ " got " ++
             hex (pi_fwmark actual) ++ "/" ++ hex (xmark_mask actual)
        else "fwmark mismatch: expected " ++ hex (en_fwmark exp) ++ " got " ++ hex (pi_fwmark actual)
      else if pi_is_drop actual then "expected MARK rule but found DROP rule"
      else "expected MARK rule but found RETURN rule"
  | RuleActionType.Drop =>
      if pi_is_mark actual then "expected DROP rule but found MARK rule" else "expected DROP rule but found RETURN rule"
  | _ =>
      if pi_is_mark actual then "expected RETURN rule but found MARK rule"
      else "expected RETURN rule but found DROP rule"
  end.

(** The check of one expected rule, and the rules used after it *)
Definition ipt_verify_rule (raw : bool) (mask : Z) (rules : list ParsedIptablesRule) (used : nat → bool)
    (exp : ExpectedNftRule) : FirewallRuleCheck * (nat → bool) :=
  match find_unused (λ actual, ipt_rule_matches actual exp mask) used 0 rules with
  | Some (index, actual) =>
      (check_of exp (ipt_actual_mark actual) CheckStatus.ok "ok", λ n, used n || (n =? index)%nat)
  | None =>
      match find_unused (λ actual, ipt_same_shape actual exp) used 0 rules with
      | None =>
          (check_of exp None CheckStatus.missing
             ("rule not found in iptables " ++ (if raw && negb (en_ipv6 exp) then str "raw" else str "mangle") ++
              " table (family=" ++ (if en_ipv6 exp then str "ipv6" else str "ipv4") ++ " criteria=" ++
              ipt_criteria_summary (en_criteria exp) ++ ")"), used)
      | Some (_, actual) =>
          (check_of exp (ipt_actual_mark actual) CheckStatus.mismatch (ipt_mismatch_detail mask exp actual), used)
      end
  end.

Fixpoint ipt_verify_expected (raw : bool) (mask : Z) (rules : list ParsedIptablesRule) (used : nat → bool)
    (expected : list ExpectedNftRule) : list FirewallRuleCheck :=
  match expected with
  | [] => []
  | exp :: expected =>
      let r := ipt_verify_rule raw mask rules used exp in r.1 :: ipt_verify_expected raw mask rules r.2 expected
  end.

Definition ipt_verify_rules (expected : list RuleState) : stexc IptablesFirewallVerifier (list FirewallRuleCheck) :=
  c ← ipt_get_state;
  v ← get_st;
  mret (ipt_verify_expected (verify_raw_prerouting_ v) (expected_fwmark_mask_ v)
          (ipt_rules (v4_state c) ++ ipt_rules (v6_state c)) (λ _, false) (ipt_expand_expected_rule_states expected)).
End reading.
