(* ===== verification/FirewallReconciler.v ===== *)
(** * The firewall reconciler (src/src/firewall/firewall_reconciler.{hpp,cpp})

    What a backend owns is described by names of chains and jumps, the schemas of
    the sets and the rules in their order.  [diff_firewall_state] compares such a
    description with what is installed, and [reconcile] probes the backend,
    inspects it, applies its plan and inspects it again. *)

From S2P Require Import Prelude CppString AddrSpec RoutingState Json Nftables NftVerifier IptVerifier.

Local Open Scope Z_scope.

(** ** Data *)

Record FirewallSetSnapshot := mk_SetSnapshot { fs_name : cstring; fs_family : Z; fs_timeout_seconds : Z; fs_dynamic : bool }.
Record FirewallActualState := mk_ActualState {
  available : bool;
  chains : list cstring;
  jumps : list cstring;
  ordered_rules : list cstring;
  sets : list FirewallSetSnapshot;
}.
Abbreviation FirewallDesiredState := FirewallActualState.

Record FirewallStateDiff := mk_Diff {
  missing_chains : list cstring;
  extra_chains : list cstring;
  missing_jumps : list cstring;
  extra_jumps : list cstring;
  missing_sets : list cstring;
  extra_sets : list cstring;
  schema_mismatches : list cstring;
  rules_reordered : bool;
}.

(** ** The difference *)

Definition is_in (l : list cstring) (x : cstring) : bool := bool_decide (x ∈ l).

Definition is_keen_pbr_namespace_name (name : cstring) : bool :=
  let object := match find_char ":" name with None => name | Some i => drop (i + 1) name end in
  bool_decide (object = str "KeenPbrTable") ||
  existsb (λ p, starts_with p object)
    [str "KeenPbrTable_"; str "PREROUTING->KeenPbrTable"; str "OUTPUT->KeenPbrTable"; str "kpbr4_"; str "kpbr6_"; str "kpbr4s_"; str "kpbr6s_";
     str "kpbr4S_"; str "kpbr6S_"; str "kpbr4d_"; str "kpbr6d_"].

Definition missing_from (expected actual : list cstring) : list cstring := List.filter (λ x, negb (is_in actual x)) expected.
Definition owned_extra_from (actual expected : list cstring) : list cstring :=
  List.filter (λ x, is_keen_pbr_namespace_name x && negb (is_in expected x)) actual.
Definition find_set (sets : list FirewallSetSnapshot) (name : cstring) : option FirewallSetSnapshot :=
  List.find (λ s, bool_decide (fs_name s = name)) sets.

Definition none {A} (l : list A) : bool := match l with [] => true | _ => false end.
Definition diff_is_empty (d : FirewallStateDiff) : bool :=
  none (missing_chains d) && none (extra_chains d) && none (missing_jumps d) && none (extra_jumps d) && none (missing_sets d) &&
  none (extra_sets d) && none (schema_mismatches d) && negb (rules_reordered d).

Definition diff_issues (d : FirewallStateDiff) : list cstring :=
  (if none (missing_chains d) then [] else [str "missing chain"]) ++ (if none (extra_chains d) then [] else [str "extra chain"]) ++
  (if none (missing_jumps d) then [] else [str "missing jump"]) ++ (if none (extra_jumps d) then [] else [str "extra jump"]) ++
  (if none (missing_sets d) then [] else [str "missing set"]) ++ (if none (extra_sets d) then [] else [str "extra set"]) ++
  (if none (schema_mismatches d) then [] else [str "set schema mismatch"]) ++ (if rules_reordered d then [str "rule order mismatch"] else []).
Fixpoint separated (l : list cstring) : cstring :=
  match l with [] => [] | [x] => x | x :: l => x ++ "; " ++ separated l end.
Definition summary (d : FirewallStateDiff) : cstring := separated (diff_issues d).

Definition same_schema (observed expected : FirewallSetSnapshot) : bool :=
  (fs_family observed =? fs_family expected) && (fs_timeout_seconds observed =? fs_timeout_seconds expected) &&
  Bool.eqb (fs_dynamic observed) (fs_dynamic expected).
Definition diff_firewall_state (desired : FirewallDesiredState) (actual : FirewallActualState) : FirewallStateDiff := {|
  missing_chains := missing_from (chains desired) (chains actual);
  extra_chains := owned_extra_from (chains actual) (chains desired);
  missing_jumps := missing_from (jumps desired) (jumps actual);
  extra_jumps := owned_extra_from (jumps actual) (jumps desired);
  missing_sets := fs_name <$> List.filter (λ s, negb (has_value (find_set (sets actual) (fs_name s)))) (sets desired);
  extra_sets := fs_name <$> List.filter (λ s, negb (has_value (find_set (sets desired) (fs_name s))) && is_keen_pbr_namespace_name (fs_name s)) (sets actual);
  schema_mismatches := fs_name <$> List.filter (λ s, match find_set (sets actual) (fs_name s) with Some o => negb (same_schema o s) | None => false end) (sets desired);
  rules_reordered := negb (bool_decide (ordered_rules desired = ordered_rules actual));
|}.

(** ** What is installed *)

Definition rule_identity (ipv6 is_mark is_drop is_pass : bool) (set_name : cstring) (fwmark : Z) : cstring :=
  (if ipv6 then str "ip6:" else str "ip4:") ++ set_name ++ ":" ++
  (if is_mark then "mark=" ++ to_string fwmark else if is_drop then str "drop" else if is_pass then str "pass" else str "unknown").
Definition ipt_identity (r : ParsedIptablesRule) : cstring :=
  rule_identity (pi_ipv6 r) (pi_is_mark r) (pi_is_drop r) (pi_is_pass r) (pi_set_name r) (pi_fwmark r).
Definition nft_identity (r : ParsedNftRule) : cstring :=
  rule_identity (nr_ipv6 r) (is_mark r) (is_drop r) (is_pass r) (nr_set_name r) (nr_fwmark r).

Definition inspect_iptables_state (ipv4 ipv6 : ParsedIptablesState) (psets : list ParsedIpset) : FirewallActualState := {|
  available := true;
  chains := (if has_keen_pbr_chain ipv4 then [str "ip4:KeenPbrTable"] else []) ++ (if has_keen_pbr_chain ipv6 then [str "ip6:KeenPbrTable"] else []);
  jumps := (if has_prerouting_jump ipv4 then [str "ip4:PREROUTING->KeenPbrTable"] else []) ++
           (if has_prerouting_jump ipv6 then [str "ip6:PREROUTING->KeenPbrTable"] else []);
  ordered_rules := (ipt_identity <$> ipt_rules ipv4) ++ (ipt_identity <$> ipt_rules ipv6);
  sets := (λ s, mk_SetSnapshot (pset_name s) (pset_family s) (pset_timeout s) (negb (pset_timeout s =? 0))) <$> psets;
|}.
Definition inspect_nftables_state (parsed : ParsedNftablesState) : FirewallActualState := {|
  available := has_table parsed;
  chains := (if has_table parsed then [str "inet:KeenPbrTable"] else []) ++ (if has_prerouting_chain parsed then [str "inet:prerouting"] else []);
  jumps := if has_prerouting_hook parsed then [str "inet:prerouting-hook"] else [];
  ordered_rules := nft_identity <$> nft_rules parsed;
  sets := (λ s, mk_SetSnapshot (ns_name s) (if bool_decide (ns_type s = str "ipv6_addr") then AF_INET6 else AF_INET)
                  (ns_timeout_seconds s) (negb (ns_timeout_seconds s =? 0))) <$> nft_sets parsed;
|}.

Section live.
Context {NL : Nlohmann} {JT : JsonText} {SS : StdSort} {IP : InetPton}.

Definition inspect_iptables_live (run : list cstring → cstring) : exc FirewallActualState :=
  v4 ← parse_iptables_s (run [str "iptables"; str "-t"; str "mangle"; str "-S"]);
  v6 ← parse_iptables_s (run [str "ip6tables"; str "-t"; str "mangle"; str "-S"]);
  mret (inspect_iptables_state v4 v6 (parse_ipset_save (run [str "ipset"; str "save"]))).
Definition inspect_nftables_live (run : list cstring → cstring) : exc FirewallActualState :=
  inspect_nftables_state <$> parse_nft_json (run [str "nft"; str "-j"; str "list"; str "table"; str "inet"; str "KeenPbrTable"]).
End live.

(** ** The lifecycle *)

Record FirewallOperation (W : Type) := mk_Operation { description : cstring; apply : stexc W unit }.
Arguments mk_Operation {W}.
Arguments description {W}.
Arguments apply {W}.

Class FirewallReconcilerBackend (W : Type) := {
  probe : stexc W (bool * cstring);
  inspect : stexc W FirewallActualState;
  plan : FirewallDesiredState → FirewallActualState → stexc W (list (FirewallOperation W));
  verify : FirewallDesiredState → FirewallActualState → stexc W (bool * cstring);
  cleanup : stexc W unit;
}.

Record FirewallReconcileResult := mk_ReconcileResult { committed : bool; drift_detected : bool; r_error : cstring; operation_count : Z }.

Section reconciler.
Context {W : Type} `{!FirewallReconcilerBackend W}.
Abbreviation M := (stexc W).

Definition error_or (error fallback : cstring) : cstring := if bool_decide (error = []) then fallback else error.
Definition failed (error : cstring) : FirewallReconcileResult := mk_ReconcileResult false false error 0.

Definition reconcile_steps (desired : FirewallDesiredState) : M FirewallReconcileResult :=
  probed ← probe;
  if negb probed.1 then mret (failed (error_or probed.2 "firewall backend is unavailable"))
  else
    actual ← inspect;
    operations ← plan desired actual;
    for_each apply operations;;
    installed ← inspect;
    verified ← verify desired installed;
    let n := Z.of_nat (length operations) in
    mret (if negb verified.1 then mk_ReconcileResult false true (error_or verified.2 "firewall state drift detected") n
          else mk_ReconcileResult true false [] n).
Definition reconcile (desired : FirewallDesiredState) : M FirewallReconcileResult :=
  try_catch_all (reconcile_steps desired)
    (λ e, mret (failed (match what e with Some m => m | None => str "unknown firewall reconciliation error" end))).
End reconciler.

(** ** What an empty difference means *)

Record matches (desired : FirewallDesiredState) (actual : FirewallActualState) : Prop := {
  m_chains : ∀ x, x ∈ chains desired → x ∈ chains actual;
  m_owned_chains : ∀ x, x ∈ chains actual → is_keen_pbr_namespace_name x = true → x ∈ chains desired;
  m_jumps : ∀ x, x ∈ jumps desired → x ∈ jumps actual;
  m_owned_jumps : ∀ x, x ∈ jumps actual → is_keen_pbr_namespace_name x = true → x ∈ jumps desired;
  m_sets : ∀ s, s ∈ sets desired → find_set (sets actual) (fs_name s) = Some s;
  m_owned_sets : ∀ s, s ∈ sets actual → is_keen_pbr_namespace_name (fs_name s) = true → fs_name s ∈ fs_name <$> sets desired;
  m_rules : ordered_rules desired = ordered_rules actual;
}.

Lemma none_filter {A} (f : A → bool) l : none (List.filter f l) = true ↔ ∀ x, x ∈ l → f x = false.
Proof.
  induction l as [|x l IH]; cbn; [by split; [intros _ ? ?%elem_of_nil|]|]. destruct (f x) eqn:Hx; cbn.
  - split; [done|]. intros H. rewrite (H x) in Hx by left. done.
  - rewrite IH. setoid_rewrite elem_of_cons. naive_solver.
Qed.
Lemma none_fmap {A B} (f : A → B) l : none (f <$> l) = none l.
Proof. by destruct l. Qed.
Lemma missing_from_none expected actual : none (missing_from expected actual) = true ↔ ∀ x, x ∈ expected → x ∈ actual.
Proof. unfold missing_from. rewrite none_filter. unfold is_in. setoid_rewrite negb_false_iff. by setoid_rewrite bool_decide_eq_true. Qed.
Lemma owned_extra_none actual expected :
  none (owned_extra_from actual expected) = true ↔ ∀ x, x ∈ actual → is_keen_pbr_namespace_name x = true → x ∈ expected.
Proof.
  unfold owned_extra_from. rewrite none_filter. unfold is_in. split; intros H x Hx.
  - intros Ho. specialize (H x Hx). rewrite Ho in H. by apply negb_false_iff, bool_decide_eq_true in H.
  - specialize (H x Hx). destruct (is_keen_pbr_namespace_name x); [|done]. by apply negb_false_iff, bool_decide_eq_true, H.
Qed.
Lemma find_set_some l n s : find_set l n = Some s → s ∈ l ∧ fs_name s = n.
Proof. intros [Hin Hn]%List.find_some. split; [by apply list_elem_of_In|by apply bool_decide_eq_true in Hn]. Qed.
Lemma find_set_none l n : has_value (find_set l n) = true ↔ n ∈ fs_name <$> l.
Proof.
  split.
  - destruct (find_set l n) as [s|] eqn:Hf; [|done]. intros _. apply find_set_some in Hf as [Hin <-]. by apply list_elem_of_fmap_2.
  - intros (s & -> & Hin)%list_elem_of_fmap. destruct (find_set l (fs_name s)) eqn:Hf; [done|].
    apply list_elem_of_In, (List.find_none _ _ Hf), bool_decide_eq_false in Hin. done.
Qed.
Lemma same_schema_eq o s : fs_name o = fs_name s → same_schema o s = true ↔ o = s.
Proof.
  unfold same_schema. destruct o, s. cbn. intros ->. rewrite !andb_true_iff, !Z.eqb_eq, eqb_true_iff. naive_solver.
Qed.

(** The difference is empty exactly when everything wanted is installed with its
    schema, the rules are the same in the same order, and nothing else that
    carries a name of this program is installed. *)
Theorem diff_empty_exact desired actual : diff_is_empty (diff_firewall_state desired actual) = true ↔ matches desired actual.
Proof.
  unfold diff_is_empty, diff_firewall_state. cbn. rewrite !none_fmap, !andb_true_iff, !missing_from_none, !owned_extra_none, !none_filter, negb_involutive, bool_decide_eq_true.
  assert (Hsets : (∀ s, s ∈ sets desired → negb (has_value (find_set (sets actual) (fs_name s))) = false) ∧
    (∀ s, s ∈ sets desired → match find_set (sets actual) (fs_name s) with Some o => negb (same_schema o s) | None => false end = false) ↔
    (∀ s, s ∈ sets desired → find_set (sets actual) (fs_name s) = Some s)).
  { split.
    - intros [H1 H2] s Hs. specialize (H1 s Hs). specialize (H2 s Hs). destruct (find_set _ _) as [o|] eqn:Hf; [|done]. f_equal.
      apply find_set_some in Hf as [_ Hn]. by apply same_schema_eq, negb_false_iff.
    - intros H. split; intros s Hs; rewrite (H s Hs); [done|]. apply negb_false_iff. by apply same_schema_eq. }
  assert (Hextra : (∀ s, s ∈ sets actual → negb (has_value (find_set (sets desired) (fs_name s))) && is_keen_pbr_namespace_name (fs_name s) = false) ↔
    (∀ s, s ∈ sets actual → is_keen_pbr_namespace_name (fs_name s) = true → fs_name s ∈ fs_name <$> sets desired)).
  { setoid_rewrite <-find_set_none. split; intros H s Hs; specialize (H s Hs); destruct (has_value _), (is_keen_pbr_namespace_name _); cbn in *; auto.
    by specialize (H eq_refl). }
  rewrite Hextra. split.
  - intros (((((((H1 & H2) & H3) & H4) & H5) & H6) & H7) & H8). split; try done. by apply Hsets.
  - intros []. apply Hsets in m_sets0 as [? ?]. by split_and!.
Qed.

(** ** What a result means *)

Section reconciled.
Context {W : Type} `{!FirewallReconcilerBackend W}.

(** A committed reconciliation probed the backend, applied the whole plan in its
    order, and the backend accepted what it then read back. *)
Theorem reconcile_committed desired w r w' : reconcile desired w = (Ok r, w') → committed r = true →
  ∃ actual ops installed w1 w2 w3 w4 w5 m m',
    probe w = (Ok (true, m), w1) ∧ inspect w1 = (Ok actual, w2) ∧ plan desired actual w2 = (Ok ops, w3) ∧
    for_each apply ops w3 = (Ok tt, w4) ∧ inspect w4 = (Ok installed, w5) ∧ verify desired installed w5 = (Ok (true, m'), w') ∧
    operation_count r = Z.of_nat (length ops).
Proof.
  unfold reconcile, try_catch_all. destruct (reconcile_steps desired w) as [[r'|e|] w''] eqn:Hs; [|by intros [= <- <-]|done].
  intros [= -> ->] Hc. unfold reconcile_steps in Hs. apply stexc_bind_Ok in Hs as ([b m] & w1 & Hp & Hs). destruct b; cbn in Hs; [|by injection Hs as <- <-].
  apply stexc_bind_Ok in Hs as (actual & w2 & Hi & Hs). apply stexc_bind_Ok in Hs as (ops & w3 & Hpl & Hs). apply stexc_bind_Ok in Hs as ([] & w4 & Ha & Hs).
  apply stexc_bind_Ok in Hs as (installed & w5 & Hi' & Hs). apply stexc_bind_Ok in Hs as ([b m'] & w6 & Hv & Hs). cbn in Hs. destruct b; injection Hs as <- <-; [|done].
  by exists actual, ops, installed, w1, w2, w3, w4, w5, m, m'.
Qed.
(** A backend that verifies by the difference: what it commits matches. *)
Corollary committed_matches desired w r w' :
  (∀ d a u b m u', verify d a u = (Ok (b, m), u') → b = diff_is_empty (diff_firewall_state d a)) →
  reconcile desired w = (Ok r, w') → committed r = true →
  ∃ installed u u', inspect u = (Ok installed, u') ∧ matches desired installed.
Proof.
  intros Hv Hr Hc. destruct (reconcile_committed desired w r w' Hr Hc) as (actual & ops & installed & w1 & w2 & w3 & w4 & w5 & m & m' & _ & _ & _ & _ & Hi & Hver & _).
  exists installed, w4, w5. split; [done|]. apply diff_empty_exact. by rewrite <-(Hv _ _ _ _ _ _ Hver).
Qed.
(** No exception leaves a reconciliation. *)
Lemma reconcile_never_throws desired w e : (reconcile desired w).1 ≠ Throw e.
Proof. unfold reconcile, try_catch_all. by destruct (reconcile_steps desired w) as [[?|?|] ?]. Qed.
End reconciled.

(** ** Two rules that look the same *)

Module FirewallReconcilerSample.
#[local] Existing Instance insertion_StdSort.
(** The listing of [ip6tables] is read as IPv4: a rule without a set has the same
    identity in both families. *)
Lemma families_look_alike : let rule := str "-A KeenPbrTable -p tcp -j MARK --set-mark 0x1" in
  from_exc [] (ordered_rules <$> inspect_iptables_live (λ args, if bool_decide (head args = Some (str "ip6tables")) then rule else [])) =
  from_exc [] (ordered_rules <$> inspect_iptables_live (λ args, if bool_decide (head args = Some (str "iptables")) then rule else [])) ∧
  from_exc [] (ordered_rules <$> inspect_iptables_live (λ args, if bool_decide (head args = Some (str "ip6tables")) then rule else [])) = [str "ip4::mark=1"].
Proof. vm_compute. done. Qed.
End FirewallReconcilerSample.
