(* ===== verification/IptVerified.v ===== *)
(** * The iptables verifier accepts what the backend installs

    A listed rule is a sequence of options in any order, with the modules that
    [iptables] names as it likes; reading it gives the rule's criteria back, and
    the search of the verifier finds a listed rule for every expected one. *)

From S2P Require Import Prelude CppString Config PortSpec Fwmark AddrSpec DnsServer RoutingVerifier.
From S2P Require Import RoutingState FirewallRules ListParser ListStreamer Firewall FirewallTrace.
From S2P Require Import Json Nftables Packet NftSemantics RuleSearch NftVerifier NftVerified Iptables IptVerifier.

Local Open Scope Z_scope.

(** ** The search, with the rules of two families *)

Lemma ipt_verify_expected_ok raw mask v4 v6 expected :
  Forall (λ r, pi_ipv6 r = false) v4 → Forall (λ r, pi_ipv6 r = true) v6 →
  ∀ used k4 k6,
  (∀ n, (k4 ≤ n < length v4)%nat → used n = false) → (∀ n, (length v4 + k6 ≤ n)%nat → used n = false) →
  covers (λ actual exp, ipt_rule_matches actual exp mask = true) (drop k4 v4) (List.filter (λ e, negb (en_ipv6 e)) expected) →
  covers (λ actual exp, ipt_rule_matches actual exp mask = true) (drop k6 v6) (List.filter en_ipv6 expected) →
  Forall (λ c, ck_status c = CheckStatus.ok ∧ ck_detail c = str "ok")
    (ipt_verify_expected raw mask (v4 ++ v6) used expected).
Proof.
  intros H4 H6. induction expected as [|exp expected IH]; intros used k4 k6 Hu4 Hu6 Hc4 Hc6; [constructor|].
  assert (Hfam : ∀ r, ipt_rule_matches r exp mask = true → pi_ipv6 r = en_ipv6 exp).
  { intros r. unfold ipt_rule_matches. destruct (Bool.eqb (pi_ipv6 r) (en_ipv6 exp)) eqn:E; [by apply eqb_prop in E|done]. }
  assert (Hfound : ∀ k x, (v4 ++ v6) !! k = Some x → used k = false → ipt_rule_matches x exp mask = true →
    ∃ j r, find_unused (λ actual, ipt_rule_matches actual exp mask) used 0 (v4 ++ v6) = Some (j, r) ∧
      (j ≤ k)%nat ∧ (v4 ++ v6) !! j = Some r ∧ pi_ipv6 r = en_ipv6 exp).
  { intros k x Hk Hu Hm. destruct (find_unused_Some (λ actual, ipt_rule_matches actual exp mask) used 0 (v4 ++ v6) k x)
      as (j & r & Hf & Hj); [done|done|done|].
    pose proof Hf as (_ & Hl & _ & Hmr)%find_unused_inv. rewrite Nat.sub_0_r in Hl. exists j, r. cbn in Hl. auto. }
  cbn [List.filter] in Hc4, Hc6. cbn [ipt_verify_expected]. unfold ipt_verify_rule.
  destruct (en_ipv6 exp) eqn:E6; cbn [negb] in Hc4.
  - apply covers_cons_inv in Hc6 as (i & x & Hi & Hm & Hc6). rewrite lookup_drop in Hi.
    destruct (Hfound (length v4 + (k6 + i))%nat x) as (j & r & Hf & Hj & Hl & Hr);
      [by rewrite lookup_app_r, Nat.add_comm, Nat.add_sub by lia|apply Hu6; lia|done|].
    rewrite Hf. cbn [fst snd]. constructor; [done|].
    assert (length v4 ≤ j)%nat.
    { destruct (decide (length v4 ≤ j)%nat); [done|]. rewrite lookup_app_l in Hl by lia.
      rewrite Forall_lookup in H4. rewrite (H4 _ _ Hl) in Hr. done. }
    apply (IH _ k4 (S (k6 + i))).
    + intros n Hn. rewrite Hu4 by lia. apply Nat.eqb_neq. lia.
    + intros n Hn. rewrite Hu6 by lia. apply Nat.eqb_neq. lia.
    + done.
    + by rewrite drop_drop, <- plus_n_Sm in Hc6.
  - apply covers_cons_inv in Hc4 as (i & x & Hi & Hm & Hc4). rewrite lookup_drop in Hi.
    pose proof (lookup_lt_Some _ _ _ Hi) as Hlt.
    destruct (Hfound (k4 + i)%nat x) as (j & r & Hf & Hj & Hl & Hr); [by rewrite lookup_app_l|apply Hu4; lia|done|].
    rewrite Hf. cbn [fst snd]. constructor; [done|]. apply (IH _ (S (k4 + i)) k6).
    + intros n Hn. rewrite Hu4 by lia. apply Nat.eqb_neq. lia.
    + intros n Hn. rewrite Hu6 by lia. apply Nat.eqb_neq. lia.
    + by rewrite drop_drop, <- plus_n_Sm in Hc4.
    + done.
Qed.

(** ** Options *)

Inductive opt :=
  | OSet (n : cstring)
  | OSrc (neg : bool) (a : cstring)
  | ODst (neg : bool) (a : cstring)
  | OProto (p : L4Proto.t)
  | OSport (neg plural : bool) (t : cstring)
  | ODport (neg plural : bool) (t : cstring)
  | ODscp (t : cstring)
  | OModule (m : cstring)
  | OIface (neg : bool) (i : cstring).

Definition bang_word (neg : bool) : list cstring := if neg then [str "!"] else [].
Definition opt_words (o : opt) : list cstring :=
  match o with
  | OSet n => [str "--match-set"; n; str "dst"]
  | OSrc neg a => bang_word neg ++ [str "-s"; a]
  | ODst neg a => bang_word neg ++ [str "-d"; a]
  | OProto p => [str "-p"; l4_proto_name p]
  | OSport neg pl t => bang_word neg ++ [if pl then str "--sports" else str "--sport"; t]
  | ODport neg pl t => bang_word neg ++ [if pl then str "--dports" else str "--dport"; t]
  | ODscp t => [str "--dscp"; t]
  | OModule m => [str "-m"; m]
  | OIface neg i => bang_word neg ++ [str "-i"; i]
  end.

Section reading.
Context {SS : StdSort}.

(** The text of an option can be read. *)
Definition opt_ok (o : opt) : Prop :=
  match o with
  | OProto p => p = L4Proto.Tcp ∨ p = L4Proto.Udp
  | OSport _ _ t | ODport _ _ t => ∃ spec, parse_port_spec t = Ok spec
  | ODscp t => ∃ d, parse_u32 t = Some d ∧ d ≤ 63
  | OIface _ i => head i ≠ Some "-"%char ∧ i ≠ str "!"
  | _ => True
  end.

Definition ports_of (t : cstring) : PortSpec := match parse_port_spec t with Ok s => s | _ => empty_spec end.

Definition read_opt (o : opt) (r : ParsedIptablesRule) : ParsedIptablesRule :=
  match o with
  | OSet n => with_ipt_set n r
  | OSrc neg a => on_ipt_criteria (with_src_addr [a] neg) r
  | ODst neg a => on_ipt_criteria (with_dst_addr [a] neg) r
  | OProto p => on_ipt_criteria (with_proto p) r
  | OSport neg _ t => on_ipt_criteria (with_src_port (ports_of t) neg) r
  | ODport neg _ t => on_ipt_criteria (with_dst_port (ports_of t) neg) r
  | ODscp t => on_ipt_criteria (with_dscp (value_or (parse_u32 t) 0)) r
  | OModule _ | OIface _ _ => r
  end.

(** Two words that name no option are skipped. *)
Lemma plain_word r neg w rest : head w ≠ Some "-"%char → w ≠ str "!" →
  parse_words r neg (w :: rest) = match rest with [] => Ok r | _ => parse_words r false rest end.
Proof.
  intros Hd Hb. cbn [parse_words]. rewrite (bool_decide_eq_false_2 (w = str "!")) by done. destruct rest as [|v rest]; [done|].
  assert (Hne : ∀ o, head o = Some "-"%char → bool_decide (w = o) = false) by (intros o Ho; apply bool_decide_eq_false_2; by intros ->).
  unfold is_one_of. by rewrite !Hne by done.
Qed.

Lemma parse_opt o r w rest : opt_ok o →
  parse_words r false (opt_words o ++ w :: rest) = parse_words (read_opt o r) false (w :: rest).
Proof.
  destruct o as [n|neg a|neg a|p|neg pl t|neg pl t|t|m|neg i]; cbn [opt_ok]; intros Ho.
  - done.
  - by destruct neg.
  - by destruct neg.
  - by destruct Ho as [->| ->].
  - destruct Ho as [spec Hs]. unfold read_opt, ports_of. rewrite Hs. destruct neg, pl; cbn; by rewrite Hs.
  - destruct Ho as [spec Hs]. unfold read_opt, ports_of. rewrite Hs. destruct neg, pl; cbn; by rewrite Hs.
  - destruct Ho as (d & Hd & Hle). unfold read_opt. rewrite Hd. cbn -[parse_u32 Z.leb]. rewrite Hd.
    by rewrite (proj2 (Z.leb_le d 63)) by done.
  - done.
  - destruct Ho as [Hd Hb].
    transitivity (parse_words r false (i :: w :: rest)); [by destruct neg|]. by rewrite plain_word.
Qed.

Lemma parse_opts os r w rest : Forall opt_ok os →
  parse_words r false ((os ≫= opt_words) ++ w :: rest) = parse_words (foldl (λ r o, read_opt o r) r os) false (w :: rest).
Proof.
  intros Hos. revert r. induction Hos as [|o os Ho _ IH]; intros r; [done|].
  rewrite bind_cons, <- app_assoc. cbn [foldl]. rewrite <- IH.
  destruct ((os ≫= opt_words) ++ w :: rest) as [|w' rest'] eqn:E; [by destruct (os ≫= opt_words)|]. by apply parse_opt.
Qed.

(** The options of different kinds can be read in any order. *)
Definition opt_kind (o : opt) : option nat :=
  match o with
  | OSet _ => Some 0 | OSrc _ _ => Some 1 | ODst _ _ => Some 2 | OProto _ => Some 3 | OSport _ _ _ => Some 4
  | ODport _ _ _ => Some 5 | ODscp _ => Some 6 | OModule _ | OIface _ _ => None
  end%nat.

Lemma read_opt_comm o1 o2 r : opt_kind o1 = None ∨ opt_kind o2 = None ∨ opt_kind o1 ≠ opt_kind o2 →
  read_opt o1 (read_opt o2 r) = read_opt o2 (read_opt o1 r).
Proof. destruct o1, o2; cbn [opt_kind]; intros H; try reflexivity; destruct H as [H|[H|H]]; congruence. Qed.

Lemma read_opts_perm os os' r : os ≡ₚ os' → NoDup (omap opt_kind os) →
  foldl (λ r o, read_opt o r) r os = foldl (λ r o, read_opt o r) r os'.
Proof.
  intros Hp. revert r. induction Hp as [|o l l' _ IH|o1 o2 l|l1 l2 l3 H1 IH1 _ IH2]; intros r Hnd; cbn [foldl].
  - done.
  - apply IH. cbn in Hnd. destruct (opt_kind o); [by apply NoDup_cons in Hnd as [_ ?]|done].
  - f_equal. apply read_opt_comm. cbn in Hnd.
    destruct (opt_kind o1) as [k1|], (opt_kind o2) as [k2|]; auto. right. right. intros [= ->].
    apply NoDup_cons in Hnd as [Hn _]. apply Hn. by left.
  - rewrite IH1, IH2; [done| |done]. by rewrite <- H1.
Qed.

(** ** A listed rule *)

(** The texts that [iptables] prints for the selectors of a rule; ports also tell
    whether they are those of [multiport]. *)
Record rule_texts := mk_texts {
  t_set : option cstring;
  t_src : option cstring;
  t_dst : option cstring;
  t_dscp : option cstring;
  t_proto : option L4Proto.t;
  t_sport : option (bool * cstring);
  t_dport : option (bool * cstring);
}.

Definition addr_text (l : list cstring) (t : option cstring) : Prop :=
  match l, t with
  | [], None => True
  | [a], Some a' => normalize_addr_value a' = normalize_addr_value a
  | _, _ => False
  end.
Definition port_text (spec : PortSpec) (t : option (bool * cstring)) : Prop :=
  match t with
  | None => spec = empty_spec
  | Some (_, s) => spec_empty spec = false ∧ parse_port_spec s = Ok spec
  end.
Record texts_for (c : FirewallRuleCriteria) (t : rule_texts) : Prop := mk_texts_for {
  tf_set : t_set t = dst_set_name c;
  tf_src : addr_text (fc_src_addr c) (t_src t);
  tf_dst : addr_text (fc_dst_addr c) (t_dst t);
  tf_dscp : match t_dscp t with None => fc_dscp c = None | Some s => fc_dscp c = parse_u32 s ∧ ∃ d, parse_u32 s = Some d ∧ d ≤ 63 end;
  tf_proto : match t_proto t with
             | None => fc_proto c = L4Proto.Any
             | Some p => fc_proto c = p ∧ (p = L4Proto.Tcp ∨ p = L4Proto.Udp) end;
  tf_sport : port_text (fc_src_port c) (t_sport t);
  tf_dport : port_text (fc_dst_port c) (t_dport t);
}.

Definition base_opts (c : FirewallRuleCriteria) (t : rule_texts) : list opt :=
  option_list (OSet <$> t_set t) ++ option_list (OSrc (negate_src_addr c) <$> t_src t) ++
  option_list (ODst (negate_dst_addr c) <$> t_dst t) ++ option_list (ODscp <$> t_dscp t) ++
  option_list (OProto <$> t_proto t) ++
  option_list ((λ x, OSport (negate_src_port c) x.1 x.2) <$> t_sport t) ++
  option_list ((λ x, ODport (negate_dst_port c) x.1 x.2) <$> t_dport t).

(** Options that say nothing of the criteria: modules and interfaces *)
Definition neutral (o : opt) : Prop := opt_kind o = None ∧ opt_ok o.

Definition printed (c : FirewallRuleCriteria) (os : list opt) : Prop :=
  ∃ t extras, texts_for c t ∧ os ≡ₚ base_opts c t ++ extras ∧ Forall neutral extras.

(** What is read of them *)
Definition ipt_parsed_criteria (c : FirewallRuleCriteria) (t : rule_texts) : FirewallRuleCriteria :=
  mk_Criteria None (fc_dscp c) (fc_proto c) (fc_src_port c) (fc_dst_port c) (option_list (t_src t)) (option_list (t_dst t))
    (negate_src_port c && has_value (t_sport t)) (negate_dst_port c && has_value (t_dport t))
    (negate_src_addr c && has_value (t_src t)) (negate_dst_addr c && has_value (t_dst t)) false.

Lemma base_kinds c t : NoDup (omap opt_kind (base_opts c t)).
Proof.
  destruct t as [[] [] [] [] [] [[]|] [[]|]]; cbn; repeat (apply NoDup_cons; split; [set_solver|]); apply NoDup_nil_2.
Qed.

Lemma read_base c t ipv6 : texts_for c t →
  foldl (λ r o, read_opt o r) (new_ipt_rule ipv6) (base_opts c t) =
  mk_ParsedIpt (value_or (t_set t) []) (ipt_parsed_criteria c t) ipv6 false false false 0 true 0xFFFFFFFF.
Proof.
  intros [Hset Hsrc Hdst Hdscp Hproto Hsp Hdp]. unfold ipt_parsed_criteria.
  assert (Hs : fc_src_port c = match t_sport t with Some x => ports_of x.2 | None => empty_spec end).
  { revert Hsp. unfold port_text, ports_of. destruct (t_sport t) as [[pl s]|]; [|done]. intros [_ H]. cbn. by rewrite H. }
  assert (Hd : fc_dst_port c = match t_dport t with Some x => ports_of x.2 | None => empty_spec end).
  { revert Hdp. unfold port_text, ports_of. destruct (t_dport t) as [[pl s]|]; [|done]. intros [_ H]. cbn. by rewrite H. }
  assert (Hp : fc_proto c = value_or (t_proto t) L4Proto.Any) by (destruct (t_proto t); [by destruct Hproto as [-> _]|done]).
  assert (Hc : fc_dscp c = (λ s, value_or (parse_u32 s) 0) <$> t_dscp t).
  { destruct (t_dscp t) as [s|]; [|done]. destruct Hdscp as (Hx & d & Hy & _). rewrite Hx. cbn. by rewrite Hy. }
  rewrite Hs, Hd, Hp, Hc. destruct t as [ts tsrc tdst tdscp tproto tsp tdp]. unfold base_opts.
  cbn [t_set t_src t_dst t_dscp t_proto t_sport t_dport].
  destruct ts, tsrc, tdst, tdscp, tproto, tsp as [[]|], tdp as [[]|]; cbn -[parse_u32 ports_of]; by rewrite ?andb_true_r, ?andb_false_r.
Qed.

Lemma base_ok c t : texts_for c t → Forall opt_ok (base_opts c t).
Proof.
  intros [_ _ _ Hdscp Hproto Hsp Hdp]. unfold base_opts. rewrite !Forall_app. split_and!.
  - by destruct (t_set t); repeat constructor.
  - by destruct (t_src t); repeat constructor.
  - by destruct (t_dst t); repeat constructor.
  - destruct (t_dscp t); [|done]. apply Forall_singleton. apply Hdscp.
  - destruct (t_proto t); [|done]. apply Forall_singleton. apply Hproto.
  - destruct (t_sport t) as [[pl s']|]; [|done]. apply Forall_singleton. exists (fc_src_port c). apply Hsp.
  - destruct (t_dport t) as [[pl s']|]; [|done]. apply Forall_singleton. exists (fc_dst_port c). apply Hdp.
Qed.

Lemma neutral_kinds extras : Forall neutral extras → omap opt_kind extras = [].
Proof. induction 1 as [|o l [Ho _] _ IH]; [done|]. cbn. by rewrite Ho. Qed.
Lemma neutral_read extras r : Forall neutral extras → foldl (λ r o, read_opt o r) r extras = r.
Proof. intros H. revert r. induction H as [|o l [Ho _] _ IH]; intros r; [done|]. cbn. rewrite IH. by destruct o. Qed.

(** The words of the target *)
Definition target_words (r : IptPendingRule) (words : list cstring) : Prop :=
  match ir_action r with
  | Action.Mark => ∃ m k, ("/"%char ∉ m) ∧ parse_u32 m = Some (ir_fwmark r) ∧ parse_u32 k = Some (ir_fwmark_mask r) ∧
                     words = [str "-j"; str "MARK"; str "--set-xmark"; (m ++ "/"%char :: k)]
  | Action.Drop => words = [str "-j"; str "DROP"]
  | Action.Pass => words = [str "-j"; str "RETURN"]
  end.

Definition plain (w : cstring) : Prop := head w ≠ Some "-"%char ∧ w ≠ str "!".

(** A line that prints the rule *)
Definition lists_rule (chain : cstring) (line : cstring) (r : IptPendingRule) : Prop :=
  is_chain_rule chain line = true ∧ line ≠ "-N " ++ chain ∧ line ≠ "-A PREROUTING -j " ++ chain ∧
  ∃ ch os words, split_ws line = str "-A" :: ch :: (os ≫= opt_words) ++ words ∧ plain ch ∧
    printed (ir_criteria r) os ∧ target_words r words.

Lemma read_target r words rule : target_words r words → ∃ w rest, words = w :: rest ∧
  parse_words rule false words = Ok
    (match ir_action r with
     | Action.Mark => with_ipt_xmark (ir_fwmark r) (ir_fwmark_mask r) rule
     | Action.Drop => with_ipt_drop rule
     | Action.Pass => with_ipt_pass rule
     end).
Proof.
  unfold target_words. destruct (ir_action r).
  - intros (m & k & Hm & H1 & H2 & ->). do 2 eexists. split; [done|].
    transitivity (Ok (parse_target rule (str "MARK") [str "--set-xmark"; (m ++ "/"%char :: k)])); [reflexivity|].
    unfold parse_target. rewrite find_char_app by done.
    rewrite (bool_decide_eq_false_2 (str "MARK" = str "DROP")), (bool_decide_eq_false_2 (str "MARK" = str "RETURN")),
      (bool_decide_eq_true_2 (str "MARK" = _)), (bool_decide_eq_false_2 (str "--set-xmark" = _)),
      (bool_decide_eq_true_2 (str "--set-xmark" = _)) by done.
    rewrite take_app_length, drop_app_ge by lia. replace (length m + 1 - length m)%nat with 1%nat by lia.
    change (drop 1 ("/"%char :: k)) with k. by rewrite H1, H2.
  - intros ->. by do 2 eexists.
  - intros ->. by do 2 eexists.
Qed.

Lemma lists_rule_read chain line r ipv6 : lists_rule chain line r →
  ∃ t, texts_for (ir_criteria r) t ∧
  parse_words (new_ipt_rule ipv6) false (split_ws line) = Ok
    (let rule := mk_ParsedIpt (value_or (t_set t) []) (ipt_parsed_criteria (ir_criteria r) t) ipv6 false false false 0 true 0xFFFFFFFF in
     match ir_action r with
     | Action.Mark => with_ipt_xmark (ir_fwmark r) (ir_fwmark_mask r) rule
     | Action.Drop => with_ipt_drop rule
     | Action.Pass => with_ipt_pass rule
     end).
Proof.
  intros (_ & _ & _ & ch & os & words & Hw & [Hd Hb] & (t & extras & Ht & Hp & He) & Htarget).
  exists t. split; [done|]. rewrite Hw.
  assert (Hok : Forall opt_ok os).
  { rewrite Hp. apply Forall_app. split; [by apply base_ok|]. eapply Forall_impl; [exact He|]. by intros o [_ ?]. }
  assert (Hrd : foldl (λ r o, read_opt o r) (new_ipt_rule ipv6) os =
    mk_ParsedIpt (value_or (t_set t) []) (ipt_parsed_criteria (ir_criteria r) t) ipv6 false false false 0 true 0xFFFFFFFF).
  { rewrite (read_opts_perm os (base_opts (ir_criteria r) t ++ extras)); [|done|].
    - by rewrite foldl_app, read_base, neutral_read.
    - rewrite Hp, omap_app, (neutral_kinds extras), app_nil_r by done. apply base_kinds. }
  destruct (read_target r words (mk_ParsedIpt (value_or (t_set t) []) (ipt_parsed_criteria (ir_criteria r) t) ipv6 false false false 0 true 0xFFFFFFFF) Htarget)
    as (w & rest & -> & Hread).
  transitivity (parse_words (new_ipt_rule ipv6) false (ch :: (os ≫= opt_words) ++ w :: rest)); [done|].
  rewrite plain_word by done.
  destruct ((os ≫= opt_words) ++ w :: rest) as [|w' rest'] eqn:E; [by destruct (os ≫= opt_words)|]. rewrite <- E.
  by rewrite parse_opts, Hrd by done.
Qed.
End reading.

(** ** What is expected of a state *)

Record ipt_pending_for (mask : Z) (r : IptPendingRule) (e : ExpectedNftRule) : Prop := mk_ipt_pending_for {
  ip_set : value_or (dst_set_name (ir_criteria r)) [] = en_set_name e;
  ip_ipv6 : ir_ipv6 r = en_ipv6 e;
  ip_mask : ir_fwmark_mask r = mask;
  ip_action : (ir_action r, ir_fwmark r) =
    match en_action_type e with
    | RuleActionType.Mark => (Action.Mark, en_fwmark e)
    | RuleActionType.Drop => (Action.Drop, 0)
    | _ => (Action.Pass, 0)
    end;
  ip_criteria : ir_criteria r = with_set (en_criteria e) (dst_set_name (ir_criteria r));
  ip_src_neg : negate_src_addr (en_criteria e) = true → some_addr (fc_src_addr (en_criteria e)) = true;
  ip_dst_neg : negate_dst_addr (en_criteria e) = true → some_addr (fc_dst_addr (en_criteria e)) = true;
  ip_selects : en_set_name e ≠ [] ∨ has_rule_selector (with_set (en_criteria e) None) = true;
}.

(** What the verifier needs of a state: a negation is of something, no address
    is empty, and a mark is there. *)
Record ipt_verifiable (rs : RuleState) : Prop := mk_ipt_verifiable {
  iv_src_port : negate_src_port (criteria rs) = true → some_port (fc_src_port (criteria rs)) = true;
  iv_dst_port : negate_dst_port (criteria rs) = true → some_port (fc_dst_port (criteria rs)) = true;
  iv_src_neg : negate_src_addr (criteria rs) = true → some_addr (fc_src_addr (criteria rs)) = true;
  iv_dst_neg : negate_dst_addr (criteria rs) = true → some_addr (fc_dst_addr (criteria rs)) = true;
  iv_src_addr : [] ∉ fc_src_addr (criteria rs);
  iv_dst_addr : [] ∉ fc_dst_addr (criteria rs);
  iv_no_set : dst_set_name (criteria rs) = None;
  iv_mark : action_type rs = RuleActionType.Mark → rs_fwmark rs ≠ 0;
}.

Definition ports_negated (c : FirewallRuleCriteria) : Prop :=
  (negate_src_port c = true → some_port (fc_src_port c) = true) ∧
  (negate_dst_port c = true → some_port (fc_dst_port c) = true).

Lemma addr_text_present l t : addr_text l t → has_value t = some_addr l.
Proof. destruct l as [|a [|b l]], t; cbn; done. Qed.
Lemma port_text_present {SS : StdSort} s t : port_text s t → has_value t = some_port s.
Proof. unfold port_text, some_port. destruct t as [[pl x]|]; [by intros [-> _]|by intros ->]. Qed.
Lemma addr_text_equal l t : addr_text l t → normalize_addr_list (option_list t) = normalize_addr_list l.
Proof. destruct l as [|a [|b l]], t as [a'|]; cbn; try done. by intros ->. Qed.

Lemma lists_rule_matches {SS : StdSort} chain line r e mask : lists_rule chain line r → ipt_pending_for mask r e → ports_negated (en_criteria e) →
  ∃ nr, parse_words (new_ipt_rule (ir_ipv6 r)) false (split_ws line) = Ok nr ∧
    ipt_rule_matches nr e mask = true ∧ ignored_ipt_rule nr = false.
Proof.
  intros Hl [Hset H6 Hmask Hact Hc Hsn Hdn Hsel] [Hps Hpd]. apply (lists_rule_read chain line r (ir_ipv6 r)) in Hl as (t & Ht & Hread).
  eexists. split; [exact Hread|]. clear Hread. destruct e as [n v6 act fw c].
  cbn [en_set_name en_ipv6 en_action_type en_fwmark en_criteria] in *. cbv zeta. rewrite H6.
  assert (Hts : value_or (t_set t) [] = n) by (by rewrite (tf_set _ _ Ht)).
  assert (Heq : ipt_criteria_equal (ipt_parsed_criteria (ir_criteria r) t) c = true).
  { destruct Ht as [_ Hsrc Hdst _ _ Hsp Hdp].
    unfold ipt_criteria_equal, ipt_parsed_criteria. cbn [fc_proto fc_dscp fc_src_port fc_dst_port fc_src_addr fc_dst_addr
      negate_src_port negate_dst_port negate_src_addr negate_dst_addr].
    rewrite (addr_text_equal _ _ Hsrc), (addr_text_equal _ _ Hdst), (addr_text_present _ _ Hsrc), (addr_text_present _ _ Hdst),
      (port_text_present _ _ Hsp), (port_text_present _ _ Hdp).
    rewrite Hc. cbn [with_set fc_proto fc_dscp fc_src_port fc_dst_port fc_src_addr fc_dst_addr
      negate_src_port negate_dst_port negate_src_addr negate_dst_addr].
    rewrite !(andb_implied _ _ Hps), !(andb_implied _ _ Hpd), !(andb_implied _ _ Hsn), !(andb_implied _ _ Hdn), !eqb_reflx.
    by rewrite !bool_decide_eq_true_2 by done. }
  set (rule := mk_ParsedIpt _ _ _ _ _ _ _ _ _). split.
  - unfold ipt_rule_matches, ipt_action_matches. cbn [en_set_name en_ipv6 en_action_type en_fwmark en_criteria].
    destruct act; apply pair_equal_spec in Hact as [-> Hf]; rewrite ?Hf, ?Hmask;
      cbn [pi_ipv6 pi_set_name pi_criteria pi_is_mark pi_is_drop pi_is_pass pi_fwmark xmark_mask with_ipt_xmark with_ipt_drop with_ipt_pass rule];
      rewrite Heq, Hts, ?Z.eqb_refl, eqb_reflx, bool_decide_eq_true_2 by done; done.
  - unfold ignored_ipt_rule. apply orb_false_iff. split; [by destruct (ir_action r)|].
    assert (Hx : ∀ nr, pi_set_name nr = n → pi_criteria nr = ipt_parsed_criteria (ir_criteria r) t →
      bool_decide (pi_set_name nr = []) && criteria_empty (pi_criteria nr) = false).
    { intros nr -> ->. apply andb_false_iff. destruct Hsel as [Hne|Hne]; [left; by apply bool_decide_eq_false_2|right].
      destruct Ht as [_ Hsrc Hdst _ _ Hsp Hdp]. apply addr_text_present in Hsrc, Hdst.
      revert Hne. unfold criteria_empty, ipt_parsed_criteria, has_rule_selector.
      cbn [fc_proto fc_dscp fc_src_port fc_dst_port fc_src_addr fc_dst_addr dst_set_name apply_output has_value negb orb andb with_set].
      rewrite Hc in Hsrc, Hdst |- *. cbn [with_set fc_dscp fc_proto fc_src_port fc_dst_port fc_src_addr fc_dst_addr] in *.
      assert (Hnil : ∀ o : option cstring, bool_decide (option_list o = []) = negb (has_value o)) by (by intros []).
      rewrite !Hnil, Hsrc, Hdst. unfold some_addr.
      destruct (fc_dscp c), (bool_decide (fc_proto c = L4Proto.Any)), (spec_empty (fc_src_port c)),
        (spec_empty (fc_dst_port c)), (bool_decide (fc_src_addr c = [])), (bool_decide (fc_dst_addr c = [])); done. }
    destruct (ir_action r); by apply Hx.
Qed.

Lemma Forall2_bind_same {A B C} (R : B → C → Prop) (f : A → list B) (g : A → list C) l :
  (∀ x, x ∈ l → Forall2 R (f x) (g x)) → Forall2 R (l ≫= f) (l ≫= g).
Proof.
  induction l as [|x l IH]; intros H; [constructor|]. rewrite !bind_cons. apply Forall2_app; [apply H; set_solver|].
  apply IH. set_solver.
Qed.

Definition ipt_call_rules (mask : Z) (created : gmap cstring Z) (call : call) : list IptPendingRule :=
  match call_rule call with Some (a, m, c) => ipt_rules_for mask created a m c | None => [] end.

Lemma expanded_elem addrs ipv6 s : [] ∉ addrs → s ∈ expanded addrs ipv6 → some_addr (addr_list s) = some_addr addrs.
Proof.
  intros Hne. unfold expanded, some_addr. case_bool_decide as He.
  - intros ->%list_elem_of_singleton. done.
  - intros Hs%filter_addrs_elem. unfold addr_list. rewrite (bool_decide_eq_false_2 (s = [])) by (by intros ->).
    by rewrite bool_decide_eq_false_2.
Qed.

Lemma ipt_family_expected mask rs ipv6 set : ipt_verifiable rs →
  value_or set [] ≠ [] ∨ set = None ∧ has_rule_selector (criteria rs) = true →
  Forall2 (ipt_pending_for mask)
    (ipt_rules_for_family mask ipv6 (pending_action rs).1 (pending_action rs).2 (with_set (criteria rs) set))
    (ipt_target_rules rs (value_or set [], ipv6)).
Proof.
  intros Hv Hsel. unfold ipt_rules_for_family, ipt_target_rules. cbn [fst snd]. set (c := criteria rs) in *.
  cbn [fc_src_addr fc_dst_addr with_set]. fold (expanded (fc_src_addr c) ipv6) (expanded (fc_dst_addr c) ipv6).
  destruct (_ && _ || _ && _); [constructor|]. apply Forall2_bind_same. intros pr _. apply Forall2_bind_same. intros s Hs.
  apply Forall2_bind_same. intros d Hd. constructor; [|constructor].
  apply expanded_elem in Hs, Hd; [|apply Hv..]. constructor; cbn [ir_criteria ir_ipv6 ir_action ir_fwmark ir_fwmark_mask with_addrs with_set
    dst_set_name en_set_name en_ipv6 en_action_type en_fwmark en_criteria negate_src_addr negate_dst_addr fc_src_addr fc_dst_addr]; try done.
  - unfold pending_action. by destruct (action_type rs).
  - rewrite Hs. apply Hv.
  - rewrite Hd. apply Hv.
  - destruct Hsel as [?|[-> Hsel]]; [by left|right]. revert Hsel. unfold has_rule_selector. fold c.
    cbn [dst_set_name fc_dscp fc_src_port fc_dst_port fc_src_addr fc_dst_addr with_addrs with_set].
    pose proof (iv_no_set _ Hv) as Hns. fold c in Hns. rewrite ?Hns. fold (some_addr (addr_list s)) (some_addr (addr_list d)). rewrite Hs, Hd. done.
Qed.

(** The families of the sets are known by their names. *)
Definition ipt_own_set (created : gmap cstring Z) (n : cstring) : Prop :=
  n ≠ [] ∧ ipt_ipv6_from_set_name n = Some (bool_decide (created !! n = Some AF_INET6)).

Lemma ipt_state_expected mask created rs : ipt_verifiable rs → Forall (ipt_own_set created) (set_names rs) →
  Forall2 (ipt_pending_for mask) (state_calls rs ≫= ipt_call_rules mask created) (ipt_expand_expected_rule_states [rs]).
Proof.
  intros Hv Hown. unfold ipt_expand_expected_rule_states. rewrite bind_one.
  case_bool_decide as Hskip; [by rewrite skip_calls; [constructor|]|].
  assert (Hcall : ∀ set, rule_call rs set ≫= ipt_call_rules mask created =
    ipt_rules_for mask created (pending_action rs).1 (pending_action rs).2 (with_set (criteria rs) set)).
  { intros set. pose proof (iv_mark _ Hv) as Hm. unfold rule_call, pending_action. destruct (action_type rs); try done;
      [rewrite (proj2 (Z.eqb_neq _ _) (Hm eq_refl))|..]; by rewrite bind_one. }
  unfold state_calls, ipt_state_targets. destruct (set_names rs) as [|n l] eqn:Esets.
  - assert (Hws : with_set (criteria rs) None = criteria rs).
    { pose proof (iv_no_set _ Hv) as Hd. destruct (criteria rs); cbn in Hd; by subst. }
    destruct (has_rule_selector (criteria rs)) eqn:Hsel; [|constructor]. rewrite Hcall. unfold ipt_rules_for. cbn [dst_set_name with_set].
    rewrite bind_cons, bind_one. apply Forall2_app; apply (ipt_family_expected mask rs _ None Hv); by right.
  - rewrite <- Esets in *. clear Esets n l. induction Hown as [|n l [Hne Hn] Hown IH]; [constructor|].
    rewrite fmap_cons, !bind_cons, bind_app, Hcall. apply Forall2_app; [|apply IH].
    unfold ipt_rules_for. cbn [dst_set_name with_set]. rewrite Hn. cbn [value_or].
    apply (ipt_family_expected mask rs _ (Some n) Hv). by left.
Qed.

(** ** The rules of a listing *)

Section listing.
Context {SS : StdSort}.

Lemma parse_target_ipv6 r a args : pi_ipv6 (parse_target r a args) = pi_ipv6 r.
Proof.
  unfold parse_target. repeat case_match; done.
Qed.

Lemma parse_words_ipv6 n : ∀ tokens r neg r', (length tokens ≤ n)%nat →
  parse_words r neg tokens = Ok r' → pi_ipv6 r' = pi_ipv6 r.
Proof.
  induction n as [|n IH]; intros tokens r neg r' Hn.
  { destruct tokens; [|cbn in Hn; lia]. by intros [= <-]. }
  destruct tokens as [|tok rest]; [by intros [= <-]|]. cbn in Hn. cbn [parse_words].
  destruct (bool_decide (tok = str "!")); [apply IH; lia|].
  destruct rest as [|value rest']; [by intros [= <-]|]. cbn in Hn.
  assert (Hgo : ∀ r0 b, pi_ipv6 r0 = pi_ipv6 r → parse_words r0 b rest' = Ok r' → pi_ipv6 r' = pi_ipv6 r).
  { intros r0 b Hr0 H. apply IH in H; [congruence|lia]. }
  destruct (bool_decide (tok = str "-m")); [by apply Hgo|].
  destruct (bool_decide (tok = str "--match-set")).
  { destruct rest' as [|x rest'']; [apply IH; cbn; lia|]. cbn in Hn. intros H. apply IH in H; [done|lia]. }
  destruct (bool_decide (tok = str "-s")); [by apply Hgo|].
  destruct (bool_decide (tok = str "-d")); [by apply Hgo|].
  destruct (bool_decide (tok = str "-p")); [by apply Hgo|].
  destruct (is_one_of tok "--sport" "--sports"); [intros (p & _ & H)%exc_bind_Ok; eapply Hgo; [|exact H]; done|].
  destruct (is_one_of tok "--dport" "--dports"); [intros (p & _ & H)%exc_bind_Ok; eapply Hgo; [|exact H]; done|].
  destruct (bool_decide (tok = str "--dscp")).
  { apply Hgo. destruct (parse_u32 value) as [d|]; [|done]. by destruct (d <=? 63). }
  destruct (bool_decide (tok = str "-j")); [intros [= <-]; apply parse_target_ipv6|]. apply IH. cbn. lia.
Qed.

(** The rule a line is read as *)
Definition line_rule (chain : cstring) (ipv6 : bool) (line : cstring) : option ParsedIptablesRule :=
  if bool_decide (line = "-N " ++ chain) || bool_decide (line = "-A PREROUTING -j " ++ chain) || negb (is_chain_rule chain line)
  then None
  else match parse_words (new_ipt_rule ipv6) false (split_ws line) with
       | Ok r => if ignored_ipt_rule r then None else Some r
       | _ => None
       end.

Lemma parse_ipt_lines_rules chain ipv6 lines st st' : parse_ipt_lines chain ipv6 st lines = Ok st' →
  ipt_rules st' = ipt_rules st ++ omap (line_rule chain ipv6) lines.
Proof.
  revert st. induction lines as [|line lines IH]; intros st; [intros [= <-]; by rewrite app_nil_r|].
  cbn [parse_ipt_lines]. intros (st1 & H1 & ->%IH)%exc_bind_Ok.
  assert (Hx : ipt_rules st1 = ipt_rules st ++ option_list (line_rule chain ipv6 line)).
  { unfold parse_ipt_line in H1. unfold line_rule.
    destruct (bool_decide (line = "-N " ++ chain)); [injection H1 as <-; by rewrite app_nil_r|].
    destruct (bool_decide (line = "-A PREROUTING -j " ++ chain)); [injection H1 as <-; by rewrite app_nil_r|]. cbn [orb].
    destruct (negb (is_chain_rule chain line)); [injection H1 as <-; by rewrite app_nil_r|].
    apply exc_bind_Ok in H1 as (rule & -> & [= <-]). destruct (ignored_ipt_rule rule); [by rewrite app_nil_r|done]. }
  rewrite Hx, <- app_assoc. cbn. by destruct (line_rule chain ipv6 line).
Qed.

Lemma line_rules_ipv6 chain ipv6 lines : Forall (λ r, pi_ipv6 r = ipv6) (omap (line_rule chain ipv6) lines).
Proof.
  induction lines as [|line lines IH]; cbn; [constructor|]. destruct (line_rule chain ipv6 line) as [r|] eqn:E; [|done].
  constructor; [|done]. unfold line_rule in E. destruct (_ || _); [done|].
  destruct (parse_words _ _ _) as [r0| |] eqn:Ep; [|done..]. destruct (ignored_ipt_rule r0); [done|]. injection E as <-.
  by apply (parse_words_ipv6 _ _ _ _ _ (le_n _)) in Ep.
Qed.

(** A listing has, in their order, lines for the rules of its family. *)
Definition lists_family (chain : cstring) (ipv6 : bool) (output : cstring) (rules : list IptPendingRule) : Prop :=
  covers (lists_rule chain) (getline_all (chr 10) output) (List.filter (λ r, Bool.eqb (ir_ipv6 r) ipv6) rules).

Lemma listing_covers mask chain ipv6 output rules exps st :
  Forall2 (ipt_pending_for mask) rules exps → Forall (λ e, ports_negated (en_criteria e)) exps →
  lists_family chain ipv6 output rules → parse_iptables_s_for_family output ipv6 chain = Ok st →
  covers (λ actual exp, ipt_rule_matches actual exp mask = true) (ipt_rules st)
    (List.filter (λ e, Bool.eqb (en_ipv6 e) ipv6) exps) ∧ Forall (λ r, pi_ipv6 r = ipv6) (ipt_rules st).
Proof.
  intros HR Hn Hl Hp. apply parse_ipt_lines_rules in Hp. rewrite Hp. cbn [ipt_rules app]. split; [|apply line_rules_ipv6].
  unfold lists_family in Hl.
  assert (HR' : Forall2 (λ r e, ipt_pending_for mask r e ∧ ports_negated (en_criteria e) ∧ ir_ipv6 r = ipv6)
    (List.filter (λ r, Bool.eqb (ir_ipv6 r) ipv6) rules) (List.filter (λ e, Bool.eqb (en_ipv6 e) ipv6) exps)).
  { clear Hl Hp. induction HR as [|r e rules exps Hre _ IH]; [constructor|]. apply Forall_cons in Hn as [He Hn].
    cbn [List.filter]. rewrite (ip_ipv6 _ _ _ Hre). destruct (Bool.eqb (en_ipv6 e) ipv6) eqn:E; [|by apply IH].
    constructor; [|by apply IH]. split; [done|]. split; [done|]. rewrite (ip_ipv6 _ _ _ Hre). by apply eqb_prop. }
  set (R := λ line e, ∃ r, lists_rule chain line r ∧ ipt_pending_for mask r e ∧ ports_negated (en_criteria e) ∧ ir_ipv6 r = ipv6).
  apply (covers_omap R).
  - intros line e (r & Hlr & Hpe & Hne & H6). destruct (lists_rule_matches chain line r e mask Hlr Hpe Hne) as (nr & Hread & Hm & Hi).
    exists nr. split; [|done]. destruct Hlr as (Hch & H1 & H2 & _). unfold line_rule.
    rewrite Hch, (bool_decide_eq_false_2 (line = "-N " ++ chain)), (bool_decide_eq_false_2 (line = "-A PREROUTING -j " ++ chain)) by done.
    cbn [orb negb]. rewrite <- H6, Hread, Hi. done.
  - by apply covers_compose with (m := List.filter (λ r, Bool.eqb (ir_ipv6 r) ipv6) rules).
Qed.
End listing.

(** ** The verdict *)

Lemma expected_negated rs e : ipt_verifiable rs → e ∈ ipt_expand_expected_rule_states [rs] → ports_negated (en_criteria e).
Proof.
  intros [Hs Hd _ _ _ _ _ _]. unfold ipt_expand_expected_rule_states. rewrite bind_one. case_bool_decide; [by intros []%elem_of_nil|].
  intros (tg & Hx & _)%list_elem_of_bind. revert Hx. unfold ipt_target_rules. case_match; [by intros []%elem_of_nil|].
  intros (pr & Hx & _)%list_elem_of_bind. apply list_elem_of_bind in Hx as (a & Hx & _). apply list_elem_of_bind in Hx as (d & Hx & _).
  apply list_elem_of_singleton in Hx as ->. split; [exact Hs|exact Hd].
Qed.

Definition ipt_queued_rules (mask : Z) (created : gmap cstring Z) (states : list RuleState) : list IptPendingRule :=
  (states ≫= state_calls) ≫= ipt_call_rules mask created.

Lemma expand_expected_bind states :
  ipt_expand_expected_rule_states states = states ≫= λ rs, ipt_expand_expected_rule_states [rs].
Proof. unfold ipt_expand_expected_rule_states. apply list_bind_ext; [|done]. intros rs. by rewrite bind_one. Qed.

Lemma ipt_states_expected mask created states :
  Forall (λ rs, action_type rs ≠ RuleActionType.Skip → ipt_verifiable rs ∧ Forall (ipt_own_set created) (set_names rs)) states →
  Forall2 (ipt_pending_for mask) (ipt_queued_rules mask created states) (ipt_expand_expected_rule_states states) ∧
  Forall (λ e, ports_negated (en_criteria e)) (ipt_expand_expected_rule_states states).
Proof.
  intros Hv. unfold ipt_queued_rules. rewrite expand_expected_bind.
  induction Hv as [|rs states Hrs _ [IH1 IH2]]; [split; constructor|]. rewrite !bind_cons, bind_app.
  destruct (decide (action_type rs = RuleActionType.Skip)) as [Hskip|Hns].
  - assert (He : ipt_expand_expected_rule_states [rs] = []).
    { unfold ipt_expand_expected_rule_states. by rewrite bind_one, bool_decide_eq_true_2. }
    rewrite He, skip_calls by done. done.
  - destruct (Hrs Hns) as [Hver Hown]. split.
    + apply Forall2_app; [by apply ipt_state_expected|done].
    + apply Forall_app. split; [|done]. apply Forall_forall. intros e He. by apply expected_negated with rs.
Qed.

Lemma ipt_verify_expected_length raw mask rules used expected :
  length (ipt_verify_expected raw mask rules used expected) = length expected.
Proof. revert used. induction expected as [|e l IH]; intros used; [done|]. cbn [ipt_verify_expected length]. by rewrite IH. Qed.

Section verdict.
Context {SS : StdSort}.

(** C22. The iptables verifier agrees with the backend: when the listings of both
    families have, among their lines and in their order, one for each rule that
    the calls for the states queue, with its options in any order and with the
    modules that [iptables] names, the check of every expected rule is [ok]. *)
Theorem ipt_verifier_accepts_the_rules v states created out4 out6 chain4 chain6 st4 st6 :
  let rules := ipt_queued_rules (expected_fwmark_mask_ v) created states in
  Forall (λ rs, action_type rs ≠ RuleActionType.Skip → ipt_verifiable rs ∧ Forall (ipt_own_set created) (set_names rs)) states →
  lists_family chain4 false out4 rules → lists_family chain6 true out6 rules →
  parse_iptables_s_for_family out4 false chain4 = Ok st4 → parse_iptables_s_for_family out6 true chain6 = Ok st6 →
  ipt_cached_state_ v = Some (mk_IptCached st4 st6) →
  ∃ checks, ipt_verify_rules states v = (Ok checks, v) ∧
    length checks = length (ipt_expand_expected_rule_states states) ∧
    Forall (λ c, ck_status c = CheckStatus.ok ∧ ck_detail c = str "ok") checks.
Proof.
  intros rules Hv Hl4 Hl6 Hp4 Hp6 Hc. destruct (ipt_states_expected (expected_fwmark_mask_ v) created states Hv) as [HR Hn].
  destruct (listing_covers _ _ _ _ _ _ _ HR Hn Hl4 Hp4) as [Hc4 Hf4]. destruct (listing_covers _ _ _ _ _ _ _ HR Hn Hl6 Hp6) as [Hc6 Hf6].
  exists (ipt_verify_expected (verify_raw_prerouting_ v) (expected_fwmark_mask_ v) (ipt_rules st4 ++ ipt_rules st6) (λ _, false)
    (ipt_expand_expected_rule_states states)). split; [|split].
  - unfold ipt_verify_rules, ipt_get_state, mbind, stexc_bind. by rewrite Hc.
  - apply ipt_verify_expected_length.
  - apply (ipt_verify_expected_ok _ _ _ _ _ Hf4 Hf6 (λ _, false) 0 0); [done|done| |]; rewrite drop_0.
    + rewrite (List.filter_ext (λ e, negb (en_ipv6 e)) (λ e, Bool.eqb (en_ipv6 e) false)); [exact Hc4|]. intros e. by destruct (en_ipv6 e).
    + rewrite (List.filter_ext (λ e, en_ipv6 e) (λ e, Bool.eqb (en_ipv6 e) true)); [exact Hc6|]. intros e. by destruct (en_ipv6 e).
Qed.
End verdict.

(** ** The lines of the backend *)

Definition word (w : cstring) : Prop := w ≠ [] ∧ no_space w = true.
Definition spaced (ws : list cstring) : cstring := ws ≫= λ w, " "%char :: w.

Lemma spaced_app l1 l2 : spaced (l1 ++ l2) = spaced l1 ++ spaced l2.
Proof. apply bind_app. Qed.

Lemma split_ws_word cur w s : no_space w = true → split_ws_loop cur (w ++ s) = split_ws_loop (cur ++ w) s.
Proof.
  revert cur. induction w as [|c w IH]; intros cur; [by rewrite app_nil_r|].
  cbn. intros [Hc%negb_true_iff Hw]%andb_true_iff. rewrite Hc, IH by done. by rewrite <- app_assoc.
Qed.

Lemma split_ws_spaced cur ws : cur ≠ [] → Forall word ws → split_ws_loop cur (spaced ws) = cur :: ws.
Proof.
  intros Hc Hws. revert cur Hc. induction Hws as [|w ws [Hne Hw] _ IH]; intros cur Hc; cbn.
  - by rewrite bool_decide_eq_false_2.
  - rewrite bool_decide_eq_false_2 by done. cbn [app]. f_equal. fold (spaced ws). rewrite split_ws_word by done.
    cbn [app]. by apply IH.
Qed.

Lemma hex_digit_spec d : 0 ≤ d < 16 → isxdigit (hex_digit_char d) = true ∧ xdigit_val (hex_digit_char d) = d.
Proof.
  intros Hd. assert (H : d ∈ seqZ 0 16) by (apply elem_of_seqZ; lia).
  assert (HF : forallb (λ d, isxdigit (hex_digit_char d) && (xdigit_val (hex_digit_char d) =? d)) (seqZ 0 16) = true)
    by (vm_compute; reflexivity).
  rewrite forallb_elem in HF. specialize (HF d H). apply andb_true_iff in HF as [H1 H2%Z.eqb_eq]. done.
Qed.

Lemma hex_value_app v s t : hex_value v (s ++ t) = hex_value (hex_value v s) t.
Proof. apply foldl_app. Qed.

Lemma hex_digits_spec fuel n acc : 0 ≤ n < 2 ^ Z.of_nat fuel → (0 < fuel)%nat →
  ∃ ds, hex_digits fuel n acc = ds ++ acc ∧ ds ≠ [] ∧ forallb isxdigit ds = true ∧
    ∀ v, hex_value v ds = v * 16 ^ Z.of_nat (length ds) + n.
Proof.
  revert n acc. induction fuel as [|fuel IH]; intros n acc Hn Hf; [lia|]. cbn [hex_digits].
  destruct (hex_digit_spec (n mod 16)) as [Hd Hv]; [zlia|].
  destruct (Z.ltb_spec n 16) as [Hlt|Hge].
  - exists [hex_digit_char (n mod 16)]. repeat split; [done|cbn; by rewrite Hd|].
    intros v. cbn. rewrite Hv, Z.mod_small by lia. lia.
  - destruct (IH (n / 16) (hex_digit_char (n mod 16) :: acc)) as (ds & E & Hne & Hds & Hval).
    { rewrite Nat2Z.inj_succ, Z.pow_succ_r in Hn by lia. zlia. }
    { destruct fuel; [cbn in Hn; lia|lia]. }
    exists (ds ++ [hex_digit_char (n mod 16)]). rewrite E, <- app_assoc. repeat split.
    + by destruct ds.
    + rewrite forallb_app, Hds. cbn. by rewrite Hd.
    + intros v. rewrite hex_value_app, Hval. cbn. rewrite Hv, length_app. cbn.
      rewrite Nat2Z.inj_add, Z.pow_add_r by lia. pose proof (Z.div_mod n 16). lia.
Qed.

Lemma to_hex_spec n : 0 ≤ n → to_hex n ≠ [] ∧ forallb isxdigit (to_hex n) = true ∧ hex_value 0 (to_hex n) = n.
Proof.
  intros Hn. unfold to_hex. destruct (hex_digits_spec (S (Z.to_nat (Z.log2 n))) n []) as (ds & -> & Hne & Hd & Hv).
  - split; [done|]. rewrite Nat2Z.inj_succ, Z2Nat.id by apply Z.log2_nonneg.
    destruct (decide (n = 0)) as [->|]; [cbn; lia|]. apply Z.log2_spec; lia.
  - lia.
  - rewrite app_nil_r. split; [done|]. split; [done|]. rewrite Hv. lia.
Qed.

Lemma parse_u32_hex n : 0 ≤ n < 2 ^ 32 → parse_u32 (hex n) = Some n.
Proof.
  intros Hn. destruct (to_hex_spec n) as (Hne & Hd & Hv); [lia|]. unfold parse_u32, hex.
  destruct (to_hex n) as [|c t] eqn:E; [done|].
  assert (Hs : stoul_digits ("0x" ++ c :: t) = Some n).
  { cbn -[hex_value take_while]. apply andb_true_iff in Hd as Hd'. destruct Hd' as [Hc _]. rewrite Hc.
    by rewrite take_while_all, Hv by done. }
  change (drop_while isspace ("0x" ++ c :: t)) with (str "0x" ++ c :: t).
  transitivity (u32 <$> (stoul_digits ("0x" ++ c :: t) ≫= λ v, if v <=? ULONG_MAX then Some v else None)); [done|].
  rewrite Hs. cbn -[ULONG_MAX Z.leb u32]. rewrite (proj2 (Z.leb_le n ULONG_MAX)) by (unfold ULONG_MAX; lia).
  cbn. unfold u32, wrap. by rewrite Z.mod_small.
Qed.

Lemma parse_u32_dscp d : 0 ≤ d ≤ 63 → parse_u32 (to_string d) = Some d.
Proof.
  intros Hd. assert (HF : forallb (λ d, bool_decide (parse_u32 (to_string d) = Some d)) (seqZ 0 64) = true)
    by (vm_compute; reflexivity).
  rewrite forallb_elem in HF. specialize (HF d). rewrite elem_of_seqZ in HF. apply (bool_decide_eq_true_1 _), HF. lia.
Qed.

Lemma no_space_xdigits s : forallb isxdigit s = true → no_space s = true.
Proof.
  unfold no_space. rewrite !forallb_elem. intros H c Hc. specialize (H c Hc). revert H.
  unfold isxdigit, isdigit, isspace, CppString.in_range. intros H. breflect. lia.
Qed.
Lemma no_space_digits s : forallb isdigit s = true → no_space s = true.
Proof.
  unfold no_space. rewrite !forallb_elem. intros H c Hc. specialize (H c Hc). revert H.
  unfold isdigit, isspace, CppString.in_range. intros H. breflect. lia.
Qed.
Lemma word_to_string n : 0 ≤ n → word (to_string n).
Proof. intros Hn. destruct (to_string_spec n Hn) as (Hne & Hd & _). split; [done|by apply no_space_digits]. Qed.
Lemma word_hex n : 0 ≤ n → word (hex n).
Proof.
  intros Hn. destruct (to_hex_spec n Hn) as (_ & Hd & _). split; [done|]. unfold hex. apply no_space_app.
  split; [done|by apply no_space_xdigits].
Qed.

Lemma word_ports spec : spec_ok spec → spec_empty spec = false → word (to_iptables_string spec).
Proof.
  intros [Hv _] Hne. unfold to_iptables_string, ranges_to_string.
  assert (H : Forall word (ranges_to_strings (ranges spec) ":")).
  { clear Hne. induction Hv as [|r l [Hf Ht] _ IH]; [constructor|]. cbn [ranges_to_strings]. constructor; [|done].
    destruct (word_to_string (PortSpec.pr_from r)) as [H1 H2]; [lia|]. destruct (word_to_string (pr_to r)) as [_ H3]; [lia|].
    destruct (_ =? _); [done|]. split; [by destruct (to_string (PortSpec.pr_from r))|]. apply no_space_app. split; [done|].
    done. }
  destruct (ranges_to_strings (ranges spec) ":") as [|x l] eqn:E.
  { destruct (ranges spec) eqn:Er; [|done]. unfold spec_empty in Hne. rewrite Er in Hne. done. }
  split.
  - apply join_ne; [done|]. eapply Forall_impl; [exact H|]. by intros w [? _].
  - clear E Hne. assert (Hj : ∀ l, Forall word l → no_space (join "," l) = true); [|by apply Hj].
    intros l'. induction l' as [|y [|z l'] IH]; [done|..]; intros [[_ Hy] Hl]%Forall_cons; [done|].
    cbn [join]. apply no_space_app. split; [done|]. apply no_space_app. split; [done|by apply IH].
Qed.

(** What makes the line of a rule well formed *)
Record printable (r : IptPendingRule) : Prop := mk_printable {
  pb_set : ∀ n, dst_set_name (ir_criteria r) = Some n → word n;
  pb_src : (length (fc_src_addr (ir_criteria r)) ≤ 1)%nat ∧ Forall word (fc_src_addr (ir_criteria r));
  pb_dst : (length (fc_dst_addr (ir_criteria r)) ≤ 1)%nat ∧ Forall word (fc_dst_addr (ir_criteria r));
  pb_dscp : ∀ d, fc_dscp (ir_criteria r) = Some d → 0 ≤ d ≤ 63;
  pb_sport : spec_ok (fc_src_port (ir_criteria r));
  pb_dport : spec_ok (fc_dst_port (ir_criteria r));
  pb_proto : fc_proto (ir_criteria r) ≠ L4Proto.TcpUdp;
  pb_mark : 0 ≤ ir_fwmark r < 2 ^ 32 ∧ 0 ≤ ir_fwmark_mask r < 2 ^ 32;
}.

Definition built_ports (spec : PortSpec) : option (bool * cstring) :=
  if spec_empty spec then None else Some (bool_decide (kind spec = PortSpecKind.List), to_iptables_string spec).
Definition built_texts (c : FirewallRuleCriteria) : rule_texts :=
  mk_texts (dst_set_name c) (head (fc_src_addr c)) (head (fc_dst_addr c)) (to_string <$> fc_dscp c)
    (if bool_decide (fc_proto c = L4Proto.Any) then None else Some (fc_proto c))
    (built_ports (fc_src_port c)) (built_ports (fc_dst_port c)).

Lemma built_texts_for {SS : StdSort} r : printable r → texts_for (ir_criteria r) (built_texts (ir_criteria r)).
Proof.
  intros [_ [Hs _] [Hd _] Hdscp Hsp Hdp Hp _]. set (c := ir_criteria r) in *.
  assert (Haddr : ∀ l : list cstring, (length l ≤ 1)%nat → addr_text l (head l)) by (intros [|a [|b l]]; cbn; done || lia).
  assert (Hport : ∀ spec, spec_ok spec → port_text spec (built_ports spec)).
  { intros spec [Hv Ho]. unfold port_text, built_ports. destruct (spec_empty spec) eqn:E.
    - destruct spec as [l]. unfold spec_empty in E. cbn in E. apply bool_decide_eq_true in E. by subst l.
    - split; [done|]. apply ranges_to_string_parse; auto. }
  constructor; cbn [built_texts t_set t_src t_dst t_dscp t_proto t_sport t_dport]; [done|by apply Haddr|by apply Haddr| | |by apply Hport|by apply Hport].
  - destruct (fc_dscp c) as [d|] eqn:E; cbn [fmap option_fmap option_map]; [|done].
    pose proof (Hdscp d eq_refl) as Hr. rewrite parse_u32_dscp by done. split; [done|]. exists d. split; [done|lia].
  - destruct (fc_proto c); [done| | |done]; (split; [done|]); [by left|by right].
Qed.

Lemma perm_base {A} (b rest rb re : list A) : rest ≡ₚ rb ++ re → b ++ rest ≡ₚ (b ++ rb) ++ re.
Proof. intros ->. by rewrite app_assoc. Qed.
Lemma perm_extra {A} (e rest rb re : list A) : rest ≡ₚ rb ++ re → e ++ rest ≡ₚ rb ++ (e ++ re).
Proof. intros ->. by rewrite !app_assoc, (Permutation_app_comm e). Qed.

(** The options in the order of the backend, with the modules it names *)
Definition module_for (b : bool) (m : cstring) : list opt := if b then [OModule m] else [].
Definition many_ports (o : option (bool * cstring)) : bool := match o with Some (b, _) => b | None => false end.
Definition iface_opts (iface : option cstring) : list opt := option_list (OIface false <$> iface).
Definition built_opts (c : FirewallRuleCriteria) (iface : option cstring) : list opt :=
  let t := built_texts c in
  module_for (has_value (t_set t)) "set" ++ option_list (OSet <$> t_set t) ++ iface_opts iface ++
  option_list (OSrc (negate_src_addr c) <$> t_src t) ++ option_list (ODst (negate_dst_addr c) <$> t_dst t) ++
  module_for (has_value (t_dscp t)) "dscp" ++ option_list (ODscp <$> t_dscp t) ++ option_list (OProto <$> t_proto t) ++
  module_for (many_ports (t_sport t)) "multiport" ++
  option_list ((λ x, OSport (negate_src_port c) x.1 x.2) <$> t_sport t) ++
  module_for (many_ports (t_dport t)) "multiport" ++
  option_list ((λ x, ODport (negate_dst_port c) x.1 x.2) <$> t_dport t).

Lemma built_printed {SS : StdSort} r iface : printable r → (∀ i, iface = Some i → plain i) →
  printed (ir_criteria r) (built_opts (ir_criteria r) iface).
Proof.
  intros Hr Hi. set (c := ir_criteria r). set (t := built_texts c).
  exists t, (module_for (has_value (t_set t)) "set" ++ iface_opts iface ++ module_for (has_value (t_dscp t)) "dscp" ++
    module_for (many_ports (t_sport t)) "multiport" ++ module_for (many_ports (t_dport t)) "multiport" ++ []).
  split; [by apply built_texts_for|]. split.
  - unfold built_opts, base_opts. fold t.
    apply perm_extra, perm_base, perm_extra, perm_base, perm_base, perm_extra, perm_base, perm_base, perm_extra, perm_base, perm_extra.
    by rewrite app_nil_r.
  - assert (Hm : ∀ b m, Forall neutral (module_for b m)) by (intros [] m; cbn; [by apply Forall_singleton|done]).
    repeat (apply Forall_app; split; [apply Hm || idtac|]); try apply Hm; try done.
    destruct iface as [i|]; [|done]. apply Forall_singleton. split; [done|]. by apply Hi.
Qed.

(** The text of the fragments *)
Definition port_opts (spec : PortSpec) (mk : bool → cstring → opt) : list opt :=
  module_for (many_ports (built_ports spec)) "multiport" ++ option_list ((λ x, mk x.1 x.2) <$> built_ports spec).

Lemma spaced_ports spec neg (dst : bool) :
  spaced (port_opts spec (if dst then ODport neg else OSport neg) ≫= opt_words) =
  port_fragment spec neg (if dst then " --dports " else " --sports ") (if dst then " --dport " else " --sport ").
Proof.
  unfold port_opts, port_fragment, built_ports. destruct (spec_empty spec); [done|].
  generalize (to_iptables_string spec) as t. intros t. destruct (bool_decide (kind spec = PortSpecKind.List)), dst, neg; cbn; by rewrite app_nil_r.
Qed.

Definition iface_text (iface : option cstring) : cstring := match iface with None => [] | Some i => " -i " ++ i end.

Lemma built_words c iface :
  spaced (built_opts c iface ≫= opt_words) =
  match dst_set_name c with None => [] | Some n => " -m set --match-set " ++ n ++ " dst" end ++
  iface_text iface ++
  match fc_src_addr c with [] => [] | a :: _ => bang (negate_src_addr c) ++ " -s " ++ a end ++
  match fc_dst_addr c with [] => [] | a :: _ => bang (negate_dst_addr c) ++ " -d " ++ a end ++
  match fc_dscp c with Some d => " -m dscp --dscp " ++ to_string d | None => [] end ++
  build_proto_port_fragment (fc_proto c) (fc_src_port c) (fc_dst_port c) (negate_src_port c) (negate_dst_port c).
Proof.
  unfold built_opts. cbn [built_texts t_set t_src t_dst t_dscp t_proto t_sport t_dport].
  rewrite !bind_app, !spaced_app.
  assert (Hpp : build_proto_port_fragment (fc_proto c) (fc_src_port c) (fc_dst_port c) (negate_src_port c) (negate_dst_port c) =
    (if bool_decide (fc_proto c = L4Proto.Any) then [] else " -p " ++ l4_proto_name (fc_proto c)) ++
    port_fragment (fc_src_port c) (negate_src_port c) " --sports " " --sport " ++
    port_fragment (fc_dst_port c) (negate_dst_port c) " --dports " " --dport ").
  { unfold build_proto_port_fragment, port_fragment. destruct (bool_decide (fc_proto c = L4Proto.Any)), (spec_empty (fc_src_port c)), (spec_empty (fc_dst_port c)); done. }
  rewrite Hpp. rewrite <- (spaced_ports _ _ false), <- (spaced_ports _ _ true). unfold port_opts.
  rewrite !bind_app, !spaced_app, <- !app_assoc.
  assert (Hset : ∀ o rest, spaced (module_for (has_value o) "set" ≫= opt_words) ++ spaced (option_list (OSet <$> o) ≫= opt_words) ++ rest =
    match o with None => [] | Some n => " -m set --match-set " ++ n ++ " dst" end ++ rest).
  { intros [n|] rest; [|done]. cbn. by rewrite <- !app_assoc. }
  assert (Hsrc : ∀ neg l rest, spaced (option_list (OSrc neg <$> head l) ≫= opt_words) ++ rest =
    match l with [] => [] | a :: _ => bang neg ++ " -s " ++ a end ++ rest).
  { intros [] [|a l] rest; [done| |done|]; cbn; by rewrite app_nil_r. }
  assert (Hdst : ∀ neg l rest, spaced (option_list (ODst neg <$> head l) ≫= opt_words) ++ rest =
    match l with [] => [] | a :: _ => bang neg ++ " -d " ++ a end ++ rest).
  { intros [] [|a l] rest; [done| |done|]; cbn; by rewrite app_nil_r. }
  assert (Hdscp : ∀ o rest, spaced (module_for (has_value (to_string <$> o)) "dscp" ≫= opt_words) ++
    spaced (option_list (ODscp <$> (to_string <$> o)) ≫= opt_words) ++ rest =
    match o with Some d => " -m dscp --dscp " ++ to_string d | None => [] end ++ rest).
  { intros [d|] rest; [|done]. cbn -[to_string]. by rewrite app_nil_r. }
  rewrite Hset, Hsrc, Hdst, Hdscp. do 5 (try (f_equal; [])). do 5 f_equal.
  - destruct iface as [i|]; [|done]. cbn. by rewrite app_nil_r.
  - destruct (bool_decide (fc_proto c = L4Proto.Any)); [done|]. cbn -[l4_proto_name]. by rewrite app_nil_r.
Qed.

Definition target_text (r : IptPendingRule) : list cstring :=
  match ir_action r with
  | Action.Mark => [str "-j"; str "MARK"; str "--set-xmark"; hex (ir_fwmark r) ++ "/" ++ hex (ir_fwmark_mask r)]
  | Action.Drop => [str "-j"; str "DROP"]
  | Action.Pass => [str "-j"; str "RETURN"]
  end.

(** The chain that the rule is added to *)
Definition rule_chain (r : IptPendingRule) (chain : cstring) : cstring :=
  match ir_action r, dst_set_name (ir_criteria r) with
  | Action.Drop, Some _ | Action.Pass, Some _ => IPT_CHAIN_NAME
  | _, _ => chain
  end.
Definition rule_words (r : IptPendingRule) (chain : cstring) (iface : option cstring) (target : list cstring) : list cstring :=
  rule_chain r chain :: (built_opts (ir_criteria r) iface ≫= opt_words) ++ target.

Definition pp_of (c : FirewallRuleCriteria) : cstring :=
  build_proto_port_fragment (fc_proto c) (fc_src_port c) (fc_dst_port c) (negate_src_port c) (negate_dst_port c).

Lemma rule_line_text r chain iface target :
  "-A" ++ spaced (rule_words r chain iface target) =
  match dst_set_name (ir_criteria r) with
  | None => "-A " ++ rule_chain r chain
  | Some n => "-A " ++ rule_chain r chain ++ " -m set --match-set " ++ n ++ " dst" end ++
  (iface_text iface ++
   (match fc_src_addr (ir_criteria r) with [] => [] | a :: _ => bang (negate_src_addr (ir_criteria r)) ++ " -s " ++ a end ++
    match fc_dst_addr (ir_criteria r) with [] => [] | a :: _ => bang (negate_dst_addr (ir_criteria r)) ++ " -d " ++ a end) ++
   match fc_dscp (ir_criteria r) with Some d => " -m dscp --dscp " ++ to_string d | None => [] end ++ pp_of (ir_criteria r)) ++
  spaced target.
Proof.
  unfold rule_words. change (spaced (?w :: ?l)) with (" "%char :: w ++ spaced l). rewrite spaced_app, built_words.
  destruct (dst_set_name (ir_criteria r)); cbn [app]; unfold pp_of; rewrite <- ?app_assoc; done.
Qed.

Definition nl_free (s : cstring) : Prop := chr 10 ∉ s.
Definition a_line (l body : cstring) : Prop := l = body ++ endl ∧ nl_free body.

Lemma getline_lines cur lines bodies rest : Forall2 a_line lines bodies → cur = [] →
  getline_loop (chr 10) cur (mjoin lines ++ rest) = bodies ++ getline_loop (chr 10) [] rest.
Proof.
  intros H ->. induction H as [|l body lines bodies [-> Hf] _ IH]; [done|]. cbn [mjoin list_join app]. rewrite <- !app_assoc.
  cbn [app]. f_equal.
  assert (Hb : ∀ cur s, nl_free s → getline_loop (chr 10) cur (s ++ endl ++ mjoin lines ++ rest) =
    (cur ++ s) :: getline_loop (chr 10) [] (mjoin lines ++ rest)).
  { intros cur s. revert cur. induction s as [|c s IHs]; intros cur Hs; cbn [app getline_loop].
    - cbn [endl getline_loop app]. by rewrite app_nil_r, (proj2 (ascii_eqb_eq _ _)).
    - apply not_elem_of_cons in Hs as [Hc Hs]. rewrite (proj2 (ascii_eqb_neq c (chr 10))) by done.
      rewrite IHs by done. by rewrite <- app_assoc. }
  rewrite Hb by done. by rewrite IH.
Qed.

Lemma word_nl w : word w → nl_free w.
Proof.
  intros [_ Hw] Hin. unfold no_space in Hw. rewrite forallb_elem in Hw. specialize (Hw _ Hin). by vm_compute in Hw.
Qed.
Lemma spaced_nl ws : Forall word ws → nl_free (spaced ws).
Proof.
  unfold nl_free. induction 1 as [|w ws Hw _ IH]; [apply not_elem_of_nil|]. cbn. apply not_elem_of_cons. split; [done|].
  apply not_elem_of_app. split; [by apply word_nl|done].
Qed.

Ltac words := repeat (apply Forall_cons; split); try apply Forall_nil_2; try done.

Lemma words_option_list {A} (f : A → opt) (o : option A) : (∀ x, o = Some x → Forall word (opt_words (f x))) →
  Forall word (option_list (f <$> o) ≫= opt_words).
Proof. intros H. destruct o as [x|]; [|done]. cbn. rewrite app_nil_r. by apply H. Qed.
Lemma words_module b m : word m → Forall word (module_for b m ≫= opt_words).
Proof. intros Hm. destruct b; [|done]. cbn. by words. Qed.
Lemma word_bang neg l : Forall word l → Forall word (bang_word neg ++ l).
Proof. intros H. destruct neg; [|done]. by words. Qed.

Lemma opts_words r iface : printable r → (∀ i, iface = Some i → word i) →
  Forall word (built_opts (ir_criteria r) iface ≫= opt_words).
Proof.
  intros [Hset [_ Hsrc] [_ Hdst] Hdscp Hsp Hdp Hp _] Hi. set (c := ir_criteria r) in *. unfold built_opts.
  cbn [built_texts t_set t_src t_dst t_dscp t_proto t_sport t_dport].
  assert (Hhead : ∀ (l : list cstring) a, Forall word l → head l = Some a → word a).
  { intros [|b l] a Hl; [done|]. intros [= <-]. by apply Forall_cons in Hl as [? _]. }
  assert (Hport : ∀ spec x, spec_ok spec → built_ports spec = Some x → word x.2).
  { intros spec x Hs. unfold built_ports. destruct (spec_empty spec) eqn:E; [done|]. intros [= <-]. by apply word_ports. }
  rewrite !bind_app, !Forall_app. split_and!; try (by apply words_module); apply words_option_list; intros x Hx.
  - words. by apply Hset.
  - apply word_bang. words. by apply Hi.
  - apply word_bang. words. by apply (Hhead _ _ Hsrc).
  - apply word_bang. words. by apply (Hhead _ _ Hdst).
  - apply fmap_Some in Hx as (d & Hd & ->). specialize (Hdscp d Hd). words. apply word_to_string. lia.
  - destruct (fc_proto c); cbn in Hx; [done| | |done]; injection Hx as <-; words.
  - apply word_bang. pose proof (Hport _ x Hsp Hx). destruct x as [[] t]; words.
  - apply word_bang. pose proof (Hport _ x Hdp Hx). destruct x as [[] t]; words.
Qed.

Lemma target_text_words r : printable r → Forall word (target_text r).
Proof.
  intros [_ _ _ _ _ _ _ [Hm Hk]]. unfold target_text. destruct (ir_action r); words.
  destruct (word_hex (ir_fwmark r)) as [_ H1]; [lia|]. destruct (word_hex (ir_fwmark_mask r)) as [_ H2]; [lia|].
  split; [done|]. apply no_space_app. split; [done|]. by apply no_space_app.
Qed.

Lemma target_text_target r : printable r → target_words r (target_text r).
Proof.
  intros [_ _ _ _ _ _ _ [Hm Hk]]. unfold target_text, target_words. destruct (ir_action r); [|done..].
  exists (hex (ir_fwmark r)), (hex (ir_fwmark_mask r)). split_and!; [|by apply parse_u32_hex..|done].
  destruct (to_hex_spec (ir_fwmark r)) as (_ & Hd & _); [lia|]. unfold hex. intros [Hin|Hin]%elem_of_app.
  - revert Hin. by vm_compute; set_solver.
  - rewrite forallb_elem in Hd. specialize (Hd _ Hin). by vm_compute in Hd.
Qed.

(** The line of a rule is listed as the rule. *)
Lemma rule_line_lists {SS : StdSort} r g iface : printable r → (∀ i, iface = Some i → word i ∧ plain i) →
  lists_rule IPT_CHAIN_NAME ("-A" ++ spaced (rule_words r (generation_chain g) iface (target_text r))) r.
Proof.
  intros Hr Hi. set (ws := (built_opts (ir_criteria r) iface ≫= opt_words) ++ target_text r).
  assert (Hws : Forall word ws).
  { apply Forall_app. split; [apply opts_words; [done|by intros i []%Hi]|by apply target_text_words]. }
  assert (Hne : ∃ s, spaced ws = " "%char :: s).
  { unfold ws. destruct ((built_opts (ir_criteria r) iface ≫= opt_words) ++ target_text r) as [|w l] eqn:E; [|by eexists].
    unfold target_text in E. by destruct (built_opts (ir_criteria r) iface ≫= opt_words), (ir_action r). }
  set (ch := rule_chain r (generation_chain g)).
  assert (Hch : ch = IPT_CHAIN_NAME ∨ ch = generation_chain g).
  { unfold ch, rule_chain. destruct (ir_action r), (dst_set_name (ir_criteria r)); auto. }
  change (spaced (rule_words r (generation_chain g) iface (target_text r))) with (" "%char :: ch ++ spaced ws).
  split_and!.
  - destruct Hne as [s ->]. destruct Hch as [-> | ->]; [done|by destruct g].
  - done.
  - by destruct Hch as [-> | ->]; [|destruct g].
  - exists ch, (built_opts (ir_criteria r) iface), (target_text r). fold ws. split_and!.
    + change (" "%char :: ch ++ spaced ws) with (spaced (ch :: ws)).
      change (split_ws_loop (str "-A") (spaced (ch :: ws)) = str "-A" :: ch :: ws).
      apply split_ws_spaced; [done|]. constructor; [|done]. destruct Hch as [-> | ->]; [done|by destruct g].
    + destruct Hch as [-> | ->]; [done|by destruct g].
    + apply built_printed; [done|]. by intros i []%Hi.
    + by apply target_text_target.
Qed.

Lemma nl_free_text s : forallb (λ c, negb (ascii_eqb c (chr 10))) s = true → nl_free s.
Proof.
  rewrite forallb_elem. intros H Hin. specialize (H _ Hin). by rewrite (proj2 (ascii_eqb_eq _ _)) in H.
Qed.
Lemma nl_free_app s t : nl_free (s ++ t) ↔ nl_free s ∧ nl_free t.
Proof. apply not_elem_of_app. Qed.

Lemma rule_words_nl r g iface target : printable r → (∀ i, iface = Some i → word i) → Forall word target →
  nl_free ("-A" ++ spaced (rule_words r (generation_chain g) iface target)).
Proof.
  intros Hr Hi Ht. apply nl_free_app. split; [by apply nl_free_text|]. apply spaced_nl. unfold rule_words.
  constructor; [|apply Forall_app; split; [by apply opts_words|done]].
  unfold rule_chain. destruct g, (ir_action r), (dst_set_name (ir_criteria r)); done.
Qed.

Lemma save_line_nl p allow body : 0 ≤ conntrack_mark_mask p → nl_free body →
  ∃ bodies, Forall2 a_line (append_mark_and_save p allow (body ++ endl)) (body :: bodies).
Proof.
  intros Hm Hb. unfold append_mark_and_save. destruct (_ || _); [exists []; by repeat constructor|].
  destruct (find_str " -j MARK " (body ++ endl)) as [i|] eqn:E; [|exists []; by repeat constructor].
  exists [take i (body ++ endl) ++ " -j CONNMARK --save-mark --mask " ++ hex (conntrack_mark_mask p)].
  constructor; [done|]. constructor; [|constructor]. split; [by rewrite <- !app_assoc|].
  assert (Hi : (i ≤ length body)%nat).
  { apply find_str_Some in E. apply (f_equal length) in E. rewrite !length_app, length_take, length_drop, length_app in E.
    cbn in E. lia. }
  rewrite take_app_le by done. rewrite !nl_free_app. split_and!.
  - intros Hin. apply Hb. rewrite <- (take_drop i body). apply elem_of_app. by left.
  - by apply nl_free_text.
  - by apply word_nl, word_hex.
Qed.

(** The lines of a rule: its own first, then others *)
Lemma rule_lines_text r p g allow iface : printable r → 0 ≤ conntrack_mark_mask p → (∀ i, iface = Some i → word i) →
  ∃ others, Forall2 a_line (rule_lines_for r p (generation_chain g) allow (pp_of (ir_criteria r)) (iface_text iface))
    (("-A" ++ spaced (rule_words r (generation_chain g) iface (target_text r))) :: others).
Proof.
  intros Hr Hm Hi.
  pose proof (λ t, rule_line_text r (generation_chain g) iface t) as Htext. unfold rule_chain in Htext.
  pose proof (λ t, rule_words_nl r g iface t Hr Hi) as Hnl.
  unfold rule_lines_for. unfold target_text at 1. unfold target_text in Htext. destruct (ir_action r) eqn:Ea.
  - destruct (save_line_nl p allow ("-A" ++ spaced (rule_words r (generation_chain g) iface (target_text r))) Hm) as (bodies & Hb).
    { by apply Hnl, target_text_words. }
    exists (bodies ++ [("-A" ++ spaced (rule_words r (generation_chain g) iface [str "-j"; str "RETURN"]))]).
    change (?x :: bodies ++ ?l) with ((x :: bodies) ++ l). apply Forall2_app.
    + match goal with |- Forall2 _ (append_mark_and_save _ _ ?l) _ =>
        replace l with (("-A" ++ spaced (rule_words r (generation_chain g) iface (target_text r))) ++ endl) end.
      { unfold target_text in Hb |- *. rewrite Ea in Hb |- *. exact Hb. }
      assert (Ht : spaced (target_text r) = " -j MARK --set-xmark " ++ hex (ir_fwmark r) ++ "/" ++ hex (ir_fwmark_mask r)).
      { unfold target_text. rewrite Ea. cbn -[hex]. by rewrite app_nil_r. }
      rewrite Htext, Ht, <- !app_assoc. done.
    + constructor; [|constructor]. split; [|apply Hnl; words]. rewrite Htext, <- !app_assoc. done.
  - exists []. constructor; [|constructor]. split; [|apply Hnl; words]. rewrite Htext, <- !app_assoc. 
    by destruct (dst_set_name (ir_criteria r)).
  - exists []. constructor; [|constructor]. split; [|apply Hnl; words]. rewrite Htext, <- !app_assoc. 
    by destruct (dst_set_name (ir_criteria r)).
Qed.

(** What the backend needs of the prefilter: its interfaces are words, none of
    which reads as an option. *)
Record ipt_prefilter_ok (p : FirewallGlobalPrefilter) : Prop := mk_ipt_prefilter_ok {
  po_mask : 0 ≤ conntrack_mark_mask p;
  po_ifaces : Forall (λ i, word i ∧ plain i) (value_or (pf_inbound_interfaces p) []);
}.
Definition prefilter_ifaces (p : FirewallGlobalPrefilter) : list (option cstring) :=
  match pf_inbound_interfaces p with Some (i :: j :: l) => Some <$> (i :: j :: l) | _ => [None] end.

Lemma ifaces_text p : iface_fragments p = iface_text <$> prefilter_ifaces p.
Proof. unfold iface_fragments, prefilter_ifaces. destruct (pf_inbound_interfaces p) as [[|i [|j l]]|]; [done|done| |done]. by rewrite <- list_fmap_compose. Qed.
Lemma ifaces_ok p : ipt_prefilter_ok p → Forall (λ o, ∀ i, o = Some i → word i ∧ plain i) (prefilter_ifaces p).
Proof.
  intros [_ H]. unfold prefilter_ifaces.
  destruct (pf_inbound_interfaces p) as [[|i [|j l]]|]; cbn in H; [by repeat constructor|by repeat constructor| |by repeat constructor].
  apply Forall_fmap. eapply Forall_impl; [exact H|]. intros x Hx. by intros ? [= <-].
Qed.

(** A queued rule names one protocol, or any with no port. *)
Definition one_proto (r : IptPendingRule) : Prop :=
  expand_l4_protos_for_iptables (ir_criteria r) = [fc_proto (ir_criteria r)].

Lemma build_rule_lines_text {SS : StdSort} r p g allow : printable r → one_proto r → ipt_prefilter_ok p →
  ∃ bodies, Forall2 a_line (build_rule_lines r p (generation_chain g) allow) bodies ∧
    covers (lists_rule IPT_CHAIN_NAME) bodies [r].
Proof.
  intros Hr H1 Hp. unfold build_rule_lines. rewrite H1, bind_one, ifaces_text. fold (pp_of (ir_criteria r)).
  assert (Hall : ∀ os, Forall (λ o, ∀ i, o = Some i → word i ∧ plain i) os →
    ∃ bodies, Forall2 a_line ((iface_text <$> os) ≫= rule_lines_for r p (generation_chain g) allow (pp_of (ir_criteria r))) bodies ∧
      (os ≠ [] → covers (lists_rule IPT_CHAIN_NAME) bodies [r])).
  { induction 1 as [|o os Ho _ (bodies & IH & _)]; [by exists []|]. rewrite fmap_cons, bind_cons.
    destruct (rule_lines_text r p g allow o Hr (po_mask _ Hp)) as (others & Hl); [by intros i []%Ho|].
    eexists. split; [apply Forall2_app; [exact Hl|exact IH]|]. intros _.
    change ([r]) with ([r] ++ []). apply covers_app; [|constructor]. constructor; [|constructor].
    by apply rule_line_lists. }
  destruct (Hall _ (ifaces_ok p Hp)) as (bodies & Hb & Hc). exists bodies. split; [exact Hb|]. apply Hc.
  unfold prefilter_ifaces. by destruct (pf_inbound_interfaces p) as [[|i [|j l]]|].
Qed.

Lemma rule_text_lists {SS : StdSort} ipv6 rules p g allow rest :
  Forall (λ r, printable r ∧ one_proto r) rules → ipt_prefilter_ok p →
  ∃ bodies, getline_loop (chr 10) [] (rule_text ipv6 rules p (generation_chain g) allow ++ rest) =
      bodies ++ getline_loop (chr 10) [] rest ∧
    covers (lists_rule IPT_CHAIN_NAME) bodies (List.filter (λ r, Bool.eqb (ir_ipv6 r) ipv6) rules).
Proof.
  intros Hr Hp. unfold rule_text.
  assert (H : ∃ bodies, Forall2 a_line (r ← rules; if Bool.eqb (ir_ipv6 r) ipv6 then build_rule_lines r p (generation_chain g) allow else [])
    bodies ∧ covers (lists_rule IPT_CHAIN_NAME) bodies (List.filter (λ r, Bool.eqb (ir_ipv6 r) ipv6) rules)).
  { induction Hr as [|r rules [Hr H1] _ (bodies & IH1 & IH2)]; [exists []; split; constructor|]. rewrite bind_cons. cbn [List.filter].
    destruct (Bool.eqb (ir_ipv6 r) ipv6); [|by exists bodies].
    destruct (build_rule_lines_text r p g allow Hr H1 Hp) as (b1 & Hb1 & Hc1). exists (b1 ++ bodies).
    split; [by apply Forall2_app|]. change (r :: ?l) with ([r] ++ l). by apply covers_app. }
  destruct H as (bodies & Hb & Hc). exists bodies. split; [by apply getline_lines|done].
Qed.

(** A text that ends its last line *)
Definition ends_line (s : cstring) : Prop := s = [] ∨ ∃ t, s = t ++ endl.

Lemma ends_line_app s t : ends_line s → ends_line t → ends_line (s ++ t).
Proof. intros Hs [->|[u ->]]; [by rewrite app_nil_r|]. right. exists (s ++ u). by rewrite app_assoc. Qed.
Lemma ends_line_endl s : ends_line (s ++ endl).
Proof. right. by exists s. Qed.

Lemma getline_ends s t : ends_line s → getline_loop (chr 10) [] (s ++ t) = getline_loop (chr 10) [] s ++ getline_loop (chr 10) [] t.
Proof.
  intros [->|[u ->]]; [done|]. rewrite <- app_assoc.
  assert (H : ∀ cur, getline_loop (chr 10) cur (u ++ endl ++ t) =
    getline_loop (chr 10) cur (u ++ endl) ++ getline_loop (chr 10) [] t); [|apply H].
  induction u as [|c u IH]; intros cur; cbn [app getline_loop endl].
  - by rewrite (proj2 (ascii_eqb_eq _ _)).
  - destruct (ascii_eqb c (chr 10)); [|apply IH]. cbn [app]. f_equal. apply IH.
Qed.

Lemma prefilter_ends p chain allow : ends_line (build_prefilter_lines p chain allow).
Proof.
  unfold build_prefilter_lines. repeat (apply ends_line_app); repeat case_match; try (by left);
    rewrite ?app_assoc; apply ends_line_endl.
Qed.

(** The script of the backend lists its rules: read as a listing, every line of
    a rule stands for it. *)
Lemma script_lists_the_rules {SS : StdSort} ipv6 g replace rules p :
  Forall (λ r, printable r ∧ one_proto r) rules → ipt_prefilter_ok p →
  lists_family IPT_CHAIN_NAME ipv6 (build_ipt_script ipv6 (generation_chain g) replace rules p) rules.
Proof.
  intros Hr Hp. unfold lists_family, getline_all, build_ipt_script. cbv zeta.
  match goal with |- context [build_prefilter_lines p ?c true ++ ?t] => set (tail := t); set (pre := build_prefilter_lines p c true) end.
  rewrite !app_assoc. rewrite getline_ends.
  - unfold tail. destruct (rule_text_lists ipv6 rules p g true ("COMMIT" ++ endl) Hr Hp) as (bodies & -> & Hc).
    change (List.filter ?f rules) with ([] ++ List.filter f rules). apply covers_app; [constructor|].
    rewrite <- (app_nil_r (List.filter _ _)). apply covers_app; [done|constructor].
  - apply ends_line_app; [|apply prefilter_ends]. apply ends_line_app; [apply ends_line_endl|].
    destruct replace; apply ends_line_endl.
Qed.

(** ** Witness *)

Definition w_ipt_created : gmap cstring Z := {[ str "kpbr4s_x" := AF_INET; str "kpbr6s_x" := AF_INET6 ]}.
Definition w_ipt_states : list RuleState :=
  [mk_RuleState 0 [] [str "kpbr4s_x"; str "kpbr6s_x"] "a" RuleActionType.Mark 0x10000
     (mk_Criteria None (Some 46) L4Proto.TcpUdp (mk_PortSpec [mk_PortRange 53 53]) empty_spec [] [] false false false false false);
   mk_RuleState 1 [] [] "b" RuleActionType.Drop 0
     (mk_Criteria None None L4Proto.Any empty_spec empty_spec [str "10.0.0.0/8"] [] false false true false false)].
Definition w_ipt_rules : list IptPendingRule := ipt_queued_rules 0xFF0000 w_ipt_created w_ipt_states.
Definition w_ipt_script (ipv6 : bool) : cstring :=
  build_ipt_script ipv6 (generation_chain FirewallSetGeneration.A) false w_ipt_rules empty_prefilter.
Definition w_ipt_read (ipv6 : bool) : exc ParsedIptablesState :=
  @parse_iptables_s_for_family insertion_StdSort (w_ipt_script ipv6) ipv6 IPT_CHAIN_NAME.
Definition w_ipt_verifier (st4 st6 : ParsedIptablesState) : IptablesFirewallVerifier :=
  mk_IptVerifier (λ _, mk_CommandResult [] 0 false) false 0xFF0000 (Some (mk_IptCached st4 st6)).

Lemma w_ipt_printable : Forall (λ r, printable r ∧ one_proto r) w_ipt_rules.
Proof.
  assert (Hspec : Forall (λ s, spec_ok s) [mk_PortSpec [mk_PortRange 53 53]; empty_spec]).
  { repeat constructor; cbn; lia. }
  let x := eval vm_compute in w_ipt_rules in change w_ipt_rules with x.
  apply Forall_cons in Hspec as [H1 [H2 _]%Forall_cons].
  repeat (apply Forall_cons; split); [split; [constructor|done]..|constructor];
    cbn [ir_criteria dst_set_name fc_src_addr fc_dst_addr fc_dscp fc_src_port fc_dst_port fc_proto ir_fwmark ir_fwmark_mask];
    try done; try (intros x [= <-]; done || lia); try lia; (split; [cbn; lia|]); by words.
Qed.

Lemma w_ipt_states_ok :
  Forall (λ rs, action_type rs ≠ RuleActionType.Skip → ipt_verifiable rs ∧ Forall (ipt_own_set w_ipt_created) (set_names rs)) w_ipt_states.
Proof.
  assert (Hnil : ([] : cstring) ∉ ([] : list cstring)) by apply not_elem_of_nil.
  assert (Hone : ([] : cstring) ∉ [str "10.0.0.0/8"]) by (by intros ?%list_elem_of_singleton).
  apply Forall_cons. split; [|apply Forall_cons; split; [|constructor]]; intros _; split.
  - constructor; done.
  - apply Forall_cons. split; [split; [done|reflexivity]|]. apply Forall_singleton. split; [done|reflexivity].
  - constructor; done.
  - constructor.
Qed.

Lemma w_ipt_lists ipv6 : @lists_family insertion_StdSort IPT_CHAIN_NAME ipv6 (w_ipt_script ipv6) w_ipt_rules.
Proof.
  pose proof w_ipt_printable as H. unfold w_ipt_script. revert H. generalize w_ipt_rules as rules. intros rules H.
  apply script_lists_the_rules; [exact H|]. constructor; [cbn; lia|constructor].
Qed.

Lemma ipt_verifier_accepts_the_rules_witness :
  ∃ st4 st6 checks, w_ipt_read false = Ok st4 ∧ w_ipt_read true = Ok st6 ∧
    @ipt_verify_rules insertion_StdSort w_ipt_states (w_ipt_verifier st4 st6) = (Ok checks, w_ipt_verifier st4 st6) ∧
    length checks = 5%nat ∧ Forall (λ c, ck_status c = CheckStatus.ok ∧ ck_detail c = str "ok") checks.
Proof.
  destruct (w_ipt_read false) as [st4|e|] eqn:E4; [|vm_compute in E4; discriminate E4..].
  destruct (w_ipt_read true) as [st6|e|] eqn:E6; [|vm_compute in E6; discriminate E6..].
  destruct (@ipt_verifier_accepts_the_rules insertion_StdSort (w_ipt_verifier st4 st6) w_ipt_states w_ipt_created
    (w_ipt_script false) (w_ipt_script true) IPT_CHAIN_NAME IPT_CHAIN_NAME st4 st6) as (checks & Hv & Hl & Hc).
  - exact w_ipt_states_ok.
  - apply w_ipt_lists.
  - apply w_ipt_lists.
  - exact E4.
  - exact E6.
  - reflexivity.
  - exists st4, st6, checks. split; [done|]. split; [done|]. split; [exact Hv|]. split; [|exact Hc]. rewrite Hl. reflexivity.
Defined.
