(* ===== verification/HealthReport.v ===== *)
(** * The routing health report (src/src/health/routing_health_checker.cpp,
      routing_health.hpp, src/src/firewall/firewall_verifier.cpp)

    The verifiers of the two firewall backends implement one interface; a report
    combines the chosen one with the checks of routes and policy rules. *)

From S2P Require Import Prelude CppString Config Fwmark Netlink Json ConfigJson ApiJson RoutingReconciler RoutingVerifier.
From S2P Require Import AddrSpec DnsServer RoutingState FirewallRules ListParser ListStreamer Firewall FirewallTrace Nftables Packet.
From S2P Require Import NftSemantics RuleSearch NftVerifier NftVerified Iptables IptVerifier.

Local Open Scope Z_scope.

(** ** The interface of the verifiers *)

Class FirewallVerifier (V : Type) := {
  fv_verify_chain : stexc V FirewallChainCheck;
  fv_verify_rules : list RuleState → stexc V (list FirewallRuleCheck);
  set_expected_fwmark_mask : Z → V → V;
}.

Section verifiers.
Context {NL : Nlohmann} {SS : StdSort} {IP : InetPton} {JT : JsonText}.

#[export] Instance IptablesFirewallVerifier_FirewallVerifier : FirewallVerifier IptablesFirewallVerifier := {|
  fv_verify_chain := ipt_verify_chain;
  fv_verify_rules := ipt_verify_rules;
  set_expected_fwmark_mask mask v := mk_IptVerifier (ipt_runner_ v) (verify_raw_prerouting_ v) mask (ipt_cached_state_ v);
|}.

(** The verifier for nftables never reads the mask. *)
#[export] Instance NftablesFirewallVerifier_FirewallVerifier : FirewallVerifier NftablesFirewallVerifier := {|
  fv_verify_chain := NftVerifier.verify_chain;
  fv_verify_rules := NftVerifier.verify_rules;
  set_expected_fwmark_mask _ v := v;
|}.

(** A pointer to the base class *)
Inductive AnyVerifier :=
  | ViaIptables (v : IptablesFirewallVerifier)
  | ViaNftables (v : NftablesFirewallVerifier).

Definition via {V A} (mk : V → AnyVerifier) (m : stexc V A) (v : V) : exc A * AnyVerifier :=
  let r := m v in (r.1, mk r.2).

#[export] Instance AnyVerifier_FirewallVerifier : FirewallVerifier AnyVerifier := {|
  fv_verify_chain v := match v with
    | ViaIptables v => via ViaIptables fv_verify_chain v
    | ViaNftables v => via ViaNftables fv_verify_chain v end;
  fv_verify_rules states v := match v with
    | ViaIptables v => via ViaIptables (fv_verify_rules states) v
    | ViaNftables v => via ViaNftables (fv_verify_rules states) v end;
  set_expected_fwmark_mask mask v := match v with
    | ViaIptables v => ViaIptables (set_expected_fwmark_mask mask v)
    | ViaNftables v => ViaNftables (set_expected_fwmark_mask mask v) end;
|}.

Definition create_iptables_verifier (runner : list cstring → CommandResult) (use_raw_prerouting : bool) : IptablesFirewallVerifier :=
  mk_IptVerifier runner use_raw_prerouting 0xFFFFFFFF None.
Definition create_nftables_verifier (runner : list cstring → CommandResult) : NftablesFirewallVerifier :=
  mk_NftVerifier runner None.
Definition create_firewall_verifier (backend : FirewallBackend.t) (use_raw_prerouting : bool)
    (runner : list cstring → CommandResult) : AnyVerifier :=
  match backend with
  | FirewallBackend.iptables => ViaIptables (create_iptables_verifier runner use_raw_prerouting)
  | FirewallBackend.nftables => ViaNftables (create_nftables_verifier runner)
  end.
End verifiers.

(** [safe_exec_capture] of the system: output, exit status, truncation *)
Definition run_command_capture (safe_exec_capture : list cstring → CommandResult) (args : list cstring) : CommandResult :=
  match args with [] => mk_CommandResult [] (-1) false | _ => safe_exec_capture args end.

(** ** The report *)

Record RoutingHealthReport := mk_HealthReport {
  hr_overall_ok : bool;
  hr_firewall_backend : option FirewallBackend.t;
  hr_firewall_chain : FirewallChainCheck;
  hr_firewall_rules : list FirewallRuleCheck;
  hr_route_tables : list RouteTableCheck;
  hr_policy_rules : list PolicyRuleCheck;
  hr_error : cstring;
}.

Definition new_HealthReport (backend : FirewallBackend.t) : RoutingHealthReport :=
  mk_HealthReport false (Some backend) (mk_ChainCheck false false []) [] [] [] [].
Definition with_chain (c : FirewallChainCheck) (r : RoutingHealthReport) : RoutingHealthReport :=
  mk_HealthReport (hr_overall_ok r) (hr_firewall_backend r) c (hr_firewall_rules r) (hr_route_tables r) (hr_policy_rules r) (hr_error r).
Definition with_rule_checks (l : list FirewallRuleCheck) (r : RoutingHealthReport) : RoutingHealthReport :=
  mk_HealthReport (hr_overall_ok r) (hr_firewall_backend r) (hr_firewall_chain r) l (hr_route_tables r) (hr_policy_rules r) (hr_error r).
Definition push_route (c : RouteTableCheck) (r : RoutingHealthReport) : RoutingHealthReport :=
  mk_HealthReport (hr_overall_ok r) (hr_firewall_backend r) (hr_firewall_chain r) (hr_firewall_rules r)
    (hr_route_tables r ++ [c]) (hr_policy_rules r) (hr_error r).
Definition push_policy (c : PolicyRuleCheck) (r : RoutingHealthReport) : RoutingHealthReport :=
  mk_HealthReport (hr_overall_ok r) (hr_firewall_backend r) (hr_firewall_chain r) (hr_firewall_rules r)
    (hr_route_tables r) (hr_policy_rules r ++ [c]) (hr_error r).
Definition with_overall (ok : bool) (r : RoutingHealthReport) : RoutingHealthReport :=
  mk_HealthReport ok (hr_firewall_backend r) (hr_firewall_chain r) (hr_firewall_rules r) (hr_route_tables r) (hr_policy_rules r) (hr_error r).
Definition with_error (e : cstring) (r : RoutingHealthReport) : RoutingHealthReport :=
  mk_HealthReport false (hr_firewall_backend r) (hr_firewall_chain r) (hr_firewall_rules r) (hr_route_tables r) (hr_policy_rules r) e.

Definition dumped_type_label (d : DumpedRoute) : cstring :=
  if dr_unreachable d then "unreachable" else if dr_blackhole d then "blackhole" else "unicast".

Definition health_route_matches (expected : RouteSpec) (actual : DumpedRoute) : bool :=
  bool_decide (rs_destination expected = dr_destination actual) &&
  bool_decide (rs_interface expected = dr_interface actual) &&
  bool_decide (rs_gateway expected = dr_gateway actual) &&
  Bool.eqb (rs_blackhole expected) (dr_blackhole actual) &&
  Bool.eqb (rs_unreachable expected) (dr_unreachable actual) &&
  ((rs_metric expected =? 0) || (rs_metric expected =? dr_metric actual)) &&
  ((rs_family expected =? 0) || (rs_family expected =? dr_family actual)).

(** The first outbound, in the order of the tags, with the mark *)
Definition tag_of_mark (marks : OutboundMarkMap) (mark : Z) : option cstring :=
  fst <$> List.find (λ e : cstring * Z, e.2 =? mark) (in_key_order marks).

Definition table_to_outbound (marks : OutboundMarkMap) (rules : list RuleSpec) : gmap Z cstring :=
  foldl (λ m r, match tag_of_mark marks (rl_fwmark r) with Some tag => <[rl_table r := tag]> m | None => m end) ∅ rules.

(** [std::map<uint32_t, std::vector<RouteSpec>>]: the tables in their order *)
Definition routes_by_table (routes : list RouteSpec) : list (Z * list RouteSpec) :=
  (λ t, (t, List.filter (λ r, rs_table r =? t) routes)) <$> stable_sort Z.ltb (remove_dups (rs_table <$> routes)).

Definition extra_check (t2o : gmap Z cstring) (table_id : Z) (d : DumpedRoute) : RouteTableCheck :=
  mk_RouteTableCheck table_id (value_or (t2o !! table_id) [])
    (Some (dr_destination d)) (dr_interface d) (dr_gateway d)
    (if negb (dr_metric d =? 0) then Some (dr_metric d) else None) (Some (dumped_type_label d))
    true (bool_decide (dr_destination d = "default")) true true CheckStatus.mismatch "unexpected route present in table".

Definition unexpected_routes (expected : list RouteSpec) (routes : list DumpedRoute) : list DumpedRoute :=
  List.filter (λ d, bool_decide (dr_destination d = "default") && negb (existsb (λ e, health_route_matches e d) expected)) routes.

Definition all_ok (r : RoutingHealthReport) : bool :=
  (chain_present (hr_firewall_chain r) && prerouting_hook_present (hr_firewall_chain r)) &&
  forallb (λ c, bool_decide (ck_status c = CheckStatus.ok)) (hr_firewall_rules r) &&
  forallb (λ c, bool_decide (rt_status c = CheckStatus.ok)) (hr_route_tables r) &&
  forallb (λ c, bool_decide (pr_status c = CheckStatus.ok)) (hr_policy_rules r).

Section report.
Context {K : Type} `{RN : !RoutingNetlink K} {V : Type} `{FV : !FirewallVerifier V}.
Abbreviation M := (stexc (RoutingHealthReport * K)).

Definition on_report (f : RoutingHealthReport → RoutingHealthReport) : M unit := λ s, (Ok tt, (f s.1, s.2)).
Definition on_netlink {A} (m : stexc K A) : M A := λ s, let r := m s.2 in (r.1, (s.1, r.2)).
Definition on_verifier {A} (m : stexc V A) (v : V) : M (A * V) := λ s,
  match m v with (Ok a, v') => (Ok (a, v'), s) | (Throw e, _) => (Throw e, s) | (Undefined, _) => (Undefined, s) end.

Definition check_routes (t2o : gmap Z cstring) (routes : list RouteSpec) : M unit :=
  for_each (λ spec, c ← on_netlink (verify_route_table spec (value_or (t2o !! rs_table spec) [])); on_report (push_route c)) routes.
Definition check_extra (t2o : gmap Z cstring) (routes : list RouteSpec) : M unit :=
  for_each (λ te : Z * list RouteSpec,
    dumped ← on_netlink (dump_routes_in_table te.1);
    for_each (λ d, on_report (push_route (extra_check t2o te.1 d))) (unexpected_routes te.2 dumped)) (routes_by_table routes).
Definition check_policy (marks : OutboundMarkMap) (rules : list RuleSpec) : M unit :=
  for_each (λ spec, c ← on_netlink (verify_policy_rule spec (value_or (tag_of_mark marks (rl_fwmark spec)) []));
                    on_report (push_policy c)) rules.

(** The [try] block *)
Definition health_checks (v : V) (st : FirewallState) (routes : list RouteSpec) (rules : list RuleSpec) : M unit :=
  cv ← on_verifier fv_verify_chain (set_expected_fwmark_mask (fwmark_mask_ st) v);
  on_report (with_chain cv.1);;
  rv ← on_verifier (fv_verify_rules (fs_rules_ st)) cv.2;
  on_report (with_rule_checks rv.1);;
  let t2o := table_to_outbound (outbound_marks_ st) rules in
  check_routes t2o routes;;
  check_extra t2o routes;;
  check_policy (outbound_marks_ st) rules;;
  on_report (λ r, with_overall (all_ok r) r).

Definition health_report (backend : FirewallBackend.t) (v : V) (st : FirewallState) (routes : list RouteSpec)
    (rules : list RuleSpec) : stexc K RoutingHealthReport := λ k,
  let '(res, (report, k')) :=
    try_catch_all (health_checks v st routes rules)
      (λ e, on_report (with_error (value_or (what e) "unknown error during health check"))) (new_HealthReport backend, k) in
  (match res with Ok _ => Ok report | Throw e => Throw e | Undefined => Undefined end, k').
End report.

Definition build_routing_health_report {NL : Nlohmann} {SS : StdSort} {IP : InetPton} {JT : JsonText}
    {K} `{!RoutingNetlink K} (runner : list cstring → CommandResult) (backend : FirewallBackend.t) (use_raw_prerouting : bool)
    (st : FirewallState) (routes : list RouteSpec) (rules : list RuleSpec) : stexc K RoutingHealthReport :=
  health_report backend (create_firewall_verifier backend use_raw_prerouting runner) st routes rules.

(** ** The report as JSON *)

Definition hex_str (v : Z) : cstring := "0x" ++ hex8 v.
Definition to_api_check_status (s : RoutingVerifier.CheckStatus.t) : ApiJson.CheckStatus.t :=
  match s with
  | RoutingVerifier.CheckStatus.ok => ApiJson.CheckStatus.OK
  | RoutingVerifier.CheckStatus.missing => ApiJson.CheckStatus.MISSING
  | RoutingVerifier.CheckStatus.mismatch => ApiJson.CheckStatus.MISMATCH
  end.
Definition to_api_expected_action (action : cstring) : ExpectedAction.t :=
  if bool_decide (action = str "blackhole") then ExpectedAction.BLACKHOLE
  else if bool_decide (action = str "unreachable") then ExpectedAction.UNREACHABLE
  else ExpectedAction.LOOKUP.
Definition to_api_firewall_backend (b : FirewallBackend.t) : RoutingHealthResponseFirewallBackend.t :=
  match b with
  | FirewallBackend.iptables => RoutingHealthResponseFirewallBackend.IPTABLES
  | FirewallBackend.nftables => RoutingHealthResponseFirewallBackend.NFTABLES
  end.
Definition non_empty (s : cstring) : option cstring := if bool_decide (s = []) then None else Some s.

Definition api_firewall_check (fc : FirewallRuleCheck) : ApiJson.FirewallRuleCheck.t :=
  ApiJson.FirewallRuleCheck.make (ck_action fc) (hex_str <$> ck_actual_fwmark fc) (non_empty (ck_detail fc))
    (hex_str <$> ck_expected_fwmark fc) (ck_set_name fc) (to_api_check_status (ck_status fc)).
Definition api_route_check (rt : RouteTableCheck) : ApiJson.RouteTableCheck.t :=
  ApiJson.RouteTableCheck.make (rt_default_route_present rt) (non_empty (rt_detail rt)) (rt_expected_destination rt)
    (rt_expected_gateway rt) (rt_expected_interface rt) (rt_expected_metric rt) (rt_expected_route_type rt)
    (rt_gateway_matches rt) (rt_interface_matches rt) (rt_outbound_tag rt) (to_api_check_status (rt_status rt))
    (rt_table_exists rt) (rt_table_id rt).
Definition api_policy_check (pr : PolicyRuleCheck) : ApiJson.PolicyRuleCheck.t :=
  ApiJson.PolicyRuleCheck.make (non_empty (pr_detail pr)) (Some (to_api_expected_action (pr_expected_action pr)))
    (pr_expected_table pr) (hex_str (RoutingVerifier.pr_fwmark pr)) (hex_str (RoutingVerifier.pr_fwmask pr)) (pr_priority pr)
    (pr_rule_present_v4 pr) (pr_rule_present_v6 pr) (to_api_check_status (pr_status pr)).

Definition routing_health_report_to_json {NL : Nlohmann} (r : RoutingHealthReport) : exc json :=
  if negb (bool_decide (hr_error r = [])) then
    Ok (to_json (RoutingHealthErrorResponse.make (hr_error r) RoutingHealthErrorResponseOverall.ERROR))
  else match hr_firewall_backend r with
  | None => Throw (runtime_error "Routing health report missing firewall backend")
  | Some b =>
      let chain := hr_firewall_chain r in
      Ok (to_json (RoutingHealthResponse.make
        (FirewallChain.make (chain_present chain) (non_empty (chain_detail chain)) (prerouting_hook_present chain))
        (to_api_firewall_backend b)
        (api_firewall_check <$> hr_firewall_rules r)
        (if hr_overall_ok r then RoutingHealthResponseOverall.OK else RoutingHealthResponseOverall.DEGRADED)
        (api_policy_check <$> hr_policy_rules r)
        (api_route_check <$> hr_route_tables r)))
  end.

(** ** What a good report means *)

Lemma filter_nil_iff {A} (f : A → bool) l : List.filter f l = [] ↔ Forall (λ x, f x = false) l.
Proof.
  induction l as [|x l IH]; cbn; [by split|]. rewrite Forall_cons. destruct (f x) eqn:E; [naive_solver|]. rewrite IH. naive_solver.
Qed.

Lemma health_route_matches_true e d : health_route_matches e d = true ↔
  rs_destination e = dr_destination d ∧ rs_interface e = dr_interface d ∧ rs_gateway e = dr_gateway d ∧
  rs_blackhole e = dr_blackhole d ∧ rs_unreachable e = dr_unreachable d ∧
  (rs_metric e = 0 ∨ rs_metric e = dr_metric d) ∧ (rs_family e = 0 ∨ rs_family e = dr_family d).
Proof.
  unfold health_route_matches. rewrite !andb_true_iff, !orb_true_iff, !bool_decide_eq_true, !eqb_true_iff, !Z.eqb_eq. tauto.
Qed.

Lemma routes_by_table_elem routes t e : (t, e) ∈ routes_by_table routes ↔
  t ∈ rs_table <$> routes ∧ e = List.filter (λ r, rs_table r =? t) routes.
Proof.
  unfold routes_by_table. rewrite list_elem_of_fmap. setoid_rewrite stable_sort_perm. setoid_rewrite elem_of_remove_dups. naive_solver.
Qed.

Section good.
Context {K : Type} `{RN : !RoutingNetlink K} `{RL : !RoutingNetlinkLaws K}.

(** The kernel can be asked for its routes and rules. *)
Definition dumps_work : Prop :=
  ∀ k : K, (∀ t, is_ok (dump_routes_in_table t k).1 = true) ∧ is_ok (dump_policy_rules k).1 = true.

Definition route_there (k : K) (spec : RouteSpec) : Prop :=
  ∃ d, kroutes k d ∧ dr_table d = rs_table spec ∧ RoutingVerifier.acceptable spec d.
Definition no_extra_route (k : K) (routes : list RouteSpec) (t : Z) : Prop :=
  ∀ d, kroutes k d → dr_table d = t → dr_destination d = "default" →
    ∃ e, e ∈ routes ∧ rs_table e = t ∧ health_route_matches e d = true.
Definition rule_there (k : K) (spec : RuleSpec) : Prop :=
  ∀ f, f ∈ [AF_INET; AF_INET6] → rl_family spec = 0 ∨ rl_family spec = f →
    ∃ d, krules k d ∧ RoutingVerifier.rule_matches spec d = true ∧ du_family d = f.

Lemma same_kernel_there k k' spec : same_kernel k k' → route_there k' spec ↔ route_there k spec.
Proof. intros [Hr _]. unfold route_there. by setoid_rewrite Hr. Qed.
Lemma same_kernel_extra k k' routes t : same_kernel k k' → no_extra_route k' routes t ↔ no_extra_route k routes t.
Proof. intros [Hr _]. unfold no_extra_route. by setoid_rewrite Hr. Qed.
Lemma same_kernel_rule k k' spec : same_kernel k k' → rule_there k' spec ↔ rule_there k spec.
Proof. intros [_ Hu]. unfold rule_there. by setoid_rewrite Hu. Qed.
Lemma same_kernel_refl k : same_kernel k k.
Proof. by split. Qed.

Lemma verify_route_table_kernel spec tag k : same_kernel k (verify_route_table spec tag k).2.
Proof.
  unfold verify_route_table, try_catch_netlink, mbind, stexc_bind. pose proof (dump_routes_law k (rs_table spec)) as H.
  destruct (dump_routes_in_table (rs_table spec) k) as [[l|e|] k'].
  - destruct H as [H _]. by destruct (scan_defaults spec l None) as [[] []].
  - destruct H as [H _]. by destruct e.
  - apply H.
Qed.
Lemma verify_policy_rule_kernel spec tag k : same_kernel k (verify_policy_rule spec tag k).2.
Proof.
  unfold verify_policy_rule, try_catch_netlink, mbind, stexc_bind. pose proof (dump_rules_law k) as H.
  destruct (dump_policy_rules k) as [[l|e|] k'].
  - destruct H as [H _]. destruct (scan_rules spec l). by destruct (_ && _).
  - destruct H as [H _]. by destruct e.
  - apply H.
Qed.

Context (Hdumps : dumps_work).

(** The three loops: what they append, and when all of it is good *)
Definition grows_routes (r r' : RoutingHealthReport) (l : list RouteTableCheck) : Prop :=
  r' = mk_HealthReport (hr_overall_ok r) (hr_firewall_backend r) (hr_firewall_chain r) (hr_firewall_rules r)
         (hr_route_tables r ++ l) (hr_policy_rules r) (hr_error r).

Lemma check_routes_spec t2o routes r k : ∃ r' k' l, check_routes t2o routes (r, k) = (Ok tt, (r', k')) ∧
  same_kernel k k' ∧ grows_routes r r' l ∧
  (Forall (λ c, rt_status c = CheckStatus.ok) l ↔ Forall (route_there k) routes).
Proof.
  unfold check_routes. revert r k. induction routes as [|spec routes IH]; intros r k; cbn [for_each].
  { exists r, k, []. split; [done|]. split; [apply same_kernel_refl|]. split; [|by split].
    unfold grows_routes. rewrite app_nil_r. by destruct r. }
  unfold mbind, stexc_bind, on_netlink. cbn [fst snd].
  destruct (verify_route_table_spec spec (value_or (t2o !! rs_table spec) []) k) as (c & Hc & Hok); [apply Hdumps|].
  pose proof (verify_route_table_kernel spec (value_or (t2o !! rs_table spec) []) k) as Hk.
  destruct (verify_route_table spec (value_or (t2o !! rs_table spec) []) k) as [res k1]. cbn [fst snd] in *. subst res. cbn.
  destruct (IH (push_route c r) k1) as (r' & k' & l & Hrun & Hk' & Hg & Hl).
  exists r', k', (c :: l). split; [exact Hrun|]. split; [by apply same_kernel_trans with k1|]. split.
  - unfold grows_routes in *. rewrite Hg. cbn. by rewrite <- app_assoc.
  - rewrite !Forall_cons, Hok, Hl. f_equiv; [done|]. apply Forall_iff. intros x. by apply same_kernel_there.
Qed.

Lemma unexpected_none routes t (k : K) l : (∀ d, d ∈ l ↔ kroutes k d ∧ dr_table d = t) →
  unexpected_routes (List.filter (λ r, rs_table r =? t) routes) l = [] ↔ no_extra_route k routes t.
Proof.
  intros Hl. unfold unexpected_routes. rewrite filter_nil_iff, Forall_forall. unfold no_extra_route. split.
  - intros H d Hd Ht Hdef. specialize (H d (proj2 (Hl d) (conj Hd Ht))).
    rewrite bool_decide_eq_true_2 in H by done. cbn in H. apply negb_false_iff, existsb_exists in H as (e & [He Hte]%filter_In & Hm).
    apply list_elem_of_In in He. exists e. split; [done|]. split; [by apply Z.eqb_eq|done].
  - intros H d [Hd Ht]%Hl. case_bool_decide as Hdef; [|done]. cbn. apply negb_false_iff, existsb_exists.
    destruct (H d Hd Ht Hdef) as (e & He & Hte & Hm). exists e. split; [|done]. apply filter_In.
    split; [by apply list_elem_of_In|by apply Z.eqb_eq].
Qed.

Lemma push_extras (f : DumpedRoute → RouteTableCheck) l r (k : K) :
  ∃ r', for_each (λ d, on_report (push_route (f d))) l (r, k) = (Ok tt, (r', k)) ∧ grows_routes r r' (f <$> l).
Proof.
  revert r. induction l as [|d l IH]; intros r; cbn [for_each].
  { exists r. split; [done|]. unfold grows_routes. rewrite app_nil_r. by destruct r. }
  destruct (IH (push_route (f d) r)) as (r' & Hrun & Hg). exists r'. split; [exact Hrun|].
  unfold grows_routes in *. rewrite Hg. cbn. by rewrite <- app_assoc.
Qed.

Lemma check_extra_spec t2o routes r k : ∃ r' k' l, check_extra t2o routes (r, k) = (Ok tt, (r', k')) ∧
  same_kernel k k' ∧ grows_routes r r' l ∧
  (Forall (λ c, rt_status c = CheckStatus.ok) l ↔ Forall (λ spec, no_extra_route k routes (rs_table spec)) routes).
Proof.
  assert (Hgen : ∀ tables r k, Forall (λ te, te.2 = List.filter (λ s, rs_table s =? te.1) routes) tables →
    ∃ r' k' l, for_each (λ te : Z * list RouteSpec,
      dumped ← on_netlink (dump_routes_in_table te.1);
      for_each (λ d, on_report (push_route (extra_check t2o te.1 d))) (unexpected_routes te.2 dumped)) tables (r, k) = (Ok tt, (r', k')) ∧
    same_kernel k k' ∧ grows_routes r r' l ∧
    (Forall (λ c, rt_status c = CheckStatus.ok) l ↔ Forall (λ te, no_extra_route k routes te.1) tables)).
  { clear r k. induction tables as [|[t e] tables IH]; intros r k Ht; cbn [for_each].
    { exists r, k, []. split; [done|]. split; [apply same_kernel_refl|]. split; [|by split].
      unfold grows_routes. rewrite app_nil_r. by destruct r. }
    apply Forall_cons in Ht as [He Ht]. cbn in He. subst e.
    unfold mbind, stexc_bind, on_netlink. cbn [fst snd].
    pose proof (dump_routes_law k t) as Hlaw. destruct (Hdumps k) as [Hd _]. specialize (Hd t).
    destruct (dump_routes_in_table t k) as [[dumped|e|] k1]; [|done..]. destruct Hlaw as [Hk Hl]. cbn [fst snd].
    destruct (push_extras (extra_check t2o t) (unexpected_routes (List.filter (λ s, rs_table s =? t) routes) dumped) r k1)
      as (r1 & Hrun1 & Hg1). rewrite Hrun1. cbn [fst snd].
    destruct (IH r1 k1 Ht) as (r' & k' & l & Hrun & Hk' & Hg & Hok).
    exists r', k', ((extra_check t2o t <$> unexpected_routes (List.filter (λ s, rs_table s =? t) routes) dumped) ++ l).
    split; [exact Hrun|]. split; [by apply same_kernel_trans with k1|]. split.
    - unfold grows_routes in *. rewrite Hg, Hg1. cbn. by rewrite <- app_assoc.
    - rewrite Forall_app, Forall_cons, Hok. cbn [fst]. rewrite <- (unexpected_none routes t k dumped Hl). f_equiv.
      + destruct (unexpected_routes _ dumped); [by split|]. split; [|done]. by intros [? _]%Forall_cons.
      + apply Forall_iff. intros x. by apply same_kernel_extra. }
  destruct (Hgen (routes_by_table routes) r k) as (r' & k' & l & Hrun & Hk & Hg & Hok).
  { apply Forall_forall. intros [t e] He. by apply routes_by_table_elem in He as [_ ->]. }
  exists r', k', l. split; [exact Hrun|]. split; [done|]. split; [done|]. rewrite Hok, !Forall_forall. split.
  - intros H spec Hs. specialize (H (rs_table spec, List.filter (λ s, rs_table s =? rs_table spec) routes)). apply H.
    apply routes_by_table_elem. split; [|done]. by apply list_elem_of_fmap_2.
  - intros H [t e] [(spec & -> & Hs)%list_elem_of_fmap _]%routes_by_table_elem. by apply H.
Qed.

Lemma check_policy_spec marks rules r k : ∃ r' k' l, check_policy marks rules (r, k) = (Ok tt, (r', k')) ∧
  same_kernel k k' ∧
  r' = mk_HealthReport (hr_overall_ok r) (hr_firewall_backend r) (hr_firewall_chain r) (hr_firewall_rules r)
         (hr_route_tables r) (hr_policy_rules r ++ l) (hr_error r) ∧
  (Forall (λ c, pr_status c = CheckStatus.ok) l ↔ Forall (rule_there k) rules).
Proof.
  unfold check_policy. revert r k. induction rules as [|spec rules IH]; intros r k; cbn [for_each].
  { exists r, k, []. split; [done|]. split; [apply same_kernel_refl|]. split; [|by split].
    rewrite app_nil_r. by destruct r. }
  unfold mbind, stexc_bind, on_netlink. cbn [fst snd]. set (tag := value_or (tag_of_mark marks (rl_fwmark spec)) []).
  destruct (verify_policy_rule_spec spec tag k) as (c & Hc & Hok); [apply Hdumps|].
  pose proof (verify_policy_rule_kernel spec tag k) as Hk.
  destruct (verify_policy_rule spec tag k) as [res k1]. cbn [fst snd] in *. subst res. cbn.
  destruct (IH (push_policy c r) k1) as (r' & k' & l & Hrun & Hk' & Hg & Hl).
  exists r', k', (c :: l). split; [exact Hrun|]. split; [by apply same_kernel_trans with k1|]. split.
  - rewrite Hg. cbn. by rewrite <- app_assoc.
  - rewrite !Forall_cons, Hok, Hl. f_equiv; [done|]. apply Forall_iff. intros x. by apply same_kernel_rule.
Qed.
End good.

Lemma health_report_spec {K} `{!RoutingNetlink K} `{!RoutingNetlinkLaws K} {V} `{!FirewallVerifier V}
    backend (v v1 v2 : V) chain checks st routes rules (k : K) :
  dumps_work (K := K) →
  fv_verify_chain (set_expected_fwmark_mask (fwmark_mask_ st) v) = (Ok chain, v1) →
  fv_verify_rules (fs_rules_ st) v1 = (Ok checks, v2) →
  ∃ report k', health_report backend v st routes rules k = (Ok report, k') ∧ same_kernel k k' ∧ hr_error report = [] ∧
    hr_firewall_backend report = Some backend ∧ hr_firewall_chain report = chain ∧ hr_firewall_rules report = checks ∧
    (hr_overall_ok report = true ↔
     chain_present chain = true ∧ prerouting_hook_present chain = true ∧
     Forall (λ c, ck_status c = CheckStatus.ok) checks ∧
     Forall (route_there k) routes ∧ Forall (λ spec, no_extra_route k routes (rs_table spec)) routes ∧
     Forall (rule_there k) rules).
Proof.
  intros Hd Hchain Hrules. unfold health_report, try_catch_all.
  set (t2o := table_to_outbound (outbound_marks_ st) rules).
  set (r0 := with_rule_checks checks (with_chain chain (new_HealthReport backend))).
  destruct (check_routes_spec Hd t2o routes r0 k) as (r1 & k1 & l1 & H1 & Hk1 & Hg1 & Hok1).
  destruct (check_extra_spec Hd t2o routes r1 k1) as (r2 & k2 & l2 & H2 & Hk2 & Hg2 & Hok2).
  destruct (check_policy_spec Hd (outbound_marks_ st) rules r2 k2) as (r3 & k3 & l3 & H3 & Hk3 & Hg3 & Hok3).
  assert (Hrun : health_checks v st routes rules (new_HealthReport backend, k) = (Ok tt, (with_overall (all_ok r3) r3, k3))).
  { unfold health_checks, mbind, stexc_bind, on_verifier. rewrite Hchain. cbn [fst snd on_report]. rewrite Hrules. cbn [fst snd on_report].
    fold t2o r0. rewrite H1. cbn. rewrite H2. cbn. rewrite H3. done. }
  rewrite Hrun. do 2 eexists. split; [reflexivity|].
  split; [by eapply same_kernel_trans; [|eapply same_kernel_trans]|].
  unfold grows_routes in Hg1, Hg2. subst r1 r2 r3. split_and!; [done..|].
  cbn [with_overall hr_overall_ok]. unfold all_ok, r0. cbn [hr_firewall_chain hr_firewall_rules hr_route_tables hr_policy_rules
    with_rule_checks with_chain new_HealthReport app].
  assert (Hall : ∀ {A} (f : A → CheckStatus.t) l, forallb (λ c, bool_decide (f c = CheckStatus.ok)) l = true ↔ Forall (λ c, f c = CheckStatus.ok) l).
  { intros A f l. rewrite forallb_elem, Forall_forall. by setoid_rewrite bool_decide_eq_true. }
  rewrite !andb_true_iff, !Hall, Forall_app, Hok1, Hok2, Hok3.
  assert (E2 : Forall (λ spec, no_extra_route k1 routes (rs_table spec)) routes ↔ Forall (λ spec, no_extra_route k routes (rs_table spec)) routes).
  { apply Forall_iff. intros spec. by apply same_kernel_extra. }
  assert (E3 : Forall (rule_there k2) rules ↔ Forall (rule_there k) rules).
  { apply Forall_iff. intros spec. apply same_kernel_rule. by apply same_kernel_trans with k1. }
  rewrite E2, E3. tauto.
Qed.

(** What the report says is what is there: when the firewall can be listed and
    the kernel dumped, the report has no error and leaves the kernel alone, and
    it is good exactly when the chain is there and hooked, every firewall rule
    is found, every tracked route has an acceptable kernel route in its table,
    no table holds a default route that is not tracked, and every policy rule is
    there in each family it applies to. *)
Theorem health_report_exact {K} `{!RoutingNetlink K} `{!RoutingNetlinkLaws K} {V} `{!FirewallVerifier V}
    backend (v v1 v2 : V) chain checks st routes rules (k : K) :
  dumps_work (K := K) →
  fv_verify_chain (set_expected_fwmark_mask (fwmark_mask_ st) v) = (Ok chain, v1) →
  fv_verify_rules (fs_rules_ st) v1 = (Ok checks, v2) →
  ∃ report k', health_report backend v st routes rules k = (Ok report, k') ∧ same_kernel k k' ∧ hr_error report = [] ∧
    hr_firewall_backend report = Some backend ∧ hr_firewall_chain report = chain ∧ hr_firewall_rules report = checks ∧
    (hr_overall_ok report = true ↔
     chain_present chain = true ∧ prerouting_hook_present chain = true ∧
     Forall (λ c, ck_status c = CheckStatus.ok) checks ∧
     Forall (route_there k) routes ∧ Forall (λ spec, no_extra_route k routes (rs_table spec)) routes ∧
     Forall (rule_there k) rules).
Proof. apply health_report_spec. Qed.

(** Errors end up in the report. *)
Lemma health_report_error {K} `{!RoutingNetlink K} {V} `{!FirewallVerifier V} backend (v v1 : V) e st routes rules (k : K) :
  fv_verify_chain (set_expected_fwmark_mask (fwmark_mask_ st) v) = (Throw e, v1) →
  health_report backend v st routes rules k =
    (Ok (with_error (value_or (what e) "unknown error during health check") (new_HealthReport backend)), k).
Proof. intros H. unfold health_report, try_catch_all, health_checks, mbind, stexc_bind, on_verifier. by rewrite H. Qed.

Lemma health_report_never_throws {K} `{!RoutingNetlink K} {V} `{!FirewallVerifier V} backend (v : V) st routes rules (k : K) e :
  (health_report backend v st routes rules k).1 ≠ Throw e.
Proof.
  unfold health_report, try_catch_all. by destruct (health_checks v st routes rules _) as [[[]|e'|] [r k']].
Qed.

(** *** After a successful application *)

Section applied.
Context {K : Type} `{RN : !RoutingNetlink K} `{RL : !RoutingNetlinkLaws K}.

Lemma installed_health r d : installed_as r d → dr_table d = rs_table r ∧ health_route_matches r d = true.
Proof.
  intros [Hs Hm]. unfold same_route, route_family in Hs. cbn [at_metric rs_destination rs_table rs_interface rs_gateway rs_blackhole
    rs_unreachable rs_family rs_metric rs_protocol] in Hs. rewrite health_route_matches_true.
  rewrite !andb_true_iff, !bool_decide_eq_true, !eqb_true_iff, !Z.eqb_eq in Hs.
  destruct_and!. split_and!; try done. destruct (Z.eqb_spec (rs_family r) 0); [by left|by right].
Qed.

(** A reconciled kernel whose managed tables hold no default route of others *)
Lemma converged_healthy routes rules (k : K) : converged routes rules k →
  Forall (λ r, rs_destination r = "default") routes →
  (∀ d, kroutes k d → dr_table d ∈ rs_table <$> routes → dr_destination d = "default" → generated d = true) →
  Forall (route_there k) routes ∧ Forall (λ spec, no_extra_route k routes (rs_table spec)) routes ∧ Forall (rule_there k) rules.
Proof.
  intros (C1 & C2 & C3 & _) Hdef Hgen. rewrite !Forall_forall in *. split_and!.
  - intros r Hr. destruct (C1 r Hr) as (d & Hd & Hs). exists d. split; [done|]. by apply installed_acceptable; [apply Hdef|].
  - intros spec Hspec d Hd Ht Hdd. assert (Hg : generated d = true).
    { apply Hgen; [done| |done]. rewrite Ht. by apply list_elem_of_fmap_2. }
    destruct (C2 d) as (e & He & Hs); [done|apply elem_of_tables_of; by exists spec|done|].
    exists e. split; [done|]. destruct (installed_health e d Hs). split; [congruence|done].
  - intros r Hr f Hf Hap. destruct (C3 r f Hr Hf Hap) as (d & Hd & Hs & Hfam). exists d. by auto using same_rule_matches.
Qed.
End applied.

(** C23. The report after a successful application is good, for the nftables
    backend under the conditions of the agreement of verifier and backend (IPv6
    on, no rule left queued by a failed run, not the mode that refreshes the
    static sets only, a listing that shows every chain that holds rules, states
    that the verifier can recognize) and those of the convergence of the
    reconciler (a kernel that reproduces what it is asked to install, up to the
    metric of a route without one).  When the firewall run and the
    reconciliation have returned, all desired routes are default routes, no one
    else has a default route in the managed tables, the dumps of routes and
    rules succeed, and [nft] lists the rules that the chain now has, then the
    health report has no error, says that all is well, and is published as
    such. *)
Theorem applied_system_is_healthy {NL : Nlohmann} {SS : StdSort} {IP : InetPton} {FS : Files} {JT : JsonText}
    {KN} {NF : Nft KN} {K} `{RN : !RoutingNetlink K} `{RL : !RoutingNetlinkLaws K}
    cache keenetic config marks sel mode (f f' : NftablesFirewall KN) states before routes rules (k k' : K) :
  apply_runtime_firewall cache keenetic config marks sel true mode f = (Ok states, f') →
  mode ≠ FirewallApplyMode.StaticSetsOnly → pending_rules_ f = [] → families_ok (created_sets_ f) →
  listing_complete (kernel f) before →
  Forall (λ rs, action_type rs ≠ RuleActionType.Skip → verifiable rs) states →
  reproducible k routes rules → reconcile routes rules k = (Ok tt, k') →
  Forall (λ r, rs_destination r = "default") routes →
  (∀ d, kroutes k' d → dr_table d ∈ rs_table <$> routes → dr_destination d = "default" → generated d = true) →
  dumps_work (K := K) →
  ∃ doc, nft_run doc (kernel f) = (0, kernel f') ∧
    ∀ runner out root st, runner list_chain_command = mk_CommandResult out 0 false → out ≠ [] →
      json_parse out = Some root → lists_chain (before CHAIN_NAME) doc root → fs_rules_ st = states →
      ∃ report resp k'', build_routing_health_report runner FirewallBackend.nftables false st routes rules k' = (Ok report, k'') ∧
        hr_overall_ok report = true ∧ hr_error report = [] ∧
        routing_health_report_to_json report = Ok (to_json resp) ∧
        RoutingHealthResponse.overall resp = RoutingHealthResponseOverall.OK.
Proof.
  intros Hrun Hm Hpend Hfam Hshown Hv Hrep Hrec Hdef Hgen Hd.
  destruct (run_is_verified _ _ _ _ _ _ _ _ _ before Hrun Hm Hpend Hfam Hshown Hv) as (doc & Hnft & Hver). exists doc. split; [done|].
  intros runner out root st Hrunner Hout Hroot Hlist <-.
  destruct (Hver (create_nftables_verifier runner) out root) as (v' & checks & Hchain & Hrules & _ & Hok); [done..|].
  assert (Hconv : converged routes rules k') by (pose proof (reconcile_run k routes rules Hrep) as H; rewrite Hrec in H; apply H).
  destruct (converged_healthy routes rules k' Hconv Hdef Hgen) as (H1 & H2 & H3).
  destruct (health_report_spec FirewallBackend.nftables (create_firewall_verifier FirewallBackend.nftables false runner)
    (ViaNftables v') (ViaNftables v') (mk_ChainCheck true true "ok") checks st routes rules k' Hd)
    as (report & k'' & Hreport & _ & Herr & Hb & Hc & Hck & Hgood).
  - cbn. unfold via. by rewrite Hchain.
  - cbn. unfold via. by rewrite Hrules.
  - assert (Hall : hr_overall_ok report = true).
    { apply Hgood. split_and!; try done. eapply Forall_impl; [exact Hok|]. by intros c [? _]. }
    eexists report, _, k''. split_and!; [exact Hreport|done|done| |].
    + unfold routing_health_report_to_json. rewrite Herr, bool_decide_eq_true_2, Hb, Hall by done. reflexivity.
    + reflexivity.
Qed.

(** ** Where the report and its description differ *)

(** The check of the chain is described as of both families; one family with the
    chain and another with the hook are enough. *)
Lemma chain_in_one_family_is_enough {SS : StdSort} runner raw mask rules4 rules6 :
  let v := mk_IptVerifier runner raw mask
    (Some (mk_IptCached (mk_ParsedIptState true false rules4) (mk_ParsedIptState false true rules6))) in
  ipt_verify_chain v = (Ok (mk_ChainCheck true true "ok"), v).
Proof. done. Qed.

(** ** Witnesses *)

Lemma w_dumps_work : dumps_work (K := lists).
Proof. intros k. by split. Qed.

Definition w_listed_verifier : NftablesFirewallVerifier :=
  mk_NftVerifier (λ _, mk_CommandResult [] 0 false) (Some (NftVerifier.mk_CachedState (mk_ParsedNft true true true [] []) [])).
Definition w_health_state (states : list RuleState) : FirewallState := mk_FirewallState ∅ 0xFF0000 states ∅.
Definition w_reconciled : lists := (reconcile [w_route] [w_rule] w_kernel).2.
Definition w_health_verifier : FirewallVerifier AnyVerifier :=
  @AnyVerifier_FirewallVerifier w_nlohmann insertion_StdSort w_inet w_json_text.

Lemma w_no_foreign_default d : kroutes w_reconciled d → dr_table d ∈ rs_table <$> [w_route] →
  dr_destination d = "default" → generated d = true.
Proof.
  assert (H : forallb (λ d, negb (bool_decide (dr_destination d = "default")) || generated d) w_reconciled.1 = true)
    by (vm_compute; reflexivity).
  rewrite forallb_elem in H. intros Hd _ Hdef. specialize (H d Hd). by rewrite bool_decide_eq_true_2 in H.
Qed.

Lemma health_report_exact_witness :
  ∃ report k', @health_report lists _ _ w_health_verifier FirewallBackend.nftables (ViaNftables w_listed_verifier)
      (w_health_state []) [w_route] [w_rule] w_reconciled = (Ok report, k') ∧ hr_error report = [] ∧
    (hr_overall_ok report = true ↔ Forall (route_there w_reconciled) [w_route] ∧
       Forall (λ spec, no_extra_route w_reconciled [w_route] (rs_table spec)) [w_route] ∧ Forall (rule_there w_reconciled) [w_rule]).
Proof.
  destruct (@health_report_exact lists _ _ _ w_health_verifier FirewallBackend.nftables (ViaNftables w_listed_verifier)
    (ViaNftables w_listed_verifier) (ViaNftables w_listed_verifier) (mk_ChainCheck true true "ok") [] (w_health_state [])
    [w_route] [w_rule] w_reconciled) as (report & k' & Hr & _ & He & _ & _ & _ & Hiff).
  - exact w_dumps_work.
  - reflexivity.
  - reflexivity.
  - exists report, k'. split; [exact Hr|]. split; [exact He|]. rewrite Hiff. split; [by intros (_ & _ & _ & H)|].
    intros H. split_and!; try done; by apply H.
Defined.

Lemma applied_system_is_healthy_witness :
  ∃ states report k'', w_applied.1 = Ok states ∧
    @build_routing_health_report w_nlohmann insertion_StdSort w_inet w_json_text lists _
      (λ _, mk_CommandResult "{}" 0 false) FirewallBackend.nftables false (w_health_state states) [w_route] [w_rule]
      w_reconciled = (Ok report, k'') ∧ hr_overall_ok report = true ∧ hr_error report = [].
Proof.
  destruct w_applied as [[states|e|] f'] eqn:E; [|vm_compute in E; discriminate E..].
  assert (Hk : kernel f' = [w_doc]) by (unfold w_doc; rewrite E; vm_compute in E; injection E as _ <-; reflexivity).
  pose proof E as E0. unfold w_applied in E0.
  destruct (@applied_system_is_healthy w_nlohmann insertion_StdSort w_inet w_files w_json_text _ w_nft lists _ _ w_cache (Ok [])
    w_nft_config w_nft_marks ∅ FirewallApplyMode.Destructive w_fresh f' states (λ _, []) [w_route] [w_rule] w_kernel w_reconciled E0)
    as (doc & Hrun & H); [discriminate|reflexivity|by intros n x Hx|by intros live out _ _| |exact w_reproducible| | | |exact w_dumps_work|].
  { vm_compute in E. injection E as <- _. repeat constructor; cbn; try discriminate; intros; simplify_eq; lia. }
  { vm_compute. reflexivity. }
  { by repeat constructor. }
  { exact w_no_foreign_default. }
  assert (Hdoc : doc = w_doc) by (rewrite Hk in Hrun; cbn in Hrun; congruence). subst doc.
  destruct (H (λ _, mk_CommandResult "{}" 0 false) "{}" w_root (w_health_state states)) as (report & resp & k'' & Hr & Ho & He & _);
    [reflexivity|discriminate|reflexivity| |reflexivity|].
  { exists JNull, 1, (Z.of_nat <$> seq 2 (length w_exprs)), w_exprs. split; [reflexivity|]. split; [by rewrite length_fmap, length_seq|].
    fold w_exprs. generalize w_exprs. intros l. induction l; constructor; [apply listed_refl|done]. }
  exists states, report, k''. split; [reflexivity|]. split; [exact Hr|]. split; [exact Ho|exact He].
Defined.
