(* ===== verification/OutboundHealth.v ===== *)
(** * Outbound reachability and live outbound states
      (src/src/config/routing_state.cpp, src/src/health/runtime_outbound_state.cpp,
      src/src/health/runtime_interface_inventory.cpp)

    Whether a gateway is reachable through an interface, which child of a urltest
    outbound carries traffic, and the reports of the API made of them. *)

From S2P Require Import Prelude CppString Config Netlink Json ConfigJson ApiJson RoutingReconciler RoutingState AddrSpec.
From S2P Require Import FirewallRules CircuitBreaker UrlTest DnsTxt.

Local Open Scope Z_scope.

(** The interfaces of the system: [if_nametoindex], and the flags that [ioctl]
    reports for a name of at most [IFNAMSIZ - 1] bytes (nothing on failure). *)
Class NetDevices := {
  if_nametoindex : cstring → Z;
  ifr_flags : cstring → option Z;
}.
Definition IFNAMSIZ : nat := 16.
Definition IFF_UP : Z := 1.

(** ** Prefixes *)

Definition be_value (bytes : list Z) : Z := foldl (λ acc b, acc * 256 + b) 0 bytes.

Definition ipv4_prefix_contains (network candidate : list Z) (prefix_len : Z) : bool :=
  if prefix_len <=? 0 then true
  else
    let mask := if 32 <=? prefix_len then 0xFFFFFFFF else u32 (Z.shiftl 0xFFFFFFFF (32 - prefix_len)) in
    Z.land (be_value network) mask =? Z.land (be_value candidate) mask.

(** Reading past the sixteen bytes is undefined. *)
Definition ipv6_prefix_contains (network candidate : list Z) (prefix_len : Z) : exc bool :=
  if prefix_len <=? 0 then Ok true
  else
    let full_bytes := Z.to_nat (prefix_len / 8) in
    let extra_bits := prefix_len mod 8 in
    if (length network <? full_bytes)%nat then Undefined
    else if negb (bool_decide (take full_bytes network = take full_bytes candidate)) then Ok false
    else if extra_bits =? 0 then Ok true
    else match network !! full_bytes, candidate !! full_bytes with
    | Some n, Some c =>
        let mask := Z.land (Z.shiftl 0xFF (8 - extra_bits)) 0xFF in Ok (Z.land n mask =? Z.land c mask)
    | _, _ => Undefined
    end.

Section reachability.
Context {IP : InetPton} {ND : NetDevices}.

Definition parse_ip (ip : cstring) (family : Z) : option (list Z) := inet_pton family (c_str ip).
Definition detect_ip_family (ip : cstring) : exc Z :=
  if has_value (parse_ip ip AF_INET) then Ok AF_INET
  else if has_value (parse_ip ip AF_INET6) then Ok AF_INET6
  else Throw (ConfigError ("Invalid IP address: " ++ ip)).

Definition is_interface_up (iface : cstring) : bool :=
  match ifr_flags (take (IFNAMSIZ - 1) (c_str iface)) with
  | Some flags => negb (Z.land flags IFF_UP =? 0)
  | None => false
  end.

Definition text_family (s : cstring) : Z := if has_value (find_char ":" s) then AF_INET6 else AF_INET.

Definition route_contains_ip (route : DumpedRoute) (ip : cstring) : exc bool :=
  if bool_decide (dr_destination route = "default") then Ok true
  else match find_char "/" (dr_destination route) with
  | None => Ok (bool_decide (dr_destination route = ip))
  | Some slash =>
      let network := take slash (dr_destination route) in
      prefix_len ← stoi (drop (slash + 1) (dr_destination route));
      if negb (text_family ip =? text_family network) then Ok false
      else match parse_ip network (text_family ip) with
      | None => Ok false
      | Some network_addr =>
          match parse_ip ip (text_family ip) with
          | None => Ok false
          | Some ip_addr =>
              if text_family ip =? AF_INET then Ok (ipv4_prefix_contains network_addr ip_addr prefix_len)
              else ipv6_prefix_contains network_addr ip_addr prefix_len
          end
      end
  end.

Fixpoint interface_has_gateway_route (routes : list DumpedRoute) (iface gateway : cstring) : exc bool :=
  match routes with
  | [] => Ok false
  | route :: routes =>
      if dr_blackhole route || dr_unreachable route then interface_has_gateway_route routes iface gateway
      else if negb (bool_decide (dr_interface route = Some iface)) then interface_has_gateway_route routes iface gateway
      else
        route_contains_ip route gateway ≫= λ b : bool,
        if b then Ok true else interface_has_gateway_route routes iface gateway
  end.

Definition lift_exc {S A} (e : exc A) : stexc S A := λ s, (e, s).

Section kernel.
Context {K : Type} `{RN : !RoutingNetlink K}.

Definition gateway_ok (routes : list DumpedRoute) (iface : cstring) (gateway : option cstring) : exc bool :=
  match gateway with Some g => interface_has_gateway_route routes iface g | None => Ok true end.

Definition is_interface_outbound_reachable (outbound : Outbound) : stexc K bool :=
  if negb (bool_decide (type outbound = OutboundType.INTERFACE)) then mret true
  else
    let iface := value_or (interface outbound) [] in
    if bool_decide (iface = []) || (if_nametoindex (c_str iface) =? 0) then mret false
    else if negb (is_interface_up iface) then mret false
    else
      routes ← dump_routes_in_table 254;
      b4 ← lift_exc (gateway_ok routes iface (gateway outbound));
      if negb b4 then mret false
      else lift_exc (gateway_ok routes iface (gateway6 outbound)).
End kernel.

(** [IN6_IS_ADDR_UNSPECIFIED], [_LOOPBACK] and [_LINKLOCAL] *)
Definition routed_ipv6 (bytes : list Z) : bool :=
  negb (be_value bytes =? 0) && negb (be_value bytes =? 1) &&
  negb (match bytes with b0 :: b1 :: _ => (b0 =? 0xFE) && (Z.land b1 0xC0 =? 0x80) | _ => false end).

Definition interface_has_routed_ipv6 (i : DumpedInterface) : bool :=
  existsb (λ cidr,
    let address := match find_char "/" cidr with Some slash => take slash cidr | None => cidr end in
    match parse_ip address AF_INET6 with Some bytes => routed_ipv6 bytes | None => false end) (di_ipv6_addresses i).
End reachability.

(** ** The live state of the outbounds *)

Definition usable_default (r : DumpedRoute) : bool :=
  negb (negb (bool_decide (dr_destination r = "default")) || dr_blackhole r || dr_unreachable r).

(** The loop of [find_primary_default_route], over the best route so far *)
Definition find_primary_default_route (routes : list DumpedRoute) : option DumpedRoute :=
  foldl (λ primary r,
    if negb (usable_default r) then primary
    else match primary with
         | None => Some r
         | Some p => if dr_metric r <? dr_metric p then Some r else primary
         end) None routes.

Definition live_route_matches_outbound (route : DumpedRoute) (outbound : Outbound) : bool :=
  if negb (usable_default route) then false
  else if negb (bool_decide (type outbound = OutboundType.INTERFACE)) then false
  else if negb (has_value (dr_interface route)) || negb (bool_decide (dr_interface route = interface outbound)) then false
  else if (dr_family route =? AF_INET) && has_value (gateway outbound) then bool_decide (dr_gateway route = gateway outbound)
  else if (dr_family route =? AF_INET6) && has_value (gateway6 outbound) then bool_decide (dr_gateway route = gateway6 outbound)
  else true.

Definition map_urltest_child_status (child : Outbound) (reachable is_active : bool) (urltest_state : option UrltestState) :
    RuntimeInterfaceStatusEnum.t :=
  if negb (has_value (interface child)) then RuntimeInterfaceStatusEnum.UNKNOWN
  else if is_active then RuntimeInterfaceStatusEnum.ACTIVE
  else if negb reachable then RuntimeInterfaceStatusEnum.UNAVAILABLE
  else match urltest_state with
  | None => RuntimeInterfaceStatusEnum.BACKUP
  | Some st =>
      let breaker_open := match circuit_breakers st !! tag child with
                          | Some cb => bool_decide (state_of (tag child) cb = CircuitState.open)
                          | None => false end in
      if breaker_open then RuntimeInterfaceStatusEnum.UNAVAILABLE
      else match last_results st !! tag child with
      | None => RuntimeInterfaceStatusEnum.UNKNOWN
      | Some result => if success result then RuntimeInterfaceStatusEnum.BACKUP else RuntimeInterfaceStatusEnum.DEGRADED
      end
  end.

#[export] Instance RuntimeInterfaceStatusEnum_eq_dec : EqDecision RuntimeInterfaceStatusEnum.t.
Proof. solve_decision. Defined.

Definition has_status (interfaces : list RuntimeInterfaceState.t) (s : RuntimeInterfaceStatusEnum.t) : bool :=
  existsb (λ i, bool_decide (RuntimeInterfaceState.status i = s)) interfaces.

Definition derive_overall_status (interfaces : list RuntimeInterfaceState.t) (has_active_interface has_live_route : bool) :
    ApiJson.ResolverLiveStatus.t :=
  if has_active_interface then ApiJson.ResolverLiveStatus.HEALTHY
  else
    let has_backup := has_status interfaces RuntimeInterfaceStatusEnum.BACKUP in
    let has_degraded := has_status interfaces RuntimeInterfaceStatusEnum.DEGRADED in
    if has_live_route && (has_backup || has_degraded) then ApiJson.ResolverLiveStatus.DEGRADED
    else if has_backup then ApiJson.ResolverLiveStatus.DEGRADED
    else if has_degraded then ApiJson.ResolverLiveStatus.DEGRADED
    else if negb (bool_decide (length interfaces = 0%nat)) then ApiJson.ResolverLiveStatus.UNAVAILABLE
    else if has_live_route then ApiJson.ResolverLiveStatus.HEALTHY else ApiJson.ResolverLiveStatus.UNKNOWN.

Definition outbound_table_id (outbound_marks : OutboundMarkMap) (policy_rules : list RuleSpec) (outbound_tag : cstring) : option Z :=
  mark ← outbound_marks !! outbound_tag;
  rl_table <$> List.find (λ r, (rl_fwmark r =? mark) && bool_decide (rl_action r = RuleAction.lookup)) policy_rules.

Definition not_reachable : cstring := "interface is not reachable from the main routing table".

Section states.
Context {IP : InetPton} {ND : NetDevices} {K : Type} `{RN : !RoutingNetlink K}.
Context (marks : OutboundMarkMap) (policy_rules : list RuleSpec).

(** The routes in the table of an outbound *)
Definition outbound_routes (t : cstring) : stexc K (list DumpedRoute) :=
  match outbound_table_id marks policy_rules t with Some table_id => dump_routes_in_table table_id | None => mret [] end.

Definition build_interface_outbound_state (outbound : Outbound) : stexc K RuntimeOutboundStateElement.t :=
  routes ← outbound_routes (tag outbound);
  let primary_route := find_primary_default_route routes in
  reachable ← is_interface_outbound_reachable outbound;
  let active := match primary_route with Some r => live_route_matches_outbound r outbound | None => false end in
  let detail := if negb reachable then Some not_reachable
                else if negb active && negb (has_value primary_route)
                then Some (str "no active default route is installed in the outbound table") else None in
  let interfaces := [RuntimeInterfaceState.make detail (interface outbound) None (tag outbound)
    (if active then RuntimeInterfaceStatusEnum.ACTIVE else RuntimeInterfaceStatusEnum.UNAVAILABLE)] in
  mret (RuntimeOutboundStateElement.make None interfaces
    (derive_overall_status interfaces active (has_value primary_route)) (tag outbound) (type outbound)).

Definition build_table_outbound_state (outbound : Outbound) : stexc K RuntimeOutboundStateElement.t :=
  routes ← outbound_routes (tag outbound);
  mret (RuntimeOutboundStateElement.make None []
    (if has_value (find_primary_default_route routes) then ApiJson.ResolverLiveStatus.HEALTHY else ApiJson.ResolverLiveStatus.UNKNOWN)
    (tag outbound) (type outbound)).

(** The tag of the first child that the route matches, empty if none *)
Definition live_active_child (primary : option DumpedRoute) (children : list Outbound) : cstring :=
  match primary with
  | Some r => match List.find (live_route_matches_outbound r) children with Some c => tag c | None => [] end
  | None => []
  end.

Definition build_child_state (urltest_state : option UrltestState) (live_tag : cstring) (child : Outbound) :
    stexc K RuntimeInterfaceState.t :=
  reachable ← (if bool_decide (type child = OutboundType.INTERFACE) then is_interface_outbound_reachable child else mret false);
  let is_active := negb (bool_decide (live_tag = [])) && bool_decide (live_tag = tag child) in
  let status := map_urltest_child_status child reachable is_active urltest_state in
  let result := urltest_state ≫= λ st, last_results st !! tag child in
  let detail := result ≫= λ r, if bool_decide (error r = []) then None else Some (error r) in
  let detail := if negb (has_value detail) && bool_decide (status = RuntimeInterfaceStatusEnum.UNAVAILABLE) &&
                   bool_decide (type child = OutboundType.INTERFACE)
                then Some not_reachable else detail in
  mret (RuntimeInterfaceState.make detail (interface child) (latency_ms <$> result) (tag child) status).

Fixpoint build_child_states (urltest_state : option UrltestState) (live_tag : cstring) (children : list Outbound) :
    stexc K (list RuntimeInterfaceState.t) :=
  match children with
  | [] => mret []
  | c :: children =>
      s ← build_child_state urltest_state live_tag c;
      l ← build_child_states urltest_state live_tag children;
      mret (s :: l)
  end.

Context (urltest_state_lookup : cstring → option UrltestState).

Definition build_urltest_outbound_state (config : Config) (outbound : Outbound) : stexc K RuntimeOutboundStateElement.t :=
  let children := ordered_urltest_children (value_or (outbounds config) []) outbound in
  routes ← outbound_routes (tag outbound);
  let primary_route := find_primary_default_route routes in
  let urltest_state := urltest_state_lookup (tag outbound) in
  let live_tag := live_active_child primary_route children in
  interfaces ← build_child_states urltest_state live_tag children;
  let differs := has_value primary_route &&
    match urltest_state with
    | Some st => negb (bool_decide (selected_outbound st = [])) && negb (bool_decide (live_tag = [])) &&
                 negb (bool_decide (selected_outbound st = live_tag))
    | None => false end in
  mret (RuntimeOutboundStateElement.make
    (if differs then Some (str "live route selection differs from urltest manager selection") else None) interfaces
    (derive_overall_status interfaces (negb (bool_decide (live_tag = []))) (has_value primary_route))
    (tag outbound) (type outbound)).

Definition build_outbound_state (config : Config) (outbound : Outbound) : stexc K RuntimeOutboundStateElement.t :=
  match type outbound with
  | OutboundType.INTERFACE => build_interface_outbound_state outbound
  | OutboundType.TABLE => build_table_outbound_state outbound
  | OutboundType.URLTEST => build_urltest_outbound_state config outbound
  | OutboundType.BLACKHOLE | OutboundType.IGNORE =>
      mret (RuntimeOutboundStateElement.make None [] ApiJson.ResolverLiveStatus.HEALTHY (tag outbound) (type outbound))
  end.

Fixpoint build_outbound_states (config : Config) (obs : list Outbound) : stexc K (list RuntimeOutboundStateElement.t) :=
  match obs with
  | [] => mret []
  | o :: obs =>
      s ← build_outbound_state config o;
      l ← build_outbound_states config obs;
      mret (s :: l)
  end.

Definition build_runtime_outbounds_response (config : Config) : stexc K RuntimeOutboundsResponse.t :=
  l ← build_outbound_states config (value_or (outbounds config) []);
  mret (RuntimeOutboundsResponse.make l).
End states.

(** ** The interfaces *)

Definition map_interface_status (admin_up : bool) : RuntimeInterfaceInventoryStatusEnum.t :=
  if admin_up then RuntimeInterfaceInventoryStatusEnum.UP else RuntimeInterfaceInventoryStatusEnum.DOWN.
Definition non_empty_list {A} (l : list A) : option (list A) := match l with [] => None | _ => Some l end.
Definition build_runtime_interface_inventory_entry (d : DumpedInterface) : RuntimeInterfaceInventoryEntry.t :=
  RuntimeInterfaceInventoryEntry.make (Some (di_admin_up d)) (di_carrier d) None
    (non_empty_list (di_ipv4_addresses d)) (non_empty_list (di_ipv6_addresses d)) (di_name d) (di_oper_state d)
    (map_interface_status (di_admin_up d)).
Definition build_runtime_interface_inventory_response (l : list DumpedInterface) : RuntimeInterfaceInventoryResponse.t :=
  RuntimeInterfaceInventoryResponse.make (build_runtime_interface_inventory_entry <$> l).
Definition build_runtime_interface_inventory_response_or_empty (dumped : exc (list DumpedInterface)) :
    exc RuntimeInterfaceInventoryResponse.t :=
  match dumped with
  | Ok l => Ok (build_runtime_interface_inventory_response l)
  | Throw (NetlinkError _) => Ok (RuntimeInterfaceInventoryResponse.make [])
  | Throw e => Throw e
  | Undefined => Undefined
  end.

(** ** The prefix tests compare leading bits *)

Definition is_byte (b : Z) : Prop := 0 ≤ b < 256.

Lemma be_value_app l1 l2 : be_value (l1 ++ l2) = be_value l1 * 256 ^ Z.of_nat (length l2) + be_value l2.
Proof.
  unfold be_value. rewrite foldl_app. generalize (foldl (λ acc b, acc * 256 + b) 0 l1) as a. intros a.
  assert (H : ∀ l a, foldl (λ acc b, acc * 256 + b) a l = a * 256 ^ Z.of_nat (length l) + foldl (λ acc b, acc * 256 + b) 0 l).
  { clear. induction l as [|b l IH]; intros a; [cbn; lia|]. cbn [foldl length]. rewrite (IH (a * 256 + b)), (IH (0 * 256 + b)).
    rewrite Nat2Z.inj_succ, Z.pow_succ_r by lia. lia. }
  apply H.
Qed.
Lemma be_value_one b : be_value [b] = b.
Proof. done. Qed.
Lemma be_value_bound l : Forall is_byte l → 0 ≤ be_value l < 256 ^ Z.of_nat (length l).
Proof.
  induction l as [|b l IH] using rev_ind; [cbn; lia|]. intros [Hl [Hb _]%Forall_cons]%Forall_app. specialize (IH Hl).
  rewrite be_value_app, be_value_one, length_app. cbn [length]. unfold is_byte in Hb.
  rewrite Nat2Z.inj_add, Z.pow_add_r by lia. change (256 ^ Z.of_nat 1) with 256.
  revert IH. generalize (256 ^ Z.of_nat (length l)) as P. intros P IH. lia.
Qed.
Lemma be_value_inj l1 l2 : Forall is_byte l1 → Forall is_byte l2 → length l1 = length l2 → be_value l1 = be_value l2 → l1 = l2.
Proof.
  revert l2. induction l1 as [|b l IH] using rev_ind; intros l2.
  { destruct l2; done. }
  destruct l2 as [|b2 l2 _] using rev_ind; [intros _ _ H; rewrite length_app in H; cbn in H; lia|].
  intros [Hl [Hb _]%Forall_cons]%Forall_app [Hl2 [Hb2 _]%Forall_cons]%Forall_app. rewrite !length_app, !be_value_app. cbn.
  unfold is_byte in *. intros Hlen Heq. assert (b = b2 ∧ be_value l = be_value l2) as [-> E] by (change (Z.pow_pos 256 1) with 256 in Heq; lia).
  f_equal. apply IH; [done|done|lia|done].
Qed.

Lemma land_high_mask w k x : 0 ≤ k ≤ w → 0 ≤ x < 2 ^ w →
  Z.land x (Z.land (Z.shiftl (Z.ones w) k) (Z.ones w)) = x / 2 ^ k * 2 ^ k.
Proof.
  intros Hk Hx. rewrite <- Z.shiftr_div_pow2, <- Z.shiftl_mul_pow2 by lia. apply Z.bits_inj'. intros i Hi.
  rewrite !Z.land_spec. destruct (Z.ltb_spec i k) as [Hlt|Hge].
  - rewrite !Z.shiftl_spec_low by lia. by rewrite andb_false_r.
  - rewrite !Z.shiftl_spec_high, Z.shiftr_spec, Z.sub_add by lia. destruct (Z.ltb_spec i w) as [Hw|Hw].
    + rewrite !Z.ones_spec_low by lia. by rewrite !andb_true_r.
    + assert (Z.testbit x i = false) as ->; [|by rewrite ?andb_false_l].
      destruct (decide (x = 0)) as [->|]; [by rewrite Z.testbit_0_l|].
      apply Z.bits_above_log2; [lia|]. apply Z.log2_lt_pow2; [lia|]. eapply Z.lt_le_trans; [apply Hx|]. by apply Z.pow_le_mono_r.
Qed.

Lemma land_eq_div w k x y : 0 ≤ k ≤ w → 0 ≤ x < 2 ^ w → 0 ≤ y < 2 ^ w →
  (Z.land x (Z.land (Z.shiftl (Z.ones w) k) (Z.ones w)) =? Z.land y (Z.land (Z.shiftl (Z.ones w) k) (Z.ones w))) =
  (x / 2 ^ k =? y / 2 ^ k).
Proof.
  intros Hk Hx Hy. rewrite !(land_high_mask w k) by done. apply eq_bool_prop_intro. rewrite !Is_true_true, !Z.eqb_eq.
  pose proof (Z.pow_pos_nonneg 2 k). split; [|by intros ->]. apply Z.mul_reg_r. lia.
Qed.

Lemma ipv4_prefix_leading n c len : length n = 4%nat → length c = 4%nat → Forall is_byte n → Forall is_byte c → 0 ≤ len ≤ 32 →
  ipv4_prefix_contains n c len = (be_value n / 2 ^ (32 - len) =? be_value c / 2 ^ (32 - len)).
Proof.
  intros Hn Hc Bn Bc Hlen. unfold ipv4_prefix_contains.
  pose proof (be_value_bound n Bn) as Vn. pose proof (be_value_bound c Bc) as Vc. rewrite Hn in Vn. rewrite Hc in Vc.
  change (256 ^ Z.of_nat 4) with (2 ^ 32) in *.
  destruct (Z.leb_spec len 0) as [H0|H0].
  { replace len with 0 by lia. by rewrite !Z.div_small. }
  destruct (Z.leb_spec 32 len) as [H32|H32].
  { replace len with 32 by lia. change 0xFFFFFFFF with (Z.ones 32). rewrite !Z.land_ones, !Z.mod_small, !Z.div_1_r by lia. done. }
  rewrite <- (land_eq_div 32 (32 - len)) by lia. unfold u32, wrap. by rewrite Z.land_ones by lia.
Qed.

Lemma ipv6_prefix_leading n c len : length n = 16%nat → length c = 16%nat → Forall is_byte n → Forall is_byte c → 0 ≤ len ≤ 128 →
  ipv6_prefix_contains n c len = Ok (be_value n / 2 ^ (128 - len) =? be_value c / 2 ^ (128 - len)).
Proof.
  intros Hn Hc Bn Bc Hlen. unfold ipv6_prefix_contains.
  pose proof (be_value_bound n Bn) as Vn. pose proof (be_value_bound c Bc) as Vc. rewrite Hn in Vn. rewrite Hc in Vc.
  change (256 ^ Z.of_nat 16) with (2 ^ 128) in *.
  destruct (Z.leb_spec len 0) as [H0|H0].
  { replace len with 0 by lia. by rewrite !Z.div_small. }
  set (q := Z.to_nat (len / 8)). set (r := len mod 8).
  assert (Hq : Z.of_nat q = len / 8) by (unfold q; rewrite Z2Nat.id by zlia; done).
  assert (Hr : 0 ≤ r < 8) by (apply Z.mod_pos_bound; lia).
  assert (Hlr : len = 8 * Z.of_nat q + r) by (rewrite Hq; unfold r; pose proof (Z.div_mod len 8); lia).
  assert (Hq16 : (q ≤ 16)%nat) by lia. rewrite (proj2 (Nat.ltb_ge _ _)) by lia.
  assert (Bt : ∀ l, Forall is_byte l → Forall is_byte (take q l)) by (intros; by apply Forall_take).
  assert (Hinj : take q n = take q c ↔ be_value (take q n) = be_value (take q c)).
  { split; [by intros ->|]. apply be_value_inj; auto. rewrite !length_take. lia. }
  destruct (decide (q = 16%nat)) as [E16|E16].
  - assert (r = 0) as -> by lia. rewrite !take_ge in * by lia. replace (128 - len) with 0 by lia. rewrite !Z.div_1_r. cbn [Z.eqb].
    case_bool_decide as Ht; cbn [negb]; f_equal; symmetry; [apply Z.eqb_eq|apply Z.eqb_neq]; by rewrite <- Hinj.
  - destruct (lookup_lt_is_Some_2 n q) as [bn En]; [lia|]. destruct (lookup_lt_is_Some_2 c q) as [bc Ec]; [lia|].
    rewrite En, Ec.
    assert (Hdiv : ∀ l b, length l = 16%nat → Forall is_byte l → l !! q = Some b →
      is_byte b ∧ be_value l / 2 ^ (128 - len) = be_value (take q l) * 2 ^ r + b / 2 ^ (8 - r)).
    { intros l b Hl Bl Eb. pose proof (take_drop_middle l q b Eb) as Hsplit. rewrite <- Hsplit in Bl |- *.
      apply Forall_app in Bl as [_ [Hb Brest]%Forall_cons]. split; [done|]. unfold is_byte in Hb.
      rewrite (take_app_le _ _ q), take_take, Nat.min_id by (rewrite length_take; lia).
      change (b :: drop (S q) l) with ([b] ++ drop (S q) l). rewrite !be_value_app, be_value_one, length_app, length_drop, Hl.
      pose proof (be_value_bound _ Brest) as Vr. rewrite length_drop, Hl in Vr. cbn [length].
      set (m := (16 - S q)%nat) in *.
      replace (1 + m)%nat with (S m) by lia. rewrite Nat2Z.inj_succ, Z.pow_succ_r by lia.
      assert (Hpow : 2 ^ (128 - len) = 2 ^ (8 - r) * 256 ^ Z.of_nat m).
      { change 256 with (2 ^ 8). rewrite <- Z.pow_mul_r, <- Z.pow_add_r by lia. f_equal. lia. }
      assert (H8 : 256 = 2 ^ (8 - r) * 2 ^ r) by (rewrite <- Z.pow_add_r by lia; replace (8 - r + r) with 8 by lia; done).
      assert (0 < 2 ^ (8 - r)) by (apply Z.pow_pos_nonneg; lia). assert (0 < 256 ^ Z.of_nat m) by (apply Z.pow_pos_nonneg; lia).
      rewrite Hpow, (Z.mul_comm (2 ^ (8 - r))), <- Z.div_div by lia.
      replace (be_value (take q l) * (256 * 256 ^ Z.of_nat m) + (b * 256 ^ Z.of_nat m + be_value (drop (S q) l)))
        with (be_value (drop (S q) l) + (be_value (take q l) * 256 + b) * 256 ^ Z.of_nat m) by lia.
      rewrite Z.div_add, (Z.div_small (be_value (drop (S q) l))), Z.add_0_l by lia.
      replace (be_value (take q l) * 256 + b) with (b + be_value (take q l) * 2 ^ r * 2 ^ (8 - r)) by (rewrite H8; lia).
      rewrite Z.div_add by lia. lia. }
    destruct (Hdiv n bn Hn Bn En) as [Bbn ->]. destruct (Hdiv c bc Hc Bc Ec) as [Bbc ->]. unfold is_byte in Bbn, Bbc.
    assert (Hlow : ∀ b, 0 ≤ b < 256 → 0 ≤ b / 2 ^ (8 - r) < 2 ^ r).
    { intros b Hb. split; [apply Z.div_pos; [lia|apply Z.pow_pos_nonneg; lia]|]. apply Z.div_lt_upper_bound; [apply Z.pow_pos_nonneg; lia|].
      rewrite <- Z.pow_add_r by lia. replace (8 - r + r) with 8 by lia. lia. }
    pose proof (Hlow bn Bbn) as Ln. pose proof (Hlow bc Bbc) as Lc.
    case_bool_decide as Ht; cbn [negb].
    + rewrite Hinj in Ht. rewrite Ht. destruct (Z.eqb_spec r 0) as [->|Hr0].
      { f_equal. symmetry. apply Z.eqb_eq. rewrite Z.pow_0_r in Ln, Lc. lia. }
      f_equal. change 0xFF with (Z.ones 8) at 1 2. rewrite (land_eq_div 8 (8 - r)) by lia.
      apply eq_bool_prop_intro. rewrite !Is_true_true, !Z.eqb_eq. lia.
    + f_equal. symmetry. apply Z.eqb_neq. intros E. apply Ht, Hinj. nia.
Qed.

(** ** The primary route *)

Lemma find_primary_split routes : match find_primary_default_route routes with
  | None => Forall (λ r, usable_default r = false) routes
  | Some p => ∃ l1 l2, routes = l1 ++ p :: l2 ∧ usable_default p = true ∧
      Forall (λ r, usable_default r = true → dr_metric p < dr_metric r) l1 ∧
      Forall (λ r, usable_default r = true → dr_metric p ≤ dr_metric r) l2
  end.
Proof.
  unfold find_primary_default_route. induction routes as [|r routes IH] using rev_ind; [constructor|]. rewrite foldl_snoc.
  destruct (foldl _ None routes) as [p|] eqn:E.
  - destruct IH as (l1 & l2 & -> & Hp & H1 & H2). destruct (usable_default r) eqn:Er; cbn [negb].
    + destruct (Z.ltb_spec (dr_metric r) (dr_metric p)) as [Hlt|Hge].
      * exists (l1 ++ p :: l2), []. split_and!; [by rewrite <- app_assoc|done| |constructor].
        apply Forall_app. split; [|constructor; [done|]].
        -- eapply Forall_impl; [exact H1|]. cbn. intros x Hx Hu. specialize (Hx Hu). lia.
        -- eapply Forall_impl; [exact H2|]. cbn. intros x Hx Hu. specialize (Hx Hu). lia.
      * exists l1, (l2 ++ [r]). split_and!; [by rewrite <- app_assoc|done|done|]. apply Forall_app. split; [done|].
        apply Forall_singleton. lia.
    + exists l1, (l2 ++ [r]). split_and!; [by rewrite <- app_assoc|done|done|]. apply Forall_app. split; [done|].
      apply Forall_singleton. by rewrite Er.
  - destruct (usable_default r) eqn:Er; cbn [negb].
    + exists routes, []. split_and!; [done|done| |constructor]. eapply Forall_impl; [exact IH|]. cbn. by intros x ->.
    + apply Forall_app. split; [done|]. by apply Forall_singleton.
Qed.

Lemma find_primary_Some routes p : find_primary_default_route routes = Some p →
  p ∈ routes ∧ usable_default p = true ∧ ∀ r, r ∈ routes → usable_default r = true → dr_metric p ≤ dr_metric r.
Proof.
  intros E. pose proof (find_primary_split routes) as H. rewrite E in H. destruct H as (l1 & l2 & -> & Hp & H1 & H2).
  rewrite Forall_forall in H1, H2. split; [set_solver|]. split; [done|].
  intros r [Hr|[->|Hr]%elem_of_cons]%elem_of_app Hu; [|lia|by apply H2]. specialize (H1 r Hr Hu). lia.
Qed.

(** ** The child that is reported active *)

Lemma route_matches_live r c : type c = OutboundType.INTERFACE → has_value (interface c) = true →
  route_matches_outbound r c = true → live_route_matches_outbound r c = true.
Proof.
  intros Ht Hi. unfold route_matches_outbound, live_route_matches_outbound, usable_default. rewrite Ht.
  rewrite (bool_decide_eq_true_2 (OutboundType.INTERFACE = OutboundType.INTERFACE)) by done.
  destruct (_ || _ || _); [done|]. cbn [negb]. case_bool_decide as E; [|done]. rewrite E, Hi. cbn [negb orb].
  destruct (_ && _); [done|]. by destruct (_ && _).
Qed.

Lemma live_other_interface r c : dr_interface r ≠ interface c → live_route_matches_outbound r c = false.
Proof.
  intros H. unfold live_route_matches_outbound. destruct (negb _); [done|]. destruct (negb _); [done|].
  by rewrite (bool_decide_eq_false_2 (dr_interface r = interface c)), orb_true_r.
Qed.

Lemma candidate_metric reach avail t m children r : 0 ≤ m → r ∈ candidate_routes reach avail t m children → 0 ≤ rs_metric r.
Proof.
  revert m. induction children as [|c children IH]; intros m Hm; [by intros ?%elem_of_nil|]. cbn [candidate_routes].
  destruct (negb _); [by apply IH|]. destruct (negb _); [by apply IH|].
  intros [(r' & -> & _)%list_elem_of_fmap|Hr]%elem_of_app; [done|]. eapply IH; [|exact Hr]. unfold u32, wrap. zlia.
Qed.

Lemma urltest_metric cfg reach sel avail t u r : r ∈ urltest_routes cfg reach sel avail t u → 0 ≤ rs_metric r.
Proof.
  unfold urltest_routes. case_bool_decide; [by intros ?%elem_of_nil|]. intros [Hr|Hr]%elem_of_app; [|by eapply candidate_metric; [|exact Hr]].
  destruct (find_outbound _ _) as [x|]; [|by apply elem_of_nil in Hr]. destruct (_ && _); [|by apply elem_of_nil in Hr].
  apply elem_of_app in Hr as [Hr|Hr].
  - by apply elem_of_default_routes in Hr as [[-> _]|[-> _]].
  - unfold make_family_closure_routes in Hr. apply elem_of_app in Hr as [Hr|Hr]; destruct (negb _);
      first [by apply elem_of_nil in Hr|apply list_elem_of_singleton in Hr as ->; done].
Qed.

Lemma elem_of_children obs u c : c ∈ ordered_urltest_children obs u ↔ ∃ t, t ∈ urltest_child_tags u ∧ find_outbound obs t = Some c.
Proof.
  unfold ordered_urltest_children, urltest_child_tags. destruct (outbound_groups u) as [groups|]; cbn [value_or].
  - rewrite list_elem_of_bind. setoid_rewrite list_elem_of_omap. setoid_rewrite list_elem_of_bind. setoid_rewrite stable_sort_perm. naive_solver.
  - cbn. rewrite elem_of_nil. setoid_rewrite elem_of_nil. naive_solver.
Qed.

Section reported.
Context (cfg : Config) (reach : OutboundReachabilityFn) (sel : option (gmap cstring cstring)).
Context (avail : OutboundFamilyAvailabilityFn) (ipv6 : bool) (u c : Outbound) (t : Z).
Abbreviation obs := (value_or (outbounds cfg) []).
Abbreviation s := (resolve_urltest_selection sel (tag u)).
Abbreviation live := (dumped (enabled_routes ipv6 (urltest_routes cfg reach sel avail t u))).

Lemma primary_is_selected (Hrec : recoverable cfg reach sel u c) : enabled_routes ipv6 (make_default_routes t c avail) ≠ [] →
  ∃ r, find_primary_default_route live = Some (dumped_route_from_spec r) ∧ r ∈ make_default_routes t c avail.
Proof.
  intros Hsome.
  assert (Hin : ∀ l r, r ∈ enabled_routes ipv6 l → r ∈ l) by (intros l r; unfold enabled_routes; rewrite !list_elem_of_In, filter_In; tauto).
  destruct (enabled_routes ipv6 (make_default_routes t c avail)) as [|r0 l0] eqn:E0; [done|]. clear Hsome.
  assert (Hr0 : r0 ∈ enabled_routes ipv6 (make_default_routes t c avail)) by (rewrite E0; left).
  assert (Hd0 : r0 ∈ enabled_routes ipv6 (urltest_routes cfg reach sel avail t u)).
  { revert Hr0. unfold enabled_routes. rewrite !list_elem_of_In, !filter_In. intros [H1 H2]. split; [|done].
    apply list_elem_of_In in H1. apply list_elem_of_In. unfold urltest_routes. rewrite bool_decide_eq_false_2 by apply Hrec.
    rewrite (rec_found_sorted _ _ _ _ _ Hrec), (rec_type _ _ _ _ _ Hrec), (rec_reachable _ _ _ _ _ Hrec).
    rewrite (bool_decide_eq_true_2 (OutboundType.INTERFACE = OutboundType.INTERFACE)) by done.
    cbn [andb]. apply elem_of_app. left. apply elem_of_app. by left. }
  destruct (default_route_matches t c avail r0 (rec_type _ _ _ _ _ Hrec) (rec_interface _ _ _ _ _ Hrec) (Hin _ _ Hr0)) as [Hs0 _].
  assert (Hz : ∀ d, skipped d = false → usable_default d = true ∧ dr_metric d = 0).
  { intros d. unfold skipped, usable_default.
    destruct (negb (bool_decide (dr_destination d = "default")) || dr_blackhole d || dr_unreachable d); [done|]. cbn. destruct (Z.eqb_spec (dr_metric d) 0); done. }
  assert (Hz' : ∀ d, skipped d = true → usable_default d = true → dr_metric d ≠ 0).
  { intros d. unfold skipped, usable_default.
    destruct (negb (bool_decide (dr_destination d = "default")) || dr_blackhole d || dr_unreachable d); [done|]. cbn. destruct (Z.eqb_spec (dr_metric d) 0); done. }
  destruct (Hz _ Hs0) as [Hu0 Hm0].
  destruct (find_primary_default_route live) as [p|] eqn:Ep.
  - apply find_primary_Some in Ep as (Hp & Hup & Hmin). apply list_elem_of_fmap in Hp as (r & -> & Hr).
    exists r. split; [done|]. pose proof (Hin _ _ Hr) as Hr'.
    destruct (recover_routes cfg reach sel avail u c t Hrec r Hr') as [?|Hsk]; [done|]. exfalso.
    pose proof (Hz' _ Hsk Hup) as Hne. pose proof (Hmin _ (list_elem_of_fmap_2 _ _ _ Hd0) Hu0) as Hle. rewrite Hm0 in Hle.
    apply urltest_metric in Hr'. cbn in Hle, Hne. lia.
  - exfalso. pose proof (find_primary_split live) as H. rewrite Ep in H. rewrite Forall_forall in H.
    specialize (H _ (list_elem_of_fmap_2 _ _ _ Hd0)). congruence.
Qed.

Lemma live_child_is_selected (Hrec : recoverable cfg reach sel u c) : enabled_routes ipv6 (make_default_routes t c avail) ≠ [] →
  live_active_child (find_primary_default_route live) (ordered_urltest_children obs u) = s.
Proof.
  intros Hsome. destruct (primary_is_selected Hrec Hsome) as (r & -> & Hr). unfold live_active_child.
  pose proof (rec_type _ _ _ _ _ Hrec) as Ht. pose proof (rec_interface _ _ _ _ _ Hrec) as Hi.
  destruct (default_route_matches t c avail r Ht Hi Hr) as [_ Hm].
  destruct (List.find _ _) as [x|] eqn:Ex.
  - apply find_some in Ex as [Hx Hlive]. apply list_elem_of_In, elem_of_children in Hx as (tx & Htx & Hfx).
    pose proof (find_outbound_Some _ _ _ Hfx) as [_ ->]. destruct (decide (tx = s)) as [->|Hne]; [done|].
    rewrite live_other_interface in Hlive; [done|]. pose proof (rec_distinct _ _ _ _ _ Hrec tx x Htx Hne Hfx) as Hd.
    intros E. apply Hd. rewrite <- E. destruct (interface c) as [i|] eqn:Ei; [|done].
    apply elem_of_default_routes in Hr as [[-> _]|[-> _]]; cbn; by rewrite Ei.
  - exfalso. assert (Hn : live_route_matches_outbound (dumped_route_from_spec r) c = false).
    { apply (find_none _ _ Ex c), list_elem_of_In, elem_of_children. exists s. split; apply Hrec. }
    rewrite route_matches_live in Hn; done.
Qed.

Lemma Forall2_Forall_l {A B} (P : A → Prop) (R : A → B → Prop) l m :
  Forall P l → Forall2 R l m → Forall2 (λ x y, P x ∧ R x y) l m.
Proof. intros HP H. induction H; [constructor|]. apply Forall_cons in HP as [? ?]. constructor; auto. Qed.

Lemma child_states_Ok {IP : InetPton} {ND : NetDevices} {K} `{RN : !RoutingNetlink K} ust live_tag children (k k' : K) l :
  build_child_states ust live_tag children k = (Ok l, k') →
  Forall2 (λ x i, RuntimeInterfaceState.outbound_tag i = tag x ∧ RuntimeInterfaceState.interface_name i = interface x ∧
    (RuntimeInterfaceState.status i = RuntimeInterfaceStatusEnum.ACTIVE ↔
     live_tag ≠ [] ∧ live_tag = tag x ∧ has_value (interface x) = true)) children l.
Proof.
  revert k l. induction children as [|x children IH]; intros k l; cbn [build_child_states]; [by intros [= <- <-]|].
  unfold mbind, stexc_bind. destruct (build_child_state ust live_tag x k) as [[i|e|] k1] eqn:E1; [|done..].
  destruct (build_child_states ust live_tag children k1) as [[l'|e|] k2] eqn:E2; [|done..]. intros [= <- <-].
  constructor; [|by eapply IH]. unfold build_child_state, mbind, stexc_bind in E1.
  destruct ((if bool_decide (type x = OutboundType.INTERFACE) then is_interface_outbound_reachable x else mret false) k) as [[reachable|e|] k3]; [|done..]. injection E1 as <- <-.
  cbn [RuntimeInterfaceState.outbound_tag RuntimeInterfaceState.interface_name RuntimeInterfaceState.status]. split; [done|]. split; [done|].
  unfold map_urltest_child_status. destruct (has_value (interface x)); cbn [negb]; [|split; [done|by intros (_ & _ & ?)]].
  destruct (bool_decide_reflect (live_tag = [])) as [->|Hne]; cbn [negb andb].
  { split; [|by intros [? _]]. destruct (negb reachable); [done|]. destruct ust as [st|]; [|done].
    destruct (match circuit_breakers st !! tag x with Some _ => _ | None => _ end); [done|].
    destruct (last_results st !! tag x) as [res|]; [by destruct (success res)|done]. }
  destruct (bool_decide_reflect (live_tag = tag x)) as [->|Hnt]; [done|].
  split; [|by intros (_ & ? & _)]. destruct (negb reachable); [done|]. destruct ust as [st|]; [|done].
  destruct (match circuit_breakers st !! tag x with Some _ => _ | None => _ end); [done|].
  destruct (last_results st !! tag x) as [res|]; [by destruct (success res)|done].
Qed.
End reported.

(** The prefix test of the reachability check is what a prefix means: on the
    bytes of addresses, for every length of the family, an address is taken to be
    in a network exactly when the leading bits agree; the loop over bytes and
    the mask of the last byte never read outside the address. *)
Theorem prefix_tests_compare_leading_bits (n c : list Z) len :
  length n = length c → Forall is_byte n → Forall is_byte c →
  (length n = 4%nat → 0 ≤ len ≤ 32 →
   ipv4_prefix_contains n c len = (be_value n / 2 ^ (32 - len) =? be_value c / 2 ^ (32 - len))) ∧
  (length n = 16%nat → 0 ≤ len ≤ 128 →
   ipv6_prefix_contains n c len = Ok (be_value n / 2 ^ (128 - len) =? be_value c / 2 ^ (128 - len))).
Proof.
  intros Hl Hn Hc. split; intros H Hlen; [apply ipv4_prefix_leading|apply ipv6_prefix_leading]; congruence || done.
Qed.

(** The report names the child that carries the traffic: when the table of a
    urltest outbound holds the routes planned for its selection, the selected
    child is reachable in an enabled family and the children use distinct
    interfaces, the outbound is reported healthy, no difference from the
    selection is reported, and the interfaces reported active are exactly
    those of the selected child. *)
Theorem selected_child_is_reported_active {IP : InetPton} {ND : NetDevices} {K} `{RN : !RoutingNetlink K}
    cfg reach sel avail ipv6 u c t marks rules lookup (k k1 k' : K) st :
  recoverable cfg reach sel u c → enabled_routes ipv6 (make_default_routes t c avail) ≠ [] →
  outbound_routes marks rules (tag u) k = (Ok (dumped (enabled_routes ipv6 (urltest_routes cfg reach sel avail t u))), k1) →
  (∀ s, lookup (tag u) = Some s → selected_outbound s = resolve_urltest_selection sel (tag u)) →
  build_urltest_outbound_state marks rules lookup cfg u k = (Ok st, k') →
  RuntimeOutboundStateElement.status st = ApiJson.ResolverLiveStatus.HEALTHY ∧
  RuntimeOutboundStateElement.detail st = None ∧
  Forall2 (λ x i, RuntimeInterfaceState.outbound_tag i = tag x ∧
      (RuntimeInterfaceState.status i = RuntimeInterfaceStatusEnum.ACTIVE ↔ x = c))
    (ordered_urltest_children (value_or (outbounds cfg) []) u) (RuntimeOutboundStateElement.interfaces st).
Proof.
  intros Hrec Hsome Hroutes Hsel. unfold build_urltest_outbound_state, mbind, stexc_bind. rewrite Hroutes.
  pose proof (live_child_is_selected cfg reach sel avail ipv6 u c t Hrec Hsome) as Hlive.
  destruct (primary_is_selected cfg reach sel avail ipv6 u c t Hrec Hsome) as (r & Hp & _). rewrite Hlive, Hp.
  set (children := ordered_urltest_children _ u). set (s := resolve_urltest_selection sel (tag u)) in *.
  destruct (build_child_states _ _ children k1) as [[l|e|] k2] eqn:E; [|done..]. intros [= <- <-].
  assert (Hs : s ≠ []) by apply Hrec.
  cbn [RuntimeOutboundStateElement.status RuntimeOutboundStateElement.detail RuntimeOutboundStateElement.interfaces].
  split_and!.
  - unfold derive_overall_status. by rewrite bool_decide_eq_false_2.
  - destruct (lookup (tag u)) as [ust|]; [|by rewrite ?andb_false_r]. rewrite (Hsel ust eq_refl). fold s.
    by rewrite (bool_decide_eq_true_2 (s = s)), ?andb_false_r.
  - apply child_states_Ok in E.
    assert (Hall : Forall (λ x, x ∈ children) children) by (by apply Forall_forall).
    eapply Forall2_impl; [exact (Forall2_Forall_l _ _ _ _ Hall E)|]. cbn. intros x i (Hx & Htag & _ & Hact). split; [done|].
    rewrite Hact. apply elem_of_children in Hx as (tx & Htx & Hfx). pose proof (find_outbound_Some _ _ _ Hfx) as [_ <-]. split.
    + intros (_ & Heq & _). fold s in Heq. pose proof (rec_found _ _ _ _ _ Hrec) as Hf. fold s in Hf. rewrite Heq in Hf. congruence.
    + intros ->. split; [done|]. pose proof (find_outbound_Some _ _ _ (rec_found _ _ _ _ _ Hrec)) as [_ Ht]. fold s in Ht.
      split; [done|apply Hrec].
Qed.

(** ** Witnesses *)

Lemma prefix_tests_compare_leading_bits_witness :
  ipv4_prefix_contains [10; 1; 0; 0] [10; 1; 127; 9] 17 = true ∧
  ipv6_prefix_contains (32 :: 1 :: replicate 14 0) (32 :: 1 :: 15 :: replicate 13 0) 21 = Ok false.
Proof.
  assert (B4 : Forall is_byte [10; 1; 0; 0] ∧ Forall is_byte [10; 1; 127; 9]) by (unfold is_byte; split; repeat constructor; lia).
  assert (B6 : Forall is_byte (32 :: 1 :: replicate 14 0) ∧ Forall is_byte (32 :: 1 :: 15 :: replicate 13 0))
    by (unfold is_byte; split; repeat constructor; lia).
  split.
  - rewrite (proj1 (prefix_tests_compare_leading_bits [10; 1; 0; 0] [10; 1; 127; 9] 17 eq_refl (proj1 B4) (proj2 B4)) eq_refl); [reflexivity|lia].
  - rewrite (proj2 (prefix_tests_compare_leading_bits (32 :: 1 :: replicate 14 0) (32 :: 1 :: 15 :: replicate 13 0) 21 eq_refl (proj1 B6) (proj2 B6)) eq_refl); [reflexivity|lia].
Defined.

Definition w_devices : NetDevices := {| if_nametoindex _ := 1; ifr_flags _ := Some 1 |}.
Definition w_table_routes : list DumpedRoute :=
  dumped (enabled_routes true (urltest_routes w_fw_config None w_selection None 150 w_urltest)).
Definition w_live_kernel : lists := (w_table_routes, []).
Definition w_live_marks : OutboundMarkMap := {[ str "auto" := 65536 ]}.
Definition w_live_report := @build_urltest_outbound_state w_inet w_devices lists _ w_live_marks [w_rule] (λ _, None)
  w_fw_config w_urltest w_live_kernel.

Lemma w_recoverable : recoverable w_fw_config None w_selection w_urltest (w_interface "b" false).
Proof.
  split; try (vm_compute; (reflexivity || discriminate)).
  - right. left.
  - intros t' c'. change (urltest_child_tags w_urltest) with [str "a"; str "b"].
    assert (resolve_urltest_selection w_selection (tag w_urltest) = str "b") as -> by (vm_compute; reflexivity).
    rewrite !elem_of_cons, elem_of_nil. intros [->|[->|[]]] Hne; [|by destruct Hne]. vm_compute. by intros [= <-].
Qed.

Lemma selected_child_is_reported_active_witness :
  ∃ st k', w_live_report = (Ok st, k') ∧ RuntimeOutboundStateElement.status st = ApiJson.ResolverLiveStatus.HEALTHY ∧
    RuntimeInterfaceState.status <$> RuntimeOutboundStateElement.interfaces st !! 1%nat = Some RuntimeInterfaceStatusEnum.ACTIVE.
Proof.
  destruct w_live_report as [[st|e|] k'] eqn:E; [|vm_compute in E; discriminate E..]. exists st, k'. split; [reflexivity|].
  destruct (@selected_child_is_reported_active w_inet w_devices lists _ w_fw_config None w_selection None true w_urltest
    (w_interface "b" false) 150 w_live_marks [w_rule] (λ _, None) w_live_kernel w_live_kernel k' st) as (H1 & _ & H3).
  - exact w_recoverable.
  - vm_compute. discriminate.
  - vm_compute. reflexivity.
  - discriminate.
  - exact E.
  - split; [exact H1|].
    destruct (Forall2_lookup_l _ _ _ 1%nat (w_interface "b" false) H3) as (i & -> & _ & Hi); [vm_compute; reflexivity|].
    cbn. by rewrite (proj2 Hi).
Defined.
