(* ===== verification/Dnsmasq.v ===== *)
(** * The dnsmasq configuration (src/src/dns/dnsmasq_gen.{hpp,cpp})

    One pass over the lists writes the directives and feeds the hash of the
    configuration; the hash is published in the configuration itself as a TXT
    record and computed by the daemon without writing anything. *)

From S2P Require Import Prelude CppString Config Md5 AddrSpec DnsServer DnsTxt.
From S2P Require Import FirewallRules ListParser ListStreamer.

Local Open Scope Z_scope.

Module ResolverType.
Inductive t := DNSMASQ_IPSET | DNSMASQ_NFTSET.
#[global] Instance t_eq_dec : EqDecision t.
Proof. solve_decision. Defined.
End ResolverType.

Record KeeneticStaticDnsEntry := { ks_domain : cstring; ks_address : cstring }.
Record KeeneticDnsUpstreamEntry := { ku_address : cstring; ku_kind : cstring; ku_target : cstring }.

Definition kDnsProbeZone : cstring := "check.keen.pbr".
Definition kBatchSize : nat := 50.
Definition kMaxDnsmasqRowLength : nat := 1024.
Definition kMaxDomainNameLength : nat := 255.
Definition kIpsetPrefixLen : nat := length (str "ipset=").
Definition kNftsetPrefixLen : nat := length (str "nftset=").
Definition kRebindPrefixLen : nat := length (str "rebind-domain-ok=").
Definition kServerPrefixLen : nat := length (str "server=").
Definition kNftSetPrefix : cstring := "/4#inet#KeenPbrTable#".
Definition kNftSetMiddle : cstring := ",6#inet#KeenPbrTable#".

Definition eol : cstring := [chr 10].

Definition ipset_name_v4 (list_name : cstring) : cstring := "kpbr4d_" ++ list_name.
Definition ipset_name_v6 (list_name : cstring) : cstring := "kpbr6d_" ++ list_name.

Definition strip_wildcard (domain : cstring) : cstring :=
  if (2 <? length domain)%nat && starts_with "*." domain then drop 2 domain else domain.

Definition keenetic_static_domain_pattern (domain : cstring) : cstring :=
  if (2 <? length domain)%nat && starts_with "*." domain then "/" ++ drop 2 domain
  else "/" ++ domain.

Definition parse_resolver_type (s : cstring) : exc ResolverType.t :=
  if bool_decide (s = "dnsmasq-ipset") then Ok ResolverType.DNSMASQ_IPSET
  else if bool_decide (s = "dnsmasq-nftset") then Ok ResolverType.DNSMASQ_NFTSET
  else Throw (invalid_argument ("Unknown resolver type: " ++ s)).

(** ** The output and the hash *)

(** [out] is [None] for a null stream. *)
Record sink := mk_sink { out : option cstring; md5 : MD5State }.

Definition write (text : cstring) (s : sink) : sink :=
  mk_sink ((λ o, o ++ text) <$> out s) (md5 s).
(** The callback: the record and a newline. *)
Definition hash_record (r : cstring) (s : sink) : sink :=
  mk_sink (out s) (update [10] (update (bytes_of r) (md5 s))).

(** ** Batches of domains on one line *)

Record BatchState := mk_Batch {
  enabled : bool;
  prefix_len : nat;
  suffix_len : nat;
  batch_count : nat;
  domain_path : cstring;
  emit_line : cstring → cstring;
}.

Definition disabled_batch : BatchState := mk_Batch false 0 0 0 [] (λ _, []).

Definition flush_batch (b : BatchState) (s : sink) : BatchState * sink :=
  if bool_decide (out s = None) || negb (enabled b) || (batch_count b =? 0)%nat then (b, s)
  else (mk_Batch (enabled b) (prefix_len b) (suffix_len b) 0 [] (emit_line b),
        write (emit_line b (domain_path b)) s).

Definition row_too_long (b : BatchState) (chunk : cstring) : bool :=
  (kMaxDnsmasqRowLength <? prefix_len b + length chunk + suffix_len b)%nat.

Definition with_path (b : BatchState) (path : cstring) : BatchState :=
  mk_Batch (enabled b) (prefix_len b) (suffix_len b) (S (batch_count b)) path (emit_line b).

Definition push_batch (domain : cstring) (b : BatchState) (s : sink) : BatchState * sink :=
  if bool_decide (out s = None) || negb (enabled b) then (b, s)
  else
    let next_chunk := domain_path b ++ "/" ++ domain in
    if (kBatchSize <=? batch_count b)%nat || row_too_long b next_chunk then
      let '(b, s) := flush_batch b s in
      let next_chunk := "/" ++ domain in
      if row_too_long b next_chunk then (b, s) else (with_path b next_chunk, s)
    else (with_path b next_chunk, s).

(** The loops [for (auto& b : batches) ...]. *)
Fixpoint each_batch (f : BatchState → sink → BatchState * sink) (l : list BatchState) (s : sink) :
    list BatchState * sink :=
  match l with
  | [] => ([], s)
  | b :: l => let '(b, s) := f b s in let '(l, s) := each_batch f l s in (b :: l, s)
  end.

Section generator.
Context {IP : InetPton} {FS : Files} (cache : CacheManager).
Context (registry : DnsServerRegistry) (route_config : RouteConfig) (dns_config : DnsConfig).
Context (lists_ : gmap cstring ListConfig).
Context (keenetic_static : list KeeneticStaticDnsEntry).
Context (keenetic_upstreams : list KeeneticDnsUpstreamEntry).
Context (resolver_type : ResolverType.t) (hash_version : cstring) (ipv6_enabled : bool).

Definition header (s : sink) : sink :=
  let resolver_name := match resolver_type with
    | ResolverType.DNSMASQ_IPSET => str "dnsmasq-ipset"
    | ResolverType.DNSMASQ_NFTSET => str "dnsmasq-nftset" end in
  write ("address=/use-application-dns.net/" ++ eol ++ eol)
    (write ("# Generated by keen-pbr (" ++ resolver_name ++ ") - do not edit manually" ++ eol ++ eol)
       (hash_record ("ipv6-enabled|" ++ (if ipv6_enabled then str "1" else str "0"))
          (hash_record ("version|" ++ hash_version) s))).

Definition probe_server (s : sink) : exc sink :=
  match dns_test_server dns_config with
  | None => Ok s
  | Some t =>
      parsed ← parse_dns_address_str (test_listen t);
      let s := hash_record ("probe-server|" ++ dns_ip parsed ++ "|" ++ to_string (dns_port parsed)) s in
      let s := write ("rebind-domain-ok=keen.pbr" ++ eol) s in
      mret (write ("server=/" ++ kDnsProbeZone ++ "/" ++ dns_ip parsed ++ "#" ++
                   to_string (dns_port parsed) ++ eol ++ eol) s)
  end.

(** The loop over the static entries: the keys emitted, and whether the header
    is written. *)
Fixpoint static_loop (entries : list KeeneticStaticDnsEntry) (emitted : list cstring)
    (wrote_header : bool) (s : sink) : bool * sink :=
  match entries with
  | [] => (wrote_header, s)
  | e :: entries =>
      let domain_pattern := keenetic_static_domain_pattern (ks_domain e) in
      let dedupe_key := domain_pattern ++ "|" ++ ks_address e in
      if bool_decide (dedupe_key ∈ emitted) then static_loop entries emitted wrote_header s
      else
        let s := hash_record ("keenetic-static|" ++ domain_pattern ++ "|" ++ ks_address e) s in
        let '(wrote, s) :=
          if bool_decide (out s = None) then (wrote_header, s)
          else (true, write ("address=" ++ domain_pattern ++ "/" ++ ks_address e ++ eol)
                        (if wrote_header then s
                         else write ("# Keenetic static DNS entries" ++ eol) s)) in
        static_loop entries (dedupe_key :: emitted) wrote s
  end.

Definition static_entries (s : sink) : sink :=
  match keenetic_static with
  | [] => s
  | _ => let '(wrote_header, s) := static_loop keenetic_static [] false s in
         if wrote_header then write eol s else s
  end.

Definition upstream_comments (s : sink) : sink :=
  match keenetic_upstreams with
  | [] => s
  | _ => write eol (foldl (λ s u, write ("# " ++ ku_address u ++ " -> " ++ ku_kind u ++
           (if bool_decide (ku_target u = []) then [] else " | " ++ ku_target u) ++ eol) s)
           (write ("# Keenetic DNS is used:" ++ eol) s) keenetic_upstreams)
  end.

(** [server->resolved_ip] with the port unless it is 53. *)
Definition server_addr (server : DnsServerConfig) : cstring :=
  ds_resolved_ip server ++
  (if ds_port server =? 53 then [] else "#" ++ to_string (ds_port server)).

Fixpoint fallback_loop (l : list DnsServerConfig) (fallback_index : nat) (s : sink) : sink :=
  match l with
  | [] => s
  | server :: l =>
      fallback_loop l (S fallback_index)
        (write ("server=" ++ server_addr server ++ eol)
           (hash_record ("fallback-server|" ++ to_string (Z.of_nat fallback_index) ++ "|" ++
                         ds_resolved_ip server ++ "|" ++ to_string (ds_port server)) s))
  end.

Definition fallback_section (s : sink) : sink :=
  let s := fallback_loop (fallback_servers registry) 0 s in
  match fallback dns_config with
  | Some (_ :: _) => write eol s
  | _ => s
  end.

(** ** The lists *)

Definition ipset_lists : list cstring :=
  rule ← List.filter route_rule_enabled (value_or (rules route_config) []); route_rule_lists rule.

(** The first enabled rule that names a list decides its server and whether
    rebinding is allowed. *)
Definition dns_list_rules : gmap cstring (cstring * bool) :=
  foldl (λ m rule, foldl (λ m name, match m !! name with
      | Some _ => m
      | None => <[name := (dns_rule_server rule, value_or (allow_domain_rebinding rule) false)]> m
      end) m (dns_rule_list rule)) ∅
    (List.filter dns_rule_enabled (value_or (dns_rules dns_config) [])).

(** A [std::set<std::string>], in order. *)
Definition all_lists : list cstring :=
  stable_sort str_lt (remove_dups (ipset_lists ++ (map_to_list dns_list_rules).*1)).

(** What the loop over the lists knows of one. *)
Record list_plan := mk_list_plan {
  needs_ipset : bool;
  list_servers : list DnsServerConfig;
  allow_rebind : bool;
}.

Definition plan_of (list_name : cstring) : list_plan :=
  mk_list_plan (bool_decide (list_name ∈ ipset_lists))
    (match dns_list_rules !! list_name with Some r => get_servers registry r.1 | None => [] end)
    (match dns_list_rules !! list_name with Some r => r.2 | None => false end).

Definition ipset_batch (list_name : cstring) (p : list_plan) : BatchState :=
  if negb (needs_ipset p) then disabled_batch
  else
    let set4 := ipset_name_v4 list_name in
    let set6 := ipset_name_v6 list_name in
    match resolver_type with
    | ResolverType.DNSMASQ_IPSET =>
        mk_Batch true kIpsetPrefixLen
          (if ipv6_enabled then 1 + length set4 + 1 + length set6 else 1 + length set4)%nat 0 []
          (λ path, "ipset=" ++ path ++ "/" ++ set4 ++
                   (if ipv6_enabled then "," ++ set6 else []) ++ eol)
    | ResolverType.DNSMASQ_NFTSET =>
        mk_Batch true kNftsetPrefixLen
          (if ipv6_enabled
           then length kNftSetPrefix + length set4 + length kNftSetMiddle + length set6
           else length kNftSetPrefix + length set4)%nat 0 []
          (λ path, "nftset=" ++ path ++ kNftSetPrefix ++ set4 ++
                   (if ipv6_enabled then kNftSetMiddle ++ set6 else []) ++ eol)
    end.

Definition rebind_batch (p : list_plan) : BatchState :=
  if negb (allow_rebind p) then disabled_batch
  else mk_Batch true kRebindPrefixLen 1 0 [] (λ path, "rebind-domain-ok=" ++ path ++ "/" ++ eol).

Definition server_batch (server : DnsServerConfig) : BatchState :=
  mk_Batch true kServerPrefixLen (1 + length (server_addr server)) 0 []
    (λ path, "server=" ++ path ++ "/" ++ server_addr server ++ eol).

(** The batches of a list; with a null stream none is enabled. *)
Definition batches (list_name : cstring) (p : list_plan) (s : sink) : list BatchState :=
  if bool_decide (out s = None) then disabled_batch :: disabled_batch :: ((λ _, disabled_batch) <$> list_servers p)
  else ipset_batch list_name p :: rebind_batch p :: (server_batch <$> list_servers p).

(** The records of a domain. *)
Fixpoint server_records (list_name bare : cstring) (i : nat) (l : list DnsServerConfig) (s : sink) : sink :=
  match l with
  | [] => s
  | server :: l =>
      server_records list_name bare (S i) l
        (hash_record ("domain-server|" ++ list_name ++ "|" ++ bare ++ "|" ++
           to_string (Z.of_nat i) ++ "|" ++ ds_resolved_ip server ++ "|" ++
           to_string (ds_port server)) s)
  end.

Definition domain_records (list_name bare : cstring) (p : list_plan) (s : sink) : sink :=
  let s := if needs_ipset p then hash_record ("domain-route|" ++ list_name ++ "|" ++ bare) s else s in
  let s := if allow_rebind p then hash_record ("domain-rebind|" ++ list_name ++ "|" ++ bare) s else s in
  server_records list_name bare 0 (list_servers p) s.

(** The state of the visitor: the batches, whether the header of the list is
    written, the output. *)
Definition list_state : Type := list BatchState * bool * sink.

Definition ensure_list_header (list_name : cstring) (wrote : bool) (s : sink) : bool * sink :=
  if negb (bool_decide (out s = None)) && negb wrote
  then (true, write ("# List: " ++ list_name ++ eol) s) else (wrote, s).

Definition on_entry (list_name : cstring) (p : list_plan) (st : list_state)
    (e : EntryType.t * cstring) : list_state :=
  let '(bs, wrote, s) := st in
  if negb (bool_decide (e.1 = EntryType.Domain)) then st
  else
    let bare := strip_wildcard e.2 in
    if bool_decide (bare = []) then st
    else if (kMaxDomainNameLength <? length bare)%nat then st
    else
      let s := domain_records list_name bare p s in
      if negb (needs_ipset p) && negb (allow_rebind p) && bool_decide (list_servers p = [])
      then (bs, wrote, s)
      else
        let '(wrote, s) := ensure_list_header list_name wrote s in
        let '(bs, s) := each_batch (push_batch bare) bs s in
        (bs, wrote, s).

(** The body of the loop over the lists: the entries that arrive before a
    failure of the stream are processed. *)
Definition generate_list (list_name : cstring) : stexc sink unit := λ s,
  match lists_ !! list_name with
  | None => (Ok tt, s)
  | Some list_cfg =>
      let p := plan_of list_name in
      let '(r, v) := stream_list_preferring_cache cache list_name list_cfg
                       (mk_visited (mk_Output [] []) []) in
      let '(bs, wrote, s) := foldl (on_entry list_name p) (batches list_name p s, false, s)
                               (entries (received v)) in
      match r with
      | Ok _ =>
          let '(_, s) := each_batch flush_batch bs s in
          (Ok tt, if wrote then write eol s else s)
      | Throw e => (Throw e, s)
      | Undefined => (Undefined, s)
      end
  end.

Definition generate_directives : stexc sink unit := λ s,
  match probe_server (header s) with
  | Ok s => for_each generate_list all_lists
              (fallback_section (upstream_comments (static_entries s)))
  | Throw e => (Throw e, header s)
  | Undefined => (Undefined, header s)
  end.

Definition compute_config_hash : exc cstring :=
  match generate_directives (mk_sink None init_MD5State) with
  | (Ok _, s) => Ok (digest_to_hex (digest (md5 s)))
  | (Throw e, _) => Throw e
  | (Undefined, _) => Undefined
  end.

Definition txt_of (now_ts : Z) (hash : cstring) : cstring := to_string now_ts ++ "|" ++ hash.

(** The text written to the stream, whether or not the call returns. *)
Definition generate (now_ts : Z) : exc unit * cstring :=
  match generate_directives (mk_sink (Some []) init_MD5State) with
  | (Ok _, s) =>
      let hash := digest_to_hex (digest (md5 s)) in
      (Ok tt, value_or (out s) [] ++ "txt-record=config-hash.keen.pbr," ++ txt_of now_ts hash ++ eol)
  | (Throw e, s) => (Throw e, value_or (out s) [])
  | (Undefined, s) => (Undefined, value_or (out s) [])
  end.
End generator.

(** ** The hash does not depend on where the directives go *)

Section hash.
Context {IP : InetPton} {FS : Files} (cache : CacheManager).
Context (registry : DnsServerRegistry) (route_config : RouteConfig) (dns_config : DnsConfig).
Context (lists_ : gmap cstring ListConfig).
Context (keenetic_static : list KeeneticStaticDnsEntry).
Context (keenetic_upstreams : list KeeneticDnsUpstreamEntry).
Context (hash_version : cstring) (ipv6_enabled : bool).

Definition same_hash (s1 s2 : sink) : Prop := md5 s1 = md5 s2.
#[local] Instance same_hash_equiv : Equivalence same_hash.
Proof. split; [by intros s|by intros s1 s2|by intros s1 s2 s3; unfold same_hash; intros ->]. Qed.

#[local] Instance write_proper t : Proper (same_hash ==> same_hash) (write t).
Proof. by intros s1 s2. Qed.
#[local] Instance hash_record_proper r : Proper (same_hash ==> same_hash) (hash_record r).
Proof. unfold same_hash, hash_record. intros s1 s2 Hs. cbn. by rewrite Hs. Qed.

Lemma write_same t s : same_hash (write t s) s.
Proof. done. Qed.

Lemma flush_same b s : same_hash (flush_batch b s).2 s.
Proof. unfold flush_batch. by destruct (_ || _). Qed.

Lemma push_same d b s : same_hash (push_batch d b s).2 s.
Proof.
  unfold push_batch. destruct (_ || negb _); [done|]. destruct (_ || _); [|done].
  pose proof (flush_same b s) as Hf. destruct (flush_batch b s) as [b' s'].
  by destruct (row_too_long _ _).
Qed.

Lemma each_batch_same f l s :
  (∀ b s, same_hash (f b s).2 s) → same_hash (each_batch f l s).2 s.
Proof.
  intros Hf. revert s. induction l as [|b l IH]; intros s; cbn; [done|].
  specialize (Hf b s). destruct (f b s) as [b' s1]. specialize (IH s1).
  destruct (each_batch f l s1) as [l' s2]. cbn in *. by transitivity s1.
Qed.

#[local] Instance server_records_proper n b i l : Proper (same_hash ==> same_hash) (server_records n b i l).
Proof.
  revert i. induction l as [|server l IH]; intros i s1 s2 Hs; cbn; [done|].
  apply IH. by apply hash_record_proper.
Qed.

#[local] Instance domain_records_proper n b p : Proper (same_hash ==> same_hash) (domain_records n b p).
Proof.
  intros s1 s2 Hs. unfold domain_records. apply server_records_proper.
  destruct (allow_rebind p), (needs_ipset p); repeat apply hash_record_proper; done.
Qed.

Lemma on_entry_same n p st1 st2 e :
  same_hash st1.2 st2.2 → same_hash (on_entry n p st1 e).2 (on_entry n p st2 e).2.
Proof.
  destruct st1 as [[bs1 w1] s1], st2 as [[bs2 w2] s2]. cbn [fst snd]. intros Hs. unfold on_entry.
  destruct (negb (bool_decide (e.1 = _))); [done|].
  destruct (bool_decide (strip_wildcard e.2 = [])); [done|].
  destruct (_ <? _)%nat; [done|]. apply (domain_records_proper n (strip_wildcard e.2) p) in Hs.
  revert Hs. generalize (domain_records n (strip_wildcard e.2) p s1) as t1,
    (domain_records n (strip_wildcard e.2) p s2) as t2. intros t1 t2 Hs.
  destruct (negb (needs_ipset p) && _ && _); [done|].
  assert (He : ∀ w s, same_hash (ensure_list_header n w s).2 s)
    by (intros w s; unfold ensure_list_header; by destruct (_ && _)).
  pose proof (He w1 t1) as H1. pose proof (He w2 t2) as H2.
  destruct (ensure_list_header n w1 t1) as [w1' t1'], (ensure_list_header n w2 t2) as [w2' t2'].
  pose proof (each_batch_same (push_batch (strip_wildcard e.2)) bs1 t1' (push_same _)) as H3.
  pose proof (each_batch_same (push_batch (strip_wildcard e.2)) bs2 t2' (push_same _)) as H4.
  destruct (each_batch _ bs1 t1') as [bs1' u1], (each_batch _ bs2 t2') as [bs2' u2]. cbn in *.
  by rewrite H3, H4, H1, H2.
Qed.

Lemma on_entries_same n p l st1 st2 :
  same_hash st1.2 st2.2 → same_hash (foldl (on_entry n p) st1 l).2 (foldl (on_entry n p) st2 l).2.
Proof. revert st1 st2. induction l as [|e l IH]; intros; cbn; [done|]. by apply IH, on_entry_same. Qed.

(** Two runs, for any resolvers and any streams. *)
Abbreviation gen_list rt := (generate_list cache registry route_config dns_config lists_ rt ipv6_enabled).

Lemma generate_list_same rt1 rt2 name s1 s2 :
  same_hash s1 s2 → (gen_list rt1 name s1).1 = (gen_list rt2 name s2).1 ∧
  same_hash (gen_list rt1 name s1).2 (gen_list rt2 name s2).2.
Proof.
  intros Hs. unfold generate_list. destruct (lists_ !! name) as [cfg|]; [|done].
  set (p := plan_of _ _ _ _). destruct (stream_list_preferring_cache _ _ _ _) as [r v].
  pose proof (on_entries_same name p (entries (received v))
    (batches rt1 ipv6_enabled name p s1, false, s1) (batches rt2 ipv6_enabled name p s2, false, s2) Hs) as H.
  revert H. generalize (foldl (on_entry name p) (batches rt1 ipv6_enabled name p s1, false, s1) (entries (received v))),
    (foldl (on_entry name p) (batches rt2 ipv6_enabled name p s2, false, s2) (entries (received v))).
  intros [[bs1 w1] t1] [[bs2 w2] t2] H. cbn in H.
  destruct r; [|done..].
  pose proof (each_batch_same flush_batch bs1 t1 flush_same) as H1.
  pose proof (each_batch_same flush_batch bs2 t2 flush_same) as H2.
  destruct (each_batch _ bs1 t1) as [b1 u1], (each_batch _ bs2 t2) as [b2 u2]. cbn in *.
  split; [done|].
  assert (Hw : ∀ (w : bool) s, same_hash (if w then write eol s else s) s) by (by intros []).
  by rewrite !Hw, H1, H2.
Qed.

Lemma generate_lists_same rt1 rt2 l s1 s2 :
  same_hash s1 s2 → (for_each (gen_list rt1) l s1).1 = (for_each (gen_list rt2) l s2).1 ∧
  same_hash (for_each (gen_list rt1) l s1).2 (for_each (gen_list rt2) l s2).2.
Proof.
  revert s1 s2. induction l as [|n l IH]; intros s1 s2 Hs; cbn; [done|].
  unfold mbind, stexc_bind. destruct (generate_list_same rt1 rt2 n s1 s2 Hs) as [H1 H2].
  destruct (gen_list rt1 n s1) as [r1 t1], (gen_list rt2 n s2) as [r2 t2]. cbn in *. subst r2.
  destruct r1; [by apply IH|done|done].
Qed.

Lemma static_loop_same l e w1 w2 s1 s2 :
  same_hash s1 s2 → same_hash (static_loop l e w1 s1).2 (static_loop l e w2 s2).2.
Proof.
  revert e w1 w2 s1 s2. induction l as [|x l IH]; intros e w1 w2 s1 s2 Hs; [done|]. cbn [static_loop].
  destruct (bool_decide (_ ∈ e)); [by apply IH|].
  apply (hash_record_proper ("keenetic-static|" ++ keenetic_static_domain_pattern (ks_domain x) ++
    "|" ++ ks_address x)) in Hs.
  revert Hs. generalize (hash_record ("keenetic-static|" ++ keenetic_static_domain_pattern (ks_domain x) ++
    "|" ++ ks_address x) s1) as t1, (hash_record ("keenetic-static|" ++
    keenetic_static_domain_pattern (ks_domain x) ++ "|" ++ ks_address x) s2) as t2.
  intros t1 t2 Ht.
  destruct (bool_decide (out t1 = None)), (bool_decide (out t2 = None)); apply IH;
    rewrite ?write_same; destruct w1, w2; by rewrite ?write_same.
Qed.

Lemma fallback_loop_same l i s1 s2 :
  same_hash s1 s2 → same_hash (fallback_loop l i s1) (fallback_loop l i s2).
Proof.
  revert i s1 s2. induction l as [|x l IH]; intros i s1 s2 Hs; cbn; [done|].
  apply IH. by apply write_proper, hash_record_proper.
Qed.

Abbreviation directives rt := (generate_directives cache registry route_config dns_config lists_
  keenetic_static keenetic_upstreams rt hash_version ipv6_enabled).

Lemma upstream_comments_same s : same_hash (upstream_comments keenetic_upstreams s) s.
Proof.
  unfold upstream_comments. destruct keenetic_upstreams as [|k l]; [done|].
  rewrite write_same. etrans; [|apply (write_same ("# Keenetic DNS is used:" ++ eol))].
  generalize (k :: l) as l', (write ("# Keenetic DNS is used:" ++ eol) s) as s'.
  induction l' as [|x l' IH]; intros s'; cbn; [done|]. by rewrite IH.
Qed.

#[local] Instance static_entries_proper : Proper (same_hash ==> same_hash) (static_entries keenetic_static).
Proof.
  intros s1 s2 Hs. unfold static_entries. destruct keenetic_static as [|k l]; [done|].
  pose proof (static_loop_same (k :: l) [] false false s1 s2 Hs) as H.
  destruct (static_loop _ _ _ s1) as [w1 v1], (static_loop _ _ _ s2) as [w2 v2]. cbn in H.
  by destruct w1, w2.
Qed.

#[local] Instance fallback_section_proper :
  Proper (same_hash ==> same_hash) (fallback_section registry dns_config).
Proof.
  intros s1 s2 Hs. unfold fallback_section. pose proof (fallback_loop_same (fallback_servers registry) 0 _ _ Hs).
  by destruct (fallback dns_config) as [[]|].
Qed.

Lemma header_same rt1 rt2 s1 s2 :
  same_hash s1 s2 → same_hash (header rt1 hash_version ipv6_enabled s1) (header rt2 hash_version ipv6_enabled s2).
Proof. intros Hs. unfold header. rewrite !write_same. by do 2 apply hash_record_proper. Qed.

Lemma generate_directives_same rt1 rt2 s1 s2 :
  same_hash s1 s2 → (directives rt1 s1).1 = (directives rt2 s2).1 ∧
  same_hash (directives rt1 s1).2 (directives rt2 s2).2.
Proof.
  intros Hs. apply (header_same rt1 rt2) in Hs. unfold generate_directives, probe_server.
  revert Hs. generalize (header rt1 hash_version ipv6_enabled s1) as t1,
    (header rt2 hash_version ipv6_enabled s2) as t2. intros t1 t2 Ht.
  assert (Hrest : ∀ u1 u2, same_hash u1 u2 →
    same_hash (fallback_section registry dns_config (upstream_comments keenetic_upstreams (static_entries keenetic_static u1)))
      (fallback_section registry dns_config (upstream_comments keenetic_upstreams (static_entries keenetic_static u2)))).
  { intros u1 u2 Hu. apply fallback_section_proper. by rewrite !upstream_comments_same, Hu. }
  destruct (dns_test_server dns_config) as [t|].
  - destruct (parse_dns_address_str (test_listen t)) as [parsed|e|]; cbn; [|done..].
    apply generate_lists_same, Hrest. by do 2 apply write_proper; apply hash_record_proper.
  - apply generate_lists_same, Hrest, Ht.
Qed.
End hash.

(** ** The rows of a list *)

Section rows.

(** [/a/b/c] for the domains [a], [b] and [c]. *)
Definition path_of (group : list cstring) : cstring := mjoin ((λ d, "/" ++ d) <$> group).
Definition fits (b : BatchState) (d : cstring) : bool := negb (row_too_long b ("/" ++ d)).

(** The rows written, in order, with the number of the batch of each. *)
Definition row_log : Type := list (nat * list cstring).
Definition rows_text (bs : list BatchState) (log : row_log) : cstring :=
  mjoin ((λ r, match bs !! r.1 with Some b => emit_line b (path_of r.2) | None => [] end) <$> log).
Definition groups (i : nat) (log : row_log) : list (list cstring) :=
  (List.filter (λ r, Nat.eqb r.1 i) log).*2.

Definition good_group (b : BatchState) (g : list cstring) : Prop :=
  g ≠ [] ∧ (length g ≤ kBatchSize)%nat ∧ row_too_long b (path_of g) = false.

(** A batch that started as [b0], number [i], after the domains [ds]. *)
Definition batch_at (i : nat) (b0 : BatchState) (ds : list cstring) (log : row_log) (b : BatchState) : Prop :=
  ∃ pend, b = mk_Batch (enabled b0) (prefix_len b0) (suffix_len b0) (length pend) (path_of pend) (emit_line b0) ∧
    (if enabled b0
     then mjoin (groups i log) ++ pend = List.filter (fits b0) ds ∧ (pend = [] ∨ good_group b0 pend)
     else pend = [] ∧ groups i log = []) ∧
    Forall (good_group b0) (groups i log).

Definition fresh (b : BatchState) : Prop := batch_count b = 0%nat ∧ domain_path b = [].

Lemma groups_app i l1 l2 : groups i (l1 ++ l2) = groups i l1 ++ groups i l2.
Proof. unfold groups. by rewrite List.filter_app, fmap_app. Qed.
Lemma groups_one i g : groups i [(i, g)] = [g].
Proof. unfold groups. cbn. by rewrite Nat.eqb_refl. Qed.
Lemma groups_other i j new : Forall (λ r, r.1 = j) new → i ≠ j → groups i new = [].
Proof.
  intros H Hne. induction H as [|r new Hr _ IH]; [done|]. unfold groups in *. cbn.
  destruct (Nat.eqb_spec r.1 i); [congruence|done].
Qed.
Lemma path_of_app l d : path_of (l ++ [d]) = path_of l ++ "/" ++ d.
Proof. unfold path_of. rewrite fmap_app, join_app. cbn. by rewrite app_nil_r. Qed.
Lemma rows_text_app bs l1 l2 : rows_text bs (l1 ++ l2) = rows_text bs l1 ++ rows_text bs l2.
Proof. unfold rows_text. by rewrite fmap_app, join_app. Qed.
Lemma rows_text_one bs i b g : bs !! i = Some b → rows_text bs [(i, g)] = emit_line b (path_of g).
Proof. unfold rows_text. cbn. intros ->. by rewrite app_nil_r. Qed.

Lemma batch_at_fresh i b : fresh b → batch_at i b [] [] b.
Proof.
  intros [H1 H2]. exists []. destruct b. cbn in *. subst. split; [done|]. split; [|constructor].
  by destruct enabled0; [split; [done|left]|].
Qed.

(** The rows of the other batches do not matter. *)
Lemma batch_at_other i b0 ds log new b :
  batch_at i b0 ds log b → groups i new = [] → batch_at i b0 ds (log ++ new) b.
Proof.
  intros (pend & -> & H & Hg) Hn. exists pend. by rewrite groups_app, Hn, app_nil_r.
Qed.

(** Writing the pending row. *)
Lemma flush_batch_at i bs0 b0 ds log b s o :
  bs0 !! i = Some b0 → batch_at i b0 ds log b → out s = Some o →
  ∃ new, let '(b', s') := flush_batch b s in
    s' = mk_sink (Some (o ++ rows_text bs0 new)) (md5 s) ∧ Forall (λ r, r.1 = i) new ∧
    batch_at i b0 ds (log ++ new) b' ∧ batch_count b' = 0%nat ∧ domain_path b' = [].
Proof.
  intros Hi (pend & -> & H & Hg) Ho. unfold flush_batch. rewrite Ho. cbn [enabled batch_count].
  destruct (enabled b0) eqn:E; cbn [negb orb bool_decide decide_rel].
  2:{ destruct H as [-> H]. exists []. rewrite !app_nil_r. destruct s. cbn in *. subst. split; [done|].
      split; [done|]. split; [|done]. exists []. by rewrite E. }
  rewrite bool_decide_eq_false_2 by done. cbn [orb]. destruct pend as [|d pend]; cbn [length Nat.eqb].
  { exists []. rewrite !app_nil_r. destruct s. cbn in *. subst. split; [done|]. split; [done|].
    split; [|done]. exists []. by rewrite E. }
  exists [(i, d :: pend)]. rewrite (rows_text_one _ _ _ _ Hi). unfold write. rewrite Ho.
  cbn [domain_path emit_line fmap option_fmap option_map md5].
  split; [done|]. split; [by repeat constructor|]. split; [|done].
  exists []. rewrite E. destruct H as [H1 [?|H2]]; [done|].
  rewrite groups_app, groups_one.
  split; [done|]. split; [split; [|by left]|].
  - rewrite join_app, app_nil_r. cbn. by rewrite app_nil_r.
  - apply Forall_app. split; [done|]. by constructor.
Qed.

Lemma push_batch_at i bs0 b0 ds log b s o d :
  bs0 !! i = Some b0 → batch_at i b0 ds log b → out s = Some o →
  ∃ new, let '(b', s') := push_batch d b s in
    s' = mk_sink (Some (o ++ rows_text bs0 new)) (md5 s) ∧ Forall (λ r, r.1 = i) new ∧
    batch_at i b0 (ds ++ [d]) (log ++ new) b'.
Proof.
  intros Hi Hb Ho. unfold push_batch. rewrite Ho, bool_decide_eq_false_2 by done. cbn [orb].
  assert (Henb : enabled b = enabled b0) by (by destruct Hb as (? & -> & _)). rewrite Henb.
  destruct (enabled b0) eqn:E; cbn [negb].
  2:{ exists []. rewrite !app_nil_r. split; [destruct s; cbn in *; by subst|]. split; [done|].
      destruct Hb as (pend & -> & H & Hg). exists pend. by rewrite E in *. }
  destruct ((kBatchSize <=? batch_count b)%nat || _) eqn:Elong.
  - destruct (flush_batch_at i bs0 b0 ds log b s o Hi Hb Ho) as [new Hf].
    destruct (flush_batch b s) as [b' s'].
    destruct Hf as (-> & Hnew & Hb' & Hc & Hp). exists new.
    destruct Hb' as (pend & -> & H & Hg). rewrite E in H. destruct H as [H _].
    cbn [batch_count] in Hc. destruct pend; [|done].
    assert (Hlong : row_too_long (mk_Batch (enabled b0) (prefix_len b0) (suffix_len b0) (length (@nil cstring)) (path_of [])
      (emit_line b0)) ("/" ++ d) = negb (fits b0 d)) by (unfold fits; by rewrite negb_involutive).
    rewrite Hlong. destruct (fits b0 d) eqn:Ef; cbn [negb];
      (split; [done|]; split; [done|]); [exists [d]|exists []]; rewrite E, List.filter_app;
      cbn [List.filter]; rewrite Ef, <- H, ?app_nil_r; (split; [|split; [split|]]);
      try done; try (by left).
    + unfold with_path, path_of. cbn. by rewrite ?E, app_nil_r.
    + right. unfold good_group, path_of. cbn -[row_too_long kBatchSize]. rewrite app_nil_r.
      split; [done|]. split; [unfold kBatchSize; lia|]. unfold fits in Ef. by apply negb_true_iff.
  - apply orb_false_iff in Elong as [Hcount Hrow]. exists []. rewrite !app_nil_r.
    destruct Hb as (pend & -> & H & Hg). rewrite E in H. destruct H as [H1 H2].
    assert (Hpath : path_of pend ++ "/" ++ d = path_of (pend ++ [d])) by (by rewrite path_of_app).
    cbn [domain_path batch_count] in *. rewrite Hpath in Hrow.
    split; [destruct s; cbn in *; by subst|]. split; [done|].
    exists (pend ++ [d]). rewrite E, length_app, Nat.add_1_r, List.filter_app.
    split; [by rewrite Hpath|]. split; [|done].
    assert (Hgood : good_group b0 (pend ++ [d])).
    { split; [by destruct pend|]. split; [rewrite length_app; cbn; apply Nat.leb_gt in Hcount; lia|done]. }
    assert (Ef : fits b0 d = true).
    { unfold fits. apply negb_true_iff. destruct Hgood as (_ & _ & Hr). revert Hr. rewrite <- Hpath.
      unfold row_too_long. rewrite !Nat.ltb_ge. rewrite !length_app. lia. }
    cbn [List.filter]. rewrite Ef, <- H1, app_assoc. by split; [|right].
Qed.

(** All the batches of a list, numbered from [k]. *)
Definition batch_pred : Type := nat → BatchState → row_log → BatchState → Prop.
Definition insensitive (Q : batch_pred) : Prop :=
  ∀ i b0 log new b, Q i b0 log b → groups i new = [] → Q i b0 (log ++ new) b.

Fixpoint all_at (Q : batch_pred) (k : nat) (l0 : list BatchState) (log : row_log)
    (bs : list BatchState) : Prop :=
  match l0, bs with
  | [], [] => True
  | b0 :: l0, b :: bs => Q k b0 log b ∧ all_at Q (S k) l0 log bs
  | _, _ => False
  end.

Lemma all_at_other Q k l0 log new bs : insensitive Q →
  all_at Q k l0 log bs → (∀ i, (k ≤ i)%nat → groups i new = []) → all_at Q k l0 (log ++ new) bs.
Proof.
  intros HQ. revert k bs. induction l0 as [|b0 l0 IH]; intros k [|b bs]; cbn; [done..|]. intros [H1 H2] Hn. split.
  - apply HQ; [done|]. apply Hn. lia.
  - apply IH; [done|]. intros i Hi. apply Hn. lia.
Qed.

Lemma all_at_lookup Q k l0 log bs j b0 :
  all_at Q k l0 log bs → l0 !! j = Some b0 → ∃ b, Q (k + j)%nat b0 log b.
Proof.
  revert k bs j. induction l0 as [|b1 l0 IH]; intros k [|b bs] [|j]; cbn; try done.
  - intros [H _] [= ->]. rewrite Nat.add_0_r. eauto.
  - intros [_ H] Hj. rewrite Nat.add_succ_r. by apply (IH (S k) bs).
Qed.

(** What one operation does to one batch, [each_batch] does to all of them. *)
Lemma each_batch_at (f : BatchState → sink → BatchState * sink) bs0 (Q Q' : batch_pred) :
  insensitive Q → insensitive Q' →
  (∀ i b0 log b s o, bs0 !! i = Some b0 → Q i b0 log b → out s = Some o →
    ∃ new, let '(b', s') := f b s in
      s' = mk_sink (Some (o ++ rows_text bs0 new)) (md5 s) ∧ Forall (λ r, r.1 = i) new ∧
      Q' i b0 (log ++ new) b') →
  ∀ l0 k log bs s o, drop k bs0 = l0 → all_at Q k l0 log bs → out s = Some o →
    ∃ new, let '(bs', s') := each_batch f bs s in
      s' = mk_sink (Some (o ++ rows_text bs0 new)) (md5 s) ∧ Forall (λ r, (k ≤ r.1)%nat) new ∧
      all_at Q' k l0 (log ++ new) bs'.
Proof.
  intros HQ HQ' Hf. induction l0 as [|b0 l0 IH]; intros k log [|b bs] s o Hd Hall Ho; cbn; try done.
  { exists []. destruct s. cbn in *. subst. by rewrite app_nil_r. }
  destruct Hall as [Hb Hbs].
  assert (Hk : bs0 !! k = Some b0) by (by rewrite <- (Nat.add_0_r k), <- lookup_drop, Hd).
  destruct (Hf k b0 log b s o Hk Hb Ho) as [new1 H1]. destruct (f b s) as [b' s1].
  destruct H1 as (-> & Hn1 & Hb').
  destruct (IH (S k) (log ++ new1) bs (mk_sink (Some (o ++ rows_text bs0 new1)) (md5 s)) (o ++ rows_text bs0 new1)) as [new2 H2].
  { by rewrite <- Nat.add_1_r, <- drop_drop, Hd. }
  { apply all_at_other; [done..|]. intros i Hi. by apply (groups_other i k); [|lia]. }
  { done. }
  destruct (each_batch f bs _) as [bs' s2]. destruct H2 as (-> & Hn2 & Hbs').
  exists (new1 ++ new2). rewrite rows_text_app, !app_assoc. split; [done|]. split.
  - apply Forall_app. split; eapply Forall_impl; [done| |done|]; cbn; lia.
  - split; [|done]. apply HQ'; [done|]. unfold groups.
    clear -Hn2. induction Hn2 as [|r l Hr _ IH]; [done|]. cbn.
    destruct (Nat.eqb_spec r.1 k); [lia|done].
Qed.

(** The domains of the entries that are emitted: no empty name and none of more
    than 255 characters. *)
Definition accepted_domain (e : EntryType.t * cstring) : option cstring :=
  if negb (bool_decide (e.1 = EntryType.Domain)) then None
  else
    let bare := strip_wildcard e.2 in
    if bool_decide (bare = []) then None
    else if (kMaxDomainNameLength <? length bare)%nat then None else Some bare.

Definition idle (p : list_plan) : bool :=
  negb (needs_ipset p) && negb (allow_rebind p) && bool_decide (list_servers p = []).

Definition list_header (name : cstring) : cstring := "# List: " ++ name ++ eol.

(** The state of the visitor after the domains [ds]. *)
Definition list_at (name o0 : cstring) (bs0 : list BatchState) (ds : list cstring) (log : row_log)
    (st : list_state) : Prop :=
  let '(bs, wrote, s) := st in
  wrote = negb (bool_decide (ds = [])) ∧ (ds = [] → log = []) ∧
  out s = Some (o0 ++ (if wrote then list_header name else []) ++ rows_text bs0 log) ∧
  all_at (λ i b0, batch_at i b0 ds) 0 bs0 log bs.

Lemma batch_at_insensitive ds : insensitive (λ i b0, batch_at i b0 ds).
Proof. intros i b0 log new b. apply batch_at_other. Qed.

(** A batch with nothing left to write. *)
Definition batch_done (ds : list cstring) : batch_pred := λ i b0 log b,
  batch_at i b0 ds log b ∧ batch_count b = 0%nat.
Lemma batch_done_insensitive ds : insensitive (batch_done ds).
Proof. intros i b0 log new b [H1 H2] Hn. split; [by apply batch_at_other|done]. Qed.

Lemma batch_done_groups ds i b0 log b : batch_done ds i b0 log b →
  Forall (good_group b0) (groups i log) ∧
  if enabled b0 then mjoin (groups i log) = List.filter (fits b0) ds else groups i log = [].
Proof.
  intros [(pend & -> & H & Hg) Hc]. cbn in Hc. destruct pend; [|done]. split; [done|].
  destruct (enabled b0); [|by destruct H]. destruct H as [<- _]. by rewrite app_nil_r.
Qed.

Lemma rows_text_none bs log :
  (∀ i b, bs !! i = Some b → groups i log = []) → rows_text bs log = [].
Proof.
  unfold rows_text, groups. induction log as [|[i g] log IH]; intros H; cbn; [done|].
  destruct (bs !! i) as [b|] eqn:E.
  - specialize (H i b E). cbn in H. by rewrite Nat.eqb_refl in H.
  - apply IH. intros j b Hj. specialize (H j b Hj). cbn in H. by destruct (i =? j)%nat.
Qed.

Lemma domain_records_out name bare p s : out (domain_records name bare p s) = out s.
Proof.
  assert (H : ∀ l i s, out (server_records name bare i l s) = out s)
    by (induction l as [|x l IH]; intros i s'; cbn; [done|by rewrite IH]).
  unfold domain_records. rewrite H. by destruct (allow_rebind p), (needs_ipset p).
Qed.

Lemma on_entry_at name o0 bs0 p ds log st e :
  idle p = false → list_at name o0 bs0 ds log st →
  ∃ log', list_at name o0 bs0 (ds ++ option_list (accepted_domain e)) log' (on_entry name p st e).
Proof.
  intros Hidle. destruct st as [[bs w] s]. intros Hat. unfold on_entry, accepted_domain.
  assert (Hsame : ∃ log', list_at name o0 bs0 (ds ++ option_list None) log' (bs, w, s))
    by (exists log; by rewrite app_nil_r).
  destruct (negb _); [done|]. destruct (bool_decide (strip_wildcard e.2 = [])); [done|].
  destruct (_ <? _)%nat; [done|]. clear Hsame.
  unfold idle in Hidle. rewrite Hidle. set (d := strip_wildcard e.2).
  destruct Hat as (Hw & Hlog & Ho & Hall). unfold ensure_list_header.
  rewrite domain_records_out, Ho, bool_decide_eq_false_2 by done. cbn [negb andb option_list].
  assert (Hne : negb (bool_decide (ds ++ [d] = [])) = true)
    by (rewrite bool_decide_eq_false_2; [done|by destruct ds]).
  assert (Hstep : ∀ t, out t = Some (o0 ++ list_header name ++ rows_text bs0 log) →
    ∃ log', list_at name o0 bs0 (ds ++ [d]) log' (let '(bs', s') := each_batch (push_batch d) bs t in (bs', true, s'))).
  { intros t Ht.
    destruct (each_batch_at (push_batch d) bs0 _ (λ i b0, batch_at i b0 (ds ++ [d]))
      (batch_at_insensitive _) (batch_at_insensitive _) (λ i b0 log b s o, push_batch_at i bs0 b0 ds log b s o d) bs0 0 log bs t _ eq_refl Hall Ht) as [new H].
    destruct (each_batch _ bs t) as [bs' s']. destruct H as (-> & _ & H). exists (log ++ new).
    unfold list_at. rewrite Hne. split; [done|]. split; [by destruct ds|]. split; [|done].
    cbn [out]. by rewrite rows_text_app, !app_assoc. }
  destruct w; cbn [negb]; apply Hstep; [by rewrite domain_records_out|].
  symmetry in Hw. apply negb_false_iff, bool_decide_eq_true in Hw. rewrite (Hlog Hw) in *.
  unfold write. cbn [out]. rewrite domain_records_out, Ho. cbn [fmap option_fmap option_map].
  unfold rows_text. cbn [fmap list_fmap mjoin list_join]. by rewrite !app_nil_r.
Qed.

Lemma on_entries_at name o0 bs0 p l ds log st :
  idle p = false → list_at name o0 bs0 ds log st →
  ∃ log', list_at name o0 bs0 (ds ++ omap accepted_domain l) log' (foldl (on_entry name p) st l).
Proof.
  intros Hidle. revert ds log st. induction l as [|e l IH]; intros ds log st H; cbn.
  { exists log. by rewrite app_nil_r. }
  destruct (on_entry_at _ _ _ p _ _ _ e Hidle H) as [log1 H1]. apply IH in H1 as [log2 H2]. exists log2.
  revert H2. destruct (accepted_domain e); cbn; by rewrite <- ?app_assoc, ?app_nil_r.
Qed.

(** A row is as long as its parts say, and a newline. *)
Definition row_length_ok (b : BatchState) : Prop :=
  ∀ path, length (emit_line b path) = S (prefix_len b + length path + suffix_len b).

Lemma batches_ok rt ipv6 name p s :
  Forall (λ b, fresh b ∧ (enabled b = true → row_length_ok b)) (batches rt ipv6 name p s).
Proof.
  assert (Hd : fresh disabled_batch ∧ (enabled disabled_batch = true → row_length_ok disabled_batch))
    by (split; [done|discriminate]).
  assert (Hs : ∀ x, fresh (server_batch x) ∧ (enabled (server_batch x) = true → row_length_ok (server_batch x))).
  { intros x. split; [done|]. intros _ path. unfold server_batch.
    cbn [emit_line prefix_len suffix_len]. rewrite !length_app. unfold kServerPrefixLen. cbn. lia. }
  unfold batches. destruct (bool_decide _); (constructor; [|constructor]).
  - done.
  - done.
  - by apply Forall_fmap, Forall_true.
  - unfold ipset_batch. destruct (needs_ipset p); cbn [negb]; [|done].
    destruct rt, ipv6; (split; [done|]); intros _ path; cbn [emit_line prefix_len suffix_len];
      rewrite !length_app; unfold kIpsetPrefixLen, kNftsetPrefixLen; cbn; lia.
  - unfold rebind_batch. destruct (allow_rebind p); cbn [negb]; [|done]. split; [done|].
    intros _ path. cbn [emit_line prefix_len suffix_len]. rewrite !length_app. unfold kRebindPrefixLen. cbn. lia.
  - by apply Forall_fmap, Forall_true.
Qed.

Lemma all_at_fresh l0 k : Forall fresh l0 → all_at (λ i b0, batch_at i b0 []) k l0 [] l0.
Proof. intros H. revert k. induction H; intros k; cbn; [done|]. by split; [apply batch_at_fresh|]. Qed.

(** With nothing to do for a list its domains change only the hash. *)
Lemma idle_entries name p l bs w s : idle p = true →
  ∃ s', foldl (on_entry name p) (bs, w, s) l = (bs, w, s') ∧ out s' = out s.
Proof.
  intros Hidle. revert s. induction l as [|e l IH]; intros s; cbn [foldl]; [by eauto|].
  assert (He : ∃ s', on_entry name p (bs, w, s) e = (bs, w, s') ∧ out s' = out s).
  { unfold on_entry. destruct (negb _); [by eauto|]. destruct (bool_decide _); [by eauto|].
    destruct (_ <? _)%nat; [by eauto|]. unfold idle in Hidle. rewrite Hidle. eexists. split; [done|].
    apply domain_records_out. }
  destruct He as (s1 & -> & H1). destruct (IH s1) as (s2 & -> & H2). exists s2. by rewrite H2.
Qed.

Lemma flush_done bs0 ds i b0 log b s o :
  bs0 !! i = Some b0 → batch_at i b0 ds log b → out s = Some o →
  ∃ new, let '(b', s') := flush_batch b s in
    s' = mk_sink (Some (o ++ rows_text bs0 new)) (md5 s) ∧ Forall (λ r, r.1 = i) new ∧
    batch_done ds i b0 (log ++ new) b'.
Proof.
  intros Hi Hb Ho. destruct (flush_batch_at i bs0 b0 ds log b s o Hi Hb Ho) as [new H]. exists new.
  destruct (flush_batch b s) as [b' s']. by destruct H as (? & ? & ? & ? & _).
Qed.

Lemma good_groups_nil b gs : Forall (good_group b) gs → mjoin gs = [] → gs = [].
Proof. intros [|g gs' [Hne _] _]; [done|]. cbn. by destruct g. Qed.

Lemma good_group_row b g : good_group b g → row_length_ok b →
  g ≠ [] ∧ (length g ≤ 50)%nat ∧ (length (emit_line b (path_of g)) ≤ 1025)%nat.
Proof.
  intros (H1 & H2 & H3) Hrow. split; [done|]. split; [done|]. rewrite Hrow.
  apply Nat.ltb_ge in H3. unfold kMaxDnsmasqRowLength in H3. lia.
Qed.

Lemma flush_fresh l s : Forall fresh l → each_batch flush_batch l s = (l, s).
Proof.
  induction 1 as [|b l [Hc _] _ IH]; cbn [each_batch]; [done|].
  assert (Hb : flush_batch b s = (b, s)) by (unfold flush_batch; by rewrite Hc, orb_true_r).
  by rewrite Hb, IH.
Qed.
End rows.

(** ** What is promised of the generated configuration *)

Section promises.
Context {IP : InetPton} {FS : Files} (cache : CacheManager).
Context (registry : DnsServerRegistry) (route_config : RouteConfig) (dns_config : DnsConfig).
Context (lists_ : gmap cstring ListConfig).
Context (keenetic_static : list KeeneticStaticDnsEntry).
Context (keenetic_upstreams : list KeeneticDnsUpstreamEntry).
Context (hash_version : cstring) (ipv6_enabled : bool).

(** C36. The expected hash, computed without writing anything, is the hash that a
    generated configuration publishes, whichever kind of resolver it is
    generated for and whenever: [compute_config_hash] returns [h] exactly when
    [generate] writes a complete configuration whose last line is the TXT record
    with the time and [h], and the reader of the TXT answer gets the time and
    [h] back from it however the answer is quoted; it fails exactly when
    [generate] fails, with the same exception. *)
Theorem published_hash_is_expected rt rt' now_ts :
  let run := generate cache registry route_config dns_config lists_ keenetic_static
               keenetic_upstreams rt' hash_version ipv6_enabled now_ts in
  match compute_config_hash cache registry route_config dns_config lists_ keenetic_static
          keenetic_upstreams rt hash_version ipv6_enabled with
  | Ok h =>
      (∃ body, run = (Ok tt, body ++ "txt-record=config-hash.keen.pbr," ++ txt_of now_ts h ++ eol)) ∧
      (0 ≤ now_ts ≤ INT64_MAX → ∀ t, quoted (txt_of now_ts h) t →
        parse_resolver_config_hash_txt t = mk_TxtValue (Some now_ts) h ∧
        is_valid_resolver_config_hash_txt_value (parse_resolver_config_hash_txt t) = true)
  | Throw e => run.1 = Throw e
  | Undefined => run.1 = Undefined
  end.
Proof.
  cbv zeta. unfold compute_config_hash, generate.
  destruct (generate_directives_same cache registry route_config dns_config lists_ keenetic_static
    keenetic_upstreams hash_version ipv6_enabled rt rt' (mk_sink None init_MD5State)
    (mk_sink (Some []) init_MD5State) eq_refl) as [H1 H2].
  destruct (generate_directives _ _ _ _ _ _ _ rt _ _ _) as [r1 s1],
    (generate_directives _ _ _ _ _ _ _ rt' _ _ _) as [r2 s2].
  cbn [fst snd] in H1, H2. unfold same_hash in H2. subst r2. rewrite H2.
  destruct r1 as [[]|e|]; [|done..]. split; [by eexists|].
  intros Hts t Hq. apply parse_published; [done|apply digest_is_hash|done].
Qed.

(** C35. The rows written for a list: nothing for a list without a use or without
    an acceptable domain; otherwise a header, rows of the list's batches and an
    empty line. Every batch writes, in order and without loss or repetition,
    exactly the acceptable domains that fit on a row of it, in groups of one to
    fifty, and no row is longer than 1024 characters before its newline. *)
Theorem list_rows_complete rt name s cfg v o :
  lists_ !! name = Some cfg →
  stream_list_preferring_cache cache name cfg (mk_visited (mk_Output [] []) []) = (Ok tt, v) →
  out s = Some o →
  let p := plan_of registry route_config dns_config name in
  let bs := batches rt ipv6_enabled name p s in
  let ds := omap accepted_domain (entries (received v)) in
  let run := generate_list cache registry route_config dns_config lists_ rt ipv6_enabled name s in
  run.1 = Ok tt ∧
  if idle p || bool_decide (ds = []) then out run.2 = Some o
  else ∃ log, out run.2 = Some (o ++ list_header name ++ rows_text bs log ++ eol) ∧
    ∀ i b, bs !! i = Some b → enabled b = true →
      mjoin (groups i log) = List.filter (fits b) ds ∧
      Forall (λ g, g ≠ [] ∧ (length g ≤ 50)%nat ∧ (length (emit_line b (path_of g)) ≤ 1025)%nat) (groups i log).
Proof.
  intros Hl Hv Ho. cbv zeta. unfold generate_list. rewrite Hl, Hv.
  set (p := plan_of _ _ _ _). set (bs0 := batches rt ipv6_enabled name p s).
  pose proof (batches_ok rt ipv6_enabled name p s) as Hok. fold bs0 in Hok.
  assert (Hfresh : Forall fresh bs0) by (eapply Forall_impl; [done|by intros ? []]).
  destruct (idle p) eqn:Hidle; cbn [orb].
  { destruct (idle_entries name p (entries (received v)) bs0 false s Hidle) as (s' & -> & Hs').
    rewrite flush_fresh by done. split; [done|]. cbn [snd]. by rewrite Hs'. }
  assert (Hat0 : list_at name o bs0 [] [] (bs0, false, s)).
  { split; [done|]. split; [done|]. split; [by rewrite Ho, app_nil_r|]. by apply all_at_fresh. }
  destruct (on_entries_at _ _ _ p (entries (received v)) _ _ _ Hidle Hat0) as [log Hat].
  rewrite app_nil_l in Hat. revert Hat. set (ds := omap accepted_domain _).
  destruct (foldl _ _ _) as [[bs w] t]. intros (Hw & Hlog & Ht & Hall).
  destruct (each_batch_at flush_batch bs0 _ (batch_done ds) (batch_at_insensitive _)
    (batch_done_insensitive _) (flush_done bs0 ds) bs0 0 log bs t _ eq_refl Hall Ht) as [new Hf].
  destruct (each_batch flush_batch bs t) as [bs' t']. destruct Hf as (-> & _ & Hall').
  split; [done|]. rewrite Hw. destruct (bool_decide (ds = [])) eqn:Ed; cbn [negb snd].
  - apply bool_decide_eq_true in Ed. rewrite (Hlog Ed) in *. cbn [out app] in *.
    rewrite (rows_text_none bs0 new); [by rewrite !app_nil_r|].
    intros i b Hi. destruct (all_at_lookup _ _ _ _ _ _ _ Hall' Hi) as [b' Hb'].
    destruct (batch_done_groups _ _ _ _ _ Hb') as [Hg Hm]. rewrite Ed in Hm.
    destruct (enabled b); [|done]. by apply (good_groups_nil b).
  - exists (log ++ new). unfold write. cbn [out fmap option_fmap option_map].
    split; [by rewrite rows_text_app, <- !app_assoc|]. intros i b Hi He.
    destruct (all_at_lookup _ _ _ _ _ _ _ Hall' Hi) as [b' Hb'].
    destruct (batch_done_groups _ _ _ _ _ Hb') as [Hg Hm]. rewrite He in Hm. split; [done|].
    eapply Forall_impl; [exact Hg|]. intros g Hgood. eapply Forall_lookup_1 in Hok as [_ Hrow]; [|done].
    by apply good_group_row; [|apply Hrow].
Qed.
End promises.

(** ** Witnesses *)

Definition w_lists : gmap cstring ListConfig := {[ str "x" := w_list_config ]}.
Definition w_route_config : RouteConfig := {|
  inbound_interfaces := None;
  rules := Some [Build_RouteRule None None None None (Some [str "x"]) "vpn" None None None];
|}.
Definition w_registry : DnsServerRegistry :=
  match @make_DnsServerRegistry w_inet (Throw (DnsError [])) w_dns with
  | Ok r => r | _ => mk_Registry ∅ [] end.

Lemma list_rows_complete_witness :
  let run := @generate_list w_inet w_files w_cache w_registry w_route_config w_dns w_lists
               ResolverType.DNSMASQ_NFTSET true "x" (mk_sink (Some []) init_MD5State) in
  run.1 = Ok tt ∧ out run.2 =
  Some ("# List: x" ++ eol ++
        "nftset=/Example.com/Example.com/Example.org/4#inet#KeenPbrTable#kpbr4d_x,6#inet#KeenPbrTable#kpbr6d_x" ++
        eol ++ eol).
Proof.
  destruct (@stream_list_preferring_cache w_inet w_files w_cache "x" w_list_config
    (mk_visited (mk_Output [] []) [])) as [r v] eqn:E.
  assert (r = Ok tt) as -> by (vm_compute in E; by injection E as <- _).
  destruct (@list_rows_complete w_inet w_files w_cache w_registry w_route_config w_dns w_lists true
    ResolverType.DNSMASQ_NFTSET "x" (mk_sink (Some []) init_MD5State) w_list_config v [] eq_refl E eq_refl) as [H _].
  split; [exact H|vm_compute; reflexivity].
Defined.
