(* ===== verification/ResolverSync.v ===== *)
(** * The state of the resolver (src/src/daemon/resolver_sync_state_machine.cpp,
      resolver_health.cpp, resolver_apply_confirmation.cpp, and the resolver part
      of daemon_resolver.cpp)

    The daemon compares the hash it expects with the hash the running resolver
    publishes.  The state machine keeps both and classifies them; the daemon
    probes on an executor and commits the result on its control loop, so that
    the two are separate steps with anything in between. *)

From S2P Require Import Prelude CppString Config Runtime DnsTxt.

Local Open Scope Z_scope.

Module ResolverConfigSyncState.
Inductive t := CONVERGED | CONVERGING | STALE.
#[global] Instance t_eq_dec : EqDecision t.
Proof. solve_decision. Defined.
End ResolverConfigSyncState.

Module ResolverConfigProbeStatus.
Inductive t := INVALID_TXT | MISSING_TXT | NOT_CONFIGURED | QUERY_FAILED | SUCCESS | UNKNOWN.
#[global] Instance t_eq_dec : EqDecision t.
Proof. solve_decision. Defined.
End ResolverConfigProbeStatus.

Module ResolverLiveStatus.
Inductive t := DEGRADED | HEALTHY | UNAVAILABLE | UNKNOWN.
#[global] Instance t_eq_dec : EqDecision t.
Proof. solve_decision. Defined.
End ResolverLiveStatus.

(** ** The state machine *)

Record ResolverSyncSnapshot := mk_SyncSnapshot {
  snap_expected_hash : cstring;
  snap_actual_hash : cstring;
  snap_actual_ts : option Z;
  snap_last_probe_ts : option Z;
  snap_apply_started_ts : option Z;
  snap_sync_state : option ResolverConfigSyncState.t;
  snap_probe_status : ResolverConfigProbeStatus.t;
  snap_live_status : ResolverLiveStatus.t;
}.

Record ResolverSyncStateMachine := mk_Sync {
  expected_hash_ : cstring;
  actual_hash_ : cstring;
  actual_ts_ : option Z;
  last_probe_ts_ : option Z;
  apply_started_ts_ : option Z;
  probe_status_ : ResolverConfigProbeStatus.t;
  runtime_active_ : bool;
  resolver_configured_ : bool;
}.

Definition initial_sync : ResolverSyncStateMachine :=
  mk_Sync [] [] None None None ResolverConfigProbeStatus.UNKNOWN true true.

Definition kConvergingWindowSeconds : Z := 15.

(** Both are seconds since the epoch: the difference does not overflow. *)
Definition within_converging_window (apply_started_ts : option Z) (now_ts : Z) : bool :=
  match apply_started_ts with
  | Some t => now_ts - t <=? kConvergingWindowSeconds
  | None => false
  end.

Definition resolver_probe_status_from_hash_probe_status (s : ResolverConfigHashProbeStatus.t) :
    ResolverConfigProbeStatus.t :=
  match s with
  | ResolverConfigHashProbeStatus.SUCCESS => ResolverConfigProbeStatus.SUCCESS
  | ResolverConfigHashProbeStatus.NO_USABLE_TXT => ResolverConfigProbeStatus.MISSING_TXT
  | ResolverConfigHashProbeStatus.INVALID_TXT => ResolverConfigProbeStatus.INVALID_TXT
  | ResolverConfigHashProbeStatus.QUERY_FAILED => ResolverConfigProbeStatus.QUERY_FAILED
  end.

Definition runtime_stopped (m : ResolverSyncStateMachine) : ResolverSyncStateMachine :=
  mk_Sync (expected_hash_ m) [] None None (apply_started_ts_ m)
    ResolverConfigProbeStatus.NOT_CONFIGURED false false.

Definition resolver_not_configured (m : ResolverSyncStateMachine) : ResolverSyncStateMachine :=
  mk_Sync (expected_hash_ m) [] None None (apply_started_ts_ m)
    ResolverConfigProbeStatus.NOT_CONFIGURED true false.

Definition expected_hash_updated (h : cstring) (m : ResolverSyncStateMachine) : ResolverSyncStateMachine :=
  mk_Sync h (actual_hash_ m) (actual_ts_ m) (last_probe_ts_ m) (apply_started_ts_ m) (probe_status_ m)
    true true.

Definition apply_started (ts : Z) (h : cstring) (m : ResolverSyncStateMachine) : ResolverSyncStateMachine :=
  mk_Sync h (actual_hash_ m) (actual_ts_ m) (last_probe_ts_ m) (Some ts) (probe_status_ m) true true.

Definition probe_succeeded (h : cstring) (ts probe_ts : option Z) (m : ResolverSyncStateMachine) :
    ResolverSyncStateMachine :=
  mk_Sync (expected_hash_ m) h ts probe_ts (apply_started_ts_ m) ResolverConfigProbeStatus.SUCCESS
    true true.

Definition probe_failed (status : ResolverConfigHashProbeStatus.t) (probe_ts : option Z)
    (m : ResolverSyncStateMachine) : ResolverSyncStateMachine :=
  let '(h, ts) :=
    if negb (bool_decide (status = ResolverConfigHashProbeStatus.QUERY_FAILED)) then ([], None)
    else (actual_hash_ m, actual_ts_ m) in
  mk_Sync (expected_hash_ m) h ts probe_ts (apply_started_ts_ m)
    (resolver_probe_status_from_hash_probe_status status) true true.

(** [*actual_ts_ < *apply_started_ts_] when both are present. *)
Definition older_than_apply (m : ResolverSyncStateMachine) : bool :=
  match actual_ts_ m, apply_started_ts_ m with Some a, Some t => a <? t | _, _ => false end.

Definition probe_inconclusive (s : ResolverConfigProbeStatus.t) : bool :=
  bool_decide (s = ResolverConfigProbeStatus.UNKNOWN) ||
  bool_decide (s = ResolverConfigProbeStatus.QUERY_FAILED) ||
  bool_decide (s = ResolverConfigProbeStatus.MISSING_TXT) ||
  bool_decide (s = ResolverConfigProbeStatus.INVALID_TXT).

Definition converging (m : ResolverSyncStateMachine) (now_ts : Z) : bool :=
  within_converging_window (apply_started_ts_ m) now_ts &&
  (probe_inconclusive (probe_status_ m) ||
   (negb (bool_decide (expected_hash_ m = actual_hash_ m)) && older_than_apply m)).

Definition snapshot (m : ResolverSyncStateMachine) (now_ts : Z) : ResolverSyncSnapshot :=
  let result := λ sync status live,
    mk_SyncSnapshot (expected_hash_ m) (actual_hash_ m) (actual_ts_ m) (last_probe_ts_ m)
      (apply_started_ts_ m) sync status live in
  if negb (runtime_active_ m) || negb (resolver_configured_ m)
  then result None ResolverConfigProbeStatus.NOT_CONFIGURED ResolverLiveStatus.UNKNOWN
  else if bool_decide (expected_hash_ m = [])
  then result None (probe_status_ m) ResolverLiveStatus.UNKNOWN
  else if converging m now_ts
  then result (Some ResolverConfigSyncState.CONVERGING) (probe_status_ m)
         (if bool_decide (probe_status_ m = ResolverConfigProbeStatus.QUERY_FAILED)
          then ResolverLiveStatus.UNAVAILABLE else ResolverLiveStatus.HEALTHY)
  else match probe_status_ m with
  | ResolverConfigProbeStatus.QUERY_FAILED => result None (probe_status_ m) ResolverLiveStatus.UNAVAILABLE
  | ResolverConfigProbeStatus.SUCCESS =>
      result (Some (if bool_decide (expected_hash_ m = actual_hash_ m)
                    then ResolverConfigSyncState.CONVERGED else ResolverConfigSyncState.STALE))
        (probe_status_ m) ResolverLiveStatus.HEALTHY
  | ResolverConfigProbeStatus.MISSING_TXT | ResolverConfigProbeStatus.INVALID_TXT =>
      result (Some ResolverConfigSyncState.STALE) (probe_status_ m) ResolverLiveStatus.DEGRADED
  | _ => result None (probe_status_ m) ResolverLiveStatus.UNKNOWN
  end.

(** ** The classification for the health report (resolver_health.cpp) *)

Record ResolverActualState := mk_ActualState {
  act_live_status : ResolverLiveStatus.t;
  act_last_probe_ts : option Z;
  act_hash : cstring;
  act_ts : option Z;
}.

Definition empty_ActualState : ResolverActualState := mk_ActualState ResolverLiveStatus.UNKNOWN None [] None.

Definition build_resolver_actual_state (routing_runtime_active resolver_configured : bool)
    (probe_result : option ResolverConfigHashProbeResult) (probe_completed_ts : option Z) :
    ResolverActualState :=
  if negb routing_runtime_active || negb resolver_configured then empty_ActualState
  else match probe_result with
  | None => empty_ActualState
  | Some r =>
      match probe_status r with
      | ResolverConfigHashProbeStatus.SUCCESS =>
          mk_ActualState ResolverLiveStatus.HEALTHY probe_completed_ts (txt_hash (parsed_value r))
            (txt_ts (parsed_value r))
      | ResolverConfigHashProbeStatus.NO_USABLE_TXT | ResolverConfigHashProbeStatus.INVALID_TXT =>
          mk_ActualState ResolverLiveStatus.DEGRADED probe_completed_ts [] None
      | ResolverConfigHashProbeStatus.QUERY_FAILED =>
          mk_ActualState ResolverLiveStatus.UNAVAILABLE probe_completed_ts [] None
      end
  end.

Definition classify_resolver_config_sync_state (actual_ts apply_started_ts : option Z) (now_ts : Z)
    (hash_equal : bool) : option ResolverConfigSyncState.t :=
  let by_hash := Some (if hash_equal then ResolverConfigSyncState.CONVERGED
                       else ResolverConfigSyncState.STALE) in
  match actual_ts with
  | None => None
  | Some a =>
      match apply_started_ts with
      | None => by_hash
      | Some t =>
          if a <? t then
            if now_ts - t <=? 15 then Some ResolverConfigSyncState.CONVERGING else by_hash
          else by_hash
      end
  end.

(** ** Waiting for the hash of a candidate (resolver_apply_confirmation.cpp) *)

Definition resolver_hash_confirmation_matches (r : ResolverConfigHashProbeResult) (expected_hash : cstring)
    (apply_started_ts : Z) : bool :=
  bool_decide (probe_status r = ResolverConfigHashProbeStatus.SUCCESS) &&
  bool_decide (txt_hash (parsed_value r) = expected_hash) &&
  match txt_ts (parsed_value r) with Some ts => apply_started_ts <=? ts | None => false end.

Definition confirmation_error (last_result : ResolverConfigHashProbeResult) : cstring :=
  "resolver config hash confirmation timed out" ++
  (if bool_decide (probe_status last_result = ResolverConfigHashProbeStatus.SUCCESS)
   then str " (hash/timestamp did not match candidate)"
   else if bool_decide (probe_error last_result = []) then [] else ": " ++ probe_error last_result).

Section confirmation.
(** The results of the successive probes and the clock after the [k]-th pause. *)
Context (probe : nat → exc ResolverConfigHashProbeResult) (clock_after : nat → Z).
Context (expected_hash : cstring) (apply_started_ts deadline : Z).

(** The [do ... while] loop from its [k]-th probe on: confirmed, or the error;
    [None] when the fuel runs out. *)
Fixpoint confirmation_loop (fuel k : nat) : option (exc (bool * cstring)) :=
  match fuel with
  | O => None
  | S fuel =>
      match probe k with
      | Ok r =>
          if resolver_hash_confirmation_matches r expected_hash apply_started_ts then Some (Ok (true, []))
          else if clock_after k <? deadline then confirmation_loop fuel (S k)
          else Some (Ok (false, confirmation_error r))
      | Throw e => Some (Throw e)
      | Undefined => Some Undefined
      end
  end.
End confirmation.

Definition wait_for_resolver_hash_confirmation (probe : nat → exc ResolverConfigHashProbeResult)
    (clock_after : nat → Z) (start timeout : Z) (expected_hash : cstring) (apply_started_ts : Z)
    (fuel : nat) : option (exc (bool * cstring)) :=
  confirmation_loop probe clock_after expected_hash apply_started_ts (start + timeout) fuel 0.

Definition kResolverApplyProbeTimeout : Z := 30000.
Definition kResolverApplyProbeInterval : Z := 1000.

(** [Daemon::wait_for_resolver_config_hash_confirmation] *)
Definition wait_for_resolver_config_hash_confirmation
    (probe : cstring → nat → exc ResolverConfigHashProbeResult) (clock_after : nat → Z) (start : Z)
    (candidate : option DnsConfig) (expected_hash : cstring) (apply_started_ts : Z) (fuel : nat) :
    option (exc (bool * cstring)) :=
  match candidate ≫= system_resolver with
  | None => Some (Ok (true, []))
  | Some r =>
      if bool_decide (resolver_address r = []) then Some (Ok (true, []))
      else wait_for_resolver_hash_confirmation (probe (resolver_address r)) clock_after start
             kResolverApplyProbeTimeout expected_hash apply_started_ts fuel
  end.

(** ** The daemon's probes (daemon_resolver.cpp) *)

Definition dns_config_uses_keenetic_server (dns_cfg_opt : option DnsConfig) : bool :=
  match dns_cfg_opt with
  | None => false
  | Some cfg => existsb (λ server, match value_or (dns_type server) DnsServerType.STATIC with
                                   | DnsServerType.KEENETIC => true
                                   | DnsServerType.STATIC => false end) (value_or (servers cfg) [])
  end.

(** A probe on the executor, and its result on the way to the control loop. *)
Record probe_job := mk_job { job_addr : cstring; job_generation : Z }.
Record commit_task := mk_commit {
  task_generation : Z;
  task_result : option ResolverConfigHashProbeResult;
  task_ts : option Z;
}.

(** The members of the daemon that the resolver's code uses. [retry_pending] is
    the scheduled one-shot; [published] is the resolver's part of the published
    runtime state. *)
Record Daemon := mk_Daemon {
  dns_ : option DnsConfig;
  routing_runtime_active_ : bool;
  runtime_generation_ : Z;
  daemon_apply_started_ts : Z;
  resolver_sync_ : ResolverSyncStateMachine;
  resolver_coordinator_ : ResolverMetadata;
  resolver_hash_refresh_inflight_ : bool;
  retry_pending : bool;
  executor_queue : list probe_job;
  control_queue : list commit_task;
  published : ResolverSyncSnapshot;
}.

Definition set_sync (f : ResolverSyncStateMachine → ResolverSyncStateMachine)
    (g : ResolverMetadata → ResolverMetadata) (d : Daemon) : Daemon :=
  mk_Daemon (dns_ d) (routing_runtime_active_ d) (runtime_generation_ d) (daemon_apply_started_ts d)
    (f (resolver_sync_ d)) (g (resolver_coordinator_ d)) (resolver_hash_refresh_inflight_ d)
    (retry_pending d) (executor_queue d) (control_queue d) (published d).
Definition set_flight (inflight retry : bool) (jobs : list probe_job) (tasks : list commit_task)
    (d : Daemon) : Daemon :=
  mk_Daemon (dns_ d) (routing_runtime_active_ d) (runtime_generation_ d) (daemon_apply_started_ts d)
    (resolver_sync_ d) (resolver_coordinator_ d) inflight retry jobs tasks (published d).

Definition publish_resolver_state (now_ts : Z) (d : Daemon) : Daemon :=
  mk_Daemon (dns_ d) (routing_runtime_active_ d) (runtime_generation_ d) (daemon_apply_started_ts d)
    (resolver_sync_ d) (resolver_coordinator_ d) (resolver_hash_refresh_inflight_ d) (retry_pending d)
    (executor_queue d) (control_queue d) (snapshot (resolver_sync_ d) now_ts).

(** [computed] is the hash of [make_resolver_generation_snapshot]. *)
Definition update_resolver_config_hash (computed : exc cstring) : stexc Daemon unit := λ d,
  match computed with
  | Ok h =>
      let d := set_sync (expected_hash_updated h) (λ m, (resolver_reconcile h m).2) d in
      (Ok tt, if 0 <? daemon_apply_started_ts d
              then set_sync (apply_started (daemon_apply_started_ts d) h) id d else d)
  | Throw e => (Throw e, d)
  | Undefined => (Undefined, d)
  end.

Definition reset_resolver_actual_state (d : Daemon) : Daemon :=
  set_sync resolver_not_configured clear_actual d.

(** [enqueue] is what the executor answers. *)
Definition refresh_resolver_config_hash_actual_async (enqueue : bool) (now_ts : Z) (d : Daemon) : Daemon :=
  match (if routing_runtime_active_ d then dns_ d ≫= system_resolver else None) with
  | None =>
      publish_resolver_state now_ts
        (if negb (routing_runtime_active_ d) then set_sync runtime_stopped id d
         else reset_resolver_actual_state d)
  | Some r =>
      if bool_decide (resolver_address r = [])
      then publish_resolver_state now_ts (reset_resolver_actual_state d)
      else if resolver_hash_refresh_inflight_ d then d
      else if enqueue
      then set_flight true (retry_pending d)
             (executor_queue d ++ [mk_job (resolver_address r) (runtime_generation_ d)])
             (control_queue d) d
      else d
  end.

Definition maybe_schedule_resolver_config_hash_actual_refresh (enqueue : bool) (now_ts : Z) (d : Daemon) :
    Daemon :=
  if resolver_hash_refresh_inflight_ d then d
  else refresh_resolver_config_hash_actual_async enqueue now_ts d.

(** The job on the executor: the query ends in a result or in an exception with
    a message, and the commit is posted. *)
Definition run_probe_job (query : ResolverConfigHashProbeResult + cstring) (now_ts : Z) (d : Daemon) :
    Daemon :=
  match executor_queue d with
  | [] => d
  | job :: jobs =>
      let r := match query with
        | inl r => r
        | inr e => mk_ProbeResult ResolverConfigHashProbeStatus.QUERY_FAILED None empty_TxtValue e
        end in
      set_flight (resolver_hash_refresh_inflight_ d) (retry_pending d) jobs
        (control_queue d ++ [mk_commit (job_generation job) (Some r) (Some now_ts)]) d
  end.

Definition schedule_resolver_config_hash_actual_retry (d : Daemon) : Daemon :=
  set_flight (resolver_hash_refresh_inflight_ d) true (executor_queue d) (control_queue d) d.

(** The control task of [commit_resolver_hash_probe_result]. *)
Definition commit_resolver_hash_probe_result (t : commit_task) (now_ts : Z) (d : Daemon) : Daemon :=
  let d := set_flight false (retry_pending d) (executor_queue d) (control_queue d) d in
  if negb (task_generation t =? runtime_generation_ d) then d
  else
    let d := match task_result t with
      | None => d
      | Some r =>
          if bool_decide (probe_status r = ResolverConfigHashProbeStatus.SUCCESS)
          then set_sync (probe_succeeded (txt_hash (parsed_value r)) (txt_ts (parsed_value r)) (task_ts t)) id d
          else set_sync (probe_failed (probe_status r) (task_ts t)) id d
      end in
    let resolver_snapshot := snapshot (resolver_sync_ d) now_ts in
    let d := set_sync id (observe_actual (snap_actual_hash resolver_snapshot)) d in
    let d := if bool_decide (snap_sync_state resolver_snapshot = Some ResolverConfigSyncState.CONVERGING)
             then schedule_resolver_config_hash_actual_retry d else d in
    publish_resolver_state now_ts d.

Definition run_control_task (now_ts : Z) (d : Daemon) : Daemon :=
  match control_queue d with
  | [] => d
  | t :: tasks =>
      commit_resolver_hash_probe_result t now_ts
        (set_flight (resolver_hash_refresh_inflight_ d) (retry_pending d) (executor_queue d) tasks d)
  end.

(** The one-shot: it clears its id and asks for a refresh. *)
Definition run_retry (enqueue : bool) (now_ts : Z) (d : Daemon) : Daemon :=
  if retry_pending d
  then maybe_schedule_resolver_config_hash_actual_refresh enqueue now_ts
         (set_flight (resolver_hash_refresh_inflight_ d) false (executor_queue d) (control_queue d) d)
  else d.

(** ** The state machine answers for its history *)

Inductive sync_event :=
  | RuntimeStopped
  | ResolverNotConfigured
  | ExpectedHashUpdated (h : cstring)
  | ApplyStarted (ts : Z) (h : cstring)
  | ProbeSucceeded (h : cstring) (ts probe_ts : option Z)
  | ProbeFailed (status : ResolverConfigHashProbeStatus.t) (probe_ts : option Z).

Definition sync_step (m : ResolverSyncStateMachine) (e : sync_event) : ResolverSyncStateMachine :=
  match e with
  | RuntimeStopped => runtime_stopped m
  | ResolverNotConfigured => resolver_not_configured m
  | ExpectedHashUpdated h => expected_hash_updated h m
  | ApplyStarted ts h => apply_started ts h m
  | ProbeSucceeded h ts probe_ts => probe_succeeded h ts probe_ts m
  | ProbeFailed status probe_ts => probe_failed status probe_ts m
  end.

(** What the history says, the latest event first. *)
Fixpoint expected_of (h : list sync_event) : cstring :=
  match h with
  | [] => []
  | ExpectedHashUpdated x :: _ | ApplyStarted _ x :: _ => x
  | _ :: h => expected_of h
  end.
Fixpoint applied_at (h : list sync_event) : option Z :=
  match h with
  | [] => None
  | ApplyStarted ts _ :: _ => Some ts
  | _ :: h => applied_at h
  end.
Definition in_use (h : list sync_event) : bool :=
  match h with RuntimeStopped :: _ | ResolverNotConfigured :: _ => false | _ => true end.
(** The latest answer since the resolver was last stopped or not configured. *)
Fixpoint answer_of (h : list sync_event) : option (ResolverConfigProbeStatus.t * cstring) :=
  match h with
  | [] | RuntimeStopped :: _ | ResolverNotConfigured :: _ => None
  | ProbeSucceeded x _ _ :: _ => Some (ResolverConfigProbeStatus.SUCCESS, x)
  | ProbeFailed status _ :: _ => Some (resolver_probe_status_from_hash_probe_status status, [])
  | _ :: h => answer_of h
  end.

Definition agrees (h : list sync_event) (m : ResolverSyncStateMachine) : Prop :=
  expected_hash_ m = expected_of h ∧ apply_started_ts_ m = applied_at h ∧
  (runtime_active_ m && resolver_configured_ m = in_use h) ∧
  match answer_of h with
  | Some (st, x) => probe_status_ m = st ∧
                    (st ≠ ResolverConfigProbeStatus.QUERY_FAILED → actual_hash_ m = x)
  | None => (probe_status_ m = ResolverConfigProbeStatus.UNKNOWN ∨
             probe_status_ m = ResolverConfigProbeStatus.NOT_CONFIGURED) ∧ actual_hash_ m = []
  end.

Lemma agrees_step h m e : agrees h m → agrees (e :: h) (sync_step m e).
Proof.
  intros (H1 & H2 & H3 & H4). destruct e as [| | | | |st pts]; cbn; unfold agrees; cbn; try done.
  - split; [done|]. split; [done|]. split; [done|]. by split; [right|].
  - split; [done|]. split; [done|]. split; [done|]. by split; [right|].
  - unfold probe_failed. destruct st; cbn; (split; [done|]; split; [done|]; split; [done|]); by split.
Qed.

Lemma agrees_run evs : agrees (rev evs) (foldl sync_step initial_sync evs).
Proof.
  induction evs as [|e evs IH] using rev_ind.
  - split; [done|]. split; [done|]. split; [done|]. by split; [left|].
  - rewrite foldl_app, rev_app_distr. cbn [foldl rev app]. by apply agrees_step.
Qed.

(** What the snapshot of a state reports. *)

Lemma snapshot_converged m now_ts :
  snap_sync_state (snapshot m now_ts) = Some ResolverConfigSyncState.CONVERGED ↔
  runtime_active_ m && resolver_configured_ m = true ∧ expected_hash_ m ≠ [] ∧
  probe_status_ m = ResolverConfigProbeStatus.SUCCESS ∧ expected_hash_ m = actual_hash_ m.
Proof.
  unfold snapshot, converging, probe_inconclusive. rewrite <- negb_andb.
  destruct (runtime_active_ m && resolver_configured_ m); cbn [negb]; [|naive_solver].
  destruct (bool_decide (expected_hash_ m = [])) eqn:E0; breflect; [naive_solver|].
  destruct (bool_decide (expected_hash_ m = actual_hash_ m)) eqn:E1; breflect;
    destruct (within_converging_window _ _), (probe_status_ m), (older_than_apply m); cbn; naive_solver.
Qed.

Lemma snapshot_unavailable m now_ts :
  snap_live_status (snapshot m now_ts) = ResolverLiveStatus.UNAVAILABLE ↔
  runtime_active_ m && resolver_configured_ m = true ∧ expected_hash_ m ≠ [] ∧
  probe_status_ m = ResolverConfigProbeStatus.QUERY_FAILED.
Proof.
  unfold snapshot, converging, probe_inconclusive. rewrite <- negb_andb.
  destruct (runtime_active_ m && resolver_configured_ m); cbn [negb]; [|naive_solver].
  destruct (bool_decide (expected_hash_ m = [])) eqn:E0; breflect; [naive_solver|].
  destruct (within_converging_window _ _), (probe_status_ m), (bool_decide (expected_hash_ m = actual_hash_ m)),
    (older_than_apply m); cbn; naive_solver.
Qed.

Lemma snapshot_converging m now_ts :
  snap_sync_state (snapshot m now_ts) = Some ResolverConfigSyncState.CONVERGING →
  ∃ t, apply_started_ts_ m = Some t ∧ now_ts - t ≤ 15.
Proof.
  assert (Hw : within_converging_window (apply_started_ts_ m) now_ts = true →
    ∃ t, apply_started_ts_ m = Some t ∧ now_ts - t ≤ 15).
  { unfold within_converging_window. destruct (apply_started_ts_ m); [|done]. intros H. breflect. eauto. }
  unfold snapshot. destruct (_ || _); [done|]. destruct (bool_decide _); [done|]. unfold converging.
  destruct (within_converging_window _ _); [auto|]. cbn [andb].
  destruct (probe_status_ m); try done. by destruct (bool_decide _).
Qed.

(** Over any history of events, the resolver is reported CONVERGED exactly
    when it is in use, a hash is expected and the latest answer since it was
    last out of use is that hash, whatever the timestamps; it is reported
    CONVERGING only within 15 seconds after the latest start of an apply, and
    UNAVAILABLE exactly when the latest answer of a resolver in use with an
    expected hash is a failed query. *)
Theorem resolver_sync_exact evs now_ts :
  let h := rev evs in
  let s := snapshot (foldl sync_step initial_sync evs) now_ts in
  (snap_sync_state s = Some ResolverConfigSyncState.CONVERGED ↔
   in_use h = true ∧ expected_of h ≠ [] ∧
   answer_of h = Some (ResolverConfigProbeStatus.SUCCESS, expected_of h)) ∧
  (snap_sync_state s = Some ResolverConfigSyncState.CONVERGING →
   ∃ t, applied_at h = Some t ∧ now_ts - t ≤ 15) ∧
  (snap_live_status s = ResolverLiveStatus.UNAVAILABLE ↔
   in_use h = true ∧ expected_of h ≠ [] ∧
   fst <$> answer_of h = Some ResolverConfigProbeStatus.QUERY_FAILED).
Proof.
  cbv zeta. pose proof (agrees_run evs) as Hag. revert Hag.
  generalize (foldl sync_step initial_sync evs) as m, (rev evs) as h. intros m h (He & Ha & Hu & Hans).
  rewrite <- Hu, <- He, <- Ha, snapshot_converged, snapshot_unavailable.
  split; [|split; [apply snapshot_converging|]].
  - destruct (answer_of h) as [[st x]|].
    + destruct Hans as [-> Hx]. split.
      * intros (H1 & H2 & -> & H4). rewrite <- Hx by done. by rewrite <- H4.
      * intros (H1 & H2 & [= -> ->]). by rewrite Hx.
    + destruct Hans as [Hst _]. split; [intros (_ & _ & H & _)|intros (_ & _ & H); discriminate H].
      rewrite H in Hst. by destruct Hst.
  - destruct (answer_of h) as [[st x]|]; cbn.
    + destruct Hans as [-> _]. split; [by intros (? & ? & ->)|by intros (? & ? & [= ->])].
    + destruct Hans as [Hst _]. split; [intros (_ & _ & H)|intros (_ & _ & H); discriminate H].
      rewrite H in Hst. by destruct Hst.
Qed.

(** ** The wait for a candidate ends *)

Section confirmation_ends.
Context (probe : nat → exc ResolverConfigHashProbeResult) (clock_after : nat → Z).
Context (start timeout interval : Z) (expected_hash : cstring) (apply_started_ts : Z).

(** Each probe is followed by a pause of at least [interval]. *)
Hypothesis pauses : ∀ k, start + (Z.of_nat k + 1) * interval ≤ clock_after k.
Hypothesis interval_pos : 0 < interval.

Abbreviation matches r := (resolver_hash_confirmation_matches r expected_hash apply_started_ts).

(** Probe [k] is made and no earlier one matched. *)
Definition unmatched_before (k : nat) : Prop :=
  ∀ j, (j < k)%nat → ∃ r, probe j = Ok r ∧ matches r = false ∧ clock_after j < start + timeout.

Lemma confirmation_loop_spec fuel k :
  unmatched_before k → timeout / interval + 1 ≤ Z.of_nat (fuel + k) → (0 < fuel)%nat →
  ∃ r, confirmation_loop probe clock_after expected_hash apply_started_ts (start + timeout) fuel k = Some r ∧
    ((∃ e, r = Ok (true, e)) ↔ ∃ i x, unmatched_before i ∧ probe i = Ok x ∧ matches x = true).
Proof.
  revert k. induction fuel as [|fuel IH]; intros k Hk Hfuel Hpos; [lia|]. cbn [confirmation_loop].
  assert (Hstop : ∀ (P : Prop), (∀ x, probe k = Ok x → matches x = true → P) →
    (∀ i x, unmatched_before i → probe i = Ok x → matches x = true → (k < i)%nat → P) →
    (∃ i x, unmatched_before i ∧ probe i = Ok x ∧ matches x = true) → P).
  { intros P H1 H2 (i & x & Hi & Hx & Hm). destruct (Nat.lt_trichotomy i k) as [Hlt|[->|Hgt]]; [|eauto..].
    destruct (Hk i Hlt) as (y & Hy & Hn & _). congruence. }
  destruct (probe k) as [x|e|] eqn:Ep.
  - destruct (matches x) eqn:Em.
    { eexists. split; [done|]. split; [|by eauto]. intros _. by exists k, x. }
    destruct (Z.ltb_spec (clock_after k) (start + timeout)) as [Hlt|Hge].
    + assert (Hk' : unmatched_before (S k)).
      { intros j Hj. destruct (decide (j = k)) as [->|]; [by eauto|]. apply Hk. lia. }
      apply IH; [done|lia|]. destruct fuel; [|lia]. exfalso. specialize (pauses k).
      assert (timeout / interval ≤ Z.of_nat k) by lia.
      assert (timeout < (Z.of_nat k + 1) * interval); [|lia].
      pose proof (Z.mod_pos_bound timeout interval interval_pos). pose proof (Z_div_mod_eq_full timeout interval). nia.
    + eexists. split; [done|]. split; [by intros [? [=]]|]. apply Hstop; [congruence|].
      intros i y Hi Hy Hm Hgt. destruct (Hi k Hgt) as (? & ? & ? & ?). lia.
  - eexists. split; [done|]. split; [by intros [? [=]]|]. apply Hstop; [congruence|].
    intros i y Hi Hy Hm Hgt. destruct (Hi k Hgt) as (? & ? & ?). congruence.
  - eexists. split; [done|]. split; [by intros [? [=]]|]. apply Hstop; [congruence|].
    intros i y Hi Hy Hm Hgt. destruct (Hi k Hgt) as (? & ? & ?). congruence.
Qed.
End confirmation_ends.

(** C34. The wait for the resolver to publish the hash of a candidate ends: with
    pauses of at least the interval it makes no more than timeout / interval + 1
    probes, and it reports the confirmation exactly when one of the probes made
    before the deadline answers with the expected hash and a time not before the
    start of the apply. *)
Theorem confirmation_terminates probe clock_after start timeout interval expected_hash apply_started_ts fuel :
  (∀ k, start + (Z.of_nat k + 1) * interval ≤ clock_after k) → 0 < interval → 0 ≤ timeout →
  timeout / interval + 1 ≤ Z.of_nat fuel →
  ∃ r, wait_for_resolver_hash_confirmation probe clock_after start timeout expected_hash apply_started_ts fuel = Some r ∧
    ((∃ e, r = Ok (true, e)) ↔
     ∃ k x, unmatched_before probe clock_after start timeout expected_hash apply_started_ts k ∧ probe k = Ok x ∧
       probe_status x = ResolverConfigHashProbeStatus.SUCCESS ∧ txt_hash (parsed_value x) = expected_hash ∧
       ∃ ts, txt_ts (parsed_value x) = Some ts ∧ apply_started_ts ≤ ts).
Proof.
  intros Hp Hi Ht Hf. unfold wait_for_resolver_hash_confirmation.
  pose proof (Z.div_pos timeout interval Ht Hi).
  destruct (confirmation_loop_spec probe clock_after start timeout interval expected_hash apply_started_ts Hp Hi fuel 0)
    as (r & -> & Hr); [intros j Hj; lia|lia|lia|].
  exists r. split; [done|]. rewrite Hr. clear. unfold resolver_hash_confirmation_matches.
  split; intros (k & x & Hk & Hx & H); exists k, x; (split; [done|]; split; [done|]).
  - destruct (txt_ts (parsed_value x)) as [ts|]; breflect; naive_solver.
  - destruct H as (H1 & H2 & ts & H3 & H4). rewrite H1, H2, H3. breflect. naive_solver.
Qed.

(** ** Probes and commits interleave safely *)

Definition initial_daemon (dns : option DnsConfig) (active : bool) : Daemon :=
  mk_Daemon dns active 0 0 initial_sync (mk_ResolverMetadata [] []) false false [] []
    (snapshot initial_sync 0).

(** The calls of the control loop, the executor's jobs, the one-shot, and what
    the rest of the daemon does to the members the resolver's code reads. *)
Inductive daemon_step : Daemon → Daemon → Prop :=
  | step_refresh enqueue now_ts d :
      daemon_step d (refresh_resolver_config_hash_actual_async enqueue now_ts d)
  | step_maybe_refresh enqueue now_ts d :
      daemon_step d (maybe_schedule_resolver_config_hash_actual_refresh enqueue now_ts d)
  | step_probe query now_ts d : daemon_step d (run_probe_job query now_ts d)
  | step_control now_ts d : daemon_step d (run_control_task now_ts d)
  | step_retry enqueue now_ts d : daemon_step d (run_retry enqueue now_ts d)
  | step_update computed d : daemon_step d (update_resolver_config_hash computed d).2
  | step_reconfigure dns active generation ts d :
      daemon_step d (mk_Daemon dns active generation ts (resolver_sync_ d) (resolver_coordinator_ d)
        (resolver_hash_refresh_inflight_ d) (retry_pending d) (executor_queue d) (control_queue d) (published d)).

Definition outstanding (d : Daemon) : nat := length (executor_queue d) + length (control_queue d).
Definition one_probe (d : Daemon) : Prop :=
  outstanding d = (if resolver_hash_refresh_inflight_ d then 1 else 0)%nat.

Lemma refresh_one_probe enqueue now_ts d :
  one_probe d → one_probe (refresh_resolver_config_hash_actual_async enqueue now_ts d).
Proof.
  unfold one_probe, outstanding, refresh_resolver_config_hash_actual_async. intros H.
  destruct (if routing_runtime_active_ d then _ else _) as [r|].
  - destruct (bool_decide _); [done|]. destruct (resolver_hash_refresh_inflight_ d) eqn:E; [by rewrite E|].
    destruct enqueue; [|by rewrite E]. cbn. rewrite length_app. cbn. lia.
  - by destruct (negb _).
Qed.

Lemma maybe_refresh_one_probe enqueue now_ts d :
  one_probe d → one_probe (maybe_schedule_resolver_config_hash_actual_refresh enqueue now_ts d).
Proof.
  intros H. unfold maybe_schedule_resolver_config_hash_actual_refresh.
  destruct (resolver_hash_refresh_inflight_ d); [done|by apply refresh_one_probe].
Qed.

(** Committing keeps the queues and ends the flight. *)
Lemma commit_flight t now_ts d :
  let d' := commit_resolver_hash_probe_result t now_ts d in
  resolver_hash_refresh_inflight_ d' = false ∧ executor_queue d' = executor_queue d ∧
  control_queue d' = control_queue d.
Proof.
  cbv zeta. unfold commit_resolver_hash_probe_result. destruct (negb _); [done|].
  destruct (task_result t) as [r|]; [destruct (bool_decide (probe_status r = _))|];
    by destruct (bool_decide (snap_sync_state _ = _)).
Qed.

Lemma control_flight t tasks now_ts d : one_probe d → control_queue d = t :: tasks →
  let d' := run_control_task now_ts d in
  resolver_hash_refresh_inflight_ d' = false ∧ executor_queue d' = [] ∧ control_queue d' = [].
Proof.
  unfold one_probe, outstanding, run_control_task. intros H Hq. rewrite Hq in *. cbv zeta.
  destruct (commit_flight t now_ts (set_flight (resolver_hash_refresh_inflight_ d) (retry_pending d)
    (executor_queue d) tasks d)) as (-> & -> & ->). cbn in *.
  destruct (executor_queue d), tasks, (resolver_hash_refresh_inflight_ d); cbn in *; naive_solver lia.
Qed.

Lemma daemon_step_one_probe d d' : daemon_step d d' → one_probe d → one_probe d'.
Proof.
  intros Hs H. destruct Hs as [enq now d|enq now d|q now d|now d|enq now d|computed d|].
  - by apply refresh_one_probe.
  - by apply maybe_refresh_one_probe.
  - unfold run_probe_job. unfold one_probe, outstanding in *.
    destruct (executor_queue d) as [|j js] eqn:E; [by rewrite E|]. cbn in *. rewrite length_app. cbn.
    destruct (resolver_hash_refresh_inflight_ d); lia.
  - destruct (control_queue d) as [|t ts] eqn:E; [by unfold run_control_task; rewrite E|].
    destruct (control_flight t ts now d H E) as (H1 & H2 & H3). unfold one_probe, outstanding.
    by rewrite H1, H2, H3.
  - unfold run_retry. destruct (retry_pending d); [|done]. by apply maybe_refresh_one_probe.
  - unfold update_resolver_config_hash. destruct computed; [|done..]. by destruct (0 <? _).
  - done.
Qed.

(** C33. Whatever order refreshes, probes, commits, retries and the rest of the
    daemon run in, at most one probe is under way and the flag says so exactly;
    a result that arrives for an older generation of the runtime changes nothing
    that is reported; a result for the current one is what the published state
    and the coordinator report, and while the resolver is still converging a
    retry is scheduled. *)
Theorem resolver_probe_protocol dns active d :
  rtc daemon_step (initial_daemon dns active) d →
  one_probe d ∧
  ∀ t tasks now_ts, control_queue d = t :: tasks →
    let d' := run_control_task now_ts d in
    one_probe d' ∧ resolver_hash_refresh_inflight_ d' = false ∧
    (task_generation t ≠ runtime_generation_ d →
      resolver_sync_ d' = resolver_sync_ d ∧ resolver_coordinator_ d' = resolver_coordinator_ d ∧
      published d' = published d) ∧
    (task_generation t = runtime_generation_ d →
      published d' = snapshot (resolver_sync_ d') now_ts ∧
      actual_config_hash (resolver_coordinator_ d') = snap_actual_hash (published d') ∧
      (snap_sync_state (published d') = Some ResolverConfigSyncState.CONVERGING → retry_pending d' = true)).
Proof.
  intros Hr. assert (H : one_probe d).
  { assert (H0 : one_probe (initial_daemon dns active)) by done. revert H0.
    induction Hr; eauto using daemon_step_one_probe. }
  split; [done|]. intros t tasks now_ts Hq. cbv zeta.
  split; [by apply (daemon_step_one_probe d); [constructor|]|].
  split; [by apply (control_flight t tasks)|]. unfold run_control_task. rewrite Hq.
  unfold commit_resolver_hash_probe_result. cbn [runtime_generation_ set_flight].
  destruct (Z.eqb_spec (task_generation t) (runtime_generation_ d)) as [Hg|Hg]; cbn [negb]; [|done].
  split; [done|]. intros _. destruct (task_result t) as [r|]; [destruct (bool_decide (probe_status r = _))|]; cbn;
    case_bool_decide; cbn; (split; [done|]; split; [done|]); congruence || done.
Qed.

(** ** Witnesses *)

Definition w_expected : cstring := "0123456789abcdef0123456789abcdef".

(** The third probe answers with the expected hash. *)
Definition w_probe (k : nat) : exc ResolverConfigHashProbeResult :=
  Ok (if (k <? 2)%nat
      then mk_ProbeResult ResolverConfigHashProbeStatus.QUERY_FAILED None empty_TxtValue "timeout"
      else mk_ProbeResult ResolverConfigHashProbeStatus.SUCCESS None (mk_TxtValue (Some 120) w_expected) []).

Lemma confirmation_terminates_witness :
  ∃ r, wait_for_resolver_hash_confirmation w_probe (λ k, 1000 * (Z.of_nat k + 1)) 0 30000 w_expected 100 31 = Some r ∧
    ∃ e, r = Ok (true, e).
Proof.
  destruct (confirmation_terminates w_probe (λ k, 1000 * (Z.of_nat k + 1)) 0 30000 1000 w_expected 100 31)
    as (r & Hr & Hiff); [intros k; lia|lia|lia|vm_compute; discriminate|].
  exists r. split; [exact Hr|]. apply Hiff. exists 2%nat.
  exists (mk_ProbeResult ResolverConfigHashProbeStatus.SUCCESS None (mk_TxtValue (Some 120) w_expected) []).
  split; [|split; [reflexivity|split; [reflexivity|split; [reflexivity|exists 120; split; [reflexivity|lia]]]]].
  intros j Hj. exists (mk_ProbeResult ResolverConfigHashProbeStatus.QUERY_FAILED None empty_TxtValue "timeout").
  split; [destruct j as [|[|]]; [reflexivity..|lia]|]. split; [reflexivity|]. cbn. lia.
Defined.

Definition w_resolver_dns : DnsConfig := {|
  dns_test_server := None; fallback := None; dns_rules := None; servers := None;
  system_resolver := Some {| resolver_address := "127.0.0.1" |};
|}.

(** A refresh, its probe, and a change of the runtime before the commit. *)
Definition w_probing : Daemon :=
  run_probe_job (inr (str "timeout")) 7
    (refresh_resolver_config_hash_actual_async true 5 (initial_daemon (Some w_resolver_dns) true)).
Definition w_superseded : Daemon :=
  mk_Daemon (dns_ w_probing) true 1 0 (resolver_sync_ w_probing) (resolver_coordinator_ w_probing)
    true false (executor_queue w_probing) (control_queue w_probing) (published w_probing).

Lemma resolver_probe_protocol_witness :
  one_probe w_superseded ∧ published (run_control_task 9 w_superseded) = published w_superseded.
Proof.
  destruct (resolver_probe_protocol (Some w_resolver_dns) true w_superseded) as [H1 H2].
  { eapply rtc_l; [apply (step_refresh true 5)|]. eapply rtc_l; [apply (step_probe (inr (str "timeout")) 7)|].
    apply rtc_once. apply (step_reconfigure (dns_ w_probing) true 1 0). }
  split; [exact H1|]. destruct (H2 _ [] 9 eq_refl) as (_ & _ & H3 & _). apply H3. cbn. discriminate.
Defined.
