(* ===== verification/TestRouting.v ===== *)
(** * Explaining the routing of a target (src/src/cmd/test_routing.cpp,
      src/src/lists/kernel_set_tester.cpp)

    The diagnostic command compares the outbound that the configured lists
    select for an address with the one that the kernel's sets select. *)

From S2P Require Import Prelude CppString Config AddrSpec Fwmark FirewallRules.
From S2P Require Import ListParser ListStreamer IpSet Firewall.

Local Open Scope Z_scope.

(** ** Targets *)

Section targets.
Context {IP : InetPton}.

Definition is_ipv4_address (s : cstring) : bool := is_inet AF_INET s.
Definition is_ipv6_address (s : cstring) : bool := is_inet AF_INET6 s.
Definition is_ip_address (s : cstring) : bool := is_ipv4_address s || is_ipv6_address s.
End targets.

Definition lowercase_copy (value : cstring) : cstring := tolower <$> value.

(** "www.google.com", "google.com", "com": each turn drops a character. *)
Fixpoint domain_candidates_loop (fuel : nat) (d : cstring) : list cstring :=
  match fuel with
  | O => [d]
  | S fuel =>
      d :: match find_char "." d with
           | None => []
           | Some dot => domain_candidates_loop fuel (drop (dot + 1) d)
           end
  end.
Definition domain_candidates (domain : cstring) : list cstring :=
  domain_candidates_loop (length domain) domain.

(** ** Lookup data *)

Record ListLookupData := mk_Lookup { ip_set : IpSet; domain_set : gset cstring }.
Definition empty_lookup : ListLookupData := mk_Lookup empty_IpSet ∅.

Definition on_entry (e : EntryType.t * cstring) (data : ListLookupData) : exc ListLookupData :=
  match e.1 with
  | EntryType.Ip => s ← add_address e.2 (ip_set data); mret (mk_Lookup s (domain_set data))
  | EntryType.Cidr => s ← add_cidr e.2 (ip_set data); mret (mk_Lookup s (domain_set data))
  | EntryType.Domain =>
      let d := if starts_with "*." e.2 then drop 2 e.2 else e.2 in
      Ok (mk_Lookup (ip_set data) ({[lowercase_copy d]} ∪ domain_set data))
  end.

Fixpoint on_entries (es : list (EntryType.t * cstring)) (data : ListLookupData) : exc ListLookupData :=
  match es with
  | [] => Ok data
  | e :: es => data ← on_entry e data; on_entries es data
  end.

Section lookups.
Context {IP : InetPton} {FS : Files} (cfg : Config) (cache : CacheManager).

(** The builder as the visitor of the list: an entry it rejects ends the
    streaming, hence comes before any failure of the streamer. *)
Definition build_lookup (name : cstring) (config : ListConfig) : exc ListLookupData :=
  let '(r, v) := stream_list cache name config (mk_visited (mk_Output [] []) []) in
  data ← on_entries (entries (received v)) empty_lookup;
  r ≫= λ _, mret data.

Definition referenced_lists : list cstring :=
  rule ← config_rules cfg; if route_rule_enabled rule then route_rule_lists rule else [].

Fixpoint build_lookups (names : list cstring) (result : gmap cstring ListLookupData) :
    exc (gmap cstring ListLookupData) :=
  match names with
  | [] => Ok result
  | name :: names =>
      match config_lists cfg !! name with
      | None => build_lookups names result
      | Some config => data ← build_lookup name config; build_lookups names (<[name := data]> result)
      end
  end.

(** The names in the order of a [std::set]. *)
Definition build_all_lookups : exc (gmap cstring ListLookupData) :=
  build_lookups (stable_sort str_lt (remove_dups referenced_lists)) ∅.
End lookups.

(** ** Expected outbound *)

Record ListMatchInfo := mk_Match { match_list : cstring; via : cstring }.

(** The tests of one list: the address, then the candidates in order. *)
Definition list_match (lookup : ListLookupData) (name ip : cstring) (domain_cands : list cstring) :
    exc (option ListMatchInfo) :=
  in_set ← (if bool_decide (ip = []) then Ok false else contains ip (ip_set lookup));
  if in_set : bool then Ok (Some (mk_Match name ip))
  else Ok match find_if (λ c, bool_decide (lowercase_copy c ∈ domain_set lookup)) domain_cands with
  | Some c => Some (mk_Match name c)
  | None => None
  end.

Section expected.
Context (lookups : gmap cstring ListLookupData) (ip : cstring) (domain_cands : list cstring).

Fixpoint lists_match (names : list cstring) : exc (option ListMatchInfo) :=
  match names with
  | [] => Ok None
  | name :: names =>
      match lookups !! name with
      | None => lists_match names
      | Some lookup =>
          m ← list_match lookup name ip domain_cands;
          match m with Some m => Ok (Some m) | None => lists_match names end
      end
  end.

Definition find_rule_match (rule : RouteRule) : exc (option ListMatchInfo) :=
  if negb (route_rule_enabled rule) then Ok None else lists_match (route_rule_lists rule).

(** The loop over the rules, with the loop over the lists inlined in the code. *)
Fixpoint expected_loop (rules : list RouteRule) : exc (cstring * option ListMatchInfo) :=
  match rules with
  | [] => Ok (str "(default)", None)
  | rule :: rules =>
      if negb (route_rule_enabled rule) then expected_loop rules
      else
        m ← lists_match (route_rule_lists rule);
        match m with
        | Some m => Ok (rule_outbound rule, Some m)
        | None => expected_loop rules
        end
  end.

Definition find_expected_outbound (cfg : Config) : exc (cstring * option ListMatchInfo) :=
  expected_loop (config_rules cfg).
End expected.

Definition outbound_interface_name (cfg : Config) (outbound_tag : cstring) : cstring :=
  match find_outbound (value_or (outbounds cfg) []) outbound_tag with
  | Some ob => value_or (interface ob) "-"
  | None => "-"
  end.

(** ** The kernel's sets *)


Section kernel.
(** The exit code of a command. *)
Context (safe_exec : list cstring → Z) (backend : FirewallBackend.t).

Definition set_contains (set_name ip : cstring) : option bool :=
  let exit_code :=
    match backend with
    | FirewallBackend.nftables =>
        safe_exec [str "nft"; str "get"; str "element"; str "inet"; str "KeenPbrTable"; set_name;
                   str "{"; ip; str "}"]
    | FirewallBackend.iptables => safe_exec [str "ipset"; str "test"; set_name; ip]
    end in
  if exit_code =? 127 then None else Some (exit_code =? 0).

Definition v4_set (name : cstring) : bool :=
  starts_with "kpbr4_" name || starts_with "kpbr4s_" name ||
  starts_with "kpbr4S_" name || starts_with "kpbr4d_" name.
Definition v6_set (name : cstring) : bool :=
  starts_with "kpbr6_" name || starts_with "kpbr6s_" name ||
  starts_with "kpbr6S_" name || starts_with "kpbr6d_" name.

(** The loop over the sets of a rule: was the address found, and did any set
    answer at all? *)
Fixpoint sets_loop (names : list cstring) (ip : cstring) (is_v4 any_answer : bool) : bool * bool :=
  match names with
  | [] => (false, any_answer)
  | name :: names =>
      if (is_v4 && negb (v4_set name)) || (negb is_v4 && negb (v6_set name))
      then sets_loop names ip is_v4 any_answer
      else match set_contains name ip with
      | None => sets_loop names ip is_v4 any_answer
      | Some true => (true, true)
      | Some false => sets_loop names ip is_v4 true
      end
  end.

Definition test_rule_ipset_membership (rs : RuleState) (ip : cstring) (is_v4 : bool) : option bool :=
  match sets_loop (set_names rs) ip is_v4 false with
  | (true, _) => Some true
  | (false, true) => Some false
  | (false, false) => None
  end.

Fixpoint actual_loop (states : list RuleState) (ip : cstring) (is_v4 any_answer : bool) : cstring :=
  match states with
  | [] => if any_answer then "(default)" else "(unknown)"
  | rs :: states =>
      if bool_decide (action_type rs = RuleActionType.Skip)
      then actual_loop states ip is_v4 any_answer
      else match sets_loop (set_names rs) ip is_v4 any_answer with
      | (true, _) => outbound_tag rs
      | (false, any_answer) => actual_loop states ip is_v4 any_answer
      end
  end.

Definition find_actual_outbound (states : list RuleState) (ip : cstring) (is_v4 : bool) : cstring :=
  actual_loop states ip is_v4 false.
End kernel.

(** ** The report for an address *)

Record TestRoutingEntry := mk_Entry {
  entry_ip : cstring;
  entry_match : option ListMatchInfo;
  expected_outbound : cstring;
  actual_outbound : cstring;
  ok : bool;
}.

(** The first part of [check_ip]; the tester is absent when no firewall tool
    was found. *)
Definition check_ip {IP : InetPton} (safe_exec : list cstring → Z)
    (set_tester : option FirewallBackend.t) (cfg : Config) (lookups : gmap cstring ListLookupData)
    (rule_states : list RuleState) (domain_cands : list cstring) (ip : cstring) :
    exc TestRoutingEntry :=
  r ← find_expected_outbound lookups ip domain_cands cfg;
  let actual := match set_tester with
                | Some backend => find_actual_outbound safe_exec backend rule_states ip (is_ipv4_address ip)
                | None => str "(unknown)"
                end in
  mret (mk_Entry ip r.2 r.1 actual (bool_decide (r.1 = actual))).

(** The second part: membership per rule. *)
Definition rule_ip_rows {IP : InetPton} (safe_exec : list cstring → Z)
    (set_tester : option FirewallBackend.t) (rule_states : list RuleState) (rule_count : nat)
    (ip : cstring) : list (option bool) :=
  (λ idx, match set_tester, rule_states !! idx with
          | Some backend, Some rs =>
              test_rule_ipset_membership safe_exec backend rs ip (is_ipv4_address ip)
          | _, _ => None
          end) <$> seq 0 rule_count.

(** ** Candidates are the parent domains *)

Lemma domain_candidates_loop_spec fuel d c :
  (length d ≤ fuel)%nat →
  c ∈ domain_candidates_loop fuel d ↔ c = d ∨ ∃ p, d = p ++ str "." ++ c.
Proof.
  revert d. induction fuel as [|fuel IH]; intros d Hd; cbn [domain_candidates_loop].
  { destruct d; [|cbn in Hd; lia]. rewrite list_elem_of_singleton. split; [by left|].
    intros [?|(p & E)]; [done|]. symmetry in E. apply app_nil in E as [_ ?]. done. }
  rewrite elem_of_cons. destruct (find_char "." d) as [dot|] eqn:E.
  - apply find_char_Some in E as [Hs Hn]. set (q := take dot d) in *. set (t := drop (S dot) d) in *.
    replace (drop (dot + 1) d) with t by (subst t; f_equal; lia).
    rewrite IH; cycle 1. { subst t. rewrite length_drop. lia. }
    rewrite Hs. split.
    + intros [?|[->|(p & ->)]]; [by left|right..].
      * by exists q.
      * exists (q ++ str "." ++ p). by rewrite <- !app_assoc.
    + intros [?|(p & Hp)]; [by left|]. right.
      destruct (decide (length p = length q)) as [Hl|Hl].
      * left. apply app_inj_1 in Hp as [_ Hp]; [|done]. by injection Hp.
      * right. assert (Hlen : (length q < length p)%nat).
        { destruct (decide (length p < length q)%nat) as [Hlt|]; [exfalso|lia].
          apply Hn. assert (Hdot : (q ++ "."%char :: t) !! length p = Some "."%char).
          { rewrite Hp, lookup_app_r by lia. by rewrite Nat.sub_diag. }
          rewrite lookup_app_l in Hdot by done. by eapply list_elem_of_lookup_2. }
        assert (Hq : ∃ p', p = q ++ "."%char :: p').
        { pose proof (f_equal (take (length p)) Hp) as Ht. rewrite take_app_length in Ht.
          rewrite take_app_ge in Ht by lia.
          destruct (length p - length q)%nat as [|k] eqn:Ek; [lia|]. cbn in Ht.
          exists (take k t). by rewrite <- Ht. }
        destruct Hq as [p' ->]. exists p'. rewrite <- !app_assoc in Hp.
        apply app_inv_head in Hp. by injection Hp.
  - apply find_char_None in E. split; [intros [?|?%elem_of_nil]; [by left|done]|].
    intros [?|(p & Hp)]; [by left|]. exfalso. apply E. rewrite Hp. rewrite elem_of_app. right. left.
Qed.

Lemma domain_candidates_spec d c :
  c ∈ domain_candidates d ↔ c = d ∨ ∃ p, d = p ++ str "." ++ c.
Proof. apply domain_candidates_loop_spec. lia. Qed.

(** ** What lookup data contain *)

Definition net_entry (e : EntryType.t * cstring) : option entry :=
  match e.1 with
  | EntryType.Ip => Some (Addr e.2)
  | EntryType.Cidr => Some (Cidr e.2)
  | EntryType.Domain => None
  end.

Definition strip_star (d : cstring) : cstring := if starts_with "*." d then drop 2 d else d.

Definition names_domain (es : list (EntryType.t * cstring)) (d : cstring) : Prop :=
  ∃ e, (EntryType.Domain, e) ∈ es ∧ d = lowercase_copy (strip_star e).

Lemma on_entries_spec es data data' ns :
  represents (ip_set data) ns → on_entries es data = Ok data' →
  ∃ nets, mapM network_of (omap net_entry es) = Some nets ∧
    represents (ip_set data') (ns ++ nets) ∧
    ∀ d, d ∈ domain_set data' ↔ d ∈ domain_set data ∨ names_domain es d.
Proof.
  revert data ns. induction es as [|[ty e] es IH]; intros data ns Hr; cbn [on_entries].
  { intros [= <-]. exists []. rewrite app_nil_r. split; [done|]. split; [done|].
    intros d. split; [by left|]. intros [?|(x & ?%elem_of_nil & _)]; done. }
  intros (data1 & Hd1 & Hrun)%exc_bind_Ok.
  assert (Hnames : ∀ d, names_domain ((ty, e) :: es) d ↔
    (ty = EntryType.Domain ∧ d = lowercase_copy (strip_star e)) ∨ names_domain es d).
  { intros d. unfold names_domain. setoid_rewrite elem_of_cons. split.
    - intros (x & [[= <- <-]|Hx] & ->); [by left|]. right. eauto.
    - intros [[-> ->]|(x & Hx & ->)]; [exists e; by auto|exists x; by auto]. }
  assert (Hnet : ∀ ent s, net_entry (ty, e) = Some ent → add ent (ip_set data) = Ok s →
    data1 = mk_Lookup s (domain_set data) → ty ≠ EntryType.Domain →
    ∃ nets, mapM network_of (omap net_entry ((ty, e) :: es)) = Some nets ∧
    represents (ip_set data') (ns ++ nets) ∧
    ∀ d, d ∈ domain_set data' ↔ d ∈ domain_set data ∨ names_domain ((ty, e) :: es) d).
  { intros ent s Hent Hadd -> Hty.
    assert (Ha : adds_as (add ent (ip_set data)) ns (network_of ent)).
    { destruct ent; [by apply add_address_ok|by apply add_cidr_ok]. }
    rewrite Hadd in Ha. destruct (network_of ent) as [net|] eqn:Enet; [|by destruct Ha].
    destruct Ha as (s' & [= <-] & Hs). destruct (IH (mk_Lookup s (domain_set data)) _ Hs Hrun) as (nets & Hm & Hr' & Hd).
    exists (net :: nets). cbn [omap list_omap]. rewrite Hent. cbn [mapM]. rewrite Enet. cbn [mbind option_bind].
    rewrite Hm. split; [done|]. rewrite <- app_assoc in Hr'. split; [done|].
    intros d. rewrite Hd, Hnames. cbn [domain_set]. tauto. }
  unfold on_entry in Hd1. destruct ty; cbn [fst snd] in Hd1.
  - apply exc_bind_Ok in Hd1 as (s & Hs & [= <-]). by eapply (Hnet (Addr e) s).
  - apply exc_bind_Ok in Hd1 as (s & Hs & [= <-]). by eapply (Hnet (Cidr e) s).
  - injection Hd1 as <-.
    destruct (IH (mk_Lookup (ip_set data) _) _ Hr Hrun) as (nets & Hm & Hr' & Hd).
    exists nets. split; [done|]. split; [done|]. intros d. rewrite Hd, Hnames. cbn [domain_set].
    rewrite elem_of_union, elem_of_singleton. fold (strip_star e). tauto.
Qed.

(** ** When a list contains a target *)

(** The address lies in a network of the list, or a candidate is one of its
    domains. *)
Definition target_in (es : list (EntryType.t * cstring)) (ip : cstring) (cands : list cstring) : Prop :=
  (ip ≠ [] ∧ ∃ e ent a net, e ∈ es ∧ net_entry e = Some ent ∧ network_of ent = Some net ∧
     address_of ip = Some a ∧ in_network a net = true) ∨
  (∃ c, c ∈ cands ∧ names_domain es (lowercase_copy c)).

Definition valid_target (ip : cstring) : Prop := ip = [] ∨ is_Some (address_of ip).

Lemma in_networks_iff es nets a :
  mapM network_of (omap net_entry es) = Some nets →
  existsb (in_network a) nets = true ↔
  ∃ e ent net, e ∈ es ∧ net_entry e = Some ent ∧ network_of ent = Some net ∧ in_network a net = true.
Proof.
  intros Hm. rewrite existsb_exists. setoid_rewrite <- list_elem_of_In.
  setoid_rewrite (elem_of_mapM_Some _ _ _ _ Hm). setoid_rewrite list_elem_of_omap. split.
  - intros (net & (ent & (e & He & Hent) & Hn) & Hin). eauto 10.
  - intros (e & ent & net & He & Hent & Hn & Hin). eauto 10.
Qed.

Lemma list_match_spec es data name ip cands :
  on_entries es empty_lookup = Ok data → valid_target ip →
  ∃ m, list_match data name ip cands = Ok m ∧ (is_Some m ↔ target_in es ip cands).
Proof.
  intros Hes Hip.
  destruct (on_entries_spec es empty_lookup data [] represents_empty Hes) as (nets & Hm & Hr & Hd).
  assert (Hset : ∃ b, (if bool_decide (ip = []) then Ok false else contains ip (ip_set data)) = Ok b ∧
    (b = true ↔ ip ≠ [] ∧ ∃ e ent a net, e ∈ es ∧ net_entry e = Some ent ∧ network_of ent = Some net ∧
       address_of ip = Some a ∧ in_network a net = true)).
  { case_bool_decide as Hne; [exists false; split; [done|]; split; [done|]; by intros [? _]|].
    destruct Hip as [?|[a Ha]]; [done|]. exists (existsb (in_network a) nets).
    rewrite (contains_ok ip _ nets Hr), Ha. split; [done|]. rewrite (in_networks_iff es nets a Hm). split.
    - intros (e & ent & net & ?). split; [done|]. exists e, ent, a, net. tauto.
    - intros [_ (e & ent & a' & net & ? & ? & ? & [= <-] & ?)]. eauto 10. }
  destruct Hset as (b & Hb & Hbt). unfold list_match. rewrite Hb. cbn [mbind exc_bind].
  destruct b; [eexists; split; [done|]; split; [intros _; left; by apply Hbt|done]|].
  destruct (find_if _ cands) as [c|] eqn:Ef; eexists; (split; [done|]).
  - apply find_if_Some in Ef as [Hc Hcd]. breflect. split; [|done]. intros _. right.
    exists c. split; [done|]. apply Hd in Hcd as [?%elem_of_empty|?]; done.
  - rewrite find_if_None in Ef. split; [by intros []|]. intros [Hn|(c & Hc & Hn)].
    + by apply Hbt in Hn.
    + specialize (Ef c Hc). breflect. destruct Ef. apply Hd. by right.
Qed.

Section first_match.
Context (lookups : gmap cstring ListLookupData) (ents : cstring → list (EntryType.t * cstring)).
Context (ip : cstring) (cands : list cstring) (Hip : valid_target ip).
Context (Hlookups : ∀ name data, lookups !! name = Some data → on_entries (ents name) empty_lookup = Ok data).

Definition lists_hit (names : list cstring) : Prop :=
  ∃ name, name ∈ names ∧ is_Some (lookups !! name) ∧ target_in (ents name) ip cands.

Lemma lists_match_spec names :
  ∃ m, lists_match lookups ip cands names = Ok m ∧ (is_Some m ↔ lists_hit names).
Proof.
  unfold lists_hit. induction names as [|name names IH]; cbn [lists_match].
  { eexists; split; [done|]. split; [by intros []|]. by intros (? & ?%elem_of_nil & _). }
  setoid_rewrite elem_of_cons. destruct IH as (m' & Hm' & Hiff).
  destruct (lookups !! name) as [data|] eqn:E; cycle 1.
  { rewrite Hm'. eexists; split; [done|]. rewrite Hiff. split.
    - intros (x & ? & ?). exists x. auto.
    - intros (x & [->|?] & [? ?] & ?); [congruence|eauto]. }
  destruct (list_match_spec (ents name) data name ip cands (Hlookups _ _ E) Hip) as (m & -> & Hm).
  cbn [mbind exc_bind]. destruct m as [m|].
  - eexists; split; [done|]. split; [intros _|done]. exists name. rewrite E.
    split; [by left|]. split; [done|]. by apply Hm.
  - rewrite Hm'. eexists; split; [done|]. rewrite Hiff. split.
    + intros (x & ? & ?). exists x. auto.
    + intros (x & [->|?] & ? & Ht); [|eauto]. apply Hm in Ht. by destruct Ht.
Qed.

Definition rule_hit (rule : RouteRule) : Prop :=
  route_rule_enabled rule = true ∧ lists_hit (route_rule_lists rule).

Lemma expected_loop_spec rules :
  ∃ r, expected_loop lookups ip cands rules = Ok r ∧
    ((∃ l1 rule l2, rules = l1 ++ rule :: l2 ∧ rule_hit rule ∧ Forall (λ x, ¬ rule_hit x) l1 ∧
        r.1 = rule_outbound rule) ∨
     (Forall (λ x, ¬ rule_hit x) rules ∧ r = (str "(default)", None))).
Proof.
  induction rules as [|rule rules (r & Hr & IH)]; cbn [expected_loop].
  { eexists; split; [done|]. right. by split; [apply Forall_nil|]. }
  assert (Hskip : ¬ rule_hit rule →
    ((∃ l1 rule' l2, rule :: rules = l1 ++ rule' :: l2 ∧ rule_hit rule' ∧ Forall (λ x, ¬ rule_hit x) l1 ∧
        r.1 = rule_outbound rule') ∨
     (Forall (λ x, ¬ rule_hit x) (rule :: rules) ∧ r = (str "(default)", None)))).
  { intros Hno. destruct IH as [(l1 & rule' & l2 & -> & Hh & Hl1 & Ho)|[Hall ->]]; [left|right].
    - exists (rule :: l1), rule', l2. split; [done|]. split; [done|]. split; [by apply Forall_cons|done].
    - split; [by apply Forall_cons|done]. }
  destruct (route_rule_enabled rule) eqn:En; cbn [negb]; cycle 1.
  { exists r. split; [done|]. apply Hskip. intros [? _]. congruence. }
  destruct (lists_match_spec (route_rule_lists rule)) as (m & -> & Hm). cbn [mbind exc_bind].
  destruct m as [m|].
  - eexists; split; [done|]. left. exists [], rule, rules.
    split; [done|]. split; [split; [done|apply Hm; by eexists]|]. split; [by apply Forall_nil|done].
  - exists r. split; [done|]. apply Hskip. intros [_ Hh]. apply Hm in Hh. by destruct Hh.
Qed.
End first_match.

(** ** The lookup data of a configuration *)

Section config_lookups.
Context {IP : InetPton} {FS : Files} (cfg : Config) (cache : CacheManager).

Lemma build_lookup_spec name config data :
  sources_ok cache name config → build_lookup cache name config = Ok data →
  on_entries (list_entries cache name config) empty_lookup = Ok data.
Proof.
  intros Hok. unfold build_lookup.
  destruct (stream_list_spec cache name config (mk_visited (mk_Output [] []) []) Hok) as (v' & -> & _ & He).
  rewrite He. cbn [received entries app]. by intros (d & -> & [= <-])%exc_bind_Ok.
Qed.

Lemma build_lookups_spec names res lookups :
  build_lookups cfg cache names res = Ok lookups →
  (∀ name data, lookups !! name = Some data → res !! name = Some data ∨
     (name ∈ names ∧ ∃ config, config_lists cfg !! name = Some config ∧
        build_lookup cache name config = Ok data)) ∧
  (∀ name, is_Some (res !! name) ∨ (name ∈ names ∧ is_Some (config_lists cfg !! name)) →
     is_Some (lookups !! name)).
Proof.
  revert res. induction names as [|n names IH]; intros res; cbn [build_lookups].
  { intros [= ->]. split; [by left|]. intros name [?|[?%elem_of_nil _]]; done. }
  destruct (config_lists cfg !! n) as [config|] eqn:E; cycle 1.
  { intros [H1 H2]%IH. split.
    - intros name data Hl. destruct (H1 name data Hl) as [?|[? ?]]; [by left|]. right. split; [by right|done].
    - intros name Hn. apply H2. destruct Hn as [?|[[->|?]%elem_of_cons Hs]]; [by left| |by right].
      rewrite E in Hs. by destruct Hs. }
  intros (data & Hb & [H1 H2]%IH)%exc_bind_Ok. split.
  - intros name d Hl. destruct (H1 name d Hl) as [Hr|[? ?]]; [|right; split; [by right|done]].
    destruct (decide (name = n)) as [->|Hne]; [|rewrite lookup_insert_ne in Hr by done; by left].
    rewrite lookup_insert_eq in Hr. injection Hr as <-. right. split; [left|]. eauto.
  - intros name Hn. apply H2. destruct (decide (name = n)) as [->|Hne].
    + left. rewrite lookup_insert_eq. by eexists.
    + rewrite lookup_insert_ne by done.
      destruct Hn as [?|[[->|?]%elem_of_cons Hs]]; [by left|done|by right].
Qed.

Lemma elem_of_sorted_lists name :
  name ∈ stable_sort str_lt (remove_dups (referenced_lists cfg)) ↔ name ∈ referenced_lists cfg.
Proof. by rewrite stable_sort_perm, elem_of_remove_dups. Qed.

Lemma elem_of_referenced name :
  name ∈ referenced_lists cfg ↔
  ∃ rule, rule ∈ config_rules cfg ∧ route_rule_enabled rule = true ∧ name ∈ route_rule_lists rule.
Proof.
  unfold referenced_lists. rewrite list_elem_of_bind. split.
  - intros (rule & Hin & Hr). destruct (route_rule_enabled rule) eqn:E; [eauto|]. by apply elem_of_nil in Hin.
  - intros (rule & Hr & E & Hin). exists rule. by rewrite E.
Qed.
End config_lookups.

(** ** The kernel's view *)

Section agreement.
Context {IP : InetPton} (safe_exec : list cstring → Z) (backend : FirewallBackend.t).
Context (cfg : Config) (lookups : gmap cstring ListLookupData) (ip : cstring) (is_v4 : bool).

Definition static_set (name : cstring) : cstring := (if is_v4 then "kpbr4_" else "kpbr6_") ++ name.
Definition dynamic_set (name : cstring) : cstring := (if is_v4 then "kpbr4d_" else "kpbr6d_") ++ name.

(** The kernel's sets of the list hold what the list holds: the static set
    answers as the list does, and the dynamic one does not have the address.  The
    names of the static sets are those of the nftables backend. *)
Definition in_sync (name : cstring) : Prop :=
  match config_lists cfg !! name with
  | None => lookups !! name = None
  | Some _ => ∃ data b, lookups !! name = Some data ∧ contains ip (ip_set data) = Ok b ∧
      set_contains safe_exec backend (static_set name) ip = Some b ∧
      set_contains safe_exec backend (dynamic_set name) ip = Some false
  end.

Definition configured (name : cstring) : bool :=
  match config_lists cfg !! name with Some _ => true | None => false end.

Lemma sets_loop_list name any rest b :
  set_contains safe_exec backend (static_set name) ip = Some b →
  set_contains safe_exec backend (dynamic_set name) ip = Some false →
  sets_loop safe_exec backend
    (["kpbr4_" ++ name; "kpbr6_" ++ name; "kpbr4d_" ++ name; "kpbr6d_" ++ name] ++ rest) ip is_v4 any =
  if b then (true, true) else sets_loop safe_exec backend rest ip is_v4 true.
Proof.
  unfold static_set, dynamic_set. intros Hs Hd. cbn [app sets_loop].
  assert (Hf : v4_set ("kpbr4_" ++ name) = true ∧ v4_set ("kpbr6_" ++ name) = false ∧
    v4_set ("kpbr4d_" ++ name) = true ∧ v4_set ("kpbr6d_" ++ name) = false ∧
    v6_set ("kpbr4_" ++ name) = false ∧ v6_set ("kpbr6_" ++ name) = true ∧
    v6_set ("kpbr4d_" ++ name) = false ∧ v6_set ("kpbr6d_" ++ name) = true) by done.
  destruct Hf as (-> & -> & -> & -> & -> & -> & -> & ->).
  destruct is_v4; cbn [andb orb negb]; rewrite Hs; destruct b; try done; by rewrite Hd.
Qed.

Lemma sets_loop_spec names any :
  ip ≠ [] → (∀ name, name ∈ names → in_sync name) →
  ∃ m, lists_match lookups ip [] names = Ok m ∧
    sets_loop safe_exec backend
      (name ← names;
       match config_lists cfg !! name with
       | None => []
       | Some _ => ["kpbr4_" ++ name; "kpbr6_" ++ name; "kpbr4d_" ++ name; "kpbr6d_" ++ name]
       end) ip is_v4 any =
    match m with
    | Some _ => (true, true)
    | None => (false, any || existsb configured names)
    end ∧ (is_Some m → existsb configured names = true).
Proof.
  intros Hip. revert any. induction names as [|name names IH]; intros any Hsync.
  { eexists; split; [done|]. cbn. rewrite orb_false_r. split; [done|]. by intros []. }
  cbn [mbind list_bind lists_match existsb]. pose proof (Hsync name ltac:(left)) as Hn.
  unfold in_sync in Hn.
  assert (Hcn : configured name =
    match config_lists cfg !! name with Some _ => true | None => false end) by done.
  rewrite !Hcn.
  destruct (config_lists cfg !! name) as [config|]; cycle 1.
  { rewrite Hn. cbn [app orb]. apply IH. intros x Hx. apply Hsync. by right. }
  destruct Hn as (data & b & -> & Hc & Hs & Hd). rewrite (sets_loop_list name any _ b Hs Hd).
  unfold list_match. rewrite bool_decide_eq_false_2 by done. rewrite Hc. cbn [mbind exc_bind].
  destruct b; [by eexists|]. cbn [find_if List.find mbind exc_bind orb].
  destruct (IH true) as (m & Hm & Hl & _); [intros x Hx; apply Hsync; by right|].
  exists m. split; [done|]. rewrite Hl. by rewrite orb_true_r.
Qed.

(** Every enabled rule takes part in the firewall. *)
Definition effective (marks : OutboundMarkMap) (rule : RouteRule) : Prop :=
  route_rule_enabled rule = true → ∀ i, action_type (fw_rule_state cfg marks None i rule) ≠ RuleActionType.Skip.

Lemma effective_state marks i rule :
  route_rule_enabled rule = true → effective marks rule →
  let rs := fw_rule_state cfg marks None i rule in
  action_type rs ≠ RuleActionType.Skip ∧ outbound_tag rs = rule_outbound rule ∧
  set_names rs = rule_sets (config_lists cfg) rule.
Proof.
  intros En He. specialize (He En i). cbn zeta. split; [done|]. revert He.
  unfold fw_rule_state. rewrite En. cbn [negb]. repeat (case_match; try done).
Qed.

Lemma actual_loop_spec marks rules i any :
  ip ≠ [] →
  (∀ rule, rule ∈ rules → effective marks rule ∧
     (route_rule_enabled rule = true → ∀ name, name ∈ route_rule_lists rule → in_sync name)) →
  ∃ r, expected_loop lookups ip [] rules = Ok r ∧
    actual_loop safe_exec backend (imap (λ k, fw_rule_state cfg marks None (k + i)) rules) ip is_v4 any =
    if any || existsb (λ rule, route_rule_enabled rule && existsb configured (route_rule_lists rule)) rules
    then r.1 else str "(unknown)".
Proof.
  intros Hip. revert i any. induction rules as [|rule rules IH]; intros i any Hrules.
  { eexists; split; [done|]. cbn. rewrite orb_false_r. by destruct any. }
  destruct (Hrules rule ltac:(left)) as [He Hsync].
  assert (Hrest : ∀ any, ∃ r, expected_loop lookups ip [] rules = Ok r ∧
    actual_loop safe_exec backend (imap (λ k, fw_rule_state cfg marks None (S k + i)) rules) ip is_v4 any =
    if any || existsb (λ rule, route_rule_enabled rule && existsb configured (route_rule_lists rule)) rules
    then r.1 else str "(unknown)").
  { intros any'. destruct (IH (S i) any') as (r & Hr & Ha); [intros x Hx; apply Hrules; by right|].
    exists r. split; [done|]. rewrite <- Ha. f_equal. apply imap_ext. intros k x _. f_equal. lia. }
  cbn [imap expected_loop existsb actual_loop]. unfold compose. cbn [Nat.add].
  destruct (route_rule_enabled rule) eqn:En; cbn [negb andb]; cycle 1.
  { assert (Hskip : action_type (fw_rule_state cfg marks None i rule) = RuleActionType.Skip)
      by (unfold fw_rule_state; by rewrite En).
    rewrite bool_decide_eq_true_2 by done. apply Hrest. }
  destruct (effective_state marks i rule En He) as (Hact & Htag & Hsets).
  rewrite bool_decide_eq_false_2 by done. rewrite Htag, Hsets.
  destruct (sets_loop_spec (route_rule_lists rule) any Hip (Hsync eq_refl)) as (m & -> & Hl & Hc).
  unfold rule_sets. rewrite Hl. cbn [mbind exc_bind]. destruct m as [m|].
  - eexists; split; [done|]. by rewrite Hc, orb_true_r by by eexists.
  - destruct (Hrest (any || existsb configured (route_rule_lists rule))) as (r & Hr & Ha).
    exists r. split; [done|]. etrans; [exact Ha|]. by rewrite orb_assoc.
Qed.
End agreement.

(** ** Properties *)

Section config_hits.
Context {IP : InetPton} {FS : Files} (cfg : Config) (cache : CacheManager).
Context (ip : cstring) (cands : list cstring).

(** A list of the rule contains the target. *)
Definition hits (rule : RouteRule) : Prop :=
  route_rule_enabled rule = true ∧
  ∃ name config, name ∈ route_rule_lists rule ∧ config_lists cfg !! name = Some config ∧
    target_in (list_entries cache name config) ip cands.

Definition configured_entries (name : cstring) : list (EntryType.t * cstring) :=
  match config_lists cfg !! name with
  | Some config => list_entries cache name config
  | None => []
  end.

Lemma hits_iff lookups rule :
  build_all_lookups cfg cache = Ok lookups → rule ∈ config_rules cfg →
  hits rule ↔ rule_hit lookups configured_entries ip cands rule.
Proof.
  unfold build_all_lookups. intros [H1 H2]%build_lookups_spec Hrule.
  unfold hits, rule_hit, lists_hit, configured_entries. split.
  - intros (En & name & config & Hn & Hc & Ht). split; [done|]. exists name. rewrite Hc.
    split; [done|]. split; [|done]. apply H2. right. rewrite elem_of_sorted_lists, elem_of_referenced, Hc.
    split; [eauto|by eexists].
  - intros (En & name & Hn & [data Hd] & Ht). split; [done|].
    destruct (H1 name data Hd) as [Hr|(_ & config & Hc & _)]; [by rewrite lookup_empty in Hr|].
    rewrite Hc in Ht. eauto.
Qed.

Lemma find_expected_spec lookups :
  build_all_lookups cfg cache = Ok lookups →
  (∀ name config, config_lists cfg !! name = Some config → sources_ok cache name config) →
  valid_target ip →
  ∃ r, find_expected_outbound lookups ip cands cfg = Ok r ∧
    ((∃ l1 rule l2, config_rules cfg = l1 ++ rule :: l2 ∧ hits rule ∧ Forall (λ x, ¬ hits x) l1 ∧
        r.1 = rule_outbound rule) ∨
     (Forall (λ x, ¬ hits x) (config_rules cfg) ∧ r = (str "(default)", None))).
Proof.
  intros Hb Hok Hip. unfold find_expected_outbound.
  destruct (expected_loop_spec lookups configured_entries ip cands Hip) with (rules := config_rules cfg)
    as (r & Hr & Hcase).
  { intros name data Hd. unfold build_all_lookups in Hb. apply build_lookups_spec in Hb as [H1 _].
    destruct (H1 name data Hd) as [Hr|(_ & config & Hc & Hbl)]; [by rewrite lookup_empty in Hr|].
    unfold configured_entries. rewrite Hc. by eapply build_lookup_spec; [apply Hok|]. }
  exists r. split; [done|].
  destruct Hcase as [(l1 & rule & l2 & Hrules & Hh & Hl1 & Ho)|[Hall ->]]; [left|right].
  - exists l1, rule, l2. split; [done|].
    split; [apply (hits_iff lookups); [done|rewrite Hrules; set_solver|done]|]. split; [|done].
    rewrite Forall_forall in Hl1 |- *. intros x Hx. rewrite (hits_iff lookups); [by apply Hl1|done|].
    rewrite Hrules. set_solver.
  - split; [|done]. rewrite Forall_forall in Hall |- *. intros x Hx.
    rewrite (hits_iff lookups); [by apply Hall|done..].
Qed.
End config_hits.

Lemma lowercase_idemp s : lowercase_copy (lowercase_copy s) = lowercase_copy s.
Proof.
  unfold lowercase_copy. rewrite <- list_fmap_compose. apply list_fmap_ext. intros _ c _. cbn.
  by destruct c as [[] [] [] [] [] [] [] []].
Qed.

(** The expected outbound is the outbound of the first enabled rule, in
    the order of the configuration, one of whose configured lists contains the
    target (the address in one of the list's networks, or a candidate domain
    among its domains, over all the sources of the list), and "(default)" when
    there is none. *)
Theorem expected_outbound_is_first_hit {IP : InetPton} {FS : Files} cfg cache ip cands lookups :
  build_all_lookups cfg cache = Ok lookups →
  (∀ name config, config_lists cfg !! name = Some config → sources_ok cache name config) →
  valid_target ip →
  ∃ r, find_expected_outbound lookups ip cands cfg = Ok r ∧
    ((∃ l1 rule l2, config_rules cfg = l1 ++ rule :: l2 ∧ hits cfg cache ip cands rule ∧
        Forall (λ x, ¬ hits cfg cache ip cands x) l1 ∧ r.1 = rule_outbound rule) ∨
     (Forall (λ x, ¬ hits cfg cache ip cands x) (config_rules cfg) ∧ r = (str "(default)", None))).
Proof. apply find_expected_spec. Qed.

(** The candidates of a domain match a list exactly when the list has the
    domain itself or one of its parent domains, without regard to case or to a
    leading "*.". *)
Theorem domain_matches_parents es d :
  (∃ c, c ∈ domain_candidates (lowercase_copy d) ∧ names_domain es (lowercase_copy c)) ↔
  ∃ e, (EntryType.Domain, e) ∈ es ∧
    (lowercase_copy d = lowercase_copy (strip_star e) ∨
     ∃ p, lowercase_copy d = p ++ str "." ++ lowercase_copy (strip_star e)).
Proof.
  setoid_rewrite domain_candidates_spec. unfold names_domain. split.
  - intros (c & Hc & e & He & Heq). exists e. split; [done|]. rewrite <- Heq.
    destruct Hc as [->|(p & Hp)]; [left; by rewrite lowercase_idemp|]. right.
    exists (lowercase_copy p). rewrite <- (lowercase_idemp d), Hp. unfold lowercase_copy.
    by rewrite !fmap_app.
  - intros (e & He & Hd). exists (lowercase_copy (strip_star e)).
    split; [destruct Hd as [<-|?]; [by left|by right]|]. exists e. by rewrite lowercase_idemp.
Qed.

(** C37.  With nftables the report is right about a kernel in sync: for an address,
    when every enabled rule takes part in the firewall, some enabled rule uses a
    configured list, and in the kernel the static set of every referenced list
    answers as the list does while its dynamic set does not hold the address,
    the actual outbound read back from the kernel's sets equals the expected
    one. *)
Theorem report_agrees_with_kernel {IP : InetPton} safe_exec cfg lookups marks ip :
  ip ≠ [] →
  (∀ rule, rule ∈ config_rules cfg → effective cfg marks rule) →
  (∀ name, name ∈ referenced_lists cfg →
     in_sync safe_exec FirewallBackend.nftables cfg lookups ip (is_ipv4_address ip) name) →
  existsb (λ rule, route_rule_enabled rule && existsb (configured cfg) (route_rule_lists rule))
    (config_rules cfg) = true →
  ∃ e, check_ip safe_exec (Some FirewallBackend.nftables) cfg lookups (build_fw_rule_states cfg marks None) [] ip = Ok e ∧
    ok e = true ∧ actual_outbound e = expected_outbound e.
Proof.
  intros Hip Heff Hsync Hany.
  destruct (actual_loop_spec safe_exec FirewallBackend.nftables cfg lookups ip (is_ipv4_address ip) marks
    (config_rules cfg) 0 false Hip) as (r & Hr & Ha).
  { intros rule Hrule. split; [by apply Heff|]. intros En name Hn. apply Hsync, elem_of_referenced. eauto. }
  rewrite Hany in Ha. cbn [orb] in Ha. unfold check_ip, find_expected_outbound. rewrite Hr.
  cbn [mbind exc_bind mret exc_ret]. eexists. split; [done|]. cbn [ok actual_outbound expected_outbound].
  unfold find_actual_outbound, build_fw_rule_states.
  rewrite (imap_ext _ (λ k, fw_rule_state cfg marks None (k + 0)%nat)) by (intros; f_equal; lia).
  rewrite Ha. by rewrite bool_decide_eq_true_2.
Qed.

(** An entry with a zero octet written "-0" passes the list parser as an
    address, and the set of addresses then rejects it: the whole report ends in
    an exception. *)
Theorem minus_zero_entry_aborts_report {IP : InetPton} :
  match classify_entry "-0.1.2.3" with
  | Some e => on_entry e empty_lookup = Throw (invalid_argument "invalid IP address: -0.1.2.3")
  | None => False
  end.
Proof. reflexivity. Qed.

(** ** Witnesses *)

Definition w_rule (l t : cstring) : RouteRule :=
  Build_RouteRule None None None None (Some [l]) t None None None.
Definition w_vpn_outbound : Outbound :=
  Build_Outbound None None None None (Some (str "tun0")) None None None None None None None
    "vpn" None OutboundType.INTERFACE None.
Definition w_test_config : Config :=
  Build_Config None None None None None (Some {[ str "x" := w_list_config ]}) None
    (Some [w_vpn_outbound])
    (Some (Build_RouteConfig None (Some [w_rule "missing" "wan"; w_rule "x" "vpn"]))).

Definition w_lookups : gmap cstring ListLookupData :=
  from_exc ∅ (@build_all_lookups w_inet w_files w_test_config w_cache).

Lemma expected_outbound_is_first_hit_witness :
  ∃ r, find_expected_outbound w_lookups "10.1.2.3" [] w_test_config = Ok r ∧ r.1 = str "vpn".
Proof.
  destruct (@expected_outbound_is_first_hit w_inet w_files w_test_config w_cache "10.1.2.3" [] w_lookups)
    as (r & Hr & _).
  - vm_compute. reflexivity.
  - intros name config. unfold config_lists. cbn [w_test_config lists value_or].
    intros [<- <-]%lookup_singleton_Some. apply w_sources_ok.
  - right. vm_compute. by eexists.
  - exists r. split; [exact Hr|]. vm_compute in Hr. by injection Hr as <-.
Defined.

(** A kernel whose set "kpbr4_x" holds 10.0.0.0/8. *)
Definition w_exec : list cstring → Z := λ args,
  if bool_decide (str "192.168.1.1" ∈ args) then 1
  else if bool_decide (str "kpbr4_x" ∈ args) then 0 else 1.

Definition w_hit_config : Config :=
  Build_Config None None None None None (Some {[ str "x" := w_list_config ]}) None
    (Some [w_vpn_outbound]) (Some (Build_RouteConfig None (Some [w_rule "x" "vpn"]))).

Lemma report_agrees_with_kernel_witness :
  ∃ e, @check_ip w_inet w_exec (Some FirewallBackend.nftables) w_hit_config w_lookups
         (build_fw_rule_states w_hit_config ∅ None) [] "10.0.0.0" = Ok e ∧
    ok e = true ∧ expected_outbound e = str "vpn".
Proof.
  destruct (@report_agrees_with_kernel w_inet w_exec w_hit_config w_lookups ∅
    "10.0.0.0") as (e & He & Hok & _).
  - done.
  - intros rule Hrule. apply list_elem_of_singleton in Hrule as ->. intros _ i. vm_compute. done.
  - intros name Hn. vm_compute in Hn. apply list_elem_of_singleton in Hn as ->.
    vm_compute. by do 2 eexists.
  - vm_compute. reflexivity.
  - exists e. split; [exact He|]. split; [exact Hok|]. vm_compute in He. by injection He as <-.
Defined.

(** The iptables backend fills "kpbr4s_x" or "kpbr4S_x" and the routing test asks
    for "kpbr4_x": on a kernel that it filled, an address of the list is reported
    as if no rule applied. *)
Definition w_ipset_exec : list cstring → Z := λ args, if bool_decide (str "kpbr4s_x" ∈ args) then 0 else 1.

Example iptables_sets_are_not_asked :
  ∃ e, @check_ip w_inet w_ipset_exec (Some FirewallBackend.iptables) w_hit_config w_lookups
         (build_fw_rule_states w_hit_config ∅ None) [] "10.0.0.0" = Ok e ∧
    set_contains w_ipset_exec FirewallBackend.iptables "kpbr4s_x" "10.0.0.0" = Some true ∧
    expected_outbound e = str "vpn" ∧ actual_outbound e = str "(default)" ∧ ok e = false.
Proof. vm_compute. by eexists. Qed.
