(* ===== verification/TestRoutingReport.v ===== *)
(** * The whole routing report (src/src/cmd/test_routing.{hpp,cpp})

    The target is resolved with the configured resolver, each address is compared
    with the lists and with the kernel's sets by up to eight threads, and each rule
    gets its rows.  The threads share a counter: whatever their interleaving, the
    rows are those of a sequential loop. *)

From S2P Require Import Prelude CppString Config AddrSpec Fwmark DnsServer DnsProbe FirewallRules RoutingState.
From S2P Require Import ListParser ListStreamer IpSet Firewall TestRouting.

Local Open Scope Z_scope.

(** ** The report *)

Record RuleIpDiagnostic := mk_IpRow { row_ip : cstring; in_ipset : option bool }.
Record RuleDiagnostic := mk_RuleDiagnostic {
  rule_index : Z;
  diag_rule : RouteRule;
  diag_outbound : cstring;
  interface_name : cstring;
  target_in_lists : bool;
  target_match : option ListMatchInfo;
  ip_rows : list RuleIpDiagnostic;
}.
Record TestRoutingResult := mk_TestResult {
  target : cstring;
  is_domain : bool;
  resolved_ips : list cstring;
  test_entries : list TestRoutingEntry;
  rule_diagnostics : list RuleDiagnostic;
  no_matching_rule : bool;
  dns_error : option cstring;
  warnings : list cstring;
}.

(** ** Resolving a domain *)

Definition ns_c_in : Z := 1.
Definition ns_t_a : Z := 1.
Definition ns_t_aaaa : Z := 28.
Record ns_rr := mk_rr { rr_class : Z; rr_type : Z; rr_rdata : list Z }.

Inductive udp_result :=
  | NoSocket (error : cstring)
  | NoTimeout (error : cstring)
  | NotSent (error : cstring)
  | NotReceived (error : cstring)
  | Received (answer : list Z).

(** The C library's resolver and its parser of messages, and a datagram to a server
    and back; a record that cannot be parsed is [None]. *)
Class DnsLookups := {
  res_query : cstring → Z → option (list Z);
  hstrerror : cstring → Z → cstring;
  res_mkquery : cstring → Z → option (list Z);
  udp_exchange : Z → cstring → Z → list Z → udp_result;
  ns_answers : list Z → option (list (option ns_rr));
}.

Section resolve.
Context {IP : InetPton} {NT : InetNtop} {DL : DnsLookups}.

(** The list after [append_unique_ip], and what it returns *)
Definition append_unique_ip (ips : list cstring) (ip : cstring) : bool * list cstring :=
  if bool_decide (ip = []) || bool_decide (ip ∈ ips) then (false, ips) else (true, ips ++ [ip]).

(** The address of a record of the expected type *)
Definition rr_address (expected_type : Z) (rr : ns_rr) : option cstring :=
  if negb (rr_class rr =? ns_c_in) || negb (rr_type rr =? expected_type) then None
  else if (expected_type =? ns_t_a) && (length (rr_rdata rr) =? 4)%nat then inet_ntop AF_INET (rr_rdata rr)
  else if (expected_type =? ns_t_aaaa) && (length (rr_rdata rr) =? 16)%nat then inet_ntop AF_INET6 (rr_rdata rr)
  else None.
Definition add_record (expected_type : Z) (acc : bool * list cstring) (rr : option ns_rr) : bool * list cstring :=
  match rr ≫= rr_address expected_type with
  | Some ip => let '(added, ips) := append_unique_ip acc.2 ip in (added || acc.1, ips)
  | None => acc
  end.
(** Whether an address was found, the addresses, and the error *)
Definition extract_ips_from_dns_answer (answer : list Z) (expected_type : Z) (ips : list cstring) : bool * list cstring * cstring :=
  match ns_answers answer with
  | None => (false, ips, str "Failed to parse DNS response")
  | Some rrs => (foldl (add_record expected_type) (false, ips) rrs, [])
  end.

Definition type_name (record_type : Z) : cstring := if record_type =? ns_t_a then str "A" else str "AAAA".
Definition server_name (server : option DnsServerConfig) : cstring :=
  match server with Some s => ds_address s | None => str "resolv.conf" end.
Definition query_failed (server : option DnsServerConfig) (record_type : Z) (why : cstring) : cstring :=
  "DNS " ++ type_name record_type ++ " query via '" ++ server_name server ++ "' failed: " ++ why.

(** The exchange with a configured server: an error, or the answer *)
Definition ask_server (server : DnsServerConfig) (domain : cstring) (record_type : Z) : cstring + list Z :=
  let v6 := is_ipv6_address (ds_resolved_ip server) in
  if negb v6 && negb (is_ipv4_address (ds_resolved_ip server)) then inl ("Resolver '" ++ ds_address server ++ "' has invalid IPv4 address")
  else match res_mkquery domain record_type with
  | None => inl ("Failed to build DNS " ++ type_name record_type ++ " query")
  | Some query =>
      match udp_exchange (if v6 then AF_INET6 else AF_INET) (ds_resolved_ip server) (ds_port server) query with
      | NoSocket error => inl ("Failed to create DNS socket: " ++ error)
      | NoTimeout error => inl ("Failed to configure DNS socket timeout: " ++ error)
      | NotSent error => inl ("Failed to send DNS " ++ type_name record_type ++ " query via '" ++ ds_address server ++ "': " ++ error)
      | NotReceived error => inl (query_failed (Some server) record_type error)
      | Received answer => inr answer
      end
  end.

(** The error if there is one, and the addresses *)
Definition query_dns_record_with_resolver (server : option DnsServerConfig) (domain : cstring) (record_type : Z) (ips : list cstring) :
    option cstring * list cstring :=
  let answer := match server with
    | None => match res_query domain record_type with Some a => inr a | None => inl (query_failed None record_type (hstrerror domain record_type)) end
    | Some s => ask_server s domain record_type
    end in
  match answer with
  | inl error => (Some error, ips)
  | inr a =>
      let '((found, ips), parse_error) := extract_ips_from_dns_answer a record_type ips in
      (if negb found && negb (bool_decide (parse_error = [])) then Some (query_failed server record_type parse_error) else None, ips)
  end.

(** The addresses and the new warnings *)
Definition query_both (resolver : option DnsServerConfig) (domain : cstring) : list cstring * list cstring :=
  let '(a_error, ips) := query_dns_record_with_resolver resolver domain ns_t_a [] in
  let '(aaaa_error, ips) := query_dns_record_with_resolver resolver domain ns_t_aaaa ips in
  (ips, match ips, a_error, aaaa_error with
        | [], Some a, Some aaaa =>
            ["DNS resolution failed for '" ++ domain ++ "' via system resolver '" ++ server_name resolver ++ "': " ++ a ++ "; " ++ aaaa]
        | _, _, _ => []
        end).
Definition resolve_domain_with_system_resolver (config : Config) (domain : cstring) : exc (list cstring * list cstring) :=
  match system_resolver (value_or (dns config) default_DnsConfig) with
  | Some r =>
      if bool_decide (resolver_address r = []) then Ok (query_both None domain)
      else match parse_dns_server "system_resolver" (resolver_address r) None with
      | Ok server => Ok (query_both (Some server) domain)
      | Throw e => match what e with
                   | Some m => Ok ([], ["DNS system resolver '" ++ resolver_address r ++ "' is invalid: " ++ m])
                   | None => Throw e
                   end
      | Undefined => Undefined
      end
  | None => Ok (query_both None domain)
  end.
End resolve.

(** ** Checking the addresses *)

Definition kTestRoutingMaxConcurrentIps : nat := 8.
Record PerIpRoutingResult := mk_PerIp { per_entry : TestRoutingEntry; rule_ip_diagnostics : list RuleIpDiagnostic }.

Section report.
Context {SS : StdSort} {IP : InetPton} {NT : InetNtop} {DL : DnsLookups} {FS : Files}.
(** The cache, the exit codes of commands, and the firewall that was found *)
Context (cache : CacheManager) (safe_exec : list cstring → Z) (resolve_firewall_backend : exc FirewallBackend.t).

Definition check_one (set_tester : option FirewallBackend.t) (cfg : Config) (lookups : gmap cstring ListLookupData) (states : list RuleState)
    (domain_cands : list cstring) (ip : cstring) : exc PerIpRoutingResult :=
  entry ← check_ip safe_exec set_tester cfg lookups states domain_cands ip;
  mret (mk_PerIp entry (mk_IpRow ip <$> rule_ip_rows safe_exec set_tester states (length (config_rules cfg)) ip)).

(** A single address is checked on the caller's thread; an exception that leaves
    a worker ends the process, which no caller sees. *)
Definition check_all (check : cstring → exc PerIpRoutingResult) (ips : list cstring) : exc (list PerIpRoutingResult) :=
  match Nat.min kTestRoutingMaxConcurrentIps (length ips), mapM check ips with
  | S (S _), Throw _ => Undefined
  | _, r => r
  end.

Definition diagnose (cfg : Config) (lookups : gmap cstring ListLookupData) (ip : cstring) (domain_cands : list cstring) (idx : nat) (rule : RouteRule) :
    exc RuleDiagnostic :=
  m ← find_rule_match lookups ip domain_cands rule;
  mret (mk_RuleDiagnostic (Z.of_nat idx) rule (rule_outbound rule) (outbound_interface_name cfg (rule_outbound rule)) (has_value m) m []).
Fixpoint diagnose_rules (cfg : Config) (lookups : gmap cstring ListLookupData) (ip : cstring) (domain_cands : list cstring) (idx : nat) (rules : list RouteRule) :
    exc (list RuleDiagnostic) :=
  match rules with
  | [] => Ok []
  | rule :: rules =>
      d ← diagnose cfg lookups ip domain_cands idx rule;
      ds ← diagnose_rules cfg lookups ip domain_cands (S idx) rules;
      mret (d :: ds)
  end.
(** [ip_rows.push_back(per_ip.rule_ip_diagnostics[idx])] *)
Definition add_rows (diags : list RuleDiagnostic) (p : PerIpRoutingResult) : list RuleDiagnostic :=
  zip_with (λ d row, mk_RuleDiagnostic (rule_index d) (diag_rule d) (diag_outbound d) (interface_name d) (target_in_lists d) (target_match d)
                       (ip_rows d ++ [row])) diags (rule_ip_diagnostics p).

Definition compute_test_routing (cfg : Config) (tgt : cstring) : exc TestRoutingResult :=
  let domain := negb (is_ip_address tgt) in
  lookups ← build_all_lookups cfg cache;
  resolved ← (if domain then resolve_domain_with_system_resolver cfg tgt else Ok ([tgt], []));
  let '(ips, warnings) := resolved in
  let cands := if domain then domain_candidates (lowercase_copy tgt) else [] in
  let dns_error := if domain && bool_decide (ips = []) then head warnings else None in
  marks ← allocate_outbound_marks (value_or (fwmark cfg) default_FwmarkConfig) (value_or (outbounds cfg) []);
  let states := build_fw_rule_states cfg marks None in
  tester ← match resolve_firewall_backend with
           | Ok b => Ok (Some b, [])
           | Throw e => match what e with
                        | Some m => Ok (None, ["Cannot check actual outbound (firewall tool unavailable): " ++ m])
                        | None => Throw e
                        end
           | Undefined => Undefined
           end;
  let '(set_tester, more) := tester : option FirewallBackend.t * list cstring in
  no_ips ← (if domain && bool_decide (ips = []) then
              r ← find_expected_outbound lookups [] cands cfg;
              mret [mk_Entry "(no IPs resolved)" r.2 r.1 "(unknown)" false]
            else Ok []);
  diags ← diagnose_rules cfg lookups (if domain then [] else tgt) cands 0 (config_rules cfg);
  checked ← check_all (check_one set_tester cfg lookups states cands) ips;
  let entries := no_ips ++ (per_entry <$> checked) in
  mret (mk_TestResult tgt domain (if domain then ips else []) entries (foldl add_rows diags checked)
          (forallb (λ e, bool_decide (expected_outbound e = str "(default)")) entries) dns_error (warnings ++ more)).
End report.

(** ** The workers *)

(** A worker is before its [fetch_add], at [check_ip(ip_index)], or has returned. *)
Inductive worker := Fetching | Checking (ip_index : nat) | Returned.
#[global] Instance worker_eq_dec : EqDecision worker.
Proof. solve_decision. Defined.

Section workers.
Context {R : Type} (check : nat → R) (n : nat).

Record pool := mk_pool { next_ip : nat; threads : list worker; slots : list (option R) }.

(** The next atomic step of a worker; what it writes are its own slot and state. *)
Definition worker_step (k : nat) (p : pool) : option pool :=
  match threads p !! k with
  | Some Fetching =>
      let i := next_ip p in
      Some (mk_pool (S i) (<[k := if (n <=? i)%nat then Returned else Checking i]> (threads p)) (slots p))
  | Some (Checking i) => Some (mk_pool (next_ip p) (<[k := Fetching]> (threads p)) (<[i := Some (check i)]> (slots p)))
  | Some Returned | None => None
  end.
Definition start_pool (worker_count : nat) : pool := mk_pool 0 (replicate worker_count Fetching) (replicate n None).

(** A schedule picks the worker that runs next. *)
Fixpoint run_pool (schedule : list nat) (p : pool) : option pool :=
  match schedule with
  | [] => Some p
  | k :: schedule => worker_step k p ≫= run_pool schedule
  end.
Definition joined (p : pool) : Prop := Forall (eq Returned) (threads p).

Record pool_ok (p : pool) : Prop := {
  po_length : length (slots p) = n;
  po_checking : ∀ k i, threads p !! k = Some (Checking i) → (i < n)%nat;
  po_slot : ∀ i, (i < n)%nat → slots p !! i = Some (Some (check i)) ∨ (next_ip p ≤ i)%nat ∨ ∃ k, threads p !! k = Some (Checking i);
  po_returned : ∀ k, threads p !! k = Some Returned → (n ≤ next_ip p)%nat;
}.

Lemma start_ok worker_count : pool_ok (start_pool worker_count).
Proof.
  split; cbn.
  - by rewrite length_replicate.
  - by intros k i [? _]%lookup_replicate.
  - intros i _. right. left. lia.
  - by intros k [? _]%lookup_replicate.
Qed.

Lemma worker_step_ok k p p' : pool_ok p → worker_step k p = Some p' → pool_ok p'.
Proof.
  intros []. unfold worker_step. destruct (threads p !! k) as [[|i|]|] eqn:Hk; [| |done..]; intros [= <-]; split; cbn.
  - done.
  - intros k' i'. rewrite list_lookup_insert_Some. intros [(-> & He & _)|[_ ?]]; [|eauto]. destruct (n <=? _)%nat eqn:Hn; [done|].
    injection He as <-. apply Nat.leb_gt in Hn. done.
  - intros i Hi. destruct (po_slot0 i Hi) as [Hs|[Hs|(k' & Hk')]]; [by left| |].
    + right. destruct (decide (i = next_ip p)) as [->|]; [right|left; lia]. exists k. rewrite list_lookup_insert_eq by (by eapply lookup_lt_Some).
      by replace (n <=? next_ip p)%nat with false by (symmetry; apply Nat.leb_gt; lia).
    + right. right. exists k'. rewrite list_lookup_insert_ne; [done|]. intros ->. congruence.
  - intros k'. rewrite list_lookup_insert_Some. intros [(-> & He & _)|[_ Hr]]; [|specialize (po_returned0 k' Hr); lia].
    destruct (n <=? _)%nat eqn:Hn; [|done]. apply Nat.leb_le in Hn. lia.
  - by rewrite length_insert.
  - intros k' i'. rewrite list_lookup_insert_Some. intros [(_ & ? & _)|[_ ?]]; [done|eauto].
  - intros j Hj. destruct (decide (j = i)) as [->|Hne]; [left; apply list_lookup_insert_eq; by rewrite po_length0|]. rewrite list_lookup_insert_ne by done.
    destruct (po_slot0 j Hj) as [Hs|[Hs|(k' & Hk')]]; [by left|by right; left|]. right. right. exists k'. rewrite list_lookup_insert_ne; [done|]. intros ->. congruence.
  - intros k'. rewrite list_lookup_insert_Some. intros [(_ & ? & _)|[_ ?]]; [done|eauto].
Qed.
Lemma run_pool_ok schedule p p' : pool_ok p → run_pool schedule p = Some p' → pool_ok p'.
Proof.
  revert p. induction schedule as [|k schedule IH]; intros p Hok; cbn; [by intros [= <-]|].
  destruct (worker_step k p) as [p1|] eqn:Hs; [|done]. cbn. apply IH. by eapply worker_step_ok.
Qed.
Lemma run_pool_threads schedule p p' : run_pool schedule p = Some p' → length (threads p') = length (threads p).
Proof.
  revert p. induction schedule as [|k schedule IH]; intros p; cbn; [by intros [= <-]|].
  destruct (worker_step k p) as [p1|] eqn:Hs; [|done]. cbn. intros H. rewrite (IH _ H). unfold worker_step in Hs.
  destruct (threads p !! k) as [[|i|]|]; [| |done..]; injection Hs as <-; cbn; apply length_insert.
Qed.

(** What is left to do *)
Definition worker_left (w : worker) : nat := match w with Fetching => 1 | Checking _ => 2 | Returned => 0 end.
Definition pool_left (p : pool) : nat := 2 * (n - next_ip p) + sum_list_with worker_left (threads p).
Lemma sum_insert k (w w' : worker) l : l !! k = Some w →
  (sum_list_with worker_left (<[k := w']> l) + worker_left w = sum_list_with worker_left l + worker_left w')%nat.
Proof.
  revert k. induction l as [|x l IH]; intros [|k] Hk; try done.
  - injection Hk as ->. simpl. lia.
  - specialize (IH k Hk). simpl in *. lia.
Qed.
Lemma worker_step_left k p p' : worker_step k p = Some p' → (pool_left p' < pool_left p)%nat.
Proof.
  unfold worker_step, pool_left. destruct (threads p !! k) as [[|i|]|] eqn:Hk; [| |done..]; intros [= <-]; cbn [next_ip threads].
  - pose proof (sum_insert k Fetching (if (n <=? next_ip p)%nat then Returned else Checking (next_ip p)) _ Hk) as H.
    destruct (n <=? next_ip p)%nat eqn:Hn; cbn [worker_left] in H; [lia|]. apply Nat.leb_gt in Hn. lia.
  - pose proof (sum_insert k (Checking i) Fetching _ Hk) as H. cbn [worker_left] in H. lia.
Qed.
Lemma run_pool_left schedule p p' : run_pool schedule p = Some p' → (length schedule + pool_left p' ≤ pool_left p)%nat.
Proof.
  revert p. induction schedule as [|k schedule IH]; intros p; cbn [run_pool length]; [by intros [= <-]|].
  destruct (worker_step k p) as [p1|] eqn:Hs; [|done]. cbn [mbind option_bind]. intros H. apply IH in H. apply worker_step_left in Hs. lia.
Qed.
(** As long as a worker has not returned, some worker can go on. *)
Lemma not_joined_steps p : ¬ joined p → ∃ k, is_Some (worker_step k p).
Proof.
  unfold joined. rewrite Forall_lookup. intros Hn. destruct (decide (Exists (λ w, w ≠ Returned) (threads p))) as [He|He].
  - apply Exists_exists in He as (w & [k Hk]%list_elem_of_lookup & Hw). exists k. unfold worker_step. rewrite Hk. destruct w; [by eexists..|done].
  - exfalso. apply Hn. intros k w Hk. destruct (decide (w = Returned)) as [->|Hw]; [done|]. exfalso. apply He. apply Exists_exists. exists w.
    split; [by eapply list_elem_of_lookup_2|done].
Qed.
End workers.

(** ** The checks *)

Lemma mapM_exc_Ok {A B} (f : A → exc B) (P : A → B → Prop) l : (∀ x, x ∈ l → ∃ y, f x = Ok y ∧ P x y) →
  ∃ ys, mapM f l = Ok ys ∧ Forall2 P l ys.
Proof.
  induction l as [|x l IH]; intros H; [by exists []|]. destruct (H x ltac:(left)) as (y & Hy & HP). destruct IH as (ys & Hys & HF).
  { intros z Hz. apply H. by right. }
  exists (y :: ys). cbn. rewrite Hy. cbn. change (mapM f l) with (mapM f l) in *. rewrite Hys. split; [done|by constructor].
Qed.
Lemma mapM_exc_lookup {A B} (f : A → exc B) l ys : mapM f l = Ok ys → Forall2 (λ x y, f x = Ok y) l ys.
Proof.
  revert ys. induction l as [|x l IH]; intros ys; cbn; [intros [= <-]; constructor|]. destruct (f x) as [y|e|] eqn:Hf; [|done..]. cbn.
  destruct (mapM f l) as [ys'|e|] eqn:Hl; [|done..]. intros [= <-]. constructor; [done|by apply IH].
Qed.

Lemma results_in_order {A B} (f : A → exc B) l ys : Forall2 (λ x y, f x = Ok y) l ys → (λ x, Some (f x)) <$> l = (λ y, Some (Ok y)) <$> ys.
Proof. induction 1 as [|x y l l' Hx _ IH]; [done|]. rewrite !fmap_cons, Hx. by f_equal. Qed.

Lemma pool_joined {R} (check : nat → R) n p : pool_ok check n p → joined p → threads p ≠ [] → slots p = (λ i, Some (check i)) <$> seq 0 n.
Proof.
  intros [] Hj Hne. unfold joined in Hj. rewrite Forall_lookup in Hj. destruct (threads p !! 0%nat) as [w|] eqn:H0.
  2: { destruct (threads p); [done|]. by cbn in H0. }
  pose proof (Hj 0%nat w H0) as <-. pose proof (po_returned0 0%nat H0) as Hn. apply list_eq. intros i. rewrite list_lookup_fmap.
  destruct (decide (i < n)%nat) as [Hi|Hi].
  - rewrite lookup_seq_lt by done. cbn. destruct (po_slot0 i Hi) as [Hs|[?|(k & Hk)]]; [done|lia|]. by pose proof (Hj k _ Hk).
  - rewrite lookup_seq_ge by lia. apply lookup_ge_None. lia.
Qed.

Lemma seq_lookups {A B} (f : A → B) (d : A) (l : list A) : (λ i, f (default d (l !! i))) <$> seq 0 (length l) = f <$> l.
Proof.
  apply list_eq. intros i. rewrite !list_lookup_fmap. destruct (l !! i) as [x|] eqn:Hx.
  - rewrite lookup_seq_lt by (by eapply lookup_lt_Some). cbn. by rewrite Hx.
  - rewrite lookup_seq_ge by (by apply lookup_ge_None). done.
Qed.

(** C17. The threads check every address once.  Whatever the interleaving of up to
    eight workers that share the counter, they stop after a bounded number of
    steps, as long as one has not returned some worker can go on, and when all
    are joined the slots hold the results of a sequential loop, in the order of
    the addresses. *)
Theorem workers_match_sequential_loop check ips rs schedule p :
  check_all check ips = Ok rs → ips ≠ [] →
  let n := length ips in
  let step := worker_step (λ i, check (default [] (ips !! i))) n in
  run_pool (λ i, check (default [] (ips !! i))) n schedule (start_pool n (Nat.min kTestRoutingMaxConcurrentIps n)) = Some p →
  (length schedule ≤ 2 * n + kTestRoutingMaxConcurrentIps)%nat ∧
  (¬ joined p → ∃ k, is_Some (step k p)) ∧
  (joined p → slots p = (λ r, Some (Ok r)) <$> rs).
Proof.
  intros Hc Hne n step Hrun. assert (Hpos : (0 < n)%nat) by (unfold n; destruct ips; [done|cbn; lia]). split_and!.
  - apply run_pool_left in Hrun. unfold pool_left in Hrun. cbn [next_ip threads start_pool] in Hrun.
    assert (Hsum : ∀ m, sum_list_with worker_left (replicate m Fetching) = m) by (induction m; simpl; lia). rewrite Hsum in Hrun. lia.
  - apply not_joined_steps.
  - intros Hj. rewrite (pool_joined (λ i, check (default [] (ips !! i))) n p); [|by eapply run_pool_ok, Hrun; apply start_ok|done|].
    + rewrite (seq_lookups (λ ip, Some (check ip))). assert (Hm : mapM check ips = Ok rs).
      { unfold check_all in Hc. destruct (Nat.min _ _) as [|[|]]; destruct (mapM check ips); done. }
      by apply results_in_order, mapM_exc_lookup.
    + apply run_pool_threads in Hrun. cbn [start_pool threads] in Hrun. rewrite length_replicate in Hrun. intros Hnil. rewrite Hnil in Hrun. cbn [length] in Hrun.
      unfold kTestRoutingMaxConcurrentIps in Hrun. lia.
Qed.

(** ** The report *)

Section whole_report.
Context {SS : StdSort} {IP : InetPton} {NT : InetNtop} {DL : DnsLookups} {FS : Files}.
Context (cache : CacheManager) (safe_exec : list cstring → Z) (resolve_firewall_backend : exc FirewallBackend.t) (cfg : Config).
Context (lookups : gmap cstring ListLookupData) (Hlookups : build_all_lookups cfg cache = Ok lookups).
Context (Hsources : ∀ name config, config_lists cfg !! name = Some config → sources_ok cache name config).

(** The outbound of the first rule that the target hits *)
Definition first_hit (ip : cstring) (cands : list cstring) (outbound : cstring) : Prop :=
  (∃ l1 rule l2, config_rules cfg = l1 ++ rule :: l2 ∧ hits cfg cache ip cands rule ∧ Forall (λ x, ¬ hits cfg cache ip cands x) l1 ∧
     outbound = rule_outbound rule) ∨
  (Forall (λ x, ¬ hits cfg cache ip cands x) (config_rules cfg) ∧ outbound = str "(default)").

Lemma expected_first_hit ip cands : valid_target ip → ∃ r, find_expected_outbound lookups ip cands cfg = Ok r ∧ first_hit ip cands r.1.
Proof using Hlookups Hsources.
  intros Hip. destruct (find_expected_spec cfg cache ip cands lookups Hlookups Hsources Hip) as (r & Hr & [H|[H ->]]); exists r || eexists.
  - split; [done|]. by left.
  - split; [done|]. by right.
Qed.

Lemma lookups_hold name data : lookups !! name = Some data → on_entries (configured_entries cfg cache name) empty_lookup = Ok data.
Proof using Hlookups Hsources.
  intros Hd. unfold build_all_lookups in Hlookups. apply build_lookups_spec in Hlookups as [H1 _].
  destruct (H1 name data Hd) as [Hr|(_ & config & Hc & Hbl)]; [by rewrite lookup_empty in Hr|].
  unfold configured_entries. rewrite Hc. by eapply build_lookup_spec; [apply Hsources|].
Qed.

(** A rule's diagnostic tells whether the target is in its lists. *)
Definition diagnostic_right (ip : cstring) (cands : list cstring) (rule : RouteRule) (d : RuleDiagnostic) : Prop :=
  diag_rule d = rule ∧ diag_outbound d = rule_outbound rule ∧ (target_in_lists d = true ↔ hits cfg cache ip cands rule).

Lemma diagnose_right ip cands idx rule : valid_target ip → rule ∈ config_rules cfg →
  ∃ d, diagnose cfg lookups ip cands idx rule = Ok d ∧ diagnostic_right ip cands rule d ∧ ip_rows d = [].
Proof using Hlookups Hsources.
  intros Hip Hrule. unfold diagnose, find_rule_match. destruct (route_rule_enabled rule) eqn:En; cbn [negb].
  - destruct (lists_match_spec lookups (configured_entries cfg cache) ip cands Hip lookups_hold (route_rule_lists rule)) as (m & -> & Hm).
    eexists. split; [done|]. split; [|done]. split_and!; [done..|]. cbn. rewrite (hits_iff cfg cache ip cands lookups) by done.
    unfold rule_hit. rewrite <-Hm. destruct m; cbn; [split; [by split|done]|]. split; [done|]. by intros [_ []].
  - eexists. split; [done|]. split; [|done]. split_and!; [done..|]. cbn. split; [done|]. intros [? _]. congruence.
Qed.
Lemma diagnose_rules_right ip cands : valid_target ip → ∀ rules idx, (∀ rule, rule ∈ rules → rule ∈ config_rules cfg) →
  ∃ ds, diagnose_rules cfg lookups ip cands idx rules = Ok ds ∧ Forall2 (diagnostic_right ip cands) rules ds ∧ Forall (λ d, ip_rows d = []) ds.
Proof using Hlookups Hsources.
  intros Hip. induction rules as [|rule rules IH]; intros idx Hin; cbn [diagnose_rules].
  - exists []. split_and!; [done|constructor|constructor].
  - destruct (diagnose_right ip cands idx rule Hip (Hin rule ltac:(left))) as (d & -> & Hd & Hrow). cbn [mbind exc_bind].
    destruct (IH (S idx)) as (ds & -> & Hds & Hrows); [intros x Hx; apply Hin; by right|]. exists (d :: ds). by split_and!; [|constructor|constructor].
Qed.

Definition is_default (e : TestRoutingEntry) : bool := bool_decide (expected_outbound e = str "(default)").
Definition entry_right (tester : option FirewallBackend.t) (states : list RuleState) (cands : list cstring) (ip : cstring) (p : PerIpRoutingResult) : Prop :=
  entry_ip (per_entry p) = ip ∧ first_hit ip cands (expected_outbound (per_entry p)) ∧
  actual_outbound (per_entry p) = match tester with Some b => find_actual_outbound safe_exec b states ip (is_ipv4_address ip) | None => str "(unknown)" end ∧
  ok (per_entry p) = bool_decide (expected_outbound (per_entry p) = actual_outbound (per_entry p)) ∧
  length (rule_ip_diagnostics p) = length (config_rules cfg) ∧ Forall (λ row, row_ip row = ip) (rule_ip_diagnostics p).

Lemma check_one_right tester states cands ip : valid_target ip →
  ∃ p, check_one safe_exec tester cfg lookups states cands ip = Ok p ∧ entry_right tester states cands ip p.
Proof using Hlookups Hsources.
  intros Hip. unfold check_one, check_ip. destruct (expected_first_hit ip cands Hip) as (r & -> & Hf). cbn [mbind exc_bind mret exc_ret].
  eexists. split; [done|]. split_and!; try done.
  - cbn. unfold rule_ip_rows. by rewrite !length_fmap, length_seq.
  - cbn. rewrite Forall_fmap. by apply Forall_true.
Qed.

Lemma add_rows_right ip cands rules ps : ∀ ds, Forall2 (diagnostic_right ip cands) rules ds →
  Forall (λ p, length (rule_ip_diagnostics p) = length rules) ps → 
  Forall2 (diagnostic_right ip cands) rules (foldl add_rows ds ps) ∧
  ∀ i d d', ds !! i = Some d → foldl add_rows ds ps !! i = Some d' → length (ip_rows d') = (length (ip_rows d) + length ps)%nat.
Proof.
  induction ps as [|p ps IH]; intros ds Hds Hps; cbn [foldl].
  - split; [done|]. intros i d d' -> [= ->]. cbn. lia.
  - apply Forall_cons in Hps as [Hp Hps]. assert (Hlen : length ds = length rules) by (symmetry; by eapply Forall2_length).
    assert (Hadd : Forall2 (diagnostic_right ip cands) rules (add_rows ds p)).
    { apply Forall2_same_length_lookup. unfold add_rows. split; [rewrite length_zip_with; lia|]. intros i rule d Hr Hd.
      apply lookup_zip_with_Some in Hd as (d0 & row & -> & Hd0 & _). eapply Forall2_lookup_lr in Hds; [|done..]. exact Hds. }
    destruct (IH _ Hadd Hps) as [H1 H2]. split; [done|]. intros i d d' Hd Hd'.
    destruct (rule_ip_diagnostics p !! i) as [row|] eqn:Hrow.
    + assert (Hz : add_rows ds p !! i = Some (mk_RuleDiagnostic (rule_index d) (diag_rule d) (diag_outbound d) (interface_name d) (target_in_lists d)
        (target_match d) (ip_rows d ++ [row]))) by (apply lookup_zip_with_Some; eauto).
      rewrite (H2 i _ d' Hz Hd'). cbn. rewrite length_app. cbn. lia.
    + apply lookup_ge_None in Hrow. apply lookup_lt_Some in Hd. lia.
Qed.

Definition resolved_target (tgt : cstring) : exc (list cstring * list cstring) :=
  if is_ip_address tgt then Ok ([tgt], []) else resolve_domain_with_system_resolver cfg tgt.
Definition candidates_of (tgt : cstring) : list cstring := if is_ip_address tgt then [] else domain_candidates (lowercase_copy tgt).
Definition target_ip (tgt : cstring) : cstring := if is_ip_address tgt then tgt else [].

Lemma check_all_Ok check (P : cstring → PerIpRoutingResult → Prop) ips : (∀ ip, ip ∈ ips → ∃ p, check ip = Ok p ∧ P ip p) →
  ∃ ps, check_all check ips = Ok ps ∧ Forall2 P ips ps.
Proof.
  intros H. destruct (mapM_exc_Ok check P ips H) as (ps & Hm & HF). exists ps. split; [|done]. unfold check_all. rewrite Hm.
  by destruct (Nat.min _ _) as [|[|]].
Qed.

Lemma entries_right tester states cands ips ps : Forall2 (entry_right tester states cands) ips ps →
  Forall (λ p, first_hit (entry_ip (per_entry p)) cands (expected_outbound (per_entry p)) ∧
               (ok (per_entry p) = true ↔ expected_outbound (per_entry p) = actual_outbound (per_entry p))) ps.
Proof.
  induction 1 as [|ip p l l' (Hip & Hf & _ & Hok & _) _ IH]; constructor; [|done]. rewrite Hip. split; [done|]. by rewrite Hok, bool_decide_eq_true.
Qed.

Lemma target_valid tgt ips ws : resolved_target tgt = Ok (ips, ws) → Forall (λ ip, is_Some (address_of ip)) ips → valid_target (target_ip tgt).
Proof.
  unfold target_ip, valid_target, resolved_target. destruct (is_ip_address tgt); [|by left]. intros [= <- _] Hips. right.
  by apply Forall_cons in Hips as [? _].
Qed.
(** Only a domain can resolve to nothing. *)
Lemma unresolved_is_domain tgt ips ws : resolved_target tgt = Ok (ips, ws) →
  negb (is_ip_address tgt) && bool_decide (ips = []) = bool_decide (ips = []).
Proof. unfold resolved_target. destruct (is_ip_address tgt); [|done]. by intros [= <- _]. Qed.

Lemma check_all_right tester states cands ips : Forall (λ ip, is_Some (address_of ip)) ips →
  ∃ ps, check_all (check_one safe_exec tester cfg lookups states cands) ips = Ok ps ∧ Forall2 (entry_right tester states cands) ips ps.
Proof using Hlookups Hsources.
  intros Hips. apply check_all_Ok. intros ip Hip. apply check_one_right. right. rewrite Forall_forall in Hips. by apply Hips.
Qed.

Lemma entries_in_order tester states cands ips ps : Forall2 (entry_right tester states cands) ips ps → entry_ip <$> (per_entry <$> ps) = ips.
Proof. induction 1 as [|ip p l l' (<- & _) _ IH]; [done|]. cbn. by f_equal. Qed.

(** Every diagnostic gets one row of every address. *)
Lemma rows_right tester states cands ip ips ps ds :
  Forall2 (diagnostic_right ip cands) (config_rules cfg) ds → Forall (λ d, ip_rows d = []) ds → Forall2 (entry_right tester states cands) ips ps →
  Forall2 (diagnostic_right ip cands) (config_rules cfg) (foldl add_rows ds ps) ∧ Forall (λ d, length (ip_rows d) = length ips) (foldl add_rows ds ps).
Proof.
  intros Hd Hrows HF. destruct (add_rows_right ip cands (config_rules cfg) ps ds Hd) as [Hd' Hn].
  { clear -HF. induction HF as [|ip' p ips ps (_ & _ & _ & _ & ? & _) _ IH]; by constructor. }
  split; [done|]. apply Forall_lookup. intros i d' Hi. destruct (ds !! i) as [d|] eqn:Hdi.
  - rewrite (Hn i d d' Hdi Hi), (Forall2_length _ _ _ HF). rewrite Forall_lookup in Hrows. by rewrite (Hrows i d Hdi).
  - apply lookup_ge_None in Hdi. apply lookup_lt_Some in Hi. apply Forall2_length in Hd, Hd'. lia.
Qed.

Lemma all_default l : forallb (λ e, bool_decide (expected_outbound e = str "(default)")) l = true ↔ Forall (λ e, expected_outbound e = str "(default)") l.
Proof. rewrite forallb_forall, Forall_forall. setoid_rewrite list_elem_of_In. by setoid_rewrite bool_decide_eq_true. Qed.

(** C16. The report is complete and right.  When the lists can be read, the target
    resolves to addresses and the marks fit, a report is returned, also without a
    firewall tool.  It has one entry per address, in order, or one entry that tells
    that there is none; each names the outbound of the first rule whose lists hold the
    address or a parent domain of the target, and is marked as agreeing exactly when
    the kernel's outbound is the same; each rule of the configuration has one
    diagnostic, which tells whether its lists hold the target, with one row per
    address. *)
Theorem report_is_complete tgt ips ws marks :
  resolved_target tgt = Ok (ips, ws) → Forall (λ ip, is_Some (address_of ip)) ips →
  allocate_outbound_marks (value_or (fwmark cfg) default_FwmarkConfig) (value_or (outbounds cfg) []) = Ok marks →
  (∃ b, resolve_firewall_backend = Ok b) ∨ (∃ e, resolve_firewall_backend = Throw e ∧ is_Some (what e)) →
  ∃ r, compute_test_routing cache safe_exec resolve_firewall_backend cfg tgt = Ok r ∧
    (entry_ip <$> test_entries r = match ips with [] => [str "(no IPs resolved)"] | _ => ips end) ∧
    Forall (λ e, first_hit (if bool_decide (ips = []) then [] else entry_ip e) (candidates_of tgt) (expected_outbound e) ∧
                 (ok e = true ↔ ips ≠ [] ∧ expected_outbound e = actual_outbound e)) (test_entries r) ∧
    Forall2 (diagnostic_right (target_ip tgt) (candidates_of tgt)) (config_rules cfg) (rule_diagnostics r) ∧
    Forall (λ d, length (ip_rows d) = length ips) (rule_diagnostics r) ∧
    (no_matching_rule r = true ↔ Forall (λ e, expected_outbound e = str "(default)") (test_entries r)).
Proof using Hlookups Hsources.
  intros Hres Hips Hmarks Hback. unfold compute_test_routing. rewrite Hlookups. cbn [mbind exc_bind].
  assert (Hr : (if negb (is_ip_address tgt) then resolve_domain_with_system_resolver cfg tgt else Ok ([tgt], [])) = Ok (ips, ws))
    by (unfold resolved_target in Hres; by destruct (is_ip_address tgt)).
  assert (Hc : (if negb (is_ip_address tgt) then domain_candidates (lowercase_copy tgt) else []) = candidates_of tgt)
    by (unfold candidates_of; by destruct (is_ip_address tgt)).
  assert (Ht : (if negb (is_ip_address tgt) then [] else tgt) = target_ip tgt) by (unfold target_ip; by destruct (is_ip_address tgt)).
  rewrite Hr, Hc, Ht. cbn [mbind exc_bind]. rewrite Hmarks. cbn [mbind exc_bind]. rewrite (unresolved_is_domain _ _ _ Hres).
  lazymatch goal with |- context [match resolve_firewall_backend with Ok _ => _ | Throw _ => _ | Undefined => _ end] =>
    set (tried := match resolve_firewall_backend with Ok _ => _ | Throw _ => _ | Undefined => _ end) end.
  assert (Htester : ∃ tester more, tried = Ok (tester, more)) by (destruct Hback as [[b Hb]|(e & Hb & [m Hm])]; subst tried; rewrite Hb, ?Hm; by do 2 eexists).
  destruct Htester as (tester & more & ->). cbn [mbind exc_bind].
  destruct (diagnose_rules_right (target_ip tgt) (candidates_of tgt) (target_valid _ _ _ Hres Hips) (config_rules cfg) 0 ltac:(done)) as (ds & Hds & Hd & Hrows).
  destruct (check_all_right tester (build_fw_rule_states cfg marks None) (candidates_of tgt) ips Hips) as (ps & Hps & HF).
  destruct (rows_right _ _ _ _ _ _ _ Hd Hrows HF) as [Hd' Hrow]. rewrite Hds, Hps. clear Hres Hr Hips Hps.
  destruct ips as [|ip0 ips0].
  - rewrite bool_decide_eq_true_2 by done. destruct (expected_first_hit [] (candidates_of tgt)) as (r & -> & Hf); [by left|]. cbn [mbind exc_bind mret exc_ret].
    eexists. split; [done|]. apply Forall2_nil_inv_l in HF as ->.
    cbn [test_entries rule_diagnostics no_matching_rule fmap list_fmap app]. rewrite all_default. split_and!; try done.
    apply Forall_singleton. split; [done|]. split; [done|]. by intros [? _].
  - rewrite bool_decide_eq_false_2 by done. cbn [mbind exc_bind mret exc_ret].
    eexists. split; [done|]. cbn [test_entries rule_diagnostics no_matching_rule app]. rewrite all_default. split_and!; try done.
    + by eapply entries_in_order.
    + rewrite Forall_fmap. eapply Forall_impl; [exact (entries_right _ _ _ _ _ HF)|]. cbn. intros p [Hf Hok]. rewrite Hok. naive_solver.
Qed.
End whole_report.

(** ** A report *)

Module TestRoutingReportSample.
(** A resolver that answers a query for addresses of IPv4 with two records and one
    that cannot be parsed *)
Definition w_lookups_dns : DnsLookups := {|
  res_query _ t := Some [t];
  hstrerror _ _ := str "Unknown host";
  res_mkquery _ t := Some [t];
  udp_exchange _ _ _ _ := NotReceived "timed out";
  ns_answers a := if bool_decide (a = [ns_t_a])
                  then Some [Some (mk_rr 1 1 [10; 1; 2; 3]); None; Some (mk_rr 1 1 [192; 168; 1; 1]); Some (mk_rr 1 1 [10; 1; 2; 3])] else Some [];
|}.
Definition w_dotted : InetNtop := {| inet_ntop _ bytes :=
  match bytes with
  | [a; b; c; d] => Some (to_string a ++ "." ++ to_string b ++ "." ++ to_string c ++ "." ++ to_string d)
  | _ => None
  end |}.
Definition w_addresses : InetPton := {| inet_pton f s :=
  if (f =? AF_INET) && bool_decide (s = str "10.1.2.3") then Some [10; 1; 2; 3]
  else if (f =? AF_INET) && bool_decide (s = str "192.168.1.1") then Some [192; 168; 1; 1] else None |}.
#[local] Existing Instances insertion_StdSort w_addresses w_files w_lookups_dns w_dotted.

Definition w_report : exc TestRoutingResult := compute_test_routing w_cache w_exec (Ok FirewallBackend.nftables) w_test_config "router.lan".

Lemma w_report_entries : (λ e, (entry_ip e, expected_outbound e, actual_outbound e, ok e)) <$> test_entries (from_exc (mk_TestResult [] false [] [] [] false None []) w_report) =
  [(str "10.1.2.3", str "vpn", str "vpn", true); (str "192.168.1.1", str "(default)", str "(default)", true)].
Proof. vm_compute. reflexivity. Qed.

Lemma report_is_complete_witness : ∃ r, w_report = Ok r ∧ entry_ip <$> test_entries r = [str "10.1.2.3"; str "192.168.1.1"] ∧
  Forall (λ d, length (ip_rows d) = 2%nat) (rule_diagnostics r).
Proof.
  destruct (report_is_complete w_cache w_exec (Ok FirewallBackend.nftables) w_test_config w_lookups) with (tgt := str "router.lan")
    (ips := [str "10.1.2.3"; str "192.168.1.1"]) (ws := @nil cstring) (marks := from_exc ∅ (allocate_outbound_marks (value_or (fwmark w_test_config) default_FwmarkConfig) (value_or (outbounds w_test_config) [])))
    as (r & Hr & He & _ & _ & Hrows & _).
  - vm_compute. reflexivity.
  - intros name config. unfold config_lists. cbn [w_test_config lists value_or]. intros [<- <-]%lookup_singleton_Some. apply w_sources_ok.
  - vm_compute. reflexivity.
  - repeat constructor; vm_compute; by eexists.
  - apply from_exc_Ok. vm_compute. reflexivity.
  - left. by eexists.
  - exists r. split; [exact Hr|]. split; [exact He|exact Hrows].
Defined.

(** Three addresses and three workers *)
Definition w_check (ip : cstring) : exc PerIpRoutingResult := Ok (mk_PerIp (mk_Entry ip None "(default)" "(default)" true) []).
Definition w_ips : list cstring := [str "10.0.0.1"; str "10.0.0.2"; str "10.0.0.3"].
Definition w_schedule : list nat := [1; 0; 0; 1; 2; 2; 1; 0; 2]%nat.
Definition w_pool : pool := default (start_pool 0 0) (run_pool (λ i, w_check (default [] (w_ips !! i))) 3 w_schedule (start_pool 3 3)).
Lemma workers_match_sequential_loop_witness :
  run_pool (λ i, w_check (default [] (w_ips !! i))) 3 w_schedule (start_pool 3 3) = Some w_pool ∧
  joined w_pool ∧ slots w_pool = [Some (w_check "10.0.0.1"); Some (w_check "10.0.0.2"); Some (w_check "10.0.0.3")].
Proof.
  assert (Hrun : run_pool (λ i, w_check (default [] (w_ips !! i))) 3 w_schedule (start_pool 3 3) = Some w_pool) by (vm_compute; reflexivity).
  assert (Hj : joined w_pool) by (unfold joined; vm_compute; repeat constructor).
  assert (Hc : check_all w_check w_ips = Ok (from_exc [] (check_all w_check w_ips))) by (apply from_exc_Ok; vm_compute; reflexivity).
  split; [exact Hrun|]. split; [exact Hj|].
  destruct (workers_match_sequential_loop w_check w_ips _ w_schedule w_pool Hc ltac:(discriminate) Hrun) as (_ & _ & H).
  rewrite (H Hj). vm_compute. reflexivity.
Defined.
End TestRoutingReportSample.
