(* ===== verification/Cron.v ===== *)
(** * Cron expressions (src/src/util/cron.hpp)

    The parser of five-field expressions and the search for the next minute
    that matches.  A [std::set<int>] is its increasing list of elements; a
    point of the system clock is its count of nanoseconds since the epoch. *)

From S2P Require Import Prelude CppString.

Local Open Scope Z_scope.

(** ** Fields *)

Definition cron_parse_int (s ctx : cstring) : exc Z :=
  if bool_decide (s = []) then Throw (invalid_argument ("Empty number in cron field: " ++ ctx))
  else if negb (forallb isdigit s) then
    Throw (invalid_argument ("Non-numeric character in cron field: " ++ ctx))
  else match stoi s with
  | Ok v => Ok v
  | Throw _ => Throw (invalid_argument ("Number out of range in cron field: " ++ ctx))
  | Undefined => Undefined
  end.

Definition out_of_range_error (v lo hi : Z) (token : cstring) : exn :=
  invalid_argument ("Value " ++ to_string v ++ " out of range [" ++ to_string lo ++ "," ++
                    to_string hi ++ "] in cron field: " ++ token).

(** [for (int v = start; v <= end; v += step) result.insert(v)]: the step
    overflows above the range of [int]. *)
Fixpoint range_loop (fuel : nat) (v end_ step : Z) (result : list Z) : exc (list Z) :=
  match fuel with
  | O => Undefined
  | S fuel =>
      if v <=? end_ then
        let result := set_insert v result in
        if in_int (v + step) then range_loop fuel (v + step) end_ step result else Undefined
      else Ok result
  end.

(** The start, the end and the step of one part. *)
Definition part_range (part token : cstring) (lo hi : Z) : exc (Z * Z * Z) :=
  let slash := find_char "/" part in
  step ← match slash with
         | None => Ok 1
         | Some i =>
             step ← cron_parse_int (drop (i + 1) part) token;
             if step <? 1
             then Throw (invalid_argument ("Step must be >= 1 in cron field: " ++ token))
             else Ok step
         end;
  let range_part := match slash with None => part | Some i => take i part end in
  bounds ← (if bool_decide (range_part = str "*") then Ok (lo, hi)
            else match find_char "-" range_part with
            | Some dash =>
                start ← cron_parse_int (take dash range_part) token;
                end_ ← cron_parse_int (drop (dash + 1) range_part) token;
                mret (start, end_)
            | None =>
                start ← cron_parse_int range_part token;
                mret (start, match slash with Some _ => hi | None => start end)
            end);
  let '(start, end_) := bounds in
  if (start <? lo) || (hi <? start) then Throw (out_of_range_error start lo hi token)
  else if (end_ <? lo) || (hi <? end_) then Throw (out_of_range_error end_ lo hi token)
  else if end_ <? start then
    Throw (invalid_argument ("Range start > end in cron field: " ++ token))
  else Ok (start, end_, step).

Fixpoint expand_parts (parts : list cstring) (token : cstring) (lo hi : Z) (result : list Z) :
    exc (list Z) :=
  match parts with
  | [] => Ok result
  | part :: parts =>
      r ← part_range part token lo hi;
      let '(start, end_, step) := r in
      result ← range_loop (S (S (Z.to_nat (end_ - start)))) start end_ step result;
      expand_parts parts token lo hi result
  end.

Definition expand_cron_field (token : cstring) (lo hi : Z) : exc (list Z) :=
  result ← expand_parts (split_on "," token) token lo hi [];
  if bool_decide (result = [])
  then Throw (invalid_argument ("Empty expansion for cron field: " ++ token))
  else mret result.

Record CronFields := mk_CronFields {
  minute : list Z; hour : list Z; mday : list Z; month : list Z; wday : list Z;
}.

(** The loop that splits on blanks. *)
Fixpoint tokenize (cur s : cstring) : list cstring :=
  match s with
  | [] => if bool_decide (cur = []) then [] else [cur]
  | c :: s =>
      if (ord c =? 32) || (ord c =? 9)
      then if bool_decide (cur = []) then tokenize [] s else cur :: tokenize [] s
      else tokenize (cur ++ [c]) s
  end.

Definition parse_cron_fields (expr : cstring) : exc CronFields :=
  match tokenize [] expr with
  | [t0; t1; t2; t3; t4] =>
      minute ← expand_cron_field t0 0 59;
      hour ← expand_cron_field t1 0 23;
      mday ← expand_cron_field t2 1 31;
      month ← expand_cron_field t3 1 12;
      wday ← expand_cron_field t4 0 6;
      mret (mk_CronFields minute hour mday month wday)
  | tokens =>
      Throw (invalid_argument ("Cron expression must have exactly 5 fields, got " ++
                               to_string (Z.of_nat (length tokens)) ++ ": '" ++ expr ++ "'"))
  end.

Definition cron_validate (expr : cstring) : exc unit := parse_cron_fields expr ≫= λ _, mret tt.

(** ** The next time *)

(** The broken-down local time of a [time_t]. *)
Record tm := { tm_min : Z; tm_hour : Z; tm_mday : Z; tm_mon : Z; tm_wday : Z }.
Class LocalTime := { localtime : Z → tm }.

Definition count (x : Z) (s : list Z) : bool := existsb (Z.eqb x) s.

Definition matches `{!LocalTime} (fields : CronFields) (t : Z) : bool :=
  let tm := localtime t in
  count (tm_mon tm + 1) (month fields) && count (tm_mday tm) (mday fields) &&
  count (tm_wday tm) (wday fields) && count (tm_hour tm) (hour fields) &&
  count (tm_min tm) (minute fields).

Definition MAX_MINUTES : Z := 366 * 2 * 24 * 60.

(** One turn of the loop from ([i], [t]). *)
Definition cron_step `{!LocalTime} (fields : CronFields) (s : Z * Z) : (Z * Z) + option Z :=
  let '(i, t) := s in
  if i <? MAX_MINUTES then
    if matches fields t then inr (Some t) else inl (i + 1, t + 60)
  else inr None.

Definition first_minute (from : Z) : Z :=
  let t := Z.quot (from + 1000000000) 1000000000 in
  Z.quot (t + 59) 60 * 60.

(** The range of [system_clock]'s 64-bit count of nanoseconds *)
Definition INT64_MAX : Z := 9223372036854775807.
Definition in_int64 (x : Z) : bool := (- INT64_MAX - 1 <=? x) && (x <=? INT64_MAX).

(** [2^21] turns exceed [MAX_MINUTES]. *)
Definition cron_next `{!LocalTime} (expr : cstring) (from : Z) : exc Z :=
  fields ← parse_cron_fields expr;
  if negb (in_int64 (from + 1000000000)) then Undefined
  else match run_pow 21 (cron_step fields) (0, first_minute from) with
  | inr (Some t) => if in_int64 (t * 1000000000) then Ok (t * 1000000000) else Undefined
  | inr None =>
      Throw (invalid_argument ("cron_next: no matching time found within 2 years for: '" ++
                               expr ++ "'"))
  | inl _ => Undefined
  end.

(** ** Standard cron expressions

    The five fields of a crontab entry, as POSIX and crontab(5) describe them:
    a field is a list of items, each a star, a value or a range, with an optional
    step; an entry fires when minute, hour and month are in their fields and the
    day is, where a day has to match both day fields when one of them is a star
    and either of them when both are restricted. *)

Inductive item := Every (step : option Z) | Single (n : Z) | Between (first last : Z) (step : option Z).
Abbreviation cron_field := (list item).
Record schedule := mk_schedule {
  at_minute : cron_field; at_hour : cron_field; at_mday : cron_field; at_month : cron_field; at_wday : cron_field;
}.

Definition step_text (step : option Z) : cstring := match step with Some k => "/"%char :: to_string k | None => [] end.
Definition item_text (i : item) : cstring :=
  match i with
  | Every k => "*" ++ step_text k
  | Single n => to_string n
  | Between x y k => to_string x ++ "-"%char :: to_string y ++ step_text k
  end.
Definition field_text (f : cron_field) : cstring := join "," (item_text <$> f).
Definition schedule_text (s : schedule) : cstring :=
  join " " (field_text <$> [at_minute s; at_hour s; at_mday s; at_month s; at_wday s]).

Definition has_item (lo hi : Z) (i : item) (v : Z) : Prop :=
  match i with
  | Every k => lo ≤ v ≤ hi ∧ (default 1 k | v - lo)
  | Single n => v = n
  | Between x y k => x ≤ v ≤ y ∧ (default 1 k | v - x)
  end.
Definition has (lo hi : Z) (f : cron_field) (v : Z) : Prop := ∃ i, i ∈ f ∧ has_item lo hi i v.

Definition unrestricted (f : cron_field) : bool := match f with [Every None] => true | _ => false end.
Definition fires (s : schedule) (t : tm) : Prop :=
  has 0 59 (at_minute s) (tm_min t) ∧ has 0 23 (at_hour s) (tm_hour t) ∧ has 1 12 (at_month s) (tm_mon t + 1) ∧
  let day_of_month := has 1 31 (at_mday s) (tm_mday t) in
  let day_of_week := has 0 6 (at_wday s) (tm_wday t) in
  if unrestricted (at_mday s) || unrestricted (at_wday s) then day_of_month ∧ day_of_week else day_of_month ∨ day_of_week.

(** Values in the range of the field, and steps that are positive and not near the
    top of [int] *)
Definition step_ok (step : option Z) : Prop := 1 ≤ default 1 step ≤ INT_MAX - 60.
Definition item_ok (lo hi : Z) (i : item) : Prop :=
  match i with
  | Every k => step_ok k
  | Single n => lo ≤ n ≤ hi
  | Between x y k => lo ≤ x ∧ x ≤ y ∧ y ≤ hi ∧ step_ok k
  end.
Definition field_ok (lo hi : Z) (f : cron_field) : Prop := f ≠ [] ∧ Forall (item_ok lo hi) f.
Definition schedule_ok (s : schedule) : Prop :=
  field_ok 0 59 (at_minute s) ∧ field_ok 0 23 (at_hour s) ∧ field_ok 1 31 (at_mday s) ∧
  field_ok 1 12 (at_month s) ∧ field_ok 0 6 (at_wday s).

(** ** Ranges *)

Lemma range_loop_spec fuel v end_ step acc r :
  1 ≤ step → range_loop fuel v end_ step acc = Ok r →
  ∀ x, x ∈ r ↔ x ∈ acc ∨ (v ≤ x ≤ end_ ∧ (step | x - v)).
Proof.
  intros Hs. revert v acc. induction fuel as [|fuel IH]; intros v acc; cbn [range_loop]; [done|].
  destruct (v <=? end_) eqn:E; breflect.
  - destruct (in_int (v + step)); [|done]. intros H x. rewrite (IH _ _ H x), elem_of_set_insert. split.
    + intros [[->|?]|[Hx [q Hq]]]; [right|by left|right].
      * split; [lia|]. exists 0. lia.
      * split; [lia|]. exists (q + 1). lia.
    + intros [?|[Hx [q Hq]]]; [by auto|]. destruct (decide (x = v)) as [->|Hne]; [by auto|].
      right. assert (0 < q) by nia. split; [nia|]. exists (q - 1). lia.
  - intros [= <-] x. split; [by left|]. intros [?|[? _]]; [done|lia].
Qed.

Lemma range_loop_total fuel v end_ step acc :
  1 ≤ step → INT_MIN ≤ v → end_ + step ≤ INT_MAX → (Z.to_nat (end_ - v) + 1 < fuel)%nat →
  ∃ r, range_loop fuel v end_ step acc = Ok r.
Proof.
  intros Hs. revert v acc. induction fuel as [|fuel IH]; intros v acc Hv He Hf; [lia|]. cbn [range_loop].
  destruct (v <=? end_) eqn:E; breflect; [|by eexists].
  assert (in_int (v + step) = true) as ->.
  { unfold in_int, INT_MIN, INT_MAX in *. breflect. lia. }
  destruct fuel as [|fuel']; [lia|].
  destruct (decide (v + step ≤ end_)) as [Hle|Hgt].
  - apply IH; [lia|done|lia].
  - cbn [range_loop]. rewrite (proj2 (Z.leb_gt _ _)) by lia. by eexists.
Qed.

(** What the parser of a part promises. *)
Lemma part_range_bounds part token lo hi s e k :
  part_range part token lo hi = Ok (s, e, k) → 1 ≤ k ∧ lo ≤ s ∧ s ≤ e ∧ e ≤ hi.
Proof.
  unfold part_range. intros (step & Hstep & H)%exc_bind_Ok.
  apply exc_bind_Ok in H as ([start end_] & _ & H).
  destruct (_ || _) eqn:E1; [done|]. destruct ((end_ <? lo) || _) eqn:E2; [done|].
  destruct (end_ <? start) eqn:E3; [done|]. injection H as <- <- <-. breflect.
  assert (1 ≤ step); [|lia].
  destruct (find_char "/" part); [|injection Hstep; lia].
  apply exc_bind_Ok in Hstep as (st & _ & Hst). destruct (st <? 1) eqn:E; [done|].
  injection Hst as <-. breflect. lia.
Qed.

Definition denotes (token : cstring) (lo hi : Z) (part : cstring) (v : Z) : Prop :=
  ∃ s e k, part_range part token lo hi = Ok (s, e, k) ∧ s ≤ v ≤ e ∧ (k | v - s).

Lemma expand_parts_spec parts token lo hi acc r :
  expand_parts parts token lo hi acc = Ok r →
  ∀ v, v ∈ r ↔ v ∈ acc ∨ ∃ part, part ∈ parts ∧ denotes token lo hi part v.
Proof.
  revert acc. induction parts as [|part parts IH]; intros acc; cbn [expand_parts].
  { intros [= <-] v. split; [by left|]. intros [?|(? & ?%elem_of_nil & _)]; done. }
  intros ([[s e] k] & Hp & H)%exc_bind_Ok v. apply exc_bind_Ok in H as (acc1 & Hl & H).
  destruct (part_range_bounds _ _ _ _ _ _ _ Hp) as (Hk & _).
  rewrite (IH _ H v), (range_loop_spec _ _ _ _ _ _ Hk Hl v). setoid_rewrite elem_of_cons. split.
  - intros [[?|?]|(x & Hx & Hd)]; [by left|right; exists part|right; exists x; by auto].
    split; [by left|]. by exists s, e, k.
  - intros [?|(x & [->|Hx] & Hd)]; [by auto| |by eauto]. left. right.
    destruct Hd as (s' & e' & k' & Hp' & Hd). rewrite Hp in Hp'. by injection Hp' as <- <- <-.
Qed.

(** No step large enough to overflow. *)
Definition small_steps (token : cstring) (lo hi : Z) : Prop :=
  ∀ part s e k, part ∈ split_on "," token → part_range part token lo hi = Ok (s, e, k) →
    k ≤ INT_MAX - hi.

(** The call returns or throws [invalid_argument]. *)
Definition invalid_only {A} (m : exc A) : Prop :=
  match m with Ok _ => True | Throw e => ∃ msg, e = invalid_argument msg | Undefined => False end.

Lemma invalid_only_bind {A B} (m : exc A) (f : A → exc B) :
  invalid_only m → (∀ a, m = Ok a → invalid_only (f a)) → invalid_only (m ≫= f).
Proof. destruct m; cbn; auto. Qed.

Lemma invalid_only_throw {A} msg : invalid_only (A:=A) (Throw (invalid_argument msg)).
Proof. by eexists. Qed.
#[local] Hint Resolve invalid_only_bind invalid_only_throw : core.

Lemma cron_parse_int_total s ctx : invalid_only (cron_parse_int s ctx).
Proof.
  unfold cron_parse_int. case_bool_decide; [done|]. destruct (negb _); [done|].
  destruct (stoi s) eqn:E; [done|done|]. exfalso. revert E. unfold stoi. by repeat case_match.
Qed.
#[local] Hint Resolve cron_parse_int_total : core.

Lemma part_range_total part token lo hi : invalid_only (part_range part token lo hi).
Proof.
  unfold part_range. apply invalid_only_bind.
  - destruct (find_char "/" part); [|done]. apply invalid_only_bind; [done|].
    intros z _. by destruct (z <? 1).
  - intros step _. apply invalid_only_bind.
    + case_bool_decide; [done|]. destruct (find_char "-" _).
      * apply invalid_only_bind; [done|]. intros z _. by apply invalid_only_bind.
      * by apply invalid_only_bind.
    + intros [start end_] _. unfold out_of_range_error. by repeat case_match.
Qed.

Lemma expand_parts_total parts token lo hi acc :
  INT_MIN ≤ lo →
  (∀ part s e k, part ∈ parts → part_range part token lo hi = Ok (s, e, k) → k ≤ INT_MAX - hi) →
  invalid_only (expand_parts parts token lo hi acc).
Proof.
  intros Hlo. revert acc. induction parts as [|part parts IH]; intros acc Hk; cbn [expand_parts]; [done|].
  apply invalid_only_bind; [apply part_range_total|]. intros [[s e] k] Hp.
  destruct (part_range_bounds _ _ _ _ _ _ _ Hp) as (? & ? & ? & ?).
  pose proof (Hk part s e k ltac:(left) Hp).
  destruct (range_loop_total (S (S (Z.to_nat (e - s)))) s e k acc) as [r ->]; [lia..|].
  apply IH. intros x s' e' k' Hx. apply Hk. by right.
Qed.

(** ** The search *)

Section search.
Context {LT : LocalTime} (fields : CronFields) (first : Z).

Definition searched (s : Z * Z) : Prop :=
  0 ≤ s.1 ≤ MAX_MINUTES ∧ s.2 = first + 60 * s.1 ∧
  ∀ j, 0 ≤ j < s.1 → matches fields (first + 60 * j) = false.

Definition found (r : option Z) : Prop :=
  match r with
  | Some t => ∃ i, 0 ≤ i < MAX_MINUTES ∧ t = first + 60 * i ∧ matches fields t = true ∧
                ∀ j, 0 ≤ j < i → matches fields (first + 60 * j) = false
  | None => ∀ j, 0 ≤ j < MAX_MINUTES → matches fields (first + 60 * j) = false
  end.

Lemma search_step s : searched s →
  match cron_step fields s with
  | inl s' => searched s' ∧ 0 ≤ MAX_MINUTES - s'.1 < MAX_MINUTES - s.1
  | inr r => found r
  end.
Proof.
  destruct s as [i t]. intros (Hi & Ht & Hno). cbn [fst snd] in *. unfold cron_step.
  destruct (i <? MAX_MINUTES) eqn:E; breflect; cycle 1.
  { intros j Hj. apply Hno. lia. }
  destruct (matches fields t) eqn:Em.
  - exists i. repeat split; auto; lia.
  - cbn [fst snd]. split; [|lia]. split; [cbn; lia|]. split; [cbn; lia|]. cbn [fst].
    intros j Hj. destruct (decide (j = i)) as [->|]; [by rewrite <- Ht|apply Hno; lia].
Qed.

Lemma search_spec : ∃ r, run_pow 21 (cron_step fields) (0, first) = inr r ∧ found r.
Proof.
  assert (H0 : searched (0, first)).
  { split; [done|]. split; [cbn; lia|]. cbn. intros j Hj. lia. }
  destruct (run_pow_terminates (cron_step fields) searched (λ s, MAX_MINUTES - s.1) 21 (0, first))
    as [r Hr]; [|done|done|].
  { intros s s' Hs Hstep. pose proof (search_step s Hs) as H. by rewrite Hstep in H. }
  exists r. split; [done|].
  pose proof (run_pow_invariant (cron_step fields) searched found 21 (0, first)) as H.
  rewrite Hr in H. apply H; [| |done].
  - intros s s' Hs Hstep. pose proof (search_step s Hs) as H1. rewrite Hstep in H1. tauto.
  - intros s r' Hs Hstep. pose proof (search_step s Hs) as H1. by rewrite Hstep in H1.
Qed.
End search.

(** The whole minutes after [from] are those from [first_minute from] on. *)
Lemma first_minute_spec from t :
  0 ≤ from → (t mod 60 = 0 ∧ from < t * 1000000000 ↔ ∃ j, 0 ≤ j ∧ t = first_minute from + 60 * j).
Proof.
  intros Hf. unfold first_minute.
  pose proof (Z.div_mod from 1000000000 ltac:(lia)). pose proof (Z.mod_pos_bound from 1000000000 ltac:(lia)).
  assert (0 ≤ from / 1000000000) by (apply Z.div_pos; lia).
  rewrite (Z.quot_div_nonneg (from + _)) by lia.
  replace ((from + 1000000000) / 1000000000) with (from / 1000000000 + 1)
    by (rewrite <- (Z.div_add from 1) by lia; f_equal; lia).
  rewrite Z.quot_div_nonneg by lia. set (q := from / 1000000000 + 1).
  assert (Hq : ∀ u, from < u * 1000000000 ↔ q ≤ u) by (intros u; subst q; lia).
  rewrite Hq. split.
  - intros [Hm Hle]. exists ((t - (q + 59) / 60 * 60) / 60). zlia.
  - intros (j & Hj & ->). zlia.
Qed.

(** The last instant from which every turn of the search can be represented: in
    the year 2260 *)
Definition latest : Z := INT64_MAX - 60 * (MAX_MINUTES + 2) * 1000000000.

(** The result of [cron_next] on a valid expression. *)
Lemma cron_next_spec {LT : LocalTime} expr from fields :
  parse_cron_fields expr = Ok fields → 0 ≤ from ≤ latest →
  match cron_next expr from with
  | Ok r => ∃ t, r = t * 1000000000 ∧ found fields (first_minute from) (Some t)
  | Throw e => (∃ msg, e = invalid_argument msg) ∧ found fields (first_minute from) None
  | Undefined => False
  end.
Proof.
  intros Hp Hf. unfold cron_next. rewrite Hp. cbn [mbind exc_bind]. unfold latest, MAX_MINUTES in Hf.
  assert (in_int64 (from + 1000000000) = true) as -> by (unfold in_int64, INT64_MAX in *; breflect; lia). cbn [negb].
  destruct (search_spec fields (first_minute from)) as ([t|] & -> & Hr); [|eauto].
  assert (in_int64 (t * 1000000000) = true) as ->; [|eauto].
  destruct Hr as (i & Hi & -> & _). unfold MAX_MINUTES in Hi.
  assert (0 ≤ first_minute from ∧ first_minute from * 1000000000 ≤ from + 61 * 1000000000).
  { unfold first_minute. rewrite (Z.quot_div_nonneg (from + _)) by lia.
    rewrite Z.quot_div_nonneg by (try apply Z.add_nonneg_nonneg; try apply Z.div_pos; lia). zlia. }
  unfold in_int64, INT64_MAX in *. breflect. lia.
Qed.

(** ** The text of an entry *)

Lemma stoi_digits s : s ≠ [] → forallb isdigit s = true → dec_value 0 s ≤ INT_MAX → stoi s = Ok (dec_value 0 s).
Proof.
  intros Hne Hd Hv. destruct s as [|c s]; [done|]. assert (Hc : isdigit c = true) by (by apply andb_true_iff in Hd as [? _]).
  pose proof (dec_value_mono 0 (c :: s) Hd ltac:(lia)). unfold stoi.
  assert (Hs : isspace c = false) by (unfold isspace, isdigit, in_range in *; breflect; lia).
  cbn [drop_while]. rewrite Hs. assert (Hm : ∀ x, isdigit x = false → ascii_eqb c x = false).
  { intros x Hx. apply ascii_eqb_neq. intros ->. congruence. }
  rewrite !Hm, take_while_all by done. cbn [bool_decide]. rewrite bool_decide_eq_false_2 by done.
  rewrite Z.mul_1_l. assert (in_int (dec_value 0 (c :: s)) = true) as -> by (unfold in_int, INT_MIN in *; breflect; lia). done.
Qed.

Lemma cron_number n ctx : 0 ≤ n ≤ INT_MAX → cron_parse_int (to_string n) ctx = Ok n.
Proof.
  intros Hn. destruct (to_string_spec n ltac:(lia)) as (Hne & Hd & Hv). unfold cron_parse_int.
  rewrite bool_decide_eq_false_2, Hd by done. cbn [negb]. rewrite stoi_digits by (rewrite ?Hv; try done; lia). by rewrite Hv.
Qed.

Lemma step_range k token rest : step_ok k → "/"%char ∉ rest →
  match find_char "/" (rest ++ step_text k) with
  | None => k = None ∧ rest ++ step_text k = rest
  | Some i => ∃ n, k = Some n ∧ take i (rest ++ step_text k) = rest ∧ cron_parse_int (drop (i + 1) (rest ++ step_text k)) token = Ok n
  end.
Proof.
  intros Hk Hr. unfold step_ok in Hk. destruct k as [n|]; cbn in Hk.
  - change (step_text (Some n)) with ("/"%char :: to_string n). rewrite find_char_app by done.
    exists n. split_and!; [done|by rewrite take_app_length|]. rewrite drop_app_add. cbn [drop]. rewrite drop_0.
    apply cron_number. unfold INT_MAX in *. lia.
  - cbn [step_text]. rewrite app_nil_r. by rewrite (proj2 (find_char_None _ _)).
Qed.

(** The start, the end and the step of an item *)
Definition item_range (lo hi : Z) (i : item) : Z * Z * Z :=
  match i with
  | Every k => (lo, hi, default 1 k)
  | Single n => (n, n, 1)
  | Between x y k => (x, y, default 1 k)
  end.

(** What is left of [part_range] after the step has been split off. *)
Definition bounded (lo hi : Z) (token : cstring) (b : Z * Z) (step : Z) : exc (Z * Z * Z) :=
  let '(start, end_) := b in
  if (start <? lo) || (hi <? start) then Throw (out_of_range_error start lo hi token)
  else if (end_ <? lo) || (hi <? end_) then Throw (out_of_range_error end_ lo hi token)
  else if end_ <? start then Throw (invalid_argument ("Range start > end in cron field: " ++ token))
  else Ok (start, end_, step).

Lemma bounded_Ok lo hi token s e k : lo ≤ s → s ≤ e → e ≤ hi → bounded lo hi token (s, e) k = Ok (s, e, k).
Proof.
  intros. unfold bounded. assert ((s <? lo) || (hi <? s) = false) as -> by (breflect; lia).
  assert ((e <? lo) || (hi <? e) = false) as -> by (breflect; lia). by rewrite (proj2 (Z.ltb_ge _ _)) by lia.
Qed.

Lemma part_range_step k rest token lo hi : step_ok k → "/"%char ∉ rest →
  part_range (rest ++ step_text k) token lo hi =
    (b ← (if bool_decide (rest = str "*") then Ok (lo, hi)
          else match find_char "-" rest with
               | Some dash =>
                   start ← cron_parse_int (take dash rest) token;
                   end_ ← cron_parse_int (drop (dash + 1) rest) token;
                   mret (start, end_)
               | None => start ← cron_parse_int rest token; mret (start, match k with Some _ => hi | None => start end)
               end);
     bounded lo hi token b (default 1 k)).
Proof.
  intros Hk Hr. pose proof (step_range k token rest Hk Hr) as H. unfold part_range. destruct (find_char "/" _) as [j|].
  - destruct H as (n & -> & -> & ->). unfold step_ok in Hk. cbn [mbind exc_bind]. cbn in Hk. by rewrite (proj2 (Z.ltb_ge _ _)) by lia.
  - by destruct H as [-> ->].
Qed.

Lemma item_parses lo hi i token : 0 ≤ lo → lo ≤ hi ≤ 59 → item_ok lo hi i → part_range (item_text i) token lo hi = Ok (item_range lo hi i).
Proof.
  intros Hlo Hhi Hi. assert (Hnum : ∀ n, lo ≤ n ≤ hi → cron_parse_int (to_string n) token = Ok n) by (intros n Hn; apply cron_number; unfold INT_MAX; lia).
  assert (Hno : ∀ c n, lo ≤ n ≤ hi → isdigit c = false → c ∉ to_string n) by (intros c n Hn; apply to_string_no_char; lia).
  assert (Hstar : ∀ n rest, lo ≤ n ≤ hi → to_string n ++ rest ≠ str "*").
  { intros n rest Hn He. destruct (to_string_spec n ltac:(lia)) as (Hne & _). destruct (to_string n) as [|c s] eqn:E; [done|].
    injection He as -> _. apply (Hno "*"%char n Hn eq_refl). rewrite E. by left. }
  destruct i as [k|n|x y k]; cbn [item_ok item_range item_text] in *.
  - rewrite part_range_step by (done || by apply find_char_None). rewrite bool_decide_eq_true_2 by done. apply bounded_Ok; lia.
  - rewrite <-(app_nil_r (to_string n)). change [] with (step_text None). rewrite part_range_step by ((unfold step_ok, INT_MAX; cbn; lia) || by apply Hno).
    rewrite bool_decide_eq_false_2 by (rewrite <-(app_nil_r (to_string n)); by apply Hstar).
    rewrite (proj2 (find_char_None _ _)), Hnum by (done || by apply Hno). apply bounded_Ok; lia.
  - destruct Hi as (? & ? & ? & Hk). change ("-"%char :: to_string y ++ step_text k) with (("-"%char :: to_string y) ++ step_text k).
    rewrite app_assoc, part_range_step; [|done|].
    + rewrite bool_decide_eq_false_2 by (apply Hstar; lia). rewrite find_char_app by (apply Hno; [lia|done]).
      rewrite take_app_length, Hnum by lia. cbn [mbind exc_bind].
      rewrite drop_app_add. cbn [drop]. rewrite drop_0, Hnum by lia. apply bounded_Ok; lia.
    + rewrite not_elem_of_app, not_elem_of_cons. split_and!; [apply Hno; [lia|done]|done|apply Hno; [lia|done]].
Qed.

Lemma items_expand lo hi token items : 0 ≤ lo → lo ≤ hi ≤ 59 → Forall (item_ok lo hi) items → ∀ acc,
  ∃ r, expand_parts (item_text <$> items) token lo hi acc = Ok r ∧ ∀ v, v ∈ r ↔ v ∈ acc ∨ has lo hi items v.
Proof.
  intros Hlo Hhi. induction 1 as [|i items Hi Hitems IH]; intros acc; cbn [fmap list_fmap expand_parts].
  { exists acc. split; [done|]. intros v. split; [by left|]. intros [?|(i & ?%elem_of_nil & _)]; done. }
  rewrite item_parses by done. cbn [mbind exc_bind]. destruct (item_range lo hi i) as [[s e] k] eqn:E.
  assert (Hr : (lo ≤ s ∧ s ≤ e ∧ e ≤ hi ∧ 1 ≤ k ≤ INT_MAX - 60) ∧ ∀ v, has_item lo hi i v ↔ s ≤ v ≤ e ∧ (k | v - s)).
  { destruct i as [st|n|x y st]; cbn [item_range item_ok has_item] in *; injection E as <- <- <-; unfold step_ok in *; (split; [unfold INT_MAX in *; lia|]);
      [done| |done]. intros v. split; [intros ->|intros [? _]; lia]. split; [lia|apply Z.divide_1_l]. }
  destruct Hr as [Hr Hv]. destruct (range_loop_total (S (S (Z.to_nat (e - s)))) s e k acc) as [acc' Ha];
    [lia|unfold INT_MIN; lia|unfold INT_MAX in *; lia|lia|].
  assert (Hk : 1 ≤ k) by lia. rewrite Ha. cbn [mbind exc_bind]. destruct (IH acc') as (r & Hres & Hin). exists r. split; [done|]. intros v.
  rewrite Hin, (range_loop_spec _ _ _ _ _ _ Hk Ha v), <-Hv. unfold has. setoid_rewrite elem_of_cons. split.
  - intros [[?|?]|(x & Hx & Hd)]; [by left|right; exists i; by auto|right; exists x; by auto].
  - intros [?|(x & [->|Hx] & Hd)]; [by auto|by auto|by eauto].
Qed.

(** The characters of an item *)
Definition item_char (c : ascii) : bool := isdigit c || ascii_eqb c "*" || ascii_eqb c "/" || ascii_eqb c "-".

Lemma item_chars lo hi i : 0 ≤ lo → item_ok lo hi i → item_text i ≠ [] ∧ forallb item_char (item_text i) = true.
Proof.
  intros Hlo Hi. assert (Hn : ∀ n, 0 ≤ n → to_string n ≠ [] ∧ forallb item_char (to_string n) = true).
  { intros n Hn. destruct (to_string_spec n Hn) as (Hne & Hd & _). split; [done|]. rewrite forallb_forall in *. intros c Hc.
    unfold item_char. by rewrite (Hd c Hc). }
  assert (Hs : ∀ k, step_ok k → forallb item_char (step_text k) = true).
  { intros [k|] Hk; [|done]. unfold step_ok in Hk. cbn in Hk. cbn [step_text forallb]. by rewrite (proj2 (Hn k ltac:(lia))). }
  destruct i as [k|n|x y k]; cbn [item_ok item_text] in *.
  - split; [done|]. change (forallb item_char ("*"%char :: step_text k) = true). cbn [forallb]. by rewrite Hs.
  - apply Hn. lia.
  - destruct Hi as (? & ? & ? & Hk). split; [destruct (Hn x) as [? _]; [lia|]; by destruct (to_string x)|].
    rewrite forallb_app. cbn [forallb]. rewrite forallb_app, Hs by done. by rewrite (proj2 (Hn x ltac:(lia))), (proj2 (Hn y ltac:(lia))).
Qed.

Lemma item_no_char i lo hi c : 0 ≤ lo → item_ok lo hi i → item_char c = false → c ∉ item_text i.
Proof.
  intros Hlo Hi Hc Hin. destruct (item_chars lo hi i Hlo Hi) as [_ H]. rewrite forallb_forall in H.
  rewrite list_elem_of_In in Hin. rewrite (H c Hin) in Hc. done.
Qed.

Lemma field_parses lo hi f : 0 ≤ lo → lo ≤ hi ≤ 59 → field_ok lo hi f →
  ∃ r, expand_cron_field (field_text f) lo hi = Ok r ∧ ∀ v, v ∈ r ↔ has lo hi f v.
Proof.
  intros Hlo Hhi [Hne Hok]. unfold expand_cron_field. change (field_text f) with (join [","%char] (item_text <$> f)).
  rewrite split_on_join; cycle 1.
  { by destruct f. }
  { rewrite Forall_fmap. eapply Forall_impl; [done|]. cbn. intros i Hi. by eapply item_no_char. }
  destruct (items_expand lo hi (join [","%char] (item_text <$> f)) f Hlo Hhi Hok []) as (r & -> & Hr). cbn [mbind exc_bind].
  assert (Hin : ∀ v, v ∈ r ↔ has lo hi f v) by (intros v; rewrite Hr, elem_of_nil; tauto).
  rewrite bool_decide_eq_false_2; [by eexists|]. intros ->. destruct Hok as [|i f Hi _]; [done|].
  assert (Hex : ∃ v, has_item lo hi i v).
  { destruct i as [k|n|x y k]; cbn in *; [exists lo|exists n|exists x]; try done; (split; [lia|]); rewrite Z.sub_diag; apply Z.divide_0_r. }
  destruct Hex as [v Hv]. apply (elem_of_nil v), Hin. exists i. split; [by left|done].
Qed.

(** Blanks separate the fields. *)
Definition plain (s : cstring) : Prop := s ≠ [] ∧ forallb (λ c, negb ((ord c =? 32) || (ord c =? 9))) s = true.

Lemma tokenize_plain s : forallb (λ c, negb ((ord c =? 32) || (ord c =? 9))) s = true → ∀ cur rest,
  tokenize cur (s ++ rest) = tokenize (cur ++ s) rest.
Proof.
  induction s as [|c s IH]; intros Hs cur rest; cbn [app]; [by rewrite app_nil_r|]. cbn in Hs. apply andb_true_iff in Hs as [Hc Hs].
  cbn [tokenize]. apply negb_true_iff in Hc. rewrite Hc, IH by done. by rewrite <-app_assoc.
Qed.

Lemma tokenize_join ts : Forall plain ts → tokenize [] (join " " ts) = ts.
Proof.
  induction 1 as [|t ts [Hne Ht] Hts IH]; [done|]. destruct ts as [|t' ts].
  - cbn [join]. rewrite <-(app_nil_r t) at 1. rewrite tokenize_plain by done. cbn [tokenize app]. by rewrite bool_decide_eq_false_2.
  - change (join " " (t :: t' :: ts)) with (t ++ " "%char :: join " " (t' :: ts)). rewrite tokenize_plain by done. cbn [tokenize app].
    change (ord " " =? 32) with true. cbn [orb]. rewrite bool_decide_eq_false_2 by done. by rewrite IH.
Qed.

Lemma field_plain lo hi f : 0 ≤ lo → field_ok lo hi f → plain (field_text f).
Proof.
  intros Hlo [Hne Hok]. assert (Hc : ∀ c, item_char c = true → negb ((ord c =? 32) || (ord c =? 9)) = true).
  { intros c Hc. unfold item_char, isdigit, in_range in Hc. rewrite !orb_true_iff, !ascii_eqb_eq in Hc.
    destruct Hc as [[[Hc| ->]| ->]| ->]; [|done..]. breflect. lia. }
  split.
  - apply join_ne; [by destruct f|]. rewrite Forall_fmap. eapply Forall_impl; [done|]. cbn. intros i Hi. by apply (item_chars lo hi).
  - unfold field_text. clear Hne. induction Hok as [|i f Hi Hf IH]; [done|].
    assert (Ht : forallb (λ c, negb ((ord c =? 32) || (ord c =? 9))) (item_text i) = true).
    { destruct (item_chars lo hi i Hlo Hi) as [_ H]. rewrite forallb_forall in *. intros c Hin. by apply Hc, H. }
    destruct f as [|j f]; [done|].
    change (join "," (item_text <$> i :: j :: f)) with (item_text i ++ ","%char :: join "," (item_text <$> j :: f)).
    rewrite forallb_app, Ht. exact IH.
Qed.

(** What the fields hold *)
Definition fields_of (s : schedule) (fields : CronFields) : Prop :=
  (∀ v, v ∈ minute fields ↔ has 0 59 (at_minute s) v) ∧ (∀ v, v ∈ hour fields ↔ has 0 23 (at_hour s) v) ∧
  (∀ v, v ∈ mday fields ↔ has 1 31 (at_mday s) v) ∧ (∀ v, v ∈ month fields ↔ has 1 12 (at_month s) v) ∧
  (∀ v, v ∈ wday fields ↔ has 0 6 (at_wday s) v).

Lemma schedule_parses s : schedule_ok s → ∃ fields, parse_cron_fields (schedule_text s) = Ok fields ∧ fields_of s fields.
Proof.
  intros (H0 & H1 & H2 & H3 & H4). unfold parse_cron_fields, schedule_text. rewrite tokenize_join; cycle 1.
  { cbn [fmap list_fmap]. repeat constructor; (eapply field_plain; [|eassumption]; lia). }
  cbn [fmap list_fmap]. destruct (field_parses 0 59 _ ltac:(lia) ltac:(lia) H0) as (r0 & -> & ?).
  destruct (field_parses 0 23 _ ltac:(lia) ltac:(lia) H1) as (r1 & -> & ?). destruct (field_parses 1 31 _ ltac:(lia) ltac:(lia) H2) as (r2 & -> & ?).
  destruct (field_parses 1 12 _ ltac:(lia) ltac:(lia) H3) as (r3 & -> & ?). destruct (field_parses 0 6 _ ltac:(lia) ltac:(lia) H4) as (r4 & -> & ?).
  eexists. split; [done|]. by split_and!.
Qed.

Lemma matches_fires {LT : LocalTime} s fields t : fields_of s fields → unrestricted (at_mday s) || unrestricted (at_wday s) = true →
  matches fields t = true ↔ fires s (localtime t).
Proof.
  intros (H0 & H1 & H2 & H3 & H4) Hd. unfold matches, fires. rewrite Hd. cbv zeta.
  assert (Hc : ∀ x l, count x l = true ↔ x ∈ l).
  { intros x l. unfold count. rewrite existsb_exists, list_elem_of_In. setoid_rewrite Z.eqb_eq. naive_solver. }
  rewrite !andb_true_iff, !Hc, H0, H1, H2, H3, H4. tauto.
Qed.

(** ** Properties *)

(** A field denotes what its parts say: a successful expansion is the set
    of values that some part, as a range with a step, contains, all of them
    within the limits of the field; and the expansion returns or throws
    [invalid_argument] as long as no step comes within [hi] of the top of
    [int]. *)
Theorem expand_cron_field_correct token lo hi :
  INT_MIN ≤ lo →
  (∀ r, expand_cron_field token lo hi = Ok r →
     ∀ v, (v ∈ r ↔ ∃ part, part ∈ split_on "," token ∧ denotes token lo hi part v) ∧
          (v ∈ r → lo ≤ v ≤ hi)) ∧
  (small_steps token lo hi → invalid_only (expand_cron_field token lo hi)).
Proof.
  intros Hlo. split.
  - intros r (res & He & Hr)%exc_bind_Ok v. case_bool_decide; [done|]. injection Hr as <-.
    pose proof (expand_parts_spec _ _ _ _ _ _ He v) as Hv. rewrite elem_of_nil in Hv.
    split; [rewrite Hv; tauto|]. intros Hin. apply Hv in Hin as [[]|(part & _ & s & e & k & Hp & ? & _)].
    apply part_range_bounds in Hp. lia.
  - intros Hs. apply invalid_only_bind; [by apply expand_parts_total|].
    intros res _. by case_bool_decide.
Qed.

(** C40.  The next fire time is the right one: for every standard cron entry in
    which the day of the month or the weekday is a star, with values in range
    and steps not near the top of [int], and for any time up to the year 2260,
    the text of the entry is accepted and the search ends, with the earliest
    whole minute strictly after [from] at which the entry fires in local time,
    or with [invalid_argument] when it does not fire in the next 732 days. *)
Theorem cron_next_correct {LT : LocalTime} s from :
  schedule_ok s → unrestricted (at_mday s) || unrestricted (at_wday s) = true → 0 ≤ from ≤ latest →
  match cron_next (schedule_text s) from with
  | Ok r => ∃ t, r = t * 1000000000 ∧ t mod 60 = 0 ∧ from < r ∧ fires s (localtime t) ∧
      ∀ t', t' mod 60 = 0 → from < t' * 1000000000 → t' < t → ¬ fires s (localtime t')
  | Throw e => (∃ msg, e = invalid_argument msg) ∧
      ∀ t', t' mod 60 = 0 → from < t' * 1000000000 ≤ from + 732 * 86400 * 1000000000 → ¬ fires s (localtime t')
  | Undefined => False
  end.
Proof.
  intros Hs Hd Hf. destruct (schedule_parses s Hs) as (fields & Hp & Hfields).
  assert (Hm : ∀ t, matches fields t = true ↔ fires s (localtime t)) by (intros t; by apply matches_fires).
  assert (Hn : ∀ t, matches fields t = false → ¬ fires s (localtime t)) by (intros t Ht; rewrite <-Hm; congruence).
  pose proof (cron_next_spec _ from fields Hp Hf) as H.
  destruct (cron_next _ from) as [r|e|]; [|destruct H as [He Hno]|done].
  - destruct H as (t & -> & i & Hi & Ht & Hmt & Hno). exists t.
    destruct (proj2 (first_minute_spec from t ltac:(lia))) as [H1 H2]; [exists i; split; [lia|done]|].
    do 3 (split; [done|]). split; [by apply Hm|]. intros t' Hmod Hlt Hlt'.
    destruct (proj1 (first_minute_spec from t' ltac:(lia))) as (j & Hj & ->); [done|]. apply Hn, Hno. lia.
  - split; [done|]. intros t' Hmod Hlt.
    destruct (proj1 (first_minute_spec from t' ltac:(lia))) as (j & Hj & ->); [split; [done|lia]|]. apply Hn, Hno.
    destruct (proj2 (first_minute_spec from (first_minute from) ltac:(lia))) as [_ H2]; [exists 0; lia|]. unfold MAX_MINUTES. lia.
Qed.

(** A step near the top of [int] overflows the loop of the expansion. *)
Theorem large_step_overflows : expand_cron_field "1-5/2147483647" 0 59 = Undefined.
Proof. vm_compute. reflexivity. Qed.

(** Validation accepts an expression that matches no date: scheduling it
    throws, whenever it is tried, in any calendar in which February has no
    30th. *)
Theorem valid_expression_without_date {LT : LocalTime} from :
  0 ≤ from ≤ latest → (∀ t, tm_mon (localtime t) = 1 → tm_mday (localtime t) ≤ 29) →
  cron_validate "0 0 30 2 *" = Ok tt ∧ ∃ msg, cron_next "0 0 30 2 *" from = Throw (invalid_argument msg).
Proof.
  intros Hfrom Hcal. split; [vm_compute; reflexivity|].
  destruct (parse_cron_fields "0 0 30 2 *") as [fields| |] eqn:Hp; [|vm_compute in Hp; done..].
  pose proof (cron_next_spec _ from fields Hp Hfrom) as H. vm_compute in Hp. injection Hp as <-.
  destruct (cron_next "0 0 30 2 *" from) as [r|e|]; [|destruct H as [[msg ->] _]; by eexists|done].
  destruct H as (t & _ & i & _ & _ & Hm & _). exfalso. revert Hm. unfold matches, count.
  cbn [month mday existsb]. rewrite !orb_false_r, !andb_true_iff, !Z.eqb_eq.
  intros [[[[Hmon Hday] _] _] _]. specialize (Hcal t). lia.
Qed.

(** ** Witnesses *)

Lemma expand_cron_field_correct_witness :
  ∃ r, expand_cron_field "0,10-14/2" 0 59 = Ok r ∧ 12 ∈ r ∧ 0 ≤ 12 ≤ 59.
Proof.
  exists [0; 10; 12; 14]. split; [reflexivity|].
  destruct (expand_cron_field_correct "0,10-14/2" 0 59 ltac:(done)) as [H _].
  destruct (H [0; 10; 12; 14] eq_refl 12) as [_ Hr].
  assert (Hin : 12 ∈ [0; 10; 12; 14]) by (do 2 right; left). split; [done|]. by apply Hr.
Defined.

(** A calendar of thirty-day months starting on a Sunday. *)
Definition w_localtime : LocalTime := {|
  localtime t := {| tm_min := t / 60 mod 60; tm_hour := t / 3600 mod 24;
                    tm_mday := t / 86400 mod 30 + 1; tm_mon := t / 2592000 mod 12;
                    tm_wday := t / 86400 mod 7 |};
|}.

(** Half past four on Sundays *)
Definition w_schedule : schedule := mk_schedule [Single 30] [Single 4] [Every None] [Every None] [Single 0].

Lemma cron_next_correct_witness :
  schedule_text w_schedule = str "30 4 * * 0" ∧
  ∃ t, @cron_next w_localtime (schedule_text w_schedule) 16200000000000 = Ok (t * 1000000000) ∧
    fires w_schedule (@localtime w_localtime t) ∧ t = 621000.
Proof.
  split; [reflexivity|].
  assert (Hok : schedule_ok w_schedule).
  { unfold schedule_ok, field_ok, item_ok, step_ok, INT_MAX. repeat split; try discriminate; repeat constructor; cbn; lia. }
  pose proof (@cron_next_correct w_localtime w_schedule 16200000000000 Hok eq_refl
    ltac:(unfold latest, INT64_MAX, MAX_MINUTES; lia)) as H.
  assert (E : @cron_next w_localtime (schedule_text w_schedule) 16200000000000 = Ok 621000000000000)
    by (vm_compute; reflexivity).
  rewrite E in H. rewrite E. clear E. destruct H as (t & Ht & _ & _ & Hm & _). exists t.
  split; [exact (f_equal Ok Ht)|]. split; [exact Hm|lia].
Defined.

(** When both day fields are restricted the code wants both to match; a standard
    entry fires on either. *)
Example both_days_are_required :
  let s := mk_schedule [Single 0] [Single 0] [Single 15] [Every None] [Single 0] in
  let t := 7 * 86400 in
  schedule_text s = str "0 0 15 * 0" ∧ @cron_next w_localtime (schedule_text s) (6 * 86400 * 1000000000) ≠ Ok (t * 1000000000) ∧
  fires s (@localtime w_localtime t).
Proof.
  split; [reflexivity|]. split; [vm_compute; discriminate|].
  assert (H : ∀ lo hi n, has lo hi [Single n] n) by (intros lo hi n; exists (Single n); split; [by left|done]).
  split_and!; [apply H|apply H| |right; apply H].
  exists (Every None). split; [by left|]. split; [vm_compute; split; discriminate|apply Z.divide_1_l].
Qed.
