(* ===== verification/Validation.v ===== *)
(** * Validation of a configuration (src/src/config/config.cpp, the version test
      of src/src/util/system_info.cpp)

    [parse_config] checks the document before it is decoded, [validate_config]
    the decoded configuration; both collect issues and throw when there is one.
    The JSON parser is a parameter, as are the build's flag and the detected
    system. *)

From S2P Require Import Prelude CppString Config PortSpec Fwmark AddrSpec DnsServer DnsProbe.
From S2P Require Import RoutingState FirewallRules Cron Json ConfigJson.

Local Open Scope Z_scope.

Record ConfigValidationIssue := mk_Issue { issue_path : cstring; issue_message : cstring }.

Definition IFNAMSIZ : nat := 16.

(** [if (cond) add_issue(issues, path, message)] *)
Definition check (cond : bool) (path message : cstring) : list ConfigValidationIssue :=
  if cond then [mk_Issue path message] else [].

Definition at_index (path : cstring) (i : nat) : cstring := path ++ "[" ++ to_string (Z.of_nat i) ++ "]".

(** A loop that adds issues, with the index. *)
Definition each_index {A} (f : nat → A → list ConfigValidationIssue) (l : list A) : list ConfigValidationIssue :=
  mjoin (imap f l).

(** ** The document *)

Section document.
Context {IP : InetPton}.

Definition typed_field (accepts : json → bool) (suffix : cstring) (root : json) (parent_key child_key path : cstring) :
    list ConfigValidationIssue :=
  match jfind parent_key root with
  | Some (JObj members) =>
      match assoc child_key members with
      | None | Some JNull => []
      | Some child => check (negb (accepts child)) path (path ++ suffix)
      end
  | _ => []
  end.
Definition is_int (j : json) : bool := match j with JInt _ => true | _ => false end.
Definition is_str (j : json) : bool := match j with JStr _ => true | _ => false end.
Definition is_bool (j : json) : bool := match j with JBool _ => true | _ => false end.
Definition validate_optional_integer_field := typed_field is_int " must be an integer".
Definition validate_optional_string_field := typed_field is_str " must be a string".
Definition validate_optional_boolean_field := typed_field is_bool " must be a boolean".
Definition validate_optional_hex_string_field :=
  typed_field is_str " must be a string in hex format (e.g. 0x00010000)".

Definition get_optional_string_field (object : json) (key : cstring) : option cstring :=
  match jfind key object with Some (JStr s) => Some s | _ => None end.

Definition blank (s : cstring) : bool := bool_decide (trim_copy s = []).

Definition rule_has_list_condition (rule : json) : bool :=
  match jfind "list" rule with
  | Some (JArr l) => existsb (λ v, match v with JStr s => negb (blank s) | _ => false end) l
  | _ => false
  end.
Definition rule_has_string_condition (rule : json) (key : cstring) : bool :=
  match get_optional_string_field rule key with Some s => negb (blank s) | None => false end.
Definition rule_has_present_condition (rule : json) (key : cstring) : bool :=
  match jfind key rule with Some JNull | None => false | Some _ => true end.

Definition validate_dscp_field (rule : json) (rule_path : cstring) : list ConfigValidationIssue :=
  let path := rule_path ++ ".dscp" in
  match jfind "dscp" rule with
  | None | Some JNull => []
  | Some (JInt z) =>
      let value := i32 z in
      check ((value <? 1) || (63 <? value)) path (path ++ " must be between 1 and 63")
  | Some _ => check true path (path ++ " must be an integer between 1 and 63")
  end.

Definition report (path : cstring) (error : option cstring) : list ConfigValidationIssue :=
  match error with Some e => [mk_Issue path e] | None => [] end.

Definition validate_route_rule_spec (index : nat) (rule : json) : list ConfigValidationIssue :=
  match rule with
  | JObj _ =>
      let rule_path := at_index "route.rules" index in
      let has_any_condition :=
        rule_has_list_condition rule || rule_has_present_condition rule "dscp" ||
        rule_has_string_condition rule "src_port" || rule_has_string_condition rule "dest_port" ||
        rule_has_string_condition rule "src_addr" || rule_has_string_condition rule "dest_addr" in
      check (negb has_any_condition) rule_path
        "Route rule must include at least one condition: list, dscp, src_port, dest_port, src_addr, or dest_addr." ++
      validate_dscp_field rule rule_path ++
      report (rule_path ++ ".src_port") (validate_port_spec (get_optional_string_field rule "src_port")) ++
      report (rule_path ++ ".dest_port") (validate_port_spec (get_optional_string_field rule "dest_port")) ++
      report (rule_path ++ ".src_addr") (validate_address_spec (get_optional_string_field rule "src_addr")) ++
      report (rule_path ++ ".dest_addr") (validate_address_spec (get_optional_string_field rule "dest_addr"))
  | _ => []
  end.

Definition validate_route_rule_specs (root : json) : list ConfigValidationIssue :=
  match jfind "route" root with
  | Some (JObj route) =>
      match assoc "rules" route with
      | Some (JArr rules) => each_index validate_route_rule_spec rules
      | _ => []
      end
  | _ => []
  end.

Definition iscntrl (c : ascii) : bool := (ord c <? 32) || (ord c =? 127).
Definition invalid_interface_name (iface : cstring) : bool :=
  (IFNAMSIZ <=? length iface)%nat || bool_decide (iface = str ".") || bool_decide (iface = str "..") ||
  existsb (λ c, ascii_eqb c "/" || ascii_eqb c ":" || isspace c || iscntrl c) iface.

(** The loop over the interfaces, with those seen. *)
Fixpoint inbound_interface_issues (index : nat) (seen : list cstring) (l : list json) : list ConfigValidationIssue :=
  match l with
  | [] => []
  | v :: l =>
      let path := at_index "route.inbound_interfaces" index in
      match v with
      | JStr iface =>
          if blank iface then
            mk_Issue path (path ++ " must not be blank") :: inbound_interface_issues (S index) seen l
          else if invalid_interface_name iface then
            mk_Issue path (path ++ " must be a valid Linux interface name (shorter than IFNAMSIZ and without '/', ':', whitespace, or control characters)")
              :: inbound_interface_issues (S index) seen l
          else check (bool_decide (iface ∈ seen)) path (path ++ " duplicates interface '" ++ iface ++ "'") ++
               inbound_interface_issues (S index) (iface :: seen) l
      | _ => mk_Issue path (path ++ " must be a string") :: inbound_interface_issues (S index) seen l
      end
  end.

Definition validate_route_inbound_interfaces (root : json) : list ConfigValidationIssue :=
  match jfind "route" root with
  | Some (JObj route) =>
      match assoc "inbound_interfaces" route with
      | None | Some JNull => []
      | Some (JArr l) => inbound_interface_issues 0 [] l
      | Some _ => [mk_Issue "route.inbound_interfaces" "route.inbound_interfaces must be an array of strings"]
      end
  | _ => []
  end.

Definition document_issues (root : json) : list ConfigValidationIssue :=
  validate_optional_hex_string_field root "fwmark" "start" "fwmark.start" ++
  validate_optional_hex_string_field root "fwmark" "mask" "fwmark.mask" ++
  mjoin ((λ f : cstring * cstring, validate_optional_integer_field root f.1 f.2 (f.1 ++ "." ++ f.2)) <$>
    [(str "iproute", str "table_start"); (str "iproute", str "rule_priority_start");
     (str "daemon", str "firewall_verify_max_bytes"); (str "daemon", str "max_file_size_bytes");
     (str "daemon", str "exec_timeout_seconds"); (str "daemon", str "resolver_ready_timeout_seconds");
     (str "daemon", str "exec_kill_grace_seconds"); (str "api", str "max_request_body_bytes");
     (str "api", str "read_timeout_seconds"); (str "api", str "write_timeout_seconds");
     (str "api", str "keep_alive_timeout_seconds")]) ++
  validate_optional_string_field root "daemon" "firewall_backend" "daemon.firewall_backend" ++
  validate_optional_boolean_field root "daemon" "skip_marked_packets" "daemon.skip_marked_packets" ++
  validate_optional_boolean_field root "daemon" "clear_dynamic_sets_on_apply" "daemon.clear_dynamic_sets_on_apply" ++
  validate_optional_boolean_field root "daemon" "ipv6_enabled" "daemon.ipv6_enabled" ++
  validate_route_rule_specs root ++ validate_route_inbound_interfaces root.
End document.

(** ** Errors *)

Definition build_message (issues : list ConfigValidationIssue) : cstring :=
  match issues with
  | [] => "Config validation failed"
  | [i] => issue_message i
  | _ => "Config validation failed with " ++ to_string (Z.of_nat (length issues)) ++ " errors"
  end.
(** [throw ConfigValidationError(issues)] unless there are none *)
Definition throw_issues (issues : list ConfigValidationIssue) : exc unit :=
  if bool_decide (length issues = 0%nat) then Ok tt else Throw (ConfigError (build_message issues)).

(** [json::parse] is a parameter *)
Definition parse_config {IP : InetPton} {NL : Nlohmann} (json_parse : cstring → exc json) (json_str : cstring) :
    exc Config :=
  let at_root m := Throw (ConfigError (build_message [mk_Issue "$" m])) in
  match json_parse json_str with
  | Throw (json_exception e) => at_root ("Invalid JSON: " ++ e)
  | Throw e => Throw e
  | Undefined => Undefined
  | Ok root =>
      throw_issues (document_issues root) ≫= λ _,
      match config_from_json root with
      | Throw e => match what e with Some w => at_root w | None => Throw e end
      | r => r
      end
  end.

(** ** The decoded configuration *)

Definition is_http_url (url : cstring) : bool :=
  match find_str "://" url with
  | None => false
  | Some separator =>
      if (length url <=? separator + 3)%nat then false
      else let scheme := tolower <$> take separator url in
           bool_decide (scheme = str "http") || bool_decide (scheme = str "https")
  end.

Definition validate_tag (path kind value : cstring) : list ConfigValidationIssue :=
  if bool_decide (value = []) then [mk_Issue path (kind ++ " must not be empty")]
  else
    check (MAX_TAG_LEN <? length value)%nat path
      (kind ++ " '" ++ value ++ "' is too long: " ++ to_string (Z.of_nat (length value)) ++
       " chars, maximum is " ++ to_string (Z.of_nat MAX_TAG_LEN)) ++
    check (negb (is_valid_tag value)) path
      (kind ++ " '" ++ value ++ "' must match naming convention [a-z][a-z0-9_]*").

Definition collect_list_names (cfg : Config) : gset cstring := dom (value_or (lists cfg) ∅).
Definition collect_outbound_tags (obs : list Outbound) : gset cstring := list_to_set (tag <$> obs).

Definition validate_required_reference (known_refs : gset cstring) (path owner_path value ref_kind : cstring) :
    list ConfigValidationIssue :=
  let ref := trim_copy value in
  if bool_decide (ref = []) then [mk_Issue path (path ++ " must not be empty")]
  else check (negb (bool_decide (ref ∈ known_refs))) path
         (owner_path ++ " references unknown " ++ ref_kind ++ " '" ++ ref ++ "'").

Definition validate_rule_list_references (known_lists : gset cstring) (rule_path : cstring)
    (list_refs : list cstring) : list ConfigValidationIssue :=
  each_index (λ i r, validate_required_reference known_lists (at_index (rule_path ++ ".list") i) rule_path r "list")
    list_refs.

(** *** The version of the router's system *)

Record SystemInfo := mk_SystemInfo { os_type : cstring; os_version : cstring; build_variant : cstring }.

Definition parse_keenetic_major_version (version : cstring) : option Z :=
  let normalized := trim_by isspace version in
  if bool_decide (normalized = []) then None
  else let digits := take_while isdigit normalized in
       if bool_decide (digits = []) then None
       else match stoi digits with Ok v => Some v | _ => None end.

Definition keenetic_version_supports_encrypted_dns (version : cstring) : bool :=
  match parse_keenetic_major_version version with Some major => 3 <=? major | None => false end.

(** *** Small accessors *)

Module FirewallBackendPreference.
Inductive t := auto_detect | iptables | nftables.
#[global] Instance t_eq_dec : EqDecision t.
Proof. solve_decision. Defined.
End FirewallBackendPreference.

Definition to_firewall_backend_preference (backend : DaemonConfigFirewallBackend.t) : FirewallBackendPreference.t :=
  match backend with
  | DaemonConfigFirewallBackend.AUTO => FirewallBackendPreference.auto_detect
  | DaemonConfigFirewallBackend.IPTABLES => FirewallBackendPreference.iptables
  | DaemonConfigFirewallBackend.NFTABLES => FirewallBackendPreference.nftables
  end.

Definition firewall_backend_preference (config : Config) : FirewallBackendPreference.t :=
  match daemon config with
  | Some d => match firewall_backend d with
              | Some b => to_firewall_backend_preference b
              | None => FirewallBackendPreference.auto_detect
              end
  | None => FirewallBackendPreference.auto_detect
  end.

Definition kDefaultMaxFileSizeBytes : Z := 8 * 1024 * 1024.
Definition max_file_size_bytes (config : Config) : Z :=
  u64 (value_or (max_file_size_bytes_field (value_or (daemon config) default_DaemonConfig)) kDefaultMaxFileSizeBytes).

(** *** The sections of [validate_config] *)

Section validate.
Context {SS : StdSort} {IP : InetPton}.
(** The build's USE_KEENETIC_API and [cached_system_info()] *)
Context (use_keenetic_api : bool) (system_info : SystemInfo).

Definition daemon_issues (cfg : Config) : list ConfigValidationIssue :=
  match daemon cfg with
  | None => []
  | Some d =>
      check (match firewall_verify_max_bytes d with Some v => v <? 0 | None => false end)
        "daemon.firewall_verify_max_bytes" "daemon.firewall_verify_max_bytes must be >= 0" ++
      check (match max_file_size_bytes_field d with Some v => v <=? 0 | None => false end)
        "daemon.max_file_size_bytes" "daemon.max_file_size_bytes must be greater than 0" ++
      check (value_or (exec_timeout_seconds d) 30 <? 1)
        "daemon.exec_timeout_seconds" "daemon.exec_timeout_seconds must be >= 1" ++
      check (value_or (resolver_ready_timeout_seconds d) 120 <? 1)
        "daemon.resolver_ready_timeout_seconds" "daemon.resolver_ready_timeout_seconds must be >= 1" ++
      check (value_or (exec_kill_grace_seconds d) 2 <? 0)
        "daemon.exec_kill_grace_seconds" "daemon.exec_kill_grace_seconds must be >= 0"
  end.

(** The two tests of a timeout of the API *)
Definition timeout_issues (path : cstring) (v : Z) : list ConfigValidationIssue :=
  check (v <? 1) path (path ++ " must be >= 1") ++ check (INT_MAX <? v) path (path ++ " is too large").

Definition api_issues (cfg : Config) : list ConfigValidationIssue :=
  match api cfg with
  | None => []
  | Some a =>
      check (value_or (max_request_body_bytes a) (1024 * 1024) <? 1024)
        "api.max_request_body_bytes" "api.max_request_body_bytes must be >= 1024" ++
      timeout_issues "api.read_timeout_seconds" (value_or (read_timeout_seconds a) 15) ++
      timeout_issues "api.write_timeout_seconds" (value_or (write_timeout_seconds a) 15) ++
      timeout_issues "api.keep_alive_timeout_seconds" (value_or (keep_alive_timeout_seconds a) 20)
  end.

Definition autoupdate_issues (cfg : Config) : exc (list ConfigValidationIssue) :=
  match lists_autoupdate cfg with
  | None => mret []
  | Some u =>
      let enabled := value_or (autoupdate_enabled u) false in
      let c := value_or (cron u) [] in
      let required := check (enabled && bool_decide (c = [])) "lists_autoupdate.cron"
                        "lists_autoupdate.cron is required when enabled" in
      if bool_decide (c = []) then mret required
      else match cron_validate c with
           | Ok _ => mret required
           | Throw (invalid_argument e) =>
               mret (required ++ [mk_Issue "lists_autoupdate.cron" ("lists_autoupdate.cron: " ++ e)])
           | Throw e => Throw e
           | Undefined => Undefined
           end
  end.

Definition non_empty {A} (o : option (list A)) : bool := match o with Some (_ :: _) => true | _ => false end.

Definition list_issues (e : cstring * ListConfig) : list ConfigValidationIssue :=
  let '(name, list_cfg) := e in
  let list_path : cstring := if bool_decide (name = []) then "lists" else "lists." ++ name in
  validate_tag list_path "List name" name ++
  check (negb (has_value (list_url list_cfg)) && negb (has_value (list_file list_cfg)) &&
         negb (non_empty (ip_cidrs list_cfg)) && negb (non_empty (domains list_cfg)))
    list_path ("List '" ++ name ++ "' must have at least one of: url, domains, ip_cidrs, file") ++
  check (match list_url list_cfg with Some u => negb (is_http_url u) | None => false end)
    (list_path ++ ".url") "List URL must use the http or https scheme".

(** A tag of a group, against the first outbound of that tag *)
Definition group_reference_issues (obs : list Outbound) (ob_tag path ref_tag : cstring) : list ConfigValidationIssue :=
  match find_outbound obs ref_tag with
  | None => [mk_Issue path ("Urltest outbound '" ++ ob_tag ++ "' references unknown outbound tag '" ++ ref_tag ++ "'")]
  | Some target =>
      check (negb (bool_decide (type target = OutboundType.INTERFACE)) &&
             negb (bool_decide (type target = OutboundType.TABLE)) &&
             negb (bool_decide (type target = OutboundType.BLACKHOLE))) path
        ("Urltest outbound '" ++ ob_tag ++ "' references outbound '" ++ ref_tag ++
         "' which is not an interface, table, or blackhole outbound")
  end.

Definition group_issues (obs : list Outbound) (ob_tag : cstring) (group_index : nat) (group : OutboundGroup) :
    list ConfigValidationIssue :=
  let path := at_index ("outbounds." ++ ob_tag ++ ".outbound_groups") group_index ++ ".outbounds" in
  check (bool_decide (group_outbounds group = [])) path
    ("Urltest outbound '" ++ ob_tag ++ "' outbound_group has empty 'outbounds' array") ++
  (group_outbounds group ≫= group_reference_issues obs ob_tag path).

Definition interface_issues (ob : Outbound) : list ConfigValidationIssue :=
  let here field := "outbounds." ++ tag ob ++ field in
  let whose := "Interface outbound '" ++ tag ob in
  check (blank (value_or (interface ob) [])) (here ".interface") (whose ++ "' requires a non-empty interface name") ++
  check (match gateway ob with Some g => negb (is_inet AF_INET g) | None => false end) (here ".gateway")
    (whose ++ "' gateway must be a valid IPv4 address") ++
  check (match gateway6 ob with Some g => negb (is_inet AF_INET6 g) | None => false end) (here ".gateway6")
    (whose ++ "' gateway6 must be a valid IPv6 address").

Definition urltest_issues (obs : list Outbound) (ob : Outbound) : list ConfigValidationIssue :=
  let here field := "outbounds." ++ tag ob ++ field in
  match url ob with
  | None | Some [] => [mk_Issue (here ".url") ("Urltest outbound '" ++ tag ob ++ "' requires a URL")]
  | Some u => check (negb (is_http_url u)) (here ".url") "Urltest URL must use the http or https scheme"
  end ++
  match outbound_groups ob with
  | None | Some [] =>
      [mk_Issue (here ".outbound_groups") ("Urltest outbound '" ++ tag ob ++ "' 'outbound_groups' array must not be empty")]
  | Some groups => each_index (group_issues obs (tag ob)) groups
  end.

Definition outbound_issues (obs : list Outbound) (ob : Outbound) : list ConfigValidationIssue :=
  validate_tag ("outbounds." ++ tag ob ++ ".tag") "Outbound tag" (tag ob) ++
  (if bool_decide (type ob = OutboundType.INTERFACE) then interface_issues ob else []) ++
  (if bool_decide (type ob = OutboundType.URLTEST) then urltest_issues obs ob else []).

Definition route_rule_issues (list_names outbound_tags : gset cstring) (rule_index : nat) (rule : RouteRule) :
    list ConfigValidationIssue :=
  let rule_path := at_index "route.rules" rule_index in
  validate_required_reference outbound_tags (rule_path ++ ".outbound") rule_path (rule_outbound rule) "outbound tag" ++
  validate_rule_list_references list_names rule_path (route_rule_lists rule).

(** [try { m } catch (const ConfigError& e) { add_issue }]: the issues and whether [m] succeeded *)
Definition config_error_issues {A} (path : cstring) (m : exc A) : exc (list ConfigValidationIssue * bool) :=
  match m with
  | Ok _ => mret ([], true)
  | Throw (ConfigError e) => mret ([mk_Issue path e], false)
  | Throw e => Throw e
  | Undefined => Undefined
  end.

Definition fwmark_issues (cfg : Config) : exc (list ConfigValidationIssue) :=
  let fwmark_cfg := value_or (fwmark cfg) default_FwmarkConfig in
  start ← config_error_issues "fwmark.start" (parse_fwmark_start_or_throw fwmark_cfg);
  mask ← config_error_issues "fwmark.mask"
           (m ← parse_fwmark_mask_or_throw fwmark_cfg; validate_fwmark_mask m);
  marks ← (if start.2 && mask.2
           then config_error_issues "outbounds" (allocate_outbound_marks fwmark_cfg (value_or (outbounds cfg) []))
           else mret ([], true));
  mret (start.1 ++ mask.1 ++ marks.1).

Definition iproute_issues (cfg : Config) : list ConfigValidationIssue :=
  let table_start := table_start_value cfg in
  let configured := rule_priority_start (value_or (iproute cfg) default_IprouteConfig) in
  let valid := priority_start_ok configured in
  let start := u32 (if valid then value_or configured table_start else table_start) in
  let routable_count := Z.of_nat (length
    (List.filter (λ ob, is_routable (type ob)) (value_or (outbounds cfg) []))) in
  check (is_reserved_table table_start) "iproute.table_start"
    ("iproute.table_start " ++ to_string table_start ++ " is reserved. Use a different value (e.g. 150).") ++
  check (negb valid) "iproute.rule_priority_start"
    "iproute.rule_priority_start must be an integer from 1 through 4294967295" ++
  check (valid && ((start =? 0) || ((UINT32_MAX - start) / 2 <? routable_count))) "iproute.rule_priority_start"
    "iproute.rule_priority_start does not leave room for reserved rule priority pairs".

Definition classify_optional_port_spec (value : option cstring) : exc (option PortSpecKind.t) :=
  match value with
  | None => mret None
  | Some value =>
      let normalized := trim_copy value in
      if bool_decide (normalized = []) then mret None
      else
        let content := match normalized with "!"%char :: rest => trim_copy rest | _ => normalized end in
        if bool_decide (content = []) then mret None
        else spec ← parse_port_spec content; mret (Some (kind spec))
  end.

Definition is_list_kind (k : option PortSpecKind.t) : bool := bool_decide (k = Some PortSpecKind.List).

Definition route_rule_uses_unsupported_iptables_multiport_combo (rule : RouteRule) : exc bool :=
  src_kind ← classify_optional_port_spec (src_port rule);
  dst_kind ← classify_optional_port_spec (dest_port rule);
  mret (has_value src_kind && has_value dst_kind && (is_list_kind src_kind || is_list_kind dst_kind)).

Definition route_rule_unsupported_iptables_multiport_path (rule_index : nat) (rule : RouteRule) : exc cstring :=
  src_kind ← classify_optional_port_spec (src_port rule);
  mret (at_index "route.rules" rule_index ++ (if is_list_kind src_kind then str ".src_port" else str ".dest_port")).

Fixpoint multiport_loop (i : nat) (route_rules : list RouteRule) : exc (list ConfigValidationIssue) :=
  match route_rules with
  | [] => mret []
  | rule :: route_rules =>
      unsupported ← route_rule_uses_unsupported_iptables_multiport_combo rule;
      here ← (if unsupported : bool then
                path ← route_rule_unsupported_iptables_multiport_path i rule;
                mret [mk_Issue path ("When you use port lists (e.g. 444,555) you can't combine src_port and dest_port " ++
                  "condition. This is a xt_multiport module limitation. Consider using nftables firewall backend or " ++
                  "create multiple rules.")]
              else mret []);
      rest ← multiport_loop (S i) route_rules;
      mret (here ++ rest)
  end.

Definition multiport_issues (cfg : Config) : exc (list ConfigValidationIssue) :=
  if bool_decide (firewall_backend_preference cfg = FirewallBackendPreference.iptables)
  then multiport_loop 0 (config_rules cfg) else mret [].

(** **** The DNS section *)

Definition server_type (srv : DnsServer) : DnsServerType.t := value_or (dns_type srv) DnsServerType.STATIC.
Definition is_keenetic (srv : DnsServer) : bool :=
  match server_type srv with DnsServerType.KEENETIC => true | DnsServerType.STATIC => false end.
Definition server_identity (srv : DnsServer) : cstring :=
  to_string (match server_type srv with DnsServerType.KEENETIC => 0 | DnsServerType.STATIC => 1 end) ++
  "|" ++ value_or (dns_address srv) [].

Definition in_quotes (s : cstring) : cstring := chr 34 :: s ++ [chr 34].
Definition server_at (srv : DnsServer) : cstring := "dns.servers[" ++ in_quotes (dns_tag srv) ++ "]".

Definition server_type_issues (srv : DnsServer) : list ConfigValidationIssue :=
  let here field := "dns.servers." ++ dns_tag srv ++ field in
  let whose := server_at srv in
  let has_address := match dns_address srv with Some (_ :: _) => true | _ => false end in
  match server_type srv with
  | DnsServerType.KEENETIC =>
      check (negb use_keenetic_api) (here ".type")
        (whose ++ ".type='keenetic' requires build with USE_KEENETIC_API=ON") ++
      check (bool_decide (os_type system_info = str "keenetic") && negb (bool_decide (os_version system_info = [])) &&
             negb (keenetic_version_supports_encrypted_dns (os_version system_info))) (here ".type")
        (whose ++ ".type='keenetic' requires KeeneticOS 3.x or newer; detected " ++ os_version system_info) ++
      check has_address (here ".address")
        (whose ++ ".address must not be set for type='keenetic' (resolved via RCI)")
  | DnsServerType.STATIC =>
      check (negb has_address) (here ".address") (whose ++ ".address is required for type='static'")
  end.

Definition detour_issues (obs : list Outbound) (srv : DnsServer) : list ConfigValidationIssue :=
  let path := "dns.servers." ++ dns_tag srv ++ ".detour" in
  let whose := server_at srv ++ ".detour: " in
  match dns_detour srv with
  | None => []
  | Some dtag =>
      match find_outbound obs dtag with
      | None => [mk_Issue path (whose ++ "unknown outbound tag " ++ in_quotes dtag)]
      | Some ob => check (bool_decide (type ob = OutboundType.BLACKHOLE) || bool_decide (type ob = OutboundType.IGNORE))
                     path (whose ++ "outbound " ++ in_quotes dtag ++ " has no routing table")
      end
  end.

(** The loop over the servers, with the tags and the identities inserted so far *)
Fixpoint server_loop (obs : list Outbound) (tags identities : gset cstring) (l : list DnsServer) :
    list ConfigValidationIssue :=
  match l with
  | [] => []
  | srv :: l =>
      validate_tag ("dns.servers." ++ dns_tag srv ++ ".tag") "DNS server tag" (dns_tag srv) ++
      check (bool_decide (dns_tag srv ∈ tags)) ("dns.servers." ++ dns_tag srv ++ ".tag")
        ("Duplicate DNS server tag " ++ in_quotes (dns_tag srv)) ++
      check (bool_decide (server_identity srv ∈ identities)) ("dns.servers." ++ dns_tag srv)
        ("DNS server " ++ in_quotes (dns_tag srv) ++ " duplicates an existing DNS server definition (same type/address)") ++
      server_type_issues srv ++ detour_issues obs srv ++
      server_loop obs ({[dns_tag srv]} ∪ tags) ({[server_identity srv]} ∪ identities) l
  end.

Fixpoint fallback_loop (known : gset cstring) (i : nat) (seen : gset cstring) (l : list cstring) :
    list ConfigValidationIssue :=
  match l with
  | [] => []
  | t :: l =>
      let path := "dns.fallback." ++ to_string (Z.of_nat i) in
      let whose := at_index "dns.fallback" i in
      if bool_decide (t = []) then mk_Issue path (whose ++ " must not be empty") :: fallback_loop known (S i) seen l
      else
        check (bool_decide (t ∈ seen)) path (whose ++ " duplicates DNS server tag " ++ in_quotes t) ++
        check (negb (bool_decide (t ∈ known))) path (whose ++ " references unknown DNS server tag " ++ in_quotes t) ++
        fallback_loop known (S i) ({[t]} ∪ seen) l
  end.

Definition dns_rule_issues (tags list_names : gset cstring) (rule_index : nat) (rule : DnsRule) :
    list ConfigValidationIssue :=
  let rule_path := at_index "dns.rules" rule_index in
  validate_required_reference tags (rule_path ++ ".server") rule_path (dns_rule_server rule) "DNS server tag" ++
  (if bool_decide (dns_rule_list rule = [])
   then [mk_Issue (rule_path ++ ".list") (rule_path ++ ".list must include at least one list name")]
   else validate_rule_list_references list_names rule_path (dns_rule_list rule)).

Definition test_server_issues (d : DnsConfig) : exc (list ConfigValidationIssue) :=
  match dns_test_server d with
  | None => mret []
  | Some t =>
      match parse_dns_probe_server_settings (test_listen t) (answer_ipv4 t) with
      | Ok _ => mret []
      | Throw e => match what e with
                   | Some w => mret [mk_Issue "dns.dns_test_server" ("dns.dns_test_server: " ++ w)]
                   | None => Throw e
                   end
      | Undefined => Undefined
      end
  end.

Definition no_system_resolver : ConfigValidationIssue :=
  mk_Issue "dns.system_resolver" "dns.system_resolver must be present".

Definition dns_section_issues (cfg : Config) : exc (list ConfigValidationIssue) :=
  match dns cfg with
  | None => mret [no_system_resolver]
  | Some d =>
      let dns_servers := value_or (servers d) [] in
      let tags : gset cstring := list_to_set (dns_tag <$> dns_servers) in
      test ← test_server_issues d;
      mret (server_loop (value_or (outbounds cfg) []) ∅ ∅ dns_servers ++
            check (1 <? length (List.filter is_keenetic dns_servers))%nat "dns.servers"
              "at most one dns.servers entry may use type='keenetic'" ++
            match fallback d with None => [] | Some f => fallback_loop tags 0 ∅ f end ++
            match system_resolver d with
            | Some r => check (bool_decide (resolver_address r = [])) "dns.system_resolver.address"
                          "dns.system_resolver.address must not be empty"
            | None => [no_system_resolver]
            end ++
            each_index (dns_rule_issues tags (collect_list_names cfg)) (value_or (dns_rules d) []) ++
            test)
  end.

Definition validate_config (cfg : Config) : exc unit :=
  let obs := value_or (outbounds cfg) [] in
  autoupdate ← autoupdate_issues cfg;
  marks ← fwmark_issues cfg;
  multiport ← multiport_issues cfg;
  dns_section ← dns_section_issues cfg;
  throw_issues (daemon_issues cfg ++ api_issues cfg ++ autoupdate ++
    (in_key_order (config_lists cfg) ≫= list_issues) ++ (obs ≫= outbound_issues obs) ++
    each_index (route_rule_issues (collect_list_names cfg) (collect_outbound_tags obs)) (config_rules cfg) ++
    marks ++ iproute_issues cfg ++ multiport ++ dns_section).

Definition parse_and_validate_config {NL : Nlohmann} (json_parse : cstring → exc json) (json_str : cstring) :
    exc Config :=
  config ← parse_config json_parse json_str;
  validate_config config ≫= λ _, mret config.
End validate.

(** ** What a valid configuration is *)

(** A tag: a lowercase letter, then letters, digits and underscores, at most 24 characters *)
Definition tag_syntax (t : cstring) : Prop :=
  ∃ c rest, t = c :: rest ∧ islower c = true ∧
    Forall (λ c, islower c = true ∨ isdigit c = true ∨ c = "_"%char) rest ∧ (length t ≤ 24)%nat.

Definition http_url (u : cstring) : Prop :=
  ∃ scheme rest, u = scheme ++ str "://" ++ rest ∧ rest ≠ [] ∧
    (tolower <$> scheme = str "http" ∨ tolower <$> scheme = str "https").

(** A reference, read without the blanks around it *)
Definition refers (known : gset cstring) (r : cstring) : Prop := trim_copy r ≠ [] ∧ trim_copy r ∈ known.

Definition daemon_ok (d : DaemonConfig) : Prop :=
  0 ≤ value_or (firewall_verify_max_bytes d) 0 ∧ 0 < value_or (max_file_size_bytes_field d) 1 ∧
  1 ≤ value_or (exec_timeout_seconds d) 30 ∧ 1 ≤ value_or (resolver_ready_timeout_seconds d) 120 ∧
  0 ≤ value_or (exec_kill_grace_seconds d) 2.

Definition api_ok (a : ApiConfig) : Prop :=
  1024 ≤ value_or (max_request_body_bytes a) 1048576 ∧
  1 ≤ value_or (read_timeout_seconds a) 15 ≤ INT_MAX ∧ 1 ≤ value_or (write_timeout_seconds a) 15 ≤ INT_MAX ∧
  1 ≤ value_or (keep_alive_timeout_seconds a) 20 ≤ INT_MAX.

Definition autoupdate_ok (u : ListsAutoupdateConfig) : Prop :=
  let c := value_or (cron u) [] in
  (autoupdate_enabled u = Some true → c ≠ []) ∧ (c ≠ [] → cron_validate c = Ok tt).

Definition list_ok (name : cstring) (l : ListConfig) : Prop :=
  tag_syntax name ∧
  (is_Some (list_url l) ∨ is_Some (list_file l) ∨ (∃ c, c ∈ value_or (ip_cidrs l) []) ∨
   (∃ d, d ∈ value_or (domains l) [])) ∧
  (∀ u, list_url l = Some u → http_url u).

Definition group_ok (obs : list Outbound) (g : OutboundGroup) : Prop :=
  group_outbounds g ≠ [] ∧
  ∀ t, t ∈ group_outbounds g → ∃ target, find_outbound obs t = Some target ∧
    (type target = OutboundType.INTERFACE ∨ type target = OutboundType.TABLE ∨ type target = OutboundType.BLACKHOLE).

Definition outbound_ok {IP : InetPton} (obs : list Outbound) (ob : Outbound) : Prop :=
  tag_syntax (tag ob) ∧
  (type ob = OutboundType.INTERFACE →
     trim_copy (value_or (interface ob) []) ≠ [] ∧
     (∀ g, gateway ob = Some g → is_inet AF_INET g = true) ∧
     (∀ g, gateway6 ob = Some g → is_inet AF_INET6 g = true)) ∧
  (type ob = OutboundType.URLTEST →
     (∃ u, url ob = Some u ∧ http_url u) ∧
     ∃ groups, outbound_groups ob = Some groups ∧ groups ≠ [] ∧ Forall (group_ok obs) groups).

Definition rule_ok (cfg : Config) (rule : RouteRule) : Prop :=
  refers (list_to_set (tag <$> value_or (outbounds cfg) [])) (rule_outbound rule) ∧
  Forall (refers (dom (config_lists cfg))) (route_rule_lists rule).

Definition iproute_ok (cfg : Config) : Prop :=
  is_reserved_table (table_start_value cfg) = false ∧
  (∀ p, rule_priority_start (value_or (iproute cfg) default_IprouteConfig) = Some p → 1 ≤ p ≤ UINT32_MAX) ∧
  rule_priority_start_value cfg + 2 * Z.of_nat (length
    (List.filter (λ ob, is_routable (type ob)) (value_or (outbounds cfg) []))) ≤ UINT32_MAX.

(** xt_multiport: no port list beside another port condition *)
Definition ports_ok {SS : StdSort} (rule : RouteRule) : Prop :=
  ∃ src dst, classify_optional_port_spec (src_port rule) = Ok src ∧ classify_optional_port_spec (dest_port rule) = Ok dst ∧
    (src = Some PortSpecKind.List → dst = None) ∧ (dst = Some PortSpecKind.List → src = None).

Definition server_ok (use_keenetic_api : bool) (info : SystemInfo) (obs : list Outbound) (srv : DnsServer) : Prop :=
  tag_syntax (dns_tag srv) ∧
  match server_type srv with
  | DnsServerType.STATIC => value_or (dns_address srv) [] ≠ []
  | DnsServerType.KEENETIC =>
      use_keenetic_api = true ∧ value_or (dns_address srv) [] = [] ∧
      (os_type info = str "keenetic" → os_version info ≠ [] → keenetic_version_supports_encrypted_dns (os_version info) = true)
  end ∧
  (∀ t, dns_detour srv = Some t →
     ∃ ob, find_outbound obs t = Some ob ∧ type ob ≠ OutboundType.BLACKHOLE ∧ type ob ≠ OutboundType.IGNORE).

Record dns_ok {IP : InetPton} (use_keenetic_api : bool) (info : SystemInfo) (cfg : Config) (d : DnsConfig) : Prop := {
  dns_servers_ok : Forall (server_ok use_keenetic_api info (value_or (outbounds cfg) [])) (value_or (servers d) []);
  dns_tags_unique : NoDup (dns_tag <$> value_or (servers d) []);
  dns_identities_unique : NoDup (server_identity <$> value_or (servers d) []);
  dns_one_keenetic : (length (List.filter is_keenetic (value_or (servers d) [])) ≤ 1)%nat;
  dns_fallback_ok : NoDup (value_or (fallback d) []) ∧
    ∀ t, t ∈ value_or (fallback d) [] → t ≠ [] ∧ t ∈ dns_tag <$> value_or (servers d) [];
  dns_resolver_ok : ∃ r, system_resolver d = Some r ∧ resolver_address r ≠ [];
  dns_rules_ok : ∀ rule, rule ∈ value_or (dns_rules d) [] →
    refers (list_to_set (dns_tag <$> value_or (servers d) [])) (dns_rule_server rule) ∧
    dns_rule_list rule ≠ [] ∧ Forall (refers (dom (config_lists cfg))) (dns_rule_list rule);
  dns_test_ok : ∀ t, dns_test_server d = Some t →
    is_ok (parse_dns_probe_server_settings (test_listen t) (answer_ipv4 t)) = true;
}.

Record well_formed {SS : StdSort} {IP : InetPton} (use_keenetic_api : bool) (info : SystemInfo) (cfg : Config) : Prop := {
  wf_daemon : ∀ d, daemon cfg = Some d → daemon_ok d;
  wf_api : ∀ a, api cfg = Some a → api_ok a;
  wf_autoupdate : ∀ u, lists_autoupdate cfg = Some u → autoupdate_ok u;
  wf_lists : map_Forall list_ok (config_lists cfg);
  wf_outbounds : Forall (outbound_ok (value_or (outbounds cfg) [])) (value_or (outbounds cfg) []);
  wf_rules : Forall (rule_ok cfg) (config_rules cfg);
  wf_marks : ∃ marks, allocate_outbound_marks (value_or (fwmark cfg) default_FwmarkConfig) (value_or (outbounds cfg) []) = Ok marks;
  wf_iproute : iproute_ok cfg;
  wf_ports : firewall_backend_preference cfg = FirewallBackendPreference.iptables → Forall ports_ok (config_rules cfg);
  wf_dns : ∃ d, dns cfg = Some d ∧ dns_ok use_keenetic_api info cfg d;
}.

(** The documented rules that no check enforces *)
Definition known_proto (rule : RouteRule) : Prop :=
  proto rule = None ∨ proto rule ∈ [Some []; Some (str "tcp"); Some (str "udp"); Some (str "tcp/udp")].
Definition address_parses {IP : InetPton} (srv : DnsServer) : Prop :=
  server_type srv = DnsServerType.STATIC → is_ok (parse_dns_address_str (value_or (dns_address srv) [])) = true.
Record unchecked_rules {IP : InetPton} (cfg : Config) : Prop := {
  ur_tables : Forall (λ ob, type ob = OutboundType.TABLE → is_Some (table ob)) (value_or (outbounds cfg) []);
  ur_tags : NoDup (tag <$> value_or (outbounds cfg) []);
  ur_mask : ∃ k, 0 ≤ k ≤ 6 ∧ fwmark_mask_value (value_or (fwmark cfg) default_FwmarkConfig) = Ok (nibble_mask k 2);
  ur_protos : Forall known_proto (config_rules cfg);
  ur_addresses : Forall address_parses (value_or (dns cfg ≫= servers) []);
}.

(** A configuration as the documentation asks for it *)
Definition documented {SS : StdSort} {IP : InetPton} (use_keenetic_api : bool) (info : SystemInfo) (cfg : Config) : Prop :=
  well_formed use_keenetic_api info cfg ∧ unchecked_rules cfg.

(** ** Lemmas: a section has no issue exactly when its part is well formed *)

Lemma check_nil b path m : check b path m = [] ↔ b = false.
Proof. by destruct b. Qed.
Lemma report_nil path e : report path e = [] ↔ e = None.
Proof. by destruct e. Qed.
Lemma each_index_nil {A} (f : nat → A → list ConfigValidationIssue) (P : A → Prop) l :
  (∀ i x, f i x = [] ↔ P x) → each_index f l = [] ↔ Forall P l.
Proof.
  unfold each_index. revert f. induction l as [|x l IH]; intros f Hf; [by rewrite Forall_nil|].
  rewrite Forall_cons. cbn. rewrite app_nil, Hf. unfold each_index in IH. rewrite IH; [done|]. intros i y. apply Hf.
Qed.
Lemma each_index_elem {A} (f : nat → A → list ConfigValidationIssue) l x :
  each_index f l = [] → x ∈ l → ∃ i, f i x = [].
Proof.
  unfold each_index. revert f. induction l as [|y l IH]; intros f; [by intros _ ?%elem_of_nil|].
  cbn. intros [H1 H2]%app_nil [->|Hx]%elem_of_cons; [by exists 0%nat|]. destruct (IH (f ∘ S) H2 Hx) as [i Hi]. by exists (S i).
Qed.
Lemma bind_issues_nil {A} (f : A → list ConfigValidationIssue) (P : A → Prop) l :
  (∀ x, f x = [] ↔ P x) → l ≫= f = [] ↔ Forall P l.
Proof.
  intros Hf. induction l as [|x l IH]; [by rewrite Forall_nil|]. rewrite Forall_cons. cbn. rewrite app_nil, Hf. by rewrite IH.
Qed.
Lemma throw_issues_nil l : throw_issues l = Ok tt ↔ l = [].
Proof. destruct l; unfold throw_issues; [done|]. by rewrite bool_decide_eq_false_2. Qed.
Lemma nil_if (b : bool) (l : list ConfigValidationIssue) : (if b then l else []) = [] ↔ (b = true → l = []).
Proof. destruct b; naive_solver. Qed.

Lemma forall_Some {A} (P : A → Prop) x : (∀ y, Some x = Some y → P y) ↔ P x.
Proof. naive_solver. Qed.

Lemma valid_tag_syntax t : is_valid_tag t = true ↔ tag_syntax t.
Proof.
  unfold is_valid_tag, tag_syntax. destruct t as [|c rest]; cbn [bool_decide]; [cbn; split; [done|naive_solver]|].
  rewrite bool_decide_eq_false_2 by done. cbn [orb].
  destruct (Nat.ltb_spec MAX_TAG_LEN (length (c :: rest))) as [H|H]; unfold MAX_TAG_LEN, IPSET_MAX_NAME, IPSET_PREFIX_LEN in H.
  { split; [done|]. intros (? & ? & [= <- <-] & _ & _ & ?). lia. }
  destruct (islower c) eqn:Hc; cbn [negb]; [|split; [done|]; naive_solver].
  rewrite forallb_elem. split.
  - intros Hr. exists c, rest. split_and!; [done..| |lia]. apply Forall_forall. intros x Hx%Hr. breflect. tauto.
  - intros (? & ? & [= <- <-] & _ & Hr & _) x Hx. rewrite Forall_forall in Hr. apply Hr in Hx. breflect. tauto.
Qed.

Lemma validate_tag_nil path kind t : validate_tag path kind t = [] ↔ tag_syntax t.
Proof.
  rewrite <-valid_tag_syntax. unfold validate_tag. case_bool_decide as H; [by subst|].
  rewrite app_nil, !check_nil, negb_false_iff. split; [tauto|]. intros Hv. split; [|done].
  unfold is_valid_tag in Hv. by destruct (MAX_TAG_LEN <? length t)%nat; [rewrite orb_true_r in Hv|].
Qed.

Lemma is_http_url_spec u : is_http_url u = true ↔ http_url u.
Proof.
  unfold is_http_url, http_url. split.
  - destruct (find_str "://" u) as [i|] eqn:E; [|done]. apply find_str_Some in E.
    destruct (Nat.leb_spec (length u) (i + 3)) as [|H]; [done|]. intros Hs. breflect.
    exists (take i u), (drop (i + 3) u). split_and!; [done| |done].
    intros Hn%(f_equal length). rewrite length_drop in Hn. cbn in Hn. lia.
  - intros (scheme & rest & -> & Hne & Hs).
    assert (":"%char ∉ scheme) as Hc.
    { intros Hin. apply (list_elem_of_fmap_2 tolower) in Hin. change (tolower ":") with ":"%char in Hin.
      destruct Hs as [Hs|Hs]; rewrite Hs in Hin; apply (bool_decide_eq_true_2 _) in Hin; vm_compute in Hin; done. }
    change (str "://" ++ rest) with ((":"%char :: str "//") ++ rest). change (str "://") with (":"%char :: str "//").
    rewrite (find_str_app ":" "//" scheme rest Hc), !length_app. cbn [length str String.list_ascii_of_string].
    destruct (Nat.leb_spec (length scheme + (3 + length rest)) (length scheme + 3)) as [H|H].
    { destruct rest; [done|]. cbn in H. lia. }
    rewrite take_app_length. breflect. done.
Qed.

Lemma required_reference_nil known path owner r kind :
  validate_required_reference known path owner r kind = [] ↔ refers known r.
Proof.
  unfold validate_required_reference, refers. case_bool_decide; [naive_solver|].
  rewrite check_nil, negb_false_iff, bool_decide_eq_true. tauto.
Qed.
Lemma list_references_nil known path rs :
  validate_rule_list_references known path rs = [] ↔ Forall (refers known) rs.
Proof. apply each_index_nil. intros. apply required_reference_nil. Qed.

Lemma daemon_issues_nil cfg : daemon_issues cfg = [] ↔ ∀ d, daemon cfg = Some d → daemon_ok d.
Proof.
  unfold daemon_issues, daemon_ok. destruct (daemon cfg) as [d|]; [|naive_solver].
  rewrite !app_nil, !check_nil. split.
  - intros H ? [= <-]. destruct (firewall_verify_max_bytes d), (max_file_size_bytes_field d); cbn [value_or]; breflect; lia.
  - intros H. specialize (H d eq_refl).
    destruct (firewall_verify_max_bytes d), (max_file_size_bytes_field d); cbn [value_or] in H; breflect; split_and!; first [lia|done].
Qed.

Lemma timeout_issues_nil path v : timeout_issues path v = [] ↔ 1 ≤ v ≤ INT_MAX.
Proof. unfold timeout_issues. rewrite app_nil, !check_nil. breflect. lia. Qed.
Lemma api_issues_nil cfg : api_issues cfg = [] ↔ ∀ a, api cfg = Some a → api_ok a.
Proof.
  unfold api_issues, api_ok. destruct (api cfg) as [a|]; [|naive_solver].
  rewrite !app_nil, check_nil, !timeout_issues_nil, Z.ltb_ge. naive_solver.
Qed.

Lemma autoupdate_issues_nil cfg :
  autoupdate_issues cfg = Ok [] ↔ ∀ u, lists_autoupdate cfg = Some u → autoupdate_ok u.
Proof.
  unfold autoupdate_issues. destruct (lists_autoupdate cfg) as [u|]; [|naive_solver].
  rewrite forall_Some. unfold autoupdate_ok. cbn zeta. case_bool_decide as Hc.
  - rewrite andb_true_r. destruct (autoupdate_enabled u) as [[]|]; cbn; naive_solver.
  - rewrite andb_false_r. cbn [check app].
    destruct (cron_validate _) as [[]|[]|]; (split; [try done; by split|intros [_ H]; specialize (H Hc); by simplify_eq]).
Qed.

Lemma list_issues_nil n l : list_issues (n, l) = [] ↔ list_ok n l.
Proof.
  unfold list_issues, list_ok. rewrite !app_nil, validate_tag_nil, !check_nil.
  assert (∀ {A} (o : option (list A)), non_empty o = true ↔ ∃ x, x ∈ value_or o []) as Hn.
  { intros A [[|x xs]|]; cbn; set_solver. }
  assert (∀ {A} (o : option A), has_value o = true ↔ is_Some o) as Hh.
  { intros A [|]; cbn; split; [by eexists|done..|by intros [? ?]]. }
  assert (∀ a b c d : bool, negb a && negb b && negb c && negb d = false ↔
    a = true ∨ b = true ∨ c = true ∨ d = true) as Hb by (intros [] [] [] []; cbn; naive_solver).
  rewrite Hb, !Hh, !Hn. repeat (apply and_iff_compat_l).
  destruct (list_url l) as [u|]; [|naive_solver]. rewrite negb_false_iff, is_http_url_spec. naive_solver.
Qed.


Lemma iff_and {A B C D : Prop} : (A ↔ C) → (B ↔ D) → (A ∧ B ↔ C ∧ D).
Proof. tauto. Qed.

Lemma group_reference_nil obs t path r :
  group_reference_issues obs t path r = [] ↔ ∃ target, find_outbound obs r = Some target ∧
    (type target = OutboundType.INTERFACE ∨ type target = OutboundType.TABLE ∨ type target = OutboundType.BLACKHOLE).
Proof.
  unfold group_reference_issues. destruct (find_outbound obs r) as [target|]; [|split; [done|by intros (? & ? & _)]].
  rewrite check_nil. destruct (type target) eqn:E; cbn; split; intros H; try done;
    first [by (exists target; rewrite E; auto)|destruct H as (? & [= <-] & [H|[H|H]]); congruence].
Qed.
Lemma group_issues_nil obs t i g : group_issues obs t i g = [] ↔ group_ok obs g.
Proof.
  unfold group_issues, group_ok. rewrite app_nil, check_nil, bool_decide_eq_false.
  apply iff_and; [done|]. rewrite <-Forall_forall. apply bind_issues_nil. intros r. apply group_reference_nil.
Qed.

Section validated.
Context {SS : StdSort} {IP : InetPton}.
Context (use_keenetic_api : bool) (info : SystemInfo).

Lemma interface_issues_nil ob :
  interface_issues ob = [] ↔
  trim_copy (value_or (interface ob) []) ≠ [] ∧ (∀ g, gateway ob = Some g → is_inet AF_INET g = true) ∧
  (∀ g, gateway6 ob = Some g → is_inet AF_INET6 g = true).
Proof.
  unfold interface_issues, blank. rewrite !app_nil, !check_nil, bool_decide_eq_false.
  apply iff_and; [done|]. apply iff_and.
  - destruct (gateway ob); [rewrite negb_false_iff, forall_Some|]; naive_solver.
  - destruct (gateway6 ob); [rewrite negb_false_iff, forall_Some|]; naive_solver.
Qed.

Lemma urltest_issues_nil obs ob :
  urltest_issues obs ob = [] ↔ (∃ u, url ob = Some u ∧ http_url u) ∧
  ∃ groups, outbound_groups ob = Some groups ∧ groups ≠ [] ∧ Forall (group_ok obs) groups.
Proof.
  unfold urltest_issues. rewrite app_nil. apply iff_and.
  - destruct (url ob) as [[|c u]|]; [| |naive_solver].
    + split; [done|]. intros (? & [= <-] & (s & r & H & _)). by destruct s.
    + rewrite check_nil, negb_false_iff, is_http_url_spec. naive_solver.
  - destruct (outbound_groups ob) as [[|g gs]|]; [naive_solver| |naive_solver].
    rewrite (each_index_nil _ (group_ok obs)) by (intros; apply group_issues_nil). naive_solver.
Qed.

Lemma outbound_issues_nil obs ob : outbound_issues obs ob = [] ↔ outbound_ok obs ob.
Proof.
  unfold outbound_issues, outbound_ok. rewrite !app_nil, validate_tag_nil, !nil_if, !bool_decide_eq_true.
  by rewrite interface_issues_nil, urltest_issues_nil.
Qed.

Lemma route_rules_nil cfg :
  each_index (route_rule_issues (collect_list_names cfg) (collect_outbound_tags (value_or (outbounds cfg) []))) (config_rules cfg) = []
  ↔ Forall (rule_ok cfg) (config_rules cfg).
Proof.
  apply each_index_nil. intros i rule. unfold route_rule_issues, rule_ok.
  by rewrite app_nil, required_reference_nil, list_references_nil.
Qed.

Lemma config_error_nil {A} path (m : exc A) : config_error_issues path m = Ok ([], true) ↔ ∃ a, m = Ok a.
Proof. destruct m as [a|[]|]; cbn; naive_solver. Qed.
Lemma config_error_pair {A} path (m : exc A) r :
  config_error_issues path m = Ok r → r.1 = [] → r = ([], true).
Proof. destruct m as [a|[]|]; cbn; intros [= <-]; naive_solver. Qed.

Lemma fwmark_issues_nil cfg :
  fwmark_issues cfg = Ok [] ↔
  ∃ marks, allocate_outbound_marks (value_or (fwmark cfg) default_FwmarkConfig) (value_or (outbounds cfg) []) = Ok marks.
Proof.
  unfold fwmark_issues. set (c := value_or (fwmark cfg) _). set (obs := value_or (outbounds cfg) _). split.
  - intros (s & Hs & (m & Hm & (k & Hk & [= H])%exc_bind_Ok)%exc_bind_Ok)%exc_bind_Ok.
    apply app_nil in H as [H1 [H2 H3]%app_nil].
    pose proof (config_error_pair _ _ _ Hs H1) as ->. pose proof (config_error_pair _ _ _ Hm H2) as ->. cbn [snd andb] in Hk.
    pose proof (config_error_pair _ _ _ Hk H3) as ->. by apply config_error_nil in Hk.
  - intros [marks Ha]. pose proof Ha as Hall. unfold allocate_outbound_marks in Ha.
    apply exc_bind_Ok in Ha as (mask & Hm & (start & Hs & (v & Hv & _)%exc_bind_Ok)%exc_bind_Ok).
    rewrite Hs. cbn. rewrite Hm. cbn. rewrite Hv. cbn. by rewrite Hall.
Qed.

Lemma iproute_issues_nil cfg : iproute_issues cfg = [] ↔ iproute_ok cfg.
Proof.
  unfold iproute_issues, iproute_ok. cbn zeta. set (n := Z.of_nat _). assert (0 ≤ n) by (unfold n; lia). clearbody n.
  rewrite !app_nil, !check_nil, negb_false_iff. unfold rule_priority_start_value.
  assert (0 ≤ table_start_value cfg < 2 ^ 32) as Ht by (apply wrap_range; lia).
  assert (is_reserved_table (table_start_value cfg) = false → table_start_value cfg ≠ 0) as H0
    by (intros Hr E; rewrite E in Hr; done).
  assert (∀ s, n <= (UINT32_MAX - s) / 2 ↔ s + 2 * n ≤ UINT32_MAX) as Hd by (intros s; unfold UINT32_MAX; zlia).
  destruct (rule_priority_start _) as [p|]; cbn [priority_start_ok value_or].
  - rewrite forall_Some. destruct ((1 <=? p) && (p <=? UINT32_MAX)) eqn:E; cbn [andb]; breflect.
    + rewrite (wrap_small 32 p), Hd by (unfold UINT32_MAX in *; lia). assert (p ≠ 0) by lia. tauto.
    + assert (¬ (1 ≤ p ≤ UINT32_MAX)) by lia. split; [by intros (_ & ? & _)|tauto].
  - rewrite wrap_small by done. cbn [andb]. breflect. rewrite Hd. split; [by intros (? & _ & _ & ?)|].
    intros (? & _ & ?). auto.
Qed.

Lemma multiport_loop_nil i l : multiport_loop i l = Ok [] ↔ Forall ports_ok l.
Proof.
  revert i. induction l as [|rule l IH]; intros i; [by rewrite Forall_nil|]. rewrite Forall_cons, <-(IH (S i)).
  cbn [multiport_loop]. unfold route_rule_uses_unsupported_iptables_multiport_combo, ports_ok,
    route_rule_unsupported_iptables_multiport_path.
  destruct (classify_optional_port_spec (src_port rule)) as [src|e|]; [|split; [done|naive_solver]..].
  destruct (classify_optional_port_spec (dest_port rule)) as [dst|e|]; [|split; [done|naive_solver]..].
  cbn [mbind exc_bind mret exc_ret].
  assert (has_value src && has_value dst && (is_list_kind src || is_list_kind dst) = false ↔
    (src = Some PortSpecKind.List → dst = None) ∧ (dst = Some PortSpecKind.List → src = None)) as Hb.
  { destruct src as [[]|], dst as [[]|]; cbn; naive_solver. }
  destruct (_ && _ && _).
  - cbn. destruct (multiport_loop (S i) l); cbn; (split; [done|intros [(? & ? & [= <-] & [= <-] & H) _]; by apply Hb in H]).
  - destruct (multiport_loop (S i) l) as [r|e|]; cbn; [|split; [done|by intros [_ ?]]..].
    split; [intros [= ->]; split; [|done]; exists src, dst; split_and!; [done..|tauto|tauto]|by intros [_ ?]].
Qed.

Lemma multiport_issues_nil cfg :
  multiport_issues cfg = Ok [] ↔
  (firewall_backend_preference cfg = FirewallBackendPreference.iptables → Forall ports_ok (config_rules cfg)).
Proof.
  unfold multiport_issues. case_bool_decide; [rewrite multiport_loop_nil|]; naive_solver.
Qed.

Lemma server_issues_nil obs srv :
  validate_tag ("dns.servers." ++ dns_tag srv ++ ".tag") "DNS server tag" (dns_tag srv) = [] ∧
  server_type_issues use_keenetic_api info srv = [] ∧ detour_issues obs srv = [] ↔
  server_ok use_keenetic_api info obs srv.
Proof.
  unfold server_ok. rewrite validate_tag_nil. apply iff_and; [done|]. apply iff_and.
  - unfold server_type_issues. cbn zeta. assert (∀ b : bool, b = false ↔ ¬ b = true) as Hb by by intros [].
    destruct (server_type srv).
    + rewrite !app_nil, !check_nil, negb_false_iff. apply iff_and; [done|].
      rewrite (and_comm (value_or _ _ = [])). apply iff_and; [|by destruct (dns_address srv) as [[]|]].
      rewrite !andb_false_iff, bool_decide_eq_false, !negb_false_iff, bool_decide_eq_true.
      destruct (decide (os_type info = "keenetic")), (decide (os_version info = [])); tauto.
    + rewrite check_nil, negb_false_iff. by destruct (dns_address srv) as [[]|].
  - unfold detour_issues. cbn zeta. destruct (dns_detour srv) as [t|]; [|naive_solver]. rewrite forall_Some.
    destruct (find_outbound obs t) as [ob|]; [|split; [done|by intros (? & ? & _)]].
    rewrite check_nil, orb_false_iff, !bool_decide_eq_false. split; [by eauto|]. by intros (? & [= <-] & ?).
Qed.

Lemma server_loop_nil obs tags ids l :
  server_loop use_keenetic_api info obs tags ids l = [] ↔
  Forall (server_ok use_keenetic_api info obs) l ∧
  (NoDup (dns_tag <$> l) ∧ ∀ srv, srv ∈ l → dns_tag srv ∉ tags) ∧
  (NoDup (server_identity <$> l) ∧ ∀ srv, srv ∈ l → server_identity srv ∉ ids).
Proof.
  revert tags ids. induction l as [|srv l IH]; intros tags ids.
  { cbn. rewrite Forall_nil. split; [|done]. intros _. split_and!; try (by constructor); intros ? []%elem_of_nil. }
  cbn [server_loop]. rewrite !app_nil, !check_nil, !bool_decide_eq_false, IH, Forall_cons, !fmap_cons, !NoDup_cons,
    <-(server_issues_nil obs srv), !list_elem_of_fmap.
  setoid_rewrite elem_of_cons. setoid_rewrite not_elem_of_union. setoid_rewrite not_elem_of_singleton.
  split.
  - intros (H1 & H2 & H3 & H4 & H5 & H6 & [H7 H8] & H9 & H10). split_and!; try done.
    + intros (srv' & E & Hin). by destruct (H8 srv' Hin) as [[] _].
    + intros srv' [->|Hin]; [done|]. by apply H8.
    + intros (srv' & E & Hin). by destruct (H10 srv' Hin) as [[] _].
    + intros srv' [->|Hin]; [done|]. by apply H10.
  - intros ((H1 & H2) & ((H3 & H4) & H5) & (H6 & H7) & H8). split_and!; try naive_solver.
Qed.

Lemma fallback_loop_nil known i seen l :
  fallback_loop known i seen l = [] ↔
  (NoDup l ∧ ∀ t, t ∈ l → t ≠ [] ∧ t ∈ known) ∧ ∀ t, t ∈ l → t ∉ seen.
Proof.
  revert i seen. induction l as [|t l IH]; intros i seen.
  { cbn. split; [|done]. intros _. split_and!; [constructor|..]; intros ? []%elem_of_nil. }
  cbn [fallback_loop]. case_bool_decide as Ht.
  { split; [done|]. intros [[_ H] _]. destruct (H t); [left|done]. }
  rewrite !app_nil, !check_nil, bool_decide_eq_false, negb_false_iff, bool_decide_eq_true, IH, NoDup_cons.
  setoid_rewrite elem_of_cons. setoid_rewrite not_elem_of_union. setoid_rewrite not_elem_of_singleton. split.
  - intros (H1 & H2 & [H3 H4] & H5). split_and!; try done.
    + intros Hin. by destruct (H5 t Hin) as [[] _].
    + intros t' [->|Hin]; [done|]. by apply H4.
    + intros t' [->|Hin]; [done|]. by apply H5.
  - intros [[[H1 H2] H3] H4]. split_and!; [naive_solver..|]. intros t' Hin. split; [congruence|naive_solver].
Qed.

Lemma dns_rule_issues_nil tags names i rule :
  dns_rule_issues tags names i rule = [] ↔
  refers tags (dns_rule_server rule) ∧ dns_rule_list rule ≠ [] ∧ Forall (refers names) (dns_rule_list rule).
Proof.
  unfold dns_rule_issues. rewrite app_nil, required_reference_nil. apply iff_and; [done|].
  case_bool_decide; [naive_solver|]. rewrite list_references_nil. naive_solver.
Qed.

Lemma test_server_issues_nil d :
  test_server_issues d = Ok [] ↔ ∀ t, dns_test_server d = Some t →
    is_ok (parse_dns_probe_server_settings (test_listen t) (answer_ipv4 t)) = true.
Proof.
  unfold test_server_issues. destruct (dns_test_server d) as [t|]; [|naive_solver]. rewrite forall_Some.
  destruct (parse_dns_probe_server_settings _ _) as [|e|]; cbn; [done| |done]. by destruct (what e).
Qed.

Lemma dns_section_issues_nil cfg :
  dns_section_issues use_keenetic_api info cfg = Ok [] ↔ ∃ d, dns cfg = Some d ∧ dns_ok use_keenetic_api info cfg d.
Proof.
  unfold dns_section_issues. destruct (dns cfg) as [d|]; [|split; [done|by intros (? & ? & _)]].
  assert (∀ P, (∃ d', Some d = Some d' ∧ P d') ↔ P d) as -> by naive_solver.
  set (T := test_server_issues d). assert (∀ a b c e g, (T ≫= λ test, Ok (a ++ b ++ c ++ e ++ g ++ test)) = Ok [] ↔
    a ++ b ++ c ++ e ++ g = [] ∧ T = Ok []) as HT.
  { intros a b c e g. destruct T as [r|?|]; cbn; [|naive_solver..]. rewrite !app_nil.
    split; [intros [= H]; rewrite !app_nil in H; naive_solver|]. by intros [(-> & -> & -> & -> & ->) [= ->]]. }
  cbn zeta. unfold mret, exc_ret. rewrite HT. unfold T. rewrite test_server_issues_nil, !app_nil, check_nil, Nat.ltb_ge.
  rewrite server_loop_nil.
  assert (match fallback d with Some f => fallback_loop (list_to_set (dns_tag <$> value_or (servers d) [])) 0 ∅ f | None => [] end = [] ↔
    NoDup (value_or (fallback d) []) ∧ ∀ t, t ∈ value_or (fallback d) [] → t ≠ [] ∧ t ∈ dns_tag <$> value_or (servers d) []) as ->.
  { destruct (fallback d) as [f|]; cbn [value_or].
    - rewrite fallback_loop_nil. setoid_rewrite elem_of_list_to_set. set_solver.
    - split; [|done]. intros _. split; [constructor|]. intros ? []%elem_of_nil. }
  assert (match system_resolver d with Some r => check (bool_decide (resolver_address r = [])) "dns.system_resolver.address"
            "dns.system_resolver.address must not be empty" | None => [no_system_resolver] end = [] ↔
    ∃ r, system_resolver d = Some r ∧ resolver_address r ≠ []) as ->.
  { destruct (system_resolver d) as [r|]; [|naive_solver]. rewrite check_nil, bool_decide_eq_false. naive_solver. }
  rewrite (each_index_nil _ (λ rule, refers (list_to_set (dns_tag <$> value_or (servers d) [])) (dns_rule_server rule) ∧
    dns_rule_list rule ≠ [] ∧ Forall (refers (dom (config_lists cfg))) (dns_rule_list rule)))
    by (intros; apply dns_rule_issues_nil).
  split.
  - intros [((H1 & [H2 _] & [H3 _]) & H4 & H5 & H6 & H7) H8]. constructor; try done. by apply Forall_forall.
  - intros [H1 H2 H3 H4 H5 H6 H7 H8]. split_and!; first [done|apply H5|by apply Forall_forall|by intros ? _ ?%elem_of_empty].
Qed.

(** *** What an accepted document promises the firewall *)

(** A rule written without blanks inside its selectors and references, for a
    protocol the firewall knows. *)
Definition plain_rule (rule : RouteRule) : Prop :=
  (∀ f, f ∈ [src_port; dest_port; src_addr; dest_addr] → no_space (value_or (f rule) []) = true) ∧
  no_space (rule_outbound rule) = true ∧
  (proto rule = None ∨ proto rule ∈ [Some []; Some (str "tcp"); Some (str "udp"); Some (str "tcp/udp")]).

(** A document whose rule passes the check gives a rule whose selectors pass it. *)
Definition selectors_valid (rule : RouteRule) : Prop :=
  validate_port_spec (src_port rule) = None ∧ validate_port_spec (dest_port rule) = None ∧
  validate_address_spec (src_addr rule) = None ∧ validate_address_spec (dest_addr rule) = None.

Context {NL : Nlohmann}.

Lemma optional_string_agrees j k o : get_stack_optional cstring j k = Ok o → get_optional_string_field j k = o.
Proof.
  unfold get_stack_optional, get_optional_string_field. destruct (jfind k j) as [[]|]; cbn; try done; by intros [= <-].
Qed.

Lemma rule_spec_decoded i j rule :
  validate_route_rule_spec i j = [] → route_rule_from_json j = Ok rule → selectors_valid rule.
Proof.
  intros Hv Hd. unfold route_rule_from_json in Hd. repeat (apply exc_bind_Ok in Hd as (? & ? & Hd)).
  injection Hd as <-. unfold selectors_valid. cbn [src_port dest_port src_addr dest_addr].
  repeat match goal with H : get_stack_optional cstring _ _ = Ok _ |- _ => apply optional_string_agrees in H; subst end.
  destruct j; try done. unfold validate_route_rule_spec in Hv. rewrite !app_nil in Hv. destruct Hv as (_ & _ & Hp1 & Hp2 & Ha1 & Ha2).
  rewrite !report_nil in *. done.
Qed.

Lemma read_all_Ok {A} (read : json → exc A) l xs :
  read_all read l = Ok xs → Forall2 (λ j x, read j = Ok x) l xs.
Proof.
  revert xs. induction l as [|j l IH]; intros xs; cbn; [intros [= <-]; constructor|].
  intros (x & Hx & (ys & Hys & [= <-])%exc_bind_Ok)%exc_bind_Ok. constructor; auto.
Qed.

Lemma document_rules_decoded root cfg :
  document_issues root = [] → config_from_json root = Ok cfg → Forall selectors_valid (config_rules cfg).
Proof.
  intros Hi Hd. unfold document_issues in Hi. rewrite !app_nil in Hi. destruct Hi as (_ & _ & _ & _ & _ & _ & _ & Hr & _).
  unfold config_from_json in Hd. repeat (apply exc_bind_Ok in Hd as (? & ? & Hd)). injection Hd as <-.
  unfold config_rules. cbn [route]. match goal with H : get_stack_optional RouteConfig _ _ = Ok ?o |- _ => rename H into Hc; rename o into oc end.
  unfold get_stack_optional in Hc. unfold validate_route_rule_specs in Hr.
  destruct (jfind "route" root) as [jr|]; [|injection Hc as <-; constructor].
  assert (oc = None ∨ ∃ c, oc = Some c ∧ route_from_json jr = Ok c) as [->|(c & -> & Hc')].
  { destruct jr; first [injection Hc as <-; by left|apply exc_bind_Ok in Hc as (? & ? & [= <-]); right; by eexists]. }
  { constructor. }
  clear Hc. cbn [value_or]. unfold route_from_json in Hc'. repeat (apply exc_bind_Ok in Hc' as (? & ? & Hc')). injection Hc' as <-.
  cbn [rules]. match goal with H : get_stack_optional (list RouteRule) _ _ = Ok ?o |- _ => rename H into Hl; rename o into ol end.
  unfold get_stack_optional in Hl. destruct jr as [| | | | | |members]; try (injection Hl as <-; constructor). cbn [jfind] in Hl.
  destruct (assoc "rules" members) as [[| | | | |js|]|]; try (injection Hl as <-; constructor); try done.
  apply exc_bind_Ok in Hl as (rs & Hl & [= <-]). cbn [value_or]. apply read_all_Ok in Hl.
  apply Forall_forall. intros rule [k Hk]%list_elem_of_lookup_1.
  destruct (Forall2_lookup_r _ _ _ _ _ Hl Hk) as (j & Hj & Hrule).
  destruct (each_index_elem _ _ j Hr) as [i Hi]; [by eapply list_elem_of_lookup_2|].
  by eapply rule_spec_decoded.
Qed.

Lemma parse_addr_tokens_throws tokens acc e :
  parse_addr_tokens tokens acc = Throw e → ∃ w, e = invalid_argument w.
Proof.
  revert acc. induction tokens as [|t tokens IH]; intros acc; cbn [parse_addr_tokens]; [done|].
  case_bool_decide; [apply IH|]. destruct (validate_cidr _) as [[]|e'|] eqn:Hv; cbn; [apply IH| |done].
  intros [= <-]. revert Hv. unfold validate_cidr. repeat case_match; intros; simplify_eq; eauto.
Qed.
Lemma parse_addr_tokens_defined tokens acc : parse_addr_tokens tokens acc ≠ Undefined.
Proof.
  revert acc. induction tokens as [|t tokens IH]; intros acc; cbn [parse_addr_tokens]; [done|].
  case_bool_decide; [apply IH|]. pose proof (validate_cidr_throws (trim_by is_blank t)).
  destruct (validate_cidr _); cbn; [apply IH|done|done].
Qed.

Lemma valid_ports_parse o : no_space (value_or o []) = true → validate_port_spec o = None →
  ∃ ps, parse_port_spec (strip_neg (value_or o [])).1 = Ok ps.
Proof.
  destruct o as [[|c s]|]; cbn [value_or]; [by eexists| |by eexists]. intros Hn Hv. by apply validate_port_spec_parses.
Qed.
Lemma valid_addresses_parse o : no_space (value_or o []) = true → validate_address_spec o = None →
  ∃ a, parse_addr_spec (value_or o []) = Ok a.
Proof.
  destruct o as [[|c s]|]; cbn [value_or]; [by eexists| |by eexists]. intros Hn. unfold validate_address_spec.
  rewrite no_space_trim by done. rewrite bool_decide_eq_false_2 by done. destruct (bad_commas _); [done|].
  unfold parse_addr_spec. destruct (strip_neg (c :: s)) as [body neg].
  destruct (parse_addr_tokens _ []) as [l|e|] eqn:E; cbn.
  - by eexists.
  - by apply parse_addr_tokens_throws in E as [w ->].
  - by apply parse_addr_tokens_defined in E.
Qed.

Lemma plain_rule_criteria rule :
  plain_rule rule → selectors_valid rule → ∃ c, build_firewall_rule_criteria rule = Ok c.
Proof.
  intros (Hs & _ & Hp) (H1 & H2 & H3 & H4). unfold build_firewall_rule_criteria.
  assert (∃ l4, parse_rule_proto (proto rule) = Ok l4) as [l4 ->].
  { destruct Hp as [->|Hp]; [by eexists|]. rewrite !elem_of_cons, elem_of_nil in Hp.
    destruct Hp as [->|[->|[->|[->|[]]]]]; by eexists. }
  destruct (valid_ports_parse (src_port rule)) as [ps Hps]; [by apply Hs; left|done|].
  destruct (valid_ports_parse (dest_port rule)) as [pd Hpd]; [by apply Hs; right; left|done|].
  destruct (valid_addresses_parse (src_addr rule)) as [sa ->]; [by apply Hs; do 2 right; left|done|].
  destruct (valid_addresses_parse (dest_addr rule)) as [da ->]; [by apply Hs; do 3 right; left|done|].
  cbn [mbind exc_bind]. destruct (strip_neg (value_or (src_port rule) [])). cbn [fst] in Hps. rewrite Hps. cbn [mbind exc_bind].
  destruct (strip_neg (value_or (dest_port rule) [])). cbn [fst] in Hpd. rewrite Hpd. by eexists.
Qed.

Lemma elem_find_outbound obs t : t ∈ tag <$> obs → ∃ ob, find_outbound obs t = Some ob.
Proof.
  induction obs as [|o obs IH]; cbn; [by intros ?%elem_of_nil|]. case_bool_decide; [by eexists|].
  intros [->|?]%elem_of_cons; [done|auto].
Qed.

Lemma validate_config_wf cfg :
  validate_config use_keenetic_api info cfg = Ok tt ↔ well_formed use_keenetic_api info cfg.
Proof.
  assert (in_key_order (config_lists cfg) ≫= list_issues = [] ↔ map_Forall list_ok (config_lists cfg)) as Hl.
  { rewrite (bind_issues_nil _ (λ e, list_ok e.1 e.2)) by (intros []; apply list_issues_nil).
    rewrite Forall_forall. split.
    - intros H k x Hk. by apply (H (k, x)), in_key_order_elem.
    - intros H [k x] Hk%in_key_order_elem. by apply H. }
  set (obs := value_or (outbounds cfg) []).
  assert (obs ≫= outbound_issues obs = [] ↔ Forall (outbound_ok obs) obs) as Ho
    by (apply bind_issues_nil; apply outbound_issues_nil).
  split.
  - unfold validate_config. intros (a & Ha & (m & Hm & (p & Hp & (d & Hd & H)%exc_bind_Ok)%exc_bind_Ok)%exc_bind_Ok)%exc_bind_Ok.
    rewrite throw_issues_nil, !app_nil in H. destruct H as (H1 & H2 & -> & H4 & H5 & H6 & -> & H8 & -> & ->).
    constructor; [by apply daemon_issues_nil|by apply api_issues_nil|by apply autoupdate_issues_nil|by apply Hl|by apply Ho|
      by apply route_rules_nil|by apply fwmark_issues_nil|by apply iproute_issues_nil|by apply multiport_issues_nil|
      by apply dns_section_issues_nil].
  - intros [H1 H2 H3 H4 H5 H6 H7 H8 H9 H10]. unfold validate_config.
    rewrite (proj2 (autoupdate_issues_nil cfg) H3), (proj2 (fwmark_issues_nil cfg) H7),
      (proj2 (multiport_issues_nil cfg) H9), (proj2 (dns_section_issues_nil cfg) H10). cbn [mbind exc_bind].
    rewrite throw_issues_nil, (proj2 (daemon_issues_nil cfg) H1), (proj2 (api_issues_nil cfg) H2), (proj2 Hl H4),
      (proj2 (iproute_issues_nil cfg) H8), (proj2 (route_rules_nil cfg) H6).
    fold obs. by rewrite (proj2 Ho H5).
Qed.

Section registry.
Context (keenetic_addresses : exc (list cstring)).

(** The addresses of a server, when they can be parsed: validation does not look at them. *)
Definition addresses_parse (srv : DnsServer) : Prop :=
  ∃ l, match server_type srv with
       | DnsServerType.KEENETIC => keenetic_addresses = Ok l
       | DnsServerType.STATIC => l = [value_or (dns_address srv) []]
       end ∧ l ≠ [] ∧ Forall (λ a, ∃ p, parse_dns_address_str a = Ok p) l.

Lemma push_addresses_total srv l m : l ≠ [] → Forall (λ a, ∃ p, parse_dns_address_str a = Ok p) l →
  ∃ m', push_addresses srv l m = Ok m' ∧ dom m' = {[dns_tag srv]} ∪ dom m.
Proof.
  intros Hne Hl. revert m Hne. induction Hl as [|a l [p Hp] _ IH]; intros m Hne; [done|]. cbn [push_addresses].
  unfold parse_dns_server. rewrite Hp. cbn [mbind exc_bind mret exc_ret]. unfold push_server.
  destruct l as [|b l]; [eexists; split; [done|]; set_solver|].
  destruct (IH (<[dns_tag srv := value_or (m !! dns_tag srv) [] ++
    [mk_DnsServerConfig (dns_tag srv) a (dns_detour srv) (dns_ip p) (dns_port p)]]> m)) as (m' & Hm & Hd); [done|].
  exists m'. split; [done|]. set_solver.
Qed.

Lemma register_servers_total api inf obs l m :
  Forall (server_ok api inf obs) l → Forall addresses_parse l →
  ∃ m', register_servers keenetic_addresses l m = Ok m' ∧ dom m' = list_to_set (dns_tag <$> l) ∪ dom m.
Proof.
  intros Hok Hl. revert m. induction Hl as [|srv l (as_ & Ha & Hne & Hp) _ IH]; intros m.
  { exists m. split; [done|]. set_solver. }
  apply Forall_cons in Hok as [(_ & Hs & _) Hok]. destruct (push_addresses_total srv as_ m Hne Hp) as (m1 & Hm1 & Hd1).
  destruct (IH Hok m1) as (m' & Hm' & Hd). exists m'.
  assert (list_to_set (dns_tag <$> srv :: l) ∪ dom m = list_to_set (dns_tag <$> l) ∪ ({[dns_tag srv]} ∪ dom m)) as Hd'
    by (rewrite fmap_cons, list_to_set_cons; clear; set_solver). cbn [register_servers]. unfold server_type in *.
  destruct (value_or (dns_type srv) _).
  - rewrite Ha. cbn [mbind exc_bind]. rewrite Hm1. cbn [mbind exc_bind]. rewrite <-Ha. rewrite Hm'. split; [done|]. by rewrite Hd, Hd', Hd1.
  - destruct (dns_address srv) as [a|]; [|done]. cbn [value_or] in Ha. subst as_. rewrite Hm1. cbn [mbind exc_bind]. rewrite Hm'.
    split; [done|]. by rewrite Hd, Hd', Hd1.
Qed.

Lemma check_tags_total (m : gmap cstring (list DnsServerConfig)) e tags :
  (∀ t, t ∈ tags → t ∈ dom m) → check_tags m e tags = Ok tt.
Proof.
  induction tags as [|t tags IH]; intros H; [done|]. cbn. rewrite bool_decide_eq_true_2; [apply IH; set_solver|].
  apply elem_of_dom, H. left.
Qed.

Lemma valid_dns_registry api inf cfg d :
  dns_ok api inf cfg d → Forall addresses_parse (value_or (servers d) []) →
  (∀ rule, rule ∈ value_or (dns_rules d) [] → no_space (dns_rule_server rule) = true) →
  ∃ r, make_DnsServerRegistry keenetic_addresses d = Ok r.
Proof.
  intros [H1 _ _ _ [_ H5] _ H7 _] Ha Hp. unfold make_DnsServerRegistry.
  destruct (register_servers_total _ _ _ _ ∅ H1 Ha) as (m & -> & Hd). cbn [mbind exc_bind].
  rewrite (check_tags_total m _ (value_or (fallback d) []))
    by (intros t Ht; rewrite Hd; apply H5 in Ht as [_ Ht]; apply elem_of_union_l, elem_of_list_to_set, Ht).
  cbn [mbind exc_bind]. rewrite check_tags_total; [by eexists|].
  intros t (rule & -> & [Hr _]%list_elem_of_In%filter_In)%list_elem_of_fmap. apply list_elem_of_In in Hr.
  pose proof (Hp rule Hr) as Hn. apply H7 in Hr as ([_ Hr] & _). rewrite (no_space_trim _ Hn) in Hr. rewrite Hd. by apply elem_of_union_l.
Qed.
End registry.


(** C25.  A document that [parse_and_validate_config] accepts can be run: marks
    can be allocated for all its outbounds; every rule written without blanks
    and for a known protocol names an existing outbound and existing lists and
    has selectors the firewall can parse; and the registry of DNS servers can be
    built once the servers' addresses parse. *)
Theorem accepted_document_can_run json_parse text cfg :
  parse_and_validate_config use_keenetic_api info json_parse text = Ok cfg →
  let obs := value_or (outbounds cfg) [] in
  (∃ marks, allocate_outbound_marks (value_or (fwmark cfg) default_FwmarkConfig) obs = Ok marks ∧
     ∀ ob, ob ∈ obs → is_routable (type ob) = true → is_Some (marks !! tag ob)) ∧
  (∀ rule, rule ∈ config_rules cfg → plain_rule rule →
    (∃ ob, rd_outbound (resolve_route_action (rule_outbound rule) obs) = Some ob ∧ tag ob = rule_outbound rule) ∧
    (∃ c, build_firewall_rule_criteria rule = Ok c) ∧
    (∀ l, l ∈ route_rule_lists rule → no_space l = true → is_Some (config_lists cfg !! l))) ∧
  (∃ d, dns cfg = Some d ∧ ∀ keenetic_addresses,
    Forall (addresses_parse keenetic_addresses) (value_or (servers d) []) →
    (∀ rule, rule ∈ value_or (dns_rules d) [] → no_space (dns_rule_server rule) = true) →
    ∃ r, make_DnsServerRegistry keenetic_addresses d = Ok r).
Proof.
  intros (cfg' & Hp & ([] & Hv & [= ->])%exc_bind_Ok)%exc_bind_Ok. cbn zeta. apply validate_config_wf in Hv.
  assert (Forall selectors_valid (config_rules cfg)) as Hsel.
  { unfold parse_config in Hp. destruct (json_parse text) as [root|[]|]; try done.
    apply exc_bind_Ok in Hp as ([] & Hi%throw_issues_nil & Hp).
    destruct (config_from_json root) as [c|e|] eqn:Hc; [|by destruct (what e)|done]. injection Hp as ->.
    by eapply document_rules_decoded. }
  split_and!.
  - destruct (wf_marks _ _ _ Hv) as [marks Hm]. exists marks. split; [done|]. intros ob Hob Hr. pose proof Hm as Hm'.
    unfold allocate_outbound_marks in Hm. apply exc_bind_Ok in Hm as (mask & Hmask & (start & _ & (u & Hval & _)%exc_bind_Ok)%exc_bind_Ok).
    destruct u. eapply allocate_outbound_marks_Ok in Hm' as [H _]; [by apply H|]. by apply fwmark_mask_value_Ok.
  - intros rule Hin Hplain. pose proof (wf_rules _ _ _ Hv) as Hr. rewrite Forall_forall in Hr, Hsel.
    destruct (Hr rule Hin) as [[_ Ho] Hl]. pose proof Hplain as (_ & Hns & _).
    rewrite (no_space_trim _ Hns) in Ho. split_and!.
    + apply elem_of_list_to_set, elem_find_outbound in Ho as [ob Hob]. exists ob. unfold resolve_route_action. rewrite Hob.
      split; [by case_bool_decide|]. by apply find_outbound_Some in Hob as [_ ?].
    + by apply plain_rule_criteria, Hsel.
    + intros l Hl' Hn. rewrite Forall_forall in Hl. destruct (Hl l Hl') as [_ H]. rewrite (no_space_trim _ Hn) in H.
      by apply elem_of_dom.
  - destruct (wf_dns _ _ _ Hv) as (d & Hd & Hok). exists d. split; [done|]. intros ka. by eapply valid_dns_registry.
Qed.
End validated.

(** *** Witnesses and concrete documents *)

#[local] Existing Instance insertion_StdSort.
#[local] Existing Instance w_inet.
#[local] Existing Instance w_nlohmann.

Definition w_info : SystemInfo := mk_SystemInfo "linux" "unknown" "unknown".
Definition jstr (s : string) : json := JStr s.

(** A document with one interface, one list, one DNS server and one rule, of which some members vary. *)
Definition w_document (backend server_address : cstring) (rule : list (cstring * json)) : json :=
  JObj [(str "daemon", JObj [(str "firewall_backend", JStr backend)]);
        (str "dns", JObj [(str "servers", JArr [JObj [(str "address", JStr server_address); (str "tag", jstr "main")]]);
                          (str "system_resolver", JObj [(str "address", jstr "127.0.0.1")])]);
        (str "lists", JObj [(str "sites", JObj [(str "domains", JArr [jstr "example.org"])])]);
        (str "outbounds", JArr [JObj [(str "interface", jstr "wg0"); (str "tag", jstr "vpn"); (str "type", jstr "interface")]]);
        (str "route", JObj [(str "rules", JArr [JObj rule])])].
Definition w_validate (root : json) : exc Config :=
  parse_and_validate_config false w_info (λ _, Ok root) [].
Definition w_plain_document : json :=
  w_document "auto" "192.168.1.1" [(str "dest_port", jstr "!80,443"); (str "list", JArr [jstr "sites"]); (str "outbound", jstr "vpn"); (str "proto", jstr "tcp")].
Definition w_plain_config : Config := from_exc default_Config (w_validate w_plain_document).

Lemma accepted_document_can_run_witness :
  let cfg := w_plain_config in
  let obs := value_or (outbounds cfg) [] in
  (∃ marks, allocate_outbound_marks (value_or (fwmark cfg) default_FwmarkConfig) obs = Ok marks ∧
     ∀ ob, ob ∈ obs → is_routable (type ob) = true → is_Some (marks !! tag ob)) ∧
  (∀ rule, rule ∈ config_rules cfg → plain_rule rule →
    (∃ ob, rd_outbound (resolve_route_action (rule_outbound rule) obs) = Some ob ∧ tag ob = rule_outbound rule) ∧
    (∃ c, build_firewall_rule_criteria rule = Ok c) ∧
    (∀ l, l ∈ route_rule_lists rule → no_space l = true → is_Some (config_lists cfg !! l))) ∧
  (∃ d, dns cfg = Some d ∧ ∀ keenetic_addresses,
    Forall (addresses_parse keenetic_addresses) (value_or (servers d) []) →
    (∀ rule, rule ∈ value_or (dns_rules d) [] → no_space (dns_rule_server rule) = true) →
    ∃ r, make_DnsServerRegistry keenetic_addresses d = Ok r).
Proof. apply (accepted_document_can_run false w_info (λ _, Ok w_plain_document) []). apply from_exc_Ok. vm_compute. reflexivity. Defined.

(** The document of the example is as the documentation asks for it. *)
Lemma plain_config_is_documented : documented false w_info w_plain_config.
Proof.
  split.
  - apply (validate_config_wf false w_info). vm_compute. reflexivity.
  - assert (Ha : forallb (λ srv, is_ok (parse_dns_address_str (value_or (dns_address srv) [])))
      (value_or (dns w_plain_config ≫= servers) []) = true) by (vm_compute; reflexivity).
    split; [| |exists 4; split; [lia|vm_compute; reflexivity]| |].
    4: { rewrite forallb_elem in Ha. apply Forall_forall. intros srv Hs _. by apply Ha. }
    all: unfold known_proto; apply (bool_decide_unpack _); vm_compute; exact I.
Qed.

(** A table outbound without a table, two outbounds of one tag, and a mask of
    three nibbles pass; the documentation excludes each of them. *)
Definition w_outbounds (obs : list json) (mask : cstring) : json :=
  JObj [(str "dns", JObj [(str "system_resolver", JObj [(str "address", jstr "127.0.0.1")])]);
        (str "fwmark", JObj [(str "mask", JStr mask)]); (str "outbounds", JArr obs)].
Definition w_table_json (t : string) (number : list (cstring * json)) : json :=
  JObj (number ++ [(str "tag", jstr t); (str "type", jstr "table")]).

Theorem undocumented_outbounds_accepted :
  let number := [(str "table", JInt 200)] in
  let no_table := w_validate (w_outbounds [w_table_json "t" []] "0x00FF0000") in
  let same_tag := w_validate (w_outbounds [w_table_json "t" number; w_table_json "t" number] "0x00FF0000") in
  let wide_mask := w_validate (w_outbounds [w_table_json "t" number] "0x0FFF0000") in
  (is_ok no_table = true ∧ table <$> value_or (outbounds (from_exc default_Config no_table)) [] = [None]) ∧
  (is_ok same_tag = true ∧ tag <$> value_or (outbounds (from_exc default_Config same_tag)) [] = [str "t"; str "t"]) ∧
  (is_ok wide_mask = true ∧
   fwmark_mask_value (value_or (fwmark (from_exc default_Config wide_mask)) default_FwmarkConfig) = Ok (nibble_mask 4 3)).
Proof. split_and!; vm_compute; reflexivity. Qed.

(** References are compared without the blanks around them, and used with them:
    the rule is accepted and never finds its outbound. *)
Theorem padded_reference_never_resolves :
  let cfg := from_exc default_Config (w_validate (w_document "auto" "192.168.1.1"
    [(str "list", JArr [jstr "sites"]); (str "outbound", jstr " vpn")])) in
  is_ok (w_validate (w_document "auto" "192.168.1.1" [(str "list", JArr [jstr "sites"]); (str "outbound", jstr " vpn")])) = true ∧
  (λ rule, rd_outbound (resolve_route_action (rule_outbound rule) (value_or (outbounds cfg) []))) <$> config_rules cfg = [None].
Proof. split; vm_compute; reflexivity. Qed.

(** No check looks at a rule's protocol, the address of a static DNS server is
    only checked to be there, and a DSCP value is compared after its truncation
    to 32 bits. *)
Theorem unchecked_members :
  let icmp := w_validate (w_document "auto" "192.168.1.1" [(str "dest_port", jstr "80"); (str "outbound", jstr "vpn"); (str "proto", jstr "icmp")]) in
  let address := w_validate (w_document "auto" "no address" [(str "dest_port", jstr "80"); (str "outbound", jstr "vpn")]) in
  let dscp_value := w_validate (w_document "auto" "192.168.1.1" [(str "dscp", JInt 4294967297); (str "outbound", jstr "vpn")]) in
  (is_ok icmp = true ∧
   (λ rule, is_ok (build_firewall_rule_criteria rule)) <$> config_rules (from_exc default_Config icmp) = [false]) ∧
  (is_ok address = true ∧
   (λ d, is_ok (make_DnsServerRegistry (Ok []) d)) <$> dns (from_exc default_Config address) = Some false) ∧
  (is_ok dscp_value = true ∧ dscp <$> config_rules (from_exc default_Config dscp_value) = [Some 4294967297]).
Proof. split_and!; vm_compute; reflexivity. Qed.

(** With the iptables backend a padded port list makes [validate_config] throw
    an exception that is no validation error. *)
Theorem padded_ports_escape_validation :
  w_validate (w_document "iptables" "192.168.1.1" [(str "dest_port", jstr "80, 443"); (str "outbound", jstr "vpn")]) =
  Throw (invalid_argument "Invalid port token ' 443' in port spec '80, 443'").
Proof. vm_compute. reflexivity. Qed.
