(* ===== verification/KeeneticDns.v ===== *)
(** * The built-in DNS proxy of KeeneticOS (src/src/dns/keenetic_dns.{hpp,cpp})

    The servers and static records that the router's own DNS proxy uses, read
    from the answer of its RCI service, and the cache of the last good answer. *)

From S2P Require Import Prelude CppString Config Json AddrSpec DnsServer Dnsmasq UrlTest Cache.

Local Open Scope Z_scope.

Record ParsedDnsServerLine := mk_ServerLine {
  sl_address : cstring;
  has_specific_domains : bool;
  is_encrypted : bool;
  sl_kind : cstring;
  sl_target : cstring;
}.
Definition no_server : ParsedDnsServerLine := mk_ServerLine [] false false [] [].
Record ParsedStaticDnsLine := mk_StaticLine { st_domain : cstring; st_address : cstring }.
Definition no_static : ParsedStaticDnsLine := mk_StaticLine [] [].

Record KeeneticDnsSnapshot := mk_KeeneticSnapshot {
  k_addresses : list cstring;
  k_upstreams : list KeeneticDnsUpstreamEntry;
  k_static_entries : list KeeneticStaticDnsEntry;
}.

Module KeeneticDnsRefreshStatus.
Inductive t := UNCHANGED | UPDATED | FETCH_FAILED_USED_CACHE | FETCH_FAILED_NO_CACHE.
#[global] Instance t_eq_dec : EqDecision t.
Proof. solve_decision. Defined.
End KeeneticDnsRefreshStatus.
Record KeeneticDnsRefreshResult := mk_KeeneticRefresh {
  refresh_status : KeeneticDnsRefreshStatus.t;
  refresh_addresses : list cstring;
  refresh_error : cstring;
}.
(** [fetched_at] is in nanoseconds *)
Record KeeneticDnsCacheState := mk_KeeneticCache { k_snapshot : option KeeneticDnsSnapshot; fetched_at : Z }.

(** ** Lines of the proxy's configuration *)

Definition trim_copy (s : cstring) : cstring := trim_by isspace s.
Definition is_blank (c : ascii) : bool := ascii_eqb c " " || (ord c =? 9).

(** The text before and after the first character of a class *)
Fixpoint cut_at (f : ascii → bool) (s : cstring) : option (cstring * cstring) :=
  match s with
  | [] => None
  | c :: s => if f c then Some ([], s) else prod_map (cons c) id <$> cut_at f s
  end.
Definition before_char (c : ascii) (s : cstring) : cstring := match find_char c s with Some i => take i s | None => s end.

(** Whether the server is encrypted, its kind and its target *)
Definition server_kind (comment : cstring) : bool * cstring * cstring :=
  if starts_with "https://" comment then (true, str "DoH", before_char "@" comment)
  else if starts_with "tls://" comment then (true, str "DoT", before_char "@" comment)
  else if starts_with "tls." comment then (true, str "DoT", comment)
  else match find_char "@" comment with
       | Some i => if contains_str "://" comment then (false, str "Plain", [])
                   else (true, str "DoT", "tls://" ++ drop (S i) comment)
       | None => (false, str "Plain", [])
       end.

Definition parse_dns_server_line (line : cstring) : ParsedDnsServerLine :=
  let kPrefix := str "dns_server = " in
  if negb (starts_with kPrefix line) then no_server
  else
    let after_prefix := trim_copy (drop (length kPrefix) line) in
    let '(rest, comment) := match cut_at (ascii_eqb "#") after_prefix with
      | Some (before, after) => (trim_copy before, trim_copy after)
      | None => (after_prefix, [])
      end in
    if bool_decide (rest = []) then no_server
    else
      let '(address, specific) := match cut_at is_blank rest with
        | None => (trim_copy rest, false)
        | Some (word, tail) => let suffix := trim_copy tail in
            (trim_copy word, negb (bool_decide (suffix = [])) && negb (bool_decide (suffix = ".")))
        end in
      if bool_decide (address = []) then no_server
      else let '(encrypted, kind, target) := server_kind comment in mk_ServerLine address specific encrypted kind target.

(** [stream >> word]: the next word and what follows it, [None] when there is none *)
Definition next_word (s : cstring) : option (cstring * cstring) :=
  let s := drop_while isspace s in
  let word := take_while (λ c, negb (isspace c)) s in
  if bool_decide (word = []) then None else Some (word, drop (length word) s).

Definition parse_static_dns_line (line : cstring) : ParsedStaticDnsLine :=
  let kStaticAPrefix := str "static_a = " in
  let kStaticAAAAPrefix := str "static_aaaa = " in
  let rest := if starts_with kStaticAPrefix line then trim_copy (drop (length kStaticAPrefix) line)
              else if starts_with kStaticAAAAPrefix line then trim_copy (drop (length kStaticAAAAPrefix) line)
              else [] in
  match next_word rest with
  | None => no_static
  | Some (domain, rest) =>
      match next_word rest with None => no_static | Some (address, _) => mk_StaticLine domain address end
  end.

Definition is_supported_static_dns_domain (domain : cstring) : bool :=
  if bool_decide (domain = []) || (255 <? length domain)%nat then false
  else if bool_decide (domain = "*") then false
  else if starts_with "*." domain then (2 <? length domain)%nat
  else true.

Fixpoint two_colons (s : cstring) (colon_count : nat) : bool :=
  match s with
  | [] => false
  | c :: s => if ascii_eqb c ":" then if (1 <? S colon_count)%nat then true else two_colons s (S colon_count)
              else two_colons s colon_count
  end.
Definition looks_like_ipv6_dns_server_address (address : cstring) : bool :=
  match address with
  | [] => false
  | c :: _ => if ascii_eqb c "[" then true else two_colons address 0
  end.

(** ** The answer of the service *)

Definition same_upstream (a b : KeeneticDnsUpstreamEntry) : bool :=
  bool_decide (ku_address a = ku_address b) && bool_decide (ku_kind a = ku_kind b) && bool_decide (ku_target a = ku_target b).
Definition same_static (a b : KeeneticStaticDnsEntry) : bool :=
  bool_decide (ks_domain a = ks_domain b) && bool_decide (ks_address a = ks_address b).
Fixpoint all_same {A} (same : A → A → bool) (l m : list A) : bool :=
  match l, m with
  | x :: l, y :: m => if same x y then all_same same l m else false
  | _, _ => true
  end.
Definition keenetic_dns_snapshots_equal (lhs rhs : KeeneticDnsSnapshot) : bool :=
  if negb (length (k_addresses lhs) =? length (k_addresses rhs))%nat ||
     negb (length (k_upstreams lhs) =? length (k_upstreams rhs))%nat ||
     negb (length (k_static_entries lhs) =? length (k_static_entries rhs))%nat
  then false
  else all_same (λ a b, bool_decide (a = b)) (k_addresses lhs) (k_addresses rhs) &&
       all_same same_upstream (k_upstreams lhs) (k_upstreams rhs) &&
       all_same same_static (k_static_entries lhs) (k_static_entries rhs).

Definition proxy_disabled : exn :=
  KeeneticDnsError "Built-in DNS proxy appears disabled or has no unscoped 'dns_server = ...' directives in System policy".
Definition build_keenetic_dns_snapshot (selected_servers : list ParsedDnsServerLine) (static_entries : list KeeneticStaticDnsEntry) :
    exc KeeneticDnsSnapshot :=
  if bool_decide (length selected_servers = 0%nat) then Throw proxy_disabled
  else mret (mk_KeeneticSnapshot (sl_address <$> selected_servers)
         ((λ s, Build_KeeneticDnsUpstreamEntry (sl_address s) (sl_kind s) (sl_target s)) <$> selected_servers) static_entries).
Definition collect_selected_keenetic_dns_servers (plaintext encrypted : list ParsedDnsServerLine) : list ParsedDnsServerLine :=
  match encrypted with [] => plaintext | _ => encrypted end.

Section rci.
Context {IP : InetPton} {JT : JsonText}.
(** The message of the library for a text that it cannot parse *)
Context (parse_error : cstring → cstring).

(** [catch (const DnsError& e) { throw KeeneticDnsError(message + e.what()); }] *)
Definition check_rci_address (message address : cstring) : exc unit :=
  match parse_dns_address_str address with
  | Ok _ => Ok tt
  | Throw (DnsError e) => Throw (KeeneticDnsError (message ++ address ++ "': " ++ e))
  | Throw e => Throw e
  | Undefined => Undefined
  end.

Record collected := mk_collected {
  c_plaintext : list ParsedDnsServerLine;
  c_encrypted : list ParsedDnsServerLine;
  c_static : list KeeneticStaticDnsEntry;
}.
Definition no_lines : collected := mk_collected [] [] [].

(** One turn of the loop over the lines *)
Definition collect_line (c : collected) (line : cstring) : exc collected :=
  let trimmed := trim_copy line in
  let static_parsed := parse_static_dns_line trimmed in
  if negb (bool_decide (st_domain static_parsed = [])) || negb (bool_decide (st_address static_parsed = [])) then
    if negb (is_supported_static_dns_domain (st_domain static_parsed)) then mret c
    else
      check_rci_address "RCI returned invalid static dns address '" (st_address static_parsed) ≫= λ _,
      mret (mk_collected (c_plaintext c) (c_encrypted c)
              (c_static c ++ [Build_KeeneticStaticDnsEntry (st_domain static_parsed) (st_address static_parsed)]))
  else
    let parsed := parse_dns_server_line trimmed in
    if bool_decide (sl_address parsed = []) then mret c
    else if looks_like_ipv6_dns_server_address (sl_address parsed) then mret c
    else
      check_rci_address "RCI returned invalid dns_server address '" (sl_address parsed) ≫= λ _,
      if has_specific_domains parsed then mret c
      else if is_encrypted parsed then mret (mk_collected (c_plaintext c) (c_encrypted c ++ [parsed]) (c_static c))
      else mret (mk_collected (c_plaintext c ++ [parsed]) (c_encrypted c) (c_static c)).
Fixpoint collect_lines (c : collected) (lines : list cstring) : exc collected :=
  match lines with [] => mret c | line :: lines => c ← collect_line c line; collect_lines c lines end.

Definition snapshot_of_config (config : cstring) : exc KeeneticDnsSnapshot :=
  c ← collect_lines no_lines (getline_all (chr 10) config);
  if negb (bool_decide (length (c_plaintext c) = 0%nat)) || negb (bool_decide (length (c_encrypted c) = 0%nat))
  then build_keenetic_dns_snapshot (collect_selected_keenetic_dns_servers (c_plaintext c) (c_encrypted c)) (c_static c)
  else Throw proxy_disabled.

Fixpoint system_entry (entries : list json) : exc KeeneticDnsSnapshot :=
  match entries with
  | [] => Throw (KeeneticDnsError "RCI response does not contain DNS proxy policy 'System' (endpoint: /rci/show/dns-proxy)")
  | entry :: entries =>
      match jfind "proxy-name" entry with
      | Some (JStr name) =>
          if bool_decide (name = "System") then
            match jfind "proxy-config" entry with
            | Some (JStr config) => snapshot_of_config config
            | _ => Throw (KeeneticDnsError "RCI response has 'System' DNS proxy but missing string field 'proxy-config'")
            end
          else system_entry entries
      | _ => system_entry entries
      end
  end.

Definition extract_keenetic_dns_snapshot_from_rci (response_body : cstring) : exc KeeneticDnsSnapshot :=
  match json_parse response_body with
  | None => Throw (KeeneticDnsError ("Failed to parse RCI JSON response: " ++ parse_error response_body))
  | Some doc =>
      match jfind "proxy-status" doc with
      | Some (JArr entries) => system_entry entries
      | _ => Throw (KeeneticDnsError "RCI response missing 'proxy-status' array (endpoint: /rci/show/dns-proxy)")
      end
  end.

(** ** The cache *)

Context {W : Type} `{CW : !CacheWorld W}.
(** The build option and the version in the user agent *)
Context (use_keenetic_api : bool) (version : cstring).

Definition kKeeneticDnsCacheTtl : Z := 5 * 60 * 1000000000.
Definition is_cache_fresh (state : KeeneticDnsCacheState) (now : Z) : bool :=
  match k_snapshot state with Some _ => now - fetched_at state <? kKeeneticDnsCacheTtl | None => false end.

Definition keenetic_dns_fetch : http (W := W) cstring :=
  http_download (mk_HttpClient 3 (default_user_agent version) (8 * 1024 * 1024)) "http://127.0.0.1:79/rci/show/dns-proxy" 0.

Definition cached_addresses (state : KeeneticDnsCacheState) : list cstring :=
  match k_snapshot state with Some s => k_addresses s | None => [] end.
(** The two handlers *)
Definition fetch_failed (state : KeeneticDnsCacheState) (error : cstring) : KeeneticDnsRefreshResult :=
  match k_snapshot state with
  | Some s => mk_KeeneticRefresh KeeneticDnsRefreshStatus.FETCH_FAILED_USED_CACHE (k_addresses s) error
  | None => mk_KeeneticRefresh KeeneticDnsRefreshStatus.FETCH_FAILED_NO_CACHE [] error
  end.

(** [now] is the reading of the clock *)
Definition refresh_keenetic_dns_address_cache (force_refresh : bool) (now : Z) : stexc (KeeneticDnsCacheState * W) KeeneticDnsRefreshResult :=
  λ s, let '(cache, w) := s in
  if negb use_keenetic_api
  then (Ok (mk_KeeneticRefresh KeeneticDnsRefreshStatus.FETCH_FAILED_NO_CACHE []
              "DNS server type 'keenetic' requires build with USE_KEENETIC_API=ON"), s)
  else if negb force_refresh && is_cache_fresh cache now
  then (Ok (mk_KeeneticRefresh KeeneticDnsRefreshStatus.UNCHANGED (cached_addresses cache) []), s)
  else
    match keenetic_dns_fetch w with
    | (Ok (inl error), w) => (Ok (fetch_failed cache ("Failed to query Keenetic RCI endpoint /rci/show/dns-proxy: " ++ he_what error)), (cache, w))
    | (Ok (inr response), w) =>
        match extract_keenetic_dns_snapshot_from_rci response with
        | Ok snapshot =>
            let changed := match k_snapshot cache with Some old => negb (keenetic_dns_snapshots_equal old snapshot) | None => true end in
            (Ok (mk_KeeneticRefresh (if changed then KeeneticDnsRefreshStatus.UPDATED else KeeneticDnsRefreshStatus.UNCHANGED)
                   (k_addresses snapshot) []),
             (mk_KeeneticCache (Some snapshot) now, w))
        | Throw (KeeneticDnsError e) => (Ok (fetch_failed cache e), (cache, w))
        | Throw e => (Throw e, (cache, w))
        | Undefined => (Undefined, (cache, w))
        end
    | (Throw e, w) => (Throw e, (cache, w))
    | (Undefined, w) => (Undefined, (cache, w))
    end.

Definition resolve_keenetic_dns_addresses (force_refresh : bool) (now : Z) : stexc (KeeneticDnsCacheState * W) (list cstring) :=
  result ← refresh_keenetic_dns_address_cache force_refresh now;
  if negb (bool_decide (refresh_addresses result = [])) then mret (refresh_addresses result)
  else throw (KeeneticDnsError (refresh_error result)).

Definition get_keenetic_static_dns_entries (state : KeeneticDnsCacheState) : list KeeneticStaticDnsEntry :=
  match k_snapshot state with Some s => k_static_entries s | None => [] end.
Definition get_keenetic_dns_addresses (state : KeeneticDnsCacheState) : list cstring := cached_addresses state.
Definition get_keenetic_dns_upstreams (state : KeeneticDnsCacheState) : list KeeneticDnsUpstreamEntry :=
  match k_snapshot state with Some s => k_upstreams s | None => [] end.

(** ** What the proxy is configured to use

    The records and the servers of the lines, one by one; a record takes
    precedence over a server. *)
Definition usable_address (a : cstring) : bool := match parse_dns_address_str a with Ok _ => true | _ => false end.
Definition is_record (p : ParsedStaticDnsLine) : bool := negb (bool_decide (st_domain p = [])) || negb (bool_decide (st_address p = [])).
Definition record_of (line : cstring) : option KeeneticStaticDnsEntry :=
  let p := parse_static_dns_line (trim_copy line) in
  if is_record p && is_supported_static_dns_domain (st_domain p) then Some (Build_KeeneticStaticDnsEntry (st_domain p) (st_address p)) else None.
Definition server_of (line : cstring) : option ParsedDnsServerLine :=
  let p := parse_dns_server_line (trim_copy line) in
  if is_record (parse_static_dns_line (trim_copy line)) || bool_decide (sl_address p = []) || looks_like_ipv6_dns_server_address (sl_address p)
  then None else Some p.
Definition usable_line (line : cstring) : bool :=
  match record_of line with Some r => usable_address (ks_address r) | None => true end &&
  match server_of line with Some p => usable_address (sl_address p) | None => true end.

Definition unscoped (lines : list cstring) : list ParsedDnsServerLine :=
  List.filter (λ p, negb (has_specific_domains p)) (omap server_of lines).
(** All encrypted servers when there are any, else the others *)
Definition selected_servers (lines : list cstring) : list ParsedDnsServerLine :=
  match List.filter is_encrypted (unscoped lines) with
  | [] => unscoped lines
  | encrypted => encrypted
  end.
Definition snapshot_of_lines (lines : list cstring) : KeeneticDnsSnapshot :=
  mk_KeeneticSnapshot (sl_address <$> selected_servers lines)
    ((λ s, Build_KeeneticDnsUpstreamEntry (sl_address s) (sl_kind s) (sl_target s)) <$> selected_servers lines) (omap record_of lines).

Definition is_system (entry : json) : bool :=
  match jfind "proxy-name" entry with Some (JStr name) => bool_decide (name = "System") | _ => false end.
(** The lines of the policy [System] *)
Definition system_lines (response_body : cstring) : option (list cstring) :=
  doc ← json_parse response_body;
  match jfind "proxy-status" doc with
  | Some (JArr entries) =>
      match List.find is_system entries ≫= jfind "proxy-config" with
      | Some (JStr config) => Some (getline_all (chr 10) config)
      | _ => None
      end
  | _ => None
  end.

Lemma parse_address_outcome a : match parse_dns_address_str a with Ok _ => True | Throw e => ∃ m, e = DnsError m | Undefined => False end.
Proof.
  assert (Hport : ∀ p, match parse_dns_port_or_throw a p with Ok _ => True | Throw e => ∃ m, e = DnsError m | Undefined => False end).
  { intros p. unfold parse_dns_port_or_throw. destruct (whole _) as [n|]; [|by eexists]. destruct (_ || _); [by eexists|done]. }
  assert (Hs : match split_dns_address a with Ok _ => True | Throw e => ∃ m, e = DnsError m | Undefined => False end).
  { unfold split_dns_address. destruct a as [|c a]; [by eexists|]. destruct (ascii_eqb c "[").
    - destruct (find_char "]" (c :: a)) as [i|]; [|by eexists]. destruct (S i <? _)%nat; [|done]. destruct (negb _); [by eexists|].
      unfold mbind, exc_bind. specialize (Hport (drop (i + 2) (c :: a))). by destruct (parse_dns_port_or_throw _ _).
    - destruct (count_char ":" (c :: a) =? 1)%nat eqn:Hc; [|done].
      destruct (find_char ":" (c :: a)) as [i|] eqn:Hf.
      + unfold mbind, exc_bind. specialize (Hport (drop (S i) (c :: a))). by destruct (parse_dns_port_or_throw _ _).
      + apply find_char_None in Hf. by rewrite (proj2 (count_char_0 _ _) Hf) in Hc. }
  unfold parse_dns_address_str, mbind, exc_bind. destruct (split_dns_address a) as [[ip port]|e|]; [|done..].
  destruct (negb _); [by eexists|done].
Qed.

Lemma check_address_exact message a : ∃ m, check_rci_address message a = if usable_address a then Ok tt else Throw (KeeneticDnsError m).
Proof.
  unfold check_rci_address, usable_address. pose proof (parse_address_outcome a) as H.
  destruct (parse_dns_address_str a) as [?|e|]; [by exists []| |done]. destruct H as [m ->]. by eexists.
Qed.

Definition add_lines (c : collected) (lines : list cstring) : collected :=
  mk_collected (c_plaintext c ++ List.filter (λ p, negb (is_encrypted p)) (unscoped lines))
    (c_encrypted c ++ List.filter is_encrypted (unscoped lines)) (c_static c ++ omap record_of lines).
Lemma add_lines_cons c line lines : add_lines (add_lines c [line]) lines = add_lines c (line :: lines).
Proof.
  unfold add_lines, unscoped. cbn [c_plaintext c_encrypted c_static omap list_omap].
  destruct (server_of line) as [p|], (record_of line) as [r|]; cbn [List.filter app]; rewrite ?app_nil_r, <-?app_assoc; try done;
    destruct (has_specific_domains p); cbn [negb List.filter app]; rewrite ?app_nil_r; try done;
    destruct (is_encrypted p); cbn [negb List.filter app]; by rewrite ?app_nil_r.
Qed.
Lemma collect_line_exact c line : ∃ m, collect_line c line = if usable_line line then Ok (add_lines c [line]) else Throw (KeeneticDnsError m).
Proof.
  unfold collect_line, add_lines, usable_line, unscoped, record_of, server_of. cbn [omap list_omap].
  fold (is_record (parse_static_dns_line (trim_copy line))). destruct (is_record _); cbn [orb andb].
  - destruct (is_supported_static_dns_domain _); cbn [negb List.filter omap list_omap]; [|exists []; destruct c; cbn; by rewrite !app_nil_r].
    destruct (check_address_exact "RCI returned invalid static dns address '" (st_address (parse_static_dns_line (trim_copy line)))) as [m ->].
    exists m. unfold record_of. cbn [ks_address]. rewrite andb_true_r. destruct (usable_address _); cbn; by rewrite ?app_nil_r.
  - destruct (bool_decide _); cbn [orb]; [exists []; destruct c; cbn; by rewrite !app_nil_r|].
    destruct (looks_like_ipv6_dns_server_address _); [exists []; destruct c; cbn; by rewrite !app_nil_r|].
    destruct (check_address_exact "RCI returned invalid dns_server address '" (sl_address (parse_dns_server_line (trim_copy line)))) as [m ->].
    exists m. cbn [andb]. destruct (usable_address _); [|done]. cbn [mbind exc_bind].
    destruct (has_specific_domains _) eqn:Hs; cbn [List.filter negb]; rewrite ?Hs; [destruct c; cbn; by rewrite !app_nil_r|].
    cbn. destruct (is_encrypted _); cbn; by rewrite ?app_nil_r.
Qed.
Lemma collect_lines_exact lines : ∀ c, ∃ m,
  collect_lines c lines = if forallb usable_line lines then Ok (add_lines c lines) else Throw (KeeneticDnsError m).
Proof.
  induction lines as [|line lines IH]; intros c; [exists []; destruct c; unfold add_lines; cbn; by rewrite !app_nil_r|].
  cbn [collect_lines forallb]. destruct (collect_line_exact c line) as [m Hm]. rewrite Hm. unfold mbind, exc_bind.
  destruct (usable_line line); cbn [andb]; [|by exists m]. destruct (IH (add_lines c [line])) as [m' ->]. exists m'. by rewrite add_lines_cons.
Qed.

Lemma filter_none {A} (f : A → bool) (l : list A) : List.filter f l = [] → List.filter (λ x, negb (f x)) l = l.
Proof. induction l as [|x l IH]; cbn; [done|]. destruct (f x); [done|]. intros H. cbn. by rewrite IH. Qed.

Lemma snapshot_of_config_exact config : let lines := getline_all (chr 10) config in
  ∃ m, snapshot_of_config config =
    if forallb usable_line lines && negb (bool_decide (selected_servers lines = [])) then Ok (snapshot_of_lines lines) else Throw (KeeneticDnsError m).
Proof.
  intros lines. unfold snapshot_of_config. fold lines. destruct (collect_lines_exact lines no_lines) as [m ->].
  destruct (forallb usable_line lines); cbn [andb]; [|by exists m]. unfold mbind, exc_bind, add_lines, no_lines. cbn [c_plaintext c_encrypted c_static app].
  exists (value_or (what proxy_disabled) []). unfold build_keenetic_dns_snapshot, collect_selected_keenetic_dns_servers, snapshot_of_lines, selected_servers.
  destruct (List.filter is_encrypted (unscoped lines)) as [|p l] eqn:Henc.
  - rewrite (filter_none _ _ Henc). destruct (unscoped lines) as [|q l']; [done|]. done.
  - cbn [length]. by rewrite orb_true_r.
Qed.

Lemma system_entry_exact entries : ∃ m, system_entry entries =
  match List.find is_system entries ≫= jfind "proxy-config" with
  | Some (JStr config) => snapshot_of_config config
  | _ => Throw (KeeneticDnsError m)
  end.
Proof.
  induction entries as [|entry entries [m IH]]; [by eexists|]. cbn [system_entry List.find]. unfold is_system at 1.
  destruct (jfind "proxy-name" entry) as [[]|]; try (by exists m). destruct (bool_decide _); [|by exists m].
  cbn [mbind option_bind]. destruct (jfind "proxy-config" entry) as [[]|]; by eexists.
Qed.

Lemma extract_exact body : ∃ m, extract_keenetic_dns_snapshot_from_rci body =
  match system_lines body with
  | Some lines => if forallb usable_line lines && negb (bool_decide (selected_servers lines = [])) then Ok (snapshot_of_lines lines)
                  else Throw (KeeneticDnsError m)
  | None => Throw (KeeneticDnsError m)
  end.
Proof.
  unfold extract_keenetic_dns_snapshot_from_rci, system_lines. destruct (json_parse body) as [doc|]; [|by eexists]. cbn [mbind option_bind].
  destruct (jfind "proxy-status" doc) as [[| | | | |entries|]|]; try (by eexists). destruct (system_entry_exact entries) as [m ->].
  destruct (List.find is_system entries ≫= jfind "proxy-config") as [[]|]; try (by exists m). apply snapshot_of_config_exact.
Qed.

(** What is wanted of the addresses: those of the records and of the servers that
    are not for one domain have to be usable; a server for one domain is ignored. *)
Definition considered_usable (line : cstring) : bool :=
  match record_of line with Some r => usable_address (ks_address r) | None => true end &&
  match server_of line with Some p => has_specific_domains p || usable_address (sl_address p) | None => true end.
Definition scoped_usable (line : cstring) : bool :=
  match server_of line with Some p => negb (has_specific_domains p) || usable_address (sl_address p) | None => true end.

Lemma usable_lines lines : forallb scoped_usable lines = true → forallb usable_line lines = forallb considered_usable lines.
Proof.
  induction lines as [|line lines IH]; [done|]. cbn [forallb]. intros [Hs Hl]%andb_prop. rewrite (IH Hl). f_equal.
  unfold usable_line, considered_usable, scoped_usable in *. f_equal. destruct (server_of line) as [p|]; [|done].
  by destruct (has_specific_domains p).
Qed.

(** C18. The snapshot of an answer is what the router's proxy is configured to use.
    For an answer whose domain-scoped servers, if any, have usable addresses: it
    is accepted exactly when it has a policy System with a configuration, the
    addresses of its records and unscoped servers are usable, and an unscoped
    server is left; then the servers are, in order, all unscoped encrypted ones,
    or all unscoped ones when none is encrypted, with their kinds and targets,
    and the records are all supported ones.  Every other answer is refused with
    an error of this module. *)
Theorem extracted_snapshot_exact body :
  (∀ lines, system_lines body = Some lines → forallb scoped_usable lines = true) →
  (∀ s, extract_keenetic_dns_snapshot_from_rci body = Ok s ↔
     ∃ lines, system_lines body = Some lines ∧ forallb considered_usable lines = true ∧ selected_servers lines ≠ [] ∧ s = snapshot_of_lines lines) ∧
  (∀ e, extract_keenetic_dns_snapshot_from_rci body = Throw e → ∃ m, e = KeeneticDnsError m) ∧
  extract_keenetic_dns_snapshot_from_rci body ≠ Undefined.
Proof.
  intros Hsc. destruct (extract_exact body) as [m ->]. destruct (system_lines body) as [lines|];
    [|split_and!; [intros s; split; [done|by intros (? & ? & _)]|intros e [= <-]; by eexists|done]].
  rewrite (usable_lines lines (Hsc lines eq_refl)). destruct (forallb considered_usable lines) eqn:Hu; cbn [andb];
    [|split_and!; [intros s; split; [done|intros (? & [= <-] & ? & _); congruence]|intros e [= <-]; by eexists|done]].
  case_bool_decide as Hs; cbn [negb]; split_and!; try done; try (intros e [= <-]; by eexists).
  - intros s. split; [done|]. intros (l & [= <-] & _ & Hne & _). done.
  - intros s. split; [intros [= <-]; by eexists|]. by intros (l & [= <-] & _ & _ & ->).
Qed.

(** ** The last good answer *)

(** A snapshot with servers, all of which the registry of servers accepts *)
Definition served (s : KeeneticDnsSnapshot) : Prop :=
  k_addresses s ≠ [] ∧ ku_address <$> k_upstreams s = k_addresses s ∧
  ∀ server m, ∃ m', push_addresses server (k_addresses s) m = Ok m'.

Lemma usable_addresses_push l : Forall (λ a, usable_address a = true) l → ∀ server m, ∃ m', push_addresses server l m = Ok m'.
Proof.
  induction 1 as [|a l Ha _ IH]; intros server m; [by eexists|]. cbn [push_addresses]. unfold parse_dns_server, mbind, exc_bind.
  unfold usable_address in Ha. destruct (parse_dns_address_str a); [|done..]. apply IH.
Qed.

Lemma selected_usable lines : forallb usable_line lines = true → Forall (λ p, usable_address (sl_address p) = true) (selected_servers lines).
Proof.
  intros Hu. apply Forall_forall. intros p Hp.
  assert (Hin : p ∈ omap server_of lines).
  { apply list_elem_of_In. unfold selected_servers, unscoped in Hp. apply list_elem_of_In in Hp. destruct (List.filter is_encrypted _) as [|q l] eqn:He.
    - by apply List.filter_In in Hp as [Hp _].
    - rewrite <-He in Hp. apply List.filter_In in Hp as [Hp _]. by apply List.filter_In in Hp as [Hp _]. }
  apply list_elem_of_omap in Hin as (line & Hline & Hsrv). rewrite forallb_forall in Hu. apply list_elem_of_In, Hu in Hline.
  unfold usable_line in Hline. rewrite Hsrv in Hline. by apply andb_prop in Hline as [_ ?].
Qed.

Lemma extracted_served body s : extract_keenetic_dns_snapshot_from_rci body = Ok s → served s.
Proof.
  destruct (extract_exact body) as [m ->]. destruct (system_lines body) as [lines|]; [|done].
  destruct (forallb usable_line lines) eqn:Hu; [|done]. case_bool_decide as Hs; [done|]. intros [= <-]. unfold served, snapshot_of_lines. cbn.
  split_and!.
  - intros Hn. by apply fmap_nil_inv in Hn.
  - by rewrite <-list_fmap_compose.
  - apply usable_addresses_push, Forall_fmap. by apply selected_usable.
Qed.

(** The answer that a call gets, if it asks and the answer is accepted *)
Definition answer_of (call : bool * Z) (s : KeeneticDnsCacheState * W) : option KeeneticDnsSnapshot :=
  if negb call.1 && is_cache_fresh s.1 call.2 then None
  else match (keenetic_dns_fetch s.2).1 with
       | Ok (inr body) => match extract_keenetic_dns_snapshot_from_rci body with Ok snap => Some snap | _ => None end
       | _ => None
       end.
Fixpoint after_calls (calls : list (bool * Z)) (s : KeeneticDnsCacheState * W) : KeeneticDnsCacheState * W :=
  match calls with [] => s | c :: calls => after_calls calls (refresh_keenetic_dns_address_cache c.1 c.2 s).2 end.
(** The last answer of a history, [None] when there was none *)
Fixpoint last_answer (calls : list (bool * Z)) (s : KeeneticDnsCacheState * W) (known : option KeeneticDnsSnapshot) : option KeeneticDnsSnapshot :=
  match calls with
  | [] => known
  | c :: calls => last_answer calls (refresh_keenetic_dns_address_cache c.1 c.2 s).2
                    (match answer_of c s with Some snap => Some snap | None => known end)
  end.

(** The transport throws nothing but its own error. *)
Definition transport_errors : Prop := ∀ r w, match (perform r w).1 with Ok _ | Throw (HttpTransportError _) => True | _ => False end.

Context (Hkeenetic : use_keenetic_api = true).

(** What a call does, by the answer it gets *)
Lemma refresh_exact force now cache w :
  transport_errors →
  match refresh_keenetic_dns_address_cache force now (cache, w), answer_of (force, now) (cache, w) with
  | (Ok r, (cache', w')), Some snap =>
      cache' = mk_KeeneticCache (Some snap) now ∧ refresh_addresses r = k_addresses snap ∧ refresh_error r = [] ∧
      refresh_status r = if match k_snapshot cache with Some old => keenetic_dns_snapshots_equal old snap | None => false end
                         then KeeneticDnsRefreshStatus.UNCHANGED else KeeneticDnsRefreshStatus.UPDATED
  | (Ok r, (cache', w')), None => cache' = cache ∧ refresh_addresses r = cached_addresses cache ∧ refresh_status r ≠ KeeneticDnsRefreshStatus.UPDATED
  | _, _ => False
  end.
Proof.
  intros Ht. unfold refresh_keenetic_dns_address_cache, answer_of. rewrite Hkeenetic. cbn [negb fst snd].
  destruct (negb force && is_cache_fresh cache now) eqn:Hf; [done|].
  unfold keenetic_dns_fetch, http_download, performing. set (req := request_for _ _ _). specialize (Ht req w).
  assert (Hfail : ∀ e, refresh_addresses (fetch_failed cache e) = cached_addresses cache ∧
    refresh_status (fetch_failed cache e) ≠ KeeneticDnsRefreshStatus.UPDATED).
  { intros e. unfold fetch_failed, cached_addresses. by destruct (k_snapshot cache). }
  destruct (perform req w) as [[resp|[]|] w']; cbn [fst] in *; try done. unfold body_or_error. destruct (throw_for_status _); [done|].
  pose proof (extract_exact (resp_body resp)) as [m Hm]. destruct (extract_keenetic_dns_snapshot_from_rci (resp_body resp)) as [snap|e|].
  - split_and!; try done. cbn. destruct (k_snapshot cache) as [old|]; [|done]. by destruct (keenetic_dns_snapshots_equal _ _).
  - assert (e = KeeneticDnsError m) as -> by (destruct (system_lines _); [case_match|]; congruence). by split.
  - by destruct (system_lines _); [case_match|].
Qed.

Lemma last_answer_cached calls : transport_errors → ∀ cache w,
  k_snapshot (after_calls calls (cache, w)).1 = last_answer calls (cache, w) (k_snapshot cache).
Proof.
  intros Ht. induction calls as [|[force now] calls IH]; intros cache w; [done|]. cbn [after_calls last_answer].
  pose proof (refresh_exact force now cache w Ht) as H. cbn [fst snd].
  destruct (refresh_keenetic_dns_address_cache force now (cache, w)) as [[r|e|] [cache' w']]; [|done..]. cbn [snd]. rewrite IH.
  destruct (answer_of (force, now) (cache, w)) as [snap|]; destruct H as [-> _]; done.
Qed.
Lemma answer_served call s snap : answer_of call s = Some snap → served snap.
Proof.
  unfold answer_of. destruct (_ && _); [done|]. destruct (keenetic_dns_fetch s.2).1 as [[?|body]|?|]; [done| |done..].
  destruct (extract_keenetic_dns_snapshot_from_rci body) as [s'|?|] eqn:E; [|done..]. intros [= <-]. by eapply extracted_served.
Qed.
Lemma last_answer_served calls : ∀ s known snap, (∀ x, known = Some x → served x) → last_answer calls s known = Some snap → served snap.
Proof.
  induction calls as [|c calls IH]; intros s known snap Hk; [apply Hk|]. cbn [last_answer]. apply IH. intros x.
  destruct (answer_of c s) as [y|] eqn:E; [|apply Hk]. intros [= <-]. by eapply answer_served.
Qed.
Lemma last_answer_app c calls : ∀ s known, last_answer (calls ++ [c]) s known =
  match answer_of c (after_calls calls s) with Some snap => Some snap | None => last_answer calls s known end.
Proof. induction calls as [|c' calls IH]; intros s known; [done|]. cbn. apply IH. Qed.

(** C19. Over any history of refreshes the servers of the router's proxy are those
    of the last answer that was accepted: a failure, whatever it is, changes
    nothing that is served; the addresses are then given, are not empty and are
    accepted by the registry of DNS servers; they are refused only when no
    answer was ever accepted; and within five minutes of an answer a call that
    is not forced asks nobody. *)
Theorem keenetic_cache_serves_last_answer calls force now t w :
  transport_errors →
  let start := (mk_KeeneticCache None t, w) in
  let state := after_calls calls start in
  k_snapshot state.1 = last_answer calls start None ∧
  match resolve_keenetic_dns_addresses force now state with
  | (Ok addresses, state') => ∃ snap, last_answer (calls ++ [(force, now)]) start None = Some snap ∧ k_snapshot state'.1 = Some snap ∧
      addresses = k_addresses snap ∧ served snap
  | (Throw e, state') => last_answer (calls ++ [(force, now)]) start None = None ∧ k_snapshot state'.1 = None ∧ ∃ m, e = KeeneticDnsError m
  | (Undefined, _) => False
  end ∧
  (force = false → k_snapshot state.1 ≠ None → now - fetched_at state.1 < 5 * 60 * 1000000000 →
     (resolve_keenetic_dns_addresses force now state).2 = state).
Proof.
  intros Ht start state. pose proof (last_answer_cached calls Ht (mk_KeeneticCache None t) w) as Hlast. fold start state in Hlast.
  cbn [k_snapshot] in Hlast. split; [done|]. split.
  - assert (Hserved : ∀ snap, last_answer (calls ++ [(force, now)]) start None = Some snap → served snap)
      by (intros snap; by apply last_answer_served).
    rewrite last_answer_app in *. fold state in Hserved |- *. destruct state as [cache w']. cbn [fst] in Hlast.
    pose proof (refresh_exact force now cache w' Ht) as H. unfold resolve_keenetic_dns_addresses, mbind, stexc_bind.
    destruct (refresh_keenetic_dns_address_cache force now (cache, w')) as [[r|e|] [cache' w'']]; [|done..].
    destruct (answer_of (force, now) (cache, w')) as [snap|].
    + destruct H as (-> & Ha & _). rewrite Ha. assert (Hs := Hserved snap eq_refl). rewrite bool_decide_eq_false_2 by apply Hs. by exists snap.
    + destruct H as (-> & Ha & _). rewrite Ha, <-Hlast in *. unfold cached_addresses. destruct (k_snapshot cache) as [snap|] eqn:Hc.
      * assert (Hs := Hserved snap eq_refl). rewrite bool_decide_eq_false_2 by apply Hs. by exists snap.
      * rewrite bool_decide_eq_true_2 by done. cbn. split_and!; [done..|by eexists].
  - intros -> Hn Httl. destruct state as [cache w']. unfold resolve_keenetic_dns_addresses, refresh_keenetic_dns_address_cache, mbind, stexc_bind.
    rewrite Hkeenetic. cbn [negb andb fst] in *. unfold is_cache_fresh, kKeeneticDnsCacheTtl. destruct (k_snapshot cache) as [snap|] eqn:Hc; [|done].
    rewrite (proj2 (Z.ltb_lt _ _)) by lia. by destruct (negb _).
Qed.
End rci.

(** *** Witnesses *)

Module KeeneticDnsSample.

#[local] Existing Instance w_inet.

(** Answers by name *)
Definition w_policy (name : cstring) (lines : list cstring) : json :=
  JObj [(str "proxy-name", JStr name); (str "proxy-config", JStr (join [chr 10] lines))].
Definition w_status (lines : list cstring) : json :=
  JObj [(str "proxy-status", JArr [w_policy "Policy0" [str "dns_server = 192.0.2.1"]; w_policy "System" lines])].
Definition w_lines : list cstring :=
  [str "timeout = 7000"; str "dns_server = 203.0.113.10 provider.example"; str "dns_server = 127.0.0.1:40508 . # https://dns-a.example/dns-query@dnsm";
   str "dns_server = 127.0.0.1:40509 . # dot@dns-b.example"; str "dns_server = 198.51.100.7"; str "static_a = host.example 198.51.100.180 1"].
#[local] Instance w_answers : JsonText := {| json_parse text :=
  if bool_decide (text = "encrypted") then Some (w_status w_lines)
  else if bool_decide (text = "plain") then Some (w_status [str "dns_server = 198.51.100.7"])
  else if bool_decide (text = "scoped") then Some (w_status [str "dns_server = 198.51.100.7"; str "dns_server = proxy.local intranet.example"])
  else None |}.

(** A service that gives its answers one after the other, then fails *)
#[local] Instance w_service : CacheWorld (list cstring) := {|
  perform _ w := match w with
    | [] => (Throw (HttpTransportError "refused"), [])
    | body :: w => (Ok (Build_HttpTransportResponse 200 body ∅ 1), w)
    end;
  contents _ _ := None; exists_at _ _ := false; write_file _ _ w := (CannotOpen, w); rename _ _ w := (Ok tt, w);
  remove _ w := (Ok tt, w); create_directories _ w := (Ok tt, w); now_iso _ := [] |}.
Definition w_extract : cstring → exc KeeneticDnsSnapshot := extract_keenetic_dns_snapshot_from_rci (λ _, []).

Lemma encrypted_servers_are_selected : w_extract "encrypted" = Ok (mk_KeeneticSnapshot [str "127.0.0.1:40508"; str "127.0.0.1:40509"]
  [Build_KeeneticDnsUpstreamEntry "127.0.0.1:40508" "DoH" "https://dns-a.example/dns-query";
   Build_KeeneticDnsUpstreamEntry "127.0.0.1:40509" "DoT" "tls://dns-b.example"]
  [Build_KeeneticStaticDnsEntry "host.example" "198.51.100.180"]).
Proof. vm_compute. reflexivity. Qed.

(** An answer with a server for one domain *)
Lemma extracted_snapshot_exact_witness :
  ∃ lines, system_lines "encrypted" = Some lines ∧ forallb scoped_usable lines = true ∧ forallb considered_usable lines = true ∧
    w_extract "encrypted" = Ok (snapshot_of_lines lines).
Proof.
  exists w_lines. split; [vm_compute; reflexivity|]. split; [vm_compute; reflexivity|]. split; [vm_compute; reflexivity|].
  destruct (extracted_snapshot_exact (λ _, []) "encrypted") as [H _].
  { intros lines Hl. assert (E : system_lines "encrypted" = Some w_lines) by (vm_compute; reflexivity).
    rewrite E in Hl. injection Hl as <-. vm_compute. reflexivity. }
  apply (proj2 (H (snapshot_of_lines w_lines))). exists w_lines. split_and!; vm_compute; (reflexivity || discriminate).
Defined.

(** A server for one domain is not used, but it is not ignored either: when its
    address cannot be used the whole answer is refused. *)
Lemma scoped_server_refuses_answer :
  k_addresses <$> w_extract "plain" = Ok [str "198.51.100.7"] ∧ w_extract "scoped" =
  Throw (KeeneticDnsError "RCI returned invalid dns_server address 'proxy.local': Invalid DNS server address: 'proxy.local' (not a valid IPv4 or IPv6 address)").
Proof. vm_compute. done. Qed.

(** Two calls that get an answer, then a late one that fails *)
Definition w_calls : list (bool * Z) := [(true, 0); (true, 1000000000)].
Definition w_start : KeeneticDnsCacheState * list cstring := (mk_KeeneticCache None 0, [str "plain"; str "encrypted"]).
Lemma keenetic_cache_serves_last_answer_witness :
  ∃ snap, last_answer (λ _, []) true "3.0" (w_calls ++ [(false, 400 * 1000000000)]) w_start None = Some snap ∧ served snap.
Proof.
  destruct (keenetic_cache_serves_last_answer (λ _, []) true "3.0" eq_refl w_calls false (400 * 1000000000) 0 [str "plain"; str "encrypted"])
    as (_ & H & _); [by intros r []|].
  assert (Hr : (resolve_keenetic_dns_addresses (λ _, []) true "3.0" false (400 * 1000000000) (after_calls (λ _, []) true "3.0" w_calls w_start)).1 =
    Ok [str "127.0.0.1:40508"; str "127.0.0.1:40509"]) by (vm_compute; reflexivity).
  fold w_start in H. destruct (resolve_keenetic_dns_addresses _ _ _ _ _ _) as [[a|e|] s']; [|discriminate Hr..].
  destruct H as (snap & H1 & _ & _ & H2). exists snap. exact (conj H1 H2).
Defined.
End KeeneticDnsSample.
