(* ===== verification/DaemonState.v ===== *)
(** * The state of the daemon (src/src/daemon/daemon.hpp)

    The members of [Daemon], what the rest of the system does to it, and the
    lifting of the components' operations to the whole state.  Control tasks and
    executor jobs are data: [d_tasks] is the queue of the event loop and
    [d_jobs] what the executors have accepted. *)

From S2P Require Import Prelude CppString Config Fwmark Netlink Runtime RouteTable PolicyRule RoutingReconciler RoutingState.
From S2P Require Import Json FirewallRules Firewall CircuitBreaker UrlTest ListStreamer Cache ListService ConfigStore.
From S2P Require Import DnsServer DnsProbe DnsTxt Dnsmasq ResolverSync OutboundHealth Validation KeeneticDns.

Local Open Scope Z_scope.

(** ** Data *)

Module ConfigOperationState.
Inductive t := Idle | Saving | Reloading.
#[global] Instance t_eq_dec : EqDecision t.
Proof. solve_decision. Defined.
End ConfigOperationState.

Record PreparedRuntimeInputs := mk_Prepared {
  prepared_config : Config;
  prepared_marks : OutboundMarkMap;
  remote_lists_refreshed : bool;
}.

Record ResolverGenerationSnapshot := mk_Generation {
  generation_config : Config;
  generation_resolver_type : ResolverType.t;
  generation_ipv6_enabled : bool;
  generation_expected_hash : cstring;
  generation_number : Z;
}.

Record RuntimeStateSnapshot := mk_RuntimeSnapshot {
  snap_firewall_state : FirewallState;
  snap_route_specs : list RouteSpec;
  snap_policy_rule_specs : list RuleSpec;
  snap_urltest_states : gmap cstring UrltestState;
  snap_resolver : ResolverSyncSnapshot;
  snap_routing_runtime_active : bool;
  snap_runtime_state : RuntimeState.t;
  snap_runtime_state_reason : cstring;
}.
Definition default_RuntimeSnapshot : RuntimeStateSnapshot :=
  mk_RuntimeSnapshot (mk_FirewallState ∅ 0 [] ∅) [] [] ∅ (snapshot initial_sync 0) true RuntimeState.starting [].

Record ConfigApplyResult := mk_ApplyResult {
  apply_saved : bool;
  apply_applied : bool;
  apply_result_started_ts : option Z;
  apply_error : cstring;
}.
Record LifecycleRequest := mk_Request {
  request_type : LifecycleOperationType.t;
  request_config : option Config;
  serialized_config : cstring;
}.

(** What [apply_validated_config_via_control_task] shares between its closures:
    the transaction, the result and its arguments *)
Record reload := mk_reload {
  reload_transaction : tx_state;
  reload_started : Z;
  reload_persist : bool;
  reload_json : cstring;
}.

(** The closures that are posted to the event loop, by their labels *)
Inductive task :=
  | StartupRuntime
  | StartupAfterLists (result : option RemoteListsRefreshResult) (error : cstring)
  | StartupAfterResolverHook (succeeded : bool) (error : cstring)
  | StartupAfterVerification (verified : bool) (error : cstring)
  | UrltestSelectionChange (urltest_tag new_child_tag : cstring)
  | UrltestCommit (urltest_tag : cstring) (probe_generation : Z) (results : list (cstring * URLTestResult))
  | ListsRefreshCommit (runtime_active : bool) (generation : Z) (result : option RemoteListsRefreshResult) (error : cstring)
  | ResolverHashCommit (t : commit_task)
  | KeeneticDnsRefresh
  | ApplyCandidate (prepared : PreparedRuntimeInputs) (r : reload)
  | ConfirmationCommit (r : reload) (confirmed : bool) (error : cstring)
  | SighupComplete (result : ConfigApplyResult).

(** The closures on the executors, by their labels *)
Inductive job :=
  | StartupLists (relevant dns_relevant : gset cstring)
  | StartupResolverHook
  | StartupVerification (candidate : Config) (expected : cstring) (started : Z)
  | ListsAutoupdate (config : Config) (marks : OutboundMarkMap) (runtime_active : bool) (generation : Z)
  | ResolverHashProbe (resolver_addr : cstring) (generation : Z)
  | UrltestProbe (p : probe)
  | SighupTransaction
  | Confirmation (r : reload) (candidate : Config) (expected : cstring)
  | LifecycleOperation (id : cstring) (request : LifecycleRequest).

(** The ids of the scheduled tasks, [-1] for none *)
Record Timers := mk_Timers {
  lists_autoupdate_task_id : Z;
  keenetic_dns_refresh_task_id : Z;
  resolver_hash_task_id : Z;
  resolver_hash_retry_task_id : Z;
  sigusr1_task_id : Z;
}.
Definition no_timers : Timers := mk_Timers (-1) (-1) (-1) (-1) (-1).

Record ResolverPart := mk_Resolver {
  apply_started_ts : Z;
  r_sync : ResolverSyncStateMachine;
  r_coordinator : ResolverMetadata;
  r_generation_snapshot : option ResolverGenerationSnapshot;
  r_hash_refresh_inflight : bool;
}.

(** What happens on the event loop while a worker waits, and the drafts that
    arrive through the API *)
Inductive loop_event :=
  | TaskDone
  | JobDone
  | TimerFired (label : cstring)
  | InterfaceEvent (administrative_state_changed : bool) (interface_name : cstring)
  | SignalUsr1
  | SignalHup
  | DraftStaged (config : Config) (text : cstring).

(** ** The members *)

Section state.
Context {K F S D C E : Type}.

Record Daemon := mk_Daemon {
  d_config : Config; (* config_ *)
  d_config_path : cstring; (* config_path_ *)
  d_marks : OutboundMarkMap; (* outbound_marks_ *)
  d_netlink : K; (* netlink_ *)
  d_routes : RouteTable; (* route_table_ *)
  d_rules : PolicyRuleManager; (* policy_rules_ *)
  d_firewall : F; (* firewall_ *)
  d_firewall_state : FirewallState; (* firewall_state_ *)
  d_conntrack : ConntrackManager; (* conntrack_manager_ *)
  d_machine : RuntimeStateMachine; (* runtime_state_machine_ *)
  d_active : bool; (* routing_runtime_active_ *)
  d_generation : Z; (* runtime_generation_ *)
  d_urltest : option UrltestManager; (* urltest_manager_ *)
  d_sched : S; (* scheduler_ *)
  d_timers : Timers; (* the ids of the scheduled tasks *)
  d_resolver : ResolverPart; (* the members of the resolver's code *)
  d_lists_inflight : bool; (* remote_list_refresh_inflight_ *)
  d_store : ConfigStore; (* config_store_ *)
  d_published : RuntimeStateSnapshot; (* runtime_state_store_ *)
  d_lifecycle : LifecycleOperationCoordinator unit; (* lifecycle_operations_ *)
  d_operation : OperationCoordinator; (* operation_coordinator_ *)
  d_config_op : ConfigOperationState.t; (* config_op_state_ *)
  d_accept_posted : bool; (* accept_posted_control_tasks_ *)
  d_tasks : list task; (* control_tasks_ *)
  d_jobs : list job; (* what the executors have accepted *)
  d_disk : D; (* the directory of the configuration file *)
  d_lists : C; (* the cache directory and the network *)
  d_host : E; (* the rest of the system *)
}.

Definition set_d_config (x : Config) (d : Daemon) : Daemon :=
  mk_Daemon x (d_config_path d) (d_marks d) (d_netlink d) (d_routes d) (d_rules d) (d_firewall d) (d_firewall_state d) (d_conntrack d) (d_machine d) (d_active d) (d_generation d) (d_urltest d) (d_sched d) (d_timers d) (d_resolver d) (d_lists_inflight d) (d_store d) (d_published d) (d_lifecycle d) (d_operation d) (d_config_op d) (d_accept_posted d) (d_tasks d) (d_jobs d) (d_disk d) (d_lists d) (d_host d).
Definition set_d_marks (x : OutboundMarkMap) (d : Daemon) : Daemon :=
  mk_Daemon (d_config d) (d_config_path d) x (d_netlink d) (d_routes d) (d_rules d) (d_firewall d) (d_firewall_state d) (d_conntrack d) (d_machine d) (d_active d) (d_generation d) (d_urltest d) (d_sched d) (d_timers d) (d_resolver d) (d_lists_inflight d) (d_store d) (d_published d) (d_lifecycle d) (d_operation d) (d_config_op d) (d_accept_posted d) (d_tasks d) (d_jobs d) (d_disk d) (d_lists d) (d_host d).
Definition set_d_netlink (x : K) (d : Daemon) : Daemon :=
  mk_Daemon (d_config d) (d_config_path d) (d_marks d) x (d_routes d) (d_rules d) (d_firewall d) (d_firewall_state d) (d_conntrack d) (d_machine d) (d_active d) (d_generation d) (d_urltest d) (d_sched d) (d_timers d) (d_resolver d) (d_lists_inflight d) (d_store d) (d_published d) (d_lifecycle d) (d_operation d) (d_config_op d) (d_accept_posted d) (d_tasks d) (d_jobs d) (d_disk d) (d_lists d) (d_host d).
Definition set_d_routes (x : RouteTable) (d : Daemon) : Daemon :=
  mk_Daemon (d_config d) (d_config_path d) (d_marks d) (d_netlink d) x (d_rules d) (d_firewall d) (d_firewall_state d) (d_conntrack d) (d_machine d) (d_active d) (d_generation d) (d_urltest d) (d_sched d) (d_timers d) (d_resolver d) (d_lists_inflight d) (d_store d) (d_published d) (d_lifecycle d) (d_operation d) (d_config_op d) (d_accept_posted d) (d_tasks d) (d_jobs d) (d_disk d) (d_lists d) (d_host d).
Definition set_d_rules (x : PolicyRuleManager) (d : Daemon) : Daemon :=
  mk_Daemon (d_config d) (d_config_path d) (d_marks d) (d_netlink d) (d_routes d) x (d_firewall d) (d_firewall_state d) (d_conntrack d) (d_machine d) (d_active d) (d_generation d) (d_urltest d) (d_sched d) (d_timers d) (d_resolver d) (d_lists_inflight d) (d_store d) (d_published d) (d_lifecycle d) (d_operation d) (d_config_op d) (d_accept_posted d) (d_tasks d) (d_jobs d) (d_disk d) (d_lists d) (d_host d).
Definition set_d_firewall (x : F) (d : Daemon) : Daemon :=
  mk_Daemon (d_config d) (d_config_path d) (d_marks d) (d_netlink d) (d_routes d) (d_rules d) x (d_firewall_state d) (d_conntrack d) (d_machine d) (d_active d) (d_generation d) (d_urltest d) (d_sched d) (d_timers d) (d_resolver d) (d_lists_inflight d) (d_store d) (d_published d) (d_lifecycle d) (d_operation d) (d_config_op d) (d_accept_posted d) (d_tasks d) (d_jobs d) (d_disk d) (d_lists d) (d_host d).
Definition set_d_firewall_state (x : FirewallState) (d : Daemon) : Daemon :=
  mk_Daemon (d_config d) (d_config_path d) (d_marks d) (d_netlink d) (d_routes d) (d_rules d) (d_firewall d) x (d_conntrack d) (d_machine d) (d_active d) (d_generation d) (d_urltest d) (d_sched d) (d_timers d) (d_resolver d) (d_lists_inflight d) (d_store d) (d_published d) (d_lifecycle d) (d_operation d) (d_config_op d) (d_accept_posted d) (d_tasks d) (d_jobs d) (d_disk d) (d_lists d) (d_host d).
Definition set_d_conntrack (x : ConntrackManager) (d : Daemon) : Daemon :=
  mk_Daemon (d_config d) (d_config_path d) (d_marks d) (d_netlink d) (d_routes d) (d_rules d) (d_firewall d) (d_firewall_state d) x (d_machine d) (d_active d) (d_generation d) (d_urltest d) (d_sched d) (d_timers d) (d_resolver d) (d_lists_inflight d) (d_store d) (d_published d) (d_lifecycle d) (d_operation d) (d_config_op d) (d_accept_posted d) (d_tasks d) (d_jobs d) (d_disk d) (d_lists d) (d_host d).
Definition set_d_machine (x : RuntimeStateMachine) (d : Daemon) : Daemon :=
  mk_Daemon (d_config d) (d_config_path d) (d_marks d) (d_netlink d) (d_routes d) (d_rules d) (d_firewall d) (d_firewall_state d) (d_conntrack d) x (d_active d) (d_generation d) (d_urltest d) (d_sched d) (d_timers d) (d_resolver d) (d_lists_inflight d) (d_store d) (d_published d) (d_lifecycle d) (d_operation d) (d_config_op d) (d_accept_posted d) (d_tasks d) (d_jobs d) (d_disk d) (d_lists d) (d_host d).
Definition set_d_active (x : bool) (d : Daemon) : Daemon :=
  mk_Daemon (d_config d) (d_config_path d) (d_marks d) (d_netlink d) (d_routes d) (d_rules d) (d_firewall d) (d_firewall_state d) (d_conntrack d) (d_machine d) x (d_generation d) (d_urltest d) (d_sched d) (d_timers d) (d_resolver d) (d_lists_inflight d) (d_store d) (d_published d) (d_lifecycle d) (d_operation d) (d_config_op d) (d_accept_posted d) (d_tasks d) (d_jobs d) (d_disk d) (d_lists d) (d_host d).
Definition set_d_generation (x : Z) (d : Daemon) : Daemon :=
  mk_Daemon (d_config d) (d_config_path d) (d_marks d) (d_netlink d) (d_routes d) (d_rules d) (d_firewall d) (d_firewall_state d) (d_conntrack d) (d_machine d) (d_active d) x (d_urltest d) (d_sched d) (d_timers d) (d_resolver d) (d_lists_inflight d) (d_store d) (d_published d) (d_lifecycle d) (d_operation d) (d_config_op d) (d_accept_posted d) (d_tasks d) (d_jobs d) (d_disk d) (d_lists d) (d_host d).
Definition set_d_urltest (x : option UrltestManager) (d : Daemon) : Daemon :=
  mk_Daemon (d_config d) (d_config_path d) (d_marks d) (d_netlink d) (d_routes d) (d_rules d) (d_firewall d) (d_firewall_state d) (d_conntrack d) (d_machine d) (d_active d) (d_generation d) x (d_sched d) (d_timers d) (d_resolver d) (d_lists_inflight d) (d_store d) (d_published d) (d_lifecycle d) (d_operation d) (d_config_op d) (d_accept_posted d) (d_tasks d) (d_jobs d) (d_disk d) (d_lists d) (d_host d).
Definition set_d_sched (x : S) (d : Daemon) : Daemon :=
  mk_Daemon (d_config d) (d_config_path d) (d_marks d) (d_netlink d) (d_routes d) (d_rules d) (d_firewall d) (d_firewall_state d) (d_conntrack d) (d_machine d) (d_active d) (d_generation d) (d_urltest d) x (d_timers d) (d_resolver d) (d_lists_inflight d) (d_store d) (d_published d) (d_lifecycle d) (d_operation d) (d_config_op d) (d_accept_posted d) (d_tasks d) (d_jobs d) (d_disk d) (d_lists d) (d_host d).
Definition set_d_timers (x : Timers) (d : Daemon) : Daemon :=
  mk_Daemon (d_config d) (d_config_path d) (d_marks d) (d_netlink d) (d_routes d) (d_rules d) (d_firewall d) (d_firewall_state d) (d_conntrack d) (d_machine d) (d_active d) (d_generation d) (d_urltest d) (d_sched d) x (d_resolver d) (d_lists_inflight d) (d_store d) (d_published d) (d_lifecycle d) (d_operation d) (d_config_op d) (d_accept_posted d) (d_tasks d) (d_jobs d) (d_disk d) (d_lists d) (d_host d).
Definition set_d_resolver (x : ResolverPart) (d : Daemon) : Daemon :=
  mk_Daemon (d_config d) (d_config_path d) (d_marks d) (d_netlink d) (d_routes d) (d_rules d) (d_firewall d) (d_firewall_state d) (d_conntrack d) (d_machine d) (d_active d) (d_generation d) (d_urltest d) (d_sched d) (d_timers d) x (d_lists_inflight d) (d_store d) (d_published d) (d_lifecycle d) (d_operation d) (d_config_op d) (d_accept_posted d) (d_tasks d) (d_jobs d) (d_disk d) (d_lists d) (d_host d).
Definition set_d_lists_inflight (x : bool) (d : Daemon) : Daemon :=
  mk_Daemon (d_config d) (d_config_path d) (d_marks d) (d_netlink d) (d_routes d) (d_rules d) (d_firewall d) (d_firewall_state d) (d_conntrack d) (d_machine d) (d_active d) (d_generation d) (d_urltest d) (d_sched d) (d_timers d) (d_resolver d) x (d_store d) (d_published d) (d_lifecycle d) (d_operation d) (d_config_op d) (d_accept_posted d) (d_tasks d) (d_jobs d) (d_disk d) (d_lists d) (d_host d).
Definition set_d_store (x : ConfigStore) (d : Daemon) : Daemon :=
  mk_Daemon (d_config d) (d_config_path d) (d_marks d) (d_netlink d) (d_routes d) (d_rules d) (d_firewall d) (d_firewall_state d) (d_conntrack d) (d_machine d) (d_active d) (d_generation d) (d_urltest d) (d_sched d) (d_timers d) (d_resolver d) (d_lists_inflight d) x (d_published d) (d_lifecycle d) (d_operation d) (d_config_op d) (d_accept_posted d) (d_tasks d) (d_jobs d) (d_disk d) (d_lists d) (d_host d).
Definition set_d_published (x : RuntimeStateSnapshot) (d : Daemon) : Daemon :=
  mk_Daemon (d_config d) (d_config_path d) (d_marks d) (d_netlink d) (d_routes d) (d_rules d) (d_firewall d) (d_firewall_state d) (d_conntrack d) (d_machine d) (d_active d) (d_generation d) (d_urltest d) (d_sched d) (d_timers d) (d_resolver d) (d_lists_inflight d) (d_store d) x (d_lifecycle d) (d_operation d) (d_config_op d) (d_accept_posted d) (d_tasks d) (d_jobs d) (d_disk d) (d_lists d) (d_host d).
Definition set_d_lifecycle (x : LifecycleOperationCoordinator unit) (d : Daemon) : Daemon :=
  mk_Daemon (d_config d) (d_config_path d) (d_marks d) (d_netlink d) (d_routes d) (d_rules d) (d_firewall d) (d_firewall_state d) (d_conntrack d) (d_machine d) (d_active d) (d_generation d) (d_urltest d) (d_sched d) (d_timers d) (d_resolver d) (d_lists_inflight d) (d_store d) (d_published d) x (d_operation d) (d_config_op d) (d_accept_posted d) (d_tasks d) (d_jobs d) (d_disk d) (d_lists d) (d_host d).
Definition set_d_operation (x : OperationCoordinator) (d : Daemon) : Daemon :=
  mk_Daemon (d_config d) (d_config_path d) (d_marks d) (d_netlink d) (d_routes d) (d_rules d) (d_firewall d) (d_firewall_state d) (d_conntrack d) (d_machine d) (d_active d) (d_generation d) (d_urltest d) (d_sched d) (d_timers d) (d_resolver d) (d_lists_inflight d) (d_store d) (d_published d) (d_lifecycle d) x (d_config_op d) (d_accept_posted d) (d_tasks d) (d_jobs d) (d_disk d) (d_lists d) (d_host d).
Definition set_d_config_op (x : ConfigOperationState.t) (d : Daemon) : Daemon :=
  mk_Daemon (d_config d) (d_config_path d) (d_marks d) (d_netlink d) (d_routes d) (d_rules d) (d_firewall d) (d_firewall_state d) (d_conntrack d) (d_machine d) (d_active d) (d_generation d) (d_urltest d) (d_sched d) (d_timers d) (d_resolver d) (d_lists_inflight d) (d_store d) (d_published d) (d_lifecycle d) (d_operation d) x (d_accept_posted d) (d_tasks d) (d_jobs d) (d_disk d) (d_lists d) (d_host d).
Definition set_d_accept_posted (x : bool) (d : Daemon) : Daemon :=
  mk_Daemon (d_config d) (d_config_path d) (d_marks d) (d_netlink d) (d_routes d) (d_rules d) (d_firewall d) (d_firewall_state d) (d_conntrack d) (d_machine d) (d_active d) (d_generation d) (d_urltest d) (d_sched d) (d_timers d) (d_resolver d) (d_lists_inflight d) (d_store d) (d_published d) (d_lifecycle d) (d_operation d) (d_config_op d) x (d_tasks d) (d_jobs d) (d_disk d) (d_lists d) (d_host d).
Definition set_d_tasks (x : list task) (d : Daemon) : Daemon :=
  mk_Daemon (d_config d) (d_config_path d) (d_marks d) (d_netlink d) (d_routes d) (d_rules d) (d_firewall d) (d_firewall_state d) (d_conntrack d) (d_machine d) (d_active d) (d_generation d) (d_urltest d) (d_sched d) (d_timers d) (d_resolver d) (d_lists_inflight d) (d_store d) (d_published d) (d_lifecycle d) (d_operation d) (d_config_op d) (d_accept_posted d) x (d_jobs d) (d_disk d) (d_lists d) (d_host d).
Definition set_d_jobs (x : list job) (d : Daemon) : Daemon :=
  mk_Daemon (d_config d) (d_config_path d) (d_marks d) (d_netlink d) (d_routes d) (d_rules d) (d_firewall d) (d_firewall_state d) (d_conntrack d) (d_machine d) (d_active d) (d_generation d) (d_urltest d) (d_sched d) (d_timers d) (d_resolver d) (d_lists_inflight d) (d_store d) (d_published d) (d_lifecycle d) (d_operation d) (d_config_op d) (d_accept_posted d) (d_tasks d) x (d_disk d) (d_lists d) (d_host d).
Definition set_d_disk (x : D) (d : Daemon) : Daemon :=
  mk_Daemon (d_config d) (d_config_path d) (d_marks d) (d_netlink d) (d_routes d) (d_rules d) (d_firewall d) (d_firewall_state d) (d_conntrack d) (d_machine d) (d_active d) (d_generation d) (d_urltest d) (d_sched d) (d_timers d) (d_resolver d) (d_lists_inflight d) (d_store d) (d_published d) (d_lifecycle d) (d_operation d) (d_config_op d) (d_accept_posted d) (d_tasks d) (d_jobs d) x (d_lists d) (d_host d).
Definition set_d_lists (x : C) (d : Daemon) : Daemon :=
  mk_Daemon (d_config d) (d_config_path d) (d_marks d) (d_netlink d) (d_routes d) (d_rules d) (d_firewall d) (d_firewall_state d) (d_conntrack d) (d_machine d) (d_active d) (d_generation d) (d_urltest d) (d_sched d) (d_timers d) (d_resolver d) (d_lists_inflight d) (d_store d) (d_published d) (d_lifecycle d) (d_operation d) (d_config_op d) (d_accept_posted d) (d_tasks d) (d_jobs d) (d_disk d) x (d_host d).
Definition set_d_host (x : E) (d : Daemon) : Daemon :=
  mk_Daemon (d_config d) (d_config_path d) (d_marks d) (d_netlink d) (d_routes d) (d_rules d) (d_firewall d) (d_firewall_state d) (d_conntrack d) (d_machine d) (d_active d) (d_generation d) (d_urltest d) (d_sched d) (d_timers d) (d_resolver d) (d_lists_inflight d) (d_store d) (d_published d) (d_lifecycle d) (d_operation d) (d_config_op d) (d_accept_posted d) (d_tasks d) (d_jobs d) (d_disk d) (d_lists d) x.

End state.
Arguments Daemon : clear implicits.

(** ** The rest of the system *)

(** The members of the list service, the constants of the build, and the parser
    of JSON texts *)
Class DaemonBuild := {
  cache : CacheManager;
  client : HttpClient;
  use_keenetic_api : bool;
  version : cstring;
  hook_path : cstring;
  parse_json : cstring → exc json;
}.

Class InterfaceNetlink (K : Type) := { dump_interfaces : stexc K (list DumpedInterface) }.
Class OneShot (S : Type) := { schedule_oneshot : Z → cstring → stexc S Z; cancel_all : S → S }.
Class ListFiles (C : Type) := { list_files : C → Files }.

(** The clocks (in seconds and in nanoseconds), the probes of the host, the
    Keenetic service, the resolver's hook script and its requests on the control
    socket ([serve_control_socket] is one turn of the wait, [wait_turns] how many
    fit before the deadline), the resolver's answers, commands, the test server,
    the answers of the executors, and what the event loop gets to do while a worker waits. *)
Class Host (E : Type) := {
  unix_timestamp_now_seconds : E → Z * E;
  system_clock_now : E → Z * E;
  system_ipv6_supported : E → bool;
  resolved_backend : E → Config → exc FirewallBackend.t;
  iptables_ipv6_supported : E → bool;
  nft_ipv6_supported : E → bool;
  net_devices : E → NetDevices;
  keenetic_addresses : E → exc (list cstring);
  keenetic_static : E → list KeeneticStaticDnsEntry;
  keenetic_upstreams : E → list KeeneticDnsUpstreamEntry;
  refresh_keenetic_dns_address_cache : bool → stexc E KeeneticDnsRefreshStatus.t;
  system_info : E → SystemInfo;
  hook_command_executor : list cstring → stexc E Z;
  resolver_stream_completed : E → Z;
  serve_control_socket : E → E;
  wait_turns : E → nat;
  query_resolver_config_hash_txt : cstring → nat → E → exc ResolverConfigHashProbeResult;
  probe_clock : E → nat → Z;
  conntrack_command : list cstring → stexc E CommandResult;
  start_dns_probe : DnsProbeServerSettings → stexc E unit;
  stop_dns_probe : E → E;
  set_safe_exec_timeouts : Z → Z → E → E;
  register_interface_monitor_fd : stexc E unit;
  urltest_clock : E → nat → Z;
  urltest_results : probe → E → list (cstring * URLTestResult);
  remove_pid_file : E → E;
  executor_accepts : cstring → E → bool * E;
  loop_events : E → list loop_event * E;
  (** whether the loop goes on to the task that a worker waits for: it does not
      once SIGTERM or SIGINT has ended it *)
  loop_serves : E → bool;
}.

(** ** Lifting *)

Section lift.
Context {K F S D C E : Type}.
Abbreviation Daemon := (Daemon K F S D C E).
Abbreviation M := (stexc Daemon).

Definition modify (f : Daemon → Daemon) : M unit := λ d, (Ok tt, f d).
Definition gets {A} (f : Daemon → A) : M A := λ d, (Ok (f d), d).
Definition of_exc {A} (e : exc A) : M A := λ d, (e, d).

Definition on_netlink {A} (m : stexc K A) : M A := λ d, let '(r, k) := m (d_netlink d) in (r, set_d_netlink k d).
Definition on_firewall {A} (m : stexc F A) : M A := λ d, let '(r, f) := m (d_firewall d) in (r, set_d_firewall f d).
Definition on_scheduler {A} (m : stexc S A) : M A := λ d, let '(r, s) := m (d_sched d) in (r, set_d_sched s d).
Definition on_disk {A} (m : stexc D A) : M A := λ d, let '(r, w) := m (d_disk d) in (r, set_d_disk w d).
Definition on_lists {A} (m : stexc C A) : M A := λ d, let '(r, w) := m (d_lists d) in (r, set_d_lists w d).
Definition on_host {A} (m : stexc E A) : M A := λ d, let '(r, e) := m (d_host d) in (r, set_d_host e d).
Definition ask {A} (f : E → A * E) : M A := λ d, let '(a, e) := f (d_host d) in (Ok a, set_d_host e d).
Definition on_route_table {A} (m : stexc (K * RouteTable) A) : M A := λ d,
  let '(r, (k, t)) := m (d_netlink d, d_routes d) in (r, set_d_routes t (set_d_netlink k d)).
Definition on_policy_rules {A} (m : stexc (K * PolicyRuleManager) A) : M A := λ d,
  let '(r, (k, t)) := m (d_netlink d, d_rules d) in (r, set_d_rules t (set_d_netlink k d)).
Definition set_resolver (f : ResolverPart → ResolverPart) : Daemon → Daemon := λ d, set_d_resolver (f (d_resolver d)) d.
Definition set_timers (f : Timers → Timers) : Daemon → Daemon := λ d, set_d_timers (f (d_timers d)) d.

(** [post_control_task], and [try_post] on an executor *)
Definition post_control_task (t : task) : M unit := λ d,
  (Ok tt, if d_accept_posted d then set_d_tasks (d_tasks d ++ [t]) d else d).
Definition try_post `{!Host E} (label : cstring) (j : job) : M bool :=
  ask (executor_accepts label) ≫= λ enqueued : bool,
  if enqueued then modify (λ d, set_d_jobs (d_jobs d ++ [j]) d);; mret true else mret false.

(** The manager of the urltest groups: its probes go to the executor, its calls
    of [on_change_] are [handle_urltest_selection_change], which posts a task *)
Definition on_urltest {A} (m : stexc (UrlTest.world S) A) (manager : UrltestManager) : M A := λ d,
  let '(r, w) := m (mk_world (d_sched d) manager [] [] []) in
  let d := set_d_jobs (d_jobs d ++ (UrltestProbe <$> probes w)) (set_d_urltest (Some (mgr w)) (set_d_sched (sched w) d)) in
  (r, if d_accept_posted d then set_d_tasks (d_tasks d ++ ((λ c, UrltestSelectionChange c.1 c.2) <$> changes w)) d else d).

Definition transition_runtime_or_throw (next : RuntimeState.t) (reason : cstring) : M unit := λ d,
  let '((ok, error), m) := transition next reason [] (d_machine d) in
  if ok then (Ok tt, set_d_machine m d) else (Throw (DaemonError error), d).
(** [(void)runtime_state_machine_.transition(next, reason, ignored)] *)
Definition try_transition (next : RuntimeState.t) (reason : cstring) : M unit :=
  modify (λ d, set_d_machine (transition next reason [] (d_machine d)).2 d).
Definition new_generation : M unit := modify (λ d, set_d_generation (u64 (d_generation d + 1)) d).
End lift.
