(* ===== verification/Scheduler.v ===== *)
(** * The scheduler (src/src/daemon/scheduler.{hpp,cpp}) on the event loop's
      table of descriptors (src/src/daemon/daemon_core.cpp)

    A task is a kernel timer behind a descriptor that the event loop watches.
    The world below has the timers of the process, the descriptors that [epoll]
    watches, the callbacks the daemon keeps for them and the entries of the
    scheduler.  The scheduler runs on the event loop's thread, where [add_fd] and
    [remove_fd] run at once.  It refines a list of tasks in which only a task
    that is due runs. *)

From S2P Require Import Prelude UrlTest DaemonState.

Local Open Scope Z_scope.

(** ** Timers of the kernel *)

(** A [timerfd] on the monotonic clock, in nanoseconds: [None] when disarmed, the
    interval zero when it fires once *)
Record timer := mk_timer { t_deadline : option Z; t_interval : Z }.

(** The expirations a [read] would report; zero is [EAGAIN]. *)
Definition expirations (now : Z) (t : timer) : Z :=
  match t_deadline t with
  | None => 0
  | Some d => if now <? d then 0 else if t_interval t =? 0 then 1 else 1 + (now - d) / t_interval t
  end.
(** The timer after a [read] that reported expirations *)
Definition acknowledge (now : Z) (t : timer) : timer :=
  mk_timer (d ← t_deadline t; if t_interval t =? 0 then None else Some (d + expirations now t * t_interval t)) (t_interval t).
Definition is_due (now : Z) (t : timer) : bool := 0 <? expirations now t.

(** ** The world *)

Inductive fd_callback := OnTimer (timer_fd : Z) | OtherCallback.

Record TimerEntry (A : Type) := mk_TimerEntry {
  e_id : Z;
  e_timer_fd : Z;
  e_callback : option A; (* an empty std::function is None *)
  e_repeating : bool;
  e_label : cstring;
}.
Arguments mk_TimerEntry {A}.
Arguments e_id {A}.
Arguments e_timer_fd {A}.
Arguments e_callback {A}.
Arguments e_repeating {A}.
Arguments e_label {A}.

Record world (A : Type) := mk_world {
  w_now : Z;
  w_timers : gmap Z timer; (* the open timerfds *)
  w_other : gset Z; (* the other open descriptors *)
  w_watched : gset Z; (* epoll_fd_ *)
  w_fd_entries : list (Z * fd_callback); (* fd_entries_ *)
  w_entries : list (TimerEntry A); (* entries_ *)
  w_next_id : Z; (* next_id_ *)
  w_faults : list bool; (* which of the next system calls fail *)
  w_errno : cstring; (* strerror(errno) *)
}.
Arguments mk_world {A}.
Arguments w_now {A}.
Arguments w_timers {A}.
Arguments w_other {A}.
Arguments w_watched {A}.
Arguments w_fd_entries {A}.
Arguments w_entries {A}.
Arguments w_next_id {A}.
Arguments w_faults {A}.
Arguments w_errno {A}.

(** POSIX gives the lowest descriptor that is not open. *)
Definition lowest_free (used : gset Z) : Z :=
  match List.find (λ fd, negb (bool_decide (fd ∈ used))) (Z.of_nat <$> seq 0 (Datatypes.S (size used))) with
  | Some fd => fd
  | None => 0
  end.

Section scheduler.
Context {A : Type}.
Abbreviation world := (world A).
Abbreviation M := (stexc world).

Definition set_kernel (timers : gmap Z timer) (watched : gset Z) (w : world) : world :=
  mk_world (w_now w) timers (w_other w) watched (w_fd_entries w) (w_entries w) (w_next_id w) (w_faults w) (w_errno w).
Definition set_entries (l : list (TimerEntry A)) (w : world) : world :=
  mk_world (w_now w) (w_timers w) (w_other w) (w_watched w) (w_fd_entries w) l (w_next_id w) (w_faults w) (w_errno w).
Definition set_fd_entries (l : list (Z * fd_callback)) (w : world) : world :=
  mk_world (w_now w) (w_timers w) (w_other w) (w_watched w) l (w_entries w) (w_next_id w) (w_faults w) (w_errno w).
Definition set_next_id (n : Z) (w : world) : world :=
  mk_world (w_now w) (w_timers w) (w_other w) (w_watched w) (w_fd_entries w) (w_entries w) n (w_faults w) (w_errno w).
Definition set_faults (l : list bool) (w : world) : world :=
  mk_world (w_now w) (w_timers w) (w_other w) (w_watched w) (w_fd_entries w) (w_entries w) (w_next_id w) l (w_errno w).

(** Whether the next system call fails for want of resources *)
Definition fault : M bool := λ w,
  match w_faults w with [] => (Ok false, w) | b :: l => (Ok b, set_faults l w) end.
Definition close (fd : Z) (w : world) : world := set_kernel (delete fd (w_timers w)) (w_watched w ∖ {[fd]}) w.

(** ** The table of the event loop *)

Definition add_fd (fd : Z) (cb : fd_callback) : M unit :=
  failed ← fault;
  (λ w, if failed || bool_decide (fd ∈ w_watched w) then (Throw (DaemonError ("epoll_ctl add fd failed: " ++ w_errno w)), w)
        else (Ok tt, set_fd_entries (w_fd_entries w ++ [(fd, cb)]) (set_kernel (w_timers w) (w_watched w ∪ {[fd]}) w))) : M unit.
Definition remove_fd (fd : Z) (w : world) : world :=
  set_fd_entries (filter (λ e, e.1 ≠ fd) (w_fd_entries w)) (set_kernel (w_timers w) (w_watched w ∖ {[fd]}) w).

(** ** Scheduling *)

(** [duration_to_timespec] of milliseconds, in seconds and nanoseconds *)
Definition duration_to_timespec (ms : Z) : Z * Z := (ms ÷ 1000, (ms - 1000 * (ms ÷ 1000)) * 1000000).
Definition timespec_ok (ts : Z * Z) : bool := (0 <=? ts.1) && (0 <=? ts.2) && (ts.2 <? 1000000000).
Definition timespec_ns (ts : Z * Z) : Z := ts.1 * 1000000000 + ts.2.
(** [timerfd_settime]: a value of zero disarms the timer. *)
Definition armed (now : Z) (value interval : Z * Z) : timer :=
  mk_timer (if timespec_ns value =? 0 then None else Some (now + timespec_ns value)) (timespec_ns interval).

Definition create_timerfd (initial interval : Z) : M Z :=
  fault ≫= λ failed : bool, (λ w,
  if failed then (Throw (SchedulerError ("timerfd_create failed: " ++ w_errno w)), w)
  else
    let fd := lowest_free (dom (w_timers w) ∪ w_other w) in
    let value := duration_to_timespec initial in
    let period := duration_to_timespec interval in
    let w := set_kernel (<[fd := mk_timer None 0]> (w_timers w)) (w_watched w) w in
    if timespec_ok value && timespec_ok period
    then (Ok fd, set_kernel (<[fd := armed (w_now w) value period]> (w_timers w)) (w_watched w) w)
    else (Throw (SchedulerError ("timerfd_settime failed: " ++ w_errno w)), close fd w)) : M Z.

(** [id = next_id_++]: the increment of the largest [int] is undefined. *)
Definition INT_MAX : Z := 2 ^ 31 - 1.
Definition take_id : M Z := λ w,
  if INT_MAX <=? w_next_id w then (Undefined, w) else (Ok (w_next_id w), set_next_id (w_next_id w + 1) w).

Definition push_entry (e : TimerEntry A) : M unit := λ w, (Ok tt, set_entries (w_entries w ++ [e]) w).

Definition schedule_repeating (interval : Z) (cb : option A) (label : cstring) : M Z :=
  fd ← create_timerfd interval interval;
  id ← take_id;
  add_fd fd (OnTimer fd);;
  push_entry (mk_TimerEntry id fd cb true label);;
  mret id.
Definition schedule_oneshot (delay : Z) (cb : option A) (label : cstring) : M Z :=
  fd ← create_timerfd delay 0;
  id ← take_id;
  add_fd fd (OnTimer fd);;
  push_entry (mk_TimerEntry id fd cb false label);;
  mret id.

(** ** Firing and cancelling *)

Definition find_fd (fd : Z) (l : list (TimerEntry A)) : option (TimerEntry A) :=
  List.find (λ e, e_timer_fd e =? fd) l.

(** [daemon_.remove_fd(fd, true, ...); close(fd);] *)
Definition remove_and_close (fd : Z) (w : world) : world := close fd (remove_fd fd w).
Definition remove_entry (timer_fd : Z) (w : world) : world :=
  remove_and_close timer_fd (set_entries (filter (λ e, e_timer_fd e ≠ timer_fd) (w_entries w)) w).

(** The callback that [on_timer] calls last, when it calls one *)
Definition on_timer (timer_fd : Z) (w : world) : option A * world :=
  match w_timers w !! timer_fd with
  | None => (None, w)
  | Some t =>
      if negb (is_due (w_now w) t) then (None, w)
      else
        let w := set_kernel (<[timer_fd := acknowledge (w_now w) t]> (w_timers w)) (w_watched w) w in
        match find_fd timer_fd (w_entries w) with
        | Some e =>
            match e_callback e with
            | Some cb => (Some cb, if e_repeating e then w else remove_entry timer_fd w)
            | None => (None, w)
            end
        | None => (None, w)
        end
  end.

(** [dispatch_event_fd] for a descriptor that the daemon keeps in [fd_entries_] *)
Definition dispatch_event_fd (fd : Z) (w : world) : option A * world :=
  match List.find (λ e, e.1 =? fd) (w_fd_entries w) with
  | Some (_, OnTimer timer_fd) => on_timer timer_fd w
  | Some (_, OtherCallback) | None => (None, w)
  end.

(** [entries_.erase] of the first entry with the id *)
Fixpoint erase_id (task_id : Z) (l : list (TimerEntry A)) : option (Z * list (TimerEntry A)) :=
  match l with
  | [] => None
  | e :: l => if e_id e =? task_id then Some (e_timer_fd e, l)
              else match erase_id task_id l with Some (fd, l) => Some (fd, e :: l) | None => None end
  end.
Definition cancel (task_id : Z) (w : world) : world :=
  match erase_id task_id (w_entries w) with
  | None => w
  | Some (fd, l) => let w := set_entries l w in if 0 <=? fd then remove_and_close fd w else w
  end.
Definition cancel_all (w : world) : world :=
  foldl (λ w fd, remove_and_close fd w) (set_entries [] w) (e_timer_fd <$> w_entries w).
Definition scheduler_size (w : world) : nat := length (w_entries w).

(** What [epoll_wait] reports: the watched timers that have expired *)
Definition ready (w : world) (fd : Z) : Prop := fd ∈ w_watched w ∧ ∃ t, w_timers w !! fd = Some t ∧ is_due (w_now w) t = true.
End scheduler.

(** ** The specification: a list of tasks *)

Record task (A : Type) := mk_task { task_id : Z; task_callback : option A; task_repeating : bool; task_timer : timer }.
Arguments mk_task {A}.
Arguments task_id {A}.
Arguments task_callback {A}.
Arguments task_repeating {A}.
Arguments task_timer {A}.

Inductive op (A : Type) :=
  | Schedule (repeating : bool) (ms : Z) (cb : option A) (label : cstring)
  | Cancel (id : Z)
  | CancelAll
  | Wait (ns : Z)
  | Event (fd : Z).
Arguments Schedule {A}.
Arguments Cancel {A}.
Arguments CancelAll {A}.
Arguments Wait {A}.
Arguments Event {A}.
Inductive result (A : Type) := Scheduled (id : Z) | Refused (e : exn) | Ran (cb : option A) | Done.
Arguments Scheduled {A}.
Arguments Refused {A}.
Arguments Ran {A}.
Arguments Done {A}.

Section spec.
Context {A : Type}.
Abbreviation world := (world A).
Abbreviation task := (task A).

(** What happens to the scheduler on the event loop: a call of the daemon, time
    that passes, and an event that [epoll] reported, now or earlier in the batch *)
Definition wait (ns : Z) (w : world) : world :=
  mk_world (w_now w + ns) (w_timers w) (w_other w) (w_watched w) (w_fd_entries w) (w_entries w) (w_next_id w) (w_faults w) (w_errno w).
Definition do_op (o : op A) (w : world) : exc (result A) * world :=
  match o with
  | Schedule repeating ms cb label =>
      match (if repeating then schedule_repeating ms cb label else schedule_oneshot ms cb label) w with
      | (Ok id, w) => (Ok (Scheduled id), w)
      | (Throw e, w) => (Ok (Refused e), w)
      | (Undefined, w) => (Undefined, w)
      end
  | Cancel id => (Ok Done, cancel id w)
  | CancelAll => (Ok Done, cancel_all w)
  | Wait ns => (Ok Done, wait (Z.max 0 ns) w)
  | Event fd => let '(cb, w) := dispatch_event_fd fd w in (Ok (Ran cb), w)
  end.
Fixpoint do_ops (l : list (op A)) (w : world) : exc (list (result A)) * world :=
  match l with
  | [] => (Ok [], w)
  | o :: l =>
      match do_op o w with
      | (Ok r, w) => let '(rs, w) := do_ops l w in (r' ← rs; mret (r :: r'), w)
      | (Throw e, w) => (Throw e, w)
      | (Undefined, w) => (Undefined, w)
      end
  end.

(** A task first runs when its delay is over, then at every interval. *)
Definition new_timer (now : Z) (repeating : bool) (ms : Z) : timer :=
  mk_timer (Some (now + ms * 1000000)) (if repeating then ms * 1000000 else 0).
Definition rearmed (now : Z) (t : task) : task :=
  mk_task (task_id t) (task_callback t) (task_repeating t) (acknowledge now (task_timer t)).

Inductive spec_step (now : Z) : op A → result A → list task → list task → Prop :=
  | SpecSchedule repeating ms cb label id l :
      0 < ms → 0 < id → (∀ t, t ∈ l → task_id t < id) →
      spec_step now (Schedule repeating ms cb label) (Scheduled id) l (l ++ [mk_task id cb repeating (new_timer now repeating ms)])
  | SpecRefuse repeating ms cb label e l : spec_step now (Schedule repeating ms cb label) (Refused e) l l
  | SpecCancel id l : spec_step now (Cancel id) Done l (filter (λ t, task_id t ≠ id) l)
  | SpecCancelAll l : spec_step now CancelAll Done l []
  | SpecWait ns l : spec_step now (Wait ns) Done l l
  | SpecRun fd l l' t cb :
      is_due now (task_timer t) = true → task_callback t = Some cb →
      spec_step now (Event fd) (Ran (Some cb)) (l ++ t :: l') (l ++ (if task_repeating t then [rearmed now t] else []) ++ l')
  | SpecEmpty fd l l' t :
      is_due now (task_timer t) = true → task_callback t = None →
      spec_step now (Event fd) (Ran None) (l ++ t :: l') (l ++ rearmed now t :: l')
  | SpecQuiet fd l : spec_step now (Event fd) (Ran None) l l.

(** A delay of zero, which disarms the timer, is left to [zero_delay_never_runs]. *)
Definition some_delay (o : op A) : Prop := match o with Schedule _ ms _ _ => ms ≠ 0 | _ => True end.

Definition after (o : op A) (now : Z) : Z := match o with Wait ns => now + Z.max 0 ns | _ => now end.
Inductive spec_run : Z → list (op A) → list (result A) → list task → list task → Prop :=
  | SpecNil now l : spec_run now [] [] l l
  | SpecCons now o os r rs l l' l'' :
      spec_step now o r l l' → spec_run (after o now) os rs l' l'' → spec_run now (o :: os) (r :: rs) l l''.

(** The tasks of a world *)
Definition timer_of (w : world) (fd : Z) : timer := default (mk_timer None 0) (w_timers w !! fd).
Definition task_of (w : world) (e : TimerEntry A) : task :=
  mk_task (e_id e) (e_callback e) (e_repeating e) (timer_of w (e_timer_fd e)).
Definition tasks (w : world) : list task := task_of w <$> w_entries w.

(** ** The invariant *)

Definition entry_fds (w : world) : list Z := e_timer_fd <$> w_entries w.

Record sched_ok (w : world) : Prop := {
  so_fds : NoDup (entry_fds w);
  so_ids : NoDup (e_id <$> w_entries w);
  so_next : 0 < w_next_id w;
  so_id : ∀ e, e ∈ w_entries w → 0 < e_id e < w_next_id w;
  so_fd : ∀ fd, fd ∈ entry_fds w → 0 ≤ fd ∧ is_Some (w_timers w !! fd) ∧ fd ∈ w_watched w ∧ (fd, OnTimer fd) ∈ w_fd_entries w;
  so_table : ∀ fd cb, (fd, cb) ∈ w_fd_entries w → (cb = OnTimer fd ∧ fd ∈ entry_fds w) ∨ (cb = OtherCallback ∧ fd ∈ w_other w);
  so_keys : NoDup (w_fd_entries w).*1;
  so_watched : ∀ fd, fd ∈ w_watched w → fd ∈ entry_fds w ∨ fd ∈ w_other w;
  so_other : ∀ fd, is_Some (w_timers w !! fd) → fd ∉ w_other w;
  so_interval : ∀ fd t, w_timers w !! fd = Some t → 0 ≤ t_interval t;
}.

(** ** Timers *)

Lemma expirations_nonneg now t : 0 ≤ t_interval t → 0 ≤ expirations now t.
Proof.
  intros Hi. unfold expirations. destruct (t_deadline t) as [d|]; [|done]. destruct (now <? d) eqn:Hd; [done|].
  destruct (t_interval t =? 0) eqn:H0; [done|]. pose proof (Z.div_pos (now - d) (t_interval t)). lia.
Qed.
(** What was read is not read again. *)
Lemma acknowledged_not_due now t : 0 ≤ t_interval t → is_due now (acknowledge now t) = false.
Proof.
  intros Hi. unfold is_due, acknowledge, expirations at 1. cbn [t_deadline t_interval]. destruct (t_deadline t) as [d|] eqn:Hd; cbn; [|done].
  destruct (t_interval t =? 0) eqn:H0; [done|]. unfold expirations. rewrite Hd, H0. destruct (now <? d) eqn:Hn.
  - by replace (now <? d + 0 * t_interval t) with true by lia.
  - assert (t_interval t * ((now - d) / t_interval t) ≤ now - d < t_interval t * ((now - d) / t_interval t) + t_interval t).
    { pose proof (Z.mul_div_le (now - d) (t_interval t)). pose proof (Z.mul_succ_div_gt (now - d) (t_interval t)). lia. }
    replace (now <? _) with true; [done|]. symmetry. apply Z.ltb_lt. nia.
Qed.

Lemma lowest_free_ok used : 0 ≤ lowest_free used ∧ lowest_free used ∉ used.
Proof.
  unfold lowest_free. destruct (List.find _ _) as [fd|] eqn:Hf.
  - apply List.find_some in Hf as [Hin Hn]. split.
    + apply list_elem_of_In, list_elem_of_fmap in Hin as (n & -> & _). lia.
    + apply negb_true_iff, bool_decide_eq_false in Hn. done.
  - exfalso. set (l := Z.of_nat <$> seq 0 (Datatypes.S (size used))) in Hf.
    assert (Hsub : list_to_set l ⊆ used).
    { intros x Hx. apply elem_of_list_to_set, list_elem_of_In in Hx. pose proof (List.find_none _ _ Hf x Hx) as H.
      apply negb_false_iff, bool_decide_eq_true in H. done. }
    apply subseteq_size in Hsub. rewrite size_list_to_set in Hsub; [|apply (NoDup_fmap_2 _), NoDup_seq; intros ???; lia].
    unfold l in Hsub. rewrite length_fmap, length_seq in Hsub. lia.
Qed.

(** ** Removing an entry *)

Lemma remove_entry_entries fd (w : world) : w_entries (remove_entry fd w) = filter (λ e, e_timer_fd e ≠ fd) (w_entries w).
Proof. done. Qed.
Lemma remove_entry_fds fd (w : world) x : x ∈ entry_fds (remove_entry fd w) ↔ x ≠ fd ∧ x ∈ entry_fds w.
Proof.
  unfold entry_fds. rewrite remove_entry_entries, !list_elem_of_fmap. setoid_rewrite list_elem_of_filter. naive_solver.
Qed.
Lemma filter_sublist_fmap {B C} (f : B → C) (P : B → Prop) `{∀ x, Decision (P x)} l : NoDup (f <$> l) → NoDup (f <$> filter P l).
Proof. intros H'. eapply sublist_NoDup; [exact H'|]. apply (fmap_sublist f), sublist_filter. Qed.

Lemma remove_entry_ok fd (w : world) : sched_ok w → fd ∈ entry_fds w → sched_ok (remove_entry fd w).
Proof.
  intros [] Hfd. split.
  - by apply filter_sublist_fmap.
  - by apply filter_sublist_fmap.
  - done.
  - intros e He. rewrite remove_entry_entries in He. apply list_elem_of_filter in He as [_ He]. eauto.
  - intros x Hx. apply remove_entry_fds in Hx as [Hne Hx]. destruct (so_fd0 x Hx) as (? & ? & ? & ?). cbn. split_and!; [done|..].
    + by rewrite lookup_delete_ne.
    + set_solver.
    + by apply list_elem_of_filter.
  - intros x cb Hx. cbn in Hx. apply list_elem_of_filter in Hx as [Hne Hx]. cbn in Hne. rewrite remove_entry_fds. destruct (so_table0 x cb Hx); naive_solver.
  - by apply filter_sublist_fmap.
  - intros x Hx. cbn in Hx. rewrite remove_entry_fds. destruct (so_watched0 x); set_solver.
  - intros x Hx. cbn in Hx. apply so_other0. destruct Hx as [t [_ Ht]%lookup_delete_Some]. eauto.
  - intros x t Hx. cbn in Hx. apply lookup_delete_Some in Hx as [_ Hx]. eauto.
Qed.
Lemma remove_entry_tasks fd (w : world) :
  tasks (remove_entry fd w) = task_of w <$> filter (λ e, e_timer_fd e ≠ fd) (w_entries w).
Proof.
  unfold tasks. rewrite remove_entry_entries. apply list_fmap_ext. intros i e He. unfold task_of, timer_of. cbn.
  apply list_elem_of_lookup_2, list_elem_of_filter in He as [Hne _]. by rewrite lookup_delete_ne.
Qed.

Lemma filter_keeps_all {B} (P : B → Prop) `{∀ x, Decision (P x)} (l : list B) : (∀ x, x ∈ l → P x) → filter P l = l.
Proof.
  induction l as [|x l IH]; intros Hall; [done|]. rewrite filter_cons_True by (apply Hall; left). f_equal. apply IH. intros y Hy. apply Hall. by right.
Qed.
(** The entries behind distinct descriptors: one is found by its descriptor. *)
Lemma find_fd_spec fd (w : world) e : sched_ok w → e ∈ w_entries w → e_timer_fd e = fd → find_fd fd (w_entries w) = Some e.
Proof.
  intros [Hnd _ _ _ _ _ _ _ _ _] He <-. unfold entry_fds in Hnd. revert Hnd He. generalize (w_entries w). induction l as [|e' l IH]; [by intros _ ?%elem_of_nil|].
  cbn. intros [Hn Hnd]%NoDup_cons He. destruct (e_timer_fd e' =? e_timer_fd e) eqn:Heq.
  - apply Z.eqb_eq in Heq. apply elem_of_cons in He as [->|He]; [done|]. exfalso. apply Hn. rewrite Heq. by apply list_elem_of_fmap_2.
  - apply elem_of_cons in He as [->|He]; [lia|]. by apply IH.
Qed.
Lemma filter_out fd (w : world) l e l' : sched_ok w → w_entries w = l ++ e :: l' → e_timer_fd e = fd →
  filter (λ e, e_timer_fd e ≠ fd) (w_entries w) = l ++ l'.
Proof.
  intros [Hnd _ _ _ _ _ _ _ _ _] He <-. unfold entry_fds in Hnd. rewrite He in *. rewrite fmap_app, fmap_cons in Hnd.
  apply NoDup_app in Hnd as (_ & Hd & [Hn _]%NoDup_cons). rewrite filter_app, filter_cons_False by naive_solver. f_equal.
  - apply filter_keeps_all. intros x Hx Heq. apply (Hd (e_timer_fd x)); [by apply list_elem_of_fmap_2|]. rewrite Heq. left.
  - apply filter_keeps_all. intros x Hx Heq. apply Hn. rewrite <-Heq. by apply list_elem_of_fmap_2.
Qed.

(** ** Cancelling *)

Lemma erase_id_spec id (l : list (TimerEntry A)) : match erase_id id l with
  | Some (fd, l') => ∃ e l1 l2, l = l1 ++ e :: l2 ∧ l' = l1 ++ l2 ∧ e_id e = id ∧ e_timer_fd e = fd
  | None => ∀ e, e ∈ l → e_id e ≠ id
  end.
Proof.
  induction l as [|e l IH]; cbn; [by intros ? ?%elem_of_nil|]. destruct (e_id e =? id) eqn:Heq.
  - exists e, [], l. split_and!; try done. lia.
  - destruct (erase_id id l) as [[fd l']|].
    + destruct IH as (e' & l1 & l2 & -> & -> & ? & ?). by exists e', (e :: l1), l2.
    + intros e' [->|He]%elem_of_cons; [lia|eauto].
Qed.
Lemma set_same_entries (w : world) : set_entries (w_entries w) w = w.
Proof. by destruct w. Qed.

Lemma cancel_eq id (w : world) : sched_ok w →
  (cancel id w = w ∧ ∀ e, e ∈ w_entries w → e_id e ≠ id) ∨
  (∃ e l l', w_entries w = l ++ e :: l' ∧ e_id e = id ∧ cancel id w = remove_entry (e_timer_fd e) w).
Proof.
  intros Hok. unfold cancel. pose proof (erase_id_spec id (w_entries w)) as He. destruct (erase_id id _) as [[fd l']|]; [right|by left].
  destruct He as (e & l1 & l2 & Hl & -> & Hid & Hfd). exists e, l1, l2. split_and!; [done..|].
  assert (0 ≤ fd). { destruct (so_fd w Hok fd); [|done]. rewrite <-Hfd. apply list_elem_of_fmap_2. rewrite Hl. set_solver. }
  replace (0 <=? fd) with true by lia. unfold remove_entry. by rewrite (filter_out (e_timer_fd e) w l1 e l2), Hfd.
Qed.
Lemma cancel_ok id (w : world) : sched_ok w → sched_ok (cancel id w) ∧ tasks (cancel id w) = filter (λ t, task_id t ≠ id) (tasks w).
Proof.
  intros Hok. destruct (cancel_eq id w Hok) as [[-> Hn]|(e & l & l' & Hl & Hid & ->)].
  - split; [done|]. symmetry. apply filter_keeps_all. intros t (e & -> & He)%list_elem_of_fmap. by apply Hn.
  - split. { apply remove_entry_ok; [done|]. apply list_elem_of_fmap_2. rewrite Hl. set_solver. }
    rewrite remove_entry_tasks, (filter_out _ w l e l') by done. unfold tasks. rewrite Hl, !fmap_app, fmap_cons.
    pose proof (so_ids w Hok) as Hnd. rewrite Hl, fmap_app, fmap_cons in Hnd. apply NoDup_app in Hnd as (_ & Hd & [Hn _]%NoDup_cons).
    rewrite filter_app, filter_cons_False by (cbn; naive_solver). f_equal; symmetry; apply filter_keeps_all; intros t (x & -> & Hx)%list_elem_of_fmap Heq; cbn in Heq.
    + apply (Hd (e_id x)); [by apply list_elem_of_fmap_2|]. rewrite Heq, Hid. left.
    + apply Hn. rewrite Hid, <-Heq. by apply list_elem_of_fmap_2.
Qed.

Lemma cancel_all_eq (l : list Z) (w : world) :
  foldl (λ w fd, remove_and_close fd w) (set_entries [] w) l = set_entries [] (foldl (λ w fd, remove_entry fd w) w l).
Proof. revert w. induction l as [|fd l IH]; intros w; [done|]. cbn. by rewrite <-IH. Qed.
Lemma remove_all_ok (l : list Z) (w : world) : sched_ok w → entry_fds w = l →
  sched_ok (foldl (λ w fd, remove_entry fd w) w l) ∧ w_entries (foldl (λ w fd, remove_entry fd w) w l) = [].
Proof.
  revert w. induction l as [|fd l IH]; intros w Hok Hl; cbn.
  - split; [done|]. by apply fmap_nil_inv in Hl.
  - apply IH. { apply remove_entry_ok; [done|]. rewrite Hl. left. }
    unfold entry_fds in *. destruct (w_entries w) as [|e es] eqn:He; [done|]. cbn in Hl. injection Hl as Hfd Hl.
    rewrite remove_entry_entries, (filter_out fd w [] e es) by done. done.
Qed.
Lemma cancel_all_ok (w : world) : sched_ok w → sched_ok (cancel_all w) ∧ tasks (cancel_all w) = [].
Proof.
  intros Hok. unfold cancel_all. rewrite cancel_all_eq. destruct (remove_all_ok (entry_fds w) w Hok eq_refl) as [Hok' Hnil].
  unfold entry_fds in *. set (w' := foldl _ w _) in *. clearbody w'.
  assert (Heq : set_entries [] w' = w') by (rewrite <-Hnil; apply set_same_entries).
  rewrite Heq. unfold tasks. by rewrite Hnil.
Qed.

Lemma cancel_all_keeps (w : world) : w_now (cancel_all w) = w_now w ∧ w_next_id (cancel_all w) = w_next_id w.
Proof.
  unfold cancel_all. rewrite cancel_all_eq. cbn. generalize (e_timer_fd <$> w_entries w). intros l. revert w.
  induction l as [|x l IH]; intros w; cbn; [done|]. apply (IH (remove_entry x w)).
Qed.

(** ** Scheduling *)

Definition used_fds (w : world) : gset Z := dom (w_timers w) ∪ w_other w.
Lemma unused_fd (w : world) fd : sched_ok w → fd ∉ used_fds w → w_timers w !! fd = None ∧ (fd ∉ w_other w) ∧ (fd ∉ entry_fds w) ∧ (fd ∉ w_watched w).
Proof.
  intros Hok Hfd. unfold used_fds in Hfd. apply not_elem_of_union in Hfd as [Ht%not_elem_of_dom Ho].
  assert (He : fd ∉ entry_fds w). { intros Hin. destruct (so_fd w Hok fd Hin) as (_ & [t Hs] & _). congruence. }
  split_and!; [done..|]. intros Hw. by destruct (so_watched w Hok fd Hw).
Qed.

Lemma set_faults_ok l (w : world) : sched_ok w → sched_ok (set_faults l w).
Proof. intros []. by split. Qed.
Lemma set_next_id_ok n (w : world) : sched_ok w → w_next_id w ≤ n → sched_ok (set_next_id n w).
Proof. intros [] Hn. split; cbn; try done; try lia. intros e He. specialize (so_id0 e He). lia. Qed.
Lemma open_timer_ok fd t (w : world) : sched_ok w → fd ∉ w_other w → 0 ≤ t_interval t →
  sched_ok (set_kernel (<[fd := t]> (w_timers w)) (w_watched w) w).
Proof.
  intros [] Ho Hi. split; cbn; try done.
  - intros x Hx. destruct (so_fd0 x Hx) as (? & ? & ? & ?). split_and!; try done. destruct (decide (x = fd)) as [->|].
    + rewrite lookup_insert_eq. by eexists.
    + by rewrite lookup_insert_ne.
  - intros x [t' Hx]. destruct (decide (x = fd)) as [->|]; [done|]. rewrite lookup_insert_ne in Hx by done. eauto.
  - intros x t' Hx. destruct (decide (x = fd)) as [->|]; [rewrite lookup_insert_eq in Hx; congruence|]. rewrite lookup_insert_ne in Hx by done. eauto.
Qed.
Lemma open_timer_tasks fd t (w : world) : fd ∉ entry_fds w → tasks (set_kernel (<[fd := t]> (w_timers w)) (w_watched w) w) = tasks w.
Proof.
  intros Hfd. unfold tasks. cbn. apply list_fmap_ext. intros i e He. unfold task_of, timer_of. cbn. rewrite lookup_insert_ne; [done|].
  intros ->. apply Hfd, list_elem_of_fmap_2. by eapply list_elem_of_lookup_2.
Qed.

Definition register (e : TimerEntry A) (w : world) : world :=
  set_entries (w_entries w ++ [e]) (set_fd_entries (w_fd_entries w ++ [(e_timer_fd e, OnTimer (e_timer_fd e))])
    (set_kernel (w_timers w) (w_watched w ∪ {[e_timer_fd e]}) w)).
Lemma register_ok e (w : world) : sched_ok w → 0 ≤ e_timer_fd e → is_Some (w_timers w !! e_timer_fd e) → e_timer_fd e ∉ w_other w →
  e_timer_fd e ∉ entry_fds w → 0 < e_id e < w_next_id w → (∀ e', e' ∈ w_entries w → e_id e' < e_id e) → sched_ok (register e w).
Proof.
  intros [] H0 Hs Ho Hn Hid Hlt.
  assert (Hin : ∀ x, x ∈ entry_fds (register e w) ↔ x ∈ entry_fds w ∨ x = e_timer_fd e).
  { intros x. unfold entry_fds, register. cbn. rewrite fmap_app. set_solver. }
  split.
  - unfold entry_fds, register. cbn. rewrite fmap_app. apply NoDup_app. split_and!; [done| |apply NoDup_singleton]. set_solver.
  - cbn. rewrite fmap_app. apply NoDup_app. split_and!; [done| |apply NoDup_singleton].
    intros i (e' & -> & He')%list_elem_of_fmap Heq%list_elem_of_singleton. specialize (Hlt e' He'). lia.
  - done.
  - intros e' He'. cbn in He'. apply elem_of_app in He' as [He'| ->%list_elem_of_singleton]; [by apply so_id0|done].
  - intros x [Hx| ->]%Hin; cbn.
    + destruct (so_fd0 x Hx) as (? & ? & ? & ?). split_and!; try done; set_solver.
    + split_and!; try done; set_solver.
  - intros x cb Hx. rewrite Hin. cbn in Hx. apply elem_of_app in Hx as [Hx|[= -> ->]%list_elem_of_singleton]; [|by left; auto].
    destruct (so_table0 x cb Hx); naive_solver.
  - cbn. rewrite fmap_app. apply NoDup_app. split_and!; [done| |apply NoDup_singleton].
    intros x ((y & cb) & -> & Hx)%list_elem_of_fmap Hy%list_elem_of_singleton. cbn in Hy. subst y. destruct (so_table0 _ _ Hx) as [[_ ?]|[_ ?]]; done.
  - intros x Hx. rewrite Hin. cbn in Hx. apply elem_of_union in Hx as [Hx| ->%elem_of_singleton]; [|by auto]. destruct (so_watched0 x Hx); auto.
  - done.
  - done.
Qed.
Lemma register_tasks e (w : world) : tasks (register e w) = tasks w ++ [task_of w e].
Proof. unfold tasks, register. cbn. by rewrite fmap_app. Qed.

(** Both ways of scheduling *)
Definition schedule (repeating : bool) (ms : Z) (cb : option A) (label : cstring) : stexc world Z :=
  if repeating then schedule_repeating ms cb label else schedule_oneshot ms cb label.

Lemma timespec_valid ms : timespec_ok (duration_to_timespec ms) = true ↔ 0 ≤ ms.
Proof.
  unfold timespec_ok, duration_to_timespec. cbn. split.
  - intros [[H1 H2]%andb_prop H3]%andb_prop. apply Z.leb_le in H1, H2. pose proof (Z.quot_rem ms 1000). lia.
  - intros H. pose proof (Z.quot_pos ms 1000). pose proof (Z.quot_rem ms 1000). pose proof (Z.rem_bound_pos ms 1000).
    rewrite !andb_true_iff, !Z.leb_le, Z.ltb_lt. lia.
Qed.
Lemma timespec_value ms : timespec_ns (duration_to_timespec ms) = ms * 1000000.
Proof. unfold timespec_ns, duration_to_timespec. cbn. lia. Qed.
Lemma armed_new now (repeating : bool) ms : ms ≠ 0 → armed now (duration_to_timespec ms) (duration_to_timespec (if repeating then ms else 0)) = new_timer now repeating ms.
Proof.
  intros Hms. unfold armed, new_timer. rewrite !timespec_value. f_equal; [|by destruct repeating].
  by replace (ms * 1000000 =? 0) with false by lia.
Qed.

Lemma fault_eq (w : world) : ∃ b l, fault w = (Ok b, set_faults l w).
Proof. unfold fault. destruct (w_faults w) as [|b l] eqn:Hf; [exists false, []|by exists b, l]. do 2 f_equal. destruct w. cbn in *. by subst. Qed.

Lemma create_timerfd_spec initial interval (w : world) : sched_ok w →
  ∃ l, match create_timerfd initial interval w with
  | (Ok fd, w') => 0 ≤ initial ∧ 0 ≤ interval ∧ 0 ≤ fd ∧ (fd ∉ used_fds w) ∧
      w' = set_kernel (<[fd := armed (w_now w) (duration_to_timespec initial) (duration_to_timespec interval)]> (w_timers w)) (w_watched w) (set_faults l w)
  | (Throw e, w') => w' = set_faults l w
  | (Undefined, _) => False
  end.
Proof.
  intros Hok. unfold create_timerfd, mbind, stexc_bind. destruct (fault_eq w) as (b & l & ->). exists l. destruct b; [done|]. cbn [w_timers w_other set_faults].
  fold (used_fds w). destruct (lowest_free_ok (used_fds w)) as [H0 Hfree]. set (fd := lowest_free _) in *. destruct (unused_fd w fd Hok Hfree) as (Ht & _ & _ & Hw).
  destruct (timespec_ok _ && timespec_ok _) eqn:Hts.
  - apply andb_prop in Hts as [H1%timespec_valid H2%timespec_valid]. split_and!; try done. unfold set_kernel, set_faults. cbn. f_equal. apply insert_insert_eq.
  - unfold close, set_kernel, set_faults. cbn. f_equal; [by apply delete_insert_id|set_solver].
Qed.

Lemma schedule_spec repeating ms cb label (w : world) : sched_ok w → w_next_id w < INT_MAX → ms ≠ 0 →
  match schedule repeating ms cb label w with
  | (Ok id, w') => sched_ok w' ∧ w_now w' = w_now w ∧ w_next_id w' = w_next_id w + 1 ∧ 0 < ms ∧ id = w_next_id w ∧
      tasks w' = tasks w ++ [mk_task id cb repeating (new_timer (w_now w) repeating ms)]
  | (Throw e, w') => sched_ok w' ∧ w_now w' = w_now w ∧ w_next_id w' ≤ w_next_id w + 1 ∧ tasks w' = tasks w
  | (Undefined, _) => False
  end.
Proof.
  intros Hok Hid Hne.
  assert (Heq : schedule repeating ms cb label = (fd ← create_timerfd ms (if repeating then ms else 0); id ← take_id;
    add_fd fd (OnTimer fd);; push_entry (mk_TimerEntry id fd cb repeating label);; mret id)) by by destruct repeating.
  rewrite Heq. clear Heq. unfold mbind, stexc_bind. destruct (create_timerfd_spec ms (if repeating then ms else 0) w Hok) as [l Hc].
  destruct (create_timerfd _ _ w) as [[fd|e|] w1]; [|subst w1; split_and!; [by apply set_faults_ok|done|cbn; lia|done]|done].
  destruct Hc as (Hms & Hp & Hfd & Hfree & ->). rewrite armed_new by done. destruct (unused_fd w fd Hok Hfree) as (Ht & Ho & He & Hw).
  set (w1 := set_kernel (<[fd := _]> _) _ _). assert (Hok1 : sched_ok w1).
  { apply (open_timer_ok fd (new_timer (w_now w) repeating ms) (set_faults l w)); [by apply set_faults_ok|done|]. cbn. destruct repeating; lia. }
  assert (Htasks : tasks w1 = tasks w) by by apply (open_timer_tasks fd _ (set_faults l w)).
  unfold take_id. change (w_next_id w1) with (w_next_id w). replace (INT_MAX <=? w_next_id w) with false by lia.
  set (w2 := set_next_id _ w1). assert (Hok2 : sched_ok w2) by (apply set_next_id_ok; [done|cbn; lia]).
  unfold add_fd, mbind, stexc_bind. destruct (fault_eq w2) as (b & l' & ->). pose proof (set_faults_ok l' w2 Hok2) as Hok3.
  change (w_watched (set_faults l' w2)) with (w_watched w). rewrite (bool_decide_eq_false_2 (fd ∈ w_watched w)) by done.
  destruct b; cbn [orb]; [by split_and!|]. unfold push_entry, mret, stexc_ret.
  change (set_entries _ _) with (register (mk_TimerEntry (w_next_id w) fd cb repeating label) (set_faults l' w2)).
  split_and!; try done; [|lia|].
  - apply register_ok; cbn; try done.
    + rewrite lookup_insert_eq. by eexists.
    + pose proof (so_next w Hok). lia.
    + intros e' He'. by apply (so_id w Hok).
  - rewrite register_tasks. change (tasks (set_faults l' w2)) with (tasks w1). rewrite Htasks. do 2 f_equal.
    unfold task_of, timer_of. cbn. by rewrite lookup_insert_eq.
Qed.

(** ** Events *)

Lemma find_table fd (w : world) cb : NoDup (w_fd_entries w).*1 → (fd, cb) ∈ w_fd_entries w →
  List.find (λ e, e.1 =? fd) (w_fd_entries w) = Some (fd, cb).
Proof.
  generalize (w_fd_entries w). induction l as [|[x c] l IH]; [by intros _ ?%elem_of_nil|]. cbn. intros [Hn Hnd]%NoDup_cons Hin.
  destruct (x =? fd) eqn:Hx.
  - apply Z.eqb_eq in Hx. subst x. apply elem_of_cons in Hin as [[= ->]|Hin]; [done|]. exfalso. apply Hn. by apply (list_elem_of_fmap_2 fst _ (fd, cb)).
  - apply elem_of_cons in Hin as [[= -> ->]|Hin]; [lia|]. by apply IH.
Qed.

(** An event on the descriptor of an entry runs [on_timer] there; no other event does. *)
Lemma dispatch_spec fd (w : world) : sched_ok w →
  (fd ∈ entry_fds w ∧ dispatch_event_fd fd w = on_timer fd w) ∨ dispatch_event_fd fd w = (None, w).
Proof.
  intros Hok. unfold dispatch_event_fd. destruct (List.find _ _) as [[x [tfd|]]|] eqn:Hf; [|by right..].
  apply List.find_some in Hf as [Hin Hx]. cbn in Hx. apply Z.eqb_eq in Hx. subst x. apply list_elem_of_In in Hin.
  destruct (so_table w Hok _ _ Hin) as [[[= ->] ?]|[? _]]; [by left|done].
Qed.

Lemma acknowledge_tasks fd t (w : world) l e l' : sched_ok w → w_timers w !! fd = Some t → w_entries w = l ++ e :: l' → e_timer_fd e = fd →
  tasks (set_kernel (<[fd := acknowledge (w_now w) t]> (w_timers w)) (w_watched w) w) =
  (task_of w <$> l) ++ rearmed (w_now w) (task_of w e) :: (task_of w <$> l').
Proof.
  intros Hok Ht Hl Hfd. unfold tasks. cbn. rewrite Hl, fmap_app, fmap_cons. pose proof (so_fds w Hok) as Hnd. unfold entry_fds in Hnd.
  rewrite Hl, fmap_app, fmap_cons, Hfd in Hnd. apply NoDup_app in Hnd as (_ & Hd & [Hn _]%NoDup_cons). f_equal; [|f_equal].
  - apply list_fmap_ext. intros i x Hx%list_elem_of_lookup_2. unfold task_of, timer_of. cbn. rewrite lookup_insert_ne; [done|].
    intros ->. apply (Hd (e_timer_fd x)); [by apply list_elem_of_fmap_2|left].
  - unfold task_of, rearmed, timer_of. cbn. by rewrite Hfd, lookup_insert_eq, Ht.
  - apply list_fmap_ext. intros i x Hx%list_elem_of_lookup_2. unfold task_of, timer_of. cbn. rewrite lookup_insert_ne; [done|].
    intros ->. apply Hn. by apply list_elem_of_fmap_2.
Qed.

Lemma event_spec fd (w : world) : sched_ok w →
  let '(cb, w') := dispatch_event_fd fd w in
  sched_ok w' ∧ w_now w' = w_now w ∧ w_next_id w' = w_next_id w ∧ spec_step (w_now w) (Event fd) (Ran cb) (tasks w) (tasks w').
Proof.
  intros Hok. destruct (dispatch_spec fd w Hok) as [[Hin ->]| ->]; [|by split_and!; try done; constructor].
  unfold on_timer. destruct (w_timers w !! fd) as [t|] eqn:Ht; [|by split_and!; try done; constructor].
  destruct (is_due (w_now w) t) eqn:Hdue; cbn [negb]; [|by split_and!; try done; constructor].
  apply list_elem_of_fmap in Hin as (e & Hfd & He). pose proof (find_fd_spec fd w e Hok He (eq_sym Hfd)) as Hfind. cbn [w_entries set_kernel].
  rewrite Hfind. apply list_elem_of_split in He as (l & l' & Hl).
  assert (Hok1 : sched_ok (set_kernel (<[fd := acknowledge (w_now w) t]> (w_timers w)) (w_watched w) w)).
  { apply open_timer_ok; [done|by apply (so_other w Hok); rewrite Ht; eexists|apply (so_interval w Hok fd t Ht)]. }
  pose proof (acknowledge_tasks fd t w l e l' Hok Ht Hl (eq_sym Hfd)) as Hack.
  assert (Htimer : task_timer (task_of w e) = t) by (cbn; unfold timer_of; by rewrite <-Hfd, Ht).
  assert (Htasks : tasks w = (task_of w <$> l) ++ task_of w e :: (task_of w <$> l')) by (unfold tasks; by rewrite Hl, fmap_app, fmap_cons).
  rewrite <-Htimer in Hdue. destruct (e_callback e) as [cb|] eqn:Hcb; [destruct (e_repeating e) eqn:Hrep|].
  - split_and!; try done. rewrite Hack, Htasks. pose proof (SpecRun (w_now w) fd (task_of w <$> l) (task_of w <$> l') _ cb Hdue Hcb) as Hs.
    cbn [task_repeating task_of] in Hs. by rewrite Hrep in Hs.
  - split_and!; try done. { apply remove_entry_ok; [done|]. rewrite Hfd. apply list_elem_of_fmap_2. cbn. rewrite Hl. set_solver. }
    rewrite remove_entry_tasks, (filter_out fd _ l e l' Hok1 Hl (eq_sym Hfd)), fmap_app, Htasks.
    pose proof (SpecRun (w_now w) fd (task_of w <$> l) (task_of w <$> l') _ cb Hdue Hcb) as Hs. cbn [task_repeating task_of] in Hs. rewrite Hrep in Hs.
    unfold tasks in Hack. cbn in Hack. rewrite Hl, fmap_app, fmap_cons in Hack. apply app_inj_1 in Hack as [-> Htl]; [|by rewrite !length_fmap].
    apply (f_equal tail) in Htl. cbn [tail] in Htl. by rewrite Htl.
  - split_and!; try done. rewrite Hack, Htasks. by constructor.
Qed.

(** A task that is due is reported, and its event runs it. *)
Lemma due_runs e (w : world) : sched_ok w → e ∈ w_entries w → is_due (w_now w) (timer_of w (e_timer_fd e)) = true →
  ready w (e_timer_fd e) ∧ (dispatch_event_fd (e_timer_fd e) w).1 = e_callback e.
Proof.
  intros Hok He Hdue. assert (Hin : e_timer_fd e ∈ entry_fds w) by by apply list_elem_of_fmap_2.
  destruct (so_fd w Hok _ Hin) as (_ & [t Ht] & Hw & Htab). unfold timer_of in Hdue. rewrite Ht in Hdue. cbn in Hdue. split; [by split; [|exists t]|].
  unfold dispatch_event_fd. rewrite (find_table _ _ _ (so_keys w Hok) Htab). unfold on_timer. rewrite Ht, Hdue. cbn [negb w_entries set_kernel].
  rewrite (find_fd_spec _ w e Hok He eq_refl). by destruct (e_callback e).
Qed.

Lemma do_op_spec o (w : world) : sched_ok w → w_next_id w < INT_MAX → some_delay o →
  ∃ r w', do_op o w = (Ok r, w') ∧ sched_ok w' ∧ w_now w' = after o (w_now w) ∧ w_next_id w' ≤ w_next_id w + 1 ∧
    spec_step (w_now w) o r (tasks w) (tasks w').
Proof.
  intros Hok Hid Hd. destruct o as [repeating ms cb label|id| |ns|fd]; cbn [do_op after some_delay] in *.
  - pose proof (schedule_spec repeating ms cb label w Hok Hid Hd) as Hs. fold (schedule repeating ms cb label).
    destruct (schedule repeating ms cb label w) as [[id|e|] w'].
    + destruct Hs as (Hok' & Hnow & Hn & Hms & -> & Ht). eexists _, w'. split_and!; try done; [lia|]. rewrite Ht. constructor; [done|apply (so_next w Hok)|].
      intros t (e & -> & He)%list_elem_of_fmap. by apply (so_id w Hok).
    + destruct Hs as (Hok' & Hnow & Hn & Ht). eexists _, w'. split_and!; try done. rewrite Ht. constructor.
    + done.
  - destruct (cancel_ok id w Hok) as [Hok' Ht]. eexists _, _. split_and!; try done; rewrite ?Ht; [| |constructor];
      (destruct (cancel_eq id w Hok) as [[-> _]|(? & ? & ? & _ & _ & ->)]; cbn; lia).
  - destruct (cancel_all_ok w Hok) as [Hok' Ht], (cancel_all_keeps w) as [Hnow Hn]. eexists _, _. split_and!; try done; [lia|].
    rewrite Ht. constructor.
  - eexists _, _. split_and!; try done; [|cbn; lia|constructor]. by destruct Hok.
  - pose proof (event_spec fd w Hok) as He. destruct (dispatch_event_fd fd w) as [cb w']. destruct He as (? & ? & Hn & ?). eexists _, w'. split_and!; try done. lia.
Qed.

Lemma do_ops_spec os (w : world) : Forall some_delay os → sched_ok w → w_next_id w + Z.of_nat (length os) ≤ INT_MAX →
  ∃ rs w', do_ops os w = (Ok rs, w') ∧ sched_ok w' ∧ spec_run (w_now w) os rs (tasks w) (tasks w').
Proof.
  intros Hd. revert w. induction Hd as [|o os Ho Hd IH]; intros w Hok Hid.
  - exists [], w. split_and!; try done. constructor.
  - cbn [length] in Hid. destruct (do_op_spec o w Hok) as (r & w1 & Hop & Hok1 & Hnow & Hn & Hstep); [lia|done|].
    destruct (IH w1 Hok1) as (rs & w2 & Hos & Hok2 & Hrun); [lia|]. exists (r :: rs), w2. cbn. rewrite Hop, Hos. split_and!; try done.
    econstructor; [exact Hstep|]. by rewrite <-Hnow.
Qed.

(** C15. The scheduler refines a list of tasks.  For every sequence of calls with
    delays other than zero, of passing time and of events of [epoll], stale ones
    included, the results are those of the specification: a task is due when its
    delay has elapsed, an id is new, a callback runs only for a task
    that is scheduled and due, a task that fires once is gone when it runs, a
    repeating one is not due again before its interval is over, a cancelled one
    never runs.  At the end every task that is due has a descriptor that [epoll]
    reports, and its event runs its callback. *)
Theorem scheduler_refines_task_list os (w : world) : Forall some_delay os → sched_ok w → w_next_id w + Z.of_nat (length os) ≤ INT_MAX →
  ∃ rs w', do_ops os w = (Ok rs, w') ∧ spec_run (w_now w) os rs (tasks w) (tasks w') ∧
    ∀ e, e ∈ w_entries w' → is_due (w_now w') (timer_of w' (e_timer_fd e)) = true →
      ready w' (e_timer_fd e) ∧ (dispatch_event_fd (e_timer_fd e) w').1 = e_callback e.
Proof.
  intros Hd Hok Hid. destruct (do_ops_spec os w Hd Hok Hid) as (rs & w' & Hrun0 & Hok' & Hrun). exists rs, w'. split_and!; [done..|].
  intros e He Hdue. by apply due_runs.
Qed.
End spec.

(** ** The interfaces of the clients *)

(** The callback of a task is known by its label. *)
#[export] Instance scheduler_tasks : TaskScheduler (world cstring) := {|
  UrlTest.schedule_repeating ms label := schedule_repeating ms (Some label) label;
  UrlTest.cancel id := λ w, (Ok tt, cancel id w);
|}.
#[export] Instance scheduler_oneshots : OneShot (world cstring) := {|
  DaemonState.schedule_oneshot ms label := schedule_oneshot ms (Some label) label;
  DaemonState.cancel_all := cancel_all;
|}.

(** ** A scheduler at work *)

Module SchedulerSample.
(** A process with six other descriptors, of which the loop watches three *)
Definition started (faults : list bool) : world cstring :=
  mk_world 0 ∅ (list_to_set [0; 1; 2; 3; 4; 5]) (list_to_set [3; 4; 5]) [(3, OtherCallback)] [] 1 faults "No space left on device".

Lemma started_ok faults : sched_ok (started faults).
Proof.
  assert (Hnil : ∀ {B} (x : B), x ∉ []) by (intros; apply not_elem_of_nil). split; cbn.
  - apply NoDup_nil_2.
  - apply NoDup_nil_2.
  - done.
  - by intros e ?%Hnil.
  - by intros fd ?%Hnil.
  - intros fd cb Hin. apply list_elem_of_singleton in Hin as [= -> ->]. right. split; [done|set_solver].
  - apply NoDup_singleton.
  - set_solver.
  - by intros fd [? Hf].
  - done.
Qed.

(** A repeating and a single task: the events run them when they are due, an event
    that is left over from before does nothing. *)
Definition session : list (op cstring) :=
  [Schedule true 1000 (Some (str "probe")) "probe"; Schedule false 500 (Some (str "retry")) "retry"; Event 7; Wait 600000000; Event 7;
   Event 7; Wait 2500000000; Event 6; Event 6; Cancel 1; Event 6].

Lemma scheduler_refines_task_list_witness :
  Forall some_delay session ∧ sched_ok (started []) ∧ w_next_id (started []) + Z.of_nat (length session) ≤ INT_MAX ∧
  ∃ rs w', do_ops session (started []) = (Ok rs, w') ∧ spec_run 0 session rs [] (tasks w') ∧
    ∀ e, e ∈ w_entries w' → is_due (w_now w') (timer_of w' (e_timer_fd e)) = true →
      ready w' (e_timer_fd e) ∧ (dispatch_event_fd (e_timer_fd e) w').1 = e_callback e.
Proof.
  assert (Hd : Forall some_delay session) by (repeat constructor; cbn; lia).
  split; [exact Hd|]. split; [apply started_ok|]. split; [vm_compute; discriminate|].
  apply (scheduler_refines_task_list session (started [])); [exact Hd|apply started_ok|vm_compute; discriminate].
Defined.
Lemma session_results : (do_ops session (started [])).1 =
  Ok [Scheduled 1; Scheduled 2; Ran None; Done; Ran (Some (str "retry")); Ran None; Done; Ran (Some (str "probe")); Ran None; Done; Ran None].
Proof. vm_compute. reflexivity. Qed.

(** When [epoll] takes no more descriptors the task is refused, and its timer stays open. *)
Lemma refused_task_leaks_timer : let '(r, w) := do_op (Schedule true 1000 (Some (str "probe")) "probe") (started [false; true]) in
  r = Ok (Refused (DaemonError "epoll_ctl add fd failed: No space left on device")) ∧ w_entries w = [] ∧ bool_decide (is_Some (w_timers w !! 6)) = true.
Proof. vm_compute. done. Qed.
(** A task without delay never runs, however long one waits. *)
Lemma zero_delay_never_runs ns : let w := (do_ops [Schedule false 0 (Some (str "now")) "now"; Wait ns] (started [])).2 in
  ¬ ready w 6 ∧ (dispatch_event_fd 6 w).1 = None.
Proof. split; [|done]. intros [_ (t & [= <-] & Hdue)]. done. Qed.
End SchedulerSample.
