(* ===== verification/DaemonRuntime.v ===== *)
(** * The runtime of the daemon (src/src/daemon/daemon_runtime.cpp,
    daemon_resolver.cpp, daemon_dns_probe.cpp)

    What the daemon does to the routes, the firewall, the resolver, the urltest
    groups and the lists, composed from the components that do it. *)

From S2P Require Import Prelude CppString Fwmark Netlink Json ConfigJson ApiJson Runtime RouteTable PolicyRule RoutingReconciler RoutingState.
From S2P Require Import AddrSpec FirewallRules Firewall CircuitBreaker UrlTest ListStreamer Cache ListService ConfigStore.
From S2P Require Import DnsServer DnsProbe DnsTxt Dnsmasq ResolverSync OutboundHealth Cron Validation KeeneticDns DaemonState Config.

Local Open Scope Z_scope.

Definition daemon_outbounds (config : Config) : list Outbound := value_or (outbounds config) [].
Definition daemon_fwmark (config : Config) : FwmarkConfig := value_or (fwmark config) default_FwmarkConfig.

Definition has_system_resolver (config : Config) : bool :=
  match dns config ≫= system_resolver with
  | Some r => negb (bool_decide (resolver_address r = []))
  | None => false
  end.

Definition build_system_resolver_hook_args (hook_path : cstring) (config : Config) (action : cstring) : list cstring :=
  match dns config ≫= system_resolver with
  | None => []
  | Some _ => if bool_decide (action = []) then [] else [hook_path; action]
  end.

(** The order of [std::set<uint32_t>] *)
Definition owned_marks (marks : OutboundMarkMap) : list Z := foldl (λ l m, set_insert m l) [] (in_key_order marks).*2.

Section runtime.
Context {K F S D C E OR OU : Type}.
Context `{RN : !RoutingNetlink K} `{IN : !InterfaceNetlink K} `{NR : !Netlink K RouteSpec OR} `{NU : !Netlink K RuleSpec OU}.
Context `{FW : !Firewall F} `{TS : !TaskScheduler S} `{OS : !OneShot S}.
Context `{CW : !CacheWorld C} `{LF : !ListFiles C} `{CF : !ConfigFiles D} `{HO : !Host E}.
Context {SS : StdSort} {IP : InetPton} {NL : Nlohmann} {JT : JsonText} {JD : JsonDump} `{LT : !LocalTime}.
Context {DB : DaemonBuild}.

Abbreviation Daemon := (DaemonState.Daemon K F S D C E).
Abbreviation M := (stexc Daemon).

(** ** The published state *)

Definition add_urltest_state (m : UrltestManager) (states : gmap cstring UrltestState) (ob : Outbound) : gmap cstring UrltestState :=
  if bool_decide (type ob = OutboundType.URLTEST)
  then match get_state m (tag ob), states !! tag ob with
       | Some st, None => <[tag ob := st]> states
       | _, _ => states
       end
  else states.

Definition build_runtime_state_snapshot (now : Z) (d : Daemon) : RuntimeStateSnapshot :=
  mk_RuntimeSnapshot (d_firewall_state d) (routes_ (d_routes d)) (rules_ (d_rules d))
    (match d_urltest d with Some m => foldl (add_urltest_state m) ∅ (daemon_outbounds (d_config d)) | None => ∅ end)
    (snapshot (r_sync (d_resolver d)) now) (d_active d) (state_ (d_machine d)) (reason_ (d_machine d)).

Definition publish_runtime_state : M unit :=
  now ← ask unix_timestamp_now_seconds;
  modify (λ d, set_d_published (build_runtime_state_snapshot now d) d).

(** ** The resolver *)

Definition ipv6_decision (config : Config) (e : E) : bool :=
  (resolve_ipv6_support (system_ipv6_supported e) (resolved_backend e config) (iptables_ipv6_supported e)
     (nft_ipv6_supported e) config).1.

Definition make_resolver_generation_snapshot (d : Daemon) : exc ResolverGenerationSnapshot :=
  let config := d_config d in
  let resolver_type := match fw_backend (F := F) with
    | FirewallBackend.nftables => ResolverType.DNSMASQ_NFTSET
    | FirewallBackend.iptables => ResolverType.DNSMASQ_IPSET
    end in
  let dns_cfg := value_or (dns config) default_DnsConfig in
  let ipv6 := ipv6_decision config (d_host d) in
  registry ← make_DnsServerRegistry (keenetic_addresses (d_host d)) dns_cfg;
  hash ← @compute_config_hash IP (list_files (d_lists d)) cache registry (value_or (route config) default_RouteConfig) dns_cfg
           (config_lists config) (keenetic_static (d_host d)) (keenetic_upstreams (d_host d)) resolver_type version ipv6;
  mret (mk_Generation config resolver_type ipv6 hash (d_generation d)).

Definition update_sync (f : ResolverSyncStateMachine → ResolverSyncStateMachine) (g : ResolverMetadata → ResolverMetadata) : M unit :=
  modify (set_resolver (λ r, mk_Resolver (apply_started_ts r) (f (r_sync r)) (g (r_coordinator r)) (r_generation_snapshot r)
                                (r_hash_refresh_inflight r))).
Definition set_apply_started (ts : Z) : M unit :=
  modify (set_resolver (λ r, mk_Resolver ts (r_sync r) (r_coordinator r) (r_generation_snapshot r) (r_hash_refresh_inflight r))).
Definition set_hash_inflight (b : bool) : M unit :=
  modify (set_resolver (λ r, mk_Resolver (apply_started_ts r) (r_sync r) (r_coordinator r) (r_generation_snapshot r) b)).

Definition update_resolver_config_hash : M unit :=
  d ← get_st;
  g ← of_exc (make_resolver_generation_snapshot d);
  let h := generation_expected_hash g in
  modify (set_resolver (λ r, mk_Resolver (apply_started_ts r) (r_sync r) (r_coordinator r) (Some g) (r_hash_refresh_inflight r)));;
  update_sync (expected_hash_updated h) (λ m, (resolver_reconcile h m).2);;
  started ← gets (λ d, apply_started_ts (d_resolver d));
  if 0 <? started then update_sync (apply_started started h) id else mret tt.

Definition reset_resolver_actual_state : M unit := update_sync resolver_not_configured clear_actual.

Definition refresh_resolver_config_hash_actual_async : M unit :=
  d ← get_st;
  match (if d_active d then dns (d_config d) ≫= system_resolver else None) with
  | None => (if negb (d_active d) then update_sync runtime_stopped id else reset_resolver_actual_state);; publish_runtime_state
  | Some r =>
      if bool_decide (resolver_address r = []) then reset_resolver_actual_state;; publish_runtime_state
      else if r_hash_refresh_inflight (d_resolver d) then mret tt
      else
        set_hash_inflight true;;
        enqueued ← try_post "resolver-config-hash-actual" (ResolverHashProbe (resolver_address r) (d_generation d));
        if enqueued : bool then mret tt else set_hash_inflight false
  end.

Definition maybe_schedule_resolver_config_hash_actual_refresh : M unit :=
  d ← get_st;
  if r_hash_refresh_inflight (d_resolver d) then mret tt else refresh_resolver_config_hash_actual_async.

(** [if (id >= 0) scheduler_->cancel(id)] *)
Definition cancel_task (id : Timers → Z) : M unit :=
  d ← get_st;
  if 0 <=? id (d_timers d) then on_scheduler (cancel (id (d_timers d))) else mret tt.

(** [if (id >= 0) { scheduler_->cancel(id); id = -1; }] *)
Definition drop_task (id : Timers → Z) (with_id : Z → Timers → Timers) : M unit :=
  d ← get_st;
  if 0 <=? id (d_timers d) then on_scheduler (cancel (id (d_timers d)));; modify (set_timers (with_id (-1))) else mret tt.

Definition with_lists_id (i : Z) (t : Timers) : Timers :=
  mk_Timers i (keenetic_dns_refresh_task_id t) (resolver_hash_task_id t) (resolver_hash_retry_task_id t) (sigusr1_task_id t).
Definition with_keenetic_id (i : Z) (t : Timers) : Timers :=
  mk_Timers (lists_autoupdate_task_id t) i (resolver_hash_task_id t) (resolver_hash_retry_task_id t) (sigusr1_task_id t).
Definition with_hash_id (i : Z) (t : Timers) : Timers :=
  mk_Timers (lists_autoupdate_task_id t) (keenetic_dns_refresh_task_id t) i (resolver_hash_retry_task_id t) (sigusr1_task_id t).
Definition with_retry_id (i : Z) (t : Timers) : Timers :=
  mk_Timers (lists_autoupdate_task_id t) (keenetic_dns_refresh_task_id t) (resolver_hash_task_id t) i (sigusr1_task_id t).
Definition with_sigusr1_id (i : Z) (t : Timers) : Timers :=
  mk_Timers (lists_autoupdate_task_id t) (keenetic_dns_refresh_task_id t) (resolver_hash_task_id t) (resolver_hash_retry_task_id t) i.

Definition schedule_resolver_config_hash_actual_retry : M unit :=
  cancel_task resolver_hash_retry_task_id;;
  i ← on_scheduler (schedule_oneshot 1000 "resolver-config-hash-actual-retry");
  modify (set_timers (with_retry_id i)).
(** Its callback *)
Definition run_resolver_hash_retry : M unit :=
  modify (set_timers (with_retry_id (-1)));; maybe_schedule_resolver_config_hash_actual_refresh.

Definition schedule_resolver_config_hash_actual_refresh : M unit :=
  cancel_task resolver_hash_task_id;;
  i ← on_scheduler (schedule_repeating 5000 "resolver-config-hash-actual");
  modify (set_timers (with_hash_id i)).

Definition commit_resolver_hash_probe_result (t : commit_task) : M unit :=
  set_hash_inflight false;;
  d ← get_st;
  if negb (task_generation t =? d_generation d) then mret tt
  else
    now ← ask unix_timestamp_now_seconds;
    (match task_result t with
     | None => mret tt
     | Some r =>
         if bool_decide (probe_status r = ResolverConfigHashProbeStatus.SUCCESS)
         then update_sync (probe_succeeded (txt_hash (parsed_value r)) (txt_ts (parsed_value r)) (task_ts t)) id
         else update_sync (probe_failed (probe_status r) (task_ts t)) id
     end);;
    resolver_snapshot ← gets (λ d, snapshot (r_sync (d_resolver d)) now);
    update_sync id (observe_actual (snap_actual_hash resolver_snapshot));;
    (if bool_decide (snap_sync_state resolver_snapshot = Some ResolverConfigSyncState.CONVERGING)
     then schedule_resolver_config_hash_actual_retry else mret tt);;
    publish_runtime_state.

(** The hook runs on the executor; the event loop, when it waits for it, answers
    the control socket. *)
Definition run_system_resolver_hook (action : cstring) : M bool :=
  d ← get_st;
  let args := build_system_resolver_hook_args hook_path (d_config d) action in
  if bool_decide (args = []) then mret true
  else exit_code ← on_host (hook_command_executor args); mret (exit_code =? 0).

Fixpoint await_stream (baseline : Z) (turns : nat) (e : E) : bool * E :=
  match turns with
  | O => (baseline <? resolver_stream_completed e, e)
  | Datatypes.S turns => if baseline <? resolver_stream_completed e then (true, e) else await_stream baseline turns (serve_control_socket e)
  end.
Definition wait_for_resolver_stream_after (baseline : Z) : M bool := ask (λ e, await_stream baseline (wait_turns e) e).

Definition run_system_resolver_hook_reload : M bool :=
  baseline ← gets (λ d, resolver_stream_completed (d_host d));
  run_system_resolver_hook "reload" ≫= λ ran : bool,
  if negb ran then mret false
  else
    wait_for_resolver_stream_after baseline ≫= λ streamed : bool,
    if negb streamed then mret false else update_resolver_config_hash;; mret true.

(** A wait of thirty seconds with a pause of a second after each query makes at
    most thirty-one of them. *)
Definition confirm_resolver_hash (candidate : Config) (expected : cstring) (started : Z) : M (bool * cstring) := λ d,
  let e := d_host d in
  (value_or (wait_for_resolver_config_hash_confirmation (λ address k, query_resolver_config_hash_txt address k e)
     (probe_clock e) 0 (dns candidate) expected started 31) Undefined, d).

Definition refresh_keenetic_dns_cache (force_refresh : bool) : M bool :=
  d ← get_st;
  if negb (dns_config_uses_keenetic_server (dns (d_config d))) then mret false
  else status ← on_host (refresh_keenetic_dns_address_cache force_refresh);
       mret (match status with KeeneticDnsRefreshStatus.UPDATED => true | _ => false end).

Definition schedule_keenetic_dns_refresh : M unit :=
  drop_task keenetic_dns_refresh_task_id with_keenetic_id;;
  d ← get_st;
  if negb (dns_config_uses_keenetic_server (dns (d_config d))) then mret tt
  else i ← on_scheduler (schedule_repeating 300000 "keenetic-dns-refresh"); modify (set_timers (with_keenetic_id i)).
(** The task its callback posts *)
Definition run_keenetic_dns_refresh : M unit :=
  d ← get_st;
  if negb (d_active d) then mret tt
  else
    refresh_keenetic_dns_cache true ≫= λ updated : bool,
    if updated then
      now ← ask unix_timestamp_now_seconds;
      set_apply_started now;;
      update_resolver_config_hash;;
      run_system_resolver_hook_reload ≫= λ _,
      refresh_resolver_config_hash_actual_async;;
      publish_runtime_state
    else mret tt.

(** ** The test server *)

Definition teardown_dns_probe : M unit := modify (λ d, set_d_host (stop_dns_probe (d_host d)) d).
Definition setup_dns_probe : M unit :=
  teardown_dns_probe;;
  d ← get_st;
  match dns (d_config d) ≫= dns_test_server with
  | None => mret tt
  | Some test_cfg =>
      settings ← of_exc (parse_dns_probe_server_settings (test_listen test_cfg) (answer_ipv4 test_cfg));
      on_host (start_dns_probe settings)
  end.

(** ** Routes and firewall *)

(** Whether an outbound can use a family: its interface has a routed address *)
Definition family_available (interfaces : list DumpedInterface) (outbound : Outbound) (family : Z) : bool :=
  if family =? AF_INET then true
  else if negb (family =? AF_INET6) || bool_decide (is_Some (gateway6 outbound)) then true
  else match List.find (λ i, bool_decide (di_name i = value_or (interface outbound) [])) interfaces with
       | Some i => interface_has_routed_ipv6 i
       | None => false
       end.

(** The answers do not change while the plan is made: the first pass makes the
    queries that may throw, the plan reads their answers. *)
Definition asked_outbounds (config : Config) (marks : OutboundMarkMap) : list Outbound :=
  List.filter (λ ob, bool_decide (type ob = OutboundType.INTERFACE) && bool_decide (is_Some (marks !! tag ob))) (sorted_outbounds config).
Definition reachable_now (nd : NetDevices) (k : K) (ob : Outbound) : bool :=
  match @is_interface_outbound_reachable IP nd K RN ob k with (Ok b, _) => b | _ => false end.

(** The routes and rules the configuration asks for, with the kernel as it is *)
Definition desired_routing (d : Daemon) (interfaces : list DumpedInterface) : exc (list RouteSpec * list RuleSpec) :=
  match populate_routing_state true (d_config d) (d_marks d) (Some (reachable_now (net_devices (d_host d)) (d_netlink d)))
          (Some (urltest_selections_ (d_firewall_state d))) (ipv6_decision (d_config d) (d_host d))
          (Some (family_available interfaces))
          ((d_netlink d, empty_RouteTable), (d_netlink d, empty_PolicyRuleManager)) with
  | (Ok _, ((_, routes), (_, rules))) => Ok (routes_ routes, rules_ rules)
  | (Throw e, _) => Throw e
  | (Undefined, _) => Undefined
  end.

Definition reconcile_static_routing : M unit :=
  interfaces ← on_netlink dump_interfaces;
  d ← get_st;
  for_each (λ ob, on_netlink (@is_interface_outbound_reachable IP (net_devices (d_host d)) K RN ob) ≫= λ _, mret tt)
    (asked_outbounds (d_config d) (d_marks d));;
  d ← get_st;
  desired ← of_exc (desired_routing d interfaces);
  on_netlink (RoutingReconciler.reconcile desired.1 desired.2);;
  on_route_table (RouteTable.adopt_desired desired.1);;
  on_policy_rules (PolicyRule.adopt_desired desired.2).
Definition setup_static_routing : M unit := reconcile_static_routing.

Definition apply_firewall (mode : FirewallApplyMode.t) : M unit :=
  d ← get_st;
  rule_states ← on_firewall (@apply_runtime_firewall SS IP (list_files (d_lists d)) cache (keenetic_addresses (d_host d)) F FW
                   (d_config d) (d_marks d) (urltest_selections_ (d_firewall_state d)) (ipv6_decision (d_config d) (d_host d)) mode);
  modify (λ d, set_d_firewall_state (set_rules rule_states (d_firewall_state d)) d);;
  modify (λ d, set_d_conntrack (conntrack_reconcile
    (mk_ConntrackPolicy (skip_established_or_dnat (build_firewall_global_prefilter (d_config d)))) (d_conntrack d)).2 d).

Definition drop_conntrack_marks : M unit :=
  d ← get_st;
  mark_mask ← of_exc (fwmark_mask_value (daemon_fwmark (d_config d)));
  for_each (λ mark, on_host (delete_mark conntrack_command mark mark_mask) ≫= λ _, mret tt) (owned_marks (d_marks d)).

Definition clear_urltest : M unit :=
  d ← get_st;
  match d_urltest d with Some manager => on_urltest UrlTest.clear manager | None => mret tt end.

Definition teardown_routing_and_firewall (explicit_stop : bool) : M unit :=
  d ← get_st;
  if negb (d_active d) then mret tt
  else
    new_generation;;
    clear_urltest;;
    drop_conntrack_marks;;
    on_policy_rules (PolicyRule.clear false);;
    on_route_table (RouteTable.clear false);;
    on_firewall fw_cleanup;;
    drop_task keenetic_dns_refresh_task_id with_keenetic_id;;
    modify (set_d_active false);;
    transition_runtime_or_throw (if explicit_stop then RuntimeState.stopped else RuntimeState.applying)
      (if explicit_stop then "runtime stopped" else "runtime restarting");;
    publish_runtime_state.

Definition setup_routing_and_firewall : M unit :=
  d ← get_st;
  if d_active d then mret tt
  else
    new_generation;;
    setup_static_routing;;
    refresh_keenetic_dns_cache true ≫= λ _,
    apply_firewall FirewallApplyMode.Destructive;;
    modify (set_d_active true);;
    d ← get_st;
    (if bool_decide (state_ (d_machine d) = RuntimeState.applying) then mret tt
     else transition_runtime_or_throw RuntimeState.applying "runtime starting");;
    publish_runtime_state;;
    now ← ask unix_timestamp_now_seconds;
    set_apply_started now;;
    update_resolver_config_hash;;
    setup_dns_probe.

(** ** Urltest groups *)

Definition register_urltest_group (ob : Outbound) : M unit :=
  if negb (bool_decide (type ob = OutboundType.URLTEST)) then mret tt
  else
    enqueued ← ask (executor_accepts ("urltest:" ++ tag ob));
    d ← get_st;
    match d_urltest d with
    | Some manager => on_urltest (register_urltest (d_marks d) (urltest_clock (d_host d)) enqueued ob) manager
    | None => mret tt
    end.
Definition register_urltest_outbounds : M unit :=
  d ← get_st;
  (match d_urltest d with Some _ => mret tt | None => modify (set_d_urltest (Some (mk_Manager ∅ 1))) end);;
  for_each register_urltest_group (daemon_outbounds (d_config d)).

(** The tasks of the two callbacks *)
Definition deletes_conntrack (config : Config) (urltest_tag : cstring) : bool :=
  existsb (λ ob, bool_decide (tag ob = urltest_tag) &&
    match value_or (conntrack_on_switch ob) ConntrackOnSwitch.PRESERVE with ConntrackOnSwitch.DELETE => true | _ => false end)
    (daemon_outbounds config).
Definition run_urltest_selection_change (urltest_tag new_child_tag : cstring) : M unit :=
  d ← get_st;
  let delete_conntrack := deletes_conntrack (d_config d) urltest_tag in
  modify (λ d, set_d_firewall_state (set_urltest_selection urltest_tag new_child_tag (d_firewall_state d)) d);;
  try_catch_std
    (reconcile_static_routing;;
     apply_firewall FirewallApplyMode.PreserveSets;;
     (if delete_conntrack then
        d ← get_st;
        mark_mask ← of_exc (fwmark_mask_value (daemon_fwmark (d_config d)));
        match d_marks d !! urltest_tag with
        | Some mark => on_host (delete_mark conntrack_command mark mark_mask) ≫= λ _, mret tt
        | None => mret tt
        end
      else mret tt);;
     publish_runtime_state)
    (λ _, mret tt).
Definition run_urltest_commit (urltest_tag : cstring) (probe_generation : Z) (results : list (cstring * URLTestResult)) : M unit :=
  d ← get_st;
  match d_urltest d with
  | None => mret tt
  | Some manager =>
      on_urltest (commit_probe_results (urltest_clock (d_host d)) urltest_tag probe_generation results) manager ≫= λ _,
      publish_runtime_state
  end.

(** ** Lists *)

Definition nanoseconds_to_seconds_up (ns : Z) : Z := (ns + 999999999) / 1000000000.
Definition schedule_lists_autoupdate : M unit :=
  d ← get_st;
  match lists_autoupdate (d_config d) with
  | None => mret tt
  | Some autoupdate =>
      if negb (value_or (autoupdate_enabled autoupdate) false) then mret tt
      else
        from ← ask system_clock_now;
        next ← of_exc (cron_next (value_or (cron autoupdate) []) from);
        now ← ask system_clock_now;
        let delay := Z.max 1 (nanoseconds_to_seconds_up (next - now)) in
        i ← on_scheduler (schedule_oneshot (delay * 1000) "lists-autoupdate");
        modify (set_timers (with_lists_id i))
  end.

Definition complete_running_runtime (reason : cstring) : M unit :=
  register_urltest_outbounds;;
  schedule_keenetic_dns_refresh;;
  schedule_lists_autoupdate;;
  refresh_resolver_config_hash_actual_async;;
  transition_runtime_or_throw RuntimeState.running reason;;
  publish_runtime_state.

Definition reconcile_lists_only (reload_resolver : bool) : M unit :=
  d ← get_st;
  if negb (d_active d) then throw (DaemonError "list-only reconcile requires an active routing runtime")
  else
    try_catch_all
      (apply_firewall FirewallApplyMode.StaticSetsOnly;;
       (if reload_resolver then
          update_resolver_config_hash;;
          run_system_resolver_hook_reload ≫= λ ok : bool,
          if ok then mret tt else throw (DaemonError "system resolver reload hook failed")
        else mret tt);;
       publish_runtime_state)
      (λ e, try_transition RuntimeState.broken "list-only reconcile failed";; publish_runtime_state;; throw e).

Definition refresh_lists (config : Config) (marks : OutboundMarkMap) (targets : option (gset cstring)) : M RemoteListsRefreshResult :=
  on_lists (download_lists cache client (refresh_remote_lists_call config marks (Some (collect_relevant_list_names config)) targets
                                           (Some (collect_dns_relevant_list_names config)))).

(** The result, and whether the runtime was reloaded *)
Definition execute_remote_list_refresh (targets : option (gset cstring)) : M (RemoteListsRefreshResult * bool) :=
  d ← get_st;
  result ← refresh_lists (d_config d) (d_marks d) targets;
  d ← get_st;
  if should_reload_runtime_after_list_refresh (d_active d) result
  then reconcile_lists_only (any_dns_relevant_changed result);; mret (result, true)
  else mret (result, false).

Definition refresh_lists_and_maybe_reload : M unit :=
  try_catch_std
    (execute_remote_list_refresh None ≫= λ result, if result.2 : bool then mret tt else schedule_lists_autoupdate)
    (λ _, schedule_lists_autoupdate).

Definition refresh_lists_and_maybe_reload_async : M unit :=
  d ← get_st;
  if d_lists_inflight d then mret tt
  else
    modify (set_d_lists_inflight true);;
    enqueued ← try_post "lists-autoupdate" (ListsAutoupdate (d_config d) (d_marks d) (d_active d) (d_generation d));
    if enqueued : bool then mret tt else modify (set_d_lists_inflight false);; schedule_lists_autoupdate.
(** The job, and the task it posts *)
Definition run_lists_autoupdate (config : Config) (marks : OutboundMarkMap) (runtime_active : bool) (generation : Z) : M unit :=
  outcome ← try_catch_std (result ← refresh_lists config marks None; mret (Some result, [])) (λ error, mret (None, error));
  post_control_task (ListsRefreshCommit runtime_active generation outcome.1 outcome.2).
Definition run_lists_refresh_commit (runtime_active : bool) (generation : Z) (refresh_result : option RemoteListsRefreshResult)
    (error : cstring) : M unit :=
  modify (set_d_lists_inflight false);;
  d ← get_st;
  if negb (generation =? d_generation d) then schedule_lists_autoupdate
  else if negb (bool_decide (error = [])) then schedule_lists_autoupdate
  else match refresh_result with
  | None => of_exc Undefined
  | Some result =>
      reloaded ← (if should_reload_runtime_after_list_refresh runtime_active result
                  then try_catch_std (reconcile_lists_only (any_dns_relevant_changed result);; mret (Some true)) (λ _, mret None)
                  else mret (Some false));
      match reloaded with
      | None | Some false => schedule_lists_autoupdate
      | Some true => mret tt
      end
  end.

(** ** Applying a configuration *)

Definition prepare_runtime_inputs (config : Config) (refresh_remote_lists : bool) : M PreparedRuntimeInputs :=
  d ← get_st;
  of_exc (validate_config use_keenetic_api (system_info (d_host d)) config);;
  marks ← of_exc (allocate_outbound_marks (daemon_fwmark config) (daemon_outbounds config));
  if refresh_remote_lists then
    refresh ← on_lists (download_lists cache client
                (download_uncached_call config (active_marks_of (active_snapshot (d_store d))) None None));
    if any_failed refresh
    then throw (DaemonError ("Failed to prepare remote list(s): " ++ format_list_names (failed_lists refresh)))
    else mret (mk_Prepared config marks true)
  else mret (mk_Prepared config marks false).

(** [off_loop]: the event loop runs, on another thread *)
Definition reconcile_prepared_runtime (off_loop : bool) (prepared : PreparedRuntimeInputs) : M unit :=
  if off_loop then throw (DaemonError "reconcile_prepared_runtime must run on the control/event-loop thread")
  else
    new_generation;;
    drop_task lists_autoupdate_task_id with_lists_id;;
    drop_task keenetic_dns_refresh_task_id with_keenetic_id;;
    drop_task resolver_hash_task_id with_hash_id;;
    drop_task resolver_hash_retry_task_id with_retry_id;;
    modify (set_d_marks (prepared_marks prepared));;
    modify (set_d_config (prepared_config prepared));;
    let daemon_config := value_or (daemon (prepared_config prepared)) default_DaemonConfig in
    modify (λ d, set_d_host (set_safe_exec_timeouts (value_or (exec_timeout_seconds daemon_config) 30)
                               (value_or (exec_kill_grace_seconds daemon_config) 2) (d_host d)) d);;
    modify (λ d, set_d_firewall_state (set_outbound_marks (d_marks d) (d_firewall_state d)) d);;
    mask ← of_exc (fwmark_mask_value (daemon_fwmark (prepared_config prepared)));
    modify (λ d, set_d_firewall_state (set_fwmark_mask mask (d_firewall_state d)) d);;
    teardown_dns_probe;;
    clear_urltest;;
    reconcile_static_routing;;
    refresh_keenetic_dns_cache true ≫= λ _,
    apply_firewall FirewallApplyMode.PreserveSets;;
    modify (set_d_active true);;
    transition_runtime_or_throw RuntimeState.applying "config apply";;
    now ← ask unix_timestamp_now_seconds;
    set_apply_started now;;
    update_resolver_config_hash;;
    setup_dns_probe;;
    publish_runtime_state.

Definition expected_resolver_hash : M cstring :=
  now ← ask unix_timestamp_now_seconds;
  gets (λ d, snap_expected_hash (snapshot (r_sync (d_resolver d)) now)).

(** The reload of the resolver, then the wait for its confirmation *)
Definition reload_and_confirm_resolver : M unit :=
  d ← get_st;
  if negb (has_system_resolver (d_config d)) then mret tt
  else
    run_system_resolver_hook_reload ≫= λ ok : bool,
    if negb ok then throw (DaemonError "system resolver reload hook failed")
    else
      expected ← expected_resolver_hash;
      d ← get_st;
      confirmed ← confirm_resolver_hash (d_config d) expected (apply_started_ts (d_resolver d));
      if confirmed.1 : bool then mret tt else throw (DaemonError confirmed.2).

Definition publish_active_snapshot : M unit :=
  modify (λ d, set_d_store (replace_active (d_config d) (d_marks d) (d_store d)) d).

Definition apply_prepared_runtime_inputs (prepared : PreparedRuntimeInputs) (publish_active : bool) : M unit :=
  reconcile_prepared_runtime false prepared;;
  reload_and_confirm_resolver;;
  complete_running_runtime "config apply complete";;
  if publish_active then publish_active_snapshot;; publish_runtime_state else mret tt.

Definition apply_config (off_loop : bool) (config : Config) (refresh_remote_lists : bool) : M unit :=
  if off_loop then throw (DaemonError "apply_config must run on the control/event-loop thread")
  else try_catch_all
         (prepared ← prepare_runtime_inputs config refresh_remote_lists;
          apply_prepared_runtime_inputs prepared true)
         (λ e, try_transition RuntimeState.broken "config apply failed";; throw e).

(** The configuration of a text, validated *)
Definition load_config (text : cstring) : M Config :=
  config ← of_exc (parse_config parse_json text);
  d ← get_st;
  of_exc (validate_config use_keenetic_api (system_info (d_host d)) config);;
  mret config.
Definition read_disk_config : M Config :=
  d ← get_st;
  match file (d_disk d) (d_config_path d) with
  | None => throw (DaemonError ("Cannot open config file: " ++ d_config_path d))
  | Some text => load_config text
  end.
Definition reload_from_disk : M unit :=
  next_config ← read_disk_config;
  try_catch_all (apply_config false next_config true)
    (λ e, try_transition RuntimeState.broken "disk reload failed";; publish_runtime_state;; throw e).

(** ** Starting and stopping *)

Definition start_routing_runtime : M unit :=
  setup_routing_and_firewall;; reload_and_confirm_resolver;; complete_running_runtime "runtime started".

Definition stop_routing_runtime : M unit :=
  teardown_routing_and_firewall true;;
  d ← get_st;
  (if has_system_resolver (d_config d) then
     run_system_resolver_hook "deactivate" ≫= λ ok : bool,
     if ok then mret tt else throw (DaemonError "System resolver deactivate hook failed")
   else mret tt);;
  refresh_resolver_config_hash_actual_async.

Definition restart_routing_runtime : M unit :=
  d ← get_st;
  if negb (d_active d) then throw (DaemonError "Routing runtime is stopped")
  else
    teardown_routing_and_firewall false;;
    setup_routing_and_firewall;;
    reload_and_confirm_resolver;;
    complete_running_runtime "runtime restarted".

(** ** Refreshing the routes and the firewall (daemon_core.cpp) *)

Definition refresh_iproute_and_firewall_runtime : M unit :=
  try_catch_std (reconcile_static_routing;; apply_firewall FirewallApplyMode.PreserveSets;; publish_runtime_state) (λ _, mret tt).

Definition is_interface_outbound_in_use (config : Config) (interface_name : cstring) : bool :=
  existsb (λ ob, bool_decide (type ob = OutboundType.INTERFACE) && bool_decide (interface ob = Some interface_name))
    (daemon_outbounds config).
Definition handle_interface_event (administrative_state_changed : bool) (interface_name : cstring) : M unit :=
  d ← get_st;
  if negb administrative_state_changed || negb (is_interface_outbound_in_use (d_config d) interface_name) then mret tt
  else refresh_iproute_and_firewall_runtime.

Definition schedule_sigusr1_runtime_refresh : M unit :=
  drop_task sigusr1_task_id with_sigusr1_id;;
  i ← on_scheduler (schedule_oneshot 150 "sigusr1-runtime-refresh");
  modify (set_timers (with_sigusr1_id i)).
Definition run_sigusr1_runtime_refresh : M unit :=
  modify (set_timers (with_sigusr1_id (-1)));;
  d ← get_st;
  if busy_ (d_operation d) then schedule_sigusr1_runtime_refresh else refresh_iproute_and_firewall_runtime.
End runtime.
