(* ===== verification/DaemonIpc.v ===== *)
(** * The control socket of the daemon (src/src/daemon/daemon_core.cpp,
      [handle_ipc_control_socket])

    The daemon accepts the clients that wait on its socket, one after the other.
    Each has its credentials and the bytes it sent; what the daemon does to it is a
    list of effects: an answer, the close, or the hand-over to the executor of the
    resolver streams. *)

From S2P Require Import Prelude CppString Fwmark Netlink Json ConfigJson ConfigDisk Runtime RouteTable PolicyRule RoutingReconciler RoutingState.
From S2P Require Import AddrSpec FirewallRules Firewall CircuitBreaker UrlTest ListStreamer Cache ListService ConfigStore ControlProtocol.
From S2P Require Import DnsServer DnsProbe DnsTxt Dnsmasq ResolverSync OutboundHealth Cron Validation TestRouting TestRoutingReport DaemonState DaemonRuntime Config.

Local Open Scope Z_scope.

(** ** Data *)

(** A client: its descriptor, its user as far as the kernel tells it, and the bytes
    that arrive before it stops sending for five seconds or closes *)
Record ipc_client := mk_client { c_fd : Z; c_uid : option Z; c_input : cstring }.
(** What [accept4] returns: a client or an error other than [EAGAIN] *)
Inductive accepted := Client (c : ipc_client) | AcceptError (error : cstring).

(** What the job of [generate-resolver-config] captures *)
Record stream_job := mk_stream {
  sj_client : Z;
  sj_generation : ResolverGenerationSnapshot;
  sj_dns_config : DnsConfig;
  sj_cache_dir : cstring;
  sj_type : ResolverType.t;
  sj_request_id : cstring;
}.
Inductive ipc_effect := Sent (fd : Z) (frame : cstring) | Closed (fd : Z) | Dispatched (j : stream_job).

(** The members the handler reads and writes, the clients that wait (the end of the
    list is [EAGAIN]) and the effects so far *)
Record ipc_world (D : Type) := mk_ipc {
  i_daemon : D;
  i_resolver_hook_inflight : bool;
  i_mutation_inflight : bool;
  i_pending : list accepted;
  i_effects : list ipc_effect;
}.
Arguments mk_ipc {D}.
Arguments i_daemon {D}.
Arguments i_resolver_hook_inflight {D}.
Arguments i_mutation_inflight {D}.
Arguments i_pending {D}.
Arguments i_effects {D}.

Definition sync_state_json (s : ResolverConfigSyncState.t) : json :=
  JStr match s with
       | ResolverConfigSyncState.CONVERGED => str "converged"
       | ResolverConfigSyncState.CONVERGING => str "converging"
       | ResolverConfigSyncState.STALE => str "stale"
       end.
Definition probe_status_json (s : ResolverConfigProbeStatus.t) : json :=
  JStr match s with
       | ResolverConfigProbeStatus.INVALID_TXT => str "invalid_txt"
       | ResolverConfigProbeStatus.MISSING_TXT => str "missing_txt"
       | ResolverConfigProbeStatus.NOT_CONFIGURED => str "not_configured"
       | ResolverConfigProbeStatus.QUERY_FAILED => str "query_failed"
       | ResolverConfigProbeStatus.SUCCESS => str "success"
       | ResolverConfigProbeStatus.UNKNOWN => str "unknown"
       end.
Definition live_status_json (s : ResolverLiveStatus.t) : json :=
  JStr match s with
       | ResolverLiveStatus.DEGRADED => str "degraded"
       | ResolverLiveStatus.HEALTHY => str "healthy"
       | ResolverLiveStatus.UNAVAILABLE => str "unavailable"
       | ResolverLiveStatus.UNKNOWN => str "unknown"
       end.
Definition texts_json (l : list cstring) : json := JArr (JStr <$> l).
Definition optional_json {A} (f : A → json) (o : option A) : json := match o with Some x => f x | None => JNull end.
Definition text_member (k : cstring) (j : json) : cstring := match jfind k j with Some (JStr s) => s | _ => [] end.

(** A response with a result, its members in the order of their keys *)
Definition result_response (request : json) (ok : bool) (result : list (cstring * json)) : json :=
  JObj [(str "ok", JBool ok); (str "protocol_version", JInt kControlProtocolVersion); (str "request_id", JStr (text_member "request_id" request));
        (str "result", JObj result)].
Definition test_entry_json (e : TestRoutingEntry) : json :=
  JObj [(str "actual_outbound", JStr (actual_outbound e)); (str "expected_outbound", JStr (expected_outbound e)); (str "ip", JStr (entry_ip e));
        (str "ok", JBool (TestRouting.ok e))].
Definition test_response (request : json) (r : TestRoutingResult) : json :=
  result_response request (negb (has_value (dns_error r)))
    [(str "dns_error", optional_json JStr (dns_error r)); (str "entries", JArr (test_entry_json <$> test_entries r));
     (str "resolved_ips", texts_json (resolved_ips r)); (str "target", JStr (target r)); (str "warnings", texts_json (warnings r))].
Definition download_response (request : json) (refresh : RemoteListsRefreshResult) (reloaded : bool) : json :=
  result_response request (bool_decide (failed_lists refresh = []))
    [(str "changed_lists", texts_json (changed_lists refresh)); (str "failed_lists", texts_json (failed_lists refresh));
     (str "refreshed_lists", texts_json (refreshed_lists refresh)); (str "reloaded", JBool reloaded)].
Definition status_response (request : json) (s : RuntimeStateSnapshot) (disk : DiskConfigState) (missing : list cstring) : json :=
  let r := snap_resolver s in
  result_response request true
    [(str "disk_config_error", JStr (disk_error disk)); (str "disk_config_mismatch", JBool (negb (matches_active disk)));
     (str "missing_cached_lists", texts_json missing);
     (str "resolver_config_hash", JStr (snap_expected_hash r)); (str "resolver_config_hash_actual", JStr (snap_actual_hash r));
     (str "resolver_config_hash_actual_ts", optional_json JInt (snap_actual_ts r));
     (str "resolver_config_probe_status", probe_status_json (snap_probe_status r));
     (str "resolver_config_sync_state", optional_json sync_state_json (snap_sync_state r));
     (str "resolver_last_probe_ts", optional_json JInt (snap_last_probe_ts r)); (str "resolver_live_status", live_status_json (snap_live_status r));
     (str "routing_runtime_active", JBool (snap_routing_runtime_active s)); (str "runtime_state", JStr (runtime_state_name (snap_runtime_state s)));
     (str "runtime_state_reason", JStr (snap_runtime_state_reason s))].

(** What is left to do for a client: its response, or nothing ([continue]) *)
Inductive reply := Respond (response : json) | Continue.

Definition known_operations : list cstring := [str "status"; str "resolver-config-hash"; str "download"; str "test-routing"; str "generate-resolver-config"].

Section ipc.
Context {K F S D C E OR OU : Type}.
Context `{RN : !RoutingNetlink K} `{IN : !InterfaceNetlink K} `{NR : !Netlink K RouteSpec OR} `{NU : !Netlink K RuleSpec OU}.
Context `{FW : !Firewall F} `{TS : !TaskScheduler S} `{OS : !OneShot S}.
Context `{CW : !CacheWorld C} `{LF : !ListFiles C} `{CF : !ConfigFiles D} `{HO : !Host E}.
Context {SS : StdSort} {IP : InetPton} {NL : Nlohmann} {JT : JsonText} {JD : JsonDump} `{LT : !LocalTime}.
Context {NT : InetNtop} {DL : DnsLookups} {DB : DaemonBuild}.
(** How the library compares two numbers of which one has a fraction, its messages
    for a text it cannot parse, and the exit codes of commands *)
Context (float_equal : json → json → bool) (parse_error : cstring → cstring) (safe_exec : E → list cstring → Z).

Abbreviation Daemon := (DaemonState.Daemon K F S D C E).
Abbreviation ipc_world := (ipc_world Daemon).
Abbreviation M := (stexc ipc_world).

Definition on_daemon {A} (m : stexc Daemon A) : M A := λ w,
  let '(r, d) := m (i_daemon w) in (r, mk_ipc d (i_resolver_hook_inflight w) (i_mutation_inflight w) (i_pending w) (i_effects w)).
Definition set_mutation (b : bool) (w : ipc_world) : ipc_world :=
  mk_ipc (i_daemon w) (i_resolver_hook_inflight w) b (i_pending w) (i_effects w).
Definition effect (e : ipc_effect) (w : ipc_world) : ipc_world :=
  mk_ipc (i_daemon w) (i_resolver_hook_inflight w) (i_mutation_inflight w) (i_pending w) (i_effects w ++ [e]).
Definition raise {A} (e : exc A) : M A := λ w, (e, w).
Definition refuse {A} (m : cstring) : M A := throw (ControlProtocolError m).

(** [encode_message], [send] and [close] *)
Definition answer (client : Z) (response : json) : M unit := λ w,
  match encode_message response with
  | Ok frame => (Ok tt, effect (Closed client) (effect (Sent client frame) w))
  | Throw e => (Throw e, w)
  | Undefined => (Undefined, w)
  end.

(** ** The request *)

Definition read_request (c : ipc_client) : exc json :=
  match c_uid c with
  | None => Throw (ControlProtocolError "unable to verify control peer")
  | Some _ =>
      let header := take 4 (c_input c) in
      if negb (length header =? 4)%nat then Throw (ControlProtocolError "truncated control request")
      else
        let payload_size := ntohl header in
        if payload_size >? kMaxControlMessageBytes then Throw too_large
        else
          let body := take (Z.to_nat payload_size) (drop 4 (c_input c)) in
          if negb (ControlProtocol.size body =? payload_size) then Throw (ControlProtocolError "truncated control request body")
          else decode_message parse_error (header ++ body)
  end.

(** ** The operations *)

Definition test_routing (request : json) : M reply :=
  target ← raise (value_string "target" [] request);
  if bool_decide (target = []) then refuse "test-routing requires a target"
  else
    w ← get_st;
    let d := i_daemon w in
    r ← raise (@compute_test_routing SS IP NT DL (list_files (d_lists d)) cache (safe_exec (d_host d))
                 (resolved_backend (d_host d) (active_config_ (d_store d))) (active_config_ (d_store d)) target);
    mret (Respond (test_response request r)).

Definition stream_reason (s : RuntimeState.t) : option cstring :=
  match s with
  | RuntimeState.stopped => Some (str "runtime_stopped")
  | RuntimeState.shutting_down => Some (str "runtime_shutting_down")
  | _ => None
  end.
Definition stream_type (resolver : cstring) (own : ResolverType.t) : ResolverType.t :=
  if bool_decide (resolver = "dnsmasq-ipset") then ResolverType.DNSMASQ_IPSET
  else if bool_decide (resolver = "dnsmasq-nftset") then ResolverType.DNSMASQ_NFTSET else own.
Definition generate_stream (client : Z) (request : json) : M reply :=
  w ← get_st;
  match stream_reason (state_ (d_machine (i_daemon w))) with
  | Some reason => answer client (make_error_response request reason "resolver runtime is not active");; mret Continue
  | None =>
      match r_generation_snapshot (d_resolver (i_daemon w)) with
      | None => refuse "resolver_generation_unavailable"
      | Some generation =>
          let config := generation_config generation in
          resolver ← raise (value_string "resolver" "dnsmasq" request);
          queued ← on_daemon (ask (executor_accepts "generate-resolver-config"));
          if queued : bool then
            (λ w, (Ok Continue, effect (Dispatched (mk_stream client generation (value_or (dns config) default_DnsConfig)
               (value_or (cache_dir (value_or (daemon config) default_DaemonConfig)) "/var/cache/keen-pbr")
               (stream_type resolver (generation_resolver_type generation)) (text_member "request_id" request))) w)) : M reply
          else mret (Respond (make_error_response request "daemon_error" "resolver stream executor is unavailable"))
      end
  end.

(** The destructor of [MutationGate] runs on every way out. *)
Definition with_gate {A} (m : M A) : M A := λ w, let '(r, w) := m (set_mutation true w) in (r, set_mutation false w).
Definition download (client : Z) (request : json) : M reply :=
  w ← get_st;
  if i_mutation_inflight w then answer client (make_error_response request "busy" "another control mutation is in progress");; mret Continue
  else with_gate (
    reload ← raise (value_bool "reload" false request);
    result ← (if reload : bool then on_daemon (execute_remote_list_refresh None)
              else refresh ← on_daemon (d ← get_st; refresh_lists (d_config d) (d_marks d) None); mret (refresh, false));
    mret (Respond (download_response request result.1 result.2))).

Definition missing_lists (d : Daemon) (config : Config) : list cstring :=
  List.filter (λ name, match config_lists config !! name with
                       | Some l => has_value (list_url l) && negb (@has_cache (list_files (d_lists d)) cache name)
                       | None => false
                       end) (in_key_order (gset_to_gmap tt (collect_relevant_list_names config))).*1.
Definition status (request : json) : M reply := λ w,
  let d := i_daemon w in
  let config := active_config_ (d_store d) in
  (Ok (Respond (status_response request (d_published d)
     (inspect_disk_config_state float_equal parse_error (file (d_disk d) (d_config_path d)) config) (missing_lists d config))), w).

Definition handle_request (c : ipc_client) (request : json) : M reply :=
  raise (validate_request_envelope float_equal request) ≫= λ _,
  w ← get_st;
  let operation := text_member "operation" request in
  let read_only := bool_decide (operation = "status") || bool_decide (operation = "resolver-config-hash") in
  let startup_mutation := bool_decide (state_ (d_machine (i_daemon w)) = RuntimeState.starting) &&
                          (bool_decide (operation = "download") || bool_decide (operation = "test-routing")) in
  if i_resolver_hook_inflight w && negb (bool_decide (operation = "generate-resolver-config")) && negb read_only
  then mret (Respond (make_error_response request "busy" "mutating control operations are unavailable during resolver reload"))
  else if startup_mutation
  then mret (Respond (make_error_response request "busy" "routing runtime initialization is still in progress"))
  else if negb (bool_decide (c_uid c = Some 0)) then refuse "control peer is not authorized for this operation"
  else if negb (bool_decide (operation ∈ known_operations))
  then mret (Respond (make_error_response request "unsupported_operation" "unsupported control operation"))
  else if bool_decide (operation = "test-routing") then test_routing request
  else if bool_decide (operation = "generate-resolver-config") then generate_stream (c_fd c) request
  else if bool_decide (operation = "download") then download (c_fd c) request
  else status request.

(** One turn of the loop: the [std::exception]s become a response. *)
Definition as_response (request : json) (m : M reply) : M reply :=
  try_catch_std m (λ error, mret (Respond (make_error_response request "protocol_error" error))).
Definition handle_client (c : ipc_client) : M unit :=
  reply ← match read_request c with
          | Ok request => as_response request (handle_request c request)
          | r => as_response (JObj []) (raise (r ≫= λ _, Ok Continue))
          end;
  match reply with Respond response => answer (c_fd c) response | Continue => mret tt end.

(** [while (true)]: until [accept4] has no client or fails *)
Fixpoint handle_clients (l : list accepted) : M unit :=
  match l with
  | [] => mret tt
  | AcceptError error :: l => λ w, (Throw (DaemonError ("control socket accept failed: " ++ error)),
      mk_ipc (i_daemon w) (i_resolver_hook_inflight w) (i_mutation_inflight w) l (i_effects w))
  | Client c :: l => λ w,
      (handle_client c;; handle_clients l) (mk_ipc (i_daemon w) (i_resolver_hook_inflight w) (i_mutation_inflight w) l (i_effects w))
  end.
Definition handle_ipc_control_socket : M unit := λ w, handle_clients (i_pending w) w.

(** ** The job of a stream *)

(** What the job writes, and the exception that ends it; [now_ts] and [now] are its
    readings of the clock *)
Definition stream_puts (d : Daemon) (j : stream_job) (now_ts now : Z) : exc (list put * option exn) :=
  let config := generation_config (sj_generation j) in
  let own_cache := Build_CacheManager (sj_cache_dir j) (max_file_size_bytes config) in
  let start := Text ("# keen-pbr resolver state: active" ++ [chr 10]) in
  match make_DnsServerRegistry (keenetic_addresses (d_host d)) (sj_dns_config j) with
  | Throw e => Ok ([start], Some e)
  | Undefined => Undefined
  | Ok registry =>
      let '(r, text) := @generate IP (list_files (d_lists d)) own_cache registry (value_or (route config) default_RouteConfig) (sj_dns_config j)
        (config_lists config) (keenetic_static (d_host d)) (keenetic_upstreams (d_host d)) (sj_type j) version
        (generation_ipv6_enabled (sj_generation j)) now_ts in
      match r with
      | Ok _ => Ok ([start; Text text; Text ("txt-record=resolver-state.keen.pbr," ++ to_string now ++ "|active|runtime_active" ++ [chr 10])], None)
      | Throw e => Ok ([start; Text text], Some e)
      | Undefined => Undefined
      end
  end.

(** ** What a client gets *)

Definition served (fd : Z) (l : list ipc_effect) : Prop :=
  (∃ frame, l = [Sent fd frame; Closed fd]) ∨ (∃ j, l = [Dispatched j] ∧ sj_client j = fd).

(** An operation leaves the flags and the queue alone, and has an effect only when
    it has nothing left to respond. *)
Definition operation_ok (fd : Z) (m : M reply) : Prop := ∀ w, let '(r, w') := m w in
  i_pending w' = i_pending w ∧ i_resolver_hook_inflight w' = i_resolver_hook_inflight w ∧ i_mutation_inflight w' = i_mutation_inflight w ∧
  ∃ l, i_effects w' = i_effects w ++ l ∧ match r with Ok Continue => served fd l | _ => l = [] end.

Lemma operation_pure fd (m : M reply) : (∀ w, (m w).2 = w ∧ (m w).1 ≠ Ok Continue) → operation_ok fd m.
Proof.
  intros H w. destruct (H w) as [Hw Hr]. destruct (m w) as [r w']. cbn in *. subst w'. split_and!; [done..|]. exists []. rewrite app_nil_r. split; [done|].
  by destruct r as [[]| |].
Qed.
Lemma bind_operation {A} fd (m : M A) (f : A → M reply) :
  (∀ w, let '(r, w') := m w in i_pending w' = i_pending w ∧ i_resolver_hook_inflight w' = i_resolver_hook_inflight w ∧
        i_mutation_inflight w' = i_mutation_inflight w ∧ i_effects w' = i_effects w) →
  (∀ a, operation_ok fd (f a)) → operation_ok fd (m ≫= f).
Proof.
  intros Hm Hf w. unfold mbind, stexc_bind. specialize (Hm w). destruct (m w) as [[a|e|] w1]; destruct Hm as (Hp & Hh & Hmu & He).
  - specialize (Hf a w1). destruct (f a w1) as [r w2]. destruct Hf as (-> & -> & -> & l & -> & ?). rewrite He. split_and!; [done..|]. by exists l.
  - split_and!; [done..|]. exists []. by rewrite app_nil_r.
  - split_and!; [done..|]. exists []. by rewrite app_nil_r.
Qed.
Lemma on_daemon_keeps {A} (m : stexc Daemon A) w : let '(r, w') := on_daemon m w in i_pending w' = i_pending w ∧
  i_resolver_hook_inflight w' = i_resolver_hook_inflight w ∧ i_mutation_inflight w' = i_mutation_inflight w ∧ i_effects w' = i_effects w.
Proof. unfold on_daemon. by destruct (m (i_daemon w)). Qed.
Lemma get_operation fd (f : ipc_world → M reply) : (∀ w, operation_ok fd (f w)) → operation_ok fd (get_st ≫= f).
Proof. intros H. apply bind_operation; [done|exact H]. Qed.
Lemma raise_operation {A} fd (e : exc A) (f : A → M reply) : (∀ a, operation_ok fd (f a)) → operation_ok fd (raise e ≫= f).
Proof. intros H. apply bind_operation; [done|exact H]. Qed.

Lemma answer_operation fd response : operation_ok fd (answer fd response;; mret Continue).
Proof.
  intros w. unfold mbind, stexc_bind, answer. destruct (encode_message response) as [frame|e|]; cbn.
  - split_and!; [done..|]. exists [Sent fd frame; Closed fd]. rewrite <-app_assoc. split; [done|]. left. by exists frame.
  - split_and!; [done..|]. exists []. by rewrite app_nil_r.
  - split_and!; [done..|]. exists []. by rewrite app_nil_r.
Qed.
Lemma respond_operation fd j : operation_ok fd (mret (Respond j)).
Proof. by apply operation_pure. Qed.
Lemma refuse_operation fd m : operation_ok fd (refuse m).
Proof. by apply operation_pure. Qed.

Lemma if_operation fd (b : bool) (m n : M reply) : operation_ok fd m → operation_ok fd n → operation_ok fd (if b then m else n).
Proof. by destruct b. Qed.

Lemma generate_stream_operation fd request : operation_ok fd (generate_stream fd request).
Proof.
  apply get_operation. intros w. destruct (stream_reason _); [apply answer_operation|]. destruct (r_generation_snapshot _) as [g|]; [|apply refuse_operation].
  apply raise_operation. intros resolver. apply bind_operation; [intros; apply on_daemon_keeps|]. intros [|]; [|apply respond_operation].
  intros w'. cbn. split_and!; [done..|]. eexists. split; [done|]. right. by eexists.
Qed.
(** The gate is open before and after a download. *)
Lemma download_operation fd request : operation_ok fd (download fd request).
Proof.
  intros w. unfold download. unfold mbind at 1, stexc_bind at 1, get_st at 1.
  destruct (i_mutation_inflight w) eqn:Hm; [rewrite <-Hm; exact (answer_operation fd _ w)|].
  set (body := raise _ ≫= _). assert (Hbody : operation_ok fd body).
  { apply raise_operation. intros reload. apply bind_operation; [|intros r; apply respond_operation]. intros v. destruct reload; [apply on_daemon_keeps|].
    set (m := get_st ≫= _). pose proof (on_daemon_keeps m v) as H. unfold mbind, stexc_bind. by destruct (on_daemon m v) as [[]]. }
  specialize (Hbody (set_mutation true w)). unfold with_gate. destruct (body _) as [r w']. destruct Hbody as (Hp & Hh & _ & l & He & Hl).
  split_and!; [done..|]. by exists l.
Qed.
Lemma test_routing_operation fd request : operation_ok fd (test_routing request).
Proof.
  apply raise_operation. intros target. apply if_operation; [apply refuse_operation|]. apply get_operation. intros v. apply raise_operation. intros r.
  apply respond_operation.
Qed.
Lemma handle_request_operation c request : operation_ok (c_fd c) (handle_request c request).
Proof.
  apply raise_operation. intros []. apply get_operation. intros w. cbv zeta.
  do 7 (apply if_operation; [first [apply respond_operation | apply refuse_operation | apply test_routing_operation | apply generate_stream_operation
    | apply download_operation]|]).
  by apply operation_pure.
Qed.

(** ** Who may do what *)

(** A client that is not root is answered with an error and changes nothing. *)
Lemma unauthorized_request c request w : c_uid c ≠ Some 0 →
  let '(r, w') := handle_request c request w in
  w' = w ∧ match r with Ok (Respond j) => ∃ code m, j = make_error_response request code m | Ok Continue => False | _ => True end.
Proof.
  intros Hu. unfold handle_request, mbind, stexc_bind, raise, get_st. destruct (validate_request_envelope _ _) as [[]|e|]; [|done..]. cbv zeta.
  destruct (i_resolver_hook_inflight w && _ && _); [split; [done|by do 2 eexists]|].
  destruct (bool_decide (state_ _ = _) && _); [split; [done|by do 2 eexists]|]. by rewrite (bool_decide_eq_false_2 (c_uid c = Some 0)).
Qed.

Definition refused (c : ipc_client) (l : list ipc_effect) : Prop :=
  ∃ request code m frame, encode_message (make_error_response request code m) = Ok frame ∧ l = [Sent (c_fd c) frame; Closed (c_fd c)].
Definition same_flags (w w' : ipc_world) : Prop :=
  i_pending w' = i_pending w ∧ i_resolver_hook_inflight w' = i_resolver_hook_inflight w ∧ i_mutation_inflight w' = i_mutation_inflight w.

Definition client_outcome (c : ipc_client) (w : ipc_world) (r : exc unit) (w' : ipc_world) : Prop :=
  same_flags w w' ∧ (c_uid c ≠ Some 0 → i_daemon w' = i_daemon w) ∧
  match r with
  | Ok _ => ∃ l, i_effects w' = i_effects w ++ l ∧ served (c_fd c) l ∧ (c_uid c ≠ Some 0 → refused c l)
  | Throw e => i_effects w' = i_effects w ∧ ((∃ response, encode_message response = Throw e) ∨ what e = None)
  | Undefined => True
  end.

(** The response of a turn is sent, unless it cannot be encoded. *)
Lemma answer_outcome c w response : (c_uid c ≠ Some 0 → ∃ request code m, response = make_error_response request code m) →
  let '(r, w') := answer (c_fd c) response w in client_outcome c w r w'.
Proof.
  intros He. unfold answer. destruct (encode_message response) as [frame|e|] eqn:Henc; unfold client_outcome, same_flags; cbn; split_and!; try done.
  - exists [Sent (c_fd c) frame; Closed (c_fd c)]. rewrite <-app_assoc. split_and!; [done|left; by exists frame|].
    intros Hu. destruct (He Hu) as (request & code & m & ->). by exists request, code, m, frame.
  - left. by exists response.
Qed.

Lemma caught_reply (request : json) c m w : operation_ok (c_fd c) m →
  (c_uid c ≠ Some 0 → let '(r, w') := m w in w' = w ∧ match r with Ok (Respond j) => ∃ request code m, j = make_error_response request code m | Ok Continue => False | _ => True end) →
  let '(r, w') := (as_response request m ≫= λ reply, match reply with Respond response => answer (c_fd c) response | Continue => mret tt end) w in
  client_outcome c w r w'.
Proof.
  intros Hop Hu. specialize (Hop w). unfold mbind, stexc_bind, as_response, try_catch_std. destruct (m w) as [r w1]. destruct Hop as (Hp & Hh & Hm & l & Hl & Hr).
  assert (Hlift : ∀ response, l = [] → (c_uid c ≠ Some 0 → ∃ request code m, response = make_error_response request code m) →
    let '(r, w') := answer (c_fd c) response w1 in client_outcome c w r w').
  { intros response -> Herr. rewrite app_nil_r in Hl. pose proof (answer_outcome c w1 response Herr) as Ho. destruct (answer (c_fd c) response w1) as [r' w2].
    destruct Ho as ((? & ? & ?) & Hd & Hres). unfold client_outcome, same_flags. split_and!; [congruence..| |].
    - intros Hn. rewrite (Hd Hn). by destruct (Hu Hn) as [-> _].
    - rewrite Hl in Hres. exact Hres. }
  destruct r as [[response|]|e|]; cbn.
  - apply Hlift; [done|]. intros Hn. by destruct (Hu Hn) as [_ ?].
  - unfold client_outcome, same_flags. split_and!; try done. { intros Hn. by destruct (Hu Hn) as [_ []]. }
    exists l. split_and!; [done..|]. intros Hn. by destruct (Hu Hn) as [_ []].
  - destruct (what e) as [error|] eqn:Hw; cbn.
    + apply Hlift; [done|]. intros _. by do 3 eexists.
    + rewrite Hr, app_nil_r in Hl. unfold client_outcome, same_flags. split_and!; try done; [|by right]. intros Hn. by destruct (Hu Hn) as [-> _].
  - unfold client_outcome, same_flags. split_and!; try done. intros Hn. by destruct (Hu Hn) as [-> _].
Qed.
Lemma handle_client_outcome c w : let '(r, w') := handle_client c w in client_outcome c w r w'.
Proof.
  unfold handle_client. destruct (read_request c) as [request|e|] eqn:Hr; apply caught_reply.
  - apply handle_request_operation.
  - intros Hu. pose proof (unauthorized_request c request w Hu) as H. destruct (handle_request c request w) as [[[j|]|e|] w'];
      destruct H as [-> H]; (split; [done|]); [by destruct H as (code & m & ->); do 3 eexists|done..].
  - by apply operation_pure.
  - done.
  - by apply operation_pure.
  - done.
Qed.

(** C12. Every client of the control socket is served once.  When the daemon has
    handled the clients that wait, each of them, in order, has got one answer and
    its descriptor is closed, or its descriptor went to the executor of the streams;
    the gate of the downloads is as before.  A client that is not root got an error,
    and if there was no other client the daemon is unchanged.  The handler is left
    early only when [accept4] fails or a response cannot be encoded. *)
Theorem control_socket_serves_each_client w : let '(r, w') := handle_ipc_control_socket w in
  i_resolver_hook_inflight w' = i_resolver_hook_inflight w ∧ i_mutation_inflight w' = i_mutation_inflight w ∧
  (Forall (λ a, ∀ c, a = Client c → c_uid c ≠ Some 0) (i_pending w) → i_daemon w' = i_daemon w) ∧
  match r with
  | Ok _ => i_pending w' = [] ∧ ∃ ls, i_effects w' = i_effects w ++ concat ls ∧
      Forall2 (λ a l, ∃ c, a = Client c ∧ served (c_fd c) l ∧ (c_uid c ≠ Some 0 → refused c l)) (i_pending w) ls
  | Throw e => (∃ error, AcceptError error ∈ i_pending w ∧ e = DaemonError ("control socket accept failed: " ++ error)) ∨
      (∃ response, encode_message response = Throw e) ∨ what e = None
  | Undefined => True
  end.
Proof.
  unfold handle_ipc_control_socket. remember (i_pending w) as l eqn:Hl. revert w Hl. induction l as [|[c|error] l IH]; intros w Hl; cbn [handle_clients].
  - cbn. split_and!; try done. exists []. by rewrite app_nil_r.
  - unfold mbind, stexc_bind. set (w0 := mk_ipc _ _ _ l _). pose proof (handle_client_outcome c w0) as Ho.
    destruct (handle_client c w0) as [[[]|e|] w1]; destruct Ho as ((Hp & Hh & Hm) & Hd & Ho).
    + destruct Ho as (lc & He & Hserved & Href). specialize (IH w1 (eq_sym Hp)). destruct (handle_clients l w1) as [r w2].
      destruct IH as (-> & -> & Hd' & IH). split_and!; [done|done| |].
      * intros [Hc Hall]%Forall_cons. rewrite (Hd' Hall). by apply (Hd (Hc c eq_refl)).
      * destruct r as [[]|e|]; [|destruct IH as [(error & Hin & ->)|IH]; [left; exists error; split; [by right|done]|by right]|done].
        destruct IH as (Hpend & ls & He' & HF). split; [done|]. exists (lc :: ls). cbn. rewrite He', He, <-app_assoc. split; [done|]. constructor; [|done]. by exists c.
    + split_and!; [done|done| |by right; apply Ho]. intros [Hc _]%Forall_cons. apply (Hd (Hc c eq_refl)).
    + split_and!; [done|done| |done]. intros [Hc _]%Forall_cons. apply (Hd (Hc c eq_refl)).
  - cbn. split_and!; try done. left. exists error. split; [left|done].
Qed.

(** ** The fallback of a daemon that is stopped *)

Lemma read_request_frame c request frame : compact_reparses → encode_message request = Ok frame → c_input c = frame → is_Some (c_uid c) →
  read_request c = Ok request.
Proof.
  intros Hre Henc Hin [uid Hu]. pose proof (decode_encoded parse_error request frame Hre Henc) as Hdec.
  apply encode_frame in Henc as (payload & _ & Hs & Hf). unfold read_request. rewrite Hu, Hin, Hf.
  assert (Ht : take 4 (htonl (ControlProtocol.size payload) ++ payload) = htonl (ControlProtocol.size payload)) by done.
  assert (Hd : drop 4 (htonl (ControlProtocol.size payload) ++ payload) = payload) by done. rewrite Ht, Hd, htonl_length, ntohl_size by done. cbn [negb Nat.eqb].
  destruct (ControlProtocol.size payload >? _) eqn:Hg; [lia|]. assert (Hn : Z.to_nat (ControlProtocol.size payload) = length payload) by (unfold ControlProtocol.size; lia).
  rewrite Hn, take_ge by lia. rewrite Z.eqb_refl. cbn [negb].
  by rewrite <-Hf.
Qed.

Section fallback.
Context {W : Type} `{IO : !ControlIO W} `{CL : !ConnectionLaws W} (Hre : compact_reparses).
Context (resolver frame : cstring) (Hframe : encode_message (cli_request resolver) = Ok frame).

Lemma generate_when_down c w reason hdr : c_uid c = Some 0 → c_input c = frame → stream_reason (state_ (d_machine (i_daemon w))) = Some reason →
  encode_message (make_error_response (cli_request resolver) reason "resolver runtime is not active") = Ok hdr →
  handle_client c w = (Ok tt, effect (Closed (c_fd c)) (effect (Sent (c_fd c) hdr) w)).
Proof using Hre Hframe.
  intros Hu Hin Hstate Hhdr. unfold handle_client. rewrite (read_request_frame c _ frame Hre Hframe Hin) by by eexists.
  unfold as_response, try_catch_std, handle_request, mbind, stexc_bind, raise, get_st. rewrite cli_request_valid.
  change (text_member "operation" (cli_request resolver)) with (str "generate-resolver-config"). cbv zeta.
  rewrite (bool_decide_eq_true_2 (str "generate-resolver-config" = "generate-resolver-config")) by done.
  rewrite (bool_decide_eq_false_2 (str "generate-resolver-config" = "download")) by done.
  rewrite (bool_decide_eq_false_2 (str "generate-resolver-config" = "test-routing")) by done. cbn [negb orb]. rewrite !andb_false_r. cbn [andb].
  rewrite (bool_decide_eq_true_2 (c_uid c = Some 0)) by done. rewrite (bool_decide_eq_true_2 (str "generate-resolver-config" ∈ known_operations)) by (repeat constructor || (unfold known_operations; set_solver)).
  cbn [negb]. unfold generate_stream, mbind, stexc_bind, get_st. rewrite Hstate. unfold answer. rewrite Hhdr. done.
Qed.

(** C14. A daemon that was stopped makes the resolver use the fallback, end to end.
    In the states "stopped" and "shutting_down" the daemon answers the command with
    the reason and is itself unchanged; when nothing fails on the way the command
    succeeds, and its output is the fallback file behind the hash and the state that
    the reason names. *)
Theorem stopped_daemon_ends_in_fallback c w reason hdr fuel path config_path body now (wc : W) :
  c_uid c = Some 0 → c_input c = frame → stream_reason (state_ (d_machine (i_daemon w))) = Some reason →
  encode_message (make_error_response (cli_request resolver) reason "resolver runtime is not active") = Ok hdr →
  never_fails (W := W) → incoming wc = hdr → ControlProtocol.size path < sun_path_size → resolver ∈ [str "dnsmasq"; str "dnsmasq-ipset"; str "dnsmasq-nftset"] →
  body ≠ [] →
  let '(r, w') := handle_client c w in
  r = Ok tt ∧ i_daemon w' = i_daemon w ∧ i_effects w' = i_effects w ++ [Sent (c_fd c) hdr; Closed (c_fd c)] ∧
  ∃ wc', generate_resolver_config float_equal parse_error fuel path config_path config_path resolver (Some body) now wc = (Ok tt, wc') ∧
    printed wc' = printed wc ++ (emit_resolver_fallback (Some body) reason now).1.
Proof using Hre Hframe.
  intros Hu Hin Hstate Hhdr Hrel Hwc Hpath Hres Hbody. rewrite (generate_when_down c w reason hdr Hu Hin Hstate Hhdr).
  split_and!; [done|done|cbn; by rewrite <-app_assoc|]. unfold generate_resolver_config. rewrite (bool_decide_eq_true_2 (config_path = config_path)) by done.
  rewrite (bool_decide_eq_true_2 (resolver ∈ _)) by done. cbn [negb]. unfold mbind, stexc_bind.
  destruct (refused_client_Ok float_equal parse_error Hrel fuel path _ frame 15000 wc hdr reason "resolver runtime is not active" Hre Hpath (cli_request_valid float_equal resolver) Hframe Hhdr Hwc)
    as (w1 & -> & Hp). cbn [stream_what active_bytes_streamed].
  assert (Hreason : resolver_fallback_reason reason = Some reason ∧ valid_reason_code reason = true).
  { unfold stream_reason in Hstate. destruct (state_ _); try done; injection Hstate as <-; split; reflexivity. }
  destruct Hreason as [-> Hvalid]. pose proof (out_law (emit_resolver_fallback (Some body) reason now).1 w1) as Hout.
  pose proof (proj2 (proj2 (proj2 (proj2 Hrel))) (emit_resolver_fallback (Some body) reason now).1 w1) as Hgood.
  unfold emit_resolver_fallback in *. rewrite Hvalid in *. cbn [negb fst snd] in *. rewrite (bool_decide_eq_false_2 (body = [])) by done. cbn [negb].
  destruct (out_write _ w1) as [g w2]. cbn in Hgood. subst g. cbn [andb]. exists w2. split; [done|]. destruct Hout as (_ & _ & ->). by rewrite Hp.
Qed.
End fallback.
End ipc.
