(* ===== verification/DaemonControl.v ===== *)
(** * Startup, reloads, lifecycle operations and the event loop
    (src/src/daemon/daemon_core.cpp, daemon_api.cpp)

    The closures that the daemon posts to its event loop and its executors, the
    operations of the API, and the loop that runs them.  A worker that waits for
    the event loop lets it run first ([yield]); each task, job and callback is
    one step. *)

From S2P Require Import Prelude CppString Fwmark Netlink Json ConfigJson ApiJson Runtime RouteTable PolicyRule RoutingReconciler RoutingState.
From S2P Require Import AddrSpec FirewallRules Firewall CircuitBreaker UrlTest ListStreamer Cache ListService ConfigStore.
From S2P Require Import DnsServer DnsProbe DnsTxt Dnsmasq ResolverSync OutboundHealth Cron Validation DaemonState DaemonRuntime Config.

Local Open Scope Z_scope.

Definition new_stage (id title : cstring) : LifecycleOperationStage := mk_Stage id title LifecycleOperationStatus.Pending [].
Definition lifecycle_stages (type : LifecycleOperationType.t) : list LifecycleOperationStage :=
  match type with
  | LifecycleOperationType.ApplyConfig =>
      [new_stage "validate_config" "Validate configuration"; new_stage "prepare_remote_lists" "Prepare remote lists";
       new_stage "reconcile_runtime" "Reconcile routing and firewall"; new_stage "reload_dnsmasq" "Reload dnsmasq";
       new_stage "verify_dnsmasq" "Verify dnsmasq configuration"; new_stage "commit_config" "Commit configuration"]
  | LifecycleOperationType.Restart =>
      [new_stage "stop_routing" "Stop routing and firewall"; new_stage "start_routing" "Start routing and firewall";
       new_stage "reload_dnsmasq" "Reload dnsmasq"; new_stage "verify_dnsmasq" "Verify dnsmasq configuration"]
  | LifecycleOperationType.Start =>
      [new_stage "start_routing" "Start routing and firewall"; new_stage "reload_dnsmasq" "Reload dnsmasq";
       new_stage "verify_dnsmasq" "Verify dnsmasq configuration"]
  | LifecycleOperationType.Stop =>
      [new_stage "stop_routing" "Stop routing and firewall"; new_stage "reload_fallback" "Reload dnsmasq with fallback configuration"]
  end.

Record ListRefreshOperationResult := mk_ListRefresh {
  lr_refreshed_lists : list cstring;
  lr_changed_lists : list cstring;
  lr_failed_lists : list cstring;
  lr_reloaded : bool;
  lr_message : cstring;
}.

Section control.
Context {K F S D C E OR OU : Type}.
Context `{RN : !RoutingNetlink K} `{IN : !InterfaceNetlink K} `{NR : !Netlink K RouteSpec OR} `{NU : !Netlink K RuleSpec OU}.
Context `{FW : !Firewall F} `{TS : !TaskScheduler S} `{OS : !OneShot S}.
Context `{CW : !CacheWorld C} `{LF : !ListFiles C} `{CF : !ConfigFiles D} `{HO : !Host E}.
Context {SS : StdSort} {IP : InetPton} {NL : Nlohmann} {JT : JsonText} {JD : JsonDump} `{LT : !LocalTime}.
Context {DB : DaemonBuild}.

Abbreviation Daemon := (DaemonState.Daemon K F S D C E).
Abbreviation M := (stexc Daemon).

(** ** Startup (daemon_core.cpp) *)

Definition fail_startup_runtime (error : cstring) : M unit :=
  try_transition RuntimeState.broken ("startup failed: " ++ error);; publish_runtime_state.

Definition begin_startup_runtime : M unit :=
  try_catch_all
    (setup_static_routing;;
     d ← get_st;
     queued ← try_post "startup-lists" (StartupLists (collect_relevant_list_names (d_config d)) (collect_dns_relevant_list_names (d_config d)));
     if queued : bool then mret tt else throw (DaemonError "startup list executor is unavailable"))
    (λ e, fail_startup_runtime (value_or (what e) "unknown routing initialization error")).
Definition run_startup_lists (relevant dns_relevant : gset cstring) : M unit :=
  d ← get_st;
  outcome ← try_catch_all
    (result ← on_lists (download_lists cache client (download_uncached_call (d_config d) (d_marks d) (Some relevant) (Some dns_relevant)));
     mret (Some result, []))
    (λ e, mret (None, value_or (what e) "unknown startup list error"));
  post_control_task (StartupAfterLists outcome.1 outcome.2).

Definition continue_startup_after_lists (refresh_result : option RemoteListsRefreshResult) (error : cstring) : M unit :=
  match refresh_result with
  | None => fail_startup_runtime (if bool_decide (error = []) then "startup list refresh failed" else error)
  | Some _ =>
      try_catch_all
        (apply_firewall FirewallApplyMode.Destructive;;
         now ← ask unix_timestamp_now_seconds;
         set_apply_started now;;
         update_resolver_config_hash;;
         publish_runtime_state;;
         queued ← try_post "startup-resolver-hook" StartupResolverHook;
         if queued : bool then mret tt else throw (DaemonError "startup resolver hook executor is unavailable"))
        (λ e, fail_startup_runtime (value_or (what e) "unknown firewall or resolver initialization error"))
  end.
Definition run_startup_resolver_hook : M unit :=
  outcome ← try_catch_all
    (run_system_resolver_hook_reload ≫= λ ok : bool, mret (ok, if ok then [] else str "system resolver reload hook failed"))
    (λ e, mret (false, value_or (what e) "unknown system resolver hook error"));
  post_control_task (StartupAfterResolverHook outcome.1 outcome.2).

Definition complete_startup : M unit :=
  complete_running_runtime "startup complete";; schedule_resolver_config_hash_actual_refresh.
Definition finish_startup_after_resolver_hook (hook_succeeded : bool) (error : cstring) : M unit :=
  if negb hook_succeeded then fail_startup_runtime (if bool_decide (error = []) then "system resolver reload hook failed" else error)
  else
    try_catch_all
      (update_resolver_config_hash;;
       setup_dns_probe;;
       on_host register_interface_monitor_fd;;
       d ← get_st;
       if negb (has_system_resolver (d_config d)) then complete_startup
       else
         expected ← expected_resolver_hash;
         queued ← try_post "startup-resolver-verification"
                    (StartupVerification (d_config d) expected (apply_started_ts (d_resolver d)));
         if queued : bool then mret tt else throw (DaemonError "startup resolver verification executor is unavailable"))
      (λ e, fail_startup_runtime (value_or (what e) "unknown startup finalization error")).
Definition run_startup_verification (candidate : Config) (expected : cstring) (started : Z) : M unit :=
  outcome ← confirm_resolver_hash candidate expected started;
  post_control_task (StartupAfterVerification outcome.1 outcome.2).
Definition run_startup_after_verification (verified : bool) (error : cstring) : M unit :=
  if negb verified then fail_startup_runtime error else try_catch_std complete_startup fail_startup_runtime.

(** ** Reloading through a transaction (daemon_api.cpp) *)

Definition on_transaction (m : stexc tx_state unit) (r : reload) : M reload :=
  let '(res, tx) := m (reload_transaction r) in
  of_exc res;; mret (mk_reload tx (reload_started r) (reload_persist r) (reload_json r)).
Definition failed_apply (started : option Z) (error : cstring) : ConfigApplyResult := mk_ApplyResult false false started error.

(** [enqueue_control_task] without waiting *)
Definition enqueue_control_task (t : task) : M unit := modify (λ d, set_d_tasks (d_tasks d ++ [t]) d).
(** The waiting thread gets the result of the transaction and posts it *)
Definition complete_apply (result : ConfigApplyResult) : M unit := post_control_task (SighupComplete result).
Definition fail_after_mutation (result : ConfigApplyResult) : M unit :=
  try_transition RuntimeState.broken "config apply failed";; publish_runtime_state;; complete_apply result.

Definition apply_validated_config_via_control_task (config : Config) (saved_config_json : cstring) (persist_config : bool) : M unit :=
  started ← ask unix_timestamp_now_seconds;
  set_apply_started started;;
  outcome ← try_catch_std (prepared ← prepare_runtime_inputs config true; mret (inl prepared)) (λ error, mret (inr error));
  match outcome with
  | inl prepared => enqueue_control_task (ApplyCandidate prepared
                      (mk_reload ConfigApplyTransactionState.Prepared started persist_config saved_config_json))
  | inr error => complete_apply (failed_apply (Some started) error)
  end.
Definition run_apply_candidate (prepared : PreparedRuntimeInputs) (r : reload) : M unit :=
  try_catch_std
    (apply_prepared_runtime_inputs prepared false;;
     r ← on_transaction candidate_applied r;
     expected ← expected_resolver_hash;
     d ← get_st;
     queued ← try_post "config-apply-resolver-confirmation" (Confirmation r (d_config d) expected);
     if queued : bool then mret tt else throw (DaemonError "resolver confirmation executor is unavailable"))
    (λ error, fail_after_mutation (failed_apply (Some (reload_started r)) error)).
Definition run_confirmation (r : reload) (candidate : Config) (expected : cstring) : M unit :=
  outcome ← try_catch_all (confirm_resolver_hash candidate expected (reload_started r))
              (λ e, mret (false, value_or (what e) "resolver confirmation failed with an unknown error"));
  post_control_task (ConfirmationCommit r outcome.1 outcome.2).

Definition commit_reload (r : reload) : M unit :=
  r ← on_transaction resolver_confirmed r;
  (if negb (may_commit (reload_transaction r))
   then throw (DaemonError "resolver confirmation did not unlock config commit") else mret tt);;
  d ← get_st;
  (if reload_persist r then on_disk (write_config_atomically (d_config_path d) (reload_json r)) else mret tt);;
  publish_active_snapshot;;
  (if reload_persist r then modify (λ d, set_d_store (clear_staged_if_matches (reload_json r) (d_store d)) d) else mret tt);;
  transition_runtime_or_throw RuntimeState.running "config apply complete";;
  publish_runtime_state;;
  on_transaction committed r ≫= λ _, mret tt.
Definition run_confirmation_commit (r : reload) (confirmed : bool) (error : cstring) : M unit :=
  if negb confirmed then fail_after_mutation (failed_apply (Some (reload_started r)) error)
  else
    result ← try_catch_std (commit_reload r;; mret (mk_ApplyResult (reload_persist r) true (Some (reload_started r)) []))
               (λ error, mret (failed_apply (Some (reload_started r)) error));
    complete_apply result.

(** ** SIGHUP (daemon_core.cpp) *)

Definition finish_operation_task : M unit := modify (λ d, set_d_operation (finish_operation (d_operation d)) d).
Definition handle_sighup : M unit :=
  d ← get_st;
  let '(started, coordinator) := try_begin "sighup-reload" (d_operation d) in
  if negb started then mret tt
  else
    modify (set_d_operation coordinator);;
    enqueued ← try_post "sighup-config-transaction" SighupTransaction;
    if enqueued : bool then mret tt else finish_operation_task.
Definition run_sighup_transaction : M unit :=
  try_catch_std (candidate ← read_disk_config; apply_validated_config_via_control_task candidate [] false)
    (λ error, post_control_task (SighupComplete (failed_apply None error))).

(** ** Operations of the API (daemon_api.cpp) *)

Definition finish_config_operation : M unit :=
  modify (set_d_config_op ConfigOperationState.Idle);; finish_operation_task.

Definition begin_config_operation_or_throw (state : ConfigOperationState.t) (reason : cstring)
    (require_runtime_running require_runtime_stopped : bool) : M unit :=
  d ← get_st;
  let busy := ApiError "Another config operation is already in progress" in
  if negb (bool_decide (d_config_op d = ConfigOperationState.Idle)) then throw busy
  else
    let '(started, coordinator) := try_begin reason (d_operation d) in
    if negb started then throw busy
    else
      modify (set_d_operation coordinator);;
      let refuse m := finish_operation_task;; throw (ApiError m) in
      let snap := d_published d in
      if bool_decide (snap_runtime_state snap = RuntimeState.starting) ||
         bool_decide (snap_runtime_state snap = RuntimeState.shutting_down)
      then refuse "Routing runtime initialization is still in progress"
      else if require_runtime_running && negb (snap_routing_runtime_active snap)
      then refuse "Routing runtime is stopped; start it first"
      else if require_runtime_stopped && snap_routing_runtime_active snap
      then refuse "Routing runtime is already started"
      else modify (set_d_config_op state).

(** ** The event loop *)

(** [scheduler_->schedule_*] callbacks, by their labels *)
Definition run_timer (label : cstring) : M unit :=
  if bool_decide (label = "lists-autoupdate") then refresh_lists_and_maybe_reload_async
  else if bool_decide (label = "keenetic-dns-refresh") then post_control_task KeeneticDnsRefresh
  else if bool_decide (label = "resolver-config-hash-actual") then maybe_schedule_resolver_config_hash_actual_refresh
  else if bool_decide (label = "resolver-config-hash-actual-retry") then run_resolver_hash_retry
  else if bool_decide (label = "sigusr1-runtime-refresh") then run_sigusr1_runtime_refresh
  else
    enqueued ← ask (executor_accepts label);
    d ← get_st;
    match d_urltest d with
    | Some manager => on_urltest (run_tests (d_marks d) (urltest_clock (d_host d)) enqueued (drop 8 label)) manager
    | None => mret tt
    end.

Definition run_task (t : task) : M unit :=
  match t with
  | StartupRuntime => begin_startup_runtime
  | StartupAfterLists result error => continue_startup_after_lists result error
  | StartupAfterResolverHook succeeded error => finish_startup_after_resolver_hook succeeded error
  | StartupAfterVerification verified error => run_startup_after_verification verified error
  | UrltestSelectionChange urltest_tag new_child_tag => run_urltest_selection_change urltest_tag new_child_tag
  | UrltestCommit urltest_tag probe_generation results => run_urltest_commit urltest_tag probe_generation results
  | ListsRefreshCommit runtime_active generation result error => run_lists_refresh_commit runtime_active generation result error
  | ResolverHashCommit t => commit_resolver_hash_probe_result t
  | KeeneticDnsRefresh => run_keenetic_dns_refresh
  | ApplyCandidate prepared r => run_apply_candidate prepared r
  | ConfirmationCommit r confirmed error => run_confirmation_commit r confirmed error
  | SighupComplete _ => finish_operation_task
  end.

Definition run_resolver_hash_probe (resolver_addr : cstring) (generation : Z) : M unit :=
  d ← get_st;
  r ← try_catch_std (of_exc (query_resolver_config_hash_txt resolver_addr 0 (d_host d)))
        (λ e, mret (mk_ProbeResult ResolverConfigHashProbeStatus.QUERY_FAILED None empty_TxtValue e));
  now ← ask unix_timestamp_now_seconds;
  post_control_task (ResolverHashCommit (mk_commit generation (Some r) (Some now))).
Definition run_urltest_probe (p : probe) : M unit :=
  d ← get_st;
  post_control_task (UrltestCommit (p_tag p) (p_generation p) (urltest_results p (d_host d))).

(** A job other than a lifecycle operation *)
Definition run_job (j : job) : M unit :=
  match j with
  | StartupLists relevant dns_relevant => run_startup_lists relevant dns_relevant
  | StartupResolverHook => run_startup_resolver_hook
  | StartupVerification candidate expected started => run_startup_verification candidate expected started
  | ListsAutoupdate config marks runtime_active generation => run_lists_autoupdate config marks runtime_active generation
  | ResolverHashProbe resolver_addr generation => run_resolver_hash_probe resolver_addr generation
  | UrltestProbe p => run_urltest_probe p
  | SighupTransaction => run_sighup_transaction
  | Confirmation r candidate expected => run_confirmation r candidate expected
  | LifecycleOperation _ _ => mret tt
  end.
Definition is_lifecycle (j : job) : bool := match j with LifecycleOperation _ _ => true | _ => false end.

(** The first job that satisfies [p], and the others *)
Fixpoint take_job (p : job → bool) (l : list job) : option (job * list job) :=
  match l with
  | [] => None
  | j :: l => if p j then Some (j, l) else prod_map id (cons j) <$> take_job p l
  end.

Definition dispatch (ev : loop_event) : M unit :=
  d ← get_st;
  match ev with
  | TaskDone => match d_tasks d with [] => mret tt | t :: tasks => modify (set_d_tasks tasks);; run_task t end
  | JobDone => match take_job (λ j, negb (is_lifecycle j)) (d_jobs d) with
               | None => mret tt
               | Some (j, jobs) => modify (set_d_jobs jobs);; try_catch_all (run_job j) (λ _, mret tt)
               end
  | TimerFired label => run_timer label
  | InterfaceEvent changed interface_name => handle_interface_event changed interface_name
  | SignalUsr1 => schedule_sigusr1_runtime_refresh
  | SignalHup => handle_sighup
  | DraftStaged config text => modify (λ d, set_d_store (stage_config config text (d_store d)) d)
  end.

(** What the event loop does while a worker waits for it.  Before the loop is
    started and after it has been left the task is run at once
    ([event_loop_active_] changes together with [accept_posted_control_tasks_]).
    An exception that leaves a task ends the process: nothing is said of what
    follows.  A loop that ends before it comes to the task leaves the worker
    waiting for ever: nothing follows either. *)
Definition yield : M unit := λ d,
  if negb (d_accept_posted d) then (Ok tt, d)
  else
    let '(events, e) := loop_events (d_host d) in
    match for_each dispatch events (set_d_host e d) with
    | (Ok _, d) => (if loop_serves e then Ok tt else Undefined, d)
    | (_, d) => (Undefined, d)
    end.

(** [enqueue_control_task] and wait *)
Definition run_control {A} (m : M A) : M A := yield;; m.

(** ** The refresh of the API *)

Definition refresh_message (r : RemoteListsRefreshResult) (reloaded stale_runtime : bool) : cstring :=
  if negb (any_refreshed r) then "No URL-backed lists to refresh"
  else if any_failed r then "Lists refreshed with failures"
  else if stale_runtime then "Lists refreshed; runtime changed before reload could be applied"
  else if negb (any_changed r) then "Lists refreshed; no updates found"
  else if reloaded then "Lists refreshed and runtime reloaded"
  else if any_relevant_changed r then "Lists refreshed; runtime is stopped so changes will apply on next start"
  else "Lists refreshed".

(** Whether the runtime was reloaded, and whether it had changed meanwhile *)
Definition commit_api_refresh (generation : Z) (runtime_active : bool) (r : RemoteListsRefreshResult) : M (bool * bool) :=
  d ← get_st;
  if negb (generation =? d_generation d) then mret (false, true)
  else if should_reload_runtime_after_list_refresh runtime_active r
  then reconcile_lists_only (any_dns_relevant_changed r);; mret (true, false)
  else mret (false, false).

Definition refresh_lists_via_api (requested_name : option cstring) : M ListRefreshOperationResult :=
  begin_config_operation_or_throw ConfigOperationState.Reloading "refresh-lists" false false;;
  d ← get_st;
  if config_is_draft (d_store d)
  then finish_config_operation;; throw (ApiError "List refresh is unavailable while a draft config is staged")
  else
    let config := active_config_of (active_snapshot (d_store d)) in
    marks ← of_exc (allocate_outbound_marks (daemon_fwmark config) (daemon_outbounds config));
    let runtime_active := snap_routing_runtime_active (d_published d) in
    let selection := select_remote_list_targets config requested_name in
    match selection_error selection with
    | RemoteListTargetSelectionError.NotFound => finish_config_operation;; throw (ApiError "Requested list was not found")
    | RemoteListTargetSelectionError.NotRemote => finish_config_operation;; throw (ApiError "Requested list is not URL-backed")
    | RemoteListTargetSelectionError.None =>
        try_catch_all
          (result ← refresh_lists config marks
             (match requested_name with Some _ => Some (list_to_set (list_names selection)) | None => None end);
           generation ← gets (λ d, d_generation d);
           outcome ← run_control (commit_api_refresh generation runtime_active result);
           finish_config_operation;;
           mret (mk_ListRefresh (refreshed_lists result) (changed_lists result) (failed_lists result) outcome.1
                   (refresh_message result outcome.1 outcome.2)))
          (λ e, finish_config_operation;; throw e)
    end.

(** ** Lifecycle operations (daemon_api.cpp) *)

Definition on_lifecycle (f : LifecycleOperationCoordinator unit → LifecycleOperationCoordinator unit) : M unit :=
  modify (λ d, set_d_lifecycle (f (d_lifecycle d)) d).
Definition finish_lifecycle (id error : cstring) : M unit :=
  now ← ask unix_timestamp_now_seconds; on_lifecycle (finish id error now).

Definition submit_lifecycle_operation (request : LifecycleRequest) : M cstring :=
  now ← ask unix_timestamp_now_seconds;
  d ← get_st;
  let stages := lifecycle_stages (request_type request) in
  let '((active, operation), coordinator) := begin (request_type request) stages now
    (mk_Snapshot [] (request_type request) LifecycleOperationResult.Running 0 None [] []) (d_lifecycle d) in
  match active with
  | Some _ => throw (ApiError "A lifecycle operation is already active")
  | None =>
      modify (set_d_lifecycle coordinator);;
      let id := op_id operation in
      queued ← try_post ("lifecycle:" ++ id) (LifecycleOperation id request);
      if queued : bool then mret id
      else
        match op_stages operation with
        | [] => of_exc Undefined
        | first :: _ =>
            on_lifecycle (fail_stage id (st_id first) "Lifecycle executor is unavailable");;
            finish_lifecycle id "Lifecycle executor is unavailable";;
            throw (ApiError "Lifecycle executor is unavailable")
        end
  end.

(** The local variables of [execute_lifecycle_operation], and the daemon *)
Record worker := mk_worker { current_stage : cstring; runtime_mutated : bool }.
Abbreviation W := (stexc (worker * Daemon)).
Definition within {A} (m : M A) : W A := λ s, let '(r, d) := m s.2 in (r, (s.1, d)).
Definition enter_stage (stage : cstring) : W unit := λ s, (Ok tt, (mk_worker stage (runtime_mutated s.1), s.2)).
Definition set_mutated : W unit := λ s, (Ok tt, (mk_worker (current_stage s.1) true, s.2)).

Section operation.
Context (id : cstring).

Definition op_start_stage (stage : cstring) : W unit := enter_stage stage;; within (on_lifecycle (start_stage id stage)).
Definition op_succeed_stage : W unit := λ s, within (on_lifecycle (succeed_stage id (current_stage s.1) [])) s.
Definition op_skip_stage (stage detail : cstring) : W unit := within (on_lifecycle (skip_stage id stage detail)).
(** A stage whose work is a control task *)
Definition control_stage (stage : cstring) (work : M unit) : W unit :=
  op_start_stage stage;; within (run_control work);; op_succeed_stage.

Definition reload_stage : W unit :=
  op_start_stage "reload_dnsmasq";;
  within (run_control run_system_resolver_hook_reload) ≫= λ ok : bool,
  (if ok then mret tt else throw (DaemonError "system resolver reload hook failed"));;
  op_succeed_stage.
Definition verify_stage (candidate : Config) (expected : cstring) (started : Z) : W unit :=
  verified ← within (run_control (confirm_resolver_hash candidate expected started));
  (if verified.1 : bool then mret tt else throw (DaemonError verified.2));;
  op_succeed_stage.
Definition skip_resolver_stages (reload_detail verify_detail : cstring) : W unit :=
  op_skip_stage "reload_dnsmasq" reload_detail;; op_skip_stage "verify_dnsmasq" verify_detail.

(** The resolver already serves the configuration *)
Definition resolver_is_current (s : ResolverSyncSnapshot) : bool :=
  negb (bool_decide (snap_expected_hash s = [])) && bool_decide (snap_actual_hash s = snap_expected_hash s) &&
  bool_decide (snap_live_status s = ResolverLiveStatus.HEALTHY).

(** An apply up to its commit *)
Definition apply_candidate (config : Config) : W unit :=
  op_start_stage "validate_config";;
  within (d ← get_st; of_exc (validate_config use_keenetic_api (system_info (d_host d)) config));;
  op_succeed_stage;;
  op_start_stage "prepare_remote_lists";;
  prepared ← within (prepare_runtime_inputs config true);
  op_succeed_stage;;
  set_mutated;;
  control_stage "reconcile_runtime" (reconcile_prepared_runtime false prepared);;
  (if has_system_resolver config then
     resolver_snapshot ← within (now ← ask unix_timestamp_now_seconds; gets (λ d, snapshot (r_sync (d_resolver d)) now));
     if resolver_is_current resolver_snapshot
     then skip_resolver_stages "Resolver configuration is unchanged and healthy" "Resolver configuration is already confirmed"
     else
       reload_stage;;
       op_start_stage "verify_dnsmasq";;
       started ← within (gets (λ d, apply_started_ts (d_resolver d)));
       verify_stage config (snap_expected_hash resolver_snapshot) started
   else skip_resolver_stages "No system resolver configured" "No system resolver configured");;
  within (run_control (complete_running_runtime "config apply verified")).
Definition commit_candidate (serialized : cstring) : W unit :=
  op_start_stage "commit_config";;
  within (d ← get_st; on_disk (write_config_atomically (d_config_path d) serialized));;
  within (run_control
    (publish_active_snapshot;;
     modify (λ d, set_d_store (clear_staged_if_matches serialized (d_store d)) d);;
     publish_runtime_state));;
  op_succeed_stage.
Definition apply_operation (request : LifecycleRequest) : W unit :=
  match request_config request with
  | None => throw (DaemonError "Apply request has no configuration")
  | Some config => apply_candidate config;; commit_candidate (serialized_config request)
  end.

Definition stop_operation : W unit :=
  set_mutated;;
  control_stage "stop_routing" (teardown_routing_and_firewall true);;
  op_start_stage "reload_fallback";;
  active ← within (gets (λ d, active_config_of (active_snapshot (d_store d))));
  if has_system_resolver active then
    within (run_control (run_system_resolver_hook "deactivate")) ≫= λ ok : bool,
    (if ok then mret tt else throw (DaemonError "system resolver fallback reload failed"));;
    op_succeed_stage
  else λ s, op_skip_stage (current_stage s.1) "No system resolver configured" s.

Definition start_operation (restart : bool) : W unit :=
  (if restart then set_mutated;; control_stage "stop_routing" (teardown_routing_and_firewall false) else mret tt);;
  set_mutated;;
  control_stage "start_routing" setup_routing_and_firewall;;
  active ← within (gets (λ d, active_config_of (active_snapshot (d_store d))));
  (if has_system_resolver active then
     reload_stage;;
     op_start_stage "verify_dnsmasq";;
     expected ← within expected_resolver_hash;
     started ← within (gets (λ d, apply_started_ts (d_resolver d)));
     verify_stage active expected started
   else skip_resolver_stages "No system resolver configured" "No system resolver configured");;
  within (run_control (complete_running_runtime "lifecycle operation complete")).

Definition operation_steps (request : LifecycleRequest) : W unit :=
  match request_type request with
  | LifecycleOperationType.ApplyConfig => apply_operation request
  | LifecycleOperationType.Stop => stop_operation
  | LifecycleOperationType.Restart => start_operation true
  | LifecycleOperationType.Start => start_operation false
  end.
Definition operation_body (request : LifecycleRequest) : W unit := operation_steps request;; within (finish_lifecycle id []).

Definition mark_broken (reason : cstring) : M unit :=
  try_catch_all (run_control (try_transition RuntimeState.broken reason;; publish_runtime_state)) (λ _, mret tt).

(** The two handlers *)
Definition fail_operation (w : worker) (error reason : cstring) : M unit :=
  (if bool_decide (current_stage w = []) then mret tt else on_lifecycle (fail_stage id (current_stage w) error));;
  (if runtime_mutated w && negb (bool_decide (current_stage w = "commit_config")) then mark_broken reason else mret tt);;
  finish_lifecycle id error.

Definition execute_lifecycle_operation (request : LifecycleRequest) : M unit := λ d,
  match operation_body request (mk_worker [] false, d) with
  | (Ok _, (_, d)) => (Ok tt, d)
  | (Undefined, (_, d)) => (Undefined, d)
  | (Throw e, (w, d)) =>
      match what e with
      | Some error => fail_operation w error ("lifecycle operation failed: " ++ error) d
      | None => let error := str "Unknown lifecycle operation failure" in fail_operation w error error d
      end
  end.
End operation.

(** ** The whole daemon (daemon_core.cpp) *)

(** The executors in the order in which they are shut down; each runs what it
    has accepted. *)
Definition executor_of (j : job) : nat :=
  match j with
  | LifecycleOperation _ _ => 0
  | StartupResolverHook => 1
  | StartupVerification _ _ _ | ResolverHashProbe _ _ | Confirmation _ _ _ => 2
  | _ => 3
  end.
Definition run_any_job (j : job) : M unit :=
  match j with LifecycleOperation id request => execute_lifecycle_operation id request | _ => run_job j end.
Definition drain_executor (n : nat) : M unit :=
  d ← get_st;
  modify (λ d, set_d_jobs (List.filter (λ j, negb (executor_of j =? n)%nat) (d_jobs d)) d);;
  for_each (λ j, try_catch_all (run_any_job j) (λ _, mret tt)) (List.filter (λ j, (executor_of j =? n)%nat) (d_jobs d)).

(** [run] after the event loop *)
Definition shutdown_runtime : M unit :=
  transition_runtime_or_throw RuntimeState.shutting_down "daemon shutdown";;
  publish_runtime_state;;
  try_catch_std (run_system_resolver_hook "deactivate" ≫= λ _, mret tt) (λ _, mret tt);;
  modify (set_d_accept_posted false);;
  for_each drain_executor [0; 1; 2; 3]%nat;;
  teardown_dns_probe;;
  clear_urltest;;
  modify (λ d, set_d_sched (cancel_all (d_sched d)) d);;
  drop_conntrack_marks;;
  on_policy_rules (PolicyRule.clear false);;
  on_route_table (RouteTable.clear false);;
  on_firewall fw_cleanup;;
  modify (λ d, set_d_host (remove_pid_file (d_host d)) d).

(** The event loop ends on SIGTERM or SIGINT, after [events]; requests of the
    API come between them. *)
Inductive daemon_event :=
  | Loop (ev : loop_event)
  | ApiSubmit (request : LifecycleRequest)
  | ApiRefreshLists (requested_name : option cstring)
  | LifecycleWorker.

(** A request that throws answers its client with an error *)
Definition step_daemon (ev : daemon_event) : M unit :=
  match ev with
  | Loop ev => dispatch ev
  | ApiSubmit request => try_catch_all (submit_lifecycle_operation request ≫= λ _, mret tt) (λ _, mret tt)
  | ApiRefreshLists name => try_catch_all (refresh_lists_via_api name ≫= λ _, mret tt) (λ _, mret tt)
  | LifecycleWorker =>
      d ← get_st;
      match take_job is_lifecycle (d_jobs d) with
      | Some (LifecycleOperation id request, jobs) => modify (set_d_jobs jobs);; execute_lifecycle_operation id request
      | _ => mret tt
      end
  end.

Definition run (events : list daemon_event) : M unit :=
  publish_runtime_state;;
  modify (set_d_accept_posted true);;
  post_control_task StartupRuntime;;
  for_each step_daemon events;;
  shutdown_runtime.
End control.
