(* ===== verification/DaemonFrame.v ===== *)
(** * What the tasks of the daemon leave alone

    [Stable I] says that the invariant [I] of the daemon's state survives the
    assignments the runtime makes; every operation of the runtime, every task,
    job and timer then keeps [I].  An invariant that speaks of members that only
    a change of configuration assigns ([StableReload]) survives those too. *)

From S2P Require Import Prelude CppString Fwmark Netlink Json ConfigJson ApiJson Runtime RouteTable PolicyRule RoutingReconciler RoutingState.
From S2P Require Import AddrSpec FirewallRules Firewall CircuitBreaker UrlTest ListStreamer Cache ListService ConfigStore.
From S2P Require Import DnsServer DnsProbe DnsTxt Dnsmasq ResolverSync OutboundHealth Cron Validation DaemonState DaemonRuntime DaemonControl Config.

Local Open Scope Z_scope.

(** The tasks and jobs of a change of configuration *)
Definition plain_task (t : task) : bool :=
  match t with ApplyCandidate _ _ | ConfirmationCommit _ _ _ => false | _ => true end.
Definition plain_job (j : job) : bool :=
  match j with SighupTransaction | Confirmation _ _ _ => false | _ => true end.
(** A reload that does not write the configuration file *)
Definition quiet_task (t : task) : bool :=
  match t with ApplyCandidate _ r | ConfirmationCommit r _ _ => negb (reload_persist r) | _ => true end.
Definition quiet_job (j : job) : bool := match j with Confirmation r _ _ => negb (reload_persist r) | _ => true end.

Create HintDb daemon.

Section frame.
Context {K F S D C E OR OU : Type}.
Context `{RN : !RoutingNetlink K} `{IN : !InterfaceNetlink K} `{NR : !Netlink K RouteSpec OR} `{NU : !Netlink K RuleSpec OU}.
Context `{FW : !Firewall F} `{TS : !TaskScheduler S} `{OS : !OneShot S}.
Context `{CW : !CacheWorld C} `{LF : !ListFiles C} `{CF : !ConfigFiles D} `{HO : !Host E}.
Context {SS : StdSort} {IP : InetPton} {NL : Nlohmann} {JT : JsonText} {JD : JsonDump} `{LT : !LocalTime}.
Context {DB : DaemonBuild}.

Abbreviation Daemon := (DaemonState.Daemon K F S D C E).
Abbreviation M := (stexc Daemon).

(** The tasks and jobs an invariant admits in the queues *)
Class Admits (okt : task → bool) (okj : job → bool) : Prop := {
  plain_admitted t : plain_task t = true → okt t = true;
  plain_job_admitted j : plain_job j = true → okj j = true;
}.

Class Stable (okt : task → bool) (okj : job → bool) (I : Daemon → Prop) : Prop := {
  keep_netlink x d : I d → I (set_d_netlink x d);
  keep_adopt_routes l : preserves I (on_route_table (RouteTable.adopt_desired l));
  keep_adopt_rules l : preserves I (on_policy_rules (PolicyRule.adopt_desired l));
  keep_firewall x d : I d → I (set_d_firewall x d);
  keep_firewall_state x d : I d → I (set_d_firewall_state x d);
  keep_conntrack x d : I d → I (set_d_conntrack x d);
  keep_machine x d : I d → I (set_d_machine x d);
  keep_urltest x d : I d → I (set_d_urltest x d);
  keep_sched x d : I d → I (set_d_sched x d);
  keep_timers x d : I d → I (set_d_timers x d);
  keep_resolver x d : I d → I (set_d_resolver x d);
  keep_lists_inflight x d : I d → I (set_d_lists_inflight x d);
  keep_published x d : I d → I (set_d_published x d);
  keep_operation x d : I d → I (set_d_operation x d);
  keep_lists x d : I d → I (set_d_lists x d);
  keep_host x d : I d → I (set_d_host x d);
  keep_post l d : Forall (λ t, okt t = true) l → I d → I (set_d_tasks (d_tasks d ++ l) d);
  keep_jobs l d : Forall (λ j, okj j = true) l → I d → I (set_d_jobs (d_jobs d ++ l) d);
}.

Context (okt : task → bool) (okj : job → bool) {AD : Admits okt okj} (I : Daemon → Prop) {ST : Stable okt okj I}.

Lemma keep_modify f : (∀ d, I d → I (f d)) → preserves I (modify f).
Proof. intros H d. apply H. Qed.
Lemma keep_gets {A} (f : Daemon → A) : preserves I (gets f).
Proof. by intros d. Qed.
Lemma keep_get : preserves I get_st.
Proof. by intros d. Qed.
Lemma keep_of_exc {A} (e : exc A) : preserves I (of_exc e).
Proof. by intros d. Qed.
Lemma keep_throw {A} e : preserves I (throw e : M A).
Proof. by intros d. Qed.
Lemma keep_on_netlink {A} (m : stexc K A) : preserves I (on_netlink m).
Proof. intros d H. unfold on_netlink. destruct (m _). by apply keep_netlink. Qed.
Lemma keep_on_firewall {A} (m : stexc F A) : preserves I (on_firewall m).
Proof. intros d H. unfold on_firewall. destruct (m _). by apply keep_firewall. Qed.
Lemma keep_on_scheduler {A} (m : stexc S A) : preserves I (on_scheduler m).
Proof. intros d H. unfold on_scheduler. destruct (m _). by apply keep_sched. Qed.
Lemma keep_on_lists {A} (m : stexc C A) : preserves I (on_lists m).
Proof. intros d H. unfold on_lists. destruct (m _). by apply keep_lists. Qed.
Lemma keep_on_host {A} (m : stexc E A) : preserves I (on_host m).
Proof. intros d H. unfold on_host. destruct (m _). by apply keep_host. Qed.
Lemma keep_ask {A} (f : E → A * E) : preserves I (ask f).
Proof. intros d H. unfold ask. destruct (f _). by apply keep_host. Qed.
Lemma keep_post_control_task t : okt t = true → preserves I (post_control_task t).
Proof. intros Ht d H. unfold post_control_task. cbn. destruct (d_accept_posted d); [|done]. apply keep_post; [by constructor|done]. Qed.
Lemma keep_try_post label j : okj j = true → preserves I (try_post label j).
Proof.
  intros Hj. apply preserves_bind; [apply keep_ask|]. intros []; [|apply preserves_ret].
  apply preserves_bind; [|intros; apply preserves_ret]. apply keep_modify. intros d. apply keep_jobs. by constructor.
Qed.
Lemma keep_on_urltest {A} (m : stexc (UrlTest.world S) A) manager : preserves I (on_urltest m manager).
Proof.
  intros d H. unfold on_urltest. destruct (m _) as [r w]. cbn.
  assert (H1 : I (set_d_jobs (d_jobs d ++ (UrltestProbe <$> probes w)) (set_d_urltest (Some (mgr w)) (set_d_sched (sched w) d)))).
  { apply (keep_jobs _ (set_d_urltest (Some (mgr w)) (set_d_sched (sched w) d))); [|by apply keep_urltest, keep_sched].
    apply Forall_fmap, Forall_true. intros. by apply plain_job_admitted. }
  destruct (d_accept_posted d); [|done].
  refine (keep_post ((λ c, UrltestSelectionChange c.1 c.2) <$> changes w) _ _ H1). apply Forall_fmap, Forall_true. intros. by apply plain_admitted.
Qed.
Lemma keep_transition next reason : preserves I (transition_runtime_or_throw next reason).
Proof.
  intros d H. unfold transition_runtime_or_throw. destruct (transition _ _ _ _) as [[[] ?] ?]; [by apply keep_machine|done].
Qed.

Lemma adopt_routes_kept l : preserves I (on_route_table (RouteTable.adopt_desired l)).
Proof. eapply keep_adopt_routes. Qed.
Lemma adopt_rules_kept l : preserves I (on_policy_rules (PolicyRule.adopt_desired l)).
Proof. eapply keep_adopt_rules. Qed.
Lemma keep_confirm c e s : preserves I (confirm_resolver_hash c e s).
Proof. by intros d. Qed.

(** Goes through the code of an operation; the members it assigns are those of
    [Stable]. *)
Ltac keep_leaf :=
  match goal with
  | |- preserves _ (modify _) => apply keep_modify; intros ? ?; cbn beta; unfold set_resolver, set_timers
  | |- _ (set_d_conntrack _ _) => apply keep_conntrack
  | |- _ (set_d_firewall_state _ _) => apply keep_firewall_state
  | |- _ (set_d_machine _ _) => apply keep_machine
  | |- _ (set_d_urltest _ _) => apply keep_urltest
  | |- _ (set_d_sched _ _) => apply keep_sched
  | |- _ (set_d_timers _ _) => apply keep_timers
  | |- _ (set_d_resolver _ _) => apply keep_resolver
  | |- _ (set_d_lists_inflight _ _) => apply keep_lists_inflight
  | |- _ (set_d_published _ _) => apply keep_published
  | |- _ (set_d_operation _ _) => apply keep_operation
  | |- _ (set_d_lists _ _) => apply keep_lists
  | |- _ (set_d_host _ _) => apply keep_host
  end.
#[local] Hint Resolve keep_gets keep_get keep_of_exc keep_throw keep_on_netlink keep_on_firewall keep_on_scheduler keep_on_lists keep_on_host
  keep_ask keep_on_urltest keep_transition adopt_routes_kept adopt_rules_kept keep_confirm preserves_ret : daemon.
Ltac keep := repeat first
  [ done
  | progress auto with daemon
  | apply keep_post_control_task, plain_admitted; reflexivity
  | apply keep_try_post, plain_job_admitted; reflexivity
  | keep_leaf
  | apply preserves_bind; [|intros ?]
  | apply preserves_catch_std; [|intros ?]
  | apply preserves_catch_all; [|intros ?]
  | apply preserves_for_each; intros ? ?
  | match goal with |- preserves _ (match ?x with _ => _ end) => destruct x end ].

Lemma keep_publish_runtime_state : preserves I (publish_runtime_state).
Proof. unfold publish_runtime_state. keep. Qed.
#[local] Hint Resolve keep_publish_runtime_state : daemon.
Lemma keep_update_sync f g : preserves I (update_sync f g).
Proof. unfold update_sync. keep. Qed.
#[local] Hint Resolve keep_update_sync : daemon.
Lemma keep_set_apply_started ts : preserves I (set_apply_started ts).
Proof. unfold set_apply_started. keep. Qed.
#[local] Hint Resolve keep_set_apply_started : daemon.
Lemma keep_set_hash_inflight b : preserves I (set_hash_inflight b).
Proof. unfold set_hash_inflight. keep. Qed.
#[local] Hint Resolve keep_set_hash_inflight : daemon.
Lemma keep_update_resolver_config_hash : preserves I (update_resolver_config_hash).
Proof. unfold update_resolver_config_hash. keep. Qed.
#[local] Hint Resolve keep_update_resolver_config_hash : daemon.
Lemma keep_reset_resolver_actual_state : preserves I (reset_resolver_actual_state).
Proof. unfold reset_resolver_actual_state. keep. Qed.
#[local] Hint Resolve keep_reset_resolver_actual_state : daemon.
Lemma keep_refresh_resolver_config_hash_actual_async : preserves I (refresh_resolver_config_hash_actual_async).
Proof. unfold refresh_resolver_config_hash_actual_async. keep. Qed.
#[local] Hint Resolve keep_refresh_resolver_config_hash_actual_async : daemon.
Lemma keep_maybe_schedule_resolver_config_hash_actual_refresh : preserves I (maybe_schedule_resolver_config_hash_actual_refresh).
Proof. unfold maybe_schedule_resolver_config_hash_actual_refresh. keep. Qed.
#[local] Hint Resolve keep_maybe_schedule_resolver_config_hash_actual_refresh : daemon.
Lemma keep_cancel_task id : preserves I (cancel_task id).
Proof. unfold cancel_task. keep. Qed.
#[local] Hint Resolve keep_cancel_task : daemon.
Lemma keep_drop_task id w : preserves I (drop_task id w).
Proof. unfold drop_task. keep. Qed.
#[local] Hint Resolve keep_drop_task : daemon.
Lemma keep_schedule_resolver_config_hash_actual_retry : preserves I (schedule_resolver_config_hash_actual_retry).
Proof. unfold schedule_resolver_config_hash_actual_retry. keep. Qed.
#[local] Hint Resolve keep_schedule_resolver_config_hash_actual_retry : daemon.
Lemma keep_run_resolver_hash_retry : preserves I (run_resolver_hash_retry).
Proof. unfold run_resolver_hash_retry. keep. Qed.
#[local] Hint Resolve keep_run_resolver_hash_retry : daemon.
Lemma keep_schedule_resolver_config_hash_actual_refresh : preserves I (schedule_resolver_config_hash_actual_refresh).
Proof. unfold schedule_resolver_config_hash_actual_refresh. keep. Qed.
#[local] Hint Resolve keep_schedule_resolver_config_hash_actual_refresh : daemon.
Lemma keep_commit_resolver_hash_probe_result t : preserves I (commit_resolver_hash_probe_result t).
Proof. unfold commit_resolver_hash_probe_result. keep. Qed.
#[local] Hint Resolve keep_commit_resolver_hash_probe_result : daemon.
Lemma keep_run_system_resolver_hook a : preserves I (run_system_resolver_hook a).
Proof. unfold run_system_resolver_hook. keep. Qed.
#[local] Hint Resolve keep_run_system_resolver_hook : daemon.
Lemma keep_wait_for_resolver_stream_after b : preserves I (wait_for_resolver_stream_after b).
Proof. unfold wait_for_resolver_stream_after. keep. Qed.
#[local] Hint Resolve keep_wait_for_resolver_stream_after : daemon.
Lemma keep_run_system_resolver_hook_reload : preserves I (run_system_resolver_hook_reload).
Proof. unfold run_system_resolver_hook_reload. keep. Qed.
#[local] Hint Resolve keep_run_system_resolver_hook_reload : daemon.
Lemma keep_refresh_keenetic_dns_cache b : preserves I (refresh_keenetic_dns_cache b).
Proof. unfold refresh_keenetic_dns_cache. keep. Qed.
#[local] Hint Resolve keep_refresh_keenetic_dns_cache : daemon.
Lemma keep_schedule_keenetic_dns_refresh : preserves I (schedule_keenetic_dns_refresh).
Proof. unfold schedule_keenetic_dns_refresh. keep. Qed.
#[local] Hint Resolve keep_schedule_keenetic_dns_refresh : daemon.
Lemma keep_run_keenetic_dns_refresh : preserves I (run_keenetic_dns_refresh).
Proof. unfold run_keenetic_dns_refresh. keep. Qed.
#[local] Hint Resolve keep_run_keenetic_dns_refresh : daemon.
Lemma keep_teardown_dns_probe : preserves I (teardown_dns_probe).
Proof. unfold teardown_dns_probe. keep. Qed.
#[local] Hint Resolve keep_teardown_dns_probe : daemon.
Lemma keep_setup_dns_probe : preserves I (setup_dns_probe).
Proof. unfold setup_dns_probe. keep. Qed.
#[local] Hint Resolve keep_setup_dns_probe : daemon.
Lemma keep_reconcile_static_routing : preserves I (reconcile_static_routing).
Proof. unfold reconcile_static_routing. keep. Qed.
#[local] Hint Resolve keep_reconcile_static_routing : daemon.
Lemma keep_setup_static_routing : preserves I (setup_static_routing).
Proof. unfold setup_static_routing. keep. Qed.
#[local] Hint Resolve keep_setup_static_routing : daemon.
Lemma keep_apply_firewall m : preserves I (apply_firewall m).
Proof. unfold apply_firewall. keep. Qed.
#[local] Hint Resolve keep_apply_firewall : daemon.
Lemma keep_drop_conntrack_marks : preserves I (drop_conntrack_marks).
Proof. unfold drop_conntrack_marks. keep. Qed.
#[local] Hint Resolve keep_drop_conntrack_marks : daemon.
Lemma keep_clear_urltest : preserves I (clear_urltest).
Proof. unfold clear_urltest. keep. Qed.
#[local] Hint Resolve keep_clear_urltest : daemon.
Lemma keep_register_urltest_group ob : preserves I (register_urltest_group ob).
Proof. unfold register_urltest_group. keep. Qed.
#[local] Hint Resolve keep_register_urltest_group : daemon.
Lemma keep_register_urltest_outbounds : preserves I (register_urltest_outbounds).
Proof. unfold register_urltest_outbounds. keep. Qed.
#[local] Hint Resolve keep_register_urltest_outbounds : daemon.
Lemma keep_run_urltest_selection_change t c : preserves I (run_urltest_selection_change t c).
Proof. unfold run_urltest_selection_change. keep. Qed.
#[local] Hint Resolve keep_run_urltest_selection_change : daemon.
Lemma keep_run_urltest_commit t g r : preserves I (run_urltest_commit t g r).
Proof. unfold run_urltest_commit. keep. Qed.
#[local] Hint Resolve keep_run_urltest_commit : daemon.
Lemma keep_schedule_lists_autoupdate : preserves I (schedule_lists_autoupdate).
Proof. unfold schedule_lists_autoupdate. keep. Qed.
#[local] Hint Resolve keep_schedule_lists_autoupdate : daemon.
Lemma keep_try_transition n r : preserves I (try_transition n r).
Proof. unfold try_transition. keep. Qed.
#[local] Hint Resolve keep_try_transition : daemon.
Lemma keep_complete_running_runtime r : preserves I (complete_running_runtime r).
Proof. unfold complete_running_runtime. keep. Qed.
#[local] Hint Resolve keep_complete_running_runtime : daemon.
Lemma keep_reconcile_lists_only b : preserves I (reconcile_lists_only b).
Proof. unfold reconcile_lists_only. keep. Qed.
#[local] Hint Resolve keep_reconcile_lists_only : daemon.
Lemma keep_refresh_lists c m t : preserves I (refresh_lists c m t).
Proof. unfold refresh_lists. keep. Qed.
#[local] Hint Resolve keep_refresh_lists : daemon.
Lemma keep_execute_remote_list_refresh t : preserves I (execute_remote_list_refresh t).
Proof. unfold execute_remote_list_refresh. keep. Qed.
#[local] Hint Resolve keep_execute_remote_list_refresh : daemon.
Lemma keep_refresh_lists_and_maybe_reload : preserves I (refresh_lists_and_maybe_reload).
Proof. unfold refresh_lists_and_maybe_reload. keep. Qed.
#[local] Hint Resolve keep_refresh_lists_and_maybe_reload : daemon.
Lemma keep_refresh_lists_and_maybe_reload_async : preserves I (refresh_lists_and_maybe_reload_async).
Proof. unfold refresh_lists_and_maybe_reload_async. keep. Qed.
#[local] Hint Resolve keep_refresh_lists_and_maybe_reload_async : daemon.
Lemma keep_run_lists_autoupdate c m a g : preserves I (run_lists_autoupdate c m a g).
Proof. unfold run_lists_autoupdate. keep. Qed.
#[local] Hint Resolve keep_run_lists_autoupdate : daemon.
Lemma keep_run_lists_refresh_commit a g r e : preserves I (run_lists_refresh_commit a g r e).
Proof. unfold run_lists_refresh_commit. keep. Qed.
#[local] Hint Resolve keep_run_lists_refresh_commit : daemon.
Lemma keep_expected_resolver_hash : preserves I (expected_resolver_hash).
Proof. unfold expected_resolver_hash. keep. Qed.
#[local] Hint Resolve keep_expected_resolver_hash : daemon.
Lemma keep_reload_and_confirm_resolver : preserves I (reload_and_confirm_resolver).
Proof. unfold reload_and_confirm_resolver. keep. Qed.
#[local] Hint Resolve keep_reload_and_confirm_resolver : daemon.
Lemma keep_load_config t : preserves I (load_config t).
Proof. unfold load_config. keep. Qed.
#[local] Hint Resolve keep_load_config : daemon.
Lemma keep_read_disk_config : preserves I (read_disk_config).
Proof. unfold read_disk_config. keep. Qed.
#[local] Hint Resolve keep_read_disk_config : daemon.
Lemma keep_refresh_iproute_and_firewall_runtime : preserves I (refresh_iproute_and_firewall_runtime).
Proof. unfold refresh_iproute_and_firewall_runtime. keep. Qed.
#[local] Hint Resolve keep_refresh_iproute_and_firewall_runtime : daemon.
Lemma keep_handle_interface_event a i : preserves I (handle_interface_event a i).
Proof. unfold handle_interface_event. keep. Qed.
#[local] Hint Resolve keep_handle_interface_event : daemon.
Lemma keep_schedule_sigusr1_runtime_refresh : preserves I (schedule_sigusr1_runtime_refresh).
Proof. unfold schedule_sigusr1_runtime_refresh. keep. Qed.
#[local] Hint Resolve keep_schedule_sigusr1_runtime_refresh : daemon.
Lemma keep_run_sigusr1_runtime_refresh : preserves I (run_sigusr1_runtime_refresh).
Proof. unfold run_sigusr1_runtime_refresh. keep. Qed.
#[local] Hint Resolve keep_run_sigusr1_runtime_refresh : daemon.
Lemma keep_prepare_runtime_inputs c b : preserves I (prepare_runtime_inputs c b).
Proof. unfold prepare_runtime_inputs. keep. Qed.
#[local] Hint Resolve keep_prepare_runtime_inputs : daemon.
Lemma keep_fail_startup_runtime e : preserves I (fail_startup_runtime e).
Proof. unfold fail_startup_runtime. keep. Qed.
#[local] Hint Resolve keep_fail_startup_runtime : daemon.
Lemma keep_begin_startup_runtime : preserves I (begin_startup_runtime).
Proof. unfold begin_startup_runtime. keep. Qed.
#[local] Hint Resolve keep_begin_startup_runtime : daemon.
Lemma keep_run_startup_lists a b : preserves I (run_startup_lists a b).
Proof. unfold run_startup_lists. keep. Qed.
#[local] Hint Resolve keep_run_startup_lists : daemon.
Lemma keep_continue_startup_after_lists r e : preserves I (continue_startup_after_lists r e).
Proof. unfold continue_startup_after_lists. keep. Qed.
#[local] Hint Resolve keep_continue_startup_after_lists : daemon.
Lemma keep_run_startup_resolver_hook : preserves I (run_startup_resolver_hook).
Proof. unfold run_startup_resolver_hook. keep. Qed.
#[local] Hint Resolve keep_run_startup_resolver_hook : daemon.
Lemma keep_complete_startup : preserves I (complete_startup).
Proof. unfold complete_startup. keep. Qed.
#[local] Hint Resolve keep_complete_startup : daemon.
Lemma keep_finish_startup_after_resolver_hook b e : preserves I (finish_startup_after_resolver_hook b e).
Proof. unfold finish_startup_after_resolver_hook. keep. Qed.
#[local] Hint Resolve keep_finish_startup_after_resolver_hook : daemon.
Lemma keep_run_startup_verification c e s : preserves I (run_startup_verification c e s).
Proof. unfold run_startup_verification. keep. Qed.
#[local] Hint Resolve keep_run_startup_verification : daemon.
Lemma keep_run_startup_after_verification b e : preserves I (run_startup_after_verification b e).
Proof. unfold run_startup_after_verification. keep. Qed.
#[local] Hint Resolve keep_run_startup_after_verification : daemon.
Lemma keep_on_transaction m r : preserves I (on_transaction m r).
Proof. unfold on_transaction. keep. Qed.
#[local] Hint Resolve keep_on_transaction : daemon.
Lemma keep_complete_apply r : preserves I (complete_apply r).
Proof. unfold complete_apply. keep. Qed.
#[local] Hint Resolve keep_complete_apply : daemon.
Lemma keep_fail_after_mutation r : preserves I (fail_after_mutation r).
Proof. unfold fail_after_mutation. keep. Qed.
#[local] Hint Resolve keep_fail_after_mutation : daemon.
Lemma keep_finish_operation_task : preserves I (finish_operation_task).
Proof. unfold finish_operation_task. keep. Qed.
#[local] Hint Resolve keep_finish_operation_task : daemon.
Lemma keep_run_timer l : preserves I (run_timer l).
Proof. unfold run_timer. keep. Qed.
#[local] Hint Resolve keep_run_timer : daemon.
Lemma keep_run_resolver_hash_probe a g : preserves I (run_resolver_hash_probe a g).
Proof. unfold run_resolver_hash_probe. keep. Qed.
#[local] Hint Resolve keep_run_resolver_hash_probe : daemon.
Lemma keep_run_urltest_probe p : preserves I (run_urltest_probe p).
Proof. unfold run_urltest_probe. keep. Qed.
#[local] Hint Resolve keep_run_urltest_probe : daemon.

Lemma keep_run_task t : plain_task t = true → preserves I (run_task t).
Proof. destruct t; intros H; try done; unfold run_task; keep. Qed.
Lemma keep_run_job j : plain_job j = true → preserves I (run_job j).
Proof. destruct j; intros H; try done; unfold run_job; keep. Qed.
End frame.

Section reload_frame.
Context {K F S D C E OR OU : Type}.
Context `{RN : !RoutingNetlink K} `{IN : !InterfaceNetlink K} `{NR : !Netlink K RouteSpec OR} `{NU : !Netlink K RuleSpec OU}.
Context `{FW : !Firewall F} `{TS : !TaskScheduler S} `{OS : !OneShot S}.
Context `{CW : !CacheWorld C} `{LF : !ListFiles C} `{CF : !ConfigFiles D} `{HO : !Host E}.
Context {SS : StdSort} {IP : InetPton} {NL : Nlohmann} {JT : JsonText} {JD : JsonDump} `{LT : !LocalTime}.
Context {DB : DaemonBuild}.

Abbreviation Daemon := (DaemonState.Daemon K F S D C E).
Abbreviation M := (stexc Daemon).

(** The queues hold what an invariant admits *)
Definition queues (okt : task → bool) (okj : job → bool) (d : Daemon) : Prop :=
  Forall (λ t, okt t = true) (d_tasks d) ∧ Forall (λ j, okj j = true) (d_jobs d).

Lemma on_route_table_queues {A} okt okj (m : stexc (K * RouteTable) A) : preserves (queues okt okj) (on_route_table m).
Proof. intros d H. unfold on_route_table. by destruct (m _) as [? []]. Qed.
Lemma on_policy_rules_queues {A} okt okj (m : stexc (K * PolicyRuleManager) A) : preserves (queues okt okj) (on_policy_rules m).
Proof. intros d H. unfold on_policy_rules. by destruct (m _) as [? []]. Qed.

#[export] Instance queues_stable okt okj : Stable okt okj (queues okt okj).
Proof.
  split; try (by intros x d [? ?]); try apply on_route_table_queues; try apply on_policy_rules_queues.
  - intros l d Hl [H1 H2]. split; [|done]. by apply Forall_app.
  - intros l d Hl [H1 H2]. split; [done|]. by apply Forall_app.
Qed.

Lemma preserves_and {A} (I J : Daemon → Prop) (m : M A) : preserves I m → preserves J m → preserves (λ d, I d ∧ J d) m.
Proof. intros HI HJ d [? ?]. split; [by apply HI|by apply HJ]. Qed.
#[export] Instance stable_and okt okj (I J : Daemon → Prop) : Stable okt okj I → Stable okt okj J → Stable okt okj (λ d, I d ∧ J d).
Proof.
  intros [] []. split; try (intros; by apply preserves_and); try (intros ? ? [? ?]; split; by auto); intros ? ? ? [? ?]; split; by auto.
Qed.

(** ** A change of configuration *)

Class StableReload (I : Daemon → Prop) : Prop := {
  keep_config x d : I d → I (set_d_config x d);
  keep_marks x d : I d → I (set_d_marks x d);
  keep_generation x d : I d → I (set_d_generation x d);
  keep_active d : I d → I (set_d_active true d);
}.
(** Stopping the runtime *)
Class StableStop (I : Daemon → Prop) : Prop := {
  keep_inactive d : I d → I (set_d_active false d);
  keep_clear_routes : preserves I (on_route_table (RouteTable.clear false));
  keep_clear_rules : preserves I (on_policy_rules (PolicyRule.clear false));
}.
Class StableStore (I : Daemon → Prop) : Prop := { keep_store x d : I d → I (set_d_store x d) }.
Class StableQueues (I : Daemon → Prop) : Prop := {
  keep_set_tasks x d : I d → I (set_d_tasks x d);
  keep_set_jobs x d : I d → I (set_d_jobs x d);
  keep_stage c text d : I d → I (set_d_store (stage_config c text (d_store d)) d);
}.

#[export] Instance plain_admits : Admits plain_task plain_job.
Proof. by split. Qed.
#[export] Instance quiet_admits : Admits quiet_task quiet_job.
Proof. split; [by intros []|by intros []]. Qed.

(** The operations of the runtime *)
Ltac keep_known okt okj I := first
  [ apply (keep_on_host okt okj I)
  | apply (keep_ask okt okj I)
  | apply (keep_transition okt okj I)
  | apply (keep_publish_runtime_state okt okj I)
  | apply (keep_drop_task okt okj I)
  | apply (keep_teardown_dns_probe okt okj I)
  | apply (keep_clear_urltest okt okj I)
  | apply (keep_reconcile_static_routing okt okj I)
  | apply (keep_refresh_keenetic_dns_cache okt okj I)
  | apply (keep_apply_firewall okt okj I)
  | apply (keep_set_apply_started okt okj I)
  | apply (keep_update_resolver_config_hash okt okj I)
  | apply (keep_setup_dns_probe okt okj I)
  | apply (keep_reload_and_confirm_resolver okt okj I)
  | apply (keep_complete_running_runtime okt okj I)
  | apply (keep_expected_resolver_hash okt okj I)
  | apply (keep_on_transaction I)
  | apply (keep_fail_after_mutation okt okj I)
  | apply (keep_complete_apply okt okj I)
  | apply (keep_try_transition okt okj I)
  | apply (keep_prepare_runtime_inputs okt okj I)
  | apply (keep_read_disk_config okt okj I)
  | apply (keep_finish_operation_task okt okj I) ].

Ltac keep_reload_of okt okj I := repeat first
  [ done
  | progress eauto with daemon
  | keep_known okt okj I
  | match goal with
    | |- preserves _ (modify _) => apply keep_modify; intros ? ?; cbn beta; unfold set_resolver, set_timers
    | |- I (set_d_config _ _) => apply keep_config
    | |- I (set_d_marks _ _) => apply keep_marks
    | |- I (set_d_active true _) => apply keep_active
    | |- I (set_d_store _ _) => apply keep_store
    | |- I (set_d_firewall_state _ _) => apply (keep_firewall_state (okt := okt) (okj := okj))
    | |- I (set_d_host _ _) => apply (keep_host (okt := okt) (okj := okj))
    | |- I (set_d_operation _ _) => apply (keep_operation (okt := okt) (okj := okj))
    end
  | apply preserves_bind; [|intros ?]
  | apply preserves_catch_std; [|intros ?]
  | apply preserves_catch_all; [|intros ?]
  | match goal with |- preserves _ (match ?x with _ => _ end) => destruct x end ].


Section reconcile.
Context (okt : task → bool) (okj : job → bool) {AD : Admits okt okj}.
Context (I : Daemon → Prop) {ST : Stable okt okj I} {SR : StableReload I}.

Lemma keep_new_generation : preserves I new_generation.
Proof. intros d H. by apply keep_generation. Qed.

#[local] Hint Resolve keep_new_generation : daemon.
#[local] Hint Resolve keep_gets keep_get keep_of_exc keep_throw preserves_ret keep_confirm : daemon.
Ltac keep_reload := keep_reload_of okt okj I.
Lemma keep_reconcile_prepared_runtime b p : preserves I (reconcile_prepared_runtime b p).
Proof. unfold reconcile_prepared_runtime. keep_reload. Qed.

Lemma keep_setup_routing_and_firewall : preserves I setup_routing_and_firewall.
Proof. unfold setup_routing_and_firewall, setup_static_routing. keep_reload. Qed.
Context {SP : StableStop I}.
Lemma keep_teardown_routing_and_firewall b : preserves I (teardown_routing_and_firewall b).
Proof.
  pose proof keep_clear_routes as H1. pose proof keep_clear_rules as H2. pose proof (keep_drop_conntrack_marks okt okj I) as H3.
  pose proof (λ m, keep_on_firewall okt okj I (A := unit) m) as H4. unfold teardown_routing_and_firewall. keep_reload. by apply keep_inactive.
Qed.
End reconcile.

Section reload.
Context (I : Daemon → Prop) {ST : Stable quiet_task quiet_job I} {SR : StableReload I} {SO : StableStore I}.
Ltac keep_reload := keep_reload_of quiet_task quiet_job I.

Lemma keep_publish_active_snapshot : preserves I publish_active_snapshot.
Proof. intros d H. by apply keep_store. Qed.
#[local] Hint Resolve keep_gets keep_get keep_of_exc keep_throw preserves_ret keep_confirm keep_publish_active_snapshot : daemon.
Lemma keep_apply_prepared_runtime_inputs p b : preserves I (apply_prepared_runtime_inputs p b).
Proof. unfold apply_prepared_runtime_inputs. pose proof (keep_reconcile_prepared_runtime quiet_task quiet_job I false p). keep_reload. Qed.
#[local] Hint Resolve keep_apply_prepared_runtime_inputs : daemon.

(** The record of a reload keeps its flag *)
Lemma on_transaction_persist m r (d d' : Daemon) r' : on_transaction m r d = (Ok r', d') → d' = d ∧ reload_persist r' = reload_persist r.
Proof. unfold on_transaction. destruct (m _) as [[[]|?|] ?]; cbn; [|done..]. by intros [= <- <-]. Qed.

(** The continuation may use that the flag is that of [r] *)
Lemma keep_transaction_then {A} m r (f : reload → M A) :
  (∀ r', reload_persist r' = reload_persist r → preserves I (f r')) → preserves I (on_transaction m r ≫= f).
Proof.
  intros Hf d HI. unfold mbind, stexc_bind. destruct (on_transaction m r d) as [[r'|e|] d'] eqn:Et.
  - apply on_transaction_persist in Et as [-> Hp]. by apply Hf.
  - pose proof (keep_on_transaction I m r d HI) as H. by rewrite Et in H.
  - pose proof (keep_on_transaction I m r d HI) as H. by rewrite Et in H.
Qed.

Lemma keep_run_apply_candidate p r : reload_persist r = false → preserves I (run_apply_candidate p r).
Proof.
  intros Hr. unfold run_apply_candidate. apply preserves_catch_std; [|intros ?; keep_reload]. apply preserves_bind; [keep_reload|]. intros ?.
  apply keep_transaction_then. intros r' Hr'. apply preserves_bind; [keep_reload|]. intros ?. apply preserves_bind; [keep_reload|]. intros ?.
  apply preserves_bind; [|intros ?; keep_reload]. apply (keep_try_post quiet_task quiet_job I). cbn. by rewrite Hr', Hr.
Qed.
Lemma keep_run_confirmation r c e : reload_persist r = false → preserves I (run_confirmation r c e).
Proof.
  intros Hr. unfold run_confirmation. apply preserves_bind; [keep_reload|]. intros ?.
  apply (keep_post_control_task quiet_task quiet_job I). cbn. by rewrite Hr.
Qed.
Lemma keep_commit_reload r : reload_persist r = false → preserves I (commit_reload r).
Proof. intros Hr. unfold commit_reload. apply keep_transaction_then. intros r' Hr'. rewrite Hr', Hr. keep_reload. Qed.
Lemma keep_run_confirmation_commit r b e : reload_persist r = false → preserves I (run_confirmation_commit r b e).
Proof. intros Hr. unfold run_confirmation_commit. pose proof (keep_commit_reload r Hr). keep_reload. Qed.

Lemma keep_handle_sighup : preserves I handle_sighup.
Proof.
  unfold handle_sighup. apply preserves_bind; [apply keep_get|]. intros d.
  destruct (try_begin _ _) as [[] c]; cbn [negb]; [|apply preserves_ret]. apply preserves_bind; [keep_reload|]. intros _.
  apply preserves_bind; [by apply (keep_try_post quiet_task quiet_job I)|]. intros []; keep_reload.
Qed.
Lemma keep_apply_via_control_task c json : preserves I (apply_validated_config_via_control_task c json false).
Proof.
  unfold apply_validated_config_via_control_task. do 3 (apply preserves_bind; [keep_reload|]; intros ?). destruct _ as [p|e]; [|keep_reload].
  apply keep_modify. intros d H. apply (keep_post (okt := quiet_task) (okj := quiet_job)); [by constructor|done].
Qed.
Lemma keep_run_sighup_transaction : preserves I run_sighup_transaction.
Proof.
  unfold run_sighup_transaction. apply preserves_catch_std.
  - apply preserves_bind; [keep_reload|]. intros c. apply keep_apply_via_control_task.
  - intros e. by apply (keep_post_control_task quiet_task quiet_job I).
Qed.

Lemma keep_quiet_task t : quiet_task t = true → preserves I (run_task t).
Proof.
  intros Ht. destruct (plain_task t) eqn:Ep; [by apply (keep_run_task quiet_task quiet_job I)|].
  destruct t; try done; cbn in *; apply negb_true_iff in Ht; [by apply keep_run_apply_candidate|by apply keep_run_confirmation_commit].
Qed.
Lemma keep_quiet_job j : quiet_job j = true → preserves I (run_job j).
Proof.
  intros Hj. destruct (plain_job j) eqn:Ep; [by apply (keep_run_job quiet_task quiet_job I)|].
  destruct j; try done; cbn in *; [apply keep_run_sighup_transaction|apply negb_true_iff in Hj; by apply keep_run_confirmation].
Qed.
End reload.

(** ** The event loop *)

Section loop.
Context (okt : task → bool) (okj : job → bool) {AD : Admits okt okj}.
Context (I : Daemon → Prop) {ST : Stable okt okj I} {SQ : StableQueues I}.
Abbreviation J := (λ d, I d ∧ queues okt okj d).

Lemma take_job_spec p l j l' : take_job p l = Some (j, l') → p j = true ∧ j ∈ l ∧ ∀ x, x ∈ l' → x ∈ l.
Proof.
  revert j l'. induction l as [|x l IH]; intros j l'; cbn; [done|]. destruct (p x) eqn:Ep.
  - intros [= -> ->]. split; [done|]. split; [by left|]. intros y Hy. by right.
  - destruct (take_job p l) as [[y l1]|]; [|done]. cbn. intros [= -> <-]. destruct (IH j l1) as (H1 & H2 & H3); [done|].
    split; [done|]. split; [by right|]. intros z [->|Hz]%elem_of_cons; [by left|right; by apply H3].
Qed.

Lemma keep_dispatch ev :
  (∀ t, okt t = true → preserves J (run_task t)) → (∀ j, okj j = true → preserves J (run_job j)) →
  (ev = SignalHup → preserves J handle_sighup) → preserves J (dispatch ev).
Proof.
  intros Ht Hj Hhup d HJ. unfold dispatch, mbind, stexc_bind. cbn. destruct ev.
  - destruct (d_tasks d) as [|t tasks] eqn:Ed; [done|]. cbn. destruct HJ as [HI [Hq1 Hq2]]. rewrite Ed in Hq1. inversion_clear Hq1.
    apply Ht; [done|]. split; [by apply keep_set_tasks|done].
  - destruct (take_job _ _) as [[j jobs]|] eqn:Ed; [|done]. apply take_job_spec in Ed as (_ & Hin & Hsub). cbn.
    destruct HJ as [HI [Hq1 Hq2]]. rewrite Forall_forall in Hq2. apply preserves_catch_all; [by apply Hj, Hq2|intros; apply preserves_ret|].
    split; [by apply keep_set_jobs|]. split; [done|]. apply Forall_forall. intros x Hx. by apply Hq2, Hsub.
  - by apply (keep_run_timer okt okj J).
  - by apply (keep_handle_interface_event okt okj J).
  - by apply (keep_schedule_sigusr1_runtime_refresh okt okj J).
  - by apply Hhup.
  - destruct HJ as [HI Hq]. split; [by apply keep_stage|done].
Qed.

Lemma keep_yield : (∀ (d : Daemon) ev, ev ∈ (loop_events (d_host d)).1 → preserves J (dispatch ev)) → preserves J yield.
Proof.
  intros H d HJ. unfold yield. destruct (negb _); [done|].
  specialize (H d). destruct (loop_events (d_host d)) as [events e]. cbn in H.
  assert (HJ' : J (set_d_host e d)) by (destruct HJ as [HI Hq]; split; [by apply (keep_host (okt := okt) (okj := okj))|done]).
  assert (Hp : preserves J (for_each dispatch events)) by (apply preserves_for_each; intros x Hx; by apply H).
  specialize (Hp _ HJ'). by destruct (for_each dispatch events _) as [[?|?|] ?].
Qed.
End loop.
End reload_frame.
