(* ===== verification/DaemonVerified.v ===== *)
(** * What the daemon promises

    A lifecycle operation always ends, and an apply is all or nothing: the
    configuration file and the active configuration change only after the
    candidate is in force and the resolver has confirmed it. *)

From S2P Require Import Prelude CppString Fwmark Netlink Json ConfigJson ApiJson Runtime RouteTable PolicyRule RoutingReconciler RoutingState.
From S2P Require Import AddrSpec FirewallRules Firewall CircuitBreaker UrlTest ListStreamer Cache ListService ConfigStore.
From S2P Require Import DnsServer DnsProbe DnsTxt Dnsmasq ResolverSync OutboundHealth Cron Validation.
From S2P Require Import DaemonState DaemonRuntime DaemonControl DaemonFrame Config.

Local Open Scope Z_scope.

(** ** Outcomes

    From a state of [P], [m] returns in [Q], or throws in [R], or has no defined
    behaviour. *)
Definition outcome {T A} (P : T → Prop) (m : stexc T A) (Q : A → T → Prop) (R : T → Prop) : Prop :=
  ∀ s, P s → match m s with (Ok a, s') => Q a s' | (Throw _, s') => R s' | (Undefined, _) => True end.

Section outcomes.
Context {T : Type}.

Lemma outcome_ret {A} (P : T → Prop) (a : A) R : outcome P (mret a) (λ _, P) R.
Proof. by intros s. Qed.
Lemma outcome_throw {A} (P R : T → Prop) e (Q : A → T → Prop) : (∀ s, P s → R s) → outcome P (throw e) Q R.
Proof. intros H s. apply H. Qed.
Lemma outcome_bind {A B} (P : T → Prop) (m : stexc T A) (f : A → stexc T B) Q' Q R :
  outcome P m Q' R → (∀ a, outcome (Q' a) (f a) Q R) → outcome P (m ≫= f) Q R.
Proof.
  intros Hm Hf s HP. unfold mbind, stexc_bind. specialize (Hm s HP). destruct (m s) as [[a|e|] s']; [|done..]. by apply Hf.
Qed.
(** The value returned satisfies [φ] *)
Lemma outcome_bind_pure {A B} (P : T → Prop) (m : stexc T A) (f : A → stexc T B) (φ : A → Prop) Q' Q R :
  outcome P m (λ a s, Q' a s ∧ φ a) R → (∀ a, φ a → outcome (Q' a) (f a) Q R) → outcome P (m ≫= f) Q R.
Proof. intros Hm Hf. eapply outcome_bind; [exact Hm|]. intros a s [Hs Ha]. by apply Hf. Qed.
Lemma outcome_conseq {A} (P P' : T → Prop) (m : stexc T A) (Q Q' : A → T → Prop) R R' :
  outcome P' m Q' R' → (∀ s, P s → P' s) → (∀ a s, Q' a s → Q a s) → (∀ s, R' s → R s) → outcome P m Q R.
Proof. intros H HP HQ HR s Hs. specialize (H s (HP s Hs)). destruct (m s) as [[a|e|] s']; auto. Qed.
Lemma outcome_preserves {A} (I : T → Prop) (m : stexc T A) : preserves I m → outcome I m (λ _, I) I.
Proof. intros H s Hs. specialize (H s Hs). by destruct (m s) as [[a|e|] s']. Qed.
Lemma outcome_true {A} (P : T → Prop) (m : stexc T A) : outcome P m (λ _ _, True) (λ _, True).
Proof. intros s _. by destruct (m s) as [[a|e|] s']. Qed.
Lemma outcome_and {A} (P P' : T → Prop) (m : stexc T A) Q Q' R R' :
  outcome P m Q R → outcome P' m Q' R' → outcome (λ s, P s ∧ P' s) m (λ a s, Q a s ∧ Q' a s) (λ s, R s ∧ R' s).
Proof. intros H H' s [Hs Hs']. specialize (H s Hs). specialize (H' s Hs'). by destruct (m s) as [[a|e|] s']. Qed.
End outcomes.

(** ** An operation under way *)

(** The coordinator and its store while [op] is under way *)
Definition at_op (cb : option unit) (seq : Z) (op : LifecycleOperationSnapshot) : LifecycleOperationCoordinator unit :=
  mk_Lifecycle (mk_Store (Some op) cb) (Some op) seq.
Definition finished_op (cb : option unit) (seq : Z) (op : LifecycleOperationSnapshot) : LifecycleOperationCoordinator unit :=
  mk_Lifecycle (mk_Store (Some op) cb) None seq.

Lemma mutate_at_op id f cb seq op : op_id op = id → mutate id f (at_op cb seq op) = at_op cb seq (f op).
Proof. intros H. unfold mutate, at_op. cbn. by rewrite bool_decide_eq_true_2. Qed.
Lemma finish_at_op id error now cb seq op : op_id op = id →
  finish id error now (at_op cb seq op) = finished_op cb seq (finish_mutation error now op).
Proof. intros H. unfold finish. rewrite mutate_at_op by done. unfold reset_active. cbn. by rewrite bool_decide_eq_true_2. Qed.

Definition op_done (s : LifecycleOperationStatus.t) : bool :=
  match s with LifecycleOperationStatus.Succeeded | LifecycleOperationStatus.Skipped => true | _ => false end.

Section verified.
Context {K F S D C E OR OU : Type}.
Context `{RN : !RoutingNetlink K} `{IN : !InterfaceNetlink K} `{NR : !Netlink K RouteSpec OR} `{NU : !Netlink K RuleSpec OU}.
Context `{FW : !Firewall F} `{TS : !TaskScheduler S} `{OS : !OneShot S}.
Context `{CW : !CacheWorld C} `{LF : !ListFiles C} `{CF : !ConfigFiles D} `{HO : !Host E}.
Context {SS : StdSort} {IP : InetPton} {NL : Nlohmann} {JT : JsonText} {JD : JsonDump} `{LT : !LocalTime}.
Context {DB : DaemonBuild}.

Abbreviation Daemon := (DaemonState.Daemon K F S D C E).
Abbreviation M := (stexc Daemon).
Abbreviation W := (stexc (worker * Daemon)).

(** What only the worker of an operation assigns *)
Record worker_part := mk_part { part_lifecycle : LifecycleOperationCoordinator unit; part_disk : D; part_path : cstring }.
Definition part_of (d : Daemon) : worker_part := mk_part (d_lifecycle d) (d_disk d) (d_config_path d).
Definition has_part (P : worker_part → Prop) (d : Daemon) : Prop := P (part_of d).
(** What only a change of configuration assigns *)
Definition has_config (P : Config → ActiveConfigSnapshot → bool → Prop) (d : Daemon) : Prop :=
  P (d_config d) (active_snapshot (d_store d)) (d_active d).

Lemma on_route_table_part {A} (m : stexc (K * RouteTable) A) d : part_of (on_route_table m d).2 = part_of d.
Proof. unfold on_route_table. by destruct (m _) as [? []]. Qed.
Lemma on_policy_rules_part {A} (m : stexc (K * PolicyRuleManager) A) d : part_of (on_policy_rules m d).2 = part_of d.
Proof. unfold on_policy_rules. by destruct (m _) as [? []]. Qed.

#[local] Instance part_stable okt okj P : Stable okt okj (has_part P).
Proof.
  split; try done; intros l d H; unfold has_part; [by rewrite on_route_table_part|by rewrite on_policy_rules_part].
Qed.
#[local] Instance part_reload P : StableReload (has_part P).
Proof. by split. Qed.
#[local] Instance part_stop P : StableStop (has_part P).
Proof. split; [done|intros d H; unfold has_part..]; [by rewrite on_route_table_part|by rewrite on_policy_rules_part]. Qed.
#[local] Instance part_store P : StableStore (has_part P).
Proof. by split. Qed.
#[local] Instance part_queues P : StableQueues (has_part P).
Proof. by split. Qed.
#[local] Instance config_stable okt okj P : Stable okt okj (has_config P).
Proof.
  split; try done; intros l d H; unfold has_config, on_route_table, on_policy_rules; cbn; done.
Qed.
#[local] Instance config_queues P : StableQueues (has_config P).
Proof. by split. Qed.

#[local] Instance both_queues (I J : Daemon → Prop) : StableQueues I → StableQueues J → StableQueues (λ d, I d ∧ J d).
Proof. intros [] []. split; intros; destruct_and!; auto. Qed.

#[local] Instance queues_reload okt okj : StableReload (queues okt okj : Daemon → Prop).
Proof. by split. Qed.
#[local] Instance queues_store okt okj : StableStore (queues okt okj : Daemon → Prop).
Proof. by split. Qed.
#[local] Instance queues_stop okt okj : StableStop (queues okt okj : Daemon → Prop).
Proof. split; [done|apply on_route_table_queues|apply on_policy_rules_queues]. Qed.
#[local] Instance reload_and (I J : Daemon → Prop) : StableReload I → StableReload J → StableReload (λ d, I d ∧ J d).
Proof. intros [] []. split; intros; destruct_and!; auto. Qed.
#[local] Instance store_and (I J : Daemon → Prop) : StableStore I → StableStore J → StableStore (λ d, I d ∧ J d).
Proof. intros [] []. split; intros; destruct_and!; auto. Qed.
#[local] Instance stop_and (I J : Daemon → Prop) : StableStop I → StableStop J → StableStop (λ d, I d ∧ J d).
Proof. intros [] []. split; [intros; destruct_and!; auto|by apply preserves_and..]. Qed.

(** *** The event loop leaves the worker's part alone *)

Abbreviation quiet P := (λ d : Daemon, has_part P d ∧ queues quiet_task quiet_job d).

Lemma yield_quiet P : preserves (quiet P) yield.
Proof.
  apply (keep_yield quiet_task quiet_job (has_part P)). intros d ev _. apply (keep_dispatch quiet_task quiet_job (has_part P)).
  - intros t Ht. by apply (keep_quiet_task (quiet P)).
  - intros j Hj. by apply (keep_quiet_job (quiet P)).
  - intros _. by apply (keep_handle_sighup (quiet P)).
Qed.
Lemma control_quiet {A} P (m : M A) : preserves (quiet P) m → preserves (quiet P) (run_control m).
Proof. intros Hm. apply preserves_bind; [apply yield_quiet|done]. Qed.

(** ... and, without a SIGHUP, the configuration *)
Definition no_sighup : Prop := ∀ e : E, SignalHup ∉ (loop_events e).1.
Abbreviation plain P Q := (λ d : Daemon, (has_part P d ∧ has_config Q d) ∧ queues plain_task plain_job d).

Lemma yield_no_throw (d : Daemon) e : (yield d).1 ≠ Throw e.
Proof.
  unfold yield. destruct (negb _); [done|]. destruct (loop_events _) as [? e'].
  destruct (for_each _ _ _) as [[?|?|] ?]; [by destruct (loop_serves e')|done..].
Qed.

Lemma yield_plain P Q : no_sighup → preserves (plain P Q) yield.
Proof.
  intros Hs. apply (keep_yield plain_task plain_job (λ d, has_part P d ∧ has_config Q d)).
  intros d ev Hev. apply (keep_dispatch plain_task plain_job (λ d, has_part P d ∧ has_config Q d)).
  - intros t Ht. by apply (keep_run_task plain_task plain_job (plain P Q)).
  - intros j Hj. by apply (keep_run_job plain_task plain_job (plain P Q)).
  - intros ->. by destruct (Hs _ Hev).
Qed.
Lemma control_plain {A} P Q (m : M A) : no_sighup → preserves (plain P Q) m → preserves (plain P Q) (run_control m).
Proof. intros Hs Hm. apply preserves_bind; [by apply yield_plain|done]. Qed.

(** *** Every operation ends *)

Section ends.
Context (id : cstring).

Definition op_active (p : worker_part) : Prop := ∃ cb seq op, part_lifecycle p = at_op cb seq op ∧ op_id op = id.
Lemma op_active_at cb seq op d : d_lifecycle d = at_op cb seq op → op_id op = id → op_active (part_of d).
Proof. intros H Hid. by exists cb, seq, op. Qed.
Abbreviation Iw := (λ s : worker * Daemon, has_part op_active s.2 ∧ queues quiet_task quiet_job s.2).

Lemma on_stage_id stage f op : op_id (on_stage stage f op) = op_id op.
Proof. unfold on_stage. by destruct (change_stage _ _ _). Qed.
Lemma fail_mutation_id stage detail op : op_id (fail_mutation stage detail op) = op_id op.
Proof. unfold fail_mutation. by destruct (change_stage _ _ _). Qed.

Lemma mutate_active f : (∀ op, op_id (f op) = op_id op) → preserves (quiet op_active) (on_lifecycle (mutate id f)).
Proof.
  intros Hf d [(cb & seq & op & Hop & Hid) Hq]. split; [|done]. exists cb, seq, (f op). cbn. cbn in Hop.
  rewrite Hop, mutate_at_op by done. by rewrite Hf.
Qed.
Lemma start_stage_active stage : preserves (quiet op_active) (on_lifecycle (start_stage id stage)).
Proof. apply mutate_active. intros. apply on_stage_id. Qed.
Lemma succeed_stage_active stage detail : preserves (quiet op_active) (on_lifecycle (succeed_stage id stage detail)).
Proof. apply mutate_active. intros. apply on_stage_id. Qed.
Lemma skip_stage_active stage detail : preserves (quiet op_active) (on_lifecycle (skip_stage id stage detail)).
Proof. apply mutate_active. intros. apply on_stage_id. Qed.
Lemma fail_stage_active stage detail : preserves (quiet op_active) (on_lifecycle (fail_stage id stage detail)).
Proof. apply mutate_active. intros. apply fail_mutation_id. Qed.

Lemma within_active {A} (m : M A) : preserves (quiet op_active) m → preserves Iw (within m).
Proof. intros Hm [w d] H. unfold within. cbn in *. specialize (Hm d H). by destruct (m d). Qed.

Lemma write_config_active path text : preserves (quiet op_active) (on_disk (write_config_atomically path text)).
Proof. intros d [H Hq]. unfold on_disk. by destruct (write_config_atomically _ _ _). Qed.

Ltac known :=
  let J := constr:(quiet op_active) in
  lazymatch goal with
  | |- preserves _ (on_lifecycle (start_stage _ _)) => apply start_stage_active
  | |- preserves _ (on_lifecycle (succeed_stage _ _ _)) => apply succeed_stage_active
  | |- preserves _ (on_lifecycle (skip_stage _ _ _)) => apply skip_stage_active
  | |- preserves _ (on_disk _) => apply write_config_active
  | |- preserves _ (run_control _) => apply control_quiet
  | |- preserves _ (prepare_runtime_inputs _ _) => apply (keep_prepare_runtime_inputs quiet_task quiet_job J)
  | |- preserves _ (reconcile_prepared_runtime _ _) => apply (keep_reconcile_prepared_runtime quiet_task quiet_job J)
  | |- preserves _ run_system_resolver_hook_reload => apply (keep_run_system_resolver_hook_reload quiet_task quiet_job J)
  | |- preserves _ (run_system_resolver_hook _) => apply (keep_run_system_resolver_hook quiet_task quiet_job J)
  | |- preserves _ (confirm_resolver_hash _ _ _) => apply (keep_confirm J)
  | |- preserves _ expected_resolver_hash => apply (keep_expected_resolver_hash quiet_task quiet_job J)
  | |- preserves _ (complete_running_runtime _) => apply (keep_complete_running_runtime quiet_task quiet_job J)
  | |- preserves _ setup_routing_and_firewall => apply (keep_setup_routing_and_firewall quiet_task quiet_job J)
  | |- preserves _ (teardown_routing_and_firewall _) => apply (keep_teardown_routing_and_firewall quiet_task quiet_job J)
  | |- preserves _ publish_active_snapshot => apply (keep_publish_active_snapshot J)
  | |- preserves _ publish_runtime_state => apply (keep_publish_runtime_state quiet_task quiet_job J)
  | |- preserves _ (ask _) => apply (keep_ask quiet_task quiet_job J)
  | |- preserves _ (gets _) => apply keep_gets
  | |- preserves _ get_st => apply keep_get
  | |- preserves _ (of_exc _) => apply keep_of_exc
  | |- preserves _ (mret _) => apply preserves_ret
  | |- preserves _ (throw _) => apply preserves_throw
  | |- preserves _ (within _) => apply within_active
  | |- preserves _ (_ ≫= _) => apply preserves_bind; [|intros ?]
  | |- preserves _ (match ?x with _ => _ end) => destruct x
  end.
Lemma enter_stage_active stage : preserves Iw (enter_stage stage).
Proof. by intros [w d] H. Qed.
Lemma op_start_stage_active stage : preserves Iw (op_start_stage id stage).
Proof. apply preserves_bind; [apply enter_stage_active|]. intros _. repeat known. Qed.
Lemma op_succeed_stage_active : preserves Iw (op_succeed_stage id).
Proof. intros s. apply within_active, succeed_stage_active. Qed.
Lemma set_mutated_active : preserves Iw set_mutated.
Proof. by intros [w d] H. Qed.
Lemma clear_staged_active text : preserves (quiet op_active) (modify (λ d, set_d_store (clear_staged_if_matches text (d_store d)) d)).
Proof. by intros d H. Qed.

Ltac walk_op := repeat first
  [ known
  | lazymatch goal with
    | |- preserves _ (op_start_stage _ _) => apply op_start_stage_active
    | |- preserves _ (op_succeed_stage _) => apply op_succeed_stage_active
    | |- preserves _ set_mutated => apply set_mutated_active
    | |- preserves _ (modify _) => apply clear_staged_active
    end ].

Lemma apply_operation_active request : preserves Iw (apply_operation id request).
Proof. unfold apply_operation, apply_candidate, commit_candidate, control_stage, reload_stage, verify_stage, skip_resolver_stages, op_skip_stage. walk_op. Qed.
Lemma stop_operation_active : preserves Iw (stop_operation id).
Proof.
  unfold stop_operation, control_stage. walk_op. intros s. apply within_active, skip_stage_active.
Qed.
Lemma start_operation_active restart : preserves Iw (start_operation id restart).
Proof. unfold start_operation, control_stage, reload_stage, verify_stage, skip_resolver_stages, op_skip_stage. walk_op. Qed.

Lemma operation_steps_active request : preserves Iw (operation_steps id request).
Proof.
  unfold operation_steps. destruct (request_type request);
    [apply apply_operation_active|apply start_operation_active|apply stop_operation_active|apply start_operation_active].
Qed.

(** The operation is over, and says how *)
Definition op_over (d : Daemon) : Prop :=
  ∃ cb seq op, d_lifecycle d = finished_op cb seq op ∧ op_id op = id ∧ is_Some (op_finished_at op) ∧
    (op_result op = LifecycleOperationResult.Succeeded ∧ op_error op = [] ∨
     op_result op = LifecycleOperationResult.Failed ∧ op_error op ≠ [] ∧
       Forall (λ st, st_status st ≠ LifecycleOperationStatus.Pending) (op_stages op)).

Lemma finish_mutation_over error now op :
  let op' := finish_mutation error now op in
  op_result op' = LifecycleOperationResult.Succeeded ∧ op_error op' = [] ∨
  op_result op' = LifecycleOperationResult.Failed ∧ op_error op' ≠ [] ∧
    Forall (λ st, st_status st ≠ LifecycleOperationStatus.Pending) (op_stages op').
Proof.
  unfold finish_mutation. cbn. set (e := if bool_decide (error = []) then op_error op else error).
  destruct (decide (e = [])) as [He|He].
  - left. by rewrite bool_decide_eq_true_2.
  - right. rewrite bool_decide_eq_false_2 by done. cbn. split; [done|]. split; [done|]. apply Forall_fmap, Forall_true. intros st. cbn.
    unfold skip_pending. case_bool_decide as Hs; [done|exact Hs].
Qed.

Lemma finish_lifecycle_over error d : has_part op_active d →
  ∃ d', finish_lifecycle id error d = (Ok tt, d') ∧ op_over d'.
Proof.
  intros (cb & seq & op & Hop & Hid). unfold finish_lifecycle, mbind, stexc_bind, ask.
  destruct (unix_timestamp_now_seconds _) as [now e]. eexists. split; [done|]. cbn in *. rewrite Hop, finish_at_op by done.
  eexists cb, seq, _. split; [done|]. split; [done|]. split; [done|]. apply finish_mutation_over.
Qed.

Lemma fail_operation_over w error reason d : has_part op_active d → queues quiet_task quiet_job d →
  match fail_operation id w error reason d with (Ok _, d') => op_over d' | (Throw _, _) => False | (Undefined, _) => True end.
Proof.
  intros Hd Hq. unfold fail_operation.
  assert (H1 : preserves (quiet op_active) (if bool_decide (current_stage w = []) then mret tt else on_lifecycle (fail_stage id (current_stage w) error))).
  { destruct (bool_decide _); [apply preserves_ret|apply fail_stage_active]. }
  assert (H2 : preserves (quiet op_active) (mark_broken reason)).
  { apply preserves_catch_all; [|intros; apply preserves_ret]. apply control_quiet, preserves_bind;
      [apply (keep_try_transition quiet_task quiet_job (quiet op_active))|intros; apply (keep_publish_runtime_state quiet_task quiet_job (quiet op_active))]. }
  assert (Hthrow : ∀ d e, (mark_broken reason d).1 ≠ Throw e).
  { intros d0 e. unfold mark_broken, try_catch_all. by destruct (run_control _ _) as [[?|?|] ?]. }
  unfold mbind, stexc_bind.
  destruct ((if bool_decide (current_stage w = []) then mret tt else on_lifecycle (fail_stage id (current_stage w) error)) d) as [r1 d1] eqn:E1.
  specialize (H1 d (conj Hd Hq)). rewrite E1 in H1. cbn in H1.
  assert (r1 = Ok tt) as -> by (destruct (bool_decide (current_stage w = [])); by injection E1).
  destruct (runtime_mutated w && _).
  - specialize (H2 d1 H1). specialize (Hthrow d1). destruct (mark_broken reason d1) as [[[]|e|] d2]; [|by destruct (Hthrow e)|done].
    destruct (finish_lifecycle_over error d2) as (d3 & -> & H3); [apply H2|done].
  - unfold mret, stexc_ret. destruct (finish_lifecycle_over error d1) as (d3 & -> & H3); [apply H1|done].
Qed.

Lemma operation_over request d :
  op_active (part_of d) → queues quiet_task quiet_job d →
  match execute_lifecycle_operation id request d with
  | (Ok _, d') => op_over d'
  | (Throw _, _) => False
  | (Undefined, _) => True
  end.
Proof.
  intros Hop Hq. unfold execute_lifecycle_operation, operation_body, mbind, stexc_bind.
  pose proof (operation_steps_active request (mk_worker [] false, d) (conj Hop Hq)) as Hmain.
  destruct (operation_steps _ _ _) as [[[]|e|] [w d1]]; cbn in Hmain.
  - unfold within. cbn [snd fst]. destruct (finish_lifecycle_over [] d1) as (d2 & -> & H2); [apply Hmain|done].
  - destruct Hmain. destruct (what e); by apply fail_operation_over.
  - done.
Qed.

(** C9. The worker of a lifecycle operation leaves nothing behind when it
    returns: whatever the event loop did while the worker waited for it, and
    whichever step of the operation threw, no exception leaves the worker, the
    operation is finished, the coordinator accepts another one, the outcome is
    published with a time, and a failed operation leaves no stage waiting.
    Nothing is said of a worker that does not return, as happens when SIGTERM or
    SIGINT ends the event loop or a task of the loop throws while the worker
    waits ([ended_loop_blocks_the_worker]). *)
Theorem returned_operation_is_over request d r d' :
  op_active (part_of d) → queues quiet_task quiet_job d →
  execute_lifecycle_operation id request d = (r, d') → r ≠ Undefined →
  r = Ok tt ∧ op_over d'.
Proof.
  intros Hop Hq Hrun Hr. pose proof (operation_over request d Hop Hq) as H. rewrite Hrun in H.
  by destruct r as [[]|e|].
Qed.

(** A worker that waits for an event loop that has ended never returns, so the
    join of the executors in [run] does not return either. *)
Theorem ended_loop_blocks_the_worker {A} (m : M A) (d : Daemon) :
  d_accept_posted d = true → loop_serves (loop_events (d_host d)).2 = false →
  (run_control m d).1 = Undefined.
Proof.
  intros Ha Hs. unfold run_control, mbind, stexc_bind, yield. rewrite Ha. cbn [negb].
  destruct (loop_events (d_host d)) as [events e]. cbn in Hs.
  destruct (for_each dispatch events _) as [[?|?|] ?]; [|done..]. by rewrite Hs.
Qed.
End ends.

(** *** An apply is all or nothing *)

Section apply.
Context (id : cstring) (cb : option unit) (seq started : Z) (dk : D) (path : cstring) (st : ActiveConfigSnapshot) (c0 config : Config).
Context (Hsighup : no_sighup).

Definition op_with (stages : list LifecycleOperationStage) : LifecycleOperationSnapshot :=
  mk_Snapshot id LifecycleOperationType.ApplyConfig LifecycleOperationResult.Running started None [] stages.
Definition stages_at (l : list (LifecycleOperationStatus.t * cstring)) : list LifecycleOperationStage :=
  zip_with (λ stage x, set_status_detail x.1 x.2 stage) (lifecycle_stages LifecycleOperationType.ApplyConfig) l.

(** The worker is in [stage], the stages are at [l], and nothing is committed *)
Definition working (stage : cstring) (mutated : bool) (l : list (LifecycleOperationStatus.t * cstring))
    (Q : Config → ActiveConfigSnapshot → bool → Prop) (s : worker * Daemon) : Prop :=
  s.1 = mk_worker stage mutated ∧ plain (λ p, p = mk_part (at_op cb seq (op_with (stages_at l))) dk path) Q s.2.
Definition untouched (c : Config) (s : ActiveConfigSnapshot) (_ : bool) : Prop := c = c0 ∧ s = st.
Definition in_force (c : Config) (s : ActiveConfigSnapshot) (active : bool) : Prop := c = config ∧ s = st ∧ active = true.

(** The failure of a stage before the commit *)
Definition failed_early (s : worker * Daemon) : Prop :=
  current_stage s.1 ≠ "commit_config" ∧
  plain (λ p, ∃ op, part_lifecycle p = at_op cb seq op ∧ op_id op = id ∧ part_disk p = dk ∧ part_path p = path)
    (λ c s' _, s' = st ∧ (runtime_mutated s.1 = false → c = c0)) s.2.

Lemma working_failed (stage : cstring) mutated l Q s : stage ≠ "commit_config" →
  (∀ c s' a, Q c s' a → s' = st ∧ (mutated = false → c = c0)) → working stage mutated l Q s → failed_early s.
Proof.
  intros Hs HQ [Hw [[Hp Hc] Hq]]. unfold failed_early. rewrite Hw. cbn [current_stage runtime_mutated]. split; [exact Hs|]. split; [|exact Hq]. split.
  - unfold has_part in *. rewrite Hp. by eexists.
  - by apply HQ in Hc.
Qed.
Lemma untouched_failed c s a : untouched c s a → s = st ∧ (false = false → c = c0).
Proof. by intros [-> ->]. Qed.
Lemma in_force_failed c s a : in_force c s a → s = st ∧ (true = false → c = c0).
Proof. by intros (-> & -> & _). Qed.

Lemma start_working stage' stage mutated l l' Q :
  on_stage stage (λ st, if bool_decide (st_status st = LifecycleOperationStatus.Pending)
                        then Some (set_status LifecycleOperationStatus.Running st) else None) (op_with (stages_at l)) = op_with (stages_at l') →
  outcome (working stage' mutated l Q) (op_start_stage id stage) (λ _, working stage mutated l' Q) failed_early.
Proof.
  intros Hl [w d] [Hw [[Hp Hc] Hq]]. cbn in Hw. subst w. cbn. split; [done|]. split; [|done]. split; [|done].
  injection Hp as Hlc Hdk Hpath. unfold has_part, part_of. cbn. rewrite Hlc, Hdk, Hpath. unfold start_stage.
  by rewrite mutate_at_op, Hl.
Qed.
Lemma succeed_working stage mutated l l' Q :
  on_stage stage (λ st, if negb (bool_decide (st_status st = LifecycleOperationStatus.Running)) then None
                        else Some (set_status_detail LifecycleOperationStatus.Succeeded [] st)) (op_with (stages_at l)) = op_with (stages_at l') →
  outcome (working stage mutated l Q) (op_succeed_stage id) (λ _, working stage mutated l' Q) failed_early.
Proof.
  intros Hl [w d] [Hw [[Hp Hc] Hq]]. cbn in Hw. subst w. cbn. split; [done|]. split; [|done]. split; [|done].
  injection Hp as Hlc Hdk Hpath. unfold has_part, part_of. cbn. rewrite Hlc, Hdk, Hpath. unfold succeed_stage.
  by rewrite mutate_at_op, Hl.
Qed.
Lemma skip_working stage' stage detail mutated l l' Q :
  on_stage stage (λ st, if negb (bool_decide (st_status st = LifecycleOperationStatus.Pending)) then None
                        else Some (set_status_detail LifecycleOperationStatus.Skipped detail st)) (op_with (stages_at l)) = op_with (stages_at l') →
  outcome (working stage' mutated l Q) (op_skip_stage id stage detail) (λ _, working stage' mutated l' Q) failed_early.
Proof.
  intros Hl [w d] [Hw [[Hp Hc] Hq]]. cbn in Hw. subst w. cbn. split; [done|]. split; [|done]. split; [|done].
  injection Hp as Hlc Hdk Hpath. unfold has_part, part_of. cbn. rewrite Hlc, Hdk, Hpath. unfold skip_stage.
  by rewrite mutate_at_op, Hl.
Qed.
Lemma within_working {A} (m : M A) (stage : cstring) mutated l Q :
  stage ≠ "commit_config" → (∀ c s' a, Q c s' a → s' = st ∧ (mutated = false → c = c0)) →
  (∀ P, preserves (plain P Q) m) →
  outcome (working stage mutated l Q) (within m) (λ _, working stage mutated l Q) failed_early.
Proof.
  intros Hs HQ Hm [w d] [Hw H]. cbn in Hw. subst w. unfold within. specialize (Hm _ d H). cbn [snd fst].
  destruct (m d) as [[a|e|] d']; cbn [snd] in Hm; [done| |done]. eapply working_failed; [exact Hs|exact HQ|]. by split.
Qed.
Lemma check_working (stage : cstring) mutated l Q (b : bool) e :
  stage ≠ "commit_config" → (∀ c s' a, Q c s' a → s' = st ∧ (mutated = false → c = c0)) →
  outcome (working stage mutated l Q) (if b then mret tt else throw e) (λ _, working stage mutated l Q) failed_early.
Proof. intros Hs HQ. destruct b; [apply outcome_ret|]. apply outcome_throw. intros s. by apply working_failed. Qed.

(** The steps of the candidate *)

#[local] Instance store_reload (P : ActiveConfigSnapshot → Prop) : StableReload (has_config (λ _ s _, P s)).
Proof. by split. Qed.

Lemma prepare_config refresh : outcome (λ _, True) (prepare_runtime_inputs config refresh) (λ p (_ : Daemon), prepared_config p = config) (λ _, True).
Proof.
  unfold prepare_runtime_inputs. eapply outcome_bind; [apply outcome_true|]. intros d. eapply outcome_bind; [apply outcome_true|]. intros ?.
  eapply outcome_bind; [apply outcome_true|]. intros marks. destruct refresh; [|by intros d' ?].
  eapply outcome_bind; [apply outcome_true|]. intros r. destruct (any_failed r); by intros d' ?.
Qed.

Lemma reconcile_config p : outcome (λ _ : Daemon, True) (reconcile_prepared_runtime false p)
  (λ _ d, d_config d = prepared_config p ∧ d_active d = true) (λ _, True).
Proof.
  assert (Hc : ∀ {A} (m : M A) (P : Config → bool → Prop), preserves (has_config (λ c _ a, P c a)) m →
    outcome (λ d, P (d_config d) (d_active d)) m (λ _ d, P (d_config d) (d_active d)) (λ _, True)).
  { intros A m P H. eapply outcome_conseq; [by apply outcome_preserves|done..]. }
  unfold reconcile_prepared_runtime. do 6 (eapply outcome_bind; [apply outcome_true|]; intros ?).
  set (P0 := λ (c : Config) (_ : bool), c = prepared_config p). set (P1 := λ d : Daemon, d_config d = prepared_config p).
  eapply (outcome_bind _ _ _ (λ _, P1)); [by intros d ?|]. intros ?.
  do 2 (eapply (outcome_bind _ _ _ (λ _, P1)); [by intros d ?|]; intros ?).
  eapply (outcome_bind _ _ _ (λ _, P1)); [intros d ?; by destruct (fwmark_mask_value _)|]. intros mask.
  do 2 (eapply (outcome_bind _ _ _ (λ _, P1)); [by intros d ?|]; intros ?).
  eapply (outcome_bind _ _ _ (λ _, P1)); [apply (Hc _ _ P0), (keep_clear_urltest plain_task plain_job (has_config (λ c _ a, P0 c a)))|]. intros ?.
  eapply (outcome_bind _ _ _ (λ _, P1)); [apply (Hc _ _ P0), (keep_reconcile_static_routing plain_task plain_job (has_config (λ c _ a, P0 c a)))|]. intros ?.
  eapply (outcome_bind _ _ _ (λ _, P1)); [apply (Hc _ _ P0), (keep_refresh_keenetic_dns_cache plain_task plain_job (has_config (λ c _ a, P0 c a)))|]. intros ?.
  eapply (outcome_bind _ _ _ (λ _, P1)); [apply (Hc _ _ P0), (keep_apply_firewall plain_task plain_job (has_config (λ c _ a, P0 c a)))|]. intros ?.
  set (P2 := λ d : Daemon, d_config d = prepared_config p ∧ d_active d = true).
  eapply (outcome_bind _ _ _ (λ _, P2)); [by intros d ?|]. intros ?.
  set (P3 := λ (c : Config) (a : bool), c = prepared_config p ∧ a = true).
  eapply (outcome_bind _ _ _ (λ _, P2)); [apply (Hc _ _ P3), (keep_transition plain_task plain_job (has_config (λ c _ a, P3 c a)))|]. intros ?.
  eapply (outcome_bind _ _ _ (λ _, P2)); [apply (Hc _ _ P3), (keep_ask plain_task plain_job (has_config (λ c _ a, P3 c a)))|]. intros now.
  eapply (outcome_bind _ _ _ (λ _, P2)); [by intros d ?|]. intros ?.
  eapply (outcome_bind _ _ _ (λ _, P2)); [apply (Hc _ _ P3), (keep_update_resolver_config_hash plain_task plain_job (has_config (λ c _ a, P3 c a)))|]. intros ?.
  eapply (outcome_bind _ _ _ (λ _, P2)); [apply (Hc _ _ P3), (keep_setup_dns_probe plain_task plain_job (has_config (λ c _ a, P3 c a)))|]. intros ?.
  apply (Hc _ _ P3), (keep_publish_runtime_state plain_task plain_job (has_config (λ c _ a, P3 c a))).
Qed.

Definition P_ : LifecycleOperationStatus.t * cstring := (LifecycleOperationStatus.Pending, []).
Definition R_ : LifecycleOperationStatus.t * cstring := (LifecycleOperationStatus.Running, []).
Definition S_ : LifecycleOperationStatus.t * cstring := (LifecycleOperationStatus.Succeeded, []).
Definition N_ (detail : cstring) : LifecycleOperationStatus.t * cstring := (LifecycleOperationStatus.Skipped, detail).

(** The resolver's stages done, in one way or the other *)
Definition before_commit (s : worker * Daemon) : Prop :=
  ∃ (stage : cstring) x y, stage ≠ "commit_config" ∧ (x = S_ ∧ y = S_ ∨ ∃ a b, x = N_ a ∧ y = N_ b) ∧ working stage true [S_; S_; S_; x; y; P_] in_force s.

Lemma keeps_config {A} (m : M A) Q : (∀ I : Daemon → Prop, Stable plain_task plain_job I → preserves I m) → ∀ P, preserves (plain P Q) m.
Proof. intros H P. apply H, _. Qed.
Lemma control_config {A} (m : M A) Q : (∀ I : Daemon → Prop, Stable plain_task plain_job I → preserves I m) → ∀ P, preserves (plain P Q) (run_control m).
Proof. intros H P. apply control_plain; [done|]. by apply keeps_config. Qed.

(** The kernel and the firewall get the new configuration *)
Lemma reconcile_stage p : prepared_config p = config →
  outcome (working "prepare_remote_lists" true [S_; S_; P_; P_; P_; P_] untouched)
    (control_stage id "reconcile_runtime" (reconcile_prepared_runtime false p))
    (λ _, working "reconcile_runtime" true [S_; S_; S_; P_; P_; P_] in_force) failed_early.
Proof.
  intros Hp. unfold control_stage.
  eapply outcome_bind; [by apply (start_working _ _ true _ [S_; S_; R_; P_; P_; P_]); vm_compute|]. intros ?.
  eapply (outcome_bind _ _ _ (λ _, working (str "reconcile_runtime") true [S_; S_; R_; P_; P_; P_] in_force));
    [|intros ?; by apply (succeed_working _ true _ [S_; S_; S_; P_; P_; P_]); vm_compute].
  intros [w d] [Hw H]. cbn in Hw. subst w. unfold within, run_control, mbind, stexc_bind. cbn [snd fst].
  pose proof (yield_plain _ untouched Hsighup d H) as H1. pose proof (yield_no_throw d) as Hnt.
  destruct (yield d) as [[[]|ex|] d1]; [|by destruct (Hnt ex)|done]. cbn [snd] in H1.
  assert (H2 : plain (λ p, p = mk_part (at_op cb seq (op_with (stages_at [S_; S_; R_; P_; P_; P_]))) dk path) (λ _ s _, s = st) d1).
  { destruct H1 as [[Hp1 [_ Hs1]] Hq1]. split; [|exact Hq1]. split; [exact Hp1|exact Hs1]. }
  pose proof (keep_reconcile_prepared_runtime plain_task plain_job _ false p d1 H2) as H3.
  pose proof (reconcile_config p d1 I) as H4.
  destruct (reconcile_prepared_runtime false p d1) as [[[]|ex|] d2]; [| |done]; cbn [snd] in H3.
  - split; [done|]. destruct H3 as [[? Hst] ?], H4 as [Hc Ha]. split; [|done]. split; [done|]. unfold has_config, in_force. cbn [snd fst].
    rewrite Hc, Ha, Hp. by split_and!.
  - apply (working_failed "reconcile_runtime" true [S_; S_; R_; P_; P_; P_] (λ _ s _, s = st)); [done|by intros|done].
Qed.

(** The two stages of the resolver *)
Lemma resolver_stages expected :
  outcome (working "reconcile_runtime" true [S_; S_; S_; P_; P_; P_] in_force)
    (reload_stage id;; op_start_stage id "verify_dnsmasq";;
     started ← within (gets (λ d, apply_started_ts (d_resolver d))); verify_stage id config expected started)
    (λ _, before_commit) failed_early.
Proof.
  unfold reload_stage, verify_stage.
  eapply (outcome_bind _ _ _ (λ _, working (str "reload_dnsmasq") true [S_; S_; S_; S_; P_; P_] in_force)).
  { eapply outcome_bind; [by apply (start_working _ _ true _ [S_; S_; S_; R_; P_; P_])|]. intros ?. eapply outcome_bind.
    { apply within_working; [done|apply in_force_failed|]. apply control_config. intros J HJ. by apply (keep_run_system_resolver_hook_reload plain_task plain_job). }
    intros ok. eapply outcome_bind; [apply check_working; [done|apply in_force_failed]|]. intros ?.
    by apply (succeed_working _ true _ [S_; S_; S_; S_; P_; P_]). }
  intros ?. eapply outcome_bind; [by apply (start_working _ _ true _ [S_; S_; S_; S_; R_; P_])|]. intros ?.
  eapply outcome_bind; [apply within_working; [done|apply in_force_failed|]; intros P; apply keep_gets|]. intros t.
  eapply outcome_bind.
  { apply within_working; [done|apply in_force_failed|]. apply control_config. intros J HJ. apply keep_confirm. }
  intros v. eapply outcome_bind; [apply check_working; [done|apply in_force_failed]|]. intros ?.
  intros s Hs. pose proof (succeed_working (str "verify_dnsmasq") true [S_; S_; S_; S_; R_; P_] [S_; S_; S_; S_; S_; P_] in_force eq_refl s Hs) as H.
  destruct (op_succeed_stage id s) as [[[]|?|] s']; [|done..]. eexists _, S_, S_. split; [|split; [by left|exact H]]. done.
Qed.
Lemma skipped_stages a b :
  outcome (working "reconcile_runtime" true [S_; S_; S_; P_; P_; P_] in_force) (skip_resolver_stages id a b) (λ _, before_commit) failed_early.
Proof.
  unfold skip_resolver_stages. eapply outcome_bind; [by apply (skip_working _ _ _ true _ [S_; S_; S_; N_ a; P_; P_])|]. intros ?.
  intros s Hs. pose proof (skip_working (str "reconcile_runtime") (str "verify_dnsmasq") b true [S_; S_; S_; N_ a; P_; P_]
    [S_; S_; S_; N_ a; N_ b; P_] in_force eq_refl s Hs) as H.
  destruct (op_skip_stage id _ b s) as [[[]|?|] s']; [|done..]. eexists _, (N_ a), (N_ b). split; [|split; [right; by eexists _, _|exact H]]. done.
Qed.

Lemma prepare_stage :
  outcome (working "prepare_remote_lists" false [S_; R_; P_; P_; P_; P_] untouched) (within (prepare_runtime_inputs config true))
    (λ p s, working "prepare_remote_lists" false [S_; R_; P_; P_; P_; P_] untouched s ∧ prepared_config p = config) failed_early.
Proof.
  intros s Hs. assert (H1 := within_working (prepare_runtime_inputs config true) (str "prepare_remote_lists") false [S_; R_; P_; P_; P_; P_] untouched).
  specialize (H1 ltac:(done) untouched_failed). specialize (H1 (keeps_config _ _ (λ J HJ, keep_prepare_runtime_inputs plain_task plain_job J config true)) s Hs).
  unfold within in *. pose proof (prepare_config true s.2 I) as H2. by destruct (prepare_runtime_inputs config true s.2) as [[p|e|] d'].
Qed.

Lemma candidate_steps :
  outcome (working [] false [P_; P_; P_; P_; P_; P_] untouched) (apply_candidate id config) (λ _, before_commit) failed_early.
Proof.
  unfold apply_candidate.
  eapply outcome_bind; [by apply (start_working _ _ false _ [R_; P_; P_; P_; P_; P_])|]. intros ?.
  eapply outcome_bind; [apply within_working; [done|apply untouched_failed|]; intros P; apply preserves_bind; [apply keep_get|intros ?; apply keep_of_exc]|]. intros ?.
  eapply outcome_bind; [by apply (succeed_working _ false _ [S_; P_; P_; P_; P_; P_])|]. intros ?.
  eapply outcome_bind; [by apply (start_working _ _ false _ [S_; R_; P_; P_; P_; P_])|]. intros ?.
  eapply (outcome_bind_pure _ _ _ (λ p, prepared_config p = config)); [apply prepare_stage|]. intros p Hp.
  eapply outcome_bind; [by apply (succeed_working _ false _ [S_; S_; P_; P_; P_; P_])|]. intros ?.
  eapply (outcome_bind _ _ _ (λ _, working (str "prepare_remote_lists") true [S_; S_; P_; P_; P_; P_] untouched)).
  { intros [w d] [Hw H]. cbn in Hw. subst w. by split. }
  intros ?. eapply outcome_bind; [by apply reconcile_stage|]. intros ?.
  eapply (outcome_bind _ _ _ (λ _, before_commit)).
  - destruct (has_system_resolver config); [|apply skipped_stages].
    eapply outcome_bind; [apply within_working; [done|apply in_force_failed|]; apply keeps_config; intros J HJ|].
    { apply preserves_bind; [by apply (keep_ask plain_task plain_job)|intros ?; apply keep_gets]. }
    intros r. destruct (resolver_is_current r); [apply skipped_stages|apply resolver_stages].
  - intros ? s (stage & x & y & Hne & Hxy & Hs).
    assert (H := within_working (run_control (complete_running_runtime "config apply verified")) stage true [S_; S_; S_; x; y; P_] in_force Hne in_force_failed).
    specialize (H (control_config _ _ (λ J HJ, keep_complete_running_runtime plain_task plain_job J "config apply verified")) s Hs).
    destruct (within _ s) as [[[]|e|] s']; [|done..]. by exists stage, x, y.
Qed.

(** The commit *)

Definition all_done (x y : LifecycleOperationStatus.t * cstring) : Prop := x = S_ ∧ y = S_ ∨ ∃ a b, x = N_ a ∧ y = N_ b.
Definition committed_with (text : cstring) (s : worker * Daemon) : Prop :=
  ∃ x y dk', all_done x y ∧ write_config_atomically path text dk = (Ok tt, dk') ∧
    d_lifecycle s.2 = at_op cb seq (op_with (stages_at [S_; S_; S_; x; y; S_])) ∧ d_disk s.2 = dk' ∧
    d_config s.2 = config ∧ d_active s.2 = true ∧ active_config_of (active_snapshot (d_store s.2)) = config.
(** Only the commit failed *)
Definition failed_late (text : cstring) (s : worker * Daemon) : Prop :=
  current_stage s.1 = "commit_config" ∧ ∃ op dk' e, op_id op = id ∧ write_config_atomically path text dk = (Throw e, dk') ∧
    plain (λ p, p = mk_part (at_op cb seq op) dk' path) in_force s.2.

Lemma publish_runtime_state_Ok (d : Daemon) : ∃ now e, publish_runtime_state d =
  (Ok tt, set_d_published (build_runtime_state_snapshot now (set_d_host e d)) (set_d_host e d)).
Proof. unfold publish_runtime_state, mbind, stexc_bind, ask. destruct (unix_timestamp_now_seconds _) as [now e]. by exists now, e. Qed.


Lemma commit_steps text s : before_commit s →
  match commit_candidate id text s with (Ok _, s') => committed_with text s' | (Throw _, s') => failed_late text s' | (Undefined, _) => True end.
Proof.
  intros (stage & x & y & _ & Hxy & Hs). unfold commit_candidate, mbind, stexc_bind.
  pose proof (start_working stage (str "commit_config") true [S_; S_; S_; x; y; P_] [S_; S_; S_; x; y; R_] in_force) as H1.
  specialize (H1 ltac:(destruct Hxy as [[-> ->]|(? & ? & -> & ->)]; reflexivity) s Hs).
  destruct (op_start_stage id (str "commit_config") s) as [[[]|?|] [w d]] eqn:E1; [|by unfold op_start_stage in E1; injection E1|done].
  clear Hs s E1. destruct H1 as [Hw [[Hp Hc] Hq]]. cbn [fst snd] in *. subst w.
  unfold within at 1, get_st. cbn [snd fst]. assert (Hpath : d_config_path d = path) by by injection Hp.
  assert (Hdk : d_disk d = dk) by by injection Hp. assert (Hlc : d_lifecycle d = at_op cb seq (op_with (stages_at [S_; S_; S_; x; y; R_]))) by by injection Hp.
  rewrite Hpath. unfold on_disk at 1. rewrite Hdk. destruct (write_config_atomically path text dk) as [r dk'] eqn:Ew.
  set (P2 := λ p, p = mk_part (at_op cb seq (op_with (stages_at [S_; S_; S_; x; y; R_]))) dk' path).
  assert (H2 : plain P2 in_force (set_d_disk dk' d)).
  { split; [|done]. split; [|done]. unfold P2, has_part, part_of. cbn. by rewrite Hlc, Hpath. }
  destruct r as [[]|e|]; [| |done].
  - unfold within at 1, run_control, mbind, stexc_bind. cbn [snd fst]. pose proof (yield_plain P2 in_force Hsighup _ H2) as H3.
    pose proof (yield_no_throw (set_d_disk dk' d)) as Hnt.
    destruct (yield (set_d_disk dk' d)) as [[[]|e|] d3]; [|by destruct (Hnt e)|done]. cbn [snd] in H3.
    destruct H3 as [[Hp3 (Hc3 & Hs3 & Ha3)] Hq3]. cbn in Hc3, Hs3, Ha3. injection Hp3 as Hlc3 Hdk3 Hpath3.
    unfold publish_active_snapshot, modify. cbn [snd fst].
    destruct (publish_runtime_state_Ok (set_d_store (clear_staged_if_matches text
      (d_store (set_d_store (replace_active (d_config d3) (d_marks d3) (d_store d3)) d3))) (set_d_store (replace_active (d_config d3) (d_marks d3) (d_store d3)) d3)))
      as (now & ho & ->).
    unfold op_succeed_stage, within, on_lifecycle, modify. cbn -[clear_staged_if_matches]. eexists x, y, dk'.
    split; [exact Hxy|]. split; [exact Ew|]. cbn -[clear_staged_if_matches]. rewrite Hlc3. unfold succeed_stage. rewrite mutate_at_op by done.
    split; [destruct Hxy as [[-> ->]|(? & ? & -> & ->)]; reflexivity|]. split; [done|]. split; [done|]. split; [done|].
    unfold clear_staged_if_matches. cbn. destruct (staged_config_json_ (d_store d3)) as [j|]; [|done]. by case_match.
  - split; [done|]. eexists _, dk', e. split; [|split; [done|exact H2]]. done.
Qed.

(** Failures *)

Lemma plain_quiet d : queues plain_task plain_job d → queues quiet_task quiet_job (d : Daemon).
Proof. intros [H1 H2]. split; eapply Forall_impl; try done; [apply quiet_admits|apply quiet_admits]. Qed.

Definition gave_up (m : RuntimeStateMachine) : Prop := state_ m = RuntimeState.broken ∨ state_ m = RuntimeState.shutting_down.

Lemma mark_broken_state P Q reason d : plain P Q d →
  match mark_broken reason d with
  | (Ok _, d') => plain P Q d' ∧ gave_up (d_machine d')
  | (Throw _, _) => False
  | (Undefined, _) => True
  end.
Proof.
  intros H. unfold mark_broken, try_catch_all, run_control, mbind, stexc_bind.
  pose proof (yield_plain P Q Hsighup d H) as H1. pose proof (yield_no_throw d) as Hnt.
  destruct (yield d) as [[[]|e|] d1]; [|by destruct (Hnt e)|done]. cbn [snd] in H1.
  pose proof (keep_try_transition plain_task plain_job (plain P Q) RuntimeState.broken reason d1 H1) as H2. unfold try_transition, modify in *. cbn [snd] in H2.
  set (d2 := set_d_machine _ d1) in *. pose proof (keep_publish_runtime_state plain_task plain_job (plain P Q) d2 H2) as H3.
  destruct (publish_runtime_state_Ok d2) as (now & ho & Hp). rewrite Hp in *. split; [exact H3|]. cbn. unfold gave_up, transition.
  destruct (d_machine d1) as [[] ?]; cbn; auto.
Qed.

Lemma finish_only error d : ∃ d' now, finish_lifecycle id error d = (Ok tt, d') ∧ d_disk d' = d_disk d ∧ d_config d' = d_config d ∧
  d_store d' = d_store d ∧ d_active d' = d_active d ∧ d_machine d' = d_machine d ∧ d_lifecycle d' = finish id error now (d_lifecycle (d : Daemon)).
Proof. unfold finish_lifecycle, mbind, stexc_bind, ask. destruct (unix_timestamp_now_seconds _). by eexists _, _. Qed.

(** Nothing is committed, and a runtime that was changed is broken *)
Lemma fail_early error reason w d : failed_early (w, d) →
  match fail_operation id w error reason d with
  | (Ok _, d') => d_disk d' = dk ∧ active_snapshot (d_store d') = st ∧ (d_config d' = c0 ∨ gave_up (d_machine d'))
  | (Throw _, _) => False
  | (Undefined, _) => True
  end.
Proof.
  intros [Hstage [[Hp [Hst Hc]] Hq]]. cbn [fst snd] in *. unfold fail_operation, mbind, stexc_bind.
  assert (∃ d1, (if bool_decide (current_stage w = []) then mret tt else on_lifecycle (fail_stage id (current_stage w) error)) d = (Ok tt, d1) ∧
    d_disk d1 = dk ∧ active_snapshot (d_store d1) = st ∧ d_config d1 = d_config d ∧ queues plain_task plain_job d1) as (d1 & -> & Hd1 & Hst1 & Hc1 & Hq1).
  { destruct Hp as (op & _ & _ & Hdk & _). destruct (bool_decide _); by eexists. }
  rewrite (bool_decide_eq_false_2 (current_stage w = "commit_config")) by done. cbn [negb]. rewrite andb_true_r.
  destruct (runtime_mutated w).
  - pose proof (mark_broken_state (λ p, part_disk p = dk) (λ _ s _, s = st) reason d1) as H2.
    specialize (H2 (conj (conj Hd1 Hst1) Hq1)). destruct (mark_broken reason d1) as [[[]|e|] d2]; [|done..].
    destruct H2 as [[[Hd2 Hst2] _] Hm]. destruct (finish_only error d2) as (d3 & ? & -> & Hd3 & _ & Hst3 & _ & Hm3 & _).
    unfold has_part, has_config in *. cbn in Hd2. rewrite Hd3, Hst3, Hm3. by split_and!; [|..|right].
  - unfold mret, stexc_ret. destruct (finish_only error d1) as (d3 & ? & -> & Hd3 & Hc3 & Hst3 & _).
    rewrite Hd3, Hst3, Hc3, Hc1. split_and!; [done..|]. left. by apply Hc.
Qed.

(** The candidate stays in force, and the file is the old or the new one *)
Lemma fail_late text error reason w d : failed_late text (w, d) →
  match fail_operation id w error reason d with
  | (Ok _, d') => (∃ e, write_config_atomically path text dk = (Throw e, d_disk d')) ∧ active_snapshot (d_store d') = st ∧
                  d_config d' = config ∧ d_active d' = true
  | (Throw _, _) => False
  | (Undefined, _) => True
  end.
Proof.
  intros [Hstage (op & dk' & e & Hop & Hw & [[Hp (Hc & Hst & Ha)] Hq])]. cbn [fst snd] in *. unfold fail_operation, mbind, stexc_bind.
  assert (∃ d1, (if bool_decide (current_stage w = []) then mret tt else on_lifecycle (fail_stage id (current_stage w) error)) d = (Ok tt, d1) ∧
    d_disk d1 = dk' ∧ active_snapshot (d_store d1) = st ∧ d_config d1 = config ∧ d_active d1 = true) as (d1 & -> & Hd1 & Hst1 & Hc1 & Ha1).
  { injection Hp as _ Hdk _. destruct (bool_decide _); by eexists. }
  rewrite (bool_decide_eq_true_2 (current_stage w = "commit_config")) by done. cbn [negb]. rewrite andb_false_r.
  unfold mret, stexc_ret. destruct (finish_only error d1) as (d3 & ? & -> & Hd3 & Hc3 & Hst3 & Ha3 & _).
  rewrite Hst3, Hc3, Ha3. split; [|done]. exists e. by rewrite Hd3, Hd1.
Qed.
End apply.

End verified.
