(* ===== verification/DaemonSample.v ===== *)
(** * The daemon on a concrete system

    A system with lists of routes and rules, a firewall that records what it is
    asked, a resolver that serves what it is reloaded with, and a script of what
    the event loop does while a worker waits.  It shows that what is proved of
    the daemon can be met, and what the daemon does in some situations. *)

From S2P Require Import Prelude CppString Fwmark Netlink Json JsonSample ConfigJson ApiJson Runtime RouteTable PolicyRule RoutingReconciler RoutingState.
From S2P Require Import AddrSpec FirewallRules Firewall CircuitBreaker UrlTest ListStreamer Cache ListService ConfigStore.
From S2P Require Import DnsServer DnsProbe DnsTxt Dnsmasq ResolverSync OutboundHealth Cron Validation KeeneticDns.
From S2P Require Import DaemonState DaemonRuntime DaemonControl DaemonFrame DaemonVerified Config.

Local Open Scope Z_scope.

Module DaemonSample.

(** ** The system *)

(** The events of each wait, the hashes the resolver serves after each reload,
    the one it serves now, and the number of configurations it asked for *)
Record w_system := mk_system {
  script : list (list loop_event);
  to_serve : list cstring;
  served : cstring;
  streams : Z;
}.

#[local] Existing Instances insertion_StdSort w_inet ConfigJson.w_nlohmann JsonSample.w_text JsonSample.w_dump w_localtime.
#[local] Instance w_lists_world : CacheWorld (gmap cstring cstring) := CacheSample.w_cache_world (CacheSample.w_answer "v2") None (λ _, false).
#[local] Instance w_disk_world : ConfigFiles (gmap cstring (cstring * Z)) := ConfigStoreSample.w_config_files false.
#[local] Instance w_firewall : Firewall (list Firewall.call) := recorder (λ n _, n) (λ n _, n).
#[local] Instance w_scheduler : TaskScheduler Z := {| schedule_repeating _ _ n := (Ok n, n + 1); cancel _ n := (Ok tt, n) |}.
#[local] Instance w_oneshot : OneShot Z := {| schedule_oneshot _ _ n := (Ok n, n + 1); cancel_all n := n |}.
#[local] Instance w_list_files : ListFiles (gmap cstring cstring) := {| list_files _ :=
  {| file_at _ := {| open_error := Some (str "none"); stat_error := None; is_regular := false; st_size := 0; reads := [] |}; path_exists _ := false |} |}.
#[local] Instance w_interfaces : InterfaceNetlink RoutingReconciler.lists := {| dump_interfaces k := (Ok [], k) |}.

#[local] Program Instance w_route_netlink : Netlink RoutingReconciler.lists RouteSpec DumpedRoute := {|
  nl_add := add_route; nl_delete := delete_route; realize := lk_shown; installed k x := x ∈ k.1 |}.
Next Obligation.
  intros k r. cbn. case_bool_decide as H; [done|]. split; [done|]. intros x. cbn. by rewrite elem_of_cons.
Qed.
Next Obligation.
  intros k r. cbn. case_bool_decide as H; [|done]. intros x. cbn. rewrite elem_of_remove_if, bool_decide_eq_false. naive_solver.
Qed.
#[local] Program Instance w_rule_netlink : Netlink RoutingReconciler.lists RuleSpec DumpedRule := {|
  nl_add r := add_rule_for_family r (rl_family r); nl_delete r := delete_rule_for_family r (rl_family r);
  realize r := rule_from_spec r (rl_family r); installed k x := x ∈ k.2 |}.
Next Obligation.
  intros k r. cbn. case_bool_decide as H; [done|]. split; [done|]. intros x. cbn. by rewrite elem_of_cons.
Qed.
Next Obligation.
  intros k r. cbn. case_bool_decide as H; [|done]. intros x. cbn. rewrite elem_of_remove_if, bool_decide_eq_false. naive_solver.
Qed.

(** A system in which the event loop meets only the events that [allowed] accepts *)
Definition w_host_with (allowed : loop_event → bool) : Host w_system := {|
  unix_timestamp_now_seconds e := (100, e);
  system_clock_now e := (100000000000, e);
  system_ipv6_supported _ := false;
  resolved_backend _ _ := Ok FirewallBackend.nftables;
  iptables_ipv6_supported _ := true;
  nft_ipv6_supported _ := true;
  net_devices _ := {| if_nametoindex _ := 5; ifr_flags _ := Some 1 |};
  keenetic_addresses _ := Ok [];
  keenetic_static _ := [];
  keenetic_upstreams _ := [];
  refresh_keenetic_dns_address_cache _ e := (Ok KeeneticDnsRefreshStatus.UNCHANGED, e);
  system_info _ := w_info;
  hook_command_executor _ e := (Ok 0, mk_system (script e) (tail (to_serve e)) (value_or (head (to_serve e)) (served e)) (streams e + 1));
  resolver_stream_completed := streams;
  serve_control_socket e := e;
  wait_turns _ := 5%nat;
  query_resolver_config_hash_txt _ _ e := Ok (mk_ProbeResult ResolverConfigHashProbeStatus.SUCCESS None (mk_TxtValue (Some 100) (served e)) []);
  probe_clock _ k := 1000 * (Z.of_nat k + 1);
  conntrack_command _ e := (Ok {| exit_code := 0; command_output := [] |}, e);
  start_dns_probe _ e := (Ok tt, e);
  stop_dns_probe e := e;
  set_safe_exec_timeouts _ _ e := e;
  register_interface_monitor_fd e := (Ok tt, e);
  urltest_clock _ _ := 0;
  urltest_results _ _ := [];
  remove_pid_file e := e;
  executor_accepts _ e := (true, e);
  loop_events e := (List.filter allowed (value_or (head (script e)) []), mk_system (tail (script e)) (to_serve e) (served e) (streams e));
  loop_serves _ := true;
|}.

#[local] Instance w_host : Host w_system := w_host_with (λ _, true).
Definition not_sighup (ev : loop_event) : bool := match ev with SignalHup => false | _ => true end.

(** Two documents, by name *)
Definition w_other_document : json :=
  w_document "auto" "192.168.1.2" [(str "dest_port", jstr "80"); (str "outbound", jstr "vpn"); (str "proto", jstr "tcp")].
#[local] Instance w_build : DaemonBuild := {|
  cache := CacheSample.w_cache; client := CacheSample.w_client; use_keenetic_api := false; version := "3.0"; hook_path := "/hook";
  parse_json text := if bool_decide (text = "plain") then Ok w_plain_document
                     else if bool_decide (text = "other") then Ok w_other_document
                     else Throw (json_exception "no document") |}.
Definition w_other_config : Config := from_exc default_Config (w_validate w_other_document).

Abbreviation Daemon := (DaemonState.Daemon RoutingReconciler.lists (list Firewall.call) Z (gmap cstring (cstring * Z)) (gmap cstring cstring) w_system).

(** The daemon after its construction *)
Definition w_path : cstring := "/etc/keen-pbr/config.json".
Definition w_daemon (text : cstring) (config : Config) (e : w_system) : Daemon :=
  let marks := from_exc ∅ (allocate_outbound_marks (daemon_fwmark config) (daemon_outbounds config)) in
  let mask := from_exc 0 (fwmark_mask_value (daemon_fwmark config)) in
  mk_Daemon config w_path marks ([], []) empty_RouteTable empty_PolicyRuleManager [] (mk_FirewallState marks mask [] ∅)
    (mk_ConntrackManager (mk_ConntrackPolicy false)) initial_RuntimeStateMachine true 1 None 1 no_timers
    (mk_Resolver 0 initial_sync (mk_ResolverMetadata [] []) None false) false
    (mk_ConfigStore config marks None None) default_RuntimeSnapshot
    (mk_Lifecycle (mk_Store None None) None 0) (mk_OperationCoordinator false []) ConfigOperationState.Idle true [] []
    {[ w_path := (text, 384) ]} ∅ e.

(** The hash of a configuration *)
Definition w_hash (config : Config) : cstring :=
  match make_resolver_generation_snapshot (w_daemon [] config (mk_system [] [] [] 0)) with
  | Ok g => generation_expected_hash g | _ => [] end.

(** ** Starting *)

Definition startup_events : list loop_event := [TaskDone; JobDone; TaskDone; JobDone; TaskDone; JobDone; TaskDone].
Definition w_plain_hash : cstring := w_hash w_plain_config.
Definition w_other_hash : cstring := w_hash w_other_config.

Definition w_start : exc unit * Daemon :=
  (publish_runtime_state;; post_control_task StartupRuntime;; for_each dispatch startup_events)
    (w_daemon "plain" w_plain_config (mk_system [] [w_plain_hash] [] 0)).
(** The daemon after it has started, on the system [e] *)
Definition w_running (e : w_system) : Daemon := set_d_host e w_start.2.

Lemma startup_reaches_running :
  w_start.1 = Ok tt ∧ state_ (d_machine w_start.2) = RuntimeState.running ∧ d_active w_start.2 = true ∧ d_tasks w_start.2 = [].
Proof. vm_compute. done. Qed.

(** ** What can be met *)

(** A system whose resolver will serve [hashes], one per reload, and whose event
    loop does [waits] while a worker waits *)
Definition w_next (waits : list (list loop_event)) (hashes : list cstring) : w_system := mk_system waits hashes w_plain_hash 1.
Definition w_apply : LifecycleRequest := mk_Request LifecycleOperationType.ApplyConfig (Some w_other_config) "other".
Definition w_request (type : LifecycleOperationType.t) : LifecycleRequest := mk_Request type None [].
Definition w_id : cstring := "lifecycle-1".

(** A request of the API: the daemon when its worker starts, and when it ends *)
Definition w_submitted (request : LifecycleRequest) (e : w_system) : Daemon :=
  let d := (submit_lifecycle_operation request (w_running e)).2 in set_d_jobs (List.filter (λ j, negb (is_lifecycle j)) (d_jobs d)) d.
Definition w_request_ends (request : LifecycleRequest) (e : w_system) : exc unit * Daemon :=
  execute_lifecycle_operation w_id request (w_submitted request e).

Definition w_busy : list (list loop_event) := [[SignalUsr1]; [InterfaceEvent true (str "wg0")]; [SignalHup; JobDone; TaskDone]; [TaskDone; JobDone; TaskDone]].

Definition w_applying : Daemon := w_submitted w_apply (w_next w_busy [w_other_hash]).
Definition w_op : LifecycleOperationSnapshot := op_with w_id 100 (lifecycle_stages LifecycleOperationType.ApplyConfig).
Lemma w_applying_lifecycle : d_lifecycle w_applying = at_op None 1 w_op.
Proof. vm_compute. reflexivity. Qed.
Lemma w_applying_queues : queues plain_task plain_job w_applying.
Proof.
  assert (forallb plain_task (d_tasks w_applying) && forallb plain_job (d_jobs w_applying) = true) as H by (vm_compute; reflexivity).
  apply andb_prop in H as [Ht Hj]. split; by apply List.Forall_forall, forallb_forall.
Qed.
#[local] Opaque w_applying.

Section calm.
#[local] Instance w_calm : Host w_system := w_host_with not_sighup.

Lemma w_no_sighup : no_sighup.
Proof. intros e H. cbn in H. apply list_elem_of_In, List.filter_In in H. by destruct H. Qed.

#[local] Transparent w_applying.
Lemma apply_returns : (execute_lifecycle_operation w_id w_apply w_applying).1 = Ok tt.
Proof. vm_compute. reflexivity. Qed.
#[local] Opaque w_applying.

Lemma returned_operation_is_over_witness :
  ∃ d', execute_lifecycle_operation w_id w_apply w_applying = (Ok tt, d') ∧ op_over w_id d'.
Proof.
  assert (Hop : op_active w_id (part_of w_applying)) by exact (op_active_at w_id None 1 w_op w_applying w_applying_lifecycle eq_refl).
  pose proof (plain_quiet _ w_applying_queues) as Hq. pose proof apply_returns as Hret.
  destruct (execute_lifecycle_operation w_id w_apply w_applying) as [r d'] eqn:E. cbn [fst] in Hret. subst r.
  exists d'. split; [reflexivity|].
  apply (returned_operation_is_over w_id w_apply w_applying (Ok tt) d' Hop Hq E). discriminate.
Defined.

End calm.

(** ** What the daemon does in some situations *)

Definition w_result (d : Daemon) : option (LifecycleOperationResult.t * cstring) :=
  (λ op, (op_result op, op_error op)) <$> snapshot_ (store_ (d_lifecycle d)).
Definition w_config_hashes (d : Daemon) : cstring * cstring := (w_hash (d_config d), w_hash (active_config_of (active_snapshot (d_store d)))).
Definition w_routes_rules (d : Daemon) : nat * nat := (length (d_netlink d).1, length (d_netlink d).2).
Definition w_reload_error (t : task) : option cstring := match t with SighupComplete r => Some (apply_error r) | _ => None end.

(** An apply of another configuration succeeds, and is in the file *)
Lemma apply_changes_everything :
  let '(r, d) := w_request_ends w_apply (w_next [] [w_other_hash]) in
  r = Ok tt ∧ w_result d = Some (LifecycleOperationResult.Succeeded, []) ∧ w_config_hashes d = (w_other_hash, w_other_hash) ∧
  file (d_disk d) w_path = Some (str "other") ∧ state_ (d_machine d) = RuntimeState.running ∧ w_plain_hash ≠ w_other_hash.
Proof. vm_compute. repeat split; discriminate. Qed.

(** The resolver does not confirm: nothing is committed, and the runtime is broken *)
Lemma unconfirmed_apply_is_not_committed :
  let '(r, d) := w_request_ends w_apply (w_next [] [w_plain_hash]) in
  r = Ok tt ∧ fst <$> w_result d = Some LifecycleOperationResult.Failed ∧ w_config_hashes d = (w_other_hash, w_plain_hash) ∧
  file (d_disk d) w_path = Some (str "plain") ∧ state_ (d_machine d) = RuntimeState.broken.
Proof. vm_compute. repeat split; discriminate. Qed.

(** A reload by SIGHUP takes the new file and runs with it, but its result is a
    failure: the last step asks the state machine to go from running to running. *)
Definition w_sighup : list loop_event := [SignalHup; JobDone; JobDone; TaskDone; TaskDone; JobDone; TaskDone; JobDone; TaskDone].
Lemma sighup_reload_reports_failure :
  let '(r, d) := for_each dispatch w_sighup
    (set_d_disk {[ w_path := (str "other", 384) ]} (w_running (w_next [] [w_other_hash]))) in
  r = Ok tt ∧ w_config_hashes d = (w_other_hash, w_other_hash) ∧ state_ (d_machine d) = RuntimeState.running ∧
  w_reload_error <$> d_tasks d = [Some (str "invalid runtime transition: running -> running")].
Proof. vm_compute. repeat split. Qed.

(** Starting a daemon that runs breaks it *)
Lemma start_of_running_breaks :
  let '(r, d) := w_request_ends (w_request LifecycleOperationType.Start) (w_next [] [w_plain_hash]) in
  r = Ok tt ∧ fst <$> w_result d = Some LifecycleOperationResult.Failed ∧ state_ (d_machine d) = RuntimeState.broken.
Proof. vm_compute. repeat split. Qed.

(** A stop reports success and leaves the routes and rules in the kernel: the
    tables remember what they add themselves, not what the reconciler added. *)
Lemma stop_leaves_routes_and_rules :
  let '(r, d) := w_request_ends (w_request LifecycleOperationType.Stop) (w_next [] []) in
  r = Ok tt ∧ fst <$> w_result d = Some LifecycleOperationResult.Succeeded ∧ state_ (d_machine d) = RuntimeState.stopped ∧
  w_routes_rules (w_running (w_next [] [])) = (1, 1)%nat ∧ w_routes_rules d = (1, 1)%nat.
Proof. vm_compute. repeat split. Qed.

(** An interface that comes up after a stop has the firewall applied again *)
Lemma interface_event_revives_stopped :
  let stopped := (w_request_ends (w_request LifecycleOperationType.Stop) (w_next [] [])).2 in
  let '(r, d) := dispatch (InterfaceEvent true (str "wg0")) stopped in
  r = Ok tt ∧ state_ (d_machine d) = RuntimeState.stopped ∧ d_active d = false ∧
  (length (d_firewall stopped) < length (d_firewall d))%nat.
Proof. vm_compute. repeat split; lia. Qed.

(** After an apply nothing checks the resolver periodically any more *)
Lemma apply_drops_periodic_check :
  let before := w_running (w_next [] [w_other_hash]) in
  let '(r, d) := w_request_ends w_apply (w_next [] [w_other_hash]) in
  r = Ok tt ∧ 0 <= resolver_hash_task_id (d_timers before) ∧ resolver_hash_task_id (d_timers d) = -1.
Proof. vm_compute. repeat split; discriminate. Qed.

(** A SIGHUP during an apply: the operation succeeds and its text is in the file,
    but the daemon ends with the configuration it had before.  The two use
    different coordinators. *)
Definition w_race : list (list loop_event) :=
  [[SignalHup; JobDone; JobDone; TaskDone; JobDone]; []; []; []; [TaskDone; TaskDone; JobDone; TaskDone; TaskDone]].
Lemma sighup_during_apply :
  let '(r, d) := w_request_ends w_apply (w_next w_race [w_other_hash; w_plain_hash]) in
  r = Ok tt ∧ fst <$> w_result d = Some LifecycleOperationResult.Succeeded ∧ file (d_disk d) w_path = Some (str "other") ∧
  w_config_hashes d = (w_plain_hash, w_plain_hash).
Proof. vm_compute. repeat split. Qed.

(** An update of the lists that changes the runtime is the last one: the next is
    scheduled only when the runtime was not reloaded. *)
Definition w_updating : Daemon :=
  let d := w_running (w_next [] []) in let c := d_config d in
  set_d_config (Build_Config (api c) (daemon c) (dns c) (fwmark c) (iproute c) (lists c)
    (Some (Build_ListsAutoupdateConfig (Some (str "0 4 * * *")) (Some true))) (outbounds c) (route c)) d.
Lemma changed_list_ends_autoupdate :
  let changed := mk_Refresh [str "sites"] [] [str "sites"] [] [str "sites"] [] [] in
  let unchanged := mk_Refresh [str "sites"] [] [] [str "sites"] [] [] [] in
  let scheduled result := d_sched (run_lists_refresh_commit true (d_generation w_updating) (Some result) [] w_updating).2 - d_sched w_updating in
  scheduled unchanged = 1 ∧ scheduled changed = 0.
Proof. vm_compute. done. Qed.

(** A shutdown that comes while the daemon applies a configuration stops at its
    first step: neither the executors nor the firewall are cleaned up. *)
Lemma shutdown_while_applying (d : Daemon) :
  state_ (d_machine d) = RuntimeState.applying → ∃ error, shutdown_runtime d = (Throw (DaemonError error), d).
Proof.
  destruct (d_machine d) as [state reason] eqn:Hm. intros H. cbn in H. subst state. eexists.
  unfold shutdown_runtime, transition_runtime_or_throw, mbind, stexc_bind. rewrite Hm. reflexivity.
Qed.
End DaemonSample.
