(* ===== verification/DaemonIpcSample.v ===== *)
(** * The control socket on a concrete daemon

    Clients of the daemon of the sample system: root and another user, a daemon
    that runs and one that was stopped, and a request whose error cannot be
    answered. *)

From S2P Require Import Prelude CppString Fwmark Netlink Json JsonSample ConfigJson Runtime RoutingState.
From S2P Require Import AddrSpec FirewallRules Firewall UrlTest ListStreamer Cache ListService ConfigStore ControlProtocol.
From S2P Require Import DnsProbe Dnsmasq Cron Validation TestRoutingReport DaemonState DaemonRuntime DaemonIpc DaemonSample Config.

Local Open Scope Z_scope.

Module DaemonIpcSample.
Import DaemonSample.
#[local] Existing Instances insertion_StdSort w_inet ConfigJson.w_nlohmann JsonSample.w_text JsonSample.w_dump w_localtime.
#[local] Existing Instances w_lists_world w_disk_world w_firewall w_scheduler w_oneshot w_list_files w_interfaces w_route_netlink w_rule_netlink w_host w_build.
#[local] Existing Instances TestRoutingReportSample.w_lookups_dns TestRoutingReportSample.w_dotted.

Definition w_frame (request : json) : cstring := from_exc [] (encode_message request).
Definition w_request (operation : cstring) : json :=
  JObj [(str "operation", JStr operation); (str "protocol_version", JInt 1); (str "request_id", JStr "r")].
Definition w_ipc (d : Daemon) (l : list accepted) : ipc_world Daemon := mk_ipc d false false l [].
Definition w_serve (d : Daemon) (l : list accepted) : exc unit * ipc_world Daemon :=
  handle_ipc_control_socket (λ _ _, false) (λ _, str "not JSON") (λ _ _, 0) (w_ipc d l).

(** A daemon after its start: another user gets an error, root a stream; a daemon
    that was stopped sends root the reason *)
Definition w_up : Daemon := w_running (mk_system [] [] [] 0).
Definition w_down : Daemon := set_d_machine (mk_RuntimeStateMachine RuntimeState.stopped "stopped") w_up.
Definition w_dnsmasq (fd : Z) (uid : Z) : accepted := Client (mk_client fd (Some uid) (w_frame (cli_request "dnsmasq"))).

Lemma clients_of_a_running_daemon : let '(r, w) := w_serve w_up [w_dnsmasq 9 1000; w_dnsmasq 10 0] in
  r = Ok tt ∧ match i_effects w with [Sent 9 _; Closed 9; Dispatched j] => sj_client j = 10 | _ => False end.
Proof. vm_compute. done. Qed.
Lemma client_of_a_stopped_daemon : let '(r, w) := w_serve w_down [w_dnsmasq 10 0] in
  r = Ok tt ∧ i_effects w = [Sent 10 (ControlProtocolSample.w_error "runtime_stopped"); Closed 10].
Proof. vm_compute. done. Qed.

Lemma stopped_daemon_ends_in_fallback_witness :
  let '(r, w') := handle_client (λ _ _, false) (λ _, str "not JSON") (λ _ _, 0) (mk_client 10 (Some 0) (w_frame (cli_request "dnsmasq"))) (w_ipc w_down []) in
  r = Ok tt ∧ i_daemon w' = w_down ∧ i_effects w' = [Sent 10 (ControlProtocolSample.w_error "runtime_stopped"); Closed 10] ∧
  ∃ wc', generate_resolver_config (IO := ControlProtocolSample.w_io false) (λ _ _, false) (λ _, str "not JSON") 5 "/run/keen-pbr.sock" "/etc/c" "/etc/c" "dnsmasq"
      (Some (str "server=1.1.1.1")) 100 (ControlProtocolSample.mk_connection (ControlProtocolSample.w_error "runtime_stopped") [] [] []) = (Ok tt, wc') ∧
    ControlProtocolSample.w_printed wc' = (emit_resolver_fallback (Some (str "server=1.1.1.1")) "runtime_stopped" 100).1.
Proof.
  apply (stopped_daemon_ends_in_fallback (λ _ _, false) (λ _, str "not JSON") (λ _ _, 0) (IO := ControlProtocolSample.w_io false)
    (CL := ControlProtocolSample.w_laws false) ControlProtocolSample.w_compact_reparses "dnsmasq" (w_frame (cli_request "dnsmasq")) eq_refl
    (mk_client 10 (Some 0) (w_frame (cli_request "dnsmasq"))) (w_ipc w_down []) "runtime_stopped" (ControlProtocolSample.w_error "runtime_stopped")
    5 "/run/keen-pbr.sock" "/etc/c" (str "server=1.1.1.1") 100 (ControlProtocolSample.mk_connection (ControlProtocolSample.w_error "runtime_stopped") [] [] [])).
  - reflexivity.
  - reflexivity.
  - reflexivity.
  - reflexivity.
  - exact ControlProtocolSample.w_reliable.
  - reflexivity.
  - vm_compute. reflexivity.
  - by constructor.
  - discriminate.
Defined.

(** The library refuses to print a text that is not UTF-8, and its message for a
    text it cannot parse repeats what it read.  After a request with such a byte the
    error cannot be answered, the exception leaves the
    handler, the client is not closed and the next one is not served. *)
Lemma unprintable_error_leaves_the_handler :
  let '(r, w) := handle_ipc_control_socket (λ _ _, false) (λ text, "last read: " ++ text) (λ _ _, 0)
    (w_ipc w_up [Client (mk_client 9 (Some 0) (htonl 1 ++ [chr 255])); w_dnsmasq 10 0]) in
  r = Throw (json_exception "invalid UTF-8 byte") ∧ i_effects w = [] ∧ length (i_pending w) = 1%nat.
Proof. vm_compute. done. Qed.
End DaemonIpcSample.
